(* ===== verification/_CoqProject ===== *)
-Q . S2P
Prelude.v
FreeMap.v
Platform.v
Section.v
Float.v
Cbor.v
CborCodec.v
Fibonacci.v
Buffer.v
Block.v
Bitset.v
Bloom.v
ElasticBloom.v
AttenuatedBloom.v
DList.v
Wal.v
IndexEntry.v
Index.v
IndexMap.v
IndexLog.v
IndexStore.v
WireBase.v
WirePing.v
WireBlock.v
WireRelay.v
WireClosest.v
Framer.v
Wire.v
RelayServer.v
Delivery.v
Effect.v
Tuple.v
OffWrite.v
DescWrite.v
DescRead.v
Descriptor.v
OffRead.v
OffFile.v
Lru.v
TupleCache.v
Sections.v
SectionsStore.v
BlockCache.v
BlockCacheStore.v
BlockCacheActor.v
BlockCacheSpec.v
BlockCacheSystem.v
BlockCacheProps.v
Base58.v
OffUrl.v
Representation.v
FloatRatio.v
BlockGc.v
GcSystem.v
ClientApiBase.v
ClientApiTransfer.v
ClientApiBlock.v
ClientApiAdmin.v
ClientApiOps.v
ClientApi.v
ClientHandlers.v
UnixPipelines.v
UnixConnection.v
UnixSession.v
UnixFile.v
UnixUpload.v
UnixLimits.v
WsFrame.v
RemoteConnection.v
TcpConnection.v
WsUpgrade.v
