(* ===== verification/Prelude.v ===== *)
(** * liboffs: a verification development

    liboffs is an implementation of the Owner-Free File System: a file is cut
    into blocks, each block is xored with random blocks, and only the results,
    addressed by their BLAKE3 hash, are stored and exchanged with peers.  This
    development models the parts of the library below as executable functions
    and proves what they guarantee.  Every definition that models code has the
    name of the C function, type or case it models.

    ** The program and the files that model it

    Streams (src/src/OFFStreams).  A PUT runs a [writeable_off_stream] that cuts
    the file into blocks and a [writeable_descriptor] that stores the hashes; a
    GET runs a [readable_descriptor] and a [readable_off_stream].
    - [Tuple]: tuple.c.  [OffWrite]: writeable_off_stream.c.  [DescWrite]:
      writeable_descriptor.c.  [DescRead]: readable_descriptor.c and ori.c.
      [OffRead]: readable_off_stream.c.  Each stream is an actor: a state record
      and one handler per message, which returns the new state and the effects
      in order ([Effect]).
    - [Descriptor] composes the two descriptor streams, [OffFile] all four.
    - [TupleCache]: tuple_cache.c, the cache of decoded blocks, on [Lru].
    - [Base58] (Util/base58.c) and [OffUrl] (off_url.c, Util/validation.c): the
      URLs files are named by.  [Representation]: representation_actor.c, the
      walk over the blocks of a file.

    Block store (src/src/BlockCache).  The block cache actor keeps an index from
    hashes to places, a pool of section files, and a cache of blocks in memory.
    - [Buffer] (Buffer/buffer.c), [Block] (block.c), [Fibonacci] (fibonacci.c).
    - [FreeMap], [Platform], [Section]: section.c with the file operations it
      uses; [Sections]: the pool, sections.c; [SectionsStore]: its contract.
    - [Wal] (wal.c), [IndexEntry], [Index], [IndexLog], [IndexStore] (index.c):
      the trie, its write-ahead log, snapshots and recovery; [IndexMap]: the map
      the trie implements.
    - [DList], [Lru]: the linked lists of the three LRU caches.
    - [BlockCache]: block_cache.c, every message of [block_cache_dispatch] over
      the models of the index, the pool and the LRU cache.  [BlockCacheStore],
      [BlockCacheActor], [BlockCacheSpec]: the messages one by one and the
      specification of the actor; [BlockCacheSystem]: the cache and the sections
      as two actors with the messages between them; [BlockCacheProps]: the
      theorems.
    - [BlockGc]: block_gc.c, the collection of the blocks that no listed file
      uses, on [FloatRatio] and the elastic Bloom filter; [GcSystem]: the
      collector with the representation walks and the block cache.

    Filters (src/src/Bloom).  [Bitset], [Bloom], [ElasticBloom],
    [AttenuatedBloom].

    Network (src/src/Network).
    - [WireBase], [WirePing], [WireBlock], [WireRelay], [WireClosest]: the codecs
      of wire.c; [Wire]: the interface they share and the dispatch of received
      bytes (network.c).
    - [Framer]: stream_framer.c.  [RelayServer]: Relay/relay_server.c.
      [Delivery]: a message from one node to another, over a connection or
      through a relay (quic_peer_send.c, conn_state.c, relay_client.c).

    Client API (src/src/ClientAPI).  A client on a Unix socket sends CBOR frames;
    its connection is an actor that starts the streams above.
    - [ClientApiBase], [ClientApiTransfer], [ClientApiBlock], [ClientApiAdmin],
      [ClientApiOps]: the codecs of client_api_wire.c, each an instance of one
      interface; [ClientApi]: the protocol as a whole.
    - [ClientHandlers]: block_handlers.c, cache_handlers.c, config_handlers.c,
      peer_handlers.c and representation_api.c.
    - [UnixPipelines], [UnixConnection]: Unix/unix_connection.c.  [UnixSession]:
      a connection with its mailbox and its socket; [UnixUpload]: the frames of
      a streamed PUT; [UnixFile]: a file from PUT to GET; [UnixLimits]: the end
      of a LOAD, and where a connection falls short.

    Code that is not part of the repository is a parameter: libcbor ([Cbor] with
    [CborLaws], [CborSerial] with its laws, implemented by [CborCodec] for the
    examples), BLAKE3 ([Blake3]), xxHash ([Xxh3], [Xxh32], [Xxh64]).  Binary32
    arithmetic is the standard library's [SpecFloat] ([Float]).

    ** What the theorems show

    - Files: what a PUT writes a GET renders, for any tuple size, offset and
      order of answers; a GET terminates; load mode never mixes blocks.
    - Block store: the block cache implements a map from hashes to blocks, a
      block that was put is returned, no request is lost, an aborted group of
      puts leaves nothing behind.  The pool and a section implement a store of
      blocks by place, under any pattern of I/O failures; a compaction survives a
      crash.  The index implements a finite map, and any history of operations,
      snapshots and crashes answers as its operations alone.
    - Network: every message that is encoded is decoded again; frames are cut out
      of a stream however it is fragmented; messages arrive over connections and
      relays; the relay's table stays consistent.
    - Filters: invariants of the elastic filter, merges, no false negatives.
    - Garbage collection: a file on the keep list whose walk succeeds is complete
      after the sweep; a walk ends also on a cyclic descriptor.
    - Clients: every frame of the protocol is decoded to what was encoded, within
      its bounds; which decoders can be made to misread an element; an
      unauthenticated client gets nothing done; replies reach the wire whole and
      in order; a streamed file is written as it was sent; a file that was put
      can be got by the URL in the reply.
    - Where the code does not do what it means to, a theorem shows an input.

    ** Conventions, bounds and fuel

    Integers of the program are [Z], wrapped with [u8] .. [u64] where the code
    computes at that width.  Allocation does not fail.  A result [None] of a
    function that models pointers is an access to NULL or to freed memory, and
    the theorems show that it does not occur.  Outcomes of platform calls are
    arguments.  Loops that are not structural run on fuel, with theorems that the
    fuel given suffices: adding to the trie within the 256 bits of a hash
    ([add_fuel]); the write loop of the pool within the length of its round robin
    and the fresh sections; decoding a snapshot with one unit for each level of
    the trie; draining the queues of [BlockCacheSystem] with two units for a read
    and one for a result; the digits of [Base58] within the scratch array; the
    walk of [Representation] with one unit for each block of the cache.

    ** Not modelled

    - Threads: the actor runtime, the scheduler and atomic reference counts.  A
      handler runs to its end, as the runtime guarantees for one actor; the
      lifetime of objects appears only where a pointer can outlive its object
      (LRU nodes, index entries).
    - I/O: sockets (what a send or a read returns is an argument), msquic, HTTP,
      TCP, WebSocket and WebTransport, mDNS, timers, directories, processes,
      random bytes, logging, metrics; the Windows branches.
    - Cryptography and certificates (OpenSSL), JSON settings (cJSON), QR codes:
      the handlers get what these functions return as a record of services.
    - The handlers of network.c beyond the dispatch of messages, routing and the
      overlay, block recipes, OFD documents and the registry of ephemeral blocks.
    - The round robin file of the pool (an indefinite CBOR array) is given by the
      ids it holds; [bloom_filter_optimal_size] uses libm. *)

From stdpp Require Export base list numbers sets.
From Stdlib Require Export ZArith Lia.
Local Open Scope Z_scope.

(** ** Machine integers *)

Definition U8_MAX : Z := 2 ^ 8 - 1.
Definition U16_MAX : Z := 2 ^ 16 - 1.
Definition U32_MAX : Z := 2 ^ 32 - 1.
Definition U64_MAX : Z := 2 ^ 64 - 1.

(** Conversion to an unsigned type of the given width. *)
Definition u8 (z : Z) : Z := z mod 2 ^ 8.
Definition u16 (z : Z) : Z := z mod 2 ^ 16.
Definition u32 (z : Z) : Z := z mod 2 ^ 32.
Definition u64 (z : Z) : Z := z mod 2 ^ 64.

Definition is_u8 (z : Z) : Prop := 0 <= z < 2 ^ 8.
Definition is_u16 (z : Z) : Prop := 0 <= z < 2 ^ 16.
Definition is_u32 (z : Z) : Prop := 0 <= z < 2 ^ 32.
Definition is_u64 (z : Z) : Prop := 0 <= z < 2 ^ 64.

(** Bytes are unsigned 8-bit integers; a byte buffer is a list of them. *)
Abbreviation bytes := (list Z).
Definition is_bytes (bs : bytes) : Prop := Forall is_u8 bs.

(** ** Byte encodings *)

(** The [n] low-order bytes of [z], least significant first. *)
Fixpoint le_bytes (n : nat) (z : Z) : bytes :=
  match n with
  | O => []
  | S k => u8 z :: le_bytes k (Z.shiftr z 8)
  end.

(** The value of a little-endian byte string. *)
Fixpoint le_value (bs : bytes) : Z :=
  match bs with
  | [] => 0
  | b :: t => Z.lor b (Z.shiftl (le_value t) 8)
  end.

(** Big-endian (network order) counterparts. *)
Definition be_bytes (n : nat) (z : Z) : bytes := reverse (le_bytes n z).
Definition be_value (bs : bytes) : Z := le_value (reverse bs).

(** The first [n] chunks of [k] elements. *)
Fixpoint chunks {A} (k n : nat) (l : list A) : list (list A) :=
  match n with
  | O => []
  | S m => take k l :: chunks k m (drop k l)
  end.

(** ** Automation *)

Create HintDb offs.

Lemma u8_range z : is_u8 (u8 z).
Proof. unfold is_u8, u8. apply Z.mod_pos_bound. lia. Qed.
Lemma u16_range z : is_u16 (u16 z).
Proof. unfold is_u16, u16. apply Z.mod_pos_bound. lia. Qed.
Lemma u32_range z : is_u32 (u32 z).
Proof. unfold is_u32, u32. apply Z.mod_pos_bound. lia. Qed.
Lemma u64_range z : is_u64 (u64 z).
Proof. unfold is_u64, u64. apply Z.mod_pos_bound. lia. Qed.

Lemma u8_small z : is_u8 z -> u8 z = z.
Proof. apply Z.mod_small. Qed.
Lemma u16_small z : is_u16 z -> u16 z = z.
Proof. apply Z.mod_small. Qed.
Lemma u32_small z : is_u32 z -> u32 z = z.
Proof. apply Z.mod_small. Qed.
Lemma u64_small z : is_u64 z -> u64 z = z.
Proof. apply Z.mod_small. Qed.

#[export] Hint Resolve u8_range u16_range u32_range u64_range : offs.
#[export] Hint Rewrite u8_small u16_small u32_small u64_small using (assumption || lia) : offs.

(** Case analysis on the boolean comparisons of the goal and the hypotheses. *)
Ltac bool_cases :=
  repeat match goal with
  | |- context [(?a =? ?b)%Z] => destruct (Z.eqb_spec a b)
  | |- context [(?a <? ?b)%Z] => destruct (Z.ltb_spec a b)
  | |- context [(?a <=? ?b)%Z] => destruct (Z.leb_spec a b)
  | |- context [(?a =? ?b)%nat] => destruct (Nat.eqb_spec a b)
  | |- context [(?a <? ?b)%nat] => destruct (Nat.ltb_spec a b)
  | |- context [(?a <=? ?b)%nat] => destruct (Nat.leb_spec a b)
  | H : context [(?a =? ?b)%Z] |- _ => destruct (Z.eqb_spec a b)
  | H : context [(?a <? ?b)%Z] |- _ => destruct (Z.ltb_spec a b)
  | H : context [(?a <=? ?b)%Z] |- _ => destruct (Z.leb_spec a b)
  | H : context [(?a =? ?b)%nat] |- _ => destruct (Nat.eqb_spec a b)
  | H : context [(?a <? ?b)%nat] |- _ => destruct (Nat.ltb_spec a b)
  | H : context [(?a <=? ?b)%nat] |- _ => destruct (Nat.leb_spec a b)
  end; simpl in *.

(** ** Bits *)

Lemma u8_testbit z i : 0 <= i -> Z.testbit (u8 z) i = (i <? 8) && Z.testbit z i.
Proof.
  intros Hi. unfold u8. destruct (Z.ltb_spec i 8).
  - by rewrite Z.mod_pow2_bits_low by lia.
  - by rewrite Z.mod_pow2_bits_high by lia.
Qed.

Lemma testbit_above n z i : 0 <= z < 2 ^ n -> 0 <= n <= i -> Z.testbit z i = false.
Proof.
  intros Hz Hi. destruct (Z.eq_dec z 0) as [->|]; [apply Z.bits_0|].
  apply Z.bits_above_log2; [lia|]. apply Z.lt_le_trans with n; [|lia].
  apply Z.log2_lt_pow2; lia.
Qed.

(** A number with no bit at or above [n] is below [2 ^ n]. *)
Lemma bound_of_bits n z :
  0 <= n -> 0 <= z -> (forall i, n <= i -> Z.testbit z i = false) -> z < 2 ^ n.
Proof.
  intros Hn Hz Hbits. destruct (Z.eq_dec z 0) as [->|]; [by apply Z.pow_pos_nonneg|].
  apply Z.log2_lt_pow2; [lia|].
  destruct (Z.lt_ge_cases (Z.log2 z) n) as [|Hge]; [done|].
  specialize (Hbits _ Hge). rewrite Z.bit_log2 in Hbits; [done|lia].
Qed.

Lemma testbit_one i j : 0 <= i -> Z.testbit (Z.shiftl 1 i) j = (i =? j).
Proof.
  intros Hi. rewrite Z.shiftl_1_l. destruct (Z.eqb_spec i j) as [->|].
  - by apply Z.pow2_bits_true.
  - by apply Z.pow2_bits_false.
Qed.

Lemma testbit_u32_max j : 0 <= j -> Z.testbit U32_MAX j = (j <? 32).
Proof.
  intros Hj. change U32_MAX with (Z.ones 32). rewrite Z.testbit_ones by lia.
  bool_cases; try done; lia.
Qed.

(** [~x] on 32 bits. *)
Lemma u32_not_testbit x j :
  is_u32 x -> 0 <= j -> Z.testbit (U32_MAX - x) j = (j <? 32) && negb (Z.testbit x j).
Proof.
  intros Hx Hj. change U32_MAX with (Z.ones 32).
  rewrite Z.sub_nocarry_ldiff.
  - rewrite Z.ldiff_spec, Z.testbit_ones by lia. bool_cases; try done; lia.
  - apply Z.bits_inj'. intros n Hn.
    rewrite Z.ldiff_spec, Z.testbit_ones, Z.bits_0 by lia.
    destruct (Z.ltb_spec n 32).
    + bool_cases; lia.
    + by rewrite (testbit_above 32 x n) by (auto; lia).
Qed.

Lemma land_one_testbit x i : 0 <= i -> (Z.land x (Z.shiftl 1 i) =? 0) = negb (Z.testbit x i).
Proof.
  intros Hi. destruct (Z.testbit x i) eqn:E; simpl.
  - apply Z.eqb_neq. intros H. apply (f_equal (fun z => Z.testbit z i)) in H.
    rewrite Z.land_spec, testbit_one, E, Z.bits_0, Z.eqb_refl in H by lia. done.
  - apply Z.eqb_eq. apply Z.bits_inj'. intros n Hn.
    rewrite Z.land_spec, testbit_one, Z.bits_0 by lia.
    destruct (Z.eqb_spec i n) as [->|]; [by rewrite E|by rewrite andb_false_r].
Qed.

Lemma shiftr_land_one x i :
  0 <= i -> negb (Z.land (Z.shiftr x i) 1 =? 0) = Z.testbit x i.
Proof.
  intros Hi. change 1 with (Z.shiftl 1 0). rewrite land_one_testbit by lia.
  by rewrite negb_involutive, Z.shiftr_spec, Z.add_0_l by lia.
Qed.

(** ** Little-endian encodings *)

Lemma length_le_bytes n z : length (le_bytes n z) = n.
Proof. revert z. induction n; intros; simpl; auto. Qed.

Lemma le_bytes_range n z : is_bytes (le_bytes n z).
Proof.
  revert z. induction n as [|n IH]; intros z; constructor; [apply u8_range|apply IH].
Qed.

Lemma le_value_nonneg bs : is_bytes bs -> 0 <= le_value bs.
Proof.
  induction 1 as [|b t Hb _ IH]; simpl; [done|].
  apply Z.lor_nonneg. split; [apply Hb|by apply Z.shiftl_nonneg].
Qed.

Lemma le_value_bytes n z : le_value (le_bytes n z) = z mod 2 ^ (8 * Z.of_nat n).
Proof.
  revert z. induction n as [|n IH]; intros z.
  - simpl. by rewrite Z.mod_1_r.
  - cbn [le_bytes le_value]. rewrite IH. apply Z.bits_inj'. intros i Hi.
    rewrite Z.lor_spec, u8_testbit by lia. destruct (Z.ltb_spec i 8).
    + rewrite Z.shiftl_spec, (Z.testbit_neg_r _ (i - 8)), orb_false_r by lia.
      by rewrite Z.mod_pow2_bits_low by lia.
    + rewrite Z.shiftl_spec by lia.
      destruct (Z.lt_ge_cases i (8 * Z.of_nat (S n))).
      * rewrite !Z.mod_pow2_bits_low, Z.shiftr_spec by lia. simpl.
        by replace (i - 8 + 8) with i by lia.
      * by rewrite !Z.mod_pow2_bits_high by lia.
Qed.

Lemma le_value_cons_bits b t i :
  is_u8 b -> 0 <= i ->
  Z.testbit (le_value (b :: t)) i = if i <? 8 then Z.testbit b i else Z.testbit (le_value t) (i - 8).
Proof.
  intros Hb Hi. cbn [le_value]. rewrite Z.lor_spec, Z.shiftl_spec by lia.
  destruct (Z.ltb_spec i 8).
  - by rewrite (Z.testbit_neg_r _ (i - 8)), orb_false_r by lia.
  - by rewrite (testbit_above 8 b i) by (auto; lia).
Qed.

Lemma le_bytes_value bs : is_bytes bs -> le_bytes (length bs) (le_value bs) = bs.
Proof.
  induction 1 as [|b t Hb Ht IH]; [done|]. cbn [length le_bytes]. f_equal.
  - apply Z.bits_inj'. intros i Hi. rewrite u8_testbit, le_value_cons_bits by done.
    destruct (Z.ltb_spec i 8); [done|]. by rewrite (testbit_above 8 b i) by (auto; lia).
  - etrans; [|exact IH]. f_equal. apply Z.bits_inj'. intros i Hi.
    rewrite Z.shiftr_spec, le_value_cons_bits by (auto; lia).
    destruct (Z.ltb_spec (i + 8) 8); [lia|]. by replace (i + 8 - 8) with i by lia.
Qed.

Lemma le_value_range bs : is_bytes bs -> 0 <= le_value bs < 2 ^ (8 * Z.of_nat (length bs)).
Proof.
  intros H. rewrite <- (le_bytes_value bs H) at 1 2. rewrite le_value_bytes.
  apply Z.mod_pos_bound. apply Z.pow_pos_nonneg; lia.
Qed.

(** ** Chunks *)

Lemma chunks_concat_app {A B} (f : A -> list B) k l rest :
  (forall x, length (f x) = k) -> chunks k (length l) (concat (map f l) ++ rest) = map f l.
Proof.
  intros Hf. induction l as [|x l IH]; [done|]. cbn [length chunks map concat].
  rewrite <- app_assoc, take_app_length', drop_app_length' by auto. by rewrite IH.
Qed.

Lemma length_concat_const {A B} (f : A -> list B) k l :
  (forall x, length (f x) = k) -> length (concat (map f l)) = (length l * k)%nat.
Proof.
  intros Hf. induction l as [|x l IH]; [done|]. simpl. by rewrite length_app, IH, Hf.
Qed.

(** ** Boolean quantifiers over lists *)

Lemma existsb_ext {A} (f g : A -> bool) l : (forall x, f x = g x) -> existsb f l = existsb g l.
Proof. intros H. induction l as [|x l IH]; [done|]. simpl. by rewrite H, IH. Qed.

Lemma forallb_ext {A} (f g : A -> bool) l : (forall x, f x = g x) -> forallb f l = forallb g l.
Proof. intros H. induction l as [|x l IH]; [done|]. simpl. by rewrite H, IH. Qed.

Lemma forallb_negb {A} (f : A -> bool) l : negb (forallb f l) = existsb (fun x => negb (f x)) l.
Proof. induction l as [|x l IH]; [done|]. simpl. by rewrite negb_andb, IH. Qed.
