(* ===== verification/FreeMap.v ===== *)
(** * FreeMap: the free-block bitmap of a section

    Models the [free_map_*] helpers of src/src/BlockCache/section.c: a bitmap
    of 32-bit words in which bit [i] is 1 when block slot [i] is free.  The
    theorems relate each helper to the set of free slots: [free_map_alloc]
    takes the lowest free slot, [free_map_dealloc] is its inverse, the counting
    and scanning helpers compute what their names say, [free_map_defragment]
    yields the order-preserving compaction of the occupied slots, and the
    on-disk format round-trips. *)

From S2P Require Import Prelude.
Local Open Scope Z_scope.

(** ** Compiler builtins used by the helpers *)

(** The position of the lowest set bit at or above [i], within [fuel] bits. *)
Fixpoint scan_bit (x : Z) (i : Z) (fuel : nat) : option Z :=
  match fuel with
  | O => None
  | S k => if Z.testbit x i then Some i else scan_bit x (i + 1) k
  end.

(** [PLATFORM_FFS]: one plus the index of the lowest set bit, 0 for 0. *)
Definition platform_ffs (x : Z) : Z :=
  match scan_bit x 0 32 with Some i => i + 1 | None => 0 end.

(** [PLATFORM_POPCOUNT] on a 32-bit word. *)
Definition platform_popcount (x : Z) : nat :=
  length (List.filter (fun i => Z.testbit x (Z.of_nat i)) (seq 0 32)).

(** [PLATFORM_CLZ] on a non-zero 32-bit word. *)
Definition platform_clz (x : Z) : Z := 31 - Z.log2 x.

(** ** The bitmap *)

Record free_map_t := mk_free_map {
  fm_map : list Z;          (* uint32_t words *)
  fm_map_capacity : nat;    (* number of words *)
  fm_total_blocks : nat
}.

(** [(size_t)-1], the relocation entry of a free slot. *)
Definition SIZE_MAX : Z := 2 ^ 64 - 1.

Record free_map_defrag_result_t := mk_defrag_result {
  dr_relocation : list Z;
  dr_new_count : nat
}.

Definition map_word (m : list Z) (w : nat) : Z := nth w m 0.

(** [map[i / 32] |= 1 << (i % 32)] *)
Definition map_set_bit (m : list Z) (i : nat) : list Z :=
  let word := (i / 32)%nat in
  let bit := Z.of_nat (i mod 32) in
  <[word := Z.lor (map_word m word) (Z.shiftl 1 bit)]> m.

(** [map[word] &= ~(1 << bit)] on 32-bit words *)
Definition map_clear_bit (m : list Z) (word : nat) (bit : Z) : list Z :=
  <[word := Z.land (map_word m word) (U32_MAX - Z.shiftl 1 bit)]> m.

Definition free_map_init (total_blocks : nat) : free_map_t :=
  let capacity := ((total_blocks + 31) / 32)%nat in
  mk_free_map
    (fold_left map_set_bit (seq 0 total_blocks) (replicate capacity 0))
    capacity total_blocks.

(** The word loop of [free_map_alloc], from [word] on for [fuel] words. *)
Fixpoint free_map_alloc_from (fm : free_map_t) (word fuel : nat)
  : option nat * free_map_t :=
  match fuel with
  | O => (None, fm)
  | S k =>
      let w := map_word (fm_map fm) word in
      if negb (w =? 0) then
        let bit := platform_ffs w - 1 in
        (Some (word * 32 + Z.to_nat bit)%nat,
         mk_free_map (map_clear_bit (fm_map fm) word bit)
           (fm_map_capacity fm) (fm_total_blocks fm))
      else free_map_alloc_from fm (S word) k
  end.

(** [Some index] is return code 0 with [*index], [None] return code 1. *)
Definition free_map_alloc (fm : free_map_t) : option nat * free_map_t :=
  free_map_alloc_from fm 0 (fm_map_capacity fm).

(** The return code (0 or 1) and the updated map. *)
Definition free_map_dealloc (fm : free_map_t) (index : nat) : Z * free_map_t :=
  if (fm_total_blocks fm <=? index)%nat then (1, fm)
  else
    let word := (index / 32)%nat in
    let mask := Z.shiftl 1 (Z.of_nat (index mod 32)) in
    if negb (Z.land (map_word (fm_map fm) word) mask =? 0) then (1, fm)
    else (0, mk_free_map (<[word := Z.lor (map_word (fm_map fm) word) mask]> (fm_map fm))
               (fm_map_capacity fm) (fm_total_blocks fm)).

Fixpoint free_map_is_full_from (m : list Z) (word fuel : nat) : bool :=
  match fuel with
  | O => true
  | S k => if negb (map_word m word =? 0) then false
           else free_map_is_full_from m (S word) k
  end.

Definition free_map_is_full (fm : free_map_t) : bool :=
  free_map_is_full_from (fm_map fm) 0 (fm_map_capacity fm).

Definition free_map_count_free (fm : free_map_t) : nat :=
  fold_left (fun count word => (count + platform_popcount (map_word (fm_map fm) word))%nat)
    (seq 0 (fm_map_capacity fm)) 0%nat.

(** The mask of the bits of word [w] that stand for real slots. *)
Definition valid_mask (fm : free_map_t) (w : nat) : Z :=
  let bits_in_word :=
    if ((w =? fm_map_capacity fm - 1) && negb (fm_total_blocks fm mod 32 =? 0))%nat
    then (fm_total_blocks fm mod 32)%nat else 32%nat in
  if (bits_in_word =? 32)%nat then U32_MAX
  else Z.shiftl 1 (Z.of_nat bits_in_word) - 1.

(** The downward word loop of [free_map_highest_used]. *)
Fixpoint free_map_highest_used_from (fm : free_map_t) (word : nat) : nat :=
  match word with
  | O => fm_total_blocks fm
  | S w =>
      let occupied := Z.land (U32_MAX - map_word (fm_map fm) w) (valid_mask fm w) in
      if negb (occupied =? 0) then
        let bit := 31 - platform_clz occupied in
        (w * 32 + Z.to_nat bit)%nat
      else free_map_highest_used_from fm w
  end.

Definition free_map_highest_used (fm : free_map_t) : nat :=
  free_map_highest_used_from fm (fm_map_capacity fm).

(** [(fm->map[i / 32] >> (i % 32)) & 1] *)
Definition map_bit (m : list Z) (i : nat) : bool :=
  negb (Z.land (Z.shiftr (map_word m (i / 32)) (Z.of_nat (i mod 32))) 1 =? 0).

Definition defrag_step (m : list Z) (acc : list Z * nat) (i : nat) : list Z * nat :=
  let '(relocation, write_pos) := acc in
  if map_bit m i then (relocation, write_pos)
  else (<[i := Z.of_nat write_pos]> relocation, S write_pos).

(** Rebuilding the map: slots below [new_count] occupied, the rest free. *)
Definition compacted_map (capacity total new_count : nat) : list Z :=
  fold_left map_set_bit (seq new_count (total - new_count)) (replicate capacity 0).

Definition free_map_defragment (fm : free_map_t) : free_map_defrag_result_t * free_map_t :=
  let '(relocation, write_pos) :=
    fold_left (defrag_step (fm_map fm)) (seq 0 (fm_total_blocks fm))
      (replicate (fm_total_blocks fm) SIZE_MAX, 0%nat) in
  (mk_defrag_result relocation write_pos,
   mk_free_map (compacted_map (fm_map_capacity fm) (fm_total_blocks fm) write_pos)
     (fm_map_capacity fm) (fm_total_blocks fm)).

(** [total_blocks] as four little-endian bytes, then the words as they lie in
    memory (little-endian hosts). *)
Definition free_map_serialize (fm : free_map_t) : bytes :=
  le_bytes 4 (Z.of_nat (fm_total_blocks fm)) ++
  concat (map (le_bytes 4) (take (fm_map_capacity fm) (fm_map fm))).

Definition free_map_deserialize (buf : bytes) : option free_map_t :=
  if (length buf <? 4)%nat then None
  else
    let total_blocks := Z.to_nat (le_value (take 4 buf)) in
    let map_capacity := ((total_blocks + 31) / 32)%nat in
    let expected_size := (4 + map_capacity * 4)%nat in
    if (length buf <? expected_size)%nat then None
    else Some (mk_free_map
                 (map le_value (chunks 4 map_capacity (drop 4 buf)))
                 map_capacity total_blocks).

(** ** Reading the bitmap as a set of free slots *)

Definition bit_at (m : list Z) (i : nat) : bool :=
  Z.testbit (map_word m (i / 32)) (Z.of_nat (i mod 32)).

Definition slot_free (fm : free_map_t) (i : nat) : bool := bit_at (fm_map fm) i.

(** The occupied real slots below [n], in increasing order. *)
Definition occupied_below (fm : free_map_t) (n : nat) : list nat :=
  List.filter (fun i => negb (slot_free fm i)) (seq 0 n).

Record free_map_wf (fm : free_map_t) : Prop := {
  fmwf_length : length (fm_map fm) = fm_map_capacity fm;
  fmwf_capacity : fm_map_capacity fm = ((fm_total_blocks fm + 31) / 32)%nat;
  fmwf_words : Forall is_u32 (fm_map fm);
  fmwf_padding : forall i, (fm_total_blocks fm <= i)%nat -> slot_free fm i = false
}.

(** ** Words and bits *)

Lemma map_word_lookup m w : map_word m w = default 0 (m !! w).
Proof. unfold map_word. by rewrite nth_lookup. Qed.

Lemma map_word_insert m w v w' :
  (w < length m)%nat ->
  map_word (<[w := v]> m) w' = if (w =? w')%nat then v else map_word m w'.
Proof.
  intros Hw. rewrite !map_word_lookup. destruct (Nat.eqb_spec w w') as [->|].
  - by rewrite list_lookup_insert_eq.
  - by rewrite list_lookup_insert_ne.
Qed.

Lemma map_word_u32 m w : Forall is_u32 m -> is_u32 (map_word m w).
Proof.
  intros H. rewrite map_word_lookup. destruct (m !! w) eqn:E; simpl.
  - by eapply Forall_lookup_1 in E.
  - unfold is_u32. lia.
Qed.

Lemma map_bit_bit_at m i : map_bit m i = bit_at m i.
Proof. unfold map_bit, bit_at. by rewrite shiftr_land_one by lia. Qed.

Lemma div_mod_inj i j : (i / 32 = j / 32 -> i mod 32 = j mod 32 -> i = j)%nat.
Proof. intros. rewrite (Nat.div_mod_eq i 32), (Nat.div_mod_eq j 32). lia. Qed.

Lemma bit_at_split m w k :
  (k < 32)%nat -> bit_at m (w * 32 + k) = Z.testbit (map_word m w) (Z.of_nat k).
Proof.
  intros Hk. unfold bit_at.
  by rewrite (Nat.div_add_l w 32 k), Nat.div_small, Nat.add_0_r,
    Nat.add_comm, Nat.Div0.mod_add, Nat.mod_small by lia.
Qed.

Lemma bit_at_set m i j :
  (i / 32 < length m)%nat -> bit_at (map_set_bit m i) j = (i =? j)%nat || bit_at m j.
Proof.
  intros Hi. unfold bit_at, map_set_bit. rewrite map_word_insert by done.
  destruct (Nat.eqb_spec (i / 32) (j / 32)) as [E|E].
  - rewrite Z.lor_spec, testbit_one, orb_comm, <- E by lia. f_equal.
    destruct (Nat.eqb_spec i j) as [->|]; [by rewrite Z.eqb_refl|].
    apply Z.eqb_neq. intros H%Nat2Z.inj. by apply (div_mod_inj i j) in E.
  - destruct (Nat.eqb_spec i j) as [->|]; done.
Qed.

Lemma bit_at_clear m w b j :
  (w < length m)%nat -> 0 <= b < 32 ->
  bit_at (map_clear_bit m w b) j = bit_at m j && negb (j =? w * 32 + Z.to_nat b)%nat.
Proof.
  intros Hw Hb. unfold bit_at, map_clear_bit. rewrite map_word_insert by done.
  pose proof (Nat.mod_upper_bound j 32 ltac:(lia)) as Hj.
  pose proof (Nat.div_mod_eq j 32) as Ej.
  destruct (Nat.eqb_spec w (j / 32)) as [E|E].
  - assert (is_u32 (Z.shiftl 1 b)) as Hs.
    { rewrite Z.shiftl_1_l. split; [apply Z.pow_nonneg; lia|apply Z.pow_lt_mono_r; lia]. }
    rewrite Z.land_spec, u32_not_testbit, testbit_one, <- E by (auto; lia).
    f_equal. bool_cases; try done; lia.
  - destruct (Nat.eqb_spec j (w * 32 + Z.to_nat b)); [lia|by rewrite andb_true_r].
Qed.

Lemma length_map_set_bit m i : length (map_set_bit m i) = length m.
Proof. apply length_insert. Qed.

Lemma map_set_bit_u32 m i : Forall is_u32 m -> Forall is_u32 (map_set_bit m i).
Proof.
  intros H. apply Forall_insert; [done|]. pose proof (map_word_u32 m (i / 32) H) as [H1 H2].
  pose proof (Nat.mod_upper_bound i 32 ltac:(lia)).
  split; [apply Z.lor_nonneg; split; [done|by apply Z.shiftl_nonneg]|].
  apply bound_of_bits; [lia|apply Z.lor_nonneg; split; [done|by apply Z.shiftl_nonneg]|].
  intros k Hk. rewrite Z.lor_spec, (testbit_above 32), testbit_one by lia.
  apply Z.eqb_neq. lia.
Qed.

Lemma map_clear_bit_u32 m w b : Forall is_u32 m -> Forall is_u32 (map_clear_bit m w b).
Proof.
  intros H. apply Forall_insert; [done|]. pose proof (map_word_u32 m w H) as [H1 H2].
  split; [by apply Z.land_nonneg; left|].
  apply bound_of_bits; [lia|by apply Z.land_nonneg; left|].
  intros k Hk. by rewrite Z.land_spec, (testbit_above 32) by lia.
Qed.

Lemma fold_set_bits l m :
  (forall i, i ∈ l -> (i / 32 < length m)%nat) -> Forall is_u32 m ->
  let m' := fold_left map_set_bit l m in
  length m' = length m /\ Forall is_u32 m' /\
  forall j, bit_at m' j = bool_decide (j ∈ l) || bit_at m j.
Proof.
  revert m. induction l as [|i l IH]; intros m Hl Hm; cbn [fold_left].
  - split_and!; [done..|]. intros j. by rewrite bool_decide_eq_false_2 by set_solver.
  - destruct (IH (map_set_bit m i)) as (H1 & H2 & H3).
    + intros k Hk. rewrite length_map_set_bit. apply Hl. by right.
    + by apply map_set_bit_u32.
    + rewrite length_map_set_bit in H1. split_and!; [done..|]. intros j.
      rewrite H3, bit_at_set by (apply Hl; left). destruct (decide (i = j)) as [->|Hne].
      * by rewrite Nat.eqb_refl, (bool_decide_eq_true_2 (j ∈ j :: l)), orb_true_r by left.
      * rewrite (proj2 (Nat.eqb_neq i j) Hne). simpl. f_equal.
        apply bool_decide_ext. rewrite elem_of_cons. split; [by right|by intros [->|]].
Qed.

(** ** Scanning *)

Lemma scan_bit_spec x i fuel :
  match scan_bit x i fuel with
  | Some k => i <= k < i + Z.of_nat fuel /\ Z.testbit x k = true /\
              forall j, i <= j < k -> Z.testbit x j = false
  | None => forall j, i <= j < i + Z.of_nat fuel -> Z.testbit x j = false
  end.
Proof.
  revert i. induction fuel as [|fuel IH]; intros i; cbn [scan_bit]; [intros; lia|].
  destruct (Z.testbit x i) eqn:E; [split_and!; auto; intros; lia|].
  specialize (IH (i + 1)). destruct (scan_bit x (i + 1) fuel).
  - destruct IH as (H1 & H2 & H3). split_and!; [lia..|done|]. intros j Hj.
    destruct (Z.eq_dec j i) as [->|]; [done|apply H3; lia].
  - intros j Hj. destruct (Z.eq_dec j i) as [->|]; [done|apply IH; lia].
Qed.

Lemma platform_ffs_spec x :
  is_u32 x -> x <> 0 ->
  let b := platform_ffs x - 1 in
  0 <= b < 32 /\ Z.testbit x b = true /\ forall j, 0 <= j < b -> Z.testbit x j = false.
Proof.
  intros Hx Hnz. unfold platform_ffs. pose proof (scan_bit_spec x 0 32) as H.
  destruct (scan_bit x 0 32) as [k|].
  - destruct H as (H1 & H2 & H3). replace (k + 1 - 1) with k by lia. split_and!; auto; lia.
  - destruct Hnz. apply Z.bits_inj'. intros n Hn. rewrite Z.bits_0.
    destruct (Z.lt_ge_cases n 32); [apply H; lia|by apply (testbit_above 32)].
Qed.

Lemma word_zero_bits m w :
  map_word m w = 0 -> forall i, (i / 32 = w)%nat -> bit_at m i = false.
Proof. intros H i Hi. unfold bit_at. by rewrite Hi, H, Z.bits_0. Qed.

Section wf.
Context (fm : free_map_t) (Hwf : free_map_wf fm).

Lemma slot_free_total i : slot_free fm i = true -> (i < fm_total_blocks fm)%nat.
Proof.
  intros H. destruct (decide (fm_total_blocks fm <= i)%nat) as [Hge|]; [|lia].
  by rewrite (fmwf_padding fm Hwf i Hge) in H.
Qed.

Lemma total_word i : (i < fm_total_blocks fm)%nat -> (i / 32 < length (fm_map fm))%nat.
Proof.
  intros Hi. rewrite (fmwf_length fm Hwf), (fmwf_capacity fm Hwf).
  apply Nat.Div0.div_lt_upper_bound.
  pose proof (Nat.div_mod_eq (fm_total_blocks fm + 31) 32).
  pose proof (Nat.mod_upper_bound (fm_total_blocks fm + 31) 32). lia.
Qed.

(** Clearing and setting one real slot keeps the map well formed. *)
Lemma wf_with_map m' :
  length m' = length (fm_map fm) -> Forall is_u32 m' ->
  (forall i, (fm_total_blocks fm <= i)%nat -> bit_at m' i = false) ->
  free_map_wf (mk_free_map m' (fm_map_capacity fm) (fm_total_blocks fm)).
Proof.
  intros H1 H2 H3. split; simpl; [|apply Hwf|done|done].
  rewrite H1. apply Hwf.
Qed.

Lemma alloc_from_spec word fuel :
  (word + fuel = fm_map_capacity fm)%nat ->
  (forall i, (i < word * 32)%nat -> slot_free fm i = false) ->
  match free_map_alloc_from fm word fuel with
  | (Some idx, fm') =>
      slot_free fm idx = true /\ (forall i, (i < idx)%nat -> slot_free fm i = false) /\
      free_map_wf fm' /\ fm_total_blocks fm' = fm_total_blocks fm /\
      forall j, slot_free fm' j = slot_free fm j && negb (j =? idx)%nat
  | (None, fm') => fm' = fm /\ forall i, slot_free fm i = false
  end.
Proof.
  revert word. induction fuel as [|fuel IH]; intros word Hcap Hlow; cbn [free_map_alloc_from].
  - split; [done|]. intros i. destruct (decide (i < fm_total_blocks fm)%nat) as [Hi|].
    + apply Hlow. apply total_word in Hi. rewrite (fmwf_length fm Hwf) in Hi.
      pose proof (Nat.div_mod_eq i 32). pose proof (Nat.mod_upper_bound i 32). lia.
    + apply (fmwf_padding fm Hwf). lia.
  - destruct (Z.eqb_spec (map_word (fm_map fm) word) 0) as [Hz|Hnz]; simpl.
    + apply IH; [lia|]. intros i Hi. destruct (decide (i < word * 32)%nat); [auto|].
      apply (word_zero_bits _ word); [done|].
      symmetry. apply Nat.div_unique with (i - word * 32)%nat; lia.
    + destruct (platform_ffs_spec _ (map_word_u32 _ word (fmwf_words fm Hwf)) Hnz)
        as (Hb & Ht & Hbelow).
      set (b := platform_ffs (map_word (fm_map fm) word) - 1) in *.
      assert (word < length (fm_map fm))%nat by (rewrite (fmwf_length fm Hwf); lia).
      assert (forall j, bit_at (map_clear_bit (fm_map fm) word b) j =
                slot_free fm j && negb (j =? word * 32 + Z.to_nat b)%nat) as Hclear
        by (intros j; by apply bit_at_clear).
      split_and!; [| |apply wf_with_map|done|exact Hclear].
      * unfold slot_free. by rewrite bit_at_split, Z2Nat.id by lia.
      * intros i Hi. destruct (decide (i < word * 32)%nat); [auto|].
        replace i with (word * 32 + (i - word * 32))%nat by lia.
        unfold slot_free. rewrite bit_at_split by lia. apply Hbelow. lia.
      * apply length_insert.
      * apply map_clear_bit_u32, Hwf.
      * intros i Hi. rewrite Hclear, (fmwf_padding fm Hwf) by done. done.
Qed.
End wf.

(** ** The helpers against the set of free slots *)

Lemma bit_at_zeros n j : bit_at (replicate n 0) j = false.
Proof.
  unfold bit_at. rewrite map_word_lookup.
  destruct (replicate n 0 !! _) eqn:E; simpl; [|by rewrite Z.bits_0].
  apply lookup_replicate in E as [-> _]. apply Z.bits_0.
Qed.

Lemma zeros_u32 n : Forall is_u32 (replicate n 0).
Proof. apply Forall_replicate. unfold is_u32. lia. Qed.

Lemma compacted_map_spec total n :
  let capacity := ((total + 31) / 32)%nat in
  let m := compacted_map capacity total n in
  length m = capacity /\ Forall is_u32 m /\
  forall j, bit_at m j = (n <=? j)%nat && (j <? total)%nat.
Proof.
  intros capacity m.
  destruct (fold_set_bits (seq n (total - n)) (replicate capacity 0)) as (H1 & H2 & H3).
  - intros i Hi%elem_of_seq. rewrite length_replicate. unfold capacity.
    apply Nat.Div0.div_lt_upper_bound.
    pose proof (Nat.div_mod_eq (total + 31) 32).
    pose proof (Nat.mod_upper_bound (total + 31) 32). lia.
  - apply zeros_u32.
  - rewrite length_replicate in H1. split_and!; [done..|]. intros j.
    unfold m, compacted_map. rewrite H3, bit_at_zeros, orb_false_r.
    case_bool_decide as Hj; rewrite elem_of_seq in Hj; bool_cases; auto; lia.
Qed.

Lemma free_map_init_wf total : free_map_wf (free_map_init total).
Proof.
  pose proof (compacted_map_spec total 0) as (H1 & H2 & H3).
  unfold compacted_map in *. rewrite Nat.sub_0_r in *.
  split; simpl; [done..|]. intros i Hi. unfold slot_free. cbn [fm_map free_map_init].
  rewrite H3. bool_cases; auto; lia.
Qed.

Lemma free_map_init_free total i : slot_free (free_map_init total) i = (i <? total)%nat.
Proof.
  pose proof (compacted_map_spec total 0) as (_ & _ & H3).
  unfold compacted_map in *. rewrite Nat.sub_0_r in *.
  unfold slot_free. cbn [fm_map free_map_init]. by rewrite H3.
Qed.

Lemma is_full_from_spec m word fuel :
  Forall is_u32 m ->
  free_map_is_full_from m word fuel = true <->
  forall i, (word * 32 <= i < (word + fuel) * 32)%nat -> bit_at m i = false.
Proof.
  intros Hm. revert word. induction fuel as [|fuel IH]; intros word; cbn [free_map_is_full_from].
  - split; [intros _ i; lia|done].
  - destruct (Z.eqb_spec (map_word m word) 0) as [Hz|Hnz]; simpl.
    + rewrite IH. split; intros H i Hi; [|apply H; lia].
      destruct (decide (i < S word * 32)%nat); [|apply H; lia].
      apply (word_zero_bits _ word); [done|].
      symmetry. apply Nat.div_unique with (i - word * 32)%nat; lia.
    + split; [done|]. intros H. exfalso.
      destruct (platform_ffs_spec _ (map_word_u32 _ word Hm) Hnz) as (Hb & Ht & _).
      set (b := platform_ffs (map_word m word) - 1) in *.
      specialize (H (word * 32 + Z.to_nat b)%nat ltac:(lia)).
      rewrite bit_at_split, Z2Nat.id in H by lia. congruence.
Qed.

Lemma free_map_is_full_spec fm :
  free_map_wf fm ->
  free_map_is_full fm = true <-> forall i, (i < fm_total_blocks fm)%nat -> slot_free fm i = false.
Proof.
  intros Hwf. unfold free_map_is_full. rewrite is_full_from_spec by apply Hwf.
  split; intros H i Hi.
  - apply H. apply (total_word fm Hwf) in Hi. rewrite (fmwf_length fm Hwf) in Hi.
    pose proof (Nat.div_mod_eq i 32). pose proof (Nat.mod_upper_bound i 32). lia.
  - destruct (decide (i < fm_total_blocks fm)%nat); [by apply H|].
    apply (fmwf_padding fm Hwf). lia.
Qed.

Lemma length_filter_app {A} (f : A -> bool) l1 l2 :
  length (List.filter f (l1 ++ l2)) = (length (List.filter f l1) + length (List.filter f l2))%nat.
Proof. rewrite List.filter_app. apply length_app. Qed.

Lemma length_filter_ext {A} (f g : A -> bool) l :
  (forall x, x ∈ l -> f x = g x) -> length (List.filter f l) = length (List.filter g l).
Proof.
  induction l as [|x l IH]; intros H; [done|]. simpl.
  rewrite (H x) by left. specialize (IH (fun y Hy => H y (list_elem_of_further _ _ _ Hy))).
  by destruct (g x); simpl; rewrite IH.
Qed.

Lemma popcount_word m w :
  platform_popcount (map_word m w) = length (List.filter (bit_at m) (seq (w * 32) 32)).
Proof.
  unfold platform_popcount. rewrite <- (Nat.add_0_r (w * 32)), <- fmap_add_seq.
  rewrite <- (length_fmap (Nat.add (w * 32))).
  generalize (seq 0 32) (eq_refl : forallb (fun i => i <? 32)%nat (seq 0 32) = true).
  intros l. induction l as [|k l IH]; [done|]. simpl.
  intros [Hk Hl]%andb_true_iff. apply Nat.ltb_lt in Hk. specialize (IH Hl).
  rewrite bit_at_split by done. destruct (Z.testbit (map_word m w) (Z.of_nat k)); simpl; auto.
Qed.

(** [free_map_count_free] counts the free slots. *)
Lemma free_map_count_free_spec fm :
  free_map_wf fm ->
  free_map_count_free fm = length (List.filter (slot_free fm) (seq 0 (fm_total_blocks fm))).
Proof.
  intros Hwf. unfold free_map_count_free.
  assert (forall w n, fold_left (fun count word => (count + platform_popcount (map_word (fm_map fm) word))%nat)
            (seq w n) (length (List.filter (slot_free fm) (seq 0 (w * 32)))) =
          length (List.filter (slot_free fm) (seq 0 ((w + n) * 32)))) as Hfold.
  { intros w n. revert w. induction n as [|n IH]; intros w; [by rewrite Nat.add_0_r|].
    cbn [seq fold_left]. rewrite popcount_word.
    replace (w + S n)%nat with (S w + n)%nat by lia. rewrite <- IH. f_equal.
    replace (S w * 32)%nat with (w * 32 + 32)%nat by lia.
    by rewrite seq_app, length_filter_app, Nat.add_0_l. }
  specialize (Hfold 0%nat (fm_map_capacity fm)). simpl seq in Hfold at 2.
  cbn [Nat.mul length List.filter] in Hfold. rewrite Hfold. clear Hfold.
  assert (fm_total_blocks fm <= (0 + fm_map_capacity fm) * 32)%nat as Hle.
  { rewrite (fmwf_capacity fm Hwf). pose proof (Nat.div_mod_eq (fm_total_blocks fm + 31) 32).
    pose proof (Nat.mod_upper_bound (fm_total_blocks fm + 31) 32). lia. }
  replace ((0 + fm_map_capacity fm) * 32)%nat
    with (fm_total_blocks fm + ((0 + fm_map_capacity fm) * 32 - fm_total_blocks fm))%nat by lia.
  rewrite seq_app, length_filter_app.
  rewrite (length_filter_ext _ (fun _ => false) (seq (0 + fm_total_blocks fm) _)).
  - assert (forall l : list nat, List.filter (fun _ => false) l = []) as -> by (induction l; auto).
    simpl. lia.
  - intros i Hi%elem_of_seq. apply (fmwf_padding fm Hwf). lia.
Qed.

Lemma valid_mask_testbit fm w k :
  free_map_wf fm -> (w < fm_map_capacity fm)%nat -> (k < 32)%nat ->
  Z.testbit (valid_mask fm w) (Z.of_nat k) = (w * 32 + k <? fm_total_blocks fm)%nat.
Proof.
  intros Hwf Hw Hk. unfold valid_mask. rewrite (fmwf_capacity fm Hwf) in *.
  set (t := fm_total_blocks fm) in *.
  pose proof (Nat.div_mod_eq (t + 31) 32). pose proof (Nat.mod_upper_bound (t + 31) 32).
  pose proof (Nat.div_mod_eq t 32). pose proof (Nat.mod_upper_bound t 32).
  destruct (Nat.eqb_spec w ((t + 31) / 32 - 1)); destruct (Nat.eqb_spec (t mod 32) 0);
    cbn [andb negb].
  2: { destruct (Nat.eqb_spec (t mod 32) 32); [lia|].
       change (Z.shiftl 1 (Z.of_nat (t mod 32)) - 1) with (Z.pred (Z.shiftl 1 (Z.of_nat (t mod 32)))).
       fold (Z.ones (Z.of_nat (t mod 32))). rewrite Z.testbit_ones by lia. bool_cases; auto; lia. }
  all: rewrite Nat.eqb_refl, testbit_u32_max by lia; bool_cases; auto; lia.
Qed.

(** The bits of the word that [free_map_highest_used] tests are the occupied
    real slots of word [w]. *)
Definition occupied_word (fm : free_map_t) (w : nat) : Z :=
  Z.land (U32_MAX - map_word (fm_map fm) w) (valid_mask fm w).

Lemma occupied_word_testbit fm w k :
  free_map_wf fm -> (w < fm_map_capacity fm)%nat -> (k < 32)%nat ->
  Z.testbit (occupied_word fm w) (Z.of_nat k) =
  negb (slot_free fm (w * 32 + k)) && (w * 32 + k <? fm_total_blocks fm)%nat.
Proof.
  intros Hwf Hw Hk. unfold occupied_word, slot_free.
  rewrite Z.land_spec, u32_not_testbit, valid_mask_testbit, bit_at_split
    by (auto using map_word_u32, fmwf_words; lia).
  by destruct (Z.ltb_spec (Z.of_nat k) 32); [|lia].
Qed.

Lemma occupied_word_u32 fm w : free_map_wf fm -> is_u32 (occupied_word fm w).
Proof.
  intros Hwf. pose proof (map_word_u32 _ w (fmwf_words fm Hwf)) as Hx. unfold is_u32 in Hx.
  assert (0 <= U32_MAX - map_word (fm_map fm) w < 2 ^ 32) by (unfold U32_MAX; lia).
  assert (0 <= occupied_word fm w) by (apply Z.land_nonneg; left; lia).
  split; [done|]. apply bound_of_bits; [lia|done|].
  intros k Hk. unfold occupied_word. by rewrite Z.land_spec, (testbit_above 32) by lia.
Qed.

Definition highest_occupied (fm : free_map_t) (r : nat) : Prop :=
  ((r < fm_total_blocks fm)%nat /\ slot_free fm r = false /\
   forall i, (r < i < fm_total_blocks fm)%nat -> slot_free fm i = true) \/
  (r = fm_total_blocks fm /\ forall i, (i < fm_total_blocks fm)%nat -> slot_free fm i = true).

Lemma highest_used_from_spec fm word :
  free_map_wf fm -> (word <= fm_map_capacity fm)%nat ->
  (forall i, (word * 32 <= i < fm_total_blocks fm)%nat -> slot_free fm i = true) ->
  highest_occupied fm (free_map_highest_used_from fm word).
Proof.
  intros Hwf. induction word as [|w IH]; intros Hw Hhigh; cbn [free_map_highest_used_from].
  { right. split; [done|]. intros i Hi. apply Hhigh. lia. }
  fold (occupied_word fm w).
  assert (forall i, (w * 32 <= i)%nat -> (i < fm_total_blocks fm)%nat -> (i < S w * 32)%nat ->
            slot_free fm i = negb (Z.testbit (occupied_word fm w) (Z.of_nat (i - w * 32)))) as Hocc.
  { intros i H1 H2 H3. rewrite occupied_word_testbit by (auto; lia).
    replace (w * 32 + (i - w * 32))%nat with i by lia.
    rewrite (proj2 (Nat.ltb_lt _ _) H2), andb_true_r. by rewrite negb_involutive. }
  destruct (Z.eqb_spec (occupied_word fm w) 0) as [Hz|Hnz]; cbn [negb].
  - apply IH; [lia|]. intros i Hi. destruct (decide (S w * 32 <= i)%nat); [apply Hhigh; lia|].
    by rewrite Hocc, Hz, Z.bits_0 by lia.
  - left. unfold platform_clz.
    replace (31 - (31 - Z.log2 (occupied_word fm w))) with (Z.log2 (occupied_word fm w)) by lia.
    pose proof (occupied_word_u32 fm w Hwf) as Ho. unfold is_u32 in Ho.
    assert (0 <= Z.log2 (occupied_word fm w) < 32) as Hl
      by (split; [apply Z.log2_nonneg|apply Z.log2_lt_pow2; lia]).
    pose proof (occupied_word_testbit fm w (Z.to_nat (Z.log2 (occupied_word fm w)))
      Hwf ltac:(lia) ltac:(lia)) as Hk.
    rewrite Z2Nat.id, Z.bit_log2 in Hk by lia. symmetry in Hk.
    apply andb_true_iff in Hk as [Hk1%negb_true_iff Hk2%Nat.ltb_lt].
    split_and!; [done..|]. intros i Hi.
    destruct (decide (S w * 32 <= i)%nat); [apply Hhigh; lia|].
    by rewrite Hocc, Z.bits_above_log2 by lia.
Qed.

(** [free_map_highest_used] is the highest occupied slot, or [total_blocks]
    when every slot is free. *)
Lemma free_map_highest_used_spec fm :
  free_map_wf fm -> highest_occupied fm (free_map_highest_used fm).
Proof.
  intros Hwf. apply highest_used_from_spec; [done..|]. intros i Hi.
  rewrite (fmwf_capacity fm Hwf) in Hi.
  pose proof (Nat.div_mod_eq (fm_total_blocks fm + 31) 32).
  pose proof (Nat.mod_upper_bound (fm_total_blocks fm + 31) 32). lia.
Qed.

(** A map of up to 32 slots is one word. *)
Lemma one_word_wf w t :
  (1 <= t <= 32)%nat -> 0 <= w < 2 ^ Z.of_nat t -> free_map_wf (mk_free_map [w] 1 t).
Proof.
  intros Ht Hw. assert (2 ^ Z.of_nat t <= 2 ^ 32) by (apply Z.pow_le_mono_r; lia).
  split; cbn [fm_map fm_map_capacity fm_total_blocks].
  - done.
  - apply (Nat.div_unique (t + 31) 32 1 (t - 1)); lia.
  - repeat constructor; lia.
  - intros i Hi. unfold slot_free, bit_at, map_word. simpl fm_map.
    destruct (decide (i < 32)%nat).
    + rewrite Nat.div_small, Nat.mod_small by lia. simpl.
      apply (testbit_above (Z.of_nat t)); lia.
    + rewrite nth_overflow, Z.bits_0; [done|]. cbn [length].
      apply Nat.div_le_lower_bound; lia.
Qed.

(** ** Compaction *)

(** The slot an occupied slot [i] moves to: the number of occupied slots below. *)
Definition slot_rank (fm : free_map_t) (i : nat) : nat := length (occupied_below fm i).

Lemma slot_rank_S fm i :
  slot_rank fm (S i) = if slot_free fm i then slot_rank fm i else S (slot_rank fm i).
Proof.
  unfold slot_rank, occupied_below. rewrite seq_S, length_filter_app. simpl.
  destruct (slot_free fm i); simpl; lia.
Qed.

Lemma slot_rank_le fm i : (slot_rank fm i <= i)%nat.
Proof. induction i as [|i IH]; [done|]. rewrite slot_rank_S. destruct (slot_free fm i); lia. Qed.

Lemma slot_rank_mono fm i j : (i <= j)%nat -> (slot_rank fm i <= slot_rank fm j)%nat.
Proof.
  induction 1 as [|j _ IH]; [done|]. rewrite slot_rank_S. destruct (slot_free fm j); lia.
Qed.

Lemma slot_rank_lt fm i j :
  slot_free fm i = false -> (i < j)%nat -> (slot_rank fm i < slot_rank fm j)%nat.
Proof.
  intros Hi Hij. apply Nat.lt_le_trans with (slot_rank fm (S i)).
  - rewrite slot_rank_S, Hi. lia.
  - by apply slot_rank_mono.
Qed.

Lemma slot_rank_inj fm i j :
  slot_free fm i = false -> slot_free fm j = false ->
  slot_rank fm i = slot_rank fm j -> i = j.
Proof.
  intros Hi Hj E. destruct (Nat.lt_trichotomy i j) as [H|[H|H]]; [|done|].
  - apply (slot_rank_lt fm i j Hi) in H. lia.
  - apply (slot_rank_lt fm j i Hj) in H. lia.
Qed.

(** Free and occupied slots partition the real slots. *)
Lemma free_plus_occupied fm n :
  (length (List.filter (slot_free fm) (seq 0 n)) + slot_rank fm n = n)%nat.
Proof.
  induction n as [|n IH]; [done|]. rewrite slot_rank_S, seq_S, length_filter_app. simpl.
  destruct (slot_free fm n); simpl; lia.
Qed.

(** A map with an occupied slot beyond its occupied count has a gap below. *)
Lemma rank_gap fm i :
  (slot_rank fm (S i) <= i)%nat -> exists j, (j <= i)%nat /\ slot_free fm j = true.
Proof.
  induction i as [|i IH]; intros H; rewrite slot_rank_S in H.
  - destruct (slot_free fm 0) eqn:E; [by exists 0%nat|]. simpl in H. lia.
  - destruct (slot_free fm (S i)) eqn:E; [by exists (S i)|].
    destruct IH as (j & Hj & Hf); [lia|]. exists j. split; [lia|done].
Qed.

(** Below a full prefix every slot keeps its place. *)
Lemma rank_full fm n i : slot_rank fm n = n -> (i <= n)%nat -> slot_rank fm i = i.
Proof.
  intros Hn Hi. induction Hi as [|n Hi IH]; [done|]. apply IH.
  rewrite slot_rank_S in Hn. pose proof (slot_rank_le fm n). destruct (slot_free fm n); lia.
Qed.

(** Nothing above [n] occupied: the count of occupied slots is reached at [n]. *)
Lemma rank_above fm n m :
  (n <= m)%nat -> (forall i, (n <= i < m)%nat -> slot_free fm i = true) ->
  slot_rank fm m = slot_rank fm n.
Proof.
  induction 1 as [|m Hm IH]; intros Hfree; [done|].
  rewrite slot_rank_S, Hfree by lia. apply IH. intros i Hi. apply Hfree. lia.
Qed.

(** The guard of SECTION_DEFRAGMENT recognises the maps with nothing to move. *)
Lemma defrag_guard fm :
  free_map_wf fm ->
  let used := (fm_total_blocks fm - free_map_count_free fm)%nat in
  used = slot_rank fm (fm_total_blocks fm) /\
  if ((used =? 0) || (free_map_count_free fm =? 0) || (free_map_highest_used fm <? used))%nat
  then slot_rank fm used = used
  else (used <= free_map_highest_used fm)%nat /\ (free_map_highest_used fm < fm_total_blocks fm)%nat /\
       slot_free fm (free_map_highest_used fm) = false.
Proof.
  intros Hwf used. pose proof (free_plus_occupied fm (fm_total_blocks fm)) as Hsum.
  rewrite <- free_map_count_free_spec in Hsum by done.
  assert (used = slot_rank fm (fm_total_blocks fm)) as Hu by lia. split; [done|].
  pose proof (free_map_highest_used_spec fm Hwf) as Hh. unfold highest_occupied in Hh.
  destruct (Nat.eqb_spec used 0) as [->|Hu0]; [done|].
  destruct (Nat.eqb_spec (free_map_count_free fm) 0) as [Hf0|Hf0]; simpl.
  { by replace used with (fm_total_blocks fm) in * by lia. }
  destruct Hh as [(Hlt & Hocc & Hab)|[Hh Hall]].
  2: { rewrite (rank_above fm 0) in Hu; [done|lia|intros; apply Hall; lia]. }
  destruct (Nat.ltb_spec (free_map_highest_used fm) used); [|auto].
  rewrite (rank_above fm (S (free_map_highest_used fm))) in Hu by (lia || (intros; apply Hab; lia)).
  pose proof (slot_rank_le fm (S (free_map_highest_used fm))).
  replace used with (S (free_map_highest_used fm)) by lia. lia.
Qed.

Definition relocation_of (fm : free_map_t) (i : nat) : Z :=
  if slot_free fm i then SIZE_MAX else Z.of_nat (slot_rank fm i).

Lemma defrag_fold fm n :
  (n <= fm_total_blocks fm)%nat ->
  let '(relocation, write_pos) :=
    fold_left (defrag_step (fm_map fm)) (seq 0 n) (replicate (fm_total_blocks fm) SIZE_MAX, 0%nat) in
  write_pos = slot_rank fm n /\ length relocation = fm_total_blocks fm /\
  (forall i, (i < n)%nat -> relocation !! i = Some (relocation_of fm i)) /\
  (forall i, (n <= i < fm_total_blocks fm)%nat -> relocation !! i = Some SIZE_MAX).
Proof.
  induction n as [|n IH]; intros Hn.
  { simpl. split_and!; [done|apply length_replicate|intros; lia|].
    intros i Hi. apply lookup_replicate_2. lia. }
  rewrite seq_S, fold_left_app. specialize (IH ltac:(lia)).
  destruct (fold_left _ _ _) as [relocation write_pos]. destruct IH as (-> & Hlen & Hlow & Hhigh).
  cbn [fold_left defrag_step Nat.add]. rewrite map_bit_bit_at, slot_rank_S.
  fold (slot_free fm n). destruct (slot_free fm n) eqn:E.
  - split_and!; [done..| |intros i Hi; apply Hhigh; lia]. intros i Hi.
    destruct (decide (i = n)) as [->|]; [|apply Hlow; lia].
    unfold relocation_of. rewrite E. apply Hhigh. lia.
  - split_and!; [done|by rewrite length_insert| |].
    + intros i Hi. destruct (decide (i = n)) as [->|].
      * rewrite list_lookup_insert_eq by lia. unfold relocation_of. by rewrite E.
      * rewrite list_lookup_insert_ne by done. apply Hlow. lia.
    + intros i Hi. rewrite list_lookup_insert_ne by lia. apply Hhigh. lia.
Qed.

Lemma free_map_defragment_fields fm :
  free_map_wf fm ->
  let '(r, fm') := free_map_defragment fm in
  dr_new_count r = slot_rank fm (fm_total_blocks fm) /\
  length (dr_relocation r) = fm_total_blocks fm /\
  (forall i, (i < fm_total_blocks fm)%nat -> dr_relocation r !! i = Some (relocation_of fm i)) /\
  free_map_wf fm' /\ fm_total_blocks fm' = fm_total_blocks fm /\
  (forall j, slot_free fm' j = (dr_new_count r <=? j)%nat && (j <? fm_total_blocks fm)%nat).
Proof.
  intros Hwf. unfold free_map_defragment.
  pose proof (defrag_fold fm (fm_total_blocks fm) ltac:(done)) as Hfold.
  destruct (fold_left _ _ _) as [relocation write_pos]. destruct Hfold as (-> & Hlen & Hlow & _).
  simpl. set (n := slot_rank fm (fm_total_blocks fm)).
  pose proof (compacted_map_spec (fm_total_blocks fm) n) as (H1 & H2 & H3).
  rewrite <- (fmwf_capacity fm Hwf) in H1, H2, H3.
  split_and!; [done..| |done|exact H3].
  split; simpl; [done|apply Hwf|done|]. intros i Hi. unfold slot_free. simpl. rewrite H3.
  bool_cases; auto; lia.
Qed.

(** ** Properties *)

Lemma free_map_alloc_correct fm :
  free_map_wf fm ->
  match free_map_alloc fm with
  | (Some idx, fm') =>
      (idx < fm_total_blocks fm)%nat /\ slot_free fm idx = true /\
      (forall i, (i < idx)%nat -> slot_free fm i = false) /\
      free_map_wf fm' /\ fm_total_blocks fm' = fm_total_blocks fm /\
      (forall j, slot_free fm' j = slot_free fm j && negb (j =? idx)%nat) /\
      free_map_is_full fm = false
  | (None, fm') => fm' = fm /\ free_map_is_full fm = true
  end.
Proof.
  intros Hwf. pose proof (alloc_from_spec fm Hwf 0 (fm_map_capacity fm)
    eq_refl ltac:(lia)) as H. unfold free_map_alloc.
  destruct (free_map_alloc_from fm 0 _) as [[idx|] fm'].
  - destruct H as (H1 & H2 & H3 & H4 & H5). split_and!; auto using slot_free_total.
    apply not_true_iff_false. rewrite free_map_is_full_spec by done.
    intros Hfull. rewrite Hfull in H1 by auto using slot_free_total. done.
  - destruct H as [-> H]. split; [done|]. apply free_map_is_full_spec; auto.
Qed.

Lemma free_map_dealloc_correct fm index :
  free_map_wf fm ->
  let '(rc, fm') := free_map_dealloc fm index in
  (rc = 1 /\ fm' = fm /\ ((fm_total_blocks fm <= index)%nat \/ slot_free fm index = true)) \/
  (rc = 0 /\ (index < fm_total_blocks fm)%nat /\ slot_free fm index = false /\
   free_map_wf fm' /\ fm_total_blocks fm' = fm_total_blocks fm /\
   forall j, slot_free fm' j = (index =? j)%nat || slot_free fm j).
Proof.
  intros Hwf. unfold free_map_dealloc.
  destruct (Nat.leb_spec (fm_total_blocks fm) index) as [|Hlt]; [left; auto|].
  rewrite land_one_testbit, negb_involutive by lia. fold (bit_at (fm_map fm) index).
  fold (slot_free fm index). destruct (slot_free fm index) eqn:E; [left; auto|right].
  assert (forall j, bit_at (map_set_bit (fm_map fm) index) j = (index =? j)%nat || slot_free fm j)
    as Hset by (intros j; by apply bit_at_set, total_word).
  split_and!; [done..| |done|exact Hset].
  apply wf_with_map; [done|apply length_map_set_bit|apply map_set_bit_u32, Hwf|].
  intros i Hi. unfold map_set_bit in Hset. rewrite Hset, (fmwf_padding fm Hwf) by done.
  bool_cases; [lia|done].
Qed.

(** A well-formed map is determined by its size and its set of free slots. *)
Lemma free_map_ext fm1 fm2 :
  free_map_wf fm1 -> free_map_wf fm2 -> fm_total_blocks fm1 = fm_total_blocks fm2 ->
  (forall j, slot_free fm1 j = slot_free fm2 j) -> fm1 = fm2.
Proof.
  intros H1 H2 Ht Hs.
  assert (fm_map_capacity fm1 = fm_map_capacity fm2) as Hc
    by (rewrite (fmwf_capacity fm1 H1), (fmwf_capacity fm2 H2); congruence).
  assert (fm_map fm1 = fm_map fm2) as Hm.
  { apply list_eq_same_length with (length (fm_map fm2)); [done|
      by rewrite (fmwf_length fm1 H1), (fmwf_length fm2 H2)|].
    intros w x y Hw Hx Hy.
    assert (map_word (fm_map fm1) w = x /\ map_word (fm_map fm2) w = y) as [<- <-]
      by (rewrite !map_word_lookup, Hx, Hy; done).
    apply Z.bits_inj'. intros n Hn. destruct (Z.lt_ge_cases n 32).
    - specialize (Hs (w * 32 + Z.to_nat n)%nat). unfold slot_free in Hs.
      by rewrite !bit_at_split, !Z2Nat.id in Hs by lia.
    - pose proof (map_word_u32 _ w (fmwf_words fm1 H1)).
      pose proof (map_word_u32 _ w (fmwf_words fm2 H2)).
      by rewrite !(testbit_above 32) by (auto; lia). }
  destruct fm1, fm2. simpl in *. congruence.
Qed.

(** A slot taken by [free_map_alloc] can be given back, restoring the map. *)
Lemma alloc_then_dealloc (fm : free_map_t) :
  free_map_wf fm ->
  match free_map_alloc fm with
  | (Some idx, fm') =>
      (idx < fm_total_blocks fm)%nat /\
      (forall i, (i < idx)%nat -> slot_free fm i = false) /\
      (forall j, slot_free fm' j = slot_free fm j && negb (j =? idx)%nat) /\
      slot_free fm idx = true /\ free_map_wf fm' /\
      fm_total_blocks fm' = fm_total_blocks fm /\
      free_map_dealloc fm' idx = (0, fm)
  | (None, fm') => fm' = fm /\ free_map_is_full fm = true
  end.
Proof.
  intros Hwf. pose proof (free_map_alloc_correct fm Hwf) as H.
  destruct (free_map_alloc fm) as [[idx|] fm']; [|done].
  destruct H as (H1 & H2 & H3 & H4 & H5 & H6 & _). split_and!; auto.
  pose proof (free_map_dealloc_correct fm' idx H4) as Hd.
  destruct (free_map_dealloc fm' idx) as [rc fm''].
  destruct Hd as [(-> & _ & [Hge|Hfree])|(-> & _ & _ & Hwf'' & Ht & Hs)].
  - rewrite H5 in Hge. lia.
  - by rewrite H6, Nat.eqb_refl, andb_false_r in Hfree.
  - f_equal. apply free_map_ext; [done..|congruence|]. intros j. rewrite Hs, H6.
    destruct (Nat.eqb_spec idx j) as [<-|Hne]; [by rewrite H2|].
    rewrite (proj2 (Nat.eqb_neq j idx)) by congruence. by rewrite andb_true_r.
Qed.

(** [free_map_alloc] takes the lowest free slot and changes no other slot;
    releasing that slot with [free_map_dealloc] succeeds and restores the map
    exactly; when nothing can be allocated the map is full and unchanged. *)
Theorem free_map_alloc_dealloc (fm : free_map_t) :
  free_map_wf fm ->
  match free_map_alloc fm with
  | (Some idx, fm') =>
      (idx < fm_total_blocks fm)%nat /\
      (forall i, (i < idx)%nat -> slot_free fm i = false) /\
      (forall j, slot_free fm' j = slot_free fm j && negb (j =? idx)%nat) /\
      slot_free fm idx = true /\ free_map_wf fm' /\
      fm_total_blocks fm' = fm_total_blocks fm /\
      free_map_dealloc fm' idx = (0, fm)
  | (None, fm') => fm' = fm /\ free_map_is_full fm = true
  end.
Proof. apply alloc_then_dealloc. Qed.

Lemma free_map_alloc_dealloc_witness :
  free_map_wf (free_map_init 40) /\
  match free_map_alloc (free_map_init 40) with
  | (Some idx, fm') => free_map_dealloc fm' idx = (0, free_map_init 40)
  | (None, _) => False
  end.
Proof.
  split; [apply free_map_init_wf|].
  pose proof (free_map_alloc_dealloc (free_map_init 40) (free_map_init_wf 40)) as H.
  destruct (free_map_alloc (free_map_init 40)) as [[idx|] fm'] eqn:E.
  - apply H.
  - vm_compute in E. discriminate E.
Defined.

(** [free_map_defragment] relocates every occupied slot to the number of
    occupied slots below it (so in order, without gaps, never upwards), marks
    free slots with [(size_t)-1], and leaves exactly the first [new_count]
    slots occupied. *)
Theorem free_map_defragment_compacts (fm : free_map_t) :
  free_map_wf fm ->
  let '(r, fm') := free_map_defragment fm in
  dr_new_count r = length (occupied_below fm (fm_total_blocks fm)) /\
  (forall i, (i < fm_total_blocks fm)%nat ->
     dr_relocation r !! i =
       Some (if slot_free fm i then SIZE_MAX else Z.of_nat (length (occupied_below fm i)))) /\
  (forall i j, slot_free fm i = false -> (i < j)%nat ->
     (length (occupied_below fm i) < length (occupied_below fm j))%nat) /\
  (forall i, (length (occupied_below fm i) <= i)%nat) /\
  free_map_wf fm' /\
  (forall j, slot_free fm' j = (dr_new_count r <=? j)%nat && (j <? fm_total_blocks fm)%nat).
Proof.
  intros Hwf. pose proof (free_map_defragment_fields fm Hwf) as H.
  destruct (free_map_defragment fm) as [r fm']. destruct H as (H1 & H2 & H3 & H4 & H5 & H6).
  split_and!; auto; [apply slot_rank_lt|apply slot_rank_le].
Qed.

Lemma free_map_defragment_compacts_witness :
  free_map_wf (mk_free_map [5] 1 4) /\
  let '(r, fm') := free_map_defragment (mk_free_map [5] 1 4) in
  dr_relocation r = [SIZE_MAX; 0; SIZE_MAX; 1] /\ dr_new_count r = 2%nat /\
  fm' = mk_free_map [12] 1 4 /\
  dr_relocation r !! 3%nat = Some 1.
Proof.
  assert (free_map_wf (mk_free_map [5] 1 4)) as Hwf by (apply one_word_wf; lia).
  split; [done|].
  pose proof (free_map_defragment_compacts (mk_free_map [5] 1 4) Hwf) as H.
  destruct (free_map_defragment (mk_free_map [5] 1 4)) as [r fm'] eqn:E.
  destruct H as (_ & H & _). specialize (H 3%nat). vm_compute in E. injection E as <- <-.
  split; [done|]. split; [done|]. split; [done|]. apply H. simpl. lia.
Defined.

(** Reading back what was serialized, followed by anything. *)
Lemma deserialize_serialize (fm : free_map_t) (rest : bytes) :
  free_map_wf fm -> Z.of_nat (fm_total_blocks fm) < 2 ^ 32 ->
  free_map_deserialize (free_map_serialize fm ++ rest) = Some fm.
Proof.
  intros Hwf Ht. unfold free_map_serialize, free_map_deserialize.
  rewrite (take_ge (fm_map fm)) by (rewrite (fmwf_length fm Hwf); lia).
  rewrite <- !app_assoc, !length_app, length_le_bytes.
  rewrite (length_concat_const _ 4) by (intros; apply length_le_bytes).
  rewrite take_app_length' by (by rewrite length_le_bytes).
  rewrite drop_app_length' by (by rewrite length_le_bytes).
  rewrite le_value_bytes, Z.mod_small, Nat2Z.id by (change (2 ^ (8 * Z.of_nat 4)) with (2 ^ 32); lia).
  rewrite <- (fmwf_capacity fm Hwf), <- (fmwf_length fm Hwf).
  destruct (Nat.ltb_spec (4 + (length (fm_map fm) * 4 + length rest)) 4); [lia|].
  destruct (Nat.ltb_spec (4 + (length (fm_map fm) * 4 + length rest)) (4 + length (fm_map fm) * 4)); [lia|].
  f_equal. destruct fm as [m cap total] eqn:Efm.
  cbn [fm_map fm_map_capacity fm_total_blocks] in *. f_equal; [|apply Hwf].
  rewrite chunks_concat_app by (intros; apply length_le_bytes).
  rewrite map_map. rewrite <- (map_id m) at 2. apply map_ext_in.
  intros x Hx%list_elem_of_In. rewrite le_value_bytes.
  apply Z.mod_small. pose proof (fmwf_words _ Hwf) as Hw. simpl in Hw.
  rewrite Forall_forall in Hw. by apply Hw.
Qed.

(** The metadata format round-trips: reading back what
    [free_map_serialize] wrote, followed by any bytes, yields the same map. *)
Theorem free_map_serialize_roundtrip (fm : free_map_t) (rest : bytes) :
  free_map_wf fm -> Z.of_nat (fm_total_blocks fm) < 2 ^ 32 ->
  free_map_deserialize (free_map_serialize fm ++ rest) = Some fm.
Proof. apply deserialize_serialize. Qed.

Lemma free_map_serialize_roundtrip_witness :
  free_map_wf (free_map_init 40) /\ Z.of_nat (fm_total_blocks (free_map_init 40)) < 2 ^ 32 /\
  free_map_deserialize (free_map_serialize (free_map_init 40) ++ [7]) = Some (free_map_init 40).
Proof.
  split; [apply free_map_init_wf|]. split; [reflexivity|].
  apply (free_map_serialize_roundtrip (free_map_init 40) [7]).
  - apply free_map_init_wf.
  - reflexivity.
Defined.
