(* ===== verification/Platform.v ===== *)
(** * Platform: files as byte strings

    Models the parts of src/src/Platform/platform_file.c that the block cache
    uses, on the contents of one file.  The operating system's freedom to fail
    or to transfer fewer bytes is an explicit argument: [limit = None] is a
    complete transfer, [limit = Some k] a transfer that returns [k] ([k < 0] is
    an error that transfers nothing).  Offsets that do not fit a non-negative
    [off_t] are refused. *)

From S2P Require Import Prelude.
Local Open Scope Z_scope.

Definition OFF_MAX : Z := 2 ^ 63 - 1.

(** The bytes a complete read of [count] bytes at [offset] delivers. *)
Definition file_slice (content : bytes) (offset count : nat) : bytes :=
  take count (drop offset content).

(** [content] with [data] written at [offset]; a gap is filled with zeros. *)
Definition file_splice (content : bytes) (offset : nat) (data : bytes) : bytes :=
  take offset (content ++ replicate (offset - length content) 0) ++ data ++
  drop (offset + length data) content.

Definition platform_file_pread (limit : option Z) (content : bytes) (count : nat) (offset : Z)
  : Z * bytes :=
  if OFF_MAX <? offset then (-1, [])
  else
    let got := file_slice content (Z.to_nat offset) count in
    match limit with
    | None => (Z.of_nat (length got), got)
    | Some k => if k <? 0 then (-1, [])
                else let part := take (Z.to_nat k) got in (Z.of_nat (length part), part)
    end.

Definition platform_file_pwrite (limit : option Z) (content : bytes) (data : bytes) (offset : Z)
  : Z * bytes :=
  if OFF_MAX <? offset then (-1, content)
  else
    match limit with
    | None => (Z.of_nat (length data), file_splice content (Z.to_nat offset) data)
    | Some k => if k <? 0 then (-1, content)
                else let part := take (Z.to_nat k) data in
                     (Z.of_nat (length part),
                      match part with
                      | [] => content
                      | _ => file_splice content (Z.to_nat offset) part
                      end)
    end.

(** [write] to a file opened with [PLATFORM_O_TRUNC]: it becomes a prefix. *)
Definition platform_file_rewrite (limit : option Z) (data : bytes) : Z * bytes :=
  platform_file_pwrite limit [] data 0.

Definition platform_file_truncate (content : bytes) (length' : nat) : bytes :=
  take length' (content ++ replicate (length' - length content) 0).

(** ** Slices *)

Lemma length_file_slice content off n :
  (off + n <= length content)%nat -> length (file_slice content off n) = n.
Proof. intros H. unfold file_slice. rewrite length_take, length_drop. lia. Qed.

Lemma length_file_splice content off data :
  length (file_splice content off data) = ((off + length data) `max` length content)%nat.
Proof.
  unfold file_splice. rewrite !length_app, length_take, length_app, length_replicate, length_drop.
  lia.
Qed.

Lemma lookup_file_splice content off data i :
  file_splice content off data !! i =
    if (i <? off)%nat then
      (if (i <? length content)%nat then content !! i else Some 0)
    else if (i <? off + length data)%nat then data !! (i - off)%nat
    else content !! i.
Proof.
  unfold file_splice.
  assert (length (take off (content ++ replicate (off - length content) 0)) = off) as Hlen
    by (rewrite length_take, length_app, length_replicate; lia).
  destruct (Nat.ltb_spec i off) as [Hi|Hi].
  - rewrite lookup_app_l by lia. rewrite lookup_take_lt by lia.
    destruct (Nat.ltb_spec i (length content)).
    + by rewrite lookup_app_l by lia.
    + rewrite lookup_app_r by lia. apply lookup_replicate_2. lia.
  - rewrite lookup_app_r, Hlen by lia. destruct (Nat.ltb_spec i (off + length data)).
    + by rewrite lookup_app_l by lia.
    + rewrite lookup_app_r, lookup_drop by lia. f_equal. lia.
Qed.

Lemma lookup_file_slice content off n i :
  file_slice content off n !! i = if (i <? n)%nat then content !! (off + i)%nat else None.
Proof.
  unfold file_slice. destruct (Nat.ltb_spec i n).
  - by rewrite lookup_take_lt, lookup_drop by lia.
  - apply lookup_take_ge. lia.
Qed.

(** Reading back the region just written. *)
Lemma file_slice_splice_same content off data :
  file_slice (file_splice content off data) off (length data) = data.
Proof.
  apply list_eq. intros i. rewrite lookup_file_slice.
  destruct (Nat.ltb_spec i (length data)); [|by rewrite lookup_ge_None_2 by lia].
  rewrite lookup_file_splice. bool_cases; try lia. f_equal. lia.
Qed.

(** A write leaves every disjoint region that lies inside the file alone. *)
Lemma file_slice_splice_other content off data off' n :
  (off' + n <= length content)%nat ->
  (off' + n <= off \/ off + length data <= off')%nat ->
  file_slice (file_splice content off data) off' n = file_slice content off' n.
Proof.
  intros Hin Hdis. apply list_eq. intros i. rewrite !lookup_file_slice.
  destruct (Nat.ltb_spec i n); [|done]. rewrite lookup_file_splice. bool_cases; try done; lia.
Qed.

Lemma file_slice_truncate content n off m :
  (off + m <= n)%nat -> (off + m <= length content)%nat ->
  file_slice (platform_file_truncate content n) off m = file_slice content off m.
Proof.
  intros H1 H2. apply list_eq. intros i. rewrite !lookup_file_slice.
  destruct (Nat.ltb_spec i m); [|done]. unfold platform_file_truncate.
  rewrite lookup_take_lt, lookup_app_l by lia. done.
Qed.

Lemma length_file_truncate content n : length (platform_file_truncate content n) = n.
Proof.
  unfold platform_file_truncate. rewrite length_take, length_app, length_replicate. lia.
Qed.

(** Whatever the operating system transfers, a write at [off] keeps the length
    from shrinking and leaves disjoint regions alone; a complete one can be
    read back. *)
Lemma pwrite_spec limit content data off :
  Z.of_nat off <= OFF_MAX ->
  let '(w, content') := platform_file_pwrite limit content data (Z.of_nat off) in
  (length content <= length content')%nat /\
  (forall off' n, (off' + n <= length content)%nat ->
     (off' + n <= off \/ off + length data <= off')%nat ->
     file_slice content' off' n = file_slice content off' n) /\
  (Z.of_nat (length data) <= w ->
     (off + length data <= length content')%nat \/ data = []) /\
  (Z.of_nat (length data) <= w -> data <> [] -> file_slice content' off (length data) = data).
Proof.
  intros Hoff. unfold platform_file_pwrite. destruct (Z.ltb_spec OFF_MAX (Z.of_nat off)); [lia|].
  rewrite Nat2Z.id. destruct limit as [k|].
  - destruct (Z.ltb_spec k 0); [split_and!; [done..|lia|lia]|].
    destruct (take (Z.to_nat k) data) as [|b part] eqn:E.
    + split_and!; [done..| |]; intros Hw; destruct data; simpl in *; auto; try done; lia.
    + assert (length (b :: part) <= length data)%nat by (rewrite <- E, length_take; lia).
      split_and!.
      * rewrite length_file_splice. lia.
      * intros off' n Hin Hdis. apply file_slice_splice_other; [done|lia].
      * intros Hw. left. rewrite length_file_splice. lia.
      * intros Hw Hne. assert (data = b :: part) as Hd.
        { rewrite <- E. symmetry. apply take_ge. rewrite <- E, length_take in Hw. lia. }
        rewrite Hd. apply file_slice_splice_same.
  - split_and!.
    + rewrite length_file_splice. lia.
    + intros. by apply file_slice_splice_other.
    + intros _. left. rewrite length_file_splice. lia.
    + intros _ _. apply file_slice_splice_same.
Qed.

(** A read that reports [n] bytes or more delivers exactly the region. *)
Lemma pread_spec limit content n off :
  Z.of_nat off <= OFF_MAX ->
  let '(r, data) := platform_file_pread limit content n (Z.of_nat off) in
  (Z.of_nat n <= r -> data = file_slice content off n) /\
  (limit = None -> (off + n <= length content)%nat -> r = Z.of_nat n).
Proof.
  intros Hoff. unfold platform_file_pread. destruct (Z.ltb_spec OFF_MAX (Z.of_nat off)); [lia|].
  rewrite Nat2Z.id. destruct limit as [k|].
  - destruct (Z.ltb_spec k 0); (split; [|done]); [lia|]. intros Hr. apply take_ge.
    rewrite length_take in Hr. unfold file_slice in *. rewrite length_take in *. lia.
  - split; [done|]. intros _ Hin. by rewrite length_file_slice.
Qed.

Lemma pwrite_length limit content data off :
  (length content <= length (snd (platform_file_pwrite limit content data off)))%nat.
Proof.
  unfold platform_file_pwrite. destruct (OFF_MAX <? off); [done|].
  destruct limit as [k|]; [|simpl; rewrite length_file_splice; lia].
  destruct (k <? 0); [done|]. simpl. destruct (take (Z.to_nat k) data); [done|].
  rewrite length_file_splice. lia.
Qed.

(** A complete write to a truncated file makes it the bytes written. *)
Lemma rewrite_complete data : platform_file_rewrite None data = (Z.of_nat (length data), data).
Proof.
  unfold platform_file_rewrite, platform_file_pwrite, file_splice. simpl.
  by rewrite drop_nil, app_nil_r.
Qed.
