(* ===== verification/Section.v ===== *)
(** * Section: one data file of fixed-size block slots

    Models section_t and its message handlers (src/src/BlockCache/section.c):
    [section_dispatch] with its SECTION_WRITE, SECTION_READ,
    SECTION_DEALLOCATE, SECTION_SAVE_META, SECTION_CLOSE and
    SECTION_DEFRAGMENT cases, [section_save_meta], the defragmentation plan
    file and its crash recovery, and [section_create].  The three files of a
    section are explicit state ([disk_t]); every platform call that may fail
    takes its outcome from an [io_t], so the theorems hold for any pattern of
    failures.  [fsync] has no effect on file contents and is not represented. *)

From S2P Require Import Prelude FreeMap Platform.
Local Open Scope Z_scope.

(** ** State *)

Record section_t := mk_section {
  sec_id : Z;
  sec_file : bool;              (* section->file != NULL *)
  sec_free_map : free_map_t;
  sec_block_size : nat;
  sec_dirty : bool
}.

(** Contents of <path>/<id>, <meta_path>/<id> and <meta_path>/<id>.defrag;
    [None] when the file does not exist. *)
Record disk_t := mk_disk {
  d_data : option bytes;
  d_meta : option bytes;
  d_plan : option bytes
}.

(** Outcomes of the platform calls of one message. *)
Record io_t := mk_io {
  io_open_data : bool;
  io_open_meta : bool;
  io_open_plan : bool;
  io_pread : nat -> option Z;    (* by slot read *)
  io_pwrite : nat -> option Z;   (* by slot written *)
  io_write_meta : option Z;
  io_write_plan : option Z;
  io_truncate : bool
}.

(** Every call succeeds. *)
Definition io_ok : io_t :=
  mk_io true true true (fun _ => None) (fun _ => None) None None true.

Definition set_free_map (s : section_t) (fm : free_map_t) : section_t :=
  mk_section (sec_id s) (sec_file s) fm (sec_block_size s) (sec_dirty s).
Definition set_file (s : section_t) (b : bool) : section_t :=
  mk_section (sec_id s) b (sec_free_map s) (sec_block_size s) (sec_dirty s).
Definition set_dirty (s : section_t) (b : bool) : section_t :=
  mk_section (sec_id s) (sec_file s) (sec_free_map s) (sec_block_size s) b.

Definition set_data (d : disk_t) (c : option bytes) : disk_t := mk_disk c (d_meta d) (d_plan d).
Definition set_meta (d : disk_t) (c : option bytes) : disk_t := mk_disk (d_data d) c (d_plan d).
Definition set_plan (d : disk_t) (c : option bytes) : disk_t := mk_disk (d_data d) (d_meta d) c.

Definition actor_id := Z.

Inductive section_msg :=
| SECTION_WRITE (data : bytes) (reply_to : option actor_id)
| SECTION_READ (index : nat) (reply_to : option actor_id)
| SECTION_DEALLOCATE (index : nat) (reply_to : option actor_id)
| SECTION_SAVE_META
| SECTION_CLOSE
| SECTION_DEFRAGMENT (reply_to : option actor_id).

(** What a handler leaves in the message payload. *)
Inductive section_payload :=
| write_payload (result : Z) (index : nat) (full : bool)
| read_payload (result : option bytes)
| deallocate_payload (result : Z)
| defragment_payload (result : Z) (section_id : Z) (relocation : option (list Z)) (new_count : nat)
| no_payload.

(** What a handler causes besides its own state change: the [on_dirty]
    callback and the messages sent to [reply_to]. *)
Inductive section_event :=
| ev_on_dirty
| ev_write_result (to : actor_id) (result : Z) (index : nat) (full : bool)
| ev_read_result (to : actor_id) (index : nat) (data : bytes)
| ev_deallocate_result (to : actor_id) (result : Z)
| ev_defragment_result (to : actor_id) (result : Z) (section_id : Z) (relocation : list Z) (new_count : nat).

Definition reply (to : option actor_id) (ev : actor_id -> section_event) : list section_event :=
  match to with Some a => [ev a] | None => [] end.

Definition outcome := (section_t * disk_t * section_payload * list section_event)%type.

(** ** Files *)

(** [platform_file_open(path, RDWR | CREAT)] when no handle is open: [None]
    on failure, otherwise the section with a handle and the file created. *)
Definition open_data (io : io_t) (s : section_t) (d : disk_t) : option (section_t * disk_t) :=
  if sec_file s then Some (s, d)
  else if io_open_data io then
    Some (set_file s true, set_data d (Some (default [] (d_data d))))
  else None.

Definition data_content (d : disk_t) : bytes := default [] (d_data d).

Definition section_save_meta (io : io_t) (s : section_t) (d : disk_t) : disk_t :=
  if io_open_meta io then
    set_meta d (Some (snd (platform_file_rewrite (io_write_meta io)
                             (free_map_serialize (sec_free_map s)))))
  else d.

(** ** SECTION_WRITE *)

Definition section_handle_write (io : io_t) (s : section_t) (d : disk_t)
    (data : bytes) (reply_to : option actor_id) : outcome :=
  if negb (length data =? sec_block_size s)%nat then
    (s, d, write_payload 1 0 (free_map_is_full (sec_free_map s)), [])
  else
    match free_map_alloc (sec_free_map s) with
    | (None, _) => (s, d, write_payload 2 0 true, [])
    | (Some alloc_index, fm) =>
        let s := set_free_map s fm in
        match open_data io s d with
        | None =>
            let s := set_free_map s (snd (free_map_dealloc (sec_free_map s) alloc_index)) in
            (s, d, write_payload 3 0 (free_map_is_full (sec_free_map s)), [])
        | Some (s, d) =>
            let byte_offset := u64 (Z.of_nat (length data) * Z.of_nat alloc_index) in
            let '(written, content) :=
              platform_file_pwrite (io_pwrite io alloc_index) (data_content d) data byte_offset in
            let d := set_data d (Some content) in
            if written <? Z.of_nat (sec_block_size s) then
              let s := set_free_map s (snd (free_map_dealloc (sec_free_map s) alloc_index)) in
              (s, d, write_payload 5 0 (free_map_is_full (sec_free_map s)), [])
            else
              let s := set_dirty s true in
              let full := free_map_is_full (sec_free_map s) in
              (s, d, write_payload 0 alloc_index full,
               ev_on_dirty :: reply reply_to (fun a => ev_write_result a 0 alloc_index full))
        end
    end.

(** ** SECTION_READ *)

Definition section_handle_read (io : io_t) (s : section_t) (d : disk_t)
    (index : nat) (reply_to : option actor_id) : outcome :=
  let readable := sec_file s || (io_open_data io && bool_decide (is_Some (d_data d))) in
  if negb readable then (s, d, read_payload None, [])
  else
    let byte_offset := u64 (Z.of_nat index * Z.of_nat (sec_block_size s)) in
    let '(read_size, data) :=
      platform_file_pread (io_pread io index) (data_content d) (sec_block_size s) byte_offset in
    if read_size <? Z.of_nat (sec_block_size s) then (s, d, read_payload None, [])
    else
      match reply_to with
      | Some a => (s, d, read_payload None, [ev_read_result a index data])
      | None => (s, d, read_payload (Some data), [])
      end.

(** ** SECTION_DEALLOCATE *)

Definition section_handle_deallocate (s : section_t) (d : disk_t)
    (index : nat) (reply_to : option actor_id) : outcome :=
  let '(rc, fm) := free_map_dealloc (sec_free_map s) index in
  let s := set_free_map s fm in
  let s := if rc =? 0 then set_dirty s true else s in
  (s, d, deallocate_payload rc,
   (if rc =? 0 then [ev_on_dirty] else []) ++
   reply reply_to (fun a => ev_deallocate_result a rc)).

(** ** SECTION_DEFRAGMENT *)

(** The plan file: [4B total LE] [4B new_count LE] [total * 8B relocation LE]. *)
Definition defrag_plan_encode (total : nat) (r : free_map_defrag_result_t) : bytes :=
  le_bytes 4 (Z.of_nat total) ++ le_bytes 4 (Z.of_nat (dr_new_count r)) ++
  concat (map (le_bytes 8) (take total (dr_relocation r))).

(** [_section_defrag_plan_write]: the disk afterwards and the return code. *)
Definition section_defrag_plan_write (io : io_t) (s : section_t) (d : disk_t)
    (r : free_map_defrag_result_t) : disk_t * Z :=
  let buf := defrag_plan_encode (fm_total_blocks (sec_free_map s)) r in
  if negb (io_open_plan io) then (d, -1)
  else
    let '(written, content) := platform_file_rewrite (io_write_plan io) buf in
    (set_plan d (Some content), if written =? Z.of_nat (length buf) then 0 else -1).

(** One iteration of the data-movement loop; [None] is an I/O error, with the
    contents the loop leaves behind. *)
Definition move_block (io : io_t) (block_size : nat) (relocation : list Z) (content : bytes) (i : nat)
  : bytes + bytes :=
  let target := nth i relocation SIZE_MAX in
  if negb (target =? SIZE_MAX) && negb (target =? Z.of_nat i) then
    let old_offset := u64 (Z.of_nat i * Z.of_nat block_size) in
    let new_offset := u64 (target * Z.of_nat block_size) in
    let '(rd, block_buf) := platform_file_pread (io_pread io i) content block_size old_offset in
    if negb (rd =? Z.of_nat block_size) then inr content
    else
      let '(wr, content') :=
        platform_file_pwrite (io_pwrite io (Z.to_nat target)) content block_buf new_offset in
      if negb (wr =? Z.of_nat block_size) then inr content' else inl content'
  else inl content.

Fixpoint move_blocks (io : io_t) (block_size : nat) (relocation : list Z) (content : bytes)
    (slots : list nat) : bytes + bytes :=
  match slots with
  | [] => inl content
  | i :: rest =>
      match move_block io block_size relocation content i with
      | inl content' => move_blocks io block_size relocation content' rest
      | inr content' => inr content'
      end
  end.

Definition section_handle_defragment (io : io_t) (s : section_t) (d : disk_t)
    (reply_to : option actor_id) : outcome :=
  let total := fm_total_blocks (sec_free_map s) in
  let free_count := free_map_count_free (sec_free_map s) in
  let used_count := (total - free_count)%nat in
  if ((used_count =? 0) || (free_count =? 0) ||
      (free_map_highest_used (sec_free_map s) <? used_count))%nat then
    (s, d, defragment_payload 0 (sec_id s) None used_count, [])
  else
    let original := sec_free_map s in
    let '(defrag, fm) := free_map_defragment original in
    let s := set_free_map s fm in
    let '(d, plan_rc) := section_defrag_plan_write io s d defrag in
    if negb (plan_rc =? 0) then
      (set_free_map s original, d, defragment_payload (-1) (sec_id s) None 0, [])
    else
      match open_data io s d with
      | None => (set_free_map s original, d, defragment_payload (-1) (sec_id s) None 0, [])
      | Some (s, d) =>
          match move_blocks io (sec_block_size s) (dr_relocation defrag) (data_content d) (seq 0 total) with
          | inr content =>
              (set_free_map s original, set_data d (Some content),
               defragment_payload (-1) (sec_id s) None 0, [])
          | inl content =>
              let d := set_data d (Some content) in
              if negb (io_truncate io) then
                (set_free_map s original, d, defragment_payload (-1) (sec_id s) None 0, [])
              else
                let d := set_data d (Some (platform_file_truncate content
                                             (dr_new_count defrag * sec_block_size s))) in
                let s := set_dirty s true in
                let d := section_save_meta io s d in
                let d := set_plan d None in
                (s, d, defragment_payload 0 (sec_id s) (Some (dr_relocation defrag)) (dr_new_count defrag),
                 reply reply_to (fun a => ev_defragment_result a 0 (sec_id s)
                                            (dr_relocation defrag) (dr_new_count defrag)))
          end
      end.

(** ** Dispatch *)

Definition section_dispatch (io : io_t) (s : section_t) (d : disk_t) (msg : section_msg) : outcome :=
  match msg with
  | SECTION_WRITE data reply_to => section_handle_write io s d data reply_to
  | SECTION_READ index reply_to => section_handle_read io s d index reply_to
  | SECTION_DEALLOCATE index reply_to => section_handle_deallocate s d index reply_to
  | SECTION_SAVE_META => (s, section_save_meta io s d, no_payload, [])
  | SECTION_CLOSE => (set_file s false, d, no_payload, [])
  | SECTION_DEFRAGMENT reply_to => section_handle_defragment io s d reply_to
  end.

(** ** Opening a section *)

(** [_section_defrag_plan_recover]; the integer is its return code. *)
Definition section_defrag_plan_recover (io : io_t) (s : section_t) (d : disk_t)
  : section_t * disk_t * Z :=
  match d_plan d with
  | None => (s, d, 0)
  | Some buf =>
      if negb (io_open_plan io) then (s, d, -1)
      else if (length buf <? 8)%nat then (s, d, -1)
      else
        let total_blocks := Z.to_nat (le_value (take 4 buf)) in
        let new_count := Z.to_nat (le_value (take 4 (drop 4 buf))) in
        if (negb (total_blocks =? fm_total_blocks (sec_free_map s)) ||
            negb (8 + total_blocks * 8 =? length buf))%nat then (s, d, -1)
        else
          let relocation := map le_value (chunks 8 total_blocks (drop 8 buf)) in
          match open_data io s d with
          | None => (s, d, -1)
          | Some (s, d) =>
              let truncated_size := (new_count * sec_block_size s)%nat in
              let moved :=
                if (length (data_content d) <=? truncated_size)%nat then inl d
                else
                  match move_blocks io (sec_block_size s) relocation (data_content d)
                          (seq 0 total_blocks) with
                  | inr content => inr (set_data d (Some content))
                  | inl content =>
                      if negb (io_truncate io) then inr (set_data d (Some content))
                      else inl (set_data d (Some (platform_file_truncate content truncated_size)))
                  end in
              match moved with
              | inr d => (s, d, -1)
              | inl d =>
                  let fm := sec_free_map s in
                  let s := set_free_map s
                             (mk_free_map (compacted_map (fm_map_capacity fm) total_blocks new_count)
                                (fm_map_capacity fm) (fm_total_blocks fm)) in
                  (s, set_plan (section_save_meta io s d) None, 0)
              end
          end
  end.

(** [section_create]: [None] when the metadata file cannot be opened or parsed. *)
Definition section_create (io : io_t) (d : disk_t) (size : nat) (id : Z) (type : nat)
  : option (section_t * disk_t) :=
  let fresh fm := mk_section id false fm type false in
  let loaded :=
    match d_meta d with
    | Some meta => if io_open_meta io then free_map_deserialize meta else None
    | None => Some (free_map_init size)
    end in
  match loaded with
  | None => None
  | Some fm => let '(s, d, _) := section_defrag_plan_recover io (fresh fm) d in Some (s, d)
  end.

(** ** The abstract section: a finite store of blocks by slot *)

Definition slot_data (s : section_t) (d : disk_t) (i : nat) : bytes :=
  file_slice (data_content d) (i * sec_block_size s) (sec_block_size s).

Definition occupied (s : section_t) (i : nat) : bool :=
  (i <? fm_total_blocks (sec_free_map s))%nat && negb (slot_free (sec_free_map s) i).

(** What the section stores in slot [i]. *)
Definition contents (s : section_t) (d : disk_t) (i : nat) : option bytes :=
  if occupied s i then Some (slot_data s d i) else None.

(** Every occupied slot lies inside the data file, and all offsets fit. *)
Record section_inv (s : section_t) (d : disk_t) : Prop := {
  inv_map : free_map_wf (sec_free_map s);
  inv_block : (0 < sec_block_size s)%nat;
  inv_offsets : Z.of_nat (fm_total_blocks (sec_free_map s) * sec_block_size s) <= OFF_MAX;
  inv_total : Z.of_nat (fm_total_blocks (sec_free_map s)) < 2 ^ 32;
  inv_stored : forall i, occupied s i = true ->
    (S i * sec_block_size s <= length (data_content d))%nat;
  inv_file : sec_file s = true -> is_Some (d_data d)
}.

(** *** What a section promises: a store of blocks indexed by slot *)

Definition store := nat -> option bytes.

(** One message against the store of a section with [total] slots of [bs]
    bytes.  A failed compaction (I/O error) promises nothing about the store. *)
Inductive store_step (total bs : nat) (σ : store) : section_msg -> section_payload -> store -> Prop :=
| step_write data rt idx full σ' :
    length data = bs -> (idx < total)%nat -> σ idx = None ->
    (forall i, σ' i = if (i =? idx)%nat then Some data else σ i) ->
    store_step total bs σ (SECTION_WRITE data rt) (write_payload 0 idx full) σ'
| step_write_failed data rt result idx full σ' :
    result <> 0 -> (forall i, σ' i = σ i) ->
    store_step total bs σ (SECTION_WRITE data rt) (write_payload result idx full) σ'
| step_read index rt result σ' :
    (forall b b', σ index = Some b -> result = Some b' -> b' = b) -> (forall i, σ' i = σ i) ->
    store_step total bs σ (SECTION_READ index rt) (read_payload result) σ'
| step_deallocate index rt σ' :
    (forall i, σ' i = if (i =? index)%nat then None else σ i) ->
    store_step total bs σ (SECTION_DEALLOCATE index rt)
      (deallocate_payload (if σ index is Some _ then 0 else 1)) σ'
| step_save_meta σ' :
    (forall i, σ' i = σ i) -> store_step total bs σ SECTION_SAVE_META no_payload σ'
| step_close σ' :
    (forall i, σ' i = σ i) -> store_step total bs σ SECTION_CLOSE no_payload σ'
| step_defragment rt id relocation n (place : nat -> nat) σ' :
    (forall i, is_Some (σ i) -> σ' (place i) = σ i) ->
    (forall i j, is_Some (σ i) -> is_Some (σ j) -> (i < j)%nat -> (place i < place j)%nat) ->
    (forall j, is_Some (σ' j) <-> (j < n)%nat) ->
    store_step total bs σ (SECTION_DEFRAGMENT rt) (defragment_payload 0 id relocation n) σ'
| step_defragment_failed rt id relocation n σ' :
    store_step total bs σ (SECTION_DEFRAGMENT rt) (defragment_payload (-1) id relocation n) σ'.

(** A section's handling of a sequence of messages, each with its own faults. *)
Fixpoint section_run (s : section_t) (d : disk_t) (msgs : list (io_t * section_msg)) : section_t * disk_t :=
  match msgs with
  | [] => (s, d)
  | (io, msg) :: rest =>
      let '(s', d', _, _) := section_dispatch io s d msg in section_run s' d' rest
  end.

(** Messages that cannot take slot [idx] away. *)
Definition keeps_slot (idx : nat) (msg : section_msg) : bool :=
  match msg with
  | SECTION_DEALLOCATE index _ => negb (index =? idx)%nat
  | SECTION_DEFRAGMENT _ => false
  | _ => true
  end.

(** ** Lemmas on slots *)

Lemma occupied_true s i :
  occupied s i = true <-> (i < fm_total_blocks (sec_free_map s))%nat /\ slot_free (sec_free_map s) i = false.
Proof. unfold occupied. by rewrite andb_true_iff, Nat.ltb_lt, negb_true_iff. Qed.

Lemma slot_offset s d i :
  section_inv s d -> (i < fm_total_blocks (sec_free_map s))%nat ->
  u64 (Z.of_nat i * Z.of_nat (sec_block_size s)) = Z.of_nat (i * sec_block_size s) /\
  Z.of_nat (i * sec_block_size s) <= OFF_MAX.
Proof.
  intros Hinv Hi. pose proof (inv_offsets s d Hinv) as Ho.
  assert (i * sec_block_size s <= fm_total_blocks (sec_free_map s) * sec_block_size s)%nat
    by (apply Nat.mul_le_mono_r; lia).
  unfold OFF_MAX in *. split; [|lia].
  rewrite <- Nat2Z.inj_mul. apply u64_small. unfold is_u64. lia.
Qed.

Lemma slot_stored s d i :
  section_inv s d -> occupied s i = true ->
  (i * sec_block_size s + sec_block_size s <= length (data_content d))%nat.
Proof. intros Hinv Hi. pose proof (inv_stored s d Hinv i Hi). lia. Qed.

Lemma slot_disjoint bs i j : i <> j -> (j * bs + bs <= i * bs \/ i * bs + bs <= j * bs)%nat.
Proof. intros. destruct (Nat.lt_trichotomy i j) as [|[]]; [right|lia|left]; nia. Qed.

Lemma open_data_spec io s d :
  match open_data io s d with
  | Some (s', d') =>
      s' = set_file s true /\ data_content d' = data_content d /\
      d_meta d' = d_meta d /\ d_plan d' = d_plan d /\
      ((sec_file s = true -> is_Some (d_data d)) -> is_Some (d_data d'))
  | None => sec_file s = false /\ io_open_data io = false
  end.
Proof.
  unfold open_data. destruct (sec_file s) eqn:E.
  - split_and!; auto. destruct s; simpl in *; by subst.
  - destruct (io_open_data io); [|done]. split_and!; auto.
Qed.

Lemma open_data_io_ok s d : exists s' d', open_data io_ok s d = Some (s', d').
Proof. unfold open_data. destruct (sec_file s); eauto. Qed.

(** Two disks with the same data file and two sections with the same map and
    block size store the same blocks. *)
Lemma contents_same s s' d d' :
  sec_free_map s' = sec_free_map s -> sec_block_size s' = sec_block_size s ->
  data_content d' = data_content d -> forall i, contents s' d' i = contents s d i.
Proof. intros H1 H2 H3 i. unfold contents, occupied, slot_data. by rewrite H1, H2, H3. Qed.

Lemma section_inv_same s s' d d' :
  sec_free_map s' = sec_free_map s -> sec_block_size s' = sec_block_size s ->
  data_content d' = data_content d -> (sec_file s' = true -> is_Some (d_data d')) ->
  section_inv s d -> section_inv s' d'.
Proof.
  intros H1 H2 H3 H4 [I1 I2 I3 I4 I5 I6].
  split; rewrite ?H1, ?H2, ?H3; auto. intros i. unfold occupied. rewrite H1. apply I5.
Qed.

(** ** Writing, reading, releasing *)

(** A block written to a slot, completely or not, leaves the other stored
    blocks alone. *)
Lemma slot_write_spec limit s d data idx :
  section_inv s d -> (idx < fm_total_blocks (sec_free_map s))%nat ->
  length data = sec_block_size s ->
  let '(w, c) := platform_file_pwrite limit (data_content d) data
                   (Z.of_nat (idx * sec_block_size s)) in
  (length (data_content d) <= length c)%nat /\
  (forall i, occupied s i = true -> i <> idx ->
     file_slice c (i * sec_block_size s) (sec_block_size s) = slot_data s d i) /\
  (Z.of_nat (sec_block_size s) <= w ->
     (idx * sec_block_size s + sec_block_size s <= length c)%nat /\
     file_slice c (idx * sec_block_size s) (sec_block_size s) = data).
Proof.
  intros Hinv Hidx Hlen. destruct (slot_offset s d idx Hinv Hidx) as [_ Hoff].
  pose proof (pwrite_spec limit (data_content d) data _ Hoff) as Hw.
  destruct (platform_file_pwrite _ _ _ _) as [w c]. destruct Hw as (Hgrow & Hother & Hend & Hsame).
  assert (data <> []) as Hne by (intros ->; pose proof (inv_block s d Hinv); simpl in Hlen; lia).
  rewrite Hlen in *. split_and!; [done| |].
  - intros i Hi Hine. apply Hother; [by apply slot_stored|by apply slot_disjoint].
  - intros Hw. destruct (Hend Hw); [|done]. auto.
Qed.

Lemma handle_write_spec io s d data reply_to :
  section_inv s d ->
  let '(s', d', p, _) := section_handle_write io s d data reply_to in
  section_inv s' d' /\
  exists result index full, p = write_payload result index full /\
  ((result = 0 /\ length data = sec_block_size s /\ contents s d index = None /\
    (index < fm_total_blocks (sec_free_map s))%nat /\
    forall i, contents s' d' i = if (i =? index)%nat then Some data else contents s d i) \/
   (result <> 0 /\ forall i, contents s' d' i = contents s d i)).
Proof.
  intros Hinv. unfold section_handle_write.
  destruct (Nat.eqb_spec (length data) (sec_block_size s)) as [Hlen|Hlen]; cbn [negb].
  2: { split; [done|]. eexists _, _, _. split; [done|]. by right. }
  pose proof (alloc_then_dealloc _ (inv_map s d Hinv)) as Halloc.
  destruct (free_map_alloc (sec_free_map s)) as [[idx|] fm'].
  2: { split; [done|]. eexists _, _, _. split; [done|]. by right. }
  destruct Halloc as (Hidx & _ & Hfree' & Hfree & Hwf' & Htot & Hdealloc).
  pose proof (open_data_spec io (set_free_map s fm') d) as Hopen.
  destruct (open_data io (set_free_map s fm') d) as [[s2 d2]|].
  2: { simpl. rewrite Hdealloc. split.
       - by eapply (section_inv_same s _ d d); [..|apply (inv_file s d Hinv)|].
       - eexists _, _, _. split; [done|]. right. split; [done|]. by apply contents_same. }
  destruct Hopen as (-> & Hc & _ & _ & Hsome). specialize (Hsome (inv_file s d Hinv)).
  simpl in *. rewrite Hlen, Z.mul_comm. destruct (slot_offset s d idx Hinv Hidx) as [-> _]. rewrite Hc.
  pose proof (slot_write_spec (io_pwrite io idx) s d data idx Hinv Hidx Hlen) as Hw.
  destruct (platform_file_pwrite _ _ _ _) as [w c']. destruct Hw as (Hgrow & Hkeep & Hdone).
  assert (occupied s idx = false) as Hocc by (unfold occupied; by rewrite Hfree, andb_false_r).
  destruct (Z.ltb_spec w (Z.of_nat (sec_block_size s))) as [Hshort|Hfull].
  - rewrite Hdealloc. split.
    + destruct Hinv as [I1 I2 I3 I4 I5 I6]. split; simpl; auto.
      intros i Hi. etrans; [by apply I5|done].
    + eexists _, _, _. split; [done|]. right. split; [done|]. intros i.
      unfold contents. change (occupied _ i) with (occupied s i).
      destruct (occupied s i) eqn:E; [|done]. f_equal. apply Hkeep; [done|congruence].
  - destruct (Hdone Hfull) as [Hend Hsame].
    assert (forall s1 i, sec_free_map s1 = fm' ->
      occupied s1 i = occupied s i || (i =? idx)%nat) as Hocc'.
    { intros s1 i Hs1. unfold occupied. rewrite Hs1, Htot, Hfree'.
      destruct (Nat.eqb_spec i idx) as [->|]; [|by rewrite andb_true_r, orb_false_r].
      rewrite (proj2 (Nat.ltb_lt _ _) Hidx), andb_false_r. by rewrite orb_true_r. }
    split.
    + destruct Hinv as [I1 I2 I3 I4 I5 I6]. split; simpl; rewrite ?Htot; auto.
      intros i Hi. rewrite Hocc' in Hi by done. unfold data_content. simpl.
      apply orb_true_iff in Hi as [Hi| ->%Nat.eqb_eq]; [|lia]. etrans; [by apply I5|done].
    + eexists _, _, _. split; [done|]. left. split_and!; [done|done| |done|].
      * unfold contents. by rewrite Hocc.
      * intros i. unfold contents. rewrite Hocc' by done.
        destruct (Nat.eqb_spec i idx) as [->|Hine].
        -- rewrite orb_true_r. f_equal. exact Hsame.
        -- rewrite orb_false_r. destruct (occupied s i) eqn:E; [|done]. f_equal. by apply Hkeep.
Qed.

Definition read_failed (out : outcome) : Prop :=
  exists s d, out = (s, d, read_payload None, []).

(** The bytes a read hands over: in the payload, or in the reply message. *)
Definition read_delivers (out : outcome) (index : nat) (reply_to : option actor_id) (b : bytes) : Prop :=
  match out, reply_to with
  | (_, _, p, evs), Some a => p = read_payload None /\ evs = [ev_read_result a index b]
  | (_, _, p, evs), None => p = read_payload (Some b) /\ evs = []
  end.

Lemma handle_read_spec io s d index reply_to b :
  section_inv s d -> contents s d index = Some b ->
  let out := section_handle_read io s d index reply_to in
  out.1.1.1 = s /\ out.1.1.2 = d /\
  (read_failed out \/ read_delivers out index reply_to b) /\
  (io = io_ok -> read_delivers out index reply_to b).
Proof.
  intros Hinv Hb. unfold contents in Hb. destruct (occupied s index) eqn:Hocc; [|done].
  injection Hb as <-. pose proof (slot_stored s d index Hinv Hocc) as Hst.
  pose proof (inv_block s d Hinv). apply occupied_true in Hocc as [Hidx _].
  destruct (slot_offset s d index Hinv Hidx) as [Hoff Hmax].
  assert (is_Some (d_data d)) as Hdata.
  { unfold data_content in Hst. destruct (d_data d); [by eexists|simpl in Hst; lia]. }
  unfold section_handle_read. rewrite bool_decide_true, andb_true_r, Hoff by done.
  destruct (sec_file s || io_open_data io) eqn:Hopen; cbn [negb].
  2: { simpl. split_and!; [done..|left; unfold read_failed; eauto|]. intros ->.
       by rewrite orb_true_r in Hopen. }
  pose proof (pread_spec (io_pread io index) (data_content d) (sec_block_size s) _ Hmax) as Hr.
  destruct (platform_file_pread _ _ _ _) as [r data]. destruct Hr as [Hr Hok].
  destruct (Z.ltb_spec r (Z.of_nat (sec_block_size s))) as [Hs|Hs].
  - simpl. split_and!; [done..|left; unfold read_failed; eauto|]. intros ->.
    rewrite Hok in Hs by done. lia.
  - rewrite (Hr Hs). destruct reply_to; simpl; auto 10.
Qed.

Lemma handle_deallocate_spec s d index reply_to :
  section_inv s d ->
  let '(s', d', p, _) := section_handle_deallocate s d index reply_to in
  section_inv s' d' /\ d' = d /\
  p = deallocate_payload (if contents s d index is Some _ then 0 else 1) /\
  forall i, contents s' d' i = if (i =? index)%nat then None else contents s d i.
Proof.
  intros Hinv. unfold section_handle_deallocate.
  pose proof (free_map_dealloc_correct _ index (inv_map s d Hinv)) as Hd.
  destruct (free_map_dealloc (sec_free_map s) index) as [rc fm'].
  destruct Hd as [(-> & -> & Hno)|(-> & Hidx & Hused & Hwf & Htot & Hfree)]; simpl.
  - assert (contents s d index = None) as Hnone.
    { unfold contents, occupied. destruct Hno as [Hge%Nat.ltb_ge| ->]; [by rewrite Hge|].
      by rewrite andb_false_r. }
    split_and!; [by apply (section_inv_same s _ d d), Hinv; [..|apply (inv_file s d Hinv)]|done| |].
    + by rewrite Hnone.
    + intros i. destruct (Nat.eqb_spec i index) as [->|_]; [|by apply contents_same].
      rewrite <- Hnone. by apply contents_same.
  - assert (forall i, occupied (set_dirty (set_free_map s fm') true) i =
      negb (i =? index)%nat && occupied s i) as Hocc.
    { intros i. unfold occupied. simpl. rewrite Htot, Hfree, negb_orb, Nat.eqb_sym.
      destruct (i <? _)%nat, (i =? index)%nat; done. }
    split_and!; [|done| |].
    + destruct Hinv as [I1 I2 I3 I4 I5 I6]. split; simpl; rewrite ?Htot; auto.
      intros i. rewrite Hocc, andb_true_iff. intros [_ Hi]. by apply I5.
    + unfold contents. by rewrite (proj2 (occupied_true s index)).
    + intros i. unfold contents. rewrite Hocc. by destruct (i =? index)%nat.
Qed.

(** ** Moving blocks *)

Section Move.
Context (io : io_t) (fm : free_map_t) (bs : nat) (relocation : list Z) (c0 : bytes).
Context (Hbs : (0 < bs)%nat).
Context (Hoff : Z.of_nat (fm_total_blocks fm * bs) <= OFF_MAX).
Context (Htotal : Z.of_nat (fm_total_blocks fm) < 2 ^ 32).
Context (Hrel : forall i, (i < fm_total_blocks fm)%nat -> relocation !! i = Some (relocation_of fm i)).
Context (Hstored : forall i, (i < fm_total_blocks fm)%nat -> slot_free fm i = false ->
  (i * bs + bs <= length c0)%nat).

(** After the slots below [k] have been handled: their blocks are at their new
    places and the blocks from [k] on have not been touched. *)
Record moved (k : nat) (c : bytes) : Prop := {
  mv_length : (length c0 <= length c)%nat;
  mv_done : forall i, (i < k)%nat -> slot_free fm i = false ->
    file_slice c (slot_rank fm i * bs) bs = file_slice c0 (i * bs) bs;
  mv_todo : forall i, (k <= i < fm_total_blocks fm)%nat -> slot_free fm i = false ->
    file_slice c (i * bs) bs = file_slice c0 (i * bs) bs
}.

Lemma moved_start : moved 0 c0.
Proof using Type. split; [done|by intros i Hi%Nat.nlt_0_r|done]. Qed.

Lemma move_offset i : (i < fm_total_blocks fm)%nat ->
  u64 (Z.of_nat i * Z.of_nat bs) = Z.of_nat (i * bs) /\ Z.of_nat (i * bs) <= OFF_MAX.
Proof.
  intros Hi. assert (i * bs <= fm_total_blocks fm * bs)%nat by (apply Nat.mul_le_mono_r; lia).
  unfold OFF_MAX in *. split; [|lia].
  rewrite <- Nat2Z.inj_mul. apply u64_small. unfold is_u64. lia.
Qed.

(** A block that stays where it is. *)
Lemma moved_skip k c :
  (k < fm_total_blocks fm)%nat -> (slot_free fm k = false -> slot_rank fm k = k) ->
  moved k c -> moved (S k) c.
Proof.
  intros Hk Hstay [H1 H2 H3]. split; [done| |intros i Hi; apply H3; lia].
  intros i Hi Hf. destruct (decide (i = k)) as [->|]; [|apply H2; auto; lia].
  rewrite (Hstay Hf). apply H3; auto.
Qed.

(** A block written to its new place. *)
Lemma moved_write k c limit :
  (k < fm_total_blocks fm)%nat -> slot_free fm k = false -> slot_rank fm k <> k -> moved k c ->
  let '(wr, c') := platform_file_pwrite limit c (file_slice c (k * bs) bs)
                     (Z.of_nat (slot_rank fm k * bs)) in
  (length c0 <= length c')%nat /\ (wr = Z.of_nat bs -> moved (S k) c').
Proof.
  intros Hk Hf Hne [H1 H2 H3]. pose proof (slot_rank_le fm k) as Hle.
  assert (slot_rank fm k < fm_total_blocks fm)%nat as Ht by lia.
  pose proof (Hstored k Hk Hf) as Hin. destruct (move_offset _ Ht) as [_ Hmax].
  pose proof (pwrite_spec limit c (file_slice c (k * bs) bs) _ Hmax) as Hw.
  destruct (platform_file_pwrite _ _ _ _) as [wr c']. destruct Hw as (Hlen & Hother & _ & Hsame).
  rewrite length_file_slice in * by lia. split; [lia|]. intros ->.
  assert (forall o, (o * bs + bs <= length c)%nat -> o <> slot_rank fm k ->
    file_slice c' (o * bs) bs = file_slice c (o * bs) bs) as Hkeep.
  { intros o Ho Hdiff. apply Hother; [done|by apply slot_disjoint]. }
  split; [lia| |].
  - intros i Hi Hfi. destruct (decide (i = k)) as [->|].
    + rewrite Hsame; [by apply H3|done|]. intros E%(f_equal length).
      rewrite length_file_slice in E by lia. simpl in E. lia.
    + pose proof (slot_rank_le fm i). pose proof (slot_rank_lt fm i k Hfi ltac:(lia)).
      pose proof (Hstored i ltac:(lia) Hfi).
      assert (slot_rank fm i * bs <= i * bs)%nat by (by apply Nat.mul_le_mono_r).
      rewrite Hkeep by lia. apply H2; [lia|done].
  - intros i Hi Hfi. pose proof (Hstored i ltac:(lia) Hfi).
    rewrite Hkeep by lia. apply H3; [lia|done].
Qed.

Lemma move_block_spec k c :
  (k < fm_total_blocks fm)%nat -> moved k c ->
  match move_block io bs relocation c k with
  | inl c' => moved (S k) c'
  | inr c' => (length c0 <= length c')%nat /\ io <> io_ok
  end.
Proof.
  intros Hk Hm. unfold move_block. rewrite (nth_lookup_Some _ _ _ _ (Hrel k Hk)).
  unfold relocation_of. destruct (slot_free fm k) eqn:Hf; [by apply moved_skip; [|congruence|]|].
  pose proof (slot_rank_le fm k).
  destruct (Z.eqb_spec (Z.of_nat (slot_rank fm k)) SIZE_MAX) as [E|_]; [unfold SIZE_MAX in E; lia|].
  destruct (Z.eqb_spec (Z.of_nat (slot_rank fm k)) (Z.of_nat k)) as [E|E]; cbn [negb andb].
  { apply moved_skip; [done| |done]. lia. }
  rewrite Nat2Z.id. destruct (move_offset k Hk) as [-> Hmax].
  destruct (move_offset (slot_rank fm k) ltac:(lia)) as [-> Hmax'].
  pose proof (pread_spec (io_pread io k) c bs _ Hmax) as Hr.
  pose proof (mv_length _ _ Hm) as Hlen. pose proof (Hstored k Hk Hf) as Hin.
  destruct (platform_file_pread _ _ _ _) as [rd blk]. destruct Hr as [Hr Hrok].
  destruct (Z.eqb_spec rd (Z.of_nat bs)) as [->|Hrd]; cbn [negb].
  2: { split; [done|]. intros ->. apply Hrd, Hrok; [done|lia]. }
  rewrite Hr by lia.
  pose proof (moved_write k c (io_pwrite io (slot_rank fm k)) Hk Hf ltac:(lia) Hm) as Hw.
  destruct (platform_file_pwrite _ _ _ _) as [wr c'] eqn:Ew. destruct Hw as [Hl Hw].
  destruct (Z.eqb_spec wr (Z.of_nat bs)) as [->|Hwr]; cbn [negb]; [auto|].
  split; [done|]. intros ->. unfold platform_file_pwrite in Ew. simpl in Ew.
  destruct (Z.ltb_spec OFF_MAX (Z.of_nat (slot_rank fm k * bs))); [lia|].
  injection Ew as <- <-. apply Hwr. rewrite length_file_slice; [done|lia].
Qed.

Lemma move_blocks_spec n k c :
  (k + n = fm_total_blocks fm)%nat -> moved k c ->
  match move_blocks io bs relocation c (seq k n) with
  | inl c' => moved (fm_total_blocks fm) c'
  | inr c' => (length c0 <= length c')%nat /\ io <> io_ok
  end.
Proof.
  revert k c. induction n as [|n IH]; intros k c Hkn Hm; simpl.
  - by replace (fm_total_blocks fm) with k by lia.
  - pose proof (move_block_spec k c ltac:(lia) Hm) as Hb.
    destruct (move_block io bs relocation c k) as [c'|c']; [|done]. apply IH; [lia|done].
Qed.
End Move.

(** ** Defragmentation *)

(** Where the block of slot [i] is after compaction. *)
Definition compacted_from (s : section_t) (d : disk_t) (s' : section_t) (d' : disk_t) : Prop :=
  let n := slot_rank (sec_free_map s) (fm_total_blocks (sec_free_map s)) in
  (forall i, occupied s i = true -> contents s' d' (slot_rank (sec_free_map s) i) = contents s d i) /\
  (forall j, occupied s' j = (j <? n)%nat).

Lemma compacted_already s d :
  let n := slot_rank (sec_free_map s) (fm_total_blocks (sec_free_map s)) in
  slot_rank (sec_free_map s) n = n -> compacted_from s d s d.
Proof.
  set (fm := sec_free_map s). intros n Hn.
  assert (forall i, occupied s i = (i <? n)%nat) as Hocc.
  { intros i. pose proof (slot_rank_le fm (fm_total_blocks fm)) as Hle. fold n in Hle.
    apply eq_true_iff_eq. rewrite occupied_true, Nat.ltb_lt. fold fm. split.
    - intros [Hi Hf]. destruct (Nat.lt_ge_cases i n) as [|Hge]; [done|].
      pose proof (slot_rank_mono fm n i Hge). pose proof (slot_rank_lt fm i _ Hf Hi) as Hl. fold n in Hl. lia.
    - intros Hi. split; [lia|]. pose proof (rank_full fm n (S i) Hn ltac:(lia)) as HS.
      rewrite slot_rank_S, (rank_full fm n i) in HS by lia. destruct (slot_free fm i); [lia|done]. }
  split; [|exact Hocc]. intros i Hi. rewrite Hocc, Nat.ltb_lt in Hi.
  fold fm. by rewrite (rank_full fm n) by (done || lia).
Qed.

(** The compacted map over the moved and truncated file. *)
Lemma compacted_moved s d s' d' c :
  section_inv s d ->
  let fm := sec_free_map s in
  let n := slot_rank fm (fm_total_blocks fm) in
  moved fm (sec_block_size s) (data_content d) (fm_total_blocks fm) c ->
  free_map_wf (sec_free_map s') -> fm_total_blocks (sec_free_map s') = fm_total_blocks fm ->
  (forall j, slot_free (sec_free_map s') j = (n <=? j)%nat && (j <? fm_total_blocks fm)%nat) ->
  sec_block_size s' = sec_block_size s ->
  d_data d' = Some (platform_file_truncate c (n * sec_block_size s)) ->
  section_inv s' d' /\ compacted_from s d s' d'.
Proof.
  intros Hinv fm n Hmv Hwf Htot Hfree Hbs Hd.
  pose proof (slot_rank_le fm (fm_total_blocks fm)) as Hle. fold n in Hle.
  assert (forall j, occupied s' j = (j <? n)%nat) as Hocc.
  { intros j. unfold occupied. rewrite Htot, Hfree. bool_cases; done || lia. }
  assert (data_content d' = platform_file_truncate c (n * sec_block_size s)) as Hc
    by (unfold data_content; by rewrite Hd).
  split.
  - destruct Hinv as [I1 I2 I3 I4 I5 I6]. split; rewrite ?Htot, ?Hbs, ?Hd; auto.
    intros i Hi. rewrite Hocc, Nat.ltb_lt in Hi. rewrite Hc, length_file_truncate.
    apply Nat.mul_le_mono_r. lia.
  - split; [|exact Hocc]. intros i Hi. unfold contents. rewrite Hi, Hocc.
    pose proof (slot_stored s d i Hinv Hi) as Hst. apply occupied_true in Hi as [Hi Hf].
    pose proof (slot_rank_lt fm i _ Hf Hi) as Hlt. fold fm n in Hlt |- *.
    rewrite (proj2 (Nat.ltb_lt _ _) Hlt). f_equal. unfold slot_data. rewrite Hbs, Hc.
    pose proof (slot_rank_le fm i). pose proof (mv_length _ _ _ _ _ Hmv).
    assert (slot_rank fm i * sec_block_size s <= i * sec_block_size s)%nat by (by apply Nat.mul_le_mono_r).
    assert (S (slot_rank fm i) * sec_block_size s <= n * sec_block_size s)%nat by (apply Nat.mul_le_mono_r; lia).
    rewrite file_slice_truncate by lia. by apply (mv_done _ _ _ _ _ Hmv).
Qed.

Lemma section_inv_grow s d s' d' :
  section_inv s d -> sec_free_map s' = sec_free_map s -> sec_block_size s' = sec_block_size s ->
  (length (data_content d) <= length (data_content d'))%nat -> is_Some (d_data d') ->
  section_inv s' d'.
Proof.
  intros [I1 I2 I3 I4 I5 I6] H1 H2 H3 H4. split; rewrite ?H1, ?H2; auto.
  intros i. unfold occupied. rewrite H1. intros Hi. etrans; [by apply I5|done].
Qed.

Lemma save_meta_data io s d : d_data (section_save_meta io s d) = d_data d.
Proof. unfold section_save_meta. by destruct (io_open_meta io). Qed.

Lemma plan_write_spec io s d r :
  let '(d', rc) := section_defrag_plan_write io s d r in
  d_data d' = d_data d /\ d_meta d' = d_meta d /\
  (io = io_ok -> rc = 0 /\
     d_plan d' = Some (defrag_plan_encode (fm_total_blocks (sec_free_map s)) r)).
Proof.
  unfold section_defrag_plan_write. destruct (io_open_plan io) eqn:E; cbn [negb].
  - destruct (platform_file_rewrite _ _) as [w c] eqn:Ew. split_and!; [done..|]. intros ->.
    cbn [io_write_plan io_ok] in Ew. rewrite rewrite_complete in Ew. injection Ew as <- <-.
    by rewrite Z.eqb_refl.
  - split_and!; [done..|]. intros ->. done.
Qed.

(** The data-movement phase on the section whose map is [s]'s. *)
Lemma defrag_moves io s d c r :
  section_inv s d -> c = data_content d ->
  r = (free_map_defragment (sec_free_map s)).1 ->
  let fm := sec_free_map s in
  match move_blocks io (sec_block_size s) (dr_relocation r) c (seq 0 (fm_total_blocks fm)) with
  | inl c' => moved fm (sec_block_size s) (data_content d) (fm_total_blocks fm) c'
  | inr c' => (length (data_content d) <= length c')%nat /\ io <> io_ok
  end.
Proof.
  intros Hinv -> -> fm. pose proof (free_map_defragment_fields _ (inv_map s d Hinv)) as Hf.
  fold fm in Hf |- *. destruct (free_map_defragment fm) as [r fm']. simpl.
  destruct Hf as (_ & _ & Hrel & _).
  apply (move_blocks_spec io fm); [apply Hinv..|done| |done|apply moved_start].
  intros i Hi Hfree. apply slot_stored; [done|]. by apply occupied_true.
Qed.

Lemma handle_defragment_spec io s d reply_to :
  section_inv s d ->
  let '(s', d', p, _) := section_handle_defragment io s d reply_to in
  section_inv s' d' /\
  exists result relocation n, p = defragment_payload result (sec_id s) relocation n /\
  ((result = 0 /\ compacted_from s d s' d' /\
    n = slot_rank (sec_free_map s) (fm_total_blocks (sec_free_map s))) \/
   (result = -1 /\ sec_free_map s' = sec_free_map s /\ io <> io_ok)).
Proof.
  intros Hinv. unfold section_handle_defragment.
  destruct (defrag_guard _ (inv_map s d Hinv)) as [Hused Hguard].
  set (fm := sec_free_map s) in *. destruct (_ || _ || _)%nat.
  { split; [done|]. eexists _, _, _. split; [done|]. left. rewrite Hused in *.
    split_and!; [done|by apply compacted_already|done]. }
  pose proof (free_map_defragment_fields fm (inv_map s d Hinv)) as Hf.
  pose proof (defrag_moves io s d (data_content d) _ Hinv eq_refl eq_refl) as Hmv.
  fold fm in Hmv. simpl in Hmv.
  destruct (free_map_defragment fm) as [r fm'].
  destruct Hf as (Hn & _ & _ & Hwf & Htot & Hfree). rewrite Hn in *.
  pose proof (plan_write_spec io (set_free_map s fm') d r) as Hplan.
  destruct (section_defrag_plan_write _ _ _ _) as [d1 rc]. destruct Hplan as (Hd1 & _ & Hok).
  assert (data_content d1 = data_content d) as Hc1 by (unfold data_content; by rewrite Hd1).
  assert (forall s1, sec_free_map s1 = fm -> sec_block_size s1 = sec_block_size s ->
    sec_file s1 = sec_file s -> section_inv s1 d1) as Hback.
  { intros s1 E1 E2 E3. apply (section_inv_same s s1 d d1); auto.
    rewrite E3, Hd1. apply (inv_file s d Hinv). }
  destruct (Z.eqb_spec rc 0) as [->|Hrc]; cbn [negb].
  2: { split; [by apply Hback|]. eexists _, _, _. split; [done|]. right.
       split_and!; [done..|]. intros ->. by apply Hrc, Hok. }
  pose proof (open_data_spec io (set_free_map s fm') d1) as Hopen.
  destruct (open_data io (set_free_map s fm') d1) as [[s2 d2]|].
  2: { split; [by apply Hback|]. eexists _, _, _. split; [done|]. right.
       split_and!; [done..|]. intros ->. by destruct Hopen. }
  destruct Hopen as (-> & Hc2 & _). rewrite Hc2, Hc1. cbn [sec_block_size set_file set_free_map].
  simpl in Hmv. destruct (move_blocks _ _ _ _ _) as [c|c].
  - destruct (io_truncate io) eqn:Htr; cbn [negb].
    + set (sf := set_dirty _ true).
      pose proof (compacted_moved s d sf (set_plan (section_save_meta io sf (set_data (set_data d2 (Some c))
        (Some (platform_file_truncate c (slot_rank fm (fm_total_blocks fm) * sec_block_size s))))) None)
        c Hinv Hmv Hwf Htot Hfree eq_refl) as [Hi Hcf].
      { simpl. by rewrite save_meta_data. }
      split; [exact Hi|]. eexists _, _, _. split; [done|]. left. auto.
    + split.
      * eapply (section_inv_grow s d); [done..| |by eexists]. apply (mv_length _ _ _ _ _ Hmv).
      * eexists _, _, _. split; [done|]. right. split_and!; [done..|]. by intros ->.
  - destruct Hmv as [Hlen Hio]. split.
    + by eapply (section_inv_grow s d); [..|by eexists].
    + eexists _, _, _. split; [done|]. right. done.
Qed.

(** ** Dispatch *)

Lemma contents_some s d i : is_Some (contents s d i) <-> occupied s i = true.
Proof. unfold contents. by destruct (occupied s i). Qed.

Lemma compacted_step total bs s d s' d' rt id relocation n :
  compacted_from s d s' d' -> n = slot_rank (sec_free_map s) (fm_total_blocks (sec_free_map s)) ->
  store_step total bs (contents s d) (SECTION_DEFRAGMENT rt) (defragment_payload 0 id relocation n)
    (contents s' d').
Proof.
  intros [H1 H2] ->. apply step_defragment with (place := slot_rank (sec_free_map s)).
  - intros i Hi%contents_some. auto.
  - intros i j Hi%contents_some _ Hij. apply slot_rank_lt; [|done]. by apply occupied_true in Hi as [_ ?].
  - intros j. by rewrite contents_some, H2, Nat.ltb_lt.
Qed.

Lemma dispatch_step io s d msg :
  section_inv s d ->
  let '(s', d', p, _) := section_dispatch io s d msg in
  section_inv s' d' /\
  store_step (fm_total_blocks (sec_free_map s)) (sec_block_size s) (contents s d) msg p (contents s' d').
Proof.
  intros Hinv. destruct msg as [data rt|index rt|index rt| | |rt]; simpl.
  - pose proof (handle_write_spec io s d data rt Hinv) as H.
    destruct (section_handle_write _ _ _ _ _) as [[[s' d'] p] evs].
    destruct H as (Hi & r & idx & full & -> & [(-> & Hl & Hn & Hidx & Hc)|[Hr Hc]]);
      (split; [done|]); [by apply step_write|by apply step_write_failed].
  - destruct (contents s d index) as [b|] eqn:Eb.
    + pose proof (handle_read_spec io s d index rt b Hinv Eb) as H. simpl in H.
      destruct (section_handle_read _ _ _ _ _) as [[[s' d'] p] evs]. simpl in H.
      destruct H as (-> & -> & H & _). split; [done|].
      assert (exists r, p = read_payload r /\ (forall b', r = Some b' -> b' = b)) as (r & -> & Hr).
      { destruct H as [(?&?&[= _ _ -> _])|H]; [eexists; by split|].
        destruct rt; destruct H as [-> _]; eexists; (split; [done|]); congruence. }
      apply step_read; [|done]. intros b0 b' E1 E2. rewrite Eb in E1. injection E1 as <-. auto.
    + unfold section_handle_read. destruct (negb _); [split; [done|]; apply step_read; congruence|].
      destruct (platform_file_pread _ _ _ _) as [r data].
      destruct (r <? _); [|destruct rt]; (split; [done|]); apply step_read; congruence.
  - pose proof (handle_deallocate_spec s d index rt Hinv) as H.
    destruct (section_handle_deallocate _ _ _ _) as [[[s' d'] p] evs].
    destruct H as (Hi & _ & -> & Hc). split; [done|]. by apply step_deallocate.
  - assert (data_content (section_save_meta io s d) = data_content d) as Hc
      by (unfold data_content; by rewrite save_meta_data).
    split; [|apply step_save_meta; by apply contents_same].
    apply (section_inv_same s s d); [done..| |done]. rewrite save_meta_data. apply (inv_file s d Hinv).
  - split; [by apply (section_inv_same s _ d d)|]. apply step_close. by apply contents_same.
  - pose proof (handle_defragment_spec io s d rt Hinv) as H.
    destruct (section_handle_defragment _ _ _ _) as [[[s' d'] p] evs].
    destruct H as (Hi & r & rel & n & -> & [(-> & Hc & Hn)|(-> & _)]); (split; [done|]).
    + by apply compacted_step.
    + apply step_defragment_failed.
Qed.

(** ** Reopening *)

Lemma plan_decode fm :
  free_map_wf fm -> Z.of_nat (fm_total_blocks fm) < 2 ^ 32 ->
  let total := fm_total_blocks fm in
  let r := (free_map_defragment fm).1 in
  let buf := defrag_plan_encode total r in
  length buf = (8 + total * 8)%nat /\
  Z.to_nat (le_value (take 4 buf)) = total /\
  Z.to_nat (le_value (take 4 (drop 4 buf))) = slot_rank fm total /\
  map le_value (chunks 8 total (drop 8 buf)) = dr_relocation r.
Proof.
  intros Hwf Ht. pose proof (free_map_defragment_fields fm Hwf) as Hf.
  destruct (free_map_defragment fm) as [r fm']. destruct Hf as (Hn & Hlen & Hrel & _).
  cbn [fst]. unfold defrag_plan_encode.
  rewrite (take_ge (dr_relocation r)) by (rewrite Hlen; done).
  pose proof (slot_rank_le fm (fm_total_blocks fm)) as Hr.
  assert (forall z, 0 <= z < 2 ^ 32 -> le_value (le_bytes 4 z) = z) as H4.
  { intros z Hz. rewrite le_value_bytes. by apply Z.mod_small. }
  split_and!.
  - rewrite !length_app, !length_le_bytes.
    rewrite (length_concat_const _ 8) by (intros; apply length_le_bytes). lia.
  - rewrite take_app_length' by (by rewrite length_le_bytes). rewrite H4 by lia. apply Nat2Z.id.
  - rewrite drop_app_length' by (by rewrite length_le_bytes).
    rewrite take_app_length' by (by rewrite length_le_bytes).
    rewrite H4 by lia. by rewrite Nat2Z.id.
  - rewrite app_assoc, drop_app_length' by (by rewrite length_app, !length_le_bytes).
    rewrite <- (app_nil_r (concat _)), <- Hlen.
    rewrite chunks_concat_app by (intros; apply length_le_bytes).
    rewrite map_map. rewrite <- (map_id (dr_relocation r)) at 2. apply map_ext_in.
    intros x [i Hi]%list_elem_of_In%list_elem_of_lookup. pose proof (lookup_lt_Some _ _ _ Hi).
    rewrite Hrel in Hi by lia. injection Hi as <-. rewrite le_value_bytes. apply Z.mod_small.
    unfold relocation_of, SIZE_MAX. pose proof (slot_rank_le fm i).
    change (2 ^ (8 * Z.of_nat 8)) with (2 ^ 64). destruct (slot_free fm i); lia.
Qed.

Lemma defragment_map fm :
  free_map_wf fm ->
  let total := fm_total_blocks fm in
  (free_map_defragment fm).2 =
    mk_free_map (compacted_map (fm_map_capacity fm) total (slot_rank fm total)) (fm_map_capacity fm) total.
Proof.
  intros Hwf total. unfold free_map_defragment.
  pose proof (defrag_fold fm total ltac:(done)) as Hfold. fold total in Hfold |- *.
  destruct (fold_left _ _ _) as [relocation write_pos]. by destruct Hfold as (-> & _).
Qed.

(** The data file at a crash of a compaction whose plan was written: before
    the first move, or after the truncation. *)
Definition safe_crash_data (s : section_t) (d dR : disk_t) : Prop :=
  let fm := sec_free_map s in
  d_data dR = d_data d \/
  exists c, moved fm (sec_block_size s) (data_content d) (fm_total_blocks fm) c /\
    d_data dR = Some (platform_file_truncate c (slot_rank fm (fm_total_blocks fm) * sec_block_size s)).

Lemma recover_spec s d sR dR :
  section_inv s d ->
  let fm := sec_free_map s in
  let n := slot_rank fm (fm_total_blocks fm) in
  (exists h, occupied s h = true /\ (n <= h)%nat) ->
  sec_file sR = false -> sec_block_size sR = sec_block_size s ->
  fm_map_capacity (sec_free_map sR) = fm_map_capacity fm ->
  fm_total_blocks (sec_free_map sR) = fm_total_blocks fm ->
  d_plan dR = Some (defrag_plan_encode (fm_total_blocks fm) (free_map_defragment fm).1) ->
  safe_crash_data s d dR ->
  let '(s', d', rc) := section_defrag_plan_recover io_ok sR dR in
  rc = 0 /\ d_plan d' = None /\ section_inv s' d' /\ compacted_from s d s' d'.
Proof.
  intros Hinv fm n (h & Hh & Hnh) Hfile Hbs Hcap Htot Hplan Hcrash.
  pose proof (inv_map s d Hinv) as Hwf. fold fm in Hwf.
  destruct (plan_decode fm Hwf (inv_total s d Hinv)) as (Hlen & Hd1 & Hd2 & Hd3).
  unfold section_defrag_plan_recover. rewrite Hplan. cbn [io_open_plan io_ok negb].
  rewrite Hlen, Hd1, Hd2, Hd3, Htot, !Nat.eqb_refl. fold n.
  destruct (Nat.ltb_spec (8 + fm_total_blocks fm * 8) 8); [lia|]. cbn [negb orb].
  unfold open_data. rewrite Hfile. cbn [io_open_data io_ok set_file sec_block_size sec_free_map].
  rewrite Hbs, Hcap, Htot.
  set (dO := set_data dR (Some (default [] (d_data dR)))).
  assert (exists c', moved fm (sec_block_size s) (data_content d) (fm_total_blocks fm) c' /\
    (if (length (data_content dO) <=? n * sec_block_size s)%nat then inl dO
     else match move_blocks io_ok (sec_block_size s) (dr_relocation (free_map_defragment fm).1)
                  (data_content dO) (seq 0 (fm_total_blocks fm)) with
          | inr content => inr (set_data dO (Some content))
          | inl content => if negb (io_truncate io_ok) then inr (set_data dO (Some content))
                           else inl (set_data dO (Some (platform_file_truncate content (n * sec_block_size s))))
          end) = inl (set_data dO (Some (platform_file_truncate c' (n * sec_block_size s)))))
    as (c' & Hmv & ->).
  { destruct Hcrash as [E|(c & Hmv & E)].
    - assert (data_content dO = data_content d) as -> by (unfold dO, data_content; simpl; by rewrite E).
      pose proof (slot_stored s d h Hinv Hh). pose proof (inv_block s d Hinv).
      assert (n * sec_block_size s <= h * sec_block_size s)%nat by (by apply Nat.mul_le_mono_r).
      destruct (Nat.leb_spec (length (data_content d)) (n * sec_block_size s)); [lia|].
      pose proof (defrag_moves io_ok s d _ _ Hinv eq_refl eq_refl) as Hmv. fold fm in Hmv.
      simpl in Hmv. destruct (move_blocks _ _ _ _ _) as [c'|c']; [by exists c'|].
      by destruct Hmv as [_ []].
    - exists c. split; [done|]. subst dO n. fold fm in E. rewrite E.
      unfold data_content. simpl. by rewrite length_file_truncate, Nat.leb_refl. }
  pose proof (free_map_defragment_fields fm Hwf) as Hf. pose proof (defragment_map fm Hwf) as Hm.
  simpl in Hm. destruct (free_map_defragment fm) as [r fm']. cbn [snd] in Hm. fold n in Hm.
  destruct Hf as (Hn & _ & _ & Hwf' & Htot' & Hfree). fold n in Hn. rewrite Hn in Hfree. subst fm'.
  split_and!; [done|done|..]; eapply (compacted_moved s d _ _ c'); try done;
    simpl; by rewrite save_meta_data.
Qed.

Lemma run_keeps s d idx b msgs :
  section_inv s d -> contents s d idx = Some b ->
  forallb (fun m => keeps_slot idx m.2) msgs = true ->
  let '(s', d') := section_run s d msgs in section_inv s' d' /\ contents s' d' idx = Some b.
Proof.
  revert s d. induction msgs as [|[io msg] msgs IH]; intros s d Hinv Hb Hkeep; [done|].
  cbn [forallb section_run snd] in *. apply andb_true_iff in Hkeep as [Hk Hkeep].
  pose proof (dispatch_step io s d msg Hinv) as Hd.
  destruct (section_dispatch io s d msg) as [[[s' d'] p] evs]. destruct Hd as [Hi Hs].
  apply IH; [done| |done].
  inversion Hs as [? ? idx' ? ? ? ? Hn Hc| | |index ? ? Hc| | | |]; subst; try done;
    rewrite ?Hc; try congruence.
  - destruct (Nat.eqb_spec idx idx') as [<-|]; [congruence|done].
  - simpl in Hk. rewrite Nat.eqb_sym. destruct (index =? idx)%nat; [done|congruence].
Qed.

(** A section of three one-byte slots with blocks in slots 1 and 2. *)
Definition gap_section : section_t := mk_section 7 false (mk_free_map [1] 1 3) 1 false.
Definition gap_disk : disk_t := mk_disk (Some [0; 10; 20]) (Some (free_map_serialize (mk_free_map [1] 1 3))) None.

Lemma gap_inv : section_inv gap_section gap_disk.
Proof.
  split; try done; [apply one_word_wf; lia|simpl; lia|].
  intros i [Hi _]%occupied_true. simpl in *. unfold data_content. simpl. lia.
Qed.

Lemma fresh_section_inv id bs total :
  (0 < bs)%nat -> Z.of_nat (total * bs) <= OFF_MAX -> Z.of_nat total < 2 ^ 32 ->
  section_inv (mk_section id false (free_map_init total) bs false) (mk_disk None None None).
Proof.
  intros Hbs Hoff Htot. split; try done; [apply free_map_init_wf|].
  intros i Hi%occupied_true. cbn [sec_free_map fm_total_blocks free_map_init] in Hi.
  rewrite free_map_init_free in Hi. destruct Hi as [Hi%Nat.ltb_lt Hf]. congruence.
Qed.

(** ** Properties *)

(** C8: the message handlers of a section implement the block store: whatever
    platform calls fail, every message takes the store of a well-formed section
    to one the specification allows (a successful write fills one empty slot
    and changes no other, a failed write changes nothing, a release empties one
    slot, a compaction keeps every block, in order, in the first slots), and
    leaves the section well-formed. *)
Theorem section_dispatch_refines (io : io_t) (s : section_t) (d : disk_t) (msg : section_msg) :
  section_inv s d ->
  let '(s', d', p, _) := section_dispatch io s d msg in
  section_inv s' d' /\
  store_step (fm_total_blocks (sec_free_map s)) (sec_block_size s) (contents s d) msg p (contents s' d').
Proof. apply dispatch_step. Qed.

Lemma section_dispatch_refines_witness :
  section_inv gap_section gap_disk /\
  store_step 3 1 (contents gap_section gap_disk) (SECTION_DEALLOCATE 2 None) (deallocate_payload 0)
    (contents (set_dirty (set_free_map gap_section (mk_free_map [5] 1 3)) true) gap_disk).
Proof.
  split; [apply gap_inv|].
  exact (proj2 (section_dispatch_refines io_ok gap_section gap_disk (SECTION_DEALLOCATE 2 None) gap_inv)).
Defined.

(** A block whose SECTION_WRITE reported success is returned by a read of
    its slot after any later messages, with any I/O faults, that neither
    release the slot nor compact the section. *)
Theorem section_write_read_back (io : io_t) (s : section_t) (d : disk_t) (data : bytes)
    (rt rt' : option actor_id) (idx : nat) (full : bool) (s1 : section_t) (d1 : disk_t)
    (evs : list section_event) (later : list (io_t * section_msg)) :
  section_inv s d ->
  section_dispatch io s d (SECTION_WRITE data rt) = (s1, d1, write_payload 0 idx full, evs) ->
  forallb (fun m => keeps_slot idx m.2) later = true ->
  let '(s2, d2) := section_run s1 d1 later in
  read_delivers (section_dispatch io_ok s2 d2 (SECTION_READ idx rt')) idx rt' data.
Proof.
  intros Hinv Hw Hlater. pose proof (handle_write_spec io s d data rt Hinv) as H.
  simpl in Hw. rewrite Hw in H. destruct H as (Hi & r & idx' & full' & [= <- <- <-] & H).
  destruct H as [(_ & _ & _ & _ & Hc)|[[] _]]; [|done].
  assert (contents s1 d1 idx = Some data) as Hb by (by rewrite Hc, Nat.eqb_refl).
  pose proof (run_keeps s1 d1 idx data later Hi Hb Hlater) as Hrun.
  destruct (section_run s1 d1 later) as [s2 d2]. destruct Hrun as [Hi2 Hb2].
  by apply (handle_read_spec io_ok s2 d2 idx rt' data Hi2 Hb2).
Qed.

Lemma section_write_read_back_witness :
  let s := mk_section 7 false (free_map_init 4) 2 false in
  let d := mk_disk None None None in
  let later := [(io_ok, SECTION_WRITE [7; 8] (Some 3)); (io_ok, SECTION_DEALLOCATE 1 None);
                (io_ok, SECTION_CLOSE)] in
  let '(s1, d1, p, _) := section_dispatch io_ok s d (SECTION_WRITE [5; 6] None) in
  p = write_payload 0 0 false /\
  let '(s2, d2) := section_run s1 d1 later in
  read_delivers (section_dispatch io_ok s2 d2 (SECTION_READ 0 None)) 0 None [5; 6].
Proof.
  intros s d later. split; [reflexivity|].
  assert (section_inv s d) as Hinv by (apply fresh_section_inv; unfold OFF_MAX; lia).
  exact (section_write_read_back io_ok s d [5; 6] None None 0 false _ _ _ later Hinv eq_refl eq_refl).
Defined.

(** C28: SECTION_DEFRAGMENT loses nothing when it reports success, and it does
    report success when no platform call fails: the block of slot [i] is then
    in slot [slot_rank i], and exactly the first [new_count] slots are used. *)
Theorem section_defragment_preserves (io : io_t) (s : section_t) (d : disk_t) (rt : option actor_id) :
  section_inv s d ->
  let '(s', d', p, _) := section_dispatch io s d (SECTION_DEFRAGMENT rt) in
  exists result relocation n, p = defragment_payload result (sec_id s) relocation n /\
  (io = io_ok -> result = 0) /\
  (result = 0 ->
     (forall i, occupied s i = true ->
        contents s' d' (slot_rank (sec_free_map s) i) = contents s d i) /\
     (forall j, occupied s' j = (j <? n)%nat)).
Proof.
  intros Hinv. pose proof (handle_defragment_spec io s d rt Hinv) as H. simpl.
  destruct (section_handle_defragment _ _ _ _) as [[[s' d'] p] evs].
  destruct H as (_ & r & rel & n & -> & H). exists r, rel, n. split; [done|].
  destruct H as [(-> & [Hc Ho] & ->)|(-> & _ & Hio)]; (split; [done|]); [|done]. auto.
Qed.

Lemma section_defragment_preserves_witness :
  section_inv gap_section gap_disk /\
  let '(s', d', _, _) := section_dispatch io_ok gap_section gap_disk (SECTION_DEFRAGMENT None) in
  contents s' d' 0 = Some [10] /\ contents s' d' 1 = Some [20] /\
  contents s' d' (slot_rank (sec_free_map gap_section) 1) = contents gap_section gap_disk 1.
Proof.
  split; [apply gap_inv|].
  pose proof (section_defragment_preserves io_ok gap_section gap_disk None gap_inv) as H.
  destruct (section_dispatch io_ok gap_section gap_disk (SECTION_DEFRAGMENT None))
    as [[[s' d'] p] evs] eqn:E.
  destruct H as (r & rel & n & -> & Hok & Hr). destruct (Hr (Hok eq_refl)) as [Hc _].
  specialize (Hc 1%nat eq_refl). vm_compute in E. injection E as <- <- _ _ _ _.
  split; [reflexivity|]. split; [reflexivity|]. exact Hc.
Defined.

(** C29: crash recovery is right at the crash points around the data movement:
    a section reopened after a crash between writing the plan and the first
    move, after the truncation, or after saving the new metadata holds every
    block at its compacted slot, and the plan file is gone. *)
Theorem defrag_crash_recovery (s : section_t) (d : disk_t) (c : bytes) (size : nat) :
  let fm := sec_free_map s in
  let total := fm_total_blocks fm in
  let '(r, fm') := free_map_defragment fm in
  section_inv s d ->
  d_meta d = Some (free_map_serialize fm) ->
  (exists h, occupied s h = true /\ (dr_new_count r <= h)%nat) ->
  move_blocks io_ok (sec_block_size s) (dr_relocation r) (data_content d) (seq 0 total) = inl c ->
  let after_plan := set_plan d (Some (defrag_plan_encode total r)) in
  let after_truncate :=
    set_data after_plan (Some (platform_file_truncate c (dr_new_count r * sec_block_size s))) in
  let after_meta := set_meta after_truncate (Some (free_map_serialize fm')) in
  forall crash, crash ∈ [after_plan; after_truncate; after_meta] ->
  match section_create io_ok crash size (sec_id s) (sec_block_size s) with
  | Some (s', d') => section_inv s' d' /\ d_plan d' = None /\ compacted_from s d s' d'
  | None => False
  end.
Proof.
  intros fm total. pose proof (free_map_defragment_fields fm) as Hf.
  pose proof (recover_spec s d) as Hrec. pose proof (defrag_moves io_ok s d) as Hmv.
  pose proof (defragment_map fm) as Hm. fold fm in Hrec, Hmv.
  destruct (free_map_defragment fm) as [r fm'] eqn:Er.
  intros Hinv Hmeta Hgap Hmoves after_plan after_truncate after_meta crash Hin.
  destruct (Hf (inv_map s d Hinv)) as (Hn & _ & _ & Hwf' & Htot' & _).
  specialize (Hmv (data_content d) r Hinv eq_refl eq_refl). fold total in Hmv, Hn.
  cbn [fst snd] in *. simpl in Hmv. fold total in Hmv. rewrite Hmoves in Hmv.
  rewrite Er in Hrec. rewrite Hn in Hgap.
  assert (safe_crash_data s d after_plan) as S1 by (by left).
  assert (safe_crash_data s d after_truncate) as S2
    by (right; exists c; split; [done|]; simpl; by rewrite Hn).
  pose proof (inv_total s d Hinv) as Htot. fold fm in Htot.
  assert (exists fmR, d_meta crash = Some (free_map_serialize fmR) /\ free_map_wf fmR /\
    fm_map_capacity fmR = fm_map_capacity fm /\ fm_total_blocks fmR = fm_total_blocks fm /\
    safe_crash_data s d crash /\ d_plan crash = Some (defrag_plan_encode total r))
    as (fmR & Hmeta' & HwfR & HcapR & HtotR & Hsafe & Hplan).
  { rewrite !elem_of_cons, elem_of_nil in Hin. destruct Hin as [->|[->|[->|[]]]].
    - exists fm. split_and!; try done. apply (inv_map s d Hinv).
    - exists fm. split_and!; try done. apply (inv_map s d Hinv).
    - exists fm'. split_and!; try done.
      rewrite (fmwf_capacity _ Hwf'), Htot'. symmetry. apply (fmwf_capacity fm), (inv_map s d Hinv). }
  unfold section_create. rewrite Hmeta'. cbn [io_open_meta io_ok].
  rewrite <- (app_nil_r (free_map_serialize fmR)), deserialize_serialize by (done || lia).
  specialize (Hrec (mk_section (sec_id s) false fmR (sec_block_size s) false) crash Hinv Hgap
    eq_refl eq_refl HcapR HtotR Hplan Hsafe).
  destruct (section_defrag_plan_recover _ _ _) as [[s' d'] rc]. by destruct Hrec as (_ & ? & ? & ?).
Qed.

Lemma defrag_crash_recovery_witness :
  section_inv gap_section gap_disk /\
  match section_create io_ok
          (set_plan gap_disk (Some (defrag_plan_encode 3 (free_map_defragment (mk_free_map [1] 1 3)).1)))
          3 7 1 with
  | Some (s', d') => section_inv s' d' /\ d_plan d' = None /\ compacted_from gap_section gap_disk s' d'
  | None => False
  end.
Proof.
  split; [apply gap_inv|].
  apply (defrag_crash_recovery gap_section gap_disk [10; 20; 20] 3).
  - apply gap_inv.
  - reflexivity.
  - exists 2%nat. split; [reflexivity|]. simpl. lia.
  - reflexivity.
  - apply elem_of_cons. by left.
Defined.

(** Recovery is not right at the crash points between: after a crash with
    both blocks of [gap_section] moved and the file not yet truncated, the
    reopened section reports success but holds block 20 twice; block 10 is
    lost, since the moves are replayed on a file that already contains their
    results. *)
Theorem defrag_crash_loses_block :
  let r := (free_map_defragment (sec_free_map gap_section)).1 in
  let planned := set_plan gap_disk (Some (defrag_plan_encode 3 r)) in
  match move_blocks io_ok 1 (dr_relocation r) (data_content planned) (seq 0 3) with
  | inl c =>
      match section_create io_ok (set_data planned (Some c)) 3 7 1 with
      | Some (s', d') =>
          contents gap_section gap_disk 1 = Some [10] /\ contents gap_section gap_disk 2 = Some [20] /\
          d_plan d' = None /\ contents s' d' 0 = Some [20] /\ contents s' d' 1 = Some [20]
      | None => False
      end
  | inr _ => False
  end.
Proof. vm_compute. auto 10. Qed.
