(* ===== verification/Float.v ===== *)
(** * Float: the float and double values the program exchanges

    A value is a [spec_float]; finite values are kept reduced (odd mantissa),
    so that a number has one representation whatever its precision.  The
    conversion from float to double is then the identity, and the conversion
    back rounds to nearest even when the value is not a float.  NaN payloads
    are not distinguished. *)

From Stdlib Require Export SpecFloat.
From S2P Require Import Prelude.
Local Open Scope Z_scope.

(** The bits of the mantissa below its last set bit go to the exponent. *)
Fixpoint reduce_pos (m : positive) (e : Z) : positive * Z :=
  match m with
  | xO m => reduce_pos m (e + 1)
  | _ => (m, e)
  end.

Definition reduce (x : spec_float) : spec_float :=
  match x with
  | S754_finite s m e => let '(m, e) := reduce_pos m e in S754_finite s m e
  | _ => x
  end.

(** [x] is a reduced value of the format with [prec] digits and exponents up to
    [emax]. *)
Definition representable (prec emax : Z) (x : spec_float) : bool :=
  match x with
  | S754_finite _ m e =>
      Z.odd (Zpos m) && (Zpos (digits2_pos m) <=? prec) && (3 - emax - prec <=? e) &&
      (e + Zpos (digits2_pos m) <=? emax)
  | _ => true
  end.

Definition is_float (x : spec_float) : bool := representable 24 128 x.
Definition is_double (x : spec_float) : bool := representable 53 1024 x.

(** [(float)x] for a double [x]. *)
Definition float_of_double (x : spec_float) : spec_float :=
  if is_float x then x
  else
    match x with
    | S754_finite s m e => reduce (binary_normalize 24 128 (cond_Zopp s (Zpos m)) e s)
    | _ => x
    end.

(** [(double)x] for a float [x]. *)
Definition double_of_float (x : spec_float) : spec_float := x.

(** ** The 64-bit interchange format *)

Definition sign_bit (s : bool) : Z := if s then 2 ^ 63 else 0.

Definition double_bits (x : spec_float) : Z :=
  match x with
  | S754_zero s => sign_bit s
  | S754_infinity s => sign_bit s + 2047 * 2 ^ 52
  | S754_nan => 2047 * 2 ^ 52 + 2 ^ 51
  | S754_finite s m e =>
      let d := Zpos (digits2_pos m) in
      if -1022 <=? e + d - 1
      then sign_bit s + ((e + d + 1022) * 2 ^ 52 + (Zpos m * 2 ^ (53 - d) - 2 ^ 52))
      else sign_bit s + Zpos m * 2 ^ (e + 1074)
  end.

Definition bits_double (b : Z) : spec_float :=
  let s := 2 ^ 63 <=? b in
  let b := b mod 2 ^ 63 in
  let ex := b / 2 ^ 52 in
  let fr := b mod 2 ^ 52 in
  if ex =? 2047 then if fr =? 0 then S754_infinity s else S754_nan
  else if ex =? 0 then
    if fr =? 0 then S754_zero s else reduce (S754_finite s (Z.to_pos fr) (-1074))
  else reduce (S754_finite s (Z.to_pos (2 ^ 52 + fr)) (ex - 1075)).

(** ** Lemmas *)

Lemma is_float_is_double x : is_float x = true -> is_double x = true.
Proof.
  destruct x as [| | |s m e]; try done. unfold is_float, is_double, representable.
  rewrite !andb_true_iff, !Z.leb_le. intros. repeat split; try tauto; lia.
Qed.

(** The two conversions are inverse on floats. *)
Lemma float_double_float x : is_float x = true -> float_of_double (double_of_float x) = x.
Proof. intros Hx. unfold float_of_double, double_of_float. by rewrite Hx. Qed.

Lemma reduce_pos_shift m k e :
  Z.odd (Zpos m) = true -> reduce_pos (Pos.iter xO m k) e = (m, e + Zpos k).
Proof.
  intros Hm. revert e. induction k as [|k IH] using Pos.peano_ind; intros e.
  - simpl. by destruct m.
  - rewrite Pos.iter_succ. cbn [reduce_pos]. rewrite IH. f_equal. lia.
Qed.

Lemma reduce_shift s m k e : Z.odd (Zpos m) = true -> 0 <= k ->
  reduce (S754_finite s (Z.to_pos (Zpos m * 2 ^ k)) e) = S754_finite s m (e + k).
Proof.
  intros Hm Hk. destruct k as [|k|k]; [|..|lia].
  - rewrite Z.mul_1_r, Z.add_0_r. simpl. by destruct m.
  - rewrite <- Z.shiftl_mul_pow2 by lia. change (Zpos m ≪ Zpos k) with (Pos.iter (Z.mul 2) (Zpos m) k).
    cbn [reduce]. rewrite <- (Pos.iter_swap_gen _ _ Zpos xO (Z.mul 2)) by done.
    simpl Z.to_pos. by rewrite reduce_pos_shift.
Qed.

Lemma digits_bounds m : 2 ^ (Zpos (digits2_pos m) - 1) <= Zpos m < 2 ^ Zpos (digits2_pos m).
Proof.
  induction m as [m IH|m IH|]; cbn [digits2_pos]; [| |simpl; lia].
  all: rewrite Pos2Z.inj_succ; replace (Z.succ _ - 1) with (Z.succ (Zpos (digits2_pos m) - 1)) by lia;
    rewrite !Z.pow_succ_r by lia; lia.
Qed.

Lemma bits_double_split (s : bool) r : 0 <= r < 2 ^ 63 ->
  (2 ^ 63 <=? sign_bit s + r) = s /\ (sign_bit s + r) mod 2 ^ 63 = r.
Proof.
  intros Hr. destruct s; unfold sign_bit; bool_cases; split; try done; try lia.
  - replace (2 ^ 63 + r) with (r + 1 * 2 ^ 63) by lia. rewrite Z.mod_add by lia. by apply Z.mod_small.
  - by apply Z.mod_small.
Qed.

(** The 53-bit mantissa of a normal number and the 52-bit one of a subnormal. *)
Lemma normal_mantissa m : Zpos (digits2_pos m) <= 53 ->
  2 ^ 52 <= Zpos m * 2 ^ (53 - Zpos (digits2_pos m)) < 2 ^ 53.
Proof.
  intros Hd. pose proof (digits_bounds m) as Hb. set (d := Zpos (digits2_pos m)) in *.
  assert (0 < d) by (unfold d; lia). assert (0 < 2 ^ (53 - d)) by (apply Z.pow_pos_nonneg; lia).
  replace (2 ^ 52) with (2 ^ (d - 1) * 2 ^ (53 - d)) by (rewrite <- Z.pow_add_r by lia; f_equal; lia).
  replace (2 ^ 53) with (2 ^ d * 2 ^ (53 - d)) by (rewrite <- Z.pow_add_r by lia; f_equal; lia).
  nia.
Qed.

Lemma subnormal_mantissa m e : -1074 <= e -> e + Zpos (digits2_pos m) - 1 < -1022 ->
  0 < Zpos m * 2 ^ (e + 1074) < 2 ^ 52.
Proof.
  intros He Hd. pose proof (digits_bounds m) as Hb. set (d := Zpos (digits2_pos m)) in *.
  assert (0 < d) by (unfold d; lia). assert (0 < 2 ^ (e + 1074)) by (apply Z.pow_pos_nonneg; lia).
  split; [lia|]. apply Z.lt_le_trans with (2 ^ d * 2 ^ (e + 1074)); [nia|].
  rewrite <- Z.pow_add_r by lia. apply Z.pow_le_mono_r; lia.
Qed.

(** Writing a double to its bits and reading it back. *)
Lemma bits_double_bits x : is_double x = true -> bits_double (double_bits x) = x.
Proof.
  destruct x as [s|s| |s m e]; unfold is_double, representable; [by destruct s|by destruct s|done|].
  rewrite !andb_true_iff, !Z.leb_le. intros [[[Hodd Hd] He] Hmax]. unfold double_bits, bits_double.
  destruct (Z.leb_spec (-1022) (e + Zpos (digits2_pos m) - 1)) as [Hn|Hn].
  - pose proof (normal_mantissa m Hd) as Hm. set (d := Zpos (digits2_pos m)) in *.
    set (f := Zpos m * 2 ^ (53 - d)) in *.
    destruct (bits_double_split s ((e + d + 1022) * 2 ^ 52 + (f - 2 ^ 52))) as [-> ->]; [lia|].
    rewrite Z.div_add_l, Z.div_small, Z.add_0_r by lia.
    rewrite (Z.add_comm _ (f - 2 ^ 52)), Z.mod_add, Z.mod_small by lia.
    rewrite (proj2 (Z.eqb_neq _ 2047)), (proj2 (Z.eqb_neq _ 0)) by lia.
    replace (2 ^ 52 + (f - 2 ^ 52)) with f by lia. unfold f. rewrite reduce_shift by (done || lia).
    f_equal. lia.
  - pose proof (subnormal_mantissa m e ltac:(lia) Hn) as Hm.
    destruct (bits_double_split s (Zpos m * 2 ^ (e + 1074))) as [-> ->]; [lia|].
    rewrite Z.div_small, Z.mod_small by lia. simpl (0 =? 2047). simpl (0 =? 0).
    rewrite (proj2 (Z.eqb_neq _ 0)) by lia. rewrite reduce_shift by (done || lia). f_equal. lia.
Qed.

Lemma double_bits_range x : is_double x = true -> is_u64 (double_bits x).
Proof.
  destruct x as [s|s| |s m e]; unfold is_double, representable, is_u64;
    [by destruct s|by destruct s|done|].
  rewrite !andb_true_iff, !Z.leb_le. intros [[[Hodd Hd] He] Hmax]. unfold double_bits.
  assert (0 <= sign_bit s <= 2 ^ 63) by (destruct s; simpl; lia).
  destruct (Z.leb_spec (-1022) (e + Zpos (digits2_pos m) - 1)) as [Hn|Hn].
  - pose proof (normal_mantissa m Hd). lia.
  - pose proof (subnormal_mantissa m e ltac:(lia) Hn). lia.
Qed.
