(* ===== verification/Cbor.v ===== *)
(** * Cbor: the interface of libcbor

    libcbor (deps/libcbor) is not part of the program; the codecs under
    src/src use it through the operations below.  [Cbor] names the operations,
    [CborLaws] what the library's documentation says of them: building an item
    and taking it apart again are inverse, and [cbor_typeof] tells the kinds
    of item apart.  Allocation failure is outside the model (the project
    aborts on it elsewhere), so [cbor_array_push] fails only when a definite
    array is full. *)

From S2P Require Import Prelude.
From S2P Require Export Float.
Local Open Scope Z_scope.

Inductive cbor_type :=
| CBOR_TYPE_UINT | CBOR_TYPE_NEGINT | CBOR_TYPE_BYTESTRING | CBOR_TYPE_STRING
| CBOR_TYPE_ARRAY | CBOR_TYPE_MAP | CBOR_TYPE_TAG | CBOR_TYPE_FLOAT_CTRL.

#[export] Instance cbor_type_eq_dec : EqDecision cbor_type.
Proof. solve_decision. Defined.

Inductive cbor_int_width := CBOR_INT_8 | CBOR_INT_16 | CBOR_INT_32 | CBOR_INT_64.

#[export] Instance cbor_int_width_eq_dec : EqDecision cbor_int_width.
Proof. solve_decision. Defined.

Definition width_bits (w : cbor_int_width) : Z :=
  match w with CBOR_INT_8 => 8 | CBOR_INT_16 => 16 | CBOR_INT_32 => 32 | CBOR_INT_64 => 64 end.

(** The operations.  [cbor_array items] is [cbor_new_definite_array] with
    [items] pushed in order; [cbor_get_uint w] is [cbor_get_uint8], ...,
    [cbor_get_uint64]; [cbor_build_float8] is [cbor_new_float8] with its value
    set. *)
Class Cbor := {
  cbor_item : Type;
  cbor_typeof : cbor_item -> cbor_type;
  cbor_build_uint : cbor_int_width -> Z -> cbor_item;
  cbor_int_get_width : cbor_item -> cbor_int_width;
  cbor_get_uint : cbor_int_width -> cbor_item -> Z;
  cbor_get_int : cbor_item -> Z;
  cbor_build_bytestring : bytes -> cbor_item;
  cbor_bytestring_handle : cbor_item -> bytes;
  cbor_build_string : bytes -> cbor_item;
  cbor_string_handle : cbor_item -> bytes;
  cbor_array : list cbor_item -> cbor_item;
  cbor_array_items : cbor_item -> list cbor_item;
  cbor_build_float8 : spec_float -> cbor_item;
  cbor_float_get_float : cbor_item -> spec_float;
  cbor_new_null : cbor_item;
  cbor_is_null : cbor_item -> bool
}.

Class CborLaws `{Cbor} : Prop := {
  typeof_uint w z : cbor_typeof (cbor_build_uint w z) = CBOR_TYPE_UINT;
  width_uint w z : cbor_int_get_width (cbor_build_uint w z) = w;
  get_uint_build w z : 0 <= z < 2 ^ width_bits w -> cbor_get_uint w (cbor_build_uint w z) = z;
  get_int_build w z : 0 <= z < 2 ^ width_bits w -> cbor_get_int (cbor_build_uint w z) = z;
  get_uint_range w i : 0 <= cbor_get_uint w i < 2 ^ width_bits w;
  get_int_range i : is_u64 (cbor_get_int i);
  typeof_bytestring b : cbor_typeof (cbor_build_bytestring b) = CBOR_TYPE_BYTESTRING;
  bytestring_build b : cbor_bytestring_handle (cbor_build_bytestring b) = b;
  typeof_string b : cbor_typeof (cbor_build_string b) = CBOR_TYPE_STRING;
  string_build b : cbor_string_handle (cbor_build_string b) = b;
  typeof_array l : cbor_typeof (cbor_array l) = CBOR_TYPE_ARRAY;
  array_items l : cbor_array_items (cbor_array l) = l;
  typeof_float x : cbor_typeof (cbor_build_float8 x) = CBOR_TYPE_FLOAT_CTRL;
  float_build x : cbor_float_get_float (cbor_build_float8 x) = x;
  float_not_null x : cbor_is_null (cbor_build_float8 x) = false;
  is_null_null : cbor_is_null cbor_new_null = true;
  is_null_typeof i : cbor_is_null i = true -> cbor_typeof i = CBOR_TYPE_FLOAT_CTRL
}.

(** Encoding to bytes: [cbor_serialize_alloc] and [cbor_load].  The laws are
    those of RFC 8949 as libcbor implements it: an item with in-range contents
    is read back, 16-, 32- and 64-bit integers keep their width, and strings
    and arrays have a length header of minimal size. *)
Class CborSerial `{Cbor} := {
  cbor_serialize : cbor_item -> bytes;
  cbor_load : bytes -> option cbor_item;
  cbor_serializable : cbor_item -> Prop
}.

Class CborSerialLaws `{CborSerial} : Prop := {
  serializable_uint w z : 0 <= z < 2 ^ width_bits w -> cbor_serializable (cbor_build_uint w z);
  serializable_bytestring b :
    is_bytes b -> Z.of_nat (length b) < 2 ^ 64 -> cbor_serializable (cbor_build_bytestring b);
  serializable_string b :
    is_bytes b -> Z.of_nat (length b) < 2 ^ 64 -> cbor_serializable (cbor_build_string b);
  serializable_float x : is_double x = true -> cbor_serializable (cbor_build_float8 x);
  serializable_null : cbor_serializable cbor_new_null;
  serializable_array l :
    Forall cbor_serializable l -> Z.of_nat (length l) < 2 ^ 64 -> cbor_serializable (cbor_array l);
  load_serialize i : cbor_serializable i -> cbor_load (cbor_serialize i) = Some i;
  serialize_bytes i : cbor_serializable i -> is_bytes (cbor_serialize i);
  serialize_bytestring_le b : (length b <= length (cbor_serialize (cbor_build_bytestring b)))%nat;
  serialize_uint_length w z :
    w <> CBOR_INT_8 -> length (cbor_serialize (cbor_build_uint w z)) = S (Z.to_nat (width_bits w / 8));
  serialize_uint8_length z : 24 <= z < 2 ^ 8 -> length (cbor_serialize (cbor_build_uint CBOR_INT_8 z)) = 2%nat;
  serialize_bytestring_length b :
    (24 <= length b < 256)%nat -> length (cbor_serialize (cbor_build_bytestring b)) = S (S (length b));
  serialize_array_length l :
    (length l < 24)%nat ->
    length (cbor_serialize (cbor_array l)) = S (sum_list (map (fun i => length (cbor_serialize i)) l))
}.

(** ** Results of decoders *)

(** A structure, a rejected item, or an accessor applied to an item of another
    kind than its own: outside the library's contract, which leaves the checks
    to the caller. *)

Inductive decoded (A : Type) : Type :=
| DECODED (a : A)
| REJECTED
| ILL_TYPED.
Arguments DECODED {A} a.
Arguments REJECTED {A}.
Arguments ILL_TYPED {A}.

#[export] Instance decoded_bind : MBind decoded := fun A B f d =>
  match d with DECODED a => f a | REJECTED => REJECTED | ILL_TYPED => ILL_TYPED end.

#[export] Instance decoded_ret : MRet decoded := @DECODED.

#[export] Instance decoded_fmap : FMap decoded := fun A B f d =>
  match d with DECODED a => DECODED (f a) | REJECTED => REJECTED | ILL_TYPED => ILL_TYPED end.

Lemma fmap_DECODED {A B} (f : A -> B) (d : decoded A) b :
  f <$> d = DECODED b <-> exists a, d = DECODED a /\ b = f a.
Proof. split; [destruct d; [|done..]; intros [= <-]; eauto|by intros (a & -> & ->)]. Qed.

Lemma bind_DECODED {A B} (d : decoded A) (f : A -> decoded B) b :
  d ≫= f = DECODED b <-> exists a, d = DECODED a /\ f a = DECODED b.
Proof. split; [destruct d; [eauto|done..]|by intros (a & -> & ?)]. Qed.

(** No accessor is applied to an item of another kind. *)
Definition well_typed {A} (d : decoded A) : Prop := d <> ILL_TYPED.

Lemma well_typed_bind {A B} (d : decoded A) (f : A -> decoded B) :
  well_typed d -> (forall a, d = DECODED a -> well_typed (f a)) -> well_typed (d ≫= f).
Proof. intros Hd Hf. destruct d; [by apply Hf|done|done]. Qed.

Section Derived.
Context `{Cbor}.

Definition cbor_build_uint8 : Z -> cbor_item := cbor_build_uint CBOR_INT_8.
Definition cbor_build_uint16 : Z -> cbor_item := cbor_build_uint CBOR_INT_16.
Definition cbor_build_uint32 : Z -> cbor_item := cbor_build_uint CBOR_INT_32.
Definition cbor_build_uint64 : Z -> cbor_item := cbor_build_uint CBOR_INT_64.
Definition cbor_get_uint8 : cbor_item -> Z := cbor_get_uint CBOR_INT_8.
Definition cbor_get_uint16 : cbor_item -> Z := cbor_get_uint CBOR_INT_16.
Definition cbor_get_uint32 : cbor_item -> Z := cbor_get_uint CBOR_INT_32.
Definition cbor_get_uint64 : cbor_item -> Z := cbor_get_uint CBOR_INT_64.

Definition cbor_isa_uint (i : cbor_item) : bool := bool_decide (cbor_typeof i = CBOR_TYPE_UINT).
Definition cbor_isa_bytestring (i : cbor_item) : bool := bool_decide (cbor_typeof i = CBOR_TYPE_BYTESTRING).
Definition cbor_isa_string (i : cbor_item) : bool := bool_decide (cbor_typeof i = CBOR_TYPE_STRING).
Definition cbor_isa_array (i : cbor_item) : bool := bool_decide (cbor_typeof i = CBOR_TYPE_ARRAY).

Definition cbor_isa_float_ctrl (i : cbor_item) : bool := bool_decide (cbor_typeof i = CBOR_TYPE_FLOAT_CTRL).

Definition cbor_array_size (i : cbor_item) : nat := length (cbor_array_items i).
(** [None] is an access outside the array. *)
Definition cbor_array_get (i : cbor_item) (n : nat) : option cbor_item := cbor_array_items i !! n.
Definition cbor_bytestring_length (i : cbor_item) : nat := length (cbor_bytestring_handle i).
Definition cbor_string_length (i : cbor_item) : nat := length (cbor_string_handle i).

(** [cbor_new_definite_array(n)] followed by a push of each item: [None] when
    a push fails. *)
Definition cbor_definite_array (n : nat) (items : list cbor_item) : option cbor_item :=
  if (length items <=? n)%nat then Some (cbor_array items) else None.
End Derived.

(** Rewrites an accessor applied to a built item. *)
Ltac cbor_simp :=
  unfold cbor_isa_uint, cbor_isa_bytestring, cbor_isa_string, cbor_isa_array, cbor_isa_float_ctrl,
    cbor_array_size, cbor_array_get, cbor_bytestring_length, cbor_string_length, cbor_build_uint8, cbor_build_uint16, cbor_build_uint32,
    cbor_build_uint64, cbor_get_uint8, cbor_get_uint16, cbor_get_uint32, cbor_get_uint64 in *;
  repeat first
    [ rewrite typeof_uint | rewrite width_uint | rewrite typeof_bytestring | rewrite bytestring_build
    | rewrite typeof_string | rewrite string_build | rewrite typeof_array | rewrite array_items
    | rewrite typeof_float | rewrite float_build | rewrite float_not_null | rewrite is_null_null
    | rewrite get_uint_build by (cbn [width_bits]; unfold is_u8, is_u16, is_u32, is_u64 in *; lia)
    | rewrite get_int_build by (cbn [width_bits]; unfold is_u8, is_u16, is_u32, is_u64 in *; lia) ].

(** ** A concrete item type satisfying the laws *)

Inductive item :=
| item_uint (w : cbor_int_width) (z : Z)
| item_bytes (b : bytes)
| item_string (b : bytes)
| item_array (l : list item)
| item_float (x : spec_float)
| item_null.

Definition item_typeof (i : item) : cbor_type :=
  match i with
  | item_uint _ _ => CBOR_TYPE_UINT
  | item_bytes _ => CBOR_TYPE_BYTESTRING
  | item_string _ => CBOR_TYPE_STRING
  | item_array _ => CBOR_TYPE_ARRAY
  | item_float _ | item_null => CBOR_TYPE_FLOAT_CTRL
  end.

Definition item_value (i : item) : Z := if i is item_uint _ z then u64 z else 0.

#[export] Instance item_cbor : Cbor := {|
  cbor_item := item;
  cbor_typeof := item_typeof;
  cbor_build_uint w z := item_uint w (z mod 2 ^ width_bits w);
  cbor_int_get_width i := if i is item_uint w _ then w else CBOR_INT_8;
  cbor_get_uint w i := item_value i mod 2 ^ width_bits w;
  cbor_get_int := item_value;
  cbor_build_bytestring := item_bytes;
  cbor_bytestring_handle i := if i is item_bytes b then b else [];
  cbor_build_string := item_string;
  cbor_string_handle i := if i is item_string b then b else [];
  cbor_array := item_array;
  cbor_array_items i := if i is item_array l then l else [];
  cbor_build_float8 := item_float;
  cbor_float_get_float i := if i is item_float x then x else S754_nan;
  cbor_new_null := item_null;
  cbor_is_null i := if i is item_null then true else false
|}.

Lemma item_value_build w z :
  0 <= z < 2 ^ width_bits w -> item_value (item_uint w (z mod 2 ^ width_bits w)) = z.
Proof.
  intros Hz. simpl. rewrite (Z.mod_small z) by done. apply u64_small. unfold is_u64.
  assert (2 ^ width_bits w <= 2 ^ 64) by (destruct w; simpl; lia). lia.
Qed.

#[export] Instance item_cbor_laws : CborLaws.
Proof.
  split; try done.
  - intros w z Hz. cbn [cbor_get_uint cbor_build_uint item_cbor].
    rewrite (item_value_build w z Hz). by apply Z.mod_small.
  - intros w z Hz. by apply item_value_build.
  - intros w i. apply Z.mod_pos_bound. by destruct w.
  - intros i. destruct i; try (unfold is_u64; simpl; lia). apply u64_range.
  - by intros [].
Qed.
