(* ===== verification/CborCodec.v ===== *)
(** * CborCodec: a concrete encoder and decoder

    An implementation of the [CborSerial] interface for the item type of
    [Cbor], following RFC 8949 the way libcbor writes items.  It shows that
    the laws of the interface can hold and lets the examples of the
    development run on real bytes. *)

From S2P Require Import Prelude Cbor.
Local Open Scope Z_scope.

(** ** Encoding *)

Definition head_byte (major info : Z) : Z := major * 32 + info.

(** A head of the given width. *)
Definition encode_width (major : Z) (w : cbor_int_width) (z : Z) : bytes :=
  match w with
  | CBOR_INT_8 => if z <? 24 then [head_byte major z] else head_byte major 24 :: be_bytes 1 z
  | CBOR_INT_16 => head_byte major 25 :: be_bytes 2 z
  | CBOR_INT_32 => head_byte major 26 :: be_bytes 4 z
  | CBOR_INT_64 => head_byte major 27 :: be_bytes 8 z
  end.

(** The smallest width for a length. *)
Definition length_width (z : Z) : cbor_int_width :=
  if z <? 2 ^ 8 then CBOR_INT_8
  else if z <? 2 ^ 16 then CBOR_INT_16
  else if z <? 2 ^ 32 then CBOR_INT_32
  else CBOR_INT_64.

Definition encode_length (major : Z) (n : nat) : bytes :=
  encode_width major (length_width (Z.of_nat n)) (Z.of_nat n).

Fixpoint encode_item (i : item) : bytes :=
  match i with
  | item_uint w z => encode_width 0 w z
  | item_bytes b => encode_length 2 (length b) ++ b
  | item_string b => encode_length 3 (length b) ++ b
  | item_array l => encode_length 4 (length l) ++ concat (map encode_item l)
  | item_float x => encode_width 7 CBOR_INT_64 (double_bits x)
  | item_null => [head_byte 7 22]
  end.

(** ** Decoding *)

(** The big-endian value of the next [n] bytes. *)
Definition take_value (n : nat) (bs : bytes) : option (Z * bytes) :=
  if (length bs <? n)%nat then None else Some (be_value (take n bs), drop n bs).

(** Major type, width, value and the bytes after the head. *)
Definition decode_head (bs : bytes) : option (Z * cbor_int_width * Z * bytes) :=
  match bs with
  | [] => None
  | b :: rest =>
      let major := b / 32 in
      let info := b mod 32 in
      if info <? 24 then Some (major, CBOR_INT_8, info, rest)
      else
        let sized w n := '(z, rest) ← take_value n rest; Some (major, w, z, rest) in
        if info =? 24 then sized CBOR_INT_8 1%nat
        else if info =? 25 then sized CBOR_INT_16 2%nat
        else if info =? 26 then sized CBOR_INT_32 4%nat
        else if info =? 27 then sized CBOR_INT_64 8%nat
        else None
  end.

Fixpoint decode_items (decode : bytes -> option (item * bytes)) (n : nat) (bs : bytes)
  : option (list item * bytes) :=
  match n with
  | O => Some ([], bs)
  | S n =>
      '(i, bs) ← decode bs;
      '(l, bs) ← decode_items decode n bs;
      Some (i :: l, bs)
  end.

(** [fuel] bounds the nesting depth. *)
Fixpoint decode_item (fuel : nat) (bs : bytes) : option (item * bytes) :=
  match fuel with
  | O => None
  | S fuel =>
      '(major, w, z, rest) ← decode_head bs;
      let n := Z.to_nat z in
      if major =? 0 then Some (item_uint w z, rest)
      else if (major =? 2) || (major =? 3) then
        if (length rest <? n)%nat then None
        else Some ((if major =? 2 then item_bytes else item_string) (take n rest), drop n rest)
      else if major =? 4 then
        '(l, rest) ← decode_items (decode_item fuel) n rest;
        Some (item_array l, rest)
      else if major =? 7 then
        match w with
        | CBOR_INT_64 => Some (item_float (bits_double z), rest)
        | CBOR_INT_8 => if z =? 22 then Some (item_null, rest) else None
        | _ => None
        end
      else None
  end.

(** An item is nested no deeper than it has bytes. *)
#[export] Instance item_serial : CborSerial := {|
  cbor_serialize := encode_item;
  cbor_load bs := fst <$> decode_item (length bs) bs;
  cbor_serializable := fix ok (i : item) : Prop :=
    match i with
    | item_uint w z => 0 <= z < 2 ^ width_bits w
    | item_bytes b | item_string b => is_bytes b /\ Z.of_nat (length b) < 2 ^ 64
    | item_array l => Z.of_nat (length l) < 2 ^ 64 /\ foldr (fun i P => ok i /\ P) True l
    | item_float x => is_double x = true
    | item_null => True
    end
|}.

(** ** Correctness *)

Lemma be_value_bytes n z : be_value (be_bytes n z) = z mod 2 ^ (8 * Z.of_nat n).
Proof. unfold be_value, be_bytes. by rewrite reverse_involutive, le_value_bytes. Qed.

Lemma length_be_bytes n z : length (be_bytes n z) = n.
Proof. unfold be_bytes. by rewrite length_reverse, length_le_bytes. Qed.

Lemma take_value_bytes n z rest :
  0 <= z < 2 ^ (8 * Z.of_nat n) -> take_value n (be_bytes n z ++ rest) = Some (z, rest).
Proof.
  intros Hz. unfold take_value. rewrite length_app, length_be_bytes.
  destruct (Nat.ltb_spec (n + length rest) n); [lia|].
  rewrite take_app_length', drop_app_length' by (by rewrite length_be_bytes).
  by rewrite be_value_bytes, Z.mod_small.
Qed.

Lemma head_split major info : 0 <= major -> 0 <= info < 32 ->
  head_byte major info / 32 = major /\ head_byte major info mod 32 = info.
Proof.
  intros Hm Hi. unfold head_byte. rewrite Z.add_comm, Z.div_add, Z.mod_add by lia.
  rewrite Z.div_small, Z.mod_small by lia. lia.
Qed.

Lemma decode_head_encode major w z rest :
  0 <= major -> 0 <= z < 2 ^ width_bits w ->
  decode_head (encode_width major w z ++ rest) = Some (major, w, z, rest).
Proof.
  intros Hm Hz. unfold encode_width, decode_head.
  destruct w; [destruct (Z.ltb_spec z 24)|..]; cbn [app].
  { destruct (head_split major z) as [-> ->]; [lia..|].
    by rewrite (proj2 (Z.ltb_lt z 24)). }
  all: match goal with |- context [head_byte ?m ?i] =>
    destruct (head_split m i) as [-> ->]; [lia..|]; simpl Z.ltb; simpl Z.eqb; cbn iota end.
  all: rewrite take_value_bytes; [done|assumption].
Qed.

Lemma length_width_range z : 0 <= z < 2 ^ 64 -> 0 <= z < 2 ^ width_bits (length_width z).
Proof. intros Hz. unfold length_width. bool_cases; lia. Qed.

Lemma decode_head_length major n rest :
  0 <= major -> Z.of_nat n < 2 ^ 64 ->
  decode_head (encode_length major n ++ rest) =
    Some (major, length_width (Z.of_nat n), Z.of_nat n, rest).
Proof.
  intros Hm Hn. apply decode_head_encode; [done|]. apply length_width_range. lia.
Qed.

(** Nesting depth. *)
Fixpoint item_depth (i : item) : nat :=
  match i with
  | item_array l => S (foldr (fun i n => item_depth i `max` n)%nat 0%nat l)
  | _ => 1%nat
  end.

Lemma decode_items_encode fuel l rest :
  (forall i, In i l -> forall rest, decode_item fuel (encode_item i ++ rest) = Some (i, rest)) ->
  decode_items (decode_item fuel) (length l) (concat (map encode_item l) ++ rest) = Some (l, rest).
Proof.
  induction l as [|i l IH]; intros Hl; [done|]. cbn [length decode_items map concat].
  rewrite <- app_assoc, Hl by (by left). cbn [mbind option_bind].
  rewrite IH; [done|]. intros j Hj. apply Hl. by right.
Qed.

Lemma decode_encode_item fuel i rest :
  (item_depth i <= fuel)%nat -> cbor_serializable i ->
  decode_item fuel (encode_item i ++ rest) = Some (i, rest).
Proof.
  revert i rest. induction fuel as [|fuel IH]; intros i rest Hd Hok; [destruct i; simpl in Hd; lia|].
  destruct i as [w z|b|b|l|x|]; cbn [encode_item decode_item].
  - rewrite decode_head_encode by (lia || exact Hok). done.
  - destruct Hok as [_ Hl]. rewrite <- app_assoc, decode_head_length by lia. cbn -[Nat.ltb].
    rewrite Nat2Z.id, length_app, take_app_length, drop_app_length.
    by destruct (Nat.ltb_spec (length b + length rest) (length b)); [lia|].
  - destruct Hok as [_ Hl]. rewrite <- app_assoc, decode_head_length by lia. cbn -[Nat.ltb].
    rewrite Nat2Z.id, length_app, take_app_length, drop_app_length.
    by destruct (Nat.ltb_spec (length b + length rest) (length b)); [lia|].
  - destruct Hok as [Hl Hall]. rewrite <- app_assoc, decode_head_length by lia. cbn -[decode_items].
    rewrite Nat2Z.id, decode_items_encode; [done|].
    intros j Hj rest'. apply IH.
    + simpl in Hd. clear -Hd Hj. induction l as [|k l IHl]; [done|]. simpl in *.
      destruct Hj as [->|Hj]; [lia|]. apply IHl; [lia|done].
    + clear -Hall Hj. induction l as [|k l IHl]; [done|]. destruct Hall as [Hk Hall].
      destruct Hj as [->|Hj]; [done|]. by apply IHl.
  - rewrite decode_head_encode by (lia || by apply double_bits_range). cbn -[bits_double double_bits].
    by rewrite bits_double_bits.
  - done.
Qed.

Lemma encode_width_nonempty major w z : (0 < length (encode_width major w z))%nat.
Proof. destruct w; simpl; [destruct (z <? 24)|..]; simpl; lia. Qed.

Lemma depth_le_length i : (item_depth i <= length (encode_item i))%nat.
Proof.
  revert i. fix IH 1. intros [w z|b|b|l|x|]; cbn [item_depth encode_item].
  1-3,5: rewrite ?length_app; unfold encode_length;
    match goal with |- context [encode_width ?m ?w ?z] => pose proof (encode_width_nonempty m w z) end; lia.
  2: done.
  rewrite length_app. unfold encode_length.
  pose proof (encode_width_nonempty 4 (length_width (Z.of_nat (length l))) (Z.of_nat (length l))).
  assert (foldr (fun i n => item_depth i `max` n) 0 l <= length (concat (map encode_item l)))%nat.
  { clear H. induction l as [|i l IHl]; [done|]. cbn [foldr map concat]. rewrite length_app.
    specialize (IH i). lia. }
  lia.
Qed.

Lemma encode_length_short major n : (n < 24)%nat -> length (encode_length major n) = 1%nat.
Proof.
  intros Hn. unfold encode_length, length_width, encode_width.
  rewrite (proj2 (Z.ltb_lt _ (2 ^ 8))), (proj2 (Z.ltb_lt _ 24)) by lia. done.
Qed.

Lemma encode_length_byte major n : (24 <= n < 256)%nat -> length (encode_length major n) = 2%nat.
Proof.
  intros Hn. unfold encode_length, length_width, encode_width.
  rewrite (proj2 (Z.ltb_lt _ (2 ^ 8))), (proj2 (Z.ltb_ge _ 24)) by lia. done.
Qed.

Lemma encode_width_bytes major w z : 0 <= major < 8 -> 0 <= z -> is_bytes (encode_width major w z).
Proof.
  intros Hm Hz. assert (forall n z, is_bytes (be_bytes n z)) as Hb.
  { intros n z'. apply Forall_reverse, le_bytes_range. }
  assert (forall info, 0 <= info < 32 -> is_u8 (head_byte major info)) as Hh.
  { intros info Hi. unfold is_u8, head_byte. lia. }
  destruct w; cbn [encode_width]; try (constructor; [apply Hh; lia|apply Hb]).
  destruct (Z.ltb_spec z 24); constructor; try (apply Hh; lia); try apply Hb. constructor.
Qed.

Lemma encode_item_bytes i : cbor_serializable i -> is_bytes (encode_item i).
Proof.
  revert i. fix IH 1. intros [w z|b|b|l|x|] Hok; cbn [encode_item].
  - apply encode_width_bytes; [lia|apply Hok].
  - apply Forall_app. split; [apply encode_width_bytes; lia|apply Hok].
  - apply Forall_app. split; [apply encode_width_bytes; lia|apply Hok].
  - apply Forall_app. split; [apply encode_width_bytes; lia|]. destruct Hok as [_ Hok].
    induction l as [|i l IHl]; [constructor|]. destruct Hok as [Hi Hl]. cbn [map concat]. apply Forall_app.
    split; [apply (IH i Hi)|apply (IHl Hl)].
  - apply encode_width_bytes; [lia|]. by apply double_bits_range.
  - constructor; [|constructor]. unfold is_u8, head_byte. lia.
Qed.

#[export] Instance item_serial_laws : CborSerialLaws.
Proof.
  split.
  - intros w z Hz. cbn. by rewrite Z.mod_small.
  - done.
  - done.
  - done.
  - done.
  - intros l Hl Hn. split; [exact Hn|]. clear Hn.
    induction Hl as [|i l Hi Hl IH]; [exact I|]. split; [exact Hi|exact IH].
  - intros i Hi. cbn [cbor_load item_serial cbor_serialize].
    rewrite <- (app_nil_r (encode_item i)) at 2.
    rewrite decode_encode_item; [done|apply depth_le_length|done].
  - apply encode_item_bytes.
  - intros b. cbn. rewrite length_app. lia.
  - intros w z Hw. destruct w; [done|..]; reflexivity.
  - intros z Hz. cbn [cbor_serialize item_serial cbor_build_uint item_cbor encode_item encode_width].
    rewrite Z.mod_small by (simpl; lia). by rewrite (proj2 (Z.ltb_ge z 24)) by lia.
  - intros b Hb. cbn. by rewrite length_app, encode_length_byte.
  - intros l Hl. cbn. rewrite length_app, encode_length_short by done. f_equal.
    clear Hl. induction l as [|i l IH]; [done|]. simpl. by rewrite length_app, IH.
Qed.
