(* ===== verification/Fibonacci.v ===== *)
(** * Fibonacci: the hit counter that ranks blocks

    Models src/src/BlockCache/fibonacci.c on 32-bit unsigned arithmetic.  A
    counter counts hits up to the Fibonacci number of its rank; one more hit
    promotes it to the next rank.  The theorems show that the loop computes
    Fibonacci numbers modulo 2^32, that increment and decrement are inverse,
    that an increment moves the counter up in the order
    [fibonacci_hit_counter_compare] decides, and the CBOR round trip. *)

From S2P Require Import Prelude Cbor.
Local Open Scope Z_scope.

(** The loop body, on (current, parent, grandparent). *)
Definition fibonacci_step (acc : Z * Z * Z) : Z * Z * Z :=
  let '(_, parent, grandparent) := acc in
  let current := u32 (parent + grandparent) in
  (current, current, parent).

(** [for (i = 2; i < num + 1; i++)] with 32-bit [i] and [num + 1]. *)
Definition fibonacci (num : Z) : Z :=
  if (num =? 1) || (num =? 0) then num
  else (Nat.iter (Z.to_nat (u32 (num + 1) - 2)) fibonacci_step (0, 1, 0)).1.1.

Record fibonacci_hit_counter_t := mk_counter { hc_fib : Z; hc_count : Z; hc_threshold : Z }.

#[export] Instance counter_eq_dec : EqDecision fibonacci_hit_counter_t.
Proof. solve_decision. Defined.

Definition fibonacci_hit_counter_create : fibonacci_hit_counter_t := mk_counter 0 0 (fibonacci 0).

Definition fibonacci_hit_counter_from (fib count : Z) : fibonacci_hit_counter_t :=
  let fib := u32 fib in mk_counter fib (u32 count) (fibonacci fib).

Definition fibonacci_hit_counter_increment (c : fibonacci_hit_counter_t)
  : fibonacci_hit_counter_t * Z :=
  let count := u32 (hc_count c + 1) in
  if hc_threshold c <? count then
    let fib := u32 (hc_fib c + 1) in (mk_counter fib 0 (fibonacci fib), 1)
  else (mk_counter (hc_fib c) count (hc_threshold c), 0).

Definition fibonacci_hit_counter_decrement (c : fibonacci_hit_counter_t)
  : fibonacci_hit_counter_t * Z :=
  if hc_fib c =? 0 then
    if hc_count c =? 0 then (c, 0)
    else (mk_counter (hc_fib c) (u32 (hc_count c - 1)) (hc_threshold c), 0)
  else if hc_count c =? 0 then
    let fib := u32 (hc_fib c - 1) in (mk_counter fib (fibonacci fib) (fibonacci fib), 1)
  else (mk_counter (hc_fib c) (u32 (hc_count c - 1)) (hc_threshold c), 0).

Definition fibonacci_hit_counter_compare (c1 c2 : fibonacci_hit_counter_t) : Z :=
  if hc_fib c2 <? hc_fib c1 then 1
  else if hc_fib c1 <? hc_fib c2 then -1
  else if hc_count c2 <? hc_count c1 then 1
  else if hc_count c1 <? hc_count c2 then -1
  else 0.

Section Codec.
Context `{Cbor}.

Definition fibonacci_hit_counter_to_cbor (c : fibonacci_hit_counter_t) : option cbor_item :=
  cbor_definite_array 3
    [cbor_build_uint32 (hc_fib c); cbor_build_uint32 (hc_count c); cbor_build_uint32 (hc_threshold c)].

(** [None] is an array of fewer than three items, which the code does not check. *)
Definition cbor_to_fibonacci_hit_counter (cbor : cbor_item) : option fibonacci_hit_counter_t :=
  fib_item ← cbor_array_get cbor 0;
  count_item ← cbor_array_get cbor 1;
  threshold_item ← cbor_array_get cbor 2;
  Some (mk_counter (cbor_get_uint32 fib_item) (cbor_get_uint32 count_item)
          (cbor_get_uint32 threshold_item)).
End Codec.

(** ** Specification *)

Fixpoint fib (n : nat) : Z :=
  match n with
  | O => 0
  | S O => 1
  | S (S k as m) => fib m + fib k
  end.

(** The fields are 32-bit and the threshold belongs to the rank. *)
Record counter_wf (c : fibonacci_hit_counter_t) : Prop := {
  cw_fib : is_u32 (hc_fib c);
  cw_count : 0 <= hc_count c <= hc_threshold c;
  cw_threshold : hc_threshold c = fibonacci (hc_fib c)
}.

Lemma fib_SS n : fib (S (S n)) = fib (S n) + fib n.
Proof. done. Qed.

Lemma fibonacci_iter n :
  Nat.iter (S n) fibonacci_step (0, 1, 0) = (u32 (fib (S (S n))), u32 (fib (S (S n))), u32 (fib (S n))).
Proof.
  induction n as [|n IH]; [done|]. rewrite Nat.iter_succ, IH. unfold fibonacci_step.
  rewrite (fib_SS (S n)). unfold u32. by rewrite <- Zplus_mod.
Qed.

Lemma fibonacci_fib num :
  0 <= num < 2 ^ 32 - 1 -> fibonacci num = u32 (fib (Z.to_nat num)).
Proof.
  intros Hnum. unfold fibonacci.
  destruct (Z.eqb_spec num 1) as [->|H1]; [done|]. destruct (Z.eqb_spec num 0) as [->|H0]; [done|].
  simpl. rewrite u32_small by (unfold is_u32; lia).
  replace (Z.to_nat (num + 1 - 2)) with (S (Z.to_nat (num - 2))) by lia.
  rewrite fibonacci_iter. cbn [fst]. do 2 f_equal. lia.
Qed.

Lemma fibonacci_u32 num : is_u32 num -> is_u32 (fibonacci num).
Proof.
  intros Hnum. unfold fibonacci. destruct ((num =? 1) || (num =? 0)); [done|].
  destruct (Z.to_nat _) as [|n]; [done|]. rewrite fibonacci_iter. apply u32_range.
Qed.

Lemma counter_threshold_u32 c : counter_wf c -> is_u32 (hc_threshold c).
Proof. intros [H1 _ H3]. rewrite H3. by apply fibonacci_u32. Qed.

Lemma increment_wf c :
  counter_wf c -> hc_threshold c < U32_MAX -> hc_fib c < U32_MAX ->
  counter_wf (fibonacci_hit_counter_increment c).1.
Proof.
  intros Hwf Ht Hf. pose proof (counter_threshold_u32 c Hwf) as Htu. destruct Hwf as [H1 H2 H3].
  unfold U32_MAX, is_u32 in *. unfold fibonacci_hit_counter_increment.
  rewrite !u32_small by (unfold is_u32; lia).
  destruct (Z.ltb_spec (hc_threshold c) (hc_count c + 1)); split; simpl; unfold is_u32; try lia; auto.
  split; [done|]. apply fibonacci_u32. unfold is_u32. lia.
Qed.

(** One hit: the counter either counts it or moves to the next rank. *)
Lemma increment_cases c :
  counter_wf c -> hc_threshold c < U32_MAX -> hc_fib c < U32_MAX ->
  (hc_count c < hc_threshold c /\
   fibonacci_hit_counter_increment c = (mk_counter (hc_fib c) (hc_count c + 1) (hc_threshold c), 0)) \/
  (hc_count c = hc_threshold c /\
   fibonacci_hit_counter_increment c =
     (mk_counter (hc_fib c + 1) 0 (fibonacci (hc_fib c + 1)), 1)).
Proof.
  intros Hwf Ht Hf. pose proof (counter_threshold_u32 c Hwf) as Htu. destruct Hwf as [H1 H2 H3].
  unfold U32_MAX, is_u32 in *. unfold fibonacci_hit_counter_increment.
  rewrite !u32_small by (unfold is_u32; lia).
  destruct (Z.ltb_spec (hc_threshold c) (hc_count c + 1)); [right|left]; (split; [lia|done]).
Qed.

Lemma decrement_increment c :
  counter_wf c -> hc_threshold c < U32_MAX -> hc_fib c < U32_MAX ->
  let '(c', promoted) := fibonacci_hit_counter_increment c in
  fibonacci_hit_counter_decrement c' = (c, promoted).
Proof.
  intros Hwf Ht Hf. pose proof (increment_cases c Hwf Ht Hf) as Hc.
  destruct Hwf as [H1 H2 H3]. destruct c as [f k t]. simpl in *. unfold is_u32, U32_MAX in *.
  destruct Hc as [[Hlt ->]|[-> ->]]; unfold fibonacci_hit_counter_decrement; simpl.
  - destruct (Z.eqb_spec f 0) as [->|Hf0].
    { unfold fibonacci in H3. simpl in H3. lia. }
    destruct (Z.eqb_spec (k + 1) 0); [lia|]. rewrite Z.add_simpl_r.
    by rewrite u32_small by (unfold is_u32; lia).
  - destruct (Z.eqb_spec (f + 1) 0); [lia|]. rewrite Z.add_simpl_r.
    rewrite u32_small by (unfold is_u32; lia). by rewrite <- H3.
Qed.

(** Hits needed to reach rank [n] from a fresh counter. *)
Fixpoint hits_to_rank (n : nat) : nat :=
  match n with
  | O => O
  | S k => (hits_to_rank k + S (Z.to_nat (fib k)))%nat
  end.

Lemma fib_nonneg n : 0 <= fib n /\ 0 <= fib (S n).
Proof. induction n as [|n [H1 H2]]; [done|]. rewrite fib_SS. lia. Qed.

Lemma fib_mono n m : (n <= m)%nat -> fib n <= fib m.
Proof.
  induction 1 as [|m _ IH]; [done|]. destruct m as [|m]; [simpl in *; lia|].
  rewrite fib_SS. pose proof (fib_nonneg m). lia.
Qed.

Lemma fib_linear n : Nat.iter n (fun p => (p.2, p.2 + p.1)) (0, 1) = (fib n, fib (S n)).
Proof. induction n as [|n IH]; [done|]. rewrite Nat.iter_succ, IH, fib_SS. done. Qed.

Lemma fib_linear_fst n : (Nat.iter n (fun p => (p.2, p.2 + p.1)) (0, 1)).1 = fib n.
Proof. by rewrite fib_linear. Qed.

(** The largest rank whose threshold fits 32 bits. *)
Lemma fib_47 n : (n <= 47)%nat -> 0 <= fib n <= 2971215073.
Proof.
  intros H%fib_mono. rewrite <- (fib_linear_fst 47) in H. vm_compute (Nat.iter 47 _ _).1 in H.
  split; [apply fib_nonneg|exact H].
Qed.

Lemma fibonacci_of_rank n : (n <= 47)%nat -> fibonacci (Z.of_nat n) = fib n.
Proof.
  intros Hn. pose proof (fib_47 n Hn). rewrite fibonacci_fib by lia. rewrite Nat2Z.id.
  apply u32_small. unfold is_u32. lia.
Qed.

Lemma rank_counter_wf n k :
  (n <= 47)%nat -> 0 <= k <= fib n -> counter_wf (mk_counter (Z.of_nat n) k (fib n)).
Proof.
  intros Hn Hk. split; simpl; [unfold is_u32; lia|lia|]. by rewrite fibonacci_of_rank.
Qed.

Lemma count_hits n k :
  (n <= 47)%nat -> Z.of_nat k <= fib n ->
  Nat.iter k (fun c => (fibonacci_hit_counter_increment c).1) (mk_counter (Z.of_nat n) 0 (fib n)) =
  mk_counter (Z.of_nat n) (Z.of_nat k) (fib n).
Proof.
  intros Hn. induction k as [|k IH]; intros Hk; [done|]. rewrite Nat.iter_succ, IH by lia.
  pose proof (fib_47 n Hn).
  destruct (increment_cases (mk_counter (Z.of_nat n) (Z.of_nat k) (fib n))) as [[Hlt ->]|[Heq _]];
    [apply rank_counter_wf; lia|unfold U32_MAX; simpl; lia..| |simpl in Heq; lia].
  simpl. f_equal. lia.
Qed.

Lemma counter_cbor_roundtrip `{CborLaws} c :
  is_u32 (hc_fib c) -> is_u32 (hc_count c) -> is_u32 (hc_threshold c) ->
  exists i, fibonacci_hit_counter_to_cbor c = Some i /\ cbor_typeof i = CBOR_TYPE_ARRAY /\
    cbor_to_fibonacci_hit_counter i = Some c.
Proof.
  intros H1 H2 H3. eexists. split; [done|]. split; [apply typeof_array|].
  unfold cbor_to_fibonacci_hit_counter. cbor_simp. simpl. cbor_simp. by destruct c.
Qed.

(** [fibonacci n] is the [n]-th Fibonacci number modulo 2^32 for every
    argument but 2^32 - 1, where the loop bound [num + 1] wraps to 0. *)
Theorem fibonacci_correct (num : Z) :
  0 <= num < 2 ^ 32 - 1 -> fibonacci num = fib (Z.to_nat num) mod 2 ^ 32.
Proof. apply fibonacci_fib. Qed.

Lemma fibonacci_correct_witness : 0 <= 50 < 2 ^ 32 - 1 /\ fibonacci 50 = fib 50 mod 2 ^ 32.
Proof. split; [lia|]. apply (fibonacci_correct 50). lia. Defined.

(** A counter reaches rank [n] with [k] further hits counted after exactly
    (sum of [fib i + 1] for the ranks below) + [k] increments, as long as the
    thresholds fit 32 bits (ranks up to 47); a decrement undoes an increment,
    reporting the demotion exactly when there was a promotion. *)
Theorem hit_counter_ranks (n k : nat) :
  (n <= 47)%nat -> Z.of_nat k <= fib n ->
  let c := Nat.iter (hits_to_rank n + k) (fun c => (fibonacci_hit_counter_increment c).1)
             fibonacci_hit_counter_create in
  c = mk_counter (Z.of_nat n) (Z.of_nat k) (fib n) /\
  let '(c', promoted) := fibonacci_hit_counter_increment c in
  fibonacci_hit_counter_decrement c' = (c, promoted).
Proof.
  intros Hn Hk c.
  assert (c = mk_counter (Z.of_nat n) (Z.of_nat k) (fib n)) as Hc.
  { subst c. rewrite Nat.add_comm, Nat.iter_add.
    assert (Nat.iter (hits_to_rank n) (fun c => (fibonacci_hit_counter_increment c).1)
      fibonacci_hit_counter_create = mk_counter (Z.of_nat n) 0 (fib n)) as ->; [|by apply count_hits].
    clear Hk k. induction n as [|n IH]; [done|]. cbn [hits_to_rank].
    rewrite Nat.add_comm, Nat.iter_add, IH by lia. rewrite Nat.iter_succ.
    pose proof (fib_47 n ltac:(lia)). rewrite count_hits by lia.
    destruct (increment_cases (mk_counter (Z.of_nat n) (Z.of_nat (Z.to_nat (fib n))) (fib n)))
      as [[Hlt _]|[_ ->]]; [apply rank_counter_wf; lia|unfold U32_MAX; simpl; lia..|simpl in Hlt; lia|].
    simpl hc_fib. cbn [fst]. rewrite <- (fibonacci_of_rank (S n)) by done.
    replace (Z.of_nat n + 1) with (Z.of_nat (S n)) by lia. done. }
  split; [done|]. rewrite Hc. pose proof (fib_47 n Hn).
  apply decrement_increment; [apply rank_counter_wf; lia|unfold U32_MAX; simpl; lia..].
Qed.

Lemma hit_counter_ranks_witness :
  (6 <= 47)%nat /\ Z.of_nat 3 <= fib 6 /\
  hits_to_rank 6 = 18%nat /\
  let c := Nat.iter (hits_to_rank 6 + 3) (fun c => (fibonacci_hit_counter_increment c).1)
             fibonacci_hit_counter_create in
  c = mk_counter (Z.of_nat 6) (Z.of_nat 3) (fib 6) /\
  let '(c', promoted) := fibonacci_hit_counter_increment c in
  fibonacci_hit_counter_decrement c' = (c, promoted).
Proof.
  assert (6 <= 47)%nat as H1 by lia. assert (Z.of_nat 3 <= fib 6) as H2 by discriminate.
  split; [exact H1|]. split; [exact H2|]. split; [reflexivity|]. exact (hit_counter_ranks 6 3 H1 H2).
Defined.

(** [fibonacci_hit_counter_compare] is a total order on counters with the
    right threshold: it is antisymmetric and transitive, equates only equal
    counters, and every increment moves a counter up. *)
Theorem hit_counter_order (a b c : fibonacci_hit_counter_t) :
  counter_wf a -> counter_wf b ->
  fibonacci_hit_counter_compare b a = - fibonacci_hit_counter_compare a b /\
  (fibonacci_hit_counter_compare a b = 0 <-> a = b) /\
  (fibonacci_hit_counter_compare a b <= 0 -> fibonacci_hit_counter_compare b c <= 0 ->
   fibonacci_hit_counter_compare a c <= 0) /\
  (hc_threshold a < U32_MAX -> hc_fib a < U32_MAX ->
   fibonacci_hit_counter_compare (fibonacci_hit_counter_increment a).1 a = 1).
Proof.
  intros Ha Hb. split_and!.
  - unfold fibonacci_hit_counter_compare. bool_cases; lia.
  - destruct Ha as [_ _ Ta], Hb as [_ _ Tb]. destruct a, b. unfold fibonacci_hit_counter_compare.
    simpl in *. split; [|intros [= -> -> ->]; by rewrite !Z.ltb_irrefl].
    bool_cases; intros; try lia. assert (hc_fib0 = hc_fib1) as <- by lia. f_equal; lia.
  - unfold fibonacci_hit_counter_compare. bool_cases; lia.
  - intros Ht Hf. destruct (increment_cases a Ha Ht Hf) as [[_ ->]|[_ ->]];
      unfold fibonacci_hit_counter_compare; simpl; bool_cases; lia.
Qed.

Lemma hit_counter_order_witness :
  counter_wf (mk_counter 6 3 8) /\ counter_wf (mk_counter 7 0 13) /\
  fibonacci_hit_counter_compare (mk_counter 7 0 13) (mk_counter 6 3 8) =
    - fibonacci_hit_counter_compare (mk_counter 6 3 8) (mk_counter 7 0 13).
Proof.
  assert (counter_wf (mk_counter 6 3 8)) as H1 by (apply (rank_counter_wf 6 3); simpl; lia).
  assert (counter_wf (mk_counter 7 0 13)) as H2 by (apply (rank_counter_wf 7 0); simpl; lia).
  split; [done|]. split; [done|]. exact (proj1 (hit_counter_order _ _ fibonacci_hit_counter_create H1 H2)).
Defined.

(** A counter survives its CBOR encoding. *)
Theorem hit_counter_cbor_roundtrip `{CborLaws} (c : fibonacci_hit_counter_t) :
  is_u32 (hc_fib c) -> is_u32 (hc_count c) -> is_u32 (hc_threshold c) ->
  (i ← fibonacci_hit_counter_to_cbor c; cbor_to_fibonacci_hit_counter i) = Some c.
Proof.
  intros H1 H2 H3. destruct (counter_cbor_roundtrip c H1 H2 H3) as (i & -> & _ & Hi). exact Hi.
Qed.

Lemma hit_counter_cbor_roundtrip_witness :
  (i ← fibonacci_hit_counter_to_cbor (mk_counter 6 3 8); cbor_to_fibonacci_hit_counter i) =
    Some (mk_counter 6 3 8).
Proof. apply (hit_counter_cbor_roundtrip (mk_counter 6 3 8)); simpl; unfold is_u32; lia. Defined.
