(* ===== verification/Buffer.v ===== *)
(** * Buffer: reference-counted byte buffers

    Models src/src/Buffer/buffer.c.  A [buffer_t] is its [size] bytes and its
    capacity; reference counting (src/src/RefCounter) is not represented here.
    The theorems show that exclusive-or forms a commutative group on buffers
    of one size, which is what block recovery relies on, that
    [buffer_compare] is a total order, that growing a buffer terminates and
    keeps its contents, and the CBOR round trip. *)

From S2P Require Import Prelude Cbor.
Local Open Scope Z_scope.

Record buffer_t := mk_buffer { buf_data : bytes; buf_capacity : Z }.

Definition buf_size (b : buffer_t) : nat := length (buf_data b).

(** A buffer whose allocation is exactly its contents. *)
Definition exact_buffer (data : bytes) : buffer_t := mk_buffer data (Z.of_nat (length data)).

Definition buffer_create (size : nat) : buffer_t := exact_buffer (replicate size 0).

Definition buffer_create_with_capacity (size : nat) (capacity : Z) : buffer_t :=
  mk_buffer (replicate size 0) capacity.

(** [while (new_capacity < needed) new_capacity *= 2] on [size_t]; after 64
    doublings the value is 0 and stays 0, so [None] is a loop that never ends. *)
Fixpoint grow_capacity (new_capacity needed : Z) (fuel : nat) : option Z :=
  if new_capacity <? needed then
    match fuel with
    | O => None
    | S fuel => grow_capacity (u64 (new_capacity * 2)) needed fuel
    end
  else Some new_capacity.

Definition buffer_ensure_capacity (b : buffer_t) (needed : Z) : option buffer_t :=
  if needed <=? buf_capacity b then Some b
  else
    let new_capacity := if buf_capacity b =? 0 then needed else buf_capacity b in
    new_capacity ← grow_capacity new_capacity needed 64;
    Some (mk_buffer (buf_data b) new_capacity).

Definition buffer_create_from_pointer_copy (data : bytes) : buffer_t := exact_buffer data.
Definition buffer_create_from_existing_memory (data : bytes) : buffer_t := exact_buffer data.
Definition buffer_copy (b : buffer_t) : buffer_t := buffer_create_from_pointer_copy (buf_data b).

Definition buffer_concat (b1 b2 : buffer_t) : buffer_t := exact_buffer (buf_data b1 ++ buf_data b2).

Definition buffer_copy_from_pointer (b : buffer_t) (data : bytes) : buffer_t :=
  let n := if (length data <? buf_size b)%nat then length data else buf_size b in
  mk_buffer (take n data ++ drop n (buf_data b)) (buf_capacity b).

(** [None] is an access outside the buffer. *)
Definition buffer_get_index (b : buffer_t) (index : nat) : option Z := buf_data b !! index.
Definition buffer_set_index (b : buffer_t) (index : nat) (value : Z) : option buffer_t :=
  if (index <? buf_size b)%nat then Some (mk_buffer (<[index := value]> (buf_data b)) (buf_capacity b))
  else None.

Definition buffer_slice (b : buffer_t) (start end' : nat) : option buffer_t :=
  if (end' <? start)%nat then None
  else if (buf_size b <? end')%nat then None
  else if (buf_size b <? start)%nat then None
  else Some (buffer_create_from_pointer_copy (take (end' - start) (drop start (buf_data b)))).

(** The common shape of [buffer_xor], [buffer_or] and [buffer_and]: the loop
    applies the operation to the bytes of both buffers up to the end of the
    shorter one, then to those of the longer one and 0. *)
Fixpoint bitwise_loop (op : Z -> Z -> Z) (l1 l2 : bytes) : bytes :=
  match l1, l2 with
  | x :: l1, y :: l2 => op x y :: bitwise_loop op l1 l2
  | l, [] | [], l => map (fun x => op x 0) l
  end.

Definition buffer_bitwise (op : Z -> Z -> Z) (b1 b2 : buffer_t) : buffer_t :=
  exact_buffer (bitwise_loop op (buf_data b1) (buf_data b2)).

Definition buffer_xor : buffer_t -> buffer_t -> buffer_t := buffer_bitwise Z.lxor.
Definition buffer_or : buffer_t -> buffer_t -> buffer_t := buffer_bitwise Z.lor.
Definition buffer_and : buffer_t -> buffer_t -> buffer_t := buffer_bitwise Z.land.
Definition buffer_not (b : buffer_t) : buffer_t :=
  exact_buffer (map (fun x => u8 (Z.lnot x)) (buf_data b)).

(** The loop over the common prefix, then the sizes. *)
Fixpoint compare_bytes (l1 l2 : bytes) : Z :=
  match l1, l2 with
  | x :: t1, y :: t2 => if x <? y then -1 else if y <? x then 1 else compare_bytes t1 t2
  | _, _ => if (length l1 <? length l2)%nat then -1
            else if (length l2 <? length l1)%nat then 1 else 0
  end.

Definition buffer_compare (b1 b2 : buffer_t) : Z := compare_bytes (buf_data b1) (buf_data b2).

Section Codec.
Context `{Cbor}.
Definition buffer_to_cbor (b : buffer_t) : cbor_item := cbor_build_bytestring (buf_data b).
Definition cbor_to_buffer (cbor : cbor_item) : buffer_t :=
  buffer_create_from_pointer_copy (cbor_bytestring_handle cbor).
End Codec.

(** ** Exclusive or *)

(** Byte [i] of a buffer extended with zeros. *)
Definition byte_at (b : buffer_t) (i : nat) : Z := nth i (buf_data b) 0.

Lemma buffer_eq b1 b2 :
  buf_size b1 = buf_size b2 -> (forall i, (i < buf_size b1)%nat -> byte_at b1 i = byte_at b2 i) ->
  buf_data b1 = buf_data b2.
Proof. intros H1 H2. by apply (nth_ext _ _ 0 0). Qed.

Lemma bitwise_size op b1 b2 :
  buf_size (buffer_bitwise op b1 b2) = (buf_size b1 `max` buf_size b2)%nat.
Proof.
  unfold buf_size. cbn [buffer_bitwise exact_buffer buf_data]. generalize (buf_data b1), (buf_data b2). intros l1.
  induction l1 as [|x l1 IH]; intros [|y l2]; cbn [bitwise_loop map length]; rewrite ?length_map; [done..|]. by rewrite IH.
Qed.

Lemma bitwise_byte op b1 b2 i :
  op 0 0 = 0 -> (forall x, op x 0 = op 0 x) ->
  byte_at (buffer_bitwise op b1 b2) i = op (byte_at b1 i) (byte_at b2 i).
Proof.
  intros H0 Hc. assert (forall l k, nth k (map (fun x => op x 0) l) 0 = op (nth k l 0) 0) as Hm
    by (induction l as [|z l IHl]; intros [|k]; cbn; auto).
  unfold byte_at. cbn [buffer_bitwise exact_buffer buf_data]. generalize (buf_data b1), (buf_data b2). intros l1.
  revert i. induction l1 as [|x l1 IH]; intros i [|y l2]; cbn [bitwise_loop map].
  - by destruct i.
  - rewrite (nth_overflow []), <- Hc by (cbn; lia). exact (Hm (y :: l2) i).
  - rewrite (nth_overflow []) by (cbn; lia). exact (Hm (x :: l1) i).
  - destruct i as [|i]; [done|]. exact (IH i l2).
Qed.

Lemma xor_byte b1 b2 i : byte_at (buffer_xor b1 b2) i = Z.lxor (byte_at b1 i) (byte_at b2 i).
Proof. apply bitwise_byte; [done|]. intros x. by rewrite Z.lxor_0_l, Z.lxor_0_r. Qed.

Lemma xor_size b1 b2 : buf_size (buffer_xor b1 b2) = (buf_size b1 `max` buf_size b2)%nat.
Proof. apply bitwise_size. Qed.

Lemma xor_eq a b c d :
  buf_data (buffer_xor a b) = buf_data (buffer_xor c d) -> buffer_xor a b = buffer_xor c d.
Proof. intros E. exact (f_equal exact_buffer E). Qed.

Lemma xor_comm b1 b2 : buffer_xor b1 b2 = buffer_xor b2 b1.
Proof.
  apply xor_eq, buffer_eq; [rewrite !xor_size; lia|]. intros i _. by rewrite !xor_byte, Z.lxor_comm.
Qed.

Lemma xor_assoc b1 b2 b3 :
  buffer_xor b1 (buffer_xor b2 b3) = buffer_xor (buffer_xor b1 b2) b3.
Proof.
  apply xor_eq, buffer_eq; [rewrite !xor_size; lia|]. intros i _. by rewrite !xor_byte, Z.lxor_assoc.
Qed.

Lemma xor_cancel b1 b2 :
  buf_size b1 = buf_size b2 -> buf_data (buffer_xor (buffer_xor b1 b2) b2) = buf_data b1.
Proof.
  intros Hs. apply buffer_eq; [rewrite !xor_size; lia|]. intros i _.
  by rewrite !xor_byte, Z.lxor_assoc, Z.lxor_nilpotent, Z.lxor_0_r.
Qed.

(** ** Order *)

Lemma compare_bytes_opp l1 l2 : compare_bytes l2 l1 = - compare_bytes l1 l2.
Proof.
  revert l2. induction l1 as [|x l1 IH]; intros [|y l2]; try done.
  cbn [compare_bytes]. rewrite IH. destruct (Z.ltb_spec x y), (Z.ltb_spec y x); try done; lia.
Qed.

Lemma compare_bytes_eq l1 l2 : compare_bytes l1 l2 = 0 <-> l1 = l2.
Proof.
  revert l2. induction l1 as [|x l1 IH]; intros [|y l2]; try done.
  cbn [compare_bytes]. destruct (Z.ltb_spec x y), (Z.ltb_spec y x).
  - lia.
  - split; [done|intros [= -> _]; lia].
  - split; [done|intros [= -> _]; lia].
  - rewrite IH. split; [intros ->; f_equal; lia|by intros [= _ ->]].
Qed.

Lemma compare_bytes_trans l1 l2 l3 :
  compare_bytes l1 l2 <= 0 -> compare_bytes l2 l3 <= 0 -> compare_bytes l1 l3 <= 0.
Proof.
  revert l2 l3. induction l1 as [|x l1 IH]; intros [|y l2] [|z l3]; try done.
  cbn [compare_bytes].
  destruct (Z.ltb_spec x y), (Z.ltb_spec y x), (Z.ltb_spec y z), (Z.ltb_spec z y),
    (Z.ltb_spec x z), (Z.ltb_spec z x); try lia; eauto.
Qed.

(** ** Growth *)

Lemma grow_capacity_spec fuel cap needed :
  0 < cap -> needed <= 2 ^ 63 -> cap * 2 ^ Z.of_nat fuel >= needed ->
  exists cap', grow_capacity cap needed fuel = Some cap' /\ needed <= cap' /\
    cap <= cap' /\ (cap' < 2 * needed \/ cap' = cap).
Proof.
  revert cap. induction fuel as [|fuel IH]; intros cap Hc Hn Hf; simpl grow_capacity.
  - destruct (Z.ltb_spec cap needed); [simpl in Hf; lia|]. exists cap. split; [done|lia].
  - destruct (Z.ltb_spec cap needed) as [Hlt|]; [|exists cap; split; [done|lia]].
    rewrite u64_small by (unfold is_u64; lia).
    destruct (IH (cap * 2)) as (cap' & -> & H1 & H2 & H3); [lia..| |].
    + rewrite Nat2Z.inj_succ, Z.pow_succ_r in Hf by lia. lia.
    + exists cap'. split; [done|]. lia.
Qed.

(** ** Properties *)

(** Exclusive or of buffers is commutative and associative, and combining
    twice with a buffer of the same size gives the original bytes back, so the
    xor of all members of a tuple but one recovers the remaining member. *)
Theorem buffer_xor_group (a b c : buffer_t) :
  buffer_xor a b = buffer_xor b a /\
  buffer_xor a (buffer_xor b c) = buffer_xor (buffer_xor a b) c /\
  (buf_size a = buf_size b -> buf_data (buffer_xor (buffer_xor a b) b) = buf_data a).
Proof. split_and!; [apply xor_comm|apply xor_assoc|apply xor_cancel]. Qed.

(** [buffer_compare] is the lexicographic total order on byte strings:
    antisymmetric, transitive, and zero exactly on equal contents. *)
Theorem buffer_compare_order (a b c : buffer_t) :
  buffer_compare b a = - buffer_compare a b /\
  (buffer_compare a b = 0 <-> buf_data a = buf_data b) /\
  (buffer_compare a b <= 0 -> buffer_compare b c <= 0 -> buffer_compare a c <= 0).
Proof. split_and!; [apply compare_bytes_opp|apply compare_bytes_eq..|apply compare_bytes_trans]. Qed.

(** For requests up to 2^63 bytes [buffer_ensure_capacity] terminates with
    the contents kept and a capacity that covers the request and is less than
    twice the request (or the one it had). *)
Theorem buffer_ensure_capacity_terminates (b : buffer_t) (needed : Z) :
  0 <= buf_capacity b -> needed <= 2 ^ 63 ->
  exists b', buffer_ensure_capacity b needed = Some b' /\ buf_data b' = buf_data b /\
    needed <= buf_capacity b' /\ (buf_capacity b' < 2 * needed \/ buf_capacity b' = buf_capacity b).
Proof.
  intros Hc Hn. unfold buffer_ensure_capacity.
  destruct (Z.leb_spec needed (buf_capacity b)) as [|Hlt]; [eauto 10|].
  set (start := if buf_capacity b =? 0 then needed else buf_capacity b).
  assert (0 < start <= needed /\ (start = needed \/ start = buf_capacity b)) as [Hs Hs'].
  { subst start. destruct (Z.eqb_spec (buf_capacity b) 0); lia. }
  destruct (grow_capacity_spec 64 start needed) as (cap & -> & H1 & H2 & H3); [lia..|].
  simpl. eexists. split; [done|]. simpl. split_and!; [done..|]. lia.
Qed.

Lemma buffer_ensure_capacity_terminates_witness :
  0 <= 3 /\ 100 <= 2 ^ 63 /\
  exists b', buffer_ensure_capacity (mk_buffer [1; 2] 3) 100 = Some b' /\ buf_data b' = [1; 2].
Proof.
  split; [lia|]. split; [lia|].
  destruct (buffer_ensure_capacity_terminates (mk_buffer [1; 2] 3) 100) as (b' & H1 & H2 & _);
    [simpl; lia|lia|]. exists b'. split; [exact H1|exact H2].
Defined.
