(* ===== verification/Block.v ===== *)
(** * Block: fixed-size blocks addressed by their BLAKE3 hash

    Models src/src/BlockCache/block.c.  BLAKE3 (deps/BLAKE3) and the random
    bytes of [frand] (OpenSSL's RAND_bytes) are parameters: [blake3] is any
    function with 32-byte results, and the operations that pad or create with
    random data take the bytes [frand] returned as an argument.  The theorems
    show that blocks have a legal size and their own hash, that
    [block_verify_hash] accepts exactly the hash of the data, that xor with
    the same block twice recovers a block, and the CBOR round trip. *)

From S2P Require Import Prelude Cbor Buffer.
Local Open Scope Z_scope.

Definition BLAKE3_OUT_LEN : nat := 32.

(** The hash of deps/BLAKE3: a function to strings of 32 bytes. *)
Class Blake3 := {
  blake3 : bytes -> bytes;
  blake3_length : forall data, length (blake3 data) = BLAKE3_OUT_LEN;
  blake3_bytes : forall data, is_bytes (blake3 data)
}.

Inductive block_size_e := mega | standard | mini | nano.

#[export] Instance block_size_eq_dec : EqDecision block_size_e.
Proof. solve_decision. Defined.

(** The enumerator's value. *)
Definition block_size (t : block_size_e) : Z :=
  match t with mega => 1000000 | standard => 128000 | mini => 64000 | nano => 136 end.

Definition legal_size (size : Z) : bool :=
  (size =? block_size standard) || (size =? block_size mega) ||
  (size =? block_size nano) || (size =? block_size mini).

Record block_t := mk_block { blk_data : buffer_t; blk_hash : buffer_t }.

Section Block.
Context `{Blake3}.

Definition hash_data (data : buffer_t) : buffer_t :=
  buffer_create_from_existing_memory (blake3 (buf_data data)).

(** [diff |= computed[i] ^ expected[i]] over all bytes. *)
Definition constant_time_diff (l1 l2 : bytes) : Z :=
  fold_left (fun diff p => Z.lor diff (u8 (Z.lxor p.1 p.2))) (zip l1 l2) 0.

Definition block_verify_hash (data expected_hash : option buffer_t) : bool :=
  match data, expected_hash with
  | Some data, Some expected =>
      if negb (buf_size expected =? BLAKE3_OUT_LEN)%nat then false
      else
        let computed := hash_data data in
        (buf_size computed =? buf_size expected)%nat &&
        (constant_time_diff (buf_data computed) (buf_data expected) =? 0)
  | _, _ => false
  end.

(** [random] is what [frand(size - data->size)] returned. *)
Definition block_create_by_type (data : buffer_t) (type : block_size_e) (random : bytes) : option block_t :=
  let size := block_size type in
  if size <? Z.of_nat (buf_size data) then None
  else
    let final :=
      if Z.of_nat (buf_size data) <? size then
        buffer_concat data (buffer_create_from_existing_memory random)
      else data in
    Some (mk_block final (hash_data final)).

Definition block_create (data : buffer_t) (random : bytes) : option block_t :=
  block_create_by_type data standard random.

Definition block_create_random_block_by_type (random : bytes) : block_t :=
  let randBuf := buffer_create_from_existing_memory random in mk_block randBuf (hash_data randBuf).

Definition block_create_existing_data_by_type (data : buffer_t) : option block_t :=
  if negb (legal_size (Z.of_nat (buf_size data))) then None
  else Some (mk_block data (hash_data data)).

Definition block_create_existing_data_hash_by_type (data hash : buffer_t) : option block_t :=
  if negb (legal_size (Z.of_nat (buf_size data))) then None
  else if negb (buf_size hash =? BLAKE3_OUT_LEN)%nat then None
  else Some (mk_block data hash).

Definition block_xor (block1 block2 : block_t) : option block_t :=
  block_create_existing_data_by_type (buffer_xor (blk_data block1) (blk_data block2)).

Context `{Cbor}.

Definition block_to_cbor (block : block_t) : option cbor_item :=
  cbor_definite_array 2 [buffer_to_cbor (blk_hash block); buffer_to_cbor (blk_data block)].

(** The outer [None] is an array of fewer than two items, which the code does
    not check; the inner one a refused block. *)
Definition cbor_to_block (cbor : cbor_item) : option (option block_t) :=
  cbor_hash ← cbor_array_get cbor 0;
  cbor_data ← cbor_array_get cbor 1;
  Some (block_create_existing_data_hash_by_type (cbor_to_buffer cbor_data) (cbor_to_buffer cbor_hash)).
End Block.

(** ** Invariant: a legal size and the hash of the data *)

Record block_wf `{Blake3} (b : block_t) : Prop := {
  bw_size : legal_size (Z.of_nat (buf_size (blk_data b))) = true;
  bw_hash : blk_hash b = hash_data (blk_data b)
}.

Section Facts.
Context `{Blake3}.

Lemma legal_block_size t : legal_size (block_size t) = true.
Proof. by destruct t. Qed.

Lemma existing_data_wf data b : block_create_existing_data_by_type data = Some b ->
  block_wf b /\ blk_data b = data.
Proof.
  unfold block_create_existing_data_by_type. destruct (legal_size _) eqn:E; [|done].
  simpl. intros [= <-]. by split.
Qed.

Lemma block_xor_same b1 b2 :
  legal_size (Z.of_nat (buf_size (blk_data b1))) = true ->
  buf_size (blk_data b1) = buf_size (blk_data b2) ->
  exists x, block_xor b1 b2 = Some x /\ block_wf x /\
    blk_data x = buffer_xor (blk_data b1) (blk_data b2).
Proof.
  intros Hl Hs. unfold block_xor, block_create_existing_data_by_type.
  assert (buf_size (buffer_xor (blk_data b1) (blk_data b2)) = buf_size (blk_data b1)) as Hd
    by (rewrite xor_size; lia).
  rewrite Hd, Hl. cbn [negb]. eexists. split; [done|]. split; [|done]. split; cbn [blk_data blk_hash];
    [by rewrite Hd|done].
Qed.

Lemma constant_time_diff_acc l1 l2 acc :
  length l1 = length l2 -> is_bytes l1 -> is_bytes l2 -> 0 <= acc ->
  fold_left (fun diff p => Z.lor diff (u8 (Z.lxor p.1 p.2))) (zip l1 l2) acc = 0 <->
  acc = 0 /\ l1 = l2.
Proof.
  revert l2 acc. induction l1 as [|x l1 IH]; intros [|y l2] acc Hlen H1 H2 Hacc; try done;
    [by simpl; intuition|]. apply Forall_cons in H1 as [Hx H1]. apply Forall_cons in H2 as [Hy H2].
  simpl in Hlen. simpl. pose proof (u8_range (Z.lxor x y)) as Hu.
  rewrite IH by (auto; apply Z.lor_nonneg; unfold is_u8 in Hu; lia).
  rewrite Z.lor_eq_0_iff. rewrite u8_small.
  - rewrite Z.lxor_eq_0_iff. split; [intros ((-> & ->) & ->); done|intros [-> [= -> ->]]; done].
  - unfold is_u8 in *. split; [apply Z.lxor_nonneg; lia|].
    apply bound_of_bits; [lia|apply Z.lxor_nonneg; lia|]. intros i Hi.
    rewrite Z.lxor_spec, !(testbit_above 8) by lia. done.
Qed.

Lemma constant_time_diff_eq l1 l2 :
  length l1 = length l2 -> is_bytes l1 -> is_bytes l2 -> constant_time_diff l1 l2 = 0 <-> l1 = l2.
Proof. intros. unfold constant_time_diff. rewrite constant_time_diff_acc by (auto; lia). intuition. Qed.

Lemma verify_hash_iff (data expected : buffer_t) :
  is_bytes (buf_data expected) ->
  block_verify_hash (Some data) (Some expected) = true <-> buf_data expected = blake3 (buf_data data).
Proof.
  intros Hb. unfold block_verify_hash. pose proof (blake3_length (buf_data data)) as Hl.
  destruct (Nat.eqb_spec (buf_size expected) BLAKE3_OUT_LEN) as [Hs|Hs]; cbn [negb].
  - unfold buf_size in *. simpl. rewrite Hl, Hs, Nat.eqb_refl. cbn [andb].
    rewrite Z.eqb_eq, constant_time_diff_eq by (congruence || apply blake3_bytes || done). done.
  - split; [done|]. intros E. unfold buf_size in Hs. by rewrite E, Hl in Hs.
Qed.
End Facts.

(** ** Properties *)

(** [block_verify_hash] accepts exactly the BLAKE3 hash of the data. *)
Theorem block_verify_hash_correct `{Blake3} (data expected : buffer_t) :
  is_bytes (buf_data expected) ->
  block_verify_hash (Some data) (Some expected) = true <-> buf_data expected = blake3 (buf_data data).
Proof. apply verify_hash_iff. Qed.

(** A hash for examples: 32 copies of the data's length modulo 256. *)
Definition toy_blake3 : Blake3 := {|
  blake3 data := replicate 32 (Z.of_nat (length data) mod 256);
  blake3_length _ := eq_refl;
  blake3_bytes data := Forall_replicate is_u8 32 _ (Z.mod_pos_bound _ 256 eq_refl)
|}.

(** Another, a polynomial in the bytes. *)
Definition poly_blake3 : Blake3 := {|
  blake3 data := le_bytes 32 (fold_left (fun h b => (h * 257 + b + 1) mod 2 ^ 256) data 0);
  blake3_length _ := length_le_bytes 32 _;
  blake3_bytes _ := le_bytes_range 32 _
|}.

(** And one that is quick to evaluate on large blocks: two sums. *)
Definition two_sums (data : bytes) : Z :=
  let '(s1, s2) := fold_left (fun s b => (s.1 + b + 1, s.2 + s.1)) data (0, 0) in s2 + Z.shiftl s1 64.
Definition quick_blake3 : Blake3 := {|
  blake3 data := le_bytes 32 (two_sums data);
  blake3_length _ := length_le_bytes 32 _;
  blake3_bytes _ := le_bytes_range 32 _
|}.

Lemma block_verify_hash_correct_witness :
  is_bytes (replicate 32 3) /\
  (block_verify_hash (H := toy_blake3) (Some (exact_buffer [7; 8; 9])) (Some (exact_buffer (replicate 32 3)))
     = true <-> replicate 32 3 = blake3 (Blake3 := toy_blake3) [7; 8; 9]).
Proof.
  assert (is_bytes (replicate 32 3)) as Hb by (apply Forall_replicate; unfold is_u8; lia).
  split; [exact Hb|].
  exact (block_verify_hash_correct (H := toy_blake3) (exact_buffer [7; 8; 9]) (exact_buffer (replicate 32 3)) Hb).
Defined.

(** [block_create_by_type] refuses exactly the data that does not fit;
    otherwise the block is well-formed, has exactly the requested size and
    starts with the data. *)
Theorem block_create_by_type_spec `{Blake3} (data : buffer_t) (type : block_size_e) (random : bytes) :
  Z.of_nat (length random) = block_size type - Z.of_nat (buf_size data) \/
    block_size type < Z.of_nat (buf_size data) ->
  match block_create_by_type data type random with
  | None => block_size type < Z.of_nat (buf_size data)
  | Some b => block_wf b /\ Z.of_nat (buf_size (blk_data b)) = block_size type /\
              take (buf_size data) (buf_data (blk_data b)) = buf_data data
  end.
Proof.
  intros Hr. unfold block_create_by_type.
  destruct (Z.ltb_spec (block_size type) (Z.of_nat (buf_size data))) as [|Hle]; [done|].
  destruct Hr as [Hr|]; [|lia]. unfold buf_size in *.
  destruct (Z.ltb_spec (Z.of_nat (length (buf_data data))) (block_size type)).
  - assert (Z.of_nat (length (buf_data data ++ random)) = block_size type) as Hs
      by (rewrite length_app; lia).
    split_and!; [|exact Hs|simpl; by rewrite take_app_length].
    split; [|done]. unfold buf_size. simpl. rewrite Hs. apply legal_block_size.
  - split_and!; simpl; [|lia|by rewrite take_ge].
    split; [|done]. unfold buf_size. simpl.
    replace (Z.of_nat (length (buf_data data))) with (block_size type) by lia. apply legal_block_size.
Qed.

Lemma block_create_by_type_spec_witness :
  match block_create_by_type (H := toy_blake3) (exact_buffer [1; 2]) nano (replicate 134 9) with
  | None => False
  | Some b => Z.of_nat (buf_size (blk_data b)) = 136 /\ take 2 (buf_data (blk_data b)) = [1; 2]
  end.
Proof.
  pose proof (block_create_by_type_spec (H := toy_blake3) (exact_buffer [1; 2]) nano (replicate 134 9)
    (or_introl eq_refl)) as (_ & H2 & H3).
  split; [exact H2|exact H3].
Defined.

(** Xor is how blocks are stored and recovered: for two blocks of one size
    [block_xor] succeeds with a well-formed block, and xor with the second
    again yields the first block's data. *)
Theorem block_xor_recovers `{Blake3} (b1 b2 : block_t) :
  block_wf b1 -> buf_size (blk_data b1) = buf_size (blk_data b2) ->
  exists x y, block_xor b1 b2 = Some x /\ block_wf x /\
    buf_size (blk_data x) = buf_size (blk_data b1) /\
    block_xor x b2 = Some y /\ buf_data (blk_data y) = buf_data (blk_data b1) /\
    buf_data (blk_hash y) = buf_data (blk_hash b1).
Proof.
  intros Hw Hs. pose proof (bw_size b1 Hw) as Hlegal.
  destruct (block_xor_same b1 b2) as (x & Hx & Hwx & Hdx); [done|done|].
  assert (buf_size (blk_data x) = buf_size (blk_data b1)) as Hsx by (rewrite Hdx, xor_size; lia).
  destruct (block_xor_same x b2) as (y & Hy & Hwy & Hdy); [by rewrite Hsx|congruence|].
  assert (buf_data (blk_data y) = buf_data (blk_data b1)) as Hdata
    by (rewrite Hdy, Hdx; by apply xor_cancel).
  exists x, y. split_and!; try done.
  rewrite (bw_hash b1 Hw), (bw_hash y Hwy). unfold hash_data. simpl. by rewrite Hdata.
Qed.

Lemma block_xor_recovers_witness :
  let b1 := block_create_random_block_by_type (H := toy_blake3) (replicate 136 5) in
  let b2 := block_create_random_block_by_type (H := toy_blake3) (replicate 136 9) in
  block_wf (H := toy_blake3) b1 /\
  exists x y, block_xor (H := toy_blake3) b1 b2 = Some x /\ block_xor (H := toy_blake3) x b2 = Some y /\
    buf_data (blk_data y) = replicate 136 5.
Proof.
  intros b1 b2. assert (block_wf (H := toy_blake3) b1) as Hw by (split; reflexivity).
  split; [exact Hw|].
  destruct (block_xor_recovers (H := toy_blake3) b1 b2 Hw eq_refl) as (x & y & H1 & _ & _ & H2 & H3 & _).
  exists x, y. split; [exact H1|]. split; [exact H2|exact H3].
Defined.

(** A block of legal size with a 32-byte hash survives its CBOR encoding,
    up to the capacities of its buffers. *)
Theorem block_cbor_roundtrip `{Blake3} `{CborLaws} (b : block_t) :
  legal_size (Z.of_nat (buf_size (blk_data b))) = true -> buf_size (blk_hash b) = BLAKE3_OUT_LEN ->
  exists b', (i ← block_to_cbor b; cbor_to_block i) = Some (Some b') /\
    buf_data (blk_data b') = buf_data (blk_data b) /\ buf_data (blk_hash b') = buf_data (blk_hash b).
Proof.
  intros Hs Hh. exists (mk_block (exact_buffer (buf_data (blk_data b))) (exact_buffer (buf_data (blk_hash b)))).
  split; [|done]. unfold block_to_cbor, cbor_definite_array. simpl. unfold cbor_to_block.
  cbor_simp. simpl. unfold cbor_to_buffer, buffer_to_cbor. cbor_simp.
  unfold block_create_existing_data_hash_by_type, buf_size in *. simpl.
  by rewrite Hs, Hh, Nat.eqb_refl.
Qed.

Lemma block_cbor_roundtrip_witness :
  let b := block_create_random_block_by_type (H := toy_blake3) (replicate 136 5) in
  exists b', (i ← block_to_cbor b; cbor_to_block i) = Some (Some b') /\
    buf_data (blk_data b') = replicate 136 5.
Proof.
  intros b. destruct (block_cbor_roundtrip (H := toy_blake3) b eq_refl eq_refl) as (b' & H1 & H2 & _).
  exists b'. split; [exact H1|exact H2].
Defined.
