(* ===== verification/Bitset.v ===== *)
(** * Bitset: growable bit sets

    Models src/src/Bloom/bitset.c.  A set is its bytes ([set->size] is their
    number); bits beyond them read as 0 and setting one grows the array.  The
    theorems give every operation its meaning on the (infinite) bit string. *)

From S2P Require Import Prelude.
Local Open Scope Z_scope.

Record bitset_t := mk_bitset { bits_data : bytes }.

Definition bitset_size (set : bitset_t) : nat := length (bits_data set).
Definition bitset_bit_count (set : bitset_t) : nat := (bitset_size set * 8)%nat.

Definition bitset_create (byte_size : nat) : bitset_t :=
  let byte_size := if (byte_size =? 0)%nat then 1%nat else byte_size in
  mk_bitset (replicate byte_size 0).

Definition bitset_ensure_capacity (set : bitset_t) (bit_index : nat) : bitset_t :=
  let byte_index := (bit_index / 8 + 1)%nat in
  if (byte_index <=? bitset_size set)%nat then set
  else
    let new_size := (byte_index * 2)%nat in
    mk_bitset (bits_data set ++ replicate (new_size - bitset_size set) 0).

Definition bitset_get (set : bitset_t) (bit_index : nat) : bool :=
  let byte_index := (bit_index / 8)%nat in
  if (bitset_size set <=? byte_index)%nat then false
  else negb (Z.land (Z.shiftr (nth byte_index (bits_data set) 0) (Z.of_nat (bit_index mod 8))) 1 =? 0).

(** The set afterwards and the old value of the bit. *)
Definition bitset_set (set : bitset_t) (bit_index : nat) (value : bool) : bitset_t * bool :=
  let set := bitset_ensure_capacity set bit_index in
  let byte_index := (bit_index / 8)%nat in
  let mask := Z.shiftl 1 (Z.of_nat (bit_index mod 8)) in
  let byte := nth byte_index (bits_data set) 0 in
  let old := negb (Z.land (Z.shiftr byte (Z.of_nat (bit_index mod 8))) 1 =? 0) in
  let byte' := if value then u8 (Z.lor byte mask) else u8 (Z.land byte (Z.lnot mask)) in
  (mk_bitset (<[byte_index := byte']> (bits_data set)), old).

(** [memcmp], as a sign. *)
Fixpoint memcmp (l1 l2 : bytes) : Z :=
  match l1, l2 with
  | x :: t1, y :: t2 => if x <? y then -1 else if y <? x then 1 else memcmp t1 t2
  | _, _ => 0
  end.

Definition bitset_compare (left right : bitset_t) : Z :=
  let min_size := if (bitset_size left <? bitset_size right)%nat then bitset_size left
                  else bitset_size right in
  let cmp := memcmp (take min_size (bits_data left)) (take min_size (bits_data right)) in
  if negb (cmp =? 0) then cmp
  else if (bitset_size left <? bitset_size right)%nat then -1
  else if (bitset_size right <? bitset_size left)%nat then 1
  else 0.

Definition bitset_eq (left right : bitset_t) : bool := bitset_compare left right =? 0.

Definition bitset_bitwise_op (left right : bitset_t) (op : Z -> Z -> Z) : bitset_t :=
  let max_size := if (bitset_size right <? bitset_size left)%nat then bitset_size left
                  else bitset_size right in
  let byte set index := if (index <? bitset_size set)%nat then nth index (bits_data set) 0 else 0 in
  let result := bitset_create max_size in
  mk_bitset (map (fun index => op (byte left index) (byte right index)) (seq 0 max_size) ++
             drop max_size (bits_data result)).

Definition bitset_xor (left right : bitset_t) : bitset_t := bitset_bitwise_op left right Z.lxor.
Definition bitset_and (left right : bitset_t) : bitset_t := bitset_bitwise_op left right Z.land.
Definition bitset_or (left right : bitset_t) : bitset_t := bitset_bitwise_op left right Z.lor.

Definition bitset_not (set : bitset_t) : bitset_t :=
  mk_bitset (map (fun b => u8 (Z.lnot b)) (bits_data set) ++
             drop (bitset_size set) (bits_data (bitset_create (bitset_size set)))).

(** [while (new_size > 1 && data[new_size - 1] == 0) new_size--]. *)
Fixpoint compact_size (data : bytes) (new_size : nat) : nat :=
  match new_size with
  | S (S _ as k) => if nth k data 0 =? 0 then compact_size data k else new_size
  | _ => new_size
  end.

Definition bitset_compact (set : bitset_t) : bitset_t :=
  mk_bitset (take (compact_size (bits_data set) (bitset_size set)) (bits_data set)).

(** ** Meaning *)

Definition bitset_wf (set : bitset_t) : Prop := is_bytes (bits_data set).

(** Bit [i] of the infinite string. *)
Definition bit_of (data : bytes) (i : nat) : bool :=
  Z.testbit (nth (i / 8) data 0) (Z.of_nat (i mod 8)).

Lemma bitset_get_bit set i : bitset_get set i = bit_of (bits_data set) i.
Proof.
  unfold bitset_get, bit_of, bitset_size. destruct (Nat.leb_spec (length (bits_data set)) (i / 8)).
  - by rewrite nth_overflow, Z.bits_0.
  - by rewrite shiftr_land_one by lia.
Qed.

Lemma bit_index_inj i j : (i / 8 = j / 8 -> i mod 8 = j mod 8 -> i = j)%nat.
Proof. intros H1 H2. rewrite (Nat.div_mod_eq i 8), (Nat.div_mod_eq j 8). congruence. Qed.

Lemma bit_of_app_zeros data n i : bit_of (data ++ replicate n 0) i = bit_of data i.
Proof.
  unfold bit_of. f_equal. rewrite !nth_lookup. destruct (decide (i / 8 < length data)%nat).
  - by rewrite lookup_app_l.
  - rewrite lookup_app_r, (lookup_ge_None_2 data) by lia.
    destruct (replicate n 0 !! (i / 8 - length data)%nat) as [x|] eqn:E; [|done].
    by apply lookup_replicate in E as [-> _].
Qed.

Lemma is_bytes_nth data i : is_bytes data -> is_u8 (nth i data 0).
Proof.
  intros H. rewrite nth_lookup. destruct (data !! i) as [x|] eqn:E; simpl; [|unfold is_u8; lia].
  by apply (Forall_lookup_1 _ _ _ _ H E).
Qed.

Lemma bit_of_insert data k b i :
  (k < length data)%nat ->
  bit_of (<[k := b]> data) i = if (i / 8 =? k)%nat then Z.testbit b (Z.of_nat (i mod 8)) else bit_of data i.
Proof.
  intros Hk. unfold bit_of. rewrite !nth_lookup. destruct (Nat.eqb_spec (i / 8) k) as [->|Hne].
  - by rewrite list_lookup_insert_eq.
  - by rewrite list_lookup_insert_ne by congruence.
Qed.

Lemma set_bit_test byte k value j :
  (k < 8)%nat -> (j < 8)%nat ->
  Z.testbit (if value : bool then u8 (Z.lor byte (Z.shiftl 1 (Z.of_nat k)))
             else u8 (Z.land byte (Z.lnot (Z.shiftl 1 (Z.of_nat k))))) (Z.of_nat j) =
  if (j =? k)%nat then value else Z.testbit byte (Z.of_nat j).
Proof.
  intros Hk Hj. rewrite Z.shiftl_1_l.
  assert (Z.testbit (2 ^ Z.of_nat k) (Z.of_nat j) = (j =? k)%nat) as Hp.
  { rewrite Z.pow2_bits_eqb by lia. bool_cases; lia. }
  assert ((Z.of_nat j <? 8) = true) as H8 by (apply Z.ltb_lt; lia).
  destruct value; rewrite u8_testbit, H8 by lia; cbn [andb].
  - rewrite Z.lor_spec, Hp. destruct (j =? k)%nat; [by rewrite orb_true_r|by rewrite orb_false_r].
  - rewrite Z.land_spec, Z.lnot_spec, Hp by lia.
    destruct (j =? k)%nat; [by rewrite andb_false_r|by rewrite andb_true_r].
Qed.

Lemma ensure_capacity_spec set i :
  let set' := bitset_ensure_capacity set i in
  (forall j, bit_of (bits_data set') j = bit_of (bits_data set) j) /\ (i / 8 < bitset_size set')%nat /\
  (bitset_wf set -> bitset_wf set') /\
  ((i / 8 < bitset_size set)%nat -> set' = set).
Proof.
  unfold bitset_ensure_capacity. destruct (Nat.leb_spec (i / 8 + 1) (bitset_size set)).
  - split_and!; auto. lia.
  - cbn zeta. unfold bitset_size in *. cbn [bits_data]. rewrite length_app, length_replicate. split_and!.
    + intros j. apply bit_of_app_zeros.
    + lia.
    + intros H'. apply Forall_app. split; [done|]. apply Forall_replicate. unfold is_u8. lia.
    + lia.
Qed.

Lemma bitset_set_spec set i value :
  let '(set', old) := bitset_set set i value in
  old = bitset_get set i /\
  (forall j, bitset_get set' j = if (j =? i)%nat then value else bitset_get set j) /\
  (bitset_wf set -> bitset_wf set') /\
  ((i / 8 < bitset_size set)%nat -> bitset_size set' = bitset_size set).
Proof.
  unfold bitset_set. destruct (ensure_capacity_spec set i) as (Hbits & Hin & Hwf & Hsame).
  set (set1 := bitset_ensure_capacity set i) in *.
  split_and!.
  - rewrite bitset_get_bit, <- Hbits. unfold bit_of. by rewrite shiftr_land_one by lia.
  - intros j. rewrite !bitset_get_bit. cbn [bits_data]. rewrite bit_of_insert by done.
    pose proof (Nat.mod_upper_bound i 8). pose proof (Nat.mod_upper_bound j 8).
    destruct (Nat.eqb_spec (j / 8) (i / 8)) as [E|E].
    + rewrite set_bit_test by lia. rewrite <- (Hbits j). unfold bit_of. rewrite E.
      destruct (Nat.eqb_spec (j mod 8) (i mod 8)), (Nat.eqb_spec j i); try done; [|congruence].
      by destruct n; apply bit_index_inj.
    + rewrite Hbits. destruct (Nat.eqb_spec j i); [congruence|done].
  - intros H. apply Forall_insert; [by apply Hwf|]. destruct value; apply u8_range.
  - intros H. rewrite Hsame by done. apply length_insert.
Qed.

Lemma bitwise_bit left right op i :
  op 0 0 = 0 ->
  (forall x y k, Z.testbit (op x y) k = Z.testbit (op (Z.b2z (Z.testbit x k)) (Z.b2z (Z.testbit y k))) 0) ->
  bitset_get (bitset_bitwise_op left right op) i =
    Z.testbit (op (Z.b2z (bitset_get left i)) (Z.b2z (bitset_get right i))) 0.
Proof.
  intros H0 Hop. rewrite !bitset_get_bit. unfold bit_of, bitset_bitwise_op. cbn [bits_data].
  rewrite <- Hop. f_equal.
  assert (forall set k, (if (k <? bitset_size set)%nat then nth k (bits_data set) 0 else 0) =
    nth k (bits_data set) 0) as Hbyte.
  { intros set k. destruct (Nat.ltb_spec k (bitset_size set)); [done|].
    by rewrite nth_overflow. }
  set (m := if (bitset_size right <? bitset_size left)%nat then bitset_size left else bitset_size right).
  assert (bitset_size left <= m /\ bitset_size right <= m)%nat as [Hl Hr] by (subst m; bool_cases; lia).
  destruct (Nat.lt_ge_cases (i / 8) m) as [Hi|Hi].
  - rewrite app_nth1 by (by rewrite length_map, length_seq).
    rewrite nth_lookup, list_lookup_fmap, lookup_seq_lt by done. cbn [fmap option_fmap option_map default].
    by rewrite !Hbyte.
  - rewrite app_nth2, length_map, length_seq by (by rewrite length_map, length_seq).
    rewrite !(nth_overflow (bits_data _)) by (unfold bitset_size in *; lia). rewrite H0.
    rewrite nth_lookup, lookup_drop. unfold bitset_create. cbn [bits_data].
    destruct (replicate _ 0 !! _) as [x|] eqn:E; [|done]. by apply lookup_replicate in E as [-> _].
Qed.

Lemma bitset_not_bit set i :
  (i < bitset_bit_count set)%nat -> bitset_get (bitset_not set) i = negb (bitset_get set i).
Proof.
  intros Hi. unfold bitset_bit_count in Hi. rewrite !bitset_get_bit. unfold bit_of, bitset_not. cbn [bits_data].
  assert (i / 8 < bitset_size set)%nat as Hb by (apply Nat.Div0.div_lt_upper_bound; lia).
  rewrite app_nth1 by (by rewrite length_map). unfold bitset_size in Hb.
  destruct (lookup_lt_is_Some_2 (bits_data set) (i / 8) Hb) as [x Hx].
  rewrite !nth_lookup, list_lookup_fmap, Hx. cbn [fmap option_fmap option_map from_option id].
  pose proof (Nat.mod_upper_bound i 8). rewrite u8_testbit, Z.lnot_spec by lia.
  destruct (Z.ltb_spec (Z.of_nat (i mod 8)) 8); [done|lia].
Qed.

Lemma compact_size_SS data n :
  compact_size data (S (S n)) = if nth (S n) data 0 =? 0 then compact_size data (S n) else S (S n).
Proof. done. Qed.

Lemma compact_size_spec data n :
  (compact_size data n <= n)%nat /\ (0 < n -> 0 < compact_size data n)%nat /\
  forall k, (compact_size data n <= k < n)%nat -> nth k data 0 = 0.
Proof.
  induction n as [|n IH]; [simpl; split_and!; intros; lia|].
  destruct n as [|n]; [simpl; split_and!; intros; lia|].
  rewrite compact_size_SS. destruct (Z.eqb_spec (nth (S n) data 0) 0) as [E|E].
  - destruct IH as (H1 & H2 & H3). split_and!; [lia|intros; apply H2; lia|].
    intros k Hk. destruct (decide (k = S n)) as [->|]; [done|]. apply H3. lia.
  - split_and!; intros; lia.
Qed.

Lemma bitset_compact_bit set i : bitset_get (bitset_compact set) i = bitset_get set i.
Proof.
  rewrite !bitset_get_bit. unfold bitset_compact, bit_of. cbn [bits_data]. f_equal.
  destruct (compact_size_spec (bits_data set) (bitset_size set)) as (H1 & _ & H3).
  destruct (Nat.lt_ge_cases (i / 8) (compact_size (bits_data set) (bitset_size set))) as [Hi|Hi].
  - by rewrite !nth_lookup, lookup_take_lt.
  - rewrite nth_overflow by (rewrite length_take; lia).
    destruct (Nat.lt_ge_cases (i / 8) (bitset_size set)); [symmetry; apply H3; lia|].
    by rewrite nth_overflow.
Qed.

(** The operations of a bit set mean what they say on the bit string:
    [bitset_set] changes exactly one bit (growing the set when needed) and
    returns its old value; and, or and xor work bit by bit; not flips the bits
    the set holds; compaction changes no bit. *)
Theorem bitset_operations (a b : bitset_t) (i j : nat) (value : bool) :
  (let '(a', old) := bitset_set a i value in
   old = bitset_get a i /\ bitset_get a' j = (if (j =? i)%nat then value else bitset_get a j)) /\
  bitset_get (bitset_and a b) i = bitset_get a i && bitset_get b i /\
  bitset_get (bitset_or a b) i = bitset_get a i || bitset_get b i /\
  bitset_get (bitset_xor a b) i = xorb (bitset_get a i) (bitset_get b i) /\
  ((i < bitset_bit_count a)%nat -> bitset_get (bitset_not a) i = negb (bitset_get a i)) /\
  bitset_get (bitset_compact a) i = bitset_get a i.
Proof.
  split_and!.
  - pose proof (bitset_set_spec a i value) as H. destruct (bitset_set a i value) as [a' old].
    destruct H as (H1 & H2 & _). auto.
  - unfold bitset_and. rewrite bitwise_bit; [by destruct (bitset_get a i), (bitset_get b i)|done|].
    intros x y k. rewrite !Z.land_spec, !Z.b2z_bit0. done.
  - unfold bitset_or. rewrite bitwise_bit; [by destruct (bitset_get a i), (bitset_get b i)|done|].
    intros x y k. rewrite !Z.lor_spec, !Z.b2z_bit0. done.
  - unfold bitset_xor. rewrite bitwise_bit; [by destruct (bitset_get a i), (bitset_get b i)|done|].
    intros x y k. rewrite !Z.lxor_spec, !Z.b2z_bit0. done.
  - apply bitset_not_bit.
  - apply bitset_compact_bit.
Qed.
