(* ===== verification/Bloom.v ===== *)
(** * Bloom: the plain Bloom filter

    Models src/src/Bloom/bloom_filter.c over [Bitset].  XXH3 (deps/xxHash) is
    a parameter: any function of data and seed with 64-bit results.  The main
    theorem is that the filter has no false negatives.
    [bloom_filter_optimal_size] (floating-point sizing) is not modelled. *)

From S2P Require Import Prelude Bitset.
Local Open Scope Z_scope.

(** [XXH3_64bits_withSeed]. *)
Class Xxh3 := {
  XXH3_64bits_withSeed : bytes -> Z -> Z;
  xxh3_u64 : forall data seed, is_u64 (XXH3_64bits_withSeed data seed)
}.

Record bloom_filter_t := mk_bloom {
  bf_bits : bitset_t;
  bf_size : nat;
  bf_hash_count : nat;
  bf_seed_a : Z;
  bf_seed_b : Z;
  bf_count : nat
}.

Definition bloom_filter_create (size hash_count : nat) : bloom_filter_t :=
  let size := if (size =? 0)%nat then 256%nat else size in
  let hash_count := if (hash_count =? 0)%nat then 3%nat else hash_count in
  mk_bloom (bitset_create ((size + 7) / 8)) size hash_count 1 2 0.

Section Bloom.
Context `{Xxh3}.

(** [(hash_a + index * hash_b + index * index) % filter->size]: the product
    of two 32-bit values wraps at 32 bits, the rest at 64. *)
Definition bloom_bit_index (filter : bloom_filter_t) (data : bytes) (index : nat) : nat :=
  let hash_a := XXH3_64bits_withSeed data (bf_seed_a filter) in
  let hash_b := XXH3_64bits_withSeed data (bf_seed_b filter) in
  let i := Z.of_nat index in
  Z.to_nat (u64 (hash_a + u64 (i * hash_b) + u32 (i * i)) mod Z.of_nat (bf_size filter)).

Definition bloom_add_step (filter : bloom_filter_t) (data : bytes) (acc : bitset_t * bool) (index : nat)
  : bitset_t * bool :=
  let '(bits, was_new) := acc in
  let bit_index := bloom_bit_index filter data index in
  ((bitset_set bits bit_index true).1, if negb (bitset_get bits bit_index) then true else was_new).

Definition bloom_filter_add (filter : bloom_filter_t) (data : bytes) : bloom_filter_t * bool :=
  let '(bits, was_new) :=
    fold_left (bloom_add_step filter data) (seq 0 (bf_hash_count filter)) (bf_bits filter, false) in
  (mk_bloom bits (bf_size filter) (bf_hash_count filter) (bf_seed_a filter) (bf_seed_b filter)
     (if was_new then S (bf_count filter) else bf_count filter), was_new).

Definition bloom_filter_contains (filter : bloom_filter_t) (data : bytes) : bool :=
  forallb (fun index => bitset_get (bf_bits filter) (bloom_bit_index filter data index))
    (seq 0 (bf_hash_count filter)).

Definition bloom_filter_reset (filter : bloom_filter_t) : bloom_filter_t :=
  mk_bloom (bitset_create ((bf_size filter + 7) / 8)) (bf_size filter) (bf_hash_count filter)
    (bf_seed_a filter) (bf_seed_b filter) 0.

(** ** No false negatives *)

Lemma add_fold filter data l bits was_new :
  let '(bits', was_new') := fold_left (bloom_add_step filter data) l (bits, was_new) in
  (forall j, bitset_get bits' j =
     bitset_get bits j || existsb (fun index => bloom_bit_index filter data index =? j)%nat l) /\
  was_new' = was_new || existsb (fun index => negb (bitset_get bits (bloom_bit_index filter data index))) l.
Proof.
  revert bits was_new. induction l as [|k l IH]; intros bits was_new; cbn [fold_left bloom_add_step existsb].
  { split; [intros j|]; by rewrite orb_false_r. }
  pose proof (bitset_set_spec bits (bloom_bit_index filter data k) true) as Hs.
  destruct (bitset_set bits (bloom_bit_index filter data k) true) as [b' old].
  destruct Hs as (_ & Hs & _). cbn [fst].
  match goal with |- context [fold_left _ l (b', ?w)] => specialize (IH b' w) end.
  destruct (fold_left _ l _) as [bits' was_new']. destruct IH as [IH1 IH2]. split.
  - intros j. rewrite IH1, Hs, Nat.eqb_sym.
    destruct (bloom_bit_index filter data k =? j)%nat; simpl; [by rewrite orb_true_r|done].
  - rewrite IH2. destruct (bitset_get bits (bloom_bit_index filter data k)) eqn:E; simpl;
      [|by rewrite orb_true_r].
    f_equal. apply existsb_ext. intros x. rewrite Hs.
    destruct (Nat.eqb_spec (bloom_bit_index filter data x) (bloom_bit_index filter data k)) as [->|];
      [by rewrite E|done].
Qed.

Lemma bloom_add_spec filter data :
  let '(filter', was_new) := bloom_filter_add filter data in
  bf_size filter' = bf_size filter /\ bf_hash_count filter' = bf_hash_count filter /\
  bf_seed_a filter' = bf_seed_a filter /\ bf_seed_b filter' = bf_seed_b filter /\
  (forall j, bitset_get (bf_bits filter') j = bitset_get (bf_bits filter) j ||
     existsb (fun index => bloom_bit_index filter data index =? j)%nat (seq 0 (bf_hash_count filter))) /\
  was_new = negb (bloom_filter_contains filter data) /\
  bf_count filter' = (bf_count filter + (if was_new then 1 else 0))%nat.
Proof.
  unfold bloom_filter_add.
  pose proof (add_fold filter data (seq 0 (bf_hash_count filter)) (bf_bits filter) false) as Hf.
  destruct (fold_left _ _ _) as [bits was_new]. destruct Hf as [Hbits Hnew].
  split_and!; try done; [|destruct was_new; simpl; lia].
  rewrite Hnew. unfold bloom_filter_contains. by rewrite forallb_negb.
Qed.

Lemma bit_index_same f f' data index :
  bf_size f' = bf_size f -> bf_seed_a f' = bf_seed_a f -> bf_seed_b f' = bf_seed_b f ->
  bloom_bit_index f' data index = bloom_bit_index f data index.
Proof. intros H1 H2 H3. unfold bloom_bit_index. by rewrite H1, H2, H3. Qed.

(** Whatever was contained before or is added now is contained afterwards. *)
Lemma bloom_add_contains filter data data' :
  data' = data \/ bloom_filter_contains filter data' = true ->
  bloom_filter_contains (bloom_filter_add filter data).1 data' = true.
Proof.
  intros Hor. pose proof (bloom_add_spec filter data) as Ha.
  destruct (bloom_filter_add filter data) as [f' was_new].
  destruct Ha as (H1 & H2 & H3 & H4 & Hbits & _). cbn [fst]. unfold bloom_filter_contains.
  rewrite H2. apply forallb_forall. intros k Hk. rewrite (bit_index_same filter), Hbits by done.
  apply orb_true_iff. destruct Hor as [->|Hc].
  - right. apply existsb_exists. exists k. split; [done|apply Nat.eqb_refl].
  - left. unfold bloom_filter_contains in Hc. rewrite forallb_forall in Hc. by apply Hc.
Qed.
End Bloom.

(** No false negatives: after adding any sequence of items to any filter,
    every one of them is reported as contained, and so is everything that was
    contained before; [bloom_filter_add] reports an item as new exactly when
    it was not contained. *)
Theorem bloom_no_false_negatives `{Xxh3} (filter : bloom_filter_t) (items : list bytes) (data : bytes) :
  let filter' := fold_left (fun f d => (bloom_filter_add f d).1) items filter in
  (data ∈ items \/ bloom_filter_contains filter data = true ->
   bloom_filter_contains filter' data = true) /\
  (bloom_filter_add filter data).2 = negb (bloom_filter_contains filter data).
Proof.
  intros filter'. split.
  - subst filter'. revert filter. induction items as [|d items IH]; intros filter; simpl.
    + intros [Hin|Hc]; [by apply elem_of_nil in Hin|done].
    + rewrite elem_of_cons. intros Hor. apply IH.
      destruct Hor as [[->|Hin]|Hc]; [right|by left|right]; apply bloom_add_contains; auto.
  - pose proof (bloom_add_spec filter data) as Ha.
    destruct (bloom_filter_add filter data) as [f' was_new]. by destruct Ha as (_ & _ & _ & _ & _ & -> & _).
Qed.

(** A hash for examples: the data read as a little-endian number, plus the seed. *)
Definition toy_xxh3 : Xxh3 := {|
  XXH3_64bits_withSeed data seed := u64 (le_value data + seed);
  xxh3_u64 data seed := u64_range _
|}.

Lemma bloom_no_false_negatives_witness :
  bloom_filter_contains (H := toy_xxh3)
    (fold_left (fun f d => (bloom_filter_add (H := toy_xxh3) f d).1) [[1; 2]; [3]; [4; 5; 6]]
       (bloom_filter_create 64 3)) [3] = true.
Proof.
  refine (proj1 (bloom_no_false_negatives (H := toy_xxh3) (bloom_filter_create 64 3)
    [[1; 2]; [3]; [4; 5; 6]] [3]) _).
  left. apply list_elem_of_In. simpl. auto.
Defined.
