(* ===== verification/ElasticBloom.v ===== *)
(** * ElasticBloom: Bloom filter with fingerprint buckets

    Models src/src/Bloom/elastic_bloom_filter.c: buckets of 32-bit
    fingerprints (newest first, as the linked lists), a bit set that mirrors
    which buckets are occupied, growth and shrinking by a load factor, merge,
    and the CBOR codec.  The load factor is computed in binary32, modelled by
    the standard library's [SpecFloat]. *)

From Stdlib Require Import Floats.SpecFloat.
From S2P Require Import Prelude Cbor Bitset Bloom.
Local Open Scope Z_scope.

(** ** binary32 *)

Definition float32 := spec_float.
Definition f32_of_Z (z : Z) : float32 := binary_normalize 24 128 z 0 false.
Definition f32_div : float32 -> float32 -> float32 := SFdiv 24 128.
Definition f32_three_quarters : float32 := S754_finite false 12582912 (-24).

(** ** State *)

Definition EBF_DEFAULT_FP_BITS : Z := 8.
Definition EBF_DECODE_MAX_BUCKETS : Z := 2 ^ 27.
Definition EBF_DECODE_MAX_HASH_COUNT : Z := 64.
Definition EBF_DECODE_MAX_FP_BITS : Z := 32.

(** A bucket is the list of fingerprints along its [next] pointers. *)
Definition bucket := list Z.

Record elastic_bloom_filter_t := mk_ebf {
  ebf_bits : bitset_t;
  ebf_size : nat;
  ebf_bucket_count : nat;
  ebf_buckets : list bucket;
  ebf_hash_count : Z;
  ebf_seed_a : Z;
  ebf_seed_b : Z;
  ebf_omega : float32;
  ebf_fp_bits : Z;
  ebf_count : Z
}.

Definition set_buckets (ebf : elastic_bloom_filter_t) (buckets : list bucket) (bits : bitset_t)
  : elastic_bloom_filter_t :=
  mk_ebf bits (ebf_size ebf) (ebf_bucket_count ebf) buckets (ebf_hash_count ebf) (ebf_seed_a ebf)
    (ebf_seed_b ebf) (ebf_omega ebf) (ebf_fp_bits ebf) (ebf_count ebf).

Definition set_count (ebf : elastic_bloom_filter_t) (count : Z) : elastic_bloom_filter_t :=
  mk_ebf (ebf_bits ebf) (ebf_size ebf) (ebf_bucket_count ebf) (ebf_buckets ebf) (ebf_hash_count ebf)
    (ebf_seed_a ebf) (ebf_seed_b ebf) (ebf_omega ebf) (ebf_fp_bits ebf) count.

(** ** Buckets *)

Definition bucket_insert (head : bucket) (fingerprint : Z) : bucket := fingerprint :: head.

Fixpoint bucket_remove (head : bucket) (fingerprint : Z) : bucket * bool :=
  match head with
  | [] => ([], false)
  | f :: next =>
      if f =? fingerprint then (next, true)
      else let '(next, removed) := bucket_remove next fingerprint in (f :: next, removed)
  end.

Fixpoint bucket_contains (head : bucket) (fingerprint : Z) : bool :=
  match head with
  | [] => false
  | f :: next => if f =? fingerprint then true else bucket_contains next fingerprint
  end.

Definition bucket_is_empty (head : bucket) : bool := match head with [] => true | _ => false end.

(** [ebf->buckets[index]]; the callers keep the index in range. *)
Definition bucket_at (buckets : list bucket) (index : nat) : bucket := nth index buckets [].

Definition rebuild_bitset (ebf : elastic_bloom_filter_t) : elastic_bloom_filter_t :=
  let cleared := mk_bitset (replicate (bitset_size (ebf_bits ebf)) 0) in
  let bits :=
    fold_left (fun bits index =>
                 if negb (bucket_is_empty (bucket_at (ebf_buckets ebf) index))
                 then (bitset_set bits index true).1 else bits)
      (seq 0 (ebf_bucket_count ebf)) cleared in
  set_buckets ebf (ebf_buckets ebf) bits.

Definition elastic_bloom_filter_create (size : nat) (hash_count : Z) (omega : float32) (fp_bits : Z)
  : elastic_bloom_filter_t :=
  let size := if (size =? 0)%nat then 256%nat else size in
  let hash_count := if hash_count =? 0 then 3 else hash_count in
  let omega := if SFleb omega (S754_zero false) then f32_three_quarters else omega in
  let fp_bits := if fp_bits =? 0 then EBF_DEFAULT_FP_BITS else fp_bits in
  mk_ebf (bitset_create ((size + 7) / 8)) size size (replicate size []) hash_count 1 2 omega fp_bits 0.

Definition occupied_buckets (ebf : elastic_bloom_filter_t) : nat :=
  length (List.filter (fun index => negb (bucket_is_empty (bucket_at (ebf_buckets ebf) index)))
            (seq 0 (ebf_bucket_count ebf))).

Definition elastic_bloom_filter_ratio (ebf : elastic_bloom_filter_t) : float32 :=
  if (ebf_bucket_count ebf =? 0)%nat then S754_zero false
  else f32_div (f32_of_Z (Z.of_nat (occupied_buckets ebf))) (f32_of_Z (Z.of_nat (ebf_bucket_count ebf))).

(** ** Growing and shrinking *)

(** Moves one entry to bucket [new_idx] of the new arrays. *)
Definition redistribute (acc : list bucket * bitset_t) (new_idx : nat) (new_fp : Z)
  : list bucket * bitset_t :=
  let '(buckets, bits) := acc in
  (<[new_idx := new_fp :: bucket_at buckets new_idx]> buckets, (bitset_set bits new_idx true).1).

Definition expand_entry (index : nat) (acc : list bucket * bitset_t) (fingerprint : Z)
  : list bucket * bitset_t :=
  let fp_bit := Z.land fingerprint 1 in
  let new_idx := (index * 2 + Z.to_nat fp_bit)%nat in
  let new_fp := Z.shiftr fingerprint 1 in
  let new_fp := if new_fp =? 0 then 1 else new_fp in
  redistribute acc new_idx new_fp.

(** The two loops over all buckets and their entries. *)
Definition redistribute_all (entry : nat -> list bucket * bitset_t -> Z -> list bucket * bitset_t)
    (ebf : elastic_bloom_filter_t) (new_bucket_count : nat) : list bucket * bitset_t :=
  fold_left (fun acc index => fold_left (entry index) (bucket_at (ebf_buckets ebf) index) acc)
    (seq 0 (ebf_bucket_count ebf))
    (replicate new_bucket_count [], bitset_create ((new_bucket_count + 7) / 8)).

Definition resized (ebf : elastic_bloom_filter_t) (new_bucket_count : nat)
    (new : list bucket * bitset_t) : elastic_bloom_filter_t :=
  mk_ebf new.2 new_bucket_count new_bucket_count new.1 (ebf_hash_count ebf) (ebf_seed_a ebf)
    (ebf_seed_b ebf) (ebf_omega ebf) (ebf_fp_bits ebf) (ebf_count ebf).

Definition elastic_bloom_filter_expand (ebf : elastic_bloom_filter_t) : elastic_bloom_filter_t :=
  let new_bucket_count := (ebf_bucket_count ebf * 2)%nat in
  resized ebf new_bucket_count (redistribute_all expand_entry ebf new_bucket_count).

Definition compress_entry (new_bucket_count index : nat) (acc : list bucket * bitset_t) (fingerprint : Z)
  : list bucket * bitset_t :=
  let half_bit := if (new_bucket_count <=? index)%nat then 1 else 0 in
  let new_fp := Z.lor (u32 (Z.shiftl fingerprint 1)) half_bit in
  redistribute acc (index mod new_bucket_count) new_fp.

(** The filter and the return code. *)
Definition elastic_bloom_filter_compress (ebf : elastic_bloom_filter_t) : elastic_bloom_filter_t * Z :=
  if (ebf_bucket_count ebf <=? 16)%nat then (ebf, -1)
  else
    let new_bucket_count := (ebf_bucket_count ebf / 2)%nat in
    (resized ebf new_bucket_count (redistribute_all (compress_entry new_bucket_count) ebf new_bucket_count), 0).

(** ** Add, contains, remove *)

Section Operations.
Context `{Xxh3}.

(** The fingerprint and the bucket of hash number [hash_index].  [fp_bits] is
    below 64, as the shift in the code requires. *)
Definition compute_hash_pair (ebf : elastic_bloom_filter_t) (data : bytes) (hash_index : nat) : Z * nat :=
  let seed := u64 (ebf_seed_a ebf + Z.of_nat hash_index * ebf_seed_b ebf) in
  let hash := XXH3_64bits_withSeed data seed in
  let n := Z.of_nat (ebf_bucket_count ebf) in
  let fingerprint := u32 ((hash / n) mod 2 ^ ebf_fp_bits ebf) in
  (if fingerprint =? 0 then 1 else fingerprint, Z.to_nat (hash mod n)).

Definition hash_indices (ebf : elastic_bloom_filter_t) : list nat := seq 0 (Z.to_nat (ebf_hash_count ebf)).

(** One iteration of the insertion loop, on the buckets, the bits and [was_new]. *)
Definition add_hash (acc : list bucket * bitset_t * bool) (hash : Z * nat) : list bucket * bitset_t * bool :=
  let '(buckets, bits, was_new) := acc in
  let '(fingerprint, bucket_idx) := hash in
  if bucket_contains (bucket_at buckets bucket_idx) fingerprint then acc
  else (<[bucket_idx := bucket_insert (bucket_at buckets bucket_idx) fingerprint]> buckets,
        (bitset_set bits bucket_idx true).1, true).

(** The loop of [elastic_bloom_filter_add]. *)
Definition insert_hashes (ebf : elastic_bloom_filter_t) (data : bytes) : elastic_bloom_filter_t * bool :=
  let '(buckets, bits, was_new) :=
    fold_left add_hash (map (compute_hash_pair ebf data) (hash_indices ebf))
      (ebf_buckets ebf, ebf_bits ebf, false) in
  (set_buckets ebf buckets bits, was_new).

Definition elastic_bloom_filter_add (ebf : elastic_bloom_filter_t) (data : bytes)
  : elastic_bloom_filter_t * bool :=
  let '(ebf, was_new) := insert_hashes ebf data in
  if was_new then
    let ebf := set_count ebf (u64 (ebf_count ebf + 1)) in
    if SFltb (ebf_omega ebf) (elastic_bloom_filter_ratio ebf)
    then (elastic_bloom_filter_expand ebf, was_new)
    else (ebf, was_new)
  else (ebf, was_new).

Definition holds_hash (ebf : elastic_bloom_filter_t) (hash : Z * nat) : bool :=
  let '(fingerprint, bucket_idx) := hash in
  bitset_get (ebf_bits ebf) bucket_idx &&
  bucket_contains (bucket_at (ebf_buckets ebf) bucket_idx) fingerprint.

Definition elastic_bloom_filter_contains (ebf : elastic_bloom_filter_t) (data : bytes) : bool :=
  forallb (fun index => holds_hash ebf (compute_hash_pair ebf data index)) (hash_indices ebf).

Definition remove_hash (acc : list bucket * bitset_t * bool) (hash : Z * nat) : list bucket * bitset_t * bool :=
  let '(buckets, bits, removed) := acc in
  let '(fingerprint, bucket_idx) := hash in
  let '(rest, entry_removed) := bucket_remove (bucket_at buckets bucket_idx) fingerprint in
  let buckets := <[bucket_idx := rest]> buckets in
  if entry_removed then
    (buckets, if bucket_is_empty rest then (bitset_set bits bucket_idx false).1 else bits, true)
  else (buckets, bits, removed).

Definition remove_hashes (ebf : elastic_bloom_filter_t) (data : bytes) : elastic_bloom_filter_t * bool :=
  let '(buckets, bits, removed) :=
    fold_left remove_hash (map (compute_hash_pair ebf data) (hash_indices ebf))
      (ebf_buckets ebf, ebf_bits ebf, false) in
  (set_buckets ebf buckets bits, removed).

Definition elastic_bloom_filter_remove (ebf : elastic_bloom_filter_t) (data : bytes)
  : elastic_bloom_filter_t * bool :=
  let '(ebf, removed) := remove_hashes ebf data in
  if removed then
    let ebf := set_count ebf (u64 (ebf_count ebf - 1)) in
    if SFltb (elastic_bloom_filter_ratio ebf) (f32_div (ebf_omega ebf) (f32_of_Z 4)) &&
       (16 <? ebf_bucket_count ebf)%nat
    then ((elastic_bloom_filter_compress ebf).1, removed)
    else (ebf, removed)
  else (ebf, removed).
End Operations.

(** ** Merge and direct insertion *)

Definition merge_bits (dest src : bitset_t) : bitset_t :=
  mk_bitset (map (fun index => if (index <? bitset_size src)%nat
                               then Z.lor (nth index (bits_data dest) 0) (nth index (bits_data src) 0)
                               else nth index (bits_data dest) 0)
               (seq 0 (bitset_size dest))).

Definition merge_bucket (dest src : bucket) : bucket :=
  fold_left (fun b f => if bucket_contains b f then b else bucket_insert b f) src dest.

Definition elastic_bloom_filter_merge (dest src : elastic_bloom_filter_t) : elastic_bloom_filter_t * Z :=
  if negb (ebf_bucket_count dest =? ebf_bucket_count src)%nat then (dest, -1)
  else
    let bits := merge_bits (ebf_bits dest) (ebf_bits src) in
    let buckets :=
      fold_left (fun buckets index =>
                   <[index := merge_bucket (bucket_at buckets index) (bucket_at (ebf_buckets src) index)]>
                     buckets)
        (seq 0 (ebf_bucket_count src)) (ebf_buckets dest) in
    (set_buckets dest buckets bits, 0).

Definition elastic_bloom_filter_bucket_insert (ebf : elastic_bloom_filter_t) (bucket_idx : nat)
    (fingerprint : Z) : elastic_bloom_filter_t * Z :=
  if (ebf_bucket_count ebf <=? bucket_idx)%nat then (ebf, -1)
  else
    let '(buckets, bits, _) := add_hash (ebf_buckets ebf, ebf_bits ebf, false) (fingerprint, bucket_idx) in
    (set_buckets ebf buckets bits, 0).

(** The calls [elastic_bloom_filter_iterate] makes, in order. *)
Definition elastic_bloom_filter_iterate (ebf : elastic_bloom_filter_t) : list (nat * Z) :=
  concat (map (fun index => map (fun f => (index, f)) (bucket_at (ebf_buckets ebf) index))
            (seq 0 (ebf_bucket_count ebf))).

(** ** CBOR *)

Section Codec.
Context `{Cbor}.

Definition encode_bucket (ebf : elastic_bloom_filter_t) (index : nat) : cbor_item :=
  let b := bucket_at (ebf_buckets ebf) index in
  cbor_array (cbor_build_uint64 (Z.of_nat index) :: cbor_build_uint32 (u32 (Z.of_nat (length b))) ::
              map cbor_build_uint32 b).

Definition occupied_indices (ebf : elastic_bloom_filter_t) : list nat :=
  List.filter (fun index => negb (bucket_is_empty (bucket_at (ebf_buckets ebf) index)))
    (seq 0 (ebf_bucket_count ebf)).

Definition elastic_bloom_filter_encode (ebf : elastic_bloom_filter_t) : cbor_item :=
  let num_occupied := length (occupied_indices ebf) in
  cbor_array
    ([cbor_build_uint64 (Z.of_nat (ebf_size ebf)); cbor_build_uint32 (ebf_hash_count ebf);
      cbor_build_uint32 (ebf_fp_bits ebf); cbor_build_uint64 (ebf_seed_a ebf);
      cbor_build_uint64 (ebf_seed_b ebf); cbor_build_bytestring (bits_data (ebf_bits ebf));
      cbor_build_uint64 (Z.of_nat num_occupied)] ++
     map (encode_bucket ebf) (occupied_indices ebf)).

(** One item from index 7 on; malformed ones are skipped. *)
Definition decode_bucket (bucket_count : nat) (buckets : list bucket) (bucket_item : cbor_item) : list bucket :=
  if negb (cbor_isa_array bucket_item) || (cbor_array_size bucket_item <? 2)%nat then buckets
  else
    match cbor_array_items bucket_item with
    | idx_item :: fp_count_item :: fps =>
        let bucket_idx := cbor_get_int idx_item in
        let fp_count := cbor_get_uint32 fp_count_item in
        if Z.of_nat bucket_count <=? bucket_idx then buckets
        else
          let idx := Z.to_nat bucket_idx in
          <[idx := fold_left (fun b fp_item => bucket_insert b (cbor_get_uint32 fp_item))
                     (take (Z.to_nat fp_count) fps) (bucket_at buckets idx)]> buckets
    | _ => buckets
    end.

Definition elastic_bloom_filter_decode (item : cbor_item) : option elastic_bloom_filter_t :=
  if negb (cbor_isa_array item) then None
  else
    match cbor_array_items item with
    | size_item :: hash_count_item :: fp_bits_item :: seed_a_item :: seed_b_item :: bitset_item ::
      _ :: bucket_items =>
        let size := cbor_get_int size_item in
        let hash_count := cbor_get_uint32 hash_count_item in
        let fp_bits := cbor_get_uint32 fp_bits_item in
        if negb (cbor_isa_bytestring bitset_item) then None
        else
          let bitset_len := cbor_bytestring_length bitset_item in
          if (size =? 0) || (EBF_DECODE_MAX_BUCKETS <? size) ||
             (hash_count =? 0) || (EBF_DECODE_MAX_HASH_COUNT <? hash_count) ||
             (fp_bits =? 0) || (EBF_DECODE_MAX_FP_BITS <? fp_bits) ||
             negb (Z.of_nat bitset_len =? (size + 7) / 8)
          then None
          else
            let n := Z.to_nat size in
            let buckets := fold_left (decode_bucket n) bucket_items (replicate n []) in
            Some (rebuild_bitset
                    (mk_ebf (mk_bitset (cbor_bytestring_handle bitset_item)) n n buckets hash_count
                       (cbor_get_int seed_a_item) (cbor_get_int seed_b_item)
                       f32_three_quarters fp_bits 0))
    | _ => None
    end.
End Codec.

(** ** Invariant: the bit set mirrors the occupied buckets *)

Record buckets_ok (n : nat) (buckets : list bucket) (bits : bitset_t) : Prop := {
  ok_length : length buckets = n;
  ok_bits_size : bitset_size bits = ((n + 7) / 8)%nat;
  ok_mirror : forall i, bitset_get bits i = negb (bucket_is_empty (bucket_at buckets i))
}.

Record ebf_wf (ebf : elastic_bloom_filter_t) : Prop := {
  ew_count : (0 < ebf_bucket_count ebf)%nat;
  ew_size : ebf_size ebf = ebf_bucket_count ebf;
  ew_buckets : buckets_ok (ebf_bucket_count ebf) (ebf_buckets ebf) (ebf_bits ebf)
}.

Lemma byte_in_range n i : (i < n -> i / 8 < (n + 7) / 8)%nat.
Proof.
  intros Hi. apply Nat.Div0.div_lt_upper_bound.
  pose proof (Nat.div_mod_eq (n + 7) 8). pose proof (Nat.mod_upper_bound (n + 7) 8). lia.
Qed.

Lemma bucket_at_insert buckets i b j :
  (i < length buckets)%nat ->
  bucket_at (<[i := b]> buckets) j = if (j =? i)%nat then b else bucket_at buckets j.
Proof.
  intros Hi. unfold bucket_at. rewrite !nth_lookup. destruct (Nat.eqb_spec j i) as [->|].
  - by rewrite list_lookup_insert_eq.
  - by rewrite list_lookup_insert_ne by congruence.
Qed.

(** A bucket replaced together with its bit. *)
Lemma ok_write n buckets bits i b v :
  buckets_ok n buckets bits -> (i < n)%nat -> v = negb (bucket_is_empty b) ->
  buckets_ok n (<[i := b]> buckets) (bitset_set bits i v).1.
Proof.
  intros [H1 H2 H3] Hi ->.
  pose proof (bitset_set_spec bits i (negb (bucket_is_empty b))) as Hs.
  destruct (bitset_set bits i _) as [bits' old]. destruct Hs as (_ & Hget & _ & Hsize). cbn [fst]. split.
  - by rewrite length_insert.
  - rewrite Hsize; [done|]. rewrite H2. by apply byte_in_range.
  - intros j. rewrite Hget, bucket_at_insert, H3 by lia. by destruct (j =? i)%nat.
Qed.

(** A bucket replaced by one that is as empty or non-empty as before. *)
Lemma ok_keep n buckets bits i b :
  buckets_ok n buckets bits -> (i < n)%nat ->
  bucket_is_empty b = bucket_is_empty (bucket_at buckets i) ->
  buckets_ok n (<[i := b]> buckets) bits.
Proof.
  intros [H1 H2 H3] Hi Hb. split; [by rewrite length_insert|done|].
  intros j. rewrite H3, bucket_at_insert by lia. destruct (Nat.eqb_spec j i) as [->|]; [|done].
  by rewrite Hb.
Qed.

Lemma bucket_at_replicate n i : bucket_at (replicate n []) i = [].
Proof.
  unfold bucket_at. rewrite nth_lookup. destruct (_ !! _) eqn:E; [|done].
  by apply lookup_replicate in E as [-> _].
Qed.

Lemma get_zeros n i : bitset_get (mk_bitset (replicate n 0)) i = false.
Proof.
  rewrite bitset_get_bit. cbn [bits_data]. unfold bit_of. rewrite nth_lookup.
  destruct (_ !! _) eqn:E; [apply lookup_replicate in E as [-> _]|]; apply Z.bits_0.
Qed.

Lemma ok_zeros n m : m = ((n + 7) / 8)%nat -> buckets_ok n (replicate n []) (mk_bitset (replicate m 0)).
Proof.
  intros ->. split; [apply length_replicate|apply length_replicate|].
  intros i. by rewrite get_zeros, bucket_at_replicate.
Qed.

Lemma create_bits n : (0 < n)%nat -> bitset_create ((n + 7) / 8) = mk_bitset (replicate ((n + 7) / 8) 0).
Proof.
  intros Hn. unfold bitset_create. destruct (Nat.eqb_spec ((n + 7) / 8) 0) as [E|]; [|done].
  pose proof (byte_in_range n 0 Hn). rewrite E in *. lia.
Qed.

Lemma ok_empty n : (0 < n)%nat -> buckets_ok n (replicate n []) (bitset_create ((n + 7) / 8)).
Proof. intros Hn. rewrite create_bits by done. by apply ok_zeros. Qed.

Lemma fold_ok {A} (P : list bucket * bitset_t -> Prop) (f : list bucket * bitset_t -> A -> list bucket * bitset_t)
    (Q : A -> Prop) l acc :
  P acc -> (forall acc x, P acc -> Q x -> P (f acc x)) -> Forall Q l -> P (fold_left f l acc).
Proof. intros H0 Hf Hl. revert acc H0. induction Hl; simpl; auto. Qed.

(** Redistribution into [n] buckets keeps the invariant when every target is
    in range. *)
Lemma redistribute_all_ok entry ebf n :
  (0 < n)%nat ->
  (forall index acc f, (index < ebf_bucket_count ebf)%nat ->
     exists new_idx new_fp, (new_idx < n)%nat /\ entry index acc f = redistribute acc new_idx new_fp) ->
  let new := redistribute_all entry ebf n in buckets_ok n new.1 new.2.
Proof.
  intros Hn He. unfold redistribute_all.
  apply (fold_ok (fun new => buckets_ok n new.1 new.2) _ (fun index => (index < ebf_bucket_count ebf)%nat)).
  - by apply ok_empty.
  - intros acc index Hacc Hi. apply (fold_ok (fun new => buckets_ok n new.1 new.2) _ (fun _ => True));
      [done| |by apply Forall_true].
    clear acc Hacc. intros [buckets bits] f Hacc _.
    destruct (He index (buckets, bits) f Hi) as (idx & fp & Hidx & ->). by apply ok_write.
  - apply Forall_forall. intros x Hx%elem_of_seq. lia.
Qed.

Lemma expand_wf ebf : ebf_wf ebf -> ebf_wf (elastic_bloom_filter_expand ebf).
Proof.
  intros [H1 H2 H3]. unfold elastic_bloom_filter_expand. split; simpl; [lia|done|].
  apply redistribute_all_ok; [lia|]. intros index acc f Hi. eexists _, _. split; [|done].
  assert (Z.land f 1 = f mod 2) as -> by exact (Z.land_ones f 1 ltac:(lia)).
  pose proof (Z.mod_pos_bound f 2). lia.
Qed.

Lemma compress_wf ebf : ebf_wf ebf -> ebf_wf (elastic_bloom_filter_compress ebf).1.
Proof.
  intros [H1 H2 H3]. unfold elastic_bloom_filter_compress.
  destruct (Nat.leb_spec (ebf_bucket_count ebf) 16) as [|Hn]; [by split|].
  set (n := (ebf_bucket_count ebf / 2)%nat). assert (0 < n)%nat as Hpos.
  { subst n. apply Nat.div_str_pos. lia. }
  split; cbn [resized fst snd ebf_bucket_count ebf_size ebf_buckets ebf_bits]; [done|done|].
  apply redistribute_all_ok; [done|]. intros index acc f _. eexists _, _. split; [|done].
  apply Nat.mod_upper_bound. lia.
Qed.

Lemma wf_with_buckets ebf buckets bits :
  ebf_wf ebf -> buckets_ok (ebf_bucket_count ebf) buckets bits -> ebf_wf (set_buckets ebf buckets bits).
Proof. intros [H1 H2 H3] H. by split. Qed.

Lemma wf_with_count ebf count : ebf_wf ebf -> ebf_wf (set_count ebf count).
Proof. intros [H1 H2 H3]. by split. Qed.

Lemma bucket_contains_In b f : bucket_contains b f = true <-> In f b.
Proof.
  induction b as [|x b IH]; simpl; [done|]. destruct (Z.eqb_spec x f) as [->|]; [by intuition|].
  rewrite IH. intuition.
Qed.

Lemma bucket_remove_spec b f :
  let '(b', removed) := bucket_remove b f in
  removed = bucket_contains b f /\
  (removed = false -> b' = b) /\
  (forall g, g <> f -> bucket_contains b' g = bucket_contains b g).
Proof.
  induction b as [|x b IH]; simpl; [done|]. destruct (Z.eqb_spec x f) as [->|Hx].
  - split_and!; [done..|]. intros g Hg. by rewrite (proj2 (Z.eqb_neq f g)) by congruence.
  - destruct (bucket_remove b f) as [b' removed]. destruct IH as (H1 & H2 & H3).
    split_and!; [done|intros E; by rewrite H2|]. intros g Hg. simpl. by rewrite H3.
Qed.

Section HashPairs.
Context `{Xxh3}.

Lemma hash_pair_range ebf data index :
  ebf_wf ebf -> ((compute_hash_pair ebf data index).2 < ebf_bucket_count ebf)%nat.
Proof.
  intros Hwf. pose proof (ew_count ebf Hwf). unfold compute_hash_pair. cbn [snd].
  pose proof (Z.mod_pos_bound (XXH3_64bits_withSeed data
    (u64 (ebf_seed_a ebf + Z.of_nat index * ebf_seed_b ebf))) (Z.of_nat (ebf_bucket_count ebf))). lia.
Qed.

Lemma hash_pairs_range ebf data :
  ebf_wf ebf ->
  Forall (fun h : Z * nat => (h.2 < ebf_bucket_count ebf)%nat)
    (map (compute_hash_pair ebf data) (hash_indices ebf)).
Proof.
  intros Hwf. apply Forall_forall. intros h Hh. apply list_elem_of_In, in_map_iff in Hh as (k & <- & _).
  by apply hash_pair_range.
Qed.

Lemma add_hashes_ok n l buckets bits was_new :
  buckets_ok n buckets bits -> Forall (fun h : Z * nat => (h.2 < n)%nat) l ->
  let '(buckets', bits', was_new') := fold_left add_hash l (buckets, bits, was_new) in
  buckets_ok n buckets' bits' /\
  (forall i f, bucket_contains (bucket_at buckets i) f = true ->
     bucket_contains (bucket_at buckets' i) f = true) /\
  (forall h, In h l -> bucket_contains (bucket_at buckets' h.2) h.1 = true) /\
  was_new' = was_new || existsb (fun h => negb (bucket_contains (bucket_at buckets h.2) h.1)) l.
Proof.
  intros Hok Hl. revert buckets bits was_new Hok.
  induction Hl as [|[f i] l Hi Hl IH]; intros buckets bits was_new Hok.
  { simpl. split_and!; try done. by rewrite orb_false_r. }
  cbn [fold_left add_hash existsb fst snd] in *.
  destruct (bucket_contains (bucket_at buckets i) f) eqn:E.
  - specialize (IH buckets bits was_new Hok). destruct (fold_left _ _ _) as [[buckets' bits'] new'].
    destruct IH as (H1 & H2 & H3 & H4). split_and!; [done..| |done].
    intros h [<-|Hh]; [by apply H2|by apply H3].
  - specialize (IH _ _ true (ok_write n buckets bits i (bucket_insert (bucket_at buckets i) f) true Hok Hi eq_refl)).
    destruct (fold_left _ _ _) as [[buckets' bits'] new']. destruct IH as (H1 & H2 & H3 & H4).
    assert (i < length buckets)%nat as Hlen by (rewrite (ok_length _ _ _ Hok); done).
    split_and!; [done| | |by rewrite H4, orb_true_r].
    + intros j g Hg. apply H2. rewrite bucket_at_insert by done.
      destruct (Nat.eqb_spec j i) as [->|]; [|done]. simpl. destruct (f =? g); done.
    + intros h [<-|Hh]; [|by apply H3]. apply H2. rewrite bucket_at_insert, Nat.eqb_refl by done.
      simpl. by rewrite Z.eqb_refl.
Qed.

Lemma remove_hashes_ok n l buckets bits removed :
  buckets_ok n buckets bits -> Forall (fun h : Z * nat => (h.2 < n)%nat) l ->
  let '(buckets', bits', removed') := fold_left remove_hash l (buckets, bits, removed) in
  buckets_ok n buckets' bits' /\
  (forall i f, ~ In (f, i) l ->
     bucket_contains (bucket_at buckets' i) f = bucket_contains (bucket_at buckets i) f).
Proof.
  intros Hok Hl. revert buckets bits removed Hok.
  induction Hl as [|[f i] l Hi Hl IH]; intros buckets bits removed Hok; [done|].
  cbn [fold_left remove_hash snd] in *.
  pose proof (bucket_remove_spec (bucket_at buckets i) f) as Hr.
  destruct (bucket_remove (bucket_at buckets i) f) as [rest er]. destruct Hr as (Her & Hsame & Hother).
  assert (i < length buckets)%nat as Hlen by (rewrite (ok_length _ _ _ Hok); done).
  assert (forall bits' removed',
    (buckets_ok n (<[i := rest]> buckets) bits') ->
    let '(b2, bits2, r2) := fold_left remove_hash l (<[i := rest]> buckets, bits', removed') in
    buckets_ok n b2 bits2 /\ (forall j g, ~ In (g, j) ((f, i) :: l) ->
     bucket_contains (bucket_at b2 j) g = bucket_contains (bucket_at buckets j) g)) as Hstep.
  { intros bits' removed' Hok'. specialize (IH _ bits' removed' Hok').
    destruct (fold_left _ _ _) as [[b2 bits2] r2]. destruct IH as [H1 H2]. split; [done|].
    intros j g Hj. simpl in Hj. rewrite H2 by tauto. rewrite bucket_at_insert by done.
    destruct (Nat.eqb_spec j i) as [->|]; [|done]. apply Hother. intros ->. tauto. }
  destruct er.
  - destruct (bucket_is_empty rest) eqn:Ee; apply Hstep.
    + apply ok_write; [done..|]. by rewrite Ee.
    + apply ok_keep; [done..|]. rewrite Ee. by destruct (bucket_at buckets i).
  - apply Hstep. rewrite Hsame by done. by apply ok_keep.
Qed.
End HashPairs.

Section OperationFacts.
Context `{Xxh3}.

(** The insertion loop. *)
Lemma insert_hashes_spec ebf data :
  ebf_wf ebf ->
  let '(ebf', was_new) := insert_hashes ebf data in
  ebf_wf ebf' /\ (exists buckets bits, ebf' = set_buckets ebf buckets bits) /\
  (forall i f, bucket_contains (bucket_at (ebf_buckets ebf) i) f = true ->
     bucket_contains (bucket_at (ebf_buckets ebf') i) f = true) /\
  (forall k, In k (hash_indices ebf) ->
     let '(f, i) := compute_hash_pair ebf data k in
     bucket_contains (bucket_at (ebf_buckets ebf') i) f = true).
Proof.
  intros Hwf. unfold insert_hashes.
  pose proof (add_hashes_ok _ _ _ _ false (ew_buckets ebf Hwf) (hash_pairs_range ebf data Hwf)) as Hf.
  destruct (fold_left _ _ _) as [[buckets bits] was_new]. destruct Hf as (H1 & H2 & H3 & _).
  split_and!; [by apply wf_with_buckets|eauto|done|].
  intros k Hk. specialize (H3 (compute_hash_pair ebf data k)).
  destruct (compute_hash_pair ebf data k) as [f i] eqn:E. apply H3.
  rewrite <- E. by apply in_map.
Qed.

Lemma holds_hash_wf ebf f i :
  ebf_wf ebf -> holds_hash ebf (f, i) = bucket_contains (bucket_at (ebf_buckets ebf) i) f.
Proof.
  intros Hwf. unfold holds_hash. rewrite (ok_mirror _ _ _ (ew_buckets ebf Hwf)).
  by destruct (bucket_at (ebf_buckets ebf) i).
Qed.

(** What a filter with the same parameters and more fingerprints contains. *)
Lemma contains_mono ebf ebf' data :
  ebf_wf ebf -> ebf_wf ebf' -> ebf_bucket_count ebf' = ebf_bucket_count ebf ->
  ebf_hash_count ebf' = ebf_hash_count ebf -> ebf_fp_bits ebf' = ebf_fp_bits ebf ->
  ebf_seed_a ebf' = ebf_seed_a ebf -> ebf_seed_b ebf' = ebf_seed_b ebf ->
  (forall i f, bucket_contains (bucket_at (ebf_buckets ebf) i) f = true ->
     bucket_contains (bucket_at (ebf_buckets ebf') i) f = true) ->
  elastic_bloom_filter_contains ebf data = true -> elastic_bloom_filter_contains ebf' data = true.
Proof.
  intros Hwf Hwf' E1 E2 E3 E4 E5 Hsub. unfold elastic_bloom_filter_contains, hash_indices.
  rewrite E2, !forallb_forall. intros Hc k Hk. specialize (Hc k Hk).
  assert (compute_hash_pair ebf' data k = compute_hash_pair ebf data k) as ->
    by (unfold compute_hash_pair; by rewrite E1, E3, E4, E5).
  destruct (compute_hash_pair ebf data k) as [f i].
  rewrite holds_hash_wf in * by done. auto.
Qed.

Lemma insert_hashes_contains ebf data data' :
  ebf_wf ebf -> data' = data \/ elastic_bloom_filter_contains ebf data' = true ->
  elastic_bloom_filter_contains (insert_hashes ebf data).1 data' = true.
Proof.
  intros Hwf Hor. pose proof (insert_hashes_spec ebf data Hwf) as Hs.
  destruct (insert_hashes ebf data) as [ebf' was_new]. destruct Hs as (Hwf' & (bk & bt & ->) & Hmono & Hnew). cbn [fst].
  destruct Hor as [->|Hc]; [|by apply (contains_mono ebf)].
  unfold elastic_bloom_filter_contains. apply forallb_forall. intros k Hk.
  change (compute_hash_pair (set_buckets ebf bk bt) data k) with (compute_hash_pair ebf data k).
  specialize (Hnew k Hk). destruct (compute_hash_pair ebf data k) as [f i]. by rewrite holds_hash_wf.
Qed.

(** [elastic_bloom_filter_add] is the insertion loop, a count, and growth when
    the load factor is exceeded. *)
Lemma add_cases ebf data :
  ebf_wf ebf ->
  let ebf' := (elastic_bloom_filter_add ebf data).1 in
  let inserted := (insert_hashes ebf data).1 in
  ebf_wf ebf' /\
  (ebf_bucket_count ebf' = ebf_bucket_count ebf /\ (exists c, ebf' = set_count inserted c) \/
   ebf_bucket_count ebf' = (ebf_bucket_count ebf * 2)%nat).
Proof.
  intros Hwf. unfold elastic_bloom_filter_add. pose proof (insert_hashes_spec ebf data Hwf) as Hs.
  destruct (insert_hashes ebf data) as [e was_new]. destruct Hs as (Hwf' & (bk & bt & ->) & _).
  cbn [fst].
  destruct was_new; [destruct (SFltb _ _)|]; cbn [fst].
  - split; [by apply expand_wf, wf_with_count|]. by right.
  - split; [by apply wf_with_count|]. left. eauto.
  - split; [done|]. left. split; [done|]. by exists (ebf_count ebf).
Qed.

Lemma remove_wf ebf data : ebf_wf ebf -> ebf_wf (elastic_bloom_filter_remove ebf data).1.
Proof.
  intros Hwf. unfold elastic_bloom_filter_remove, remove_hashes.
  pose proof (remove_hashes_ok _ _ _ _ false (ew_buckets ebf Hwf) (hash_pairs_range ebf data Hwf)) as Hf.
  destruct (fold_left _ _ _) as [[buckets bits] removed]. destruct Hf as [Hok _].
  pose proof (wf_with_buckets ebf _ _ Hwf Hok) as Hw.
  destruct removed; [destruct (_ && _)|]; cbn [fst]; [|by apply wf_with_count|done].
  by apply compress_wf, wf_with_count.
Qed.
End OperationFacts.

Lemma create_wf size hash_count omega fp_bits :
  ebf_wf (elastic_bloom_filter_create size hash_count omega fp_bits).
Proof.
  unfold elastic_bloom_filter_create.
  assert (0 < (if (size =? 0)%nat then 256 else size))%nat as Hn by (bool_cases; lia).
  split; [done|done|]. by apply ok_empty.
Qed.

(** ** Merge *)

Lemma merge_bucket_contains dest src f :
  bucket_contains (merge_bucket dest src) f = bucket_contains dest f || bucket_contains src f.
Proof.
  unfold merge_bucket. revert dest. induction src as [|g src IH]; intros dest; simpl.
  { by rewrite orb_false_r. }
  rewrite IH. destruct (bucket_contains dest g) eqn:E; simpl.
  - destruct (Z.eqb_spec g f) as [->|]; [by rewrite E|done].
  - destruct (Z.eqb_spec g f); [by rewrite orb_true_r|done].
Qed.

Lemma merge_bucket_empty dest src :
  bucket_is_empty (merge_bucket dest src) = bucket_is_empty dest && bucket_is_empty src.
Proof.
  unfold merge_bucket. revert dest. induction src as [|g src IH]; intros dest; simpl.
  { by rewrite andb_true_r. }
  rewrite IH, andb_false_r. destruct (bucket_contains dest g) eqn:E; [|done]. by destruct dest.
Qed.

Lemma merge_buckets_at (src : list bucket) n buckets i :
  (n <= length buckets)%nat ->
  bucket_at (fold_left (fun buckets index =>
    <[index := merge_bucket (bucket_at buckets index) (bucket_at src index)]> buckets) (seq 0 n) buckets) i =
  (if (i <? n)%nat then merge_bucket (bucket_at buckets i) (bucket_at src i) else bucket_at buckets i) /\
  length (fold_left (fun buckets index =>
    <[index := merge_bucket (bucket_at buckets index) (bucket_at src index)]> buckets) (seq 0 n) buckets) =
  length buckets.
Proof.
  revert i. induction n as [|n IH]; intros i Hn; [done|].
  rewrite seq_S, fold_left_app. cbn [fold_left Nat.add].
  set (prev := fold_left _ (seq 0 n) buckets) in *.
  destruct (IH n ltac:(lia)) as [Hn' Hlen]. rewrite Nat.ltb_irrefl in Hn'.
  split; [|by rewrite length_insert]. rewrite bucket_at_insert, Hn' by lia.
  destruct (IH i ltac:(lia)) as [-> _]. bool_cases; try lia; subst; done.
Qed.

Lemma merge_bits_get dest src i :
  bitset_size dest = bitset_size src ->
  bitset_get (merge_bits dest src) i = bitset_get dest i || bitset_get src i.
Proof.
  intros Hs. rewrite !bitset_get_bit. unfold bit_of, merge_bits. cbn [bits_data].
  rewrite <- Z.lor_spec. f_equal. rewrite <- Hs. unfold bitset_size in *.
  destruct (Nat.lt_ge_cases (i / 8) (length (bits_data dest))) as [Hi|Hi].
  - rewrite nth_lookup, list_lookup_fmap, lookup_seq_lt by done.
    cbn [fmap option_fmap option_map from_option id Nat.add].
    by rewrite (proj2 (Nat.ltb_lt _ _) Hi).
  - rewrite !nth_overflow; [done|lia|lia|]. rewrite length_map, length_seq. lia.
Qed.

Lemma merge_ok n dest src dbits sbits :
  buckets_ok n dest dbits -> buckets_ok n src sbits ->
  let merged := fold_left (fun buckets index =>
    <[index := merge_bucket (bucket_at buckets index) (bucket_at src index)]> buckets) (seq 0 n) dest in
  buckets_ok n merged (merge_bits dbits sbits) /\
  forall i f, bucket_contains (bucket_at merged i) f =
    bucket_contains (bucket_at dest i) f || bucket_contains (bucket_at src i) f.
Proof.
  intros [D1 D2 D3] [S1 S2 S3] merged.
  assert (forall i, bucket_at merged i = merge_bucket (bucket_at dest i) (bucket_at src i)) as Hat.
  { intros i. subst merged. destruct (merge_buckets_at src n dest i) as [-> _]; [lia|].
    destruct (Nat.ltb_spec i n); [done|]. unfold bucket_at. by rewrite !nth_overflow by lia. }
  split; [split|].
  - subst merged. destruct (merge_buckets_at src n dest 0) as [_ ->]; [lia|done].
  - unfold merge_bits, bitset_size. cbn [bits_data]. by rewrite length_map, length_seq.
  - intros i. rewrite merge_bits_get, D3, S3, Hat, merge_bucket_empty by congruence.
    by rewrite negb_andb.
  - intros i f. by rewrite Hat, merge_bucket_contains.
Qed.

Lemma merge_wf dest src :
  ebf_wf dest -> ebf_wf src -> ebf_wf (elastic_bloom_filter_merge dest src).1.
Proof.
  intros Hd Hs. unfold elastic_bloom_filter_merge.
  destruct (Nat.eqb_spec (ebf_bucket_count dest) (ebf_bucket_count src)) as [E|]; [|done].
  cbn [negb fst]. apply wf_with_buckets; [done|]. pose proof (ew_buckets src Hs) as Hb. rewrite <- E in *.
  by apply merge_ok; [apply ew_buckets|].
Qed.

Lemma bucket_insert_wf ebf i f : ebf_wf ebf -> ebf_wf (elastic_bloom_filter_bucket_insert ebf i f).1.
Proof.
  intros Hwf. unfold elastic_bloom_filter_bucket_insert.
  destruct (Nat.leb_spec (ebf_bucket_count ebf) i); [done|].
  pose proof (add_hashes_ok (ebf_bucket_count ebf) [(f, i)] _ _ false (ew_buckets ebf Hwf)) as Hf.
  cbn [fold_left] in Hf. destruct (add_hash _ _) as [[buckets bits] was_new].
  apply wf_with_buckets; [done|]. by apply Hf; repeat constructor.
Qed.

(** The parameters two filters must share to be merged. *)
Definition same_parameters (a b : elastic_bloom_filter_t) : Prop :=
  ebf_bucket_count a = ebf_bucket_count b /\ ebf_hash_count a = ebf_hash_count b /\
  ebf_fp_bits a = ebf_fp_bits b /\ ebf_seed_a a = ebf_seed_a b /\ ebf_seed_b a = ebf_seed_b b.

Lemma merge_contains `{Xxh3} d s data :
  ebf_wf d -> ebf_wf s -> same_parameters d s ->
  elastic_bloom_filter_contains d data = true \/ elastic_bloom_filter_contains s data = true ->
  let '(merged, rc) := elastic_bloom_filter_merge d s in
  rc = 0 /\ elastic_bloom_filter_contains merged data = true.
Proof.
  intros Hd Hs (E1 & E2 & E3 & E4 & E5) Hor. pose proof (merge_wf d s Hd Hs) as Hm.
  pose proof (ew_buckets s Hs) as Hsb. rewrite <- E1 in Hsb.
  pose proof (merge_ok _ _ _ _ _ (ew_buckets d Hd) Hsb) as [_ Hu]. rewrite E1 in Hu.
  unfold elastic_bloom_filter_merge in *. rewrite (proj2 (Nat.eqb_eq _ _) E1) in *. cbn [negb fst] in *.
  split; [done|]. destruct Hor as [Hc|Hc]; [apply (contains_mono d)|apply (contains_mono s)]; try done;
    intros i f Hf; cbn [set_buckets ebf_buckets]; rewrite Hu, Hf; [done|by rewrite orb_true_r].
Qed.

(** ** Decoding *)

Section DecodeFacts.
Context `{CborLaws}.

Lemma rebuild_fold buckets l bits :
  (forall i, bitset_get (fold_left (fun bits index =>
     if negb (bucket_is_empty (bucket_at buckets index)) then (bitset_set bits index true).1 else bits)
     l bits) i =
   bitset_get bits i || (existsb (Nat.eqb i) l && negb (bucket_is_empty (bucket_at buckets i)))) /\
  (Forall (fun i => i / 8 < bitset_size bits)%nat l ->
   bitset_size (fold_left (fun bits index =>
     if negb (bucket_is_empty (bucket_at buckets index)) then (bitset_set bits index true).1 else bits)
     l bits) = bitset_size bits).
Proof.
  revert bits. induction l as [|k l IH]; intros bits; cbn [fold_left existsb].
  { split; [intros i; by rewrite orb_false_r|done]. }
  destruct (bucket_is_empty (bucket_at buckets k)) eqn:Ek; cbn [negb].
  - destruct (IH bits) as [H1 H2]. split; [|intros [_ Hl]%Forall_cons; by apply H2].
    intros i. rewrite H1. destruct (Nat.eqb_spec i k) as [->|]; [|done].
    rewrite Ek. by rewrite !andb_false_r.
  - pose proof (bitset_set_spec bits k true) as Hs.
    destruct (bitset_set bits k true) as [bits' old]. destruct Hs as (_ & Hget & _ & Hsize). cbn [fst].
    destruct (IH bits') as [H1 H2]. split.
    + intros i. rewrite H1, Hget. destruct (Nat.eqb_spec i k) as [->|]; [|done].
      by rewrite Ek, orb_true_r.
    + intros [Hk Hl]%Forall_cons. rewrite H2; [by apply Hsize|]. by rewrite Hsize.
Qed.

(** Rebuilding the bits establishes the invariant. *)
Lemma rebuild_wf ebf :
  (0 < ebf_bucket_count ebf)%nat -> ebf_size ebf = ebf_bucket_count ebf ->
  length (ebf_buckets ebf) = ebf_bucket_count ebf ->
  bitset_size (ebf_bits ebf) = ((ebf_bucket_count ebf + 7) / 8)%nat -> ebf_wf (rebuild_bitset ebf).
Proof.
  intros H1 H2 H3 H4. split; [done|done|].
  cbn [rebuild_bitset set_buckets ebf_bucket_count ebf_buckets ebf_bits].
  destruct (rebuild_fold (ebf_buckets ebf) (seq 0 (ebf_bucket_count ebf))
    (mk_bitset (replicate (bitset_size (ebf_bits ebf)) 0))) as [Hget Hsize].
  split; [done| |].
  - rewrite Hsize; [by rewrite <- H4; unfold bitset_size; cbn [bits_data]; rewrite length_replicate|].
    apply Forall_forall. intros i Hi%elem_of_seq. unfold bitset_size at 1. cbn [bits_data].
    rewrite length_replicate, H4. apply byte_in_range. lia.
  - intros i. rewrite Hget, get_zeros. cbn [orb].
    destruct (Nat.lt_ge_cases i (ebf_bucket_count ebf)) as [Hi|Hi].
    + assert (existsb (Nat.eqb i) (seq 0 (ebf_bucket_count ebf)) = true) as ->; [|done].
      apply existsb_exists. exists i. split; [apply in_seq; lia|apply Nat.eqb_refl].
    + unfold bucket_at. rewrite nth_overflow by lia. by rewrite andb_false_r.
Qed.

Lemma decode_bucket_length n buckets item :
  length (decode_bucket n buckets item) = length buckets.
Proof.
  unfold decode_bucket. destruct (_ || _); [done|].
  destruct (cbor_array_items item) as [|idx [|cnt fps]]; [done..|].
  destruct (_ <=? _); [done|]. apply length_insert.
Qed.

Lemma decode_wf item ebf : elastic_bloom_filter_decode item = Some ebf -> ebf_wf ebf.
Proof.
  unfold elastic_bloom_filter_decode. destruct (negb (cbor_isa_array item)); [done|].
  destruct (cbor_array_items item) as [|size_item [|hc [|fb [|sa [|sb [|bits_item [|no items]]]]]]]; try done.
  destruct (negb (cbor_isa_bytestring bits_item)); [done|].
  pose proof (get_int_range size_item) as Hr. set (size := cbor_get_int size_item) in *.
  destruct (Z.eqb_spec size 0) as [|Hs0]; [done|].
  destruct (EBF_DECODE_MAX_BUCKETS <? size); [done|].
  destruct (cbor_get_uint32 hc =? 0); [done|]. destruct (EBF_DECODE_MAX_HASH_COUNT <? _); [done|].
  destruct (cbor_get_uint32 fb =? 0); [done|]. destruct (EBF_DECODE_MAX_FP_BITS <? _); [done|].
  destruct (Z.eqb_spec (Z.of_nat (cbor_bytestring_length bits_item)) ((size + 7) / 8)) as [Hl|]; [|done].
  cbn [orb negb]. intros [= <-]. unfold is_u64 in Hr. apply rebuild_wf; cbn [ebf_bucket_count ebf_size ebf_buckets ebf_bits].
  - lia.
  - done.
  - assert (forall l acc, length (fold_left (decode_bucket (Z.to_nat size)) l acc) = length acc) as Hfold.
    { induction l as [|x l IH]; intros acc; simpl; [done|]. by rewrite IH, decode_bucket_length. }
    rewrite Hfold. apply length_replicate.
  - unfold bitset_size. cbn [bits_data]. unfold cbor_bytestring_length in Hl.
    apply Nat2Z.inj. rewrite Hl, Nat2Z.inj_div, Nat2Z.inj_add, Z2Nat.id by lia. done.
Qed.
End DecodeFacts.

(** ** Round trip *)

(** What the encoder may be given: the decoder's bounds and 32-bit fields. *)
Record ebf_encodable (ebf : elastic_bloom_filter_t) : Prop := {
  ee_buckets : Z.of_nat (ebf_bucket_count ebf) <= EBF_DECODE_MAX_BUCKETS;
  ee_hash_count : 0 < ebf_hash_count ebf <= EBF_DECODE_MAX_HASH_COUNT;
  ee_fp_bits : 0 < ebf_fp_bits ebf <= EBF_DECODE_MAX_FP_BITS;
  ee_seed_a : is_u64 (ebf_seed_a ebf);
  ee_seed_b : is_u64 (ebf_seed_b ebf);
  ee_bucket : forall i, Forall is_u32 (bucket_at (ebf_buckets ebf) i) /\
    is_u32 (Z.of_nat (length (bucket_at (ebf_buckets ebf) i)))
}.

Section RoundTrip.
Context `{CborLaws}.

Lemma decode_fingerprints fps b :
  Forall is_u32 fps ->
  fold_left (fun b fp_item => bucket_insert b (cbor_get_uint32 fp_item)) (map cbor_build_uint32 fps) b =
  rev fps ++ b.
Proof.
  intros Hf. revert b. induction Hf as [|f fps Hf Hfps IH]; intros b; [done|].
  cbn [map fold_left rev]. rewrite IH, <- app_assoc. cbor_simp. done.
Qed.

Lemma decode_encoded_bucket ebf n buckets i :
  ebf_encodable ebf -> Z.of_nat n <= EBF_DECODE_MAX_BUCKETS -> (i < n)%nat ->
  decode_bucket n buckets (encode_bucket ebf i) =
    <[i := rev (bucket_at (ebf_buckets ebf) i) ++ bucket_at buckets i]> buckets.
Proof.
  intros He Hn Hi. destruct (ee_bucket ebf He i) as [Hf Hl].
  unfold decode_bucket, encode_bucket, EBF_DECODE_MAX_BUCKETS in *. cbor_simp. cbn [length Nat.ltb Nat.leb].
  rewrite bool_decide_true by done. cbn [negb orb].
  destruct (Z.leb_spec (Z.of_nat n) (Z.of_nat i)); [lia|]. rewrite Nat2Z.id.
  rewrite u32_small by done. rewrite get_uint_build by (cbn [width_bits]; unfold is_u32 in Hl; lia).
  rewrite Nat2Z.id, take_ge by (by rewrite length_map).
  f_equal. by apply decode_fingerprints.
Qed.

Lemma decode_encoded_buckets ebf n l buckets i :
  ebf_encodable ebf -> Z.of_nat n <= EBF_DECODE_MAX_BUCKETS -> length buckets = n ->
  NoDup l -> Forall (fun k => k < n)%nat l ->
  bucket_at (fold_left (decode_bucket n) (map (encode_bucket ebf) l) buckets) i =
    if existsb (Nat.eqb i) l then rev (bucket_at (ebf_buckets ebf) i) ++ bucket_at buckets i
    else bucket_at buckets i.
Proof.
  intros He Hn Hlen Hnd Hl. revert buckets Hlen Hnd.
  induction Hl as [|k l Hk Hl IH]; intros buckets Hlen Hnd; [done|].
  apply NoDup_cons in Hnd as [Hnk Hnd]. cbn [map fold_left existsb].
  rewrite decode_encoded_bucket by done. rewrite IH by (rewrite ?length_insert; done).
  rewrite bucket_at_insert by lia. destruct (Nat.eqb_spec i k) as [->|]; [|done].
  cbn [orb]. destruct (existsb (Nat.eqb k) l) eqn:E; [|done].
  apply existsb_exists in E as (x & Hx & ->%Nat.eqb_eq). by apply list_elem_of_In in Hx.
Qed.

Lemma decode_encode ebf :
  ebf_wf ebf -> ebf_encodable ebf ->
  exists ebf', elastic_bloom_filter_decode (elastic_bloom_filter_encode ebf) = Some ebf' /\
  ebf_bucket_count ebf' = ebf_bucket_count ebf /\ ebf_hash_count ebf' = ebf_hash_count ebf /\
  ebf_fp_bits ebf' = ebf_fp_bits ebf /\ ebf_seed_a ebf' = ebf_seed_a ebf /\
  ebf_seed_b ebf' = ebf_seed_b ebf /\ ebf_count ebf' = 0 /\ ebf_omega ebf' = f32_three_quarters /\
  forall i, bucket_at (ebf_buckets ebf') i = rev (bucket_at (ebf_buckets ebf) i).
Proof.
  intros Hwf He. pose proof (ew_size ebf Hwf) as Hsize. pose proof (ew_count ebf Hwf) as Hpos.
  pose proof (ee_buckets ebf He) as Hb. pose proof (ee_hash_count ebf He) as Hh.
  pose proof (ee_fp_bits ebf He) as Hfp. pose proof (ee_seed_a ebf He). pose proof (ee_seed_b ebf He).
  unfold EBF_DECODE_MAX_BUCKETS, EBF_DECODE_MAX_HASH_COUNT, EBF_DECODE_MAX_FP_BITS in *.
  unfold elastic_bloom_filter_encode, elastic_bloom_filter_decode. cbor_simp.
  rewrite bool_decide_true by done. cbn [app negb]. cbor_simp.
  rewrite bool_decide_true by done. cbn [negb].
  rewrite Hsize. unfold EBF_DECODE_MAX_BUCKETS, EBF_DECODE_MAX_HASH_COUNT, EBF_DECODE_MAX_FP_BITS.
  pose proof (ok_bits_size _ _ _ (ew_buckets ebf Hwf)) as Hbits. unfold bitset_size in Hbits.
  rewrite (proj2 (Z.eqb_neq _ 0)), (proj2 (Z.ltb_ge _ _)), (proj2 (Z.eqb_neq (ebf_hash_count ebf) 0)),
    (proj2 (Z.ltb_ge _ (ebf_hash_count ebf))), (proj2 (Z.eqb_neq (ebf_fp_bits ebf) 0)),
    (proj2 (Z.ltb_ge _ (ebf_fp_bits ebf))) by lia.
  assert ((Z.of_nat (length (bits_data (ebf_bits ebf))) =? (Z.of_nat (ebf_bucket_count ebf) + 7) / 8) = true) as ->.
  { apply Z.eqb_eq. rewrite Hbits, Nat2Z.inj_div, Nat2Z.inj_add. done. }
  cbn [orb negb]. eexists. split; [done|]. split_and!; try done; [apply Nat2Z.id|].
  intros i. cbn [rebuild_bitset set_buckets ebf_buckets]. rewrite Nat2Z.id.
  rewrite decode_encoded_buckets; [|done|done|apply length_replicate|by apply NoDup_ListNoDup, List.NoDup_filter, seq_NoDup|].
  - rewrite bucket_at_replicate, app_nil_r. destruct (existsb _ _) eqn:E; [done|].
    apply not_true_iff_false in E. rewrite existsb_exists in E.
    destruct (bucket_at (ebf_buckets ebf) i) as [|f b] eqn:Eb; [done|]. destruct E. exists i.
    split; [|apply Nat.eqb_refl]. unfold occupied_indices. apply filter_In. rewrite Eb. split; [|done].
    apply in_seq. split; [lia|]. destruct (Nat.lt_ge_cases i (ebf_bucket_count ebf)); [done|].
    unfold bucket_at in Eb. rewrite nth_overflow in Eb; [done|].
    rewrite (ok_length _ _ _ (ew_buckets ebf Hwf)). done.
  - apply Forall_forall. intros k Hk. apply list_elem_of_In, filter_In in Hk as [Hk _].
    apply in_seq in Hk. lia.
Qed.
End RoundTrip.

Lemma decode_encode_contains `{Xxh3} `{CborLaws} (ebf : elastic_bloom_filter_t) (data : bytes) :
  ebf_wf ebf -> ebf_encodable ebf ->
  exists ebf', elastic_bloom_filter_decode (elastic_bloom_filter_encode ebf) = Some ebf' /\ ebf_wf ebf' /\
    (forall i, bucket_at (ebf_buckets ebf') i = rev (bucket_at (ebf_buckets ebf) i)) /\
    elastic_bloom_filter_contains ebf' data = elastic_bloom_filter_contains ebf data.
Proof.
  intros Hwf He. destruct (decode_encode ebf Hwf He) as (ebf' & Hd & E1 & E2 & E3 & E4 & E5 & _ & _ & Hb).
  exists ebf'. pose proof (decode_wf _ _ Hd) as Hwf'. split_and!; [done..|].
  apply eq_true_iff_eq. split; apply contains_mono; try done; intros i f;
    rewrite Hb, !bucket_contains_In, <- in_rev; done.
Qed.

(** ** Properties *)

(** Every operation keeps the bit set equal to the occupancy of the
    buckets: creation, insertion (with growth), removal (with shrinking),
    expansion, compression, merge, direct insertion, and decoding of any CBOR
    item, trusted or not. *)
Theorem elastic_bloom_invariant `{Xxh3} `{CborLaws} (ebf : elastic_bloom_filter_t) (data : bytes) :
  ebf_wf ebf ->
  ebf_wf (elastic_bloom_filter_add ebf data).1 /\
  ebf_wf (elastic_bloom_filter_remove ebf data).1 /\
  ebf_wf (elastic_bloom_filter_expand ebf) /\
  ebf_wf (elastic_bloom_filter_compress ebf).1 /\
  (forall src, ebf_wf src -> ebf_wf (elastic_bloom_filter_merge ebf src).1) /\
  (forall i f, ebf_wf (elastic_bloom_filter_bucket_insert ebf i f).1) /\
  (forall size hash_count omega fp_bits, ebf_wf (elastic_bloom_filter_create size hash_count omega fp_bits)) /\
  (forall item ebf', elastic_bloom_filter_decode item = Some ebf' -> ebf_wf ebf').
Proof.
  intros Hwf. split_and!.
  - by apply add_cases.
  - by apply remove_wf.
  - by apply expand_wf.
  - by apply compress_wf.
  - intros src Hs. by apply merge_wf.
  - intros i f. by apply bucket_insert_wf.
  - intros. apply create_wf.
  - apply decode_wf.
Qed.

Lemma elastic_bloom_invariant_witness :
  ebf_wf (elastic_bloom_filter_add (H := toy_xxh3)
            (elastic_bloom_filter_create 4 2 (S754_zero false) 0) [1; 2]).1.
Proof.
  apply (elastic_bloom_invariant (H := toy_xxh3)
    (elastic_bloom_filter_create 4 2 (S754_zero false) 0) [1; 2]). apply create_wf.
Defined.

(** No false negatives until the filter grows: after any sequence of
    additions that did not change the number of buckets, every added item is
    reported as contained, and so is everything contained before. *)
Theorem elastic_no_false_negatives `{Xxh3} (ebf : elastic_bloom_filter_t) (items : list bytes) (data : bytes) :
  ebf_wf ebf ->
  let ebf' := fold_left (fun e d => (elastic_bloom_filter_add e d).1) items ebf in
  ebf_bucket_count ebf' = ebf_bucket_count ebf ->
  data ∈ items \/ elastic_bloom_filter_contains ebf data = true ->
  elastic_bloom_filter_contains ebf' data = true.
Proof.
  intros Hwf ebf'. subst ebf'. revert ebf Hwf.
  assert (forall l ebf, ebf_wf ebf ->
    ebf_bucket_count ebf <= ebf_bucket_count (fold_left (fun e d => (elastic_bloom_filter_add e d).1) l ebf))%nat
    as Hgrow.
  { induction l as [|d l IH]; intros ebf Hwf; simpl; [done|].
    destruct (add_cases ebf d Hwf) as [Hwf' Hc]. specialize (IH _ Hwf').
    destruct Hc as [[E _]|E]; lia. }
  induction items as [|d items IH]; intros ebf Hwf Hn Hor; simpl in *.
  { destruct Hor as [Hin|Hc]; [by apply elem_of_nil in Hin|done]. }
  destruct (add_cases ebf d Hwf) as [Hwf' Hc]. pose proof (Hgrow items _ Hwf') as Hle.
  pose proof (ew_count ebf Hwf). destruct Hc as [[E (c & Ec)]|E]; [|lia].
  apply IH; [done|congruence|]. rewrite elem_of_cons in Hor.
  assert (forall x, x = d \/ elastic_bloom_filter_contains ebf x = true ->
    elastic_bloom_filter_contains (elastic_bloom_filter_add ebf d).1 x = true) as Hx.
  { intros x Hx. rewrite Ec. by apply insert_hashes_contains. }
  destruct Hor as [[->|Hin]|Hc]; [right|by left|right]; apply Hx; auto.
Qed.

Lemma elastic_no_false_negatives_witness :
  elastic_bloom_filter_contains (H := toy_xxh3)
    (fold_left (fun e d => (elastic_bloom_filter_add (H := toy_xxh3) e d).1) [[1]; [2; 7]]
       (elastic_bloom_filter_create 8 2 (S754_zero false) 0)) [1] = true.
Proof.
  apply (elastic_no_false_negatives (H := toy_xxh3)).
  - apply create_wf.
  - vm_compute. reflexivity.
  - left. apply elem_of_cons. by left.
Defined.

(** A merge of two filters with the same parameters contains whatever
    either of them contains, and reports success. *)
Theorem elastic_merge_union `{Xxh3} (dest src : elastic_bloom_filter_t) (data : bytes) :
  ebf_wf dest -> ebf_wf src -> same_parameters dest src ->
  elastic_bloom_filter_contains dest data = true \/ elastic_bloom_filter_contains src data = true ->
  let '(merged, rc) := elastic_bloom_filter_merge dest src in
  rc = 0 /\ elastic_bloom_filter_contains merged data = true.
Proof. apply merge_contains. Qed.

Lemma elastic_merge_union_witness :
  let e := elastic_bloom_filter_create 8 2 (S754_zero false) 0 in
  let src := (elastic_bloom_filter_add (H := toy_xxh3) e [5; 6]).1 in
  let '(merged, rc) := elastic_bloom_filter_merge e src in
  rc = 0 /\ elastic_bloom_filter_contains (H := toy_xxh3) merged [5; 6] = true.
Proof.
  intros e src.
  apply (elastic_merge_union (H := toy_xxh3) e src [5; 6]).
  - apply create_wf.
  - apply (add_cases (H := toy_xxh3)), create_wf.
  - vm_compute. auto.
  - right. vm_compute. reflexivity.
Defined.

(** A filter within the decoder's bounds survives its CBOR encoding as a
    filter: the decoded one is well-formed and contains exactly the same items
    (its buckets hold the same fingerprints in reverse order). *)
Theorem elastic_cbor_roundtrip `{Xxh3} `{CborLaws} (ebf : elastic_bloom_filter_t) (data : bytes) :
  ebf_wf ebf -> ebf_encodable ebf ->
  exists ebf', elastic_bloom_filter_decode (elastic_bloom_filter_encode ebf) = Some ebf' /\ ebf_wf ebf' /\
    (forall i, bucket_at (ebf_buckets ebf') i = rev (bucket_at (ebf_buckets ebf) i)) /\
    elastic_bloom_filter_contains ebf' data = elastic_bloom_filter_contains ebf data.
Proof. apply decode_encode_contains. Qed.

Lemma elastic_cbor_roundtrip_witness :
  let e := (elastic_bloom_filter_add (H := toy_xxh3)
              (elastic_bloom_filter_create 8 2 (S754_zero false) 0) [5; 6]).1 in
  exists e', elastic_bloom_filter_decode (elastic_bloom_filter_encode e) = Some e' /\
    elastic_bloom_filter_contains (H := toy_xxh3) e' [5; 6] = true.
Proof.
  intros e.
  assert (ebf_wf e) as Hwf by (apply (add_cases (H := toy_xxh3)), create_wf).
  assert (ebf_encodable e) as He.
  { split; [vm_compute; congruence|vm_compute; split; congruence..|].
    assert (ebf_buckets e = [[193]; []; []; []; []; []; [192]; []]) as -> by (vm_compute; reflexivity).
    intros i. do 8 (destruct i as [|i]; [repeat constructor; lia|]). destruct i; repeat constructor; lia. }
  destruct (elastic_cbor_roundtrip (H := toy_xxh3) e [5; 6] Hwf He) as (e' & H1 & _ & _ & H2).
  exists e'. split; [exact H1|]. rewrite H2. vm_compute. reflexivity.
Defined.

(** Growth does lose items: expansion sends an entry of bucket [i] to
    bucket [2 * i] or [2 * i + 1], but a lookup in [2 * n] buckets computes
    [hash mod (2 * n)], which is [i] or [i + n].  Adding two items to a filter
    with the default load factor makes it grow, and the second one is then
    reported as absent. *)
Theorem elastic_expand_false_negative :
  let add := elastic_bloom_filter_add (H := toy_xxh3) in
  let e := elastic_bloom_filter_create 2 1 (S754_zero false) 0 in
  let '(e1, new1) := add e [0] in
  let '(e2, new2) := add e1 [1] in
  ebf_bucket_count e2 = 4%nat /\ new2 = true /\
  elastic_bloom_filter_contains (H := toy_xxh3) e2 [1] = false.
Proof. vm_compute. auto. Qed.

