(* ===== verification/AttenuatedBloom.v ===== *)
(** * AttenuatedBloom: one elastic filter per hop distance

    Models src/src/Bloom/attenuated_bloom_filter.c: level 0 holds the local
    subscriptions, level [h] what is reachable in [h] hops.  The theorems show
    that a check reports the smallest matching distance, that merging a
    neighbour's filter makes its topics visible one hop further away and
    leaves the local level alone, and the CBOR round trip. *)

From Stdlib Require Import Floats.SpecFloat.
From S2P Require Import Prelude Cbor Bitset Bloom ElasticBloom.
Local Open Scope Z_scope.

Definition ABF_DECODE_MAX_LEVELS : nat := 256.

(** [abf->level_count] is the length of [abf->levels]. *)
Record attenuated_bloom_filter_t := mk_abf { abf_levels : list elastic_bloom_filter_t }.

Definition attenuated_bloom_filter_level_count (abf : attenuated_bloom_filter_t) : nat :=
  length (abf_levels abf).

Definition attenuated_bloom_filter_create (levels size : nat) (hash_count : Z) (omega : float32) (fp_bits : Z)
  : attenuated_bloom_filter_t :=
  let levels := if (levels =? 0)%nat then 4%nat else levels in
  mk_abf (replicate levels (elastic_bloom_filter_create size hash_count omega fp_bits)).

Definition attenuated_bloom_filter_get_level (abf : attenuated_bloom_filter_t) (level : nat)
  : option elastic_bloom_filter_t :=
  if (length (abf_levels abf) <=? level)%nat then None else abf_levels abf !! level.

Section Operations.
Context `{Xxh3}.

(** [levels[0]] exists in every filter the module creates or decodes. *)
Definition attenuated_bloom_filter_subscribe (abf : attenuated_bloom_filter_t) (topic : bytes)
  : attenuated_bloom_filter_t * bool :=
  match abf_levels abf with
  | [] => (abf, false)
  | level0 :: rest =>
      let '(level0, was_new) := elastic_bloom_filter_add level0 topic in (mk_abf (level0 :: rest), was_new)
  end.

Definition attenuated_bloom_filter_unsubscribe (abf : attenuated_bloom_filter_t) (topic : bytes)
  : attenuated_bloom_filter_t * bool :=
  match abf_levels abf with
  | [] => (abf, false)
  | level0 :: rest =>
      let '(level0, removed) := elastic_bloom_filter_remove level0 topic in (mk_abf (level0 :: rest), removed)
  end.

(** The loop over the levels; the result is [out_hops]. *)
Fixpoint check_levels (levels : list elastic_bloom_filter_t) (topic : bytes) (level : nat) : option nat :=
  match levels with
  | [] => None
  | ebf :: rest =>
      if elastic_bloom_filter_contains ebf topic then Some level else check_levels rest topic (S level)
  end.

Definition attenuated_bloom_filter_check (abf : attenuated_bloom_filter_t) (topic : bytes) : option nat :=
  check_levels (abf_levels abf) topic 0.
End Operations.

(** Source level [i] goes into destination level [i + 1]; the return codes of
    the level merges are ignored. *)
Definition attenuated_bloom_filter_merge (dest src : attenuated_bloom_filter_t)
  : attenuated_bloom_filter_t * Z :=
  if negb (length (abf_levels dest) =? length (abf_levels src))%nat then (dest, -1)
  else
    (mk_abf
       match abf_levels dest with
       | [] => []
       | level0 :: rest =>
           level0 :: zip_with (fun d s => (elastic_bloom_filter_merge d s).1) rest (abf_levels src)
       end, 0).

Section Codec.
Context `{Cbor}.

Definition attenuated_bloom_filter_encode (abf : attenuated_bloom_filter_t) : cbor_item :=
  cbor_array [cbor_build_uint32 (Z.of_nat (length (abf_levels abf)));
              cbor_array (map elastic_bloom_filter_encode (abf_levels abf))].

Definition attenuated_bloom_filter_decode (item : cbor_item) : option attenuated_bloom_filter_t :=
  if negb (cbor_isa_array item) then None
  else
    match cbor_array_items item with
    | count_item :: levels_arr :: _ =>
        let level_count := cbor_get_uint32 count_item in
        if negb (cbor_isa_array levels_arr) then None
        else
          let actual_levels := cbor_array_size levels_arr in
          let level_count :=
            if Z.of_nat actual_levels <? level_count then actual_levels else Z.to_nat level_count in
          if (level_count =? 0)%nat || (ABF_DECODE_MAX_LEVELS <? level_count)%nat then None
          else
            levels ← mapM elastic_bloom_filter_decode (take level_count (cbor_array_items levels_arr));
            Some (mk_abf levels)
    | _ => None
    end.
End Codec.

(** ** Lemmas *)

Definition abf_wf (abf : attenuated_bloom_filter_t) : Prop :=
  abf_levels abf <> [] /\ Forall ebf_wf (abf_levels abf).

Section Facts.
Context `{Xxh3}.

Lemma check_levels_spec levels topic base :
  match check_levels levels topic base with
  | Some h => (base <= h)%nat /\
      (exists ebf, levels !! (h - base)%nat = Some ebf /\ elastic_bloom_filter_contains ebf topic = true) /\
      forall i ebf, (base + i < h)%nat -> levels !! i = Some ebf -> elastic_bloom_filter_contains ebf topic = false
  | None => forall i ebf, levels !! i = Some ebf -> elastic_bloom_filter_contains ebf topic = false
  end.
Proof.
  revert base. induction levels as [|e levels IH]; intros base; simpl; [done|].
  destruct (elastic_bloom_filter_contains e topic) eqn:E.
  { rewrite Nat.sub_diag. split_and!; [done|by exists e|]. intros; lia. }
  specialize (IH (S base)). destruct (check_levels levels topic (S base)) as [h|].
  - destruct IH as (H1 & (ebf & H2 & H3) & H4). split_and!; [lia| |].
    + exists ebf. split; [|done]. replace (h - base)%nat with (S (h - S base))%nat by lia. exact H2.
    + intros [|i] ebf' Hi Hl; simpl in Hl; [congruence|]. apply (H4 i); [lia|done].
  - intros [|i] ebf Hl; simpl in Hl; [congruence|]. by apply (IH i).
Qed.

(** The check finds the least level that contains the topic. *)
Lemma check_found abf topic h ebf :
  abf_levels abf !! h = Some ebf -> elastic_bloom_filter_contains ebf topic = true ->
  exists h', attenuated_bloom_filter_check abf topic = Some h' /\ (h' <= h)%nat.
Proof.
  intros Hl Hc. pose proof (check_levels_spec (abf_levels abf) topic 0) as Hs.
  unfold attenuated_bloom_filter_check. destruct (check_levels _ _ _) as [h'|].
  - exists h'. split; [done|]. destruct Hs as (_ & _ & Hs).
    destruct (Nat.lt_ge_cases h h') as [Hlt|]; [|done]. rewrite (Hs h ebf) in Hc by done. done.
  - by rewrite (Hs h ebf Hl) in Hc.
Qed.

Lemma subscribe_wf abf topic : abf_wf abf -> abf_wf (attenuated_bloom_filter_subscribe abf topic).1.
Proof.
  intros [Hne Hw]. unfold attenuated_bloom_filter_subscribe.
  destruct (abf_levels abf) as [|l0 rest] eqn:E; [done|]. apply Forall_cons in Hw as [H0 Hw].
  pose proof (add_cases l0 topic H0) as [Hw' _].
  destruct (elastic_bloom_filter_add l0 topic) as [l0' was_new]. split; [done|]. by constructor.
Qed.
End Facts.

(** ** Properties *)

(** [attenuated_bloom_filter_check] reports the smallest level whose
    filter contains the topic, and nothing exactly when no level does. *)
Theorem attenuated_check_least `{Xxh3} (abf : attenuated_bloom_filter_t) (topic : bytes) :
  match attenuated_bloom_filter_check abf topic with
  | Some h =>
      (exists ebf, abf_levels abf !! h = Some ebf /\ elastic_bloom_filter_contains ebf topic = true) /\
      forall i ebf, (i < h)%nat -> abf_levels abf !! i = Some ebf -> elastic_bloom_filter_contains ebf topic = false
  | None => forall i ebf, abf_levels abf !! i = Some ebf -> elastic_bloom_filter_contains ebf topic = false
  end.
Proof.
  pose proof (check_levels_spec (abf_levels abf) topic 0) as Hs. unfold attenuated_bloom_filter_check.
  destruct (check_levels _ _ _) as [h|]; [|done]. rewrite Nat.sub_0_r in Hs. by destruct Hs as (_ & ? & ?).
Qed.

(** Merging a neighbour's filter succeeds for filters of equal depth and
    parameters, makes every topic the neighbour reports at [h] hops (short of
    its last level) reported at no more than [h + 1] hops, keeps every topic
    the filter itself reported at no greater distance, and does not touch the
    local level. *)
Theorem attenuated_merge_one_hop `{Xxh3} (dest src : attenuated_bloom_filter_t) (topic : bytes) (h : nat) :
  abf_wf dest -> abf_wf src -> length (abf_levels dest) = length (abf_levels src) ->
  (forall d s, d ∈ abf_levels dest -> s ∈ abf_levels src -> same_parameters d s) ->
  let '(merged, rc) := attenuated_bloom_filter_merge dest src in
  rc = 0 /\ abf_levels merged !! 0%nat = abf_levels dest !! 0%nat /\
  (attenuated_bloom_filter_check src topic = Some h -> (S h < length (abf_levels src))%nat ->
   exists h', attenuated_bloom_filter_check merged topic = Some h' /\ (h' <= S h)%nat) /\
  (attenuated_bloom_filter_check dest topic = Some h ->
   exists h', attenuated_bloom_filter_check merged topic = Some h' /\ (h' <= h)%nat).
Proof.
  intros [Hne Hd] [_ Hs] Hlen Hpar. unfold attenuated_bloom_filter_merge.
  rewrite Hlen, Nat.eqb_refl. cbn [negb]. destruct (abf_levels dest) as [|d0 rest] eqn:Ed; [done|].
  assert (forall i d s, rest !! i = Some d -> abf_levels src !! i = Some s ->
    elastic_bloom_filter_contains d topic = true \/ elastic_bloom_filter_contains s topic = true ->
    exists e, zip_with (fun d s => (elastic_bloom_filter_merge d s).1) rest (abf_levels src) !! i = Some e /\
      elastic_bloom_filter_contains e topic = true) as Hzip.
  { intros i d s Hid His Hor. pose proof (list_elem_of_lookup_2 _ _ _ Hid) as Hdin.
    pose proof (list_elem_of_lookup_2 _ _ _ His) as Hsin. rewrite Forall_forall in Hd, Hs.
    pose proof (merge_contains d s topic (Hd d (list_elem_of_further _ _ _ Hdin)) (Hs s Hsin)
      (Hpar d s (list_elem_of_further _ _ _ Hdin) Hsin) Hor) as Hm.
    exists (elastic_bloom_filter_merge d s).1. split; [apply lookup_zip_with_Some; eauto|].
    destruct (elastic_bloom_filter_merge d s). by destruct Hm. }
  simpl in Hlen. split_and!; [done|done| |]; intros Hc; [intros Hh|];
    pose proof (check_levels_spec) as Hspec; unfold attenuated_bloom_filter_check in Hc.
  - specialize (Hspec (abf_levels src) topic 0%nat). rewrite Hc, Nat.sub_0_r in Hspec.
    destruct Hspec as (_ & (s & Hls & Hcs) & _).
    destruct (lookup_lt_is_Some_2 rest h ltac:(lia)) as [d Hld].
    destruct (Hzip h d s Hld Hls (or_intror Hcs)) as (e & He & Hce). by apply (check_found _ _ (S h) e).
  - specialize (Hspec (abf_levels dest) topic 0%nat). rewrite Hc, Ed, Nat.sub_0_r in Hspec.
    destruct Hspec as (_ & (d & Hld & Hcd) & _). destruct h as [|h]; simpl in Hld.
    + injection Hld as ->. by apply (check_found _ _ 0%nat d).
    + pose proof (lookup_lt_Some _ _ _ Hld).
      destruct (lookup_lt_is_Some_2 (abf_levels src) h ltac:(lia)) as [s Hls].
      destruct (Hzip h d s Hld Hls (or_introl Hcd)) as (e & He & Hce). by apply (check_found _ _ (S h) e).
Qed.

Lemma create_levels_wf n size hash_count omega fp_bits :
  abf_wf (attenuated_bloom_filter_create n size hash_count omega fp_bits).
Proof.
  unfold attenuated_bloom_filter_create, abf_wf. cbn [abf_levels]. split; [by destruct n|].
  apply Forall_replicate, create_wf.
Qed.

Lemma attenuated_merge_one_hop_witness :
  let mine := attenuated_bloom_filter_create 3 8 2 (S754_zero false) 0 in
  let theirs := (attenuated_bloom_filter_subscribe (H := toy_xxh3) mine [5; 6]).1 in
  attenuated_bloom_filter_check (H := toy_xxh3) theirs [5; 6] = Some 0%nat /\
  exists h, attenuated_bloom_filter_check (H := toy_xxh3) (attenuated_bloom_filter_merge mine theirs).1 [5; 6]
    = Some h /\ (h <= 1)%nat.
Proof.
  intros mine theirs.
  assert (attenuated_bloom_filter_check (H := toy_xxh3) theirs [5; 6] = Some 0%nat) as Hc
    by (vm_compute; reflexivity).
  split; [exact Hc|].
  assert (Forall (fun s => ebf_bucket_count s = 8%nat /\ ebf_hash_count s = 2 /\ ebf_fp_bits s = 8 /\
    ebf_seed_a s = 1 /\ ebf_seed_b s = 2) (abf_levels theirs)) as Hp
    by (vm_compute; repeat constructor).
  assert (abf_wf theirs) as Hw by apply (subscribe_wf (H := toy_xxh3)), create_levels_wf.
  refine (proj1 (proj2 (proj2 (attenuated_merge_one_hop (H := toy_xxh3) mine theirs [5; 6] 0
    (create_levels_wf _ _ _ _ _) Hw eq_refl _))) Hc _).
  - intros d s Hd Hs. rewrite Forall_forall in Hp. specialize (Hp s Hs).
    apply elem_of_replicate in Hd as [-> _]. unfold same_parameters. simpl.
    destruct Hp as (-> & -> & -> & -> & ->). auto.
  - vm_compute. lia.
Defined.

(** A filter with at most 256 levels, each within the decoder's bounds,
    survives its CBOR encoding: every check gives the same answer. *)
Theorem attenuated_cbor_roundtrip `{Xxh3} `{CborLaws} (abf : attenuated_bloom_filter_t) (topic : bytes) :
  abf_wf abf -> Forall ebf_encodable (abf_levels abf) ->
  (length (abf_levels abf) <= ABF_DECODE_MAX_LEVELS)%nat ->
  exists abf', attenuated_bloom_filter_decode (attenuated_bloom_filter_encode abf) = Some abf' /\
    abf_wf abf' /\ attenuated_bloom_filter_check abf' topic = attenuated_bloom_filter_check abf topic.
Proof.
  intros [Hne Hw] He Hlen.
  assert (exists levels, mapM elastic_bloom_filter_decode (map elastic_bloom_filter_encode (abf_levels abf)) = Some levels /\
    Forall2 (fun e e' => ebf_wf e' /\ elastic_bloom_filter_contains e' topic = elastic_bloom_filter_contains e topic)
      (abf_levels abf) levels) as (levels & Hmap & Hall).
  { clear Hne Hlen. induction Hw as [|e l Hwe Hw IH]; [exists []; by split|].
    apply Forall_cons in He as [Hee He]. destruct (IH He) as (levels & Hm & Hf).
    destruct (decode_encode_contains e topic Hwe Hee) as (e' & Hd & Hwf & _ & Hc).
    exists (e' :: levels). split; [|by constructor].
    cbn [map mapM]. rewrite Hd. cbn [mbind option_bind]. by rewrite Hm. }
  exists (mk_abf levels). pose proof (Forall2_length _ _ _ Hall) as Hl.
  unfold attenuated_bloom_filter_encode, attenuated_bloom_filter_decode, ABF_DECODE_MAX_LEVELS in *.
  cbor_simp. rewrite bool_decide_true by done. cbn [negb]. cbor_simp.
  rewrite length_map, Z.ltb_irrefl, Nat2Z.id. cbn [negb].
  destruct (Nat.eqb_spec (length (abf_levels abf)) 0) as [E0|_]; [by destruct (abf_levels abf)|].
  destruct (Nat.ltb_spec 256 (length (abf_levels abf))) as [Hlt|_]; [lia|].
  cbn [orb]. rewrite take_ge by (by rewrite length_map). rewrite Hmap. split; [done|]. split.
  - split; [intros E; cbn in E; subst; destruct (abf_levels abf); done|].
    cbn [abf_levels]. clear -Hall. induction Hall as [|? ? ? ? []]; by constructor.
  - unfold attenuated_bloom_filter_check. cbn [abf_levels]. generalize 0%nat. clear -Hall.
    induction Hall as [|e e' l l' [_ Hc] _ IH]; intros base; simpl; [done|]. by rewrite Hc, IH.
Qed.

Lemma attenuated_cbor_roundtrip_witness :
  let abf := attenuated_bloom_filter_create 3 8 2 (S754_zero false) 0 in
  exists abf', attenuated_bloom_filter_decode (attenuated_bloom_filter_encode abf) = Some abf' /\
    attenuated_bloom_filter_check (H := toy_xxh3) abf' [1] = None.
Proof.
  intros abf.
  destruct (attenuated_cbor_roundtrip (H := toy_xxh3) abf [1]) as (abf' & H1 & _ & H2).
  - apply create_levels_wf.
  - apply Forall_replicate. split; [vm_compute; congruence|vm_compute; split; congruence..|].
    intros i. cbn [elastic_bloom_filter_create ebf_buckets]. rewrite bucket_at_replicate.
    repeat constructor; simpl; lia.
  - vm_compute. lia.
  - exists abf'. split; [exact H1|]. rewrite H2. vm_compute. reflexivity.
Defined.
