(* ===== verification/DList.v ===== *)
(** * DList: doubly linked lists in a heap of nodes

    The intrusive lists of the LRU caches as a map from addresses to nodes.
    [None] is the dereference of NULL or of a freed node.  [dseg] says which
    nodes, with which values, a list consists of; the lemmas are what the
    pointer updates of the code do to it. *)

From stdpp Require Import gmap.
From S2P Require Import Prelude.

Abbreviation addr := nat.

Record dnode (A : Type) := mk_dnode { dn_value : A; dn_next : option addr; dn_prev : option addr }.
Arguments mk_dnode {A}.
Arguments dn_value {A}.
Arguments dn_next {A}.
Arguments dn_prev {A}.

Abbreviation heap A := (gmap addr (dnode A)).

(** A list in which no key occurs twice. *)
Lemma nodup_mid {B A : Type} (l1 : list (B * A)) (a : B) (v : A) (l2 : list (B * A)) : NoDup (l1 ++ (a, v) :: l2).*1 -> NoDup (l1 ++ l2).*1 /\ a ∉ l1.*1 /\ a ∉ l2.*1.
Proof.
  rewrite !fmap_app. cbn. intros Hn. apply NoDup_app in Hn as (H1 & Hd & H2). apply NoDup_cons in H2 as [Ha H2].
  split_and!; [|by intros Hin; apply (Hd a Hin); left|done]. apply NoDup_app. split_and!; [done| |done].
  intros x Hx Hx'. apply (Hd x Hx). by right.
Qed.

Section Heap.
Context {A : Type}.
Implicit Types (h : heap A) (l : list (addr * A)).

(** [node->next = n], [node->previous = p] and [node->value = v]. *)
Definition set_next h (a : addr) (n : option addr) : option (heap A) :=
  nd ← h !! a; Some (<[a := mk_dnode (dn_value nd) n (dn_prev nd)]> h).
Definition set_prev h (a : addr) (p : option addr) : option (heap A) :=
  nd ← h !! a; Some (<[a := mk_dnode (dn_value nd) (dn_next nd) p]> h).
Definition set_value h (a : addr) (v : A) : option (heap A) :=
  nd ← h !! a; Some (<[a := mk_dnode v (dn_next nd) (dn_prev nd)]> h).

(** [get_clear_memory]: an address that is not in use. *)
Definition alloc h (v : A) : heap A * addr :=
  let a := fresh (dom h : gset addr) in (<[a := mk_dnode v None None]> h, a).

Lemma alloc_fresh h v : h !! (alloc h v).2 = None.
Proof. unfold alloc. cbn [snd]. apply not_elem_of_dom, is_fresh. Qed.

(** ** Segments *)

Definition head_or l (n : option addr) : option addr := match l with (a, _) :: _ => Some a | [] => n end.
Definition last_or (p : option addr) l : option addr := match last l with Some (a, _) => Some a | None => p end.

(** The nodes [l] are linked in both directions between [p] and [n]. *)
Fixpoint dseg h (p : option addr) l (n : option addr) : Prop :=
  match l with
  | [] => True
  | (a, v) :: l' => h !! a = Some (mk_dnode v (head_or l' n) p) /\ dseg h (Some a) l' n
  end.

Lemma head_or_app l1 l2 n : head_or (l1 ++ l2) n = head_or l1 (head_or l2 n).
Proof. by destruct l1 as [|[]]. Qed.

Lemma last_or_snoc p l a v : last_or p (l ++ [(a, v)]) = Some a.
Proof. unfold last_or. by rewrite last_snoc. Qed.

Lemma last_or_cons p a v l : last_or p ((a, v) :: l) = last_or (Some a) l.
Proof.
  destruct l as [|[b w] l _] using rev_ind; [done|]. rewrite last_or_snoc. change ((a, v) :: l ++ [(b, w)]) with (((a, v) :: l) ++ [(b, w)]).
  apply last_or_snoc.
Qed.

Lemma dseg_app h p l1 l2 n :
  dseg h p (l1 ++ l2) n <-> dseg h p l1 (head_or l2 n) /\ dseg h (last_or p l1) l2 n.
Proof.
  revert p. induction l1 as [|[a v] l1 IH]; intros p; [cbn; tauto|].
  cbn [app dseg]. rewrite IH, head_or_app, last_or_cons. tauto.
Qed.

Lemma dseg_ext h h' p l n : (forall a, a ∈ l.*1 -> h' !! a = h !! a) -> dseg h p l n -> dseg h' p l n.
Proof.
  revert p. induction l as [|[a v] l IH]; intros p Hext; [done|]. cbn [dseg]. intros [Hv Hl]. split.
  - rewrite Hext; [done|]. by left.
  - apply IH; [|done]. intros b Hb. apply Hext. by right.
Qed.

(** The update of one node, and the others. *)
Definition frame h h' (a : addr) : Prop := forall b, b <> a -> h' !! b = h !! b.

Lemma dseg_frame h h' a p l n : frame h h' a -> a ∉ l.*1 -> dseg h p l n -> dseg h' p l n.
Proof. intros Hf Ha. apply dseg_ext. intros b Hb. apply Hf. by intros ->. Qed.

Lemma dseg_lookup h p l n a : dseg h p l n -> a ∈ l.*1 -> is_Some (h !! a).
Proof.
  revert p. induction l as [|[b v] l IH]; intros p Hs Ha; [by apply not_elem_of_nil in Ha|].
  destruct Hs as [Hv Hl]. cbn in Ha. apply elem_of_cons in Ha as [->|Ha]; eauto.
Qed.

(** The neighbours of a node in the middle. *)
Lemma dseg_middle h p l1 a v l2 n :
  dseg h p (l1 ++ (a, v) :: l2) n -> h !! a = Some (mk_dnode v (head_or l2 n) (last_or p l1)).
Proof. intros Hs. apply dseg_app in Hs as [_ [Hv _]]. exact Hv. Qed.

Lemma set_prev_at h a v n p p' :
  h !! a = Some (mk_dnode v n p) ->
  exists h', set_prev h a p' = Some h' /\ h' !! a = Some (mk_dnode v n p') /\ frame h h' a.
Proof.
  intros Hv. unfold set_prev. rewrite Hv. eexists. split; [reflexivity|]. split; [by rewrite lookup_insert_eq|].
  intros b Hb. by rewrite lookup_insert_ne.
Qed.

Lemma set_next_at h a v n p n' :
  h !! a = Some (mk_dnode v n p) ->
  exists h', set_next h a n' = Some h' /\ h' !! a = Some (mk_dnode v n' p) /\ frame h h' a.
Proof.
  intros Hv. unfold set_next. rewrite Hv. eexists. split; [reflexivity|]. split; [by rewrite lookup_insert_eq|].
  intros b Hb. by rewrite lookup_insert_ne.
Qed.

(** Redirecting the ends of a segment. *)
Lemma dseg_set_prev h p a v l n p' :
  a ∉ l.*1 -> dseg h p ((a, v) :: l) n ->
  exists h', set_prev h a p' = Some h' /\ dseg h' p' ((a, v) :: l) n /\ frame h h' a.
Proof.
  intros Ha [Hv Hl]. destruct (set_prev_at h a v _ _ p' Hv) as (h' & E & Hv' & Hf). exists h'. split; [done|].
  split; [|done]. split; [done|]. by eapply dseg_frame.
Qed.

Lemma dseg_set_next h p l a v n n' :
  a ∉ l.*1 -> dseg h p (l ++ [(a, v)]) n ->
  exists h', set_next h a n' = Some h' /\ dseg h' p (l ++ [(a, v)]) n' /\ frame h h' a.
Proof.
  intros Ha Hseg. apply dseg_app in Hseg as [Hl [Hv _]].
  destruct (set_next_at h a v _ _ n' Hv) as (h' & E & Hv' & Hf). exists h'. split; [done|].
  split; [|done]. apply dseg_app. split; [by eapply dseg_frame|done].
Qed.

(** A node is taken out: its neighbours are linked to each other. *)
Lemma unlink_next h l1 a v l2 :
  NoDup (l1 ++ (a, v) :: l2).*1 -> dseg h None (l1 ++ (a, v) :: l2) None ->
  exists h', match last_or None l1 with Some p => set_next h p (head_or l2 None) | None => Some h end = Some h' /\
    dseg h' None l1 (head_or l2 None) /\ dseg h' (Some a) l2 None /\
    h' !! a = Some (mk_dnode v (head_or l2 None) (last_or None l1)) /\ (forall b, b ∉ l1.*1 -> h' !! b = h !! b).
Proof.
  intros Hn Hs. pose proof (dseg_middle _ _ _ _ _ _ _ Hs) as Hv. apply nodup_mid in Hn as (Hnd & Ha1 & Ha2).
  apply dseg_app in Hs as [Hl1 [_ Hl2]].
  destruct l1 as [|[p w] l1 _] using rev_ind; [by exists h|]. rewrite last_or_snoc in *.
  assert (p ∉ l1.*1 /\ p ∉ l2.*1 /\ p <> a) as (Hp1 & Hp2 & Hpa).
  { rewrite <- app_assoc in Hnd. cbn in Hnd. apply nodup_mid in Hnd as (_ & ? & ?). split_and!; try done.
    intros ->. apply Ha1. rewrite fmap_app. set_solver. }
  destruct (dseg_set_next h None l1 p w _ (head_or l2 None) Hp1 Hl1) as (h' & E & Hl1' & Hf). exists h'. split_and!; try done.
  - by eapply dseg_frame.
  - rewrite Hf by done. exact Hv.
  - intros b Hb. apply Hf. intros ->. apply Hb. rewrite fmap_app. set_solver.
Qed.

Lemma unlink_prev h l1 a v l2 :
  NoDup (l1 ++ (a, v) :: l2).*1 -> dseg h None l1 (head_or l2 None) -> dseg h (Some a) l2 None ->
  exists h', match head_or l2 None with Some n => set_prev h n (last_or None l1) | None => Some h end = Some h' /\
    dseg h' None (l1 ++ l2) None /\ (forall b, b ∉ l2.*1 -> h' !! b = h !! b).
Proof.
  intros Hn Hl1 Hl2. apply nodup_mid in Hn as (Hnd & _). destruct l2 as [|[n w] l2]; cbn [head_or] in *.
  { exists h. rewrite app_nil_r. done. }
  assert (n ∉ l1.*1 /\ n ∉ l2.*1) as [Hn1 Hn2] by (apply nodup_mid in Hnd; tauto).
  destruct (dseg_set_prev h (Some a) n w l2 None (last_or None l1) Hn2 Hl2) as (h' & E & Hl2' & Hf). exists h'.
  split_and!; try done.
  - apply dseg_app. split; [|done]. by eapply dseg_frame.
  - intros b Hb. apply Hf. intros ->. apply Hb. by left.
Qed.

(** A node is linked in front. *)
Lemma link_front h h1 f w l a v :
  NoDup ((a, v) :: (f, w) :: l).*1 -> dseg h None ((f, w) :: l) None ->
  h1 !! a = Some (mk_dnode v (Some f) None) -> (forall b, b <> a -> b <> f -> h1 !! b = h !! b) ->
  h1 !! f = Some (mk_dnode w (head_or l None) (Some a)) -> dseg h1 None ((a, v) :: (f, w) :: l) None.
Proof.
  intros Hn [_ Hl] Ha Hb Hf. split; [done|]. split; [done|]. eapply dseg_ext; [|exact Hl]. intros b Hin.
  apply NoDup_cons in Hn as [Hna Hn]. apply NoDup_cons in Hn as [Hnf _].
  apply Hb; intros ->; [apply Hna; by right|done].
Qed.
End Heap.
