(* ===== verification/Wal.v ===== *)
(** * Wal: the write-ahead log of the index

    Models src/src/BlockCache/wal.c.  A log file is a byte string; a record is
    a type byte, the big-endian XXH32 of the payload and the payload, whose
    size the type determines.  XXH32 (deps/xxHash) is a parameter.  The
    theorems show that the records written are read back in order up to a
    clean end of file, and that a torn last record costs only itself. *)

From stdpp Require Import gmap.
From S2P Require Import Prelude Platform.
Local Open Scope Z_scope.

(** [XXH32] with seed 0. *)
Class Xxh32 := {
  XXH32 : bytes -> Z;
  xxh32_u32 : forall data, is_u32 (XXH32 data)
}.

(** ** State *)

Inductive wal_type_e := addition | removal | increment | ejection | metadata.

#[export] Instance wal_type_e_eq_dec : EqDecision wal_type_e.
Proof. solve_decision. Defined.

(** The enumerators are the characters 'a', 'r', 'i', 'e', 'm'. *)
Definition wal_type_code (t : wal_type_e) : Z :=
  match t with addition => 97 | removal => 114 | increment => 105 | ejection => 101 | metadata => 109 end.

Definition WAL_ERR_SHORT_TYPE : Z := 1.
Definition WAL_ERR_SHORT_CRC : Z := 2.
Definition WAL_ERR_SHORT_PAYLOAD : Z := 3.
Definition WAL_ERR_CRC : Z := 4.
Definition WAL_ERR_UNKNOWN_TYPE : Z := 5.

(** Files are named by their id; [wal_log] says whether a handle is open. *)
Record wal_t := mk_wal {
  wal_log : bool;
  wal_current_file : Z;
  wal_last_file : option Z;
  wal_next_id : Z;
  wal_legacy_entry_size : bool
}.

(** The files of the wal directory. *)
Abbreviation wal_dir := (gmap Z (list Z)).

Definition wal_create (id : Z) : wal_t :=
  mk_wal false id (if 1 <? id then Some (id - 1) else None) (u64 (id + 1)) false.
Definition wal_load (id : Z) : wal_t :=
  mk_wal false id (if 1 <? id then Some (id - 1) else None) (u64 (id + 1)) false.
Definition wal_create_next (next_id : Z) (last_file : option Z) : wal_t :=
  mk_wal false next_id last_file (u64 (next_id + 1)) false.

Definition wal_opened (wal : wal_t) : wal_t :=
  mk_wal true (wal_current_file wal) (wal_last_file wal) (wal_next_id wal) (wal_legacy_entry_size wal).
Definition wal_legacy (wal : wal_t) : wal_t :=
  mk_wal (wal_log wal) (wal_current_file wal) (wal_last_file wal) (wal_next_id wal) true.

(** Outcomes of the platform calls of one [wal_write]: whether the open and
    the seek succeed, and how much each of the three writes transfers. *)
Record wal_io := mk_wal_io { wio_open : bool; wio_type : option Z; wio_crc : option Z; wio_data : option Z }.
Definition wal_io_ok : wal_io := mk_wal_io true None None None.

(** The part of [data] a write with the given outcome appends. *)
Definition transferred (limit : option Z) (data : bytes) : bytes :=
  match limit with None => data | Some k => take (Z.to_nat k) data end.

Section Wal.
Context `{Xxh32}.

(** ** Writing *)

Definition wal_crc (data : bytes) : bytes := be_bytes 4 (XXH32 data).

(** The writes go to the end of the file, where the handle was positioned when
    it was opened; their return values are not examined. *)
Definition wal_write (io : wal_io) (dir : wal_dir) (wal : wal_t) (type : wal_type_e) (data : bytes)
  : wal_dir * wal_t :=
  if negb (wal_log wal) && negb (wio_open io) then (dir, wal)
  else
    let content := default [] (dir !! wal_current_file wal) in
    let written := transferred (wio_type io) [wal_type_code type] ++
                   transferred (wio_crc io) (wal_crc data) ++ transferred (wio_data io) data in
    (<[wal_current_file wal := content ++ written]> dir, wal_opened wal).

(** ** Reading *)

(** Conversion to [int32_t], and its conversion to [uint64_t]. *)
Definition s32 (z : Z) : Z := (z + 2 ^ 31) mod 2 ^ 32 - 2 ^ 31.

(** Payload size by type; [None] for an unknown type. *)
Definition wal_payload_size (legacy : bool) (type : Z) : option nat :=
  if (type =? wal_type_code addition) || (type =? wal_type_code increment) then
    Some (if legacy then 78%nat else 86%nat)
  else if type =? wal_type_code metadata then Some 86%nat
  else if type =? wal_type_code ejection then Some 44%nat
  else if type =? wal_type_code removal then Some 34%nat
  else None.

Record wal_read_result := mk_read {
  rr_code : Z;
  rr_wal : wal_t;
  rr_type : Z;
  rr_data : option bytes;
  rr_cursor : Z;
  rr_size : Z
}.

(** [_wal_read_entry_payload]: retry at [size] bytes. *)
Definition wal_read_entry_payload (file : bytes) (wal : wal_t) (type : Z) (crc : bytes)
    (record_start : Z) (size : nat) (legacy : bool) (wal_size : Z) : wal_read_result :=
  let buf := file_slice file (Z.to_nat (record_start + 5)) size in
  if negb (length buf =? size)%nat then
    mk_read WAL_ERR_SHORT_PAYLOAD wal type None record_start wal_size
  else if negb (bool_decide (crc = wal_crc buf)) then
    mk_read WAL_ERR_CRC wal type None record_start wal_size
  else
    mk_read 0 (if legacy then wal_legacy wal else wal) type (Some buf)
      (record_start + 1 + 4 + Z.of_nat size) wal_size.

(** The record at [cursor]; the handle is open. *)
Definition wal_read_record (file : bytes) (wal : wal_t) (cursor wal_size : Z) : wal_read_result :=
  let record_start := cursor in
  let fail code type := mk_read code wal type None cursor wal_size in
  match file_slice file (Z.to_nat cursor) 1 with
  | type :: _ =>
      let crc := file_slice file (Z.to_nat (cursor + 1)) 4 in
      if negb (length crc =? 4)%nat then fail WAL_ERR_SHORT_CRC type
      else
        match wal_payload_size (wal_legacy_entry_size wal) type with
        | None => fail WAL_ERR_UNKNOWN_TYPE type
        | Some size =>
            let retry := (size =? 86)%nat && negb (wal_legacy_entry_size wal) &&
                         ((type =? wal_type_code addition) || (type =? wal_type_code increment)) in
            let buf := file_slice file (Z.to_nat (cursor + 5)) size in
            if negb (length buf =? size)%nat then
              if retry then wal_read_entry_payload file wal type crc record_start 78 true wal_size
              else fail WAL_ERR_SHORT_PAYLOAD type
            else if bool_decide (crc = wal_crc buf) then
              mk_read 0 wal type (Some buf) (cursor + 1 + 4 + Z.of_nat size) wal_size
            else if retry then wal_read_entry_payload file wal type crc record_start 78 true wal_size
            else mk_read WAL_ERR_CRC wal type (Some buf) (cursor + 1 + 4 + Z.of_nat size) wal_size
        end
  | [] => fail WAL_ERR_SHORT_TYPE 0
  end.

Definition wal_read (dir : wal_dir) (wal : wal_t) (cursor wal_size : Z) : wal_read_result :=
  let file := default [] (dir !! wal_current_file wal) in
  if negb (wal_log wal) then
    wal_read_record file (wal_opened wal) 0 (s32 (Z.of_nat (length file)))
  else if u64 wal_size <=? cursor then mk_read (-3) wal 0 None cursor wal_size
  else wal_read_record file wal cursor wal_size.

(** The replay loop of [_index_replay_wal] with body [step]: the final state
    and the last return code.  Every record is at least 39 bytes, so a fuel of
    the file's length is never exhausted. *)
Fixpoint wal_replay {S} (step : S -> Z -> bytes -> S) (fuel : nat) (dir : wal_dir) (wal : wal_t)
    (cursor wal_size : Z) (state : S) : S * Z * wal_t :=
  let r := wal_read dir wal cursor wal_size in
  match fuel, rr_data r with
  | S fuel, Some data =>
      if (rr_code r =? 0) && (rr_cursor r <=? u64 (rr_size r)) then
        wal_replay step fuel dir (rr_wal r) (rr_cursor r) (rr_size r) (step state (rr_type r) data)
      else (state, rr_code r, rr_wal r)
  | _, _ => (state, rr_code r, rr_wal r)
  end.

(** ** The bytes of a record *)

Definition wal_record := (wal_type_e * bytes)%type.

Definition encode_record (r : wal_record) : bytes := wal_type_code r.1 :: wal_crc r.2 ++ r.2.

(** The payload has the size the reader expects of its type. *)
Definition record_ok (r : wal_record) : Prop :=
  wal_payload_size false (wal_type_code r.1) = Some (length r.2).

(** The payload of an addition or an increment, the two types that had a
    shorter legacy payload, does not have the checksum of its first 78 bytes. *)
Definition no_legacy_collision (r : wal_record) : Prop :=
  r.1 = addition \/ r.1 = increment -> XXH32 (take 78 r.2) <> XXH32 r.2.

(** ** Reading one record *)

Lemma slice_app a b n off : off = Z.of_nat (length a) -> file_slice (a ++ b) (Z.to_nat off) n = take n b.
Proof. intros ->. unfold file_slice. rewrite Nat2Z.id. by rewrite drop_app_length. Qed.

Lemma slice_app_cons a x b n :
  file_slice (a ++ x :: b) (Z.to_nat (Z.of_nat (length a) + 1)) n = take n b.
Proof.
  replace (a ++ x :: b) with ((a ++ [x]) ++ b) by (by rewrite <- app_assoc).
  apply slice_app. rewrite length_app. cbn [length]. lia.
Qed.

Lemma length_wal_crc data : length (wal_crc data) = 4%nat.
Proof. unfold wal_crc, be_bytes. by rewrite length_reverse, length_le_bytes. Qed.

Lemma length_encode_record r : length (encode_record r) = (5 + length r.2)%nat.
Proof. unfold encode_record. cbn [length]. by rewrite length_app, length_wal_crc. Qed.

(** The fields of what follows [pre], however much of it there is. *)
Lemma record_fields pre t crc body :
  length crc = 4%nat ->
  let file := pre ++ t :: crc ++ body in
  let cursor := Z.of_nat (length pre) in
  file_slice file (Z.to_nat cursor) 1 = [t] /\ file_slice file (Z.to_nat (cursor + 1)) 4 = crc /\
  forall n, file_slice file (Z.to_nat (cursor + 5)) n = take n body.
Proof.
  intros Hc file cursor. subst file cursor. split_and!.
  - by rewrite slice_app.
  - rewrite (slice_app_cons pre t). by apply take_app_length'.
  - intros n. replace (pre ++ t :: crc ++ body) with ((pre ++ t :: crc) ++ body) by (by rewrite <- app_assoc).
    apply slice_app. rewrite length_app. cbn [length]. lia.
Qed.

Lemma read_record_ok pre r rest wal size :
  record_ok r -> wal_legacy_entry_size wal = false ->
  wal_read_record (pre ++ encode_record r ++ rest) wal (Z.of_nat (length pre)) size =
  mk_read 0 wal (wal_type_code r.1) (Some r.2) (Z.of_nat (length (pre ++ encode_record r))) size.
Proof.
  intros Hok Hleg. unfold encode_record. cbn [app]. rewrite <- app_assoc.
  destruct (record_fields pre (wal_type_code r.1) (wal_crc r.2) (r.2 ++ rest) (length_wal_crc _))
    as (H1 & H2 & H3).
  unfold wal_read_record. rewrite H1, H2, length_wal_crc, Hleg. cbn [Nat.eqb negb].
  unfold record_ok in Hok. rewrite Hok, H3, take_app_length, Nat.eqb_refl. cbn [negb].
  rewrite bool_decide_true by done. f_equal.
  rewrite length_app. cbn [length]. rewrite length_app, length_wal_crc. lia.
Qed.

(** A strict prefix of a record is not read as one. *)
Lemma read_record_torn pre r torn wal size :
  record_ok r -> no_legacy_collision r -> wal_legacy_entry_size wal = false ->
  torn `prefix_of` encode_record r -> torn <> encode_record r -> torn <> [] ->
  let res := wal_read_record (pre ++ torn) wal (Z.of_nat (length pre)) size in
  0 < rr_code res <= 4 /\ rr_data res = None /\ rr_wal res = wal.
Proof.
  intros Hok Hcoll Hleg [rest Hrest] Hne Hnil. unfold encode_record in *.
  destruct torn as [|t torn]; [done|]. change ((t :: torn) ++ rest) with (t :: torn ++ rest) in Hrest.
  assert (wal_type_code r.1 = t /\ wal_crc r.2 ++ r.2 = torn ++ rest) as [Ht Hr] by (split; congruence).
  clear Hrest. rename Hr into Hrest. subst t.
  assert (length torn < 4 + length r.2)%nat as Hshort.
  { assert (rest <> []) as Hr by (intros ->; rewrite app_nil_r in Hrest; subst; done).
    apply (f_equal length) in Hrest. rewrite !length_app, length_wal_crc in Hrest.
    destruct rest; simpl in *; [done|lia]. }
  unfold wal_read_record. cbn zeta. rewrite slice_app by done. cbn [take].
  destruct (Nat.lt_ge_cases (length torn) 4) as [Hlt|Hge].
  { assert (file_slice (pre ++ _ :: torn) (Z.to_nat (Z.of_nat (length pre) + 1)) 4 = torn) as ->.
    { rewrite slice_app_cons. apply take_ge. lia. }
    destruct (Nat.eqb_spec (length torn) 4); [lia|]. cbn. unfold WAL_ERR_SHORT_CRC. split_and!; done || lia. }
  assert (torn = wal_crc r.2 ++ drop 4 torn /\ drop 4 torn `prefix_of` r.2) as [Etorn [tl Htl]].
  { rewrite <- (take_drop 4 torn) in Hrest at 1. rewrite <- app_assoc in Hrest.
    apply app_inj_1 in Hrest as [Hcrc Hbody]; [|rewrite length_wal_crc, length_take; lia].
    split; [by rewrite Hcrc, take_drop|by exists rest]. }
  set (body := drop 4 torn) in *. rewrite Etorn, length_app, length_wal_crc in Hshort.
  destruct (record_fields pre (wal_type_code r.1) (wal_crc r.2) body (length_wal_crc _)) as (_ & H2 & H3).
  rewrite Etorn, H2, length_wal_crc, Hleg. cbn [Nat.eqb negb].
  unfold record_ok in Hok. rewrite Hok, H3, (take_ge body) by lia.
  destruct (Nat.eqb_spec (length body) (length r.2)); [lia|]. cbn [negb].
  match goal with |- context [if ?b then _ else _] => destruct b eqn:Eretry end; cycle 1.
  { cbn. unfold WAL_ERR_SHORT_PAYLOAD. split_and!; done || lia. }
  unfold wal_read_entry_payload. rewrite H3.
  destruct (Nat.eqb_spec (length (take 78 body)) 78) as [H78|H78]; cbn [negb].
  2: { cbn. unfold WAL_ERR_SHORT_PAYLOAD. split_and!; done || lia. }
  rewrite bool_decide_false.
  { cbn. unfold WAL_ERR_CRC. split_and!; done || lia. }
  intros Ecrc. apply andb_true_iff in Eretry as [_ Ert]. apply Hcoll.
  { by destruct r as [[] ?]; auto. } unfold wal_crc in Ecrc. apply (f_equal (fun b => be_value b)) in Ecrc.
  assert (take 78 body = take 78 r.2) as Etake
    by (rewrite Htl; symmetry; apply take_app_le; rewrite length_take in H78; lia).
  unfold be_value, be_bytes in Ecrc. rewrite !reverse_involutive, !le_value_bytes in Ecrc.
  pose proof (xxh32_u32 r.2) as U1. pose proof (xxh32_u32 (take 78 body)) as U2. unfold is_u32 in *.
  rewrite !Z.mod_small in Ecrc by (change (2 ^ (8 * Z.of_nat 4)) with (2 ^ 32); lia).
  by rewrite <- Etake.
Qed.

(** ** The replay loop *)

Definition wal_bytes (rs : list wal_record) : bytes := concat (map encode_record rs).

(** A log is read as records in one way only. *)
Lemma wal_bytes_inj rs rs' : Forall record_ok rs -> Forall record_ok rs' -> wal_bytes rs = wal_bytes rs' -> rs = rs'.
Proof.
  intros Hrs. revert rs'. induction Hrs as [|[t d] rs Hr _ IH]; intros rs' Hrs'; (destruct Hrs' as [|[t' d'] rs' Hr' Hrs']; [done|]);
    [done|]. unfold wal_bytes, encode_record. cbn [map concat app fst snd]. intros E.
  assert (t = t') as <- by (destruct t, t'; try reflexivity; discriminate E).
  unfold record_ok in Hr, Hr'. cbn [fst snd] in Hr, Hr'. rewrite Hr in Hr'. injection Hr' as Hlen.
  apply (f_equal tail) in E. cbn [tail] in E. rewrite <- !app_assoc in E. apply app_inj_1 in E as [_ E]; [|by rewrite !length_wal_crc].
  apply app_inj_1 in E as [-> E]; [|done]. f_equal. by apply IH.
Qed.

Definition apply_records {S} (step : S -> Z -> bytes -> S) (rs : list wal_record) (state : S) : S :=
  fold_left (fun s r => step s (wal_type_code r.1) r.2) rs state.

Lemma s32_small z : 0 <= z < 2 ^ 31 -> s32 z = z.
Proof. intros Hz. unfold s32. rewrite Z.mod_small by lia. lia. Qed.

(** An open log positioned in front of complete records reads them all. *)
Lemma replay_records {S} (step : S -> Z -> bytes -> S) rs fuel dir wal pre tail state :
  Forall record_ok rs -> wal_log wal = true -> wal_legacy_entry_size wal = false ->
  dir !! wal_current_file wal = Some (pre ++ wal_bytes rs ++ tail) ->
  let size := Z.of_nat (length (pre ++ wal_bytes rs ++ tail)) in
  size < 2 ^ 31 ->
  wal_replay step (length rs + fuel) dir wal (Z.of_nat (length pre)) size state =
  wal_replay step fuel dir wal (Z.of_nat (length (pre ++ wal_bytes rs))) size (apply_records step rs state).
Proof.
  intros Hok Hopen Hleg. revert pre state. induction Hok as [|r rs Hr Hok IH]; intros pre state Hdir size Hsize.
  { unfold wal_bytes. cbn [map concat]. rewrite app_nil_r. done. }
  assert (pre ++ wal_bytes (r :: rs) ++ tail = (pre ++ encode_record r) ++ wal_bytes rs ++ tail) as Hfile
    by (unfold wal_bytes; cbn [map concat]; by rewrite <- !app_assoc).
  assert ((5 <= length (encode_record r))%nat) as Hlen by (rewrite length_encode_record; lia).
  assert (Z.of_nat (length (pre ++ encode_record r)) <= size) as Hfit
    by (subst size; rewrite Hfile, !length_app; lia).
  rewrite length_app in Hfit.
  cbn [length Nat.add wal_replay]. unfold wal_read. rewrite Hdir, Hopen. cbn [negb default].
  rewrite u64_small by (unfold is_u64; lia).
  destruct (Z.leb_spec size (Z.of_nat (length pre))); [lia|]. cbn [from_option Datatypes.id].
  rewrite Hfile, <- app_assoc, read_record_ok by done. cbn [rr_code rr_data rr_cursor rr_size rr_wal rr_type].
  rewrite u64_small by (unfold is_u64; lia).
  destruct (Z.leb_spec (Z.of_nat (length (pre ++ encode_record r))) size); [|rewrite length_app in *; lia].
  cbn [Z.eqb andb]. subst size. rewrite Hfile in *. rewrite IH; [|done..].
  unfold wal_bytes. cbn [map concat apply_records fold_left]. by rewrite <- app_assoc.
Qed.

(** At the end of the file the loop stops cleanly. *)
Lemma replay_end {S} (step : S -> Z -> bytes -> S) fuel dir wal size state :
  wal_log wal = true -> 0 <= size < 2 ^ 31 ->
  wal_replay step fuel dir wal size size state = (state, -3, wal).
Proof.
  intros Hopen Hsize.
  assert (wal_read dir wal size size = mk_read (-3) wal 0 None size size) as Hr.
  { unfold wal_read. rewrite Hopen. cbn [negb]. rewrite u64_small by (unfold is_u64; lia).
    by rewrite Z.leb_refl. }
  destruct fuel; cbn [wal_replay]; by rewrite Hr.
Qed.

(** The first read opens the file; on a non-empty file it is the read of an
    open log at position 0. *)
Lemma replay_first {S} (step : S -> Z -> bytes -> S) fuel dir id file state :
  dir !! id = Some file -> file <> [] -> Z.of_nat (length file) < 2 ^ 31 ->
  forall cursor wal_size,
  wal_replay step fuel dir (wal_load id) cursor wal_size state =
  wal_replay step fuel dir (wal_opened (wal_load id)) 0 (Z.of_nat (length file)) state.
Proof.
  intros Hdir Hne Hsize cursor wal_size.
  assert (wal_read dir (wal_load id) cursor wal_size =
    wal_read dir (wal_opened (wal_load id)) 0 (Z.of_nat (length file))) as Hr.
  { unfold wal_read. cbn [wal_load wal_opened wal_log wal_current_file negb]. rewrite Hdir.
    cbn [from_option Datatypes.id]. rewrite s32_small by lia. rewrite u64_small by (unfold is_u64; lia).
    destruct (Z.leb_spec (Z.of_nat (length file)) 0); [destruct file; simpl in *; [done|lia]|done]. }
  destruct fuel; cbn [wal_replay]; by rewrite Hr.
Qed.

Lemma length_wal_bytes rs : (length rs <= length (wal_bytes rs))%nat.
Proof.
  induction rs as [|r rs IH]; [done|]. unfold wal_bytes in *. cbn [map concat length].
  rewrite length_app, length_encode_record. lia.
Qed.

Lemma replay_complete {S} (step : S -> Z -> bytes -> S) fuel dir id rs state :
  Forall record_ok rs -> rs <> [] -> dir !! id = Some (wal_bytes rs) ->
  Z.of_nat (length (wal_bytes rs)) < 2 ^ 31 -> (length rs <= fuel)%nat ->
  wal_replay step fuel dir (wal_load id) 0 0 state =
    (apply_records step rs state, -3, wal_opened (wal_load id)).
Proof.
  intros Hok Hne Hdir Hsize Hfuel. pose proof (length_wal_bytes rs) as Hle.
  rewrite (replay_first step _ dir id (wal_bytes rs)); [|done| |done].
  2: { intros E. rewrite E in Hle. destruct rs; simpl in Hle; [done|lia]. }
  replace fuel with (length rs + (fuel - length rs))%nat by lia.
  pose proof (replay_records step rs (fuel - length rs) dir (wal_opened (wal_load id))
    [] [] state Hok eq_refl eq_refl) as Hr.
  cbn [app] in Hr. change (Z.of_nat (length [])) with 0 in Hr. rewrite app_nil_r in Hr.
  rewrite Hr by done. by apply replay_end; [|lia].
Qed.

Lemma replay_torn {S} (step : S -> Z -> bytes -> S) fuel dir id rs r torn state :
  Forall record_ok rs -> record_ok r -> no_legacy_collision r ->
  torn `prefix_of` encode_record r -> torn <> encode_record r -> torn <> [] ->
  dir !! id = Some (wal_bytes rs ++ torn) -> Z.of_nat (length (wal_bytes rs ++ torn)) < 2 ^ 31 ->
  (length rs <= fuel)%nat ->
  let '(state', code, _) := wal_replay step fuel dir (wal_load id) 0 0 state in
  state' = apply_records step rs state /\ 0 < code <= 4.
Proof.
  intros Hok Hr Hcoll Hpre Hne Hnil Hdir Hsize Hfuel.
  assert (wal_bytes rs ++ torn <> []) as Hne' by (by intros [_ ?]%app_eq_nil).
  rewrite (replay_first step _ dir id _ state Hdir Hne' Hsize).
  replace fuel with (length rs + (fuel - length rs))%nat by lia.
  pose proof (replay_records step rs (fuel - length rs) dir
    (wal_opened (wal_load id)) [] torn state Hok eq_refl eq_refl Hdir Hsize) as Hrec.
  cbn [app] in Hrec. change (Z.of_nat (length [])) with 0 in Hrec. rewrite Hrec. clear Hrec.
  pose proof (read_record_torn (wal_bytes rs) r torn (wal_opened (wal_load id))
    (Z.of_nat (length (wal_bytes rs ++ torn))) Hr Hcoll eq_refl Hpre Hne Hnil) as Ht. cbn zeta in Ht.
  assert (wal_read dir (wal_opened (wal_load id)) (Z.of_nat (length (wal_bytes rs)))
    (Z.of_nat (length (wal_bytes rs ++ torn))) =
    wal_read_record (wal_bytes rs ++ torn) (wal_opened (wal_load id)) (Z.of_nat (length (wal_bytes rs)))
    (Z.of_nat (length (wal_bytes rs ++ torn)))) as Hread.
  { unfold wal_read. cbn [wal_opened wal_load wal_log wal_current_file negb]. rewrite Hdir.
    rewrite u64_small by (unfold is_u64; lia). cbn [from_option Datatypes.id].
    destruct (Z.leb_spec (Z.of_nat (length (wal_bytes rs ++ torn))) (Z.of_nat (length (wal_bytes rs)))) as [Hb|];
      [|done]. rewrite length_app in Hb. destruct torn; simpl in *; [done|lia]. }
  destruct Ht as (Hcode & Hdata & _).
  destruct (fuel - length rs)%nat; cbn [wal_replay]; rewrite Hread, ?Hdata; auto.
Qed.

Lemma replay_empty {S} (step : S -> Z -> bytes -> S) fuel dir id state :
  default [] (dir !! id) = [] ->
  wal_replay step fuel dir (wal_load id) 0 0 state = (state, WAL_ERR_SHORT_TYPE, wal_opened (wal_load id)).
Proof.
  intros Hd.
  assert (wal_read dir (wal_load id) 0 0 = mk_read WAL_ERR_SHORT_TYPE (wal_opened (wal_load id)) 0 None 0 0) as Hr.
  { unfold wal_read. cbn [wal_load wal_log wal_current_file negb]. rewrite Hd. reflexivity. }
  destruct fuel; cbn [wal_replay]; rewrite Hr; done.
Qed.

(** A prefix of a log is complete records, then at most one torn one. *)
Lemma wal_bytes_prefix rs : forall content,
  content `prefix_of` wal_bytes rs ->
  exists n torn, content = wal_bytes (take n rs) ++ torn /\
    (torn = [] \/ exists r, r ∈ rs /\ torn `prefix_of` encode_record r /\ torn <> encode_record r /\ torn <> []).
Proof.
  induction rs as [|r rs IH]; intros content Hpre.
  { exists 0%nat, []. split; [|by left]. by apply prefix_nil_inv in Hpre. }
  change (wal_bytes (r :: rs)) with (encode_record r ++ wal_bytes rs) in Hpre.
  destruct (prefix_weak_total _ _ _ Hpre (prefix_app_r _ _ (wal_bytes rs) (reflexivity (encode_record r)))) as [Hle|Hge].
  - destruct (decide (content = [])) as [->|Hne]; [exists 0%nat, []; split; auto|].
    destruct (decide (content = encode_record r)) as [->|Hnr].
    + exists 1%nat, []. split; [|by left]. cbn [take]. unfold wal_bytes. cbn [map concat]. by rewrite !app_nil_r.
    + exists 0%nat, content. split; [done|]. right. exists r. split; [set_solver|done].
  - destruct Hge as [rest ->]. apply prefix_app_inv in Hpre. destruct (IH rest Hpre) as (n & torn & -> & Htorn).
    exists (S n), torn. split; [cbn [take]; unfold wal_bytes; cbn [map concat]; by rewrite <- app_assoc|].
    destruct Htorn as [?|(r' & Hr' & ?)]; [by left|right]. exists r'. split; [set_solver|done].
Qed.

(** Whatever prefix of a log was written, a prefix of its records is replayed. *)
Lemma replay_prefix {S} (step : S -> Z -> bytes -> S) fuel dir id rs content state :
  Forall record_ok rs -> Forall no_legacy_collision rs -> content `prefix_of` wal_bytes rs ->
  default [] (dir !! id) = content -> Z.of_nat (length content) < 2 ^ 31 -> (length content <= fuel)%nat ->
  exists n code wal, wal_replay step fuel dir (wal_load id) 0 0 state = (apply_records step (take n rs) state, code, wal).
Proof.
  intros Hok Hcoll Hpre Hdir Hsize Hfuel.
  destruct (decide (content = [])) as [->|Hne]; [by exists 0%nat; eexists _, _; rewrite replay_empty|].
  assert (dir !! id = Some content) as Hdir' by (by destruct (dir !! id); cbn in Hdir; subst).
  destruct (wal_bytes_prefix _ _ Hpre) as (n & torn & Hc & Htorn).
  assert (length (take n rs) <= fuel)%nat.
  { pose proof (length_wal_bytes (take n rs)). rewrite Hc, length_app in Hfuel. lia. }
  assert (Forall record_ok (take n rs)) by (by apply Forall_take). exists n.
  destruct Htorn as [->|(r & Hr & Hp & Hn & Hnil)].
  - rewrite app_nil_r in Hc. rewrite Hc in Hne, Hdir', Hsize. eexists _, _. apply replay_complete; auto. by intros E; rewrite E in Hne.
  - rewrite Forall_forall in Hok, Hcoll. rewrite Hc in Hdir', Hsize.
    pose proof (replay_torn step fuel dir id (take n rs) r torn state) as Ht.
    destruct (wal_replay _ _ _ _ _ _ _) as [[st code] wal]. eexists _, _. f_equal. f_equal. by apply Ht; auto.
Qed.

(** ** Writing records *)

Definition write_records (dir : wal_dir) (wal : wal_t) (rs : list wal_record) : wal_dir * wal_t :=
  fold_left (fun acc r => wal_write wal_io_ok acc.1 acc.2 r.1 r.2) rs (dir, wal).

Lemma write_records_spec dir wal rs :
  rs <> [] ->
  let '(dir', wal') := write_records dir wal rs in
  dir' !! wal_current_file wal = Some (default [] (dir !! wal_current_file wal) ++ wal_bytes rs) /\
  wal_current_file wal' = wal_current_file wal /\
  (forall id, id <> wal_current_file wal -> dir' !! id = dir !! id).
Proof.
  unfold write_records. revert dir wal. induction rs as [|r rs IH]; intros dir wal Hne; [done|].
  cbn [fold_left fst snd]. unfold wal_write at 2. cbn [wal_io_ok wio_open negb andb]. rewrite andb_false_r.
  cbn [transferred wio_type wio_crc wio_data wal_io_ok].
  set (dir1 := <[wal_current_file wal := _]> dir).
  assert (dir1 !! wal_current_file wal = Some (default [] (dir !! wal_current_file wal) ++ encode_record r)) as H1
    by (subst dir1; by rewrite lookup_insert_eq).
  assert (forall id, id <> wal_current_file wal -> dir1 !! id = dir !! id) as H2
    by (intros id Hid; subst dir1; by rewrite lookup_insert_ne).
  destruct rs as [|r' rs].
  - cbn [fold_left]. split_and!; [|done|done]. rewrite H1. unfold wal_bytes. cbn [map concat]. by rewrite app_nil_r.
  - specialize (IH dir1 (wal_opened wal) ltac:(done)).
    destruct (fold_left _ _ _) as [dir' wal']. destruct IH as (IH1 & IH2 & IH3).
    cbn [wal_opened wal_current_file] in *. split_and!; [|done|intros; rewrite IH3, H2; done].
    rewrite IH1, H1. cbn [from_option Datatypes.id]. unfold wal_bytes. cbn [map concat]. by rewrite <- !app_assoc.
Qed.

End Wal.

(** ** Properties *)

(** What is written is replayed: the records written to a new log are
    handed to the replay in the order written, and the replay ends with the
    clean end-of-file code. *)
Theorem wal_write_replay `{Xxh32} {S} (step : S -> Z -> bytes -> S) (dir : wal_dir) (id : Z)
    (rs : list wal_record) (state : S) :
  dir !! id = None -> rs <> [] -> Forall record_ok rs -> Z.of_nat (length (wal_bytes rs)) < 2 ^ 31 ->
  let '(dir', _) := write_records dir (wal_create id) rs in
  let '(state', code, _) := wal_replay step (length (wal_bytes rs)) dir' (wal_load id) 0 0 state in
  state' = apply_records step rs state /\ code = -3.
Proof.
  intros Hnew Hne Hok Hsize. pose proof (write_records_spec dir (wal_create id) rs Hne) as Hw.
  destruct (write_records dir (wal_create id) rs) as [dir' wal'].
  cbn [wal_create wal_current_file] in Hw. rewrite Hnew in Hw. destruct Hw as (Hfile & _).
  by rewrite (replay_complete step _ dir' id rs state Hok Hne Hfile Hsize (length_wal_bytes rs)).
Qed.

(** A checksum for examples. *)
Definition toy_xxh32 : Xxh32 := {|
  XXH32 data := u32 (Z.of_nat (length data) + le_value data);
  xxh32_u32 data := u32_range _
|}.

Lemma wal_write_replay_witness :
  let rs := [(removal, replicate 34 7); (addition, replicate 86 1)] in
  let '(dir', _) := write_records (H := toy_xxh32) ∅ (wal_create 1) rs in
  let '(state', code, _) := wal_replay (H := toy_xxh32) (fun s t d => s ++ [(t, length d)]) 
                              (length (wal_bytes (H := toy_xxh32) rs)) dir' (wal_load 1) 0 0 [] in
  state' = [(114, 34%nat); (97, 86%nat)] /\ code = -3.
Proof.
  intros rs. apply (wal_write_replay (H := toy_xxh32) (fun s t d => s ++ [(t, length d)]) ∅ 1 rs []).
  - reflexivity.
  - discriminate.
  - repeat constructor.
  - vm_compute. reflexivity.
Defined.

(** A crash in the middle of a write costs only the record being written:
    replay of a log whose last record is cut off anywhere applies exactly the
    complete records and then stops with a recoverable error code, provided
    the checksum of a torn addition or increment does not collide with that of
    its first 78 bytes (the legacy framing that is tried as well). *)
Theorem wal_torn_tail `{Xxh32} {S} (step : S -> Z -> bytes -> S) (dir : wal_dir) (id : Z)
    (rs : list wal_record) (r : wal_record) (torn : bytes) (state : S) :
  Forall record_ok rs -> record_ok r -> no_legacy_collision r ->
  torn `prefix_of` encode_record r -> torn <> encode_record r -> torn <> [] ->
  dir !! id = Some (wal_bytes rs ++ torn) -> Z.of_nat (length (wal_bytes rs ++ torn)) < 2 ^ 31 ->
  let '(state', code, _) :=
    wal_replay step (length (wal_bytes rs ++ torn)) dir (wal_load id) 0 0 state in
  state' = apply_records step rs state /\ 0 < code <= 4.
Proof.
  intros. apply (replay_torn step _ dir id rs r torn state); try done.
  pose proof (length_wal_bytes rs). rewrite length_app. lia.
Qed.

Lemma wal_torn_tail_witness :
  let rs := [(removal, replicate 34 7)] in
  let r := (addition, replicate 86 1) in
  let torn := take 88 (encode_record (H := toy_xxh32) r) in
  let dir := {[ 1 := wal_bytes (H := toy_xxh32) rs ++ torn ]} : wal_dir in
  let '(state', code, _) :=
    wal_replay (H := toy_xxh32) (fun s t d => s ++ [(t, length d)])
      (length (wal_bytes (H := toy_xxh32) rs ++ torn)) dir (wal_load 1) 0 0 [] in
  state' = [(114, 34%nat)] /\ 0 < code <= 4.
Proof.
  intros rs r torn dir.
  apply (wal_torn_tail (H := toy_xxh32) (fun s t d => s ++ [(t, length d)]) dir 1 rs r torn []).
  - repeat constructor.
  - reflexivity.
  - intros _. vm_compute. discriminate.
  - apply prefix_take.
  - intros E%(f_equal length). vm_compute in E. discriminate E.
  - vm_compute. discriminate.
  - apply lookup_singleton_eq.
  - vm_compute. reflexivity.
Defined.

(** An empty log (one nothing was written to, which the reader creates)
    is not reported as a clean end of file: the first read returns
    WAL_ERR_SHORT_TYPE, so a rebuild over several logs stops at it. *)
Theorem wal_empty_not_clean `{Xxh32} {S} (step : S -> Z -> bytes -> S) (fuel : nat) (dir : wal_dir)
    (id : Z) (state : S) :
  default [] (dir !! id) = [] ->
  let '(state', code, _) := wal_replay step fuel dir (wal_load id) 0 0 state in
  state' = state /\ code = WAL_ERR_SHORT_TYPE.
Proof.
  intros Hd. by rewrite replay_empty.
Qed.

Lemma wal_empty_not_clean_witness :
  let '(state', code, _) := wal_replay (H := toy_xxh32) (fun (s : nat) _ _ => Datatypes.S s) 5 ∅ (wal_load 2) 0 0 0%nat in
  state' = 0%nat /\ code = 1.
Proof. apply (wal_empty_not_clean (H := toy_xxh32) _ 5 ∅ 2 0%nat). reflexivity. Defined.
