(* ===== verification/IndexEntry.v ===== *)
(** * IndexEntry: what the index stores about a block

    Models index_entry_t and its codec (src/src/BlockCache/index.c), and the
    payloads of the write-ahead log that are built from it.  The lemmas show
    that every payload has exactly the size wal.c frames it with and decodes
    to the entry it was made from; the replay theorems of IndexLog.v rest on
    them. *)

From S2P Require Import Prelude Cbor CborCodec Buffer Fibonacci Wal.
Local Open Scope Z_scope.

(** The hash is the contents of the entry's buffer. *)
Record index_entry_t := mk_entry {
  ie_counter : fibonacci_hit_counter_t;
  ie_hash : bytes;
  ie_section_id : Z;
  ie_section_index : Z;
  ie_ejection_date : Z;
  ie_ephemeral_count : Z;
  ie_pin_count : Z
}.

#[export] Instance index_entry_eq_dec : EqDecision index_entry_t.
Proof. solve_decision. Defined.

Definition BLAKE3_OUT_LEN : nat := 32.

Definition get_bit (hash : bytes) (index : nat) : bool :=
  negb (Z.land (Z.shiftr (nth (index / 8) hash 0) (Z.of_nat (index mod 8))) 1 =? 0).

Definition index_entry_create (hash : bytes) : index_entry_t :=
  mk_entry fibonacci_hit_counter_create hash 0 0 0 0 0.

Definition index_entry_is_servable (entry : option index_entry_t) : bool :=
  match entry with Some e => ie_ephemeral_count e =? 0 | None => false end.

Definition index_entry_from (hash : bytes) (section_id section_index ejection_date : Z)
    (counter : fibonacci_hit_counter_t) (ephemeral_count pin_count : Z) : index_entry_t :=
  mk_entry counter hash section_id section_index ejection_date ephemeral_count pin_count.

(** The entry afterwards and whether its rank rose. *)
Definition index_entry_increment (e : index_entry_t) : index_entry_t * Z :=
  let '(counter, promoted) := fibonacci_hit_counter_increment (ie_counter e) in
  (mk_entry counter (ie_hash e) (ie_section_id e) (ie_section_index e) (ie_ejection_date e)
     (ie_ephemeral_count e) (ie_pin_count e), promoted).

Definition index_entry_set_ejection_date (e : index_entry_t) (date : Z) : index_entry_t :=
  mk_entry (ie_counter e) (ie_hash e) (ie_section_id e) (ie_section_index e) date
    (ie_ephemeral_count e) (ie_pin_count e).

(** [entry->ephemeral_count = ...; entry->pin_count = ...]. *)
Definition set_entry_metadata (e : index_entry_t) (ephemeral pin : Z) : index_entry_t :=
  mk_entry (ie_counter e) (ie_hash e) (ie_section_id e) (ie_section_index e) (ie_ejection_date e)
    ephemeral pin.

Section Codec.
Context `{Cbor}.

Definition index_entry_to_cbor (e : index_entry_t) : option cbor_item :=
  counter ← fibonacci_hit_counter_to_cbor (ie_counter e);
  cbor_definite_array 7
    [counter; cbor_build_bytestring (ie_hash e); cbor_build_uint64 (ie_section_index e);
     cbor_build_uint64 (ie_section_id e); cbor_build_uint64 (ie_ejection_date e);
     cbor_build_uint16 (ie_ephemeral_count e); cbor_build_uint32 (ie_pin_count e)].

(** The optional fields saturate. *)
Definition optional_count (item : option cbor_item) (max : Z) : Z :=
  match item with
  | Some i => if cbor_isa_uint i then let v := cbor_get_int i in if max <? v then max else v else 0
  | None => 0
  end.

(** [None] also stands for a counter array of fewer than three items, which
    the code does not check. *)
Definition cbor_to_index_entry (cbor : cbor_item) : option index_entry_t :=
  if negb (cbor_isa_array cbor) || (cbor_array_size cbor <? 5)%nat then None
  else
    item0 ← cbor_array_get cbor 0;
    item1 ← cbor_array_get cbor 1;
    item2 ← cbor_array_get cbor 2;
    item3 ← cbor_array_get cbor 3;
    item4 ← cbor_array_get cbor 4;
    if negb (cbor_isa_array item0) || negb (cbor_isa_bytestring item1) ||
       negb (cbor_bytestring_length item1 =? BLAKE3_OUT_LEN)%nat ||
       negb (cbor_isa_uint item2) || negb (cbor_isa_uint item3) || negb (cbor_isa_uint item4)
    then None
    else
      counter ← cbor_to_fibonacci_hit_counter item0;
      let ephemeral_count :=
        optional_count (if (6 <=? cbor_array_size cbor)%nat then cbor_array_get cbor 5 else None) U16_MAX in
      let pin_count :=
        optional_count (if (7 <=? cbor_array_size cbor)%nat then cbor_array_get cbor 6 else None) U32_MAX in
      Some (index_entry_from (cbor_bytestring_handle item1) (cbor_get_int item3) (cbor_get_int item2)
              (cbor_get_int item4) counter ephemeral_count pin_count).

(** The items logged for a removal and for an ejection date. *)
Definition removal_item (hash : bytes) : cbor_item := cbor_build_bytestring hash.
Definition ejection_item (hash : bytes) (date : Z) : option cbor_item :=
  cbor_definite_array 2 [cbor_build_bytestring hash; cbor_build_uint64 date].
End Codec.

(** ** Well-formed entries: the fields have their C types, the hash 32 bytes *)

Record entry_wf (e : index_entry_t) : Prop := {
  ewf_fib : is_u32 (hc_fib (ie_counter e));
  ewf_count : is_u32 (hc_count (ie_counter e));
  ewf_threshold : is_u32 (hc_threshold (ie_counter e));
  ewf_hash_length : length (ie_hash e) = BLAKE3_OUT_LEN;
  ewf_hash : is_bytes (ie_hash e);
  ewf_section_id : is_u64 (ie_section_id e);
  ewf_section_index : is_u64 (ie_section_index e);
  ewf_date : is_u64 (ie_ejection_date e);
  ewf_ephemeral : is_u16 (ie_ephemeral_count e);
  ewf_pin : is_u32 (ie_pin_count e)
}.

Lemma get_bit_testbit hash i : get_bit hash i = Z.testbit (nth (i / 8) hash 0) (Z.of_nat (i mod 8)).
Proof. unfold get_bit. by rewrite shiftr_land_one by lia. Qed.

(** Byte strings of equal length with the same bits are equal. *)
Lemma bits_determine h1 h2 :
  is_bytes h1 -> is_bytes h2 -> length h1 = length h2 ->
  (forall i, (i < 8 * length h1)%nat -> get_bit h1 i = get_bit h2 i) -> h1 = h2.
Proof.
  intros H1 H2 Hlen Hbits. apply (nth_ext _ _ 0 0); [done|]. intros k Hk.
  assert (forall h, is_bytes h -> is_u8 (nth k h 0)) as Hu8.
  { intros h Hh. rewrite nth_lookup. destruct (h !! k) as [x|] eqn:E; simpl; [|unfold is_u8; lia].
    by apply (Forall_lookup_1 _ _ _ _ Hh E). }
  apply Z.bits_inj'. intros n Hn. destruct (Z.lt_ge_cases n 8) as [Hn8|Hn8].
  - specialize (Hbits (k * 8 + Z.to_nat n)%nat ltac:(lia)). rewrite !get_bit_testbit in Hbits.
    rewrite Nat.add_comm, Nat.div_add, Nat.Div0.mod_add, Nat.div_small, Nat.mod_small in Hbits by lia.
    by rewrite Nat.add_0_l, Z2Nat.id in Hbits by lia.
  - pose proof (Hu8 h1 H1). pose proof (Hu8 h2 H2). by rewrite !(testbit_above 8) by (done || lia).
Qed.

Lemma increment_entry_wf e : entry_wf e -> entry_wf (index_entry_increment e).1.
Proof.
  intros [H1 H2 H3 H4 H5 H6 H7 H8 H9 H10]. unfold index_entry_increment, fibonacci_hit_counter_increment.
  destruct (_ <? _); cbn [fst]; split; simpl; auto using u32_range; try (unfold is_u32; lia).
  apply fibonacci_u32, u32_range.
Qed.

Lemma increment_entry_hash e : ie_hash (index_entry_increment e).1 = ie_hash e.
Proof. unfold index_entry_increment. by destruct (fibonacci_hit_counter_increment _). Qed.

Section CodecFacts.
Context `{CborLaws}.

(** The item of an entry. *)
Lemma entry_to_cbor_some e : exists i, index_entry_to_cbor e = Some i.
Proof. eexists. reflexivity. Qed.

Lemma entry_roundtrip e i :
  entry_wf e -> index_entry_to_cbor e = Some i -> cbor_to_index_entry i = Some e.
Proof.
  intros [H1 H2 H3 H4 H5 H6 H7 H8 H9 H10] Hi. destruct (counter_cbor_roundtrip _ H1 H2 H3) as (c & Hc & Ht & Hback).
  unfold index_entry_to_cbor in Hi. rewrite Hc in Hi. cbn in Hi. injection Hi as <-.
  unfold cbor_to_index_entry. cbor_simp. cbn [length Nat.ltb Nat.leb].
  rewrite bool_decide_true by done. cbn [negb orb lookup list_lookup mbind option_bind].
  cbor_simp. rewrite Ht, H4, !bool_decide_true by done. cbn [negb orb Nat.eqb BLAKE3_OUT_LEN].
  rewrite Hback. cbn [mbind option_bind]. unfold optional_count. cbor_simp.
  rewrite !bool_decide_true by done. unfold is_u16, is_u32, U16_MAX, U32_MAX in *.
  rewrite (proj2 (Z.ltb_ge _ (ie_ephemeral_count e))), (proj2 (Z.ltb_ge _ (ie_pin_count e))) by lia.
  by destruct e.
Qed.
End CodecFacts.

Section Payloads.
Context {C : Cbor} {CL : CborLaws} {CS : CborSerial} {CSL : CborSerialLaws}.

Lemma entry_item_ok e i :
  entry_wf e -> index_entry_to_cbor e = Some i ->
  cbor_serializable i /\ length (cbor_serialize i) = 86%nat.
Proof.
  intros [H1 H2 H3 H4 H5 H6 H7 H8 H9 H10] Hi. cbn in Hi. injection Hi as <-.
  assert (Z.of_nat (length (ie_hash e)) < 2 ^ 64) by (rewrite H4; done).
  split.
  - apply serializable_array; [|done]. repeat constructor; try (apply serializable_uint; done).
    + apply serializable_array; [|done]. repeat constructor; apply serializable_uint; done.
    + by apply serializable_bytestring.
  - rewrite !serialize_array_length by (cbn; lia). cbn [map sum_list].
    rewrite !serialize_array_length by (cbn; lia). cbn [map sum_list]. unfold cbor_build_uint64, cbor_build_uint32, cbor_build_uint16.
    rewrite !serialize_uint_length, serialize_bytestring_length by (done || (rewrite H4; unfold BLAKE3_OUT_LEN; lia)).
    by rewrite H4.
Qed.

Lemma removal_item_ok hash :
  length hash = BLAKE3_OUT_LEN -> is_bytes hash ->
  cbor_serializable (removal_item hash) /\ length (cbor_serialize (removal_item hash)) = 34%nat.
Proof.
  intros Hl Hb. unfold removal_item. split.
  - apply serializable_bytestring; [done|]. by rewrite Hl.
  - rewrite serialize_bytestring_length by (rewrite Hl; unfold BLAKE3_OUT_LEN; lia). by rewrite Hl.
Qed.

Lemma ejection_item_ok hash date i :
  length hash = BLAKE3_OUT_LEN -> is_bytes hash -> is_u64 date -> ejection_item hash date = Some i ->
  cbor_serializable i /\ length (cbor_serialize i) = 44%nat.
Proof.
  intros Hl Hb Hd Hi. cbn in Hi. injection Hi as <-. split.
  - apply serializable_array; [|done]. repeat constructor; [|by apply serializable_uint].
    apply serializable_bytestring; [done|]. by rewrite Hl.
  - rewrite serialize_array_length by (cbn; lia). cbn [map sum_list].
    unfold cbor_build_uint64. rewrite serialize_uint_length, serialize_bytestring_length
      by (done || (rewrite Hl; unfold BLAKE3_OUT_LEN; lia)).
    by rewrite Hl.
Qed.
End Payloads.
