(* ===== verification/Index.v ===== *)
(** * Index: the trie from block hashes to entries

    Models the in-memory index of src/src/BlockCache/index.c: a binary trie
    over the bits of the hash with buckets at the leaves, the rank lists, and
    the write-ahead log records its operations emit.  Entries are shared
    between buckets and rank lists in the code; the rank lists only ever look
    at the (immutable) hash of an entry, so they are modelled as lists of
    hashes and an entry is updated in its bucket.

    The theorems show that the operations implement a finite map from hashes
    to entries ([index_find] is its lookup), that adding terminates within the
    256 bits of a hash for buckets of at least two entries, and what each
    operation logs. *)

From stdpp Require Import gmap.
From S2P Require Import Prelude Cbor Buffer Fibonacci Wal IndexEntry.
Local Open Scope Z_scope.

(** ** State *)

(** [node_null] is a NULL pointer: the code tolerates branches with one. *)
Inductive index_node_t :=
| node_null
| node_leaf (bucket : list index_entry_t)
| node_branch (l r : index_node_t).

Record index_t := mk_index {
  ix_root : index_node_t;
  ix_bucket_size : nat;
  ix_ranks : gmap Z (list (list Z));
  ix_wal : wal_t;
  ix_wal_dir : wal_dir;
  ix_wal_io : wal_io;              (* outcome of the platform calls of its log writes *)
  ix_last_increment_promoted : Z;
  ix_is_rebuilding : bool
}.

Definition set_root (ix : index_t) (root : index_node_t) : index_t :=
  mk_index root (ix_bucket_size ix) (ix_ranks ix) (ix_wal ix) (ix_wal_dir ix) (ix_wal_io ix)
    (ix_last_increment_promoted ix) (ix_is_rebuilding ix).
Definition set_ranks (ix : index_t) (ranks : gmap Z (list (list Z))) : index_t :=
  mk_index (ix_root ix) (ix_bucket_size ix) ranks (ix_wal ix) (ix_wal_dir ix) (ix_wal_io ix)
    (ix_last_increment_promoted ix) (ix_is_rebuilding ix).
Definition set_promoted (ix : index_t) (promoted : Z) : index_t :=
  mk_index (ix_root ix) (ix_bucket_size ix) (ix_ranks ix) (ix_wal ix) (ix_wal_dir ix) (ix_wal_io ix)
    promoted (ix_is_rebuilding ix).
Definition set_rebuilding (ix : index_t) (rebuilding : bool) : index_t :=
  mk_index (ix_root ix) (ix_bucket_size ix) (ix_ranks ix) (ix_wal ix) (ix_wal_dir ix) (ix_wal_io ix)
    (ix_last_increment_promoted ix) rebuilding.
Definition set_log (ix : index_t) (log : wal_dir * wal_t) : index_t :=
  mk_index (ix_root ix) (ix_bucket_size ix) (ix_ranks ix) log.2 log.1 (ix_wal_io ix)
    (ix_last_increment_promoted ix) (ix_is_rebuilding ix).

Definition index_node_create : index_node_t := node_leaf [].

Definition is_null (node : index_node_t) : bool := match node with node_null => true | _ => false end.

(** ** Rank lists *)

Definition same_hash (h1 h2 : bytes) : bool := compare_bytes h1 h2 =? 0.

(** [vec_push] onto the list of [key], created when missing. *)
Definition rank_push (ranks : gmap Z (list (list Z))) (key : Z) (hash : bytes) : gmap Z (list (list Z)) :=
  <[key := default [] (ranks !! key) ++ [hash]]> ranks.

Fixpoint remove_first (hash : bytes) (l : list (list Z)) : list (list Z) :=
  match l with
  | [] => []
  | h :: t => if same_hash h hash then t else h :: remove_first hash t
  end.

Definition rank_remove (ranks : gmap Z (list (list Z))) (key : Z) (hash : bytes) : gmap Z (list (list Z)) :=
  match ranks !! key with
  | Some l => <[key := remove_first hash l]> ranks
  | None => ranks
  end.

(** The position and value of the first entry of the bucket with the hash. *)
Fixpoint bucket_find (bucket : list index_entry_t) (hash : bytes) : option (nat * index_entry_t) :=
  match bucket with
  | [] => None
  | e :: rest =>
      if same_hash (ie_hash e) hash then Some (0%nat, e)
      else '(i, e) ← bucket_find rest hash; Some (S i, e)
  end.

Section Index.
Context {C : Cbor} {CS : CborSerial} {X : Xxh32}.

(** ** Logging *)

(** [cbor_serialize_alloc] and [wal_write], unless the index is rebuilding. *)
Definition index_log (ix : index_t) (type : wal_type_e) (item : option cbor_item) : index_t :=
  if ix_is_rebuilding ix then ix
  else match item with
       | Some i => set_log ix (wal_write (ix_wal_io ix) (ix_wal_dir ix) (ix_wal ix) type (cbor_serialize i))
       | None => ix
       end.

(** ** Increment *)

(** [_index_increment] on an entry: the index and the entry afterwards. *)
Definition index_increment_entry (ix : index_t) (e : index_entry_t) : index_t * index_entry_t :=
  let ix := index_log ix increment (index_entry_to_cbor e) in
  let '(e', promoted) := index_entry_increment e in
  let ix := set_promoted ix (u8 promoted) in
  if negb (u8 promoted =? 0) then
    let ranks := rank_remove (ix_ranks ix) (u32 (hc_fib (ie_counter e') - 1)) (ie_hash e') in
    (set_ranks ix (rank_push ranks (hc_fib (ie_counter e')) (ie_hash e')), e')
  else (ix, e').

(** ** Adding *)

(** [index_add_to_node] with [index_split_node]; [None] is exhausted fuel. *)
Fixpoint index_add_to_node (fuel : nat) (ix : index_t) (entry : index_entry_t) (node : index_node_t)
    (current : nat) : option (index_t * index_node_t) :=
  match fuel with
  | O => None
  | S fuel =>
      match node with
      | node_null => Some (ix, node)
      | node_branch l r =>
          if is_null l || is_null r then Some (ix, node)
          else if get_bit (ie_hash entry) (current + 1) then
            '(ix, r) ← index_add_to_node fuel ix entry r (current + 1);
            Some (ix, node_branch l r)
          else
            '(ix, l) ← index_add_to_node fuel ix entry l (current + 1);
            Some (ix, node_branch l r)
      | node_leaf bucket =>
          match bucket_find bucket (ie_hash entry) with
          | Some (i, cur) =>
              if ix_is_rebuilding ix then Some (ix, node)
              else let '(ix, cur) := index_increment_entry ix cur in Some (ix, node_leaf (<[i := cur]> bucket))
          | None =>
              let ix :=
                if (hc_fib (ie_counter entry) =? 0) && (hc_count (ie_counter entry) =? 0)
                then set_ranks ix (rank_push (ix_ranks ix) (hc_fib (ie_counter entry)) (ie_hash entry))
                else ix in
              if (length bucket <? ix_bucket_size ix)%nat then
                let ix := index_log ix addition (index_entry_to_cbor entry) in
                Some (ix, node_leaf (bucket ++ [entry]))
              else
                '(ix, node) ←
                  fold_left (fun acc e => '(ix, node) ← acc; index_add_to_node fuel ix e node current)
                    bucket (Some (ix, node_branch index_node_create index_node_create));
                index_add_to_node fuel ix entry node current
          end
      end
  end.

(** Two calls per bit of the hash, see [add_to_node_spec]. *)
Definition add_fuel : nat := 512.

Definition index_add (ix : index_t) (entry : index_entry_t) : option index_t :=
  '(ix, root) ← index_add_to_node add_fuel ix entry (ix_root ix) 0;
  Some (set_root ix root).

(** ** Lookup *)

Fixpoint index_find_in_node (hash : bytes) (node : index_node_t) (current : nat) : option index_entry_t :=
  match node with
  | node_null => None
  | node_branch l r =>
      if is_null l || is_null r then None
      else if get_bit hash (current + 1) then index_find_in_node hash r (current + 1)
      else index_find_in_node hash l (current + 1)
  | node_leaf bucket => snd <$> bucket_find bucket hash
  end.

Definition index_find (ix : index_t) (hash : bytes) : option index_entry_t :=
  index_find_in_node hash (ix_root ix) 0.

Definition index_peek (ix : index_t) (hash : bytes) : option index_entry_t :=
  if is_null (ix_root ix) then None else index_find_in_node hash (ix_root ix) 0.

(** A hit increments the entry; the result is the entry afterwards. *)
Fixpoint index_get_from_node (ix : index_t) (hash : bytes) (node : index_node_t) (current : nat)
  : index_t * index_node_t * option index_entry_t :=
  match node with
  | node_null => (ix, node, None)
  | node_branch l r =>
      if is_null l || is_null r then (ix, node, None)
      else if get_bit hash (current + 1) then
        let '(ix, r, e) := index_get_from_node ix hash r (current + 1) in
        (ix, node_branch l r, e)
      else
        let '(ix, l, e) := index_get_from_node ix hash l (current + 1) in
        (ix, node_branch l r, e)
  | node_leaf bucket =>
      match bucket_find bucket hash with
      | Some (i, cur) =>
          let '(ix, cur) := index_increment_entry ix cur in
          (ix, node_leaf (<[i := cur]> bucket), Some cur)
      | None => (ix, node, None)
      end
  end.

Definition index_get (ix : index_t) (hash : bytes) : index_t * option index_entry_t :=
  let '(ix, root, e) := index_get_from_node ix hash (ix_root ix) 0 in (set_root ix root, e).

(** ** Removal *)

Fixpoint index_remove_from_node (ix : index_t) (hash : bytes) (node : index_node_t) (current : nat)
  : index_t * index_node_t :=
  match node with
  | node_null => (ix, node)
  | node_branch l r =>
      if is_null l || is_null r then (ix, node)
      else if get_bit hash (current + 1) then
        let '(ix, r) := index_remove_from_node ix hash r (current + 1) in
        (ix, node_branch l r)
      else
        let '(ix, l) := index_remove_from_node ix hash l (current + 1) in
        (ix, node_branch l r)
  | node_leaf bucket =>
      match bucket_find bucket hash with
      | Some (i, cur) =>
          let ix := index_log ix removal (Some (removal_item (ie_hash cur))) in
          let ix := set_ranks ix (rank_remove (ix_ranks ix) (hc_fib (ie_counter cur)) (ie_hash cur)) in
          (ix, node_leaf (delete i bucket))
      | None => (ix, node)
      end
  end.

Definition index_remove (ix : index_t) (hash : bytes) : index_t :=
  let '(ix, root) := index_remove_from_node ix hash (ix_root ix) 0 in set_root ix root.

(** ** Operations through an entry pointer *)

(** What a write through the pointer [index_find] returns does to the tree. *)
Fixpoint update_in_node (f : index_entry_t -> index_entry_t) (hash : bytes) (node : index_node_t)
    (current : nat) : index_node_t :=
  match node with
  | node_null => node
  | node_branch l r =>
      if is_null l || is_null r then node
      else if get_bit hash (current + 1) then node_branch l (update_in_node f hash r (current + 1))
      else node_branch (update_in_node f hash l (current + 1)) r
  | node_leaf bucket =>
      match bucket_find bucket hash with
      | Some (i, cur) => node_leaf (<[i := f cur]> bucket)
      | None => node
      end
  end.

Definition update_entry (ix : index_t) (hash : bytes) (f : index_entry_t -> index_entry_t) : index_t :=
  set_root ix (update_in_node f hash (ix_root ix) 0).

(** [index_increment] on the entry [index_find] returns for the hash. *)
Definition index_increment (ix : index_t) (hash : bytes) : index_t :=
  match index_find ix hash with
  | Some e => let '(ix, e) := index_increment_entry ix e in update_entry ix hash (fun _ => e)
  | None => ix
  end.

Definition index_set_entry_ejection (ix : index_t) (hash : bytes) (date : Z) : index_t :=
  match index_find ix hash with
  | Some e =>
      let ix := index_log ix ejection (ejection_item (ie_hash e) date) in
      update_entry ix hash (fun e => index_entry_set_ejection_date e date)
  | None => ix
  end.

Definition index_write_entry_metadata (ix : index_t) (e : index_entry_t) : index_t :=
  index_log ix metadata (index_entry_to_cbor e).

(** ** Size and enumeration *)

Fixpoint index_node_count (node : index_node_t) : nat :=
  match node with
  | node_null => 0
  | node_branch l r => index_node_count l + index_node_count r
  | node_leaf bucket => length bucket
  end.
Definition index_count (ix : index_t) : nat := index_node_count (ix_root ix).

Fixpoint index_node_to_array (node : index_node_t) (entries : list index_entry_t) : list index_entry_t :=
  match node with
  | node_null => entries
  | node_branch l r => index_node_to_array r (index_node_to_array l entries)
  | node_leaf bucket => fold_left (fun acc e => acc ++ [e]) bucket entries
  end.
Definition index_to_array (ix : index_t) : list index_entry_t := index_node_to_array (ix_root ix) [].
End Index.

(** ** Buckets *)

Lemma same_hash_eq h1 h2 : same_hash h1 h2 = true <-> h1 = h2.
Proof. unfold same_hash. rewrite Z.eqb_eq. apply compare_bytes_eq. Qed.

Lemma same_hash_refl h : same_hash h h = true.
Proof. by apply same_hash_eq. Qed.

Lemma same_hash_neq h1 h2 : h1 <> h2 -> same_hash h1 h2 = false.
Proof. intros Hne. apply not_true_iff_false. by rewrite same_hash_eq. Qed.

Definition bucket_lookup (bucket : list index_entry_t) (hash : bytes) : option index_entry_t :=
  snd <$> bucket_find bucket hash.

Lemma bucket_find_some b h i e :
  bucket_find b h = Some (i, e) -> b !! i = Some e /\ ie_hash e = h.
Proof.
  revert i. induction b as [|x b IH]; intros i; cbn [bucket_find]; [done|].
  destruct (same_hash (ie_hash x) h) eqn:Hx.
  - intros [= <- <-]. split; [done|]. by apply same_hash_eq.
  - destruct (bucket_find b h) as [[j y]|]; cbn; [|done]. intros [= <- <-]. by apply IH.
Qed.

Lemma bucket_find_none b h : bucket_find b h = None <-> h ∉ map ie_hash b.
Proof.
  induction b as [|x b IH]; cbn [bucket_find map]; [split; [intros _; apply not_elem_of_nil|done]|].
  rewrite not_elem_of_cons, <- IH. destruct (same_hash (ie_hash x) h) eqn:Hx.
  - apply same_hash_eq in Hx. naive_solver.
  - assert (h <> ie_hash x) by (intros ->; by rewrite same_hash_refl in Hx).
    destruct (bucket_find b h) as [[j y]|]; cbn; naive_solver.
Qed.

Lemma bucket_lookup_app b1 b2 h :
  bucket_lookup (b1 ++ b2) h = match bucket_lookup b1 h with Some e => Some e | None => bucket_lookup b2 h end.
Proof.
  unfold bucket_lookup. induction b1 as [|x b1 IH]; [done|]. cbn [app bucket_find].
  destruct (same_hash (ie_hash x) h); [done|]. revert IH.
  destruct (bucket_find (b1 ++ b2) h) as [[]|], (bucket_find b1 h) as [[]|]; done.
Qed.

Lemma bucket_lookup_one e h : bucket_lookup [e] h = if decide (h = ie_hash e) then Some e else None.
Proof.
  unfold bucket_lookup. cbn [bucket_find]. case_decide as Hd.
  - subst. by rewrite same_hash_refl.
  - rewrite same_hash_neq by congruence. done.
Qed.

Lemma bucket_lookup_elem b h e :
  NoDup (map ie_hash b) -> bucket_lookup b h = Some e <-> e ∈ b /\ ie_hash e = h.
Proof.
  intros Hnd. unfold bucket_lookup. split.
  - destruct (bucket_find b h) as [[i x]|] eqn:Hf; cbn; [|done]. intros [= <-].
    apply bucket_find_some in Hf as [Hl Hh]. split; [by eapply list_elem_of_lookup_2|done].
  - intros [He Hh]. destruct (bucket_find b h) as [[i x]|] eqn:Hf; cbn.
    + apply bucket_find_some in Hf as [Hl Hx]. apply list_elem_of_lookup in He as [j Hj].
      assert (i = j) as <-; [|congruence].
      apply (NoDup_lookup (map ie_hash b) _ _ h Hnd); rewrite list_lookup_fmap; [rewrite Hl|rewrite Hj]; cbn; congruence.
    + apply bucket_find_none in Hf. destruct Hf. rewrite <- Hh. by apply (list_elem_of_fmap_2 ie_hash).
Qed.

Lemma map_hash_insert b i x y :
  b !! i = Some x -> ie_hash y = ie_hash x -> map ie_hash (<[i := y]> b) = map ie_hash b.
Proof.
  intros Hi Hh. change (ie_hash <$> <[i := y]> b = ie_hash <$> b). rewrite list_fmap_insert, Hh.
  apply list_insert_id. rewrite list_lookup_fmap, Hi. done.
Qed.
