(* ===== verification/IndexMap.v ===== *)
(** * IndexMap: the trie implements a finite map

    The well-formedness invariant of the trie of Index.v, the finite map it
    stands for, and the refinement theorems of its operations: each changes
    the map as its name says, keeps the invariant, and appends the records of
    the events it performed to the write-ahead log. *)

From stdpp Require Import gmap.
From S2P Require Import Prelude Cbor CborCodec Buffer Fibonacci Wal IndexEntry Index.
Local Open Scope Z_scope.

(** ** Invariant *)

(** The bits 1 to [d] of the hash are those of the path; bit 0 is not used. *)
Definition on_path (d : nat) (p : nat -> bool) (h : bytes) : Prop :=
  forall i, (1 <= i <= d)%nat -> get_bit h i = p i.

Definition extend (p : nat -> bool) (d : nat) (b : bool) : nat -> bool :=
  fun i => if (i =? d)%nat then b else p i.

(** The node at depth [d] reached by the path. *)
Fixpoint node_wf (bucket_size d : nat) (p : nat -> bool) (node : index_node_t) : Prop :=
  match node with
  | node_null => False
  | node_leaf bucket =>
      (length bucket <= bucket_size)%nat /\ NoDup (map ie_hash bucket) /\
      Forall (fun e => entry_wf e /\ on_path d p (ie_hash e)) bucket
  | node_branch l r =>
      (d < 255)%nat /\ node_wf bucket_size (d + 1) (extend p (d + 1) false) l /\
      node_wf bucket_size (d + 1) (extend p (d + 1) true) r
  end.

Definition root_path : nat -> bool := fun _ => false.

Definition index_wf (ix : index_t) : Prop :=
  (2 <= ix_bucket_size ix)%nat /\ node_wf (ix_bucket_size ix) 0 root_path (ix_root ix).

Lemma wf_not_null bs d p node : node_wf bs d p node -> is_null node = false.
Proof. by destruct node. Qed.

Lemma on_path_extend d p h :
  on_path (d + 1) (extend p (d + 1) (get_bit h (d + 1))) h <-> on_path d p h.
Proof.
  unfold on_path, extend. split; intros H i Hi.
  - specialize (H i). destruct (Nat.eqb_spec i (d + 1)); [lia|]. apply H. lia.
  - destruct (Nat.eqb_spec i (d + 1)) as [->|]; [done|]. apply H. lia.
Qed.

Lemma on_path_agree d p b h :
  on_path (d + 1) (extend p (d + 1) b) h -> get_bit h (d + 1) = b.
Proof. intros H. rewrite (H (d + 1)%nat) by lia. unfold extend. by rewrite Nat.eqb_refl. Qed.

(** The child of a branch the hash goes to, and the branch with it replaced. *)
Definition child (h : bytes) (d : nat) (l r : index_node_t) : index_node_t :=
  if get_bit h (d + 1) then r else l.
Definition with_child (h : bytes) (d : nat) (l r c : index_node_t) : index_node_t :=
  if get_bit h (d + 1) then node_branch l c else node_branch c r.

Lemma branch_wf_child bs d p l r h :
  node_wf bs d p (node_branch l r) ->
  (d < 255)%nat /\ node_wf bs (d + 1) (extend p (d + 1) (get_bit h (d + 1))) (child h d l r).
Proof. intros (Hd & Hl & Hr). split; [done|]. unfold child. by destruct (get_bit h (d + 1)). Qed.

Lemma branch_wf_with_child bs d p l r h c :
  node_wf bs d p (node_branch l r) ->
  node_wf bs (d + 1) (extend p (d + 1) (get_bit h (d + 1))) c ->
  node_wf bs d p (with_child h d l r c).
Proof. intros (Hd & Hl & Hr) Hc. unfold with_child. by destruct (get_bit h (d + 1)). Qed.

(** Entries found in a node are well formed, on its path and have the hash. *)
Lemma find_elem bs d p node h e :
  node_wf bs d p node -> index_find_in_node h node d = Some e ->
  entry_wf e /\ on_path d p (ie_hash e) /\ ie_hash e = h.
Proof.
  revert d p. induction node as [|b|l IHl r IHr]; intros d p; cbn [node_wf index_find_in_node]; [done|..].
  - intros (_ & Hnd & Hall) (He & Hh)%bucket_lookup_elem; [|done].
    rewrite Forall_forall in Hall. destruct (Hall _ He). auto.
  - intros (_ & Hl & Hr). rewrite (wf_not_null _ _ _ _ Hl), (wf_not_null _ _ _ _ Hr). cbn [orb].
    destruct (get_bit h (d + 1)) eqn:Hb; intros Hf.
    + destruct (IHr _ _ Hr Hf) as (? & Hp & Hh). split_and!; auto. rewrite <- on_path_extend, Hh, Hb. by subst h.
    + destruct (IHl _ _ Hl Hf) as (? & Hp & Hh). split_and!; auto. rewrite <- on_path_extend, Hh, Hb. by subst h.
Qed.

Lemma find_branch bs d p l r h :
  node_wf bs d p (node_branch l r) ->
  index_find_in_node h (node_branch l r) d = index_find_in_node h (child h d l r) (d + 1).
Proof.
  intros (_ & Hl & Hr). cbn [index_find_in_node]. rewrite (wf_not_null _ _ _ _ Hl), (wf_not_null _ _ _ _ Hr).
  unfold child. by destruct (get_bit h (d + 1)).
Qed.

(** Replacing the child of [h0] changes the lookups that go to that child. *)
Lemma find_with_child bs d p l r h0 c h :
  node_wf bs d p (node_branch l r) ->
  node_wf bs (d + 1) (extend p (d + 1) (get_bit h0 (d + 1))) c ->
  index_find_in_node h (with_child h0 d l r c) d =
    if eqb (get_bit h (d + 1)) (get_bit h0 (d + 1)) then index_find_in_node h c (d + 1)
    else index_find_in_node h (node_branch l r) d.
Proof.
  intros Hwf Hc. pose proof (branch_wf_with_child _ _ _ _ _ _ _ Hwf Hc) as Hwf'.
  unfold with_child in *.
  destruct (get_bit h0 (d + 1)) eqn:H0; rewrite !(find_branch _ _ _ _ _ _ Hwf), (find_branch _ _ _ _ _ _ Hwf');
    unfold child; by destruct (get_bit h (d + 1)).
Qed.

(** An operation on the child of [h0] that changes only the lookup of [h0]
    changes only the lookup of [h0] in the branch. *)
Lemma find_with_child_at bs d p l r h0 c (v : option index_entry_t) :
  node_wf bs d p (node_branch l r) ->
  node_wf bs (d + 1) (extend p (d + 1) (get_bit h0 (d + 1))) c ->
  (forall h, index_find_in_node h c (d + 1) =
     if decide (h = h0) then v else index_find_in_node h (child h0 d l r) (d + 1)) ->
  forall h, index_find_in_node h (with_child h0 d l r c) d =
     if decide (h = h0) then v else index_find_in_node h (node_branch l r) d.
Proof.
  intros Hwf Hc Hfind h. rewrite (find_with_child _ _ _ _ _ _ _ _ Hwf Hc), Hfind.
  case_decide as Hd; [subst h; by rewrite eqb_reflx|].
  destruct (eqb (get_bit h (d + 1)) (get_bit h0 (d + 1))) eqn:Hb; [|done].
  apply eqb_prop in Hb. rewrite (find_branch _ _ _ _ _ _ Hwf). unfold child. by rewrite Hb.
Qed.

(** ** At most two hashes share the bits 1 to 255 *)

Lemma path_bit0 p h1 h2 :
  length h1 = BLAKE3_OUT_LEN -> is_bytes h1 -> length h2 = BLAKE3_OUT_LEN -> is_bytes h2 ->
  on_path 255 p h1 -> on_path 255 p h2 -> get_bit h1 0 = get_bit h2 0 -> h1 = h2.
Proof.
  intros L1 B1 L2 B2 P1 P2 H0. apply bits_determine; [done|done|congruence|].
  intros i Hi. rewrite L1 in Hi. unfold BLAKE3_OUT_LEN in Hi.
  destruct (decide (i = 0%nat)) as [->|]; [done|]. rewrite P1, P2 by lia. done.
Qed.

Lemma full_leaf_depth d p b entry :
  (2 <= length b)%nat -> NoDup (map ie_hash b) ->
  Forall (fun e => entry_wf e /\ on_path d p (ie_hash e)) b ->
  entry_wf entry -> on_path d p (ie_hash entry) -> ie_hash entry ∉ map ie_hash b -> (d <= 255)%nat ->
  (d < 255)%nat.
Proof.
  intros Hlen Hnd Hall He Hp Hnew Hd. destruct (decide (d = 255%nat)) as [->|]; [exfalso|lia].
  destruct b as [|e1 [|e2 b]]; cbn in Hlen; [lia..|]. cbn in Hnd, Hnew.
  apply NoDup_cons in Hnd as [H12 _]. rewrite !not_elem_of_cons in Hnew. rewrite not_elem_of_cons in H12.
  apply Forall_cons in Hall as [[E1 P1] Hall]. apply Forall_cons in Hall as [[E2 P2] _].
  destruct E1 as [? ? ? L1 B1 ? ? ? ? ?], E2 as [? ? ? L2 B2 ? ? ? ? ?], He as [? ? ? L B ? ? ? ? ?].
  pose proof (path_bit0 p _ _ L1 B1 L2 B2 P1 P2). pose proof (path_bit0 p _ _ L B L1 B1 Hp P1).
  pose proof (path_bit0 p _ _ L B L2 B2 Hp P2).
  destruct (get_bit (ie_hash e1) 0), (get_bit (ie_hash e2) 0), (get_bit (ie_hash entry) 0); intuition.
Qed.

(** ** Log events *)

(** What a log record says was done. *)
Inductive event :=
| ev_add (e : index_entry_t)
| ev_increment (e : index_entry_t)
| ev_remove (hash : bytes)
| ev_eject (hash : bytes) (date : Z)
| ev_metadata (e : index_entry_t).

Abbreviation entry_map := (bytes -> option index_entry_t).

Section Map.
Context {C : Cbor} {CS : CborSerial} {X : Xxh32}.

Definition payload (item : option cbor_item) : bytes :=
  match item with Some i => cbor_serialize i | None => [] end.

Definition record_of (ev : event) : wal_record :=
  match ev with
  | ev_add e => (addition, payload (index_entry_to_cbor e))
  | ev_increment e => (increment, payload (index_entry_to_cbor e))
  | ev_remove h => (removal, payload (Some (removal_item h)))
  | ev_eject h d => (ejection, payload (ejection_item h d))
  | ev_metadata e => (metadata, payload (index_entry_to_cbor e))
  end.

Definition log_file (ix : index_t) : bytes := default [] (ix_wal_dir ix !! wal_current_file (ix_wal ix)).

(** [ix'] is [ix] up to its ranks, its promotion flag and its log, to which
    the events were appended. *)
Record extends (ix ix' : index_t) (evs : list event) : Prop := {
  ext_root : ix_root ix' = ix_root ix;
  ext_bucket_size : ix_bucket_size ix' = ix_bucket_size ix;
  ext_rebuilding : ix_is_rebuilding ix' = ix_is_rebuilding ix;
  ext_io : ix_wal_io ix' = ix_wal_io ix;
  ext_file : wal_current_file (ix_wal ix') = wal_current_file (ix_wal ix);
  ext_log : ix_wal_io ix = wal_io_ok -> log_file ix' = log_file ix ++ wal_bytes (map record_of evs);
  ext_others : forall id, id <> wal_current_file (ix_wal ix) -> ix_wal_dir ix' !! id = ix_wal_dir ix !! id;
  ext_next : wal_next_id (ix_wal ix') = wal_next_id (ix_wal ix)
}.

Lemma extends_refl ix : extends ix ix [].
Proof. split; try done. intros _. by rewrite app_nil_r. Qed.

Lemma wal_bytes_app rs1 rs2 : wal_bytes (rs1 ++ rs2) = wal_bytes rs1 ++ wal_bytes rs2.
Proof. unfold wal_bytes. by rewrite map_app, concat_app. Qed.

Lemma extends_trans ix1 ix2 ix3 evs1 evs2 :
  extends ix1 ix2 evs1 -> extends ix2 ix3 evs2 -> extends ix1 ix3 (evs1 ++ evs2).
Proof.
  intros [] []. split; try congruence.
  - intros Hio. rewrite map_app, wal_bytes_app, app_assoc, <- ext_log0 by done. apply ext_log1. congruence.
  - intros id Hid. rewrite ext_others1 by congruence. by apply ext_others0.
Qed.

Lemma extends_set_ranks ix ranks : extends ix (set_ranks ix ranks) [].
Proof. split; try done. intros _. by rewrite app_nil_r. Qed.

Lemma extends_set_promoted ix v : extends ix (set_promoted ix v) [].
Proof. split; try done. intros _. by rewrite app_nil_r. Qed.

(** What is logged outside of a rebuild. *)
Definition logged (ix : index_t) (evs : list event) : list event := if ix_is_rebuilding ix then [] else evs.

Lemma logged_nil ix : logged ix [] = [].
Proof. unfold logged. by destruct (ix_is_rebuilding ix). Qed.

Lemma extends_log ix type item ev :
  record_of ev = (type, payload item) -> is_Some item ->
  extends ix (index_log ix type item) (logged ix [ev]).
Proof.
  intros Hrec [i ->]. unfold index_log, logged. destruct (ix_is_rebuilding ix) eqn:Hr; [apply extends_refl|].
  unfold set_log, log_file, wal_write.
  split; cbn [ix_root ix_bucket_size ix_is_rebuilding ix_wal_io ix_wal ix_wal_dir fst snd]; try done.
  - by destruct (negb _ && negb _).
  - intros ->. unfold log_file. cbn [wal_io_ok wio_open negb ix_wal ix_wal_dir]. rewrite andb_false_r. cbn [fst snd wal_current_file wal_opened].
    rewrite lookup_insert_eq. cbn [from_option Datatypes.id map wal_bytes concat]. rewrite Hrec.
    unfold wal_bytes, encode_record. cbn [map concat]. rewrite app_nil_r. done.
  - intros id Hid. destruct (negb _ && negb _); [done|]. cbn [fst]. by rewrite lookup_insert_ne.
  - by destruct (negb _ && negb _).
Qed.

Lemma increment_entry_spec ix e :
  let '(ix', e') := index_increment_entry ix e in
  e' = (index_entry_increment e).1 /\ extends ix ix' (logged ix [ev_increment e]).
Proof.
  unfold index_increment_entry.
  pose proof (extends_log ix increment (index_entry_to_cbor e) (ev_increment e) eq_refl (ltac:(by eexists))) as Hx.
  destruct (index_entry_increment e) as [e' promoted] eqn:He.
  pose proof (extends_trans _ _ _ _ _ Hx (extends_set_promoted _ (u8 promoted))) as Hp.
  rewrite app_nil_r in Hp. destruct (negb _); [|done]. split; [done|].
  pose proof (extends_trans _ _ _ _ _ Hp (extends_set_ranks _
    (rank_push (rank_remove (ix_ranks (set_promoted (index_log ix increment (index_entry_to_cbor e)) (u8 promoted)))
       (u32 (hc_fib (ie_counter e') - 1)) (ie_hash e')) (hc_fib (ie_counter e')) (ie_hash e')))) as Hs.
  by rewrite app_nil_r in Hs.
Qed.

(** ** Adding *)

(** The entry of the hash after the addition. *)
Definition added (rebuilding : bool) (old : option index_entry_t) (entry : index_entry_t) : index_entry_t :=
  match old with
  | Some cur => if rebuilding then cur else (index_entry_increment cur).1
  | None => entry
  end.

(** What an addition logs: the increment of an entry already present, or the
    addition, after the additions of entries that a split moved. *)
Definition add_events (node : index_node_t) (d : nat) (entry : index_entry_t) (evs : list event) : Prop :=
  match index_find_in_node (ie_hash entry) node d with
  | Some cur => evs = [ev_increment cur]
  | None => exists moved, evs = map ev_add (moved ++ [entry]) /\
                          Forall (fun e => index_find_in_node (ie_hash e) node d = Some e) moved
  end.

Definition is_leaf (node : index_node_t) : bool := match node with node_leaf _ => true | _ => false end.

(** A leaf may split once per remaining bit, each split costing two calls. *)
Definition need (node : index_node_t) (d : nat) : nat :=
  (2 * (255 - d) + if is_leaf node then 1 else 0)%nat.

Definition add_ok (fuel : nat) : Prop :=
  forall ix entry node d p,
    (2 <= ix_bucket_size ix)%nat -> node_wf (ix_bucket_size ix) d p node -> (d <= 255)%nat ->
    entry_wf entry -> on_path d p (ie_hash entry) -> (need node d <= fuel)%nat ->
    exists ix' node' evs,
      index_add_to_node fuel ix entry node d = Some (ix', node') /\
      node_wf (ix_bucket_size ix) d p node' /\ (is_leaf node = false -> is_leaf node' = false) /\
      (forall h, index_find_in_node h node' d =
         if decide (h = ie_hash entry)
         then Some (added (ix_is_rebuilding ix) (index_find_in_node (ie_hash entry) node d) entry)
         else index_find_in_node h node d) /\
      add_events node d entry evs /\ extends ix ix' (logged ix evs).

Lemma leaf_update_wf bs d p b i cur e :
  node_wf bs d p (node_leaf b) -> b !! i = Some cur -> entry_wf e -> ie_hash e = ie_hash cur ->
  node_wf bs d p (node_leaf (<[i := e]> b)).
Proof.
  intros (Hlen & Hnd & Hall) Hi He Hh. cbn [node_wf]. rewrite length_insert. split; [done|].
  rewrite (map_hash_insert _ _ _ _ Hi Hh). split; [done|]. apply Forall_insert; [done|].
  split; [done|]. rewrite Hh. by eapply (Forall_lookup_1 _ _ _ _ Hall).
Qed.

Lemma leaf_update_find bs d p b i cur e h :
  node_wf bs d p (node_leaf b) -> b !! i = Some cur -> ie_hash e = ie_hash cur ->
  index_find_in_node h (node_leaf (<[i := e]> b)) d =
    if decide (h = ie_hash cur) then Some e else index_find_in_node h (node_leaf b) d.
Proof.
  intros (Hlen & Hnd & Hall) Hi Hh. cbn [index_find_in_node].
  change (bucket_lookup (<[i := e]> b) h = if decide (h = ie_hash cur) then Some e else bucket_lookup b h).
  assert (NoDup (map ie_hash (<[i := e]> b))) as Hnd' by (by rewrite (map_hash_insert _ _ _ _ Hi Hh)).
  pose proof (lookup_lt_Some _ _ _ Hi) as Hlt. case_decide as Hd.
  - apply bucket_lookup_elem; [done|]. split; [|congruence].
    apply list_elem_of_lookup. exists i. by rewrite list_lookup_insert_eq.
  - apply option_eq. intros x. rewrite !bucket_lookup_elem by done. rewrite !list_elem_of_lookup.
    split; intros [[j Hj] Hx]; (split; [|done]); exists j;
      (destruct (decide (i = j)) as [<-|]; [|by rewrite list_lookup_insert_ne in *]).
    + rewrite list_lookup_insert_eq in Hj by done. congruence.
    + congruence.
Qed.

Lemma leaf_push_wf bs d p b e :
  node_wf bs d p (node_leaf b) -> (length b < bs)%nat -> entry_wf e -> on_path d p (ie_hash e) ->
  bucket_find b (ie_hash e) = None -> node_wf bs d p (node_leaf (b ++ [e])).
Proof.
  intros (Hlen & Hnd & Hall) Hlt He Hp Hnew%bucket_find_none. cbn [node_wf]. rewrite length_app. cbn [length].
  split; [lia|]. rewrite map_app. split; [|apply Forall_app; auto].
  apply NoDup_app. split_and!; [done| |apply NoDup_singleton].
  intros h Hh Hin. apply list_elem_of_singleton in Hin as ->. done.
Qed.

Lemma leaf_push_find d b e h :
  bucket_find b (ie_hash e) = None ->
  index_find_in_node h (node_leaf (b ++ [e])) d =
    if decide (h = ie_hash e) then Some e else index_find_in_node h (node_leaf b) d.
Proof.
  intros Hnew. change (bucket_lookup (b ++ [e]) h = if decide (h = ie_hash e) then Some e else bucket_lookup b h).
  rewrite bucket_lookup_app, bucket_lookup_one. case_decide as Hd; [subst h|by destruct (bucket_lookup b h)].
  unfold bucket_lookup. by rewrite Hnew.
Qed.

(** The entries of a bucket re-added, one after the other, to a node that has none of them. *)
Lemma readd_spec fuel (Hadd : add_ok fuel) b :
  forall ix node d p,
    (2 <= ix_bucket_size ix)%nat -> node_wf (ix_bucket_size ix) d p node -> (d <= 255)%nat ->
    is_leaf node = false -> (need node d <= fuel)%nat ->
    NoDup (map ie_hash b) -> Forall (fun e => entry_wf e /\ on_path d p (ie_hash e)) b ->
    Forall (fun e => index_find_in_node (ie_hash e) node d = None) b ->
    exists ix' node' moved,
      fold_left (fun acc e => '(ix, node) ← acc; index_add_to_node fuel ix e node d) b (Some (ix, node)) =
        Some (ix', node') /\
      node_wf (ix_bucket_size ix) d p node' /\ is_leaf node' = false /\
      (forall h, index_find_in_node h node' d =
         match bucket_lookup b h with Some e => Some e | None => index_find_in_node h node d end) /\
      extends ix ix' (logged ix (map ev_add moved)) /\
      Forall (fun e => index_find_in_node (ie_hash e) node' d = Some e) moved.
Proof.
  induction b as [|e b IH]; intros ix node d p Hbs Hwf Hd Hleaf Hneed Hnd Hall Hnone; cbn [fold_left].
  { exists ix, node, []. rewrite logged_nil. split_and!; auto using extends_refl. }
  cbn [map] in Hnd. apply NoDup_cons in Hnd as [Hnew Hnd]. apply Forall_cons in Hall as [[He Hp] Hall].
  apply Forall_cons in Hnone as [Hn Hnone].
  destruct (Hadd ix e node d p) as (ix1 & node1 & evs & Hrun & Hwf1 & Hl1 & Hfind1 & Hev & Hext); auto.
  change (Some (ix, node) ≫= _) with (index_add_to_node fuel ix e node d). rewrite Hrun.
  unfold add_events in Hev. rewrite Hn in Hev, Hfind1. cbn [added] in Hfind1.
  destruct Hev as (moved1 & -> & Hmoved1). pose proof Hext as [_ Hbs1 Hr1 _ _ _ _].
  destruct (IH ix1 node1 d p) as (ix2 & node2 & moved2 & -> & Hwf2 & Hl2 & Hfind2 & Hext2 & Hmoved2);
    rewrite ?Hbs1; auto.
  { unfold need in *. by rewrite Hleaf, Hl1 in *. }
  { rewrite Forall_forall in Hnone |- *. intros x Hx. rewrite Hfind1. rewrite decide_False; [by apply Hnone|].
    intros Heq. apply Hnew. rewrite <- Heq. by apply (list_elem_of_fmap_2 ie_hash). }
  rewrite Hbs1 in Hwf2.
  assert (forall h, index_find_in_node h node2 d =
    match bucket_lookup (e :: b) h with Some x => Some x | None => index_find_in_node h node d end) as Hfind.
  { intros h. rewrite Hfind2, Hfind1. change (e :: b) with ([e] ++ b). rewrite bucket_lookup_app, bucket_lookup_one.
    case_decide as Heq; [subst h|done]. unfold bucket_lookup. apply bucket_find_none in Hnew. by rewrite Hnew. }
  exists ix2, node2, ((moved1 ++ [e]) ++ moved2). split_and!; auto.
  - replace (logged ix (map ev_add ((moved1 ++ [e]) ++ moved2)))
      with (logged ix (map ev_add (moved1 ++ [e])) ++ logged ix1 (map ev_add moved2)); [by eapply extends_trans|].
    unfold logged. rewrite Hr1, (map_app ev_add (moved1 ++ [e])). by destruct (ix_is_rebuilding ix).
  - rewrite !Forall_app, Forall_singleton. split_and!; [|rewrite Hfind|done].
    + rewrite !Forall_forall in Hmoved1 |- *. intros x Hx. specialize (Hmoved1 x Hx). rewrite Hfind2, Hfind1.
      rewrite decide_False by (intros Heq; congruence). rewrite Hmoved1.
      destruct (bucket_lookup b (ie_hash x)) as [y|] eqn:Hy; [|done]. exfalso.
      apply bucket_lookup_elem in Hy as [Hy Hh]; [|done]. rewrite Forall_forall in Hnone.
      specialize (Hnone y Hy). congruence.
    + change (e :: b) with ([e] ++ b). rewrite bucket_lookup_app, bucket_lookup_one. by rewrite decide_True.
Qed.

(** The rank list update of a new entry. *)
Definition rank_new (ix : index_t) (entry : index_entry_t) : index_t :=
  if (hc_fib (ie_counter entry) =? 0) && (hc_count (ie_counter entry) =? 0)
  then set_ranks ix (rank_push (ix_ranks ix) (hc_fib (ie_counter entry)) (ie_hash entry))
  else ix.

Lemma extends_rank_new ix entry : extends ix (rank_new ix entry) [].
Proof. unfold rank_new. destruct (_ && _); auto using extends_set_ranks, extends_refl. Qed.

(** A leaf that has the hash, or room for it. *)
Lemma add_to_leaf_hit fuel ix entry b d p i cur :
  node_wf (ix_bucket_size ix) d p (node_leaf b) -> bucket_find b (ie_hash entry) = Some (i, cur) ->
  exists ix' node' evs,
    index_add_to_node (S fuel) ix entry (node_leaf b) d = Some (ix', node') /\
    node_wf (ix_bucket_size ix) d p node' /\
    (forall h, index_find_in_node h node' d =
       if decide (h = ie_hash entry) then Some (added (ix_is_rebuilding ix) (Some cur) entry)
       else index_find_in_node h (node_leaf b) d) /\
    evs = [ev_increment cur] /\ extends ix ix' (logged ix evs).
Proof.
  intros Hwf Hf. cbn [index_add_to_node]. rewrite Hf. pose proof (bucket_find_some _ _ _ _ Hf) as [Hi Hh].
  assert (entry_wf cur) as Hcur.
  { destruct Hwf as (_ & _ & Hall). by eapply (Forall_lookup_1 _ _ _ _ Hall). }
  cbn [added]. unfold logged. destruct (ix_is_rebuilding ix) eqn:Hr.
  - exists ix, (node_leaf b), [ev_increment cur]. split_and!; auto using extends_refl.
    intros h. case_decide as Hd; [|done]. subst h. cbn [index_find_in_node]. by rewrite Hf.
  - pose proof (increment_entry_spec ix cur) as Hinc. destruct (index_increment_entry ix cur) as [ix' e'].
    destruct Hinc as [-> Hext]. unfold logged in Hext. rewrite Hr in Hext.
    eexists ix', _, _. split_and!; [reflexivity| | |reflexivity|exact Hext].
    + eapply leaf_update_wf; eauto using increment_entry_wf, increment_entry_hash.
    + intros h. erewrite leaf_update_find by eauto using increment_entry_hash. by rewrite Hh.
Qed.

Lemma add_to_leaf_push fuel ix entry b d p :
  node_wf (ix_bucket_size ix) d p (node_leaf b) -> entry_wf entry -> on_path d p (ie_hash entry) ->
  bucket_find b (ie_hash entry) = None -> (length b < ix_bucket_size ix)%nat ->
  exists ix',
    index_add_to_node (S fuel) ix entry (node_leaf b) d = Some (ix', node_leaf (b ++ [entry])) /\
    extends ix ix' (logged ix [ev_add entry]).
Proof.
  intros Hwf He Hp Hf Hlt. cbn [index_add_to_node]. rewrite Hf. fold (rank_new ix entry).
  pose proof (extends_rank_new ix entry) as Hx. pose proof Hx as [_ Hbs Hr _ _ _ _].
  rewrite Hbs. rewrite (proj2 (Nat.ltb_lt _ _)) by done. eexists. split; [reflexivity|].
  pose proof (extends_trans _ _ _ _ _ Hx
    (extends_log (rank_new ix entry) addition (index_entry_to_cbor entry) (ev_add entry) eq_refl (ltac:(by eexists)))) as Hxx.
  unfold logged in *. by rewrite Hr in Hxx.
Qed.

(** A full leaf: the entries are moved to two new leaves, then the entry is added. *)
Lemma add_to_leaf_split fuel ix entry b d p (Hadd : add_ok fuel) :
  (2 <= ix_bucket_size ix)%nat -> node_wf (ix_bucket_size ix) d p (node_leaf b) -> (d <= 255)%nat ->
  entry_wf entry -> on_path d p (ie_hash entry) -> (2 * (255 - d) <= fuel)%nat ->
  bucket_find b (ie_hash entry) = None -> (ix_bucket_size ix <= length b)%nat ->
  exists ix' node' moved,
    index_add_to_node (S fuel) ix entry (node_leaf b) d = Some (ix', node') /\
    node_wf (ix_bucket_size ix) d p node' /\
    (forall h, index_find_in_node h node' d =
       if decide (h = ie_hash entry) then Some entry else index_find_in_node h (node_leaf b) d) /\
    Forall (fun e => index_find_in_node (ie_hash e) (node_leaf b) d = Some e) moved /\
    extends ix ix' (logged ix (map ev_add (moved ++ [entry]))).
Proof.
  intros Hbs Hwf Hd He Hp Hfuel Hf Hfull. pose proof Hwf as (_ & Hnd & Hall).
  assert (d < 255)%nat as Hd' by (eapply (full_leaf_depth d p b entry); eauto; [lia|by apply bucket_find_none]).
  cbn [index_add_to_node]. rewrite Hf. fold (rank_new ix entry).
  pose proof (extends_rank_new ix entry) as Hx. pose proof Hx as [_ Hbs1 Hr1 _ _ _ _].
  rewrite Hbs1. rewrite (proj2 (Nat.ltb_ge _ _)) by done.
  destruct (readd_spec fuel Hadd b (rank_new ix entry) (node_branch index_node_create index_node_create) d p)
    as (ix2 & node2 & moved2 & -> & Hwf2 & Hl2 & Hfind2 & Hext2 & Hmoved2); rewrite ?Hbs1; auto.
  { cbn. rewrite !Forall_nil. split_and!; auto using NoDup_nil_2; lia. }
  { unfold need. cbn [is_leaf]. lia. }
  { apply Forall_forall. intros x Hx'. cbn. by destruct (get_bit _ _). }
  rewrite Hbs1 in Hwf2. pose proof Hext2 as [_ Hbs2 Hr2 _ _ _ _]. cbn [mbind option_bind].
  assert (forall h, index_find_in_node h node2 d = index_find_in_node h (node_leaf b) d) as Hsame.
  { intros h. rewrite Hfind2. cbn [index_find_in_node]. fold (bucket_lookup b h).
    destruct (bucket_lookup b h); [done|]. cbn. by destruct (get_bit _ _). }
  destruct (Hadd ix2 entry node2 d p) as (ix3 & node3 & evs & Hrun & Hwf3 & _ & Hfind3 & Hev & Hext3);
    rewrite ?Hbs2, ?Hbs1; auto.
  { unfold need. rewrite Hl2. lia. }
  unfold add_events in Hev. rewrite Hsame in Hev, Hfind3. cbn [index_find_in_node] in Hev, Hfind3.
  rewrite Hf in Hev, Hfind3. destruct Hev as (moved3 & -> & Hmoved3).
  exists ix3, node3, (moved2 ++ moved3). rewrite Hbs2, Hbs1 in Hwf3. split_and!; auto.
  - intros h. rewrite Hfind3. case_decide; [done|]. apply Hsame.
  - rewrite Forall_app. split; eapply Forall_impl; eauto; intros x Hx'; cbn beta in *; by rewrite Hsame in Hx'.
  - pose proof (extends_trans _ _ _ _ _ (extends_trans _ _ _ _ _ Hx Hext2) Hext3) as Hxx.
    unfold logged in *. rewrite Hr2, Hr1 in Hxx. rewrite <- app_assoc, (map_app _ moved2).
    by destruct (ix_is_rebuilding ix).
Qed.

Lemma add_to_branch_run fuel ix entry l r d bs p ix' c :
  node_wf bs d p (node_branch l r) ->
  index_add_to_node fuel ix entry (child (ie_hash entry) d l r) (d + 1) = Some (ix', c) ->
  index_add_to_node (S fuel) ix entry (node_branch l r) d = Some (ix', with_child (ie_hash entry) d l r c).
Proof.
  intros (_ & Hl & Hr) Hrun. cbn [index_add_to_node].
  rewrite (wf_not_null _ _ _ _ Hl), (wf_not_null _ _ _ _ Hr). cbn [orb]. unfold child, with_child in *.
  by destruct (get_bit _ _); rewrite Hrun.
Qed.

Lemma add_to_node_spec fuel : add_ok fuel.
Proof.
  induction fuel as [|fuel IH]; intros ix entry node d p Hbs Hwf Hd He Hp Hneed.
  { destruct node as [|b|l r]; [done| |destruct Hwf as [Hlt _]]; unfold need in Hneed; cbn [is_leaf] in Hneed; lia. }
  destruct node as [|b|l r]; [done|..].
  - destruct (bucket_find b (ie_hash entry)) as [[i cur]|] eqn:Hf.
    + destruct (add_to_leaf_hit fuel ix entry b d p i cur) as (ix' & node' & evs & Hrun & Hwf' & Hfind & -> & Hext); auto.
      exists ix', node', [ev_increment cur]. unfold add_events. cbn [index_find_in_node]. rewrite Hf.
      by split_and!.
    + unfold add_events. cbn [index_find_in_node]. rewrite Hf. cbn [fmap option_fmap option_map added].
      destruct (Nat.lt_ge_cases (length b) (ix_bucket_size ix)) as [Hlt|Hge].
      * destruct (add_to_leaf_push fuel ix entry b d p) as (ix' & Hrun & Hext); auto.
        exists ix', (node_leaf (b ++ [entry])), [ev_add entry].
        split_and!; auto using leaf_push_wf; [intros h; by apply leaf_push_find|]. by exists [].
      * destruct (add_to_leaf_split fuel ix entry b d p IH) as (ix' & node' & moved & Hrun & Hwf' & Hfind & Hm & Hext);
          auto; [unfold need in Hneed; cbn [is_leaf] in Hneed; lia|].
        exists ix', node', (map ev_add (moved ++ [entry])). split_and!; auto; [done|]. by exists moved.
  - destruct (branch_wf_child _ _ _ _ _ (ie_hash entry) Hwf) as [Hlt Hc].
    destruct (IH ix entry (child (ie_hash entry) d l r) (d + 1)%nat _ Hbs Hc)
      as (ix' & c & evs & Hrun & Hwfc & _ & Hfind & Hev & Hext); [lia|done|by apply on_path_extend| |].
    { unfold need in *. cbn [is_leaf] in Hneed. destruct (is_leaf _); lia. }
    exists ix', (with_child (ie_hash entry) d l r c), evs. split_and!; eauto using add_to_branch_run, branch_wf_with_child.
    + intros _. unfold with_child. by destruct (get_bit _ _).
    + rewrite (find_branch _ _ _ _ _ (ie_hash entry) Hwf). by apply (find_with_child_at _ _ _ _ _ _ _ _ Hwf Hwfc).
    + unfold add_events in *. rewrite (find_branch _ _ _ _ _ (ie_hash entry) Hwf).
      destruct (index_find_in_node (ie_hash entry) _ _); [done|]. destruct Hev as (moved & -> & Hm).
      exists moved. split; [done|]. rewrite !Forall_forall in Hm |- *. intros x Hx. specialize (Hm x Hx).
      destruct (find_elem _ _ _ _ _ _ Hc Hm) as (_ & Hpx & _). apply on_path_agree in Hpx.
      rewrite (find_branch _ _ _ _ _ _ Hwf). unfold child in *. by rewrite Hpx.
Qed.

(** ** Updating, getting and removing *)

Lemma update_spec bs f h0 node : forall d p,
  node_wf bs d p node -> (forall e, entry_wf e -> entry_wf (f e) /\ ie_hash (f e) = ie_hash e) ->
  node_wf bs d p (update_in_node f h0 node d) /\
  forall h, index_find_in_node h (update_in_node f h0 node d) d =
    if decide (h = h0) then f <$> index_find_in_node h0 node d else index_find_in_node h node d.
Proof.
  induction node as [|b|l IHl r IHr]; intros d p Hwf Hf; [done|..].
  - cbn [update_in_node]. destruct (bucket_find b h0) as [[i cur]|] eqn:Hb.
    + destruct (bucket_find_some _ _ _ _ Hb) as [Hi Hh].
      assert (entry_wf cur) as Hcur by (destruct Hwf as (_ & _ & Hall); by eapply (Forall_lookup_1 _ _ _ _ Hall)).
      destruct (Hf cur Hcur) as [Hf1 Hf2]. split; [by eapply leaf_update_wf|]. intros h.
      erewrite leaf_update_find by eauto. rewrite Hh. case_decide; [|done]. cbn [index_find_in_node]. by rewrite Hb.
    + split; [done|]. intros h. case_decide; [subst|done]. cbn [index_find_in_node]. by rewrite Hb.
  - pose proof (branch_wf_child _ _ _ _ _ h0 Hwf) as [_ Hc].
    assert (update_in_node f h0 (node_branch l r) d =
            with_child h0 d l r (update_in_node f h0 (child h0 d l r) (d + 1))) as ->.
    { destruct Hwf as (_ & Hl & Hr). cbn [update_in_node].
      rewrite (wf_not_null _ _ _ _ Hl), (wf_not_null _ _ _ _ Hr). unfold child, with_child. by destruct (get_bit _ _). }
    assert (node_wf bs (d + 1) (extend p (d + 1) (get_bit h0 (d + 1))) (update_in_node f h0 (child h0 d l r) (d + 1)) /\
      forall h, index_find_in_node h (update_in_node f h0 (child h0 d l r) (d + 1)) (d + 1) =
        if decide (h = h0) then f <$> index_find_in_node h0 (child h0 d l r) (d + 1)
        else index_find_in_node h (child h0 d l r) (d + 1)) as [Hwfc Hfind].
    { unfold child in *. destruct (get_bit h0 (d + 1)); eauto. }
    split; [by apply branch_wf_with_child|]. rewrite (find_branch _ _ _ _ _ h0 Hwf).
    by apply (find_with_child_at _ _ _ _ _ _ _ _ Hwf Hwfc).
Qed.

(** Getting is finding, incrementing and writing the entry back. *)
Lemma get_from_node_spec ix h node d :
  index_get_from_node ix h node d =
    match index_find_in_node h node d with
    | Some cur => let '(ix', e) := index_increment_entry ix cur in
                  (ix', update_in_node (fun _ => e) h node d, Some e)
    | None => (ix, node, None)
    end.
Proof.
  revert d. induction node as [|b|l IHl r IHr]; intros d; cbn [index_get_from_node index_find_in_node update_in_node]; [done|..].
  - by destruct (bucket_find b h) as [[i cur]|].
  - destruct (is_null l || is_null r); [done|].
    destruct (get_bit h (d + 1)); [rewrite IHr|rewrite IHl];
      destruct (index_find_in_node h _ (d + 1)); [|done| |done]; by destruct (index_increment_entry _ _).
Qed.

Lemma bucket_lookup_delete b i e h :
  NoDup (map ie_hash b) -> b !! i = Some e ->
  NoDup (map ie_hash (delete i b)) /\
  bucket_lookup (delete i b) h = if decide (h = ie_hash e) then None else bucket_lookup b h.
Proof.
  intros Hnd Hi. pose proof (delete_take_drop b i) as Hdel. pose proof (take_drop_middle _ _ _ Hi) as Hb.
  rewrite <- Hb in Hnd. rewrite map_app in Hnd. apply NoDup_app in Hnd as (N1 & N12 & N2).
  cbn [map] in N2, N12. apply NoDup_cons in N2 as [Hne N2].
  assert (NoDup (map ie_hash (delete i b))) as Hnd'.
  { rewrite Hdel, map_app. apply NoDup_app. split_and!; [done| |done]. intros x Hx Hin. apply (N12 x Hx). set_solver. }
  split; [done|]. rewrite Hdel.
  replace (bucket_lookup b h) with (bucket_lookup (take i b ++ e :: drop (S i) b) h) by (by rewrite Hb).
  rewrite !bucket_lookup_app.
  change (e :: drop (S i) b) with ([e] ++ drop (S i) b). rewrite bucket_lookup_app, bucket_lookup_one.
  case_decide as Hd; [|done]. subst h. assert (bucket_lookup (take i b) (ie_hash e) = None) as ->.
  { unfold bucket_lookup. apply fmap_None, bucket_find_none. intros Hin. apply (N12 _ Hin). set_solver. }
  unfold bucket_lookup. by apply fmap_None, bucket_find_none.
Qed.

Lemma remove_from_node_spec h0 node : forall ix d p,
  node_wf (ix_bucket_size ix) d p node ->
  exists ix' node',
    index_remove_from_node ix h0 node d = (ix', node') /\ node_wf (ix_bucket_size ix) d p node' /\
    (forall h, index_find_in_node h node' d = if decide (h = h0) then None else index_find_in_node h node d) /\
    extends ix ix' (logged ix (if index_find_in_node h0 node d then [ev_remove h0] else [])).
Proof.
  induction node as [|b|l IHl r IHr]; intros ix d p Hwf; [done|..].
  - cbn [index_remove_from_node index_find_in_node]. destruct (bucket_find b h0) as [[i cur]|] eqn:Hb; cbn [fmap option_fmap option_map snd].
    + destruct (bucket_find_some _ _ _ _ Hb) as [Hi Hh]. eexists _, _. split; [reflexivity|].
      destruct Hwf as (Hlen & Hnd & Hall). split_and!.
      * split_and!; [rewrite length_delete by eauto; lia|by eapply bucket_lookup_delete|by apply Forall_delete].
      * intros h. destruct (bucket_lookup_delete b i cur h Hnd Hi) as [_ Hl]. rewrite <- Hh. exact Hl.
      * pose proof (extends_log ix removal (Some (removal_item (ie_hash cur))) (ev_remove (ie_hash cur)) eq_refl ltac:(by eexists)) as Hx.
        pose proof (extends_trans _ _ _ _ _ Hx (extends_set_ranks _
          (rank_remove (ix_ranks (index_log ix removal (Some (removal_item (ie_hash cur)))))
             (hc_fib (ie_counter cur)) (ie_hash cur)))) as Hxx. rewrite app_nil_r in Hxx. by rewrite <- Hh.
    + exists ix, (node_leaf b). rewrite logged_nil. split_and!; auto using extends_refl.
      intros h. case_decide; [subst|done]. cbn [index_find_in_node]. by rewrite Hb.
  - pose proof (branch_wf_child _ _ _ _ _ h0 Hwf) as [_ Hc].
    assert (exists ix' c, index_remove_from_node ix h0 (child h0 d l r) (d + 1) = (ix', c) /\
      node_wf (ix_bucket_size ix) (d + 1) (extend p (d + 1) (get_bit h0 (d + 1))) c /\
      (forall h, index_find_in_node h c (d + 1) =
         if decide (h = h0) then None else index_find_in_node h (child h0 d l r) (d + 1)) /\
      extends ix ix' (logged ix (if index_find_in_node h0 (child h0 d l r) (d + 1) then [ev_remove h0] else [])))
      as (ix' & c & Hrun & Hwfc & Hfind & Hext).
    { unfold child in *. destruct (get_bit h0 (d + 1)); eauto. }
    exists ix', (with_child h0 d l r c). rewrite (find_branch _ _ _ _ _ h0 Hwf).
    split_and!; [|by apply branch_wf_with_child|by apply (find_with_child_at _ _ _ _ _ _ _ _ Hwf Hwfc)|done].
    destruct Hwf as (_ & Hl & Hr). cbn [index_remove_from_node].
    rewrite (wf_not_null _ _ _ _ Hl), (wf_not_null _ _ _ _ Hr). unfold child, with_child in *. cbn [orb].
    by destruct (get_bit _ _); rewrite Hrun.
Qed.

(** ** Operations of the index and their specification on maps *)

Inductive index_op :=
| op_add (e : index_entry_t)
| op_get (hash : bytes)
| op_increment (hash : bytes)
| op_remove (hash : bytes)
| op_eject (hash : bytes) (date : Z)
| op_metadata (hash : bytes) (ephemeral pin : Z).

(** The metadata of an entry is written through its pointer and then logged. *)
Definition index_set_metadata (ix : index_t) (hash : bytes) (ephemeral pin : Z) : index_t :=
  match index_find ix hash with
  | Some e =>
      let ix := update_entry ix hash (fun e => set_entry_metadata e ephemeral pin) in
      index_write_entry_metadata ix (set_entry_metadata e ephemeral pin)
  | None => ix
  end.

Definition index_apply (ix : index_t) (op : index_op) : option index_t :=
  match op with
  | op_add e => index_add ix e
  | op_get h => Some (index_get ix h).1
  | op_increment h => Some (index_increment ix h)
  | op_remove h => Some (index_remove ix h)
  | op_eject h d => Some (index_set_entry_ejection ix h d)
  | op_metadata h n m => Some (index_set_metadata ix h n m)
  end.

Definition op_wf (op : index_op) : Prop :=
  match op with
  | op_add e => entry_wf e
  | op_eject _ d => is_u64 d
  | op_metadata _ n m => is_u16 n /\ is_u32 m
  | _ => True
  end.

Definition map_set (m : entry_map) (h : bytes) (v : option index_entry_t) : entry_map :=
  fun h' => if decide (h' = h) then v else m h'.

Definition op_spec (m : entry_map) (op : index_op) : entry_map :=
  match op with
  | op_add e => map_set m (ie_hash e) (Some (added false (m (ie_hash e)) e))
  | op_get h | op_increment h => map_set m h ((fun e => (index_entry_increment e).1) <$> m h)
  | op_remove h => map_set m h None
  | op_eject h d => map_set m h ((fun e => index_entry_set_ejection_date e d) <$> m h)
  | op_metadata h n p => map_set m h ((fun e => set_entry_metadata e n p) <$> m h)
  end.

(** What recovery does with a logged event. *)
Definition replay_event (m : entry_map) (ev : event) : entry_map :=
  match ev with
  | ev_add e => map_set m (ie_hash e) (Some (added true (m (ie_hash e)) e))
  | ev_increment e => map_set m (ie_hash e) ((fun e => (index_entry_increment e).1) <$> m (ie_hash e))
  | ev_remove h => map_set m h None
  | ev_eject h d => map_set m h ((fun e => index_entry_set_ejection_date e d) <$> m h)
  | ev_metadata e =>
      map_set m (ie_hash e) ((fun x => set_entry_metadata x (ie_ephemeral_count e) (ie_pin_count e)) <$> m (ie_hash e))
  end.
Definition replay_events (evs : list event) (m : entry_map) : entry_map := fold_left replay_event evs m.

Definition event_wf (ev : event) : Prop :=
  match ev with
  | ev_add e | ev_increment e | ev_metadata e => entry_wf e
  | ev_remove h => length h = BLAKE3_OUT_LEN /\ is_bytes h
  | ev_eject h d => length h = BLAKE3_OUT_LEN /\ is_bytes h /\ is_u64 d
  end.

(** The operation refines its specification; what it logs is well formed and
    replays to the same map, and none of it replays to the map before. *)
Definition refines_op (ix : index_t) (op : index_op) : Prop :=
  exists ix' evs,
    index_apply ix op = Some ix' /\ index_wf ix' /\
    (forall h, index_find ix' h = op_spec (index_find ix) op h) /\
    extends (set_root ix (ix_root ix')) ix' evs /\ Forall event_wf evs /\
    (forall m, (forall h, m h = index_find ix h) ->
       (forall h, replay_events evs m h = op_spec (index_find ix) op h) /\
       (forall n, (n < length evs)%nat -> forall h, replay_events (take n evs) m h = m h)).

(** Writing back what the lookup found changes nothing. *)
Lemma map_set_same (m : entry_map) h0 v h : v = m h0 -> map_set m h0 v h = m h.
Proof. intros ->. unfold map_set. by case_decide; subst. Qed.

Lemma replay_event_ext (m1 m2 : entry_map) ev :
  (forall h, m1 h = m2 h) -> forall h, replay_event m1 ev h = replay_event m2 ev h.
Proof. intros Heq h. destruct ev; cbn; unfold map_set; by rewrite !Heq. Qed.

Lemma replay_events_ext evs : forall (m1 m2 : entry_map),
  (forall h, m1 h = m2 h) -> forall h, replay_events evs m1 h = replay_events evs m2 h.
Proof.
  unfold replay_events. induction evs as [|ev evs IH]; intros m1 m2 Heq h; cbn [fold_left]; [done|].
  apply IH. by apply replay_event_ext.
Qed.

Lemma replay_events_app evs1 evs2 m : replay_events (evs1 ++ evs2) m = replay_events evs2 (replay_events evs1 m).
Proof. apply fold_left_app. Qed.

(** Additions of entries that are present replay to nothing. *)
Lemma replay_moved (m : entry_map) moved :
  Forall (fun e => m (ie_hash e) = Some e) moved -> forall h, replay_events (map ev_add moved) m h = m h.
Proof.
  induction moved as [|e moved IH]; intros Hall h; [done|]. apply Forall_cons in Hall as [He Hall].
  change (replay_events (map ev_add moved) (replay_event m (ev_add e)) h = m h).
  rewrite (replay_events_ext _ _ m); [by apply IH|]. intros h'. cbn. apply map_set_same. by rewrite He.
Qed.

(** A single event is replayed or not. *)
Lemma replay_one_event (m : entry_map) ev n :
  (n < length [ev])%nat -> forall h, replay_events (take n [ev]) m h = m h.
Proof. cbn [length]. intros Hn. by replace n with 0%nat by lia. Qed.

Lemma extends_set_root ix ix' evs root :
  extends ix ix' evs -> extends (set_root ix root) (set_root ix' root) evs.
Proof. intros []. by split. Qed.

(** An operation that logs one event and writes the entry of [h0] back. *)
Lemma update_entry_refines ix ix1 h0 f evs :
  index_wf ix -> (forall e, entry_wf e -> entry_wf (f e) /\ ie_hash (f e) = ie_hash e) ->
  extends ix ix1 evs ->
  index_wf (update_entry ix1 h0 f) /\
  (forall h, index_find (update_entry ix1 h0 f) h = map_set (index_find ix) h0 (f <$> index_find ix h0) h) /\
  extends (set_root ix (ix_root (update_entry ix1 h0 f))) (update_entry ix1 h0 f) evs.
Proof.
  intros [Hbs Hwf] Hf Hx. pose proof Hx as [Hr Hbs1 _ _ _ _ _].
  destruct (update_spec _ f h0 _ _ _ Hwf Hf) as [Hwf' Hfind]. unfold update_entry, index_wf, index_find. cbn.
  rewrite Hr, Hbs1. split_and!; [done|done|exact Hfind|]. by apply extends_set_root.
Qed.

Lemma index_find_wf ix h e : index_wf ix -> index_find ix h = Some e -> entry_wf e /\ ie_hash e = h.
Proof. intros [_ Hwf] He. destruct (find_elem _ _ _ _ _ _ Hwf He) as (? & _ & ?). done. Qed.

Lemma index_add_refines ix e :
  index_wf ix -> ix_is_rebuilding ix = false -> entry_wf e -> refines_op ix (op_add e).
Proof.
  intros Hix Hlive He. pose proof Hix as [Hbs Hwf].
  destruct (add_to_node_spec add_fuel ix e (ix_root ix) 0%nat root_path)
    as (ix' & root & evs & Hrun & Hwf' & _ & Hfind & Hev & Hext); auto; [lia|intros i Hi; lia| |].
  { unfold need, add_fuel. destruct (is_leaf _); lia. }
  pose proof Hext as [_ Hbs' _ _ _ _ _]. unfold logged in Hext. rewrite Hlive in *.
  exists (set_root ix' root), evs. cbn [index_apply op_spec]. unfold index_add. rewrite Hrun.
  split_and!; [done|unfold index_wf; cbn; by rewrite Hbs'|exact Hfind|by apply extends_set_root|..];
    unfold add_events in Hev; fold (index_find ix (ie_hash e)) in *.
  - destruct (index_find ix (ie_hash e)) as [cur|] eqn:Hcur.
    + subst evs. apply Forall_singleton. by destruct (index_find_wf _ _ _ Hix Hcur).
    + destruct Hev as (moved & -> & Hm). rewrite Forall_map, Forall_app, Forall_singleton. split; [|done].
      eapply Forall_impl; [done|]. intros x Hx. by destruct (index_find_wf _ _ _ Hix Hx).
  - intros m Hm. destruct (index_find ix (ie_hash e)) as [cur|] eqn:Hcur.
    + subst evs. split; [|apply replay_one_event]. intros h. cbn.
      destruct (index_find_wf ix _ _ Hix Hcur) as [_ ->]. unfold map_set. by rewrite !Hm, Hcur.
    + destruct Hev as (moved & -> & Hmoved).
      assert (Forall (fun e => m (ie_hash e) = Some e) moved) as Hmm
        by (eapply Forall_impl; [done|]; intros x Hx; by rewrite Hm).
      split.
      * intros h. rewrite map_app, replay_events_app, (replay_events_ext _ _ m) by (by apply replay_moved).
        cbn. unfold map_set. by rewrite !Hm, Hcur.
      * intros n Hn. rewrite length_map, length_app in Hn. cbn [length] in Hn.
        rewrite firstn_map, take_app_le by lia. by apply replay_moved, Forall_take.
Qed.

Lemma increment_hash_wf e :
  entry_wf e -> entry_wf (index_entry_increment e).1 /\ ie_hash (index_entry_increment e).1 = ie_hash e.
Proof. auto using increment_entry_wf, increment_entry_hash. Qed.

Lemma index_get_increment ix h : (index_get ix h).1 = index_increment ix h.
Proof.
  unfold index_get, index_increment, index_find. rewrite get_from_node_spec.
  destruct (index_find_in_node h (ix_root ix) 0) as [e|]; [|by destruct ix].
  pose proof (increment_entry_spec ix e) as Hinc. destruct (index_increment_entry ix e) as [ix' e'].
  destruct Hinc as [_ [Hr _ _ _ _ _ _]]. unfold update_entry. by rewrite Hr.
Qed.

Lemma update_const bs d p h node e f :
  node_wf bs d p node -> index_find_in_node h node d = Some e ->
  update_in_node (fun _ => f e) h node d = update_in_node f h node d.
Proof.
  revert d p. induction node as [|b|l IHl r IHr]; intros d p Hwf; cbn [index_find_in_node update_in_node]; [done|..].
  - destruct (bucket_find b h) as [[i cur]|]; cbn; [|done]. by intros [= ->].
  - destruct Hwf as (_ & Hl & Hr). destruct (is_null l || is_null r); [done|].
    destruct (get_bit h (d + 1)); intros Hf; f_equal; eauto.
Qed.

(** An absent hash: nothing is changed and nothing is logged. *)
Lemma refines_absent ix op h0 f :
  index_wf ix -> index_apply ix op = Some ix -> index_find ix h0 = None ->
  (forall m h, op_spec m op h = map_set m h0 (f <$> m h0) h) -> refines_op ix op.
Proof.
  intros Hwf Hrun Hnone Hspec. exists ix, [].
  assert (forall h, index_find ix h = op_spec (index_find ix) op h) as Hsame.
  { intros h. rewrite Hspec, map_set_same; [done|by rewrite Hnone]. }
  split_and!; auto; [|intros m Hm; split; [intros h; cbn; by rewrite Hm|intros n Hn; cbn in Hn; lia]].
  destruct ix; apply extends_refl.
Qed.

(** A present hash: one event is logged and the entry is written back. *)
Lemma refines_present ix op h0 e f ev ix1 ix2 :
  index_wf ix -> index_find ix h0 = Some e ->
  (forall e, entry_wf e -> entry_wf (f e) /\ ie_hash (f e) = ie_hash e) ->
  extends ix ix1 [ev] -> event_wf ev -> index_apply ix op = Some ix2 -> ix2 = update_entry ix1 h0 f ->
  (forall m h, op_spec m op h = map_set m h0 (f <$> m h0) h) ->
  (forall m h, replay_event m ev h = map_set m h0 (f <$> m h0) h) -> refines_op ix op.
Proof.
  intros Hwf He Hf Hx Hev Hrun -> Hspec Hreplay. exists (update_entry ix1 h0 f), [ev].
  destruct (update_entry_refines ix ix1 h0 f [ev] Hwf Hf Hx) as (Hwf' & Hfind & Hext).
  split_and!; auto; [intros h; by rewrite Hspec|]. intros m Hm. split; [|apply replay_one_event]. intros h.
  change (replay_event m ev h = op_spec (index_find ix) op h). rewrite Hspec, Hreplay. unfold map_set.
  by rewrite !Hm.
Qed.

Lemma index_increment_refines ix h0 op :
  index_wf ix -> ix_is_rebuilding ix = false -> op = op_get h0 \/ op = op_increment h0 -> refines_op ix op.
Proof.
  intros Hwf Hlive Hop.
  assert (index_apply ix op = Some (index_increment ix h0)) as Hrun
    by (destruct Hop as [-> | ->]; cbn; by rewrite ?index_get_increment).
  assert (forall m h, op_spec m op h = map_set m h0 ((fun e => (index_entry_increment e).1) <$> m h0) h) as Hspec
    by (by destruct Hop as [-> | ->]).
  unfold index_increment in Hrun. destruct (index_find ix h0) as [e|] eqn:He; [|by eapply refines_absent].
  pose proof (increment_entry_spec ix e) as Hinc. destruct (index_increment_entry ix e) as [ix1 e1].
  destruct Hinc as [-> Hx]. unfold logged in Hx. rewrite Hlive in Hx. destruct (index_find_wf _ _ _ Hwf He) as [Hewf Hh].
  eapply refines_present; [done|done|apply increment_hash_wf|done|exact Hewf|done| |done|by intros; cbn; rewrite Hh].
  unfold update_entry. f_equal. destruct Hx as [-> _ _ _ _ _ _]. destruct Hwf as [_ Hnode].
  exact (update_const _ _ _ _ _ _ (fun e => (index_entry_increment e).1) Hnode He).
Qed.

Lemma index_remove_refines ix h0 :
  index_wf ix -> ix_is_rebuilding ix = false -> refines_op ix (op_remove h0).
Proof.
  intros Hwf Hlive. pose proof Hwf as [Hbs Hnode].
  destruct (remove_from_node_spec h0 (ix_root ix) ix _ _ Hnode) as (ix1 & root & Hrun & Hwf1 & Hfind & Hext).
  unfold logged in Hext. rewrite Hlive in Hext. fold (index_find ix h0) in Hext.
  pose proof Hext as [_ Hbs1 _ _ _ _ _]. eexists _, _. cbn [index_apply]. unfold index_remove. rewrite Hrun.
  split_and!; [done|unfold index_wf; cbn; by rewrite Hbs1|exact Hfind|by apply extends_set_root|..].
  - destruct (index_find ix h0) as [e|] eqn:He; [|done]. destruct (index_find_wf _ _ _ Hwf He) as [Hewf <-].
    apply Forall_singleton. split; by destruct Hewf.
  - intros m Hm. destruct (index_find ix h0) as [e|] eqn:He; (split; [|first [apply replay_one_event|cbn; lia]]);
      intros h; cbn; unfold map_set; [by rewrite !Hm|]. case_decide; [subst; by rewrite Hm|apply Hm].
Qed.

Lemma index_eject_refines ix h0 d :
  index_wf ix -> ix_is_rebuilding ix = false -> is_u64 d -> refines_op ix (op_eject h0 d).
Proof.
  intros Hwf Hlive Hd. destruct (index_find ix h0) as [e|] eqn:He.
  - destruct (index_find_wf _ _ _ Hwf He) as [Hewf Hh].
    pose proof (extends_log ix ejection (ejection_item (ie_hash e) d) (ev_eject (ie_hash e) d) eq_refl ltac:(by eexists)) as Hx.
    unfold logged in Hx. rewrite Hlive in Hx.
    eapply (refines_present _ _ h0 e (fun e => index_entry_set_ejection_date e d) _ _ _ Hwf He); [|exact Hx| |reflexivity| |done|].
    + intros x Hxw. destruct Hxw. by split.
    + destruct Hewf. by split_and!.
    + unfold index_set_entry_ejection. by rewrite He.
    + intros m h. cbn. by rewrite Hh.
  - eapply refines_absent; [done| |done|by intros]. cbn. unfold index_set_entry_ejection. by rewrite He.
Qed.

Lemma log_update_commute ix h0 f type item :
  index_log (update_entry ix h0 f) type item = update_entry (index_log ix type item) h0 f.
Proof.
  unfold index_log, update_entry. cbn. destruct (ix_is_rebuilding ix); [done|]. by destruct item.
Qed.

Lemma index_metadata_refines ix h0 n p :
  index_wf ix -> ix_is_rebuilding ix = false -> is_u16 n -> is_u32 p -> refines_op ix (op_metadata h0 n p).
Proof.
  intros Hwf Hlive Hn Hp. destruct (index_find ix h0) as [e|] eqn:He.
  - destruct (index_find_wf _ _ _ Hwf He) as [Hewf Hh]. set (e' := set_entry_metadata e n p).
    pose proof (extends_log ix metadata (index_entry_to_cbor e') (ev_metadata e') eq_refl ltac:(by eexists)) as Hx.
    unfold logged in Hx. rewrite Hlive in Hx.
    eapply (refines_present _ _ h0 e (fun e => set_entry_metadata e n p) _ _ _ Hwf He); [|exact Hx| |reflexivity| |done|].
    + intros x Hxw. destruct Hxw. by split.
    + destruct Hewf. by split.
    + unfold index_set_metadata, index_write_entry_metadata. rewrite He. apply log_update_commute.
    + intros m h. cbn. by rewrite Hh.
  - eapply refines_absent; [done| |done|by intros]. cbn. unfold index_set_metadata. by rewrite He.
Qed.

Lemma index_op_refines ix op :
  index_wf ix -> ix_is_rebuilding ix = false -> op_wf op -> refines_op ix op.
Proof.
  intros Hwf Hlive Hop. destruct op; cbn in Hop.
  - by apply index_add_refines.
  - eapply index_increment_refines; eauto.
  - eapply index_increment_refines; eauto.
  - by apply index_remove_refines.
  - by apply index_eject_refines.
  - destruct Hop. by apply index_metadata_refines.
Qed.

(** ** Sequences of operations *)

Fixpoint index_run (ix : index_t) (ops : list index_op) : option index_t :=
  match ops with
  | [] => Some ix
  | op :: ops => ix ← index_apply ix op; index_run ix ops
  end.

Definition ops_spec (ops : list index_op) (m : entry_map) : entry_map := fold_left op_spec ops m.

Lemma op_spec_ext (m1 m2 : entry_map) op :
  (forall h, m1 h = m2 h) -> forall h, op_spec m1 op h = op_spec m2 op h.
Proof. intros Heq h. destruct op; cbn; unfold map_set; by rewrite !Heq. Qed.

Lemma ops_spec_ext ops : forall (m1 m2 : entry_map),
  (forall h, m1 h = m2 h) -> forall h, ops_spec ops m1 h = ops_spec ops m2 h.
Proof.
  unfold ops_spec. induction ops as [|op ops IH]; intros m1 m2 Heq h; cbn [fold_left]; [done|].
  apply IH. by apply op_spec_ext.
Qed.

Lemma index_run_refines ops : forall ix,
  index_wf ix -> ix_is_rebuilding ix = false -> Forall op_wf ops ->
  exists ix' evs,
    index_run ix ops = Some ix' /\ index_wf ix' /\
    (forall h, index_find ix' h = ops_spec ops (index_find ix) h) /\
    extends (set_root ix (ix_root ix')) ix' evs /\ Forall event_wf evs /\
    (forall m, (forall h, m h = index_find ix h) -> forall h, replay_events evs m h = index_find ix' h) /\
    (forall n, exists k, forall m, (forall h, m h = index_find ix h) ->
       forall h, replay_events (take n evs) m h = ops_spec (take k ops) (index_find ix) h).
Proof.
  induction ops as [|op ops IH]; intros ix Hwf Hlive Hops; cbn [index_run].
  { exists ix, []. split_and!; auto; [destruct ix; apply extends_refl|].
    intros n. exists 0%nat. intros m Hm h. rewrite take_nil. apply Hm. }
  apply Forall_cons in Hops as [Hop Hops].
  destruct (index_op_refines ix op Hwf Hlive Hop) as (ix1 & evs1 & -> & Hwf1 & Hfind1 & Hext1 & Hevs1 & Hreplay1).
  cbn [mbind option_bind]. destruct (IH ix1) as (ix2 & evs2 & -> & Hwf2 & Hfind2 & Hext2 & Hevs2 & Hreplay2 & Hcut2); auto.
  { destruct Hext1 as [_ _ -> _ _ _ _]. done. }
  exists ix2, (evs1 ++ evs2). split_and!; auto.
  - intros h. rewrite Hfind2. exact (ops_spec_ext ops _ _ Hfind1 h).
  - eapply extends_trans; [exact (extends_set_root _ _ _ (ix_root ix2) Hext1)|exact Hext2].
  - by apply Forall_app.
  - intros m Hm h. rewrite replay_events_app. apply Hreplay2. intros h'. rewrite Hfind1. by apply Hreplay1.
  - intros n. destruct (Nat.lt_ge_cases n (length evs1)) as [Hlt|Hge].
    + exists 0%nat. intros m Hm h. rewrite take_app_le by lia. destruct (Hreplay1 m Hm) as [_ Hcut].
      rewrite Hcut by done. apply Hm.
    + destruct (Hcut2 (n - length evs1)%nat) as [k Hk]. exists (S k). intros m Hm h.
      rewrite take_app_ge, replay_events_app by lia. rewrite Hk.
      * exact (ops_spec_ext (take k ops) _ _ Hfind1 h).
      * intros h'. rewrite Hfind1. by apply Hreplay1.
Qed.

(** ** Enumeration *)

Lemma push_all b acc : fold_left (fun acc (e : index_entry_t) => acc ++ [e]) b acc = acc ++ b.
Proof.
  revert acc. induction b as [|e b IH]; intros acc; cbn [fold_left]; [by rewrite app_nil_r|].
  rewrite IH. by rewrite <- app_assoc.
Qed.

Lemma to_array_app node : forall acc, index_node_to_array node acc = acc ++ index_node_to_array node [].
Proof.
  induction node as [|b|l IHl r IHr]; intros acc; cbn [index_node_to_array]; [by rewrite app_nil_r|..].
  - by rewrite !push_all.
  - rewrite IHr, IHl, (IHr (index_node_to_array l [])). by rewrite app_assoc.
Qed.

Lemma to_array_length node : length (index_node_to_array node []) = index_node_count node.
Proof.
  induction node as [|b|l IHl r IHr]; cbn [index_node_to_array index_node_count]; [done|by rewrite push_all|].
  rewrite to_array_app, length_app. lia.
Qed.

Lemma to_array_find bs node : forall d p e,
  node_wf bs d p node ->
  e ∈ index_node_to_array node [] <-> index_find_in_node (ie_hash e) node d = Some e.
Proof.
  induction node as [|b|l IHl r IHr]; intros d p e Hwf; [done|..].
  - destruct Hwf as (_ & Hnd & _). cbn [index_node_to_array index_find_in_node]. rewrite push_all.
    fold (bucket_lookup b (ie_hash e)). rewrite bucket_lookup_elem by done. set_solver.
  - cbn [index_node_to_array]. rewrite to_array_app, elem_of_app. rewrite (find_branch _ _ _ _ _ _ Hwf).
    destruct Hwf as (_ & Hl & Hr). rewrite (IHl _ _ e Hl), (IHr _ _ e Hr). unfold child. split.
    + intros [Hf|Hf]; [destruct (find_elem _ _ _ _ _ _ Hl Hf) as (_ & Hp & _)
                      |destruct (find_elem _ _ _ _ _ _ Hr Hf) as (_ & Hp & _)];
        by rewrite (on_path_agree _ _ _ _ Hp).
    + destruct (get_bit _ _); auto.
Qed.

Lemma to_array_nodup bs node : forall d p,
  node_wf bs d p node -> NoDup (map ie_hash (index_node_to_array node [])).
Proof.
  induction node as [|b|l IHl r IHr]; intros d p Hwf; [done|..].
  - destruct Hwf as (_ & Hnd & _). cbn [index_node_to_array]. by rewrite push_all.
  - destruct Hwf as (_ & Hl & Hr). cbn [index_node_to_array]. rewrite to_array_app, map_app.
    apply NoDup_app. split_and!; eauto. intros h (x & -> & Hx)%list_elem_of_fmap (y & Hxy & Hy)%list_elem_of_fmap.
    apply (to_array_find _ _ _ _ _ Hl) in Hx. apply (to_array_find _ _ _ _ _ Hr) in Hy.
    destruct (find_elem _ _ _ _ _ _ Hl Hx) as (_ & Hpx%on_path_agree & _).
    destruct (find_elem _ _ _ _ _ _ Hr Hy) as (_ & Hpy%on_path_agree & _). congruence.
Qed.
End Map.

Lemma create_entry_wf h : length h = BLAKE3_OUT_LEN -> is_bytes h -> entry_wf (index_entry_create h).
Proof. intros Hl Hb. split; cbn; try done; unfold is_u32, is_u64, is_u16; lia. Qed.

(** ** Properties *)

(** C5: the index is a finite map.  From a well-formed index outside of a
    rebuild, any sequence of additions, gets, increments, removals, ejection
    dates and metadata updates terminates (additions within the fuel, however
    the leaves split), leaves a well-formed trie, and [index_find] then answers
    as the same operations on a map from hashes to entries. *)
Theorem index_refines_map {C : Cbor} {CS : CborSerial} {X : Xxh32} (ix : index_t) (ops : list index_op) :
  index_wf ix -> ix_is_rebuilding ix = false -> Forall op_wf ops ->
  exists ix', index_run ix ops = Some ix' /\ index_wf ix' /\
    forall h, index_find ix' h = ops_spec ops (index_find ix) h.
Proof.
  intros Hwf Hlive Hops.
  destruct (index_run_refines ops ix Hwf Hlive Hops) as (ix' & evs & Hrun & Hwf' & Hfind & _).
  by exists ix'.
Qed.

Definition demo_index : index_t :=
  mk_index index_node_create 2 ∅ (wal_create 1) ∅ wal_io_ok 0 false.
Definition demo_hash (k : Z) : bytes := k :: replicate 31 7.
Definition demo_ops : list index_op :=
  [op_add (index_entry_create (demo_hash 1)); op_add (index_entry_create (demo_hash 2));
   op_add (index_entry_create (demo_hash 4)); op_get (demo_hash 2); op_eject (demo_hash 4) 99;
   op_metadata (demo_hash 2) 1 3; op_remove (demo_hash 1)].

Lemma demo_index_wf : index_wf demo_index.
Proof. split; cbn; [lia|]. split_and!; [lia|apply NoDup_nil_2|constructor]. Qed.

Lemma demo_ops_wf : Forall op_wf demo_ops.
Proof.
  assert (forall k, 0 <= k < 256 -> entry_wf (index_entry_create (demo_hash k))) as He.
  { intros k Hk. apply create_entry_wf; [done|]. apply Forall_cons. split; [exact Hk|].
    apply Forall_replicate. unfold is_u8. lia. }
  unfold demo_ops. repeat constructor; cbn; try (apply He; lia); unfold is_u64, is_u16, is_u32; lia.
Qed.

Lemma index_refines_map_witness :
  exists ix', index_run (C := item_cbor) (CS := item_serial) (X := toy_xxh32) demo_index demo_ops = Some ix' /\
    index_wf ix' /\ forall h, index_find ix' h = ops_spec demo_ops (index_find demo_index) h.
Proof.
  apply (index_refines_map (C := item_cbor) (CS := item_serial) (X := toy_xxh32) demo_index demo_ops
           demo_index_wf eq_refl demo_ops_wf).
Defined.

(** [index_to_array] lists each entry of the index once, [index_count] is
    their number, and the entries listed are those [index_find] returns. *)
Theorem index_enumerates (ix : index_t) :
  index_wf ix ->
  index_count ix = length (index_to_array ix) /\ NoDup (map ie_hash (index_to_array ix)) /\
  forall e, e ∈ index_to_array ix <-> index_find ix (ie_hash e) = Some e.
Proof.
  intros [_ Hwf]. unfold index_count, index_to_array, index_find.
  split_and!; [by rewrite to_array_length|by eapply to_array_nodup|]. intros e. by eapply to_array_find.
Qed.

(** Two leaves below the root, told apart by bit 1 of the hash. *)
Definition demo_tree : index_t :=
  set_root demo_index
    (node_branch (node_leaf [index_entry_create (demo_hash 1); index_entry_create (demo_hash 4)])
                 (node_leaf [index_entry_create (demo_hash 2)])).

Lemma demo_tree_wf : index_wf demo_tree.
Proof.
  assert (forall k, 0 <= k < 256 -> entry_wf (index_entry_create (demo_hash k))) as He.
  { intros k Hk. apply create_entry_wf; [done|]. apply Forall_cons. split; [exact Hk|].
    apply Forall_replicate. unfold is_u8. lia. }
  assert (forall p h, get_bit h 1 = p 1%nat -> on_path 1 p h) as Hp.
  { intros p h Hb i Hi. by assert (i = 1)%nat as -> by lia. }
  split; [cbn; lia|]. split_and!; [lia|..]; cbn [node_wf]; (split_and!; [cbn; lia| |]).
  - apply (bool_decide_unpack _). vm_compute. exact I.
  - repeat (apply Forall_cons; split; [split; [apply He; lia|by apply Hp]|]). constructor.
  - apply (bool_decide_unpack _). vm_compute. exact I.
  - repeat (apply Forall_cons; split; [split; [apply He; lia|by apply Hp]|]). constructor.
Qed.

Lemma index_enumerates_witness :
  index_count demo_tree = length (index_to_array demo_tree) /\ NoDup (map ie_hash (index_to_array demo_tree)) /\
  forall e, e ∈ index_to_array demo_tree <-> index_find demo_tree (ie_hash e) = Some e.
Proof. apply (index_enumerates demo_tree demo_tree_wf). Defined.
