(* ===== verification/IndexLog.v ===== *)
(** * IndexLog: replaying the write-ahead log into the index

    Models [_index_replay_wal] of src/src/BlockCache/index.c: the records of a
    log are decoded and applied, one by one, to an index that is rebuilding.
    The theorems show that the replay of what a run of operations logged gives
    an index that answers every lookup as the index that was running, and that
    a torn last record costs only that record. *)

From stdpp Require Import gmap.
From S2P Require Import Prelude Cbor CborCodec Buffer Fibonacci Wal IndexEntry Index IndexMap.
Local Open Scope Z_scope.

Section Log.
Context {C : Cbor} {CS : CborSerial} {X : Xxh32}.

(** ** The cases of the replay loop *)

(** A record that does not decode is skipped. *)
Definition decode_entry (data : bytes) : option index_entry_t := cbor_load data ≫= cbor_to_index_entry.

Definition decode_ejection (data : bytes) : option (bytes * Z) :=
  cbor ← cbor_load data;
  if cbor_isa_array cbor && (2 <=? cbor_array_size cbor)%nat then
    cbor_hash ← cbor_array_get cbor 0;
    cbor_date ← cbor_array_get cbor 1;
    if cbor_isa_bytestring cbor_hash && cbor_isa_uint cbor_date
    then Some (buf_data (cbor_to_buffer cbor_hash), cbor_get_int cbor_date)
    else None
  else None.

Definition decode_hash (data : bytes) : option bytes :=
  cbor ← cbor_load data;
  if cbor_isa_bytestring cbor then Some (buf_data (cbor_to_buffer cbor)) else None.

(** [None] is exhausted fuel of [index_add]. *)
Definition replay_record (acc : option index_t) (type : Z) (data : bytes) : option index_t :=
  ix ← acc;
  if type =? wal_type_code addition then
    match decode_entry data with Some e => index_add ix e | None => Some ix end
  else if type =? wal_type_code increment then
    match decode_entry data with Some e => Some (index_increment ix (ie_hash e)) | None => Some ix end
  else if type =? wal_type_code ejection then
    match decode_ejection data with
    | Some (hash, date) => Some (update_entry ix hash (fun e => index_entry_set_ejection_date e date))
    | None => Some ix
    end
  else if type =? wal_type_code removal then
    match decode_hash data with Some hash => Some (index_remove ix hash) | None => Some ix end
  else if type =? wal_type_code metadata then
    match decode_entry data with
    | Some e =>
        Some (update_entry ix (ie_hash e)
                (fun x => set_entry_metadata x (ie_ephemeral_count e) (ie_pin_count e)))
    | None => Some ix
    end
  else acc.

(** The index, the code the replay ended with and whether the log is a legacy
    one.  Every iteration reads a record, so the length of the file is fuel. *)
Definition index_replay_wal (ix : index_t) (wal_id : Z) : option index_t * Z * bool :=
  let fuel := length (default [] (ix_wal_dir ix !! wal_id)) in
  let '(ix', code, wal) := wal_replay replay_record fuel (ix_wal_dir ix) (wal_load wal_id) 0 0 (Some ix) in
  (ix', code, wal_legacy_entry_size wal).

(** ** One record *)

Context {CL : CborLaws} {CSL : CborSerialLaws}.

Lemma decode_entry_payload e : entry_wf e -> decode_entry (payload (index_entry_to_cbor e)) = Some e.
Proof using CL CSL.
  intros He. destruct (entry_to_cbor_some e) as [i Hi]. destruct (entry_item_ok _ _ He Hi) as [Hs _].
  unfold decode_entry. rewrite Hi. cbn [payload]. rewrite load_serialize by done. by eapply entry_roundtrip.
Qed.

Lemma decode_hash_payload h :
  length h = BLAKE3_OUT_LEN -> is_bytes h -> decode_hash (payload (Some (removal_item h))) = Some h.
Proof using CL CSL.
  intros Hl Hb. destruct (removal_item_ok _ Hl Hb) as [Hs _]. unfold decode_hash. cbn [payload].
  rewrite load_serialize by done. unfold removal_item, cbor_to_buffer. cbn [mbind option_bind]. cbor_simp. done.
Qed.

Lemma decode_ejection_payload h d :
  length h = BLAKE3_OUT_LEN -> is_bytes h -> is_u64 d ->
  decode_ejection (payload (ejection_item h d)) = Some (h, d).
Proof using CL CSL.
  intros Hl Hb Hd. destruct (ejection_item_ok _ _ _ Hl Hb Hd eq_refl) as [Hs _]. unfold decode_ejection.
  cbn [payload ejection_item cbor_definite_array length Nat.leb] in *.
  rewrite load_serialize by done. unfold cbor_to_buffer. cbn [mbind option_bind]. cbor_simp.
  cbn. cbor_simp. done.
Qed.

Lemma record_of_ok ev : event_wf ev -> record_ok (record_of ev).
Proof using CL CSL.
  intros Hev. unfold record_ok. destruct ev; cbn [event_wf] in Hev; cbn [record_of fst snd].
  1,2,5: destruct (entry_to_cbor_some e) as [i Hi]; destruct (entry_item_ok _ _ Hev Hi) as [_ Hl];
    rewrite Hi; cbn [payload]; by rewrite Hl.
  - destruct Hev as [Hl Hb]. destruct (removal_item_ok _ Hl Hb) as [_ Hlen]. cbn [payload]. by rewrite Hlen.
  - destruct Hev as (Hl & Hb & Hd). destruct (ejection_item_ok _ _ _ Hl Hb Hd eq_refl) as [_ Hlen].
    cbn [payload ejection_item cbor_definite_array length Nat.leb] in *. by rewrite Hlen.
Qed.

(** What a step of a rebuild does: the map is changed, nothing is logged. *)
Definition rebuilds (ix : index_t) (m : entry_map) (res : option index_t) : Prop :=
  exists ix', res = Some ix' /\ index_wf ix' /\ (forall h, index_find ix' h = m h) /\
    extends (set_root ix (ix_root ix')) ix' [].

Lemma rebuild_add ix e :
  index_wf ix -> ix_is_rebuilding ix = true -> entry_wf e ->
  rebuilds ix (replay_event (index_find ix) (ev_add e)) (index_add ix e).
Proof using Type.
  intros [Hbs Hwf] Hr He.
  destruct (add_to_node_spec add_fuel ix e (ix_root ix) 0%nat root_path)
    as (ix' & root & evs & Hrun & Hwf' & _ & Hfind & _ & Hext); auto; [lia|intros i Hi; lia| |].
  { unfold need, add_fuel. destruct (is_leaf _); lia. }
  pose proof Hext as [_ Hbs' _ _ _ _ _]. unfold logged in Hext. rewrite Hr in *.
  exists (set_root ix' root). unfold index_add. rewrite Hrun.
  split_and!; [done|unfold index_wf; cbn; by rewrite Hbs'|exact Hfind|by apply extends_set_root].
Qed.

Lemma rebuild_update ix h0 f :
  index_wf ix -> (forall e, entry_wf e -> entry_wf (f e) /\ ie_hash (f e) = ie_hash e) ->
  rebuilds ix (map_set (index_find ix) h0 (f <$> index_find ix h0)) (Some (update_entry ix h0 f)).
Proof using Type.
  intros Hwf Hf. destruct (update_entry_refines ix ix h0 f [] Hwf Hf (extends_refl ix)) as (? & ? & ?).
  by exists (update_entry ix h0 f).
Qed.

Lemma rebuild_increment ix h0 :
  index_wf ix -> ix_is_rebuilding ix = true ->
  rebuilds ix (map_set (index_find ix) h0 ((fun e => (index_entry_increment e).1) <$> index_find ix h0))
    (Some (index_increment ix h0)).
Proof using Type.
  intros Hwf Hr. unfold index_increment. destruct (index_find ix h0) as [e|] eqn:He.
  - pose proof (increment_entry_spec ix e) as Hinc. destruct (index_increment_entry ix e) as [ix1 e1].
    destruct Hinc as [-> Hx]. unfold logged in Hx. rewrite Hr in Hx.
    destruct (update_entry_refines ix ix1 h0 (fun e => (index_entry_increment e).1) [] Hwf increment_hash_wf Hx)
      as (Hwf' & Hfind & Hext).
    assert (update_entry ix1 h0 (fun _ => (index_entry_increment e).1) =
            update_entry ix1 h0 (fun e => (index_entry_increment e).1)) as ->.
    { unfold update_entry. f_equal. destruct Hx as [-> _ _ _ _ _ _]. destruct Hwf as [_ Hnode].
      exact (update_const _ _ _ _ _ _ (fun e => (index_entry_increment e).1) Hnode He). }
    eexists. rewrite He in Hfind. by split_and!.
  - exists ix. split_and!; [done|done| |destruct ix; apply extends_refl].
    intros h. by rewrite map_set_same.
Qed.

Lemma rebuild_remove ix h0 :
  index_wf ix -> ix_is_rebuilding ix = true ->
  rebuilds ix (map_set (index_find ix) h0 None) (Some (index_remove ix h0)).
Proof using Type.
  intros Hwf Hr. pose proof Hwf as [Hbs Hnode].
  destruct (remove_from_node_spec h0 (ix_root ix) ix _ _ Hnode) as (ix1 & root & Hrun & Hwf1 & Hfind & Hext).
  unfold logged in Hext. rewrite Hr in Hext. pose proof Hext as [_ Hbs1 _ _ _ _ _].
  exists (set_root ix1 root). unfold index_remove. rewrite Hrun.
  split_and!; [done|unfold index_wf; cbn; by rewrite Hbs1|exact Hfind|by apply extends_set_root].
Qed.

Lemma replay_record_spec ix ev :
  index_wf ix -> ix_is_rebuilding ix = true -> event_wf ev ->
  rebuilds ix (replay_event (index_find ix) ev)
    (replay_record (Some ix) (wal_type_code (record_of ev).1) (record_of ev).2).
Proof using CL CSL.
  intros Hwf Hr Hev. unfold replay_record. cbn [mbind option_bind]. destruct ev as [e|e|h|h d|e];
    cbn [event_wf] in Hev; cbn [record_of fst snd wal_type_code Z.eqb Pos.eqb replay_event].
  - rewrite decode_entry_payload by done. by apply rebuild_add.
  - rewrite decode_entry_payload by done. by apply rebuild_increment.
  - destruct Hev as [Hl Hb]. rewrite decode_hash_payload by done. by apply rebuild_remove.
  - destruct Hev as (Hl & Hb & Hdt). rewrite decode_ejection_payload by done.
    apply rebuild_update; [done|]. intros x Hx. destruct Hx. by split.
  - rewrite decode_entry_payload by done. apply rebuild_update; [done|]. intros x Hx. destruct Hx, Hev. by split.
Qed.

Lemma apply_records_spec evs : forall ix,
  index_wf ix -> ix_is_rebuilding ix = true -> Forall event_wf evs ->
  rebuilds ix (replay_events evs (index_find ix)) (apply_records replay_record (map record_of evs) (Some ix)).
Proof using CL CSL.
  induction evs as [|ev evs IH]; intros ix Hwf Hr Hevs.
  { exists ix. split_and!; try done. destruct ix; apply extends_refl. }
  apply Forall_cons in Hevs as [Hev Hevs]. cbn [map]. unfold apply_records. cbn [fold_left].
  destruct (replay_record_spec ix ev Hwf Hr Hev) as (ix1 & -> & Hwf1 & Hfind1 & Hext1).
  destruct (IH ix1 Hwf1) as (ix2 & Hrun & Hwf2 & Hfind2 & Hext2); [by destruct Hext1 as [_ _ -> _ _ _ _]|done|].
  exists ix2. split_and!; [done|done| |].
  - intros h. rewrite Hfind2. change (replay_events evs (index_find ix1) h = replay_events evs (replay_event (index_find ix) ev) h).
    by apply replay_events_ext.
  - exact (extends_trans _ _ _ _ _ (extends_set_root _ _ _ (ix_root ix2) Hext1) Hext2).
Qed.

(** The replay of a complete log. *)
Lemma replay_log ix id evs :
  index_wf ix -> ix_is_rebuilding ix = true -> Forall event_wf evs ->
  default [] (ix_wal_dir ix !! id) = wal_bytes (map record_of evs) ->
  Z.of_nat (length (wal_bytes (map record_of evs))) < 2 ^ 31 ->
  exists ix' code, index_replay_wal ix id = (Some ix', code, false) /\ index_wf ix' /\
    (forall h, index_find ix' h = replay_events evs (index_find ix) h) /\
    extends (set_root ix (ix_root ix')) ix' [] /\ (evs <> [] -> code = -3).
Proof using CL CSL.
  intros Hwf Hr Hevs Hdir Hsize. unfold index_replay_wal. rewrite Hdir.
  destruct (apply_records_spec evs ix Hwf Hr Hevs) as (ix' & Happly & Hwf' & Hfind & Hext).
  destruct evs as [|ev evs].
  - rewrite replay_empty by done. cbn in Happly. injection Happly as <-. by exists ix; eexists.
  - rewrite (replay_complete replay_record _ _ _ (map record_of (ev :: evs))); [|..|done|apply length_wal_bytes].
    + rewrite Happly. by exists ix', (-3).
    + apply Forall_map. eapply Forall_impl; [done|]. intros x Hx. by apply record_of_ok.
    + done.
    + by destruct (ix_wal_dir ix !! id); cbn in Hdir; [rewrite Hdir|].
Qed.
End Log.

(** ** Properties *)

(** C26: recovery from the log.  An index that starts with a fresh log and
    runs any sequence of operations leaves a log that, replayed into an index
    with the starting contents (the loaded snapshot), gives an index with the
    same answer to every lookup; the replay of a non-empty log ends cleanly. *)
Theorem index_replay_recovers {C : Cbor} {CS : CborSerial} {X : Xxh32} {CL : CborLaws} {CSL : CborSerialLaws}
    (ix0 ix ix1 : index_t) (ops : list index_op) :
  index_wf ix0 -> ix_is_rebuilding ix0 = false -> ix_wal_io ix0 = wal_io_ok -> log_file ix0 = [] ->
  Forall op_wf ops -> index_run ix0 ops = Some ix -> Z.of_nat (length (log_file ix)) < 2 ^ 31 ->
  index_wf ix1 -> ix_is_rebuilding ix1 = true -> (forall h, index_find ix1 h = index_find ix0 h) ->
  ix_wal_dir ix1 !! wal_current_file (ix_wal ix0) = ix_wal_dir ix !! wal_current_file (ix_wal ix0) ->
  exists ix' code legacy,
    index_replay_wal ix1 (wal_current_file (ix_wal ix0)) = (Some ix', code, legacy) /\ index_wf ix' /\
    (forall h, index_find ix' h = index_find ix h) /\ (log_file ix <> [] -> code = -3).
Proof.
  intros Hwf0 Hlive Hio Hlog Hops Hrun Hsize Hwf1 Hr1 Hsame Hdir.
  destruct (index_run_refines ops ix0 Hwf0 Hlive Hops) as (ix'' & evs & Hrun' & _ & _ & Hext & Hevs & Hreplay & _).
  rewrite Hrun in Hrun'. injection Hrun' as <-. destruct Hext as [_ _ _ _ Hfile Hlogx _].
  specialize (Hlogx Hio). change (log_file (set_root ix0 (ix_root ix))) with (log_file ix0) in Hlogx.
  rewrite Hlog in Hlogx. cbn [app] in Hlogx. cbn [set_root ix_wal] in Hfile.
  destruct (replay_log ix1 (wal_current_file (ix_wal ix0)) evs Hwf1 Hr1 Hevs)
    as (ix' & code & Hres & Hwf' & Hfind & _ & Hcode).
  { rewrite Hdir, <- Hlogx. unfold log_file. by rewrite Hfile. }
  { by rewrite <- Hlogx. }
  exists ix', code, false. split_and!; [done|done|intros h; rewrite Hfind; by apply Hreplay|].
  intros Hne. apply Hcode. intros ->. by rewrite Hlogx in Hne.
Qed.

(** The index after the operations, and the empty one its log is replayed into. *)
Definition demo_after : index_t :=
  match index_run (C := item_cbor) (CS := item_serial) (X := toy_xxh32) demo_index demo_ops with
  | Some ix => ix
  | None => demo_index
  end.
Definition demo_restored : index_t :=
  mk_index index_node_create 2 ∅ (wal_create 2) (ix_wal_dir demo_after) wal_io_ok 0 true.

Lemma demo_run : index_run (C := item_cbor) (CS := item_serial) (X := toy_xxh32) demo_index demo_ops = Some demo_after.
Proof. vm_compute. reflexivity. Qed.

Lemma index_replay_recovers_witness :
  exists ix' code legacy,
    index_replay_wal (C := item_cbor) (CS := item_serial) (X := toy_xxh32) demo_restored 1 =
      (Some ix', code, legacy) /\ index_wf ix' /\
    (forall h, index_find ix' h = index_find demo_after h) /\ (log_file demo_after <> [] -> code = -3).
Proof.
  apply (index_replay_recovers (C := item_cbor) (CS := item_serial) (X := toy_xxh32)
           demo_index demo_after demo_restored demo_ops).
  - exact demo_index_wf.
  - reflexivity.
  - reflexivity.
  - reflexivity.
  - exact demo_ops_wf.
  - exact demo_run.
  - vm_compute. reflexivity.
  - exact demo_index_wf.
  - reflexivity.
  - reflexivity.
  - reflexivity.
Defined.

(** C25: crash consistency.  An index that starts with a fresh log and runs
    operations whose log stays below 2^31 bytes, every write to it succeeding,
    leaves a log of well-formed records.  If no addition or increment among them
    has the checksum of its first 78 bytes (the length its legacy form had, which
    the reader tries too), then, when a crash cuts the log at any byte, the
    replay of what is left gives the contents of the index after some prefix of
    the operations: none is applied in part, even an addition that split
    leaves. *)
Theorem index_crash_consistent {C : Cbor} {CS : CborSerial} {X : Xxh32} {CL : CborLaws} {CSL : CborSerialLaws}
    (ix0 ix : index_t) (ops : list index_op) :
  index_wf ix0 -> ix_is_rebuilding ix0 = false -> ix_wal_io ix0 = wal_io_ok -> log_file ix0 = [] ->
  Forall op_wf ops -> index_run ix0 ops = Some ix -> Z.of_nat (length (log_file ix)) < 2 ^ 31 ->
  exists records, Forall record_ok records /\ log_file ix = wal_bytes records /\
    (Forall no_legacy_collision records ->
     forall content ix1,
       content `prefix_of` log_file ix -> index_wf ix1 -> ix_is_rebuilding ix1 = true ->
       (forall h, index_find ix1 h = index_find ix0 h) ->
       default [] (ix_wal_dir ix1 !! wal_current_file (ix_wal ix0)) = content ->
       exists ix' code legacy k,
         index_replay_wal ix1 (wal_current_file (ix_wal ix0)) = (Some ix', code, legacy) /\ index_wf ix' /\
         forall h, index_find ix' h = ops_spec (take k ops) (index_find ix0) h).
Proof.
  intros Hwf0 Hlive Hio Hlog Hops Hrun Hsize.
  destruct (index_run_refines ops ix0 Hwf0 Hlive Hops) as (ix'' & evs & Hrun' & _ & _ & Hext & Hevs & _ & Hcut).
  rewrite Hrun in Hrun'. injection Hrun' as <-. destruct Hext as [_ _ _ _ _ Hlogx _].
  specialize (Hlogx Hio). change (log_file (set_root ix0 (ix_root ix))) with (log_file ix0) in Hlogx.
  rewrite Hlog in Hlogx. cbn [app] in Hlogx.
  assert (Forall record_ok (map record_of evs)) as Hok.
  { apply Forall_map. eapply Forall_impl; [done|]. intros ev Hev. by apply record_of_ok. }
  exists (map record_of evs). split; [done|]. split; [done|].
  intros Hcoll content ix1 Hpre Hwf1 Hr1 Hsame Hdir. unfold index_replay_wal. rewrite Hdir.
  destruct (replay_prefix replay_record (length content) (ix_wal_dir ix1) (wal_current_file (ix_wal ix0))
    (map record_of evs) content (Some ix1)) as (n & code & wal & ->); auto.
  { by rewrite <- Hlogx. }
  { apply prefix_length in Hpre. lia. }
  rewrite firstn_map. destruct (Hcut n) as [k Hk].
  destruct (apply_records_spec (take n evs) ix1 Hwf1 Hr1) as (ix' & -> & Hwf' & Hfind & _); [by apply Forall_take|].
  eexists ix', code, _, k. split_and!; [done|done|]. intros h. rewrite Hfind. by apply Hk.
Qed.

(** The records in that log, one of each type at least. *)
Definition type_of_code (t : Z) : wal_type_e :=
  if t =? 97 then addition else if t =? 114 then removal else if t =? 105 then increment
  else if t =? 101 then ejection else metadata.
Definition demo_records : list wal_record :=
  (wal_replay (H := toy_xxh32) (fun rs t d => rs ++ [(type_of_code t, d)]) 100 (ix_wal_dir demo_after)
     (wal_load 1) 0 0 []).1.1.

Lemma demo_records_types : map fst demo_records =
  [addition; addition; addition; addition; addition; increment; ejection; metadata; removal].
Proof. vm_compute. reflexivity. Qed.

Lemma demo_records_ok : Forall record_ok demo_records.
Proof.
  apply (Forall_impl (fun r : wal_record => bool_decide (wal_payload_size false (wal_type_code r.1) = Some (length r.2)) = true));
    [|by intros r ?%bool_decide_eq_true].
  apply List.Forall_forall, List.forallb_forall. vm_compute. reflexivity.
Qed.

Lemma demo_records_no_collision : Forall (no_legacy_collision (H := toy_xxh32)) demo_records.
Proof.
  apply (Forall_impl (fun r : wal_record => bool_decide (r.1 = addition \/ r.1 = increment) &&
    (XXH32 (Xxh32 := toy_xxh32) (take 78 r.2) =? XXH32 (Xxh32 := toy_xxh32) r.2) = false)).
  - apply List.Forall_forall. intros r Hr. apply negb_true_iff. revert r Hr.
    apply List.forallb_forall. vm_compute. reflexivity.
  - intros r H Ht. rewrite (bool_decide_true _ Ht) in H. by apply Z.eqb_neq.
Qed.

(** The log cut in the middle of its last record but one, and the index it is
    replayed into. *)
Definition demo_cut : bytes := take (length (log_file demo_after) - 60) (log_file demo_after).
Definition demo_crashed : index_t :=
  mk_index index_node_create 2 ∅ (wal_create 2) {[ 1 := demo_cut ]} wal_io_ok 0 true.

Lemma demo_log : log_file demo_after = wal_bytes (H := toy_xxh32) demo_records.
Proof. vm_compute. reflexivity. Qed.

Lemma demo_crashed_log : default [] (ix_wal_dir demo_crashed !! 1) = demo_cut.
Proof. vm_compute. reflexivity. Qed.

Lemma index_crash_consistent_witness :
  exists ix' code legacy k,
    index_replay_wal (C := item_cbor) (CS := item_serial) (X := toy_xxh32) demo_crashed 1 = (Some ix', code, legacy) /\
    index_wf ix' /\ forall h, index_find ix' h = ops_spec (take k demo_ops) (index_find demo_index) h.
Proof.
  destruct (index_crash_consistent (C := item_cbor) (CS := item_serial) (X := toy_xxh32)
           demo_index demo_after demo_ops) as (records & Hok & Hlog & Hcrash).
  - exact demo_index_wf.
  - reflexivity.
  - reflexivity.
  - reflexivity.
  - exact demo_ops_wf.
  - exact demo_run.
  - vm_compute. reflexivity.
  - rewrite demo_log in Hlog. apply wal_bytes_inj in Hlog; [|exact demo_records_ok|exact Hok]. subst records.
    apply (Hcrash demo_records_no_collision demo_cut demo_crashed).
    + apply prefix_take.
    + exact demo_index_wf.
    + reflexivity.
    + reflexivity.
    + exact demo_crashed_log.
Defined.
