(* ===== verification/IndexStore.v ===== *)
(** * IndexStore: snapshots, start-up and recovery of the index

    Models the persistence of src/src/BlockCache/index.c: the CBOR form of the
    trie, its checksum, [index_debounce] (a snapshot and the switch to the next
    write-ahead log), the pruning of old snapshots and logs, and
    [index_create], which loads the newest valid snapshot and replays the log.

    The theorems show that the snapshot codec is a round trip, that between
    the first snapshot and the last any interleaving of operations, snapshots
    and crashes followed by a restart answers lookups as the operations alone,
    and two histories after which entries are lost. *)

From stdpp Require Import gmap sorting.
From S2P Require Import Prelude Cbor CborCodec Buffer Fibonacci Wal IndexEntry Index IndexMap IndexLog.
Local Open Scope Z_scope.

(** XXH64 with seed 0; a streaming digest is the hash of the concatenated updates. *)
Class Xxh64 := {
  XXH64 : bytes -> Z;
  xxh64_u64 : forall data, is_u64 (XXH64 data)
}.

(** ** State *)

(** A file of the index directory, named by its id and checksum; [None] is
    the name with [crc_error]. *)
Record snapshot := mk_snapshot { sn_id : Z; sn_crc : option Z; sn_data : bytes }.

#[export] Instance snapshot_eq_dec : EqDecision snapshot.
Proof. solve_decision. Defined.

Record index_store := mk_store {
  st_index : index_t;
  st_current_file : Z;             (* paths are modelled by their id *)
  st_last_file : option Z;
  st_next_id : Z;
  st_max_snapshots : nat;
  st_max_wals : nat;
  st_fsync_data : bool;
  st_snapshots : list snapshot     (* the index directory *)
}.

(** Outcomes of the platform calls: the error code of a snapshot that cannot
    be read, how much of a snapshot is written and whether it is synced, and
    which files can be unlinked. *)
Record store_io := mk_store_io {
  sio_read_error : snapshot -> option Z;
  sio_written : option nat;
  sio_sync : bool;
  sio_unlink_snapshot : snapshot -> bool;
  sio_unlink_wal : Z -> bool
}.
Definition store_io_ok : store_io :=
  mk_store_io (fun _ => None) None true (fun _ => true) (fun _ => true).

Definition set_index (st : index_store) (ix : index_t) : index_store :=
  mk_store ix (st_current_file st) (st_last_file st) (st_next_id st) (st_max_snapshots st) (st_max_wals st)
    (st_fsync_data st) (st_snapshots st).
Definition set_files (st : index_store) (current : Z) (last : option Z) (next : Z) : index_store :=
  mk_store (st_index st) current last next (st_max_snapshots st) (st_max_wals st) (st_fsync_data st) (st_snapshots st).
Definition set_snapshots (st : index_store) (snaps : list snapshot) : index_store :=
  mk_store (st_index st) (st_current_file st) (st_last_file st) (st_next_id st) (st_max_snapshots st)
    (st_max_wals st) (st_fsync_data st) snaps.
Definition set_wal (ix : index_t) (wal : wal_t) : index_t := set_log ix (ix_wal_dir ix, wal).
Definition set_wal_dir (ix : index_t) (dir : wal_dir) : index_t := set_log ix (dir, ix_wal ix).

(** ** The directory listing *)

Definition _sort_indexes (a b : snapshot) : Z :=
  if sn_id a <? sn_id b then -1 else if sn_id b <? sn_id a then 1 else 0.

(** [vec_sort(files, _sort_indexes)]. *)
Definition before (a b : snapshot) : Prop := _sort_indexes a b <= 0.
#[export] Instance before_dec a b : Decision (before a b) := Z_le_dec _ _.
Definition sorted_files (snaps : list snapshot) : list snapshot := merge_sort before snaps.

(** The id and the checksum of a name; the code of an invalid name is 1. *)
Definition _index_get_id_crc (file : snapshot) : Z * Z * Z :=
  match sn_crc file with
  | Some crc => (0, sn_id file, crc)
  | None => (1, sn_id file, 0)
  end.

(** [open(O_WRONLY | O_CREAT)] and a write at offset 0: an existing file of
    the name keeps what lies behind. *)
Definition same_name (a b : snapshot) : bool :=
  bool_decide (sn_id a = sn_id b /\ sn_crc a = sn_crc b).
Definition write_snapshot (snaps : list snapshot) (file : snapshot) : list snapshot :=
  match find (same_name file) snaps with
  | Some old =>
      map (fun s => if same_name file s
                    then mk_snapshot (sn_id s) (sn_crc s) (sn_data file ++ drop (length (sn_data file)) (sn_data s))
                    else s) snaps
  | None => snaps ++ [file]
  end.

(** ** Pruning *)

Definition _index_prune_old_snapshots (io : store_io) (st : index_store) : index_store * Z :=
  if (st_max_snapshots st =? 0)%nat then (st, 0)
  else if (length (st_snapshots st) =? 0)%nat then (st, 0)
  else
    let files := sorted_files (st_snapshots st) in
    let delete_count := (length files - st_max_snapshots st)%nat in
    let kept := filter (fun s => sio_unlink_snapshot io s = false) (take delete_count files) in
    let first_kept_id :=
      match files !! delete_count with Some f => let '(_, id, _) := _index_get_id_crc f in id | None => 0 end in
    (set_snapshots st (kept ++ drop delete_count files), first_kept_id).

Definition _index_prune_old_wals (io : store_io) (st : index_store) (first_kept_id : Z) : index_store :=
  if (st_max_wals st =? 0)%nat then st
  else
    let dir := filter (fun f => ~ (f.1 < first_kept_id /\ sio_unlink_wal io f.1 = true)) (ix_wal_dir (st_index st)) in
    set_index st (set_wal_dir (st_index st) dir).

(** ** The newest file *)

Lemma before_le a b : before a b <-> sn_id a <= sn_id b.
Proof. unfold before, _sort_indexes. destruct (Z.ltb_spec (sn_id a) (sn_id b)), (Z.ltb_spec (sn_id b) (sn_id a)); lia. Qed.

#[export] Instance before_trans : Transitive before.
Proof. intros a b c. rewrite !before_le. lia. Qed.
#[export] Instance before_total : Total before.
Proof. intros a b. rewrite !before_le. lia. Qed.

Lemma elem_of_sorted_files snaps s : s ∈ sorted_files snaps <-> s ∈ snaps.
Proof. unfold sorted_files. by rewrite merge_sort_Permutation. Qed.

Lemma last_sorted_max l s x :
  StronglySorted before l -> last l = Some s -> x ∈ l -> sn_id x <= sn_id s.
Proof.
  induction 1 as [|y l Hs IH Hall]; [done|]. intros Hl Hx. destruct l as [|z l].
  - cbn in Hl. injection Hl as ->. apply list_elem_of_singleton in Hx as ->. lia.
  - assert (last (z :: l) = Some s) as Hl' by done. apply elem_of_cons in Hx as [->|Hx]; [|auto].
    rewrite Forall_forall in Hall. apply before_le, Hall. by apply last_Some_elem_of.
Qed.

Definition newest (snaps : list snapshot) (file : snapshot) : Prop :=
  file ∈ snaps /\ forall s, s ∈ snaps -> s <> file -> sn_id s < sn_id file.

Lemma newest_last snaps file : newest snaps file -> last (sorted_files snaps) = Some file.
Proof.
  intros [Hin Hmax]. destruct (last (sorted_files snaps)) as [s|] eqn:Hl.
  - assert (s ∈ snaps) as Hs by (apply elem_of_sorted_files; by apply last_Some_elem_of).
    f_equal. destruct (decide (s = file)) as [|Hne]; [done|]. specialize (Hmax s Hs Hne).
    assert (sn_id file <= sn_id s); [|lia].
    eapply last_sorted_max; [apply (StronglySorted_merge_sort before)|done|by apply elem_of_sorted_files].
  - apply last_None in Hl. exfalso. apply elem_of_sorted_files in Hin. rewrite Hl in Hin. by apply not_elem_of_nil in Hin.
Qed.

Lemma last_drop_lt {A} (l : list A) n : (n < length l)%nat -> last (drop n l) = last l.
Proof.
  intros Hn. rewrite <- (take_drop n l) at 2. rewrite last_app.
  destruct (last (drop n l)) eqn:Hl; [done|]. apply last_None in Hl.
  assert (length (drop n l) = 0)%nat as H0 by (by rewrite Hl). rewrite length_drop in H0. lia.
Qed.

Lemma newest_subset snaps snaps' file :
  newest snaps file -> file ∈ snaps' -> (forall s, s ∈ snaps' -> s ∈ snaps) -> newest snaps' file.
Proof. intros [_ Hmax] Hin Hsub. split; [done|]. intros s Hs. apply Hmax. auto. Qed.

Section Store.
Context {C : Cbor} {CS : CborSerial} {X : Xxh32} {X64 : Xxh64}.

(** ** The trie as CBOR *)

Fixpoint index_node_to_cbor (node : index_node_t) : option cbor_item :=
  match node with
  | node_null => None
  | node_branch l r =>
      cbor_left ← index_node_to_cbor l;
      cbor_right ← index_node_to_cbor r;
      cbor_definite_array 2 [cbor_left; cbor_right]
  | node_leaf bucket =>
      entries ← mapM index_entry_to_cbor bucket;
      bucket_array ← cbor_definite_array (length bucket) entries;
      cbor_definite_array 1 [bucket_array]
  end.

(** The outer [None] is exhausted fuel (nesting of the item), the inner one NULL. *)
Fixpoint cbor_to_index_node (fuel : nat) (cbor : cbor_item) : option (option index_node_t) :=
  match fuel with
  | O => None
  | S fuel =>
      if (cbor_array_size cbor =? 2)%nat then
        match cbor_array_get cbor 0, cbor_array_get cbor 1 with
        | Some cbor_left, Some cbor_right =>
            l ← cbor_to_index_node fuel cbor_left;
            match l with
            | None => Some None
            | Some l =>
                r ← cbor_to_index_node fuel cbor_right;
                match r with None => Some None | Some r => Some (Some (node_branch l r)) end
            end
        | _, _ => Some None
        end
      else if (cbor_array_size cbor =? 1)%nat then
        match cbor_array_get cbor 0 with
        | Some cbor_bucket => Some (node_leaf <$> mapM cbor_to_index_entry (cbor_array_items cbor_bucket))
        | None => Some None
        end
      else Some None
  end.

Definition _index_to_cbor (ix : index_t) : option cbor_item :=
  root ← index_node_to_cbor (ix_root ix);
  cbor_definite_array 3 [root; cbor_build_uint64 (Z.of_nat (ix_bucket_size ix))].

(** ** Checksum *)

Definition entry_crc_bytes (legacy : bool) (e : index_entry_t) : bytes :=
  ie_hash e ++ be_bytes 4 (hc_fib (ie_counter e)) ++ be_bytes 4 (hc_count (ie_counter e)) ++
  be_bytes 8 (ie_ejection_date e) ++ be_bytes 8 (ie_section_index e) ++ be_bytes 8 (ie_section_id e) ++
  if legacy then [] else be_bytes 4 (u32 (ie_ephemeral_count e)) ++ be_bytes 4 (ie_pin_count e).

(** The bytes fed to the digest state. *)
Fixpoint _index_node_to_crc (node : index_node_t) (state : bytes) (legacy : bool) : bytes :=
  match node with
  | node_null => state
  | node_branch l r => _index_node_to_crc r (_index_node_to_crc l state legacy) legacy
  | node_leaf bucket => fold_left (fun state e => state ++ entry_crc_bytes legacy e) bucket state
  end.

Definition _index_to_crc_ex (ix : index_t) (legacy : bool) : Z :=
  XXH64 (_index_node_to_crc (ix_root ix) [] legacy).
Definition _index_to_crc (ix : index_t) : Z := _index_to_crc_ex ix false.

(** ** Construction *)

Definition _index_new_empty (bucket_size : nat) (most_recent_id : Z) (max_snapshots max_wals : nat)
    (snaps : list snapshot) (dir : wal_dir) (wio : wal_io) : index_store :=
  let current_id := u64 (most_recent_id + 1) in
  mk_store (mk_index index_node_create bucket_size ∅ (wal_create current_id) dir wio 0 false)
    current_id None (u64 (most_recent_id + 2)) max_snapshots max_wals false snaps.

Definition rank_all (entries : list index_entry_t) : gmap Z (list (list Z)) :=
  fold_left (fun ranks e => rank_push ranks (hc_fib (ie_counter e)) (ie_hash e)) entries ∅.

(** The ids follow the newest file of the directory, whichever was loaded. *)
Definition index_create_from (bucket_size : nat) (root : index_node_t) (max_snapshots max_wals : nat)
    (snaps : list snapshot) (dir : wal_dir) (wio : wal_io) : index_store :=
  let '(last_id, next_id, last_file) :=
    match last (sorted_files snaps) with
    | Some file => (sn_id file, u64 (sn_id file + 2), Some (sn_id file))
    | None => (0, 2, None)
    end in
  let id := u64 (last_id + 1) in
  let ranks := rank_all (index_node_to_array root []) in
  mk_store (mk_index root bucket_size ranks (wal_create id) dir wio 0 false)
    id last_file next_id max_snapshots max_wals false snaps.

(** [cbor_array_get] outside the array is undefined; it is NULL here. *)
Definition cbor_to_index (fuel : nat) (cbor : cbor_item) (max_snapshots max_wals : nat)
    (snaps : list snapshot) (dir : wal_dir) (wio : wal_io) : option (option index_store) :=
  match cbor_array_get cbor 0, cbor_array_get cbor 1 with
  | Some cbor_root, Some cbor_bucket_size =>
      let bucket_size := Z.to_nat (cbor_get_int cbor_bucket_size) in
      root ← cbor_to_index_node fuel cbor_root;
      match root with
      | Some root => Some (Some (index_create_from bucket_size root max_snapshots max_wals snaps dir wio))
      | None => Some None
      end
  | _, _ => Some None
  end.

(** ** Snapshots *)

(** A failed write or sync leaves the old log in place; the bytes written
    before the failure stay in the directory.  A trie with a NULL child has no
    CBOR form, which the code does not handle: nothing happens here. *)
Definition index_debounce (io : store_io) (st : index_store) : index_store :=
  match _index_to_cbor (st_index st) with
  | None => st
  | Some cbor =>
      let ix := st_index st in
      let crc := _index_to_crc ix in
      let old_wal := ix_wal ix in
      let old_current := st_current_file st in
      let st := set_files st (st_next_id st) (Some old_current) (u64 (st_next_id st + 1)) in
      let st := set_index st (set_wal ix (wal_create_next (wal_next_id old_wal) (wal_last_file old_wal))) in
      let cbor_data := cbor_serialize cbor in
      let written := match sio_written io with Some k => take k cbor_data | None => cbor_data end in
      let st := set_snapshots st (write_snapshot (st_snapshots st) (mk_snapshot old_current (Some crc) written)) in
      let complete := (length written =? length cbor_data)%nat in
      if negb complete || (st_fsync_data st && negb (sio_sync io)) then
        set_index (set_files st old_current None (st_next_id st)) (set_wal (st_index st) old_wal)
      else
        let '(st, first_kept_id) := _index_prune_old_snapshots io st in
        _index_prune_old_wals io st first_kept_id
  end.

(** ** Start-up *)

(** Replays the logs of the snapshots that were passed over, in order, up to
    the first that does not end cleanly. *)
Fixpoint rebuild_from (ix : index_t) (later : list snapshot) (legacy : bool) : option (index_t * bool) :=
  match later with
  | [] => Some (ix, legacy)
  | next :: later =>
      let '(_, next_id, _) := _index_get_id_crc next in
      let '(res, code, lg) := index_replay_wal ix next_id in
      ix ← res;
      if code =? -3 then rebuild_from ix later (legacy || lg) else Some (ix, legacy || lg)
  end.

Definition prune (io : store_io) (st : index_store) : index_store :=
  let '(st, first_kept_id) := _index_prune_old_snapshots io st in _index_prune_old_wals io st first_kept_id.

(** The newest file is valid: its live log is replayed. *)
Definition create_newest (io : store_io) (st : index_store) (last_id : Z) : option index_store :=
  let '(res, _, legacy) := index_replay_wal (set_rebuilding (st_index st) true) (u64 (last_id + 1)) in
  ix ← res;
  let st := prune io (set_index st (set_rebuilding ix false)) in
  Some (if legacy then index_debounce io st else st).

(** An older file is valid: the logs of the later ones are replayed. *)
Definition create_rebuilt (io : store_io) (st : index_store) (last_id : Z) (later : list snapshot)
  : option index_store :=
  match rebuild_from (set_rebuilding (st_index st) true) later false with
  | None => None
  | Some (ix, legacy) =>
      let st := set_index st (set_rebuilding ix false) in
      let current_id := u64 (Z.of_nat (S (length later)) + last_id) in
      let st := set_files st current_id (Some (u64 (current_id - 1))) (u64 (current_id + 1)) in
      let st := prune io st in
      Some (if legacy
            then index_debounce io (set_index st (set_wal (st_index st) (wal_create_next current_id None)))
            else st)
  end.

(** The loop over the files, newest first; [later] are those passed over. *)
Fixpoint create_loop (io : store_io) (fuel bucket_size max_snapshots max_wals : nat) (snaps : list snapshot)
    (dir : wal_dir) (wio : wal_io) (files later : list snapshot) (error_code : Z) : option (index_store * Z) :=
  match files with
  | [] => Some (_index_new_empty bucket_size 0 max_snapshots max_wals snaps dir wio, error_code)
  | file :: files =>
      let continue := create_loop io fuel bucket_size max_snapshots max_wals snaps dir wio files (file :: later) in
      let '(name, last_id, last_crc) := _index_get_id_crc file in
      if name =? 1 then continue error_code
      else match sio_read_error io file with
      | Some error_code => continue error_code
      | None =>
          match cbor_load (sn_data file) with
          | None => continue (-4)
          | Some cbor =>
              if negb (cbor_isa_array cbor) then continue (-5)
              else
                loaded ← cbor_to_index fuel cbor max_snapshots max_wals snaps dir wio;
                match loaded with
                | None => continue error_code
                | Some st =>
                    if negb (_index_to_crc (st_index st) =? last_crc) &&
                       negb (_index_to_crc_ex (st_index st) true =? last_crc) then continue error_code
                    else
                      st ← (match later with
                            | [] => create_newest io st last_id
                            | _ => create_rebuilt io st last_id later
                            end);
                      Some (st, error_code)
                end
          end
      end
  end.

Definition index_create (io : store_io) (fuel bucket_size max_snapshots max_wals : nat) (snaps : list snapshot)
    (dir : wal_dir) (wio : wal_io) : option (index_store * Z) :=
  create_loop io fuel bucket_size max_snapshots max_wals snaps dir wio (reverse (sorted_files snaps)) [] 0.

(** ** Order of ejection *)

Definition _compare_ejection_date (a b : index_entry_t) : Z :=
  let date_left := ie_ejection_date a in
  let date_right := ie_ejection_date b in
  if (date_left =? 0) && (date_right =? 0) then 0
  else if date_left =? 0 then 1
  else if date_right =? 0 then -1
  else if date_left <? date_right then -1
  else if date_right <? date_left then 1
  else 0.

Definition ejected_before (a b : index_entry_t) : Prop := _compare_ejection_date a b <= 0.
#[export] Instance ejected_before_dec a b : Decision (ejected_before a b) := Z_le_dec _ _.

Definition index_entries_by_ejection_date (ix : index_t) : list index_entry_t :=
  merge_sort ejected_before (index_to_array ix).

(** ** The snapshot codec *)

Context {CL : CborLaws} {CSL : CborSerialLaws}.

Lemma bucket_cbor_roundtrip bucket :
  Forall entry_wf bucket ->
  exists items, mapM index_entry_to_cbor bucket = Some items /\ length items = length bucket /\
    Forall cbor_serializable items /\ mapM cbor_to_index_entry items = Some bucket.
Proof using CL CSL.
  induction bucket as [|e bucket IH]; intros Hall; [by exists []|].
  apply Forall_cons in Hall as [He Hall]. destruct (IH Hall) as (items & Hm & Hl & Hs & Hd).
  destruct (entry_to_cbor_some e) as [i Hi]. destruct (entry_item_ok _ _ He Hi) as [Hsi _].
  exists (i :: items). cbn [mapM length]. rewrite Hi, Hm, (entry_roundtrip _ _ He Hi), Hd. cbn.
  split_and!; [done|congruence|by constructor|done].
Qed.

Lemma node_cbor_roundtrip bs node : forall d p,
  node_wf bs d p node -> (d <= 255)%nat -> is_u64 (Z.of_nat bs) ->
  exists i, index_node_to_cbor node = Some i /\ cbor_serializable i /\
    forall fuel, (256 - d <= fuel)%nat -> cbor_to_index_node fuel i = Some (Some node).
Proof using CL CSL.
  induction node as [|b|l IHl r IHr]; intros d p Hwf Hd Hbs; [done|..]; cbn [node_wf] in Hwf.
  - destruct Hwf as (Hlen & _ & Hall).
    destruct (bucket_cbor_roundtrip b) as (items & Hm & Hl & Hs & Hback).
    { eapply Forall_impl; [done|]. by intros e [He _]. }
    exists (cbor_array [cbor_array items]). cbn [index_node_to_cbor]. rewrite Hm. cbn [mbind option_bind].
    unfold cbor_definite_array. rewrite Hl, Nat.leb_refl. split_and!; [done| |].
    + unfold is_u64 in Hbs. apply serializable_array; [|cbn; lia]. constructor; [|constructor].
      apply serializable_array; [done|lia].
    + intros [|fuel] Hf; [lia|]. cbn [cbor_to_index_node]. cbor_simp. cbn [length Nat.eqb lookup list_lookup].
      cbor_simp. by rewrite Hback.
  - destruct Hwf as (Hlt & Hwl & Hwr).
    destruct (IHl _ _ Hwl) as (il & Hil & Hsl & Hbl); [lia|done|].
    destruct (IHr _ _ Hwr) as (ir & Hir & Hsr & Hbr); [lia|done|].
    exists (cbor_array [il; ir]). cbn [index_node_to_cbor]. rewrite Hil, Hir. split_and!; [done| |].
    + apply serializable_array; [by repeat constructor|cbn; lia].
    + intros [|fuel] Hf; [lia|]. cbn [cbor_to_index_node]. cbor_simp. cbn [length Nat.eqb lookup list_lookup].
      rewrite Hbl, Hbr by lia. done.
Qed.

(** A snapshot of a well-formed index is loaded as it was. *)
Lemma index_snapshot_roundtrip ix fuel ms mw snaps dir wio :
  index_wf ix -> is_u64 (Z.of_nat (ix_bucket_size ix)) -> (256 <= fuel)%nat ->
  exists cbor, _index_to_cbor ix = Some cbor /\ cbor_load (cbor_serialize cbor) = Some cbor /\
    cbor_isa_array cbor = true /\
    cbor_to_index fuel cbor ms mw snaps dir wio =
      Some (Some (index_create_from (ix_bucket_size ix) (ix_root ix) ms mw snaps dir wio)).
Proof using CL CSL.
  intros [_ Hwf] Hbs Hfuel. destruct (node_cbor_roundtrip _ _ _ _ Hwf) as (i & Hi & Hs & Hback); [lia|done|].
  exists (cbor_array [i; cbor_build_uint64 (Z.of_nat (ix_bucket_size ix))]). unfold _index_to_cbor. rewrite Hi.
  split_and!; [done| | |].
  - apply load_serialize, serializable_array; [|cbn; lia]. constructor; [done|]. constructor; [|constructor].
    apply serializable_uint. exact Hbs.
  - cbor_simp. done.
  - unfold cbor_to_index. cbor_simp. cbn [lookup list_lookup]. rewrite Hback by lia. cbn [mbind option_bind].
    cbor_simp. by rewrite Nat2Z.id.
Qed.

(** ** Pruning keeps the newest snapshot and the logs behind it *)

(** The stores agree up to files that were pruned. *)
Record pruned (st st' : index_store) (file : snapshot) : Prop := {
  pr_index : exists dir, st_index st' = set_wal_dir (st_index st) dir /\
    (forall id, sn_id file <= id -> dir !! id = ix_wal_dir (st_index st) !! id);
  pr_snapshots : newest (st_snapshots st') file /\ forall s, s ∈ st_snapshots st' -> s ∈ st_snapshots st;
  pr_current : st_current_file st' = st_current_file st;
  pr_next : st_next_id st' = st_next_id st;
}.

Lemma prune_snapshots_spec io st file :
  newest (st_snapshots st) file -> 0 <= sn_id file ->
  exists snaps first, _index_prune_old_snapshots io st = (set_snapshots st snaps, first) /\
    first <= sn_id file /\ newest snaps file /\ (forall s, s ∈ snaps -> s ∈ st_snapshots st).
Proof using Type.
  intros Hnew H0. unfold _index_prune_old_snapshots.
  assert (set_snapshots st (st_snapshots st) = st) as Hid by (by destruct st).
  destruct (Nat.eqb_spec (st_max_snapshots st) 0) as [|Hms]; [exists (st_snapshots st), 0; by rewrite Hid|].
  destruct (Nat.eqb_spec (length (st_snapshots st)) 0) as [|Hlen]; [exists (st_snapshots st), 0; by rewrite Hid|].
  set (files := sorted_files (st_snapshots st)). set (dc := (length files - st_max_snapshots st)%nat).
  assert (length files = length (st_snapshots st)) as Hl
    by (subst files; unfold sorted_files; by rewrite merge_sort_Permutation).
  assert (last (drop dc files) = Some file) as Hlast.
  { rewrite last_drop_lt by (subst dc; lia). by apply newest_last. }
  assert (forall x, x ∈ filter (fun s => sio_unlink_snapshot io s = false) (take dc files) ++ drop dc files ->
                    x ∈ st_snapshots st) as Hsub.
  { intros x Hx. apply elem_of_sorted_files. fold files. rewrite <- (take_drop dc files), elem_of_app.
    apply elem_of_app in Hx as [Hx|Hx]; [left|by right]. by apply list_elem_of_filter in Hx as [_ Hx]. }
  eexists _, _. split; [reflexivity|]. split_and!.
  - destruct (files !! dc) as [f|] eqn:Hf; [|lia]. unfold _index_get_id_crc.
    assert (sn_id f <= sn_id file) as Hle.
    { destruct Hnew as [_ Hmax]. assert (f ∈ st_snapshots st) as Hin
        by (apply elem_of_sorted_files; by eapply list_elem_of_lookup_2).
      destruct (decide (sn_id f <= sn_id file)); [done|]. assert (f <> file) as Hne by (intros ->; lia).
      specialize (Hmax f Hin Hne). lia. }
    by destruct (sn_crc f).
  - eapply newest_subset; [done|apply elem_of_app; right; by apply last_Some_elem_of|].
    done.
  - done.
Qed.

Lemma prune_spec io st file :
  newest (st_snapshots st) file -> 0 <= sn_id file -> pruned st (prune io st) file.
Proof using Type.
  intros Hnew H0. unfold prune.
  destruct (prune_snapshots_spec io st file Hnew H0) as (snaps & first & -> & Hfirst & Hnew' & Hsub).
  unfold _index_prune_old_wals. destruct (_ =? 0)%nat.
  - split; try done. exists (ix_wal_dir (st_index st)). split; [by destruct st as [[]]|done].
  - split; try done. eexists. split; [reflexivity|]. intros id Hid. cbn.
    apply option_eq. intros v. rewrite map_lookup_filter_Some. cbn. split; [by intros [? _]|].
    intros Hv. split; [done|]. intros [? _]. lia.
Qed.

(** ** Invariant of a running index and of its files *)

(** The snapshot being accumulated, the log and the next ids are in lockstep. *)
Record store_ok (st : index_store) : Prop := {
  so_wf : index_wf (st_index st);
  so_bucket_size : is_u64 (Z.of_nat (ix_bucket_size (st_index st)));
  so_live : ix_is_rebuilding (st_index st) = false;
  so_io : ix_wal_io (st_index st) = wal_io_ok;
  so_wal : wal_current_file (ix_wal (st_index st)) = st_current_file st;
  so_wal_next : wal_next_id (ix_wal (st_index st)) = st_current_file st + 1;
  so_next : st_next_id st = st_current_file st + 1;
  so_positive : 1 <= st_current_file st;
  so_older : forall s, s ∈ st_snapshots st -> sn_id s < st_current_file st;
  so_logs : forall id, st_current_file st < id -> ix_wal_dir (st_index st) !! id = None
}.

(** The newest snapshot and the live log together hold the contents. *)
Definition backed (st : index_store) : Prop :=
  exists base cbor evs,
    index_wf base /\ ix_bucket_size base = ix_bucket_size (st_index st) /\ _index_to_cbor base = Some cbor /\
    newest (st_snapshots st)
      (mk_snapshot (st_current_file st - 1) (Some (_index_to_crc base)) (cbor_serialize cbor)) /\
    Forall event_wf evs /\ log_file (st_index st) = wal_bytes (map record_of evs) /\
    forall m, (forall h, m h = index_find base h) -> forall h, replay_events evs m h = index_find (st_index st) h.

(** Reads, writes and syncs succeed; files may fail to be unlinked. *)
Definition io_good (io : store_io) : Prop :=
  (forall s, sio_read_error io s = None) /\ sio_written io = None /\ sio_sync io = true.

Lemma write_snapshot_fresh snaps file :
  (forall s, s ∈ snaps -> sn_id s < sn_id file) ->
  write_snapshot snaps file = snaps ++ [file] /\ newest (snaps ++ [file]) file.
Proof using Type.
  intros Hlt. split.
  - unfold write_snapshot. destruct (find (same_name file) snaps) as [s|] eqn:Hf; [|done].
    apply find_some in Hf as [Hin Hs]. apply list_elem_of_In in Hin. specialize (Hlt s Hin).
    unfold same_name in Hs. apply bool_decide_eq_true in Hs as [? _]. lia.
  - split; [apply elem_of_app; right; by apply list_elem_of_singleton|]. intros s [Hs|Hs]%elem_of_app Hne; [auto|]. by apply list_elem_of_singleton in Hs.
Qed.

Lemma debounce_spec io st :
  io_good io -> store_ok st -> st_current_file st + 2 < 2 ^ 64 ->
  store_ok (index_debounce io st) /\ backed (index_debounce io st) /\
  st_current_file (index_debounce io st) = st_current_file st + 1 /\
  forall h, index_find (st_index (index_debounce io st)) h = index_find (st_index st) h.
Proof using CL CSL.
  intros (_ & Hw & Hsy) [Hwf Hbs Hlive Hio Hwal Hwn Hnext Hpos Hold Hlogs] Hmax.
  destruct (index_snapshot_roundtrip (st_index st) 256 0 0 [] ∅ wal_io_ok Hwf Hbs) as (cbor & Hc & _); [lia|].
  unfold index_debounce. rewrite Hc, Hw, Hsy, Nat.eqb_refl. cbn [negb orb].
  rewrite andb_false_r. cbn [set_index st_snapshots set_files st_fsync_data st_next_id st_index].
  set (file := mk_snapshot (st_current_file st) (Some (_index_to_crc (st_index st))) (cbor_serialize cbor)).
  destruct (write_snapshot_fresh (st_snapshots st) file Hold) as [-> Hnew].
  match goal with |- context [_index_prune_old_snapshots io ?s] => set (st1 := s) end.
  fold (prune io st1). destruct (prune_spec io st1 file Hnew) as [(dir & Hix & Hdir) [Hnew' Hsub] Hcur Hnx]; [cbn; lia|].
  assert (st_current_file (prune io st1) = st_current_file st + 1) as Hcur1 by (by rewrite Hcur, <- Hnext).
  split_and!; [| |done|].
  - split; rewrite ?Hcur1, ?Hix; cbn; auto; try lia.
    + rewrite Hwn. unfold u64. apply Z.mod_small. lia.
    + rewrite Hnx. cbn. unfold u64. rewrite Z.mod_small; lia.
    + intros s Hs. apply Hsub in Hs. cbn in Hs. apply elem_of_app in Hs as [Hs|Hs].
      * apply Hold in Hs. lia.
      * apply list_elem_of_singleton in Hs as ->. cbn. lia.
    + intros id Hid. rewrite Hdir by (cbn; lia). apply Hlogs. lia.
  - exists (st_index st), cbor, []. rewrite Hcur1, Hix. split_and!; auto; cbn.
    + replace (st_current_file st + 1 - 1) with (st_current_file st) by lia. exact Hnew'.
    + unfold log_file. cbn. rewrite Hwn, Hdir by (cbn; lia). cbn. by rewrite Hlogs by lia.
  - intros h. by rewrite Hix.
Qed.

Lemma op_store_spec st op :
  store_ok st -> op_wf op ->
  exists ix, index_apply (st_index st) op = Some ix /\ store_ok (set_index st ix) /\
    (backed st -> backed (set_index st ix)) /\
    forall h, index_find ix h = op_spec (index_find (st_index st)) op h.
Proof using Type.
  intros [Hwf Hbs Hlive Hio Hwal Hwn Hnext Hpos Hold Hlogs] Hop.
  destruct (index_op_refines _ _ Hwf Hlive Hop) as (ix & evs & Hrun & Hwf' & Hfind & Hext & Hevs & Hreplay).
  destruct Hext as [_ Hb Hr Hi Hf Hl Ho Hn]. cbn [set_root ix_bucket_size ix_is_rebuilding ix_wal_io ix_wal ix_wal_dir] in *.
  exists ix. split_and!; [done| | |done].
  - split; cbn; try congruence; auto. intros id Hid. rewrite Ho by lia. by apply Hlogs.
  - intros (base & cbor & evs0 & Hbwf & Hbb & Hbc & Hnew & Hev0 & Hlog & Hrep0).
    exists base, cbor, (evs0 ++ evs). cbn. split_and!; auto; [congruence|by apply Forall_app| |].
    + rewrite (Hl Hio), map_app, wal_bytes_app. f_equal. exact Hlog.
    + intros m Hm h. rewrite replay_events_app, Hfind. apply Hreplay. auto.
Qed.

(** Start-up from the newest file. *)
Lemma create_loads_newest io fuel bs ms mw snaps dir wio file base cbor crc :
  io_good io -> (256 <= fuel)%nat -> index_wf base -> is_u64 (Z.of_nat (ix_bucket_size base)) ->
  _index_to_cbor base = Some cbor -> file = mk_snapshot crc (Some (_index_to_crc base)) (cbor_serialize cbor) ->
  newest snaps file ->
  index_create io fuel bs ms mw snaps dir wio =
    (st ← create_newest io (index_create_from (ix_bucket_size base) (ix_root base) ms mw snaps dir wio) crc;
     Some (st, 0)).
Proof using CL CSL.
  intros (Hrd & _) Hfuel Hwf Hbs Hc -> Hnew.
  destruct (index_snapshot_roundtrip base fuel ms mw snaps dir wio Hwf Hbs Hfuel) as (cbor' & Hc' & Hload & Harr & Hto).
  rewrite Hc in Hc'. injection Hc' as <-. unfold index_create.
  pose proof (newest_last _ _ Hnew) as Hlast. apply last_Some in Hlast as [front ->].
  rewrite reverse_app. cbn [reverse app]. change (reverse [_] ++ reverse front) with
    (mk_snapshot crc (Some (_index_to_crc base)) (cbor_serialize cbor) :: reverse front).
  cbn [create_loop _index_get_id_crc sn_crc sn_id sn_data]. rewrite Hrd, Hload, Harr, Hto. cbn [negb mbind option_bind].
  assert (_index_to_crc (st_index (index_create_from (ix_bucket_size base) (ix_root base) ms mw snaps dir wio)) =
          _index_to_crc base) as ->.
  { unfold index_create_from. by destruct (last (sorted_files snaps)). }
  by rewrite Z.eqb_refl.
Qed.

(** The index that start-up builds from the newest file. *)
Lemma create_from_newest bs root ms mw snaps dir wio file :
  newest snaps file -> 0 <= sn_id file -> sn_id file + 2 < 2 ^ 64 ->
  index_create_from bs root ms mw snaps dir wio =
    mk_store (mk_index root bs (rank_all (index_node_to_array root [])) (wal_create (sn_id file + 1)) dir wio 0 false)
      (sn_id file + 1) (Some (sn_id file)) (sn_id file + 2) ms mw false snaps.
Proof using Type.
  intros Hnew H0 Hmax. unfold index_create_from. rewrite (newest_last _ _ Hnew). unfold u64.
  rewrite !Z.mod_small by lia. done.
Qed.

(** Replaying the live log into what the newest file holds, and pruning. *)
Lemma create_newest_spec io st0 ms mw file base evs :
  newest (st_snapshots st0) file -> 1 <= sn_id file + 1 -> sn_id file + 3 < 2 ^ 64 ->
  index_wf base -> is_u64 (Z.of_nat (ix_bucket_size base)) -> Forall event_wf evs ->
  default [] (ix_wal_dir (st_index st0) !! (sn_id file + 1)) = wal_bytes (map record_of evs) ->
  Z.of_nat (length (wal_bytes (map record_of evs))) < 2 ^ 31 ->
  (forall id, sn_id file + 1 < id -> ix_wal_dir (st_index st0) !! id = None) ->
  let st := mk_store (mk_index (ix_root base) (ix_bucket_size base) (rank_all (index_node_to_array (ix_root base) []))
                        (wal_create (sn_id file + 1)) (ix_wal_dir (st_index st0)) wal_io_ok 0 false)
              (sn_id file + 1) (Some (sn_id file)) (sn_id file + 2) ms mw false (st_snapshots st0) in
  exists st', create_newest io st (sn_id file) = Some st' /\ store_ok st' /\
    st_current_file st' = sn_id file + 1 /\ newest (st_snapshots st') file /\
    ix_bucket_size (st_index st') = ix_bucket_size base /\
    log_file (st_index st') = wal_bytes (map record_of evs) /\
    forall h, index_find (st_index st') h = replay_events evs (index_find base) h.
Proof using CL CSL.
  intros Hnew H0 Hmax Hbwf Hbs Hevs Hlog Hsize Hlogs st. unfold create_newest. cbn [st_index].
  set (ix1 := set_rebuilding _ true).
  assert (u64 (sn_id file + 1) = sn_id file + 1) as -> by (unfold u64; rewrite Z.mod_small; lia).
  assert (index_wf ix1) as Hwf1 by exact Hbwf.
  destruct (replay_log ix1 (sn_id file + 1) evs Hwf1 eq_refl Hevs Hlog Hsize)
    as (ix' & code & -> & Hwf' & Hfind & [_ Hb _ Hi Hf Hl Ho Hn] & _).
  cbn [mbind option_bind]. cbn in Hb, Hi, Hf, Ho, Hn. specialize (Hl eq_refl). rewrite app_nil_r in Hl.
  eexists. split; [reflexivity|]. match goal with |- context [prune io ?s] => set (st1 := s) end.
  destruct (prune_spec io st1 _ Hnew) as [(dir & Hix & Hdir) [Hnew' Hsub] Hcur Hnx]; [lia|].
  cbn in Hdir, Hcur, Hnx, Hsub. rewrite Hcur, Hix.
  assert (forall s, s ∈ st_snapshots (prune io st1) -> sn_id s < sn_id file + 1) as Hold.
  { intros s Hs. destruct (decide (s = file)) as [->|Hne]; [lia|]. destruct Hnew' as [_ Hm]. specialize (Hm s Hs Hne). lia. }
  assert (log_file (set_wal_dir (set_rebuilding ix' false) dir) = wal_bytes (map record_of evs)) as Hlog'.
  { unfold log_file in *. cbn in Hl |- *. rewrite Hf in *. rewrite Hdir by lia. by rewrite Hl. }
  split_and!; auto.
  split; rewrite ?Hcur, ?Hix; cbn; auto.
  - by rewrite Hb.
  - rewrite Hn. unfold u64. rewrite Z.mod_small; lia.
  - rewrite Hnx. lia.
  - intros id Hid. rewrite Hdir by lia. rewrite Ho by lia. by apply Hlogs.
Qed.

Lemma restart_spec io fuel bs ms mw st :
  io_good io -> (256 <= fuel)%nat -> store_ok st -> backed st -> st_current_file st + 2 < 2 ^ 64 ->
  Z.of_nat (length (log_file (st_index st))) < 2 ^ 31 ->
  exists st', index_create io fuel bs ms mw (st_snapshots st) (ix_wal_dir (st_index st)) wal_io_ok = Some (st', 0) /\
    store_ok st' /\ backed st' /\ st_current_file st' = st_current_file st /\
    forall h, index_find (st_index st') h = index_find (st_index st) h.
Proof using CL CSL.
  intros Hio Hfuel [Hwf Hbs Hlive Hwio Hwal Hwn Hnext Hpos Hold Hlogs]
    (base & cbor & evs & Hbwf & Hbb & Hbc & Hnew & Hevs & Hlog & Hrep) Hmax Hsize.
  rewrite <- Hbb in Hbs. rewrite (create_loads_newest _ _ _ _ _ _ _ _ _ base cbor _ Hio Hfuel Hbwf Hbs Hbc eq_refl Hnew).
  rewrite (create_from_newest _ _ _ _ _ _ _ _ Hnew) by (cbn; lia).
  set (file := mk_snapshot (st_current_file st - 1) _ _) in *.
  assert (sn_id file + 1 = st_current_file st) as Hid by (cbn; lia).
  destruct (create_newest_spec io st ms mw file base evs) as (st' & Hrun & Hok & Hcur & Hnew' & Hb & Hl & Hfind);
    [exact Hnew|lia|lia|exact Hbwf|done|exact Hevs| | |by rewrite Hid|].
  { rewrite Hid, <- Hwal. exact Hlog. }
  { by rewrite <- Hlog. }
  change (st_current_file st - 1) with (sn_id file). rewrite Hrun.
  exists st'. split_and!; [done|done| |lia|].
  - exists base, cbor, evs. split_and!; auto.
    + replace (st_current_file st' - 1) with (st_current_file st - 1) by lia. done.
    + intros m Hm h. rewrite Hfind. by apply replay_events_ext.
  - intros h. rewrite Hfind. by apply Hrep.
Qed.

(** ** Histories of operations, snapshots and restarts *)

Inductive action :=
| act_op (op : index_op)
| act_snapshot (io : store_io)
| act_restart (io : store_io).     (* a crash and [index_create] *)

Definition store_apply (fuel : nat) (st : index_store) (act : action) : option index_store :=
  match act with
  | act_op op => ix ← index_apply (st_index st) op; Some (set_index st ix)
  | act_snapshot io => Some (index_debounce io st)
  | act_restart io =>
      fst <$> index_create io fuel (ix_bucket_size (st_index st)) (st_max_snapshots st) (st_max_wals st)
                (st_snapshots st) (ix_wal_dir (st_index st)) wal_io_ok
  end.

Fixpoint store_run (fuel : nat) (st : index_store) (acts : list action) : option index_store :=
  match acts with
  | [] => Some st
  | act :: acts => st ← store_apply fuel st act; store_run fuel st acts
  end.

Definition action_wf (act : action) : Prop :=
  match act with act_op op => op_wf op | act_snapshot io | act_restart io => io_good io end.

(** What remains of a history when snapshots and restarts are left out. *)
Definition ops_of (acts : list action) : list index_op :=
  flat_map (fun act => match act with act_op op => [op] | _ => [] end) acts.

Lemma store_apply_spec fuel st act :
  (256 <= fuel)%nat -> store_ok st -> backed st -> action_wf act -> st_current_file st + 2 < 2 ^ 64 ->
  Z.of_nat (length (log_file (st_index st))) < 2 ^ 31 ->
  exists st', store_apply fuel st act = Some st' /\ store_ok st' /\ backed st' /\
    st_current_file st' <= st_current_file st + 1 /\
    forall h, index_find (st_index st') h = ops_spec (ops_of [act]) (index_find (st_index st)) h.
Proof using CL CSL.
  intros Hfuel Hok Hback Hact Hmax Hsize. destruct act as [op|io|io]; cbn [store_apply action_wf] in *.
  - destruct (op_store_spec st op Hok Hact) as (ix & -> & Hok' & Hback' & Hfind).
    exists (set_index st ix). split_and!; auto. cbn. lia.
  - destruct (debounce_spec io st Hact Hok Hmax) as (? & ? & ? & ?). eexists. split_and!; eauto. lia.
  - destruct (restart_spec io fuel (ix_bucket_size (st_index st)) (st_max_snapshots st) (st_max_wals st) st)
      as (st' & -> & ? & ? & ? & ?); auto. exists st'. split_and!; auto. lia.
Qed.

Lemma store_run_spec fuel acts : forall st,
  (256 <= fuel)%nat -> store_ok st -> backed st -> Forall action_wf acts ->
  st_current_file st + Z.of_nat (length acts) + 2 < 2 ^ 64 ->
  (forall acts1 st1, acts1 `prefix_of` acts -> store_run fuel st acts1 = Some st1 ->
     Z.of_nat (length (log_file (st_index st1))) < 2 ^ 31) ->
  exists st', store_run fuel st acts = Some st' /\ store_ok st' /\ backed st' /\
    forall h, index_find (st_index st') h = ops_spec (ops_of acts) (index_find (st_index st)) h.
Proof using CL CSL.
  induction acts as [|act acts IH]; intros st Hfuel Hok Hback Hacts Hmax Hsize; [by exists st|].
  apply Forall_cons in Hacts as [Hact Hacts]. cbn [length] in Hmax.
  destruct (store_apply_spec fuel st act) as (st1 & Hrun & Hok1 & Hback1 & Hcur1 & Hfind1); auto; [lia| |].
  { apply (Hsize [] st); [apply prefix_nil|done]. }
  destruct (IH st1) as (st2 & Hrun2 & Hok2 & Hback2 & Hfind2); auto; [lia| |].
  { intros acts1 st' Hpre Hr. apply (Hsize (act :: acts1) st'); [by apply prefix_cons|].
    cbn [store_run]. by rewrite Hrun. }
  exists st2. cbn [store_run]. rewrite Hrun. split_and!; auto. intros h. rewrite Hfind2.
  replace (ops_of (act :: acts)) with (ops_of [act] ++ ops_of acts) by (by destruct act). unfold ops_spec at 2. rewrite fold_left_app.
  by apply (ops_spec_ext (ops_of acts)).
Qed.

(** The first snapshot of a new index. *)
Lemma new_empty_ok bucket_size ms mw :
  (2 <= bucket_size)%nat -> is_u64 (Z.of_nat bucket_size) ->
  store_ok (_index_new_empty bucket_size 0 ms mw [] ∅ wal_io_ok).
Proof using Type.
  intros Hb Hu. split; cbn; auto; try lia.
  - split; cbn; [done|]. split_and!; [lia|apply NoDup_nil_2|constructor].
  - by vm_compute.
  - intros s Hs. by apply not_elem_of_nil in Hs.
Qed.
End Store.

(** ** Properties *)


Definition toy_xxh64 : Xxh64 := {|
  XXH64 data := u64 (Z.of_nat (length data) + le_value data);
  xxh64_u64 data := u64_range _
|}.

(** A new index after its first snapshot. *)
Definition demo_store : index_store :=
  index_debounce (C := item_cbor) (CS := item_serial) (X64 := toy_xxh64) store_io_ok
    (_index_new_empty 2 0 1 1 [] ∅ wal_io_ok).

Lemma store_io_ok_good : io_good store_io_ok.
Proof. by split_and!. Qed.

Lemma demo_store_ok : store_ok demo_store /\ backed (CS := item_serial) (X := toy_xxh32) (X64 := toy_xxh64) demo_store.
Proof.
  destruct (debounce_spec (C := item_cbor) (CS := item_serial) (X := toy_xxh32) (X64 := toy_xxh64) store_io_ok
    (_index_new_empty 2 0 1 1 [] ∅ wal_io_ok) store_io_ok_good) as (H1 & H2 & _); [|vm_compute; reflexivity|done].
  apply new_empty_ok; [lia|]. unfold is_u64. lia.
Qed.

Definition demo_history : list action :=
  map act_op (take 4 demo_ops) ++ [act_restart store_io_ok] ++ map act_op (drop 4 demo_ops) ++
  [act_snapshot store_io_ok; act_restart store_io_ok].

Definition demo_store_run := store_run (C := item_cbor) (CS := item_serial) (X := toy_xxh32) (X64 := toy_xxh64) 256.

Lemma demo_history_small acts1 st1 :
  acts1 `prefix_of` demo_history -> demo_store_run demo_store acts1 = Some st1 ->
  Z.of_nat (length (log_file (st_index st1))) < 2 ^ 31.
Proof.
  intros [rest Hpre] Hrun. assert (acts1 = take (length acts1) demo_history) as Hacts
    by (by rewrite Hpre, take_app_length).
  assert (length acts1 <= 10)%nat as Hlen.
  { assert (length demo_history = 10)%nat as Hl by (vm_compute; reflexivity).
    rewrite Hpre, length_app in Hl. lia. }
  assert (match demo_store_run demo_store (take (length acts1) demo_history) with
          | Some st => Z.of_nat (length (log_file (st_index st))) <? 2 ^ 31 | None => true end = true) as Hb.
  { clear - Hlen. revert Hlen. generalize (length acts1). intros n Hn.
    do 11 (destruct n as [|n]; [vm_compute; reflexivity|]). lia. }
  rewrite <- Hacts, Hrun in Hb. by apply Z.ltb_lt.
Qed.


Lemma rank_all_spec entries k :
  default [] (rank_all entries !! k) = map ie_hash (filter (fun e => hc_fib (ie_counter e) = k) entries).
Proof.
  unfold rank_all.
  assert (forall acc : gmap Z (list (list Z)),
    default [] (fold_left (fun ranks e => rank_push ranks (hc_fib (ie_counter e)) (ie_hash e)) entries acc !! k) =
    default [] (acc !! k) ++ map ie_hash (filter (fun e => hc_fib (ie_counter e) = k) entries)) as Hgen;
    [|rewrite Hgen; by rewrite lookup_empty].
  induction entries as [|e entries IH]; intros acc; cbn [fold_left]; [by rewrite app_nil_r|].
  rewrite IH. unfold rank_push. rewrite filter_cons. case_decide as Hk.
  - subst k. rewrite lookup_insert_eq. cbn [from_option Datatypes.id map]. by rewrite <- app_assoc.
  - by rewrite lookup_insert_ne.
Qed.

(** C39: a snapshot is loaded as it was: the bytes of a well-formed index
    decode to an index with the same trie, bucket size and checksum, in which
    the list of each rank holds the hashes of the entries of that rank. *)
Theorem index_cbor_roundtrip {C : Cbor} {CS : CborSerial} {X64 : Xxh64} {CL : CborLaws} {CSL : CborSerialLaws}
    (ix : index_t) (fuel max_snapshots max_wals : nat) (snaps : list snapshot) (dir : wal_dir) (wio : wal_io) :
  index_wf ix -> is_u64 (Z.of_nat (ix_bucket_size ix)) -> (256 <= fuel)%nat ->
  exists cbor st, _index_to_cbor ix = Some cbor /\
    (cbor_load (cbor_serialize cbor) ≫= fun i => cbor_to_index fuel i max_snapshots max_wals snaps dir wio) =
      Some (Some st) /\
    ix_root (st_index st) = ix_root ix /\ ix_bucket_size (st_index st) = ix_bucket_size ix /\
    _index_to_crc (st_index st) = _index_to_crc ix /\
    forall k, default [] (ix_ranks (st_index st) !! k) =
              map ie_hash (filter (fun e => hc_fib (ie_counter e) = k) (index_to_array ix)).
Proof.
  intros Hwf Hbs Hfuel.
  destruct (index_snapshot_roundtrip ix fuel max_snapshots max_wals snaps dir wio Hwf Hbs Hfuel)
    as (cbor & Hc & Hload & _ & Hto).
  exists cbor, (index_create_from (ix_bucket_size ix) (ix_root ix) max_snapshots max_wals snaps dir wio).
  rewrite Hload. unfold index_create_from, _index_to_crc, _index_to_crc_ex.
  destruct (last (sorted_files snaps)) eqn:Hl; cbn [st_index ix_root ix_bucket_size ix_ranks];
    (split_and!; [done| |done|done|done|intros k; apply rank_all_spec]);
    change (Some cbor ≫= _) with (cbor_to_index fuel cbor max_snapshots max_wals snaps dir wio);
    rewrite Hto; unfold index_create_from; by rewrite Hl.
Qed.

Lemma index_cbor_roundtrip_witness :
  exists cbor st, _index_to_cbor (C := item_cbor) demo_tree = Some cbor /\
    (cbor_load (CborSerial := item_serial) (cbor_serialize cbor) ≫= fun i => cbor_to_index 256 i 1 1 [] ∅ wal_io_ok) =
      Some (Some st) /\
    ix_root (st_index st) = ix_root demo_tree /\ ix_bucket_size (st_index st) = ix_bucket_size demo_tree /\
    _index_to_crc (X64 := toy_xxh64) (st_index st) = _index_to_crc (X64 := toy_xxh64) demo_tree /\
    forall k, default [] (ix_ranks (st_index st) !! k) =
              map ie_hash (filter (fun e => hc_fib (ie_counter e) = k) (index_to_array demo_tree)).
Proof.
  apply (index_cbor_roundtrip (C := item_cbor) (CS := item_serial) (X64 := toy_xxh64) demo_tree 256 1 1 [] ∅ wal_io_ok).
  - exact demo_tree_wf.
  - vm_compute. split; [discriminate|reflexivity].
  - lia.
Defined.

(** Without a snapshot, start-up does not look at the log: whatever the
    log directory holds, [index_create] returns an empty index.  What was
    logged before the first snapshot does not survive a restart. *)
Theorem index_first_session_lost {C : Cbor} {CS : CborSerial} {X : Xxh32} {X64 : Xxh64}
    (io : store_io) (fuel bucket_size max_snapshots max_wals : nat) (dir : wal_dir) (wio : wal_io) :
  exists st, index_create io fuel bucket_size max_snapshots max_wals [] dir wio = Some (st, 0) /\
    (forall h, index_find (st_index st) h = None) /\ ix_wal_dir (st_index st) = dir /\
    wal_current_file (ix_wal (st_index st)) = 1.
Proof. eexists. split_and!; reflexivity. Qed.

(** A snapshot that fails, two that succeed, an addition and a restart. *)
Definition failed_write : store_io := mk_store_io (fun _ => None) (Some 3%nat) true (fun _ => true) (fun _ => true).
Definition desync_history : list action :=
  [act_snapshot failed_write; act_snapshot store_io_ok; act_snapshot store_io_ok;
   act_op (op_add (index_entry_create (demo_hash 1))); act_restart store_io_ok].

(** A failed snapshot write leaves [next_id] advanced, so the ids of the
    snapshots and of the logs part: after two more snapshots a restart replays
    a log that does not exist, and an entry that was added and logged is gone. *)
Theorem failed_snapshot_loses_entry :
  let m := ops_spec (ops_of desync_history) (index_find (st_index demo_store)) in
  m (demo_hash 1) = Some (index_entry_create (demo_hash 1)) /\
  exists st, demo_store_run demo_store desync_history = Some st /\ index_find (st_index st) (demo_hash 1) = None.
Proof.
  split; [vm_compute; reflexivity|].
  destruct (demo_store_run demo_store desync_history) as [st|] eqn:Hrun; [|vm_compute in Hrun; discriminate].
  exists st. split; [done|]. vm_compute in Hrun. injection Hrun as <-. vm_compute. reflexivity.
Qed.
