(* ===== verification/WireBase.v ===== *)
(** * WireBase: the building blocks of the peer wire protocol

    Models the static helpers of src/src/Network/wire.c: the type-guarded
    extractors [_array_get_*], the node id and address codecs, and the idioms
    every message codec repeats (the type check, the split message id, the
    clamped list of node ids).  A message is a CBOR array whose first element
    is its type; a decoder returns [None] where the C code returns -1.

    The decoders fill a structure of the caller, which every caller clears
    first (get_clear_memory or memset): an element of a list of node ids that
    does not decode leaves a cleared node id in its slot.  A fixed array with
    its count is modelled by the list of the elements in use.

    [WireMsg] is the interface a message codec offers to the dispatchers: its
    type byte, its encoder and decoder, the structures the encoder may be given
    ([msg_ok]) and the bounds every decoded structure respects. *)

From S2P Require Import Prelude Cbor.
Local Open Scope Z_scope.

(** ** Message types *)

Definition WIRE_PING : Z := 1.
Definition WIRE_PING_RESPONSE : Z := 2.
Definition WIRE_PING_CAPACITY : Z := 3.
Definition WIRE_PING_CAPACITY_RESPONSE : Z := 4.
Definition WIRE_PING_BLOCK : Z := 5.
Definition WIRE_PING_BLOCK_RESPONSE : Z := 6.
Definition WIRE_FIND_BLOCK : Z := 7.
Definition WIRE_FIND_BLOCK_RESPONSE : Z := 8.
Definition WIRE_FIND_NODE : Z := 9.
Definition WIRE_FIND_NODE_RESPONSE : Z := 10.
Definition WIRE_STORE_BLOCK : Z := 11.
Definition WIRE_STORE_BLOCK_RESPONSE : Z := 12.
Definition WIRE_SEEKING_BLOCKS : Z := 13.
Definition WIRE_SEEKING_BLOCKS_RESPONSE : Z := 14.
Definition WIRE_RANK_BLOCK : Z := 15.
Definition WIRE_RECALL_BLOCK : Z := 16.
Definition WIRE_RECALL_ACCEPT : Z := 17.
Definition WIRE_RECALL_DECLINE : Z := 18.
Definition WIRE_RATE_LIMITED : Z := 19.
Definition WIRE_SALUTATION : Z := 20.
Definition WIRE_RELAY_SEND : Z := 30.
Definition WIRE_RELAY_RECEIVED : Z := 31.
Definition WIRE_ADDR_REQUEST : Z := 32.
Definition WIRE_ADDR_RESPONSE : Z := 33.
Definition WIRE_RELAY_CHALLENGE : Z := 34.
Definition WIRE_RELAY_CHALLENGE_RESPONSE : Z := 35.
Definition WIRE_RELAY_PUNCH : Z := 36.
Definition WIRE_GOSSIP : Z := 21.
Definition WIRE_GOSSIP_PULL : Z := 22.
Definition WIRE_CLOSEST_NODES : Z := 23.
Definition WIRE_CLOSEST_NODES_RESPONSE : Z := 24.
Definition WIRE_MEASURE_NODES : Z := 25.
Definition WIRE_MEASURE_NODES_RESPONSE : Z := 26.
Definition WIRE_CLOSEST_NODES_PROGRESS : Z := 27.
Definition WIRE_ANTI_ENTROPY : Z := 28.
Definition WIRE_ANTI_ENTROPY_OFFER : Z := 29.
Definition WIRE_ANTI_ENTROPY_RESPONSE : Z := 30.

(** ** Sizes *)

Definition WIRE_MAX_PATH : nat := 6.
Definition WIRE_MAX_VISITED_BLOOM : nat := 256.
Definition WIRE_MAX_OFFERS : nat := 20.
Definition NODE_ID_HASH_SIZE : nat := 32.
Definition NODE_ID_STRING_SIZE : nat := 48.

(** [str] is the C string in the character array. *)
Record node_id_t := { node_hash : bytes; node_str : bytes }.

#[export] Instance node_id_eq_dec : EqDecision node_id_t.
Proof. solve_decision. Defined.

(** A cleared structure. *)
Definition node_id_null : node_id_t := {| node_hash := replicate NODE_ID_HASH_SIZE 0; node_str := [] |}.

(** The bytes before the first zero. *)
Fixpoint c_string (b : bytes) : bytes :=
  match b with
  | [] => []
  | x :: t => if x =? 0 then [] else x :: c_string t
  end.

Definition is_c_string (b : bytes) : Prop := Forall (fun x => x <> 0) b.

(** A node id fits its structure. *)
Definition node_id_bounds (n : node_id_t) : Prop :=
  length (node_hash n) = NODE_ID_HASH_SIZE /\
  (length (node_str n) < NODE_ID_STRING_SIZE)%nat /\ is_c_string (node_str n).

Definition wf_node_id (n : node_id_t) : Prop :=
  node_id_bounds n /\ is_bytes (node_hash n) /\ is_bytes (node_str n).

(** A list of node ids fits an array of [max]. *)
Definition nodes_bounds (max : nat) (l : list node_id_t) : Prop :=
  (length l <= max)%nat /\ Forall node_id_bounds l.

Definition wf_nodes (max : nat) (l : list node_id_t) : Prop :=
  (length l <= max)%nat /\ Forall wf_node_id l.

Definition WIRE_ADDR_FAMILY_NONE : Z := 0.
Definition WIRE_ADDR_FAMILY_V4 : Z := 4.
Definition WIRE_ADDR_FAMILY_V6 : Z := 6.

Record wire_addr_t := { family : Z; addr_bytes : bytes }.

Definition wire_addr_set_v4 (addr_host : Z) : wire_addr_t := {|
  family := WIRE_ADDR_FAMILY_V4;
  addr_bytes := replicate 10 0 ++ [0xFF; 0xFF;
    u8 (Z.land (Z.shiftr addr_host 24) 0xFF); u8 (Z.land (Z.shiftr addr_host 16) 0xFF);
    u8 (Z.land (Z.shiftr addr_host 8) 0xFF); u8 (Z.land addr_host 0xFF)]
|}.

Definition wire_addr_set_v6 (b : bytes) : wire_addr_t :=
  {| family := WIRE_ADDR_FAMILY_V6; addr_bytes := take 16 b |}.

Definition wire_addr_clear : wire_addr_t := {| family := WIRE_ADDR_FAMILY_NONE; addr_bytes := replicate 16 0 |}.

(** The address of a message whose sender set one: what a decoder can produce. *)
Definition wf_addr (addr_host : Z) (a : wire_addr_t) : Prop :=
  a = wire_addr_set_v4 addr_host \/
  family a = WIRE_ADDR_FAMILY_V6 /\ length (addr_bytes a) = 16%nat /\ is_bytes (addr_bytes a).

Definition addr_bounds (a : wire_addr_t) : Prop :=
  (family a = WIRE_ADDR_FAMILY_V4 \/ family a = WIRE_ADDR_FAMILY_V6) /\ length (addr_bytes a) = 16%nat.

Section Helpers.
Context {C : Cbor}.

(** ** Type-guarded extractors *)

(** [cbor_array_get]: an element of an array. *)
Definition array_get (array : cbor_item) (index : nat) : decoded cbor_item :=
  match cbor_array_get array index with Some item => DECODED item | None => ILL_TYPED end.

Definition _array_get_uint8 (array : cbor_item) (index : nat) : decoded Z :=
  item ← array_get array index;
  if cbor_isa_uint item then DECODED (cbor_get_uint8 item) else REJECTED.

Definition _array_get_uint16 (array : cbor_item) (index : nat) : decoded Z :=
  item ← array_get array index;
  if cbor_isa_uint item then DECODED (cbor_get_uint16 item) else REJECTED.

Definition _array_get_uint32 (array : cbor_item) (index : nat) : decoded Z :=
  item ← array_get array index;
  if cbor_isa_uint item then DECODED (cbor_get_uint32 item) else REJECTED.

Definition _array_get_int (array : cbor_item) (index : nat) : decoded Z :=
  item ← array_get array index;
  if cbor_isa_uint item then DECODED (cbor_get_int item) else REJECTED.

Definition _array_get_float8 (array : cbor_item) (index : nat) : decoded spec_float :=
  item ← array_get array index;
  if cbor_isa_float_ctrl item then DECODED (cbor_float_get_float item) else REJECTED.

Definition _array_get_bytestring (array : cbor_item) (index : nat) : decoded bytes :=
  item ← array_get array index;
  if cbor_isa_bytestring item then DECODED (cbor_bytestring_handle item) else REJECTED.

(** A bytestring of exactly [n] bytes. *)
Definition array_get_sized (array : cbor_item) (index n : nat) : decoded bytes :=
  data ← _array_get_bytestring array index;
  if (length data =? n)%nat then DECODED data else REJECTED.

(** A payload copied into a fresh buffer: [[]] is the null pointer, for an
    element that is not a bytestring or is empty. *)
Definition array_get_data (array : cbor_item) (index : nat) : decoded bytes :=
  item ← array_get array index;
  DECODED (if cbor_isa_bytestring item then cbor_bytestring_handle item else []).

(** A field that keeps its cleared value when its element is rejected. *)
Definition or_cleared {A} (cleared : A) (d : decoded A) : decoded A :=
  match d with DECODED a => DECODED a | REJECTED => DECODED cleared | ILL_TYPED => ILL_TYPED end.

(** ** Node ids *)

Definition _node_id_encode (n : node_id_t) : cbor_item :=
  cbor_array [cbor_build_bytestring (node_hash n); cbor_build_bytestring (node_str n)].

(** The source asks for the size and the elements of [item] without checking
    that it is an array. *)
Definition _node_id_decode (item : cbor_item) : decoded node_id_t :=
  if negb (cbor_isa_array item) then ILL_TYPED
  else if (cbor_array_size item <? 2)%nat then REJECTED
  else
    hash_item ← array_get item 0;
    str_item ← array_get item 1;
    if negb (cbor_isa_bytestring hash_item) || negb (cbor_isa_bytestring str_item) then REJECTED
    else if negb (cbor_bytestring_length hash_item =? NODE_ID_HASH_SIZE)%nat then REJECTED
    else
      let copy_len := (cbor_bytestring_length str_item `min` (NODE_ID_STRING_SIZE - 1))%nat in
      DECODED {| node_hash := cbor_bytestring_handle hash_item;
                 node_str := c_string (take copy_len (cbor_bytestring_handle str_item)) |}.

Definition array_get_node_id (array : cbor_item) (index : nat) : decoded node_id_t :=
  item ← array_get array index; _node_id_decode item.

(** ** Addresses *)

(** [None] is the null pointer, for a family that cannot be sent. *)
Definition _wire_addr_encode (a : wire_addr_t) : option cbor_item :=
  if negb (family a =? WIRE_ADDR_FAMILY_V4) && negb (family a =? WIRE_ADDR_FAMILY_V6) then None
  else Some (cbor_array [cbor_build_uint8 (family a); cbor_build_bytestring (addr_bytes a)]).

Definition _wire_addr_decode (item : cbor_item) : decoded wire_addr_t :=
  if negb (cbor_isa_array item) || negb (cbor_array_size item =? 2)%nat then REJECTED
  else
    fam ← _array_get_int item 0;
    if negb (fam =? WIRE_ADDR_FAMILY_V4) && negb (fam =? WIRE_ADDR_FAMILY_V6) then REJECTED
    else
      b ← array_get_sized item 1 16;
      DECODED {| family := u8 fam; addr_bytes := b |}.

(** [None] is the return value 1: there is no element at [index]. *)
Definition _wire_addr_decode_optional (item : cbor_item) (index : nat) : decoded (option wire_addr_t) :=
  if (cbor_array_size item <=? index)%nat then DECODED None
  else addr_item ← array_get item index; a ← _wire_addr_decode addr_item; DECODED (Some a).

(** The callers fall back to the IPv4 address of the old format. *)
Definition array_get_addr (item : cbor_item) (index : nat) (addr_host : Z) : decoded wire_addr_t :=
  a ← _wire_addr_decode_optional item index; DECODED (default (wire_addr_set_v4 addr_host) a).

(** The trailing element of an encoder: only for IPv6. *)
Definition addr_items (a : wire_addr_t) : option (list cbor_item) :=
  if family a =? WIRE_ADDR_FAMILY_V6 then item ← _wire_addr_encode a; Some [item] else Some [].

(** ** Message headers *)

(** 0 for an item that is not a message. *)
Definition wire_get_type (item : cbor_item) : Z :=
  if negb (cbor_isa_array item) || (cbor_array_size item <? 1)%nat then 0
  else match _array_get_uint8 item 0 with DECODED type => type | _ => 0 end.

Definition wire_extract_sender_id (item : cbor_item) : decoded node_id_t :=
  if negb (cbor_isa_array item) || (cbor_array_size item <? 2)%nat then REJECTED
  else array_get_node_id item 1.

(** An array of at least [n] elements whose first is the type. *)
Definition check_header (item : cbor_item) (n : nat) (type : Z) : decoded unit :=
  if negb (cbor_isa_array item) || (cbor_array_size item <? n)%nat then REJECTED
  else
    type_byte ← _array_get_uint8 item 0;
    if type_byte =? type then DECODED tt else REJECTED.

(** A 64-bit number sent as two elements, its high and its low half. *)
Definition id_hi (x : Z) : Z := Z.shiftr x 32.
Definition id_lo (x : Z) : Z := Z.land x 0xFFFFFFFF.
Definition id_join (hi lo : Z) : Z := Z.lor (u64 (Z.shiftl hi 32)) lo.

Definition array_get_split (item : cbor_item) (index : nat) : decoded Z :=
  hi ← _array_get_int item index;
  lo ← _array_get_int item (S index);
  DECODED (id_join hi lo).

(** ** Lists of node ids *)

(** The loop over the elements of a list: [f] decodes one. *)
Fixpoint decode_each {A} (f : cbor_item -> decoded A) (items : list cbor_item) : decoded (list A) :=
  match items with
  | [] => DECODED []
  | item :: items => a ← f item; l ← decode_each f items; DECODED (a :: l)
  end.

(** The same, where an element that is rejected is skipped. *)
Fixpoint decode_some {A} (f : cbor_item -> decoded A) (items : list cbor_item) : decoded (list A) :=
  match items with
  | [] => DECODED []
  | item :: items =>
      match f item with
      | DECODED a => l ← decode_some f items; DECODED (a :: l)
      | REJECTED => decode_some f items
      | ILL_TYPED => ILL_TYPED
      end
  end.

(** At most [max] elements; one that is rejected leaves the slot cleared. *)
Definition decode_nodes (max : nat) (item : cbor_item) : decoded (list node_id_t) :=
  if cbor_isa_array item
  then decode_each (fun node_item => or_cleared node_id_null (_node_id_decode node_item))
         (take max (cbor_array_items item))
  else DECODED [].

Definition array_get_nodes (array : cbor_item) (index max : nat) : decoded (list node_id_t) :=
  item ← array_get array index; decode_nodes max item.

Definition encode_nodes (nodes : list node_id_t) : cbor_item := cbor_array (map _node_id_encode nodes).

(** The loop over a list of 32-bit numbers. *)
Definition decode_uint32s (max : nat) (item : cbor_item) : list Z :=
  if cbor_isa_array item
  then map (fun x => if cbor_isa_uint x then cbor_get_uint32 x else 0) (take max (cbor_array_items item))
  else [].

Definition array_get_uint32s (array : cbor_item) (index max : nat) : decoded (list Z) :=
  item ← array_get array index; DECODED (decode_uint32s max item).

Definition encode_uint32s (l : list Z) : cbor_item := cbor_array (map cbor_build_uint32 l).
End Helpers.

(** ** Decoding what was encoded *)

Lemma c_string_id b : is_c_string b -> c_string b = b.
Proof.
  induction 1 as [|x t Hx _ IH]; [done|]. simpl. destruct (Z.eqb_spec x 0); [lia|]. by rewrite IH.
Qed.

Lemma id_hi_u32 x : is_u64 x -> is_u32 (id_hi x).
Proof.
  intros Hx. unfold is_u32, id_hi. rewrite Z.shiftr_div_pow2 by lia. unfold is_u64 in Hx.
  split; [apply Z.div_pos; lia|apply Z.div_lt_upper_bound; lia].
Qed.

Lemma id_lo_u32 x : is_u32 (id_lo x).
Proof.
  unfold is_u32, id_lo. change 0xFFFFFFFF with (Z.ones 32). rewrite Z.land_ones by lia.
  apply Z.mod_pos_bound. lia.
Qed.

(** The halves of a 64-bit number put together again. *)
Lemma id_join_split x : is_u64 x -> id_join (id_hi x) (id_lo x) = x.
Proof.
  intros Hx. unfold id_join, id_hi, id_lo. change 0xFFFFFFFF with (Z.ones 32).
  apply Z.bits_inj'. intros i Hi.
  rewrite Z.lor_spec, Z.land_spec, Z.testbit_ones by lia. unfold u64.
  destruct (Z.lt_ge_cases i 64).
  - rewrite Z.mod_pow2_bits_low, Z.shiftl_spec by lia. destruct (Z.lt_ge_cases i 32).
    + rewrite (Z.testbit_neg_r _ (i - 32)) by lia. bool_cases; try lia. by rewrite andb_true_r.
    + rewrite Z.shiftr_spec by lia. replace (i - 32 + 32) with i by lia.
      bool_cases; try lia. by rewrite andb_false_r, orb_false_r.
  - rewrite Z.mod_pow2_bits_high, (testbit_above 64 x i) by (auto; lia). done.
Qed.

#[export] Hint Resolve id_hi_u32 id_lo_u32 : offs.

Lemma u32_u64 x : is_u32 x -> is_u64 x.
Proof. unfold is_u32, is_u64. lia. Qed.

Section Decode.
Context {C : Cbor} {CL : CborLaws}.

Lemma array_get_at l k i : l !! k = Some i -> array_get (cbor_array l) k = DECODED i.
Proof. intros Hk. unfold array_get, cbor_array_get. by rewrite array_items, Hk. Qed.

Lemma array_get_uint8_at l k z :
  l !! k = Some (cbor_build_uint8 z) -> is_u8 z -> _array_get_uint8 (cbor_array l) k = DECODED z.
Proof. intros Hk Hz. unfold _array_get_uint8. rewrite (array_get_at l k _ Hk). simpl. by cbor_simp. Qed.

Lemma array_get_uint16_at l k z :
  l !! k = Some (cbor_build_uint16 z) -> is_u16 z -> _array_get_uint16 (cbor_array l) k = DECODED z.
Proof. intros Hk Hz. unfold _array_get_uint16. rewrite (array_get_at l k _ Hk). simpl. by cbor_simp. Qed.

Lemma array_get_uint32_at l k z :
  l !! k = Some (cbor_build_uint32 z) -> is_u32 z -> _array_get_uint32 (cbor_array l) k = DECODED z.
Proof. intros Hk Hz. unfold _array_get_uint32. rewrite (array_get_at l k _ Hk). simpl. by cbor_simp. Qed.

Lemma array_get_int_at l k w z :
  l !! k = Some (cbor_build_uint w z) -> 0 <= z < 2 ^ width_bits w -> _array_get_int (cbor_array l) k = DECODED z.
Proof.
  intros Hk Hz. unfold _array_get_int. rewrite (array_get_at l k _ Hk). simpl. unfold cbor_isa_uint.
  by rewrite typeof_uint, get_int_build.
Qed.

Lemma array_get_int64_at l k z :
  l !! k = Some (cbor_build_uint64 z) -> is_u64 z -> _array_get_int (cbor_array l) k = DECODED z.
Proof. apply array_get_int_at. Qed.

Lemma array_get_float8_at l k x :
  l !! k = Some (cbor_build_float8 x) -> _array_get_float8 (cbor_array l) k = DECODED x.
Proof. intros Hk. unfold _array_get_float8. rewrite (array_get_at l k _ Hk). simpl. by cbor_simp. Qed.

Lemma array_get_bytestring_at l k b :
  l !! k = Some (cbor_build_bytestring b) -> _array_get_bytestring (cbor_array l) k = DECODED b.
Proof. intros Hk. unfold _array_get_bytestring. rewrite (array_get_at l k _ Hk). simpl. by cbor_simp. Qed.

Lemma array_get_sized_at l k n b :
  l !! k = Some (cbor_build_bytestring b) -> length b = n -> array_get_sized (cbor_array l) k n = DECODED b.
Proof.
  intros Hk Hb. unfold array_get_sized. rewrite (array_get_bytestring_at l k b Hk). simpl.
  by rewrite (proj2 (Nat.eqb_eq _ _) Hb).
Qed.

Lemma array_get_data_at l k b :
  l !! k = Some (cbor_build_bytestring b) -> array_get_data (cbor_array l) k = DECODED b.
Proof. intros Hk. unfold array_get_data. rewrite (array_get_at l k _ Hk). simpl. by cbor_simp. Qed.

Lemma node_id_decode_encode n : wf_node_id n -> _node_id_decode (_node_id_encode n) = DECODED n.
Proof.
  intros ((Hh & Hs & Hc) & _). unfold _node_id_decode, _node_id_encode.
  erewrite !array_get_at by reflexivity. cbn [mbind decoded_bind]. cbor_simp. simpl.
  rewrite Hh. simpl. rewrite firstn_all2 by (unfold NODE_ID_STRING_SIZE in *; lia).
  rewrite c_string_id by done. by destruct n.
Qed.

Lemma array_get_node_id_at l k n :
  l !! k = Some (_node_id_encode n) -> wf_node_id n -> array_get_node_id (cbor_array l) k = DECODED n.
Proof.
  intros Hk Hn. unfold array_get_node_id. rewrite (array_get_at l k _ Hk). simpl.
  by apply node_id_decode_encode.
Qed.

Lemma array_get_split_at l k w x :
  l !! k = Some (cbor_build_uint w (id_hi x)) -> l !! S k = Some (cbor_build_uint w (id_lo x)) ->
  w = CBOR_INT_64 \/ w = CBOR_INT_32 -> is_u64 x -> array_get_split (cbor_array l) k = DECODED x.
Proof.
  intros Hh Hl Hw Hx. unfold array_get_split.
  assert (forall z, is_u32 z -> 0 <= z < 2 ^ width_bits w) as Hr.
  { unfold is_u32. destruct Hw as [->| ->]; simpl width_bits; lia. }
  rewrite (array_get_int_at l k _ _ Hh) by (apply Hr, id_hi_u32, Hx). cbn [mbind decoded_bind].
  rewrite (array_get_int_at l (S k) _ _ Hl) by (apply Hr, id_lo_u32). cbn [mbind decoded_bind].
  by rewrite id_join_split.
Qed.

Lemma array_get_split64_at l k x :
  l !! k = Some (cbor_build_uint64 (id_hi x)) -> l !! S k = Some (cbor_build_uint64 (id_lo x)) ->
  is_u64 x -> array_get_split (cbor_array l) k = DECODED x.
Proof. intros Hh Hl Hx. eapply array_get_split_at; eauto. Qed.

Lemma array_get_split32_at l k x :
  l !! k = Some (cbor_build_uint32 (id_hi x)) -> l !! S k = Some (cbor_build_uint32 (id_lo x)) ->
  is_u64 x -> array_get_split (cbor_array l) k = DECODED x.
Proof. intros Hh Hl Hx. eapply array_get_split_at; eauto. Qed.

Lemma decode_each_map {A B} (f : cbor_item -> decoded A) (g : B -> cbor_item) (h : B -> A) l :
  Forall (fun x => f (g x) = DECODED (h x)) l -> decode_each f (map g l) = DECODED (map h l).
Proof. induction 1 as [|x l Hx _ IH]; [done|]. cbn [map decode_each]. by rewrite Hx, IH. Qed.

Lemma decode_some_map {A B} (f : cbor_item -> decoded A) (g : B -> cbor_item) (h : B -> A) l :
  Forall (fun x => f (g x) = DECODED (h x)) l -> decode_some f (map g l) = DECODED (map h l).
Proof. induction 1 as [|x l Hx _ IH]; [done|]. cbn [map decode_some]. by rewrite Hx, IH. Qed.

Lemma decode_nodes_encode max nodes : wf_nodes max nodes -> decode_nodes max (encode_nodes nodes) = DECODED nodes.
Proof.
  intros [Hm Hn]. unfold decode_nodes, encode_nodes. cbor_simp. rewrite bool_decide_true by done.
  rewrite firstn_all2 by (by rewrite length_map). rewrite (decode_each_map _ _ id), map_id; [done|].
  eapply Forall_impl; [exact Hn|]. intros n Hw. by rewrite node_id_decode_encode.
Qed.

Lemma array_get_nodes_at l k max nodes :
  l !! k = Some (encode_nodes nodes) -> wf_nodes max nodes -> array_get_nodes (cbor_array l) k max = DECODED nodes.
Proof.
  intros Hk Hn. unfold array_get_nodes. rewrite (array_get_at l k _ Hk). cbn [mbind decoded_bind].
  by apply decode_nodes_encode.
Qed.

Lemma decode_uint32s_encode max l :
  Forall is_u32 l -> (length l <= max)%nat -> decode_uint32s max (encode_uint32s l) = l.
Proof.
  intros Hl Hm. unfold decode_uint32s, encode_uint32s. cbor_simp. rewrite bool_decide_true by done.
  rewrite firstn_all2 by (by rewrite length_map). clear Hm. rewrite map_map.
  induction Hl as [|z l Hz _ IH]; [done|]. simpl. cbor_simp. rewrite bool_decide_true by done. by rewrite IH.
Qed.

Lemma array_get_uint32s_at l k max nums :
  l !! k = Some (encode_uint32s nums) -> Forall is_u32 nums -> (length nums <= max)%nat ->
  array_get_uint32s (cbor_array l) k max = DECODED nums.
Proof.
  intros Hk Hn Hm. unfold array_get_uint32s. rewrite (array_get_at l k _ Hk). simpl.
  by rewrite decode_uint32s_encode.
Qed.

Lemma check_header_at l n type :
  (n <= length l)%nat -> l !! 0%nat = Some (cbor_build_uint8 type) -> is_u8 type ->
  check_header (cbor_array l) n type = DECODED tt.
Proof.
  intros Hn Hl Ht. unfold check_header, cbor_isa_array, cbor_array_size. rewrite typeof_array, array_items.
  rewrite (proj2 (Nat.ltb_ge _ _) Hn). simpl. rewrite (array_get_uint8_at l 0 type) by done. simpl.
  by rewrite Z.eqb_refl.
Qed.

Lemma wire_get_type_at l type :
  l !! 0%nat = Some (cbor_build_uint8 type) -> is_u8 type -> wire_get_type (cbor_array l) = type.
Proof.
  intros Hl Ht. unfold wire_get_type, cbor_isa_array, cbor_array_size. rewrite typeof_array, array_items.
  destruct l as [|i l]; [done|]. simpl. by rewrite (array_get_uint8_at (i :: l) 0 type).
Qed.

(** The trailing address of a message. *)
Lemma addr_items_v4 host : addr_items (wire_addr_set_v4 host) = Some [].
Proof. done. Qed.

Definition v6_item (a : wire_addr_t) : cbor_item :=
  cbor_array [cbor_build_uint8 WIRE_ADDR_FAMILY_V6; cbor_build_bytestring (addr_bytes a)].

Lemma addr_items_v6 a : family a = WIRE_ADDR_FAMILY_V6 -> addr_items a = Some [v6_item a].
Proof. intros Hf. unfold addr_items, _wire_addr_encode. by rewrite Hf. Qed.

Lemma array_get_addr_none l k host :
  (length l <= k)%nat -> array_get_addr (cbor_array l) k host = DECODED (wire_addr_set_v4 host).
Proof.
  intros Hk. unfold array_get_addr, _wire_addr_decode_optional, cbor_array_size. rewrite array_items.
  by rewrite (proj2 (Nat.leb_le _ _) Hk).
Qed.

Lemma array_get_addr_some l k host a :
  l !! k = Some (v6_item a) -> family a = WIRE_ADDR_FAMILY_V6 -> length (addr_bytes a) = 16%nat ->
  array_get_addr (cbor_array l) k host = DECODED a.
Proof.
  intros Hk Hf Hl. unfold array_get_addr, _wire_addr_decode_optional, cbor_array_size. rewrite array_items.
  rewrite (proj2 (Nat.leb_gt _ _) (lookup_lt_Some _ _ _ Hk)), (array_get_at l k _ Hk). cbn [mbind decoded_bind].
  unfold _wire_addr_decode, v6_item, cbor_isa_array, cbor_array_size. rewrite typeof_array, array_items. simpl.
  rewrite (array_get_int_at _ 0 CBOR_INT_8 WIRE_ADDR_FAMILY_V6) by (done || (vm_compute; intuition congruence)).
  simpl. erewrite array_get_sized_at by done. simpl. f_equal. destruct a as [f b]; simpl in *. by rewrite Hf.
Qed.
End Decode.

(** ** Bounds of what is decoded *)

Lemma length_omap_le {A B} (f : A -> option B) l : (length (omap f l) <= length l)%nat.
Proof. induction l as [|x l IH]; [done|]. csimpl. destruct (f x); csimpl; lia. Qed.

Lemma length_c_string b : (length (c_string b) <= length b)%nat.
Proof. induction b as [|x b IH]; [done|]. simpl. destruct (x =? 0); simpl; lia. Qed.

Lemma c_string_nonzero b : is_c_string (c_string b).
Proof.
  induction b as [|x b IH]; [constructor|]. simpl. destruct (Z.eqb_spec x 0); constructor; done.
Qed.

Lemma node_id_null_bounds : node_id_bounds node_id_null.
Proof. unfold node_id_bounds. split; [done|]. split; [simpl; unfold NODE_ID_STRING_SIZE; lia|constructor]. Qed.

Section Bounds.
Context {C : Cbor}.

Lemma node_id_decode_bounds item n : _node_id_decode item = DECODED n -> node_id_bounds n.
Proof.
  unfold _node_id_decode. intros H. case_match; [done|]. case_match; [done|].
  apply bind_DECODED in H as (hi & _ & H). apply bind_DECODED in H as (si & _ & H).
  case_match; [done|]. destruct (Nat.eqb_spec (cbor_bytestring_length hi) NODE_ID_HASH_SIZE) as [Hl|]; [|done].
  simplify_eq/=. split; [done|]. split; [|apply c_string_nonzero].
  eapply Nat.le_lt_trans; [apply length_c_string|]. rewrite length_take. unfold NODE_ID_STRING_SIZE. simpl. lia.
Qed.

Lemma array_get_node_id_bounds item k n : array_get_node_id item k = DECODED n -> node_id_bounds n.
Proof. intros H. apply bind_DECODED in H as (i & _ & H). by eapply node_id_decode_bounds. Qed.

Lemma array_get_sized_bounds item k n b : array_get_sized item k n = DECODED b -> length b = n.
Proof.
  unfold array_get_sized. intros H. apply bind_DECODED in H as (x & _ & H).
  destruct (Nat.eqb_spec (length x) n); [|done]. by simplify_eq.
Qed.

Lemma decode_each_Forall {A} (f : cbor_item -> decoded A) (P : A -> Prop) items l :
  (forall i a, f i = DECODED a -> P a) -> decode_each f items = DECODED l ->
  length l = length items /\ Forall P l.
Proof.
  intros Hf. revert l. induction items as [|i items IH]; intros l H; cbn [decode_each] in H; [by simplify_eq|].
  apply bind_DECODED in H as (a & Ha & H). apply bind_DECODED in H as (l' & Hl & H). simplify_eq.
  destruct (IH l' Hl) as [Hlen Hall]. split; [cbn; by rewrite Hlen|]. constructor; [by eapply Hf|done].
Qed.

Lemma decode_some_Forall {A} (f : cbor_item -> decoded A) (P : A -> Prop) items l :
  (forall i a, f i = DECODED a -> P a) -> decode_some f items = DECODED l ->
  (length l <= length items)%nat /\ Forall P l.
Proof.
  intros Hf. revert l. induction items as [|i items IH]; intros l H; cbn [decode_some] in H; [by simplify_eq|].
  destruct (f i) as [a| |] eqn:E; [|destruct (IH l H); split; [cbn; lia|done]|done].
  apply bind_DECODED in H as (l' & Hl & H). simplify_eq. destruct (IH l' Hl). split; [cbn; lia|].
  constructor; [by eapply Hf|done].
Qed.

Lemma decode_nodes_bounds max item l : decode_nodes max item = DECODED l -> nodes_bounds max l.
Proof.
  unfold nodes_bounds, decode_nodes. destruct (cbor_isa_array item).
  - intros H. eapply (decode_each_Forall _ node_id_bounds) in H as [-> ?].
    + split; [rewrite length_take; lia|done].
    + intros i n. destruct (_node_id_decode i) eqn:E; cbn [or_cleared]; intros [= <-].
      * by eapply node_id_decode_bounds.
      * apply node_id_null_bounds.
  - intros [= <-]. split; [simpl; lia|constructor].
Qed.

Lemma array_get_nodes_bounds item k max l : array_get_nodes item k max = DECODED l -> nodes_bounds max l.
Proof. intros H. apply bind_DECODED in H as (i & _ & H). by eapply decode_nodes_bounds. Qed.

Lemma array_get_uint32s_bounds item k max l : array_get_uint32s item k max = DECODED l -> (length l <= max)%nat.
Proof.
  intros H. apply bind_DECODED in H as (i & _ & H). simplify_eq. unfold decode_uint32s.
  destruct (cbor_isa_array i); [|simpl; lia]. rewrite length_map, length_take. lia.
Qed.

Lemma array_get_addr_bounds item k host a : array_get_addr item k host = DECODED a -> addr_bounds a.
Proof.
  unfold array_get_addr, _wire_addr_decode_optional. intros (o & H & Ha)%bind_DECODED. simplify_eq.
  case_match; [simplify_eq/=; split; [by left|done]|].
  apply bind_DECODED in H as (i & _ & H). apply bind_DECODED in H as (a & H & Ho). simplify_eq/=.
  unfold _wire_addr_decode in H. case_match; [done|]. apply bind_DECODED in H as (f & _ & H).
  unfold addr_bounds.
  destruct (Z.eqb_spec f WIRE_ADDR_FAMILY_V4) as [Hf|_], (Z.eqb_spec f WIRE_ADDR_FAMILY_V6) as [Hf'|_];
    simpl in H; try done; apply bind_DECODED in H as (b & Hb%array_get_sized_bounds & ?); simplify_eq/=;
    rewrite ?Hf, ?Hf'; auto.
Qed.

Lemma take_nodes_bounds n max l : nodes_bounds max l -> nodes_bounds max (take n l).
Proof. intros [Hl Hb]. split; [rewrite length_take; lia|by apply Forall_take]. Qed.

Lemma check_header_type item n type u :
  (1 <= n)%nat -> check_header item n type = DECODED u -> wire_get_type item = type.
Proof.
  unfold check_header, wire_get_type. intros Hn H. destruct (cbor_isa_array item); simpl in *; [|done].
  destruct (Nat.ltb_spec (cbor_array_size item) n); [done|].
  destruct (Nat.ltb_spec (cbor_array_size item) 1); [lia|].
  apply bind_DECODED in H as (t & -> & H). simpl. by destruct (Z.eqb_spec t type).
Qed.
End Bounds.

Section Ranges.
Context {C : Cbor} {CL : CborLaws}.

Lemma array_get_uint8_range item k z : _array_get_uint8 item k = DECODED z -> is_u8 z.
Proof. intros (i & _ & H)%bind_DECODED. case_match; [|done]. simplify_eq. apply (get_uint_range CBOR_INT_8). Qed.

Lemma array_get_uint16_range item k z : _array_get_uint16 item k = DECODED z -> is_u16 z.
Proof. intros (i & _ & H)%bind_DECODED. case_match; [|done]. simplify_eq. apply (get_uint_range CBOR_INT_16). Qed.

Lemma array_get_uint32_range item k z : _array_get_uint32 item k = DECODED z -> is_u32 z.
Proof. intros (i & _ & H)%bind_DECODED. case_match; [|done]. simplify_eq. apply (get_uint_range CBOR_INT_32). Qed.

Lemma array_get_int_range item k z : _array_get_int item k = DECODED z -> is_u64 z.
Proof. intros (i & _ & H)%bind_DECODED. case_match; [|done]. simplify_eq. apply get_int_range. Qed.

Lemma id_join_range hi lo : is_u64 lo -> is_u64 (id_join hi lo).
Proof.
  intros Hlo. assert (id_join hi lo = u64 (id_join hi lo)) as ->; [|apply u64_range].
  unfold id_join, u64. rewrite <- !Z.land_ones by lia. rewrite Z.land_lor_distr_l.
  rewrite <- Z.land_assoc, Z.land_diag. f_equal. rewrite Z.land_ones, Z.mod_small by (unfold is_u64 in Hlo; lia). done.
Qed.

Lemma array_get_split_range item k z : array_get_split item k = DECODED z -> is_u64 z.
Proof.
  intros (hi & _ & H)%bind_DECODED. apply bind_DECODED in H as (lo & Hlo%array_get_int_range & H). simplify_eq.
  by apply id_join_range.
Qed.

Lemma or_cleared_range {A} (P : A -> Prop) d a z :
  (forall x, d = DECODED x -> P x) -> P a -> or_cleared a d = DECODED z -> P z.
Proof. intros Hd Ha. destruct d; intros [= <-]; auto. Qed.

Lemma array_get_uint32s_range item k max l : array_get_uint32s item k max = DECODED l -> Forall is_u32 l.
Proof.
  intros (i & _ & H)%bind_DECODED. simplify_eq. unfold decode_uint32s. case_match; [|constructor].
  apply Forall_fmap, Forall_true. intros x. cbn. case_match; [apply (get_uint_range CBOR_INT_32)|by unfold is_u32].
Qed.
End Ranges.

(** ** The interface of a codec *)

Create HintDb wire.

Class WireMsg {C : Cbor} (M : Type) := {
  msg_type : Z;
  (** [None]: the encoder returns a null pointer. *)
  msg_encode : M -> option cbor_item;
  msg_decode : cbor_item -> decoded M;
  msg_ok : M -> Prop;
  msg_bounds : M -> Prop
}.

Class WireMsgLaws {C : Cbor} (M : Type) {W : WireMsg M} : Prop := {
  msg_type_u8 : is_u8 (msg_type (M := M));
  (** A well-formed structure is encoded, as a message of its type. *)
  msg_encode_type m :
    msg_ok m -> exists l, msg_encode m = Some (cbor_array (cbor_build_uint8 (msg_type (M := M)) :: l));
  msg_roundtrip m item : msg_ok m -> msg_encode m = Some item -> msg_decode item = DECODED m;
  (** Whatever the peer sent, a decoded structure is within its bounds. *)
  msg_decode_bounds item m : msg_decode item = DECODED m -> msg_bounds m;
  msg_decode_type item m : msg_decode item = DECODED m -> wire_get_type item = msg_type (M := M)
}.

(** A well-formed structure is encoded into an item libcbor can write out. *)
Class WireMsgSerial {C : Cbor} {CS : CborSerial} (M : Type) {W : WireMsg M} : Prop :=
  msg_serializable m item : msg_ok (M := M) m -> msg_encode m = Some item -> cbor_serializable item.

(** A buffer in memory. *)
Definition is_buffer (b : bytes) : Prop := is_bytes b /\ Z.of_nat (length b) < 2 ^ 64.

Lemma sized_buffer b n : length b = n -> Z.of_nat n < 2 ^ 64 -> is_bytes b -> is_buffer b.
Proof. intros <- Hn Hb. by split. Qed.

Section Serial.
Context {C : Cbor} {CS : CborSerial} {CSL : CborSerialLaws}.

Lemma serializable_uint8 z : is_u8 z -> cbor_serializable (cbor_build_uint8 z).
Proof. apply (serializable_uint CBOR_INT_8). Qed.
Lemma serializable_uint16 z : is_u16 z -> cbor_serializable (cbor_build_uint16 z).
Proof. apply (serializable_uint CBOR_INT_16). Qed.
Lemma serializable_uint32 z : is_u32 z -> cbor_serializable (cbor_build_uint32 z).
Proof. apply (serializable_uint CBOR_INT_32). Qed.
Lemma serializable_uint64 z : is_u64 z -> cbor_serializable (cbor_build_uint64 z).
Proof. apply (serializable_uint CBOR_INT_64). Qed.

Lemma serializable_hi64 x : is_u64 x -> cbor_serializable (cbor_build_uint64 (id_hi x)).
Proof. intros Hx. by apply serializable_uint64, u32_u64, id_hi_u32. Qed.
Lemma serializable_lo64 x : cbor_serializable (cbor_build_uint64 (id_lo x)).
Proof. apply serializable_uint64, u32_u64, id_lo_u32. Qed.
Lemma serializable_hi32 x : is_u64 x -> cbor_serializable (cbor_build_uint32 (id_hi x)).
Proof. intros Hx. by apply serializable_uint32, id_hi_u32. Qed.
Lemma serializable_lo32 x : cbor_serializable (cbor_build_uint32 (id_lo x)).
Proof. apply serializable_uint32, id_lo_u32. Qed.

Lemma serializable_buffer b : is_buffer b -> cbor_serializable (cbor_build_bytestring b).
Proof. intros [Hb Hl]. by apply serializable_bytestring. Qed.

Lemma serializable_float8 x : is_float x = true -> cbor_serializable (cbor_build_float8 (double_of_float x)).
Proof. intros Hx. by apply serializable_float, is_float_is_double. Qed.

Lemma serializable_short l : Forall cbor_serializable l -> (length l <= 64)%nat -> cbor_serializable (cbor_array l).
Proof. intros Hl Hn. apply serializable_array; [done|lia]. Qed.

Lemma serializable_node_id n : wf_node_id n -> cbor_serializable (_node_id_encode n).
Proof.
  intros ((Hh & Hs & _) & Hbh & Hbs). unfold NODE_ID_STRING_SIZE in Hs. apply serializable_short; [|simpl; lia].
  repeat constructor; apply serializable_buffer; split; try done; [rewrite Hh; done|lia].
Qed.

Lemma serializable_nodes max l : wf_nodes max l -> (max <= 64)%nat -> cbor_serializable (encode_nodes l).
Proof.
  intros [Hl Hn] Hm. apply serializable_short; [|rewrite length_map; lia].
  apply Forall_fmap. eapply Forall_impl; [exact Hn|]. apply serializable_node_id.
Qed.

Lemma serializable_uint32s max l :
  Forall is_u32 l -> (length l <= max)%nat -> (max <= 64)%nat -> cbor_serializable (encode_uint32s l).
Proof.
  intros Hl Hn Hm. apply serializable_short; [|rewrite length_map; lia].
  apply Forall_fmap. eapply Forall_impl; [exact Hl|]. apply serializable_uint32.
Qed.

Lemma serializable_v6_item a :
  length (addr_bytes a) = 16%nat -> is_bytes (addr_bytes a) -> cbor_serializable (v6_item a).
Proof.
  intros Hl Hb. apply serializable_short; [|simpl; lia].
  repeat constructor; [by apply serializable_uint8|].
  apply serializable_buffer. split; [done|]. by rewrite Hl.
Qed.
End Serial.

(** The announced length of a path of at most [max] nodes. *)
Lemma path_len_u8 max l : wf_nodes max l -> (max <= 64)%nat -> is_u8 (Z.of_nat (length l)).
Proof. intros [Hl _] Hm. unfold is_u8. lia. Qed.

Lemma take_path_len (l : list node_id_t) : take (Z.to_nat (Z.of_nat (length l))) l = l.
Proof. rewrite Nat2Z.id. apply firstn_all. Qed.

Lemma buffer_length_u64 b : is_buffer b -> is_u64 (Z.of_nat (length b)).
Proof. intros [_ H]. unfold is_u64. lia. Qed.

#[export] Hint Resolve buffer_length_u64 : offs.

(** Evaluates a decoder on an encoded message, one extractor at a time. *)
Ltac wire_side :=
  first [reflexivity | assumption | solve [auto with offs] | lia | cbn [length]; lia
        | eapply path_len_u8; [eassumption|vm_compute; lia]
        | unfold is_u8, is_u16, is_u32, is_u64; lia
        | vm_compute; intuition congruence].

Ltac wire_get :=
  match goal with
  | |- context [check_header (cbor_array ?l) ?n ?t] => rewrite (check_header_at l n t) by wire_side
  | |- context [array_get_split (cbor_array ?l) ?k] =>
      first [erewrite (array_get_split64_at l k) by wire_side | erewrite (array_get_split32_at l k) by wire_side]
  | |- context [array_get_node_id (cbor_array ?l) ?k] => erewrite (array_get_node_id_at l k) by wire_side
  | |- context [_array_get_uint8 (cbor_array ?l) ?k] => erewrite (array_get_uint8_at l k) by wire_side
  | |- context [_array_get_uint16 (cbor_array ?l) ?k] => erewrite (array_get_uint16_at l k) by wire_side
  | |- context [_array_get_uint32 (cbor_array ?l) ?k] => erewrite (array_get_uint32_at l k) by wire_side
  | |- context [_array_get_int (cbor_array ?l) ?k] => erewrite (array_get_int64_at l k) by wire_side
  | |- context [_array_get_float8 (cbor_array ?l) ?k] => erewrite (array_get_float8_at l k) by wire_side
  | |- context [array_get_sized (cbor_array ?l) ?k ?n] => erewrite (array_get_sized_at l k n) by wire_side
  | |- context [_array_get_bytestring (cbor_array ?l) ?k] => erewrite (array_get_bytestring_at l k) by wire_side
  | |- context [array_get_data (cbor_array ?l) ?k] => erewrite (array_get_data_at l k) by wire_side
  | |- context [array_get_nodes (cbor_array ?l) ?k ?n] => erewrite (array_get_nodes_at l k n) by wire_side
  | |- context [array_get_addr (cbor_array ?l) ?k ?h] =>
      first [erewrite (array_get_addr_some l k h) by wire_side | rewrite (array_get_addr_none l k h) by wire_side]
  | |- context [array_get_uint32s (cbor_array ?l) ?k ?n] => erewrite (array_get_uint32s_at l k n) by wire_side
  end; cbn [mbind decoded_bind].

(** The proof of [msg_roundtrip]: [m] is the structure and [H] its well-formedness. *)
Ltac wire_roundtrip m := repeat wire_get; rewrite ?float_double_float by assumption; by destruct m.

(** Takes a successful decoder apart. *)
Ltac wire_inv H :=
  repeat match type of H with
  | (_ ≫= _) = DECODED _ =>
      let x := fresh "x" in let E := fresh "E" in apply bind_DECODED in H as (x & E & H)
  end.

Ltac wire_facts :=
  repeat match goal with
  | E : array_get_node_id _ _ = DECODED _ |- _ => apply array_get_node_id_bounds in E
  | E : array_get_sized _ _ _ = DECODED _ |- _ => apply array_get_sized_bounds in E
  | E : array_get_nodes _ _ _ = DECODED _ |- _ => apply array_get_nodes_bounds in E
  | E : array_get_uint32s _ _ _ = DECODED _ |- _ =>
      let R := fresh "R" in pose proof (array_get_uint32s_range _ _ _ _ E) as R; apply array_get_uint32s_bounds in E
  | E : (if ?b then _ else REJECTED) = DECODED _ |- _ => destruct b; [|discriminate E]
  | E : (if ?b then or_cleared _ _ else DECODED _) = DECODED _ |- _ => destruct b; [|injection E as <-]
  | E : or_cleared _ _ = DECODED _ |- _ =>
      eapply (or_cleared_range is_u8) in E; [|exact (array_get_uint8_range _ _)|by unfold is_u8]
  | E : _array_get_uint8 _ _ = DECODED _ |- _ => apply array_get_uint8_range in E
  | E : _array_get_uint16 _ _ = DECODED _ |- _ => apply array_get_uint16_range in E
  | E : _array_get_uint32 _ _ = DECODED _ |- _ => apply array_get_uint32_range in E
  | E : _array_get_int _ _ = DECODED _ |- _ => apply array_get_int_range in E
  | E : array_get_split _ _ = DECODED _ |- _ => apply array_get_split_range in E
  | E : array_get_addr _ _ _ = DECODED _ |- _ => apply array_get_addr_bounds in E
  end.

(** The laws of a codec whose encoder always succeeds; the definitions of the
    codec are unfolded with the [wire] database. *)
Ltac wire_unfold := autounfold with wire in *; cbn beta iota in *.

Ltac wire_type := vm_compute; intuition congruence.

Ltac wire_encodes := let m := fresh in intros m _; eexists; reflexivity.

Ltac wire_roundtrips :=
  let m := fresh "m" in let H := fresh "H" in
  intros m ? H; wire_unfold; intros [= <-]; destruct_and? H; wire_roundtrip m.

Ltac wire_conj := repeat (try done; match goal with |- _ /\ _ => split | |- is_u8 0 => by unfold is_u8 end).

Ltac wire_bounds :=
  let H := fresh "H" in
  intros ? ? H; wire_unfold; wire_inv H; simplify_eq; wire_facts; simpl; wire_conj.

Ltac wire_types :=
  let H := fresh "H" in
  intros ? ? H; wire_unfold; wire_inv H;
  match goal with E : check_header _ _ _ = DECODED _ |- _ => eapply check_header_type; [|exact E]; lia end.

Ltac wire_codec := split; [wire_type|wire_encodes|wire_roundtrips|wire_bounds|wire_types].

#[export] Hint Unfold msg_type msg_encode msg_decode msg_ok msg_bounds : wire.

Ltac wire_item :=
  match goal with
  | |- cbor_serializable (cbor_array _) => apply serializable_short; [repeat constructor; wire_item|simpl; lia]
  | |- cbor_serializable (cbor_build_uint64 (id_hi _)) => apply serializable_hi64; wire_side
  | |- cbor_serializable (cbor_build_uint64 (id_lo _)) => apply serializable_lo64
  | |- cbor_serializable (cbor_build_uint32 (id_hi _)) => apply serializable_hi32; wire_side
  | |- cbor_serializable (cbor_build_uint32 (id_lo _)) => apply serializable_lo32
  | |- cbor_serializable (cbor_build_uint8 _) => apply serializable_uint8; wire_side
  | |- cbor_serializable (cbor_build_uint16 _) => apply serializable_uint16; wire_side
  | |- cbor_serializable (cbor_build_uint32 _) => apply serializable_uint32; wire_side
  | |- cbor_serializable (cbor_build_uint64 _) => apply serializable_uint64; wire_side
  | |- cbor_serializable (cbor_build_float8 _) => apply serializable_float8; wire_side
  | |- cbor_serializable (cbor_build_bytestring _) =>
      apply serializable_buffer; first [assumption | eapply sized_buffer; [eassumption|done|assumption]]
  | |- cbor_serializable (_node_id_encode _) => apply serializable_node_id; wire_side
  | |- cbor_serializable (encode_nodes _) => eapply serializable_nodes; [eassumption|vm_compute; lia]
  | |- cbor_serializable (encode_uint32s _) => eapply serializable_uint32s; [eassumption|eassumption|vm_compute; lia]
  | |- cbor_serializable (v6_item _) => apply serializable_v6_item; assumption
  end.

Ltac wire_serial :=
  let H := fresh "H" in intros ? ? H; wire_unfold; intros [= <-]; destruct_and? H; wire_item.

(** The same for the messages that end with an address: IPv4 and IPv6. *)
Ltac wire_addr_cases :=
  let H := fresh "H" in
  intros ? H; wire_unfold; destruct_and? H;
  match goal with W : wf_addr ?h ?a |- _ =>
    let Ha := fresh "Ha" in let Hf := fresh "Hf" in let Hl := fresh "Hl" in let Hb := fresh "Hb" in
    destruct W as [Ha|(Hf & Hl & Hb)];
    [rewrite ?Ha, addr_items_v4|rewrite ?(addr_items_v6 a Hf)]; cbn [mbind option_bind app]
  end.

Ltac wire_codec_addr :=
  split;
  [wire_type
  |wire_addr_cases; eexists; reflexivity
  |let m := fresh "m" in intros m ?; revert m; wire_addr_cases; intros [= <-]; repeat wire_get;
   rewrite ?take_path_len;
   match goal with |- _ = DECODED ?m => destruct m; simpl in *; by subst end
  |wire_bounds; try by apply take_nodes_bounds|wire_types].

Ltac wire_serial_addr :=
  let m := fresh "m" in intros m ?; revert m; wire_addr_cases; intros [= <-]; wire_item.
