(* ===== verification/WirePing.v ===== *)
(** * WirePing: liveness, lookup and session messages of the wire protocol

    Models the codecs of src/src/Network/wire.c (structures in wire.h) for
    Ping, PingResponse, PingCapacity, PingCapacityResponse, PingBlock,
    PingBlockResponse, FindNode, FindNodeResponse, RateLimited and Salutation.
    Each codec is an instance of [WireMsg] with its laws. *)

From S2P Require Import Prelude Cbor WireBase.
Local Open Scope Z_scope.

(** ** Ping *)

Record wire_ping_t := { ping_message_id : Z; ping_sender_id : node_id_t; ping_timestamp : Z }.

Section Ping.
Context {C : Cbor}.

Definition wire_ping_encode (m : wire_ping_t) : cbor_item := cbor_array [
  cbor_build_uint8 WIRE_PING;
  _node_id_encode (ping_sender_id m);
  cbor_build_uint64 (id_hi (ping_message_id m));
  cbor_build_uint64 (id_lo (ping_message_id m));
  cbor_build_uint64 (ping_timestamp m)].

Definition wire_ping_decode (item : cbor_item) : decoded wire_ping_t :=
  _ ← check_header item 5 WIRE_PING;
  sender ← array_get_node_id item 1;
  message_id ← array_get_split item 2;
  timestamp ← _array_get_int item 4;
  DECODED {| ping_message_id := message_id; ping_sender_id := sender; ping_timestamp := timestamp |}.
End Ping.

Definition wire_ping_ok (m : wire_ping_t) : Prop :=
  is_u64 (ping_message_id m) /\ wf_node_id (ping_sender_id m) /\ is_u64 (ping_timestamp m).

Definition wire_ping_bounds (m : wire_ping_t) : Prop :=
  is_u64 (ping_message_id m) /\ is_u64 (ping_timestamp m) /\ node_id_bounds (ping_sender_id m).


#[export] Instance wire_ping {C : Cbor} : WireMsg wire_ping_t := {|
  msg_type := WIRE_PING; msg_encode m := Some (wire_ping_encode m); msg_decode := wire_ping_decode;
  msg_ok := wire_ping_ok; msg_bounds := wire_ping_bounds |}.

#[export] Hint Unfold wire_ping wire_ping_encode wire_ping_decode wire_ping_ok wire_ping_bounds : wire.

#[export] Instance wire_ping_laws {C : Cbor} {CL : CborLaws} : WireMsgLaws wire_ping_t.
Proof. wire_codec. Qed.

#[export] Instance wire_ping_serial {C : Cbor} {CS : CborSerial} {CSL : CborSerialLaws} : WireMsgSerial wire_ping_t.
Proof. wire_serial. Qed.

(** ** PingResponse *)

Record wire_ping_response_t := {
  pr_message_id : Z; pr_sender_id : node_id_t; pr_echo_time : Z; pr_capacity : spec_float; pr_phase : Z
}.

Section PingResponse.
Context {C : Cbor}.

Definition wire_ping_response_encode (m : wire_ping_response_t) : cbor_item := cbor_array [
  cbor_build_uint8 WIRE_PING_RESPONSE;
  _node_id_encode (pr_sender_id m);
  cbor_build_uint64 (id_hi (pr_message_id m));
  cbor_build_uint64 (id_lo (pr_message_id m));
  cbor_build_uint64 (pr_echo_time m);
  cbor_build_float8 (double_of_float (pr_capacity m));
  cbor_build_uint8 (pr_phase m)].

Definition wire_ping_response_decode (item : cbor_item) : decoded wire_ping_response_t :=
  _ ← check_header item 7 WIRE_PING_RESPONSE;
  sender ← array_get_node_id item 1;
  message_id ← array_get_split item 2;
  echo_time ← _array_get_int item 4;
  cap_val ← _array_get_float8 item 5;
  phase ← _array_get_uint8 item 6;
  DECODED {| pr_message_id := message_id; pr_sender_id := sender; pr_echo_time := echo_time;
          pr_capacity := float_of_double cap_val; pr_phase := phase |}.
End PingResponse.

Definition wire_ping_response_ok (m : wire_ping_response_t) : Prop :=
  is_u64 (pr_message_id m) /\ wf_node_id (pr_sender_id m) /\ is_u64 (pr_echo_time m) /\
  is_float (pr_capacity m) = true /\ is_u8 (pr_phase m).

Definition wire_ping_response_bounds (m : wire_ping_response_t) : Prop :=
  is_u64 (pr_message_id m) /\ is_u64 (pr_echo_time m) /\ is_u8 (pr_phase m) /\ node_id_bounds (pr_sender_id m).

#[export] Instance wire_ping_response {C : Cbor} : WireMsg wire_ping_response_t := {|
  msg_type := WIRE_PING_RESPONSE; msg_encode m := Some (wire_ping_response_encode m); msg_decode := wire_ping_response_decode;
  msg_ok := wire_ping_response_ok; msg_bounds := wire_ping_response_bounds |}.

#[export] Hint Unfold wire_ping_response wire_ping_response_encode wire_ping_response_decode wire_ping_response_ok wire_ping_response_bounds : wire.

#[export] Instance wire_ping_response_laws {C : Cbor} {CL : CborLaws} : WireMsgLaws wire_ping_response_t.
Proof. wire_codec. Qed.

#[export] Instance wire_ping_response_serial {C : Cbor} {CS : CborSerial} {CSL : CborSerialLaws} : WireMsgSerial wire_ping_response_t.
Proof. wire_serial. Qed.

(** ** PingCapacity: the message id comes before the node id *)

Record wire_ping_capacity_t := { pc_message_id : Z; pc_source : node_id_t; pc_capacity : spec_float; pc_phase : Z }.

Section PingCapacity.
Context {C : Cbor}.

Definition wire_ping_capacity_encode (m : wire_ping_capacity_t) : cbor_item := cbor_array [
  cbor_build_uint8 WIRE_PING_CAPACITY;
  cbor_build_uint64 (id_hi (pc_message_id m));
  cbor_build_uint64 (id_lo (pc_message_id m));
  _node_id_encode (pc_source m);
  cbor_build_float8 (double_of_float (pc_capacity m));
  cbor_build_uint8 (pc_phase m)].

Definition wire_ping_capacity_decode (item : cbor_item) : decoded wire_ping_capacity_t :=
  _ ← check_header item 6 WIRE_PING_CAPACITY;
  message_id ← array_get_split item 1;
  source ← array_get_node_id item 3;
  cap_val ← _array_get_float8 item 4;
  phase ← _array_get_uint8 item 5;
  DECODED {| pc_message_id := message_id; pc_source := source;
          pc_capacity := float_of_double cap_val; pc_phase := phase |}.
End PingCapacity.

Definition wire_ping_capacity_ok (m : wire_ping_capacity_t) : Prop :=
  is_u64 (pc_message_id m) /\ wf_node_id (pc_source m) /\ is_float (pc_capacity m) = true /\ is_u8 (pc_phase m).

Definition wire_ping_capacity_bounds (m : wire_ping_capacity_t) : Prop :=
  is_u64 (pc_message_id m) /\ is_u8 (pc_phase m) /\ node_id_bounds (pc_source m).

#[export] Instance wire_ping_capacity {C : Cbor} : WireMsg wire_ping_capacity_t := {|
  msg_type := WIRE_PING_CAPACITY; msg_encode m := Some (wire_ping_capacity_encode m); msg_decode := wire_ping_capacity_decode;
  msg_ok := wire_ping_capacity_ok; msg_bounds := wire_ping_capacity_bounds |}.

#[export] Hint Unfold wire_ping_capacity wire_ping_capacity_encode wire_ping_capacity_decode wire_ping_capacity_ok wire_ping_capacity_bounds : wire.

#[export] Instance wire_ping_capacity_laws {C : Cbor} {CL : CborLaws} : WireMsgLaws wire_ping_capacity_t.
Proof. wire_codec. Qed.

#[export] Instance wire_ping_capacity_serial {C : Cbor} {CS : CborSerial} {CSL : CborSerialLaws} : WireMsgSerial wire_ping_capacity_t.
Proof. wire_serial. Qed.

(** ** PingCapacityResponse *)

Record wire_ping_capacity_response_t := {
  pcr_message_id : Z; pcr_sender_id : node_id_t; pcr_capacity : spec_float; pcr_phase : Z
}.

Section PingCapacityResponse.
Context {C : Cbor}.

Definition wire_ping_capacity_response_encode (m : wire_ping_capacity_response_t) : cbor_item := cbor_array [
  cbor_build_uint8 WIRE_PING_CAPACITY_RESPONSE;
  _node_id_encode (pcr_sender_id m);
  cbor_build_uint64 (id_hi (pcr_message_id m));
  cbor_build_uint64 (id_lo (pcr_message_id m));
  cbor_build_float8 (double_of_float (pcr_capacity m));
  cbor_build_uint8 (pcr_phase m)].

Definition wire_ping_capacity_response_decode (item : cbor_item) : decoded wire_ping_capacity_response_t :=
  _ ← check_header item 6 WIRE_PING_CAPACITY_RESPONSE;
  sender ← array_get_node_id item 1;
  message_id ← array_get_split item 2;
  cap_val ← _array_get_float8 item 4;
  phase ← _array_get_uint8 item 5;
  DECODED {| pcr_message_id := message_id; pcr_sender_id := sender;
          pcr_capacity := float_of_double cap_val; pcr_phase := phase |}.
End PingCapacityResponse.

Definition wire_ping_capacity_response_ok (m : wire_ping_capacity_response_t) : Prop :=
  is_u64 (pcr_message_id m) /\ wf_node_id (pcr_sender_id m) /\ is_float (pcr_capacity m) = true /\
  is_u8 (pcr_phase m).

Definition wire_ping_capacity_response_bounds (m : wire_ping_capacity_response_t) : Prop :=
  is_u64 (pcr_message_id m) /\ is_u8 (pcr_phase m) /\ node_id_bounds (pcr_sender_id m).

#[export] Instance wire_ping_capacity_response {C : Cbor} : WireMsg wire_ping_capacity_response_t := {|
  msg_type := WIRE_PING_CAPACITY_RESPONSE; msg_encode m := Some (wire_ping_capacity_response_encode m); msg_decode := wire_ping_capacity_response_decode;
  msg_ok := wire_ping_capacity_response_ok; msg_bounds := wire_ping_capacity_response_bounds |}.

#[export] Hint Unfold wire_ping_capacity_response wire_ping_capacity_response_encode wire_ping_capacity_response_decode wire_ping_capacity_response_ok wire_ping_capacity_response_bounds : wire.

#[export] Instance wire_ping_capacity_response_laws {C : Cbor} {CL : CborLaws} : WireMsgLaws wire_ping_capacity_response_t.
Proof. wire_codec. Qed.

#[export] Instance wire_ping_capacity_response_serial {C : Cbor} {CS : CborSerial} {CSL : CborSerialLaws} : WireMsgSerial wire_ping_capacity_response_t.
Proof. wire_serial. Qed.

(** ** PingBlock: the message id is a nested array *)

Record wire_ping_block_t := { pb_message_id : Z; pb_sender_id : node_id_t; pb_block_hash : bytes }.

Section PingBlock.
Context {C : Cbor}.

Definition wire_ping_block_encode (m : wire_ping_block_t) : cbor_item := cbor_array [
  cbor_build_uint8 WIRE_PING_BLOCK;
  _node_id_encode (pb_sender_id m);
  cbor_array [cbor_build_uint64 (id_hi (pb_message_id m)); cbor_build_uint64 (id_lo (pb_message_id m))];
  cbor_build_bytestring (pb_block_hash m)].

Definition wire_ping_block_decode (item : cbor_item) : decoded wire_ping_block_t :=
  _ ← check_header item 4 WIRE_PING_BLOCK;
  sender ← array_get_node_id item 1;
  id_arr ← array_get item 2;
  message_id ← if cbor_isa_array id_arr && (2 <=? cbor_array_size id_arr)%nat
               then array_get_split id_arr 0 else REJECTED;
  block_hash ← array_get_sized item 3 32;
  DECODED {| pb_message_id := message_id; pb_sender_id := sender; pb_block_hash := block_hash |}.
End PingBlock.

Definition wire_ping_block_ok (m : wire_ping_block_t) : Prop :=
  is_u64 (pb_message_id m) /\ wf_node_id (pb_sender_id m) /\
  length (pb_block_hash m) = 32%nat /\ is_bytes (pb_block_hash m).

Definition wire_ping_block_bounds (m : wire_ping_block_t) : Prop :=
  is_u64 (pb_message_id m) /\ node_id_bounds (pb_sender_id m) /\ length (pb_block_hash m) = 32%nat.

#[export] Instance wire_ping_block {C : Cbor} : WireMsg wire_ping_block_t := {|
  msg_type := WIRE_PING_BLOCK; msg_encode m := Some (wire_ping_block_encode m); msg_decode := wire_ping_block_decode;
  msg_ok := wire_ping_block_ok; msg_bounds := wire_ping_block_bounds |}.

#[export] Hint Unfold wire_ping_block wire_ping_block_encode wire_ping_block_decode wire_ping_block_ok wire_ping_block_bounds : wire.

#[export] Instance wire_ping_block_laws {C : Cbor} {CL : CborLaws} : WireMsgLaws wire_ping_block_t.
Proof.
  split; [wire_type|wire_encodes| |wire_bounds|wire_types].
  intros m item H; wire_unfold; intros [= <-]; destruct_and? H. repeat wire_get.
  erewrite array_get_at by reflexivity. cbn [mbind decoded_bind].
  unfold cbor_isa_array, cbor_array_size. rewrite typeof_array, array_items. simpl. wire_roundtrip m.
Qed.

#[export] Instance wire_ping_block_serial {C : Cbor} {CS : CborSerial} {CSL : CborSerialLaws} :
  WireMsgSerial wire_ping_block_t.
Proof. wire_serial. Qed.

(** ** PingBlockResponse *)

Record wire_ping_block_response_t := {
  pbr_message_id : Z; pbr_sender_id : node_id_t; pbr_exists : Z; pbr_fib : Z; pbr_healthy : Z
}.

Section PingBlockResponse.
Context {C : Cbor}.

Definition wire_ping_block_response_encode (m : wire_ping_block_response_t) : cbor_item := cbor_array [
  cbor_build_uint8 WIRE_PING_BLOCK_RESPONSE;
  _node_id_encode (pbr_sender_id m);
  cbor_build_uint64 (id_hi (pbr_message_id m));
  cbor_build_uint64 (id_lo (pbr_message_id m));
  cbor_build_uint8 (pbr_exists m);
  cbor_build_uint32 (pbr_fib m);
  cbor_build_uint8 (pbr_healthy m)].

Definition wire_ping_block_response_decode (item : cbor_item) : decoded wire_ping_block_response_t :=
  _ ← check_header item 7 WIRE_PING_BLOCK_RESPONSE;
  sender ← array_get_node_id item 1;
  message_id ← array_get_split item 2;
  exists_ ← _array_get_uint8 item 4;
  fib ← _array_get_uint32 item 5;
  healthy ← _array_get_uint8 item 6;
  DECODED {| pbr_message_id := message_id; pbr_sender_id := sender; pbr_exists := exists_; pbr_fib := fib;
          pbr_healthy := healthy |}.
End PingBlockResponse.

Definition wire_ping_block_response_ok (m : wire_ping_block_response_t) : Prop :=
  is_u64 (pbr_message_id m) /\ wf_node_id (pbr_sender_id m) /\ is_u8 (pbr_exists m) /\ is_u32 (pbr_fib m) /\
  is_u8 (pbr_healthy m).

Definition wire_ping_block_response_bounds (m : wire_ping_block_response_t) : Prop :=
  is_u64 (pbr_message_id m) /\ is_u8 (pbr_exists m) /\ is_u32 (pbr_fib m) /\ is_u8 (pbr_healthy m) /\
  node_id_bounds (pbr_sender_id m).

#[export] Instance wire_ping_block_response {C : Cbor} : WireMsg wire_ping_block_response_t := {|
  msg_type := WIRE_PING_BLOCK_RESPONSE; msg_encode m := Some (wire_ping_block_response_encode m); msg_decode := wire_ping_block_response_decode;
  msg_ok := wire_ping_block_response_ok; msg_bounds := wire_ping_block_response_bounds |}.

#[export] Hint Unfold wire_ping_block_response wire_ping_block_response_encode wire_ping_block_response_decode wire_ping_block_response_ok wire_ping_block_response_bounds : wire.

#[export] Instance wire_ping_block_response_laws {C : Cbor} {CL : CborLaws} : WireMsgLaws wire_ping_block_response_t.
Proof. wire_codec. Qed.

#[export] Instance wire_ping_block_response_serial {C : Cbor} {CS : CborSerial} {CSL : CborSerialLaws} : WireMsgSerial wire_ping_block_response_t.
Proof. wire_serial. Qed.

(** ** FindNode *)

Record wire_find_node_t := { fn_message_id : Z; fn_sender_id : node_id_t; fn_target_id : node_id_t }.

Section FindNode.
Context {C : Cbor}.

Definition wire_find_node_encode (m : wire_find_node_t) : cbor_item := cbor_array [
  cbor_build_uint8 WIRE_FIND_NODE;
  _node_id_encode (fn_sender_id m);
  cbor_build_uint64 (id_hi (fn_message_id m));
  cbor_build_uint64 (id_lo (fn_message_id m));
  _node_id_encode (fn_target_id m)].

Definition wire_find_node_decode (item : cbor_item) : decoded wire_find_node_t :=
  _ ← check_header item 5 WIRE_FIND_NODE;
  sender ← array_get_node_id item 1;
  message_id ← array_get_split item 2;
  target ← array_get_node_id item 4;
  DECODED {| fn_message_id := message_id; fn_sender_id := sender; fn_target_id := target |}.
End FindNode.

Definition wire_find_node_ok (m : wire_find_node_t) : Prop :=
  is_u64 (fn_message_id m) /\ wf_node_id (fn_sender_id m) /\ wf_node_id (fn_target_id m).

Definition wire_find_node_bounds (m : wire_find_node_t) : Prop :=
  is_u64 (fn_message_id m) /\ node_id_bounds (fn_sender_id m) /\ node_id_bounds (fn_target_id m).

#[export] Instance wire_find_node {C : Cbor} : WireMsg wire_find_node_t := {|
  msg_type := WIRE_FIND_NODE; msg_encode m := Some (wire_find_node_encode m); msg_decode := wire_find_node_decode;
  msg_ok := wire_find_node_ok; msg_bounds := wire_find_node_bounds |}.

#[export] Hint Unfold wire_find_node wire_find_node_encode wire_find_node_decode wire_find_node_ok wire_find_node_bounds : wire.

#[export] Instance wire_find_node_laws {C : Cbor} {CL : CborLaws} : WireMsgLaws wire_find_node_t.
Proof. wire_codec. Qed.

#[export] Instance wire_find_node_serial {C : Cbor} {CS : CborSerial} {CSL : CborSerialLaws} : WireMsgSerial wire_find_node_t.
Proof. wire_serial. Qed.

(** ** FindNodeResponse *)

Record wire_find_node_response_t := {
  fnr_message_id : Z; fnr_sender_id : node_id_t; fnr_closest_nodes : list node_id_t
}.

Section FindNodeResponse.
Context {C : Cbor}.

Definition wire_find_node_response_encode (m : wire_find_node_response_t) : cbor_item := cbor_array [
  cbor_build_uint8 WIRE_FIND_NODE_RESPONSE;
  _node_id_encode (fnr_sender_id m);
  cbor_build_uint64 (id_hi (fnr_message_id m));
  cbor_build_uint64 (id_lo (fnr_message_id m));
  encode_nodes (fnr_closest_nodes m)].

Definition wire_find_node_response_decode (item : cbor_item) : decoded wire_find_node_response_t :=
  _ ← check_header item 5 WIRE_FIND_NODE_RESPONSE;
  sender ← array_get_node_id item 1;
  message_id ← array_get_split item 2;
  nodes ← array_get_nodes item 4 8;
  DECODED {| fnr_message_id := message_id; fnr_sender_id := sender; fnr_closest_nodes := nodes |}.
End FindNodeResponse.

Definition wire_find_node_response_ok (m : wire_find_node_response_t) : Prop :=
  is_u64 (fnr_message_id m) /\ wf_node_id (fnr_sender_id m) /\ wf_nodes 8 (fnr_closest_nodes m).

Definition wire_find_node_response_bounds (m : wire_find_node_response_t) : Prop :=
  is_u64 (fnr_message_id m) /\ node_id_bounds (fnr_sender_id m) /\ nodes_bounds 8 (fnr_closest_nodes m).

#[export] Instance wire_find_node_response {C : Cbor} : WireMsg wire_find_node_response_t := {|
  msg_type := WIRE_FIND_NODE_RESPONSE; msg_encode m := Some (wire_find_node_response_encode m); msg_decode := wire_find_node_response_decode;
  msg_ok := wire_find_node_response_ok; msg_bounds := wire_find_node_response_bounds |}.

#[export] Hint Unfold wire_find_node_response wire_find_node_response_encode wire_find_node_response_decode wire_find_node_response_ok wire_find_node_response_bounds : wire.

#[export] Instance wire_find_node_response_laws {C : Cbor} {CL : CborLaws} : WireMsgLaws wire_find_node_response_t.
Proof. wire_codec. Qed.

#[export] Instance wire_find_node_response_serial {C : Cbor} {CS : CborSerial} {CSL : CborSerialLaws} : WireMsgSerial wire_find_node_response_t.
Proof. wire_serial. Qed.

(** ** RateLimited *)

Record wire_rate_limited_t := {
  rl_message_id : Z; rl_sender_id : node_id_t; rl_type : Z; rl_retry_after_ms : Z; rl_current_limit : spec_float
}.

Section RateLimited.
Context {C : Cbor}.

Definition wire_rate_limited_encode (m : wire_rate_limited_t) : cbor_item := cbor_array [
  cbor_build_uint8 WIRE_RATE_LIMITED;
  _node_id_encode (rl_sender_id m);
  cbor_build_uint64 (id_hi (rl_message_id m));
  cbor_build_uint64 (id_lo (rl_message_id m));
  cbor_build_uint8 (rl_type m);
  cbor_build_uint32 (rl_retry_after_ms m);
  cbor_build_float8 (double_of_float (rl_current_limit m))].

Definition wire_rate_limited_decode (item : cbor_item) : decoded wire_rate_limited_t :=
  _ ← check_header item 7 WIRE_RATE_LIMITED;
  sender ← array_get_node_id item 1;
  message_id ← array_get_split item 2;
  type ← _array_get_uint8 item 4;
  retry_after_ms ← _array_get_uint32 item 5;
  limit_val ← _array_get_float8 item 6;
  DECODED {| rl_message_id := message_id; rl_sender_id := sender; rl_type := type;
          rl_retry_after_ms := retry_after_ms; rl_current_limit := float_of_double limit_val |}.
End RateLimited.

Definition wire_rate_limited_ok (m : wire_rate_limited_t) : Prop :=
  is_u64 (rl_message_id m) /\ wf_node_id (rl_sender_id m) /\ is_u8 (rl_type m) /\ is_u32 (rl_retry_after_ms m) /\
  is_float (rl_current_limit m) = true.

Definition wire_rate_limited_bounds (m : wire_rate_limited_t) : Prop :=
  is_u64 (rl_message_id m) /\ is_u8 (rl_type m) /\ is_u32 (rl_retry_after_ms m) /\ node_id_bounds (rl_sender_id m).

#[export] Instance wire_rate_limited {C : Cbor} : WireMsg wire_rate_limited_t := {|
  msg_type := WIRE_RATE_LIMITED; msg_encode m := Some (wire_rate_limited_encode m); msg_decode := wire_rate_limited_decode;
  msg_ok := wire_rate_limited_ok; msg_bounds := wire_rate_limited_bounds |}.

#[export] Hint Unfold wire_rate_limited wire_rate_limited_encode wire_rate_limited_decode wire_rate_limited_ok wire_rate_limited_bounds : wire.

#[export] Instance wire_rate_limited_laws {C : Cbor} {CL : CborLaws} : WireMsgLaws wire_rate_limited_t.
Proof. wire_codec. Qed.

#[export] Instance wire_rate_limited_serial {C : Cbor} {CS : CborSerial} {CSL : CborSerialLaws} : WireMsgSerial wire_rate_limited_t.
Proof. wire_serial. Qed.

(** ** Salutation: the key comes with a declared length, which must agree with
    the key unless the key is absent *)

Record wire_salutation_t := { sal_sender_id : node_id_t; sal_public_key : bytes }.

Section Salutation.
Context {C : Cbor}.

Definition wire_salutation_encode (m : wire_salutation_t) : cbor_item := cbor_array [
  cbor_build_uint8 WIRE_SALUTATION;
  _node_id_encode (sal_sender_id m);
  cbor_build_bytestring (sal_public_key m);
  cbor_build_uint64 (Z.of_nat (length (sal_public_key m)))].

Definition wire_salutation_decode (item : cbor_item) : decoded wire_salutation_t :=
  _ ← check_header item 4 WIRE_SALUTATION;
  sender ← array_get_node_id item 1;
  public_key ← array_get_data item 2;
  declared_len ← _array_get_int item 3;
  let public_key_len := Z.of_nat (length public_key) in
  if negb (public_key_len =? 0) && negb (declared_len =? public_key_len) then REJECTED
  else DECODED {| sal_sender_id := sender; sal_public_key := public_key |}.
End Salutation.

Definition wire_salutation_ok (m : wire_salutation_t) : Prop :=
  wf_node_id (sal_sender_id m) /\ is_buffer (sal_public_key m).

Definition wire_salutation_bounds (m : wire_salutation_t) : Prop :=
  node_id_bounds (sal_sender_id m).

#[export] Instance wire_salutation {C : Cbor} : WireMsg wire_salutation_t := {|
  msg_type := WIRE_SALUTATION; msg_encode m := Some (wire_salutation_encode m); msg_decode := wire_salutation_decode;
  msg_ok := wire_salutation_ok; msg_bounds := wire_salutation_bounds |}.

#[export] Hint Unfold wire_salutation wire_salutation_encode wire_salutation_decode wire_salutation_ok wire_salutation_bounds : wire.

#[export] Instance wire_salutation_laws {C : Cbor} {CL : CborLaws} : WireMsgLaws wire_salutation_t.
Proof.
  split; [wire_type|wire_encodes| | |wire_types].
  - intros m item H; wire_unfold; intros [= <-]; destruct_and? H.
    repeat wire_get. rewrite Z.eqb_refl, andb_false_r. by destruct m.
  - intros item m H; wire_unfold; wire_inv H. case_match; [done|]. simplify_eq. by wire_facts.
Qed.

#[export] Instance wire_salutation_serial {C : Cbor} {CS : CborSerial} {CSL : CborSerialLaws} :
  WireMsgSerial wire_salutation_t.
Proof. wire_serial. Qed.
