(* ===== verification/WireBlock.v ===== *)
(** * WireBlock: the block exchange messages of the wire protocol

    Models the codecs of src/src/Network/wire.c for FindBlock,
    FindBlockResponse, StoreBlock, StoreBlockResponse, SeekingBlocks,
    SeekingBlocksResponse, RankBlock, RecallBlock, RecallAccept and
    RecallDecline.  A block payload is present in the long form of a message
    only; [[]] stands for the null pointer of a message without one. *)

From S2P Require Import Prelude Cbor WireBase.
Local Open Scope Z_scope.

(** A 32-byte hash, left cleared when the element is not one. *)
Definition array_get_hash_or_zero {C : Cbor} (item : cbor_item) (k : nat) : decoded bytes :=
  hash ← array_get item k;
  DECODED (if cbor_isa_bytestring hash && (cbor_bytestring_length hash =? 32)%nat
           then cbor_bytestring_handle hash else replicate 32 0).

Lemma array_get_hash_or_zero_at {C : Cbor} {CL : CborLaws} l k b :
  l !! k = Some (cbor_build_bytestring b) -> length b = 32%nat ->
  array_get_hash_or_zero (cbor_array l) k = DECODED b.
Proof.
  intros Hk Hb. unfold array_get_hash_or_zero. rewrite (array_get_at l k _ Hk). simpl. cbor_simp. by rewrite Hb.
Qed.

Lemma array_get_hash_or_zero_bounds {C : Cbor} item k b :
  array_get_hash_or_zero item k = DECODED b -> length b = 32%nat.
Proof.
  intros H. apply bind_DECODED in H as (i & _ & H). simplify_eq. destruct (cbor_isa_bytestring i); [|done].
  simpl. by destruct (Nat.eqb_spec (cbor_bytestring_length i) 32).
Qed.

(** ** FindBlock *)

Record wire_find_block_t := {
  fb_message_id : Z; fb_block_hash : bytes; fb_ttl : Z; fb_visited_bloom : bytes; fb_visited_count : Z;
  fb_path : list node_id_t; fb_start_time : Z; fb_original_source : node_id_t; fb_verify_only : Z
}.

Section FindBlock.
Context {C : Cbor}.

Definition wire_find_block_encode (m : wire_find_block_t) : cbor_item := cbor_array [
  cbor_build_uint8 WIRE_FIND_BLOCK;
  cbor_build_uint64 (id_hi (fb_message_id m));
  cbor_build_uint64 (id_lo (fb_message_id m));
  cbor_build_bytestring (fb_block_hash m);
  cbor_build_uint8 (fb_ttl m);
  cbor_build_bytestring (fb_visited_bloom m);
  cbor_build_uint16 (fb_visited_count m);
  encode_nodes (fb_path m);
  cbor_build_uint64 (fb_start_time m);
  _node_id_encode (fb_original_source m);
  cbor_build_uint8 (fb_verify_only m)].

(** Peers that predate the verify-only field send ten elements. *)
Definition wire_find_block_decode (item : cbor_item) : decoded wire_find_block_t :=
  _ ← check_header item 10 WIRE_FIND_BLOCK;
  message_id ← array_get_split item 1;
  block_hash ← array_get_sized item 3 32;
  ttl ← _array_get_uint8 item 4;
  visited_bloom ← array_get_sized item 5 WIRE_MAX_VISITED_BLOOM;
  visited_count ← _array_get_uint16 item 6;
  path ← array_get_nodes item 7 WIRE_MAX_PATH;
  start_time ← _array_get_int item 8;
  source ← array_get_node_id item 9;
  verify_only ← (if (11 <=? cbor_array_size item)%nat then or_cleared 0 (_array_get_uint8 item 10) else DECODED 0);
  DECODED {| fb_message_id := message_id; fb_block_hash := block_hash; fb_ttl := ttl;
          fb_visited_bloom := visited_bloom; fb_visited_count := visited_count; fb_path := path;
          fb_start_time := start_time; fb_original_source := source; fb_verify_only := verify_only |}.
End FindBlock.

Definition wire_find_block_ok (m : wire_find_block_t) : Prop :=
  is_u64 (fb_message_id m) /\ length (fb_block_hash m) = 32%nat /\ is_bytes (fb_block_hash m) /\
  is_u8 (fb_ttl m) /\ length (fb_visited_bloom m) = WIRE_MAX_VISITED_BLOOM /\ is_bytes (fb_visited_bloom m) /\
  is_u16 (fb_visited_count m) /\ wf_nodes WIRE_MAX_PATH (fb_path m) /\ is_u64 (fb_start_time m) /\
  wf_node_id (fb_original_source m) /\ is_u8 (fb_verify_only m).

Definition wire_find_block_bounds (m : wire_find_block_t) : Prop :=
  is_u64 (fb_message_id m) /\ is_u8 (fb_ttl m) /\ is_u16 (fb_visited_count m) /\ is_u64 (fb_start_time m) /\
  is_u8 (fb_verify_only m) /\ length (fb_block_hash m) = 32%nat /\
  length (fb_visited_bloom m) = WIRE_MAX_VISITED_BLOOM /\ nodes_bounds WIRE_MAX_PATH (fb_path m) /\
  node_id_bounds (fb_original_source m).

#[export] Instance wire_find_block {C : Cbor} : WireMsg wire_find_block_t := {|
  msg_type := WIRE_FIND_BLOCK; msg_encode m := Some (wire_find_block_encode m); msg_decode := wire_find_block_decode;
  msg_ok := wire_find_block_ok; msg_bounds := wire_find_block_bounds |}.

#[export] Hint Unfold wire_find_block wire_find_block_encode wire_find_block_decode wire_find_block_ok wire_find_block_bounds : wire.

#[export] Instance wire_find_block_laws {C : Cbor} {CL : CborLaws} : WireMsgLaws wire_find_block_t.
Proof.
  split; [wire_type|wire_encodes| |wire_bounds|wire_types].
  intros m item H; wire_unfold; intros [= <-]; destruct_and? H.
  unfold cbor_array_size. rewrite array_items. cbn [length Nat.leb]. wire_roundtrip m.
Qed.

#[export] Instance wire_find_block_serial {C : Cbor} {CS : CborSerial} {CSL : CborSerialLaws} :
  WireMsgSerial wire_find_block_t.
Proof. wire_serial. Qed.

(** ** FindBlockResponse *)

Record wire_find_block_response_t := {
  fbr_message_id : Z; fbr_block_hash : bytes; fbr_found : Z; fbr_holder : node_id_t; fbr_fib : Z;
  fbr_path : list node_id_t; fbr_latency_ms : Z; fbr_block_data : bytes; fbr_block_fib : Z
}.

Section FindBlockResponse.
Context {C : Cbor}.

Definition wire_find_block_response_encode (m : wire_find_block_response_t) : cbor_item :=
  let has_block_data := negb (fbr_found m =? 0) && (0 <? length (fbr_block_data m))%nat in
  cbor_array ([
    cbor_build_uint8 WIRE_FIND_BLOCK_RESPONSE;
    cbor_build_uint64 (id_hi (fbr_message_id m));
    cbor_build_uint64 (id_lo (fbr_message_id m));
    cbor_build_bytestring (fbr_block_hash m);
    cbor_build_uint8 (fbr_found m);
    _node_id_encode (fbr_holder m);
    cbor_build_uint32 (fbr_fib m);
    encode_nodes (fbr_path m);
    cbor_build_uint64 (fbr_latency_ms m)] ++
   if has_block_data then [
    cbor_build_bytestring (fbr_block_data m);
    cbor_build_uint64 (Z.of_nat (length (fbr_block_data m)));
    cbor_build_uint32 (fbr_block_fib m)] else []).

(** The declared length is discarded: the bytestring's own is used. *)
Definition wire_find_block_response_decode (item : cbor_item) : decoded wire_find_block_response_t :=
  _ ← check_header item 9 WIRE_FIND_BLOCK_RESPONSE;
  message_id ← array_get_split item 1;
  block_hash ← array_get_sized item 3 32;
  found ← _array_get_uint8 item 4;
  holder ← array_get_node_id item 5;
  fib ← _array_get_uint32 item 6;
  path ← array_get_nodes item 7 WIRE_MAX_PATH;
  latency_ms ← _array_get_int item 8;
  let msg data block_fib := {|
    fbr_message_id := message_id; fbr_block_hash := block_hash; fbr_found := found; fbr_holder := holder;
    fbr_fib := fib; fbr_path := path; fbr_latency_ms := latency_ms; fbr_block_data := data;
    fbr_block_fib := block_fib |} in
  if (12 <=? cbor_array_size item)%nat then
    data ← array_get_data item 9;
    block_fib ← _array_get_uint32 item 11;
    DECODED (msg data block_fib)
  else DECODED (msg [] 0).
End FindBlockResponse.

(** A message without block data carries no block rank. *)
Definition wire_find_block_response_ok (m : wire_find_block_response_t) : Prop :=
  is_u64 (fbr_message_id m) /\ length (fbr_block_hash m) = 32%nat /\ is_bytes (fbr_block_hash m) /\
  is_u8 (fbr_found m) /\ wf_node_id (fbr_holder m) /\ is_u32 (fbr_fib m) /\ wf_nodes WIRE_MAX_PATH (fbr_path m) /\
  is_u64 (fbr_latency_ms m) /\ is_buffer (fbr_block_data m) /\ is_u32 (fbr_block_fib m) /\
  (fbr_found m = 0 -> fbr_block_data m = []) /\ (fbr_block_data m = [] -> fbr_block_fib m = 0).

Definition wire_find_block_response_bounds (m : wire_find_block_response_t) : Prop :=
  is_u64 (fbr_message_id m) /\ is_u8 (fbr_found m) /\ is_u32 (fbr_fib m) /\ is_u64 (fbr_latency_ms m) /\
  is_u32 (fbr_block_fib m) /\ length (fbr_block_hash m) = 32%nat /\ node_id_bounds (fbr_holder m) /\
  nodes_bounds WIRE_MAX_PATH (fbr_path m).

#[export] Instance wire_find_block_response {C : Cbor} : WireMsg wire_find_block_response_t := {|
  msg_type := WIRE_FIND_BLOCK_RESPONSE; msg_encode m := Some (wire_find_block_response_encode m); msg_decode := wire_find_block_response_decode;
  msg_ok := wire_find_block_response_ok; msg_bounds := wire_find_block_response_bounds |}.

#[export] Hint Unfold wire_find_block_response wire_find_block_response_encode wire_find_block_response_decode wire_find_block_response_ok wire_find_block_response_bounds : wire.

(** The two forms of a message with an optional payload. *)
Lemma has_data_cases (found : Z) (data : bytes) :
  (found = 0 -> data = []) ->
  negb (found =? 0) && (0 <? length data)%nat = bool_decide (data <> []).
Proof.
  intros H. destruct (Z.eqb_spec found 0) as [->|]; simpl; [by rewrite H|]. by destruct data.
Qed.

#[export] Instance wire_find_block_response_laws {C : Cbor} {CL : CborLaws} :
  WireMsgLaws wire_find_block_response_t.
Proof.
  split; [wire_type|wire_encodes| | |wire_types].
  - intros m item H; wire_unfold; intros [= <-]; destruct_and? H.
    rewrite has_data_cases by done. unfold cbor_array_size. rewrite array_items.
    case_bool_decide as Hd; cbn [app length Nat.leb]; repeat wire_get; [by destruct m|].
    destruct m; simpl in *. subst. do 2 f_equal. symmetry. auto.
  - intros item m H; wire_unfold; wire_inv H. case_match; wire_inv H; simplify_eq; wire_facts; simpl; wire_conj.
Qed.

#[export] Instance wire_find_block_response_serial {C : Cbor} {CS : CborSerial} {CSL : CborSerialLaws} :
  WireMsgSerial wire_find_block_response_t.
Proof.
  intros m item H; wire_unfold; intros [= <-]; destruct_and? H.
  case_match; cbn [app]; wire_item.
Qed.

(** ** StoreBlock *)

Record wire_store_block_t := {
  sb_message_id : Z; sb_block_hash : bytes; sb_block_size : Z; sb_block_fib : Z; sb_replicas_needed : Z;
  sb_max_hops : Z; sb_visited_bloom : bytes; sb_visited_count : Z; sb_path : list node_id_t; sb_start_time : Z;
  sb_carry_data : Z; sb_block_data : bytes
}.

Section StoreBlock.
Context {C : Cbor}.

Definition wire_store_block_encode (m : wire_store_block_t) : cbor_item := cbor_array [
  cbor_build_uint8 WIRE_STORE_BLOCK;
  cbor_build_uint64 (id_hi (sb_message_id m));
  cbor_build_uint64 (id_lo (sb_message_id m));
  cbor_build_bytestring (sb_block_hash m);
  cbor_build_uint32 (sb_block_size m);
  cbor_build_uint32 (sb_block_fib m);
  cbor_build_uint8 (sb_replicas_needed m);
  cbor_build_uint8 (sb_max_hops m);
  cbor_build_bytestring (sb_visited_bloom m);
  cbor_build_uint16 (sb_visited_count m);
  encode_nodes (sb_path m);
  cbor_build_uint64 (sb_start_time m);
  cbor_build_uint8 (sb_carry_data m);
  cbor_build_bytestring (if negb (sb_carry_data m =? 0) && (0 <? length (sb_block_data m))%nat
                         then sb_block_data m else [])].

Definition wire_store_block_decode (item : cbor_item) : decoded wire_store_block_t :=
  _ ← check_header item 14 WIRE_STORE_BLOCK;
  message_id ← array_get_split item 1;
  block_hash ← array_get_sized item 3 32;
  block_size ← _array_get_uint32 item 4;
  block_fib ← _array_get_uint32 item 5;
  replicas_needed ← _array_get_uint8 item 6;
  max_hops ← _array_get_uint8 item 7;
  visited_bloom ← array_get_sized item 8 WIRE_MAX_VISITED_BLOOM;
  visited_count ← _array_get_uint16 item 9;
  path ← array_get_nodes item 10 WIRE_MAX_PATH;
  start_time ← _array_get_int item 11;
  carry_data ← _array_get_uint8 item 12;
  data ← array_get_data item 13;
  DECODED {| sb_message_id := message_id; sb_block_hash := block_hash; sb_block_size := block_size;
          sb_block_fib := block_fib; sb_replicas_needed := replicas_needed; sb_max_hops := max_hops;
          sb_visited_bloom := visited_bloom; sb_visited_count := visited_count; sb_path := path;
          sb_start_time := start_time; sb_carry_data := carry_data; sb_block_data := data |}.
End StoreBlock.

(** Data is sent only with the flag. *)
Definition wire_store_block_ok (m : wire_store_block_t) : Prop :=
  is_u64 (sb_message_id m) /\ length (sb_block_hash m) = 32%nat /\ is_bytes (sb_block_hash m) /\
  is_u32 (sb_block_size m) /\ is_u32 (sb_block_fib m) /\ is_u8 (sb_replicas_needed m) /\ is_u8 (sb_max_hops m) /\
  length (sb_visited_bloom m) = WIRE_MAX_VISITED_BLOOM /\ is_bytes (sb_visited_bloom m) /\
  is_u16 (sb_visited_count m) /\ wf_nodes WIRE_MAX_PATH (sb_path m) /\ is_u64 (sb_start_time m) /\
  is_u8 (sb_carry_data m) /\ is_buffer (sb_block_data m) /\ (sb_carry_data m = 0 -> sb_block_data m = []).

Definition wire_store_block_bounds (m : wire_store_block_t) : Prop :=
  is_u64 (sb_message_id m) /\ is_u32 (sb_block_size m) /\ is_u32 (sb_block_fib m) /\ is_u8 (sb_replicas_needed m) /\
  is_u8 (sb_max_hops m) /\ is_u16 (sb_visited_count m) /\ is_u64 (sb_start_time m) /\ is_u8 (sb_carry_data m) /\
  length (sb_block_hash m) = 32%nat /\ length (sb_visited_bloom m) = WIRE_MAX_VISITED_BLOOM /\
  nodes_bounds WIRE_MAX_PATH (sb_path m).

#[export] Instance wire_store_block {C : Cbor} : WireMsg wire_store_block_t := {|
  msg_type := WIRE_STORE_BLOCK; msg_encode m := Some (wire_store_block_encode m); msg_decode := wire_store_block_decode;
  msg_ok := wire_store_block_ok; msg_bounds := wire_store_block_bounds |}.

#[export] Hint Unfold wire_store_block wire_store_block_encode wire_store_block_decode wire_store_block_ok wire_store_block_bounds : wire.

Lemma sent_data (flag : Z) (data : bytes) :
  (flag = 0 -> data = []) -> (if negb (flag =? 0) && (0 <? length data)%nat then data else []) = data.
Proof. intros H. rewrite has_data_cases by done. by case_bool_decide. Qed.

#[export] Instance wire_store_block_laws {C : Cbor} {CL : CborLaws} : WireMsgLaws wire_store_block_t.
Proof.
  split; [wire_type|wire_encodes| |wire_bounds|wire_types].
  intros m item H; wire_unfold; intros [= <-]; destruct_and? H. rewrite sent_data by done. wire_roundtrip m.
Qed.

#[export] Instance wire_store_block_serial {C : Cbor} {CS : CborSerial} {CSL : CborSerialLaws} :
  WireMsgSerial wire_store_block_t.
Proof.
  intros m item H; wire_unfold; intros [= <-]; destruct_and? H. rewrite sent_data by done. wire_item.
Qed.

(** ** StoreBlockResponse *)

Record wire_store_block_response_t := {
  sbr_message_id : Z; sbr_accepted : Z; sbr_holder : node_id_t; sbr_replicas_remaining : Z;
  sbr_path : list node_id_t; sbr_latency_ms : Z; sbr_block_hash : bytes
}.

Section StoreBlockResponse.
Context {C : Cbor}.

Definition wire_store_block_response_encode (m : wire_store_block_response_t) : cbor_item := cbor_array [
  cbor_build_uint8 WIRE_STORE_BLOCK_RESPONSE;
  cbor_build_uint64 (id_hi (sbr_message_id m));
  cbor_build_uint64 (id_lo (sbr_message_id m));
  cbor_build_uint8 (sbr_accepted m);
  _node_id_encode (sbr_holder m);
  cbor_build_uint8 (sbr_replicas_remaining m);
  encode_nodes (sbr_path m);
  cbor_build_uint64 (sbr_latency_ms m);
  cbor_build_bytestring (sbr_block_hash m)].

Definition wire_store_block_response_decode (item : cbor_item) : decoded wire_store_block_response_t :=
  _ ← check_header item 9 WIRE_STORE_BLOCK_RESPONSE;
  message_id ← array_get_split item 1;
  accepted ← _array_get_uint8 item 3;
  holder ← array_get_node_id item 4;
  replicas_remaining ← _array_get_uint8 item 5;
  path ← array_get_nodes item 6 WIRE_MAX_PATH;
  latency_ms ← _array_get_int item 7;
  block_hash ← array_get_hash_or_zero item 8;
  DECODED {| sbr_message_id := message_id; sbr_accepted := accepted; sbr_holder := holder;
          sbr_replicas_remaining := replicas_remaining; sbr_path := path; sbr_latency_ms := latency_ms;
          sbr_block_hash := block_hash |}.
End StoreBlockResponse.

Definition wire_store_block_response_ok (m : wire_store_block_response_t) : Prop :=
  is_u64 (sbr_message_id m) /\ is_u8 (sbr_accepted m) /\ wf_node_id (sbr_holder m) /\
  is_u8 (sbr_replicas_remaining m) /\ wf_nodes WIRE_MAX_PATH (sbr_path m) /\ is_u64 (sbr_latency_ms m) /\
  length (sbr_block_hash m) = 32%nat /\ is_bytes (sbr_block_hash m).

Definition wire_store_block_response_bounds (m : wire_store_block_response_t) : Prop :=
  is_u64 (sbr_message_id m) /\ is_u8 (sbr_accepted m) /\ is_u8 (sbr_replicas_remaining m) /\
  is_u64 (sbr_latency_ms m) /\ node_id_bounds (sbr_holder m) /\ nodes_bounds WIRE_MAX_PATH (sbr_path m) /\
  length (sbr_block_hash m) = 32%nat.

#[export] Instance wire_store_block_response {C : Cbor} : WireMsg wire_store_block_response_t := {|
  msg_type := WIRE_STORE_BLOCK_RESPONSE; msg_encode m := Some (wire_store_block_response_encode m); msg_decode := wire_store_block_response_decode;
  msg_ok := wire_store_block_response_ok; msg_bounds := wire_store_block_response_bounds |}.

#[export] Hint Unfold wire_store_block_response wire_store_block_response_encode wire_store_block_response_decode wire_store_block_response_ok wire_store_block_response_bounds : wire.

#[export] Instance wire_store_block_response_laws {C : Cbor} {CL : CborLaws} :
  WireMsgLaws wire_store_block_response_t.
Proof.
  split; [wire_type|wire_encodes| | |wire_types].
  - intros m item H; wire_unfold; intros [= <-]; destruct_and? H. repeat wire_get.
    erewrite array_get_hash_or_zero_at by wire_side. by destruct m.
  - intros item m H; wire_unfold; wire_inv H; simplify_eq; wire_facts.
    simpl; wire_conj. by eapply array_get_hash_or_zero_bounds.
Qed.

#[export] Instance wire_store_block_response_serial {C : Cbor} {CS : CborSerial} {CSL : CborSerialLaws} :
  WireMsgSerial wire_store_block_response_t.
Proof. wire_serial. Qed.

(** ** SeekingBlocks *)

Record wire_seeking_blocks_t := {
  seek_message_id : Z; seek_sender_id : node_id_t; seek_capacity : spec_float; seek_exclude_hashes : list bytes
}.

Section SeekingBlocks.
Context {C : Cbor}.

Definition wire_seeking_blocks_encode (m : wire_seeking_blocks_t) : cbor_item := cbor_array [
  cbor_build_uint8 WIRE_SEEKING_BLOCKS;
  _node_id_encode (seek_sender_id m);
  cbor_build_uint64 (id_hi (seek_message_id m));
  cbor_build_uint64 (id_lo (seek_message_id m));
  cbor_build_float8 (double_of_float (seek_capacity m));
  cbor_array (map cbor_build_bytestring (seek_exclude_hashes m))].

(** The elements that are not 32-byte hashes are skipped. *)
Definition decode_hashes (item : cbor_item) : list bytes :=
  if cbor_isa_array item
  then omap (fun i => if cbor_isa_bytestring i && (cbor_bytestring_length i =? 32)%nat
                      then Some (cbor_bytestring_handle i) else None)
            (take WIRE_MAX_OFFERS (cbor_array_items item))
  else [].

Definition wire_seeking_blocks_decode (item : cbor_item) : decoded wire_seeking_blocks_t :=
  _ ← check_header item 6 WIRE_SEEKING_BLOCKS;
  sender ← array_get_node_id item 1;
  message_id ← array_get_split item 2;
  cap_val ← _array_get_float8 item 4;
  excludes ← array_get item 5;
  DECODED {| seek_message_id := message_id; seek_sender_id := sender; seek_capacity := float_of_double cap_val;
          seek_exclude_hashes := decode_hashes excludes |}.
End SeekingBlocks.

Definition hashes_bounds (l : list bytes) : Prop :=
  (length l <= WIRE_MAX_OFFERS)%nat /\ Forall (fun h => length h = 32%nat) l.

Definition wire_seeking_blocks_ok (m : wire_seeking_blocks_t) : Prop :=
  is_u64 (seek_message_id m) /\ wf_node_id (seek_sender_id m) /\ is_float (seek_capacity m) = true /\
  hashes_bounds (seek_exclude_hashes m) /\ Forall is_bytes (seek_exclude_hashes m).

Definition wire_seeking_blocks_bounds (m : wire_seeking_blocks_t) : Prop :=
  is_u64 (seek_message_id m) /\ node_id_bounds (seek_sender_id m) /\ hashes_bounds (seek_exclude_hashes m).

#[export] Instance wire_seeking_blocks {C : Cbor} : WireMsg wire_seeking_blocks_t := {|
  msg_type := WIRE_SEEKING_BLOCKS; msg_encode m := Some (wire_seeking_blocks_encode m); msg_decode := wire_seeking_blocks_decode;
  msg_ok := wire_seeking_blocks_ok; msg_bounds := wire_seeking_blocks_bounds |}.

#[export] Hint Unfold wire_seeking_blocks wire_seeking_blocks_encode wire_seeking_blocks_decode wire_seeking_blocks_ok wire_seeking_blocks_bounds : wire.

Lemma decode_hashes_encode {C : Cbor} {CL : CborLaws} l :
  hashes_bounds l -> decode_hashes (cbor_array (map cbor_build_bytestring l)) = l.
Proof.
  intros [Hl Hh]. unfold decode_hashes. cbor_simp. rewrite bool_decide_true by done.
  rewrite firstn_all2 by (by rewrite length_map). clear Hl.
  induction Hh as [|h l Hh _ IH]; [done|]. simpl. cbor_simp. rewrite bool_decide_true, Hh by done. simpl.
  f_equal. exact IH.
Qed.

Lemma decode_hashes_bounds {C : Cbor} item : hashes_bounds (decode_hashes item).
Proof.
  unfold hashes_bounds, decode_hashes. destruct (cbor_isa_array item); [|split; [simpl; lia|constructor]]. split.
  - transitivity (length (take WIRE_MAX_OFFERS (cbor_array_items item))); [|rewrite length_take; lia].
    apply length_omap_le.
  - apply Forall_forall. intros h (i & _ & Hi)%list_elem_of_omap. destruct (cbor_isa_bytestring i); [|done].
    destruct (Nat.eqb_spec (cbor_bytestring_length i) 32); [|done]. by simplify_eq/=.
Qed.

#[export] Instance wire_seeking_blocks_laws {C : Cbor} {CL : CborLaws} : WireMsgLaws wire_seeking_blocks_t.
Proof.
  split; [wire_type|wire_encodes| | |wire_types].
  - intros m item H; wire_unfold; intros [= <-]; destruct_and? H. repeat wire_get.
    erewrite array_get_at by reflexivity. cbn [mbind decoded_bind].
    rewrite decode_hashes_encode, float_double_float by done. by destruct m.
  - intros item m H; wire_unfold; wire_inv H; simplify_eq; wire_facts. simpl; wire_conj. apply decode_hashes_bounds.
Qed.

#[export] Instance wire_seeking_blocks_serial {C : Cbor} {CS : CborSerial} {CSL : CborSerialLaws} :
  WireMsgSerial wire_seeking_blocks_t.
Proof.
  intros m item H; wire_unfold; intros [= <-]; destruct_and? H.
  apply serializable_short; [|simpl; lia]. repeat constructor; try wire_item.
  match goal with Hb : hashes_bounds _, Hy : Forall is_bytes _ |- _ => destruct Hb as [Hl Hh]; rename Hy into Hbytes end.
  apply serializable_short; [|rewrite length_map; unfold WIRE_MAX_OFFERS in *; lia].
  apply Forall_fmap, Forall_forall. intros h Hin. apply serializable_buffer.
  eapply sized_buffer; [by eapply Forall_forall in Hh|done|by eapply Forall_forall in Hbytes].
Qed.

(** ** SeekingBlocksResponse *)

Record wire_block_offer_t := { offer_hash : bytes; offer_fib : Z; offer_size : Z }.

Record wire_seeking_blocks_response_t := {
  sr_message_id : Z; sr_sender_id : node_id_t; sr_offers : list wire_block_offer_t
}.

Section SeekingBlocksResponse.
Context {C : Cbor}.

Definition encode_offer (o : wire_block_offer_t) : cbor_item := cbor_array [
  cbor_build_bytestring (offer_hash o); cbor_build_uint32 (offer_fib o); cbor_build_uint32 (offer_size o)].

Definition wire_seeking_blocks_response_encode (m : wire_seeking_blocks_response_t) : cbor_item := cbor_array [
  cbor_build_uint8 WIRE_SEEKING_BLOCKS_RESPONSE;
  _node_id_encode (sr_sender_id m);
  cbor_build_uint64 (id_hi (sr_message_id m));
  cbor_build_uint64 (id_lo (sr_message_id m));
  cbor_array (map encode_offer (sr_offers m))].

(** An offer that is not an array of three elements is skipped; a field of the
    wrong type stays cleared. *)
Definition decode_offer (offer : cbor_item) : decoded wire_block_offer_t :=
  if negb (cbor_isa_array offer) || (cbor_array_size offer <? 3)%nat then REJECTED
  else
    hash ← array_get_hash_or_zero offer 0;
    fib ← or_cleared 0 (_array_get_uint32 offer 1);
    size ← or_cleared 0 (_array_get_uint32 offer 2);
    DECODED {| offer_hash := hash; offer_fib := fib; offer_size := size |}.

Definition decode_offers (item : cbor_item) : decoded (list wire_block_offer_t) :=
  if cbor_isa_array item then decode_some decode_offer (take WIRE_MAX_OFFERS (cbor_array_items item)) else DECODED [].

Definition wire_seeking_blocks_response_decode (item : cbor_item) : decoded wire_seeking_blocks_response_t :=
  _ ← check_header item 5 WIRE_SEEKING_BLOCKS_RESPONSE;
  sender ← array_get_node_id item 1;
  message_id ← array_get_split item 2;
  offers_arr ← array_get item 4;
  offers ← decode_offers offers_arr;
  DECODED {| sr_message_id := message_id; sr_sender_id := sender; sr_offers := offers |}.
End SeekingBlocksResponse.

Definition offers_bounds (l : list wire_block_offer_t) : Prop :=
  (length l <= WIRE_MAX_OFFERS)%nat /\
  Forall (fun o => length (offer_hash o) = 32%nat /\ is_u32 (offer_fib o) /\ is_u32 (offer_size o)) l.

Definition offer_ok (o : wire_block_offer_t) : Prop := is_bytes (offer_hash o).

Definition wire_seeking_blocks_response_ok (m : wire_seeking_blocks_response_t) : Prop :=
  is_u64 (sr_message_id m) /\ wf_node_id (sr_sender_id m) /\ offers_bounds (sr_offers m) /\
  Forall offer_ok (sr_offers m).

Definition wire_seeking_blocks_response_bounds (m : wire_seeking_blocks_response_t) : Prop :=
  is_u64 (sr_message_id m) /\ node_id_bounds (sr_sender_id m) /\ offers_bounds (sr_offers m).

#[export] Instance wire_seeking_blocks_response {C : Cbor} : WireMsg wire_seeking_blocks_response_t := {|
  msg_type := WIRE_SEEKING_BLOCKS_RESPONSE; msg_encode m := Some (wire_seeking_blocks_response_encode m); msg_decode := wire_seeking_blocks_response_decode;
  msg_ok := wire_seeking_blocks_response_ok; msg_bounds := wire_seeking_blocks_response_bounds |}.

#[export] Hint Unfold wire_seeking_blocks_response wire_seeking_blocks_response_encode wire_seeking_blocks_response_decode wire_seeking_blocks_response_ok wire_seeking_blocks_response_bounds : wire.

Lemma decode_offer_encode {C : Cbor} {CL : CborLaws} o :
  length (offer_hash o) = 32%nat -> is_u32 (offer_fib o) -> is_u32 (offer_size o) ->
  decode_offer (encode_offer o) = DECODED o.
Proof.
  intros Hl Hf Hs. unfold decode_offer, encode_offer, cbor_isa_array, cbor_array_size.
  rewrite typeof_array, array_items. simpl.
  erewrite array_get_hash_or_zero_at by wire_side. cbn [mbind decoded_bind]. repeat wire_get. by destruct o.
Qed.

Lemma decode_offers_encode {C : Cbor} {CL : CborLaws} l :
  offers_bounds l -> decode_offers (cbor_array (map encode_offer l)) = DECODED l.
Proof.
  intros [Hl Hh]. unfold decode_offers, cbor_isa_array. rewrite typeof_array, array_items.
  rewrite bool_decide_true by done. rewrite firstn_all2 by (by rewrite length_map).
  rewrite (decode_some_map _ _ id), map_id; [done|]. eapply Forall_impl; [exact Hh|].
  intros o (? & ? & ?). by apply decode_offer_encode.
Qed.

Lemma decode_offers_bounds {C : Cbor} {CL : CborLaws} item l : decode_offers item = DECODED l -> offers_bounds l.
Proof.
  unfold offers_bounds, decode_offers. destruct (cbor_isa_array item); [|intros [= <-]; split; [simpl; lia|constructor]].
  intros H. eapply decode_some_Forall in H as [Hl Hp].
  - split; [etrans; [exact Hl|]; rewrite length_take; lia|exact Hp].
  - intros i o Hi. unfold decode_offer in Hi. case_match; [done|].
    apply bind_DECODED in Hi as (h & Hh & Hi). apply bind_DECODED in Hi as (f & Hf & Hi).
    apply bind_DECODED in Hi as (z & Hz & Hi). simplify_eq/=.
    split_and!; [by eapply array_get_hash_or_zero_bounds|eapply (or_cleared_range is_u32); [|..|exact Hf]|
                 eapply (or_cleared_range is_u32); [|..|exact Hz]];
      try exact (array_get_uint32_range _ _); by unfold is_u32.
Qed.

#[export] Instance wire_seeking_blocks_response_laws {C : Cbor} {CL : CborLaws} :
  WireMsgLaws wire_seeking_blocks_response_t.
Proof.
  split; [wire_type|wire_encodes| | |wire_types].
  - intros m item H; wire_unfold; intros [= <-]; destruct_and? H. repeat wire_get.
    erewrite array_get_at by reflexivity. cbn [mbind decoded_bind].
    rewrite decode_offers_encode by done. by destruct m.
  - intros item m H; wire_unfold; wire_inv H; simplify_eq; wire_facts. simpl; wire_conj. by eapply decode_offers_bounds.
Qed.

#[export] Instance wire_seeking_blocks_response_serial {C : Cbor} {CS : CborSerial} {CSL : CborSerialLaws} :
  WireMsgSerial wire_seeking_blocks_response_t.
Proof.
  intros m item H; wire_unfold; intros [= <-]. destruct H as (Hm & Hs & [Hl Hh] & Ho).
  apply serializable_short; [|simpl; lia]. repeat constructor; try wire_item.
  apply serializable_short; [|rewrite length_map; unfold WIRE_MAX_OFFERS in *; lia].
  apply Forall_fmap, Forall_forall. intros o Hin. eapply Forall_forall in Hh as (Hlen & Hf & Hz); [|done].
  eapply Forall_forall in Ho as Hb; [|done]. unfold offer_ok in Hb. unfold compose, encode_offer. wire_item.
Qed.

(** ** RankBlock *)

Record wire_rank_block_t := {
  rb_block_hash : bytes; rb_fib : Z; rb_count : Z; rb_origin : node_id_t; rb_hop_count : Z;
  rb_visited_bloom : bytes; rb_visited_count : Z; rb_path : list node_id_t
}.

Section RankBlock.
Context {C : Cbor}.

Definition wire_rank_block_encode (m : wire_rank_block_t) : cbor_item := cbor_array [
  cbor_build_uint8 WIRE_RANK_BLOCK;
  cbor_build_bytestring (rb_block_hash m);
  cbor_build_uint32 (rb_fib m);
  cbor_build_uint32 (rb_count m);
  _node_id_encode (rb_origin m);
  cbor_build_uint8 (rb_hop_count m);
  cbor_build_bytestring (rb_visited_bloom m);
  cbor_build_uint16 (rb_visited_count m);
  encode_nodes (rb_path m);
  cbor_build_uint8 (Z.of_nat (length (rb_path m)))].

(** The old format has six elements: no filter and no path. *)
Definition wire_rank_block_decode (item : cbor_item) : decoded wire_rank_block_t :=
  _ ← check_header item 6 WIRE_RANK_BLOCK;
  block_hash ← array_get_sized item 1 32;
  fib ← _array_get_uint32 item 2;
  count ← _array_get_uint32 item 3;
  origin ← array_get_node_id item 4;
  hop_count ← _array_get_uint8 item 5;
  let msg bloom vcount path := {|
    rb_block_hash := block_hash; rb_fib := fib; rb_count := count; rb_origin := origin; rb_hop_count := hop_count;
    rb_visited_bloom := bloom; rb_visited_count := vcount; rb_path := path |} in
  if (10 <=? cbor_array_size item)%nat then
    bloom ← array_get_sized item 6 WIRE_MAX_VISITED_BLOOM;
    vcount ← _array_get_uint16 item 7;
    path ← array_get_nodes item 8 WIRE_MAX_PATH;
    wire_path_len ← _array_get_uint8 item 9;
    DECODED (msg bloom vcount (take (Z.to_nat wire_path_len) path))
  else DECODED (msg (replicate WIRE_MAX_VISITED_BLOOM 0) 0 []).
End RankBlock.

Definition wire_rank_block_ok (m : wire_rank_block_t) : Prop :=
  length (rb_block_hash m) = 32%nat /\ is_bytes (rb_block_hash m) /\ is_u32 (rb_fib m) /\ is_u32 (rb_count m) /\
  wf_node_id (rb_origin m) /\ is_u8 (rb_hop_count m) /\
  length (rb_visited_bloom m) = WIRE_MAX_VISITED_BLOOM /\ is_bytes (rb_visited_bloom m) /\
  is_u16 (rb_visited_count m) /\ wf_nodes WIRE_MAX_PATH (rb_path m).

Definition wire_rank_block_bounds (m : wire_rank_block_t) : Prop :=
  is_u32 (rb_fib m) /\ is_u32 (rb_count m) /\ is_u8 (rb_hop_count m) /\ is_u16 (rb_visited_count m) /\
  length (rb_block_hash m) = 32%nat /\ node_id_bounds (rb_origin m) /\
  length (rb_visited_bloom m) = WIRE_MAX_VISITED_BLOOM /\ nodes_bounds WIRE_MAX_PATH (rb_path m).

#[export] Instance wire_rank_block {C : Cbor} : WireMsg wire_rank_block_t := {|
  msg_type := WIRE_RANK_BLOCK; msg_encode m := Some (wire_rank_block_encode m); msg_decode := wire_rank_block_decode;
  msg_ok := wire_rank_block_ok; msg_bounds := wire_rank_block_bounds |}.

#[export] Hint Unfold wire_rank_block wire_rank_block_encode wire_rank_block_decode wire_rank_block_ok wire_rank_block_bounds : wire.

#[export] Instance wire_rank_block_laws {C : Cbor} {CL : CborLaws} : WireMsgLaws wire_rank_block_t.
Proof.
  split; [wire_type|wire_encodes| | |wire_types].
  - intros m item H; wire_unfold; intros [= <-]; destruct_and? H.
    unfold cbor_array_size. rewrite array_items. cbn [length Nat.leb]. repeat wire_get.
    rewrite take_path_len. by destruct m.
  - intros item m H; wire_unfold; wire_inv H. case_match; wire_inv H; simplify_eq; wire_facts; simpl; wire_conj.
    + by apply take_nodes_bounds.
    + split; [simpl; lia|constructor].
Qed.

#[export] Instance wire_rank_block_serial {C : Cbor} {CS : CborSerial} {CSL : CborSerialLaws} :
  WireMsgSerial wire_rank_block_t.
Proof.
  intros m item H; wire_unfold; intros [= <-]; destruct_and? H.
  wire_item.
Qed.

(** ** RecallBlock *)

Record wire_recall_block_t := { recall_message_id : Z; recall_sender_id : node_id_t; recall_block_hash : bytes }.

Section RecallBlock.
Context {C : Cbor}.

Definition wire_recall_block_encode (m : wire_recall_block_t) : cbor_item := cbor_array [
  cbor_build_uint8 WIRE_RECALL_BLOCK;
  _node_id_encode (recall_sender_id m);
  cbor_build_uint64 (id_hi (recall_message_id m));
  cbor_build_uint64 (id_lo (recall_message_id m));
  cbor_build_bytestring (recall_block_hash m)].

Definition wire_recall_block_decode (item : cbor_item) : decoded wire_recall_block_t :=
  _ ← check_header item 5 WIRE_RECALL_BLOCK;
  sender ← array_get_node_id item 1;
  message_id ← array_get_split item 2;
  block_hash ← array_get_sized item 4 32;
  DECODED {| recall_message_id := message_id; recall_sender_id := sender; recall_block_hash := block_hash |}.
End RecallBlock.

Definition wire_recall_block_ok (m : wire_recall_block_t) : Prop :=
  is_u64 (recall_message_id m) /\ wf_node_id (recall_sender_id m) /\
  length (recall_block_hash m) = 32%nat /\ is_bytes (recall_block_hash m).

Definition wire_recall_block_bounds (m : wire_recall_block_t) : Prop :=
  is_u64 (recall_message_id m) /\ node_id_bounds (recall_sender_id m) /\ length (recall_block_hash m) = 32%nat.

#[export] Instance wire_recall_block {C : Cbor} : WireMsg wire_recall_block_t := {|
  msg_type := WIRE_RECALL_BLOCK; msg_encode m := Some (wire_recall_block_encode m); msg_decode := wire_recall_block_decode;
  msg_ok := wire_recall_block_ok; msg_bounds := wire_recall_block_bounds |}.

#[export] Hint Unfold wire_recall_block wire_recall_block_encode wire_recall_block_decode wire_recall_block_ok wire_recall_block_bounds : wire.

#[export] Instance wire_recall_block_laws {C : Cbor} {CL : CborLaws} : WireMsgLaws wire_recall_block_t.
Proof. wire_codec. Qed.

#[export] Instance wire_recall_block_serial {C : Cbor} {CS : CborSerial} {CSL : CborSerialLaws} : WireMsgSerial wire_recall_block_t.
Proof. wire_serial. Qed.

(** ** RecallAccept *)

Record wire_recall_accept_t := {
  ra_message_id : Z; ra_sender_id : node_id_t; ra_block_hash : bytes; ra_block_data : bytes; ra_block_fib : Z
}.

Section RecallAccept.
Context {C : Cbor}.

Definition wire_recall_accept_encode (m : wire_recall_accept_t) : cbor_item := cbor_array ([
  cbor_build_uint8 WIRE_RECALL_ACCEPT;
  _node_id_encode (ra_sender_id m);
  cbor_build_uint64 (id_hi (ra_message_id m));
  cbor_build_uint64 (id_lo (ra_message_id m));
  cbor_build_bytestring (ra_block_hash m)] ++
  if (0 <? length (ra_block_data m))%nat then [
    cbor_build_bytestring (ra_block_data m);
    cbor_build_uint64 (Z.of_nat (length (ra_block_data m)));
    cbor_build_uint32 (ra_block_fib m)] else []).

Definition wire_recall_accept_decode (item : cbor_item) : decoded wire_recall_accept_t :=
  _ ← check_header item 5 WIRE_RECALL_ACCEPT;
  sender ← array_get_node_id item 1;
  message_id ← array_get_split item 2;
  block_hash ← array_get_sized item 4 32;
  let msg data fib := {| ra_message_id := message_id; ra_sender_id := sender; ra_block_hash := block_hash;
                         ra_block_data := data; ra_block_fib := fib |} in
  if (8 <=? cbor_array_size item)%nat then
    data ← array_get_data item 5;
    block_fib ← _array_get_uint32 item 7;
    DECODED (msg data block_fib)
  else DECODED (msg [] 0).
End RecallAccept.

Definition wire_recall_accept_ok (m : wire_recall_accept_t) : Prop :=
  is_u64 (ra_message_id m) /\ wf_node_id (ra_sender_id m) /\ length (ra_block_hash m) = 32%nat /\
  is_bytes (ra_block_hash m) /\ is_buffer (ra_block_data m) /\ is_u32 (ra_block_fib m) /\
  (ra_block_data m = [] -> ra_block_fib m = 0).

Definition wire_recall_accept_bounds (m : wire_recall_accept_t) : Prop :=
  is_u64 (ra_message_id m) /\ is_u32 (ra_block_fib m) /\ node_id_bounds (ra_sender_id m) /\
  length (ra_block_hash m) = 32%nat.

#[export] Instance wire_recall_accept {C : Cbor} : WireMsg wire_recall_accept_t := {|
  msg_type := WIRE_RECALL_ACCEPT; msg_encode m := Some (wire_recall_accept_encode m); msg_decode := wire_recall_accept_decode;
  msg_ok := wire_recall_accept_ok; msg_bounds := wire_recall_accept_bounds |}.

#[export] Hint Unfold wire_recall_accept wire_recall_accept_encode wire_recall_accept_decode wire_recall_accept_ok wire_recall_accept_bounds : wire.

Lemma data_present (data : bytes) : (0 <? length data)%nat = bool_decide (data <> []).
Proof. by destruct data. Qed.

#[export] Instance wire_recall_accept_laws {C : Cbor} {CL : CborLaws} : WireMsgLaws wire_recall_accept_t.
Proof.
  split; [wire_type|wire_encodes| | |wire_types].
  - intros m item H; wire_unfold; intros [= <-]; destruct_and? H.
    rewrite data_present. unfold cbor_array_size. rewrite array_items.
    case_bool_decide as Hd; cbn [app length Nat.leb]; repeat wire_get; [by destruct m|].
    destruct m; simpl in *. subst. do 2 f_equal. symmetry. auto.
  - intros item m H; wire_unfold; wire_inv H. case_match; wire_inv H; simplify_eq; wire_facts; simpl; wire_conj.
Qed.

#[export] Instance wire_recall_accept_serial {C : Cbor} {CS : CborSerial} {CSL : CborSerialLaws} :
  WireMsgSerial wire_recall_accept_t.
Proof.
  intros m item H; wire_unfold; intros [= <-]; destruct_and? H. case_match; cbn [app]; wire_item.
Qed.

(** ** RecallDecline *)

Record wire_recall_decline_t := { rd_message_id : Z; rd_sender_id : node_id_t; rd_block_hash : bytes }.

Section RecallDecline.
Context {C : Cbor}.

Definition wire_recall_decline_encode (m : wire_recall_decline_t) : cbor_item := cbor_array [
  cbor_build_uint8 WIRE_RECALL_DECLINE;
  _node_id_encode (rd_sender_id m);
  cbor_build_uint64 (id_hi (rd_message_id m));
  cbor_build_uint64 (id_lo (rd_message_id m));
  cbor_build_bytestring (rd_block_hash m)].

Definition wire_recall_decline_decode (item : cbor_item) : decoded wire_recall_decline_t :=
  _ ← check_header item 5 WIRE_RECALL_DECLINE;
  sender ← array_get_node_id item 1;
  message_id ← array_get_split item 2;
  block_hash ← array_get_hash_or_zero item 4;
  DECODED {| rd_message_id := message_id; rd_sender_id := sender; rd_block_hash := block_hash |}.
End RecallDecline.

Definition wire_recall_decline_ok (m : wire_recall_decline_t) : Prop :=
  is_u64 (rd_message_id m) /\ wf_node_id (rd_sender_id m) /\
  length (rd_block_hash m) = 32%nat /\ is_bytes (rd_block_hash m).

Definition wire_recall_decline_bounds (m : wire_recall_decline_t) : Prop :=
  is_u64 (rd_message_id m) /\ node_id_bounds (rd_sender_id m) /\ length (rd_block_hash m) = 32%nat.

#[export] Instance wire_recall_decline {C : Cbor} : WireMsg wire_recall_decline_t := {|
  msg_type := WIRE_RECALL_DECLINE; msg_encode m := Some (wire_recall_decline_encode m); msg_decode := wire_recall_decline_decode;
  msg_ok := wire_recall_decline_ok; msg_bounds := wire_recall_decline_bounds |}.

#[export] Hint Unfold wire_recall_decline wire_recall_decline_encode wire_recall_decline_decode wire_recall_decline_ok wire_recall_decline_bounds : wire.

#[export] Instance wire_recall_decline_laws {C : Cbor} {CL : CborLaws} : WireMsgLaws wire_recall_decline_t.
Proof.
  split; [wire_type|wire_encodes| | |wire_types].
  - intros m item H; wire_unfold; intros [= <-]; destruct_and? H. repeat wire_get.
    erewrite array_get_hash_or_zero_at by wire_side. by destruct m.
  - intros item m H; wire_unfold; wire_inv H; simplify_eq; wire_facts.
    simpl; wire_conj. by eapply array_get_hash_or_zero_bounds.
Qed.

#[export] Instance wire_recall_decline_serial {C : Cbor} {CS : CborSerial} {CSL : CborSerialLaws} :
  WireMsgSerial wire_recall_decline_t.
Proof. wire_serial. Qed.
