(* ===== verification/WireRelay.v ===== *)
(** * WireRelay: the relay and membership messages of the wire protocol

    Models the codecs of src/src/Network/wire.c for RelaySend, RelayReceived,
    RelayChallenge, RelayChallengeResponse, RelayPunch, AddrRequest,
    AddrResponse, Gossip, GossipPull and the three anti-entropy messages.
    Messages with an address carry it twice: as the IPv4 word of the old
    format and, for IPv6 only, as a trailing element. *)

From S2P Require Import Prelude Cbor WireBase.
Local Open Scope Z_scope.

Definition RING_MAX_RINGS : nat := 10.
Definition WIRE_ANTI_ENTROPY_BLOOM_BYTES : nat := 512.
Definition WIRE_ANTI_ENTROPY_MAX_IDS : nat := 10.

(** ** RelaySend *)

Record wire_relay_send_t := { rs_src_endpoint_id : Z; rs_dest_endpoint_id : Z; rs_payload : bytes }.

Section RelaySend.
Context {C : Cbor}.

Definition wire_relay_send_encode (m : wire_relay_send_t) : cbor_item := cbor_array [
  cbor_build_uint8 WIRE_RELAY_SEND;
  cbor_build_uint32 (rs_src_endpoint_id m);
  cbor_build_uint32 (rs_dest_endpoint_id m);
  cbor_build_bytestring (rs_payload m)].

Definition wire_relay_send_decode (item : cbor_item) : decoded wire_relay_send_t :=
  _ ← check_header item 4 WIRE_RELAY_SEND;
  src ← _array_get_uint32 item 1;
  dest ← _array_get_uint32 item 2;
  payload ← array_get_data item 3;
  DECODED {| rs_src_endpoint_id := src; rs_dest_endpoint_id := dest; rs_payload := payload |}.
End RelaySend.

Definition wire_relay_send_ok (m : wire_relay_send_t) : Prop :=
  is_u32 (rs_src_endpoint_id m) /\ is_u32 (rs_dest_endpoint_id m) /\ is_buffer (rs_payload m).

Definition wire_relay_send_bounds (m : wire_relay_send_t) : Prop :=
  is_u32 (rs_src_endpoint_id m) /\ is_u32 (rs_dest_endpoint_id m).

#[export] Instance wire_relay_send {C : Cbor} : WireMsg wire_relay_send_t := {|
  msg_type := WIRE_RELAY_SEND; msg_encode m := Some (wire_relay_send_encode m); msg_decode := wire_relay_send_decode;
  msg_ok := wire_relay_send_ok; msg_bounds := wire_relay_send_bounds |}.

#[export] Hint Unfold wire_relay_send wire_relay_send_encode wire_relay_send_decode wire_relay_send_ok wire_relay_send_bounds : wire.

#[export] Instance wire_relay_send_laws {C : Cbor} {CL : CborLaws} : WireMsgLaws wire_relay_send_t.
Proof. wire_codec. Qed.

#[export] Instance wire_relay_send_serial {C : Cbor} {CS : CborSerial} {CSL : CborSerialLaws} : WireMsgSerial wire_relay_send_t.
Proof. wire_serial. Qed.

(** ** RelayReceived *)

Record wire_relay_received_t := { rr_src_endpoint_id : Z; rr_payload : bytes }.

Section RelayReceived.
Context {C : Cbor}.

Definition wire_relay_received_encode (m : wire_relay_received_t) : cbor_item := cbor_array [
  cbor_build_uint8 WIRE_RELAY_RECEIVED;
  cbor_build_uint32 (rr_src_endpoint_id m);
  cbor_build_bytestring (rr_payload m)].

Definition wire_relay_received_decode (item : cbor_item) : decoded wire_relay_received_t :=
  _ ← check_header item 3 WIRE_RELAY_RECEIVED;
  src ← _array_get_uint32 item 1;
  payload ← array_get_data item 2;
  DECODED {| rr_src_endpoint_id := src; rr_payload := payload |}.
End RelayReceived.

Definition wire_relay_received_ok (m : wire_relay_received_t) : Prop :=
  is_u32 (rr_src_endpoint_id m) /\ is_buffer (rr_payload m).

Definition wire_relay_received_bounds (m : wire_relay_received_t) : Prop :=
  is_u32 (rr_src_endpoint_id m).

#[export] Instance wire_relay_received {C : Cbor} : WireMsg wire_relay_received_t := {|
  msg_type := WIRE_RELAY_RECEIVED; msg_encode m := Some (wire_relay_received_encode m); msg_decode := wire_relay_received_decode;
  msg_ok := wire_relay_received_ok; msg_bounds := wire_relay_received_bounds |}.

#[export] Hint Unfold wire_relay_received wire_relay_received_encode wire_relay_received_decode wire_relay_received_ok wire_relay_received_bounds : wire.

#[export] Instance wire_relay_received_laws {C : Cbor} {CL : CborLaws} : WireMsgLaws wire_relay_received_t.
Proof. wire_codec. Qed.

#[export] Instance wire_relay_received_serial {C : Cbor} {CS : CborSerial} {CSL : CborSerialLaws} : WireMsgSerial wire_relay_received_t.
Proof. wire_serial. Qed.

(** ** RelayChallenge *)

Record wire_relay_challenge_t := {
  rc_challenger_id : node_id_t; rc_challenger_endpoint_id : Z; rc_nonce : bytes
}.

Section RelayChallenge.
Context {C : Cbor}.

Definition wire_relay_challenge_encode (m : wire_relay_challenge_t) : cbor_item := cbor_array [
  cbor_build_uint8 WIRE_RELAY_CHALLENGE;
  _node_id_encode (rc_challenger_id m);
  cbor_build_uint32 (rc_challenger_endpoint_id m);
  cbor_build_bytestring (rc_nonce m)].

Definition wire_relay_challenge_decode (item : cbor_item) : decoded wire_relay_challenge_t :=
  _ ← check_header item 4 WIRE_RELAY_CHALLENGE;
  challenger ← array_get_node_id item 1;
  endpoint ← _array_get_uint32 item 2;
  nonce ← array_get_sized item 3 32;
  DECODED {| rc_challenger_id := challenger; rc_challenger_endpoint_id := endpoint; rc_nonce := nonce |}.
End RelayChallenge.

Definition wire_relay_challenge_ok (m : wire_relay_challenge_t) : Prop :=
  wf_node_id (rc_challenger_id m) /\ is_u32 (rc_challenger_endpoint_id m) /\
  length (rc_nonce m) = 32%nat /\ is_bytes (rc_nonce m).

Definition wire_relay_challenge_bounds (m : wire_relay_challenge_t) : Prop :=
  is_u32 (rc_challenger_endpoint_id m) /\ node_id_bounds (rc_challenger_id m) /\ length (rc_nonce m) = 32%nat.

#[export] Instance wire_relay_challenge {C : Cbor} : WireMsg wire_relay_challenge_t := {|
  msg_type := WIRE_RELAY_CHALLENGE; msg_encode m := Some (wire_relay_challenge_encode m); msg_decode := wire_relay_challenge_decode;
  msg_ok := wire_relay_challenge_ok; msg_bounds := wire_relay_challenge_bounds |}.

#[export] Hint Unfold wire_relay_challenge wire_relay_challenge_encode wire_relay_challenge_decode wire_relay_challenge_ok wire_relay_challenge_bounds : wire.

#[export] Instance wire_relay_challenge_laws {C : Cbor} {CL : CborLaws} : WireMsgLaws wire_relay_challenge_t.
Proof. wire_codec. Qed.

#[export] Instance wire_relay_challenge_serial {C : Cbor} {CS : CborSerial} {CSL : CborSerialLaws} : WireMsgSerial wire_relay_challenge_t.
Proof. wire_serial. Qed.

(** ** RelayChallengeResponse *)

Record wire_relay_challenge_response_t := {
  rcr_responder_id : node_id_t; rcr_nonce : bytes; rcr_public_key : bytes; rcr_signature : bytes
}.

Section RelayChallengeResponse.
Context {C : Cbor}.

Definition wire_relay_challenge_response_encode (m : wire_relay_challenge_response_t) : cbor_item := cbor_array [
  cbor_build_uint8 WIRE_RELAY_CHALLENGE_RESPONSE;
  _node_id_encode (rcr_responder_id m);
  cbor_build_bytestring (rcr_nonce m);
  cbor_build_bytestring (rcr_public_key m);
  cbor_build_bytestring (rcr_signature m)].

Definition wire_relay_challenge_response_decode (item : cbor_item) : decoded wire_relay_challenge_response_t :=
  _ ← check_header item 5 WIRE_RELAY_CHALLENGE_RESPONSE;
  responder ← array_get_node_id item 1;
  nonce ← array_get_sized item 2 32;
  public_key ← _array_get_bytestring item 3;
  signature ← _array_get_bytestring item 4;
  DECODED {| rcr_responder_id := responder; rcr_nonce := nonce; rcr_public_key := public_key;
          rcr_signature := signature |}.
End RelayChallengeResponse.

Definition wire_relay_challenge_response_ok (m : wire_relay_challenge_response_t) : Prop :=
  wf_node_id (rcr_responder_id m) /\ length (rcr_nonce m) = 32%nat /\ is_bytes (rcr_nonce m) /\
  is_buffer (rcr_public_key m) /\ is_buffer (rcr_signature m).

Definition wire_relay_challenge_response_bounds (m : wire_relay_challenge_response_t) : Prop :=
  node_id_bounds (rcr_responder_id m) /\ length (rcr_nonce m) = 32%nat.

#[export] Instance wire_relay_challenge_response {C : Cbor} : WireMsg wire_relay_challenge_response_t := {|
  msg_type := WIRE_RELAY_CHALLENGE_RESPONSE; msg_encode m := Some (wire_relay_challenge_response_encode m); msg_decode := wire_relay_challenge_response_decode;
  msg_ok := wire_relay_challenge_response_ok; msg_bounds := wire_relay_challenge_response_bounds |}.

#[export] Hint Unfold wire_relay_challenge_response wire_relay_challenge_response_encode wire_relay_challenge_response_decode wire_relay_challenge_response_ok wire_relay_challenge_response_bounds : wire.

#[export] Instance wire_relay_challenge_response_laws {C : Cbor} {CL : CborLaws} : WireMsgLaws wire_relay_challenge_response_t.
Proof. wire_codec. Qed.

#[export] Instance wire_relay_challenge_response_serial {C : Cbor} {CS : CborSerial} {CSL : CborSerialLaws} : WireMsgSerial wire_relay_challenge_response_t.
Proof. wire_serial. Qed.

(** ** RelayPunch *)

Record wire_relay_punch_t := {
  punch_sender_id : node_id_t; punch_reflexive_addr : Z; punch_reflexive_port : Z; punch_reflexive6 : wire_addr_t
}.

Section RelayPunch.
Context {C : Cbor}.

Definition wire_relay_punch_encode (m : wire_relay_punch_t) : option cbor_item :=
  trailer ← addr_items (punch_reflexive6 m);
  Some (cbor_array ([
    cbor_build_uint8 WIRE_RELAY_PUNCH;
    _node_id_encode (punch_sender_id m);
    cbor_build_uint32 (punch_reflexive_addr m);
    cbor_build_uint16 (punch_reflexive_port m)] ++ trailer)).

Definition wire_relay_punch_decode (item : cbor_item) : decoded wire_relay_punch_t :=
  _ ← check_header item 4 WIRE_RELAY_PUNCH;
  sender ← array_get_node_id item 1;
  addr ← _array_get_uint32 item 2;
  port ← _array_get_uint16 item 3;
  addr6 ← array_get_addr item 4 addr;
  DECODED {| punch_sender_id := sender; punch_reflexive_addr := addr; punch_reflexive_port := port;
          punch_reflexive6 := addr6 |}.
End RelayPunch.

Definition wire_relay_punch_ok (m : wire_relay_punch_t) : Prop :=
  wf_node_id (punch_sender_id m) /\ is_u32 (punch_reflexive_addr m) /\ is_u16 (punch_reflexive_port m) /\
  wf_addr (punch_reflexive_addr m) (punch_reflexive6 m).

Definition wire_relay_punch_bounds (m : wire_relay_punch_t) : Prop :=
  is_u32 (punch_reflexive_addr m) /\ is_u16 (punch_reflexive_port m) /\ node_id_bounds (punch_sender_id m) /\
  addr_bounds (punch_reflexive6 m).

#[export] Instance wire_relay_punch {C : Cbor} : WireMsg wire_relay_punch_t := {|
  msg_type := WIRE_RELAY_PUNCH; msg_encode := wire_relay_punch_encode; msg_decode := wire_relay_punch_decode;
  msg_ok := wire_relay_punch_ok; msg_bounds := wire_relay_punch_bounds |}.

#[export] Hint Unfold wire_relay_punch wire_relay_punch_encode wire_relay_punch_decode wire_relay_punch_ok wire_relay_punch_bounds : wire.

#[export] Instance wire_relay_punch_laws {C : Cbor} {CL : CborLaws} : WireMsgLaws wire_relay_punch_t.
Proof. wire_codec_addr. Qed.

#[export] Instance wire_relay_punch_serial {C : Cbor} {CS : CborSerial} {CSL : CborSerialLaws} :
  WireMsgSerial wire_relay_punch_t.
Proof. wire_serial_addr. Qed.

(** ** AddrRequest *)

Record wire_addr_request_t := { areq_message_id : Z }.

Section AddrRequest.
Context {C : Cbor}.

Definition wire_addr_request_encode (m : wire_addr_request_t) : cbor_item := cbor_array [
  cbor_build_uint8 WIRE_ADDR_REQUEST;
  cbor_build_uint64 (id_hi (areq_message_id m));
  cbor_build_uint64 (id_lo (areq_message_id m))].

Definition wire_addr_request_decode (item : cbor_item) : decoded wire_addr_request_t :=
  _ ← check_header item 3 WIRE_ADDR_REQUEST;
  message_id ← array_get_split item 1;
  DECODED {| areq_message_id := message_id |}.
End AddrRequest.

Definition wire_addr_request_ok (m : wire_addr_request_t) : Prop := is_u64 (areq_message_id m).

Definition wire_addr_request_bounds (m : wire_addr_request_t) : Prop :=
  is_u64 (areq_message_id m).

#[export] Instance wire_addr_request {C : Cbor} : WireMsg wire_addr_request_t := {|
  msg_type := WIRE_ADDR_REQUEST; msg_encode m := Some (wire_addr_request_encode m); msg_decode := wire_addr_request_decode;
  msg_ok := wire_addr_request_ok; msg_bounds := wire_addr_request_bounds |}.

#[export] Hint Unfold wire_addr_request wire_addr_request_encode wire_addr_request_decode wire_addr_request_ok wire_addr_request_bounds : wire.

#[export] Instance wire_addr_request_laws {C : Cbor} {CL : CborLaws} : WireMsgLaws wire_addr_request_t.
Proof. wire_codec. Qed.

#[export] Instance wire_addr_request_serial {C : Cbor} {CS : CborSerial} {CSL : CborSerialLaws} : WireMsgSerial wire_addr_request_t.
Proof. wire_serial. Qed.

(** ** AddrResponse *)

Record wire_addr_response_t := {
  ares_message_id : Z; ares_endpoint_id : Z; ares_reflexive_addr : Z; ares_reflexive_port : Z;
  ares_reflexive6 : wire_addr_t
}.

Section AddrResponse.
Context {C : Cbor}.

Definition wire_addr_response_encode (m : wire_addr_response_t) : option cbor_item :=
  trailer ← addr_items (ares_reflexive6 m);
  Some (cbor_array ([
    cbor_build_uint8 WIRE_ADDR_RESPONSE;
    cbor_build_uint64 (id_hi (ares_message_id m));
    cbor_build_uint64 (id_lo (ares_message_id m));
    cbor_build_uint32 (ares_endpoint_id m);
    cbor_build_uint32 (ares_reflexive_addr m);
    cbor_build_uint16 (ares_reflexive_port m)] ++ trailer)).

Definition wire_addr_response_decode (item : cbor_item) : decoded wire_addr_response_t :=
  _ ← check_header item 6 WIRE_ADDR_RESPONSE;
  message_id ← array_get_split item 1;
  endpoint_id ← _array_get_uint32 item 3;
  addr ← _array_get_uint32 item 4;
  port ← _array_get_uint16 item 5;
  addr6 ← array_get_addr item 6 addr;
  DECODED {| ares_message_id := message_id; ares_endpoint_id := endpoint_id; ares_reflexive_addr := addr;
          ares_reflexive_port := port; ares_reflexive6 := addr6 |}.
End AddrResponse.

Definition wire_addr_response_ok (m : wire_addr_response_t) : Prop :=
  is_u64 (ares_message_id m) /\ is_u32 (ares_endpoint_id m) /\ is_u32 (ares_reflexive_addr m) /\
  is_u16 (ares_reflexive_port m) /\ wf_addr (ares_reflexive_addr m) (ares_reflexive6 m).

Definition wire_addr_response_bounds (m : wire_addr_response_t) : Prop :=
  is_u64 (ares_message_id m) /\ is_u32 (ares_endpoint_id m) /\ is_u32 (ares_reflexive_addr m) /\
  is_u16 (ares_reflexive_port m) /\ addr_bounds (ares_reflexive6 m).

#[export] Instance wire_addr_response {C : Cbor} : WireMsg wire_addr_response_t := {|
  msg_type := WIRE_ADDR_RESPONSE; msg_encode := wire_addr_response_encode; msg_decode := wire_addr_response_decode;
  msg_ok := wire_addr_response_ok; msg_bounds := wire_addr_response_bounds |}.

#[export] Hint Unfold wire_addr_response wire_addr_response_encode wire_addr_response_decode wire_addr_response_ok wire_addr_response_bounds : wire.

#[export] Instance wire_addr_response_laws {C : Cbor} {CL : CborLaws} : WireMsgLaws wire_addr_response_t.
Proof. wire_codec_addr. Qed.

#[export] Instance wire_addr_response_serial {C : Cbor} {CS : CborSerial} {CSL : CborSerialLaws} :
  WireMsgSerial wire_addr_response_t.
Proof. wire_serial_addr. Qed.

(** ** Gossip and GossipPull *)

Record wire_gossip_t := {
  gossip_message_id : Z; gossip_sender_id : node_id_t; gossip_rendezvous_addr : Z; gossip_rendezvous_port : Z;
  gossip_targets : list node_id_t; gossip_rendv6 : wire_addr_t
}.

Section Gossip.
Context {C : Cbor}.

Definition wire_gossip_encode (m : wire_gossip_t) : option cbor_item :=
  trailer ← addr_items (gossip_rendv6 m);
  Some (cbor_array ([
    cbor_build_uint8 WIRE_GOSSIP;
    cbor_build_uint64 (id_hi (gossip_message_id m));
    cbor_build_uint64 (id_lo (gossip_message_id m));
    _node_id_encode (gossip_sender_id m);
    cbor_build_uint32 (gossip_rendezvous_addr m);
    cbor_build_uint16 (gossip_rendezvous_port m);
    cbor_build_uint8 (Z.of_nat (length (gossip_targets m)));
    encode_nodes (gossip_targets m)] ++ trailer)).

(** The announced count is clamped to the array's size and to the elements sent. *)
Definition wire_gossip_decode (item : cbor_item) : decoded wire_gossip_t :=
  _ ← check_header item 8 WIRE_GOSSIP;
  message_id ← array_get_split item 1;
  sender ← array_get_node_id item 3;
  addr ← _array_get_uint32 item 4;
  port ← _array_get_uint16 item 5;
  target_count ← _array_get_uint8 item 6;
  targets ← array_get_nodes item 7 RING_MAX_RINGS;
  addr6 ← array_get_addr item 8 addr;
  DECODED {| gossip_message_id := message_id; gossip_sender_id := sender; gossip_rendezvous_addr := addr;
          gossip_rendezvous_port := port; gossip_targets := take (Z.to_nat target_count) targets;
          gossip_rendv6 := addr6 |}.
End Gossip.

Definition wire_gossip_ok (m : wire_gossip_t) : Prop :=
  is_u64 (gossip_message_id m) /\ wf_node_id (gossip_sender_id m) /\ is_u32 (gossip_rendezvous_addr m) /\
  is_u16 (gossip_rendezvous_port m) /\ wf_nodes RING_MAX_RINGS (gossip_targets m) /\
  wf_addr (gossip_rendezvous_addr m) (gossip_rendv6 m).

Definition wire_gossip_bounds (m : wire_gossip_t) : Prop :=
  is_u64 (gossip_message_id m) /\ is_u32 (gossip_rendezvous_addr m) /\ is_u16 (gossip_rendezvous_port m) /\
  node_id_bounds (gossip_sender_id m) /\ nodes_bounds RING_MAX_RINGS (gossip_targets m) /\
  addr_bounds (gossip_rendv6 m).

#[export] Instance wire_gossip {C : Cbor} : WireMsg wire_gossip_t := {|
  msg_type := WIRE_GOSSIP; msg_encode := wire_gossip_encode; msg_decode := wire_gossip_decode;
  msg_ok := wire_gossip_ok; msg_bounds := wire_gossip_bounds |}.

#[export] Hint Unfold wire_gossip wire_gossip_encode wire_gossip_decode wire_gossip_ok wire_gossip_bounds : wire.

#[export] Instance wire_gossip_laws {C : Cbor} {CL : CborLaws} : WireMsgLaws wire_gossip_t.
Proof. wire_codec_addr. Qed.

#[export] Instance wire_gossip_serial {C : Cbor} {CS : CborSerial} {CSL : CborSerialLaws} :
  WireMsgSerial wire_gossip_t.
Proof. wire_serial_addr. Qed.

Record wire_gossip_pull_t := {
  pull_message_id : Z; pull_sender_id : node_id_t; pull_rendezvous_addr : Z; pull_rendezvous_port : Z;
  pull_targets : list node_id_t; pull_rendv6 : wire_addr_t
}.

Section GossipPull.
Context {C : Cbor}.

Definition wire_gossip_pull_encode (m : wire_gossip_pull_t) : option cbor_item :=
  trailer ← addr_items (pull_rendv6 m);
  Some (cbor_array ([
    cbor_build_uint8 WIRE_GOSSIP_PULL;
    cbor_build_uint64 (id_hi (pull_message_id m));
    cbor_build_uint64 (id_lo (pull_message_id m));
    _node_id_encode (pull_sender_id m);
    cbor_build_uint32 (pull_rendezvous_addr m);
    cbor_build_uint16 (pull_rendezvous_port m);
    cbor_build_uint8 (Z.of_nat (length (pull_targets m)));
    encode_nodes (pull_targets m)] ++ trailer)).

Definition wire_gossip_pull_decode (item : cbor_item) : decoded wire_gossip_pull_t :=
  _ ← check_header item 8 WIRE_GOSSIP_PULL;
  message_id ← array_get_split item 1;
  sender ← array_get_node_id item 3;
  addr ← _array_get_uint32 item 4;
  port ← _array_get_uint16 item 5;
  target_count ← _array_get_uint8 item 6;
  targets ← array_get_nodes item 7 RING_MAX_RINGS;
  addr6 ← array_get_addr item 8 addr;
  DECODED {| pull_message_id := message_id; pull_sender_id := sender; pull_rendezvous_addr := addr;
          pull_rendezvous_port := port; pull_targets := take (Z.to_nat target_count) targets;
          pull_rendv6 := addr6 |}.
End GossipPull.

Definition wire_gossip_pull_ok (m : wire_gossip_pull_t) : Prop :=
  is_u64 (pull_message_id m) /\ wf_node_id (pull_sender_id m) /\ is_u32 (pull_rendezvous_addr m) /\
  is_u16 (pull_rendezvous_port m) /\ wf_nodes RING_MAX_RINGS (pull_targets m) /\
  wf_addr (pull_rendezvous_addr m) (pull_rendv6 m).

Definition wire_gossip_pull_bounds (m : wire_gossip_pull_t) : Prop :=
  is_u64 (pull_message_id m) /\ is_u32 (pull_rendezvous_addr m) /\ is_u16 (pull_rendezvous_port m) /\
  node_id_bounds (pull_sender_id m) /\ nodes_bounds RING_MAX_RINGS (pull_targets m) /\ addr_bounds (pull_rendv6 m).

#[export] Instance wire_gossip_pull {C : Cbor} : WireMsg wire_gossip_pull_t := {|
  msg_type := WIRE_GOSSIP_PULL; msg_encode := wire_gossip_pull_encode; msg_decode := wire_gossip_pull_decode;
  msg_ok := wire_gossip_pull_ok; msg_bounds := wire_gossip_pull_bounds |}.

#[export] Hint Unfold wire_gossip_pull wire_gossip_pull_encode wire_gossip_pull_decode wire_gossip_pull_ok wire_gossip_pull_bounds : wire.

#[export] Instance wire_gossip_pull_laws {C : Cbor} {CL : CborLaws} : WireMsgLaws wire_gossip_pull_t.
Proof. wire_codec_addr. Qed.

#[export] Instance wire_gossip_pull_serial {C : Cbor} {CS : CborSerial} {CSL : CborSerialLaws} :
  WireMsgSerial wire_gossip_pull_t.
Proof. wire_serial_addr. Qed.

(** ** Anti-entropy: digest *)

Record wire_anti_entropy_t := {
  ae_message_id : Z; ae_sender_id : node_id_t; ae_bloom : bytes; ae_member_count : Z
}.

Section AntiEntropy.
Context {C : Cbor}.

Definition wire_anti_entropy_encode (m : wire_anti_entropy_t) : cbor_item := cbor_array [
  cbor_build_uint8 WIRE_ANTI_ENTROPY;
  cbor_build_uint64 (id_hi (ae_message_id m));
  cbor_build_uint64 (id_lo (ae_message_id m));
  _node_id_encode (ae_sender_id m);
  cbor_build_bytestring (ae_bloom m);
  cbor_build_uint8 (ae_member_count m)].

Definition wire_anti_entropy_decode (item : cbor_item) : decoded wire_anti_entropy_t :=
  _ ← check_header item 6 WIRE_ANTI_ENTROPY;
  message_id ← array_get_split item 1;
  sender ← array_get_node_id item 3;
  bloom ← array_get_sized item 4 WIRE_ANTI_ENTROPY_BLOOM_BYTES;
  member_count ← _array_get_uint8 item 5;
  DECODED {| ae_message_id := message_id; ae_sender_id := sender; ae_bloom := bloom;
          ae_member_count := member_count |}.
End AntiEntropy.

Definition wire_anti_entropy_ok (m : wire_anti_entropy_t) : Prop :=
  is_u64 (ae_message_id m) /\ wf_node_id (ae_sender_id m) /\
  length (ae_bloom m) = WIRE_ANTI_ENTROPY_BLOOM_BYTES /\ is_bytes (ae_bloom m) /\ is_u8 (ae_member_count m).

Definition wire_anti_entropy_bounds (m : wire_anti_entropy_t) : Prop :=
  is_u64 (ae_message_id m) /\ is_u8 (ae_member_count m) /\ node_id_bounds (ae_sender_id m) /\
  length (ae_bloom m) = WIRE_ANTI_ENTROPY_BLOOM_BYTES.

#[export] Instance wire_anti_entropy {C : Cbor} : WireMsg wire_anti_entropy_t := {|
  msg_type := WIRE_ANTI_ENTROPY; msg_encode m := Some (wire_anti_entropy_encode m); msg_decode := wire_anti_entropy_decode;
  msg_ok := wire_anti_entropy_ok; msg_bounds := wire_anti_entropy_bounds |}.

#[export] Hint Unfold wire_anti_entropy wire_anti_entropy_encode wire_anti_entropy_decode wire_anti_entropy_ok wire_anti_entropy_bounds : wire.

#[export] Instance wire_anti_entropy_laws {C : Cbor} {CL : CborLaws} : WireMsgLaws wire_anti_entropy_t.
Proof. wire_codec. Qed.

#[export] Instance wire_anti_entropy_serial {C : Cbor} {CS : CborSerial} {CSL : CborSerialLaws} : WireMsgSerial wire_anti_entropy_t.
Proof. wire_serial. Qed.

(** ** Anti-entropy: offer and response, which share a structure *)

Record wire_anti_entropy_offer_t := {
  aeo_message_id : Z; aeo_sender_id : node_id_t; aeo_bloom : bytes; aeo_ids : list node_id_t
}.

Section AntiEntropyOffer.
Context {C : Cbor}.

Definition wire_anti_entropy_offer_encode (m : wire_anti_entropy_offer_t) : cbor_item :=
  let ids := take WIRE_ANTI_ENTROPY_MAX_IDS (aeo_ids m) in
  cbor_array [
    cbor_build_uint8 WIRE_ANTI_ENTROPY_OFFER;
    cbor_build_uint64 (id_hi (aeo_message_id m));
    cbor_build_uint64 (id_lo (aeo_message_id m));
    _node_id_encode (aeo_sender_id m);
    cbor_build_bytestring (aeo_bloom m);
    cbor_build_uint8 (Z.of_nat (length ids));
    encode_nodes ids].

Definition wire_anti_entropy_response_encode (m : wire_anti_entropy_offer_t) : cbor_item :=
  let ids := take WIRE_ANTI_ENTROPY_MAX_IDS (aeo_ids m) in
  cbor_array [
    cbor_build_uint8 WIRE_ANTI_ENTROPY_RESPONSE;
    cbor_build_uint64 (id_hi (aeo_message_id m));
    cbor_build_uint64 (id_lo (aeo_message_id m));
    _node_id_encode (aeo_sender_id m);
    cbor_build_uint8 (Z.of_nat (length ids));
    encode_nodes ids].

Definition _anti_entropy_list_decode (item : cbor_item) (type_byte : Z) (has_bloom : bool)
  : decoded wire_anti_entropy_offer_t :=
  _ ← check_header item (if has_bloom then 7 else 6) type_byte;
  message_id ← array_get_split item 1;
  sender ← array_get_node_id item 3;
  bloom ← (if has_bloom then array_get_sized item 4 WIRE_ANTI_ENTROPY_BLOOM_BYTES
           else DECODED (replicate WIRE_ANTI_ENTROPY_BLOOM_BYTES 0));
  id_count ← _array_get_uint8 item (if has_bloom then 5 else 4);
  ids ← array_get_nodes item (if has_bloom then 6 else 5) WIRE_ANTI_ENTROPY_MAX_IDS;
  DECODED {| aeo_message_id := message_id; aeo_sender_id := sender; aeo_bloom := bloom;
          aeo_ids := take (Z.to_nat id_count) ids |}.

Definition wire_anti_entropy_offer_decode (item : cbor_item) : decoded wire_anti_entropy_offer_t :=
  _anti_entropy_list_decode item WIRE_ANTI_ENTROPY_OFFER true.

Definition wire_anti_entropy_response_decode (item : cbor_item) : decoded wire_anti_entropy_offer_t :=
  _anti_entropy_list_decode item WIRE_ANTI_ENTROPY_RESPONSE false.
End AntiEntropyOffer.

Definition wire_anti_entropy_offer_ok (m : wire_anti_entropy_offer_t) : Prop :=
  is_u64 (aeo_message_id m) /\ wf_node_id (aeo_sender_id m) /\
  length (aeo_bloom m) = WIRE_ANTI_ENTROPY_BLOOM_BYTES /\ is_bytes (aeo_bloom m) /\
  wf_nodes WIRE_ANTI_ENTROPY_MAX_IDS (aeo_ids m).

Definition wire_anti_entropy_offer_bounds (m : wire_anti_entropy_offer_t) : Prop :=
  is_u64 (aeo_message_id m) /\ node_id_bounds (aeo_sender_id m) /\
  length (aeo_bloom m) = WIRE_ANTI_ENTROPY_BLOOM_BYTES /\ nodes_bounds WIRE_ANTI_ENTROPY_MAX_IDS (aeo_ids m).

#[export] Instance wire_anti_entropy_offer {C : Cbor} : WireMsg wire_anti_entropy_offer_t := {|
  msg_type := WIRE_ANTI_ENTROPY_OFFER; msg_encode m := Some (wire_anti_entropy_offer_encode m); msg_decode := wire_anti_entropy_offer_decode;
  msg_ok := wire_anti_entropy_offer_ok; msg_bounds := wire_anti_entropy_offer_bounds |}.

#[export] Hint Unfold wire_anti_entropy_offer wire_anti_entropy_offer_encode wire_anti_entropy_offer_decode wire_anti_entropy_offer_ok wire_anti_entropy_offer_bounds : wire.

#[export] Hint Unfold _anti_entropy_list_decode : wire.

#[export] Instance wire_anti_entropy_offer_laws {C : Cbor} {CL : CborLaws} : WireMsgLaws wire_anti_entropy_offer_t.
Proof.
  split; [wire_type|wire_encodes| | |wire_types].
  - intros m item H; wire_unfold; intros [= <-]; destruct_and? H.
    rewrite firstn_all2 by (match goal with W : wf_nodes _ _ |- _ => apply W end).
    repeat wire_get. rewrite take_path_len. by destruct m.
  - intros item m H; wire_unfold; wire_inv H; simplify_eq; wire_facts; simpl; wire_conj. by apply take_nodes_bounds.
Qed.

#[export] Instance wire_anti_entropy_offer_serial {C : Cbor} {CS : CborSerial} {CSL : CborSerialLaws} :
  WireMsgSerial wire_anti_entropy_offer_t.
Proof.
  intros m item H; wire_unfold; intros [= <-]; destruct_and? H.
  rewrite firstn_all2 by (match goal with W : wf_nodes _ _ |- _ => apply W end). wire_item.
Qed.

(** The response does not carry the filter: its codec is that of a structure
    whose filter is clear. *)
Record anti_entropy_response := AntiEntropyResponse { aer_msg : wire_anti_entropy_offer_t }.

Definition anti_entropy_response_ok (m : anti_entropy_response) : Prop :=
  wire_anti_entropy_offer_ok (aer_msg m) /\ aeo_bloom (aer_msg m) = replicate WIRE_ANTI_ENTROPY_BLOOM_BYTES 0.

#[export] Instance wire_anti_entropy_response {C : Cbor} : WireMsg anti_entropy_response := {|
  msg_type := WIRE_ANTI_ENTROPY_RESPONSE;
  msg_encode m := Some (wire_anti_entropy_response_encode (aer_msg m));
  msg_decode item := AntiEntropyResponse <$> wire_anti_entropy_response_decode item;
  msg_ok := anti_entropy_response_ok;
  msg_bounds m := wire_anti_entropy_offer_bounds (aer_msg m) |}.

#[export] Hint Unfold wire_anti_entropy_response wire_anti_entropy_response_encode
  wire_anti_entropy_response_decode anti_entropy_response_ok : wire.

#[export] Instance wire_anti_entropy_response_laws {C : Cbor} {CL : CborLaws} : WireMsgLaws anti_entropy_response.
Proof.
  split; [wire_type|wire_encodes| | |].
  - intros [m] item H; wire_unfold; intros [= <-]. simpl in H. destruct_and? H. simpl.
    rewrite firstn_all2 by (match goal with W : wf_nodes _ _ |- _ => apply W end).
    repeat wire_get. simpl. rewrite take_path_len. destruct m; simpl in *; by subst.
  - intros item m H; wire_unfold. apply fmap_DECODED in H as (o & H & ->). wire_inv H; simplify_eq; wire_facts.
    simpl; wire_conj. by apply take_nodes_bounds.
  - intros item m H; wire_unfold. apply fmap_DECODED in H as (o & H & _). wire_inv H.
    match goal with E : check_header _ _ _ = DECODED _ |- _ => eapply check_header_type; [|exact E]; lia end.
Qed.

#[export] Instance wire_anti_entropy_response_serial {C : Cbor} {CS : CborSerial} {CSL : CborSerialLaws} :
  WireMsgSerial anti_entropy_response.
Proof.
  intros [m] item H; wire_unfold; intros [= <-]. simpl in H. destruct_and? H. simpl.
  rewrite firstn_all2 by (match goal with W : wf_nodes _ _ |- _ => apply W end). wire_item.
Qed.
