(* ===== verification/WireClosest.v ===== *)
(** * WireClosest: the proximity routing messages of the wire protocol

    Models the codecs of src/src/Network/wire.c for ClosestNodes,
    ClosestNodesResponse, ClosestNodesProgress, MeasureNodes and
    MeasureNodesResponse.  These messages send 64-bit numbers as two 32-bit
    elements. *)

From S2P Require Import Prelude Cbor WireBase.
Local Open Scope Z_scope.

Definition CLOSEST_NODES_MAX_PATH : nat := 6.
Definition CLOSEST_NODES_MAX_VISITED : nat := 256.
Definition CLOSEST_NODES_MAX_RING_SAMPLES : nat := 8.
Definition MEASURE_NODES_MAX_TARGETS : nat := 8.

(** ** ClosestNodes *)

Record wire_closest_nodes_t := {
  cn_message_id : Z; cn_sender_id : node_id_t; cn_target_id : node_id_t; cn_count : Z; cn_beta_numerator : Z;
  cn_beta_denominator : Z; cn_ttl : Z; cn_visited_bloom : bytes; cn_visited_count : Z; cn_path : list node_id_t;
  cn_start_time : Z; cn_original_source : node_id_t
}.

Section ClosestNodes.
Context {C : Cbor}.

Definition wire_closest_nodes_encode (m : wire_closest_nodes_t) : cbor_item := cbor_array [
  cbor_build_uint8 WIRE_CLOSEST_NODES;
  _node_id_encode (cn_sender_id m);
  cbor_build_uint32 (id_hi (cn_message_id m));
  cbor_build_uint32 (id_lo (cn_message_id m));
  _node_id_encode (cn_target_id m);
  cbor_build_uint8 (cn_count m);
  cbor_build_uint16 (cn_beta_numerator m);
  cbor_build_uint16 (cn_beta_denominator m);
  cbor_build_uint8 (cn_ttl m);
  cbor_build_bytestring (cn_visited_bloom m);
  cbor_build_uint16 (cn_visited_count m);
  encode_nodes (cn_path m);
  cbor_build_uint8 (Z.of_nat (length (cn_path m)));
  cbor_build_uint32 (id_hi (cn_start_time m));
  cbor_build_uint32 (id_lo (cn_start_time m));
  _node_id_encode (cn_original_source m)].

Definition wire_closest_nodes_decode (item : cbor_item) : decoded wire_closest_nodes_t :=
  _ ← check_header item 16 WIRE_CLOSEST_NODES;
  sender ← array_get_node_id item 1;
  message_id ← array_get_split item 2;
  target ← array_get_node_id item 4;
  count ← _array_get_uint8 item 5;
  beta_num ← _array_get_uint16 item 6;
  beta_den ← _array_get_uint16 item 7;
  ttl ← _array_get_uint8 item 8;
  visited_bloom ← array_get_sized item 9 CLOSEST_NODES_MAX_VISITED;
  visited_count ← _array_get_uint16 item 10;
  path ← array_get_nodes item 11 CLOSEST_NODES_MAX_PATH;
  wire_path_len ← _array_get_uint8 item 12;
  start_time ← array_get_split item 13;
  source ← array_get_node_id item 15;
  DECODED {| cn_message_id := message_id; cn_sender_id := sender; cn_target_id := target; cn_count := count;
          cn_beta_numerator := beta_num; cn_beta_denominator := beta_den; cn_ttl := ttl;
          cn_visited_bloom := visited_bloom; cn_visited_count := visited_count;
          cn_path := take (Z.to_nat wire_path_len) path; cn_start_time := start_time;
          cn_original_source := source |}.
End ClosestNodes.

Definition wire_closest_nodes_ok (m : wire_closest_nodes_t) : Prop :=
  is_u64 (cn_message_id m) /\ wf_node_id (cn_sender_id m) /\ wf_node_id (cn_target_id m) /\ is_u8 (cn_count m) /\
  is_u16 (cn_beta_numerator m) /\ is_u16 (cn_beta_denominator m) /\ is_u8 (cn_ttl m) /\
  length (cn_visited_bloom m) = CLOSEST_NODES_MAX_VISITED /\ is_bytes (cn_visited_bloom m) /\
  is_u16 (cn_visited_count m) /\ wf_nodes CLOSEST_NODES_MAX_PATH (cn_path m) /\ is_u64 (cn_start_time m) /\
  wf_node_id (cn_original_source m).

Definition wire_closest_nodes_bounds (m : wire_closest_nodes_t) : Prop :=
  is_u64 (cn_message_id m) /\ is_u8 (cn_count m) /\ is_u16 (cn_beta_numerator m) /\
  is_u16 (cn_beta_denominator m) /\ is_u8 (cn_ttl m) /\ is_u16 (cn_visited_count m) /\ is_u64 (cn_start_time m) /\
  node_id_bounds (cn_sender_id m) /\ node_id_bounds (cn_target_id m) /\
  length (cn_visited_bloom m) = CLOSEST_NODES_MAX_VISITED /\ nodes_bounds CLOSEST_NODES_MAX_PATH (cn_path m) /\
  node_id_bounds (cn_original_source m).

#[export] Instance wire_closest_nodes {C : Cbor} : WireMsg wire_closest_nodes_t := {|
  msg_type := WIRE_CLOSEST_NODES; msg_encode m := Some (wire_closest_nodes_encode m); msg_decode := wire_closest_nodes_decode;
  msg_ok := wire_closest_nodes_ok; msg_bounds := wire_closest_nodes_bounds |}.

#[export] Hint Unfold wire_closest_nodes wire_closest_nodes_encode wire_closest_nodes_decode wire_closest_nodes_ok wire_closest_nodes_bounds : wire.

#[export] Instance wire_closest_nodes_laws {C : Cbor} {CL : CborLaws} : WireMsgLaws wire_closest_nodes_t.
Proof.
  split; [wire_type|wire_encodes| |wire_bounds; by apply take_nodes_bounds|wire_types].
  intros m item H; wire_unfold; intros [= <-]; destruct_and? H. repeat wire_get.
  rewrite take_path_len. by destruct m.
Qed.

#[export] Instance wire_closest_nodes_serial {C : Cbor} {CS : CborSerial} {CSL : CborSerialLaws} :
  WireMsgSerial wire_closest_nodes_t.
Proof. wire_serial. Qed.

(** ** Measured latencies: one number per node, in an array of [max] cleared
    slots of which [n] are used *)

Definition used_latencies (max n : nat) (lats : list Z) : list Z := take n (lats ++ replicate max 0).

Lemma used_latencies_all max lats : used_latencies max (length lats) lats = lats.
Proof. apply take_app_length. Qed.

Lemma length_used_latencies max n lats : (n <= max)%nat -> length (used_latencies max n lats) = n.
Proof. intros Hn. unfold used_latencies. rewrite length_take, length_app, length_replicate. lia. Qed.

Lemma used_latencies_u32 max n lats : Forall is_u32 lats -> Forall is_u32 (used_latencies max n lats).
Proof. intros H. apply Forall_take, Forall_app. split; [done|]. apply Forall_replicate. by unfold is_u32. Qed.

(** ** ClosestNodesResponse *)

Record wire_closest_nodes_response_t := {
  cnr_message_id : Z; cnr_sender_id : node_id_t; cnr_target_id : node_id_t; cnr_found : Z; cnr_closest : node_id_t;
  cnr_closest_latency_us : Z; cnr_path : list node_id_t; cnr_latency_us : Z; cnr_ring_nodes : list node_id_t;
  cnr_ring_latencies_us : list Z
}.

Section ClosestNodesResponse.
Context {C : Cbor}.

Definition wire_closest_nodes_response_encode (m : wire_closest_nodes_response_t) : cbor_item := cbor_array [
  cbor_build_uint8 WIRE_CLOSEST_NODES_RESPONSE;
  _node_id_encode (cnr_sender_id m);
  cbor_build_uint32 (id_hi (cnr_message_id m));
  cbor_build_uint32 (id_lo (cnr_message_id m));
  _node_id_encode (cnr_target_id m);
  cbor_build_uint8 (cnr_found m);
  _node_id_encode (cnr_closest m);
  cbor_build_uint32 (cnr_closest_latency_us m);
  encode_nodes (cnr_path m);
  cbor_build_uint8 (Z.of_nat (length (cnr_path m)));
  cbor_build_uint32 (id_hi (cnr_latency_us m));
  cbor_build_uint32 (id_lo (cnr_latency_us m));
  encode_nodes (cnr_ring_nodes m);
  encode_uint32s (cnr_ring_latencies_us m);
  cbor_build_uint8 (Z.of_nat (length (cnr_ring_nodes m)))].

Definition wire_closest_nodes_response_decode (item : cbor_item) : decoded wire_closest_nodes_response_t :=
  _ ← check_header item 15 WIRE_CLOSEST_NODES_RESPONSE;
  sender ← array_get_node_id item 1;
  message_id ← array_get_split item 2;
  target ← array_get_node_id item 4;
  found ← _array_get_uint8 item 5;
  closest ← array_get_node_id item 6;
  closest_latency ← _array_get_uint32 item 7;
  path ← array_get_nodes item 8 CLOSEST_NODES_MAX_PATH;
  wire_path_len ← _array_get_uint8 item 9;
  latency ← array_get_split item 10;
  ring_nodes ← array_get_nodes item 12 CLOSEST_NODES_MAX_RING_SAMPLES;
  ring_latencies ← array_get_uint32s item 13 CLOSEST_NODES_MAX_RING_SAMPLES;
  wire_ring_count ← _array_get_uint8 item 14;
  let ring := take (Z.to_nat wire_ring_count) ring_nodes in
  DECODED {| cnr_message_id := message_id; cnr_sender_id := sender; cnr_target_id := target; cnr_found := found;
          cnr_closest := closest; cnr_closest_latency_us := closest_latency;
          cnr_path := take (Z.to_nat wire_path_len) path; cnr_latency_us := latency; cnr_ring_nodes := ring;
          cnr_ring_latencies_us := used_latencies CLOSEST_NODES_MAX_RING_SAMPLES (length ring) ring_latencies |}.
End ClosestNodesResponse.

Definition wire_closest_nodes_response_ok (m : wire_closest_nodes_response_t) : Prop :=
  is_u64 (cnr_message_id m) /\ wf_node_id (cnr_sender_id m) /\ wf_node_id (cnr_target_id m) /\ is_u8 (cnr_found m) /\
  wf_node_id (cnr_closest m) /\ is_u32 (cnr_closest_latency_us m) /\
  wf_nodes CLOSEST_NODES_MAX_PATH (cnr_path m) /\ is_u64 (cnr_latency_us m) /\
  wf_nodes CLOSEST_NODES_MAX_RING_SAMPLES (cnr_ring_nodes m) /\
  length (cnr_ring_latencies_us m) = length (cnr_ring_nodes m) /\ Forall is_u32 (cnr_ring_latencies_us m).

Definition wire_closest_nodes_response_bounds (m : wire_closest_nodes_response_t) : Prop :=
  is_u64 (cnr_message_id m) /\ is_u8 (cnr_found m) /\ is_u32 (cnr_closest_latency_us m) /\
  is_u64 (cnr_latency_us m) /\ Forall is_u32 (cnr_ring_latencies_us m) /\ node_id_bounds (cnr_sender_id m) /\
  node_id_bounds (cnr_target_id m) /\ node_id_bounds (cnr_closest m) /\
  nodes_bounds CLOSEST_NODES_MAX_PATH (cnr_path m) /\
  nodes_bounds CLOSEST_NODES_MAX_RING_SAMPLES (cnr_ring_nodes m) /\
  length (cnr_ring_latencies_us m) = length (cnr_ring_nodes m).

#[export] Instance wire_closest_nodes_response {C : Cbor} : WireMsg wire_closest_nodes_response_t := {|
  msg_type := WIRE_CLOSEST_NODES_RESPONSE; msg_encode m := Some (wire_closest_nodes_response_encode m); msg_decode := wire_closest_nodes_response_decode;
  msg_ok := wire_closest_nodes_response_ok; msg_bounds := wire_closest_nodes_response_bounds |}.

#[export] Hint Unfold wire_closest_nodes_response wire_closest_nodes_response_encode wire_closest_nodes_response_decode wire_closest_nodes_response_ok wire_closest_nodes_response_bounds : wire.

(** As many latencies as nodes, so no more than fit. *)
Lemma latencies_fit max (nodes : list node_id_t) (lats : list Z) :
  wf_nodes max nodes -> length lats = length nodes -> (length lats <= max)%nat.
Proof. intros [Hl _] ->. done. Qed.

#[export] Instance wire_closest_nodes_response_laws {C : Cbor} {CL : CborLaws} :
  WireMsgLaws wire_closest_nodes_response_t.
Proof.
  split; [wire_type|wire_encodes| | |wire_types].
  - intros m item H; wire_unfold; intros [= <-]; destruct_and? H.
    assert (length (cnr_ring_latencies_us m) <= CLOSEST_NODES_MAX_RING_SAMPLES)%nat by (by eapply latencies_fit).
    repeat wire_get. rewrite !take_path_len.
    match goal with E : length (cnr_ring_latencies_us m) = _ |- _ => rewrite <- E end.
    rewrite used_latencies_all. by destruct m.
  - wire_bounds; try by apply take_nodes_bounds. { by apply used_latencies_u32. }
    apply length_used_latencies. rewrite length_take. unfold nodes_bounds in *. lia.
Qed.

#[export] Instance wire_closest_nodes_response_serial {C : Cbor} {CS : CborSerial} {CSL : CborSerialLaws} :
  WireMsgSerial wire_closest_nodes_response_t.
Proof.
  intros m item H; wire_unfold; intros [= <-]; destruct_and? H.
  assert (length (cnr_ring_latencies_us m) <= CLOSEST_NODES_MAX_RING_SAMPLES)%nat by (by eapply latencies_fit).
  wire_item.
Qed.

(** ** MeasureNodes *)

Record wire_measure_nodes_t := {
  mn_message_id : Z; mn_sender_id : node_id_t; mn_probe_type : Z; mn_targets : list node_id_t
}.

Section MeasureNodes.
Context {C : Cbor}.

Definition wire_measure_nodes_encode (m : wire_measure_nodes_t) : cbor_item := cbor_array [
  cbor_build_uint8 WIRE_MEASURE_NODES;
  _node_id_encode (mn_sender_id m);
  cbor_build_uint32 (id_hi (mn_message_id m));
  cbor_build_uint32 (id_lo (mn_message_id m));
  cbor_build_uint8 (mn_probe_type m);
  encode_nodes (mn_targets m)].

Definition wire_measure_nodes_decode (item : cbor_item) : decoded wire_measure_nodes_t :=
  _ ← check_header item 6 WIRE_MEASURE_NODES;
  sender ← array_get_node_id item 1;
  message_id ← array_get_split item 2;
  probe_type ← _array_get_uint8 item 4;
  targets ← array_get_nodes item 5 MEASURE_NODES_MAX_TARGETS;
  DECODED {| mn_message_id := message_id; mn_sender_id := sender; mn_probe_type := probe_type;
          mn_targets := targets |}.
End MeasureNodes.

Definition wire_measure_nodes_ok (m : wire_measure_nodes_t) : Prop :=
  is_u64 (mn_message_id m) /\ wf_node_id (mn_sender_id m) /\ is_u8 (mn_probe_type m) /\
  wf_nodes MEASURE_NODES_MAX_TARGETS (mn_targets m).

Definition wire_measure_nodes_bounds (m : wire_measure_nodes_t) : Prop :=
  is_u64 (mn_message_id m) /\ is_u8 (mn_probe_type m) /\ node_id_bounds (mn_sender_id m) /\
  nodes_bounds MEASURE_NODES_MAX_TARGETS (mn_targets m).

#[export] Instance wire_measure_nodes {C : Cbor} : WireMsg wire_measure_nodes_t := {|
  msg_type := WIRE_MEASURE_NODES; msg_encode m := Some (wire_measure_nodes_encode m); msg_decode := wire_measure_nodes_decode;
  msg_ok := wire_measure_nodes_ok; msg_bounds := wire_measure_nodes_bounds |}.

#[export] Hint Unfold wire_measure_nodes wire_measure_nodes_encode wire_measure_nodes_decode wire_measure_nodes_ok wire_measure_nodes_bounds : wire.

#[export] Instance wire_measure_nodes_laws {C : Cbor} {CL : CborLaws} : WireMsgLaws wire_measure_nodes_t.
Proof. wire_codec. Qed.

#[export] Instance wire_measure_nodes_serial {C : Cbor} {CS : CborSerial} {CSL : CborSerialLaws} : WireMsgSerial wire_measure_nodes_t.
Proof. wire_serial. Qed.

(** ** MeasureNodesResponse *)

Record wire_measure_nodes_response_t := {
  mnr_message_id : Z; mnr_sender_id : node_id_t; mnr_targets : list node_id_t; mnr_latencies_us : list Z
}.

Section MeasureNodesResponse.
Context {C : Cbor}.

Definition wire_measure_nodes_response_encode (m : wire_measure_nodes_response_t) : cbor_item := cbor_array [
  cbor_build_uint8 WIRE_MEASURE_NODES_RESPONSE;
  _node_id_encode (mnr_sender_id m);
  cbor_build_uint32 (id_hi (mnr_message_id m));
  cbor_build_uint32 (id_lo (mnr_message_id m));
  cbor_build_uint8 (Z.of_nat (length (mnr_targets m)));
  encode_nodes (mnr_targets m);
  encode_uint32s (mnr_latencies_us m)].

Definition wire_measure_nodes_response_decode (item : cbor_item) : decoded wire_measure_nodes_response_t :=
  _ ← check_header item 7 WIRE_MEASURE_NODES_RESPONSE;
  sender ← array_get_node_id item 1;
  message_id ← array_get_split item 2;
  target_count ← _array_get_uint8 item 4;
  targets ← array_get_nodes item 5 MEASURE_NODES_MAX_TARGETS;
  latencies ← array_get_uint32s item 6 MEASURE_NODES_MAX_TARGETS;
  let targets := take (Z.to_nat target_count) targets in
  DECODED {| mnr_message_id := message_id; mnr_sender_id := sender; mnr_targets := targets;
          mnr_latencies_us := used_latencies MEASURE_NODES_MAX_TARGETS (length targets) latencies |}.
End MeasureNodesResponse.

Definition wire_measure_nodes_response_ok (m : wire_measure_nodes_response_t) : Prop :=
  is_u64 (mnr_message_id m) /\ wf_node_id (mnr_sender_id m) /\ wf_nodes MEASURE_NODES_MAX_TARGETS (mnr_targets m) /\
  length (mnr_latencies_us m) = length (mnr_targets m) /\ Forall is_u32 (mnr_latencies_us m).

Definition wire_measure_nodes_response_bounds (m : wire_measure_nodes_response_t) : Prop :=
  is_u64 (mnr_message_id m) /\ Forall is_u32 (mnr_latencies_us m) /\ node_id_bounds (mnr_sender_id m) /\
  nodes_bounds MEASURE_NODES_MAX_TARGETS (mnr_targets m) /\ length (mnr_latencies_us m) = length (mnr_targets m).

#[export] Instance wire_measure_nodes_response {C : Cbor} : WireMsg wire_measure_nodes_response_t := {|
  msg_type := WIRE_MEASURE_NODES_RESPONSE; msg_encode m := Some (wire_measure_nodes_response_encode m); msg_decode := wire_measure_nodes_response_decode;
  msg_ok := wire_measure_nodes_response_ok; msg_bounds := wire_measure_nodes_response_bounds |}.

#[export] Hint Unfold wire_measure_nodes_response wire_measure_nodes_response_encode wire_measure_nodes_response_decode wire_measure_nodes_response_ok wire_measure_nodes_response_bounds : wire.

#[export] Instance wire_measure_nodes_response_laws {C : Cbor} {CL : CborLaws} :
  WireMsgLaws wire_measure_nodes_response_t.
Proof.
  split; [wire_type|wire_encodes| | |wire_types].
  - intros m item H; wire_unfold; intros [= <-]; destruct_and? H.
    assert (length (mnr_latencies_us m) <= MEASURE_NODES_MAX_TARGETS)%nat by (by eapply latencies_fit).
    repeat wire_get. rewrite !take_path_len.
    match goal with E : length (mnr_latencies_us m) = _ |- _ => rewrite <- E end.
    rewrite used_latencies_all. by destruct m.
  - wire_bounds; try by apply take_nodes_bounds. { by apply used_latencies_u32. }
    apply length_used_latencies. rewrite length_take. unfold nodes_bounds in *. lia.
Qed.

#[export] Instance wire_measure_nodes_response_serial {C : Cbor} {CS : CborSerial} {CSL : CborSerialLaws} :
  WireMsgSerial wire_measure_nodes_response_t.
Proof.
  intros m item H; wire_unfold; intros [= <-]; destruct_and? H.
  assert (length (mnr_latencies_us m) <= MEASURE_NODES_MAX_TARGETS)%nat by (by eapply latencies_fit). wire_item.
Qed.

(** ** ClosestNodesProgress *)

Record wire_closest_nodes_progress_t := {
  cnp_message_id : Z; cnp_sender_id : node_id_t; cnp_target_id : node_id_t; cnp_hop_count : Z
}.

Section ClosestNodesProgress.
Context {C : Cbor}.

Definition wire_closest_nodes_progress_encode (m : wire_closest_nodes_progress_t) : cbor_item := cbor_array [
  cbor_build_uint8 WIRE_CLOSEST_NODES_PROGRESS;
  _node_id_encode (cnp_sender_id m);
  cbor_build_uint32 (id_hi (cnp_message_id m));
  cbor_build_uint32 (id_lo (cnp_message_id m));
  _node_id_encode (cnp_target_id m);
  cbor_build_uint8 (cnp_hop_count m)].

Definition wire_closest_nodes_progress_decode (item : cbor_item) : decoded wire_closest_nodes_progress_t :=
  _ ← check_header item 6 WIRE_CLOSEST_NODES_PROGRESS;
  sender ← array_get_node_id item 1;
  message_id ← array_get_split item 2;
  target ← array_get_node_id item 4;
  hop_count ← _array_get_uint8 item 5;
  DECODED {| cnp_message_id := message_id; cnp_sender_id := sender; cnp_target_id := target;
          cnp_hop_count := hop_count |}.
End ClosestNodesProgress.

Definition wire_closest_nodes_progress_ok (m : wire_closest_nodes_progress_t) : Prop :=
  is_u64 (cnp_message_id m) /\ wf_node_id (cnp_sender_id m) /\ wf_node_id (cnp_target_id m) /\
  is_u8 (cnp_hop_count m).

Definition wire_closest_nodes_progress_bounds (m : wire_closest_nodes_progress_t) : Prop :=
  is_u64 (cnp_message_id m) /\ is_u8 (cnp_hop_count m) /\ node_id_bounds (cnp_sender_id m) /\
  node_id_bounds (cnp_target_id m).

#[export] Instance wire_closest_nodes_progress {C : Cbor} : WireMsg wire_closest_nodes_progress_t := {|
  msg_type := WIRE_CLOSEST_NODES_PROGRESS; msg_encode m := Some (wire_closest_nodes_progress_encode m); msg_decode := wire_closest_nodes_progress_decode;
  msg_ok := wire_closest_nodes_progress_ok; msg_bounds := wire_closest_nodes_progress_bounds |}.

#[export] Hint Unfold wire_closest_nodes_progress wire_closest_nodes_progress_encode wire_closest_nodes_progress_decode wire_closest_nodes_progress_ok wire_closest_nodes_progress_bounds : wire.

#[export] Instance wire_closest_nodes_progress_laws {C : Cbor} {CL : CborLaws} : WireMsgLaws wire_closest_nodes_progress_t.
Proof. wire_codec. Qed.

#[export] Instance wire_closest_nodes_progress_serial {C : Cbor} {CS : CborSerial} {CSL : CborSerialLaws} : WireMsgSerial wire_closest_nodes_progress_t.
Proof. wire_serial. Qed.
