(* ===== verification/Framer.v ===== *)
(** * Framer: length-prefixed frames on a byte stream

    Models src/src/Network/stream_framer.c and the receive loop of its users
    (quic_stream_callback in quic_listener.c, _relay_client_stream_callback in
    relay_client.c, _relay_stream_callback in Relay/relay_server.c): the
    buffers of a receive event are fed one after the other, then complete
    frames are taken out until there is none.  A framer is its buffered bytes
    and the capacity of its buffer. *)

From S2P Require Import Prelude.
Local Open Scope Z_scope.

Definition STREAM_FRAMER_MAX_FRAME_SIZE : Z := 2 * 1024 * 1024.
Definition STREAM_FRAMER_INITIAL_CAPACITY : Z := 256.
Definition STREAM_FRAMER_LENGTH_PREFIX_SIZE : Z := 4.

(** The most bytes a framer holds. *)
Definition FRAMER_LIMIT : Z := STREAM_FRAMER_MAX_FRAME_SIZE + STREAM_FRAMER_LENGTH_PREFIX_SIZE.

Record stream_framer_t := { framer_buffer : bytes; framer_capacity : Z }.

Definition framer_used (f : stream_framer_t) : Z := Z.of_nat (length (framer_buffer f)).

Definition stream_framer_create : stream_framer_t :=
  {| framer_buffer := []; framer_capacity := STREAM_FRAMER_INITIAL_CAPACITY |}.

(** The doubling loop of [stream_framer_feed]; [None] when [fuel] runs out. *)
Fixpoint grow_capacity (fuel : nat) (new_capacity needed : Z) : option Z :=
  match fuel with
  | O => None
  | S fuel =>
      if needed <=? new_capacity then Some new_capacity
      else if FRAMER_LIMIT <? new_capacity then Some FRAMER_LIMIT
      else
        let next := u64 (new_capacity * 2) in
        if next <=? new_capacity then Some FRAMER_LIMIT else grow_capacity fuel next needed
  end.

(** [None] is the return value -1, which leaves the framer as it was. *)
Definition stream_framer_feed (f : stream_framer_t) (data : bytes) : option stream_framer_t :=
  let len := Z.of_nat (length data) in
  if len =? 0 then Some f
  else if FRAMER_LIMIT <? len then None
  else if FRAMER_LIMIT - len <? framer_used f then None
  else
    let needed := framer_used f + len in
    capacity ← (if framer_capacity f <? needed then grow_capacity 64 (framer_capacity f) needed
                else Some (framer_capacity f));
    if capacity <? needed then None
    else Some {| framer_buffer := framer_buffer f ++ data; framer_capacity := capacity |}.

(** The length prefix. *)
Definition frame_length (b : bytes) : option Z :=
  match b with
  | b0 :: b1 :: b2 :: b3 :: _ =>
      Some (Z.lor (Z.lor (Z.lor (u32 (Z.shiftl b0 24)) (u32 (Z.shiftl b1 16))) (u32 (Z.shiftl b2 8))) (u32 b3))
  | _ => None
  end.

(** The first complete frame of some bytes and the bytes after it. *)
Definition next_frame (b : bytes) : option (bytes * bytes) :=
  length_ ← frame_length b;
  if STREAM_FRAMER_MAX_FRAME_SIZE <? length_ then None
  else
    let total := Z.to_nat (STREAM_FRAMER_LENGTH_PREFIX_SIZE + length_) in
    if (length b <? total)%nat then None
    else Some (take (Z.to_nat length_) (drop (Z.to_nat STREAM_FRAMER_LENGTH_PREFIX_SIZE) b), drop total b).

Definition stream_framer_next (f : stream_framer_t) : option (bytes * stream_framer_t) :=
  '(payload, remaining) ← next_frame (framer_buffer f);
  Some (payload, {| framer_buffer := remaining; framer_capacity := framer_capacity f |}).

(** The length, big-endian. *)
Definition frame_prefix (n : Z) : bytes :=
  [u8 (Z.land (Z.shiftr n 24) 0xFF); u8 (Z.land (Z.shiftr n 16) 0xFF);
   u8 (Z.land (Z.shiftr n 8) 0xFF); u8 (Z.land n 0xFF)].

(** [None] is the null pointer. *)
Definition stream_frame_encode (data : bytes) : option bytes :=
  let n := Z.of_nat (length data) in
  if STREAM_FRAMER_MAX_FRAME_SIZE <? n then None
  else Some (frame_prefix n ++ data).

(** ** The receive loop *)

(** [while ((msg = stream_framer_next(...)) != NULL)] *)
Fixpoint drain_frames (fuel : nat) (f : stream_framer_t) : list bytes * stream_framer_t :=
  match fuel with
  | O => ([], f)
  | S fuel =>
      match stream_framer_next f with
      | Some (payload, f) => let '(ms, f) := drain_frames fuel f in (payload :: ms, f)
      | None => ([], f)
      end
  end.

(** The users of the framer do not look at the result of a feed. *)
Definition feed_unchecked (f : stream_framer_t) (data : bytes) : stream_framer_t :=
  default f (stream_framer_feed f data).

(** A receive event.  The fuel is enough, since every frame takes at least its
    prefix. *)
Definition framer_receive (f : stream_framer_t) (buffers : list bytes) : list bytes * stream_framer_t :=
  let f := fold_left feed_unchecked buffers f in
  drain_frames (S (length (framer_buffer f))) f.

Fixpoint framer_run (f : stream_framer_t) (events : list (list bytes)) : list bytes * stream_framer_t :=
  match events with
  | [] => ([], f)
  | e :: events =>
      let '(ms, f) := framer_receive f e in
      let '(ms', f) := framer_run f events in
      (ms ++ ms', f)
  end.

(** ** Specification: the frames of a byte string, all at once *)

Fixpoint frames_of (fuel : nat) (b : bytes) : list bytes * bytes :=
  match fuel with
  | O => ([], b)
  | S fuel =>
      match next_frame b with
      | Some (payload, rest) => let '(ms, r) := frames_of fuel rest in (payload :: ms, r)
      | None => ([], b)
      end
  end.

Definition deframe (b : bytes) : list bytes * bytes := frames_of (S (length b)) b.

(** ** Frames *)

Lemma frame_length_app b x n : frame_length b = Some n -> frame_length (b ++ x) = Some n.
Proof. by destruct b as [|? [|? [|? [|??]]]]. Qed.

Lemma frame_length_nonneg b n : frame_length b = Some n -> 0 <= n.
Proof.
  destruct b as [|b0 [|b1 [|b2 [|b3 b]]]]; try done. intros [= <-].
  repeat (apply Z.lor_nonneg; split); apply u32_range.
Qed.

(** A complete frame stays one when more bytes follow. *)
Lemma next_frame_app b x payload rest :
  next_frame b = Some (payload, rest) -> next_frame (b ++ x) = Some (payload, rest ++ x).
Proof.
  unfold next_frame. intros (n & Hn & H)%bind_Some. rewrite (frame_length_app b x n Hn). simpl.
  apply frame_length_nonneg in Hn.
  destruct (Z.ltb_spec STREAM_FRAMER_MAX_FRAME_SIZE n); [done|].
  destruct (Nat.ltb_spec (length b) (Z.to_nat (STREAM_FRAMER_LENGTH_PREFIX_SIZE + n))) as [|Hl]; [done|].
  simplify_eq/=. rewrite length_app.
  destruct (Nat.ltb_spec (length b + length x) (Z.to_nat (STREAM_FRAMER_LENGTH_PREFIX_SIZE + n))); [lia|].
  unfold STREAM_FRAMER_LENGTH_PREFIX_SIZE in *.
  rewrite !drop_app_le by lia. rewrite take_app_le by (rewrite length_drop; lia). done.
Qed.

Lemma next_frame_shorter b payload rest :
  next_frame b = Some (payload, rest) -> (length rest + 4 <= length b)%nat.
Proof.
  unfold next_frame. intros (n & Hn & H)%bind_Some. pose proof (frame_length_nonneg _ _ Hn).
  destruct (STREAM_FRAMER_MAX_FRAME_SIZE <? n); [done|].
  destruct (Nat.ltb_spec (length b) (Z.to_nat (STREAM_FRAMER_LENGTH_PREFIX_SIZE + n))) as [|Hl]; [done|].
  simplify_eq/=. rewrite length_drop. unfold STREAM_FRAMER_LENGTH_PREFIX_SIZE in *.
  assert (4 <= length b)%nat by (destruct b as [|? [|? [|? [|??]]]]; simpl in *; try done; lia). lia.
Qed.

(** The fuel of [frames_of] does not matter once it exceeds the length. *)
Lemma frames_of_fuel k1 k2 b :
  (length b < k1)%nat -> (length b < k2)%nat -> frames_of k1 b = frames_of k2 b.
Proof.
  revert k2 b. induction k1 as [|k1 IH]; intros [|k2] b H1 H2; try lia. simpl.
  destruct (next_frame b) as [[payload rest]|] eqn:E; [|done].
  pose proof (next_frame_shorter _ _ _ E). by rewrite (IH k2) by lia.
Qed.

Lemma deframe_step b payload rest :
  next_frame b = Some (payload, rest) -> deframe b = (payload :: (deframe rest).1, (deframe rest).2).
Proof.
  intros E. pose proof (next_frame_shorter _ _ _ E). unfold deframe at 1. cbn [frames_of]. rewrite E.
  rewrite (frames_of_fuel (length b) (S (length rest))) by lia. fold (deframe rest). by destruct (deframe rest).
Qed.

Lemma deframe_none b : next_frame b = None -> deframe b = ([], b).
Proof. intros E. unfold deframe. simpl. by rewrite E. Qed.

(** Taking frames out as the bytes come is taking them out at the end. *)
Lemma deframe_app b x :
  deframe (b ++ x) =
    ((deframe b).1 ++ (deframe ((deframe b).2 ++ x)).1, (deframe ((deframe b).2 ++ x)).2).
Proof.
  induction b as [b IH] using (well_founded_induction (Wf_nat.well_founded_ltof _ (@length Z))).
  destruct (next_frame b) as [[payload rest]|] eqn:E.
  - rewrite (deframe_step (b ++ x) payload (rest ++ x)) by (by apply next_frame_app).
    rewrite (deframe_step b _ _ E). simpl.
    rewrite IH by (unfold ltof; pose proof (next_frame_shorter _ _ _ E); lia). done.
  - rewrite (deframe_none b E). simpl. by destruct (deframe (b ++ x)).
Qed.

Lemma drain_frames_of k f :
  drain_frames k f =
    ((frames_of k (framer_buffer f)).1,
     {| framer_buffer := (frames_of k (framer_buffer f)).2; framer_capacity := framer_capacity f |}).
Proof.
  revert f. induction k as [|k IH]; intros f; simpl; [by destruct f|].
  unfold stream_framer_next. destruct (next_frame (framer_buffer f)) as [[payload rest]|]; simpl.
  - rewrite IH. simpl. by destruct (frames_of k rest).
  - by destruct f.
Qed.

(** ** Capacity *)

(** The loop reaches what is needed, and overshoots by less than a factor two. *)
Lemma grow_capacity_enough fuel c needed :
  1 <= c -> needed <= FRAMER_LIMIT -> needed <= c * 2 ^ (Z.of_nat fuel - 1) -> (0 < fuel)%nat ->
  exists c', grow_capacity fuel c needed = Some c' /\ needed <= c' /\ c <= c' /\ (c' = c \/ c' < 2 * needed).
Proof.
  unfold FRAMER_LIMIT, STREAM_FRAMER_MAX_FRAME_SIZE, STREAM_FRAMER_LENGTH_PREFIX_SIZE.
  revert c. induction fuel as [|fuel IH]; intros c Hc Hn Hf Hpos; [lia|]. cbn [grow_capacity].
  destruct (Z.leb_spec needed c); [exists c; split_and!; auto; lia|].
  destruct (Z.ltb_spec FRAMER_LIMIT c) as [Hl|Hl];
    unfold FRAMER_LIMIT, STREAM_FRAMER_MAX_FRAME_SIZE, STREAM_FRAMER_LENGTH_PREFIX_SIZE in Hl; [lia|].
  rewrite u64_small by (unfold is_u64; lia). destruct (Z.leb_spec (c * 2) c); [lia|].
  destruct fuel as [|fuel]; [simpl in Hf; lia|].
  replace (Z.of_nat (S (S fuel)) - 1) with (Z.succ (Z.of_nat (S fuel) - 1)) in Hf by lia.
  rewrite Z.pow_succ_r, Z.mul_assoc in Hf by lia.
  destruct (IH (c * 2)) as (c' & E & ? & ? & ?); [lia|lia|done|lia|].
  exists c'. split_and!; [done|lia|lia|lia].
Qed.

(** A framer in use: it holds no more than the limit, in a buffer that is large
    enough and less than twice the limit. *)
Definition framer_wf (f : stream_framer_t) : Prop :=
  framer_used f <= framer_capacity f /\ framer_used f <= FRAMER_LIMIT /\
  STREAM_FRAMER_INITIAL_CAPACITY <= framer_capacity f < 2 * FRAMER_LIMIT.

Lemma framer_create_wf : framer_wf stream_framer_create.
Proof. unfold framer_wf. split_and!; vm_compute; congruence. Qed.

Lemma feed_accepts f data :
  framer_wf f -> framer_used f + Z.of_nat (length data) <= FRAMER_LIMIT ->
  exists f', stream_framer_feed f data = Some f' /\ framer_buffer f' = framer_buffer f ++ data /\ framer_wf f'.
Proof.
  intros (Hu & Hl & Hc) Hd. unfold stream_framer_feed.
  destruct (Z.eqb_spec (Z.of_nat (length data)) 0) as [H0|H0].
  { exists f. destruct data; [|simpl in H0; lia]. rewrite app_nil_r. by unfold framer_wf. }
  assert (0 <= framer_used f) by (unfold framer_used; lia).
  destruct (Z.ltb_spec FRAMER_LIMIT (Z.of_nat (length data))); [lia|].
  destruct (Z.ltb_spec (FRAMER_LIMIT - Z.of_nat (length data)) (framer_used f)); [lia|].
  unfold STREAM_FRAMER_INITIAL_CAPACITY in Hc.
  assert (exists c, (if framer_capacity f <? framer_used f + Z.of_nat (length data)
                     then grow_capacity 64 (framer_capacity f) (framer_used f + Z.of_nat (length data))
                     else Some (framer_capacity f)) = Some c /\
          framer_used f + Z.of_nat (length data) <= c /\ 256 <= c < 2 * FRAMER_LIMIT) as (c & -> & Hge & Hr).
  { destruct (Z.ltb_spec (framer_capacity f) (framer_used f + Z.of_nat (length data))) as [Hlt|Hge].
    - destruct (grow_capacity_enough 64 (framer_capacity f) (framer_used f + Z.of_nat (length data)))
        as (c & E & ? & ? & ?); [lia|done| |lia|exists c; split_and!; [done|lia|lia|lia]].
      change FRAMER_LIMIT with 2097156 in *. lia.
    - exists (framer_capacity f). split_and!; [done|lia|lia|lia]. }
  cbn [mbind option_bind].
  destruct (Z.ltb_spec c (framer_used f + Z.of_nat (length data))); [lia|].
  eexists. split; [done|]. split; [done|]. unfold framer_wf, framer_used, STREAM_FRAMER_INITIAL_CAPACITY. simpl.
  rewrite length_app, Nat2Z.inj_add. unfold framer_used in *. lia.
Qed.

(** More than the limit is refused and the framer is left as it was. *)
Lemma feed_refuses f data :
  data <> [] -> FRAMER_LIMIT < framer_used f + Z.of_nat (length data) -> stream_framer_feed f data = None.
Proof.
  intros Hne Hd. unfold stream_framer_feed.
  destruct (Z.eqb_spec (Z.of_nat (length data)) 0) as [H0|H0]; [destruct data; simpl in H0; [done|lia]|].
  destruct (Z.ltb_spec FRAMER_LIMIT (Z.of_nat (length data))); [done|].
  by destruct (Z.ltb_spec (FRAMER_LIMIT - Z.of_nat (length data)) (framer_used f)); [|lia].
Qed.

Lemma feed_wf f data f' : framer_wf f -> stream_framer_feed f data = Some f' -> framer_wf f'.
Proof.
  intros Hf E. destruct (Z.le_gt_cases (framer_used f + Z.of_nat (length data)) FRAMER_LIMIT) as [Hle|Hgt].
  - destruct (feed_accepts f data Hf Hle) as (f'' & E' & _ & Hf''). by simplify_eq.
  - destruct (decide (data = [])) as [->|Hne]; [|by rewrite feed_refuses in E].
    unfold stream_framer_feed in E. simpl in E. by simplify_eq.
Qed.

Lemma length_frames_of k b : (length (frames_of k b).2 <= length b)%nat.
Proof.
  revert b. induction k as [|k IH]; intros b; simpl; [done|].
  destruct (next_frame b) as [[payload rest]|] eqn:E; [|done].
  pose proof (next_frame_shorter _ _ _ E). specialize (IH rest). destruct (frames_of k rest). simpl in *. lia.
Qed.

Lemma drain_wf k f : framer_wf f -> framer_wf (drain_frames k f).2.
Proof.
  intros (Hu & Hl & Hc). rewrite drain_frames_of. pose proof (length_frames_of k (framer_buffer f)).
  unfold framer_wf, framer_used in *. simpl. lia.
Qed.

(** ** Encoding *)

Lemma u32_testbit z i : 0 <= i -> Z.testbit (u32 z) i = (i <? 32) && Z.testbit z i.
Proof.
  intros Hi. unfold u32. destruct (Z.ltb_spec i 32).
  - by rewrite Z.mod_pow2_bits_low by lia.
  - by rewrite Z.mod_pow2_bits_high by lia.
Qed.

(** Bit [i] of byte [k / 8] of [n], moved to position [k]. *)
Lemma prefix_byte_testbit n k i : 0 <= k -> 0 <= i ->
  Z.testbit (u32 (Z.shiftl (u8 (Z.land (Z.shiftr n k) 0xFF)) k)) i =
    (i <? 32) && ((k <=? i) && ((i <? k + 8) && Z.testbit n i)).
Proof.
  intros Hk Hi. rewrite u32_testbit, Z.shiftl_spec by lia. f_equal.
  destruct (Z.leb_spec k i) as [Hle|Hgt]; [|by rewrite Z.testbit_neg_r by lia].
  rewrite u8_testbit, Z.land_spec, Z.shiftr_spec by lia. change 0xFF with (Z.ones 8).
  rewrite Z.testbit_ones by lia. replace (i - k + k) with i by lia.
  bool_cases; try lia; by rewrite ?andb_true_r, ?andb_false_r.
Qed.

Lemma frame_length_encode n rest : is_u32 n ->
  frame_length (frame_prefix n ++ rest) = Some n.
Proof.
  intros Hn. unfold frame_prefix. cbn [frame_length app]. f_equal. apply Z.bits_inj'. intros i Hi.
  replace (u8 (Z.land n 0xFF)) with (Z.shiftl (u8 (Z.land (Z.shiftr n 0) 0xFF)) 0)
    by (by rewrite Z.shiftr_0_r, Z.shiftl_0_r).
  rewrite !Z.lor_spec, !prefix_byte_testbit by lia.
  destruct (Z.ltb_spec i 32) as [Hl|Hl]; [|by rewrite (testbit_above 32 n i) by (auto; lia)].
  cbn [andb]. destruct (Z.testbit n i); [|by rewrite !andb_false_r].
  bool_cases; try done; lia.
Qed.

Lemma encode_length data frame :
  stream_frame_encode data = Some frame -> length frame = (4 + length data)%nat.
Proof. unfold stream_frame_encode. case_match; [done|]. by intros [= <-]. Qed.

(** A frame followed by anything is read back. *)
Lemma next_frame_encode data frame rest :
  stream_frame_encode data = Some frame -> next_frame (frame ++ rest) = Some (data, rest).
Proof.
  unfold stream_frame_encode, next_frame.
  destruct (Z.ltb_spec STREAM_FRAMER_MAX_FRAME_SIZE (Z.of_nat (length data))) as [|Hl]; [done|]. intros E.
  apply (inj Some) in E. subst frame. unfold STREAM_FRAMER_MAX_FRAME_SIZE in Hl. rewrite <- app_assoc.
  rewrite frame_length_encode by (unfold is_u32; lia). cbn [mbind option_bind].
  destruct (Z.ltb_spec STREAM_FRAMER_MAX_FRAME_SIZE (Z.of_nat (length data)));
    [unfold STREAM_FRAMER_MAX_FRAME_SIZE in *; lia|].
  unfold STREAM_FRAMER_LENGTH_PREFIX_SIZE. replace (Z.to_nat (4 + Z.of_nat (length data))) with (4 + length data)%nat by lia.
  change (Z.to_nat 4) with 4%nat. rewrite Nat2Z.id, <- drop_drop.
  rewrite (drop_app_length' (frame_prefix _)) by done.
  rewrite length_app. change (length (frame_prefix _)) with 4%nat.
  destruct (Nat.ltb_spec (4 + length (data ++ rest)) (4 + length data)) as [Hlt|_];
    [rewrite length_app in Hlt; lia|].
  by rewrite take_app_length, drop_app_length.
Qed.

(** Less than a frame is not one. *)
Lemma next_frame_prefix data frame p q :
  stream_frame_encode data = Some frame -> frame = p ++ q -> q <> [] -> next_frame p = None.
Proof.
  intros E -> Hq. destruct (next_frame p) as [[payload rest]|] eqn:Ep; [|done].
  pose proof (next_frame_encode data (p ++ q) [] E) as H. rewrite app_nil_r in H.
  rewrite (next_frame_app p q payload rest Ep) in H. simplify_eq. destruct rest; [|done]. by destruct q.
Qed.

(** The frames of a list of messages. *)
Definition encode_all (msgs : list bytes) : option (list bytes) := mapM stream_frame_encode msgs.

Lemma deframe_encode msgs frames :
  encode_all msgs = Some frames -> deframe (concat frames) = (msgs, []).
Proof.
  revert frames. induction msgs as [|m msgs IH]; intros frames E.
  { apply (inj Some) in E. by subst. }
  apply bind_Some in E as (f & Hf & E). apply bind_Some in E as (fs & Hfs & E). apply (inj Some) in E. subst. cbn [concat].
  rewrite (deframe_step _ _ _ (next_frame_encode _ _ (concat fs) Hf)). by rewrite (IH fs Hfs).
Qed.

(** What is left of the beginning of such a stream is less than one frame. *)
Lemma deframe_prefix (F : Z) msgs frames p q :
  0 < F -> encode_all msgs = Some frames -> Forall (fun f => Z.of_nat (length f) <= F) frames ->
  concat frames = p ++ q -> Z.of_nat (length (deframe p).2) < F.
Proof.
  intros HF. revert frames p. induction msgs as [|m msgs IH]; intros frames p E Hall Hpq.
  { apply (inj Some) in E. subst. symmetry in Hpq. apply app_eq_nil in Hpq as [-> ->]. done. }
  apply bind_Some in E as (f & Hf & E). apply bind_Some in E as (fs & Hfs & E). apply (inj Some) in E. subst.
  apply Forall_cons in Hall as [Hlen Hall]. cbn [concat] in Hpq.
  destruct (decide (length f <= length p)%nat) as [Hle|Hgt].
  - apply app_eq_inv in Hpq as [(k & -> & Hk)|(k & -> & Hk)].
    + rewrite length_app in Hle. destruct k; [|simpl in Hle; lia]. rewrite app_nil_r in *.
      pose proof (next_frame_encode _ _ [] Hf) as Hn. rewrite app_nil_r in Hn.
      rewrite (deframe_step _ _ _ Hn). cbn [snd]. by apply (IH fs []).
    + rewrite (deframe_step _ _ _ (next_frame_encode _ _ k Hf)). cbn [snd]. by apply (IH fs k).
  - apply app_eq_inv in Hpq as [(k & -> & Hk)|(k & -> & Hk)]; [|rewrite length_app in Hgt; lia].
    rewrite deframe_none; [rewrite length_app in Hlen, Hgt; simpl; lia|].
    apply (next_frame_prefix m (p ++ k) p k Hf eq_refl). intros ->. rewrite app_nil_r in Hgt. lia.
Qed.

(** ** Receiving *)

(** The buffers of one event fit. *)
Lemma feed_all_accepts f buffers :
  framer_wf f -> framer_used f + Z.of_nat (length (concat buffers)) <= FRAMER_LIMIT ->
  framer_buffer (fold_left feed_unchecked buffers f) = framer_buffer f ++ concat buffers /\
  framer_wf (fold_left feed_unchecked buffers f).
Proof.
  revert f. induction buffers as [|d buffers IH]; intros f Hf Hl; cbn [fold_left concat] in *.
  { by rewrite app_nil_r. }
  rewrite length_app in Hl.
  destruct (feed_accepts f d Hf) as (f' & E & Hb & Hf'); [lia|].
  assert (feed_unchecked f d = f') as -> by (unfold feed_unchecked; by rewrite E).
  destruct (IH f' Hf') as [Hb' Hwf].
  { unfold framer_used in *. rewrite Hb, length_app. lia. }
  split; [|done]. rewrite Hb', Hb. by rewrite app_assoc.
Qed.

Lemma feed_all_wf f buffers :
  framer_wf f -> framer_wf (fold_left feed_unchecked buffers f).
Proof.
  revert f. induction buffers as [|d buffers IH]; intros f Hf; simpl; [done|].
  apply IH. unfold feed_unchecked. destruct (stream_framer_feed f d) eqn:E; simpl; [by eapply feed_wf|done].
Qed.

Lemma framer_receive_deframe f buffers :
  framer_wf f -> framer_used f + Z.of_nat (length (concat buffers)) <= FRAMER_LIMIT ->
  let '(ms, f') := framer_receive f buffers in
  (ms, framer_buffer f') = deframe (framer_buffer f ++ concat buffers) /\ framer_wf f'.
Proof.
  intros Hf Hl. unfold framer_receive. destruct (feed_all_accepts f buffers Hf Hl) as [Hb Hwf].
  set (f' := fold_left _ buffers f) in *. rewrite drain_frames_of. rewrite Hb. unfold deframe. split.
  - by destruct (frames_of _ _).
  - pose proof (drain_wf (S (length (framer_buffer f'))) f' Hwf) as H. by rewrite drain_frames_of, Hb in H.
Qed.

(** Every event fits beside what the earlier ones left. *)
Fixpoint events_fit (b : bytes) (events : list (list bytes)) : Prop :=
  match events with
  | [] => True
  | e :: events =>
      Z.of_nat (length b) + Z.of_nat (length (concat e)) <= FRAMER_LIMIT /\
      events_fit (deframe (b ++ concat e)).2 events
  end.

(** The bytes of a sequence of events. *)
Definition received (events : list (list bytes)) : bytes := concat (map (@concat Z) events).

Lemma deframe_drained b : next_frame (deframe b).2 = None.
Proof.
  induction b as [b IH] using (well_founded_induction (Wf_nat.well_founded_ltof _ (@length Z))).
  destruct (next_frame b) as [[payload rest]|] eqn:E; [|by rewrite deframe_none].
  rewrite (deframe_step _ _ _ E). apply IH. unfold ltof. pose proof (next_frame_shorter _ _ _ E). lia.
Qed.

Lemma framer_run_ok f events :
  framer_wf f -> next_frame (framer_buffer f) = None -> events_fit (framer_buffer f) events ->
  ((framer_run f events).1, framer_buffer (framer_run f events).2) = deframe (framer_buffer f ++ received events) /\
  framer_wf (framer_run f events).2.
Proof.
  revert f. induction events as [|e events IH]; intros f Hf Hn Hfit.
  { cbn [framer_run received map concat fst snd]. rewrite app_nil_r. by rewrite deframe_none. }
  destruct Hfit as [Hl Hfit]. cbn [framer_run]. pose proof (framer_receive_deframe f e Hf Hl) as Hr.
  destruct (framer_receive f e) as [ms f1]. destruct Hr as [Hr Hf1].
  pose proof (deframe_drained (framer_buffer f ++ concat e)) as Hd.
  unfold received. cbn [map concat]. fold (received events).
  rewrite app_assoc, (deframe_app (framer_buffer f ++ concat e)). rewrite <- Hr in *. cbn [fst snd] in *.
  destruct (IH f1 Hf1 Hd Hfit) as [E Hwf]. destruct (framer_run f1 events) as [ms' f2]. cbn [fst snd] in *.
  split; [|done]. by rewrite <- E.
Qed.

(** Without any assumption on what arrives the framer stays within its limits. *)
Lemma framer_run_wf f events : framer_wf f -> framer_wf (framer_run f events).2.
Proof.
  revert f. induction events as [|e events IH]; intros f Hf; [done|]. cbn [framer_run].
  assert (framer_wf (framer_receive f e).2) as H1 by (apply drain_wf, feed_all_wf, Hf).
  destruct (framer_receive f e) as [ms f1]. specialize (IH f1 H1).
  by destruct (framer_run f1 events).
Qed.



Lemma events_fit_encoded F msgs frames b events :
  0 < F -> encode_all msgs = Some frames -> Forall (fun f => Z.of_nat (length f) <= F) frames ->
  concat frames = b ++ received events ->
  Forall (fun e => Z.of_nat (length (concat e)) <= FRAMER_LIMIT - F) events ->
  events_fit (deframe b).2 events.
Proof.
  intros HF E Hall. revert b. induction events as [|e events IH]; intros b Hc Hev; [done|].
  apply Forall_cons in Hev as [He Hev]. cbn [events_fit]. split.
  - pose proof (deframe_prefix F msgs frames b _ HF E Hall Hc). lia.
  - pose proof (deframe_app b (concat e)) as Ha. apply (f_equal snd) in Ha. cbn [snd] in Ha. rewrite <- Ha.
    apply IH; [|done]. rewrite Hc. unfold received. cbn [map concat]. by rewrite app_assoc.
Qed.

Lemma framer_run_delivers f F msgs frames events :
  framer_wf f -> framer_buffer f = [] ->
  0 < F -> encode_all msgs = Some frames -> Forall (fun f => Z.of_nat (length f) <= F) frames ->
  received events = concat frames ->
  Forall (fun e => Z.of_nat (length (concat e)) <= FRAMER_LIMIT - F) events ->
  (framer_run f events).1 = msgs /\ framer_buffer (framer_run f events).2 = [].
Proof.
  intros Hf Hb HF E Hall Hr Hev.
  assert (events_fit (framer_buffer f) events) as Hfit.
  { rewrite Hb. apply (events_fit_encoded F msgs frames [] events); auto. }
  destruct (framer_run_ok f events Hf (ltac:(by rewrite Hb)) Hfit) as [H _].
  rewrite Hb in H. cbn [app] in H. rewrite Hr, (deframe_encode msgs frames E) in H. by simplify_eq.
Qed.

(** Every message that can be framed is delivered, once and in order,
    however the transport cuts the stream into receive events, as long as an
    event and one frame fit the framer together; nothing is left over. *)
Theorem framer_delivers F msgs frames events :
  0 < F -> encode_all msgs = Some frames -> Forall (fun f => Z.of_nat (length f) <= F) frames ->
  received events = concat frames ->
  Forall (fun e => Z.of_nat (length (concat e)) <= FRAMER_LIMIT - F) events ->
  (framer_run stream_framer_create events).1 = msgs /\
  framer_buffer (framer_run stream_framer_create events).2 = [].
Proof. apply framer_run_delivers; [apply framer_create_wf|done]. Qed.

Lemma framer_delivers_witness :
  (framer_run stream_framer_create [[[0; 0]; [0; 2; 7]]; [[8; 0; 0; 0; 1; 9]]]).1 = [[7; 8]; [9]] /\
  framer_buffer (framer_run stream_framer_create [[[0; 0]; [0; 2; 7]]; [[8; 0; 0; 0; 1; 9]]]).2 = [].
Proof.
  apply (framer_delivers 6 [[7; 8]; [9]] [[0; 0; 0; 2; 7; 8]; [0; 0; 0; 1; 9]]); try reflexivity.
  - repeat constructor; vm_compute; congruence.
  - repeat constructor; vm_compute; congruence.
Defined.

(** Whatever a peer sends, and even though the result of a feed is not
    looked at, a framer never holds more than one frame of the largest size
    and its buffer never reaches twice that. *)
Theorem framer_bounded events :
  let f := (framer_run stream_framer_create events).2 in
  framer_used f <= framer_capacity f /\ framer_used f <= FRAMER_LIMIT /\ framer_capacity f < 2 * FRAMER_LIMIT.
Proof.
  pose proof (framer_run_wf stream_framer_create events framer_create_wf) as (Hu & Hl & Hc). cbv zeta. lia.
Qed.

(** The buffer does grow beyond the limit: 4 MiB for a full framer. *)
Lemma grow_past_limit : grow_capacity 64 STREAM_FRAMER_INITIAL_CAPACITY FRAMER_LIMIT = Some (4 * 1024 * 1024).
Proof. reflexivity. Qed.

(** A frame that announces more than the largest size is never taken out, so
    that nothing after it is delivered either. *)
Lemma oversize_stalls b n x : frame_length b = Some n -> STREAM_FRAMER_MAX_FRAME_SIZE < n -> deframe (b ++ x) = ([], b ++ x).
Proof.
  intros Hn Hl. apply deframe_none. unfold next_frame. rewrite (frame_length_app b x n Hn). simpl.
  by rewrite (proj2 (Z.ltb_lt _ _) Hl).
Qed.

Lemma framer_receive_wf f buffers : framer_wf f -> framer_wf (framer_receive f buffers).2.
Proof. intros Hf. apply drain_wf, feed_all_wf, Hf. Qed.
