(* ===== verification/Wire.v ===== *)
(** * Wire: the messages a node understands

    All message codecs of src/src/Network/wire.c behind the interface
    [WireMsg], and the two dispatchers of network_dispatch in
    src/src/Network/network.c that turn received bytes into messages: the
    NETWORK_QUIC_DATA case for direct connections and the NETWORK_RELAY_RECEIVED
    case for messages that came through a relay.  A dispatcher yields the
    message it hands to the handler, [REJECTED] when it drops the data and
    [ILL_TYPED] when a decoder reads an item as what it is not. *)

From S2P Require Import Prelude Cbor CborCodec WireBase WirePing WireBlock WireRelay WireClosest.
Local Open Scope Z_scope.

(** ** A message of any type *)

Inductive wire_kind :=
| Kind_Ping | Kind_PingResponse | Kind_PingCapacity | Kind_PingCapacityResponse
| Kind_PingBlock | Kind_PingBlockResponse | Kind_FindBlock | Kind_FindBlockResponse
| Kind_FindNode | Kind_FindNodeResponse | Kind_StoreBlock | Kind_StoreBlockResponse
| Kind_SeekingBlocks | Kind_SeekingBlocksResponse | Kind_RankBlock | Kind_RecallBlock
| Kind_RecallAccept | Kind_RecallDecline | Kind_RateLimited | Kind_Salutation
| Kind_RelaySend | Kind_RelayReceived | Kind_AddrRequest | Kind_AddrResponse
| Kind_RelayChallenge | Kind_RelayChallengeResponse | Kind_RelayPunch | Kind_Gossip
| Kind_GossipPull | Kind_AntiEntropy | Kind_AntiEntropyOffer | Kind_AntiEntropyResp
| Kind_ClosestNodes | Kind_ClosestNodesResponse | Kind_MeasureNodes | Kind_MeasureNodesResponse
| Kind_ClosestNodesProgress.

#[export] Instance wire_kind_eq_dec : EqDecision wire_kind.
Proof. solve_decision. Defined.

(** The structure of a message. *)
Definition wire_struct (k : wire_kind) : Type :=
  match k with
  | Kind_Ping => wire_ping_t
  | Kind_PingResponse => wire_ping_response_t
  | Kind_PingCapacity => wire_ping_capacity_t
  | Kind_PingCapacityResponse => wire_ping_capacity_response_t
  | Kind_PingBlock => wire_ping_block_t
  | Kind_PingBlockResponse => wire_ping_block_response_t
  | Kind_FindBlock => wire_find_block_t
  | Kind_FindBlockResponse => wire_find_block_response_t
  | Kind_FindNode => wire_find_node_t
  | Kind_FindNodeResponse => wire_find_node_response_t
  | Kind_StoreBlock => wire_store_block_t
  | Kind_StoreBlockResponse => wire_store_block_response_t
  | Kind_SeekingBlocks => wire_seeking_blocks_t
  | Kind_SeekingBlocksResponse => wire_seeking_blocks_response_t
  | Kind_RankBlock => wire_rank_block_t
  | Kind_RecallBlock => wire_recall_block_t
  | Kind_RecallAccept => wire_recall_accept_t
  | Kind_RecallDecline => wire_recall_decline_t
  | Kind_RateLimited => wire_rate_limited_t
  | Kind_Salutation => wire_salutation_t
  | Kind_RelaySend => wire_relay_send_t
  | Kind_RelayReceived => wire_relay_received_t
  | Kind_AddrRequest => wire_addr_request_t
  | Kind_AddrResponse => wire_addr_response_t
  | Kind_RelayChallenge => wire_relay_challenge_t
  | Kind_RelayChallengeResponse => wire_relay_challenge_response_t
  | Kind_RelayPunch => wire_relay_punch_t
  | Kind_Gossip => wire_gossip_t
  | Kind_GossipPull => wire_gossip_pull_t
  | Kind_AntiEntropy => wire_anti_entropy_t
  | Kind_AntiEntropyOffer => wire_anti_entropy_offer_t
  | Kind_AntiEntropyResp => anti_entropy_response
  | Kind_ClosestNodes => wire_closest_nodes_t
  | Kind_ClosestNodesResponse => wire_closest_nodes_response_t
  | Kind_MeasureNodes => wire_measure_nodes_t
  | Kind_MeasureNodesResponse => wire_measure_nodes_response_t
  | Kind_ClosestNodesProgress => wire_closest_nodes_progress_t
  end.

#[export] Instance wire_codec_of {C : Cbor} (k : wire_kind) : WireMsg (wire_struct k) :=
  match k with
  | Kind_Ping => wire_ping
  | Kind_PingResponse => wire_ping_response
  | Kind_PingCapacity => wire_ping_capacity
  | Kind_PingCapacityResponse => wire_ping_capacity_response
  | Kind_PingBlock => wire_ping_block
  | Kind_PingBlockResponse => wire_ping_block_response
  | Kind_FindBlock => wire_find_block
  | Kind_FindBlockResponse => wire_find_block_response
  | Kind_FindNode => wire_find_node
  | Kind_FindNodeResponse => wire_find_node_response
  | Kind_StoreBlock => wire_store_block
  | Kind_StoreBlockResponse => wire_store_block_response
  | Kind_SeekingBlocks => wire_seeking_blocks
  | Kind_SeekingBlocksResponse => wire_seeking_blocks_response
  | Kind_RankBlock => wire_rank_block
  | Kind_RecallBlock => wire_recall_block
  | Kind_RecallAccept => wire_recall_accept
  | Kind_RecallDecline => wire_recall_decline
  | Kind_RateLimited => wire_rate_limited
  | Kind_Salutation => wire_salutation
  | Kind_RelaySend => wire_relay_send
  | Kind_RelayReceived => wire_relay_received
  | Kind_AddrRequest => wire_addr_request
  | Kind_AddrResponse => wire_addr_response
  | Kind_RelayChallenge => wire_relay_challenge
  | Kind_RelayChallengeResponse => wire_relay_challenge_response
  | Kind_RelayPunch => wire_relay_punch
  | Kind_Gossip => wire_gossip
  | Kind_GossipPull => wire_gossip_pull
  | Kind_AntiEntropy => wire_anti_entropy
  | Kind_AntiEntropyOffer => wire_anti_entropy_offer
  | Kind_AntiEntropyResp => wire_anti_entropy_response
  | Kind_ClosestNodes => wire_closest_nodes
  | Kind_ClosestNodesResponse => wire_closest_nodes_response
  | Kind_MeasureNodes => wire_measure_nodes
  | Kind_MeasureNodesResponse => wire_measure_nodes_response
  | Kind_ClosestNodesProgress => wire_closest_nodes_progress
  end.

#[export] Instance wire_codec_of_laws {C : Cbor} {CL : CborLaws} (k : wire_kind) : WireMsgLaws (wire_struct k).
Proof. destruct k; apply _. Qed.

#[export] Instance wire_codec_of_serial {C : Cbor} {CS : CborSerial} {CSL : CborSerialLaws} (k : wire_kind) :
  WireMsgSerial (wire_struct k).
Proof. destruct k; apply _. Qed.

(** The type byte. *)
Definition kind_type (k : wire_kind) : Z :=
  match k with
  | Kind_Ping => WIRE_PING
  | Kind_PingResponse => WIRE_PING_RESPONSE
  | Kind_PingCapacity => WIRE_PING_CAPACITY
  | Kind_PingCapacityResponse => WIRE_PING_CAPACITY_RESPONSE
  | Kind_PingBlock => WIRE_PING_BLOCK
  | Kind_PingBlockResponse => WIRE_PING_BLOCK_RESPONSE
  | Kind_FindBlock => WIRE_FIND_BLOCK
  | Kind_FindBlockResponse => WIRE_FIND_BLOCK_RESPONSE
  | Kind_FindNode => WIRE_FIND_NODE
  | Kind_FindNodeResponse => WIRE_FIND_NODE_RESPONSE
  | Kind_StoreBlock => WIRE_STORE_BLOCK
  | Kind_StoreBlockResponse => WIRE_STORE_BLOCK_RESPONSE
  | Kind_SeekingBlocks => WIRE_SEEKING_BLOCKS
  | Kind_SeekingBlocksResponse => WIRE_SEEKING_BLOCKS_RESPONSE
  | Kind_RankBlock => WIRE_RANK_BLOCK
  | Kind_RecallBlock => WIRE_RECALL_BLOCK
  | Kind_RecallAccept => WIRE_RECALL_ACCEPT
  | Kind_RecallDecline => WIRE_RECALL_DECLINE
  | Kind_RateLimited => WIRE_RATE_LIMITED
  | Kind_Salutation => WIRE_SALUTATION
  | Kind_RelaySend => WIRE_RELAY_SEND
  | Kind_RelayReceived => WIRE_RELAY_RECEIVED
  | Kind_AddrRequest => WIRE_ADDR_REQUEST
  | Kind_AddrResponse => WIRE_ADDR_RESPONSE
  | Kind_RelayChallenge => WIRE_RELAY_CHALLENGE
  | Kind_RelayChallengeResponse => WIRE_RELAY_CHALLENGE_RESPONSE
  | Kind_RelayPunch => WIRE_RELAY_PUNCH
  | Kind_Gossip => WIRE_GOSSIP
  | Kind_GossipPull => WIRE_GOSSIP_PULL
  | Kind_AntiEntropy => WIRE_ANTI_ENTROPY
  | Kind_AntiEntropyOffer => WIRE_ANTI_ENTROPY_OFFER
  | Kind_AntiEntropyResp => WIRE_ANTI_ENTROPY_RESPONSE
  | Kind_ClosestNodes => WIRE_CLOSEST_NODES
  | Kind_ClosestNodesResponse => WIRE_CLOSEST_NODES_RESPONSE
  | Kind_MeasureNodes => WIRE_MEASURE_NODES
  | Kind_MeasureNodesResponse => WIRE_MEASURE_NODES_RESPONSE
  | Kind_ClosestNodesProgress => WIRE_CLOSEST_NODES_PROGRESS
  end.

Lemma kind_type_of {C : Cbor} k : msg_type (M := wire_struct k) = kind_type k.
Proof. by destruct k. Qed.

Record wire_msg := Msg { msg_kind : wire_kind; msg_body : wire_struct msg_kind }.

(** ** Dispatch *)

(** The cases of the switch for direct connections. *)
Definition quic_kinds : list wire_kind :=
  [Kind_Salutation; Kind_Ping; Kind_PingCapacity; Kind_PingBlock;
   Kind_FindBlock; Kind_FindNode; Kind_StoreBlock; Kind_SeekingBlocks;
   Kind_RankBlock; Kind_RecallBlock; Kind_PingResponse; Kind_PingCapacityResponse;
   Kind_PingBlockResponse; Kind_FindBlockResponse; Kind_FindNodeResponse; Kind_StoreBlockResponse;
   Kind_SeekingBlocksResponse; Kind_RecallAccept; Kind_RecallDecline; Kind_RateLimited;
   Kind_Gossip; Kind_GossipPull; Kind_AntiEntropy; Kind_AntiEntropyOffer;
   Kind_AntiEntropyResp; Kind_ClosestNodes; Kind_ClosestNodesResponse; Kind_MeasureNodes;
   Kind_MeasureNodesResponse; Kind_ClosestNodesProgress].

(** The cases of the switch for relayed messages. *)
Definition relay_kinds : list wire_kind :=
  [Kind_Ping; Kind_PingResponse; Kind_PingCapacity; Kind_PingCapacityResponse;
   Kind_PingBlock; Kind_PingBlockResponse; Kind_FindBlock; Kind_FindBlockResponse;
   Kind_FindNode; Kind_FindNodeResponse; Kind_StoreBlock; Kind_StoreBlockResponse;
   Kind_SeekingBlocks; Kind_RankBlock; Kind_RecallBlock; Kind_SeekingBlocksResponse;
   Kind_RecallAccept; Kind_RecallDecline; Kind_RateLimited; Kind_Gossip;
   Kind_GossipPull; Kind_AntiEntropy; Kind_AntiEntropyOffer; Kind_AntiEntropyResp;
   Kind_ClosestNodes; Kind_ClosestNodesResponse; Kind_MeasureNodes; Kind_MeasureNodesResponse;
   Kind_ClosestNodesProgress; Kind_RelayChallenge; Kind_RelayChallengeResponse; Kind_RelayPunch].

Section Wire.
Context {C : Cbor}.

Definition wire_encode (m : wire_msg) : option cbor_item := msg_encode (msg_body m).
Definition wire_ok (m : wire_msg) : Prop := msg_ok (msg_body m).
Definition wire_bounds (m : wire_msg) : Prop := msg_bounds (msg_body m).

(** A switch on the type byte: the case's decoder, applied to the item. *)
Definition wire_dispatch (kinds : list wire_kind) (item : cbor_item) : decoded wire_msg :=
  match find (fun k => kind_type k =? wire_get_type item) kinds with
  | Some k => Msg k <$> msg_decode (M := wire_struct k) item
  | None => REJECTED
  end.
End Wire.

(** ** Receiving *)

Section Receive.
Context {C : Cbor} {CS : CborSerial}.

(** The NETWORK_QUIC_DATA case.  [pending] tells whether the connection is still
    waiting for its salutation, [allow] what the rate limiter says of a type
    for the peer of the connection. *)
Definition quic_receive (pending : bool) (allow : Z -> bool) (data : bytes) : decoded wire_msg :=
  match (if (length data =? 0)%nat || (2097152 <? Z.of_nat (length data)) then None else cbor_load data) with
  | None => REJECTED
  | Some item =>
      if negb (cbor_isa_array item) || (cbor_array_size item <? 1)%nat then REJECTED
      else
        let type := wire_get_type item in
        if negb (type =? WIRE_SALUTATION) && pending then REJECTED
        else if negb (type =? WIRE_SALUTATION) && negb (type =? WIRE_RATE_LIMITED) && negb (allow type) then REJECTED
        else wire_dispatch quic_kinds item
  end.

(** The NETWORK_RELAY_RECEIVED case: the sender, which is admitted as a peer if
    it is decoded, and the message.  The sender is taken from the second element
    whatever the type of the message, so also from an element that is not a
    node id. *)
Definition relay_receive (allow : Z -> bool) (data : bytes) : decoded node_id_t * decoded wire_msg :=
  match (if (length data =? 0)%nat then None else cbor_load data) with
  | None => (REJECTED, REJECTED)
  | Some item =>
      if negb (cbor_isa_array item) || (cbor_array_size item <? 1)%nat then (REJECTED, REJECTED)
      else
        let type := wire_get_type item in
        (wire_extract_sender_id item,
         if negb (type =? WIRE_RATE_LIMITED) && negb (type =? WIRE_RELAY_CHALLENGE) &&
            negb (type =? WIRE_RELAY_CHALLENGE_RESPONSE) && negb (allow type)
         then REJECTED else wire_dispatch relay_kinds item)
  end.
End Receive.

(** ** Types *)

(** Within each switch the cases are distinct. *)
Lemma quic_types_distinct : NoDup (map kind_type quic_kinds).
Proof. apply (bool_decide_unpack _). by vm_compute. Qed.

Lemma relay_types_distinct : NoDup (map kind_type relay_kinds).
Proof. apply (bool_decide_unpack _). by vm_compute. Qed.

Lemma find_kind kinds k :
  NoDup (map kind_type kinds) -> k ∈ kinds -> find (fun k' => kind_type k' =? kind_type k) kinds = Some k.
Proof.
  induction kinds as [|k' kinds IH]; intros Hnd Hin; [by apply elem_of_nil in Hin|].
  cbn [map find] in *. apply NoDup_cons in Hnd as [Hn Hnd].
  apply elem_of_cons in Hin as [->|Hin]; [by rewrite Z.eqb_refl|].
  destruct (Z.eqb_spec (kind_type k') (kind_type k)) as [E|]; [|auto].
  contradict Hn. rewrite E. apply list_elem_of_fmap_2. done.
Qed.

Section Theorems.
Context {C : Cbor} {CL : CborLaws}.

Lemma wire_encode_type m item : wire_ok m -> wire_encode m = Some item ->
  wire_get_type item = kind_type (msg_kind m) /\ cbor_isa_array item = true /\ (1 <= cbor_array_size item)%nat.
Proof.
  intros Hok E. destruct (msg_encode_type _ Hok) as [l Hl]. unfold wire_encode in E. rewrite Hl in E.
  simplify_eq. rewrite kind_type_of. split_and!.
  - apply wire_get_type_at; [done|]. rewrite <- kind_type_of. apply msg_type_u8.
  - unfold cbor_isa_array. by rewrite typeof_array.
  - unfold cbor_array_size. rewrite array_items. simpl. lia.
Qed.

Lemma dispatch_encode kinds m item :
  NoDup (map kind_type kinds) -> msg_kind m ∈ kinds -> wire_ok m -> wire_encode m = Some item ->
  wire_dispatch kinds item = DECODED m.
Proof.
  intros Hnd Hin Hok E. unfold wire_dispatch. destruct (wire_encode_type m item Hok E) as [-> _].
  rewrite (find_kind kinds _ Hnd Hin).
  rewrite (msg_roundtrip _ _ Hok E). by destruct m.
Qed.

Lemma dispatch_sound kinds item m :
  wire_dispatch kinds item = DECODED m -> msg_kind m ∈ kinds /\ wire_bounds m /\ wire_get_type item = kind_type (msg_kind m).
Proof.
  unfold wire_dispatch. destruct (find _ kinds) as [k|] eqn:Hk; [|done]. intros (b & Hb & ->)%fmap_DECODED.
  apply find_some in Hk as [Hin Ht]. split_and!.
  - by apply list_elem_of_In.
  - by apply (msg_decode_bounds item).
  - apply Z.eqb_eq in Ht. done.
Qed.
End Theorems.
