(* ===== verification/RelayServer.v ===== *)
(** * RelayServer: the relay's client table and message forwarding

    Models src/src/Network/Relay/relay_server.c: the connection callback, the
    stream callback with its framer, and the two requests a client can make.
    The server is a transition system driven by the events of the QUIC
    library; a transition yields the frames it sends, each with the stream it
    goes to.  QUIC handles are numbers; [remote] answers the query for the
    remote address of a connection.  Frames that cannot be built or sent are
    logged and dropped, as in the source. *)

From S2P Require Import Prelude Cbor CborCodec WireBase WireRelay Framer.
Local Open Scope Z_scope.

Definition RELAY_MAX_CLIENTS : nat := 256.

Record relay_client_entry_t := {
  endpoint_id : Z;
  connection : option Z;
  stream : option Z;
  framer : option stream_framer_t;
  active : bool
}.

Record relay_server_t := {
  clients : list relay_client_entry_t;
  num_clients : Z;
  next_endpoint_id : Z
}.

(** A cleared slot. *)
Definition no_client : relay_client_entry_t :=
  {| endpoint_id := 0; connection := None; stream := None; framer := None; active := false |}.

Definition relay_server_create : relay_server_t :=
  {| clients := replicate RELAY_MAX_CLIENTS no_client; num_clients := 0; next_endpoint_id := 1 |}.

Definition set_client (s : relay_server_t) (i : nat) (c : relay_client_entry_t) : relay_server_t :=
  {| clients := <[i := c]> (clients s); num_clients := num_clients s; next_endpoint_id := next_endpoint_id s |}.

(** The index of the first slot with a property. *)
Fixpoint find_index {A} (p : A -> bool) (l : list A) : option nat :=
  match l with
  | [] => None
  | x :: l => if p x then Some 0%nat else S <$> find_index p l
  end.

Definition _relay_find_client_by_endpoint (s : relay_server_t) (id : Z) : option nat :=
  find_index (fun c => active c && (endpoint_id c =? id)) (clients s).

Definition find_by_connection (s : relay_server_t) (conn : Z) : option nat :=
  find_index (fun c => active c && bool_decide (connection c = Some conn)) (clients s).

(** ** Connections *)

(** QUIC_CONNECTION_EVENT_CONNECTED *)
Definition relay_connected (s : relay_server_t) (conn : Z) : relay_server_t :=
  if Z.of_nat RELAY_MAX_CLIENTS <=? num_clients s then s
  else
    let slot := default (Z.to_nat (num_clients s)) (find_index (fun c => negb (active c)) (clients s)) in
    {| clients := <[slot := {| endpoint_id := next_endpoint_id s; connection := Some conn; stream := None;
                               framer := Some stream_framer_create; active := true |}]> (clients s);
       num_clients := num_clients s + 1;
       next_endpoint_id := u32 (next_endpoint_id s + 1) |}.

(** QUIC_CONNECTION_EVENT_PEER_STREAM_STARTED *)
Definition relay_stream_started (s : relay_server_t) (conn strm : Z) : relay_server_t :=
  match find_by_connection s conn with
  | None => s
  | Some i =>
      match clients s !! i with
      | Some c =>
          if stream c is Some _ then s
          else set_client s i {| endpoint_id := endpoint_id c; connection := connection c; stream := Some strm;
                                 framer := framer c; active := active c |}
      | None => s
      end
  end.

(** QUIC_CONNECTION_EVENT_SHUTDOWN_COMPLETE, with [_relay_remove_client] *)
Definition relay_shutdown (s : relay_server_t) (conn : Z) : relay_server_t :=
  match find_by_connection s conn with
  | None => s
  | Some i =>
      {| clients := <[i := no_client]> (clients s);
         num_clients := if 0 <? num_clients s then num_clients s - 1 else num_clients s;
         next_endpoint_id := next_endpoint_id s |}
  end.

(** ** Messages *)

(** The remote address of a connection: family, address and port. *)
Inductive quic_addr :=
| QUIC_ADDRESS_FAMILY_INET (addr port : Z)
| QUIC_ADDRESS_FAMILY_INET6 (b : bytes) (port : Z)
| QUIC_ADDRESS_FAMILY_OTHER.

(** [IN6_IS_ADDR_V4MAPPED] *)
Definition is_v4_mapped (b : bytes) : bool :=
  bool_decide (take 12 b = replicate 10 0 ++ [0xFF; 0xFF]).

Definition mapped_v4 (b : bytes) : Z :=
  match drop 12 b with
  | b12 :: b13 :: b14 :: b15 :: _ =>
      Z.lor (u32 (Z.shiftl b12 24)) (Z.lor (u32 (Z.shiftl b13 16)) (Z.lor (u32 (Z.shiftl b14 8)) b15))
  | _ => 0
  end.

(** The reflexive address reported to a client. *)
Definition reflexive_of (a : quic_addr) : Z * Z * wire_addr_t :=
  match a with
  | QUIC_ADDRESS_FAMILY_INET addr port => (addr, port, wire_addr_clear)
  | QUIC_ADDRESS_FAMILY_INET6 b port =>
      if is_v4_mapped b then (mapped_v4 b, port, wire_addr_clear) else (0, port, wire_addr_set_v6 b)
  | QUIC_ADDRESS_FAMILY_OTHER => (0, 0, wire_addr_clear)
  end.

Section Server.
Context {C : Cbor} {CS : CborSerial}.
Variable remote : Z -> option quic_addr.

(** [_relay_send_on_stream]: the frame, if it can be built. *)
Definition _relay_send_on_stream (strm : option Z) (data : bytes) : list (option Z * bytes) :=
  match stream_frame_encode data with
  | Some framed => [(strm, framed)]
  | None => []
  end.

Definition _relay_handle_addr_request (c : relay_client_entry_t) (message_id : Z) : list (option Z * bytes) :=
  match connection c ≫= remote with
  | None => []
  | Some a =>
      let '(addr, port, addr6) := reflexive_of a in
      match wire_addr_response_encode {|
              ares_message_id := message_id; ares_endpoint_id := endpoint_id c; ares_reflexive_addr := addr;
              ares_reflexive_port := port; ares_reflexive6 := addr6 |} with
      | None => []
      | Some item => _relay_send_on_stream (stream c) (cbor_serialize item)
      end
  end.

(** The sender is what the server knows it to be, not what it says. *)
Definition _relay_handle_relay_send (s : relay_server_t) (m : wire_relay_send_t) : list (option Z * bytes) :=
  match _relay_find_client_by_endpoint s (rs_dest_endpoint_id m) ≫= (fun i => clients s !! i) with
  | None => []
  | Some dest =>
      _relay_send_on_stream (stream dest) (cbor_serialize (wire_relay_received_encode
        {| rr_src_endpoint_id := rs_src_endpoint_id m; rr_payload := rs_payload m |}))
  end.

(** Neither decoder can be made to read an item as what it is not
    ([relay_decoders_typed] below). *)
Definition _relay_process_message (s : relay_server_t) (c : relay_client_entry_t) (data : bytes)
  : list (option Z * bytes) :=
  match cbor_load data with
  | None => []
  | Some item =>
      let type := wire_get_type item in
      if type =? WIRE_ADDR_REQUEST then
        match wire_addr_request_decode item with
        | DECODED m => _relay_handle_addr_request c (areq_message_id m)
        | REJECTED | ILL_TYPED => []
        end
      else if type =? WIRE_RELAY_SEND then
        match wire_relay_send_decode item with
        | DECODED m =>
            _relay_handle_relay_send s
              {| rs_src_endpoint_id := endpoint_id c; rs_dest_endpoint_id := rs_dest_endpoint_id m;
                 rs_payload := rs_payload m |}
        | REJECTED | ILL_TYPED => []
        end
      else []
  end.

(** QUIC_STREAM_EVENT_RECEIVE on the stream of slot [i]. *)
Definition relay_stream_receive (s : relay_server_t) (i : nat) (buffers : list bytes)
  : relay_server_t * list (option Z * bytes) :=
  match clients s !! i with
  | Some c =>
      match framer c with
      | Some f =>
          let '(messages, f) := framer_receive f buffers in
          let c := {| endpoint_id := endpoint_id c; connection := connection c; stream := stream c;
                      framer := Some f; active := active c |} in
          let s := set_client s i c in
          (s, concat (map (_relay_process_message s c) messages))
      | None => (s, [])
      end
  | None => (s, [])
  end.

(** ** The transition system *)

Inductive relay_event :=
| Connected (conn : Z)
| StreamStarted (conn strm : Z)
| Receive (slot : nat) (buffers : list bytes)
| ShutdownComplete (conn : Z).

Definition relay_handle (s : relay_server_t) (e : relay_event) : relay_server_t * list (option Z * bytes) :=
  match e with
  | Connected conn => (relay_connected s conn, [])
  | StreamStarted conn strm => (relay_stream_started s conn strm, [])
  | Receive i buffers => relay_stream_receive s i buffers
  | ShutdownComplete conn => (relay_shutdown s conn, [])
  end.

(** Endpoint ids given out at an event: one for a connection the table has room
    for. *)
Definition ids_given (s : relay_server_t) (e : relay_event) : Z :=
  if e is Connected _ then if Z.of_nat RELAY_MAX_CLIENTS <=? num_clients s then 0 else 1 else 0.

(** The states a server passes through, with the number of endpoint ids given
    out so far.  A handle MsQuic gives to a new connection is not that of one
    that is still open. *)
Inductive relay_reachable : Z -> relay_server_t -> Prop :=
| relay_init : relay_reachable 0 relay_server_create
| relay_step n s e :
    relay_reachable n s ->
    (forall conn, e = Connected conn -> find_by_connection s conn = None) ->
    relay_reachable (n + ids_given s e) (relay_handle s e).1.
End Server.

Lemma array_get_typed {C : Cbor} item k : (k < cbor_array_size item)%nat -> exists i, array_get item k = DECODED i.
Proof. intros Hk. unfold array_get, cbor_array_get. apply lookup_lt_is_Some in Hk as [i ->]. by exists i. Qed.

Lemma array_get_uint32_typed {C : Cbor} item k : (k < cbor_array_size item)%nat -> _array_get_uint32 item k <> ILL_TYPED.
Proof. intros [i Hi]%array_get_typed. unfold _array_get_uint32. rewrite Hi. cbn. by case_match. Qed.

Lemma array_get_split_typed {C : Cbor} item k : (S k < cbor_array_size item)%nat -> array_get_split item k <> ILL_TYPED.
Proof.
  intros Hk. destruct (array_get_typed item k) as [i Hi]; [lia|]. destruct (array_get_typed item (S k)) as [j Hj]; [lia|].
  unfold array_get_split, _array_get_int. rewrite Hi, Hj. cbn. by repeat case_match.
Qed.

Lemma bind_typed {A B} (x : decoded A) (k : A -> decoded B) :
  x <> ILL_TYPED -> (forall a, k a <> ILL_TYPED) -> x ≫= k <> ILL_TYPED.
Proof. intros Hx Hk. destruct x; cbn; auto. Qed.

Lemma header_typed {C : Cbor} {A} item n type (k : decoded A) :
  (1 <= n)%nat -> ((n <= cbor_array_size item)%nat -> k <> ILL_TYPED) -> (_ ← check_header item n type; k) <> ILL_TYPED.
Proof.
  intros Hn Hk. unfold check_header. case_match eqn:Hs; [done|]. apply orb_false_iff in Hs as [_ Hs%Nat.ltb_ge].
  destruct (array_get_typed item 0) as [i Hi]; [lia|]. unfold _array_get_uint8. rewrite Hi. cbn.
  destruct (cbor_isa_uint i); [|done]. cbn. case_match; [by apply Hk|done].
Qed.

(** The messages a relay reads have no node id, so that a client cannot make
    their decoders leave the contract of libcbor. *)
Lemma relay_decoders_typed {C : Cbor} item :
  wire_addr_request_decode item <> ILL_TYPED /\ wire_relay_send_decode item <> ILL_TYPED.
Proof.
  split.
  - unfold wire_addr_request_decode. apply header_typed; [lia|]. intros Hs.
    apply bind_typed; [apply array_get_split_typed; lia|done].
  - unfold wire_relay_send_decode. apply header_typed; [lia|]. intros Hs.
    apply bind_typed; [apply array_get_uint32_typed; lia|]. intros src.
    apply bind_typed; [apply array_get_uint32_typed; lia|]. intros dest.
    unfold array_get_data. by destruct (array_get_typed item 3) as [i ->]; [lia|].
Qed.

(** ** The client table *)

Definition count_active (l : list relay_client_entry_t) : nat := length (List.filter active l).

Lemma count_active_insert l i c c' :
  l !! i = Some c ->
  (count_active (<[i := c']> l) + Nat.b2n (active c) = count_active l + Nat.b2n (active c'))%nat.
Proof.
  unfold count_active. revert i. induction l as [|x l IH]; intros [|i] Hi; simpl in *; try done.
  - simplify_eq. destruct (active c), (active c'); simpl; lia.
  - specialize (IH i Hi). destruct (active x); simpl; lia.
Qed.

Lemma find_index_Some {A} (p : A -> bool) l i :
  find_index p l = Some i -> exists x, l !! i = Some x /\ p x = true.
Proof.
  revert i. induction l as [|x l IH]; intros i; simpl; [done|].
  destruct (p x) eqn:E; [intros [= <-]; by exists x|].
  intros (j & Hj & ->)%fmap_Some. apply IH, Hj.
Qed.

Lemma find_index_None {A} (p : A -> bool) l i x :
  find_index p l = None -> l !! i = Some x -> p x = false.
Proof.
  revert i. induction l as [|y l IH]; intros i; simpl; [done|].
  destruct (p y) eqn:E; [done|]. intros Hn%fmap_None. destruct i as [|i]; simpl; [by intros [= <-]|by apply IH].
Qed.

(** A property that at most one slot has. *)
Lemma find_index_unique {A} (p : A -> bool) l i x :
  l !! i = Some x -> p x = true -> (forall j y, l !! j = Some y -> p y = true -> j = i) -> find_index p l = Some i.
Proof.
  intros Hi Hp Hu. destruct (find_index p l) as [j|] eqn:E.
  - apply find_index_Some in E as (y & Hj & Hy). by rewrite (Hu j y Hj Hy).
  - by rewrite (find_index_None p l i x E Hi) in Hp.
Qed.

(** What the table of a running server looks like. *)
Record relay_inv (s : relay_server_t) : Prop := {
  inv_slots : length (clients s) = RELAY_MAX_CLIENTS;
  inv_count : num_clients s = Z.of_nat (count_active (clients s));
  inv_next : 1 <= next_endpoint_id s <= U32_MAX;
  inv_inactive i c : clients s !! i = Some c -> active c = false -> c = no_client;
  inv_active i c : clients s !! i = Some c -> active c = true ->
    1 <= endpoint_id c < next_endpoint_id s /\ is_Some (connection c) /\
    exists f, framer c = Some f /\ framer_wf f;
  inv_endpoints i j c d : clients s !! i = Some c -> clients s !! j = Some d -> active c = true -> active d = true ->
    endpoint_id c = endpoint_id d -> i = j;
  inv_connections i j c d : clients s !! i = Some c -> clients s !! j = Some d -> active c = true -> active d = true ->
    connection c = connection d -> i = j
}.

Lemma relay_create_inv : relay_inv relay_server_create.
Proof.
  assert (forall i c, clients relay_server_create !! i = Some c -> c = no_client) as Hc.
  { intros i c H. by apply lookup_replicate_1 in H as [-> _]. }
  split; try done.
  - intros i c H _. by eapply Hc.
  - intros i c H. by rewrite (Hc i c H).
  - intros i j c d H. by rewrite (Hc i c H).
  - intros i j c d H. by rewrite (Hc i c H).
Qed.

(** A lookup after an update of slot [i]. *)
Lemma lookup_update {A} (l : list A) i x j y :
  <[i := x]> l !! j = Some y -> (i = j /\ y = x /\ (i < length l)%nat) \/ (i <> j /\ l !! j = Some y).
Proof. intros [(-> & -> & ?)|[? ?]]%list_lookup_insert_Some; auto. Qed.

Ltac update_cases H :=
  let E := fresh "E" in let E' := fresh "E" in
  apply lookup_update in H as [(E & -> & E')|[E H]].

(** Updating the stream or the framer of a client. *)
Lemma set_client_inv s i c c' :
  relay_inv s -> clients s !! i = Some c -> active c = true -> active c' = true ->
  endpoint_id c' = endpoint_id c -> connection c' = connection c ->
  (exists f, framer c' = Some f /\ framer_wf f) -> relay_inv (set_client s i c').
Proof.
  intros [Hs Hc Hn Hi Ha He Hk] Hl Hact Hact' Heq Hkeq Hf. split; simpl.
  - by rewrite length_insert.
  - pose proof (count_active_insert (clients s) i c c' Hl) as H. rewrite Hact, Hact' in H. simpl in H. lia.
  - done.
  - intros j d H. update_cases H; [congruence|by eapply Hi].
  - intros j d H Hd. update_cases H; [|by eapply Ha]. destruct (Ha i c Hl Hact) as (? & ? & _).
    rewrite Heq, Hkeq. auto.
  - intros j k d e Hj Hk' Hd He' Hde. update_cases Hj; update_cases Hk'; try congruence.
    + subst. eapply (He j k); try done. congruence.
    + subst. eapply (He j k); try done. congruence.
    + by eapply (He j k).
  - intros j k d e Hj Hk' Hd He' Hde. update_cases Hj; update_cases Hk'; try congruence.
    + subst. eapply (Hk j k); try done. congruence.
    + subst. eapply (Hk j k); try done. congruence.
    + by eapply (Hk j k).
Qed.

(** There is a free slot while the table is not full. *)
Lemma free_slot s :
  relay_inv s -> num_clients s < Z.of_nat RELAY_MAX_CLIENTS ->
  exists i, find_index (fun c => negb (active c)) (clients s) = Some i /\ clients s !! i = Some no_client.
Proof.
  intros [Hs Hc _ Hi _ _ _] Hlt. destruct (find_index _ (clients s)) as [i|] eqn:E.
  - exists i. split; [done|]. apply find_index_Some in E as (c & Hl & Hp).
    rewrite (Hi i c Hl) in Hl; [done|]. by destruct (active c).
  - exfalso. assert (count_active (clients s) = length (clients s)); [|rewrite Hc, H, Hs in Hlt; lia].
    unfold count_active. rewrite List.forallb_filter_id; [done|].
    apply List.forallb_forall. intros c (i & Hl)%list_elem_of_In%list_elem_of_lookup.
    apply (find_index_None _ _ i c) in E; [|done]. simpl in E. by destruct (active c).
Qed.

Lemma relay_connected_inv s conn :
  relay_inv s -> find_by_connection s conn = None -> next_endpoint_id s < U32_MAX ->
  relay_inv (relay_connected s conn).
Proof.
  intros Hinv Hfresh Hmax. unfold relay_connected.
  destruct (Z.leb_spec (Z.of_nat RELAY_MAX_CLIENTS) (num_clients s)) as [|Hlt]; [done|].
  destruct (free_slot s Hinv Hlt) as (i & -> & Hl). cbn [default]. destruct Hinv as [Hs Hc Hn Hi Ha He Hk].
  assert (u32 (next_endpoint_id s + 1) = next_endpoint_id s + 1) as Hu.
  { apply u32_small. unfold is_u32. unfold U32_MAX in *. lia. }
  assert (forall j d, clients s !! j = Some d -> active d = true -> connection d <> Some conn) as Hnew.
  { intros j d Hj Hd Hcd. apply (find_index_None _ _ j d) in Hfresh; [|done].
    simpl in Hfresh. rewrite Hd, Hcd in Hfresh. by rewrite bool_decide_true in Hfresh. }
  split; simpl; rewrite ?Hu.
  - by rewrite length_insert.
  - match goal with |- context [<[i := ?c]> _] =>
      pose proof (count_active_insert (clients s) i no_client c Hl) as H end. simpl in H. lia.
  - unfold U32_MAX in *. lia.
  - intros j d H. update_cases H; [done|by eapply Hi].
  - intros j d H Hd. update_cases H; simpl.
    + split_and!; [lia|lia|by eexists|]. eexists. split; [done|]. apply framer_create_wf.
    + destruct (Ha j d H Hd) as (? & ? & ?). split_and!; try done; lia.
  - intros j k d e Hj Hk' Hd He' Hde. update_cases Hj; update_cases Hk'; simpl in *; try congruence.
    + destruct (Ha k e Hk' He') as (? & _). lia.
    + destruct (Ha j d Hj Hd) as (? & _). lia.
    + by eapply (He j k).
  - intros j k d e Hj Hk' Hd He' Hde. update_cases Hj; update_cases Hk'; simpl in *; try congruence.
    + by destruct (Hnew k e Hk' He').
    + by destruct (Hnew j d Hj Hd).
    + by eapply (Hk j k).
Qed.

Lemma relay_shutdown_inv s conn : relay_inv s -> relay_inv (relay_shutdown s conn).
Proof.
  intros Hinv. unfold relay_shutdown. destruct (find_by_connection s conn) as [i|] eqn:E; [|done].
  apply find_index_Some in E as (c & Hl & [Hact _]%andb_true_iff). destruct Hinv as [Hs Hc Hn Hi Ha He Hk].
  pose proof (count_active_insert (clients s) i c no_client Hl) as Hcnt. rewrite Hact in Hcnt. simpl in Hcnt.
  split; simpl.
  - by rewrite length_insert.
  - destruct (Z.ltb_spec 0 (num_clients s)); lia.
  - done.
  - intros j d H. update_cases H; [done|by eapply Hi].
  - intros j d H Hd. update_cases H; [done|by eapply Ha].
  - intros j k d e Hj Hk' Hd He'. update_cases Hj; [done|]. update_cases Hk'; [done|]. by eapply He.
  - intros j k d e Hj Hk' Hd He'. update_cases Hj; [done|]. update_cases Hk'; [done|]. by eapply Hk.
Qed.

Lemma relay_stream_started_inv s conn strm : relay_inv s -> relay_inv (relay_stream_started s conn strm).
Proof.
  intros Hinv. unfold relay_stream_started. destruct (find_by_connection s conn) as [i|] eqn:E; [|done].
  apply find_index_Some in E as (c & Hl & [Hact _]%andb_true_iff). rewrite Hl. destruct (stream c); [done|].
  apply (set_client_inv s i c); try done. by destruct (inv_active s Hinv i c Hl Hact) as (_ & _ & Hf).
Qed.

Section Invariant.
Context {C : Cbor} {CS : CborSerial}.
Variable remote : Z -> option quic_addr.

Lemma relay_stream_receive_inv s i buffers :
  relay_inv s -> relay_inv (relay_stream_receive remote s i buffers).1.
Proof.
  intros Hinv. unfold relay_stream_receive. destruct (clients s !! i) as [c|] eqn:Hl; [|done].
  destruct (framer c) as [f|] eqn:Hf; [|done].
  destruct (active c) eqn:Hact; [|by rewrite (inv_inactive s Hinv i c Hl Hact) in Hf].
  destruct (inv_active s Hinv i c Hl Hact) as (_ & _ & f' & Hf' & Hwf). rewrite Hf in Hf'. simplify_eq.
  pose proof (framer_receive_wf f' buffers Hwf) as Hr. destruct (framer_receive f' buffers) as [ms f1].
  apply (set_client_inv s i c); try done. by exists f1.
Qed.

Lemma relay_stream_receive_next s i buffers :
  next_endpoint_id (relay_stream_receive remote s i buffers).1 = next_endpoint_id s.
Proof. unfold relay_stream_receive. by repeat (case_match; try done). Qed.

Lemma relay_stream_started_next s conn strm : next_endpoint_id (relay_stream_started s conn strm) = next_endpoint_id s.
Proof. unfold relay_stream_started. by repeat (case_match; try done). Qed.

Lemma relay_shutdown_next s conn : next_endpoint_id (relay_shutdown s conn) = next_endpoint_id s.
Proof. unfold relay_shutdown. by case_match. Qed.

(** Endpoint ids are given out in order as long as they do not wrap. *)
Lemma relay_connected_next s conn :
  1 <= next_endpoint_id s -> next_endpoint_id s + ids_given s (Connected conn) <= U32_MAX ->
  next_endpoint_id (relay_connected s conn) = next_endpoint_id s + ids_given s (Connected conn).
Proof.
  intros H1 Hn. unfold relay_connected, ids_given in *. case_match; [lia|]. cbn [next_endpoint_id].
  rewrite u32_small by (unfold is_u32, U32_MAX in *; lia). lia.
Qed.

Lemma relay_reachable_inv n s :
  relay_reachable remote n s -> n < U32_MAX -> next_endpoint_id s = n + 1 /\ relay_inv s.
Proof.
  induction 1 as [|n s [conn|conn strm|i buffers|conn] _ IH He]; intros Hn; cbn [relay_handle fst] in *;
    cbn [ids_given] in Hn |- *; rewrite ?Z.add_0_r in *.
  - split; [done|]. apply relay_create_inv.
  - destruct IH as (Hnext & Hinv); [case_match; lia|]. pose proof (inv_next s Hinv).
    rewrite relay_connected_next by (cbn [ids_given]; lia). cbn [ids_given]. split; [lia|].
    case_match eqn:Hfull; [unfold relay_connected; by rewrite Hfull|].
    apply relay_connected_inv; [done|by apply He|lia].
  - destruct IH as (Hnext & Hinv); [done|]. rewrite relay_stream_started_next. split; [done|].
    by apply relay_stream_started_inv.
  - destruct IH as (Hnext & Hinv); [done|]. rewrite relay_stream_receive_next. split; [done|].
    by apply relay_stream_receive_inv.
  - destruct IH as (Hnext & Hinv); [done|]. rewrite relay_shutdown_next. split; [done|].
    by apply relay_shutdown_inv.
Qed.

(** A client is found by its connection, and by its endpoint id. *)
Lemma relay_find_connection s j d conn :
  relay_inv s -> clients s !! j = Some d -> active d = true -> connection d = Some conn ->
  find_by_connection s conn = Some j.
Proof.
  intros Hinv Hj Hd Hc. apply (find_index_unique _ _ j d Hj); [by rewrite Hd, Hc, bool_decide_true|].
  intros k e Hk [He Heq%bool_decide_eq_true]%andb_true_iff. apply (inv_connections s Hinv k j e d); try done. congruence.
Qed.

Lemma relay_find_endpoint s j d :
  relay_inv s -> clients s !! j = Some d -> active d = true ->
  _relay_find_client_by_endpoint s (endpoint_id d) = Some j.
Proof.
  intros Hinv Hj Hd. apply (find_index_unique _ _ j d Hj); [by rewrite Hd, Z.eqb_refl|].
  intros k e Hk [He Heq%Z.eqb_eq]%andb_true_iff. by apply (inv_endpoints s Hinv k j e d).
Qed.
End Invariant.

Definition one_client : relay_server_t := relay_stream_started (relay_connected relay_server_create 100) 100 10.

(** Two clients with a stream each. *)
Definition two_clients : relay_server_t :=
  relay_stream_started (relay_connected one_client 101) 101 20.

Lemma two_clients_reachable {C : Cbor} {CS : CborSerial} remote : relay_reachable remote 2 two_clients.
Proof.
  refine (relay_step remote 2 (relay_connected one_client 101) (StreamStarted 101 20) _ _); [|done].
  refine (relay_step remote 1 one_client (Connected 101) _ _); [|intros conn [= <-]; by vm_compute].
  refine (relay_step remote 1 (relay_connected relay_server_create 100) (StreamStarted 100 10) _ _); [|done].
  refine (relay_step remote 0 relay_server_create (Connected 100) _ _); [|intros conn [= <-]; by vm_compute].
  apply relay_init.
Qed.

(** C31: while fewer than 2^32 - 1 endpoint ids have been given out (after
    which they wrap) and MsQuic gives each open connection a handle of its
    own, the relay's table has [RELAY_MAX_CLIENTS] slots, the client count is
    the number of active slots, free slots are clear, and an active client is
    the only one with its endpoint id and the only one with its connection, so
    that looking up either finds it. *)
Theorem relay_table_invariant {C : Cbor} {CS : CborSerial} remote n s :
  relay_reachable remote n s -> n < U32_MAX ->
  length (clients s) = RELAY_MAX_CLIENTS /\
  num_clients s = Z.of_nat (count_active (clients s)) /\ num_clients s <= Z.of_nat RELAY_MAX_CLIENTS /\
  forall i c, clients s !! i = Some c ->
    if active c
    then 1 <= endpoint_id c < next_endpoint_id s /\ _relay_find_client_by_endpoint s (endpoint_id c) = Some i /\
      exists conn, connection c = Some conn /\ find_by_connection s conn = Some i
    else c = no_client.
Proof.
  intros Hs Hn. apply relay_reachable_inv in Hs as (_ & Hinv); [|done].
  pose proof Hinv as [Hlen Hc _ Hi Ha _ _]. split_and!; [done|done| |].
  - rewrite Hc, <- Hlen. unfold count_active. pose proof (List.filter_length_le active (clients s)). lia.
  - intros i c Hl. destruct (active c) eqn:E; [|by eapply Hi].
    destruct (Ha i c Hl E) as (? & [conn Hconn] & _). split; [done|]. split; [by apply relay_find_endpoint|].
    exists conn. split; [done|]. by eapply relay_find_connection.
Qed.

Lemma relay_table_invariant_witness :
  num_clients two_clients = 2 /\ find_by_connection two_clients 101 = Some 1%nat.
Proof.
  destruct (relay_table_invariant (C := item_cbor) (CS := item_serial) (fun _ => None) 2 two_clients
    (two_clients_reachable _) ltac:(reflexivity)) as (_ & H & _ & Hc). split; [rewrite H; reflexivity|].
  destruct (Hc 1%nat _ eq_refl) as (_ & _ & conn & Hconn & Hf). injection Hconn as <-. exact Hf.
Defined.

(** Past that bound ids are given out again: with the largest id next, the
    second of two new clients gets the id 0, and 1 is next although it may
    still be in use. *)
Lemma endpoint_ids_wrap s a b :
  next_endpoint_id s = U32_MAX -> num_clients s + 1 < Z.of_nat RELAY_MAX_CLIENTS ->
  next_endpoint_id (relay_connected (relay_connected s a) b) = 1.
Proof.
  intros Hn Hc. unfold relay_connected. rewrite (proj2 (Z.leb_gt _ (num_clients s))) by lia. cbn [num_clients].
  rewrite (proj2 (Z.leb_gt _ (num_clients s + 1))) by lia. cbn [next_endpoint_id]. by rewrite Hn.
Qed.
