(* ===== verification/Delivery.v ===== *)
(** * Delivery: messages from one node to another

    Composes the wire codecs, the framer, the dispatchers and the relay server
    into the two ways a message travels: over a direct connection
    (quic_peer_send in src/src/Network/quic_peer_send.c, the stream callback of
    quic_listener.c, the NETWORK_QUIC_DATA case) and through a relay
    (conn_state_send in conn_state.c, relay_client_dispatch and
    _relay_client_process_message in relay_client.c, the relay server, the
    NETWORK_RELAY_RECEIVED case).  The transport may cut the byte stream into
    receive events in any way. *)

From S2P Require Import Prelude Cbor CborCodec WireBase WirePing WireBlock WireRelay WireClosest Framer Wire RelayServer.
Local Open Scope Z_scope.

Section Delivery.
Context {C : Cbor} {CS : CborSerial}.

(** [cbor_serialize_alloc] with the check its callers make. *)
Definition serialize_message (m : wire_msg) : option bytes :=
  item ← wire_encode m;
  let data := cbor_serialize item in
  if (length data =? 0)%nat then None else Some data.

(** What [quic_peer_send] puts on the peer's stream. *)
Definition quic_peer_send (m : wire_msg) : option bytes :=
  data ← serialize_message m; stream_frame_encode data.

(** The relay branch of [conn_state_send]. *)
Definition conn_state_send_relay (local_endpoint_id relay_endpoint_id : Z) (m : wire_msg)
  : option wire_relay_send_t :=
  data ← serialize_message m;
  Some {| rs_src_endpoint_id := local_endpoint_id; rs_dest_endpoint_id := relay_endpoint_id; rs_payload := data |}.

(** The RELAY_CLIENT_SEND case of [relay_client_dispatch]. *)
Definition relay_client_send (rs : wire_relay_send_t) : option bytes :=
  stream_frame_encode (cbor_serialize (wire_relay_send_encode rs)).

(** What a relay client does with a message of the server: it learns its own
    address or passes a relayed message on to the network. *)
Inductive relay_client_event :=
| ClientAddrResponse (m : wire_addr_response_t)
| ClientRelayReceived (m : wire_relay_received_t).

Definition _relay_client_process_message (data : bytes) : decoded relay_client_event :=
  match cbor_load data with
  | None => REJECTED
  | Some item =>
      let type := wire_get_type item in
      if type =? WIRE_ADDR_RESPONSE then ClientAddrResponse <$> wire_addr_response_decode item
      else if type =? WIRE_RELAY_RECEIVED then ClientRelayReceived <$> wire_relay_received_decode item
      else REJECTED
  end.

(** A relayed message as the network sees it: where it came from and what it is. *)
Definition relay_client_deliver (allow : Z -> bool) (data : bytes) : decoded (Z * wire_msg) :=
  event ← _relay_client_process_message data;
  match event with
  | ClientRelayReceived r => m ← (relay_receive allow (rr_payload r)).2; DECODED (rr_src_endpoint_id r, m)
  | ClientAddrResponse _ => REJECTED
  end.

(** A sequence of events at the relay and the frames it sends meanwhile. *)
Fixpoint relay_run (remote : Z -> option quic_addr) (s : relay_server_t) (events : list relay_event)
  : relay_server_t * list (option Z * bytes) :=
  match events with
  | [] => (s, [])
  | e :: events =>
      let '(s, out) := relay_handle remote s e in
      let '(s, out') := relay_run remote s events in
      (s, out ++ out')
  end.
End Delivery.

Section Proofs.
Context {C : Cbor} {CS : CborSerial} {CL : CborLaws} {CSL : CborSerialLaws}.

Lemma serialize_message_load m data :
  wire_ok m -> serialize_message m = Some data ->
  exists item, wire_encode m = Some item /\ cbor_load data = Some item /\ length data <> 0%nat.
Proof.
  intros Hok (item & Hi & H)%bind_Some. exists item. cbv zeta in H.
  destruct (Nat.eqb_spec (length (cbor_serialize item)) 0); [done|]. simplify_eq. split_and!; try done.
  apply load_serialize. by apply (msg_serializable (msg_body m)).
Qed.

(** A message that fits a frame is understood at the other end. *)
Lemma quic_receive_sent m data pending allow :
  wire_ok m -> msg_kind m ∈ quic_kinds -> serialize_message m = Some data ->
  Z.of_nat (length data) <= STREAM_FRAMER_MAX_FRAME_SIZE ->
  (pending = true -> msg_kind m = Kind_Salutation) -> allow (kind_type (msg_kind m)) = true ->
  quic_receive pending allow data = DECODED m.
Proof.
  intros Hok Hk Hs Hlen Hp Ha. destruct (serialize_message_load m data Hok Hs) as (item & He & Hl & Hne).
  unfold quic_receive. rewrite (proj2 (Nat.eqb_neq _ 0) Hne).
  unfold STREAM_FRAMER_MAX_FRAME_SIZE in Hlen. rewrite (proj2 (Z.ltb_ge 2097152 _)) by lia.
  rewrite Hl. cbn [orb].
  destruct (wire_encode_type m item Hok He) as (Ht & Harr & Hsz). rewrite Harr.
  rewrite (proj2 (Nat.ltb_ge _ _) Hsz), Ht, Ha, andb_false_r. cbn [negb orb].
  destruct pending; [rewrite (Hp eq_refl)|rewrite andb_false_r]; cbn [kind_type Z.eqb];
    try (apply dispatch_encode; auto using quic_types_distinct).
Qed.

Lemma quic_peer_send_spec m frame :
  quic_peer_send m = Some frame ->
  exists data, serialize_message m = Some data /\ stream_frame_encode data = Some frame /\
    Z.of_nat (length data) <= STREAM_FRAMER_MAX_FRAME_SIZE.
Proof.
  intros (data & Hs & Hf)%bind_Some. exists data. split_and!; try done. unfold stream_frame_encode in Hf.
  by destruct (Z.ltb_spec STREAM_FRAMER_MAX_FRAME_SIZE (Z.of_nat (length data))).
Qed.

(** Sending a list of messages, split into serialising and framing. *)
Lemma quic_send_all msgs frames :
  Forall2 (fun m f => quic_peer_send m = Some f) msgs frames ->
  exists datas, Forall2 (fun m d => serialize_message m = Some d) msgs datas /\
    Forall2 (fun d f => stream_frame_encode d = Some f) datas frames /\
    Forall (fun d => Z.of_nat (length d) <= STREAM_FRAMER_MAX_FRAME_SIZE) datas.
Proof.
  induction 1 as [|m f msgs frames Hf _ (ds & ? & ? & ?)]; [by exists []|].
  destruct (quic_peer_send_spec m f Hf) as (d & ? & ? & ?). exists (d :: ds). auto.
Qed.

Lemma encode_all_Forall2 datas frames :
  Forall2 (fun d f => stream_frame_encode d = Some f) datas frames <-> encode_all datas = Some frames.
Proof. symmetry. apply mapM_Some. Qed.


(** ** Through the relay *)

Definition relayed (src : Z) (rs : wire_relay_send_t) : wire_relay_received_t :=
  {| rr_src_endpoint_id := src; rr_payload := rs_payload rs |}.

(** The two envelopes, written and read back. *)
Lemma relay_send_load rs :
  wire_relay_send_ok rs ->
  cbor_load (cbor_serialize (wire_relay_send_encode rs)) = Some (wire_relay_send_encode rs) /\
  wire_get_type (wire_relay_send_encode rs) = WIRE_RELAY_SEND /\
  wire_relay_send_decode (wire_relay_send_encode rs) = DECODED rs.
Proof.
  intros H.
  pose proof (msg_roundtrip (W := wire_relay_send) rs _ H eq_refl) as Hd.
  split; [apply load_serialize; exact (msg_serializable (W := wire_relay_send) rs _ H eq_refl)|].
  split; [exact (msg_decode_type (W := wire_relay_send) _ _ Hd)|exact Hd].
Qed.

Lemma relay_received_load r :
  wire_relay_received_ok r ->
  cbor_load (cbor_serialize (wire_relay_received_encode r)) = Some (wire_relay_received_encode r) /\
  wire_get_type (wire_relay_received_encode r) = WIRE_RELAY_RECEIVED /\
  wire_relay_received_decode (wire_relay_received_encode r) = DECODED r.
Proof.
  intros H.
  pose proof (msg_roundtrip (W := wire_relay_received) r _ H eq_refl) as Hd.
  split; [apply load_serialize; exact (msg_serializable (W := wire_relay_received) r _ H eq_refl)|].
  split; [exact (msg_decode_type (W := wire_relay_received) _ _ Hd)|exact Hd].
Qed.

(** The envelope of a forwarded message is smaller than the one it came in, so
    whatever reached the relay in a frame leaves it in a frame. *)
Lemma relay_envelope_smaller rs src :
  (length (cbor_serialize (wire_relay_received_encode (relayed src rs))) + 5 =
   length (cbor_serialize (wire_relay_send_encode rs)))%nat.
Proof.
  unfold wire_relay_received_encode, wire_relay_send_encode, cbor_build_uint32, cbor_build_uint8.
  rewrite !serialize_array_length by (simpl; lia). cbn [map sum_list_with sum_list].
  rewrite !(serialize_uint_length CBOR_INT_32) by done.
  rewrite !serialize_uint8_length by (unfold WIRE_RELAY_SEND, WIRE_RELAY_RECEIVED; lia).
  cbn [relayed rr_payload rr_src_endpoint_id sum_list_with]. unfold id. change (width_bits CBOR_INT_32) with 32.
  change (Z.to_nat (32 / 8)) with 4%nat. lia.
Qed.

(** The relay passes a message on to the stream of its destination, with the
    endpoint id of the client it came from. *)
Lemma relay_process_send remote s c j d t rs frame :
  relay_inv s -> clients s !! j = Some d -> active d = true -> stream d = Some t ->
  wire_relay_send_ok rs -> rs_dest_endpoint_id rs = endpoint_id d -> relay_client_send rs = Some frame ->
  exists out, _relay_process_message remote s c (cbor_serialize (wire_relay_send_encode rs)) = [(Some t, out)] /\
    stream_frame_encode (cbor_serialize (wire_relay_received_encode (relayed (endpoint_id c) rs))) = Some out.
Proof.
  intros Hinv Hj Hd Ht Hok Hdest Hframe. unfold _relay_process_message.
  destruct (relay_send_load rs Hok) as (-> & Htype & Hdec). cbv zeta. rewrite Htype.
  change (WIRE_RELAY_SEND =? WIRE_ADDR_REQUEST) with false. change (WIRE_RELAY_SEND =? WIRE_RELAY_SEND) with true.
  cbv iota.
  rewrite Hdec. unfold _relay_handle_relay_send. cbn [rs_dest_endpoint_id rs_src_endpoint_id rs_payload].
  rewrite Hdest, (relay_find_endpoint s j d Hinv Hj Hd). cbn [mbind option_bind]. rewrite Hj, Ht.
  unfold _relay_send_on_stream. fold (relayed (endpoint_id c) rs).
  unfold relay_client_send, stream_frame_encode in Hframe |- *.
  pose proof (relay_envelope_smaller rs (endpoint_id c)).
  destruct (Z.ltb_spec STREAM_FRAMER_MAX_FRAME_SIZE
    (Z.of_nat (length (cbor_serialize (wire_relay_send_encode rs))))); [done|].
  destruct (Z.ltb_spec STREAM_FRAMER_MAX_FRAME_SIZE
    (Z.of_nat (length (cbor_serialize (wire_relay_received_encode (relayed (endpoint_id c) rs)))))); [lia|].
  eexists. done.
Qed.

(** A client and where its messages go: the sender in slot [i], the receiver in
    slot [j] with its stream. *)
Definition routed (s : relay_server_t) (i j : nat) (src dst t : Z) (f : stream_framer_t) : Prop :=
  relay_inv s /\
  (exists c, clients s !! i = Some c /\ active c = true /\ endpoint_id c = src /\ framer c = Some f) /\
  exists d, clients s !! j = Some d /\ active d = true /\ endpoint_id d = dst /\ stream d = Some t.

Definition forwardable (dst : Z) (rs : wire_relay_send_t) : Prop :=
  wire_relay_send_ok rs /\ rs_dest_endpoint_id rs = dst /\ is_Some (relay_client_send rs).

Definition forwarded (src : Z) (rs : wire_relay_send_t) (out : bytes) : Prop :=
  stream_frame_encode (cbor_serialize (wire_relay_received_encode (relayed src rs))) = Some out.

Definition relay_send_data (rs : wire_relay_send_t) : bytes := cbor_serialize (wire_relay_send_encode rs).

Lemma relay_process_all remote s i j src dst t f c rss :
  routed s i j src dst t f -> endpoint_id c = src -> Forall (forwardable dst) rss ->
  exists outs, concat (map (_relay_process_message remote s c) (map relay_send_data rss)) = map (pair (Some t)) outs /\
    Forall2 (forwarded src) rss outs.
Proof.
  intros (Hinv & _ & d & Hj & Hd & <- & Ht) <-. induction 1 as [|rs rss (Hok & Hdst & [fr Hfr]) _ (outs & IH & Hall)].
  { by exists []. }
  destruct (relay_process_send remote s c j d t rs fr) as (out & Hp & Hout); try done.
  exists (out :: outs). cbn [map concat]. unfold relay_send_data at 1. rewrite Hp, IH. split; [done|]. by constructor.
Qed.

Lemma relay_receive_routed remote s i j src dst t f e :
  routed s i j src dst t f ->
  routed (relay_stream_receive remote s i e).1 i j src dst t (framer_receive f e).2 /\
  exists c, endpoint_id c = src /\
    (relay_stream_receive remote s i e).2 =
    concat (map (_relay_process_message remote (relay_stream_receive remote s i e).1 c) (framer_receive f e).1).
Proof.
  intros (Hinv & (c & Hi & Hc & Hsrc & Hf) & d & Hj & Hd & Hdst & Ht).
  pose proof (relay_stream_receive_inv remote s i e Hinv) as Hinv'. revert Hinv'.
  unfold relay_stream_receive. rewrite Hi, Hf. destruct (framer_receive f e) as [ms f']. cbn [fst snd]. intros Hinv'.
  pose proof (lookup_lt_Some _ _ _ Hi). split; [split; [done|split]|].
  - eexists. cbn [set_client clients]. rewrite list_lookup_insert_eq by done. done.
  - cbn [set_client clients]. destruct (decide (i = j)) as [<-|Hne].
    + rewrite Hi in Hj. simplify_eq. eexists. rewrite list_lookup_insert_eq by done. done.
    + exists d. by rewrite list_lookup_insert_ne.
  - by eexists {| endpoint_id := endpoint_id c |}.
Qed.

Lemma relay_run_forwards remote s i j src dst t f rss events :
  routed s i j src dst t f -> Forall (forwardable dst) rss -> (framer_run f events).1 = map relay_send_data rss ->
  exists outs, (relay_run remote s (map (Receive i) events)).2 = map (pair (Some t)) outs /\
    Forall2 (forwarded src) rss outs.
Proof.
  revert s f rss. induction events as [|e events IH]; intros s f rss Hr Hall Hf.
  { symmetry in Hf. apply map_eq_nil in Hf as ->. by exists []. }
  destruct (relay_receive_routed remote s i j src dst t f e Hr) as (Hr' & c & Hc & Hout).
  cbn [framer_run map relay_run relay_handle] in *.
  destruct (relay_stream_receive remote s i e) as [s1 o1]. destruct (framer_receive f e) as [ms f1]. cbn [fst snd] in *.
  specialize (IH s1 f1). destruct (framer_run f1 events) as [ms' f2]. cbn [fst snd] in *.
  symmetry in Hf. apply map_eq_app in Hf as (rss1 & rss2 & -> & <- & <-). apply Forall_app in Hall as [H1 H2].
  destruct (relay_process_all remote s1 i j src dst t f1 c rss1 Hr' Hc H1) as (outs1 & E1 & F1).
  destruct (IH rss2 Hr' H2 eq_refl) as (outs2 & E2 & F2). destruct (relay_run remote s1 _) as [s2 o2]. cbn [snd] in *.
  exists (outs1 ++ outs2). rewrite Hout, E1, E2, map_app. split; [done|]. by apply Forall2_app.
Qed.

(** What a node puts on the stream to its relay for a message. *)
Definition relay_peer_send (local dst : Z) (m : wire_msg) : option bytes :=
  conn_state_send_relay local dst m ≫= relay_client_send.

Lemma relay_peer_send_spec local dst m frame :
  is_u32 local -> is_u32 dst -> wire_ok m -> relay_peer_send local dst m = Some frame ->
  exists rs, forwardable dst rs /\ stream_frame_encode (relay_send_data rs) = Some frame /\
    serialize_message m = Some (rs_payload rs).
Proof.
  intros Hl Hd Hok (rs & Hrs & Hframe)%bind_Some. apply bind_Some in Hrs as (data & Hs & Hrs).
  apply (inj Some) in Hrs as <-. eexists. split; [|by split; [exact Hframe|]].
  destruct (serialize_message_load m data Hok Hs) as (item & Hi & _ & _).
  apply bind_Some in Hs as (item' & Hi' & Hs). rewrite Hi in Hi'. simplify_eq. cbv zeta in Hs. case_match; [done|].
  apply (inj Some) in Hs as <-. split; [|by split; [|exists frame]].
  split_and!; [done|done|]. split; [by apply serialize_bytes, (msg_serializable (msg_body m))|].
    unfold relay_client_send, stream_frame_encode in Hframe. case_match eqn:Hle; [done|].
    apply Z.ltb_ge in Hle. unfold STREAM_FRAMER_MAX_FRAME_SIZE, wire_relay_send_encode in Hle.
    rewrite serialize_array_length in Hle by (simpl; lia). cbn [map sum_list_with rs_payload] in Hle. unfold id in Hle.
    pose proof (serialize_bytestring_le (cbor_serialize item')). unfold rs_payload. lia.
Qed.

Lemma relay_send_all local dst msgs frames :
  is_u32 local -> is_u32 dst -> Forall wire_ok msgs ->
  Forall2 (fun m fr => relay_peer_send local dst m = Some fr) msgs frames ->
  exists rss, Forall (forwardable dst) rss /\ encode_all (map relay_send_data rss) = Some frames /\
    Forall2 (fun m rs => serialize_message m = Some (rs_payload rs)) msgs rss.
Proof.
  intros Hl Hd Hok Hs. setoid_rewrite <- encode_all_Forall2.
  induction Hs as [|m fr msgs frames Hfr _ IH]; [by exists []|].
  apply Forall_cons in Hok as [Hm Hok]. destruct (IH Hok) as (rss & ? & ? & ?).
  destruct (relay_peer_send_spec local dst m fr Hl Hd Hm Hfr) as (rs & ? & ? & ?).
  exists (rs :: rss). split_and!; by constructor.
Qed.

(** A forwarded message as the receiving node dispatches it. *)
Lemma relay_client_deliver_sent allow src rs m :
  is_u32 src -> wire_relay_send_ok rs -> serialize_message m = Some (rs_payload rs) ->
  wire_ok m -> msg_kind m ∈ relay_kinds -> allow (kind_type (msg_kind m)) = true ->
  relay_client_deliver allow (cbor_serialize (wire_relay_received_encode (relayed src rs))) = DECODED (src, m).
Proof.
  intros Hsrc (_ & _ & Hbuf) Hs Hok Hk Ha. unfold relay_client_deliver, _relay_client_process_message.
  destruct (relay_received_load (relayed src rs)) as (-> & Htype & Hdec); [by split|].
  cbv zeta. rewrite Htype.
  change (WIRE_RELAY_RECEIVED =? WIRE_ADDR_RESPONSE) with false.
  change (WIRE_RELAY_RECEIVED =? WIRE_RELAY_RECEIVED) with true. cbv iota. rewrite Hdec.
  cbn [fmap decoded_fmap mbind decoded_bind relayed rr_payload rr_src_endpoint_id].
  destruct (serialize_message_load m _ Hok Hs) as (item & He & Hl & Hne). unfold relay_receive.
  rewrite (proj2 (Nat.eqb_neq _ 0) Hne), Hl. destruct (wire_encode_type m item Hok He) as (Ht & Harr & Hsz).
  rewrite Harr, (proj2 (Nat.ltb_ge _ _) Hsz), Ht, Ha, andb_false_r. cbn [negb orb snd].
  by rewrite (dispatch_encode relay_kinds m item relay_types_distinct Hk Hok He).
Qed.

Lemma forwarded_encode src rss outs :
  Forall2 (forwarded src) rss outs ->
  encode_all (map (fun rs => cbor_serialize (wire_relay_received_encode (relayed src rs))) rss) = Some outs.
Proof. intros H. apply encode_all_Forall2, Forall2_fmap_l. exact H. Qed.

(** The frames that leave the relay are no longer than those that came in. *)
Lemma forwarded_shorter F src rss frames outs :
  encode_all (map relay_send_data rss) = Some frames -> Forall2 (forwarded src) rss outs ->
  Forall (fun f => Z.of_nat (length f) <= F) frames -> Forall (fun f => Z.of_nat (length f) <= F) outs.
Proof.
  intros He%encode_all_Forall2 Ho. apply Forall2_fmap_l in He. revert frames He.
  induction Ho as [|rs out rss outs Hout _ IH]; intros frames He Hall; [constructor|].
  inversion He as [|? fr ? frs Hfr He' ]; subst. apply Forall_cons in Hall as [Hf Hall].
  constructor; [|by eapply IH]. rewrite (encode_length _ _ Hout). rewrite (encode_length _ _ Hfr) in Hf.
  pose proof (relay_envelope_smaller rs src). unfold relay_send_data in Hf. lia.
Qed.


(** Every well-formed message of every kind can be encoded, and what is
    written out is read back as the message it was. *)
Theorem wire_roundtrip m :
  wire_ok m ->
  exists item, wire_encode m = Some item /\ cbor_load (cbor_serialize item) = Some item /\
    msg_decode item = DECODED (msg_body m).
Proof.
  intros Hok. destruct (msg_encode_type (msg_body m) Hok) as [l He]. eexists. split; [exact He|].
  split; [apply load_serialize, (msg_serializable (msg_body m)); done|by apply msg_roundtrip].
Qed.

(** Until its salutation has been accepted, nothing but a salutation gets
    through from a connection. *)
Theorem unauthenticated_only_salutation allow data m :
  quic_receive true allow data = DECODED m -> msg_kind m = Kind_Salutation.
Proof.
  unfold quic_receive. destruct (orb _ _); [done|]. destruct (cbor_load data) as [item|]; [|done]. intros Hd. case_match; [done|]. cbv zeta in Hd.
  rewrite andb_true_r in Hd. destruct (Z.eqb_spec (wire_get_type item) WIRE_SALUTATION) as [E|]; [|done].
  cbn [negb andb] in Hd. apply dispatch_sound in Hd as (Hin & _ & Ht). rewrite E in Ht.
  assert (find (fun k => kind_type k =? WIRE_SALUTATION) quic_kinds = Some (msg_kind m)) as Hf.
  { rewrite Ht. by apply find_kind; [apply quic_types_distinct|]. }
  by injection Hf.
Qed.

(** C37: whatever bytes a peer or a relay delivers, a message that is decoded
    without leaving the contract of libcbor is one of those the switch handles,
    has its type byte, and respects its structure: every integer field has the
    width of its type, and no count, list or buffer is larger than the array it
    is stored in.  A peer can make the decoders leave that contract
    ([misread_node_id]); nothing is claimed then. *)
Theorem received_within_bounds pending allow data m :
  quic_receive pending allow data = DECODED m \/ (relay_receive allow data).2 = DECODED m ->
  msg_kind m ∈ quic_kinds ++ relay_kinds /\ wire_bounds m /\
  exists item, cbor_load data = Some item /\ wire_get_type item = kind_type (msg_kind m).
Proof.
  intros [H|H].
  - unfold quic_receive in H. destruct (orb _ _); [done|].
    destruct (cbor_load data) as [item|]; [|done]. cbv zeta in H.
    repeat (case_match; [done|]). apply dispatch_sound in H as (? & ? & ?).
    split; [by apply elem_of_app; left|]. eauto.
  - unfold relay_receive in H. destruct (length data =? 0)%nat; [done|].
    destruct (cbor_load data) as [item|]; [|done]. repeat (case_match; cbn [snd] in H; [done|]).
    apply dispatch_sound in H as (? & ? & ?). split; [by apply elem_of_app; right|]. eauto.
Qed.
End Proofs.

(** ** Concrete nodes *)

Definition sample_node : node_id_t := {| node_hash := replicate NODE_ID_HASH_SIZE 7; node_str := [65; 66] |}.

Definition sample_ping (id : Z) : wire_msg :=
  Msg Kind_Ping {| ping_message_id := id; ping_sender_id := sample_node; ping_timestamp := 99 |}.

Lemma sample_ping_ok id : is_u64 id -> wire_ok (C := item_cbor) (sample_ping id).
Proof.
  intros Hid. split_and!; [done| |by unfold is_u64].
  repeat match goal with |- _ /\ _ => split | |- _ => progress hnf end; try done.
  - by vm_compute; lia.
  - repeat constructor; discriminate.
  - apply Forall_replicate. by unfold is_u8.
  - repeat constructor; by unfold is_u8.
Qed.

Lemma wire_roundtrip_witness :
  exists item, wire_encode (sample_ping 5) = Some item /\ cbor_load (cbor_serialize item) = Some item /\
    msg_decode (M := wire_ping_t) item = DECODED (msg_body (sample_ping 5)).
Proof. apply (wire_roundtrip (C := item_cbor) (CS := item_serial) (sample_ping 5)). by apply sample_ping_ok. Defined.

Ltac each tac := repeat (refine (Forall_cons_2 _ _ _ _ _); [solve [tac]|]); try exact (Forall_nil_2 _).

(** The first 30 bytes, then the rest. *)
Definition two_events (b : bytes) : list (list bytes) := [[take 10 b; take 20 (drop 10 b)]; [drop 30 b]].


Lemma unauthenticated_only_salutation_witness :
  let m := Msg Kind_Salutation {| sal_sender_id := sample_node; sal_public_key := [1; 2; 3] |} in
  let data := default [] (serialize_message m) in
  quic_receive true (fun _ => false) data = DECODED m /\ msg_kind m = Kind_Salutation.
Proof.
  intros m data. assert (quic_receive true (fun _ => false) data = DECODED m) as H by (vm_compute; reflexivity).
  split; [exact H|]. exact (unauthenticated_only_salutation (C := item_cbor) (CS := item_serial) _ _ _ H).
Defined.

Lemma received_within_bounds_witness :
  let data := default [] (serialize_message (sample_ping 5)) in
  (relay_receive (fun _ => true) data).2 = DECODED (sample_ping 5) /\ wire_bounds (sample_ping 5).
Proof.
  intros data. assert ((relay_receive (fun _ => true) data).2 = DECODED (sample_ping 5)) as H by (vm_compute; reflexivity).
  split; [exact H|].
  apply (received_within_bounds (C := item_cbor) (CS := item_serial) false (fun _ => true) data). by right.
Defined.

(** A ping whose node id is a byte string, not an array: its size and its
    elements are read all the same. *)
Lemma misread_node_id :
  let item := cbor_array [cbor_build_uint8 WIRE_PING; cbor_build_bytestring (replicate 48 65);
                          cbor_build_uint32 0; cbor_build_uint32 5; cbor_build_uint64 9] in
  quic_receive false (fun _ => true) (cbor_serialize item) = ILL_TYPED.
Proof. vm_compute. reflexivity. Qed.

Definition no_address (conn : Z) : option quic_addr := None.

