(* ===== verification/Effect.v ===== *)
(** * Effect: actor handlers as state transformers that emit effects

    The streams of src/src/OFFStreams are actors: a handler updates its state
    and sends messages, stores blocks and notifies subscribers on the way.  A
    handler is modelled as a function to the new state and the list of effects
    in the order the code causes them; [andthen] sequences two handlers.

    The assignment of a field, [stream->field = v], is [s <| field := v |>]: a
    record whose fields are listed in an instance of [Settable] gets a setter
    for each of them. *)

From S2P Require Import Prelude.

Section Effect.
Context {S E : Type}.

Definition done (s : S) : S * list E := (s, []).
Definition emit (es : list E) (s : S) : S * list E := (s, es).

Definition andthen (r : S * list E) (f : S -> S * list E) : S * list E :=
  let '(s, e1) := r in let '(s, e2) := f s in (s, e1 ++ e2).

(** A sequence of messages. *)
Fixpoint dispatch_all {M} (dispatch : S -> M -> S * list E) (s : S) (msgs : list M) : S * list E :=
  match msgs with
  | [] => done s
  | m :: msgs => andthen (dispatch s m) (fun s => dispatch_all dispatch s msgs)
  end.

Lemma andthen_eq r f : andthen r f = ((f r.1).1, r.2 ++ (f r.1).2).
Proof. destruct r as [s e]. unfold andthen. cbn [fst snd]. by destruct (f s). Qed.

Lemma andthen_done r : andthen r done = r.
Proof. rewrite andthen_eq. cbn. rewrite app_nil_r. by destruct r. Qed.

Lemma andthen_assoc r f g : andthen (andthen r f) g = andthen r (fun s => andthen (f s) g).
Proof. rewrite (andthen_eq r f), (andthen_eq r). rewrite !andthen_eq. cbn [fst snd]. by rewrite app_assoc. Qed.

Lemma dispatch_all_app {M} (dispatch : S -> M -> S * list E) s ms1 ms2 :
  dispatch_all dispatch s (ms1 ++ ms2) =
  andthen (dispatch_all dispatch s ms1) (fun s => dispatch_all dispatch s ms2).
Proof.
  revert s. induction ms1 as [|m ms1 IH]; intros s; cbn [dispatch_all app].
  - unfold done, andthen. by destruct (dispatch_all dispatch s ms2).
  - rewrite andthen_assoc. rewrite (andthen_eq (dispatch s m)), IH. by rewrite (andthen_eq (dispatch s m)).
Qed.
End Effect.

Declare Scope effect_scope.
Delimit Scope effect_scope with effect.
Notation "r ;;; f" := (andthen r f) (at level 62, left associativity) : effect_scope.

(** ** Record update *)

Definition pure {R A : Type} (x : A) : R -> A := fun _ => x.
Definition ap {R A B : Type} (f : R -> A -> B) (x : R -> A) : R -> B := fun r => f r (x r).

(** The record rebuilt from its fields. *)
Class Settable (R : Type) := eta : R -> R.

Notation "'fields!' mk [ f1 ; .. ; fn ]" := (ap .. (ap (pure mk) f1) .. fn) (at level 0, mk at level 0).

Class Setter {R T : Type} (proj : R -> T) := set : (T -> T) -> R -> R.
Arguments set {R T} proj {Setter} / _ _.

Ltac find_setter :=
  match goal with
  | |- @Setter ?R ?T ?proj =>
      let inst := constr:(_ : Settable R) in
      let fields := eval red in inst in
      match eval pattern proj in fields with
      | ?f _ =>
          let t := constr:(fun g : T -> T => f (fun r => g (proj r))) in
          let t := eval cbv beta delta [ap pure] in t in exact t
      end
  end.

#[export] Hint Extern 1 (Setter _) => find_setter : typeclass_instances.

Notation "x <| proj := v |>" := (set proj (fun _ => v) x) (at level 1, left associativity).
