(* ===== verification/Tuple.v ===== *)
(** * Tuple: the hashes of the blocks that make up one block of a file

    Models src/src/OFFStreams/tuple.c.  A tuple is an array of [capacity] slots
    of which [count] are in use; a slot holds the contents of a hash buffer or
    NULL.  The lemmas read a tuple as the list of its elements. *)

From S2P Require Import Prelude.
Local Open Scope Z_scope.

Record tuple_t := mk_tuple { hashes : list (option bytes); count : nat }.

#[export] Instance tuple_eq_dec : EqDecision tuple_t.
Proof. solve_decision. Defined.

Definition capacity (t : tuple_t) : nat := length (hashes t).

Definition tuple_create (capacity : nat) : tuple_t := mk_tuple (replicate capacity None) 0.

Definition tuple_get (t : tuple_t) (index : nat) : option bytes :=
  if (count t <=? index)%nat then None else mjoin (hashes t !! index).

Definition tuple_set (t : tuple_t) (index : nat) (hash : bytes) : tuple_t :=
  if (capacity t <=? index)%nat then t
  else mk_tuple (<[index := Some hash]> (hashes t)) (if (count t <=? index)%nat then S index else count t).

Definition tuple_push (t : tuple_t) (hash : bytes) : tuple_t :=
  if (capacity t <=? count t)%nat then t
  else mk_tuple (<[count t := Some hash]> (hashes t)) (S (count t)).

Definition tuple_shift (t : tuple_t) : option bytes * tuple_t :=
  if (count t =? 0)%nat then (None, t)
  else
    let n := (count t - 1)%nat in
    (mjoin (hashes t !! 0%nat), mk_tuple (<[n := None]> (take n (drop 1 (hashes t)) ++ drop n (hashes t))) n).

Definition tuple_size (t : tuple_t) : nat := count t.

(** The slots in use. *)
Definition elements (t : tuple_t) : list (option bytes) := take (count t) (hashes t).

Definition tuple_hash (t : tuple_t) : Z :=
  fold_left (fun hash slot =>
    match slot with
    | Some buf => fold_left (fun hash b => u64 (u64 (u64 (Z.shiftl hash 5) + hash) + b)) buf hash
    | None => hash
    end) (elements t) 5381.

Definition slot_equal (l r : option bytes) : bool :=
  match l, r with
  | Some a, Some b => (length a =? length b)%nat && bool_decide (a = b)
  | None, None => true
  | _, _ => false
  end.

Definition tuple_equals (l r : tuple_t) : bool :=
  (count l =? count r)%nat && forallb (fun p => slot_equal p.1 p.2) (zip (elements l) (elements r)).

(** ** A tuple as the list of its elements *)

Definition tuple_wf (t : tuple_t) : Prop :=
  (count t <= capacity t)%nat /\ drop (count t) (hashes t) = replicate (capacity t - count t) None.

(** The tuple of capacity [c] with the elements [l]. *)
Definition tuple_of (c : nat) (l : list bytes) : tuple_t :=
  mk_tuple (map Some l ++ replicate (c - length l) None) (length l).

Lemma length_elements t : (count t <= capacity t)%nat -> length (elements t) = count t.
Proof. intros H. unfold elements, capacity in *. rewrite length_take. lia. Qed.

Lemma elements_of c l : elements (tuple_of c l) = map Some l.
Proof. unfold elements, tuple_of. cbn [count hashes]. rewrite take_app_le, take_ge by (rewrite length_map; lia). done. Qed.

Lemma tuple_create_of c : tuple_create c = tuple_of c [].
Proof. unfold tuple_create, tuple_of. cbn [length map app]. by rewrite Nat.sub_0_r. Qed.

Lemma tuple_push_of c l h : (length l < c)%nat -> tuple_push (tuple_of c l) h = tuple_of c (l ++ [h]).
Proof.
  intros Hl. unfold tuple_push, tuple_of, capacity. cbn [hashes count].
  rewrite length_app, length_map, length_replicate.
  rewrite (proj2 (Nat.leb_gt _ _)) by lia. rewrite length_app. cbn [length]. f_equal; [|lia].
  rewrite map_app, <- app_assoc. cbn [map app].
  replace (c - length l)%nat with (S (c - (length l + 1)))%nat by lia. cbn [replicate].
  rewrite insert_app_r_alt by (rewrite length_map; lia). by rewrite length_map, Nat.sub_diag.
Qed.

(** A full tuple takes no more. *)
Lemma tuple_push_full c l h : length l = c -> tuple_push (tuple_of c l) h = tuple_of c l.
Proof.
  intros Hl. unfold tuple_push, tuple_of, capacity. cbn [hashes count].
  rewrite length_app, length_map, length_replicate. by rewrite (proj2 (Nat.leb_le _ _)) by lia.
Qed.

Lemma tuple_push_all c l ks :
  (length l + length ks <= c)%nat -> fold_left tuple_push ks (tuple_of c l) = tuple_of c (l ++ ks).
Proof.
  revert l. induction ks as [|k ks IH]; intros l Hl; cbn [fold_left]; [by rewrite app_nil_r|].
  cbn [length] in Hl. rewrite tuple_push_of by lia. rewrite IH by (rewrite length_app; simpl; lia).
  by rewrite <- app_assoc.
Qed.

Lemma tuple_get_of c l i : tuple_get (tuple_of c l) i = l !! i.
Proof.
  unfold tuple_get, tuple_of. cbn [count hashes]. destruct (Nat.leb_spec (length l) i).
  - symmetry. by apply lookup_ge_None.
  - rewrite lookup_app_l by (by rewrite length_map). change (map Some l) with (Some <$> l).
    rewrite list_lookup_fmap. by destruct (l !! i).
Qed.

Lemma tuple_shift_of c h l :
  (S (length l) <= c)%nat -> tuple_shift (tuple_of c (h :: l)) = (Some h, tuple_of c l).
Proof.
  intros Hl. unfold tuple_shift, tuple_of. cbn [count hashes length Nat.eqb map app lookup list_lookup mjoin option_join skipn].
  replace (S (length l) - 1)%nat with (length l) by lia. f_equal. f_equal.
  rewrite ?drop_0, take_app_le, take_ge by (rewrite length_map; lia).
  rewrite insert_app_r_alt by (rewrite length_map; lia). rewrite length_map, Nat.sub_diag. f_equal.
  assert (drop (length l) (Some h :: map Some l) = [Some (default h (last l))]) as Hd.
  { clear Hl. induction l as [|x l IH] using rev_ind; [done|]. rewrite last_snoc. cbn [default].
    rewrite length_app. cbn [length]. rewrite Nat.add_1_r. cbn [skipn]. rewrite map_app.
    rewrite drop_app_length' by (by rewrite length_map). done. }
  change (Some h :: map Some l ++ replicate (c - S (length l)) None)
    with ((Some h :: map Some l) ++ replicate (c - S (length l)) None).
  rewrite drop_app_le by (cbn [length]; rewrite length_map; lia). rewrite Hd. cbn [app insert list_insert].
  by replace (c - length l)%nat with (S (c - S (length l)))%nat by lia.
Qed.

Lemma slot_equal_spec l r : slot_equal l r = true <-> l = r.
Proof.
  destruct l as [a|], r as [b|]; cbn [slot_equal]; try done.
  rewrite andb_true_iff, bool_decide_eq_true, Nat.eqb_eq. naive_solver.
Qed.

(** Equality of tuples is equality of their elements. *)
Lemma tuple_equals_spec l r :
  (count l <= capacity l)%nat -> (count r <= capacity r)%nat -> tuple_equals l r = true <-> elements l = elements r.
Proof.
  intros Hl Hr. unfold tuple_equals. apply length_elements in Hl, Hr. rewrite <- Hl, <- Hr, andb_true_iff, Nat.eqb_eq.
  generalize (elements l) (elements r). clear. intros l. induction l as [|x l IH]; intros [|y r]; cbn; try naive_solver.
  rewrite andb_true_iff, slot_equal_spec. specialize (IH r). naive_solver.
Qed.

Lemma tuple_hash_equals l r :
  (count l <= capacity l)%nat -> (count r <= capacity r)%nat -> tuple_equals l r = true -> tuple_hash l = tuple_hash r.
Proof. intros Hl Hr H. apply tuple_equals_spec in H; [|done..]. unfold tuple_hash. by rewrite H. Qed.
