(* ===== verification/OffWrite.v ===== *)
(** * OffWrite: cutting a file into blocks and hiding them behind random ones

    Models src/src/OFFStreams/writeable_off_stream.c, the actor at the head of a
    PUT.  Bytes written to it are collected into blocks; each block is xored
    with [tuple_size - 1] random blocks pulled from a recipe, the blocks are put
    into the cache and the tuple of their hashes is passed on.

    The handlers return the new state and the effects in order: notifications
    of subscribers, pulls from the recipe, blocks put into the caches, claims
    released.  A recipe is an index into the list of recipes, of which the model
    keeps whether they are recyclers.  The state of the incremental BLAKE3
    hasher is the bytes it has absorbed.  [frand]'s padding of the last block is
    part of the finalize message.  Reference counts are not modelled. *)

From S2P Require Import Prelude Buffer Block Effect Tuple.
Local Open Scope Z_scope.
Local Open Scope effect_scope.

Record off_stream_tuple_entry_t := mk_entry {
  origin : block_t; random_blocks : list block_t; random_capacity : Z
}.

Record writeable_off_stream_t := mk_ws {
  ws_block_type : block_size_e;
  ws_block_size : nat;
  ws_tuple_size : nat;
  ws_accumulator : bytes;
  ws_entries : list off_stream_tuple_entry_t;
  ws_final_block : option block_t;
  ws_hash_state : bytes;
  ws_is_readable : bool;
  ws_recipes : list bool;
  ws_recipe_index : nat;
  ws_current_recipe : option nat;
  ws_has_pulled : bool;
  ws_pending_finalize : bool;
  ws_is_ephemeral : bool;
  ws_completed : bool;
  ws_put_group : Z;
  ws_created_hashes : list bytes;
  ws_is_deactivated : bool
}.

#[export] Instance ws_settable : Settable writeable_off_stream_t := fields! mk_ws
  [ws_block_type; ws_block_size; ws_tuple_size; ws_accumulator; ws_entries; ws_final_block; ws_hash_state; ws_is_readable;
   ws_recipes; ws_recipe_index; ws_current_recipe; ws_has_pulled; ws_pending_finalize; ws_is_ephemeral;
   ws_completed; ws_put_group; ws_created_hashes; ws_is_deactivated].

(** What the streams of a put do to the rest of the node. *)
Inductive put_effect :=
| Notify_hash (hash : bytes)                      (* data_event with a hash *)
| Notify_tuple (t : tuple_t)                      (* data_event with a tuple *)
| Notify_readable | Notify_finished | Notify_complete | Notify_close | Notify_error
| Recipe_pull (recipe : nat)
| Cache_put (b : block_t) (group : Z)             (* block_cache_put_group *)
| Cache_put_ephemeral (b : block_t)
| Cache_ephemeral_release (hash : bytes)
| Recycler_release (recipe : nat)
| Cache_put_group_end (group : Z) (abort : bool)
| Tuple_cache_put (t : tuple_t) (data : bytes)
| Network_store (hash : bytes) (fib : Z)
| Network_rank_advertise (hash : bytes) (fib : Z).

Inductive cache_put_result_e := CACHE_PUT_NEW | CACHE_PUT_EXISTS | CACHE_PUT_ERROR | CACHE_PUT_FULL.

#[export] Instance cache_put_result_eq_dec : EqDecision cache_put_result_e.
Proof. solve_decision. Defined.

Inductive ws_message :=
| WRITEABLE_WRITE (data : bytes)
| WRITEABLE_FINALIZE (random : bytes)
| RECIPE_BLOCK_DATA (b : block_t)
| RECIPE_ROTATE
| CACHE_PUT_RESULT (result : cache_put_result_e) (hash : bytes) (fib : Z) (promoted : bool)
| CLOSE_STREAM.

Definition block_hash (b : block_t) : bytes := buf_data (blk_hash b).
Definition block_bytes (b : block_t) : bytes := buf_data (blk_data b).

Section Writeable.
Context {BL : Blake3}.
Variable network : bool.

Implicit Types s : writeable_off_stream_t.

(** The capacity is computed in [size_t]. *)
Definition _entry_create (origin : block_t) (tuple_size : nat) : off_stream_tuple_entry_t :=
  mk_entry origin [] (match tuple_size with O => U64_MAX | S n => Z.of_nat n end).

Definition writeable_off_stream_create (type : block_size_e) (tuple_size : nat) (recipes : list bool) (put_group : Z)
  : writeable_off_stream_t :=
  {| ws_block_type := type; ws_block_size := Z.to_nat (block_size type); ws_tuple_size := tuple_size;
     ws_accumulator := []; ws_entries := [];
     ws_final_block := None; ws_hash_state := []; ws_is_readable := false; ws_recipes := recipes;
     ws_recipe_index := 0; ws_current_recipe := match recipes with [] => None | _ => Some 0%nat end;
     ws_has_pulled := false; ws_pending_finalize := false; ws_is_ephemeral := false; ws_completed := false;
     ws_put_group := put_group; ws_created_hashes := []; ws_is_deactivated := false |}.

Definition _writeable_put_group_end (abort : bool) s : writeable_off_stream_t * list put_effect :=
  if ws_put_group s =? 0 then done s
  else (s <| ws_put_group := 0 |>, [Cache_put_group_end (ws_put_group s) abort]).

(** The indices of the recycler recipes. *)
Definition recyclers (recipes : list bool) : list nat :=
  map fst (List.filter (fun p => p.2) (zip (seq 0 (length recipes)) recipes)).

Definition _release_ephemeral_claims s : writeable_off_stream_t * list put_effect :=
  if negb (ws_is_ephemeral s) then done s
  else (s <| ws_created_hashes := [] |>,
        map Cache_ephemeral_release (ws_created_hashes s) ++ map Recycler_release (recyclers (ws_recipes s))).

(** Setting the stream to completed and telling the subscribers. *)
Definition finish s : writeable_off_stream_t * list put_effect :=
  (s <| ws_is_deactivated := true |> <| ws_completed := true |>, [Notify_finished; Notify_complete; Notify_close]).

Definition _maybe_finalize s : writeable_off_stream_t * list put_effect :=
  if ws_pending_finalize s && (length (ws_entries s) =? 0)%nat && negb (ws_has_pulled s)
  then finish (s <| ws_pending_finalize := false |>) else done s.

Definition _get_random_blocks s : writeable_off_stream_t * list put_effect :=
  match ws_current_recipe s with
  | Some recipe => if ws_has_pulled s then done s else (s <| ws_has_pulled := true |>, [Recipe_pull recipe])
  | None => done s
  end.

Definition current_is_recycler s : bool :=
  match ws_current_recipe s with Some r => default false (ws_recipes s !! r) | None => false end.

(** [created_hashes] of an ephemeral put: blocks that are not the recycler's. *)
Definition record_created (b : block_t) s : writeable_off_stream_t :=
  if ws_is_ephemeral s && bool_decide (is_Some (ws_current_recipe s)) && negb (current_is_recycler s)
  then s <| ws_created_hashes := ws_created_hashes s ++ [block_hash b] |> else s.

Definition off_data (e : off_stream_tuple_entry_t) : buffer_t :=
  fold_left (fun data b => buffer_xor data (blk_data b)) (random_blocks e) (buffer_copy (blk_data (origin e))).

Definition is_final (e : off_stream_tuple_entry_t) s : bool :=
  match ws_final_block s with
  | Some final => bool_decide (block_hash (origin e) = block_hash final)
  | None => false
  end.

(** After a tuple: the end of the put, or the next entry. *)
Definition after_tuple (e : off_stream_tuple_entry_t) s : writeable_off_stream_t * list put_effect :=
  if is_final e s then finish (s <| ws_final_block := None |>)
  else if (0 <? length (ws_entries s))%nat && negb (ws_is_deactivated s) then _get_random_blocks s
  else _maybe_finalize s.

Definition _create_tuple (e : off_stream_tuple_entry_t) s : writeable_off_stream_t * list put_effect :=
  match block_create_existing_data_by_type (off_data e) with
  | None => done s
  | Some off_block =>
      let s := if ws_is_ephemeral s
               then s <| ws_created_hashes := ws_created_hashes s ++ [block_hash off_block] |> else s in
      let tuple := fold_left tuple_push (map block_hash (random_blocks e) ++ [block_hash off_block])
                     (tuple_create (ws_tuple_size s)) in
      (s, map (fun b => Cache_put b (ws_put_group s)) (random_blocks e) ++
          [if ws_is_ephemeral s then Cache_put_ephemeral off_block else Cache_put off_block (ws_put_group s);
           Tuple_cache_put tuple (block_bytes (origin e)); Notify_tuple tuple]) ;;; after_tuple e
  end.

(** A block of the file joins the queue. *)
Definition push_entry (origin : block_t) s : writeable_off_stream_t :=
  s <| ws_entries := ws_entries s ++ [_entry_create origin (ws_tuple_size s)] |>.

Definition notify_readable s : writeable_off_stream_t * list put_effect :=
  if ws_is_readable s then done s else (s <| ws_is_readable := true |>, [Notify_readable]).

(** A full accumulator. *)
Definition flush_accumulator s : writeable_off_stream_t * list put_effect :=
  (match block_create_existing_data_by_type
           (buffer_create_from_pointer_copy (take (ws_block_size s) (ws_accumulator s))) with
   | Some origin => notify_readable (push_entry origin s) ;;; _get_random_blocks
   | None => done s
   end) ;;; fun s => done (s <| ws_accumulator := [] |>).

(** The loop over the bytes of a write; an iteration consumes at least one. *)
Fixpoint write_loop (fuel : nat) (data : bytes) s : writeable_off_stream_t * list put_effect :=
  match fuel, data with
  | S fuel, _ :: _ =>
      let accum_space := (ws_block_size s - length (ws_accumulator s))%nat in
      let to_append := if (length data <? accum_space)%nat then length data else accum_space in
      let s := s <| ws_accumulator := ws_accumulator s ++ take to_append data |> in
      (if (ws_block_size s <=? length (ws_accumulator s))%nat then flush_accumulator s else done s) ;;;
      write_loop fuel (drop to_append data)
  | _, _ => done s
  end.

Definition on_write (data : bytes) s : writeable_off_stream_t * list put_effect :=
  if ws_is_deactivated s then done s
  else write_loop (length data) data (s <| ws_hash_state := ws_hash_state s ++ data |>).

(** What is left in the accumulator becomes the last block of the file. *)
Definition finalize_block (random : bytes) s : writeable_off_stream_t * list put_effect :=
  if (0 <? length (ws_accumulator s))%nat then
    (match block_create_by_type (exact_buffer (ws_accumulator s)) (ws_block_type s) random with
     | Some origin => _get_random_blocks (push_entry origin (s <| ws_final_block := Some origin |>))
     | None => done s
     end) ;;; fun s => done (s <| ws_accumulator := [] |>)
  else done s.

Definition on_finalize (random : bytes) s : writeable_off_stream_t * list put_effect :=
  if ws_is_deactivated s then done s
  else
    (s, [Notify_hash (blake3 (ws_hash_state s))]) ;;; finalize_block random ;;; fun s =>
    if (length (ws_entries s) =? 0)%nat && negb (ws_has_pulled s) then finish s
    else done (s <| ws_pending_finalize := true |>).

Definition on_recipe_block (b : block_t) s : writeable_off_stream_t * list put_effect :=
  let s := s <| ws_has_pulled := false |> in
  match ws_entries s with
  | entry :: entries =>
      if ws_is_deactivated s then done (record_created b s)
      else
        let entry := mk_entry (origin entry) (random_blocks entry ++ [b]) (random_capacity entry) in
        let s := record_created b (s <| ws_entries := entry :: entries |>) in
        if random_capacity entry <=? Z.of_nat (length (random_blocks entry))
        then _create_tuple entry (s <| ws_entries := entries |>)
        else _get_random_blocks s
  | [] => done (record_created b s)
  end.

(** [stream_deactivate] with an error. *)
Definition stream_deactivate s : writeable_off_stream_t * list put_effect :=
  if ws_is_deactivated s then done s
  else (s <| ws_is_deactivated := true |>, [Notify_error; Notify_close]).

Definition on_rotate s : writeable_off_stream_t * list put_effect :=
  let s := s <| ws_recipe_index := S (ws_recipe_index s) |> in
  if (length (ws_recipes s) <=? ws_recipe_index s)%nat
  then stream_deactivate s ;;; _writeable_put_group_end true
  else
    let s := s <| ws_current_recipe := Some (ws_recipe_index s) |> in
    if ws_has_pulled s then _get_random_blocks s else done s.

Definition on_put_result (result : cache_put_result_e) (hash : bytes) (fib : Z) (promoted : bool) s
  : writeable_off_stream_t * list put_effect :=
  match result with
  | CACHE_PUT_ERROR | CACHE_PUT_FULL =>
      if ws_is_deactivated s then done s
      else (s <| ws_is_deactivated := true |>, []) ;;; _release_ephemeral_claims ;;;
           _writeable_put_group_end true ;;; emit [Notify_error]
  | CACHE_PUT_EXISTS => (s, if promoted && network then [Network_rank_advertise hash fib] else [])
  | CACHE_PUT_NEW => (s, if network && negb (ws_is_ephemeral s) then [Network_store hash fib] else [])
  end.

Definition writeable_off_stream_dispatch s (msg : ws_message) : writeable_off_stream_t * list put_effect :=
  match msg with
  | WRITEABLE_WRITE data => on_write data s
  | WRITEABLE_FINALIZE random => on_finalize random s
  | RECIPE_BLOCK_DATA b => on_recipe_block b s
  | RECIPE_ROTATE => on_rotate s
  | CACHE_PUT_RESULT result hash fib promoted => on_put_result result hash fib promoted s
  | CLOSE_STREAM => (s <| ws_is_deactivated := true |>, [Notify_close])
  end.

Definition writeable_off_stream_set_ephemeral (ephemeral : bool) s : writeable_off_stream_t :=
  s <| ws_is_ephemeral := ephemeral |>.

(** The last reference is gone. *)
Definition writeable_off_stream_destroy s : writeable_off_stream_t * list put_effect :=
  (if ws_is_ephemeral s && negb (ws_completed s) then _release_ephemeral_claims s else done s) ;;; fun s =>
  _writeable_put_group_end (negb (ws_completed s)) s.
End Writeable.

(** ** Exclusive or of several blocks *)

(** What a reader computes from the blocks of a tuple, in the order it gets them. *)
Definition decode (bs : list buffer_t) : option buffer_t :=
  match bs with
  | [] => None
  | b :: bs => Some (fold_left buffer_xor bs (buffer_copy b))
  end.

Definition xor_list (zs : list Z) : Z := foldr Z.lxor 0 zs.

Lemma xor_list_permutation l1 l2 : l1 ≡ₚ l2 -> xor_list l1 = xor_list l2.
Proof.
  unfold xor_list. induction 1 as [|x l1 l2 _ IH|x y l|l1 l2 l3 _ IH1 _ IH2]; cbn [foldr]; [done|by rewrite IH| |congruence].
  by rewrite <- !Z.lxor_assoc, (Z.lxor_comm y x).
Qed.

Lemma xor_list_app l1 l2 : xor_list (l1 ++ l2) = Z.lxor (xor_list l1) (xor_list l2).
Proof. unfold xor_list. induction l1 as [|x l1 IH]; cbn [foldr app]; [by rewrite Z.lxor_0_l|]. by rewrite IH, Z.lxor_assoc. Qed.

Lemma fold_xor_byte l b i :
  byte_at (fold_left buffer_xor l b) i = Z.lxor (byte_at b i) (xor_list (map (fun b => byte_at b i) l)).
Proof.
  revert b. induction l as [|x l IH]; intros b; cbn [fold_left map]; [cbn; by rewrite Z.lxor_0_r|].
  by rewrite IH, xor_byte, Z.lxor_assoc.
Qed.

Lemma fold_xor_size n l b :
  buf_size b = n -> Forall (fun b => buf_size b = n) l -> buf_size (fold_left buffer_xor l b) = n.
Proof.
  intros Hb Hl. revert b Hb. induction Hl as [|x l Hx _ IH]; intros b Hb; [done|].
  cbn [fold_left]. apply IH. rewrite xor_size. lia.
Qed.

Lemma byte_at_copy b i : byte_at (buffer_copy b) i = byte_at b i.
Proof. done. Qed.

Lemma decode_bytes n l b :
  Forall (fun b => buf_size b = n) l -> decode l = Some b ->
  buf_size b = n /\ forall i, byte_at b i = xor_list (map (fun b => byte_at b i) l).
Proof.
  intros Hl Hd. destruct l as [|x l]; [done|]. apply Forall_cons in Hl as [Hx Hl].
  apply (inj Some) in Hd as <-. split; [by apply fold_xor_size|].
  intros i. by rewrite fold_xor_byte, byte_at_copy.
Qed.

(** The order does not matter. *)
Lemma decode_permutation n l1 l2 b1 :
  l1 ≡ₚ l2 -> Forall (fun b => buf_size b = n) l1 -> decode l1 = Some b1 ->
  exists b2, decode l2 = Some b2 /\ buf_data b2 = buf_data b1.
Proof.
  intros Hp Hl H1. assert (Forall (fun b => buf_size b = n) l2) as Hl2 by (by rewrite <- Hp).
  destruct l2 as [|x l2]; [by apply Permutation_nil_r in Hp as ->|].
  eexists. split; [reflexivity|]. destruct (decode_bytes n l1 b1 Hl H1) as [Hs1 Hb1].
  destruct (decode_bytes n (x :: l2) _ Hl2 eq_refl) as [Hs2 Hb2].
  apply buffer_eq; [congruence|]. intros i _. rewrite Hb1, Hb2. apply xor_list_permutation, Permutation_map. done.
Qed.

Lemma off_data_fold e :
  off_data e = fold_left buffer_xor (map blk_data (random_blocks e)) (buffer_copy (blk_data (origin e))).
Proof. unfold off_data. generalize (buffer_copy (blk_data (origin e))). induction (random_blocks e); cbn; auto. Qed.

Lemma off_data_size n e :
  buf_size (blk_data (origin e)) = n -> Forall (fun b => buf_size (blk_data b) = n) (random_blocks e) ->
  buf_size (off_data e) = n.
Proof. intros Ho Hr. rewrite off_data_fold. apply fold_xor_size; [done|]. by apply Forall_fmap. Qed.

Lemma decode_off_data n e :
  buf_size (blk_data (origin e)) = n -> Forall (fun b => buf_size (blk_data b) = n) (random_blocks e) ->
  exists b, decode (map blk_data (random_blocks e) ++ [off_data e]) = Some b /\
    buf_data b = buf_data (blk_data (origin e)).
Proof.
  intros Ho Hr. assert (Forall (fun b => buf_size b = n) (map blk_data (random_blocks e))) as Hr'.
  { by apply Forall_fmap. }
  pose proof (off_data_size n e Ho Hr) as Hs.
  destruct (decode (map blk_data (random_blocks e) ++ [off_data e])) as [b|] eqn:Hd; [|by destruct (random_blocks e)].
  exists b. split; [done|]. apply (decode_bytes n) in Hd as [Hsb Hb]; [|apply Forall_app; by split; [|repeat constructor]].
  apply buffer_eq; [congruence|]. intros i _. rewrite Hb, map_app, xor_list_app. cbn [map]. rewrite off_data_fold, fold_xor_byte.
  unfold xor_list at 2. cbn [foldr]. rewrite Z.lxor_0_r, byte_at_copy, Z.lxor_comm, Z.lxor_assoc, Z.lxor_nilpotent. apply Z.lxor_0_r.
Qed.

(** ** Observations on the effects of a put *)

Definition tuples_of (effs : list put_effect) : list tuple_t :=
  omap (fun e => match e with Notify_tuple t => Some t | _ => None end) effs.

Definition stored (effs : list put_effect) : list block_t :=
  omap (fun e => match e with Cache_put b _ | Cache_put_ephemeral b => Some b | _ => None end) effs.

Definition file_hashes (effs : list put_effect) : list bytes :=
  omap (fun e => match e with Notify_hash h => Some h | _ => None end) effs.

Lemma tuples_of_app e1 e2 : tuples_of (e1 ++ e2) = tuples_of e1 ++ tuples_of e2.
Proof. apply omap_app. Qed.
Lemma stored_app e1 e2 : stored (e1 ++ e2) = stored e1 ++ stored e2.
Proof. apply omap_app. Qed.
Lemma file_hashes_app e1 e2 : file_hashes (e1 ++ e2) = file_hashes e1 ++ file_hashes e2.
Proof. apply omap_app. Qed.

Section Put.
Context {BL : Blake3}.
Variables (network : bool) (type : block_size_e) (tuple_size : nat) (recipes : list bool) (group : Z) (ephemeral : bool).
Hypothesis tuple_size_ok : (2 <= tuple_size)%nat.
Hypothesis recipes_ok : recipes <> [].

Abbreviation bs := (Z.to_nat (block_size type)).

(** A block of the put's size with its own hash. *)
Definition block_ok (b : block_t) : Prop := block_wf b /\ buf_size (blk_data b) = bs.

(** A tuple whose blocks are all among [puts] and decode to the block [o]. *)
Definition encodes (puts : list block_t) (t : tuple_t) (o : block_t) : Prop :=
  exists blocks, t = tuple_of tuple_size (map block_hash blocks) /\ length blocks = tuple_size /\
    Forall (fun b => b ∈ puts /\ block_ok b) blocks /\
    exists d, decode (map blk_data blocks) = Some d /\ buf_data d = block_bytes o.

Lemma encodes_mono puts puts' t o : puts ⊆ puts' -> encodes puts t o -> encodes puts' t o.
Proof.
  intros Hp (blocks & Ht & Hl & Hb & Hd). exists blocks. split_and!; try done.
  eapply Forall_impl; [exact Hb|]. intros b [Hin Hok]. split; [|done]. by apply Hp.
Qed.

Lemma bs_pos : (0 < bs)%nat.
Proof. destruct type; cbn [block_size]; lia. Qed.

Lemma existing_block_ok data :
  buf_size data = bs -> exists b, block_create_existing_data_by_type data = Some b /\ blk_data b = data /\ block_ok b.
Proof.
  intros Hs. unfold block_create_existing_data_by_type.
  assert (legal_size (Z.of_nat (buf_size data)) = true) as Hl.
  { rewrite Hs, Z2Nat.id by (destruct type; cbn; lia). apply legal_block_size. }
  rewrite Hl. eexists. split; [reflexivity|]. split; [done|]. split; [|done]. by split.
Qed.

(** The tuple of an entry that has all its random blocks. *)
Lemma off_block_encodes e :
  block_ok (origin e) -> Forall block_ok (random_blocks e) -> S (length (random_blocks e)) = tuple_size ->
  exists off, block_create_existing_data_by_type (off_data e) = Some off /\
    forall puts, off ∈ puts -> random_blocks e ⊆ puts ->
      encodes puts (fold_left tuple_push (map block_hash (random_blocks e) ++ [block_hash off])
                      (tuple_create tuple_size)) (origin e).
Proof.
  intros [Ho Hos] Hr Hlen.
  assert (Forall (fun b => buf_size (blk_data b) = bs) (random_blocks e)) as Hrs by (eapply Forall_impl; [exact Hr|]; by intros b []).
  pose proof (off_data_size bs e Hos Hrs) as Hs.
  destruct (existing_block_ok (off_data e) Hs) as (off & Hoff & Hd & Hok). exists off. split; [done|].
  intros puts Hin Hsub. exists (random_blocks e ++ [off]). split_and!.
  - rewrite tuple_create_of, tuple_push_all; [by rewrite map_app|].
    rewrite length_app, length_map. cbn [length]. lia.
  - rewrite length_app. cbn [length]. lia.
  - apply Forall_app. split; [|by apply Forall_singleton]. apply Forall_forall. intros b Hb. split; [by apply Hsub|].
    rewrite Forall_forall in Hr. auto.
  - rewrite map_app. cbn [map]. rewrite Hd. by apply (decode_off_data bs).
Qed.

(** ** The invariant of a put *)

Definition entry_fresh (e : off_stream_tuple_entry_t) : Prop :=
  random_capacity e = Z.of_nat tuple_size - 1 /\ random_blocks e = [].

(** The first entry is collecting random blocks, the others wait. *)
Definition entries_ok (es : list off_stream_tuple_entry_t) : Prop :=
  match es with
  | [] => True
  | e :: es => random_capacity e = Z.of_nat tuple_size - 1 /\ Forall block_ok (random_blocks e) /\
      (S (length (random_blocks e)) < tuple_size)%nat /\ Forall entry_fresh es
  end.

(** The padded block is the last to be encoded, and none before it looks like it. *)
Definition final_ok (final : option block_t) (es : list off_stream_tuple_entry_t) : Prop :=
  match final with
  | None => True
  | Some fb => exists es' e, es = es' ++ [e] /\ origin e = fb /\
      Forall (fun e => block_hash (origin e) <> block_hash fb) es'
  end.

Definition nonempty {A} (l : list A) : bool := negb (length l =? 0)%nat.

(** [w] has been written, [h] absorbed by the hasher, [f] is the padding of the
    last block once the put is finalized, [effs] are the effects so far and
    [dn] the blocks of the file that have been encoded. *)
Record put_inv (s : writeable_off_stream_t) (w h : bytes) (f : option bytes) (effs : list put_effect)
    (dn : list block_t) : Prop := {
  pi_params : ws_block_type s = type /\ ws_block_size s = bs /\ ws_tuple_size s = tuple_size /\
    is_Some (ws_current_recipe s);
  pi_done : Forall2 (encodes (stored effs)) (tuples_of effs) dn;
  pi_origins : Forall block_ok (dn ++ map origin (ws_entries s));
  pi_entries : entries_ok (ws_entries s);
  pi_content : concat (map block_bytes (dn ++ map origin (ws_entries s))) ++ ws_accumulator s = w ++ default [] f;
  pi_hasher : ws_hash_state s = h;
  pi_hash : file_hashes effs = match f with None => [] | Some _ => [blake3 h] end;
  pi_pulled : ws_has_pulled s = nonempty (ws_entries s);
  pi_deactivated : ws_is_deactivated s = ws_completed s;
  pi_state : match f with
    | None => (length (ws_accumulator s) < bs)%nat /\ ws_final_block s = None /\ ws_completed s = false /\
        ws_pending_finalize s = false
    | Some pad => ws_accumulator s = [] /\ (length pad < bs)%nat /\
        if ws_completed s then ws_entries s = []
        else ws_entries s <> [] /\ ws_pending_finalize s = true /\ final_ok (ws_final_block s) (ws_entries s)
    end
}.

Lemma silent_inv s w h f effs dn e :
  tuples_of e = [] -> stored e = [] -> file_hashes e = [] -> put_inv s w h f effs dn -> put_inv s w h f (effs ++ e) dn.
Proof.
  intros Ht Hs Hh []. split; try done.
  - by rewrite tuples_of_app, stored_app, Ht, Hs, !app_nil_r.
  - by rewrite file_hashes_app, Hh, app_nil_r.
Qed.

Lemma get_random_blocks_eq s :
  is_Some (ws_current_recipe s) ->
  exists e, _get_random_blocks s = (s <| ws_has_pulled := true |>, e) /\
    tuples_of e = [] /\ stored e = [] /\ file_hashes e = [].
Proof.
  intros [r Hr]. unfold _get_random_blocks. rewrite Hr. destruct (ws_has_pulled s) eqn:E; [|by eexists].
  exists []. split_and!; try done. destruct s; simpl in *; by subst.
Qed.

Lemma entries_ok_snoc es o :
  entries_ok es -> entries_ok (es ++ [_entry_create o tuple_size]).
Proof.
  assert (random_capacity (_entry_create o tuple_size) = Z.of_nat tuple_size - 1) as Hc
    by (cbn; destruct tuple_size; lia).
  destruct es as [|e es]; cbn.
  - intros _. split_and!; [done|constructor|lia|constructor].
  - intros (? & ? & ? & ?). split_and!; try done. apply Forall_app. split; [done|]. by apply Forall_singleton.
Qed.

Lemma nonempty_snoc {A} (l : list A) x : nonempty (l ++ [x]) = true.
Proof. unfold nonempty. rewrite length_app. cbn [length]. by rewrite Nat.add_1_r. Qed.

(** A filled accumulator becomes an entry. *)
Lemma flush_inv s w h effs dn chunk :
  put_inv s w h None effs dn -> length (ws_accumulator s ++ chunk) = bs ->
  let r := flush_accumulator (s <| ws_accumulator := ws_accumulator s ++ chunk |>) in
  put_inv r.1 (w ++ chunk) h None (effs ++ r.2) dn.
Proof.
  intros [(Ht & Hs & Hts & Hr) Hd Ho He Hc Hhs Hh Hp Hde (Hl & Hf & Hco & Hpe)] Hfull. cbv zeta.
  set (s0 := s <| ws_accumulator := ws_accumulator s ++ chunk |>). unfold flush_accumulator.
  change (ws_block_size s0) with (ws_block_size s). change (ws_accumulator s0) with (ws_accumulator s ++ chunk).
  rewrite Hs, (take_ge (ws_accumulator s ++ chunk)) by lia.
  destruct (existing_block_ok (buffer_create_from_pointer_copy (ws_accumulator s ++ chunk)) Hfull)
    as (o & -> & Hdata & Hok).
  set (s1 := push_entry o s0).
  assert (exists b e, notify_readable s1 = (s1 <| ws_is_readable := b |>, e) /\
    tuples_of e = [] /\ stored e = [] /\ file_hashes e = []) as (b & e1 & -> & T1 & S1 & H1).
  { unfold notify_readable. destruct (ws_is_readable s1) eqn:E; [|by eexists _, _].
    exists true, []. split; [|done]. unfold s1, s0 in *. destruct s; simpl in *. by subst. }
  remember (s1 <| ws_is_readable := b |>) as s2 eqn:E2.
  destruct (get_random_blocks_eq s2 (ltac:(by rewrite E2))) as (e2 & HG & T2 & S2 & H2).
  rewrite (andthen_eq (_, e1)). cbn [fst snd]. rewrite HG, andthen_eq. cbn [fst snd done]. rewrite app_nil_r. subst s2.
  apply silent_inv; [by rewrite tuples_of_app, T1, T2|by rewrite stored_app, S1, S2|by rewrite file_hashes_app, H1, H2|].
  split; simpl; try done.
  - rewrite map_app, app_assoc. apply Forall_app. split; [done|]. by apply Forall_singleton.
  - rewrite Hts. by apply entries_ok_snoc.
  - rewrite !map_app, !concat_app. cbn [map concat origin _entry_create].
    assert (block_bytes o = ws_accumulator s ++ chunk) as -> by (unfold block_bytes; by rewrite Hdata).
    rewrite map_app, concat_app in Hc. cbn [default] in *. rewrite !app_nil_r in *. subst w. by rewrite <- !app_assoc.
  - by rewrite nonempty_snoc.
  - split_and!; try done. apply bs_pos.
Qed.

(** The loop stores all bytes of the write. *)
Lemma write_loop_inv fuel data s w h effs dn :
  (length data <= fuel)%nat -> put_inv s w h None effs dn ->
  let r := write_loop fuel data s in put_inv r.1 (w ++ data) h None (effs ++ r.2) dn.
Proof.
  cbv zeta. revert data s w effs. induction fuel as [|fuel IH]; intros data s w effs Hf Hinv.
  { destruct data; [|simpl in Hf; lia]. cbn. by rewrite !app_nil_r. }
  destruct data as [|x data]; [cbn; by rewrite !app_nil_r|]. cbn [write_loop].
  pose proof Hinv as [(_ & Hs & _) _ _ _ _ _ _ _ _ (Hl & _)]. rewrite Hs.
  set (n := if (_ <? _)%nat then _ else _).
  assert ((0 < n <= length (x :: data))%nat /\ (length (ws_accumulator s) + n <= bs)%nat) as [Hn Hfit].
  { unfold n. cbn [length]. destruct (Nat.ltb_spec (S (length data)) (bs - length (ws_accumulator s))); lia. }
  assert (length (take n (x :: data)) = n) as Htk by (rewrite length_take; lia).
  set (s1 := s <| ws_accumulator := ws_accumulator s ++ take n (x :: data) |>).
  assert (exists s2 e, (if (ws_block_size s1 <=? length (ws_accumulator s1))%nat then flush_accumulator s1 else done s1) = (s2, e)
    /\ put_inv s2 (w ++ take n (x :: data)) h None (effs ++ e) dn) as (s2 & e & -> & Hinv2).
  { destruct (Nat.leb_spec (ws_block_size s1) (length (ws_accumulator s1))) as [Hle|Hle]; unfold s1 in Hle; simpl in Hle;
      rewrite Hs, length_app, Htk in Hle.
    - eexists _, _. split; [apply surjective_pairing|]. apply flush_inv; [done|]. rewrite length_app. lia.
    - exists s1, []. split; [done|]. rewrite app_nil_r. unfold s1. clear -Hinv Hle Htk. destruct Hinv as [? ? ? ? Hc ? ? ? ? (? & ? & ? & ?)].
      split; simpl; try done; [|split_and!; try done; rewrite length_app, Htk; lia].
      cbn [default] in *. rewrite app_nil_r in Hc |- *. rewrite <- Hc. by rewrite app_assoc. }
  rewrite andthen_eq. cbn [fst snd].
  specialize (IH (drop n (x :: data)) s2 (w ++ take n (x :: data)) (effs ++ e)).
  rewrite <- app_assoc, take_drop, <- app_assoc in IH. apply IH; [|done]. rewrite length_drop. cbn [length] in *. lia.
Qed.

(** What pads the last block, and that block. *)
Definition padding (s : writeable_off_stream_t) (random : bytes) : bytes :=
  match ws_accumulator s with [] => [] | _ => random end.

Definition padding_ok (s : writeable_off_stream_t) (random : bytes) : Prop :=
  ws_accumulator s <> [] ->
  length random = (bs - length (ws_accumulator s))%nat /\
  Forall (fun e => block_hash (origin e) <> blake3 (ws_accumulator s ++ random)) (ws_entries s).

Lemma finalize_block_inv s w effs dn random :
  put_inv s w w None effs dn -> padding_ok s random ->
  let r := finalize_block random s in
  (ws_entries r.1 <> [] /\ put_inv (r.1 <| ws_pending_finalize := true |>) w w (Some (padding s random))
    (effs ++ [Notify_hash (blake3 w)] ++ r.2) dn) \/
  (ws_entries r.1 = [] /\ ws_has_pulled r.1 = false /\
   put_inv (finish r.1).1 w w (Some (padding s random)) (effs ++ [Notify_hash (blake3 w)] ++ r.2) dn).
Proof.
  intros [(Ht & Hs & Hts & Hr) Hd Ho He Hc Hhs Hh Hp Hde (Hl & Hf & Hco & Hpe)] Hpad. cbv zeta.
  assert (forall e, stored e = [] -> tuples_of e = [] ->
    Forall2 (encodes (stored (effs ++ [Notify_hash (blake3 w)] ++ e))) (tuples_of (effs ++ [Notify_hash (blake3 w)] ++ e)) dn) as Hd'.
  { intros e Hse Hte. rewrite !stored_app, !tuples_of_app, Hse, Hte. cbn. by rewrite !app_nil_r. }
  assert (forall e, file_hashes e = [] -> file_hashes (effs ++ [Notify_hash (blake3 w)] ++ e) = [blake3 w]) as Hh'.
  { intros e Hhe. rewrite !file_hashes_app, Hhe, Hh. done. }
  unfold finalize_block, padding, padding_ok in *. destruct (ws_accumulator s) as [|x acc] eqn:Eacc.
  - cbn [length Nat.ltb Nat.leb default] in *. rewrite !app_nil_r in Hc.
    destruct (ws_entries s) as [|e es] eqn:Ee; [right|left]; unfold done; cbn [fst snd].
    + split; [done|]. split; [by rewrite Hp|]. cbn [finish fst]. split; simpl; try done; rewrite ?Ee, ?Eacc, ?app_nil_r in *; auto;
        [by apply (Hd' [])|by apply (Hh' [])].
    + split; [by rewrite Ee|]. split; simpl; try done; rewrite ?Ee, ?Eacc, ?app_nil_r in *; auto;
        [by apply (Hd' [])|by apply (Hh' [])|]. split_and!; [done|apply bs_pos|]. rewrite Hco. by rewrite Hf.
  - left. rewrite <- Eacc in *. destruct (Hpad ltac:(by rewrite Eacc)) as [Hlen Hfresh].
    assert (0 < length (ws_accumulator s))%nat as Hpos by (rewrite Eacc; simpl; lia).
    rewrite (proj2 (Nat.ltb_lt _ _) Hpos).
    assert (buf_size (exact_buffer (ws_accumulator s ++ random)) = bs) as Hsz.
    { unfold buf_size. cbn [exact_buffer buf_data]. rewrite length_app. lia. }
    set (o := mk_block (exact_buffer (ws_accumulator s ++ random)) (hash_data (exact_buffer (ws_accumulator s ++ random)))).
    assert (block_create_by_type (exact_buffer (ws_accumulator s)) (ws_block_type s) random = Some o) as ->.
    { unfold block_create_by_type. rewrite Ht. unfold buf_size. cbn [exact_buffer buf_data].
      rewrite (proj2 (Z.ltb_ge _ _)), (proj2 (Z.ltb_lt _ _)) by (destruct type; cbn [block_size] in *; lia). done. }
    assert (block_ok o) as Hok.
    { split; [split; [|done]|done]. unfold o. cbn [blk_data]. rewrite Hsz, Z2Nat.id by (destruct type; cbn; lia). apply legal_block_size. }
    remember (push_entry o (s <| ws_final_block := Some o |>)) as s2 eqn:E2.
    destruct (get_random_blocks_eq s2 (ltac:(by rewrite E2))) as (e2 & HG & T2 & S2 & H2).
    rewrite HG, andthen_eq. cbn [fst snd done]. rewrite app_nil_r. subst s2.
    split; [by simpl; destruct (ws_entries s)|]. split; simpl; auto.
    + by apply (Hd' e2).
    + rewrite map_app, app_assoc. apply Forall_app. split; [done|]. by apply Forall_singleton.
    + rewrite Hts. by apply entries_ok_snoc.
    + rewrite !map_app, !concat_app. cbn [map concat origin _entry_create default].
      assert (block_bytes o = ws_accumulator s ++ random) as -> by done.
      rewrite map_app, concat_app in Hc. cbn [default] in *. rewrite !app_nil_r in *. subst w. by rewrite <- !app_assoc.
    + by apply (Hh' e2).
    + by rewrite nonempty_snoc.
    + split_and!; [done|lia|]. rewrite Hco. split_and!; [by destruct (ws_entries s)|done|].
      eexists _, _. by split_and!.
Qed.

Lemma on_finalize_inv s w effs dn random :
  put_inv s w w None effs dn -> padding_ok s random ->
  let r := on_finalize random s in put_inv r.1 w w (Some (padding s random)) (effs ++ r.2) dn.
Proof.
  intros Hinv Hpad. pose proof (finalize_block_inv s w effs dn random Hinv Hpad) as H. cbv zeta in *.
  pose proof Hinv as [_ _ _ _ _ Hhs _ _ Hde (_ & _ & Hco & _)]. unfold on_finalize. rewrite Hde, Hco, Hhs.
  rewrite (andthen_eq (s, _)). cbn [fst snd]. rewrite andthen_eq. cbn [fst snd].
  destruct (finalize_block random s) as [s1 e1]. cbn [fst snd] in *. destruct H as [[Hne H]|(He & Hp & H)].
  - assert ((length (ws_entries s1) =? 0)%nat && negb (ws_has_pulled s1) = false) as ->.
    { by destruct (ws_entries s1). }
    cbn [done fst snd]. by rewrite app_nil_r.
  - rewrite He, Hp. cbn [length Nat.eqb negb andb]. unfold finish in *. cbn [fst snd] in *.
    rewrite !app_assoc in *. apply silent_inv; [done..|]. done.
Qed.

Lemma record_created_fields b s : exists l, record_created b s = s <| ws_created_hashes := l |>.
Proof. unfold record_created. destruct (_ && _ && _); [by eexists|]. exists (ws_created_hashes s). by destruct s. Qed.

(** One more random block for the first entry. *)
Lemma attach_inv s w h f effs dn e es b :
  put_inv s w h f effs dn -> ws_entries s = e :: es -> block_ok b ->
  (S (S (length (random_blocks e))) < tuple_size)%nat -> forall l,
  put_inv (s <| ws_entries := mk_entry (origin e) (random_blocks e ++ [b]) (random_capacity e) :: es |>
             <| ws_created_hashes := l |> <| ws_has_pulled := true |>) w h f effs dn.
Proof.
  intros [Hpar Hd Ho He Hc Hhs Hh Hp Hde Hst] Hes Hb Hlt l. rewrite Hes in *. destruct He as (Hcap & Hr & Hn & Hf).
  split; simpl; try done.
  - split_and!; try done; [apply Forall_app; by split; [|apply Forall_singleton]|rewrite length_app; simpl; lia].
  - destruct f as [pad|]; [|done]. destruct Hst as (? & ? & Hst). split_and!; try done.
    destruct (ws_completed s); [done|]. destruct Hst as (_ & ? & Hfin). split_and!; try done.
    destruct (ws_final_block s) as [fb|]; [|done]. destruct Hfin as (es' & e' & Heq & Hor & Hall).
    destruct es' as [|e0 es']; cbn [app] in Heq; simplify_eq.
    + by eexists [], _.
    + apply Forall_cons in Hall as [? ?]. eexists (_ :: es'), e'. split_and!; [done|done|]. by constructor.
Qed.

(** What storing a tuple adds to what is known. *)
Lemma encodes_step effs dn e off pre t :
  Forall2 (encodes (stored effs)) (tuples_of effs) dn ->
  stored pre = random_blocks e ++ [off] -> tuples_of pre = [t] ->
  (forall puts, off ∈ puts -> random_blocks e ⊆ puts -> encodes puts t (origin e)) ->
  Forall2 (encodes (stored (effs ++ pre))) (tuples_of (effs ++ pre)) (dn ++ [origin e]).
Proof.
  intros Hd Hs Ht Henc. rewrite tuples_of_app, stored_app, Hs, Ht. apply Forall2_app.
  - eapply Forall2_impl; [exact Hd|]. intros t' o. apply encodes_mono. intros b Hb. apply elem_of_app. by left.
  - constructor; [|constructor]. apply Henc; [set_solver|]. intros b Hb. set_solver.
Qed.

Lemma final_ok_tail fb e e' es s :
  final_ok fb (e :: e' :: es) -> ws_final_block s = fb -> is_final e s = false /\ final_ok fb (e' :: es).
Proof.
  intros Hf Hs. unfold is_final. rewrite Hs. destruct fb as [b|]; [|done]. destruct Hf as (es' & x & Heq & Hx & Hall).
  destruct es' as [|e0 es']; cbn [app] in Heq; simplify_eq. apply Forall_cons in Hall as [Hne Hall]. split.
  - by apply bool_decide_eq_false.
  - by exists es', x.
Qed.

(** The facts about a put whose first entry has just been encoded. *)
Lemma drop_entry s w h f effs dn e es :
  put_inv s w h f effs dn -> ws_entries s = e :: es ->
  ws_is_deactivated s = false /\ ws_completed s = false /\ entries_ok es /\
  Forall block_ok ((dn ++ [origin e]) ++ map origin es) /\
  concat (map block_bytes ((dn ++ [origin e]) ++ map origin es)) ++ ws_accumulator s = w ++ default [] f.
Proof.
  intros [Hpar Hd Ho He Hc Hhs Hh Hp Hde Hst] Hes. rewrite Hes in *. rewrite <- app_assoc.
  assert (ws_completed s = false) as Hcf.
  { destruct f as [pad|]; [|by destruct Hst as (_ & _ & ? & _)]. destruct Hst as (_ & _ & Hst). by destruct (ws_completed s). }
  split_and!; [congruence|done| |done|done].
  destruct He as (_ & _ & _ & Hf). destruct es as [|e' es]; [done|]. apply Forall_cons in Hf as [[? Hrb] Hf].
  cbn. rewrite Hrb. split_and!; [done|constructor|simpl; lia|done].
Qed.

Lemma after_tuple_next s w h f effs effs' dn e e' es rb l :
  put_inv s w h f effs dn -> ws_entries s = e :: e' :: es ->
  Forall2 (encodes (stored effs')) (tuples_of effs') (dn ++ [origin e]) -> file_hashes effs' = file_hashes effs ->
  let r := after_tuple (mk_entry (origin e) rb (random_capacity e))
             (s <| ws_has_pulled := false |> <| ws_entries := e' :: es |> <| ws_created_hashes := l |>) in
  put_inv r.1 w h f (effs' ++ r.2) (dn ++ [origin e]).
Proof.
  intros Hinv Hes Hd' Hh'. cbv zeta. destruct (drop_entry s w h f effs dn e _ Hinv Hes) as (Hdf & Hcf & Heo & Ho & Hc).
  destruct Hinv as [(Ht & Hs & Hts & Hr) Hd _ _ _ Hhs Hh Hp Hde Hst]. rewrite Hes in *.
  remember (s <| ws_has_pulled := false |> <| ws_entries := e' :: es |> <| ws_created_hashes := l |>) as s1 eqn:E1.
  assert (is_final e s1 = false /\ match f with None => True | Some _ => final_ok (ws_final_block s) (e' :: es) end) as [Hnf Hfin].
  { destruct f as [pad|].
    - rewrite Hcf in Hst. destruct Hst as (_ & _ & _ & _ & Hf). by apply (final_ok_tail _ e); [|rewrite E1].
    - destruct Hst as (_ & Hf & _). unfold is_final. rewrite E1. simpl. by rewrite Hf. }
  unfold after_tuple. change (is_final (mk_entry (origin e) rb (random_capacity e)) s1) with (is_final e s1). rewrite Hnf.
  assert ((0 <? length (ws_entries s1))%nat && negb (ws_is_deactivated s1) = true) as -> by (rewrite E1; simpl; by rewrite Hdf).
  destruct (get_random_blocks_eq s1 (ltac:(by rewrite E1))) as (e2 & HG & T2 & S2 & H2). rewrite HG. cbn [fst snd]. subst s1.
  apply silent_inv; [done..|]. split; simpl; try done; [by rewrite Hh'|].
  destruct f as [pad|]; [|done]. destruct Hst as (? & ? & Hst). rewrite Hcf in *. naive_solver.
Qed.

Lemma after_tuple_last s w h f effs effs' dn e rb l :
  put_inv s w h f effs dn -> ws_entries s = [e] ->
  Forall2 (encodes (stored effs')) (tuples_of effs') (dn ++ [origin e]) -> file_hashes effs' = file_hashes effs ->
  let r := after_tuple (mk_entry (origin e) rb (random_capacity e))
             (s <| ws_has_pulled := false |> <| ws_entries := [] |> <| ws_created_hashes := l |>) in
  put_inv r.1 w h f (effs' ++ r.2) (dn ++ [origin e]).
Proof.
  intros Hinv Hes Hd' Hh'. cbv zeta. destruct (drop_entry s w h f effs dn e _ Hinv Hes) as (Hdf & Hcf & Heo & Ho & Hc).
  destruct Hinv as [(Ht & Hs & Hts & Hr) Hd _ _ _ Hhs Hh Hp Hde Hst]. rewrite Hes in *.
  unfold after_tuple, is_final. simpl ws_final_block. simpl ws_entries. cbn [origin length Nat.ltb Nat.leb andb].
  destruct f as [pad|].
  - destruct Hst as (Hacc & Hpl & Hst). rewrite Hcf in Hst. destruct Hst as (_ & Hpe & Hfin).
    assert (forall fin pf, put_inv (s <| ws_has_pulled := false |> <| ws_entries := [] |> <| ws_created_hashes := l |>
      <| ws_final_block := fin |> <| ws_pending_finalize := pf |> <| ws_is_deactivated := true |> <| ws_completed := true |>)
      w h (Some pad) effs' (dn ++ [origin e])) as Hend.
    { intros fin pf. split; simpl; try done. by rewrite Hh'. }
    destruct (ws_final_block s) as [fb|] eqn:Efb.
    + destruct Hfin as (es' & x & Heq & <- & _). destruct es' as [|? [|? es']]; cbn [app] in Heq; simplify_eq.
      rewrite bool_decide_true by done. cbn [finish fst snd]. apply silent_inv; [done..|]. apply (Hend None (ws_pending_finalize s)).
    + unfold _maybe_finalize. simpl ws_pending_finalize. simpl ws_entries. simpl ws_has_pulled. rewrite Hpe.
      cbn [length Nat.eqb negb andb finish fst snd]. apply silent_inv; [done..|].
      specialize (Hend None false). simpl in Hend |- *. by rewrite Efb.
  - destruct Hst as (Hacc & Hf & _ & Hpe). rewrite Hf. unfold _maybe_finalize. simpl ws_pending_finalize. rewrite Hpe.
    cbn [andb done fst snd]. apply silent_inv; [done..|]. split; simpl; try done. by rewrite Hh'.
Qed.

Lemma create_tuple_inv s w h f effs dn e es b l :
  put_inv s w h f effs dn -> ws_entries s = e :: es -> block_ok b ->
  S (S (length (random_blocks e))) = tuple_size ->
  let r := _create_tuple (mk_entry (origin e) (random_blocks e ++ [b]) (random_capacity e))
             (s <| ws_has_pulled := false |> <| ws_entries := es |> <| ws_created_hashes := l |>) in
  put_inv r.1 w h f (effs ++ r.2) (dn ++ [origin e]).
Proof.
  intros Hinv Hes Hb Hlen. pose proof Hinv as [(_ & _ & Hts & _) Hd Ho He _ _ _ _ _ _]. rewrite Hes in Ho, He.
  set (e' := mk_entry (origin e) (random_blocks e ++ [b]) (random_capacity e)).
  destruct (off_block_encodes e') as (off & Hoff & Henc).
  { cbn [map] in Ho. apply Forall_app in Ho as [_ Ho]. by apply Forall_cons in Ho as [? _]. }
  { destruct He as (_ & Hr & _). apply Forall_app. by split; [|apply Forall_singleton]. }
  { cbn [e' random_blocks]. rewrite length_app. cbn [length]. lia. }
  cbv zeta. unfold _create_tuple. rewrite Hoff.
  remember (s <| ws_has_pulled := false |> <| ws_entries := es |> <| ws_created_hashes := l |>) as s1 eqn:E1.
  assert (exists l', (if ws_is_ephemeral s1 then s1 <| ws_created_hashes := ws_created_hashes s1 ++ [block_hash off] |> else s1) =
    s <| ws_has_pulled := false |> <| ws_entries := es |> <| ws_created_hashes := l' |>) as [l' ->].
  { destruct (ws_is_ephemeral s1); [|by eexists]. rewrite E1. by eexists. }
  clear s1 E1. remember (s <| ws_has_pulled := false |> <| ws_entries := es |> <| ws_created_hashes := l' |>) as s1 eqn:E1.
  assert (ws_tuple_size s1 = tuple_size) as -> by (by rewrite E1).
  set (t := fold_left tuple_push _ _). set (pre := map _ (random_blocks e') ++ _). rewrite andthen_eq. cbn [fst snd].
  rewrite app_assoc.
  assert (stored pre = random_blocks e' ++ [off] /\ tuples_of pre = [t] /\ file_hashes pre = []) as (Hsp & Htp & Hhp).
  { unfold pre. rewrite stored_app, tuples_of_app, file_hashes_app.
    assert (forall l, stored (map (fun b => Cache_put b (ws_put_group s1)) l) = l /\
      tuples_of (map (fun b => Cache_put b (ws_put_group s1)) l) = [] /\
      file_hashes (map (fun b => Cache_put b (ws_put_group s1)) l) = []) as H.
    { clear. induction l as [|x l (IH1 & IH2 & IH3)]; [done|]. csimpl. split_and!; [by f_equal|done|done]. }
    destruct (H (random_blocks e')) as (-> & -> & ->). by destruct (ws_is_ephemeral s1). }
  assert (Forall2 (encodes (stored (effs ++ pre))) (tuples_of (effs ++ pre)) (dn ++ [origin e])) as Hd'.
  { by apply (encodes_step effs dn e' off pre t). }
  assert (file_hashes (effs ++ pre) = file_hashes effs) as Hh' by (by rewrite file_hashes_app, Hhp, app_nil_r).
  subst s1. destruct es as [|e2 es].
  - by apply (after_tuple_last s w h f effs).
  - by apply (after_tuple_next s w h f effs).
Qed.

Lemma on_recipe_block_inv s w h f effs dn b :
  put_inv s w h f effs dn -> ws_has_pulled s = true -> block_ok b ->
  let r := on_recipe_block b s in exists dn', put_inv r.1 w h f (effs ++ r.2) dn'.
Proof.
  intros Hinv Hpull Hb. cbv zeta. pose proof Hinv as [(_ & _ & _ & Hr) _ _ He _ _ _ Hp _ _].
  destruct (ws_entries s) as [|e es] eqn:Ee; [by rewrite Hpull in Hp|].
  destruct (drop_entry s w h f effs dn e es Hinv Ee) as (Hdf & _). destruct He as (Hcap & Hrb & Hn & _).
  unfold on_recipe_block. simpl ws_entries. rewrite Ee. simpl ws_is_deactivated. rewrite Hdf. cbn [origin random_blocks random_capacity].
  match goal with |- context [record_created b ?x] => destruct (record_created_fields b x) as [l Hl]; rewrite Hl end.
  rewrite Hcap, length_app. cbn [length].
  destruct (Z.leb_spec (Z.of_nat tuple_size - 1) (Z.of_nat (length (random_blocks e) + 1))) as [Hfull|Hless].
  - exists (dn ++ [origin e]). rewrite <- Hcap. apply (create_tuple_inv s w h f effs dn e es b l); try done. lia.
  - exists dn. match goal with |- context [_get_random_blocks ?x] => remember x as s1 eqn:E1 end.
    destruct (get_random_blocks_eq s1 (ltac:(by rewrite E1))) as (e2 & HG & T2 & S2 & H2). rewrite HG. cbn [fst snd].
    apply silent_inv; [done..|]. subst s1. rewrite <- Hcap. apply (attach_inv s w h f effs dn e es b); try done. lia.
Qed.

(** A rotation to a recipe there is. *)
Lemma on_rotate_next s :
  ws_has_pulled s = true -> (S (ws_recipe_index s) < length (ws_recipes s))%nat ->
  on_rotate s = (s <| ws_recipe_index := S (ws_recipe_index s) |> <| ws_current_recipe := Some (S (ws_recipe_index s)) |>, []).
Proof.
  intros Hp Hlast. unfold on_rotate. simpl ws_recipes. simpl ws_recipe_index. rewrite (proj2 (Nat.leb_gt _ _)) by lia.
  simpl ws_has_pulled. rewrite Hp. unfold _get_random_blocks. simpl ws_current_recipe. simpl ws_has_pulled. by rewrite Hp.
Qed.

Lemma rotated_inv s w h f effs dn i j :
  put_inv s w h f effs dn -> put_inv (s <| ws_recipe_index := i |> <| ws_current_recipe := Some j |>) w h f effs dn.
Proof. intros [(? & ? & ? & _) ? ? ? ? ? ? ? ? ?]. by split. Qed.

(** ** The states of a put that does not fail

    Data is written, the put is finalized, recipes answer the pulls or hand them
    to the next recipe and the caches report success, in any order and
    interleaving; nothing is written after the end of the file, and the padding
    of the last block does not make it equal to a block that still waits.  What
    else may happen to a put is added in [put_history] below. *)
Inductive put_reach : writeable_off_stream_t -> bytes -> option bytes -> list put_effect -> Prop :=
| put_start :
    put_reach (writeable_off_stream_set_ephemeral ephemeral (writeable_off_stream_create type tuple_size recipes group))
      [] None []
| put_write s w effs data :
    put_reach s w None effs ->
    let r := writeable_off_stream_dispatch network s (WRITEABLE_WRITE data) in
    put_reach r.1 (w ++ data) None (effs ++ r.2)
| put_finalize s w effs random :
    put_reach s w None effs -> padding_ok s random ->
    let r := writeable_off_stream_dispatch network s (WRITEABLE_FINALIZE random) in
    put_reach r.1 w (Some (padding s random)) (effs ++ r.2)
| put_block s w f effs b :
    put_reach s w f effs -> ws_has_pulled s = true -> block_ok b ->
    let r := writeable_off_stream_dispatch network s (RECIPE_BLOCK_DATA b) in
    put_reach r.1 w f (effs ++ r.2)
| put_stored s w f effs result hash fib promoted :
    put_reach s w f effs -> result = CACHE_PUT_NEW \/ result = CACHE_PUT_EXISTS ->
    let r := writeable_off_stream_dispatch network s (CACHE_PUT_RESULT result hash fib promoted) in
    put_reach r.1 w f (effs ++ r.2)
| put_rotate s w f effs :
    put_reach s w f effs -> ws_has_pulled s = true -> (S (ws_recipe_index s) < length (ws_recipes s))%nat ->
    let r := writeable_off_stream_dispatch network s RECIPE_ROTATE in
    put_reach r.1 w f (effs ++ r.2)
| put_late_close s w f effs :
    put_reach s w f effs -> ws_completed s = true ->
    let r := writeable_off_stream_dispatch network s CLOSE_STREAM in
    put_reach r.1 w f (effs ++ r.2).

Lemma put_reach_inv s w f effs : put_reach s w f effs -> exists dn, put_inv s w w f effs dn.
Proof.
  induction 1 as [|s w effs data _ [dn IH] r|s w effs random _ [dn IH] Hpad r|s w f effs b _ [dn IH] Hp Hb r
    |s w f effs result hash fib promoted _ [dn IH] Hres r|s w f effs _ [dn IH] Hp Hlast r|s w f effs _ [dn IH] Hc r].
  - exists []. split; simpl; try done; [split_and!; try done; destruct recipes; [done|by eexists]|].
    split_and!; try done. apply bs_pos.
  - exists dn. subst r. cbn [writeable_off_stream_dispatch]. unfold on_write.
    pose proof IH as [_ _ _ _ _ Hhs _ _ Hde (_ & _ & Hco & _)]. rewrite Hde, Hco, Hhs.
    apply write_loop_inv; [done|]. destruct IH as [? ? ? ? ? ? ? ? ? ?]. by split.
  - exists dn. by apply on_finalize_inv.
  - by apply (on_recipe_block_inv s w w f effs dn).
  - exists dn. subst r. destruct Hres as [-> | ->]; cbn [writeable_off_stream_dispatch on_put_result fst snd];
      (apply silent_inv; [by destruct (_ && _)..|done]).
  - exists dn. subst r. cbn [writeable_off_stream_dispatch]. rewrite (on_rotate_next s Hp Hlast). cbn [fst snd].
    apply silent_inv; [done..|]. by apply rotated_inv.
  - exists dn. subst r. cbn [writeable_off_stream_dispatch fst snd]. apply silent_inv; [done..|].
    pose proof (pi_deactivated _ _ _ _ _ _ IH) as Hd. rewrite Hc in Hd.
    replace (s <| ws_is_deactivated := true |>) with s by (destruct s; cbn in *; by subst). done.
Qed.

(** ** The states of a put *)

(** The padding completes the last block. *)
Definition padding_fills (s : writeable_off_stream_t) (random : bytes) : Prop :=
  ws_accumulator s <> [] -> length random = (bs - length (ws_accumulator s))%nat.

(** The last block differs from those that still wait. *)
Definition padding_distinct (s : writeable_off_stream_t) (random : bytes) : bool :=
  match ws_accumulator s with
  | [] => true
  | acc => forallb (fun e => negb (bool_decide (block_hash (origin e) = blake3 (acc ++ random)))) (ws_entries s)
  end.

(** Everything that can happen to a put before its end is written: besides what
    [put_reach] has, the last recipe may run out, a cache may fail and the stream
    may be closed at any time.  The boolean says whether the padding was found
    distinct. *)
Inductive put_history : bool -> writeable_off_stream_t -> bytes -> option bytes -> list put_effect -> Prop :=
| ph_start :
    put_history true
      (writeable_off_stream_set_ephemeral ephemeral (writeable_off_stream_create type tuple_size recipes group)) [] None []
| ph_write d s w effs data :
    put_history d s w None effs ->
    let r := writeable_off_stream_dispatch network s (WRITEABLE_WRITE data) in
    put_history d r.1 (w ++ data) None (effs ++ r.2)
| ph_finalize d s w effs random :
    put_history d s w None effs -> padding_fills s random ->
    let r := writeable_off_stream_dispatch network s (WRITEABLE_FINALIZE random) in
    put_history (d && padding_distinct s random) r.1 w (Some (padding s random)) (effs ++ r.2)
| ph_block d s w f effs b :
    put_history d s w f effs -> ws_has_pulled s = true -> block_ok b ->
    let r := writeable_off_stream_dispatch network s (RECIPE_BLOCK_DATA b) in
    put_history d r.1 w f (effs ++ r.2)
| ph_rotate d s w f effs :
    put_history d s w f effs -> ws_has_pulled s = true ->
    let r := writeable_off_stream_dispatch network s RECIPE_ROTATE in
    put_history d r.1 w f (effs ++ r.2)
| ph_result d s w f effs result hash fib promoted :
    put_history d s w f effs ->
    let r := writeable_off_stream_dispatch network s (CACHE_PUT_RESULT result hash fib promoted) in
    put_history d r.1 w f (effs ++ r.2)
| ph_close d s w f effs :
    put_history d s w f effs ->
    let r := writeable_off_stream_dispatch network s CLOSE_STREAM in
    put_history d r.1 w f (effs ++ r.2).

(** A put that has ended without completing never completes. *)
Definition ended (s : writeable_off_stream_t) : Prop := ws_is_deactivated s = true /\ ws_completed s = false.

Lemma group_end_ended abort s : ended s -> ended (_writeable_put_group_end abort s).1.
Proof. unfold _writeable_put_group_end. by case_match. Qed.

Lemma release_ended s : ended s -> ended (_release_ephemeral_claims s).1.
Proof. unfold _release_ephemeral_claims. by case_match. Qed.

Lemma record_created_ended b s : ended s -> ended (record_created b s).
Proof. by destruct (record_created_fields b s) as [l ->]. Qed.

Lemma on_rotate_last s :
  ws_completed s = false -> (length (ws_recipes s) <= S (ws_recipe_index s))%nat -> ended (on_rotate s).1.
Proof.
  intros Hc Hl. unfold on_rotate. simpl ws_recipes. simpl ws_recipe_index. rewrite (proj2 (Nat.leb_le _ _) Hl), andthen_eq.
  cbn [fst]. apply group_end_ended. unfold stream_deactivate. simpl ws_is_deactivated. by case_match.
Qed.

Lemma failed_result_ended result hash fib promoted s :
  result = CACHE_PUT_ERROR \/ result = CACHE_PUT_FULL -> ws_completed s = false ->
  ended (on_put_result network result hash fib promoted s).1.
Proof.
  intros Hr Hc. assert (on_put_result network result hash fib promoted s =
    on_put_result network CACHE_PUT_ERROR hash fib promoted s) as -> by by destruct Hr as [-> | ->].
  cbn [on_put_result]. case_match; [by split|]. rewrite !andthen_eq. cbn [fst emit]. by apply group_end_ended, release_ended.
Qed.

Lemma dispatch_ended s m : ended s -> ended (writeable_off_stream_dispatch network s m).1.
Proof.
  intros Hs. pose proof Hs as [Hd Hc]. destruct m as [data|random|b| |result hash fib promoted|]; cbn [writeable_off_stream_dispatch].
  - unfold on_write. by rewrite Hd.
  - unfold on_finalize. by rewrite Hd.
  - unfold on_recipe_block. case_match; [by apply record_created_ended|]. simpl ws_is_deactivated. rewrite Hd.
    by apply record_created_ended.
  - destruct (Nat.le_gt_cases (length (ws_recipes s)) (S (ws_recipe_index s))) as [Hl|Hl]; [by apply on_rotate_last|].
    unfold on_rotate. simpl ws_recipes. simpl ws_recipe_index. rewrite (proj2 (Nat.leb_gt _ _)) by lia.
    unfold _get_random_blocks. by repeat case_match.
  - destruct result; [done|done|apply failed_result_ended; auto..].
  - done.
Qed.

Lemma padding_ok_intro s random : padding_fills s random -> padding_distinct s random = true -> padding_ok s random.
Proof.
  unfold padding_fills, padding_distinct, padding_ok. intros Hf Hd Hne. split; [by apply Hf|].
  destruct (ws_accumulator s) as [|x acc]; [done|]. apply List.Forall_forall. intros e He.
  by apply (proj1 (forallb_forall _ _) Hd), negb_true_iff, bool_decide_eq_false in He.
Qed.

(** A put whose padding was distinct has not failed, or has ended without
    completing. *)
Lemma put_history_reach d s w f effs : put_history d s w f effs -> d = true -> put_reach s w f effs \/ ended s.
Proof.
  assert (forall s w f effs, put_reach s w f effs -> ws_is_deactivated s = ws_completed s) as Hdc.
  { intros s' w' f' effs' [dn Hinv]%put_reach_inv. apply Hinv. }
  induction 1 as [|d s w effs data _ IH r|d s w effs random _ IH Hf r|d s w f effs b _ IH Hp Hb r|d s w f effs _ IH Hp r
    |d s w f effs result hash fib promoted _ IH r|d s w f effs _ IH r]; intros Hd; [by left; constructor| | | | | |]; subst r;
    try (apply andb_true_iff in Hd as [Hd Hpd]); (destruct (IH Hd) as [Hr|Hr]; [|right; by apply dispatch_ended]).
  - left. by apply put_write.
  - left. apply put_finalize; [done|]. by apply padding_ok_intro.
  - left. by apply put_block.
  - destruct (Nat.le_gt_cases (length (ws_recipes s)) (S (ws_recipe_index s))) as [Hl|Hl]; [|left; by apply put_rotate].
    right. apply on_rotate_last; [|done]. destruct (ws_completed s) eqn:Hc; [|done]. exfalso.
    destruct (put_reach_inv _ _ _ _ Hr) as [dn [_ _ _ _ _ _ _ Hpl _ Hst]]. rewrite Hp in Hpl.
    destruct f; [|by destruct Hst as (_ & _ & ? & _); congruence]. destruct Hst as (_ & _ & Hst). rewrite Hc in Hst.
    by rewrite Hst in Hpl.
  - destruct (decide (result = CACHE_PUT_NEW \/ result = CACHE_PUT_EXISTS)) as [Hn|Hn]; [left; by apply put_stored|].
    assert (result = CACHE_PUT_ERROR \/ result = CACHE_PUT_FULL) as He by (destruct result; naive_solver).
    destruct (ws_completed s) eqn:Hc; [left|right; by apply failed_result_ended].
    assert (writeable_off_stream_dispatch network s (CACHE_PUT_RESULT result hash fib promoted) = (s, [])) as ->.
    { destruct He as [-> | ->]; cbn; by rewrite (Hdc _ _ _ _ Hr), Hc. }
    cbn [fst snd]. by rewrite app_nil_r.
  - destruct (ws_completed s) eqn:Hc; [left; by apply put_late_close|]. by right.
Qed.

Lemma put_history_completed s w f effs : put_history true s w f effs -> ws_completed s = true -> put_reach s w f effs.
Proof. intros Hh Hc. destruct (put_history_reach _ _ _ _ _ Hh eq_refl) as [|[_ He]]; [done|congruence]. Qed.

(** ** Progress *)

(** The random blocks still to come. *)
Definition missing (s : writeable_off_stream_t) : nat :=
  sum_list (map (fun e => tuple_size - 1 - length (random_blocks e))%nat (ws_entries s)).

Lemma after_tuple_entries e s : ws_entries (after_tuple e s).1 = ws_entries s.
Proof.
  unfold after_tuple, _get_random_blocks, _maybe_finalize, finish.
  repeat first [done | case_match].
Qed.

Lemma create_tuple_entries e s : ws_entries (_create_tuple e s).1 = ws_entries s.
Proof.
  unfold _create_tuple. case_match; [|done]. rewrite andthen_eq. cbn [fst]. rewrite after_tuple_entries. by destruct (ws_is_ephemeral s).
Qed.

Lemma on_recipe_block_missing s w f effs b :
  put_reach s w f effs -> ws_entries s <> [] -> S (missing (on_recipe_block b s).1) = missing s.
Proof.
  intros [dn Hinv]%put_reach_inv Hne. pose proof Hinv as [(_ & _ & _ & [rc Hrc]) _ _ He _ _ _ _ _ _].
  unfold missing. destruct (ws_entries s) as [|e es] eqn:Ee; [done|].
  destruct (drop_entry s w w f effs dn e es Hinv Ee) as (Hdf & _). destruct He as (Hcap & _ & Hn & _).
  unfold on_recipe_block. simpl ws_entries. rewrite Ee. simpl ws_is_deactivated. rewrite Hdf.
  cbn [origin random_blocks random_capacity].
  match goal with |- context [record_created b ?x] => destruct (record_created_fields b x) as [l Hl]; rewrite Hl end.
  rewrite Hcap, length_app. cbn [length map].
  destruct (Z.leb_spec (Z.of_nat tuple_size - 1) (Z.of_nat (length (random_blocks e) + 1))).
  - rewrite create_tuple_entries. simpl ws_entries. cbn [sum_list_with]. unfold id. lia.
  - unfold _get_random_blocks. simpl ws_current_recipe. rewrite Hrc. simpl ws_has_pulled. cbn [fst]. simpl ws_entries.
    cbn [map sum_list_with random_blocks]. rewrite length_app. cbn [length]. unfold id. lia.
Qed.

Lemma missing_zero s w pad effs : put_reach s w (Some pad) effs -> missing s = 0%nat -> ws_completed s = true.
Proof.
  intros [dn [_ _ _ He _ _ _ _ _ (_ & _ & Hst)]]%put_reach_inv Hm. destruct (ws_completed s); [done|].
  destruct Hst as (Hne & _). destruct (ws_entries s) as [|e es] eqn:Ee; [done|]. exfalso.
  unfold missing in Hm. rewrite Ee in Hm. destruct He as (_ & _ & Hn & _). cbn [map sum_list_with] in Hm. unfold id in Hm. lia.
Qed.

Lemma put_blocks_finish blocks s w pad effs :
  put_reach s w (Some pad) effs -> Forall block_ok blocks -> length blocks = missing s ->
  let r := dispatch_all (writeable_off_stream_dispatch network) s (map RECIPE_BLOCK_DATA blocks) in
  put_reach r.1 w (Some pad) (effs ++ r.2) /\ ws_completed r.1 = true.
Proof.
  cbv zeta. intros Hr Hb. revert s effs Hr. induction Hb as [|b blocks Hb _ IH]; intros s effs Hr Hm; cbn [map dispatch_all].
  { cbn [done fst snd]. rewrite app_nil_r. split; [done|]. by eapply missing_zero. }
  rewrite andthen_eq. cbn [fst snd]. rewrite app_assoc.
  assert (ws_entries s <> []) as Hne. { intros He. unfold missing in Hm. by rewrite He in Hm. }
  assert (ws_has_pulled s = true) as Hp.
  { destruct (put_reach_inv _ _ _ _ Hr) as [dn [_ _ _ _ _ _ _ Hp _ _]]. rewrite Hp. by destruct (ws_entries s). }
  apply IH; [by apply (put_block s w (Some pad) effs b)|].
  pose proof (on_recipe_block_missing s w (Some pad) effs b Hr Hne). cbn [length] in Hm. cbn [writeable_off_stream_dispatch]. lia.
Qed.
End Put.

Lemma put_encodes {BL : Blake3} network type tuple_size recipes group ephemeral s w pad effs :
  (2 <= tuple_size)%nat -> recipes <> [] ->
  put_reach network type tuple_size recipes group ephemeral s w (Some pad) effs -> ws_completed s = true ->
  exists blocks, Forall2 (encodes type tuple_size (stored effs)) (tuples_of effs) blocks /\
    concat (map block_bytes blocks) = w ++ pad /\ (length pad < Z.to_nat (block_size type))%nat /\
    file_hashes effs = [blake3 w].
Proof.
  intros Hts Hrec Hr Hc. destruct (put_reach_inv network type tuple_size recipes group ephemeral Hts Hrec _ _ _ _ Hr) as [dn Hinv].
  destruct Hinv as [_ Hd _ _ Hcon _ Hh _ _ (Hacc & Hpl & Hst)]. rewrite Hc in Hst. exists dn.
  rewrite Hst, Hacc in Hcon. cbn [map default] in Hcon. rewrite !app_nil_r in Hcon. done.
Qed.


(** A finalized put waits for exactly [missing] random blocks: when they
    have come the put has completed. *)
Theorem put_finishes {BL : Blake3} network type tuple_size recipes group ephemeral s w pad effs blocks :
  (2 <= tuple_size)%nat -> recipes <> [] ->
  put_reach network type tuple_size recipes group ephemeral s w (Some pad) effs ->
  Forall (block_ok type) blocks -> length blocks = missing tuple_size s ->
  ws_completed (dispatch_all (writeable_off_stream_dispatch network) s (map RECIPE_BLOCK_DATA blocks)).1 = true.
Proof. intros Hts Hrec Hr Hb Hm. by eapply put_blocks_finish. Qed.

(** ** Rotation of recipes *)

Section Stall.
Context {BL : Blake3}.
Variable network : bool.

(** Neither a pull nor a tuple. *)
Definition idle (e : put_effect) : Prop :=
  match e with Recipe_pull _ | Notify_tuple _ => False | _ => True end.

Definition waiting (r : writeable_off_stream_t * list put_effect) : Prop :=
  ws_has_pulled r.1 = true /\ Forall idle r.2.

Lemma waiting_then r f : waiting r -> (forall s, ws_has_pulled s = true -> waiting (f s)) -> waiting (andthen r f).
Proof.
  intros [Hp Hi] Hf. rewrite andthen_eq. destruct (Hf _ Hp) as [Hp' Hi']. split; [done|]. cbn [snd]. by apply Forall_app.
Qed.

Lemma get_random_blocks_waiting s : ws_has_pulled s = true -> waiting (_get_random_blocks s).
Proof. intros Hp. unfold _get_random_blocks. case_match; [rewrite Hp|]; by split. Qed.

Lemma flush_waiting s : ws_has_pulled s = true -> waiting (flush_accumulator s).
Proof.
  intros Hp. unfold flush_accumulator. apply waiting_then; [|by split]. case_match; [|by split].
  apply waiting_then; [|apply get_random_blocks_waiting].
  unfold notify_readable. case_match; [by split|]. split; [done|]. by apply Forall_singleton.
Qed.

Lemma write_loop_waiting fuel data s : ws_has_pulled s = true -> waiting (write_loop fuel data s).
Proof.
  revert data s. induction fuel as [|fuel IH]; intros [|x data] s Hp; cbn [write_loop]; try by split.
  apply waiting_then; [|intros s' Hp'; by apply IH]. case_match; [by apply flush_waiting|by split].
Qed.

Lemma finalize_waiting random s : ws_has_pulled s = true -> waiting (on_finalize random s).
Proof.
  intros Hp. unfold on_finalize. case_match; [by split|].
  apply waiting_then; [apply waiting_then|].
  - split; [done|]. by apply Forall_singleton.
  - intros s' Hp'. unfold finalize_block. case_match; [|by split]. apply waiting_then; [|by split].
    case_match; [|by split]. by apply get_random_blocks_waiting.
  - intros s' Hp'. rewrite Hp', andb_false_r. by split.
Qed.

Lemma release_waiting s : ws_has_pulled s = true -> waiting (_release_ephemeral_claims s).
Proof.
  intros Hp. unfold _release_ephemeral_claims. case_match; [by split|]. split; [done|].
  cbn [snd]. apply Forall_app. split; apply Forall_fmap, Forall_true; done.
Qed.

Lemma group_end_waiting abort s : ws_has_pulled s = true -> waiting (_writeable_put_group_end abort s).
Proof. intros Hp. unfold _writeable_put_group_end. case_match; [by split|]. split; [done|]. by apply Forall_singleton. Qed.

Lemma dispatch_waiting s m :
  ws_has_pulled s = true -> (forall b, m <> RECIPE_BLOCK_DATA b) -> waiting (writeable_off_stream_dispatch network s m).
Proof.
  intros Hp Hm. destruct m as [data|random|b| |result hash fib promoted|]; cbn [writeable_off_stream_dispatch].
  - unfold on_write. case_match; [by split|]. by apply write_loop_waiting.
  - by apply finalize_waiting.
  - by destruct (Hm b).
  - unfold on_rotate. case_match.
    + apply waiting_then; [|intros; by apply group_end_waiting]. unfold stream_deactivate. case_match; [by split|].
      split; [done|]. by repeat constructor.
    + simpl ws_has_pulled. rewrite Hp. by apply get_random_blocks_waiting.
  - destruct result; cbn [on_put_result]; try (split; [done|]; cbn [snd]; by case_match; repeat constructor).
    all: case_match; [by split|]; repeat (apply waiting_then; [|auto using release_waiting, group_end_waiting]);
      [by split|intros s' Hp'; split; [done|by apply Forall_singleton]].
  - split; [done|]. by apply Forall_singleton.
Qed.
End Stall.

(** When a recipe runs out while the stream waits for a block of it, the
    pull is not repeated at the next recipe: neither then nor after any further
    message does the stream pull a block or produce a tuple, unless a block
    arrives that it never asked the new recipe for. *)
Theorem rotate_stalls {BL : Blake3} network s msgs :
  ws_has_pulled s = true -> (S (ws_recipe_index s) < length (ws_recipes s))%nat ->
  (forall b, RECIPE_BLOCK_DATA b ∉ msgs) ->
  let r := dispatch_all (writeable_off_stream_dispatch network) s (RECIPE_ROTATE :: msgs) in
  ws_current_recipe (on_rotate s).1 = Some (S (ws_recipe_index s)) /\ ws_has_pulled r.1 = true /\ Forall idle r.2.
Proof.
  intros Hp Hrec Hm. split.
  { unfold on_rotate. simpl ws_recipes. simpl ws_recipe_index. rewrite (proj2 (Nat.leb_gt _ _)) by lia.
    simpl ws_has_pulled. rewrite Hp. unfold _get_random_blocks. simpl ws_current_recipe. simpl ws_has_pulled. by rewrite Hp. }
  assert (forall msgs s, ws_has_pulled s = true -> (forall b, RECIPE_BLOCK_DATA b ∉ msgs) ->
    waiting (dispatch_all (writeable_off_stream_dispatch network) s msgs)) as H.
  { clear. induction msgs as [|m msgs IH]; intros s Hp Hm; [by split|]. cbn [dispatch_all]. apply waiting_then.
    - apply dispatch_waiting; [done|]. intros b ->. apply (Hm b). by left.
    - intros s' Hp'. apply IH; [done|]. intros b Hb. apply (Hm b). by right. }
  apply H; [done|]. intros b [Hb|Hb]%elem_of_cons; [done|by apply (Hm b)].
Qed.

Lemma create_tuple_final {BL : Blake3} e s off final :
  block_create_existing_data_by_type (off_data e) = Some off -> ws_final_block s = Some final ->
  block_hash (origin e) = block_hash final ->
  ws_completed (_create_tuple e s).1 = true /\ length (tuples_of (_create_tuple e s).2) = 1%nat.
Proof.
  intros Hoff Hf Heq. unfold _create_tuple. rewrite Hoff, andthen_eq. cbn [fst snd].
  match goal with |- context [after_tuple e ?x] => remember x as s1 eqn:E1 end.
  assert (ws_final_block s1 = Some final) as Hf1 by (rewrite E1; by destruct (ws_is_ephemeral s)). clear E1.
  unfold after_tuple, is_final. rewrite Hf1, bool_decide_true by done. unfold finish. cbn [fst snd]. split; [done|].
  rewrite !tuples_of_app.
  assert (forall l g, tuples_of (map (fun b => Cache_put b g) l) = []) as Hm by (clear; induction l; [done|]; intros g; csimpl; auto).
  rewrite Hm. by destruct (ws_is_ephemeral s1).
Qed.

(** If the padding makes the last block equal to one that still waits, the put
    completes when that one is encoded: the blocks after it are dropped. *)
Theorem padding_collision_truncates {BL : Blake3} network type tuple_size s e es b final :
  ws_entries s = e :: es -> es <> [] -> ws_is_deactivated s = false -> ws_tuple_size s = tuple_size ->
  block_ok type (origin e) -> Forall (block_ok type) (random_blocks e) -> block_ok type b ->
  S (S (length (random_blocks e))) = tuple_size -> random_capacity e = Z.of_nat tuple_size - 1 ->
  ws_final_block s = Some final -> block_hash (origin e) = block_hash final ->
  let r := writeable_off_stream_dispatch network s (RECIPE_BLOCK_DATA b) in
  ws_completed r.1 = true /\ ws_entries r.1 = es /\ length (tuples_of r.2) = 1%nat.
Proof.
  intros Hes Hne Hdf Hts Ho Hr Hb Hlen Hcap Hfin Heq. cbn [writeable_off_stream_dispatch]. cbv zeta.
  set (e' := mk_entry (origin e) (random_blocks e ++ [b]) (random_capacity e)).
  assert (on_recipe_block b s = _create_tuple e'
    ((record_created b (s <| ws_has_pulled := false |> <| ws_entries := e' :: es |>)) <| ws_entries := es |>)) as ->.
  { assert (random_capacity e' <=? Z.of_nat (length (random_blocks e')) = true) as Hle.
    { cbn [e' random_blocks random_capacity]. rewrite Hcap, length_app. cbn [length]. apply Z.leb_le. lia. }
    unfold on_recipe_block. change (ws_entries (s <| ws_has_pulled := false |>)) with (ws_entries s). rewrite Hes.
    change (ws_is_deactivated (s <| ws_has_pulled := false |>)) with (ws_is_deactivated s). rewrite Hdf. cbv zeta. fold e'.
    by rewrite Hle. }
  destruct (record_created_fields b (s <| ws_has_pulled := false |> <| ws_entries := e' :: es |>)) as [l ->].
  destruct (off_block_encodes type tuple_size ltac:(lia) e') as (off & Hoff & _).
  { done. } { apply Forall_app. by split; [|apply Forall_singleton]. } { cbn [e' random_blocks]. rewrite length_app. cbn [length]. lia. }
  rewrite create_tuple_entries. destruct (create_tuple_final e' (s <| ws_has_pulled := false |> <| ws_entries := e' :: es |>
    <| ws_created_hashes := l |> <| ws_entries := es |>) off final) as [Hc Ht]; try done.
Qed.

(** ** Concrete puts *)

Lemma random_block_ok {BL : Blake3} type r :
  length r = Z.to_nat (block_size type) -> block_ok type (block_create_random_block_by_type r).
Proof.
  intros Hr. split; [split; [|done]|done]. cbn [blk_data block_create_random_block_by_type]. unfold buf_size. cbn.
  rewrite Hr, Z2Nat.id by (destruct type; cbn; lia). apply legal_block_size.
Qed.

Definition sample_random (x : Z) : block_t := block_create_random_block_by_type (H := poly_blake3) (replicate 136 x).

Definition sample_dispatch := writeable_off_stream_dispatch (BL := poly_blake3) true.

Definition sample_start : writeable_off_stream_t :=
  writeable_off_stream_set_ephemeral false (writeable_off_stream_create nano 2 [false] 1).

(** Two writes, the end of the file and two random blocks. *)
Definition sample_1 := sample_dispatch sample_start (WRITEABLE_WRITE (replicate 100 7)).
Definition sample_2 := sample_dispatch sample_1.1 (WRITEABLE_WRITE (replicate 100 8)).
Definition sample_3 := sample_dispatch sample_2.1 (WRITEABLE_FINALIZE (replicate 72 5)).
Definition sample_4 := sample_dispatch sample_3.1 (RECIPE_BLOCK_DATA (sample_random 1)).
Definition sample_5 := sample_dispatch sample_4.1 (RECIPE_BLOCK_DATA (sample_random 2)).

Lemma sample_finalized_reach :
  put_reach (BL := poly_blake3) true nano 2 [false] 1 false sample_3.1 (([] ++ replicate 100 7) ++ replicate 100 8)
    (Some (padding sample_2.1 (replicate 72 5))) ((([] ++ sample_1.2) ++ sample_2.2) ++ sample_3.2).
Proof.
  apply (put_finalize (BL := poly_blake3) true nano 2 [false] 1 false sample_2.1 _ _ (replicate 72 5)).
  - apply (put_write (BL := poly_blake3) true nano 2 [false] 1 false sample_1.1 _ _ (replicate 100 8)).
    apply (put_write (BL := poly_blake3) true nano 2 [false] 1 false sample_start _ _ (replicate 100 7)).
    apply (put_start (BL := poly_blake3) true nano 2 [false] 1 false).
  - intros _. split; [by vm_compute|]. vm_compute. repeat constructor. discriminate.
Qed.

(** The same put, in which a late failure is reported after it has completed. *)
Definition sample_6 := sample_dispatch sample_5.1 (CACHE_PUT_RESULT CACHE_PUT_ERROR [] 0 false).

Lemma sample_history :
  put_history (BL := poly_blake3) true nano 2 [false] 1 false true sample_6.1 (([] ++ replicate 100 7) ++ replicate 100 8)
    (Some (padding sample_2.1 (replicate 72 5)))
    (((((([] ++ sample_1.2) ++ sample_2.2) ++ sample_3.2) ++ sample_4.2) ++ sample_5.2) ++ sample_6.2).
Proof.
  apply (ph_result (BL := poly_blake3) true nano 2 [false] 1 false true sample_5.1).
  apply (ph_block (BL := poly_blake3) true nano 2 [false] 1 false true sample_4.1 _ _ _ (sample_random 2));
    [|by vm_compute|by apply random_block_ok].
  apply (ph_block (BL := poly_blake3) true nano 2 [false] 1 false true sample_3.1 _ _ _ (sample_random 1));
    [|by vm_compute|by apply random_block_ok].
  refine (ph_finalize (BL := poly_blake3) true nano 2 [false] 1 false true sample_2.1 _ _ (replicate 72 5) _ _);
    [|intros _; by vm_compute].
  apply (ph_write (BL := poly_blake3) true nano 2 [false] 1 false true sample_1.1 _ _ (replicate 100 8)).
  apply (ph_write (BL := poly_blake3) true nano 2 [false] 1 false true sample_start _ _ (replicate 100 7)).
  apply (ph_start (BL := poly_blake3) true nano 2 [false] 1 false).
Qed.


Lemma put_finishes_witness :
  missing 2 sample_3.1 = 2%nat /\
  ws_completed (dispatch_all sample_dispatch sample_3.1 (map RECIPE_BLOCK_DATA [sample_random 3; sample_random 4])).1 = true.
Proof.
  split; [vm_compute; reflexivity|].
  apply (put_finishes (BL := poly_blake3) true nano 2 [false] 1 false sample_3.1 _ _ _ [sample_random 3; sample_random 4]
    (le_n 2) ltac:(discriminate) sample_finalized_reach).
  - constructor; [by apply random_block_ok|]. constructor; [by apply random_block_ok|constructor].
  - vm_compute. reflexivity.
Defined.

(** A recycler that has nothing left, in front of a recipe that has. *)
Lemma rotate_stalls_witness :
  let s := (sample_dispatch (writeable_off_stream_create nano 2 [true; false] 1) (WRITEABLE_WRITE (replicate 136 7))).1 in
  let msgs := [WRITEABLE_WRITE (replicate 136 8); WRITEABLE_FINALIZE []] in
  ws_has_pulled s = true /\
  Forall idle (dispatch_all sample_dispatch s (RECIPE_ROTATE :: msgs)).2.
Proof.
  intros s msgs. assert (ws_has_pulled s = true) as Hp by (vm_compute; reflexivity). split; [exact Hp|].
  destruct (rotate_stalls (BL := poly_blake3) true s msgs Hp) as (_ & _ & H); [vm_compute; lia| |exact H].
  intros b Hb. unfold msgs in Hb. set_solver.
Defined.
