(* ===== verification/DescWrite.v ===== *)
(** * DescWrite: the descriptor of a file

    Models src/src/OFFStreams/writeable_descriptor.c, the actor that collects the
    tuples of a put.  When the put closes it cuts the hashes into chunks, stores
    each chunk as a block that ends with the hash of the next one, and reports
    the hash of the first.  The last block is padded with zeros. *)

From S2P Require Import Prelude Buffer Block Effect Tuple OffWrite.
Local Open Scope effect_scope.

Record writeable_descriptor_t := mk_wd {
  wd_descriptor : bytes;
  wd_tuple_size : nat;
  wd_cut_point : nat;
  wd_block_size : nat;
  wd_data_length : nat;
  wd_block_count : nat;
  wd_descriptor_pad : nat;
  wd_sent_descriptor : bool;
  wd_is_ephemeral : bool;
  wd_put_group : Z;
  wd_is_deactivated : bool
}.

#[export] Instance wd_settable : Settable writeable_descriptor_t := fields! mk_wd
  [wd_descriptor; wd_tuple_size; wd_cut_point; wd_block_size; wd_data_length; wd_block_count; wd_descriptor_pad;
   wd_sent_descriptor; wd_is_ephemeral; wd_put_group; wd_is_deactivated].

Inductive wd_message :=
| WRITEABLE_DESCRIPTOR_WRITE (t : tuple_t)
| WD_CACHE_PUT_RESULT (result : cache_put_result_e) (hash : bytes) (fib : Z) (promoted : bool)
| WD_CLOSE_STREAM.

Section Descriptor.
Context {BL : Blake3}.
Variable network : bool.

Implicit Types s : writeable_descriptor_t.

Definition writeable_descriptor_create (type : block_size_e) (descriptor_pad tuple_size data_length : nat) (put_group : Z)
  : writeable_descriptor_t :=
  let block_size := Z.to_nat (block_size type) in
  {| wd_descriptor := []; wd_tuple_size := tuple_size; wd_cut_point := block_size / descriptor_pad * descriptor_pad;
     wd_block_size := block_size; wd_data_length := data_length; wd_block_count := data_length / block_size;
     wd_descriptor_pad := descriptor_pad; wd_sent_descriptor := false; wd_is_ephemeral := false;
     wd_put_group := put_group; wd_is_deactivated := false |}.

Definition writeable_descriptor_set_ephemeral (ephemeral : bool) s : writeable_descriptor_t :=
  s <| wd_is_ephemeral := ephemeral |>.

(** The last chunk, padded to a block. *)
Definition pad_chunk (block_size : nat) (chunk : bytes) : bytes :=
  if length chunk <? block_size then chunk ++ replicate (block_size - length chunk) 0%Z else chunk.

(** The loop that slices the descriptor: chunks of [chunk_size] while more than
    [cut_point] bytes remain. *)
Fixpoint descriptor_chunks (fuel cut_point chunk_size block_size : nat) (remaining : bytes) : list bytes :=
  match fuel with
  | O => []
  | S fuel =>
      if cut_point <? length remaining then
        take chunk_size remaining ::
        descriptor_chunks fuel cut_point chunk_size block_size (drop chunk_size remaining)
      else if 0 <? length remaining then [pad_chunk block_size remaining]
      else []
  end.

(** The loop that stores the chunks, last to first: the effects, and the hash of
    the last block stored unless a block could not be created. *)
Fixpoint store_chunks s (chunks : list bytes) (prior_hash : option bytes) : list put_effect * option (option bytes) :=
  match chunks with
  | [] => ([], Some prior_hash)
  | chunk :: chunks =>
      let chunk := match prior_hash with Some h => chunk ++ h | None => chunk end in
      match block_create_existing_data_by_type (exact_buffer chunk) with
      | None => ([], None)
      | Some block =>
          let put := if wd_is_ephemeral s then Cache_put_ephemeral block else Cache_put block (wd_put_group s) in
          let '(effs, res) := store_chunks s chunks (Some (block_hash block)) in
          (put :: effs, res)
      end
  end.

Definition wd_deactivate s : writeable_descriptor_t * list put_effect :=
  if wd_is_deactivated s then done s else (s <| wd_is_deactivated := true |>, [Notify_error; Notify_close]).

Definition _build_descriptor_blocks s : writeable_descriptor_t * list put_effect :=
  let chunk_size := wd_cut_point s - wd_descriptor_pad s in
  let chunks := descriptor_chunks (length (wd_descriptor s) + 1) (wd_cut_point s) chunk_size (wd_block_size s)
                  (wd_descriptor s) in
  let '(effs, res) := store_chunks s (reverse chunks) None in
  match res with
  | None => (s, effs) ;;; wd_deactivate
  | Some prior_hash =>
      (s, effs) ;;;
      (fun s => match prior_hash with
                | Some h => (s <| wd_sent_descriptor := true |>, [Notify_hash h])
                | None => done s
                end) ;;;
      fun s => (s <| wd_is_deactivated := true |>, [Notify_finished; Notify_complete; Notify_close])
  end.

(** A tuple of the right size, all of whose hashes have the right length. *)
Definition tuple_valid s (t : tuple_t) : bool :=
  (tuple_size t =? wd_tuple_size s) &&
  forallb (fun i => match tuple_get t i with Some h => length h =? wd_descriptor_pad s | None => false end)
    (seq 0 (tuple_size t)).

Definition wd_write (t : tuple_t) s : writeable_descriptor_t * list put_effect :=
  if wd_is_deactivated s then done s
  else if negb (tuple_valid s t) then done s
  else done (s <| wd_descriptor := wd_descriptor s ++ concat (omap (tuple_get t) (seq 0 (tuple_size t))) |>).

Definition wd_put_result (result : cache_put_result_e) (hash : bytes) (fib : Z) (promoted : bool) s
  : writeable_descriptor_t * list put_effect :=
  match result with
  | CACHE_PUT_ERROR | CACHE_PUT_FULL =>
      if wd_is_deactivated s then done s else (s <| wd_is_deactivated := true |>, [Notify_error])
  | CACHE_PUT_EXISTS => (s, if promoted && network then [Network_rank_advertise hash fib] else [])
  | CACHE_PUT_NEW => (s, if network && negb (wd_is_ephemeral s) then [Network_store hash fib] else [])
  end.

Definition wd_close s : writeable_descriptor_t * list put_effect :=
  if wd_is_deactivated s then done s
  else if wd_sent_descriptor s then (s <| wd_is_deactivated := true |>, [Notify_close])
  else _build_descriptor_blocks s.

Definition writeable_descriptor_dispatch s (msg : wd_message) : writeable_descriptor_t * list put_effect :=
  match msg with
  | WRITEABLE_DESCRIPTOR_WRITE t => wd_write t s
  | WD_CACHE_PUT_RESULT result hash fib promoted => wd_put_result result hash fib promoted s
  | WD_CLOSE_STREAM => wd_close s
  end.
End Descriptor.
