(* ===== verification/DescRead.v ===== *)
(** * DescRead: reading a descriptor back

    Models src/src/OFFStreams/readable_descriptor.c with ori.c: the actor that
    walks the chain of descriptor blocks and passes the tuples on.  Blocks are
    asked for with [Cache_get] and arrive as messages, from the cache or from
    the network.  Sizes are 64-bit; a NULL buffer is [None].  The caller's
    [descriptor_pad] is the length of a hash. *)

From S2P Require Import Prelude Buffer Block Effect Tuple OffWrite.
Local Open Scope Z_scope.
Local Open Scope effect_scope.

Record ori_t := mk_ori {
  ori_descriptor_hash : option bytes;
  ori_descriptor_offset : Z;
  ori_block_type : block_size_e;
  ori_tuple_size : nat;
  ori_file_offset : Z;
  ori_final_byte : Z
}.

Definition ori_create (final_byte : Z) : ori_t := {|
  ori_descriptor_hash := None; ori_descriptor_offset := 0; ori_block_type := standard; ori_tuple_size := 0;
  ori_file_offset := 0; ori_final_byte := final_byte |}.

Inductive descriptor_state_e := DESCRIPTOR_FETCHING_BLOCK | DESCRIPTOR_AWAITING_NETWORK.

Record readable_descriptor_t := mk_rd {
  rd_ori : ori_t;
  rd_cut_point : Z;
  rd_tuple_count : Z;
  rd_tuple_counter : Z;
  rd_offset_tuple : Z;
  rd_descriptor_pad : Z;
  rd_current_tuple : option tuple_t;
  rd_offset_remainder : option bytes;
  rd_next_descriptor_hash : option bytes;
  rd_expected_hash : option bytes;
  rd_state : descriptor_state_e;
  rd_is_deactivated : bool
}.

#[export] Instance rd_settable : Settable readable_descriptor_t := fields! mk_rd
  [rd_ori; rd_cut_point; rd_tuple_count; rd_tuple_counter; rd_offset_tuple; rd_descriptor_pad; rd_current_tuple;
   rd_offset_remainder; rd_next_descriptor_hash; rd_expected_hash; rd_state; rd_is_deactivated].

Inductive rd_effect :=
| Tuple_event (t : tuple_t)
| Complete_event | Close_event | Error_event
| Cache_get (hash : bytes)
| Network_find (hash : bytes).

Inductive rd_message :=
| READABLE_PUSH
| CACHE_GET_RESULT (block : option block_t) (hash : option bytes)
| NETWORK_FIND_BLOCK_RESULT (found : bool) (block : option block_t) (hash : option bytes)
| RD_CLOSE_STREAM.

(** [buffer_slice] on the contents of a buffer. *)
Definition slice (b : bytes) (start end' : Z) : option bytes :=
  if end' <? start then None
  else if Z.of_nat (length b) <? end' then None
  else if Z.of_nat (length b) <? start then None
  else Some (take (Z.to_nat (end' - start)) (drop (Z.to_nat start) b)).

Definition size (b : bytes) : Z := Z.of_nat (length b).

Section Readable.
Variable network : bool.

Implicit Types s : readable_descriptor_t.

Definition readable_descriptor_create (ori : ori_t) (descriptor_pad : Z) : readable_descriptor_t :=
  let block_size := block_size (ori_block_type ori) in
  {| rd_ori := ori;
     rd_cut_point := block_size / descriptor_pad * descriptor_pad;
     rd_tuple_count := ori_final_byte ori / block_size + (if 0 <? ori_final_byte ori mod block_size then 1 else 0);
     rd_tuple_counter := 0;
     rd_offset_tuple := ori_file_offset ori / block_size;
     rd_descriptor_pad := descriptor_pad;
     rd_current_tuple := None; rd_offset_remainder := None; rd_next_descriptor_hash := None; rd_expected_hash := None;
     rd_state := DESCRIPTOR_FETCHING_BLOCK; rd_is_deactivated := false |}.

Definition remaining_after (buf : bytes) (from : Z) : option bytes :=
  if from <? size buf then slice buf from (size buf) else None.

(** The next hash and what follows it; on the way to the tuple of the file
    offset, whole tuples are skipped. *)
Definition _move_to_offset s (descriptor : bytes) : readable_descriptor_t * option bytes * option bytes :=
  let '(buf, s) :=
    match rd_offset_remainder s with
    | Some r => if 0 <? size r then (r ++ descriptor, s <| rd_offset_remainder := None |>) else (descriptor, s)
    | None => (descriptor, s)
    end in
  let pad := rd_descriptor_pad s in
  let entry_size := u64 (pad * Z.of_nat (ori_tuple_size (rd_ori s))) in
  if (0 <? rd_offset_tuple s) && (rd_tuple_counter s <? rd_offset_tuple s) then
    let data := u64 (size buf - pad) in
    if u64 (data / entry_size + rd_tuple_counter s) <? rd_offset_tuple s then
      let cut := u64 (data - data mod entry_size) in
      (s <| rd_tuple_counter := u64 (rd_tuple_counter s + data / entry_size) |>
         <| rd_offset_remainder := slice buf cut data |>,
       slice buf data (size buf), None)
    else
      let cut := u64 (u64 ((rd_offset_tuple s - rd_tuple_counter s) * Z.of_nat (ori_tuple_size (rd_ori s))) * pad) in
      (s <| rd_tuple_counter := u64 (rd_tuple_counter s + cut / entry_size) |>,
       slice buf cut (u64 (cut + pad)), remaining_after buf (u64 (cut + pad)))
  else (s, slice buf 0 pad, remaining_after buf pad).

Definition tuple_fill s : nat := match rd_current_tuple s with Some t => tuple_size t | None => 0 end.

(** The inner loop: hashes into the current tuple until it is full.  [inr] is a
    return from the function: whether another block is needed. *)
Fixpoint fill_tuple (fuel : nat) s (key current : option bytes)
  : (readable_descriptor_t * option bytes) + (readable_descriptor_t * bool) :=
  match fuel with
  | O => inr (s, false)
  | S fuel =>
      if (tuple_fill s <? ori_tuple_size (rd_ori s))%nat then
        match current with
        | Some ((_ :: _) as c) =>
            let s := s <| rd_current_tuple := match rd_current_tuple s, key with
                                              | Some t, Some k => Some (tuple_push t k)
                                              | t, _ => t
                                              end |> in
            if (tuple_fill s =? ori_tuple_size (rd_ori s))%nat then inl (s, current)
            else let '(s, key, current) := _move_to_offset s c in fill_tuple fuel s key current
        | _ =>
            match key with
            | Some k => inr (s <| rd_next_descriptor_hash := Some k |>, true)
            | None => inr (s, false)
            end
        end
      else inl (s, current)
  end.

(** The outer loop: one tuple after the other. *)
Fixpoint process_loop (fuel : nat) (current : option bytes) s : readable_descriptor_t * list rd_effect * bool :=
  match fuel, current with
  | S fuel, Some ((_ :: _) as c) =>
      if rd_is_deactivated s then (s, [], false)
      else
        let s := s <| rd_current_tuple :=
                        match rd_current_tuple s with Some t => Some t
                        | None => Some (tuple_create (ori_tuple_size (rd_ori s))) end |> in
        let '(s, key, current) := _move_to_offset s c in
        match fill_tuple (length c + 1) s key current with
        | inr (s, more) => (s, [], more)
        | inl (s, current) =>
            match rd_current_tuple s with
            | Some t =>
                if (tuple_size t =? ori_tuple_size (rd_ori s))%nat then
                  let s := s <| rd_current_tuple := None |> <| rd_tuple_counter := u64 (rd_tuple_counter s + 1) |> in
                  if rd_tuple_count s <=? rd_tuple_counter s
                  then (s <| rd_is_deactivated := true |>, [Tuple_event t; Complete_event; Close_event], false)
                  else let '(s, effs, more) := process_loop fuel current s in (s, Tuple_event t :: effs, more)
                else process_loop fuel current s
            | None => process_loop fuel current s
            end
        end
  | _, _ => (s, [], false)
  end.

Definition _process_descriptor (block_data : bytes) s : readable_descriptor_t * list rd_effect * bool :=
  let current := slice block_data 0 (rd_cut_point s) in
  let current :=
    if (0 <? ori_descriptor_offset (rd_ori s)) && bool_decide (is_Some (ori_descriptor_hash (rd_ori s)))
    then c ← current; slice c (ori_descriptor_offset (rd_ori s)) (size c)
    else current in
  process_loop (length block_data + 1) current s.

Definition _fetch_descriptor_block (hash : bytes) s : readable_descriptor_t * list rd_effect :=
  (s <| rd_expected_hash := Some hash |>, [Cache_get hash]).

Definition rd_deactivate s : readable_descriptor_t * list rd_effect :=
  if rd_is_deactivated s then done s else (s <| rd_is_deactivated := true |>, [Error_event; Close_event]).

(** A descriptor block has arrived: its tuples, and the next block if needed. *)
Definition process_block (block : block_t) s : readable_descriptor_t * list rd_effect :=
  let '(s, effs, need_more) := _process_descriptor (block_bytes block) s in
  (s, effs) ;;; fun s =>
  match rd_next_descriptor_hash s with
  | Some hash =>
      if need_more && negb (rd_is_deactivated s)
      then _fetch_descriptor_block hash (s <| rd_next_descriptor_hash := None |>) else done s
  | None => done s
  end.

Definition on_push s : readable_descriptor_t * list rd_effect :=
  if rd_is_deactivated s then done s
  else
    match rd_next_descriptor_hash s, ori_descriptor_hash (rd_ori s) with
    | Some hash, _ | None, Some hash => _fetch_descriptor_block hash (s <| rd_next_descriptor_hash := None |>)
    | None, None => (s <| rd_is_deactivated := true |>, [Error_event])
    end.

Definition on_cache_result (block : option block_t) (hash : option bytes) s : readable_descriptor_t * list rd_effect :=
  if rd_is_deactivated s then done s
  else
    let stale := match rd_expected_hash s, hash with
                 | Some e, Some h => negb (compare_bytes e h =? 0)
                 | _, _ => false
                 end in
    if stale then done s
    else
      let s := s <| rd_expected_hash := None |> in
      match block with
      | Some b => process_block b s
      | None =>
          if network then
            (s <| rd_state := DESCRIPTOR_AWAITING_NETWORK |>,
             match hash with Some h => [Network_find h] | None => [] end)
          else rd_deactivate s
      end.

Definition on_network_result (found : bool) (block : option block_t) (hash : option bytes) s
  : readable_descriptor_t * list rd_effect :=
  if found then
    match block with
    | Some b => process_block b s
    | None => (s <| rd_state := DESCRIPTOR_FETCHING_BLOCK |>, match hash with Some h => [Cache_get h] | None => [] end)
    end
  else rd_deactivate s.

Definition readable_descriptor_dispatch s (msg : rd_message) : readable_descriptor_t * list rd_effect :=
  match msg with
  | READABLE_PUSH => on_push s
  | CACHE_GET_RESULT block hash => on_cache_result block hash s
  | NETWORK_FIND_BLOCK_RESULT found block hash => on_network_result found block hash s
  | RD_CLOSE_STREAM => (s <| rd_is_deactivated := true |>, [Close_event])
  end.
End Readable.

(** ** The cut point is fixed *)

Lemma move_cut s d : rd_cut_point (_move_to_offset s d).1.1 = rd_cut_point s.
Proof. unfold _move_to_offset. repeat case_match; simplify_eq; done. Qed.

Lemma fill_cut fuel s key current :
  match fill_tuple fuel s key current with
  | inl (s', _) | inr (s', _) => rd_cut_point s' = rd_cut_point s
  end.
Proof.
  revert s key current. induction fuel as [|fuel IH]; intros s key current; [done|]. cbn [fill_tuple].
  destruct (_ <? _)%nat; [|done]. destruct current as [[|x c]|]; [by destruct key| |by destruct key].
  match goal with |- context [_move_to_offset ?s' _] => set (s1 := s') end.
  destruct (tuple_fill s1 =? _)%nat; [done|]. pose proof (move_cut s1 (x :: c)) as Hm.
  destruct (_move_to_offset s1 (x :: c)) as [[s2 key2] current2]. specialize (IH s2 key2 current2). cbn [fst] in Hm.
  destruct (fill_tuple fuel s2 key2 current2) as [[s3 ?]|[s3 ?]]; by rewrite IH, Hm.
Qed.

Lemma process_cut fuel current s : rd_cut_point (process_loop fuel current s).1.1 = rd_cut_point s.
Proof.
  revert current s. induction fuel as [|fuel IH]; intros [[|x c]|] s; try done. cbn [process_loop].
  destruct (rd_is_deactivated s); [done|]. match goal with |- context [_move_to_offset ?s' _] => set (s1 := s') end.
  pose proof (move_cut s1 (x :: c)) as Hm. destruct (_move_to_offset s1 (x :: c)) as [[s2 key] current]. cbn [fst] in Hm.
  pose proof (fill_cut (length (x :: c) + 1) s2 key current) as Hf.
  destruct (fill_tuple _ s2 key current) as [[s3 cur]|[s3 ?]]; [|by cbn [fst]; rewrite Hf, Hm].
  repeat case_match; cbn [fst]; try (simpl; by rewrite Hf, Hm); try (by rewrite IH, Hf, Hm).
  match goal with H : process_loop fuel cur ?s4 = _ |- _ => pose proof (IH cur s4) as Hi; rewrite H in Hi end.
  cbn [fst] in Hi. rewrite Hi. simpl. by rewrite Hf, Hm.
Qed.

(** ** Reading at the level of hashes *)

Lemma slice_take b n : 0 <= n <= size b -> slice b 0 n = Some (take (Z.to_nat n) b).
Proof.
  intros Hn. unfold slice, size in *. rewrite !(proj2 (Z.ltb_ge _ _)) by lia. by rewrite Z.sub_0_r, drop_0.
Qed.

Lemma slice_drop b n : 0 <= n <= size b -> slice b n (size b) = Some (drop (Z.to_nat n) b).
Proof.
  intros Hn. unfold slice, size in *. rewrite !(proj2 (Z.ltb_ge _ _)) by lia.
  rewrite take_ge; [done|]. rewrite length_drop. lia.
Qed.

Section Keys.
Variables (P ts : nat).
Hypothesis P_pos : (0 < P)%nat.
Hypothesis ts_pos : (0 < ts)%nat.

Definition is_key (k : bytes) : Prop := length k = P.

(** A buffer of hashes; an empty one is NULL. *)
Definition kbuf (ks : list bytes) : option bytes := match ks with [] => None | _ => Some (concat ks) end.

Lemma length_keys ks : Forall is_key ks -> length (concat ks) = (P * length ks)%nat.
Proof. clear P_pos ts_pos. induction 1 as [|k ks Hk _ IH]; cbn [concat length]; [lia|]. rewrite length_app, IH, Hk. lia. Qed.

Lemma kbuf_cons k ks : is_key k -> exists x c, kbuf (k :: ks) = Some (x :: c) /\ x :: c = concat (k :: ks).
Proof.
  intros Hk. cbn [kbuf]. destruct (concat (k :: ks)) as [|x c] eqn:E; [|by eexists _, _].
  cbn [concat] in E. apply app_eq_nil in E as [-> _]. unfold is_key in Hk. simpl in Hk. lia.
Qed.

Lemma slice_key k ks : is_key k -> slice (concat (k :: ks)) 0 (Z.of_nat P) = Some k.
Proof.
  intros Hk. cbn [concat]. rewrite slice_take by (unfold size; rewrite length_app, Hk; lia).
  by rewrite Nat2Z.id, take_app_length'.
Qed.

Lemma remaining_key k ks : Forall is_key (k :: ks) -> remaining_after (concat (k :: ks)) (Z.of_nat P) = kbuf ks.
Proof.
  intros Hks. pose proof (length_keys _ Hks) as Hl. cbn [length] in Hl. apply Forall_cons in Hks as [Hk Hks].
  unfold remaining_after, size. rewrite Hl. destruct ks as [|k' ks].
  - by rewrite (proj2 (Z.ltb_ge _ _)) by (cbn [length]; lia).
  - rewrite (proj2 (Z.ltb_lt _ _)) by (cbn [length]; lia). rewrite <- Hl. fold (size (concat (k :: k' :: ks))).
    rewrite slice_drop by (unfold size; rewrite Hl; cbn [length]; lia).
    rewrite Nat2Z.id. change (concat (k :: k' :: ks)) with (k ++ concat (k' :: ks)). by rewrite drop_app_length'.
Qed.

(** The reader has reached the tuple of the offset. *)
Definition at_offset (s : readable_descriptor_t) : Prop :=
  rd_offset_tuple s <= rd_tuple_counter s /\ match rd_offset_remainder s with Some (_ :: _) => False | _ => True end.

Definition reads (s : readable_descriptor_t) : Prop :=
  rd_descriptor_pad s = Z.of_nat P /\ ori_tuple_size (rd_ori s) = ts.

Lemma move_normal s k ks :
  reads s -> at_offset s -> Forall is_key (k :: ks) -> _move_to_offset s (concat (k :: ks)) = (s, Some k, kbuf ks).
Proof.
  intros [Hp _] [Ho Hr] Hks. unfold _move_to_offset.
  assert (match rd_offset_remainder s with
          | Some r => if 0 <? size r then (r ++ concat (k :: ks), s <| rd_offset_remainder := None |>) else (concat (k :: ks), s)
          | None => (concat (k :: ks), s) end = (concat (k :: ks), s)) as ->.
  { by destruct (rd_offset_remainder s) as [[|]|]. }
  rewrite (proj2 (Z.ltb_ge (rd_tuple_counter s) _)) by lia. rewrite andb_false_r, Hp.
  rewrite slice_key by (by apply Forall_cons in Hks as [? _]). by rewrite remaining_key.
Qed.

Definition with_tuple (l : list bytes) (s : readable_descriptor_t) : readable_descriptor_t :=
  s <| rd_current_tuple := Some (tuple_of ts l) |>.

Lemma with_tuple_twice l l' s : with_tuple l (with_tuple l' s) = with_tuple l s.
Proof. done. Qed.

(** One hash into the tuple. *)
Lemma fill_push fuel s cur k k' ks :
  reads s -> at_offset s -> Forall is_key (k :: k' :: ks) -> (length cur < ts)%nat ->
  fill_tuple (S fuel) (with_tuple cur s) (Some k) (kbuf (k' :: ks)) =
  if (length cur + 1 =? ts)%nat then inl (with_tuple (cur ++ [k]) s, kbuf (k' :: ks))
  else fill_tuple fuel (with_tuple (cur ++ [k]) s) (Some k') (kbuf ks).
Proof.
  intros [Hp Hts] Ho Hks Hc. apply Forall_cons in Hks as [Hk Hks]. cbn [fill_tuple].
  assert (forall l, tuple_fill (with_tuple l s) = length l) as Hfill by done.
  change (ori_tuple_size (rd_ori (with_tuple cur s))) with (ori_tuple_size (rd_ori s)).
  rewrite Hfill, Hts, (proj2 (Nat.ltb_lt _ _) Hc).
  destruct (kbuf_cons k' ks) as (x & c & Hb & Hxc); [by apply Forall_cons in Hks as [? _]|]. rewrite Hb.
  assert ((with_tuple cur s) <| rd_current_tuple :=
    match rd_current_tuple (with_tuple cur s), Some k with
    | Some t, Some k => Some (tuple_push t k) | t, _ => t end |> = with_tuple (cur ++ [k]) s) as ->.
  { simpl. by rewrite tuple_push_of. }
  rewrite Hfill, length_app. cbn [length].
  change (ori_tuple_size (rd_ori (with_tuple (cur ++ [k]) s))) with (ori_tuple_size (rd_ori s)). rewrite Hts.
  destruct (length cur + 1 =? ts)%nat; [done|].
  by rewrite Hxc, (move_normal (with_tuple (cur ++ [k]) s) k' ks).
Qed.

(** The tuple [cur ++ T] is completed, and hashes are left. *)
Lemma fill_complete fuel s cur k ks T rest :
  reads s -> at_offset s -> Forall is_key (k :: ks) -> (length cur < ts)%nat -> (length ks < fuel)%nat ->
  length (cur ++ T) = ts -> k :: ks = T ++ rest -> rest <> [] ->
  fill_tuple fuel (with_tuple cur s) (Some k) (kbuf ks) = inl (with_tuple (cur ++ T) s, kbuf rest).
Proof.
  revert cur k ks T. induction fuel as [|fuel IH]; intros cur k ks T Hr Ho Hks Hc Hf HT Heq Hne; [lia|].
  destruct T as [|k' T]; [rewrite app_nil_r in HT; lia|]. cbn [app] in Heq. injection Heq as <- Hks'.
  rewrite length_app in HT. cbn [length] in HT.
  destruct ks as [|k2 ks]; [destruct T; [by destruct rest|done]|].
  rewrite fill_push by done. destruct (Nat.eqb_spec (length cur + 1) ts) as [E|E].
  - destruct T; [|cbn [length] in HT; lia]. by rewrite Hks'.
  - replace (cur ++ k :: T) with ((cur ++ [k]) ++ T) by (by rewrite <- app_assoc). cbn [length] in Hf.
    apply IH; try done; rewrite ?length_app; cbn [length]; try lia. by apply Forall_cons in Hks as [_ ?].
Qed.

(** The buffer ends first: its last hash is that of the next block. *)
Lemma fill_incomplete fuel s cur ks last :
  reads s -> at_offset s -> Forall is_key (ks ++ [last]) -> (length cur + length ks < ts)%nat -> (length ks < fuel)%nat ->
  fill_tuple fuel (with_tuple cur s) (head (ks ++ [last])) (kbuf (tail (ks ++ [last]))) =
    inr ((with_tuple (cur ++ ks) s) <| rd_next_descriptor_hash := Some last |>, true).
Proof.
  revert cur ks. induction fuel as [|fuel IH]; intros cur ks Hr Ho Hks Hc Hf; [lia|].
  destruct ks as [|k ks]; cbn [app head tail].
  - rewrite app_nil_r. cbn [fill_tuple kbuf]. unfold tuple_fill. simpl rd_current_tuple. simpl rd_ori.
    destruct Hr as [_ ->]. change (tuple_size (tuple_of ts cur)) with (length cur).
    by rewrite (proj2 (Nat.ltb_lt _ _)) by (cbn [length] in Hc; lia).
  - cbn [app length] in *. destruct (ks ++ [last]) as [|k' ks'] eqn:E; [by destruct ks|].
    rewrite fill_push by (done || lia). destruct (Nat.eqb_spec (length cur + 1) ts); [lia|].
    specialize (IH (cur ++ [k]) ks). rewrite E in IH. cbn [head tail] in IH. rewrite IH; try done.
    + by rewrite <- app_assoc.
    + by apply Forall_cons in Hks as [_ ?].
    + rewrite length_app. cbn [length]. lia.
    + lia.
Qed.

(** The tuple the reader is at holds [cur]. *)
Definition holds (s : readable_descriptor_t) (cur : list bytes) : Prop :=
  rd_current_tuple s = Some (tuple_of ts cur) \/ (cur = [] /\ rd_current_tuple s = None).

Lemma holds_start s cur :
  reads s -> holds s cur ->
  s <| rd_current_tuple := match rd_current_tuple s with Some t => Some t
                           | None => Some (tuple_create (ori_tuple_size (rd_ori s))) end |> = with_tuple cur s.
Proof. intros [_ Hts] [-> |[-> ->]]; [done|]. by rewrite Hts, tuple_create_of. Qed.

Lemma process_start fuel s cur k ks :
  reads s -> at_offset s -> rd_is_deactivated s = false -> holds s cur -> Forall is_key (k :: ks) ->
  process_loop (S fuel) (kbuf (k :: ks)) s =
  match fill_tuple (length (concat (k :: ks)) + 1) (with_tuple cur s) (Some k) (kbuf ks) with
  | inr (s, more) => (s, [], more)
  | inl (s, current) =>
      match rd_current_tuple s with
      | Some t =>
          if (tuple_size t =? ori_tuple_size (rd_ori s))%nat then
            let s := s <| rd_current_tuple := None |> <| rd_tuple_counter := u64 (rd_tuple_counter s + 1) |> in
            if rd_tuple_count s <=? rd_tuple_counter s
            then (s <| rd_is_deactivated := true |>, [Tuple_event t; Complete_event; Close_event], false)
            else let '(s, effs, more) := process_loop fuel current s in (s, Tuple_event t :: effs, more)
          else process_loop fuel current s
      | None => process_loop fuel current s
      end
  end.
Proof.
  intros Hr Ho Hd Hh Hks. destruct (kbuf_cons k ks) as (x & c & Hb & Hxc); [by apply Forall_cons in Hks as [? _]|].
  rewrite Hb. cbn [process_loop]. rewrite Hd, (holds_start s cur Hr Hh), Hxc.
  rewrite (move_normal (with_tuple cur s) k ks); done.
Qed.

Definition tuple_done (s : readable_descriptor_t) : readable_descriptor_t :=
  s <| rd_current_tuple := None |> <| rd_tuple_counter := rd_tuple_counter s + 1 |>.

(** One tuple out of the buffer. *)
Lemma process_tuple fuel s cur body last T rest :
  reads s -> at_offset s -> rd_is_deactivated s = false -> holds s cur -> Forall is_key (body ++ [last]) ->
  (length cur < ts)%nat -> length T = ts -> cur ++ body = T ++ rest -> 0 <= rd_tuple_counter s -> rd_tuple_counter s < U64_MAX ->
  process_loop (S fuel) (kbuf (body ++ [last])) s =
  if rd_tuple_count s <=? rd_tuple_counter s + 1
  then ((tuple_done s) <| rd_is_deactivated := true |>, [Tuple_event (tuple_of ts T); Complete_event; Close_event], false)
  else let '(s, effs, more) := process_loop fuel (kbuf (rest ++ [last])) (tuple_done s) in
       (s, Tuple_event (tuple_of ts T) :: effs, more).
Proof.
  intros Hr Ho Hd Hh Hks Hc HT Heq H0 Hmax.
  assert (exists T', T = cur ++ T' /\ body = T' ++ rest) as (T' & -> & ->).
  { apply app_eq_inv in Heq as [(k & Hcur & _)|(k & -> & ->)]; [|by eexists].
    rewrite Hcur, length_app in Hc. lia. }
  rewrite length_app in HT. destruct T' as [|k T']; [cbn [length] in HT; lia|]. cbn [app].
  rewrite (process_start fuel s cur) by done.
  rewrite (fill_complete _ s cur k _ (k :: T') (rest ++ [last])); try done.
  - simpl rd_current_tuple. simpl rd_ori. destruct Hr as [_ Hts]. rewrite Hts.
    change (tuple_size (tuple_of ts (cur ++ k :: T'))) with (length (cur ++ k :: T')).
    rewrite length_app, HT, Nat.eqb_refl. simpl rd_tuple_counter. simpl rd_tuple_count.
    assert (u64 (rd_tuple_counter s + 1) = rd_tuple_counter s + 1) as -> by (apply u64_small; unfold is_u64, U64_MAX in *; lia).
    done.
  - cbn [concat]. rewrite !length_app. pose proof (length_keys _ Hks) as Hl. cbn [app concat] in Hl.
    rewrite length_app in Hl. cbn [length] in Hl. rewrite Hl. rewrite !length_app. cbn [length]. nia.
  - by rewrite length_app.
  - cbn [app]. by rewrite <- app_assoc.
  - by destruct rest.
Qed.

(** The state after a block whose last hash is [last]. *)
Definition advance (n : Z) (left : list bytes) (last : bytes) (s : readable_descriptor_t) : readable_descriptor_t :=
  (with_tuple left s) <| rd_tuple_counter := rd_tuple_counter s + n |> <| rd_next_descriptor_hash := Some last |>.

Definition tuple_events (Ts : list (list bytes)) : list rd_effect := map (fun T => Tuple_event (tuple_of ts T)) Ts.

Lemma process_keys fuel s cur body last Ts left :
  reads s -> at_offset s -> rd_is_deactivated s = false -> holds s cur -> Forall is_key (body ++ [last]) ->
  (length cur < ts)%nat -> (length Ts < fuel)%nat -> Forall (fun T => length T = ts) Ts -> (length left < ts)%nat ->
  cur ++ body = concat Ts ++ left -> 0 <= rd_tuple_counter s -> rd_tuple_counter s + Z.of_nat (length Ts) < rd_tuple_count s ->
  rd_tuple_count s <= U64_MAX ->
  process_loop fuel (kbuf (body ++ [last])) s = (advance (Z.of_nat (length Ts)) left last s, tuple_events Ts, true).
Proof.
  intros Hr Ho Hd Hh Hks Hc Hf HTs Hleft Heq H0 Hcnt Hmax.
  revert fuel s cur body Hr Ho Hd Hh Hks Hc Hf Heq H0 Hcnt Hmax.
  induction HTs as [|T Ts HT HTs IH]; intros fuel s cur body Hr Ho Hd Hh Hks Hc Hf Heq H0 Hcnt Hmax;
    (destruct fuel as [|fuel]; [cbn [length] in Hf; lia|]).
  - cbn [concat app] in Heq. subst left. rewrite length_app in Hleft.
    destruct (body ++ [last]) as [|k ks] eqn:E; [by destruct body|]. rewrite (process_start fuel s cur) by done.
    pose proof (fill_incomplete (length (concat (k :: ks)) + 1) s cur body last Hr Ho) as Hfill. rewrite E in Hfill.
    cbn [head tail] in Hfill. rewrite Hfill; try done.
    + unfold advance. cbn [length tuple_events map]. by rewrite Z.add_0_r.
    + rewrite (length_keys _ Hks), <- E, length_app. cbn [length]. nia.
  - cbn [concat] in Heq. rewrite <- app_assoc in Heq. cbn [length] in *.
    rewrite (process_tuple fuel s cur body last T (concat Ts ++ left)) by (done || lia).
    rewrite (proj2 (Z.leb_gt _ _)) by lia.
    rewrite (IH fuel (tuple_done s) [] (concat Ts ++ left)); try done; try (simpl; lia).
    + cbn [tuple_events map].
      assert (advance (Z.of_nat (length Ts)) left last (tuple_done s) = advance (Z.of_nat (S (length Ts))) left last s) as ->; [|done].
      unfold advance. replace (rd_tuple_counter (tuple_done s) + Z.of_nat (length Ts))
        with (rd_tuple_counter s + Z.of_nat (S (length Ts))) by (simpl; lia). done.
    + destruct Ho as [Ho Hrem]. split; [simpl; lia|done].
    + by right.
    + assert (exists T', body = T' ++ concat Ts ++ left) as [T' ->].
      { apply app_eq_inv in Heq as [(k & Hcur & _)|(k & -> & ->)]; [|by eexists].
        rewrite Hcur, length_app in Hc. lia. }
      rewrite <- app_assoc in Hks. by apply Forall_app in Hks as [_ ?].
Qed.

(** The last tuple of the file. *)
Lemma process_finish fuel s cur body last Ts left :
  reads s -> at_offset s -> rd_is_deactivated s = false -> holds s cur -> Forall is_key (body ++ [last]) ->
  (length cur < ts)%nat -> (length Ts <= fuel)%nat -> Forall (fun T => length T = ts) Ts -> Ts <> [] ->
  cur ++ body = concat Ts ++ left -> 0 <= rd_tuple_counter s ->
  rd_tuple_counter s + Z.of_nat (length Ts) = rd_tuple_count s -> rd_tuple_count s <= U64_MAX ->
  exists s', process_loop fuel (kbuf (body ++ [last])) s = (s', tuple_events Ts ++ [Complete_event; Close_event], false) /\
    rd_is_deactivated s' = true /\ rd_next_descriptor_hash s' = rd_next_descriptor_hash s.
Proof.
  intros Hr Ho Hd Hh Hks Hc Hf HTs Hne Heq H0 Hcnt Hmax.
  revert fuel s cur body Hr Ho Hd Hh Hks Hc Hf Heq H0 Hcnt Hmax.
  induction HTs as [|T Ts HT HTs IH]; intros fuel s cur body Hr Ho Hd Hh Hks Hc Hf Heq H0 Hcnt Hmax; [done|].
  destruct fuel as [|fuel]; [cbn [length] in Hf; lia|]. cbn [concat] in Heq. rewrite <- app_assoc in Heq. cbn [length] in *.
  rewrite (process_tuple fuel s cur body last T (concat Ts ++ left)) by (done || lia).
  destruct Ts as [|T2 Ts].
  - rewrite (proj2 (Z.leb_le _ _)) by (cbn [length] in Hcnt; lia). by eexists.
  - rewrite (proj2 (Z.leb_gt _ _)) by (cbn [length] in Hcnt; lia).
    assert (exists T', body = T' ++ concat (T2 :: Ts) ++ left) as [T' ->].
    { apply app_eq_inv in Heq as [(k & Hcur & _)|(k & -> & ->)]; [|by eexists]. rewrite Hcur, length_app in Hc. lia. }
    destruct (IH ltac:(done) fuel (tuple_done s) [] (concat (T2 :: Ts) ++ left)) as (s' & -> & Hs');
      try done; try (cbn [tuple_done set rd_tuple_counter rd_tuple_count length] in *; lia).
    + destruct Ho as [Ho Hrem]. split; [simpl; lia|done].
    + by right.
    + rewrite <- app_assoc in Hks. by apply Forall_app in Hks as [_ ?].
    + by exists s'.
Qed.

(** ** Skipping to the file offset *)

Lemma fill_fuel f1 f2 s cur k ks :
  reads s -> at_offset s -> Forall is_key (k :: ks) -> (length ks < f1)%nat -> (length ks < f2)%nat ->
  (length cur < ts)%nat ->
  fill_tuple f1 (with_tuple cur s) (Some k) (kbuf ks) = fill_tuple f2 (with_tuple cur s) (Some k) (kbuf ks).
Proof.
  intros Hr Ho. revert f1 f2 cur k. induction ks as [|k' ks IH]; intros f1 f2 cur k Hks H1 H2 Hc;
    (destruct f1 as [|f1]; [lia|]; destruct f2 as [|f2]; [lia|]).
  - cbn [fill_tuple kbuf]. done.
  - rewrite !fill_push by done. destruct (Nat.eqb_spec (length cur + 1) ts); [done|]. cbn [length] in *.
    apply IH; [by apply Forall_cons in Hks as [_ ?]|lia|lia|rewrite length_app; cbn [length]; lia].
Qed.

Definition skipping (s : readable_descriptor_t) (rk : list bytes) : Prop :=
  0 <= rd_tuple_counter s < rd_offset_tuple s /\
  (rd_offset_remainder s = Some (concat rk) \/ (rk = [] /\ rd_offset_remainder s = None)).

(** The buffer the skipping reader looks at. *)
Lemma skip_buffer s rk c :
  skipping s rk ->
  exists r, match rd_offset_remainder s with
    | Some r => if 0 <? size r then (r ++ c, s <| rd_offset_remainder := None |>) else (c, s)
    | None => (c, s)
    end = (concat rk ++ c, s <| rd_offset_remainder := r |>) /\ (r = None \/ r = Some []).
Proof.
  intros [_ [Hr|[-> Hr]]]; rewrite Hr.
  - destruct (concat rk) as [|x r] eqn:E.
    + exists (Some []). cbn [size length Z.ltb]. split; [|by right]. f_equal. rewrite <- Hr. by destruct s.
    + exists None. by split; [|left].
  - exists None. cbn [concat app]. split; [|by left]. f_equal. rewrite <- Hr. by destruct s.
Qed.

Lemma drop_keys L i : Forall is_key L -> drop (P * i) (concat L) = concat (drop i L).
Proof.
  intros HL. revert i. induction HL as [|k L Hk _ IH]; intros i; [cbn [concat]; by rewrite !drop_nil|].
  destruct i as [|i]; [by rewrite Nat.mul_0_r|]. cbn [concat skipn]. rewrite drop_app_ge by (rewrite Hk; lia).
  rewrite Hk. replace (P * S i - P)%nat with (P * i)%nat by lia. apply IH.
Qed.

Lemma take_keys L i : Forall is_key L -> take (P * i) (concat L) = concat (take i L).
Proof.
  intros HL. revert i. induction HL as [|k L Hk _ IH]; intros i; [cbn [concat]; by rewrite !take_nil|].
  destruct i as [|i]; [by rewrite Nat.mul_0_r|]. cbn [concat firstn]. rewrite take_app_ge by (rewrite Hk; lia).
  rewrite Hk. replace (P * S i - P)%nat with (P * i)%nat by lia. f_equal. apply IH.
Qed.

Lemma slice_keys L i j :
  Forall is_key L -> (i <= j <= length L)%nat ->
  slice (concat L) (Z.of_nat (P * i)) (Z.of_nat (P * j)) = Some (concat (take (j - i) (drop i L))).
Proof.
  intros HL Hij. unfold slice. rewrite (length_keys L HL). rewrite !(proj2 (Z.ltb_ge _ _)) by nia.
  replace (Z.to_nat (Z.of_nat (P * j) - Z.of_nat (P * i))) with (P * (j - i))%nat by nia.
  rewrite Nat2Z.id, drop_keys, take_keys by (done || by apply Forall_drop). done.
Qed.

Lemma remaining_keys L i :
  Forall is_key L -> (i <= length L)%nat -> remaining_after (concat L) (Z.of_nat (P * i)) = kbuf (drop i L).
Proof.
  intros HL Hi. unfold remaining_after, size. rewrite (length_keys L HL).
  destruct (Z.ltb_spec (Z.of_nat (P * i)) (Z.of_nat (P * length L))) as [Hlt|Hge].
  - rewrite slice_keys by (done || lia). rewrite take_ge by (rewrite length_drop; lia).
    destruct (drop i L) eqn:E; [|done]. apply (f_equal length) in E. rewrite length_drop in E. cbn [length] in E. nia.
  - rewrite drop_ge by nia. done.
Qed.

(** The sizes of the buffers are far from the 64-bit limit. *)
Definition fits (n : nat) : Prop := Z.of_nat (P * n) < 2 ^ 63 /\ Z.of_nat (P * ts) < 2 ^ 63.

Section Skip.
Variables (s : readable_descriptor_t) (rk body : list bytes) (last : bytes).
Hypothesis Hreads : reads s.
Hypothesis Hskip : skipping s rk.
Hypothesis Hkeys : Forall is_key (rk ++ body ++ [last]).
Hypothesis Hfits : fits (length (rk ++ body) + 1).
Hypothesis Hcount : rd_offset_tuple s < 2 ^ 63.

Let A := rk ++ body.

Lemma skip_numbers :
  u64 (size (concat rk ++ concat (body ++ [last])) - Z.of_nat P) = Z.of_nat (P * length A) /\
  u64 (Z.of_nat P * Z.of_nat ts) = Z.of_nat (P * ts) /\
  Z.of_nat (P * length A) / Z.of_nat (P * ts) = Z.of_nat (length A / ts) /\
  Z.of_nat (P * length A) mod Z.of_nat (P * ts) = Z.of_nat (P * (length A mod ts)).
Proof.
  destruct Hfits as [H1 H2]. fold A in H1. rewrite <- concat_app. unfold size. rewrite (length_keys _ Hkeys).
  rewrite app_assoc, length_app. cbn [length]. fold A. split_and!.
  - rewrite u64_small by (unfold is_u64; lia). nia.
  - rewrite u64_small by (unfold is_u64; lia). lia.
  - rewrite <- Nat2Z.inj_div. f_equal. apply Nat.Div0.div_mul_cancel_l. lia.
  - rewrite <- Nat2Z.inj_mod. f_equal. apply Nat.Div0.mul_mod_distr_l.
Qed.

(** The offset is beyond this block. *)
Lemma move_skip :
  Z.of_nat (length A / ts) + rd_tuple_counter s < rd_offset_tuple s ->
  _move_to_offset s (concat (body ++ [last])) =
  (s <| rd_tuple_counter := rd_tuple_counter s + Z.of_nat (length A / ts) |>
     <| rd_offset_remainder := Some (concat (drop (length A / ts * ts) A)) |>, Some last, None).
Proof.
  intros Hlt. destruct (skip_buffer s rk (concat (body ++ [last])) Hskip) as (r & Hbuf & _).
  destruct skip_numbers as (N1 & N2 & N3 & N4). destruct Hreads as [Hp Hts]. destruct Hskip as [Hc _].
  destruct Hfits as [F1 F2]. fold A in F1. unfold _move_to_offset. rewrite Hbuf. cbv zeta. simpl rd_descriptor_pad. simpl rd_ori.
  simpl rd_offset_tuple. simpl rd_tuple_counter. rewrite Hp, Hts, N1, N2, N3, N4.
  rewrite !(proj2 (Z.ltb_lt _ _)) by lia. cbn [andb].
  rewrite (u64_small (_ + rd_tuple_counter s)), (proj2 (Z.ltb_lt _ _)) by (unfold is_u64; lia).
  pose proof (Nat.Div0.div_mod (length A) ts) as Hdm.
  rewrite (u64_small (Z.of_nat (P * length A) - _)) by (unfold is_u64; nia).
  rewrite (u64_small (rd_tuple_counter s + _)) by (unfold is_u64; lia).
  replace (Z.of_nat (P * length A) - Z.of_nat (P * (length A mod ts))) with (Z.of_nat (P * (length A / ts * ts))) by nia.
  rewrite <- concat_app. unfold size. rewrite (length_keys _ Hkeys).
  replace (rk ++ body ++ [last]) with (A ++ [last]) in * by (unfold A; by rewrite <- app_assoc).
  rewrite !slice_keys by (done || rewrite ?length_app; cbn [length]; nia).
  rewrite drop_app_le by nia. rewrite take_app_le by (rewrite length_drop; lia).
  rewrite take_ge by (rewrite length_drop; lia). rewrite drop_app_length, length_app. cbn [length].
  replace (length A + 1 - length A)%nat with 1%nat by lia. cbn [firstn concat]. by rewrite app_nil_r.
Qed.

(** The offset is in this block. *)
Lemma move_reach m B :
  rd_offset_tuple s = rd_tuple_counter s + Z.of_nat m -> (m <= length A / ts)%nat -> B = drop (m * ts) A ++ [last] ->
  exists r, (r = None \/ r = Some []) /\
  _move_to_offset s (concat (body ++ [last])) =
  (s <| rd_offset_remainder := r |> <| rd_tuple_counter := rd_offset_tuple s |>, head B, kbuf (tail B)).
Proof.
  intros Hm Hle HB. destruct (skip_buffer s rk (concat (body ++ [last])) Hskip) as (r & Hbuf & Hr). exists r. split; [done|].
  destruct skip_numbers as (N1 & N2 & N3 & N4). destruct Hreads as [Hp Hts]. destruct Hskip as [Hc _].
  destruct Hfits as [F1 F2]. fold A in F1. unfold _move_to_offset. rewrite Hbuf. cbv zeta. simpl rd_descriptor_pad. simpl rd_ori.
  simpl rd_offset_tuple. simpl rd_tuple_counter. rewrite Hp, Hts, N1, N2, N3.
  rewrite !(proj2 (Z.ltb_lt _ _)) by lia. cbn [andb].
  pose proof (Nat.Div0.mul_div_le (length A) ts) as Hdm.
  assert (length A / ts <= length A)%nat as Hdiv by nia.
  assert (length A <= P * (length A + 1))%nat as Hfit by nia.
  rewrite (u64_small (_ + rd_tuple_counter s)), (proj2 (Z.ltb_ge _ _)) by (unfold is_u64; lia).
  replace (rd_offset_tuple s - rd_tuple_counter s) with (Z.of_nat m) by lia.
  assert (m * ts <= length A)%nat as Hcut by nia.
  rewrite (u64_small (Z.of_nat m * Z.of_nat ts)) by (unfold is_u64; nia).
  replace (Z.of_nat m * Z.of_nat ts * Z.of_nat P) with (Z.of_nat (P * (m * ts))) by nia.
  rewrite (u64_small (Z.of_nat (P * (m * ts)))) by (unfold is_u64; nia).
  replace (Z.of_nat (P * (m * ts)) / Z.of_nat (P * ts)) with (Z.of_nat m)
    by (rewrite <- Nat2Z.inj_div; f_equal; replace (P * (m * ts))%nat with (m * (P * ts))%nat by lia; symmetry; apply Nat.div_mul; lia).
  rewrite (u64_small (rd_tuple_counter s + _)), <- Hm by (unfold is_u64; lia).
  replace (Z.of_nat (P * (m * ts)) + Z.of_nat P) with (Z.of_nat (P * (m * ts + 1))) by lia.
  rewrite (u64_small (Z.of_nat (P * (m * ts + 1)))) by (unfold is_u64; nia).
  rewrite <- concat_app. replace (rk ++ body ++ [last]) with (A ++ [last]) in * by (unfold A; by rewrite <- app_assoc).
  rewrite slice_keys, remaining_keys by (done || rewrite ?length_app; cbn [length]; nia).
  replace (m * ts + 1 - m * ts)%nat with 1%nat by lia. rewrite <- drop_drop, drop_app_le, <- HB by lia.
  destruct B as [|k B]; [by destruct (drop (m * ts) A)|]. cbn [firstn concat skipn head tail]. by rewrite app_nil_r, drop_0.
Qed.
End Skip.

Lemma process_skip fuel s rk body last :
  reads s -> skipping s rk -> Forall is_key (rk ++ body ++ [last]) -> fits (length (rk ++ body) + 1) ->
  rd_offset_tuple s < 2 ^ 63 -> rd_is_deactivated s = false -> holds s [] ->
  Z.of_nat (length (rk ++ body) / ts) + rd_tuple_counter s < rd_offset_tuple s ->
  process_loop (S fuel) (kbuf (body ++ [last])) s =
  ((with_tuple [] s) <| rd_tuple_counter := rd_tuple_counter s + Z.of_nat (length (rk ++ body) / ts) |>
     <| rd_offset_remainder := Some (concat (drop (length (rk ++ body) / ts * ts) (rk ++ body))) |>
     <| rd_next_descriptor_hash := Some last |>, [], true).
Proof.
  intros Hr Hs Hk Hf Hc Hd Hh Hlt. destruct (body ++ [last]) as [|k ks] eqn:E; [by destruct body|].
  destruct (kbuf_cons k ks) as (x & c & Hb & Hxc).
  { apply Forall_app in Hk as [_ Hk]. by apply Forall_cons in Hk as [? _]. }
  rewrite Hb. cbn [process_loop]. rewrite Hd, (holds_start s [] Hr Hh), Hxc, <- E.
  rewrite (move_skip (with_tuple [] s) rk body last); try done; [|by rewrite E].
  rewrite Nat.add_1_r. cbn [fill_tuple]. unfold tuple_fill. simpl rd_current_tuple. simpl rd_ori. destruct Hr as [_ Hts].
  rewrite Hts. change (tuple_size (tuple_of ts [])) with 0%nat. by rewrite (proj2 (Nat.ltb_lt _ _)) by lia.
Qed.

Lemma process_reach fuel s rk body last m B :
  reads s -> skipping s rk -> Forall is_key (rk ++ body ++ [last]) -> fits (length (rk ++ body) + 1) ->
  rd_offset_tuple s < 2 ^ 63 -> rd_is_deactivated s = false -> holds s [] -> (length rk < ts)%nat ->
  rd_offset_tuple s = rd_tuple_counter s + Z.of_nat m -> (m <= length (rk ++ body) / ts)%nat ->
  B = drop (m * ts) (rk ++ body) ++ [last] ->
  exists r, (r = None \/ r = Some []) /\
  process_loop (S fuel) (kbuf (body ++ [last])) s =
  process_loop (S fuel) (kbuf B) (with_tuple [] (s <| rd_offset_remainder := r |> <| rd_tuple_counter := rd_offset_tuple s |>)).
Proof.
  intros Hr Hs Hk Hf Hc Hd Hh Hrk Hm Hle HB.
  destruct (move_reach (with_tuple [] s) rk body last Hr Hs Hk Hf Hc m B Hm Hle HB) as (r & Hr0 & Hmove).
  exists r. split; [done|]. destruct (body ++ [last]) as [|k ks] eqn:E; [by destruct body|].
  assert (Forall is_key (k :: ks)) as Hks by (by apply Forall_app in Hk as [_ ?]).
  destruct (kbuf_cons k ks) as (x & c & Hb & Hxc); [by apply Forall_cons in Hks as [? _]|].
  assert (Forall is_key B) as HBk.
  { rewrite HB. apply Forall_app. rewrite <- E, app_assoc in Hk. apply Forall_app in Hk as [HA Hl]. split; [by apply Forall_drop|done]. }
  assert (0 < m)%nat as Hm0 by (destruct Hs as [? _]; lia).
  assert (length B <= length (k :: ks))%nat as HBl.
  { rewrite HB, <- E, !length_app, length_drop, length_app. cbn [length]. nia. }
  destruct B as [|kB ksB]; [by destruct (drop (m * ts) (rk ++ body))|]. cbn [head tail] in Hmove.
  set (s1 := s <| rd_offset_remainder := r |> <| rd_tuple_counter := rd_offset_tuple s |>).
  change (_move_to_offset (with_tuple [] s) (concat (k :: ks)) = (with_tuple [] s1, Some kB, kbuf ksB)) in Hmove.
  assert (at_offset s1) as Ho1 by (split; [simpl; lia|simpl; by destruct Hr0 as [-> | ->]]).
  rewrite (process_start fuel (with_tuple [] s1) []); try done; [|by left].
  rewrite Hb. cbn [process_loop]. rewrite Hd, (holds_start s [] Hr Hh), Hxc, Hmove.
  rewrite with_tuple_twice.
  rewrite (fill_fuel (length (concat (k :: ks)) + 1) (length (concat (kB :: ksB)) + 1) s1); try done; try lia.
  - rewrite (length_keys _ Hks). cbn [length] in *. nia.
  - rewrite (length_keys _ HBk). cbn [length] in *. nia.
Qed.

(** ** A chain of blocks *)

Section Chain.
Variables (Ts : list (list bytes)) (off : nat).
Hypothesis tuples_full : Forall (fun T => length T = ts) Ts.
Hypothesis tuples_keys : Forall is_key (concat Ts).
Hypothesis offset_in_file : (off < length Ts)%nat.
Hypothesis tuples_few : Z.of_nat (length Ts) < 2 ^ 63.

Let K := concat Ts.

Lemma concat_full (l : list (list bytes)) : Forall (fun T => length T = ts) l -> length (concat l) = (length l * ts)%nat.
Proof. induction 1 as [|T l HT _ IH]; cbn [concat length]; [lia|]. rewrite length_app, IH, HT. lia. Qed.

Lemma drop_full (l : list (list bytes)) i : Forall (fun T => length T = ts) l -> drop (i * ts) (concat l) = concat (drop i l).
Proof.
  intros Hl. revert i. induction Hl as [|T l HT _ IH]; intros i; [cbn [concat]; by rewrite !drop_nil|].
  destruct i as [|i]; [done|]. cbn [concat skipn]. rewrite drop_app_ge by lia.
  replace (S i * ts - length T)%nat with (i * ts)%nat by lia. apply IH.
Qed.

Lemma take_full (l : list (list bytes)) i : Forall (fun T => length T = ts) l -> take (i * ts) (concat l) = concat (take i l).
Proof.
  intros Hl. revert i. induction Hl as [|T l HT _ IH]; intros i; [cbn [concat]; by rewrite !take_nil|].
  destruct i as [|i]; [done|]. cbn [concat firstn]. rewrite take_app_ge by lia.
  replace (S i * ts - length T)%nat with (i * ts)%nat by lia. f_equal. apply IH.
Qed.

(** The tuples from [i] up to [j]. *)
Definition segment (i j : nat) : list (list bytes) := take (j - i) (drop i Ts).

Lemma segment_full i j : Forall (fun T => length T = ts) (segment i j).
Proof. by apply Forall_take, Forall_drop. Qed.

Lemma length_segment i j : (i <= j <= length Ts)%nat -> length (segment i j) = (j - i)%nat.
Proof. intros H. unfold segment. rewrite length_take, length_drop. lia. Qed.

(** A stretch of hashes that begins with a tuple: whole tuples, and the
    beginning of another one. *)
Lemma split_stretch c l :
  (c * ts + l <= length K)%nat ->
  take l (drop (c * ts) K) = concat (segment c (c + l / ts)) ++ drop (l / ts * ts) (take l (drop (c * ts) K)).
Proof.
  intros Hl. rewrite <- (take_drop (l / ts * ts) (take l (drop (c * ts) K))) at 1. f_equal.
  rewrite take_take. pose proof (Nat.Div0.mul_div_le l ts). rewrite Nat.min_l by lia.
  unfold K. rewrite drop_full, take_full by (done || by apply Forall_drop). unfold segment.
  by replace (c + l / ts - c)%nat with (l / ts)%nat by lia.
Qed.

(** The reader has consumed the first [n] hashes. *)
Record progress (s : readable_descriptor_t) (n c : nat) (part : list bytes) : Prop := {
  pg_reads : reads s;
  pg_params : rd_offset_tuple s = Z.of_nat off /\ rd_tuple_count s = Z.of_nat (length Ts) /\
    rd_is_deactivated s = false /\ ori_descriptor_offset (rd_ori s) = 0;
  pg_counter : rd_tuple_counter s = Z.of_nat c;
  pg_part : n = (c * ts + length part)%nat /\ (length part < ts)%nat /\ part = take (length part) (drop (c * ts) K);
  pg_mode : if (c <? off)%nat then skipping s part /\ holds s [] else at_offset s /\ holds s part
}.

(** [part], continued by the next [len] hashes. *)
Lemma progress_stretch s n c part len :
  progress s n c part -> (n + len <= length K)%nat ->
  part ++ take len (drop n K) = take (length part + len) (drop (c * ts) K).
Proof.
  intros [_ _ _ (Hn & _ & Hp) _] Hlen. rewrite Hp at 1. subst n.
  rewrite <- drop_drop. rewrite <- (take_drop (length part) (take (length part + len) (drop (c * ts) K))).
  rewrite take_take, Nat.min_l, skipn_firstn_comm by lia. by replace (length part + len - length part)%nat with len by lia.
Qed.

Lemma stretch_rest c l :
  (c * ts + l <= length K)%nat ->
  drop (l / ts * ts) (take l (drop (c * ts) K)) =
  take (length (drop (l / ts * ts) (take l (drop (c * ts) K)))) (drop ((c + l / ts) * ts) K) /\
  (length (drop (l / ts * ts) (take l (drop (c * ts) K))) = l mod ts)%nat.
Proof.
  intros Hl. pose proof (Nat.Div0.div_mod l ts) as Hdm. pose proof (Nat.mod_upper_bound l ts ltac:(lia)).
  assert (length (drop (l / ts * ts) (take l (drop (c * ts) K))) = (l mod ts)%nat) as Hlen.
  { rewrite length_drop, length_take, length_drop. nia. }
  split; [|done]. rewrite Hlen, skipn_firstn_comm, drop_drop. f_equal; [nia|]. f_equal. nia.
Qed.

(** The facts about the next [len] hashes, shared by the cases below. *)
Lemma stretch_facts s n c part len :
  progress s n c part -> (n + len <= length K)%nat ->
  let q := ((length part + len) / ts)%nat in
  let L := part ++ take len (drop n K) in
  let left := drop (q * ts) L in
  length L = (length part + len)%nat /\ L = concat (segment c (c + q)) ++ left /\ (length left < ts)%nat /\
  (n + len = (c + q) * ts + length left)%nat /\ left = take (length left) (drop ((c + q) * ts) K) /\
  ((c + q) * ts <= n + len)%nat.
Proof.
  intros Hpg Hlen. cbv zeta. rewrite (progress_stretch s n c part len Hpg Hlen).
  destruct Hpg as [_ _ _ (Hn & Hpl & _) _]. set (l := (length part + len)%nat).
  assert (c * ts + l <= length K)%nat as Hl by lia. destruct (stretch_rest c l Hl) as [Hr Hm].
  pose proof (Nat.Div0.div_mod l ts) as Hdm. pose proof (Nat.mod_upper_bound l ts ltac:(lia)).
  split_and!; [rewrite length_take, length_drop; lia|by apply split_stretch|lia|nia|done|nia].
Qed.

Lemma stretch_keys s n c part len last :
  progress s n c part -> (n + len <= length K)%nat -> is_key last -> Forall is_key (part ++ take len (drop n K) ++ [last]).
Proof.
  intros Hpg Hlen Hlast. rewrite app_assoc, (progress_stretch s n c part len Hpg) by lia.
  apply Forall_app. split; [by apply Forall_take, Forall_drop|by apply Forall_singleton].
Qed.

Lemma few_tuples n len c q : (n + len < length K)%nat -> ((c + q) * ts <= n + len)%nat -> (c + q < length Ts)%nat.
Proof. intros H1 H2. unfold K in H1. rewrite concat_full in H1 by done. nia. Qed.

Lemma step_skip fuel s n c part len last :
  progress s n c part -> (n + len < length K)%nat -> is_key last -> fits (ts + len + 1) ->
  let q := ((length part + len) / ts)%nat in (c + q < off)%nat ->
  exists s', process_loop (S fuel) (kbuf (take len (drop n K) ++ [last])) s = (s', [], true) /\
    progress s' (n + len) (c + q) (drop (q * ts) (part ++ take len (drop n K))) /\ rd_next_descriptor_hash s' = Some last.
Proof.
  cbv zeta. intros Hpg Hlen Hlast Hfits Hq.
  destruct (stretch_facts s n c part len Hpg ltac:(lia)) as (HLl & _ & Hleft & Hn' & Hlt & _).
  pose proof (stretch_keys s n c part len last Hpg ltac:(lia) Hlast) as Hkeys.
  destruct Hpg as [Hr (Ho & Hc & Hd & Hdo) Hcn (Hn & Hpl & Hpart) Hmode]. rewrite (proj2 (Nat.ltb_lt _ _)) in Hmode by lia.
  destruct Hmode as [Hskip Hh]. rewrite (process_skip fuel s part (take len (drop n K)) last); try done; try lia.
  - rewrite HLl. eexists. split; [reflexivity|]. split; [|done]. split; try done.
    + simpl. lia.
    + rewrite (proj2 (Nat.ltb_lt _ _)) by lia. split; [split; [simpl; lia|by left]|by left].
  - destruct Hfits as [? ?]. split; [rewrite HLl; nia|done].
  - rewrite HLl. lia.
Qed.

Lemma step_read fuel s n c part len last :
  progress s n c part -> (n + len < length K)%nat -> is_key last -> (len < fuel)%nat -> (off <= c)%nat ->
  let q := ((length part + len) / ts)%nat in
  exists s', process_loop fuel (kbuf (take len (drop n K) ++ [last])) s = (s', tuple_events (segment c (c + q)), true) /\
    progress s' (n + len) (c + q) (drop (q * ts) (part ++ take len (drop n K))) /\ rd_next_descriptor_hash s' = Some last.
Proof.
  cbv zeta. intros Hpg Hlen Hlast Hfuel Hco.
  destruct (stretch_facts s n c part len Hpg ltac:(lia)) as (HLl & HL & Hleft & Hn' & Hlt & Hq).
  pose proof (stretch_keys s n c part len last Hpg ltac:(lia) Hlast) as Hkeys.
  pose proof (few_tuples _ _ _ _ Hlen Hq) as Hcq. set (q := ((length part + len) / ts)%nat) in *.
  destruct Hpg as [Hr (Ho & Hc & Hd & Hdo) Hcn (Hn & Hpl & Hpart) Hmode].
  assert (q <= len)%nat as Hqlen by (apply Nat.lt_succ_r, Nat.Div0.div_lt_upper_bound; nia). rewrite (proj2 (Nat.ltb_ge _ _)) in Hmode by lia.
  destruct Hmode as [Hat Hh].
  rewrite (process_keys fuel s part (take len (drop n K)) last (segment c (c + q))
    (drop (q * ts) (part ++ take len (drop n K)))); try done; try (rewrite length_segment by lia; lia); try lia.
  - rewrite length_segment by lia. eexists. split; [reflexivity|]. split; [|done]. split; try done.
    + simpl. lia.
    + rewrite (proj2 (Nat.ltb_ge _ _)) by lia. split; [|by left]. destruct Hat as [? ?]. split; [simpl; lia|done].
  - by apply Forall_app in Hkeys as [_ ?].
  - apply segment_full.
  - unfold U64_MAX. lia.
Qed.

(** Skipping ends in this block: the reader is at the tuple of the offset. *)
Lemma step_reach fuel s n c part body last :
  progress s n c part -> Forall is_key (part ++ body ++ [last]) -> fits (length (part ++ body) + 1) -> (c < off)%nat ->
  (off <= c + length (part ++ body) / ts)%nat ->
  exists s1, process_loop (S fuel) (kbuf (body ++ [last])) s =
    process_loop (S fuel) (kbuf (drop ((off - c) * ts) (part ++ body) ++ [last])) s1 /\
    reads s1 /\ at_offset s1 /\ holds s1 [] /\ rd_is_deactivated s1 = false /\ rd_tuple_counter s1 = Z.of_nat off /\
    rd_tuple_count s1 = rd_tuple_count s /\ rd_offset_tuple s1 = Z.of_nat off /\ rd_ori s1 = rd_ori s.
Proof.
  intros [Hr (Ho & Hc & Hd & Hdo) Hcn (Hn & Hpl & Hpart) Hmode] Hkeys Hfits Hco Hoff.
  rewrite (proj2 (Nat.ltb_lt _ _)) in Hmode by lia. destruct Hmode as [Hskip Hh].
  destruct (process_reach fuel s part body last (off - c) (drop ((off - c) * ts) (part ++ body) ++ [last]))
    as (r & Hr0 & Hp); try done; try lia.
  eexists. split; [exact Hp|]. simpl. split_and!; try done; [|by left]. split; [simpl; lia|]. by destruct Hr0 as [-> | ->].
Qed.

Lemma step_enter fuel s n c part len last :
  progress s n c part -> (n + len < length K)%nat -> is_key last -> fits (ts + len + 1) -> (len < fuel)%nat ->
  let q := ((length part + len) / ts)%nat in (c < off <= c + q)%nat ->
  exists s', process_loop fuel (kbuf (take len (drop n K) ++ [last])) s = (s', tuple_events (segment off (c + q)), true) /\
    progress s' (n + len) (c + q) (drop (q * ts) (part ++ take len (drop n K))) /\ rd_next_descriptor_hash s' = Some last.
Proof.
  cbv zeta. intros Hpg Hlen Hlast Hfits Hfuel Hoff.
  destruct (stretch_facts s n c part len Hpg ltac:(lia)) as (HLl & HL & Hleft & Hn' & Hlt & Hq).
  pose proof (stretch_keys s n c part len last Hpg ltac:(lia) Hlast) as Hkeys.
  pose proof (few_tuples _ _ _ _ Hlen Hq) as Hcq. pose proof Hpg as [_ (Ho & Hc & _ & Hdo) _ (Hn & Hpl & _) _].
  destruct fuel as [|fuel]; [lia|].
  destruct (step_reach fuel s n c part (take len (drop n K)) last Hpg Hkeys) as (s1 & -> & Hr1 & Ha1 & Hh1 & Hd1 & Hc1 & Hcnt1 & Ho1 & Hori);
    [destruct Hfits as [? ?]; split; [rewrite HLl; nia|done]|lia|rewrite HLl; lia|].
  set (q := ((length part + len) / ts)%nat) in *. set (L := part ++ take len (drop n K)) in *.
  assert (q <= len)%nat as Hqlen by (apply Nat.lt_succ_r, Nat.Div0.div_lt_upper_bound; nia).
  assert (drop ((off - c) * ts) L = concat (segment off (c + q)) ++ drop (q * ts) L) as Hbody.
  { rewrite HL at 1. rewrite drop_app_le by (rewrite concat_full by apply segment_full; rewrite length_segment by lia; nia).
    rewrite drop_full by apply segment_full. f_equal. f_equal. unfold segment. rewrite skipn_firstn_comm, drop_drop.
    f_equal; [lia|]. f_equal. lia. }
  rewrite (process_keys (S fuel) s1 [] (drop ((off - c) * ts) L) last (segment off (c + q)) (drop (q * ts) L));
    try done; try (rewrite length_segment by lia; lia); try (cbn [length]; lia).
  - rewrite length_segment by lia. eexists. split; [reflexivity|]. split; [|done]. split; try done.
    + simpl. rewrite Hori. by split_and!; [|congruence|..].
    + simpl. lia.
    + rewrite (proj2 (Nat.ltb_ge _ _)) by lia. split; [|by left]. destruct Ha1 as [? ?]. split; [simpl; lia|done].
  - rewrite app_assoc in Hkeys. apply Forall_app in Hkeys as [H1 H2]. apply Forall_app. split; [by apply Forall_drop|done].
  - apply segment_full.
  - rewrite Hcnt1, Hc. unfold U64_MAX. lia.
Qed.

(** A block in the middle of the chain. *)
Lemma block_step fuel s n c part len last :
  progress s n c part -> (n + len < length K)%nat -> is_key last -> fits (ts + len + 1) -> (len < fuel)%nat ->
  exists s' c' part', process_loop fuel (kbuf (take len (drop n K) ++ [last])) s =
      (s', tuple_events (segment (c `max` off) (c' `max` off)), true) /\ (c <= c')%nat /\
    progress s' (n + len) c' part' /\ rd_next_descriptor_hash s' = Some last.
Proof.
  intros Hpg Hlen Hlast Hfits Hfuel. set (q := ((length part + len) / ts)%nat).
  destruct (Nat.lt_ge_cases c off) as [Hco|Hco]; [destruct (Nat.lt_ge_cases (c + q) off) as [Hcq|Hcq]|].
  - destruct fuel as [|fuel]; [lia|].
    destruct (step_skip fuel s n c part len last Hpg Hlen Hlast Hfits Hcq) as (s' & -> & Hpg' & Hnx).
    exists s', (c + q)%nat, (drop (q * ts) (part ++ take len (drop n K))). split_and!; try done; [|lia].
    rewrite !Nat.max_r by lia. unfold segment. by rewrite Nat.sub_diag.
  - destruct (step_enter fuel s n c part len last Hpg Hlen Hlast Hfits Hfuel (conj Hco Hcq)) as (s' & -> & Hpg' & Hnx).
    exists s', (c + q)%nat, (drop (q * ts) (part ++ take len (drop n K))). split_and!; try done; [|lia].
    by rewrite Nat.max_r, Nat.max_l by lia.
  - destruct (step_read fuel s n c part len last Hpg Hlen Hlast Hfuel Hco) as (s' & -> & Hpg' & Hnx).
    exists s', (c + q)%nat, (drop (q * ts) (part ++ take len (drop n K))). split_and!; try done; [|lia].
    by rewrite !Nat.max_l by lia.
Qed.

(** The hashes that are left are those of the tuples that are left. *)
Lemma rest_tuples s n c part :
  progress s n c part -> (n < length K)%nat -> part ++ drop n K = concat (segment c (length Ts)) /\ (c < length Ts)%nat.
Proof.
  intros Hpg Hn. destruct (stretch_facts s n c part (length K - n) Hpg ltac:(lia)) as (_ & HL & Hleft & Hn' & _ & _).
  rewrite (take_ge (drop n K)) in * by (rewrite length_drop; lia). destruct Hpg as [_ _ _ (Hnp & Hpl & _) _].
  set (q := ((length part + (length K - n)) / ts)%nat) in *.
  assert (length K = length Ts * ts)%nat as HK by (unfold K; by apply concat_full).
  assert ((c + q = length Ts)%nat /\ drop (q * ts) (part ++ drop n K) = []) as [Hcq Hnil].
  { set (lf := length (drop (q * ts) (part ++ drop n K))) in *.
    destruct (Nat.lt_trichotomy (c + q) (length Ts)) as [H|[H|H]]; [exfalso; nia| |exfalso; nia].
    split; [done|]. apply nil_length_inv. fold lf. rewrite H in Hn'. lia. }
  rewrite Hnil, app_nil_r, Hcq in HL. split; [done|]. nia.
Qed.

Lemma segment_tail c m : (c + m <= length Ts)%nat -> drop (m * ts) (concat (segment c (length Ts))) = concat (segment (c + m) (length Ts)).
Proof.
  intros Hm. rewrite drop_full by apply segment_full. f_equal. unfold segment. rewrite skipn_firstn_comm, drop_drop. f_equal. lia.
Qed.

(** All tuples of a buffer that ends with padding, from the tuple of the offset. *)
Lemma finish_tuples fuel s cur body c zs z :
  reads s -> at_offset s -> rd_is_deactivated s = false -> holds s cur -> (length cur < ts)%nat ->
  Forall is_key ((body ++ zs) ++ [z]) -> cur ++ body = concat (segment c (length Ts)) -> (c < length Ts)%nat ->
  rd_tuple_counter s = Z.of_nat c -> rd_tuple_count s = Z.of_nat (length Ts) -> (length Ts - c <= fuel)%nat ->
  exists s', process_loop fuel (kbuf ((body ++ zs) ++ [z])) s =
      (s', tuple_events (segment c (length Ts)) ++ [Complete_event; Close_event], false) /\ rd_is_deactivated s' = true.
Proof.
  intros Hr Hat Hd Hh Hcur Hk Heq Hc Hcn Hcnt Hf.
  destruct (process_finish fuel s cur (body ++ zs) z (segment c (length Ts)) zs) as (s' & -> & Hd' & _);
    try done; try (rewrite ?length_segment by lia; lia).
  - apply segment_full.
  - intros E. apply (f_equal length) in E. rewrite length_segment in E by lia. cbn [length] in E. lia.
  - by rewrite app_assoc, Heq.
  - unfold U64_MAX. lia.
  - by exists s'.
Qed.

(** The last block: the rest of the hashes, followed by padding. *)
Lemma last_step fuel s n c part zs z :
  progress s n c part -> (n < length K)%nat -> Forall is_key (zs ++ [z]) ->
  fits (length part + (length K - n) + length zs + 1) -> (length K - n <= fuel)%nat ->
  exists s', process_loop fuel (kbuf ((drop n K ++ zs) ++ [z])) s =
      (s', tuple_events (segment (c `max` off) (length Ts)) ++ [Complete_event; Close_event], false) /\
    rd_is_deactivated s' = true.
Proof.
  intros Hpg Hn Hz Hfits Hfuel. destruct (rest_tuples s n c part Hpg Hn) as [Hrest Hc].
  assert (length Ts - c <= fuel)%nat as Hfew.
  { apply (f_equal length) in Hrest. rewrite length_app, length_drop, concat_full, length_segment in Hrest by (lia || apply segment_full).
    destruct Hpg as [_ _ _ (_ & Hpl & _) _]. nia. }
  assert (Forall is_key ((part ++ drop n K ++ zs) ++ [z])) as Hall.
  { rewrite <- !app_assoc, app_assoc, Hrest. apply Forall_app. split; [|done]. unfold segment.
    rewrite <- take_full, <- drop_full by (done || by apply Forall_drop). by apply Forall_take, Forall_drop. }
  destruct (Nat.lt_ge_cases c off) as [Hco|Hco].
  - destruct fuel as [|fuel]; [lia|]. rewrite Nat.max_r by lia.
    assert (off - c <= length (part ++ drop n K ++ zs) / ts)%nat as Hdiv.
    { apply Nat.div_le_lower_bound; [lia|]. rewrite app_assoc, length_app, Hrest, concat_full by apply segment_full.
      rewrite length_segment by lia. nia. }
    destruct (step_reach fuel s n c part (drop n K ++ zs) z Hpg) as (s1 & -> & Hr1 & Ha1 & Hh1 & Hd1 & Hc1 & Hcnt1 & _);
      [by rewrite app_assoc|rewrite !length_app, length_drop; destruct Hfits as [? ?]; split; [nia|done]|lia|lia|].
    assert (drop ((off - c) * ts) (part ++ drop n K ++ zs) = concat (segment off (length Ts)) ++ zs) as Hbody.
    { rewrite app_assoc, Hrest, drop_app_le, segment_tail by
        (rewrite ?concat_full by apply segment_full; rewrite ?length_segment by lia; nia). do 2 f_equal. f_equal. lia. }
    rewrite Hbody. apply (finish_tuples (S fuel) s1 []); try done; [..|rewrite Hcnt1; apply Hpg|lia].
    rewrite <- Hbody. apply Forall_app in Hall as [H1 H2]. apply Forall_app. split; [by apply Forall_drop|done].
  - destruct Hpg as [Hr (Ho & Hcnt & Hd & _) Hcn (_ & Hpl & _) Hmode]. rewrite (proj2 (Nat.ltb_ge _ _)) in Hmode by lia.
    destruct Hmode as [Hat Hh]. rewrite Nat.max_l by lia. apply (finish_tuples fuel s part); try done.
    rewrite <- app_assoc in Hall. by apply Forall_app in Hall as [_ ?].
Qed.
End Chain.
End Keys.
