(* ===== verification/Descriptor.v ===== *)
(** * Descriptor: what is written is read back

    Composes DescWrite and DescRead.  [chain] says that a block is the head of a
    chain of descriptor blocks that hold the hashes from a given one on; the
    writer builds such a chain, and the reader walks it, starting at the tuple
    of the file offset. *)

From S2P Require Import Prelude Buffer Block Effect Tuple OffWrite DescWrite DescRead.
Local Open Scope Z_scope.
Local Open Scope effect_scope.

(** A node whose cache answers every request at once. *)
Fixpoint rd_drive (fuel : nat) (lookup : bytes -> option block_t) (s : readable_descriptor_t) (msg : rd_message)
  : readable_descriptor_t * list rd_effect :=
  let '(s, effs) := readable_descriptor_dispatch false s msg in
  match fuel, last effs with
  | S fuel, Some (Cache_get h) =>
      let '(s, effs') := rd_drive fuel lookup s (CACHE_GET_RESULT (lookup h) (Some h)) in (s, effs ++ effs')
  | _, _ => (s, effs)
  end.

(** The events a subscriber sees. *)
Definition notifications (effs : list rd_effect) : list rd_effect :=
  List.filter (fun e => match e with Cache_get _ | Network_find _ => false | _ => true end) effs.

Lemma notifications_app e1 e2 : notifications (e1 ++ e2) = notifications e1 ++ notifications e2.
Proof. apply List.filter_app. Qed.

Lemma notifications_tuples ts Ts : notifications (tuple_events ts Ts) = tuple_events ts Ts.
Proof. induction Ts as [|T Ts IH]; [done|]. cbn. by f_equal. Qed.

Section Chain.
Variables (P ts cutk : nat) (Ts : list (list bytes)) (off : nat) (lookup : bytes -> option block_t).
Hypothesis P_pos : (0 < P)%nat.
Hypothesis ts_pos : (0 < ts)%nat.
Hypothesis tuples_full : Forall (fun T => length T = ts) Ts.
Hypothesis tuples_keys : Forall (is_key P) (concat Ts).
Hypothesis offset_in_file : (off < length Ts)%nat.
Hypothesis tuples_few : Z.of_nat (length Ts) < 2 ^ 63.
Hypothesis blocks_small : fits P ts (2 * ts + cutk + 1).

Let K := concat Ts.

(** The block of [h] and those it leads to hold the hashes from [n] on; the
    last one has room for at least one hash more and is padded with zeros. *)
Inductive chain : bytes -> nat -> Prop :=
| chain_last h n b zs z :
    lookup h = Some b -> is_key P h -> (n < length K)%nat -> Forall (is_key P) (zs ++ [z]) ->
    length ((drop n K ++ zs) ++ [z]) = cutk ->
    take (P * cutk) (block_bytes b) = concat ((drop n K ++ zs) ++ [z]) ->
    (exists k, block_bytes b = concat (drop n K) ++ replicate k 0) ->
    chain h n
| chain_next h n len b h' :
    lookup h = Some b -> is_key P h -> (n + len < length K)%nat -> S len = cutk ->
    take (P * cutk) (block_bytes b) = concat (take len (drop n K) ++ [h']) ->
    length (block_bytes b) = (P * cutk)%nat -> chain h' (n + len) -> chain h n.

Lemma chain_key h n : chain h n -> is_key P h.
Proof. by destruct 1. Qed.

(** The reader waits for block [h], having consumed [n] hashes. *)
Definition waits (s : readable_descriptor_t) (h : bytes) (n c : nat) (part : list bytes) : Prop :=
  progress P ts Ts off s n c part /\ rd_expected_hash s = Some h /\ rd_next_descriptor_hash s = None /\
  rd_cut_point s = Z.of_nat (P * cutk).

Lemma slice_block b ks :
  Forall (is_key P) ks -> length ks = cutk -> take (P * cutk) (block_bytes b) = concat ks -> (0 < cutk)%nat ->
  slice (block_bytes b) 0 (Z.of_nat (P * cutk)) = kbuf ks /\ (cutk <= length (block_bytes b))%nat.
Proof.
  intros Hk Hl Ht Hc. pose proof (f_equal length Ht) as Hlen. rewrite length_take, (length_keys P _ Hk), Hl in Hlen.
  assert (P * cutk <= length (block_bytes b))%nat as Hle by nia.
  rewrite slice_take by (unfold size; lia). rewrite Nat2Z.id, Ht. split; [|nia]. destruct ks; [simpl in Hl; lia|done].
Qed.

(** The block that was asked for has arrived. *)
Lemma receive_block s h n c part b :
  waits s h n c part -> lookup h = Some b ->
  readable_descriptor_dispatch false s (CACHE_GET_RESULT (lookup h) (Some h)) =
  process_block b (s <| rd_expected_hash := None |>).
Proof.
  intros ([_ (_ & _ & Hd & _) _ _ _] & He & _) Hb. cbn [readable_descriptor_dispatch]. unfold on_cache_result.
  rewrite Hd, He, Hb. by rewrite (proj2 (compare_bytes_eq h h) eq_refl).
Qed.

Lemma progress_expected s n c part e :
  progress P ts Ts off s n c part -> progress P ts Ts off (s <| rd_expected_hash := e |>) n c part.
Proof. intros [? ? ? ? ?]. by split. Qed.

Lemma progress_next s n c part e :
  progress P ts Ts off s n c part -> progress P ts Ts off (s <| rd_next_descriptor_hash := e |>) n c part.
Proof. intros [? ? ? ? ?]. by split. Qed.

Lemma process_keys_block s n c part b ks :
  progress P ts Ts off s n c part -> rd_cut_point s = Z.of_nat (P * cutk) ->
  slice (block_bytes b) 0 (Z.of_nat (P * cutk)) = kbuf ks ->
  _process_descriptor (block_bytes b) s = process_loop (length (block_bytes b) + 1) (kbuf ks) s.
Proof. intros [_ (_ & _ & _ & Ho) _ _ _] Hc Hs. unfold _process_descriptor. by rewrite Ho, Hc, Hs. Qed.

Lemma read_last s h n c part b zs z fuel :
  waits s h n c part -> lookup h = Some b -> (n < length K)%nat -> Forall (is_key P) (zs ++ [z]) ->
  length ((drop n K ++ zs) ++ [z]) = cutk -> take (P * cutk) (block_bytes b) = concat ((drop n K ++ zs) ++ [z]) ->
  let r := rd_drive fuel lookup s (CACHE_GET_RESULT (lookup h) (Some h)) in
  notifications r.2 = tuple_events ts (segment Ts (c `max` off) (length Ts)) ++ [Complete_event; Close_event] /\
  rd_is_deactivated r.1 = true.
Proof.
  cbv zeta. intros Hw Hb Hn Hz Hl Ht. pose proof (receive_block s h n c part b Hw Hb) as Hrb.
  destruct Hw as (Hpg & _ & _ & Hcut). apply (progress_expected s n c part None) in Hpg.
  destruct (slice_block b ((drop n K ++ zs) ++ [z])) as [Hs Hlb]; [|done|done|rewrite !length_app in Hl; cbn [length] in Hl; lia|].
  { rewrite <- app_assoc. apply Forall_app. split; [by apply Forall_drop|done]. }
  pose proof (process_keys_block _ n c part b _ Hpg Hcut Hs) as Hpd.
  rewrite !length_app, length_drop in Hl. cbn [length] in Hl.
  assert (length part < ts)%nat as Hpl by apply Hpg.
  destruct (last_step P ts P_pos ts_pos Ts off tuples_full tuples_keys offset_in_file tuples_few
    (length (block_bytes b) + 1) _ n c part zs z Hpg Hn Hz) as (s' & Hp & Hd').
  { destruct blocks_small as [H1 H2]. split; [|done]. fold K. nia. } { fold K. lia. }
  fold K in Hp. rewrite Hp in Hpd.
  destruct fuel as [|fuel]; cbn [rd_drive]; rewrite Hrb; unfold process_block; rewrite Hpd, andthen_eq; cbn [fst snd];
    (destruct (rd_next_descriptor_hash s'); cbn [andb done fst snd]; rewrite app_nil_r).
  all: try (rewrite last_app; cbn [last]; fold K).
  all: rewrite ?last_app; cbn; rewrite notifications_app, notifications_tuples; by split.
Qed.

(** A block in the middle: its tuples are passed on and the next block is
    asked for. *)
Lemma read_next s h n c part b len h' :
  waits s h n c part -> lookup h = Some b -> (n + len < length K)%nat -> S len = cutk -> is_key P h' ->
  take (P * cutk) (block_bytes b) = concat (take len (drop n K) ++ [h']) ->
  exists s' c' part' effs, readable_descriptor_dispatch false s (CACHE_GET_RESULT (lookup h) (Some h)) =
      (s', effs ++ [Cache_get h']) /\ notifications effs = tuple_events ts (segment Ts (c `max` off) (c' `max` off)) /\
    (c <= c')%nat /\ (c' < length Ts)%nat /\ waits s' h' (n + len) c' part'.
Proof.
  intros Hw Hb Hn Hlen Hh' Ht. pose proof (receive_block s h n c part b Hw Hb) as Hrb.
  destruct Hw as (Hpg & _ & Hnx & Hcut). apply (progress_expected s n c part None) in Hpg.
  assert (length (take len (drop n K)) = len) as Hl by (rewrite length_take, length_drop; lia).
  destruct (slice_block b (take len (drop n K) ++ [h'])) as [Hs Hlb]; [|rewrite length_app, Hl; cbn [length]; lia|done|lia|].
  { apply Forall_app. split; [by apply Forall_take, Forall_drop|by apply Forall_singleton]. }
  pose proof (process_keys_block _ n c part b _ Hpg Hcut Hs) as Hpd.
  destruct (block_step P ts P_pos ts_pos Ts off tuples_full tuples_keys offset_in_file tuples_few
    (length (block_bytes b) + 1) _ n c part len h' Hpg Hn Hh') as (s' & c' & part' & Hp & Hcc & Hpg' & Hnx').
  { destruct blocks_small as [H1 H2]. split; [nia|done]. } { lia. }
  fold K in Hp. rewrite Hp in Hpd. rewrite Hrb. unfold process_block. rewrite Hpd, andthen_eq. cbn [fst snd]. rewrite Hnx'.
  pose proof Hpg' as [_ (_ & _ & Hd' & _) _ (Hn' & _) _]. rewrite Hd'. cbn [negb andb _fetch_descriptor_block fst snd].
  eexists _, c', part', _. split; [reflexivity|]. split; [apply notifications_tuples|]. split; [done|]. split.
  { unfold K in Hn. erewrite concat_full in Hn by done. nia. }
  split_and!; [by apply progress_expected, progress_next|done|done|].
  match type of Hp with process_loop ?f ?c ?s0 = _ => pose proof (process_cut f c s0) as Hcp end.
  rewrite Hp in Hcp. simpl in Hcp |- *. by rewrite Hcp.
Qed.

(** The whole chain. *)
Lemma read_chain h n :
  chain h n -> forall s c part, waits s h n c part ->
  exists m, forall fuel, (m <= fuel)%nat ->
    let r := rd_drive fuel lookup s (CACHE_GET_RESULT (lookup h) (Some h)) in
    notifications r.2 = tuple_events ts (segment Ts (c `max` off) (length Ts)) ++ [Complete_event; Close_event] /\
    rd_is_deactivated r.1 = true.
Proof.
  induction 1 as [h n b zs z Hb Hk Hn Hz Hl Ht _|h n len b h' Hb Hk Hn Hlen Ht _ Hch IH]; intros s c part Hw.
  { exists 0%nat. intros fuel _. by apply (read_last s h n c part b zs z). }
  destruct (read_next s h n c part b len h') as (s' & c' & part' & effs & Hd & He & Hcc & Hcl & Hw'); try done.
  { by eapply chain_key. }
  destruct (IH s' c' part' Hw') as [m Hm]. exists (S m). intros [|fuel] Hf; [lia|]. cbn [rd_drive]. rewrite Hd.
  rewrite last_snoc. destruct (Hm fuel ltac:(lia)) as [Hn' Hd'].
  destruct (rd_drive fuel lookup s' _) as [s2 effs2]. cbn [fst snd] in *. split; [|done].
  rewrite notifications_app, notifications_app, He, Hn'. cbn [notifications List.filter app]. rewrite app_nil_r, app_assoc.
  f_equal. unfold tuple_events. rewrite <- map_app. f_equal. unfold segment.
  rewrite <- (take_drop (c' `max` off - c `max` off) (take (length Ts - c `max` off) (drop (c `max` off) Ts))).
  rewrite take_take, Nat.min_l, skipn_firstn_comm, drop_drop by lia. f_equal. f_equal; [lia|]. f_equal. lia.
Qed.
End Chain.

(** ** The writer builds a chain *)

(** A cache that returns what was put. *)
Definition agrees `{Blake3} (lookup : bytes -> option block_t) (puts : list block_t) : Prop :=
  Forall (fun b => exists b', lookup (block_hash b) = Some b' /\ block_bytes b' = block_bytes b) puts.

(** A cache that holds these blocks. *)
Definition block_lookup (puts : list block_t) (h : bytes) : option block_t :=
  find (fun b => bool_decide (block_hash b = h)) puts.

Definition agrees_check (lookup : bytes -> option block_t) (puts : list block_t) : bool :=
  forallb (fun b => if lookup (block_hash b) is Some b' then bool_decide (block_bytes b' = block_bytes b) else false) puts.

Lemma agrees_check_sound `{Blake3} lookup puts : agrees_check lookup puts = true -> agrees lookup puts.
Proof.
  intros Hc. apply List.Forall_forall. intros b Hb. apply (proj1 (forallb_forall _ _) Hc) in Hb.
  destruct (lookup (block_hash b)) as [b'|]; [|done]. apply bool_decide_eq_true in Hb. eauto.
Qed.

Section Build.
Context {BL : Blake3}.
Variables (bs cutk : nat) (Ts : list (list bytes)).
Abbreviation P := BLAKE3_OUT_LEN.
Hypothesis cut_two : (2 <= cutk)%nat.
Hypothesis cut_fits : (P * cutk <= bs)%nat.
Hypothesis bs_legal : legal_size (Z.of_nat bs) = true.
Hypothesis keys : Forall (is_key P) (concat Ts).

Let K := concat Ts.

(** The last block keeps room for a hash. *)
Definition room (n : nat) : Prop := (cutk <= n)%nat -> (n mod (cutk - 1) <> 1 mod (cutk - 1))%nat.

(** More than one block only if hashes fill a block exactly. *)
Definition fills (n : nat) : Prop := (cutk < n)%nat -> (P * cutk)%nat = bs.

Lemma room_last n : room n -> (n <= cutk)%nat -> (n < cutk)%nat.
Proof.
  clear -cut_two. intros Hr Hn. destruct (decide (n = cutk)) as [->|]; [|lia]. destruct (Hr ltac:(lia)).
  replace cutk with (1 + 1 * (cutk - 1))%nat at 1 by lia. apply Nat.Div0.mod_add.
Qed.

Lemma room_next n : room n -> (cutk < n)%nat -> room (n - (cutk - 1)).
Proof.
  clear -cut_two. intros Hr Hn Hc. rewrite <- (Nat.Div0.mod_add (n - (cutk - 1)) 1).
  replace (n - (cutk - 1) + 1 * (cutk - 1))%nat with n by lia. apply Hr. lia.
Qed.

(** Chunks of hashes. *)
Abbreviation chunks fuel ks := (descriptor_chunks fuel (P * cutk) (P * cutk - P) bs (concat ks)).

Lemma chunks_next fuel ks :
  Forall (is_key P) ks -> (cutk < length ks)%nat ->
  chunks (S fuel) ks = concat (take (cutk - 1) ks) :: chunks fuel (drop (cutk - 1) ks).
Proof.
  clear -cut_two. intros Hk Hl. cbn [descriptor_chunks]. rewrite (length_keys P ks) by done.
  rewrite (proj2 (Nat.ltb_lt _ _)) by (unfold BLAKE3_OUT_LEN; lia).
  assert (length (concat (take (cutk - 1) ks)) = P * cutk - P)%nat as Hc.
  { rewrite (length_keys P) by by apply Forall_take. rewrite length_take. unfold BLAKE3_OUT_LEN. lia. }
  rewrite <- (take_drop (cutk - 1) ks) at 1 2. rewrite concat_app, <- Hc. by rewrite take_app_length, drop_app_length.
Qed.

Lemma chunks_last fuel ks :
  Forall (is_key P) ks -> (0 < length ks <= cutk)%nat -> chunks (S fuel) ks = [pad_chunk bs (concat ks)].
Proof.
  clear -cut_two. intros Hk Hl. cbn [descriptor_chunks]. rewrite (length_keys P ks) by done.
  rewrite (proj2 (Nat.ltb_ge _ _)) by (unfold BLAKE3_OUT_LEN; lia).
  by rewrite (proj2 (Nat.ltb_lt _ _)) by (unfold BLAKE3_OUT_LEN; lia).
Qed.

Lemma store_chunks_app s c1 c2 prior :
  store_chunks s (c1 ++ c2) prior =
  let '(e1, r1) := store_chunks s c1 prior in
  match r1 with
  | None => (e1, None)
  | Some prior' => let '(e2, r2) := store_chunks s c2 prior' in (e1 ++ e2, r2)
  end.
Proof.
  clear. revert prior. induction c1 as [|c c1 IH]; intros prior; cbn [store_chunks app].
  - by destruct (store_chunks s c2 prior).
  - destruct (block_create_existing_data_by_type _) as [b|]; [|done]. rewrite IH.
    destruct (store_chunks s c1 _) as [e1 [r1|]]; [|done]. by destruct (store_chunks s c2 r1).
Qed.

(** A chunk of the size of a block is stored. *)
Lemma store_chunk s chunk prior :
  length (chunk ++ default [] prior) = bs ->
  exists b eff, store_chunks s [chunk] prior = ([eff], Some (Some (block_hash b))) /\ stored [eff] = [b] /\
    block_bytes b = chunk ++ default [] prior /\ is_key P (block_hash b).
Proof.
  clear -bs_legal. intros Hl. cbn [store_chunks].
  replace (match prior with Some h => chunk ++ h | None => chunk end) with (chunk ++ default [] prior)
    by (destruct prior; [done|apply app_nil_r]).
  unfold block_create_existing_data_by_type, buf_size. simpl buf_data. rewrite Hl, bs_legal.
  eexists _, _. split; [reflexivity|]. split; [by destruct (wd_is_ephemeral s)|]. split; [done|]. apply blake3_length.
Qed.

Lemma agrees_cons lookup b puts : agrees lookup (b :: puts) ->
  exists b', lookup (block_hash b) = Some b' /\ block_bytes b' = block_bytes b.
Proof. clear. unfold agrees. by rewrite Forall_cons; intros [? _]. Qed.

Lemma agrees_app lookup p1 p2 : agrees lookup (p1 ++ p2) <-> agrees lookup p1 /\ agrees lookup p2.
Proof. clear. apply Forall_app. Qed.

(** The last block: its hashes, then zeros. *)
Lemma pad_keys n ks :
  Forall (is_key P) ks -> length ks = n -> (n < cutk)%nat ->
  length (pad_chunk bs (concat ks)) = bs /\
  exists zs z, Forall (is_key P) (zs ++ [z]) /\ length ((ks ++ zs) ++ [z]) = cutk /\
    take (P * cutk) (pad_chunk bs (concat ks)) = concat ((ks ++ zs) ++ [z]).
Proof.
  clear -cut_fits cut_two. intros Hk Hl Hn. unfold pad_chunk.
  pose proof (length_keys P ks Hk) as Hlk. assert (length (concat ks) < bs)%nat as Hlt by (unfold BLAKE3_OUT_LEN in *; lia).
  rewrite (proj2 (Nat.ltb_lt _ _) Hlt). split; [rewrite length_app, length_replicate; lia|].
  set (z := replicate P 0). assert (is_key P z) as Hz by apply length_replicate.
  exists (replicate (cutk - n - 1) z), z.
  assert (Forall (is_key P) (replicate (cutk - n - 1) z ++ [z])) as Hzs.
  { apply Forall_app. split; [by apply Forall_replicate|by apply Forall_singleton]. }
  split; [done|]. split; [rewrite !length_app, length_replicate; cbn [length]; lia|].
  rewrite <- app_assoc, concat_app, take_app, take_ge by (rewrite Hlk; unfold BLAKE3_OUT_LEN; lia). f_equal.
  rewrite take_replicate. pose proof (length_keys P _ Hzs) as Hlz.
  rewrite length_app, length_replicate in Hlz. cbn [length] in Hlz.
  apply list_eq_same_length with (length (concat (replicate (cutk - n - 1) z ++ [z]))); [done| |].
  { rewrite length_replicate, Hlz, Hlk. unfold BLAKE3_OUT_LEN in *. lia. }
  intros i x y _ Hx Hy. apply lookup_replicate in Hx as [-> _].
  assert (Forall (eq 0) (concat (replicate (cutk - n - 1) z ++ [z]))) as Hall.
  { apply Forall_concat, Forall_app. assert (Forall (eq 0) z) by by apply Forall_replicate.
    split; [by apply Forall_replicate|by apply Forall_singleton]. }
  by eapply Forall_lookup_1 in Hall.
Qed.

Lemma build_chain s fuel n :
  (n < length K)%nat -> (length K - n < fuel)%nat -> room (length K - n) -> fills (length K - n) ->
  exists effs h, store_chunks s (reverse (chunks fuel (drop n K))) None = (effs, Some (Some h)) /\ is_key P h /\
    (forall lookup, agrees lookup (stored effs) -> chain P cutk Ts lookup h n).
Proof.
  revert n. induction fuel as [|fuel IH]; intros n Hn Hf Hr Hfl; [lia|].
  assert (Forall (is_key P) (drop n K)) as Hd by by apply Forall_drop.
  destruct (decide (cutk < length K - n)%nat) as [Hc|Hc].
  - rewrite chunks_next, drop_drop, reverse_cons, store_chunks_app by (rewrite ?length_drop; done).
    destruct (IH (n + (cutk - 1))%nat) as (effs & h' & -> & Hh' & Hch); [lia|lia| | |].
    { replace (length K - (n + (cutk - 1)))%nat with (length K - n - (cutk - 1))%nat by lia. by apply room_next. }
    { intros ?. apply Hfl. lia. }
    assert (Forall (is_key P) (take (cutk - 1) (drop n K) ++ [h'])) as Hk'.
    { apply Forall_app. split; [by apply Forall_take|by apply Forall_singleton]. }
    assert (length (take (cutk - 1) (drop n K)) = cutk - 1)%nat as Hlt by (rewrite length_take, length_drop; lia).
    pose proof (length_keys P _ Hk') as Hlk. rewrite length_app, Hlt, concat_app in Hlk. cbn [concat length] in Hlk.
    rewrite app_nil_r in Hlk. replace (cutk - 1 + 1)%nat with cutk in Hlk by lia. rewrite (Hfl Hc) in Hlk.
    destruct (store_chunk s (concat (take (cutk - 1) (drop n K))) (Some h')) as (b & eff & -> & Hp & Hb & Hbk); [done|].
    exists (effs ++ [eff]), (block_hash b). split; [done|]. split; [done|].
    rewrite stored_app, Hp. intros lookup. rewrite agrees_app. intros [Ha1 (b' & Hb' & Hbb)%agrees_cons].
    apply (chain_next _ _ _ _ _ _ (cutk - 1) b' h'); try done; [fold K; lia|lia| | |by apply Hch];
      [|rewrite Hbb, Hb, (Hfl Hc); exact Hlk].
    rewrite Hbb, Hb, (Hfl Hc), concat_app. cbn [default concat]. rewrite app_nil_r, take_ge by (simpl in *; lia). done.
  - rewrite chunks_last, reverse_singleton by (rewrite ?length_drop; try done; lia).
    destruct (pad_keys (length K - n) (drop n K)) as [Hl (zs & z & Hz & Hlz & Ht)]; [done|by rewrite length_drop| |].
    { apply room_last; [done|lia]. }
    destruct (store_chunk s (pad_chunk bs (concat (drop n K))) None) as (b & eff & -> & Hp & Hb & Hbk).
    { cbn [default]. by rewrite app_nil_r. }
    exists [eff], (block_hash b). split; [done|]. split; [done|]. rewrite Hp. intros lookup (b' & Hb' & Hbb)%agrees_cons.
    apply (chain_last _ _ _ _ _ _ b' zs z); try done; rewrite Hbb, Hb; cbn [default]; rewrite app_nil_r; [done|].
    unfold pad_chunk. destruct (_ <? bs)%nat; [by eexists|]. exists 0%nat. by rewrite app_nil_r.
Qed.
End Build.

(** ** Writing a descriptor *)

Definition write_messages (ts : nat) (Ts : list (list bytes)) : list wd_message :=
  map (fun T => WRITEABLE_DESCRIPTOR_WRITE (tuple_of ts T)) Ts.

Lemma tuple_elements ts T : omap (tuple_get (tuple_of ts T)) (seq 0 (length T)) = T.
Proof.
  assert (forall k, omap (fun i => (T !! i)) (seq k (length T - k)) = drop k T) as H.
  { intros k. remember (length T - k)%nat as d eqn:Ed. revert k Ed. induction d as [|d IH]; intros k Ed; cbn [seq omap list_omap].
    - by rewrite drop_ge by lia.
    - destruct (lookup_lt_is_Some_2 T k ltac:(lia)) as [x Hx]. rewrite Hx, (IH (S k)) by lia.
      by rewrite (drop_S T x k Hx). }
  specialize (H 0%nat). rewrite Nat.sub_0_r in H. transitivity (omap (fun i => T !! i) (seq 0 (length T))); [|done].
  apply list_omap_ext, Forall2_same_length_lookup. split; [done|]. intros i x y Hx Hy. simplify_eq. apply tuple_get_of.
Qed.

Lemma tuple_of_valid s T :
  length T = wd_tuple_size s -> Forall (is_key (wd_descriptor_pad s)) T -> tuple_valid s (tuple_of (wd_tuple_size s) T) = true.
Proof.
  intros Hl Hk. unfold tuple_valid. rewrite andb_true_iff. split; [cbn; by rewrite Hl, Nat.eqb_refl|].
  apply forallb_forall. intros i Hi%in_seq. rewrite tuple_get_of. cbn in Hi.
  destruct (lookup_lt_is_Some_2 T i ltac:(lia)) as [x Hx]. rewrite Hx.
  apply Nat.eqb_eq. by eapply Forall_lookup_1 in Hk.
Qed.

Lemma write_tuples `{Blake3} network s Ts :
  wd_is_deactivated s = false ->
  Forall (fun T => length T = wd_tuple_size s /\ Forall (is_key (wd_descriptor_pad s)) T) Ts ->
  dispatch_all (writeable_descriptor_dispatch network) s (write_messages (wd_tuple_size s) Ts) =
  (s <| wd_descriptor := wd_descriptor s ++ concat (concat Ts) |>, []).
Proof.
  intros Hd HT. revert s Hd HT. induction Ts as [|T Ts IH]; intros s Hd HT.
  - cbn. rewrite app_nil_r. by destruct s.
  - apply Forall_cons in HT as [[HT Hk] HTs]. cbn [write_messages map dispatch_all writeable_descriptor_dispatch].
    unfold wd_write. rewrite Hd, tuple_of_valid by done. cbn [negb tuple_size tuple_of count]. unfold done.
    rewrite andthen_eq. cbn [fst snd app]. rewrite tuple_elements.
    specialize (IH (s <| wd_descriptor := wd_descriptor s ++ concat T |>)). specialize (IH Hd HTs).
    change (wd_tuple_size (s <| wd_descriptor := wd_descriptor s ++ concat T |>)) with (wd_tuple_size s) in IH.
    rewrite <- surjective_pairing. etransitivity; [exact IH|]. destruct s. cbn. by rewrite concat_app, app_assoc.
Qed.

(** The descriptor stream of a put, closed after the last tuple. *)
Definition write_descriptor `{Blake3} (network : bool) (type : block_size_e) (ts data_length : nat) (put_group : Z)
    (Ts : list (list bytes)) : writeable_descriptor_t * list put_effect :=
  dispatch_all (writeable_descriptor_dispatch network)
    (writeable_descriptor_create type BLAKE3_OUT_LEN ts data_length put_group) (write_messages ts Ts ++ [WD_CLOSE_STREAM]).

Lemma cut_bounds type :
  let bs := Z.to_nat (block_size type) in
  let cutk := (bs / BLAKE3_OUT_LEN)%nat in
  (2 <= cutk)%nat /\ Z.of_nat cutk <= 31250 /\ (BLAKE3_OUT_LEN * cutk <= bs)%nat /\ legal_size (Z.of_nat bs) = true /\
  block_size type / Z.of_nat BLAKE3_OUT_LEN * Z.of_nat BLAKE3_OUT_LEN = Z.of_nat (BLAKE3_OUT_LEN * cutk).
Proof.
  cbv zeta. set (bs := Z.to_nat (block_size type)). assert (Z.of_nat bs = block_size type) as Hbs by (apply Z2Nat.id; by destruct type).
  assert (Z.of_nat (bs / BLAKE3_OUT_LEN) = block_size type / 32) as Hc by (rewrite Nat2Z.inj_div, Hbs; done).
  assert (136 <= block_size type <= 1000000) as Hr by (destruct type; simpl; lia).
  rewrite Nat2Z.inj_mul, Hc, Hbs. change (Z.of_nat BLAKE3_OUT_LEN) with 32.
  pose proof (Z.div_mod (block_size type) 32) as Hd. pose proof (Z.mod_pos_bound (block_size type) 32).
  split_and!; [lia|lia|apply Nat.Div0.mul_div_le|apply legal_block_size|lia].
Qed.

(** A chunk of [cutk] hashes, padded. *)
Lemma pad_full bs cutk ks :
  Forall (is_key BLAKE3_OUT_LEN) ks -> length ks = cutk -> (BLAKE3_OUT_LEN * cutk <= bs)%nat ->
  length (pad_chunk bs (concat ks)) = bs /\ take (BLAKE3_OUT_LEN * cutk) (pad_chunk bs (concat ks)) = concat ks.
Proof.
  intros Hk Hl Hle. pose proof (length_keys _ _ Hk) as Hlk. rewrite Hl in Hlk. unfold pad_chunk.
  destruct (Nat.ltb_spec (length (concat ks)) bs).
  - rewrite length_app, length_replicate. split; [lia|]. rewrite <- Hlk. apply take_app_length.
  - split; [lia|]. apply take_ge. lia.
Qed.

Lemma write_descriptor_effects `{Blake3} network type ts data_length put_group Ts effs h :
  let bs := Z.to_nat (block_size type) in
  let cut := (BLAKE3_OUT_LEN * (bs / BLAKE3_OUT_LEN))%nat in
  Forall (fun T => length T = ts /\ Forall (is_key BLAKE3_OUT_LEN) T) Ts ->
  (forall s, wd_is_ephemeral s = false -> wd_put_group s = put_group ->
    store_chunks s (reverse (descriptor_chunks (length (concat (concat Ts)) + 1) cut (cut - BLAKE3_OUT_LEN) bs
      (concat (concat Ts)))) None = (effs, Some (Some h))) ->
  (write_descriptor network type ts data_length put_group Ts).2 =
    effs ++ [Notify_hash h; Notify_finished; Notify_complete; Notify_close].
Proof.
  cbv zeta. intros HT Hst. set (bs := Z.to_nat (block_size type)) in *.
  set (s0 := writeable_descriptor_create type BLAKE3_OUT_LEN ts data_length put_group).
  set (s1 := s0 <| wd_descriptor := wd_descriptor s0 ++ concat (concat Ts) |>).
  unfold write_descriptor. rewrite dispatch_all_app. fold s0.
  change (write_messages ts Ts) with (write_messages (wd_tuple_size s0) Ts). rewrite write_tuples by done. fold s1.
  rewrite andthen_eq. cbn [fst snd app dispatch_all writeable_descriptor_dispatch]. rewrite andthen_done. unfold wd_close.
  change (wd_is_deactivated s1) with false. change (wd_sent_descriptor s1) with false. cbn iota.
  unfold _build_descriptor_blocks.
  change (wd_descriptor s1) with (concat (concat Ts)).
  change (wd_cut_point s1) with (bs / BLAKE3_OUT_LEN * BLAKE3_OUT_LEN)%nat.
  rewrite (Nat.mul_comm (bs / _)). change (wd_descriptor_pad s1) with BLAKE3_OUT_LEN. change (wd_block_size s1) with bs.
  rewrite (Hst s1 eq_refl eq_refl), !andthen_eq. cbn [fst snd]. by rewrite <- app_assoc.
Qed.

(** What is stored depends on the stream's mode only. *)
Lemma store_chunks_mode `{Blake3} s s' chunks prior :
  wd_is_ephemeral s = wd_is_ephemeral s' -> wd_put_group s = wd_put_group s' ->
  store_chunks s chunks prior = store_chunks s' chunks prior.
Proof.
  intros He Hg. revert prior. induction chunks as [|c chunks IH]; intros prior; [done|]. cbn [store_chunks].
  destruct (block_create_existing_data_by_type _); [|done]. by rewrite He, Hg, IH.
Qed.

Definition is_cache_put (e : put_effect) : Prop :=
  match e with Cache_put _ _ | Cache_put_ephemeral _ => True | _ => False end.

Lemma store_chunks_puts `{Blake3} s chunks prior : Forall is_cache_put (store_chunks s chunks prior).1.
Proof.
  revert prior. induction chunks as [|c chunks IH]; intros prior; [done|]. cbn [store_chunks].
  destruct (block_create_existing_data_by_type _) as [b|]; [|done]. specialize (IH (Some (block_hash b))).
  destruct (store_chunks s chunks _). constructor; [by destruct (wd_is_ephemeral s)|done].
Qed.

Lemma store_chunks_hash `{Blake3} s chunks prior h :
  (store_chunks s chunks prior).2 = Some (Some h) -> prior = Some h \/ exists data, h = blake3 data.
Proof.
  revert prior. induction chunks as [|c chunks IH]; intros prior Hs; cbn [store_chunks] in Hs.
  { left. by apply (inj Some) in Hs. }
  destruct (block_create_existing_data_by_type _) as [b|] eqn:Eb; [|done]. specialize (IH (Some (block_hash b))).
  destruct (store_chunks s chunks _). destruct (IH Hs) as [Hp|Hd]; right; [|exact Hd]. injection Hp as <-.
  unfold block_create_existing_data_by_type in Eb. destruct (negb (legal_size _)); [done|]. injection Eb as <-. by eexists.
Qed.

Lemma tuple_keys ts Ts : Forall (fun T => length T = ts /\ Forall (is_key BLAKE3_OUT_LEN) T) Ts ->
  Forall (is_key BLAKE3_OUT_LEN) (concat Ts).
Proof. intros HT. apply Forall_concat. eapply Forall_impl; [exact HT|]. by intros T [_ ?]. Qed.

Lemma write_descriptor_chain `{Blake3} network type ts data_length put_group Ts :
  let bs := Z.to_nat (block_size type) in
  let cutk := (bs / BLAKE3_OUT_LEN)%nat in
  Forall (fun T => length T = ts /\ Forall (is_key BLAKE3_OUT_LEN) T) Ts -> (0 < length (concat Ts))%nat ->
  room cutk (length (concat Ts)) -> fills bs cutk (length (concat Ts)) ->
  exists effs h, (write_descriptor network type ts data_length put_group Ts).2 =
      effs ++ [Notify_hash h; Notify_finished; Notify_complete; Notify_close] /\
    Forall is_cache_put effs /\ (exists data, h = blake3 data) /\
    (forall lookup, agrees lookup (stored effs) -> chain BLAKE3_OUT_LEN cutk Ts lookup h 0).
Proof.
  cbv zeta. intros HT Hpos Hr Hf. destruct (cut_bounds type) as (Hc & _ & Hle & Hlegal & _).
  pose proof (tuple_keys ts Ts HT) as HK.
  destruct (build_chain _ _ Ts Hc Hle Hlegal HK (writeable_descriptor_create type BLAKE3_OUT_LEN ts data_length put_group)
    (length (concat (concat Ts)) + 1) 0) as (effs & h & Hst & Hh & Hch); rewrite ?Nat.sub_0_r; try done.
  { rewrite (length_keys BLAKE3_OUT_LEN _ HK). unfold BLAKE3_OUT_LEN. lia. }
  exists effs, h. split_and!; [| | |done].
  2: { apply (f_equal fst) in Hst. cbn [fst] in Hst. rewrite <- Hst. apply store_chunks_puts. }
  2: { apply (f_equal snd) in Hst. by apply store_chunks_hash in Hst as [|]. }
  apply write_descriptor_effects; [done|]. intros s He Hg. rewrite drop_0 in Hst.
  rewrite <- Hst. by apply store_chunks_mode.
Qed.

(** ** Round trip *)

(** The descriptor stream of a get. *)
Definition read_ori (type : block_size_e) (ts : nat) (h : bytes) (file_offset final_byte : Z) : ori_t := {|
  ori_descriptor_hash := Some h; ori_descriptor_offset := 0; ori_block_type := type; ori_tuple_size := ts;
  ori_file_offset := file_offset; ori_final_byte := final_byte |}.

Definition read_descriptor (fuel : nat) (lookup : bytes -> option block_t) (ori : ori_t)
  : readable_descriptor_t * list rd_effect :=
  rd_drive fuel lookup (readable_descriptor_create ori (Z.of_nat BLAKE3_OUT_LEN)) READABLE_PUSH.

Definition ceil_div (a b : Z) : Z := a / b + (if 0 <? a mod b then 1 else 0).

Lemma ceil_div_gt a b x : 0 < b -> 0 <= x < a -> x / b < ceil_div a b.
Proof.
  intros Hb Hx. unfold ceil_div. pose proof (Z.div_mod a b ltac:(lia)). pose proof (Z.mod_pos_bound a b Hb).
  destruct (Z.ltb_spec 0 (a mod b)); apply Z.div_lt_upper_bound; nia.
Qed.

Section Roundtrip.
Context {BL : Blake3}.
Variables (type : block_size_e) (ts : nat) (Ts : list (list bytes)) (file_offset final_byte : Z).
Hypothesis ts_range : (0 < ts)%nat /\ Z.of_nat ts < 2 ^ 56.
Hypothesis tuples_wf : Forall (fun T => length T = ts /\ Forall (is_key BLAKE3_OUT_LEN) T) Ts.
Hypothesis count : Z.of_nat (length Ts) = ceil_div final_byte (block_size type).
Hypothesis offset : 0 <= file_offset < final_byte.
Hypothesis final_range : final_byte < 2 ^ 63.

Abbreviation cutk := (Z.to_nat (block_size type) / BLAKE3_OUT_LEN)%nat.
Abbreviation off := (Z.to_nat (file_offset / block_size type)).

Lemma block_size_pos : 136 <= block_size type.
Proof. by destruct type. Qed.

Lemma offset_tuple : (off < length Ts)%nat /\ 0 <= file_offset / block_size type /\ Z.of_nat (length Ts) < 2 ^ 63.
Proof.
  clear -count offset final_range. pose proof block_size_pos. pose proof (ceil_div_gt final_byte (block_size type) file_offset ltac:(lia) offset).
  assert (0 <= file_offset / block_size type) by (apply Z.div_pos; lia). split; [lia|]. split; [done|]. rewrite count.
  unfold ceil_div. pose proof (Z.div_mod final_byte (block_size type) ltac:(lia)).
  pose proof (Z.mod_pos_bound final_byte (block_size type) ltac:(lia)). destruct (Z.ltb_spec 0 (final_byte mod block_size type)); nia.
Qed.

Lemma tuples_split : Forall (fun T => length T = ts) Ts /\ Forall (is_key BLAKE3_OUT_LEN) (concat Ts) /\
  length (concat Ts) = (ts * length Ts)%nat /\ fits BLAKE3_OUT_LEN ts (2 * ts + cutk + 1).
Proof.
  assert (Forall (fun T => length T = ts) Ts) as Hf by (eapply Forall_impl; [exact tuples_wf|by intros T [? _]]).
  split; [done|]. split; [by apply (tuple_keys ts)|].
  split. { clear -Hf. induction Hf as [|T Ts HT _ IH]; cbn [concat length]; [lia|]. rewrite length_app, IH, HT. lia. }
  destruct (cut_bounds type) as (_ & Hc & _). destruct ts_range. unfold fits, BLAKE3_OUT_LEN in *. lia.
Qed.

(** After the push the reader waits for the first block. *)
Lemma push_waits h :
  let s := readable_descriptor_create (read_ori type ts h file_offset final_byte) (Z.of_nat BLAKE3_OUT_LEN) in
  exists s', readable_descriptor_dispatch false s READABLE_PUSH = (s', [Cache_get h]) /\
    waits BLAKE3_OUT_LEN ts cutk Ts off s' h 0 0 [].
Proof.
  clear tuples_wf. cbv zeta. eexists. split; [reflexivity|]. destruct offset_tuple as (Ho & Hp & _). split_and!; try done.
  2: { destruct (cut_bounds type) as (_ & _ & _ & _ & Hc). exact Hc. }
  split; try done; [split_and!; [by rewrite Z2Nat.id|by rewrite count|done|done]|cbn [length Nat.mul Nat.add take]; split_and!; [done|lia|done]|].
  destruct (Nat.ltb_spec 0 off).
  - split; [|by right]. split; [cbn; lia|by right].
  - split; [|by right]. split; [cbn; lia|done].
Qed.
End Roundtrip.

(** A reader that starts at the head of a chain. *)
Lemma chain_reads_back type ts Ts file_offset final_byte lookup h :
  (0 < ts)%nat /\ Z.of_nat ts < 2 ^ 56 ->
  Forall (fun T => length T = ts /\ Forall (is_key BLAKE3_OUT_LEN) T) Ts ->
  Z.of_nat (length Ts) = ceil_div final_byte (block_size type) ->
  0 <= file_offset < final_byte -> final_byte < 2 ^ 63 ->
  chain BLAKE3_OUT_LEN (Z.to_nat (block_size type) / BLAKE3_OUT_LEN) Ts lookup h 0 ->
  exists m, forall fuel, (m <= fuel)%nat ->
    let get := read_descriptor fuel lookup (read_ori type ts h file_offset final_byte) in
    notifications get.2 =
      tuple_events ts (drop (Z.to_nat (file_offset / block_size type)) Ts) ++ [Complete_event; Close_event] /\
    rd_is_deactivated get.1 = true.
Proof.
  cbv zeta. intros Hts HT Hc Ho Hfb Hch.
  destruct (tuples_split type ts Ts Hts HT) as (Hfull & HK & HlK & Hfit).
  destruct (offset_tuple type Ts file_offset final_byte Hc Ho Hfb) as (Hoff & Hop & Hfew).
  destruct (push_waits type ts Ts file_offset final_byte Hts Hc Ho Hfb h) as (s' & Hpush & Hw).
  destruct (read_chain BLAKE3_OUT_LEN ts _ Ts _ lookup ltac:(unfold BLAKE3_OUT_LEN; lia) ltac:(lia) Hfull HK Hoff Hfew Hfit h 0
    Hch s' 0 [] Hw) as [m Hm].
  exists (S m). intros [|fuel] Hfuel; [lia|]. unfold read_descriptor. cbn [rd_drive]. rewrite Hpush. cbn [last].
  destruct (Hm fuel ltac:(lia)) as [Hn Hd]. destruct (rd_drive fuel lookup s' _) as [s2 effs2]. cbn [fst snd] in *.
  split; [|done]. rewrite notifications_app, Hn. cbn [notifications List.filter app]. do 2 f_equal.
  unfold segment. rewrite Nat.max_0_l. apply take_ge. rewrite length_drop. lia.
Qed.

Lemma descriptor_reads_back `{Blake3} network type ts data_length put_group Ts file_offset final_byte :
  (0 < ts)%nat /\ Z.of_nat ts < 2 ^ 56 ->
  Forall (fun T => length T = ts /\ Forall (is_key BLAKE3_OUT_LEN) T) Ts ->
  Z.of_nat (length Ts) = ceil_div final_byte (block_size type) ->
  0 <= file_offset < final_byte -> final_byte < 2 ^ 63 ->
  room (Z.to_nat (block_size type) / BLAKE3_OUT_LEN) (ts * length Ts) ->
  fills (Z.to_nat (block_size type)) (Z.to_nat (block_size type) / BLAKE3_OUT_LEN) (ts * length Ts) ->
  let put := (write_descriptor network type ts data_length put_group Ts).2 in
  exists effs h, put = effs ++ [Notify_hash h; Notify_finished; Notify_complete; Notify_close] /\
  forall lookup, agrees lookup (stored put) ->
  exists m, forall fuel, (m <= fuel)%nat ->
    let get := read_descriptor fuel lookup (read_ori type ts h file_offset final_byte) in
    notifications get.2 =
      tuple_events ts (drop (Z.to_nat (file_offset / block_size type)) Ts) ++ [Complete_event; Close_event] /\
    rd_is_deactivated get.1 = true.
Proof.
  cbv zeta. intros Hts HT Hc Ho Hfb Hr Hf.
  destruct (tuples_split type ts Ts Hts HT) as (_ & _ & HlK & _).
  destruct (offset_tuple type Ts file_offset final_byte Hc Ho Hfb) as (Hoff & _).
  destruct (write_descriptor_chain network type ts data_length put_group Ts HT) as (effs & h & He & _ & _ & Hch);
    rewrite ?HlK; [nia|done|done|].
  exists effs, h. split; [done|]. intros lookup Ha. rewrite He, stored_app, app_nil_r in Ha.
  by apply chain_reads_back; try done; apply Hch.
Qed.


(** 41 tuples of 125 hashes each, of a file of 5200000 bytes: two descriptor
    blocks. *)
Definition sample_key (i j : nat) : bytes := Z.of_nat i :: Z.of_nat j :: replicate 30 9.
Definition sample_tuples : list (list bytes) := map (fun i => map (sample_key i) (seq 0 125)) (seq 1 41).
Definition sample_length : nat := Z.to_nat 5200000.
Definition sample_put : list put_effect :=
  (write_descriptor (H := quick_blake3) true standard 125 sample_length 7 sample_tuples).2.

Lemma sample_put_eq : (write_descriptor (H := quick_blake3) true standard 125 sample_length 7 sample_tuples).2 = sample_put.
Proof. unfold sample_put. reflexivity. Qed.

Lemma sample_tuples_wf : Forall (fun T => length T = 125%nat /\ Forall (is_key BLAKE3_OUT_LEN) T) sample_tuples.
Proof.
  apply Forall_forall. intros T (i & -> & _)%list_elem_of_fmap. split; [by rewrite length_map, length_seq|].
  apply Forall_fmap, Forall_true. done.
Qed.

Lemma sample_room : room (Z.to_nat (block_size standard) / BLAKE3_OUT_LEN) (125 * length sample_tuples).
Proof. intros _. apply Nat.eqb_neq. vm_compute. reflexivity. Qed.

Lemma sample_fills :
  fills (Z.to_nat (block_size standard)) (Z.to_nat (block_size standard) / BLAKE3_OUT_LEN) (125 * length sample_tuples).
Proof. intros _. apply Nat.eqb_eq. vm_compute. reflexivity. Qed.

Lemma sample_agrees : agrees_check (block_lookup (stored sample_put)) (stored sample_put) = true.
Proof. vm_compute. reflexivity. Qed.

Lemma sample_two_blocks : length (stored sample_put) = 2%nat.
Proof. vm_compute. reflexivity. Qed.


(** If the hashes fill a single descriptor block exactly, the last hash of the
    file is taken for that of a next descriptor block: the reader asks for this
    block and does not pass the last tuple on. *)
Theorem descriptor_full_block `{Blake3} network type ts data_length put_group Ts final_byte :
  (0 < ts)%nat /\ Z.of_nat ts < 2 ^ 56 ->
  Forall (fun T => length T = ts /\ Forall (is_key BLAKE3_OUT_LEN) T) Ts ->
  Z.of_nat (length Ts) = ceil_div final_byte (block_size type) -> final_byte < 2 ^ 63 -> 0 < final_byte ->
  (ts * length Ts)%nat = (Z.to_nat (block_size type) / BLAKE3_OUT_LEN)%nat ->
  let put := (write_descriptor network type ts data_length put_group Ts).2 in
  exists effs h last_hash, put = effs ++ [Notify_hash h; Notify_finished; Notify_complete; Notify_close] /\
  last (concat Ts) = Some last_hash /\
  forall lookup, agrees lookup (stored put) ->
    let get := (read_descriptor 1 lookup (read_ori type ts h 0 final_byte)).2 in
    exists n, notifications get = tuple_events ts (take n Ts) /\ (n < length Ts)%nat /\ last get = Some (Cache_get last_hash).
Proof.
  cbv zeta. intros Hts HT Hc Hfb Hpos Hfull.
  destruct (tuples_split type ts Ts Hts HT) as (Hlen & HK & HlK & Hfit).
  assert (0 <= 0 < final_byte) as Ho by lia.
  destruct (offset_tuple type Ts 0 final_byte Hc Ho Hfb) as (Hoff & _ & Hfew).
  destruct (cut_bounds type) as (Hcut & _ & Hle & Hlegal & _). set (cutk := (Z.to_nat (block_size type) / _)%nat) in *.
  set (bs := Z.to_nat (block_size type)) in *. rewrite Hfull in HlK.
  destruct (pad_full bs cutk (concat Ts) HK HlK Hle) as [Hpl Hpt].
  destruct (exists_last (l := concat Ts)) as (K' & last_hash & EK); [by destruct (concat Ts); cbn in *; [lia|]|].
  destruct (store_chunk bs Hlegal (writeable_descriptor_create type BLAKE3_OUT_LEN ts data_length put_group)
    (pad_chunk bs (concat (concat Ts))) None) as (b & eff & Hst & Hp & Hb & Hbk); [by cbn [default]; rewrite app_nil_r|].
  assert ((write_descriptor network type ts data_length put_group Ts).2 =
    [eff] ++ [Notify_hash (block_hash b); Notify_finished; Notify_complete; Notify_close]) as Hput.
  { apply write_descriptor_effects; [done|]. intros s He Hg. fold bs cutk. rewrite Nat.add_1_r, chunks_last by (done || (rewrite HlK; lia)).
    rewrite reverse_singleton, <- Hst. by apply store_chunks_mode. }
  exists [eff], (block_hash b), last_hash. split; [done|]. split; [by rewrite EK, last_snoc|].
  rewrite Hput, stored_app, Hp. intros lookup [(b' & Hb' & Hbb)%agrees_cons _]%agrees_app.
  destruct (push_waits type ts Ts 0 final_byte Hts Hc Ho Hfb (block_hash b)) as (s' & Hpush & Hw).
  assert (length K' = cutk - 1)%nat as HlK' by (rewrite EK, length_app in HlK; cbn [length] in HlK; lia).
  assert (is_key BLAKE3_OUT_LEN last_hash) as Hlast by (rewrite EK in HK; apply Forall_app in HK as [_ [? _]%Forall_cons]; done).
  destruct (read_next BLAKE3_OUT_LEN ts cutk Ts _ lookup ltac:(unfold BLAKE3_OUT_LEN; lia) ltac:(lia) Hlen HK Hoff Hfew Hfit
    s' (block_hash b) 0 0 [] b' (cutk - 1) last_hash Hw Hb') as (s2 & c & part & effs & Hd & Hn & _ & Hcl & _).
  { rewrite HlK. lia. } { lia. } { done. }
  { rewrite Hbb, Hb. cbn [default]. rewrite app_nil_r, drop_0, Hpt, EK. f_equal. rewrite <- HlK', take_app_length. done. }
  unfold read_descriptor. cbn [rd_drive]. rewrite Hpush. cbn [last]. rewrite Hd. cbn [snd]. exists c.
  rewrite !notifications_app, Hn. cbn [notifications List.filter app]. rewrite app_nil_r. split; [|split; [done|]].
  - f_equal. unfold segment. rewrite Zdiv_0_l. change (Z.to_nat 0) with 0%nat. rewrite Nat.max_0_l, Nat.max_0_r, drop_0.
    by rewrite Nat.sub_0_r.
  - by rewrite app_comm_cons, last_snoc.
Qed.
