(* ===== verification/OffRead.v ===== *)
(** * OffRead: decoding the tuples of a file

    Models src/src/OFFStreams/readable_off_stream.c, the actor that turns the
    tuples of a file back into its bytes.  One tuple is decoded at a time, the
    others wait in a queue; its blocks are asked for all at once and their
    answers, from the cache or the network, come in any order.  In load mode a
    tuple with a missing block is skipped, and the answers it still waits for
    are dropped when they arrive.  Sizes are 64-bit; [tc] and [network] say
    whether the stream has a tuple cache and a network. *)

From stdpp Require Import relations.
From S2P Require Import Prelude Buffer Block Effect Tuple OffWrite DescRead.
Local Open Scope Z_scope.
Local Open Scope effect_scope.

Inductive off_stream_state_e := OFF_STREAM_FETCHING_BLOCKS | OFF_STREAM_AWAITING_NETWORK | OFF_STREAM_AWAITING_TUPLE.

Record pending_block_fetch_t := mk_fetch { fetch_hash : bytes; fetch_index : nat }.

Record readable_off_stream_t := mk_ro {
  ro_ori : ori_t;
  ro_sent_bytes : Z;
  ro_offset_remainder : Z;
  ro_offset_applied : bool;
  ro_load_mode : bool;
  ro_closed : bool;
  ro_tuples_loaded : Z;
  ro_tuples_skipped : Z;
  ro_state : off_stream_state_e;
  ro_pending_tuple : option tuple_t;
  ro_xor_accumulator : option buffer_t;
  ro_blocks_expected : nat;
  ro_blocks_received : nat;
  ro_pending_fetches : list pending_block_fetch_t;
  ro_stale_fetches : list pending_block_fetch_t;
  ro_tuple_queue : list tuple_t;
  ro_is_deactivated : bool
}.

#[export] Instance ro_settable : Settable readable_off_stream_t := fields! mk_ro
  [ro_ori; ro_sent_bytes; ro_offset_remainder; ro_offset_applied; ro_load_mode; ro_closed; ro_tuples_loaded;
   ro_tuples_skipped; ro_state; ro_pending_tuple; ro_xor_accumulator; ro_blocks_expected; ro_blocks_received;
   ro_pending_fetches; ro_stale_fetches; ro_tuple_queue; ro_is_deactivated].

(** Notifications, then messages to the tuple cache, the block cache and the network. *)
Inductive ro_effect :=
| Data_out (data : bytes)
| Load_tuple (tuples_loaded tuples_skipped : Z)
| Finished_out | Complete_out | Close_out | Error_out
| Get_tuple (t : tuple_t)
| Put_tuple (t : option tuple_t) (value : buffer_t)
| Get_block (hash : bytes)
| Find_block (hash : bytes).

Inductive ro_message :=
| OFF_STREAM_WRITE (t : tuple_t)
| TUPLE_CACHE_GET_RESULT (value : option buffer_t)
| RO_CACHE_GET_RESULT (block : option block_t) (hash : bytes)
| RO_NETWORK_FIND_BLOCK_RESULT (found : bool) (block : option block_t) (hash : bytes)
| RO_CLOSE_STREAM.

Definition off_block_size_for_type (type : block_size_e) : Z := block_size type.

Section Readable.
Variables (tc network : bool).

Implicit Types s : readable_off_stream_t.

Definition readable_off_stream_create_ex (ori : ori_t) (load_mode : bool) : readable_off_stream_t :=
  {| ro_ori := ori; ro_sent_bytes := ori_file_offset ori;
     ro_offset_remainder := ori_file_offset ori mod off_block_size_for_type (ori_block_type ori);
     ro_offset_applied := false; ro_load_mode := load_mode; ro_closed := false; ro_tuples_loaded := 0;
     ro_tuples_skipped := 0; ro_state := OFF_STREAM_FETCHING_BLOCKS; ro_pending_tuple := None;
     ro_xor_accumulator := None; ro_blocks_expected := 0; ro_blocks_received := 0; ro_pending_fetches := [];
     ro_stale_fetches := []; ro_tuple_queue := []; ro_is_deactivated := false |}.

(** Where the part of a decoded block that belongs to the file starts, and its
    length. *)
Definition render_window (size : Z) s : Z * Z :=
  let final_byte := ori_final_byte (ro_ori s) in
  if negb (ro_offset_applied s) && (0 <? ro_offset_remainder s) then
    let available := u64 (size - ro_offset_remainder s) in
    (ro_offset_remainder s,
     if final_byte <? u64 (ro_sent_bytes s + available) then u64 (final_byte - ro_sent_bytes s) else available)
  else (0, if final_byte <? u64 (ro_sent_bytes s + size) then u64 (final_byte - ro_sent_bytes s) else size).

(** The offset is applied once; after the last byte the stream finishes. *)
Definition _render_origin_data (data : buffer_t) s : readable_off_stream_t * list ro_effect :=
  let '(start, length) := render_window (Z.of_nat (buf_size data)) s in
  (s <| ro_offset_applied := ro_offset_applied s || (0 <? ro_offset_remainder s) |>
     <| ro_sent_bytes := u64 (ro_sent_bytes s + length) |>,
   match slice (buf_data data) start (u64 (start + length)) with Some d => [Data_out d] | None => [] end) ;;;
  fun s => if ori_final_byte (ro_ori s) <=? ro_sent_bytes s
           then (s <| ro_closed := true |>, [Finished_out; Complete_out; Close_out]) else done s.

Definition _notify_load_tuple s : readable_off_stream_t * list ro_effect :=
  (s, if ro_load_mode s then [Load_tuple (ro_tuples_loaded s) (ro_tuples_skipped s)] else []).

Definition _tally_tuple_loaded s : readable_off_stream_t * list ro_effect :=
  _notify_load_tuple (s <| ro_tuples_loaded := u64 (ro_tuples_loaded s + 1) |>).

(** Unlinks the first fetch of [hash]. *)
Fixpoint unlink_fetch (hash : bytes) (fetches : list pending_block_fetch_t) : option (list pending_block_fetch_t) :=
  match fetches with
  | [] => None
  | f :: fetches =>
      if compare_bytes (fetch_hash f) hash =? 0 then Some fetches
      else match unlink_fetch hash fetches with Some l => Some (f :: l) | None => None end
  end.

Definition _prune_answered_fetch (hash : bytes) s : readable_off_stream_t :=
  match unlink_fetch hash (ro_pending_fetches s) with
  | Some l => s <| ro_pending_fetches := l |>
  | None => s
  end.

Definition _consume_stale_fetch (hash : bytes) s : option readable_off_stream_t :=
  match unlink_fetch hash (ro_stale_fetches s) with
  | Some l => Some (s <| ro_stale_fetches := l |>)
  | None => None
  end.

(** A NULL tuple is not dereferenced: the callers have one. *)
Definition _start_block_fetches s : readable_off_stream_t * list ro_effect :=
  match ro_pending_tuple s with
  | None => done s
  | Some t =>
      let hashes := omap (tuple_get t) (seq 0 (tuple_size t)) in
      (s <| ro_blocks_expected := tuple_size t |> <| ro_blocks_received := 0%nat |>
         <| ro_xor_accumulator := None |>
         <| ro_pending_fetches := reverse (zip_with mk_fetch hashes (seq 0 (tuple_size t))) |>,
       map Get_block hashes)
  end.

Definition _start_tuple_cache_lookup (t : tuple_t) s : readable_off_stream_t * list ro_effect :=
  let s := s <| ro_pending_tuple := Some t |> in
  if tc then (s, [Get_tuple t]) else _start_block_fetches s.

Definition _drain_tuple_queue s : readable_off_stream_t * list ro_effect :=
  if ro_is_deactivated s || bool_decide (is_Some (ro_pending_tuple s)) then done s
  else
    match ro_tuple_queue s with
    | [] => done s
    | t :: queue => _start_tuple_cache_lookup t (s <| ro_tuple_queue := queue |>)
    end.

Definition _skip_pending_tuple s : readable_off_stream_t * list ro_effect :=
  _notify_load_tuple
    (s <| ro_tuples_skipped := u64 (ro_tuples_skipped s + 1) |>
       <| ro_stale_fetches := reverse (ro_pending_fetches s) ++ ro_stale_fetches s |>
       <| ro_pending_fetches := [] |> <| ro_xor_accumulator := None |> <| ro_pending_tuple := None |>
       <| ro_blocks_expected := 0%nat |> <| ro_blocks_received := 0%nat |>
       <| ro_state := OFF_STREAM_FETCHING_BLOCKS |>) ;;;
  _drain_tuple_queue.

Definition _finish_decode_and_render s : readable_off_stream_t * list ro_effect :=
  match ro_xor_accumulator s with
  | None => done (s <| ro_pending_tuple := None |>)
  | Some value =>
      (s, if tc then [Put_tuple (ro_pending_tuple s) value] else []) ;;;
      _tally_tuple_loaded ;;;
      _render_origin_data value ;;;
      (fun s => done (s <| ro_xor_accumulator := None |> <| ro_pending_tuple := None |>
                        <| ro_blocks_expected := 0%nat |> <| ro_blocks_received := 0%nat |>
                        <| ro_pending_fetches := [] |>)) ;;;
      _drain_tuple_queue
  end.

(** A block of the live tuple has arrived. *)
Definition accumulate (block : block_t) (hash : bytes) s : readable_off_stream_t * list ro_effect :=
  let s := _prune_answered_fetch hash s in
  let s := s <| ro_xor_accumulator := Some (match ro_xor_accumulator s with
                                            | None => buffer_copy (blk_data block)
                                            | Some acc => buffer_xor acc (blk_data block)
                                            end) |>
             <| ro_blocks_received := S (ro_blocks_received s) |> in
  if (ro_blocks_expected s <=? ro_blocks_received s)%nat then _finish_decode_and_render s else done s.

Definition ro_deactivate s : readable_off_stream_t * list ro_effect :=
  if ro_is_deactivated s then done s else (s <| ro_is_deactivated := true |>, [Error_out; Close_out]).

(** A missing block ends the stream. *)
Definition fail_pending s : readable_off_stream_t * list ro_effect :=
  ro_deactivate (s <| ro_xor_accumulator := None |> <| ro_pending_tuple := None |>).

Definition on_tuple_write (t : tuple_t) s : readable_off_stream_t * list ro_effect :=
  if ro_is_deactivated s then done s
  else if bool_decide (is_Some (ro_pending_tuple s)) then done (s <| ro_tuple_queue := ro_tuple_queue s ++ [t] |>)
  else _start_tuple_cache_lookup t s.

Definition on_tuple_result (value : option buffer_t) s : readable_off_stream_t * list ro_effect :=
  if ro_is_deactivated s then done s
  else
    match value with
    | Some v =>
        _tally_tuple_loaded s ;;; _render_origin_data v ;;;
        (fun s => done (s <| ro_pending_tuple := None |>)) ;;; _drain_tuple_queue
    | None => _start_block_fetches s
    end.

Definition on_block_result (block : option block_t) (hash : bytes) s : readable_off_stream_t * list ro_effect :=
  if ro_is_deactivated s then done s
  else
    match _consume_stale_fetch hash s with
    | Some s => done s
    | None =>
        match block with
        | Some b => accumulate b hash s
        | None =>
            if network then (s <| ro_state := OFF_STREAM_AWAITING_NETWORK |>, [Find_block hash])
            else if ro_load_mode s then _skip_pending_tuple (_prune_answered_fetch hash s)
            else fail_pending s
        end
    end.

Definition on_find_result (found : bool) (block : option block_t) (hash : bytes) s
  : readable_off_stream_t * list ro_effect :=
  match _consume_stale_fetch hash s with
  | Some s => done s
  | None =>
      if found then
        match block with
        | Some b => accumulate b hash s
        | None => (s <| ro_state := OFF_STREAM_FETCHING_BLOCKS |>, [Get_block hash])
        end
      else if ro_load_mode s then _skip_pending_tuple (_prune_answered_fetch hash s)
      else fail_pending s
  end.

Definition _close_stream s : readable_off_stream_t * list ro_effect :=
  (s <| ro_pending_tuple := None |> <| ro_xor_accumulator := None |> <| ro_tuple_queue := [] |>
     <| ro_pending_fetches := [] |> <| ro_stale_fetches := [] |> <| ro_closed := true |>
     <| ro_is_deactivated := true |>, [Close_out]).

Definition readable_off_stream_request_close s : readable_off_stream_t * list ro_effect :=
  if ro_is_deactivated s || ro_closed s then done s else _close_stream s.

Definition readable_off_stream_dispatch s (msg : ro_message) : readable_off_stream_t * list ro_effect :=
  match msg with
  | OFF_STREAM_WRITE t => on_tuple_write t s
  | TUPLE_CACHE_GET_RESULT value => on_tuple_result value s
  | RO_CACHE_GET_RESULT block hash => on_block_result block hash s
  | RO_NETWORK_FIND_BLOCK_RESULT found block hash => on_find_result found block hash s
  | RO_CLOSE_STREAM => if ro_is_deactivated s then done s else _close_stream s
  end.
End Readable.

(** ** What a get does, whatever the order of the answers *)

Definition tuple_hashes (t : tuple_t) : list bytes := omap (tuple_get t) (seq 0 (tuple_size t)).

(** A tuple all of whose slots hold a hash. *)
Definition tuple_full (t : tuple_t) : Prop := (0 < tuple_size t)%nat /\ length (tuple_hashes t) = tuple_size t.

(** Messages that are answered. *)
Inductive request := Ask_tuple (t : tuple_t) | Ask_block (hash : bytes) | Ask_network (hash : bytes).

Definition requests (effs : list ro_effect) : list request :=
  omap (fun e => match e with
                 | Get_tuple t => Some (Ask_tuple t)
                 | Get_block h => Some (Ask_block h)
                 | Find_block h => Some (Ask_network h)
                 | _ => None
                 end) effs.

Definition data_of (effs : list ro_effect) : bytes :=
  concat (omap (fun e => match e with Data_out d => Some d | _ => None end) effs).

Lemma requests_app e1 e2 : requests (e1 ++ e2) = requests e1 ++ requests e2.
Proof. apply omap_app. Qed.
Lemma data_of_app e1 e2 : data_of (e1 ++ e2) = data_of e1 ++ data_of e2.
Proof. unfold data_of. by rewrite omap_app, concat_app. Qed.

Definition asked (R : list request) : list bytes :=
  omap (fun r => match r with Ask_block h | Ask_network h => Some h | Ask_tuple _ => None end) R.
Definition asked_tuples (R : list request) : list tuple_t :=
  omap (fun r => match r with Ask_tuple t => Some t | _ => None end) R.

Lemma asked_app R1 R2 : asked (R1 ++ R2) = asked R1 ++ asked R2.
Proof. apply omap_app. Qed.
Lemma asked_tuples_app R1 R2 : asked_tuples (R1 ++ R2) = asked_tuples R1 ++ asked_tuples R2.
Proof. apply omap_app. Qed.

Lemma asked_blocks l : asked (requests (map Get_block l)) = l /\ asked_tuples (requests (map Get_block l)) = [].
Proof. induction l as [|h l [IH1 IH2]]; [done|]. split; cbn; [by f_equal|done]. Qed.

(** Unlinking is removal of one occurrence. *)
Lemma unlink_some h l l' : unlink_fetch h l = Some l' -> map fetch_hash l ≡ₚ h :: map fetch_hash l'.
Proof.
  revert l'. induction l as [|f l IH]; intros l'; [done|]. cbn [unlink_fetch].
  destruct (Z.eqb_spec (compare_bytes (fetch_hash f) h) 0) as [E|E].
  - apply compare_bytes_eq in E. intros [= <-]. cbn [map]. by rewrite E.
  - destruct (unlink_fetch h l) as [l2|]; [|done]. intros [= <-]. cbn [map]. rewrite (IH l2) by done. apply Permutation_swap.
Qed.

Lemma unlink_none h l : unlink_fetch h l = None <-> h ∉ map fetch_hash l.
Proof.
  induction l as [|f l IH]; cbn [unlink_fetch map]; [split; [intros _; apply not_elem_of_nil|done]|].
  rewrite not_elem_of_cons. destruct (Z.eqb_spec (compare_bytes (fetch_hash f) h) 0) as [E|E].
  - apply compare_bytes_eq in E. naive_solver.
  - rewrite <- IH. assert (fetch_hash f <> h) by (intros Eh; apply E; by apply compare_bytes_eq).
    destruct (unlink_fetch h l); naive_solver.
Qed.

Section Get.
Variables (tc network : bool) (content : bytes -> buffer_t) (ori : ori_t) (load_mode : bool).
Abbreviation bs := (Z.to_nat (block_size (ori_block_type ori))).
Abbreviation offset := (ori_file_offset ori).
Abbreviation final := (ori_final_byte ori).
Abbreviation rem := (offset mod block_size (ori_block_type ori)).
Hypothesis content_size : forall h, buf_size (content h) = bs.
Hypothesis offset_range : 0 <= offset < final.
Hypothesis final_range : final < 2 ^ 63.

(** The part of the blocks [ds] that belongs to the file. *)
Definition rendered (ds : list bytes) : bytes := take (Z.to_nat (final - offset)) (drop (Z.to_nat rem) (concat ds)).

Record renders (s : readable_off_stream_t) (ds : list bytes) (data : bytes) : Prop := {
  rn_ori : ro_ori s = ori;
  rn_rem : ro_offset_remainder s = rem;
  rn_sizes : Forall (fun d => length d = bs) ds;
  rn_data : data = rendered ds;
  rn_sent : ro_sent_bytes s = offset + Z.of_nat (length data);
  rn_applied : rem = 0 \/ ro_offset_applied s = bool_decide (ds <> [])
}.

Lemma bs_range : (0 < bs)%nat /\ Z.of_nat bs = block_size (ori_block_type ori) /\ Z.of_nat bs <= 1000000 /\ 0 <= rem < Z.of_nat bs.
Proof.
  clear. assert (0 < block_size (ori_block_type ori) <= 1000000) as H by (destruct (ori_block_type ori); simpl; lia).
  rewrite Z2Nat.id by lia. pose proof (Z.mod_pos_bound offset (block_size (ori_block_type ori))). lia.
Qed.

Lemma slice_some b start end' : 0 <= start <= end' -> end' <= Z.of_nat (length b) ->
  slice b start end' = Some (take (Z.to_nat (end' - start)) (drop (Z.to_nat start) b)).
Proof.
  clear. intros H1 H2. unfold slice. destruct (Z.ltb_spec end' start); [lia|]. destruct (Z.ltb_spec (Z.of_nat (length b)) end'); [lia|].
  by destruct (Z.ltb_spec (Z.of_nat (length b)) start); [lia|].
Qed.

(** The first block, without what precedes the offset. *)
Lemma rendered_first d : length d = bs ->
  rendered [d] = take (Z.to_nat (Z.min (final - offset) (Z.of_nat bs - rem))) (drop (Z.to_nat rem) d).
Proof.
  intros Hd. unfold rendered. cbn [concat]. rewrite app_nil_r. pose proof bs_range.
  destruct (Z.min_spec (final - offset) (Z.of_nat bs - rem)) as [[_ ->]|[? ->]]; [done|].
  rewrite !take_ge; [done| |]; rewrite length_drop; lia.
Qed.

(** A further block. *)
Lemma rendered_snoc ds d : Forall (fun d => length d = bs) ds -> length d = bs -> ds <> [] \/ rem = 0 ->
  rendered (ds ++ [d]) = rendered ds ++
    take (Z.to_nat (Z.min (final - (offset + Z.of_nat (length (rendered ds)))) (Z.of_nat bs))) d.
Proof.
  intros Hds Hd Hne. pose proof bs_range as Hbs. unfold rendered. rewrite concat_app. cbn [concat]. rewrite app_nil_r.
  assert (Z.to_nat rem <= length (concat ds))%nat as Hl.
  { destruct Hne as [Hne|]; [|lia]. destruct ds as [|d0 ds]; [done|]. apply Forall_cons in Hds as [Hd0 _].
    cbn [concat]. rewrite length_app. lia. }
  rewrite drop_app_le by done. set (A := drop (Z.to_nat rem) (concat ds)). rewrite take_app, length_take. f_equal.
  destruct (decide (Z.to_nat (final - offset) - length A <= bs)%nat).
  - f_equal. lia.
  - rewrite !take_ge; [done|lia|lia].
Qed.

(** Rendering changes three fields only. *)
Definition same_but_sent (s s' : readable_off_stream_t) : Prop :=
  exists a n c, s' = s <| ro_offset_applied := a |> <| ro_sent_bytes := n |> <| ro_closed := c |>.

Lemma rendered_bound ds : 0 <= Z.of_nat (length (rendered ds)) <= final - offset.
Proof. clear -offset_range. unfold rendered. rewrite length_take. lia. Qed.

Lemma window_spec s ds v :
  renders s ds (rendered ds) -> length v = bs ->
  let '(start, len) := render_window (Z.of_nat (length v)) s in
  0 <= start /\ 0 <= len /\ start + len <= Z.of_nat bs /\
  rendered (ds ++ [v]) = rendered ds ++ take (Z.to_nat len) (drop (Z.to_nat start) v).
Proof.
  intros [Ho Hr Hsz _ Hs Ha] Hv. pose proof bs_range as Hbs. pose proof (rendered_bound ds) as Hb. unfold render_window.
  rewrite Ho, Hr, Hs, Hv. destruct (negb (ro_offset_applied s) && (0 <? rem)) eqn:E.
  - apply andb_true_iff in E as [E1 E2]. apply Z.ltb_lt in E2. apply negb_true_iff in E1. destruct Ha as [|Ha]; [lia|].
    rewrite Ha in E1. apply bool_decide_eq_false, dec_stable in E1 as ->.
    assert (rendered [] = []) as E0 by (unfold rendered; cbn; by rewrite drop_nil, take_nil).
    rewrite E0 in *. cbn [length app].
    rewrite Z.add_0_r, (u64_small (Z.of_nat bs - rem)) by (unfold is_u64; lia). rewrite !u64_small by (unfold is_u64; lia). rewrite rendered_first by done.
    destruct (Z.ltb_spec final (offset + (Z.of_nat bs - rem))); (split_and!; [lia..|]); do 2 f_equal; lia.
  - assert (ds <> [] \/ rem = 0) as Hne.
    { apply andb_false_iff in E as [E|E]; [|right; apply Z.ltb_ge in E; lia]. apply negb_false_iff in E.
      destruct Ha as [|Ha]; [by right|]. left. rewrite Ha in E. by apply bool_decide_eq_true in E. }
    rewrite rendered_snoc by done. rewrite !u64_small by (unfold is_u64; lia). change (Z.to_nat 0) with 0%nat. rewrite drop_0.
    destruct (Z.ltb_spec final (offset + Z.of_nat (length (rendered ds)) + Z.of_nat bs)); (split_and!; [lia..|]); do 2 f_equal; lia.
Qed.

Lemma render_step s ds data v :
  renders s ds data -> buf_size v = bs ->
  let r := _render_origin_data v s in
  renders r.1 (ds ++ [buf_data v]) (data ++ data_of r.2) /\ same_but_sent s r.1 /\ requests r.2 = [] /\
  (forall t w, Put_tuple t w ∉ r.2) /\
  (Complete_out ∈ r.2 <-> length (rendered (ds ++ [buf_data v])) = Z.to_nat (final - offset)).
Proof.
  intros Hrn Hv. cbv zeta. pose proof bs_range as Hbs. pose proof (rn_data _ _ _ Hrn) as ->.
  pose proof (window_spec s ds (buf_data v) Hrn Hv) as Hw. pose proof (rendered_bound (ds ++ [buf_data v])) as Hb.
  unfold _render_origin_data. change (buf_size v) with (length (buf_data v)).
  destruct (render_window _ s) as [start len]. destruct Hw as (Hst & Hlen & Hle & Hren).
  rewrite (u64_small (start + len)) by (unfold is_u64; lia).
  rewrite slice_some by (unfold buf_size in Hv; lia). replace (start + len - start) with len by lia.
  set (d := take _ _) in *. assert (length d = Z.to_nat len) as Hld.
  { subst d. rewrite length_take, length_drop. unfold buf_size in Hv. lia. }
  rewrite Hren, length_app in Hb |- *. pose proof Hrn as [Ho Hr Hsz _ Hs Ha].
  rewrite (u64_small (ro_sent_bytes s + len)) by (unfold is_u64; lia).
  set (s1 := s <| ro_offset_applied := _ |> <| ro_sent_bytes := _ |>).
  assert (renders s1 (ds ++ [buf_data v]) (rendered ds ++ d)) as Hrn1.
  { split; [done|done|apply Forall_app; split; [done|by apply Forall_singleton]|done| |].
    - change (ro_sent_bytes s1) with (ro_sent_bytes s + len). rewrite Hs, length_app. lia.
    - destruct (decide (rem = 0)) as [|Hne]; [by left|right].
      change (ro_offset_applied s1) with (ro_offset_applied s || (0 <? ro_offset_remainder s)).
      rewrite Hr, (proj2 (Z.ltb_lt 0 rem)), orb_true_r by lia. symmetry. apply bool_decide_eq_true. by destruct ds. }
  rewrite andthen_eq. cbn [fst snd]. change (ori_final_byte (ro_ori s1)) with (ori_final_byte (ro_ori s)). rewrite Ho.
  change (ro_sent_bytes s1) with (ro_sent_bytes s + len). rewrite Hs.
  destruct (Z.leb_spec final (offset + Z.of_nat (length (rendered ds)) + len)); cbn [fst snd done app].
  - change (data_of _) with (d ++ []). rewrite app_nil_r. split_and!; [by destruct Hrn1|by eexists _, _, _|done| |].
    + intros t w. set_solver.
    + split; [lia|]. intros _. set_solver.
  - change (data_of _) with (d ++ []). rewrite app_nil_r. split_and!; [done| |done| |].
    + exists (ro_offset_applied s1), (ro_sent_bytes s1), (ro_closed s). by destruct s.
    + intros t w. set_solver.
    + split; [set_solver|lia].
Qed.

(** The contents of a tuple. *)
Definition decoded (t : tuple_t) : bytes :=
  match decode (map content (tuple_hashes t)) with Some d => buf_data d | None => [] end.

(** The answers of the tuple cache, the block cache and the network: a value or
    a block is the right one, but it may be missing. *)
Inductive answer : request -> ro_message -> Prop :=
| answer_tuple t v : buf_size v = bs -> buf_data v = decoded t ->
    answer (Ask_tuple t) (TUPLE_CACHE_GET_RESULT (Some v))
| answer_no_tuple t : answer (Ask_tuple t) (TUPLE_CACHE_GET_RESULT None)
| answer_block h b : blk_data b = content h -> answer (Ask_block h) (RO_CACHE_GET_RESULT (Some b) h)
| answer_no_block h : answer (Ask_block h) (RO_CACHE_GET_RESULT None h)
| answer_found h b : blk_data b = content h -> answer (Ask_network h) (RO_NETWORK_FIND_BLOCK_RESULT true (Some b) h)
| answer_stored h : answer (Ask_network h) (RO_NETWORK_FIND_BLOCK_RESULT true None h)
| answer_not_found h : answer (Ask_network h) (RO_NETWORK_FIND_BLOCK_RESULT false None h).

(** The state, the requests that wait for an answer, the tuples written and the
    effects so far, until the stream is deactivated. *)
Inductive get_reach : readable_off_stream_t -> list request -> list tuple_t -> list ro_effect -> Prop :=
| get_start : get_reach (readable_off_stream_create_ex ori load_mode) [] [] []
| get_write s R W effs t :
    get_reach s R W effs -> ro_is_deactivated s = false -> tuple_full t ->
    let r := readable_off_stream_dispatch tc network s (OFF_STREAM_WRITE t) in
    get_reach r.1 (R ++ requests r.2) (W ++ [t]) (effs ++ r.2)
| get_answer s R1 q R2 W effs m :
    get_reach s (R1 ++ q :: R2) W effs -> ro_is_deactivated s = false -> answer q m ->
    let r := readable_off_stream_dispatch tc network s m in
    get_reach r.1 ((R1 ++ R2) ++ requests r.2) W (effs ++ r.2).

(** The tuples that are dealt with, and whether they were loaded. *)
Definition loaded (O : list (tuple_t * bool)) : list tuple_t := map fst (List.filter snd O).
Definition skipped (O : list (tuple_t * bool)) : nat := length (List.filter (fun p => negb (snd p)) O).

Lemma loaded_snoc O t b : loaded (O ++ [(t, b)]) = loaded O ++ if b then [t] else [].
Proof. unfold loaded. rewrite List.filter_app, map_app. by destruct b. Qed.
Lemma skipped_snoc O t b : skipped (O ++ [(t, b)]) = (skipped O + if b then 0 else 1)%nat.
Proof. unfold skipped. rewrite List.filter_app, length_app. by destruct b. Qed.

Record outputs (s : readable_off_stream_t) (O : list (tuple_t * bool)) (effs : list ro_effect) : Prop := {
  out_renders : renders s (map decoded (loaded O)) (data_of effs);
  out_puts : forall t w, Put_tuple t w ∈ effs -> exists t', t = Some t' /\ buf_data w = decoded t';
  out_complete : Complete_out ∈ effs <-> length (rendered (map decoded (loaded O))) = Z.to_nat (final - offset);
  out_loaded : ro_tuples_loaded s = u64 (Z.of_nat (length (loaded O)));
  out_skipped : ro_tuples_skipped s = u64 (Z.of_nat (skipped O));
  out_mode : ro_load_mode s = load_mode /\ (load_mode = false -> skipped O = 0%nat)
}.

Definition fetching (s : readable_off_stream_t) (t : tuple_t) : Prop :=
  exists answered, tuple_hashes t ≡ₚ answered ++ map fetch_hash (ro_pending_fetches s) /\ ro_pending_fetches s <> [] /\
    ro_blocks_received s = length answered /\ ro_blocks_expected s = length (tuple_hashes t) /\
    ro_xor_accumulator s = decode (map content answered).

Record protocol (s : readable_off_stream_t) (R : list request) (W : list tuple_t) (O : list (tuple_t * bool)) : Prop := {
  pr_order : W = map fst O ++ option_list (ro_pending_tuple s) ++ ro_tuple_queue s;
  pr_full : Forall tuple_full W;
  pr_asked : asked R ≡ₚ map fetch_hash (ro_pending_fetches s ++ ro_stale_fetches s);
  pr_phase : match ro_pending_tuple s with
             | None => ro_pending_fetches s = [] /\ ro_tuple_queue s = [] /\ asked_tuples R = []
             | Some t => (asked_tuples R = [t] /\ ro_pending_fetches s = []) \/ (asked_tuples R = [] /\ fetching s t)
             end
}.

Definition get_inv (s : readable_off_stream_t) (R : list request) (W : list tuple_t) (effs : list ro_effect) : Prop :=
  exists O, outputs s O effs /\ map fst O `prefix_of` W /\ (ro_is_deactivated s = false -> protocol s R W O).

Definition keeps (s s' : readable_off_stream_t) : Prop :=
  ro_ori s' = ro_ori s /\ ro_offset_remainder s' = ro_offset_remainder s /\ ro_sent_bytes s' = ro_sent_bytes s /\
  ro_offset_applied s' = ro_offset_applied s /\ ro_tuples_loaded s' = ro_tuples_loaded s /\
  ro_tuples_skipped s' = ro_tuples_skipped s /\ ro_load_mode s' = ro_load_mode s.

(** Effects that are no output. *)
Definition quiet (effs : list ro_effect) : Prop :=
  data_of effs = [] /\ Complete_out ∉ effs /\ forall t w, Put_tuple t w ∉ effs.

Lemma outputs_keep s s' O effs effs' : outputs s O effs -> keeps s s' -> quiet effs' -> outputs s' O (effs ++ effs').
Proof.
  clear. intros [[Ho Hr Hs Hd Hse Ha] Hp Hc Hl Hk Hm] (K1 & K2 & K3 & K4 & K5 & K6 & K7) (Q1 & Q2 & Q3).
  rewrite <- K1 in Ho. rewrite <- K2 in Hr. rewrite <- K3 in Hse. rewrite <- K4 in Ha. rewrite <- K5 in Hl.
  rewrite <- K6 in Hk. rewrite <- K7 in Hm. split; try done.
  - rewrite data_of_app, Q1, app_nil_r. by split.
  - set_solver.
  - rewrite <- Hc. set_solver.
Qed.

Lemma keeps_trans s1 s2 s3 : keeps s1 s2 -> keeps s2 s3 -> keeps s1 s3.
Proof. clear. unfold keeps. intuition congruence. Qed.

Lemma quiet_app e1 e2 : quiet e1 -> quiet e2 -> quiet (e1 ++ e2).
Proof. clear. intros (H1 & H2 & H3) (Q1 & Q2 & Q3). unfold quiet. rewrite data_of_app, H1, Q1. set_solver. Qed.

Lemma quiet_blocks l : quiet (map Get_block l).
Proof.
  clear. split_and!; [by induction l|..]; [intros (x & [=] & _)%list_elem_of_fmap|intros t w (x & [=] & _)%list_elem_of_fmap].
Qed.

Lemma fetch_hashes l n : map fetch_hash (zip_with mk_fetch l (seq n (length l))) = l.
Proof. clear. revert n. induction l as [|h l IH]; intros n; cbn; [done|]. by rewrite IH. Qed.

Lemma reverse_fetches l : map fetch_hash (reverse l) ≡ₚ map fetch_hash l.
Proof. clear. apply Permutation_map, reverse_Permutation. Qed.

(** A single effect that is no output. *)
Lemma quiet_one e : match e with Data_out _ | Complete_out | Put_tuple _ _ => False | _ => True end -> quiet [e].
Proof.
  clear. intros He. split; [by destruct e|].
  split; [intros E%list_elem_of_singleton; by subst e|]. intros t w E%list_elem_of_singleton. by subst e.
Qed.

Lemma quiet_nil : quiet [].
Proof. clear. split_and!; [done|apply not_elem_of_nil|]. intros t w. apply not_elem_of_nil. Qed.

(** No tuple is pending: what is asked belongs to skipped tuples. *)
Definition idle (s : readable_off_stream_t) (R : list request) (W : list tuple_t) (O : list (tuple_t * bool)) : Prop :=
  ro_is_deactivated s = false /\ W = map fst O ++ ro_tuple_queue s /\ Forall tuple_full W /\
  asked R ≡ₚ map fetch_hash (ro_stale_fetches s) /\ asked_tuples R = [] /\ ro_pending_fetches s = [].

Lemma start_fetches s R W O t :
  ro_pending_tuple s = Some t -> ro_is_deactivated s = false -> W = map fst O ++ t :: ro_tuple_queue s ->
  Forall tuple_full W -> asked R ≡ₚ map fetch_hash (ro_stale_fetches s) -> asked_tuples R = [] ->
  let r := _start_block_fetches s in
  protocol r.1 (R ++ requests r.2) W O /\ keeps s r.1 /\ quiet r.2 /\ ro_is_deactivated r.1 = false.
Proof.
  clear. intros Hp Hd HW Hf HR Ht. unfold _start_block_fetches. rewrite Hp. fold (tuple_hashes t). cbn [fst snd].
  assert (tuple_full t) as [Hpos Hfull]. { rewrite HW in Hf. apply Forall_app in Hf as [_ [? _]%Forall_cons]. done. }
  rewrite <- Hfull. pose proof (asked_blocks (tuple_hashes t)) as [Hb1 Hb2].
  split; [|by split_and!; try apply quiet_blocks]. split.
  - simpl ro_pending_tuple. simpl ro_tuple_queue. by rewrite Hp.
  - done.
  - rewrite asked_app, Hb1, HR. simpl ro_pending_fetches. simpl ro_stale_fetches.
    rewrite map_app, reverse_fetches, fetch_hashes. apply Permutation_app_comm.
  - simpl ro_pending_tuple. rewrite Hp, asked_tuples_app, Ht, Hb2. right. split; [done|]. exists [].
    simpl ro_pending_fetches. rewrite reverse_fetches, fetch_hashes. split_and!; try done.
    intros E%(f_equal length). rewrite length_reverse, length_zip_with, length_seq in E. simpl in E. lia.
Qed.

Lemma lookup_tuple s R W O t :
  idle (s <| ro_tuple_queue := t :: ro_tuple_queue s |>) R W O ->
  let r := _start_tuple_cache_lookup tc t s in
  protocol r.1 (R ++ requests r.2) W O /\ keeps s r.1 /\ quiet r.2 /\ ro_is_deactivated r.1 = false.
Proof.
  clear. intros (Hd & HW & Hf & HR & Ht & Hpf). unfold _start_tuple_cache_lookup. destruct tc.
  - cbn [fst snd]. split; [|by split_and!; try apply quiet_one]. split; [done|done| |].
    + rewrite asked_app. cbn [asked requests omap list_omap]. rewrite app_nil_r. simpl ro_pending_fetches.
      simpl in Hpf. by rewrite Hpf.
    + simpl ro_pending_tuple. rewrite asked_tuples_app, Ht. by left.
  - by destruct (start_fetches (s <| ro_pending_tuple := Some t |>) R W O t) as (Hpr & Hk & Hq & Hd').
Qed.

Lemma drain_queue s R W O :
  idle s R W O -> ro_pending_tuple s = None ->
  let r := _drain_tuple_queue tc s in
  protocol r.1 (R ++ requests r.2) W O /\ keeps s r.1 /\ quiet r.2 /\ ro_is_deactivated r.1 = false.
Proof.
  clear. intros Hi Hp. pose proof Hi as (Hd & HW & Hf & HR & Ht & Hpf). unfold _drain_tuple_queue. rewrite Hd, Hp, bool_decide_false by (by intros []).
  destruct (ro_tuple_queue s) as [|t q] eqn:Eq; cbn [orb fst snd done].
  - split; [|by split_and!; try apply quiet_nil]. rewrite app_nil_r. 
    split; [by rewrite Hp, Eq|done|by rewrite Hpf|by rewrite Hp].
  - destruct (lookup_tuple (s <| ro_tuple_queue := q |>) R W O t) as (Hpr & Hk & Hq & Hd'); [by split_and!|done].
Qed.

Lemma u64_succ n : u64 (u64 (Z.of_nat n) + 1) = u64 (Z.of_nat (n + 1)).
Proof. clear. unfold u64. rewrite Zplus_mod_idemp_l. f_equal. lia. Qed.

Lemma notify_quiet s : quiet (_notify_load_tuple s).2 /\ requests (_notify_load_tuple s).2 = [].
Proof. clear. unfold _notify_load_tuple. destruct (ro_load_mode s); [split; [by apply quiet_one|done]|split; [apply quiet_nil|done]]. Qed.

(** A tuple is loaded. *)
Lemma load_outputs s O effs t v :
  outputs s O effs -> buf_size v = bs -> buf_data v = decoded t ->
  let r := _tally_tuple_loaded s ;;; _render_origin_data v in
  outputs r.1 (O ++ [(t, true)]) (effs ++ r.2) /\ requests r.2 = [] /\
  exists k, same_but_sent (s <| ro_tuples_loaded := k |>) r.1.
Proof.
  intros [Hrn Hp Hc Hl Hk Hm] Hv Hd. cbv zeta. unfold _tally_tuple_loaded.
  set (s1 := s <| ro_tuples_loaded := u64 (ro_tuples_loaded s + 1) |>). rewrite andthen_eq.
  pose proof (notify_quiet s1) as [(Q1 & Q2 & Q3) Q4]. cbn [fst snd].
  change (_notify_load_tuple s1).1 with s1. set (e1 := (_notify_load_tuple s1).2) in *.
  assert (renders s1 (map decoded (loaded O)) (data_of effs)) as Hrn1 by by destruct Hrn.
  destruct (render_step s1 _ _ v Hrn1 Hv) as (Hr & Hs & Hq & Hnp & Hcm).
  set (r := _render_origin_data v s1) in *. clearbody r e1.
  pose proof (rn_data _ _ _ Hr) as Hdt. rewrite Hd in Hcm, Hr, Hdt. destruct Hs as (a & n & c & Es).
  split; [|split; [by rewrite requests_app, Q4, Hq|by eexists _, _, _, _]].
  assert (map decoded (loaded (O ++ [(t, true)])) = map decoded (loaded O) ++ [decoded t]) as El
    by by rewrite loaded_snoc, map_app.
  split; rewrite ?El, ?loaded_snoc, ?skipped_snoc, ?Nat.add_0_r.
  - by rewrite !data_of_app, Q1.
  - set_solver.
  - rewrite elem_of_app, elem_of_app, <- Hcm. split; [|by auto]. intros [Hin|[?|?]]; [|done|done]. apply Hcm.
    apply Hc in Hin. pose proof (rendered_bound (map decoded (loaded O) ++ [decoded t])) as Hb.
    rewrite <- Hdt, length_app, (rn_data _ _ _ Hrn) in Hb |- *. lia.
  - rewrite Es, length_app. simpl ro_tuples_loaded. rewrite Hl. apply u64_succ.
  - by rewrite Es.
  - by rewrite Es.
Qed.

Abbreviation stays r R W effs := (get_inv r.1 (R ++ requests r.2) W (effs ++ r.2)).

Lemma idle_prefix s R W O : idle s R W O -> map fst O `prefix_of` W.
Proof. clear. intros (_ & -> & _). by eexists. Qed.

Lemma protocol_prefix s R W O : protocol s R W O -> map fst O `prefix_of` W.
Proof. clear. intros [-> _ _ _]. by eexists. Qed.

(** From an idle state the next tuple starts. *)
Lemma drain_inv s R W O effs :
  outputs s O effs -> idle s R W O -> ro_pending_tuple s = None -> stays (_drain_tuple_queue tc s) R W effs.
Proof.
  clear. intros Ho Hi Hp. destruct (drain_queue s R W O Hi Hp) as (Hpr & Hk & Hq & Hd). exists O.
  split; [by eapply outputs_keep|]. split; [by eapply idle_prefix|done].
Qed.

Lemma stays_quiet s e R W effs (f : readable_off_stream_t -> readable_off_stream_t * list ro_effect) :
  stays (f s) (R ++ requests e) W (effs ++ e) -> stays ((s, e) ;;; f) R W effs.
Proof. clear. rewrite andthen_eq. cbn [fst snd]. by rewrite requests_app, !app_assoc. Qed.

(** A tuple is loaded and the next one starts; [clear] resets the fields of the
    tuple. *)
Lemma load_inv s e R W O effs t v clear :
  outputs s O (effs ++ e) -> requests e = [] -> buf_size v = bs -> buf_data v = decoded t ->
  (forall s', keeps s' (clear s')) ->
  (forall k a n c, idle (clear (s <| ro_tuples_loaded := k |> <| ro_offset_applied := a |> <| ro_sent_bytes := n |>
     <| ro_closed := c |>)) R W (O ++ [(t, true)]) /\
   ro_pending_tuple (clear (s <| ro_tuples_loaded := k |> <| ro_offset_applied := a |> <| ro_sent_bytes := n |>
     <| ro_closed := c |>)) = None) ->
  stays ((s, e) ;;; _tally_tuple_loaded ;;; _render_origin_data v ;;; (fun s => done (clear s)) ;;; _drain_tuple_queue tc)
    R W effs.
Proof.
  intros Ho He Hv Hd Hk Hi. destruct (load_outputs s O (effs ++ e) t v Ho Hv Hd) as (Ho' & Hq & k & a & n & c & Es).
  destruct (_tally_tuple_loaded s ;;; _render_origin_data v) as [s1 e1] eqn:E1. cbn [fst snd] in *.
  assert ((s, e) ;;; _tally_tuple_loaded ;;; _render_origin_data v ;;; (fun s => done (clear s)) = (clear s1, e ++ e1)) as ->.
  { rewrite (andthen_assoc (s, e)), (andthen_eq (s, e)). cbn [fst snd]. rewrite E1. cbn. by rewrite app_nil_r. }
  destruct (Hi k a n c) as [Hi1 Hp1]. rewrite <- Es in Hi1, Hp1. apply stays_quiet. rewrite requests_app, He, Hq, app_nil_r.
  apply (drain_inv (clear s1) R W (O ++ [(t, true)])); [|done|done].
  rewrite app_assoc, <- (app_nil_r ((effs ++ e) ++ e1)). eapply outputs_keep; [done|apply Hk|apply quiet_nil].
Qed.

Lemma decode_snoc l b :
  decode (l ++ [b]) = Some (match decode l with None => buffer_copy b | Some acc => buffer_xor acc b end).
Proof. clear. destruct l as [|x l]; [done|]. cbn [decode app]. by rewrite fold_left_app. Qed.

(** The accumulated blocks of a whole tuple. *)
Lemma answered_all t answered v :
  tuple_hashes t ≡ₚ answered -> decode (map content answered) = Some v -> buf_size v = bs /\ buf_data v = decoded t.
Proof.
  clear -content_size. intros Hp Hd.
  assert (forall l, Forall (fun b => buf_size b = bs) (map content l)) as Hf.
  { intros l. apply Forall_forall. intros x (h & -> & _)%list_elem_of_fmap. apply content_size. }
  split; [by destruct (decode_bytes bs _ _ (Hf answered) Hd)|]. unfold decoded.
  destruct (decode_permutation bs (map content answered) (map content (tuple_hashes t)) v) as (d & -> & Hdd); try done.
  by apply Permutation_map.
Qed.

(** One of the live tuple's answers. *)
Lemma live_fetch s R R' W O h :
  protocol s R W O -> asked R ≡ₚ h :: asked R' -> unlink_fetch h (ro_stale_fetches s) = None ->
  exists t l, ro_pending_tuple s = Some t /\ unlink_fetch h (ro_pending_fetches s) = Some l /\ asked_tuples R = [] /\ fetching s t.
Proof.
  clear. intros [_ _ Ha Hph] HR Hst. apply unlink_none in Hst.
  assert (h ∈ map fetch_hash (ro_pending_fetches s)) as Hin.
  { rewrite HR in Ha. assert (h ∈ map fetch_hash (ro_pending_fetches s ++ ro_stale_fetches s)) as H.
    { rewrite <- Ha. apply elem_of_cons. by left. }
    rewrite map_app, elem_of_app in H. by destruct H. }
  destruct (unlink_fetch h (ro_pending_fetches s)) as [l|] eqn:El; [|by apply unlink_none in El].
  destruct (ro_pending_tuple s) as [t|]; [|by destruct Hph as [E _]; rewrite E in Hin; apply not_elem_of_nil in Hin].
  destruct Hph as [[_ E]|[Ht Hf]]; [by rewrite E in Hin; apply not_elem_of_nil in Hin|]. by exists t, l.
Qed.

Lemma accumulate_inv s R R' W O effs b h :
  outputs s O effs -> protocol s R W O -> ro_is_deactivated s = false -> asked R ≡ₚ h :: asked R' ->
  asked_tuples R' = asked_tuples R -> unlink_fetch h (ro_stale_fetches s) = None -> blk_data b = content h ->
  stays (accumulate tc b h s) R' W effs.
Proof.
  intros Ho Hpr Hd HR Ht Hst Hb. destruct (live_fetch s R R' W O h Hpr HR Hst) as (t & l & Hp & El & HRt & Hf).
  destruct Hf as (answered & Hh & _ & Hrc & Hex & Hacc). pose proof Hpr as [HW Hfull Ha _].
  pose proof (unlink_some _ _ _ El) as Hl. rewrite Hl in Hh.
  assert (tuple_hashes t ≡ₚ (answered ++ [h]) ++ map fetch_hash l) as Hh' by by rewrite <- app_assoc.
  assert (asked R' ≡ₚ map fetch_hash (l ++ ro_stale_fetches s)) as Ha'.
  { apply (Permutation_cons_inv (a := h)). rewrite <- HR, Ha, !map_app, Hl. done. }
  pose proof (Permutation_length Hh') as Hlen. rewrite !length_app, length_map in Hlen. cbn [length] in Hlen.
  unfold accumulate, _prune_answered_fetch. rewrite El. cbv zeta.
  set (s1 := s <| ro_pending_fetches := l |>). change (ro_xor_accumulator s1) with (ro_xor_accumulator s).
  change (ro_blocks_received s1) with (ro_blocks_received s). rewrite Hacc, Hb, Hrc.
  assert (decode (map content (answered ++ [h])) = Some (match decode (map content answered) with
    | None => buffer_copy (content h) | Some acc => buffer_xor acc (content h) end)) as Hdec
    by (rewrite map_app; apply decode_snoc).
  set (v := match decode (map content answered) with None => _ | Some _ => _ end) in *.
  set (s2 := s1 <| ro_xor_accumulator := Some v |> <| ro_blocks_received := S (length answered) |>).
  change (ro_blocks_expected s2) with (ro_blocks_expected s). change (ro_blocks_received s2) with (S (length answered)).
  destruct (Nat.leb_spec (ro_blocks_expected s) (S (length answered))).
  - assert (l = []) as -> by (apply nil_length_inv; lia). cbn [map] in Hh'. rewrite app_nil_r in Hh'.
    destruct (answered_all t _ v Hh' Hdec) as [Hv Hvd]. unfold _finish_decode_and_render.
    change (ro_xor_accumulator s2) with (Some v). cbn iota. change (ro_pending_tuple s2) with (ro_pending_tuple s). rewrite Hp.
    apply (load_inv s2 _ R' W O effs t v (fun s => s <| ro_xor_accumulator := None |> <| ro_pending_tuple := None |>
      <| ro_blocks_expected := 0%nat |> <| ro_blocks_received := 0%nat |> <| ro_pending_fetches := [] |>)); try done.
    + destruct Ho as [[] Hputs ? ? ? ?]. destruct tc; [|by rewrite app_nil_r]. split; try done.
      * by rewrite data_of_app, app_nil_r.
      * intros t' w [?|Ein%list_elem_of_singleton]%elem_of_app; [by eauto|]. simplify_eq. by exists t.
      * set_solver.
    + by destruct tc.
    + intros k a n c. split; [|done]. split_and!; try done; [|by rewrite Ht].
      simpl ro_tuple_queue. rewrite map_app, <- app_assoc. by rewrite HW, Hp.
  - exists O. rewrite !app_nil_r. assert (outputs s2 O (effs ++ [])) as Ho2 by (eapply outputs_keep; [done|done|apply quiet_nil]).
    rewrite app_nil_r in Ho2. split; [done|]. split; [by eapply protocol_prefix|]. intros _. split; try done.
    change (ro_pending_tuple (done s2).1) with (ro_pending_tuple s). rewrite Hp, Ht. right. split; [done|].
    exists (answered ++ [h]). split_and!; try done; [|by rewrite length_app, Nat.add_1_r].
    simpl ro_pending_fetches. intros ->. cbn [map length] in Hlen. lia.
Qed.

(** A missing block: its tuple is skipped. *)
Lemma skip_inv s R R' W O effs h :
  outputs s O effs -> protocol s R W O -> ro_is_deactivated s = false -> load_mode = true -> asked R ≡ₚ h :: asked R' ->
  asked_tuples R' = asked_tuples R -> unlink_fetch h (ro_stale_fetches s) = None ->
  stays (_skip_pending_tuple tc (_prune_answered_fetch h s)) R' W effs.
Proof.
  clear. intros Ho Hpr Hd Hm HR Ht Hst. destruct (live_fetch s R R' W O h Hpr HR Hst) as (t & l & Hp & El & HRt & _).
  pose proof Hpr as [HW Hfull Ha _]. pose proof (unlink_some _ _ _ El) as Hl.
  unfold _skip_pending_tuple, _prune_answered_fetch. rewrite El.
  match goal with |- context [_notify_load_tuple ?x] => set (s1 := x) end. destruct (notify_quiet s1) as [Hq Hrq].
  change (_notify_load_tuple s1) with (s1, (_notify_load_tuple s1).2). set (e := (_notify_load_tuple s1).2) in *.
  apply stays_quiet. rewrite Hrq, app_nil_r. apply (drain_inv s1 R' W (O ++ [(t, false)])).
  - assert (outputs s1 (O ++ [(t, false)]) effs) as Ho1.
    { destruct Ho as [[] Hputs Hc Hlo Hsk [Hmo Hnz]]. assert (loaded (O ++ [(t, false)]) = loaded O) as Elo.
      { rewrite loaded_snoc. apply app_nil_r. }
      split; rewrite ?Elo; try done. 2: { split; [done|by rewrite Hm]. }
      rewrite skipped_snoc, <- u64_succ, <- Hsk. done. }
    eapply outputs_keep; [exact Ho1|done|done].
  - split_and!; try done; [| |by rewrite Ht].
    + rewrite map_app, <- app_assoc. by rewrite HW, Hp.
    + simpl ro_stale_fetches. apply (Permutation_cons_inv (a := h)). rewrite <- HR, Ha, !map_app, reverse_fetches, Hl. done.
  - done.
Qed.

(** The answer to a fetch of a skipped tuple is dropped. *)
Lemma stale_inv s R R' W O effs h l :
  outputs s O effs -> protocol s R W O -> asked R ≡ₚ h :: asked R' -> asked_tuples R' = asked_tuples R ->
  unlink_fetch h (ro_stale_fetches s) = Some l -> get_inv (s <| ro_stale_fetches := l |>) R' W effs.
Proof.
  clear. intros Ho [HW Hfull Ha Hph] HR Ht El. pose proof (unlink_some _ _ _ El) as Hl. exists O.
  assert (outputs (s <| ro_stale_fetches := l |>) O (effs ++ [])) as Ho1
    by (eapply outputs_keep; [done|done|apply quiet_nil]). rewrite app_nil_r in Ho1.
  split; [done|]. split; [rewrite HW; by eexists|]. intros _. split; try done; [|by rewrite Ht].
  simpl ro_stale_fetches. simpl ro_pending_fetches. apply (Permutation_cons_inv (a := h)).
  rewrite <- HR, Ha, !map_app, Hl. symmetry. apply Permutation_middle.
Qed.

(** A live fetch is asked for elsewhere. *)
Lemma forward_inv s R R' W O effs h e st :
  outputs s O effs -> protocol s R W O -> asked R ≡ₚ h :: asked R' -> asked_tuples R' = asked_tuples R ->
  quiet [e] -> asked (requests [e]) = [h] -> asked_tuples (requests [e]) = [] ->
  stays (s <| ro_state := st |>, [e]) R' W effs.
Proof.
  clear. intros Ho [HW Hfull Ha Hph] HR Ht Hq He Het. exists O. cbn [fst snd].
  split; [by eapply outputs_keep|]. split; [rewrite HW; by eexists|]. intros _. split; try done.
  - rewrite asked_app, He, Permutation_app_comm. cbn [app]. by rewrite <- HR.
  - by rewrite asked_tuples_app, Het, app_nil_r, Ht.
Qed.

(** A missing block outside load mode: the stream ends. *)
Lemma fail_inv s R W O effs R' :
  outputs s O effs -> protocol s R W O -> ro_is_deactivated s = false -> stays (fail_pending s) R' W effs.
Proof.
  clear. intros Ho [HW _ _ _] Hd. unfold fail_pending, ro_deactivate. simpl ro_is_deactivated. rewrite Hd. exists O. cbn [fst snd].
  split; [|split; [rewrite HW; by eexists|done]]. eapply outputs_keep; [done|done|].
  apply (quiet_app [_] [_]); by apply quiet_one.
Qed.

Lemma block_answer_inv s R R' W O effs h (res : option block_t) :
  outputs s O effs -> protocol s R W O -> ro_is_deactivated s = false -> asked R ≡ₚ h :: asked R' ->
  asked_tuples R' = asked_tuples R -> (forall b, res = Some b -> blk_data b = content h) ->
  stays (on_block_result tc network res h s) R' W effs /\
  stays (on_find_result tc true res h s) R' W effs /\ stays (on_find_result tc false None h s) R' W effs.
Proof.
  intros Ho Hpr Hd HR Ht Hb. unfold on_block_result, on_find_result, _consume_stale_fetch. rewrite Hd.
  destruct (unlink_fetch h (ro_stale_fetches s)) as [l|] eqn:El.
  { pose proof (stale_inv s R R' W O effs h l Ho Hpr HR Ht El) as Hs. cbn [done fst snd]. by rewrite !app_nil_r. }
  pose proof (proj1 (out_mode _ _ _ Ho)) as Hm. rewrite Hm.
  destruct res as [b'|].
  - specialize (Hb b' eq_refl). split; [|split; [|destruct load_mode eqn:Em]].
    1-2: by eapply accumulate_inv. + by eapply skip_inv. + by eapply fail_inv.
  - split; [|split].
    + destruct network; [by eapply forward_inv; try apply quiet_one|]. destruct load_mode eqn:Em; [by eapply skip_inv|by eapply fail_inv].
    + by eapply forward_inv; try apply quiet_one.
    + destruct load_mode eqn:Em; [by eapply skip_inv|by eapply fail_inv].
Qed.

Lemma pending_lookup s R W O t R' :
  protocol s R W O -> asked_tuples R ≡ₚ t :: asked_tuples R' ->
  ro_pending_tuple s = Some t /\ asked_tuples R' = [] /\ ro_pending_fetches s = [].
Proof.
  clear. intros [_ _ _ Hph] Ht. destruct (ro_pending_tuple s) as [t'|].
  - destruct Hph as [[E Hpf]|[E _]]; rewrite E in Ht; [|by apply Permutation_nil_cons in Ht].
    apply Permutation_length_1_inv in Ht. by simplify_eq.
  - destruct Hph as (_ & _ & E). rewrite E in Ht. by apply Permutation_nil_cons in Ht.
Qed.

(** The answer to the lookup of the pending tuple. *)
Lemma tuple_answer_inv s R R' W O effs t res :
  outputs s O effs -> protocol s R W O -> ro_is_deactivated s = false -> asked R' = asked R ->
  asked_tuples R ≡ₚ t :: asked_tuples R' -> (forall v, res = Some v -> buf_size v = bs /\ buf_data v = decoded t) ->
  stays (on_tuple_result tc res s) R' W effs.
Proof.
  intros Ho Hpr Hd HR Ht Hv. pose proof Hpr as [HW Hfull Ha Hph]. unfold on_tuple_result. rewrite Hd.
  destruct (pending_lookup s R W O t R' Hpr Ht) as (Hp & Ht' & Hpf).
  rewrite Hp in HW. rewrite Hpf in Ha. destruct res as [v|].
  - destruct (Hv v eq_refl) as [Hs Hdv].
    assert (_tally_tuple_loaded s = (s, []) ;;; _tally_tuple_loaded) as -> by (rewrite andthen_eq; cbn [fst snd app]; by destruct (_tally_tuple_loaded s)).
    apply (load_inv s [] R' W O effs t v (fun s => s <| ro_pending_tuple := None |>)); rewrite ?app_nil_r; try done.
    intros k a n c. split; [|done]. split_and!; try done; [|by rewrite HR].
    rewrite map_app, <- app_assoc. by rewrite HW.
  - destruct (start_fetches s R' W O t) as (Hpr' & Hk & Hq & Hd'); try done; [by rewrite HR|].
    exists O. split; [by eapply outputs_keep|]. split; [rewrite HW; by eexists|done].
Qed.

Lemma write_inv s R W O effs t :
  outputs s O effs -> protocol s R W O -> ro_is_deactivated s = false -> tuple_full t ->
  stays (on_tuple_write tc t s) R (W ++ [t]) effs.
Proof.
  clear. intros Ho Hpr Hd Hft. pose proof Hpr as [HW Hfull Ha Hph]. unfold on_tuple_write. rewrite Hd.
  assert (map fst O `prefix_of` W ++ [t]) as Hpre by (rewrite HW, <- app_assoc; by eexists).
  assert (Forall tuple_full (W ++ [t])) as Hf by (apply Forall_app; split; [done|by apply Forall_singleton]).
  exists O. destruct (ro_pending_tuple s) as [t'|] eqn:Hp.
  - rewrite bool_decide_true by by eexists. cbn [done fst snd]. split; [eapply outputs_keep; [done|done|apply quiet_nil]|].
    rewrite app_nil_r. split; [done|]. intros _. split; try done.
    + simpl ro_pending_tuple. simpl ro_tuple_queue. rewrite Hp, HW. by rewrite <- !app_assoc.
    + simpl ro_pending_tuple. by rewrite Hp.
  - rewrite bool_decide_false by by intros []. destruct Hph as (Hpf & Hq & Ht). rewrite Hq in HW.
    destruct (lookup_tuple s R (W ++ [t]) O t) as (Hpr' & Hk & Hq' & Hd').
    { split_and!; try done; [|by rewrite Hpf in Ha]. simpl ro_tuple_queue. rewrite Hq, HW. cbn. by rewrite app_nil_r. }
    split; [by eapply outputs_keep|]. done.
Qed.

Lemma middle_hash (R1 R2 : list request) q h :
  asked [q] = [h] -> asked_tuples [q] = [] ->
  asked (R1 ++ q :: R2) ≡ₚ h :: asked (R1 ++ R2) /\ asked_tuples (R1 ++ R2) = asked_tuples (R1 ++ q :: R2).
Proof.
  clear. intros Hq Ht. rewrite (cons_middle q R1 R2), !asked_app, !asked_tuples_app, Hq, Ht. split; [|done].
  symmetry. apply Permutation_middle.
Qed.

Lemma middle_tuple (R1 R2 : list request) t :
  asked (R1 ++ R2) = asked (R1 ++ Ask_tuple t :: R2) /\
  asked_tuples (R1 ++ Ask_tuple t :: R2) ≡ₚ t :: asked_tuples (R1 ++ R2).
Proof.
  clear. rewrite (cons_middle _ R1 R2), !asked_app, !asked_tuples_app. split; [done|]. symmetry. apply Permutation_middle.
Qed.

Lemma start_inv : get_inv (readable_off_stream_create_ex ori load_mode) [] [] [].
Proof.
  assert (rendered [] = []) as E0 by (unfold rendered; cbn [concat]; by rewrite drop_nil, take_nil).
  exists []. split; [|split; [done|by intros _; split]]. split; try done.
  - split; try done; [|by right]. simpl. lia.
  - intros t w H. by apply not_elem_of_nil in H.
  - cbn [loaded map List.filter]. rewrite E0. split; [intros H; by apply not_elem_of_nil in H|]. cbn [length]. lia.
Qed.

Lemma get_reach_inv s R W effs : get_reach s R W effs -> get_inv s R W effs.
Proof.
  induction 1 as [|s R W effs t _ (O & Ho & _ & Hpr) Hd Hf|s R1 q R2 W effs m _ (O & Ho & _ & Hpr) Hd Hans].
  - apply start_inv.
  - by eapply write_inv; eauto.
  - specialize (Hpr Hd). destruct Hans as [t v Hs Hv|t|h b Hb|h|h b Hb|h|h]; cbn [readable_off_stream_dispatch].
    1-2: destruct (middle_tuple R1 R2 t); eapply tuple_answer_inv; try done; by intros ? [= <-].
    all: match type of Hpr with protocol _ (_ ++ ?q :: _) _ _ => destruct (middle_hash R1 R2 q h) as [H1 H2]; try done end.
    1: eapply (block_answer_inv s _ _ W O effs h (Some b)); try done; by intros ? [= <-].
    1: eapply (block_answer_inv s _ _ W O effs h None); done.
    1: eapply (block_answer_inv s _ _ W O effs h (Some b)); try done; by intros ? [= <-].
    all: eapply (block_answer_inv s _ _ W O effs h None); done.
Qed.

(** ** Every answer that is found brings the get closer to its end *)

Definition tuple_work (t : tuple_t) : nat := S (length (tuple_hashes t)).
Definition tuples_work (ts : list tuple_t) : nat := list_sum (map tuple_work ts).
Definition work (R : list request) (queue : list tuple_t) : nat :=
  length (asked R) + tuples_work (asked_tuples R) + tuples_work queue.

Lemma tuples_work_app l1 l2 : tuples_work (l1 ++ l2) = (tuples_work l1 + tuples_work l2)%nat.
Proof. clear. unfold tuples_work. by rewrite map_app, list_sum_app. Qed.

Lemma work_app R1 R2 queue : work (R1 ++ R2) queue = (work R1 [] + work R2 queue)%nat.
Proof. clear. unfold work. rewrite asked_app, asked_tuples_app, length_app, tuples_work_app. cbn. lia. Qed.

Lemma work_middle R1 q R2 queue : work (R1 ++ q :: R2) queue = (work [q] [] + work (R1 ++ R2) queue)%nat.
Proof. clear. rewrite (cons_middle q R1 R2), !work_app. lia. Qed.

Definition work_after (r : readable_off_stream_t * list ro_effect) : nat := work (requests r.2) (ro_tuple_queue r.1).

Lemma start_fetches_work s t : ro_pending_tuple s = Some t ->
  work_after (_start_block_fetches s) = (length (tuple_hashes t) + tuples_work (ro_tuple_queue s))%nat.
Proof.
  clear. intros Hp. unfold _start_block_fetches, work_after. rewrite Hp. fold (tuple_hashes t). cbn [fst snd]. unfold work.
  destruct (asked_blocks (tuple_hashes t)) as [-> ->]. simpl ro_tuple_queue. change (tuples_work []) with 0%nat. lia.
Qed.

Lemma drain_work s : (work_after (_drain_tuple_queue tc s) <= tuples_work (ro_tuple_queue s))%nat.
Proof.
  clear. unfold _drain_tuple_queue. destruct (ro_is_deactivated s || _); [done|].
  destruct (ro_tuple_queue s) as [|t q] eqn:Eq; [cbn; unfold work_after, work; cbn [fst snd]; rewrite Eq; done|].
  unfold _start_tuple_cache_lookup. destruct tc.
  - unfold work_after, work. cbn. lia.
  - erewrite start_fetches_work by reflexivity. cbn. lia.
Qed.

Lemma render_queue v s : ro_tuple_queue (_render_origin_data v s).1 = ro_tuple_queue s /\ requests (_render_origin_data v s).2 = [].
Proof.
  clear. unfold _render_origin_data. destruct (render_window _ s) as [a n]. rewrite andthen_eq. cbn [fst snd].
  destruct (_ <=? _); destruct (slice _ _ _); done.
Qed.

(** Loading the pending tuple. *)
Lemma load_work s e v clear :
  requests e = [] -> (forall s, ro_tuple_queue (clear s) = ro_tuple_queue s) ->
  (work_after ((s, e) ;;; _tally_tuple_loaded ;;; _render_origin_data v ;;; (fun s => done (clear s)) ;;; _drain_tuple_queue tc)
   <= tuples_work (ro_tuple_queue s))%nat.
Proof.
  clear. intros He Hc. unfold work_after. rewrite !andthen_eq. cbn [fst snd done]. rewrite !requests_app, He.
  destruct (notify_quiet (s <| ro_tuples_loaded := u64 (ro_tuples_loaded s + 1) |>)) as [_ Hn].
  unfold _tally_tuple_loaded at 1. rewrite Hn. destruct (render_queue v (_tally_tuple_loaded s).1) as [Hq ->]. cbn [app].
  set (s1 := (_render_origin_data v (_tally_tuple_loaded s).1).1) in *.
  etransitivity; [apply (drain_work (clear s1))|]. rewrite Hc, Hq. done.
Qed.

(** An answer that has what was asked for, or a miss of the tuple cache. *)
Definition found_message (m : ro_message) : Prop :=
  match m with
  | TUPLE_CACHE_GET_RESULT _ | RO_CACHE_GET_RESULT (Some _) _ | RO_NETWORK_FIND_BLOCK_RESULT true (Some _) _ => True
  | _ => False
  end.

Abbreviation config := (readable_off_stream_t * list request * list ro_effect)%type.

Inductive answered_found : config -> config -> Prop :=
| answered_one s R1 q R2 effs m :
    answer q m -> found_message m ->
    let r := readable_off_stream_dispatch tc network s m in
    answered_found (s, R1 ++ q :: R2, effs) (r.1, (R1 ++ R2) ++ requests r.2, effs ++ r.2).

Lemma accumulate_work s b h : (work_after (accumulate tc b h s) <= tuples_work (ro_tuple_queue s))%nat.
Proof.
  clear. unfold accumulate. assert (ro_tuple_queue (_prune_answered_fetch h s) = ro_tuple_queue s) as Hq.
  { unfold _prune_answered_fetch. by destruct (unlink_fetch _ _). }
  match goal with |- context [_finish_decode_and_render tc ?x] => set (s1 := x) end.
  assert (ro_tuple_queue s1 = ro_tuple_queue s) as Hq1 by exact Hq.
  rewrite <- Hq1. destruct (_ <=? _)%nat; [|apply Nat.le_refl].
  unfold _finish_decode_and_render. destruct (ro_xor_accumulator s1); [|apply Nat.le_refl].
  apply (load_work s1 _ _ (fun s => s <| ro_xor_accumulator := None |> <| ro_pending_tuple := None |>
    <| ro_blocks_expected := 0%nat |> <| ro_blocks_received := 0%nat |> <| ro_pending_fetches := [] |>)); [by destruct tc|done].
Qed.

Lemma block_work s b h r :
  ro_is_deactivated s = false ->
  r = on_block_result tc network (Some b) h s \/ r = on_find_result tc true (Some b) h s ->
  (work_after r <= tuples_work (ro_tuple_queue s))%nat.
Proof.
  clear. intros Hd Hr. assert (r = match _consume_stale_fetch h s with Some s => done s | None => accumulate tc b h s end) as ->.
  { unfold on_block_result, on_find_result in Hr. rewrite Hd in Hr. by destruct Hr. }
  unfold _consume_stale_fetch. destruct (unlink_fetch _ _); [done|]. apply accumulate_work.
Qed.

Lemma tuple_result_work s R W O t R' res :
  protocol s R W O -> ro_is_deactivated s = false -> asked_tuples R ≡ₚ t :: asked_tuples R' ->
  (work_after (on_tuple_result tc res s) <= length (tuple_hashes t) + tuples_work (ro_tuple_queue s))%nat.
Proof.
  clear. intros Hpr Hd Ht. unfold on_tuple_result. rewrite Hd. destruct res as [v|].
  - assert (_tally_tuple_loaded s = (s, []) ;;; _tally_tuple_loaded) as -> by (rewrite andthen_eq; cbn [fst snd app]; by destruct (_tally_tuple_loaded s)).
    etransitivity; [apply (load_work s [] v (fun s => s <| ro_pending_tuple := None |>)); done|]. lia.
  - destruct (pending_lookup s R W O t R' Hpr Ht) as (Hp & _ & _). by rewrite (start_fetches_work s t).
Qed.

Lemma found_work s R1 q R2 W O m :
  protocol s (R1 ++ q :: R2) W O -> ro_is_deactivated s = false -> answer q m -> found_message m ->
  let r := readable_off_stream_dispatch tc network s m in
  (work ((R1 ++ R2) ++ requests r.2) (ro_tuple_queue r.1) < work (R1 ++ q :: R2) (ro_tuple_queue s))%nat.
Proof.
  clear. intros Hpr Hd Ha Hf. cbv zeta. rewrite work_app, work_middle.
  fold (work_after (readable_off_stream_dispatch tc network s m)).
  assert (forall R queue, work R queue = work R [] + tuples_work queue)%nat as Hw by (intros; unfold work; cbn; lia).
  rewrite (Hw (R1 ++ R2) (ro_tuple_queue s)).
  destruct Ha as [t v Hs Hv|t|h b Hb|h|h b Hb|h|h]; try done; cbn [readable_off_stream_dispatch].
  1-2: pose proof (tuple_result_work s _ W O t (R1 ++ R2) (Some v) Hpr Hd (proj2 (middle_tuple R1 R2 t))) as H || 
       pose proof (tuple_result_work s _ W O t (R1 ++ R2) None Hpr Hd (proj2 (middle_tuple R1 R2 t))) as H;
       change (work [Ask_tuple t] []) with (S (length (tuple_hashes t)) + 0 + 0)%nat; lia.
  all: pose proof (block_work s b h _ Hd (or_introl eq_refl)) as H1; pose proof (block_work s b h _ Hd (or_intror eq_refl)) as H2.
  1: change (work [Ask_block h] []) with 1%nat; lia.
  change (work [Ask_network h] []) with 1%nat; lia.
Qed.

Lemma drain_live s : ro_is_deactivated (_drain_tuple_queue tc s).1 = ro_is_deactivated s.
Proof.
  clear. unfold _drain_tuple_queue. destruct (_ || _); [done|]. destruct (ro_tuple_queue s) as [|t q]; [done|].
  unfold _start_tuple_cache_lookup. by destruct tc.
Qed.

Lemma load_live s e v clear :
  (forall s, ro_is_deactivated (clear s) = ro_is_deactivated s) ->
  ro_is_deactivated ((s, e) ;;; _tally_tuple_loaded ;;; _render_origin_data v ;;; (fun s => done (clear s)) ;;;
    _drain_tuple_queue tc).1 = ro_is_deactivated s.
Proof.
  clear. intros Hc. rewrite !andthen_eq. cbn [fst snd done]. rewrite drain_live, Hc. unfold _render_origin_data.
  destruct (render_window _ _) as [a n]. rewrite andthen_eq. cbn [fst snd]. by destruct (_ <=? _).
Qed.

Lemma accumulate_live s b h : ro_is_deactivated (accumulate tc b h s).1 = ro_is_deactivated s.
Proof.
  clear. unfold accumulate. match goal with |- context [_finish_decode_and_render tc ?x] => set (s1 := x) end.
  assert (ro_is_deactivated s1 = ro_is_deactivated s) as <-.
  { subst s1. simpl. unfold _prune_answered_fetch. by destruct (unlink_fetch _ _). }
  destruct (_ <=? _)%nat; [|done]. unfold _finish_decode_and_render. destruct (ro_xor_accumulator s1); [|done].
  by apply (load_live s1 _ _ (fun s => s <| ro_xor_accumulator := None |> <| ro_pending_tuple := None |>
    <| ro_blocks_expected := 0%nat |> <| ro_blocks_received := 0%nat |> <| ro_pending_fetches := [] |>)).
Qed.

(** What is found does not end the stream. *)
Lemma found_live s m : found_message m -> ro_is_deactivated s = false ->
  ro_is_deactivated (readable_off_stream_dispatch tc network s m).1 = false.
Proof.
  clear. destruct m as [t|res|[b|] h|[] [b|] h|]; intros Hf Hd; try done; cbn [readable_off_stream_dispatch];
    unfold on_tuple_result, on_block_result, on_find_result, _consume_stale_fetch; rewrite ?Hd;
    try (destruct (unlink_fetch h _); [done|by rewrite accumulate_live]).
  destruct res as [v|]; [|unfold _start_block_fetches; by destruct (ro_pending_tuple s)].
  assert (_tally_tuple_loaded s = (s, []) ;;; _tally_tuple_loaded) as -> by (rewrite andthen_eq; cbn [fst snd app]; by destruct (_tally_tuple_loaded s)).
  by rewrite (load_live s [] v (fun s => s <| ro_pending_tuple := None |>)).
Qed.

(** Nothing is asked for: every tuple is dealt with. *)
Lemma quiescent s W O : protocol s [] W O -> map fst O = W.
Proof.
  clear. intros [HW _ Ha Hph]. destruct (ro_pending_tuple s) as [t|].
  - destruct Hph as [[[=] _]|[_ (an & _ & Hne & _)]]. apply Permutation_nil_l in Ha. rewrite map_app in Ha.
    by destruct (ro_pending_fetches s).
  - destruct Hph as (_ & Hq & _). rewrite Hq in HW. cbn in HW. by rewrite app_nil_r in HW.
Qed.

Lemma loaded_all O : skipped O = 0%nat -> loaded O = map fst O.
Proof.
  clear. unfold skipped, loaded. induction O as [|[t []] O IH]; [done| |by intros [=]]. cbn. intros H. by rewrite IH.
Qed.

(** C12: whatever the order of the answers, and whether the blocks come from the
    tuple cache, the block cache or the network, a get passes on the bytes of the
    file: at any time the data is that of a prefix of the tuples written, from
    the file offset on and not past the final byte.  It completes exactly when
    the final byte is reached, and when it waits for no answer every tuple has
    been passed on. *)
Theorem get_renders_file s R W effs :
  load_mode = false -> get_reach s R W effs ->
  exists n, (n <= length W)%nat /\ data_of effs = rendered (map decoded (take n W)) /\
    (Complete_out ∈ effs <-> length (data_of effs) = Z.to_nat (final - offset)) /\
    (ro_is_deactivated s = false -> R = [] -> n = length W).
Proof.
  intros Hm Hr. destruct (get_reach_inv s R W effs Hr) as (O & [Hrn _ Hc _ _ [_ Hsk]] & [rest Hpre] & Hpr).
  pose proof (rn_data _ _ _ Hrn) as Hd. rewrite (loaded_all O (Hsk Hm)) in *. exists (length (map fst O)).
  assert (take (length (map fst O)) W = map fst O) as -> by by rewrite Hpre, take_app_length.
  split; [rewrite Hpre, length_app; lia|]. split; [done|]. split; [by rewrite Hc, Hd|].
  intros Hde ->. by rewrite (quiescent s W O (Hpr Hde)).
Qed.

(** C15: missing blocks never corrupt anything.  In load mode, when the blocks of
    any tuples are missing and their late answers come in any order, mixed with
    those of the live tuple, every value given to the tuple cache is the
    contents of its tuple, the data passed on is that of the tuples that were
    loaded, and the two counters say how many were loaded and skipped. *)
Theorem load_never_corrupts s R W effs :
  get_reach s R W effs ->
  (forall t w, Put_tuple t w ∈ effs -> exists t', t = Some t' /\ buf_data w = decoded t') /\
  exists O, map fst O `prefix_of` W /\ data_of effs = rendered (map decoded (loaded O)) /\
    ro_tuples_loaded s = u64 (Z.of_nat (length (loaded O))) /\ ro_tuples_skipped s = u64 (Z.of_nat (skipped O)) /\
    (ro_is_deactivated s = false -> R = [] -> map fst O = W).
Proof.
  intros Hr. destruct (get_reach_inv s R W effs Hr) as (O & [Hrn Hp _ Hl Hsk _] & Hpre & Hpr). split; [done|].
  exists O. split_and!; try done; [by apply (rn_data _ _ _ Hrn)|]. intros Hde ->. by apply (quiescent s W O (Hpr Hde)).
Qed.

(** C14: a get whose blocks are found finishes.  From any state of a get, at most
    [work] answers that have what was asked for can come; after the last one the
    data of all the tuples written has been passed on. *)
Theorem get_completes s R W effs :
  load_mode = false -> get_reach s R W effs -> ro_is_deactivated s = false ->
  (forall n c, nsteps answered_found n (s, R, effs) c -> (n <= work R (ro_tuple_queue s))%nat) /\
  (forall c, rtc answered_found (s, R, effs) c -> nf answered_found c -> data_of c.2 = rendered (map decoded W)).
Proof.
  intros Hm Hr Hd. assert (forall n c, nsteps answered_found n (s, R, effs) c ->
    get_reach c.1.1 c.1.2 W c.2 /\ ro_is_deactivated c.1.1 = false /\
    (n + work c.1.2 (ro_tuple_queue c.1.1) <= work R (ro_tuple_queue s))%nat) as Hrun.
  { induction n as [|n IH]; intros c Hn.
    - inversion Hn; subst. by split_and!.
    - apply nsteps_inv_r in Hn as (c1 & Hn & Hst). destruct (IH c1 Hn) as (Hr1 & Hd1 & Hw1). destruct Hst as [s1 R1 q R2 effs1 m Ha Hf]. cbn [fst snd] in *.
      destruct (get_reach_inv _ _ _ _ Hr1) as (O & _ & _ & Hpr). specialize (Hpr Hd1).
      pose proof (found_work s1 R1 q R2 W O m Hpr Hd1 Ha Hf) as Hlt. cbv zeta in Hlt.
      split_and!; [by apply (get_answer s1 R1 q R2 W effs1 m)|by apply found_live|].
      fold r in Hlt. lia. }
  split; [intros n c Hn; destruct (Hrun n c Hn) as (_ & _ & ?); lia|].
  intros c [n Hn]%rtc_nsteps Hnf. destruct (Hrun n c Hn) as (Hr1 & Hd1 & _). destruct c as [[s1 R1] effs1]. cbn [fst snd] in *.
  assert (R1 = []) as ->.
  { destruct R1 as [|q R1]; [done|]. exfalso. apply Hnf. destruct q as [t|h|h].
    - eexists. apply (answered_one s1 [] _ R1 _ _ (answer_no_tuple t)). done.
    - eexists. by apply (answered_one s1 [] _ R1 _ _ (answer_block h (mk_block (content h) (content h)) eq_refl)).
    - eexists. by apply (answered_one s1 [] _ R1 _ _ (answer_found h (mk_block (content h) (content h)) eq_refl)). }
  destruct (get_reach_inv _ _ _ _ Hr1) as (O & [Hrn _ _ _ _ [_ Hsk]] & _ & Hpr). rewrite (rn_data _ _ _ Hrn), (loaded_all O (Hsk Hm)).
  by rewrite (quiescent s1 W O (Hpr Hd1)).
Qed.
End Get.

(** ** An example *)

Definition get_key (x : Z) : bytes := replicate 32 x.
Definition get_content (h : bytes) : buffer_t := exact_buffer (replicate 136 (hd 0 h)).
Definition get_tuple (x y : Z) : tuple_t := tuple_of 2 [get_key x; get_key y].
Definition get_block (x : Z) : block_t := mk_block (get_content (get_key x)) (exact_buffer (get_key x)).

Definition get_ori : ori_t := {|
  ori_descriptor_hash := None; ori_descriptor_offset := 0; ori_block_type := nano; ori_tuple_size := 2;
  ori_file_offset := 100; ori_final_byte := 200 |}.

Lemma get_content_size h : buf_size (get_content h) = Z.to_nat (block_size (ori_block_type get_ori)).
Proof. apply length_replicate. Qed.

Lemma get_tuple_full x y : tuple_full (get_tuple x y).
Proof. split; [cbn; lia|done]. Qed.

Lemma get_reach_eq tc network content ori load_mode s R R' W effs :
  get_reach tc network content ori load_mode s R W effs -> R = R' ->
  get_reach tc network content ori load_mode s R' W effs.
Proof. by intros H <-. Qed.

Section Example.
Variable load_mode : bool.

Definition get_step (s : readable_off_stream_t) (m : ro_message) := readable_off_stream_dispatch false false s m.
Definition get_0 := readable_off_stream_create_ex get_ori load_mode.

(** Two tuples; the answers for the first come in the other order. *)
Definition get_1 := get_step get_0 (OFF_STREAM_WRITE (get_tuple 1 2)).
Definition get_2 := get_step get_1.1 (OFF_STREAM_WRITE (get_tuple 3 2)).
Definition get_3 := get_step get_2.1 (RO_CACHE_GET_RESULT (Some (get_block 2)) (get_key 2)).
Definition get_4 := get_step get_3.1 (RO_CACHE_GET_RESULT (Some (get_block 1)) (get_key 1)).

Lemma get_2_reach :
  get_reach false false get_content get_ori load_mode get_2.1 [Ask_block (get_key 1); Ask_block (get_key 2)]
    (([] ++ [get_tuple 1 2]) ++ [get_tuple 3 2]) (([] ++ get_1.2) ++ get_2.2).
Proof.
  eapply get_reach_eq.
  - apply (get_write false false get_content get_ori load_mode get_1.1 ([] ++ requests get_1.2)); [|done|apply get_tuple_full].
    apply (get_write false false get_content get_ori load_mode get_0); [apply get_start|done|apply get_tuple_full].
  - by vm_compute.
Qed.
End Example.

Lemma get_4_reach :
  get_reach false false get_content get_ori false (get_4 false).1 [Ask_block (get_key 3); Ask_block (get_key 2)]
    (([] ++ [get_tuple 1 2]) ++ [get_tuple 3 2])
    (((([] ++ (get_1 false).2) ++ (get_2 false).2) ++ (get_3 false).2) ++ (get_4 false).2).
Proof.
  eapply get_reach_eq.
  - apply (get_answer false false get_content get_ori false (get_3 false).1 [] (Ask_block (get_key 1)) []); [|by vm_compute|by constructor].
    eapply get_reach_eq.
    + apply (get_answer false false get_content get_ori false (get_2 false).1 [Ask_block (get_key 1)] (Ask_block (get_key 2)) []);
        [apply get_2_reach|by vm_compute|by constructor].
    + by vm_compute.
  - by vm_compute.
Qed.

Lemma get_range : 0 <= ori_file_offset get_ori < ori_final_byte get_ori /\ ori_final_byte get_ori < 2 ^ 63.
Proof. cbn. lia. Qed.

Lemma get_renders_file_witness :
  exists n, (n <= 2)%nat /\
    data_of (((([] ++ (get_1 false).2) ++ (get_2 false).2) ++ (get_3 false).2) ++ (get_4 false).2) =
      rendered get_ori (map (decoded get_content) (take n (([] ++ [get_tuple 1 2]) ++ [get_tuple 3 2]))).
Proof.
  destruct (get_renders_file false false get_content get_ori false get_content_size (proj1 get_range) (proj2 get_range)
    _ _ _ _ eq_refl get_4_reach) as (n & Hn & Hd & _). exists n. split; [exact Hn|exact Hd].
Defined.

Lemma get_completes_witness :
  ro_is_deactivated (get_4 false).1 = false /\
  (forall n c, nsteps (answered_found false false get_content get_ori) n
    ((get_4 false).1, [Ask_block (get_key 3); Ask_block (get_key 2)],
     ((([] ++ (get_1 false).2) ++ (get_2 false).2) ++ (get_3 false).2) ++ (get_4 false).2) c -> (n <= 2)%nat).
Proof.
  assert (ro_is_deactivated (get_4 false).1 = false) as Hd by by vm_compute. split; [exact Hd|]. intros n c Hn.
  pose proof (get_completes false false get_content get_ori false get_content_size (proj1 get_range)
    (proj2 get_range) _ _ _ _ eq_refl get_4_reach Hd) as [H _].
  assert (work [Ask_block (get_key 3); Ask_block (get_key 2)] (ro_tuple_queue (get_4 false).1) = 2%nat) as E by by vm_compute.
  rewrite <- E. exact (H n c Hn).
Defined.

(** In load mode block 1 is missing: the first tuple is skipped, and the late
    answer for block 2 is dropped although the next tuple asks for it too. *)
Definition load_3 := get_step (get_2 true).1 (RO_CACHE_GET_RESULT None (get_key 1)).
Definition load_4 := get_step load_3.1 (RO_CACHE_GET_RESULT (Some (get_block 2)) (get_key 2)).

Lemma load_4_reach :
  get_reach false false get_content get_ori true load_4.1 [Ask_block (get_key 3); Ask_block (get_key 2)]
    (([] ++ [get_tuple 1 2]) ++ [get_tuple 3 2])
    (((([] ++ (get_1 true).2) ++ (get_2 true).2) ++ load_3.2) ++ load_4.2).
Proof.
  eapply get_reach_eq.
  - apply (get_answer false false get_content get_ori true load_3.1 [] (Ask_block (get_key 2))
      [Ask_block (get_key 3); Ask_block (get_key 2)]); [|by vm_compute|by constructor].
    eapply get_reach_eq.
    + apply (get_answer false false get_content get_ori true (get_2 true).1 [] (Ask_block (get_key 1)) [Ask_block (get_key 2)]);
        [apply get_2_reach|by vm_compute|by constructor].
    + by vm_compute.
  - by vm_compute.
Qed.

Lemma load_never_corrupts_witness :
  exists O, map fst O `prefix_of` (([] ++ [get_tuple 1 2]) ++ [get_tuple 3 2]) /\
    ro_tuples_skipped load_4.1 = u64 (Z.of_nat (skipped O)) /\ ro_tuples_skipped load_4.1 = 1.
Proof.
  destruct (load_never_corrupts false false get_content get_ori true get_content_size (proj1 get_range) (proj2 get_range)
    _ _ _ _ load_4_reach) as (_ & O & Hp & _ & _ & Hs & _). exists O. split; [exact Hp|]. split; [exact Hs|by vm_compute].
Defined.

(** Answers of the network are handled even after the stream has been closed:
    when the client closes between the two blocks of a tuple and the second one
    then arrives, its bytes are passed on as data, after the close. *)
Theorem late_network_answer_renders :
  let s1 := readable_off_stream_dispatch false true (readable_off_stream_create_ex get_ori false)
              (OFF_STREAM_WRITE (get_tuple 1 2)) in
  let s2 := readable_off_stream_dispatch false true s1.1 (RO_CACHE_GET_RESULT (Some (get_block 1)) (get_key 1)) in
  let s3 := readable_off_stream_dispatch false true s2.1 (RO_CACHE_GET_RESULT None (get_key 2)) in
  let s4 := readable_off_stream_dispatch false true s3.1 RO_CLOSE_STREAM in
  let s5 := readable_off_stream_dispatch false true s4.1 (RO_NETWORK_FIND_BLOCK_RESULT true (Some (get_block 2)) (get_key 2)) in
  ro_is_deactivated s4.1 = true /\ s4.2 = [Close_out] /\
  s5.2 = [Data_out (replicate 36 2)] /\ take 36 (drop 100 (decoded get_content (get_tuple 1 2))) = replicate 36 3.
Proof. by vm_compute. Qed.
