(* ===== verification/OffFile.v ===== *)
(** * OffFile: a file that is put can be got back

    Composes the streams of a put (OffWrite, DescWrite) with those of a get
    (DescRead, OffRead), as the connections do: the tuples of the put go to its
    descriptor stream, the hash that reports starts the get's descriptor stream,
    whose tuples go to its data stream. *)

From S2P Require Import Prelude Buffer Block Effect Tuple OffWrite DescWrite DescRead Descriptor OffRead.
Local Open Scope Z_scope.

Lemma decode_ext n l1 l2 d1 :
  map buf_data l1 = map buf_data l2 -> Forall (fun b => buf_size b = n) l1 -> decode l1 = Some d1 ->
  exists d2, decode l2 = Some d2 /\ buf_data d2 = buf_data d1.
Proof.
  intros Hm Hs Hd. destruct (decode l2) as [d2|] eqn:Hd2; [|by destruct l1, l2].
  exists d2. split; [done|]. assert (Forall (fun b => buf_size b = n) l2) as Hs2.
  { assert (Forall (fun d => length d = n) (map buf_data l2)) as H by (rewrite <- Hm; by apply Forall_fmap).
    by apply Forall_fmap in H. }
  destruct (decode_bytes n l1 d1 Hs Hd) as [Hn1 Hb1]. destruct (decode_bytes n l2 d2 Hs2 Hd2) as [Hn2 Hb2].
  apply buffer_eq; [congruence|]. intros i _. rewrite Hb1, Hb2. f_equal.
  assert (forall l, map (fun b => byte_at b i) l = map (fun d => nth i d 0) (map buf_data l)) as Hmm
    by (intros l; rewrite map_map; done). by rewrite !Hmm, Hm.
Qed.

(** The block a cache has for a hash, if it has the file's block size. *)
Definition content_of (lookup : bytes -> option block_t) (type : block_size_e) (h : bytes) : buffer_t :=
  match lookup h with
  | Some b => if (buf_size (blk_data b) =? Z.to_nat (block_size type))%nat then blk_data b
              else exact_buffer (replicate (Z.to_nat (block_size type)) 0)
  | None => exact_buffer (replicate (Z.to_nat (block_size type)) 0)
  end.

Lemma content_of_size lookup type h : buf_size (content_of lookup type h) = Z.to_nat (block_size type).
Proof.
  unfold content_of. destruct (lookup h) as [b|]; [|apply length_replicate].
  destruct (Nat.eqb_spec (buf_size (blk_data b)) (Z.to_nat (block_size type))); [done|]. apply length_replicate.
Qed.

Lemma content_of_found lookup type h :
  (if lookup h is Some b then buf_size (blk_data b) =? Z.to_nat (block_size type) else false)%nat = true ->
  exists b, lookup h = Some b /\ blk_data b = content_of lookup type h.
Proof. unfold content_of. destruct (lookup h) as [b|]; [|done]. intros ->. by exists b. Qed.

Lemma tuple_hashes_of c l : tuple_hashes (tuple_of c l) = l.
Proof. apply tuple_elements. Qed.

(** The bytes of a tuple of the put, as the reader computes them. *)
Lemma encodes_decoded {BL : Blake3} lookup type ts puts t o :
  agrees lookup puts -> encodes type ts puts t o ->
  decoded (content_of lookup type) t = block_bytes o /\ t = tuple_of ts (tuple_hashes t) /\
  length (tuple_hashes t) = ts /\ Forall (is_key BLAKE3_OUT_LEN) (tuple_hashes t).
Proof.
  intros Ha (blocks & -> & Hl & Hb & d & Hd & Hdo). rewrite tuple_hashes_of, length_map. split_and!; try done.
  2: { apply Forall_fmap. eapply Forall_impl; [exact Hb|]. intros b [_ [[_ Hh] _]]. cbn. unfold is_key, block_hash. rewrite Hh. apply blake3_length. }
  unfold decoded. rewrite tuple_hashes_of.
  destruct (decode_ext (Z.to_nat (block_size type)) (map blk_data blocks) (map (content_of lookup type) (map block_hash blocks)) d)
    as (d2 & -> & Hd2).
  - rewrite !map_map. clear Hd Hdo Hl. induction Hb as [|b bl [Hin [_ Hs]] _ IH]; [done|]. cbn [map]. f_equal; [|done].
    eapply Forall_forall in Ha as (b' & Hb' & Hbb); [|exact Hin]. unfold content_of. rewrite Hb'.
    unfold block_bytes, buf_size in *. by rewrite Hbb, Hs, Nat.eqb_refl.
  - apply Forall_fmap. eapply Forall_impl; [exact Hb|]. by intros b [_ [_ Hs]].
  - done.
  - by rewrite Hd2, Hdo.
Qed.

Lemma concat_drop n (l : list bytes) k : Forall (fun d => length d = n) l -> concat (drop k l) = drop (k * n) (concat l).
Proof.
  intros Hl. revert k. induction Hl as [|d l Hd _ IH]; intros k; [cbn [concat]; by rewrite !drop_nil|].
  destruct k as [|k]; [done|]. cbn [skipn concat Nat.mul]. rewrite IH, <- Hd, drop_app_add. done.
Qed.

(** The blocks of [w] with its padding. *)
Lemma block_count (n : nat) (l : list bytes) (w pad : bytes) :
  (0 < n)%nat -> Forall (fun d => length d = n) l -> concat l = w ++ pad -> (length pad < n)%nat ->
  Z.of_nat (length l) = ceil_div (Z.of_nat (length w)) (Z.of_nat n).
Proof.
  intros Hn Hl Hc Hp. assert (length (concat l) = length l * n)%nat as Hlen.
  { clear -Hl. induction Hl as [|d l Hd _ IH]; [done|]. cbn [concat length]. rewrite length_app, IH, Hd. done. }
  rewrite Hc, length_app in Hlen. unfold ceil_div.
  pose proof (Z.div_mod (Z.of_nat (length w)) (Z.of_nat n) ltac:(lia)) as Hdm.
  pose proof (Z.mod_pos_bound (Z.of_nat (length w)) (Z.of_nat n) ltac:(lia)) as Hm.
  destruct (Z.ltb_spec 0 (Z.of_nat (length w) mod Z.of_nat n)); nia.
Qed.

(** What the reader renders of the blocks from the offset's one on. *)
Lemma rendered_suffix type ts h off (l : list bytes) (w pad : bytes) :
  Forall (fun d => length d = Z.to_nat (block_size type)) l -> concat l = w ++ pad -> 0 <= off < Z.of_nat (length w) ->
  rendered (read_ori type ts h off (Z.of_nat (length w))) (drop (Z.to_nat (off / block_size type)) l) = drop (Z.to_nat off) w.
Proof.
  intros Hl Hc Ho. unfold rendered. simpl ori_file_offset. simpl ori_final_byte. simpl ori_block_type.
  assert (0 < block_size type) as Hb by by destruct type.
  rewrite (concat_drop (Z.to_nat (block_size type))), Hc, drop_drop by done.
  pose proof (Z.div_mod off (block_size type) ltac:(lia)) as Hdm. pose proof (Z.mod_pos_bound off (block_size type) Hb).
  assert (0 <= off / block_size type) by (apply Z.div_pos; lia).
  replace (Z.to_nat (off / block_size type) * Z.to_nat (block_size type) + Z.to_nat (off mod block_size type))%nat
    with (Z.to_nat off) by nia.
  rewrite drop_app_le by lia. rewrite take_app_le by (rewrite length_drop; lia). apply take_ge. rewrite length_drop. lia.
Qed.

(** The tuples of a put, given to its descriptor stream, which then closes. *)
Definition put_descriptor {BL : Blake3} (network : bool) (type : block_size_e) (ts data_length : nat) (put_group : Z)
    (effs : list put_effect) : list put_effect :=
  (dispatch_all (writeable_descriptor_dispatch network)
    (writeable_descriptor_create type BLAKE3_OUT_LEN ts data_length put_group)
    (map WRITEABLE_DESCRIPTOR_WRITE (tuples_of effs) ++ [WD_CLOSE_STREAM])).2.

(** The tuples a descriptor stream passes on. *)
Definition tuples_read (effs : list rd_effect) : list tuple_t :=
  omap (fun e => match e with Tuple_event t => Some t | _ => None end) effs.

Lemma tuples_read_notifications effs : tuples_read (notifications effs) = tuples_read effs.
Proof. induction effs as [|[] effs IH]; cbn; try done. by f_equal. Qed.

Lemma tuples_read_events ts Ts : tuples_read (tuple_events ts Ts ++ [Complete_event; Close_event]) = map (tuple_of ts) Ts.
Proof. induction Ts as [|T Ts IH]; cbn; [done|]. by f_equal. Qed.

(** The blocks of a completed put. *)
Lemma put_tuples {BL : Blake3} lookup type ts puts tuples blocks :
  agrees lookup puts -> Forall2 (encodes type ts puts) tuples blocks ->
  map (decoded (content_of lookup type)) tuples = map block_bytes blocks.
Proof.
  intros Ha. induction 1 as [|t o tuples blocks He _ IH]; [done|]. cbn [map]. rewrite IH. f_equal.
  by destruct (encodes_decoded lookup type ts puts t o Ha He).
Qed.

Lemma encodes_shape {BL : Blake3} type ts puts tuples blocks :
  Forall2 (encodes type ts puts) tuples blocks ->
  map (tuple_of ts) (map tuple_hashes tuples) = tuples /\
  Forall (fun T => length T = ts /\ Forall (is_key BLAKE3_OUT_LEN) T) (map tuple_hashes tuples) /\
  Forall (fun d => length d = Z.to_nat (block_size type)) (map block_bytes blocks) /\ length tuples = length blocks.
Proof.
  induction 1 as [|t o tuples blocks (bl & -> & Hl & Hb & d & Hd & Hdo) _ (IH1 & IH2 & IH3 & IH4)]; [done|].
  cbn [map length]. rewrite IH1, tuple_hashes_of, IH4. split_and!; try done; apply Forall_cons; (split; [|done]).
  - rewrite length_map. split; [done|]. apply Forall_fmap. eapply Forall_impl; [exact Hb|].
    intros b [_ [[_ Hh] _]]. cbn. unfold is_key, block_hash. rewrite Hh. apply blake3_length.
  - rewrite <- Hdo. destruct (decode_bytes (Z.to_nat (block_size type)) (map blk_data bl) d) as [Hn _]; try done.
    apply Forall_fmap. eapply Forall_impl; [exact Hb|]. by intros b [_ [_ Hs]].
Qed.

(** The file [w] can be got from hash [h]: the blocks that [lookup] returns form
    a descriptor chain, and the blocks it names decode to [w] and padding. *)
Definition stored_file (type : block_size_e) (ts : nat) (lookup : bytes -> option block_t) (w h : bytes)
    (Ts : list (list bytes)) : Prop :=
  Forall (fun T => length T = ts /\ Forall (is_key BLAKE3_OUT_LEN) T) Ts /\
  Z.of_nat (length Ts) = ceil_div (Z.of_nat (length w)) (block_size type) /\
  chain BLAKE3_OUT_LEN (Z.to_nat (block_size type) / BLAKE3_OUT_LEN) Ts lookup h 0 /\
  Forall (fun d => length d = Z.to_nat (block_size type)) (map (decoded (content_of lookup type)) (map (tuple_of ts) Ts)) /\
  exists pad, concat (map (decoded (content_of lookup type)) (map (tuple_of ts) Ts)) = w ++ pad.

(** What a get of a stored file passes on. *)
Lemma stored_file_reads type ts lookup w h Ts file_offset :
  (2 <= ts)%nat /\ Z.of_nat ts < 2 ^ 56 -> 0 <= file_offset < Z.of_nat (length w) -> Z.of_nat (length w) < 2 ^ 63 ->
  stored_file type ts lookup w h Ts ->
  let ori := read_ori type ts h file_offset (Z.of_nat (length w)) in
  exists m, forall fuel, (m <= fuel)%nat -> forall tc network s' R effs',
    get_reach tc network (content_of lookup type) ori false s' R (tuples_read (read_descriptor fuel lookup ori).2) effs' ->
    ro_is_deactivated s' = false -> R = [] ->
    data_of effs' = drop (Z.to_nat file_offset) w /\ Complete_out ∈ effs'.
Proof.
  cbv zeta. intros Hts Ho Hw (HT & Hcnt & Hch & Hsz & pad & Hcon).
  destruct (chain_reads_back type ts Ts file_offset (Z.of_nat (length w)) lookup h) as [m Hm]; try done; [lia|].
  exists m. intros fuel Hf tc network s' R effs' Hget Hde HR. destruct (Hm fuel Hf) as [Hn _].
  apply (f_equal tuples_read) in Hn. rewrite tuples_read_notifications, tuples_read_events, <- skipn_map in Hn.
  rewrite Hn in Hget. set (ori := read_ori type ts h file_offset (Z.of_nat (length w))) in *.
  destruct (get_reach_inv tc network (content_of lookup type) ori false (content_of_size lookup type) Ho Hw s' R _ effs' Hget)
    as (O & [Hrn _ Hcm _ _ [_ Hsk]] & _ & Hpr). subst R.
  pose proof (rn_data _ _ _ _ Hrn) as Hdata. clear Hrn.
  rewrite (loaded_all O (Hsk eq_refl)), (quiescent _ s' _ O (Hpr Hde)) in Hdata, Hcm.
  rewrite <- skipn_map in Hdata, Hcm.
  unfold ori in Hdata, Hcm. rewrite (rendered_suffix type ts h file_offset _ w pad Hsz Hcon Ho) in Hdata, Hcm.
  split; [done|]. apply Hcm. rewrite length_drop. cbn. lia.
Qed.

(** A file that has been put is stored. *)
Lemma put_stored {BL : Blake3} put_net desc_net type ts recipes group ephemeral s w pad effs data_length put_group :
  (2 <= ts)%nat /\ Z.of_nat ts < 2 ^ 56 -> recipes <> [] ->
  put_history put_net type ts recipes group ephemeral true s w (Some pad) effs -> ws_completed s = true ->
  0 < Z.of_nat (length w) < 2 ^ 63 ->
  room (Z.to_nat (block_size type) / BLAKE3_OUT_LEN) (ts * length (tuples_of effs)) ->
  fills (Z.to_nat (block_size type)) (Z.to_nat (block_size type) / BLAKE3_OUT_LEN) (ts * length (tuples_of effs)) ->
  let desc := put_descriptor desc_net type ts data_length put_group effs in
  exists deffs h, desc = deffs ++ [Notify_hash h; Notify_finished; Notify_complete; Notify_close] /\
  Forall is_cache_put deffs /\ (exists data, h = blake3 data) /\
  forall lookup, agrees lookup (stored effs) -> agrees lookup (stored desc) ->
    stored_file type ts lookup w h (map tuple_hashes (tuples_of effs)).
Proof.
  cbv zeta. intros Hts Hrec Hput Hc Hw Hroom Hfills.
  apply put_history_completed in Hput; [|lia|done|done].
  destruct (put_encodes put_net type ts recipes group ephemeral s w pad effs (proj1 Hts) Hrec Hput Hc)
    as (blocks & He & Hcon & Hpad & _).
  destruct (encodes_shape type ts (stored effs) _ _ He) as (Hshape & Hwf & Hsz & Hlen).
  assert (put_descriptor desc_net type ts data_length put_group effs =
    (write_descriptor desc_net type ts data_length put_group (map tuple_hashes (tuples_of effs))).2) as ->.
  { unfold put_descriptor, write_descriptor, write_messages. rewrite <- (map_map (tuple_of ts) WRITEABLE_DESCRIPTOR_WRITE).
    by rewrite Hshape. }
  assert (Z.of_nat (length (map tuple_hashes (tuples_of effs))) = ceil_div (Z.of_nat (length w)) (block_size type)) as Hcnt.
  { rewrite length_map, Hlen, <- (length_map block_bytes). destruct (bs_range (read_ori type ts [] 0 0)) as (Hb1 & Hb2 & _).
    cbn in Hb1, Hb2. rewrite <- Hb2. by apply (block_count _ _ w pad). }
  destruct (tuples_split type ts _ ltac:(lia) Hwf) as (_ & _ & HlK & _). rewrite length_map in HlK.
  destruct (offset_tuple type _ 0 (Z.of_nat (length w)) Hcnt ltac:(lia) ltac:(lia)) as (Hoff & _).
  rewrite length_map in Hoff.
  destruct (write_descriptor_chain desc_net type ts data_length put_group _ Hwf) as (deffs & h & Hd & Hputs & Hkey & Hch);
    rewrite ?HlK; try done; [nia|].
  exists deffs, h. split_and!; [done..|]. intros lookup Ha1 Ha2. rewrite Hd, stored_app, app_nil_r in Ha2.
  split_and!; [done|done|by apply Hch|..]; rewrite Hshape, (put_tuples lookup type ts (stored effs) _ blocks) by done;
    [done|by exists pad].
Qed.


(** ** An example: a file of one block *)

Definition small_file : bytes := map Z.of_nat (seq 1 100).
Definition small_1 := sample_dispatch sample_start (WRITEABLE_WRITE small_file).
Definition small_2 := sample_dispatch small_1.1 (WRITEABLE_FINALIZE (replicate 36 5)).
Definition small_3 := sample_dispatch small_2.1 (RECIPE_BLOCK_DATA (sample_random 1)).
Definition small_effects := (([] ++ small_1.2) ++ small_2.2) ++ small_3.2.

Lemma small_history :
  put_history (BL := poly_blake3) true nano 2 [false] 1 false true small_3.1 ([] ++ small_file)
    (Some (padding small_1.1 (replicate 36 5))) small_effects.
Proof.
  apply (ph_block (BL := poly_blake3) true nano 2 [false] 1 false true small_2.1 _ _ _ (sample_random 1));
    [|by vm_compute|by apply random_block_ok].
  refine (ph_finalize (BL := poly_blake3) true nano 2 [false] 1 false true small_1.1 _ _ (replicate 36 5) _ _);
    [|intros _; by vm_compute].
  apply (ph_write (BL := poly_blake3) true nano 2 [false] 1 false true sample_start _ _ small_file).
  apply (ph_start (BL := poly_blake3) true nano 2 [false] 1 false).
Qed.

(** Its descriptor, the blocks in the cache then and the get from byte 30. *)
Definition small_descriptor := put_descriptor (BL := poly_blake3) true nano 2 100 1 small_effects.
Lemma small_descriptor_eq : put_descriptor (BL := poly_blake3) true nano 2 100 1 small_effects = small_descriptor.
Proof. unfold small_descriptor. reflexivity. Qed.
Definition small_lookup := block_lookup (stored small_effects ++ stored small_descriptor).
Definition small_hash : bytes :=
  default [] (last (omap (fun e => if e is Notify_hash h then Some h else None) small_descriptor)).
Definition small_ori := read_ori nano 2 small_hash 30 100.
Definition small_tuple : tuple_t := default (tuple_create 2) (head (tuples_of small_effects)).
Definition small_block (k : nat) : bytes := default [] (tuple_hashes small_tuple !! k).

Lemma small_tuples fuel : tuples_read (read_descriptor (20 + fuel) small_lookup small_ori).2 = [small_tuple].
Proof. vm_compute. reflexivity. Qed.

(** The second block of the tuple comes before the first. *)
Definition small_answer (k : nat) : ro_message := RO_CACHE_GET_RESULT (small_lookup (small_block k)) (small_block k).
Definition small_get_1 := get_step (readable_off_stream_create_ex small_ori false) (OFF_STREAM_WRITE small_tuple).
Definition small_get_2 := get_step small_get_1.1 (small_answer 1).
Definition small_get_3 := get_step small_get_2.1 (small_answer 0).
Definition small_get_effects := (([] ++ small_get_1.2) ++ small_get_2.2) ++ small_get_3.2.

Lemma small_answer_ok k :
  (k < 2)%nat -> answer (content_of small_lookup nano) small_ori (Ask_block (small_block k)) (small_answer k).
Proof.
  intros Hk. unfold small_answer. destruct (content_of_found small_lookup nano (small_block k)) as (b & -> & Hb); [|by constructor].
  by destruct k as [|[|k]]; [vm_compute..|lia].
Qed.

Lemma small_get_reach :
  get_reach false false (content_of small_lookup nano) small_ori false small_get_3.1 [] [small_tuple] small_get_effects.
Proof.
  eapply get_reach_eq; [apply (get_answer false false _ small_ori false small_get_2.1 [] (Ask_block (small_block 0)) [])|by vm_compute];
    [|by vm_compute|apply small_answer_ok; lia].
  eapply get_reach_eq; [apply (get_answer false false _ small_ori false small_get_1.1 [Ask_block (small_block 0)]
    (Ask_block (small_block 1)) [])|by vm_compute]; [|by vm_compute|apply small_answer_ok; lia].
  eapply get_reach_eq; [apply (get_write false false _ small_ori false _ [] [] [] small_tuple)|by vm_compute];
    [apply get_start|done|]. split; [vm_compute; lia|by vm_compute].
Qed.

Lemma small_agrees : agrees_check small_lookup (stored small_effects) && agrees_check small_lookup (stored small_descriptor) = true.
Proof. vm_compute. reflexivity. Qed.

(** What the descriptor stream reports. *)
Lemma last_hash deffs h :
  last (omap (fun e => if e is Notify_hash h then Some h else None)
    (deffs ++ [Notify_hash h; Notify_finished; Notify_complete; Notify_close])) = Some h.
Proof. rewrite omap_app. cbn. apply last_snoc. Qed.

