(* ===== verification/Lru.v ===== *)
(** * Lru: the least recently used caches

    The tuple cache (src/src/OFFStreams/tuple_cache.c), the block cache and the
    pool of open sections (src/src/BlockCache/block_cache.c and sections.c) each
    have an LRU cache: a hash map from keys to the nodes of a doubly linked list,
    the most recently used first.  The three copies share the pointer
    manipulations, which are modelled here on a heap of nodes; a result [None]
    is an access to a node that is not allocated.  The hash map of
    deps/hashmap is a finite map.

    The theorems relate the pointers to a list of pairs: the caches never access
    freed memory, a lookup returns the last value put, and what is dropped is
    what was not used for longest, with the exception of the block cache, which
    drops a block when one that is already there is put again. *)

From stdpp Require Import gmap.
From S2P Require Import Prelude DList.

Section Lru.
Context {K A : Type} `{Countable K}.

Record lru_cache_t := mk_lru {
  lru_heap : heap (K * A);
  lru_map : gmap K addr;
  lru_first : option addr;
  lru_last : option addr;
  lru_size : nat
}.

Implicit Types c : lru_cache_t.

Definition lru_create (size : nat) : lru_cache_t :=
  {| lru_heap := ∅; lru_map := ∅; lru_first := None; lru_last := None; lru_size := size |}.

Definition with_list c (h : heap (K * A)) (first last : option addr) : lru_cache_t :=
  mk_lru h (lru_map c) first last (lru_size c).

(** A node becomes the first: a new one, or one of the list. *)
Definition lru_move c (node : addr) : option lru_cache_t :=
  let h := lru_heap c in
  match lru_first c with
  | None => Some (with_list c h (Some node) (Some node))
  | Some first =>
      if decide (first = node) then Some c
      else if decide (lru_last c = Some first) then
        h ← set_next h node (Some first);
        h ← set_prev h first (Some node);
        Some (with_list c h (Some node) (Some first))
      else if decide (lru_last c = Some node) then
        nd ← h !! node;
        last ← dn_prev nd;
        h ← set_next h last None;
        h ← set_next h node (Some first);
        h ← set_prev h node None;
        h ← set_prev h first (Some node);
        Some (with_list c h (Some node) (Some last))
      else
        nd ← h !! node;
        match dn_next nd, dn_prev nd with
        | None, None =>
            h ← set_prev h first (Some node);
            h ← set_next h node (Some first);
            Some (with_list c h (Some node) (lru_last c))
        | next, previous =>
            h ← match previous with Some p => set_next h p next | None => Some h end;
            h ← match next with Some n => set_prev h n previous | None => Some h end;
            h ← set_prev h first (Some node);
            h ← set_next h node (Some first);
            h ← set_prev h node None;
            Some (with_list c h (Some node) (lru_last c))
        end
  end.

Definition lru_get c (key : K) : option (lru_cache_t * option A) :=
  match lru_map c !! key with
  | None => Some (c, None)
  | Some node =>
      c ← lru_move c node;
      nd ← lru_heap c !! node;
      Some (c, Some (dn_value nd).2)
  end.

Definition lru_contains c (key : K) : bool := bool_decide (is_Some (lru_map c !! key)).

(** The last node is dropped. *)
Definition lru_evict c : option (lru_cache_t * option (K * A)) :=
  match lru_last c with
  | None => Some (c, None)
  | Some node =>
      nd ← lru_heap c !! node;
      c ← match dn_prev nd with
          | None => Some (with_list c (lru_heap c) None None)
          | Some p => h ← set_next (lru_heap c) p None; Some (with_list c h (lru_first c) (Some p))
          end;
      Some (mk_lru (delete node (lru_heap c)) (delete (dn_value nd).1 (lru_map c)) (lru_first c) (lru_last c) (lru_size c),
            Some (dn_value nd))
  end.

(** A new node, in the map but not yet in the list. *)
Definition lru_new_node c (key : K) (value : A) : lru_cache_t * addr :=
  let '(h, node) := alloc (lru_heap c) (key, value) in
  (mk_lru h (lru_map c) (lru_first c) (lru_last c) (lru_size c), node).

Definition lru_insert c (key : K) (node : addr) : lru_cache_t :=
  mk_lru (lru_heap c) (<[key := node]> (lru_map c)) (lru_first c) (lru_last c) (lru_size c).

Definition lru_delete c (key : K) : option lru_cache_t :=
  match lru_map c !! key with
  | None => Some c
  | Some node =>
      nd ← lru_heap c !! node;
      c ← match dn_prev nd, dn_next nd with
          | None, None => Some (with_list c (lru_heap c) None None)
          | None, Some n => h ← set_prev (lru_heap c) n None; Some (with_list c h (Some n) (lru_last c))
          | Some p, None => h ← set_next (lru_heap c) p None; Some (with_list c h (lru_first c) (Some p))
          | Some p, Some n =>
              h ← set_next (lru_heap c) p (Some n);
              h ← set_prev h n (Some p);
              Some (with_list c h (lru_first c) (lru_last c))
          end;
      Some (mk_lru (delete node (lru_heap c)) (delete key (lru_map c)) (lru_first c) (lru_last c) (lru_size c))
  end.

(** [tuple_cache_lru_put]: a new key goes in front, in place of the last if
    the cache is full; the value of a key that is there is replaced. *)
Definition tuple_cache_lru_put c (key : K) (value : A) : option lru_cache_t :=
  if decide (lru_size c = 0) then Some c
  else match lru_map c !! key with
  | None =>
      let '(c, node) := lru_new_node c key value in
      c ← (if decide (lru_size c <= size (lru_map c)) then fst <$> lru_evict c else Some c);
      lru_move (lru_insert c key node) node
  | Some node =>
      h ← set_value (lru_heap c) node (key, value);
      lru_move (with_list c h (lru_first c) (lru_last c)) node
  end.

(** [sections_lru_cache_put]: the section of an id that is there stays. *)
Definition sections_lru_cache_put c (id : K) (section : A) : option lru_cache_t :=
  if decide (lru_size c = 0) then Some c
  else match lru_map c !! id with
  | None =>
      c ← (if decide (size (lru_map c) = lru_size c) then fst <$> lru_evict c else Some c);
      let '(c, node) := lru_new_node c id section in
      lru_move (lru_insert c id node) node
  | Some node => lru_move c node
  end.

(** [block_lru_cache_put]: the last block is ejected whenever the cache is
    full, also when the hash is there; [hashmap_put] leaves an entry that
    exists. *)
Definition block_lru_cache_put c (hash : K) (value : A) : option (lru_cache_t * option (K * A)) :=
  if decide (lru_size c = 0) then Some (c, None)
  else
    let '(c, node) := match lru_map c !! hash with Some node => (c, node) | None => lru_new_node c hash value end in
    '(c, ejected) ← (if decide (size (lru_map c) = lru_size c) then lru_evict c else Some (c, None));
    let c := if lru_contains c hash then c else lru_insert c hash node in
    c ← lru_move c node;
    Some (c, ejected).
End Lru.
Arguments lru_cache_t K A {_ _}.

(** ** The pointers as a list *)

Section Rep.
Context {K A : Type} `{Countable K}.
Implicit Types (c : lru_cache_t K A) (l : list (addr * (K * A))).

Definition keyed l : list (K * addr) := (fun p => (p.2.1, p.1)) <$> l.

(** The nodes [l], most recently used first. *)
Record lru_rep c l : Prop := {
  rep_list : dseg (lru_heap c) None l None;
  rep_nodes : NoDup l.*1;
  rep_keys : NoDup (keyed l).*1;
  rep_first : lru_first c = head_or l None;
  rep_last : lru_last c = last_or None l;
  rep_map : lru_map c = list_to_map (keyed l);
  rep_size : length l <= lru_size c
}.

(** The list is in order, but [node] is not in it yet. *)
Record lru_pending c l (x : addr * (K * A)) : Prop := {
  pend_list : dseg (lru_heap c) None l None;
  pend_nodes : NoDup (x :: l).*1;
  pend_keys : NoDup (keyed (x :: l)).*1;
  pend_first : lru_first c = head_or l None;
  pend_last : lru_last c = last_or None l;
  pend_map : lru_map c = list_to_map (keyed (x :: l));
  pend_size : length (x :: l) <= lru_size c;
  pend_node : lru_heap c !! x.1 = Some (mk_dnode x.2 None None)
}.

Lemma last_or_some l : l <> [] -> exists b, last_or None l = Some b /\ b ∈ l.*1.
Proof.
  intros Hl. destruct l as [|[b w] l _] using rev_ind; [done|]. exists b. rewrite last_or_snoc. split; [done|].
  rewrite fmap_app. set_solver.
Qed.

Lemma last_or_app p l1 l2 : l2 <> [] -> last_or p (l1 ++ l2) = last_or None l2.
Proof. intros Hl. destruct l2 as [|[b w] l2 _] using rev_ind; [done|]. by rewrite app_assoc, !last_or_snoc. Qed.

Lemma move_new c l x :
  lru_pending c l x -> exists c', lru_move c x.1 = Some c' /\ lru_rep c' (x :: l) /\ lru_size c' = lru_size c.
Proof.
  destruct x as [a v]. cbn [fst snd]. intros [Hs Hn Hk Hf Hl Hm Hz Ha]. cbn [fst snd] in *. unfold lru_move. rewrite Hf.
  destruct l as [|[f w] l]; cbn [head_or].
  { eexists. split; [reflexivity|]. split; [|done]. by split. }
  assert (a <> f) as Haf by (intros ->; apply NoDup_cons in Hn as [Hn _]; apply Hn; by left).
  pose proof Hs as [Hvf _]. rewrite decide_False by done. destruct (decide (lru_last c = Some f)) as [El|El].
  - assert (l = []) as ->.
    { destruct l as [|y l]; [done|]. destruct (last_or_some (y :: l)) as (b & Eb & Hb); [done|].
      rewrite Hl, last_or_cons in El. assert (last_or (Some f) (y :: l) = last_or None (y :: l)) as E'
        by (unfold last_or; by destruct (last (y :: l)) eqn:E; [|apply last_None in E]).
      rewrite E', Eb in El. simplify_eq. apply NoDup_cons in Hn as [_ Hn]. by apply NoDup_cons in Hn as [Hn _]. }
    destruct (set_next_at _ a v None None (Some f) Ha) as (h1 & E1 & Ha1 & F1). rewrite E1. cbn [mbind option_bind].
    destruct (set_prev_at h1 f w None None (Some a)) as (h2 & E2 & Hf2 & F2); [rewrite F1 by done; exact Hvf|]. rewrite E2. cbn [mbind option_bind].
    eexists. split; [reflexivity|]. split; [|done]. split; try done. cbn [with_list lru_heap].
    apply (link_front (lru_heap c) h2); try done; [by rewrite F2|]. intros b Hb1 Hb2. by rewrite F2, F1.
  - assert (lru_last c <> Some a) as Hla.
    { rewrite Hl. destruct (last_or_some ((f, w) :: l)) as (b & Eb & Hb); [done|]. rewrite Eb. intros [= ->].
      by apply NoDup_cons in Hn as [Hn _]. }
    rewrite (decide_False (P := lru_last c = Some a)) by done. rewrite Ha. cbn [mbind option_bind dn_next dn_prev].
    destruct (set_prev_at _ f w _ _ (Some a) Hvf) as (h1 & E1 & Hf1 & F1). rewrite E1. cbn [mbind option_bind].
    destruct (set_next_at h1 a v None None (Some f)) as (h2 & E2 & Ha2 & F2); [by rewrite F1|]. rewrite E2. cbn [mbind option_bind].
    eexists. split; [reflexivity|]. split; [|done]. split; try done; cbn [with_list lru_heap lru_last].
    apply (link_front (lru_heap c) h2); try done; [intros b Hb1 Hb2; by rewrite F2, F1|by rewrite F2].
Qed.

Lemma keyed_mid l1 x l2 :
  NoDup (keyed (l1 ++ x :: l2)).*1 ->
  NoDup (keyed (x :: l1 ++ l2)).*1 /\ list_to_map (M := gmap K addr) (keyed (l1 ++ x :: l2)) = list_to_map (keyed (x :: l1 ++ l2)).
Proof.
  intros Hk. assert (keyed (l1 ++ x :: l2) ≡ₚ keyed (x :: l1 ++ l2)) as Hp.
  { apply fmap_Permutation. symmetry. apply Permutation_middle. }
  split; [by rewrite <- Hp|]. by apply list_to_map_proper.
Qed.

Lemma move_old c l1 x l2 :
  lru_rep c (l1 ++ x :: l2) ->
  exists c', lru_move c x.1 = Some c' /\ lru_rep c' (x :: l1 ++ l2) /\ lru_size c' = lru_size c.
Proof.
  destruct x as [a v]. cbn [fst]. intros Hrep. pose proof Hrep as [Hs Hn Hk Hf Hl Hm Hz].
  destruct l1 as [|[f w] l1].
  { unfold lru_move. rewrite Hf. cbn [app head_or]. rewrite decide_True by done. by exists c. }
  destruct (keyed_mid _ _ _ Hk) as [Hk' Hm']. rewrite Hm' in Hm.
  assert (((f, w) :: l1) ++ (a, v) :: l2 ≡ₚ (a, v) :: ((f, w) :: l1) ++ l2) as Hp by (symmetry; apply Permutation_middle).
  assert (NoDup ((a, v) :: ((f, w) :: l1) ++ l2).*1) as Hn' by by rewrite <- Hp.
  assert (length ((a, v) :: ((f, w) :: l1) ++ l2) <= lru_size c) as Hz' by by rewrite <- Hp.
  assert (a <> f) as Haf by (intros ->; apply NoDup_cons in Hn' as [Hx _]; apply Hx; by left).
  destruct (unlink_next _ _ _ _ _ Hn Hs) as (h1 & E1 & S1 & S2 & Ha1 & F1).
  destruct (unlink_prev h1 _ a v _ Hn S1 S2) as (h2 & E2 & S3 & F2).
  apply nodup_mid in Hn as (Hnd & Hna1 & Hna2).
  assert (f ∉ l2.*1) as Hf2.
  { cbn in Hnd. apply NoDup_cons in Hnd as [Hx _]. intros Hy. apply Hx. rewrite fmap_app. set_solver. }
  pose proof (dseg_middle _ _ _ _ _ _ _ Hs) as Hv. pose proof S3 as [Hvf _].
  assert (h2 !! a = Some (mk_dnode v (head_or l2 None) (last_or None ((f, w) :: l1)))) as Ha3 by by rewrite F2.
  unfold lru_move. rewrite Hf. cbn [app head_or]. rewrite (decide_False (P := f = a)) by done.
  assert (lru_last c <> Some f) as Hlf.
  { rewrite Hl. destruct l2 as [|y l2 _] using rev_ind; [rewrite last_or_snoc; congruence|]. destruct y as [b x].
    rewrite app_comm_cons, app_assoc, last_or_snoc. intros [= ->]. apply Hf2. rewrite fmap_app. set_solver. }
  rewrite (decide_False (P := lru_last c = Some f)) by done.
  destruct (last_or_some ((f, w) :: l1)) as (b & Eb & _); [done|]. rewrite Eb in *.
  destruct (set_prev_at h2 f w _ None (Some a) Hvf) as (h3 & E3 & Hf3 & F3).
  destruct (set_next_at h3 a v (head_or l2 None) (Some b) (Some f)) as (h4 & E4 & Ha4 & F4); [by rewrite F3|].
  destruct (set_prev_at h4 a v _ _ None Ha4) as (h5 & E5 & Ha5 & F5).
  destruct l2 as [|[n x] l2].
  - rewrite last_or_snoc in Hl. rewrite (decide_True (P := lru_last c = Some a)) by done. rewrite Hv. cbn [mbind option_bind dn_prev].
    cbn [head_or] in E1. rewrite E1. cbn [mbind option_bind].
    cbn [head_or] in E2, Ha3. apply (inj Some) in E2 as <-. rewrite app_nil_r in *.
    destruct (set_next_at h1 a v None (Some b) (Some f) Ha3) as (k1 & D1 & Hk1 & G1). rewrite D1. cbn [mbind option_bind].
    destruct (set_prev_at k1 a v _ _ None Hk1) as (k2 & D2 & Hk2 & G2). rewrite D2. cbn [mbind option_bind].
    destruct (set_prev_at k2 f w (head_or l1 None) None (Some a)) as (k3 & D3 & Hk3 & G3); [by rewrite G2, G1|].
    rewrite D3. cbn [mbind option_bind].
    eexists. split; [reflexivity|]. split; [|done]. split; try done; cbn [with_list lru_heap lru_last].
    apply (link_front h1 k3); try done; [by rewrite G3|]. by intros d ? ?; rewrite G3, G2, G1.
  - assert (last_or None (((f, w) :: l1) ++ (a, v) :: (n, x) :: l2) = last_or None ((n, x) :: l2)) as Hlast.
    { change (((f, w) :: l1) ++ (a, v) :: (n, x) :: l2) with (((f, w) :: l1) ++ [(a, v)] ++ (n, x) :: l2).
      by rewrite app_assoc, last_or_app. }
    rewrite Hlast in Hl. assert (lru_last c <> Some a) as Hla.
    { rewrite Hl. destruct (last_or_some ((n, x) :: l2)) as (d & Ed & Hd); [done|]. rewrite Ed. by intros [= ->]. }
    rewrite (decide_False (P := lru_last c = Some a)) by done. rewrite Hv. cbn [mbind option_bind dn_next dn_prev head_or].
    cbn [head_or] in E1, E2. rewrite E1. cbn [mbind option_bind]. rewrite E2. cbn [mbind option_bind]. rewrite E3. cbn [mbind option_bind].
    rewrite E4. cbn [mbind option_bind]. rewrite E5. cbn [mbind option_bind].
    eexists. split; [reflexivity|]. split; [|done]. split; try done; cbn [with_list lru_heap lru_last].
    + apply (link_front h2 h5); try done; [by intros d ? ?; rewrite F5, F4, F3|by rewrite F5, F4].
    + rewrite Hl. change ((a, v) :: (f, w) :: l1 ++ (n, x) :: l2) with (((a, v) :: (f, w) :: l1) ++ (n, x) :: l2).
      by rewrite last_or_app.
Qed.
Lemma keyed_keys l : (keyed l).*1 = l.*2.*1.
Proof. unfold keyed. rewrite <- !list_fmap_compose. done. Qed.

(** What the hash map finds. *)
Lemma rep_found c l k a : lru_rep c l -> lru_map c !! k = Some a -> exists l1 v l2, l = l1 ++ (a, (k, v)) :: l2.
Proof.
  intros Hr Hk. rewrite (rep_map _ _ Hr) in Hk. apply elem_of_list_to_map_2 in Hk.
  apply list_elem_of_fmap in Hk as ([b [k' v]] & [= -> ->] & Hin). apply list_elem_of_split in Hin as (l1 & l2 & ->). eauto.
Qed.

Lemma rep_absent c l k : lru_rep c l -> lru_map c !! k = None -> k ∉ l.*2.*1.
Proof. intros Hr Hk. rewrite (rep_map _ _ Hr) in Hk. rewrite <- keyed_keys. by apply not_elem_of_list_to_map_2. Qed.

Lemma rep_map_size c l : lru_rep c l -> base.size (lru_map c) = length l.
Proof.
  intros Hr. rewrite (rep_map _ _ Hr), map_size_list_to_map by apply (rep_keys _ _ Hr). apply length_fmap.
Qed.

(** The map without the key of one of the nodes. *)
Lemma keyed_delete l1 a k v l2 :
  NoDup (keyed (l1 ++ (a, (k, v)) :: l2)).*1 ->
  NoDup (keyed (l1 ++ l2)).*1 /\
  delete k (list_to_map (keyed (l1 ++ (a, (k, v)) :: l2))) = list_to_map (M := gmap K addr) (keyed (l1 ++ l2)).
Proof.
  intros Hk. destruct (keyed_mid _ _ _ Hk) as [Hk' ->]. cbn in Hk'. apply NoDup_cons in Hk' as [Hn Hk'].
  split; [done|]. cbn [keyed fmap list_fmap list_to_map foldr curry]. apply delete_insert_id. by apply not_elem_of_list_to_map_1.
Qed.

Lemma rep_without c l1 a k v l2 h :
  lru_rep c (l1 ++ (a, (k, v)) :: l2) -> dseg h None (l1 ++ l2) None ->
  lru_rep (mk_lru (delete a h) (delete k (lru_map c)) (head_or (l1 ++ l2) None) (last_or None (l1 ++ l2)) (lru_size c))
    (l1 ++ l2).
Proof.
  intros [Hs Hn Hk Hf Hl Hm Hz] Hh. apply nodup_mid in Hn as (Hnd & Ha1 & Ha2). apply keyed_delete in Hk as [Hk Hmap].
  split; try done; cbn [lru_heap lru_map lru_size].
  - eapply (dseg_frame h _ a); [intros b Hb; by rewrite lookup_delete_ne| |done]. rewrite fmap_app. set_solver.
  - by rewrite Hm.
  - rewrite length_app in *. cbn in Hz. lia.
Qed.

Lemma rep_lookup c l1 a k v l2 : lru_rep c (l1 ++ (a, (k, v)) :: l2) -> lru_map c !! k = Some a.
Proof.
  intros Hr. rewrite (rep_map _ _ Hr). apply elem_of_list_to_map_1; [apply (rep_keys _ _ Hr)|].
  apply list_elem_of_fmap. exists (a, (k, v)). split; [done|]. set_solver.
Qed.

Lemma delete_at c l1 a k v l2 :
  lru_rep c (l1 ++ (a, (k, v)) :: l2) ->
  exists c', lru_delete c k = Some c' /\ lru_rep c' (l1 ++ l2) /\ lru_size c' = lru_size c.
Proof.
  intros Hrep. pose proof Hrep as [Hs Hn _ Hf Hl _ _]. unfold lru_delete. rewrite (rep_lookup _ _ _ _ _ _ Hrep).
  rewrite (dseg_middle _ _ _ _ _ _ _ Hs). cbn [mbind option_bind dn_prev dn_next].
  destruct (unlink_next _ _ _ _ _ Hn Hs) as (h1 & E1 & S1 & S2 & _ & _).
  destruct (unlink_prev h1 _ a _ _ Hn S1 S2) as (h2 & E2 & S3 & _).
  pose proof (rep_without _ _ _ _ _ _ _ Hrep S3) as Hr. clear S1 S2 S3.
  assert (lru_size (mk_lru (delete a h2) (delete k (lru_map c)) (head_or (l1 ++ l2) None) (last_or None (l1 ++ l2)) (lru_size c))
    = lru_size c) as Hz by done.
  destruct l1 as [|[p w] l1 _] using rev_ind; destruct l2 as [|[n x] l2]; cbn [head_or] in E1, E2 |- *;
    rewrite ?last_or_snoc in *; cbn [last_or last] in E1, E2 |- *; simplify_eq.
  - eexists. by split.
  - rewrite E2. cbn [mbind option_bind]. eexists. split; [|by split]. do 2 f_equal. cbn [with_list lru_last].
    by rewrite Hl; apply (last_or_app _ [(a, (k, v))]).
  - rewrite E1. cbn [mbind option_bind]. eexists. split; [|by split]. do 2 f_equal; cbn [with_list lru_first lru_last].
    + by rewrite Hf, <- app_assoc, !head_or_app.
    + by rewrite app_nil_r, last_or_snoc.
  - rewrite E1. cbn [mbind option_bind]. rewrite E2. cbn [mbind option_bind]. eexists. split; [|by split].
    do 2 f_equal; cbn [with_list lru_first lru_last].
    + by rewrite Hf, <- !app_assoc, !head_or_app.
    + rewrite Hl, (last_or_app _ _ ((n, x) :: l2)), cons_middle, app_assoc, last_or_app by done. done.
Qed.

Lemma evict_last c l a k v :
  lru_rep c (l ++ [(a, (k, v))]) ->
  exists c', lru_evict c = Some (c', Some (k, v)) /\ lru_rep c' l /\ lru_size c' = lru_size c /\
    forall b, b ∉ (l ++ [(a, (k, v))]).*1 -> lru_heap c' !! b = lru_heap c !! b.
Proof.
  intros Hrep. pose proof Hrep as [Hs Hn _ Hf Hl _ _]. unfold lru_evict. rewrite Hl, last_or_snoc.
  rewrite (dseg_middle _ _ _ _ _ _ _ Hs). cbn [mbind option_bind dn_prev dn_value fst].
  destruct (unlink_next _ _ _ _ _ Hn Hs) as (h1 & E1 & S1 & _ & _ & F1). cbn [head_or] in S1.
  rewrite <- (app_nil_r l) in S1 at 1. pose proof (rep_without _ _ _ _ _ _ _ Hrep S1) as Hr. rewrite app_nil_r in Hr.
  assert (forall b, b ∉ (l ++ [(a, (k, v))]).*1 -> delete a h1 !! b = lru_heap c !! b) as F.
  { intros b. rewrite fmap_app, not_elem_of_app. cbn. intros [Hb1 Hb2]. rewrite lookup_delete_ne by set_solver. by apply F1. }
  destruct l as [|[p w] l _] using rev_ind; rewrite ?last_or_snoc in *; cbn [last_or last head_or] in E1 |- *; simplify_eq.
  - eexists. by split_and!.
  - rewrite E1. cbn [mbind option_bind]. eexists. split; [|by split_and!]. do 3 f_equal; cbn [with_list lru_first].
    by rewrite Hf, <- app_assoc, !head_or_app.
Qed.

(** ** The list specification *)

(** The pairs of the cache, most recently used first. *)
Fixpoint find_key (key : K) (l : list (K * A)) : option A :=
  match l with
  | [] => None
  | (k, v) :: l => if decide (k = key) then Some v else find_key key l
  end.

Definition drop_key (key : K) (l : list (K * A)) : list (K * A) := filter (fun p => p.1 <> key) l.

Definition spec_get (key : K) (l : list (K * A)) : list (K * A) * option A :=
  match find_key key l with
  | None => (l, None)
  | Some v => ((key, v) :: drop_key key l, Some v)
  end.

Definition spec_put (size : nat) (key : K) (value : A) (l : list (K * A)) : list (K * A) :=
  match size with
  | 0 => l
  | S n => (key, value) :: take n (drop_key key l)
  end.

Lemma drop_key_absent key (l : list (K * A)) : key ∉ l.*1 -> drop_key key l = l.
Proof.
  unfold drop_key. induction l as [|[k v] l IH]; [done|]. intros Hk. cbn in Hk. apply not_elem_of_cons in Hk as [Hk Hl].
  rewrite filter_cons_True by (cbn; congruence). by rewrite IH.
Qed.

Lemma find_key_absent key (l : list (K * A)) : key ∉ l.*1 -> find_key key l = None.
Proof.
  induction l as [|[k v] l IH]; [done|]. cbn. intros Hk. apply not_elem_of_cons in Hk as [Hk Hl].
  rewrite decide_False by congruence. by apply IH.
Qed.

Lemma find_key_snoc key k v (l : list (K * A)) :
  find_key key (l ++ [(k, v)]) = match find_key key l with Some w => Some w | None => if decide (k = key) then Some v else None end.
Proof. induction l as [|[k' w] l IH]; [done|]. cbn [app find_key]. destruct (decide (k' = key)); [done|exact IH]. Qed.

Lemma key_mid key v (l1 l2 : list (K * A)) :
  NoDup (l1 ++ (key, v) :: l2).*1 ->
  find_key key (l1 ++ (key, v) :: l2) = Some v /\ drop_key key (l1 ++ (key, v) :: l2) = l1 ++ l2.
Proof.
  intros Hn. apply nodup_mid in Hn as (_ & H1 & H2). split.
  - induction l1 as [|[k w] l1 IH]; cbn; [by rewrite decide_True|]. cbn in H1. apply not_elem_of_cons in H1 as [Hk H1].
    rewrite decide_False by congruence. by apply IH.
  - unfold drop_key. rewrite filter_app, filter_cons_False by (cbn; tauto). fold (drop_key key l1) (drop_key key l2).
    by rewrite !drop_key_absent.
Qed.

Lemma find_drop key key' (l : list (K * A)) : find_key key (drop_key key' l) = if decide (key = key') then None else find_key key l.
Proof.
  induction l as [|[k v] l IH]; [by case_decide|]. unfold drop_key. destruct (decide (k = key')) as [->|Hk].
  - rewrite filter_cons_False by (cbn; tauto). fold (drop_key key' l). rewrite IH. cbn.
    destruct (decide (key = key')) as [->|]; [done|]. by rewrite decide_False by congruence.
  - rewrite filter_cons_True by done. fold (drop_key key' l). cbn. rewrite IH.
    destruct (decide (k = key)) as [->|]; [|done]. by rewrite decide_False.
Qed.

Lemma sublist_keys (l l' : list (K * A)) : l `sublist_of` l' -> NoDup l'.*1 -> NoDup l.*1.
Proof. intros Hsub Hn. eapply sublist_NoDup; [exact Hn|]. by apply fmap_sublist. Qed.

Lemma dropped_key key (l : list (K * A)) : key ∉ (drop_key key l).*1.
Proof. rewrite list_elem_of_fmap. intros (p & -> & Hp). by apply list_elem_of_filter in Hp as [Hp _]. Qed.

(** ** The caches implement the list *)

Definition lru_abs c (xs : list (K * A)) : Prop := exists l, lru_rep c l /\ l.*2 = xs.

Lemma create_abs n : lru_abs (lru_create n) [].
Proof. exists []. split; [|done]. split; try done; [constructor|constructor|cbn; lia]. Qed.

Lemma abs_keys c xs : lru_abs c xs -> NoDup xs.*1.
Proof. intros (l & Hr & <-). rewrite <- keyed_keys. apply (rep_keys _ _ Hr). Qed.

Lemma abs_bound c xs : lru_abs c xs -> length xs <= lru_size c.
Proof. intros (l & Hr & <-). rewrite length_fmap. apply (rep_size _ _ Hr). Qed.

Lemma abs_map_size c xs : lru_abs c xs -> base.size (lru_map c) = length xs.
Proof. intros (l & Hr & <-). rewrite length_fmap. by apply rep_map_size. Qed.

(** A key is in the map and somewhere in the list, or in neither. *)
Lemma abs_cases c xs key :
  lru_abs c xs ->
  (exists a l1 v l2, lru_map c !! key = Some a /\ lru_rep c (l1 ++ (a, (key, v)) :: l2) /\
     xs = l1.*2 ++ (key, v) :: l2.*2 /\ find_key key xs = Some v /\ drop_key key xs = (l1 ++ l2).*2) \/
  (lru_map c !! key = None /\ key ∉ xs.*1 /\ find_key key xs = None /\ drop_key key xs = xs).
Proof.
  intros Habs. pose proof (abs_keys _ _ Habs) as Hn. destruct Habs as (l & Hr & <-).
  destruct (lru_map c !! key) as [a|] eqn:E.
  - left. destruct (rep_found _ _ _ _ Hr E) as (l1 & v & l2 & ->). exists a, l1, v, l2.
    rewrite fmap_app in *. cbn [fmap list_fmap snd] in *. destruct (key_mid _ _ _ _ Hn) as [Hf Hd].
    by rewrite Hd, fmap_app.
  - right. pose proof (rep_absent _ _ _ Hr E). split_and!; [done..|by apply find_key_absent|by apply drop_key_absent].
Qed.

Lemma contains_refines c xs key : lru_abs c xs -> lru_contains c key = bool_decide (is_Some (find_key key xs)).
Proof.
  intros Habs. unfold lru_contains. apply bool_decide_ext.
  destruct (abs_cases c xs key Habs) as [(a & l1 & v & l2 & -> & _ & _ & -> & _)|(-> & _ & -> & _)]; by rewrite !is_Some_alt.
Qed.

Lemma get_refines c xs key :
  lru_abs c xs ->
  exists c', lru_get c key = Some (c', (spec_get key xs).2) /\ lru_abs c' (spec_get key xs).1 /\ lru_size c' = lru_size c.
Proof.
  intros Habs. unfold lru_get, spec_get.
  destruct (abs_cases c xs key Habs) as [(a & l1 & v & l2 & -> & Hr & _ & -> & ->)|(-> & _ & -> & _)]; [|by exists c].
  destruct (move_old _ _ _ _ Hr) as (c' & E & Hr' & Hz). cbn [fst] in E. rewrite E. cbn [mbind option_bind].
  destruct (rep_list _ _ Hr') as [Hv _]. rewrite Hv. exists c'. split_and!; [done| |done]. by exists ((a, (key, v)) :: l1 ++ l2).
Qed.

Lemma delete_refines c xs key :
  lru_abs c xs -> exists c', lru_delete c key = Some c' /\ lru_abs c' (drop_key key xs) /\ lru_size c' = lru_size c.
Proof.
  intros Habs. destruct (abs_cases c xs key Habs) as [(a & l1 & v & l2 & Ha & Hr & _ & _ & ->)|(Ha & _ & _ & ->)].
  - destruct (delete_at _ _ _ _ _ _ Hr) as (c' & -> & Hr' & Hz). exists c'. split_and!; [done| |done]. by exists (l1 ++ l2).
  - unfold lru_delete. rewrite Ha. by exists c.
Qed.

(** A full cache loses its last pair. *)
Lemma room c l :
  lru_rep c l -> lru_size c <> 0 ->
  exists c', (if decide (base.size (lru_map c) = lru_size c) then lru_evict c else Some (c, None))
      = Some (c', l.*2 !! (lru_size c - 1)) /\
    lru_rep c' (take (lru_size c - 1) l) /\ lru_size c' = lru_size c /\
    forall b, b ∉ l.*1 -> lru_heap c' !! b = lru_heap c !! b.
Proof.
  intros Hr Hz. pose proof (rep_size _ _ Hr) as Hlen. rewrite (rep_map_size _ _ Hr). case_decide as Hd.
  - destruct l as [|[a [k v]] l _] using rev_ind; [cbn in Hd; lia|]. rewrite length_app in Hd. cbn in Hd.
    replace (lru_size c - 1) with (length l) by lia. destruct (evict_last _ _ _ _ _ Hr) as (c' & -> & Hr' & Hs & Hh).
    exists c'. rewrite take_app_length, fmap_app, lookup_app_r, length_fmap, Nat.sub_diag by (rewrite length_fmap; lia). done.
  - exists c. rewrite lookup_ge_None_2 by (rewrite length_fmap; lia). by rewrite take_ge by lia.
Qed.

Lemma take_absent_keys n l key : key ∉ l.*2.*1 -> key ∉ (take n l).*2.*1.
Proof. rewrite !fmap_take. intros Hk Hin. apply Hk. rewrite <- (take_drop n (l.*2.*1)). set_solver. Qed.

Lemma new_node_rep c l k v :
  lru_rep c l ->
  let '(c', a) := lru_new_node c k v in
  lru_rep c' l /\ a ∉ l.*1 /\ lru_heap c' !! a = Some (mk_dnode (k, v) None None) /\ lru_size c' = lru_size c /\ lru_map c' = lru_map c.
Proof.
  intros [Hs Hn Hk Hf Hl Hm Hz]. unfold lru_new_node, alloc. set (a := fresh _).
  assert (a ∉ l.*1) as Ha.
  { intros Hin. destruct (dseg_lookup _ _ _ _ _ Hs Hin) as [nd Hnd]. assert (lru_heap c !! a = None) as Hfr by exact (alloc_fresh (lru_heap c) (k, v)). by rewrite Hfr in Hnd. }
  split_and!; try done; [|cbn; by rewrite lookup_insert_eq]. split; try done. cbn [lru_heap].
  eapply (dseg_frame _ _ a); [intros b Hb; by rewrite lookup_insert_ne|done|done].
Qed.

Lemma insert_front c l a k v :
  lru_rep c l -> a ∉ l.*1 -> k ∉ l.*2.*1 -> lru_heap c !! a = Some (mk_dnode (k, v) None None) -> length l < lru_size c ->
  exists c', lru_move (lru_insert c k a) a = Some c' /\ lru_abs c' ((k, v) :: l.*2) /\ lru_size c' = lru_size c.
Proof.
  intros [Hs Hn Hk Hf Hl Hm Hz] Ha Hkey Hnode Hlen.
  destruct (move_new (lru_insert c k a) l (a, (k, v))) as (c' & E & Hr & Hsz).
  - split; try done; cbn [lru_insert lru_map lru_size].
    + by constructor.
    + cbn. rewrite keyed_keys in *. by constructor.
    + by rewrite Hm.
  - exists c'. split_and!; [done| |done]. by exists ((a, (k, v)) :: l).
Qed.

(** A put of a key that is not there, the node allocated before or after. *)
Lemma put_new c xs key value :
  lru_abs c xs -> lru_size c <> 0 -> lru_map c !! key = None ->
  let '(c1, node) := lru_new_node c key value in
  exists c2 c3, (if decide (base.size (lru_map c1) = lru_size c1) then lru_evict c1 else Some (c1, None))
      = Some (c2, xs !! (lru_size c - 1)) /\ lru_contains c2 key = false /\
    lru_move (lru_insert c2 key node) node = Some c3 /\ lru_abs c3 (spec_put (lru_size c) key value xs) /\ lru_size c3 = lru_size c.
Proof.
  intros Habs Hz Hk. destruct (abs_cases c xs key Habs) as [(a & l1 & v & l2 & Ha & _)|(_ & Hkey & _ & Hdrop)]; [by rewrite Hk in Ha|].
  destruct Habs as (l & Hr & <-). pose proof (new_node_rep c l key value Hr) as Hnew.
  destruct (lru_new_node c key value) as [c1 a]. destruct Hnew as (Hr1 & Ha & Hnode & Hs1 & Hm1).
  destruct (room c1 l Hr1) as (c2 & E & Hr2 & Hs2 & Hh); [by rewrite Hs1|].
  rewrite Hs1 in *. destruct (insert_front c2 (take (lru_size c - 1) l) a key value) as (c3 & E3 & Hr3 & Hs3); try done.
  - rewrite fmap_take. intros Hin. apply Ha. rewrite <- (take_drop (lru_size c - 1) l.*1). set_solver.
  - by apply take_absent_keys.
  - by rewrite Hh.
  - rewrite length_take, Hs2. lia.
  - exists c2, c3. split_and!; try done; [|unfold spec_put; destruct (lru_size c) as [|n]; [done|]|by rewrite Hs3].
    + rewrite (contains_refines c2 (take (lru_size c - 1) l).*2 key) by by eexists. rewrite find_key_absent; [done|]. by apply take_absent_keys.
    + rewrite Hdrop, <- fmap_take. by replace (S n - 1) with n in Hr3 by lia.
Qed.

Lemma set_value_rep c l1 a k v l2 w :
  lru_rep c (l1 ++ (a, (k, v)) :: l2) ->
  exists h, set_value (lru_heap c) a (k, w) = Some h /\
    lru_rep (with_list c h (lru_first c) (lru_last c)) (l1 ++ (a, (k, w)) :: l2).
Proof.
  intros [Hs Hn Hk Hf Hl Hm Hz]. unfold set_value. rewrite (dseg_middle _ _ _ _ _ _ _ Hs). cbn [mbind option_bind dn_next dn_prev].
  eexists. split; [reflexivity|]. pose proof Hn as (_ & Ha1 & Ha2)%nodup_mid.
  assert (keyed (l1 ++ (a, (k, w)) :: l2) = keyed (l1 ++ (a, (k, v)) :: l2)) as Hkw by (unfold keyed; by rewrite !fmap_app).
  split; cbn [with_list lru_heap lru_first lru_last lru_map lru_size].
  - apply dseg_app in Hs as [S1 [_ S2]]. apply dseg_app. cbn [head_or dseg] in *. rewrite lookup_insert_eq.
    split_and!; try done; (eapply (dseg_frame _ _ a); [intros b Hb; by rewrite lookup_insert_ne|done|done]).
  - rewrite fmap_app in *. done.
  - by rewrite Hkw.
  - by rewrite Hf, !head_or_app.
  - rewrite Hl. destruct l2 as [|y l2 _] using rev_ind; [by rewrite !last_or_snoc|]. by rewrite !(last_or_app _ l1), !(app_comm_cons l2), !last_or_app.
  - by rewrite Hkw.
  - rewrite length_app in *. done.
Qed.

Lemma put_refines c xs key value :
  lru_abs c xs ->
  exists c', tuple_cache_lru_put c key value = Some c' /\ lru_abs c' (spec_put (lru_size c) key value xs) /\ lru_size c' = lru_size c.
Proof.
  intros Habs. unfold tuple_cache_lru_put. case_decide as Hz; [exists c; by rewrite Hz|].
  destruct (lru_map c !! key) as [node|] eqn:Ek.
  - destruct (abs_cases c xs key Habs) as [(a & l1 & v & l2 & Ha & Hr & -> & _ & Hd)|(Ha & _)]; [|by rewrite Ek in Ha].
    rewrite Ek in Ha. simplify_eq. destruct (set_value_rep c l1 a key v l2 value Hr) as (h & -> & Hr'). cbn [mbind option_bind].
    destruct (move_old _ _ _ _ Hr') as (c' & E & Hr2 & Hs). exists c'. split_and!; [done| |done]. eexists. split; [exact Hr2|].
    pose proof (rep_size _ _ Hr) as Hb. rewrite length_app in Hb. cbn in Hb. unfold spec_put. destruct (lru_size c) as [|n]; [done|].
    rewrite Hd. by rewrite take_ge by (rewrite length_fmap, length_app; lia).
  - pose proof (put_new c xs key value Habs Hz Ek) as Hput. pose proof (abs_bound _ _ Habs) as Hb.
    assert (lru_size (lru_new_node c key value).1 = lru_size c /\ lru_map (lru_new_node c key value).1 = lru_map c) as [Hs1 Hm1].
    { unfold lru_new_node. by destruct (alloc _ _). }
    destruct (lru_new_node c key value) as [c1 node]. cbn [fst] in *. destruct Hput as (c2 & c3 & E & _ & E3 & Hr & Hs).
    assert (lru_size c1 <= base.size (lru_map c1) <-> base.size (lru_map c1) = lru_size c1) as Hiff.
    { rewrite Hs1, Hm1, (abs_map_size _ _ Habs). lia. }
    exists c3. split_and!; try done. destruct (decide (base.size (lru_map c1) = lru_size c1)) as [Hd|Hd].
    + rewrite decide_True by tauto. by rewrite E.
    + rewrite decide_False by tauto. by simplify_eq.
Qed.

Lemma move_refines c xs key node :
  lru_abs c xs -> lru_map c !! key = Some node ->
  exists c', lru_move c node = Some c' /\ lru_abs c' (spec_get key xs).1 /\ lru_size c' = lru_size c.
Proof.
  intros Habs Ek. destruct (abs_cases c xs key Habs) as [(a & l1 & v & l2 & Ha & Hr & _ & Hf & Hd)|(Ha & _)]; [|by rewrite Ek in Ha].
  rewrite Ek in Ha. simplify_eq. destruct (move_old _ _ _ _ Hr) as (c' & E & Hr' & Hs). exists c'. split_and!; [done| |done].
  unfold spec_get. rewrite Hf, Hd. by eexists.
Qed.

Lemma sections_put_refines c xs id section :
  lru_abs c xs ->
  exists c', sections_lru_cache_put c id section = Some c' /\
    lru_abs c' (if decide (is_Some (find_key id xs)) then (spec_get id xs).1 else spec_put (lru_size c) id section xs) /\
    lru_size c' = lru_size c.
Proof.
  intros Habs. unfold sections_lru_cache_put. case_decide as Hz.
  { exists c. split_and!; try done. pose proof (abs_bound _ _ Habs) as Hb. rewrite Hz in *.
    assert (xs = []) as -> by (apply nil_length_inv; lia). by rewrite decide_False by (cbn; by intros []). }
  destruct (abs_cases c xs id Habs) as [(a & l1 & v & l2 & Ha & _ & _ & Hf & _)|(Ha & Hkey & Hf & Hd)]; rewrite Ha, Hf.
  - rewrite decide_True by eauto. by apply move_refines.
  - rewrite (decide_False (P := is_Some None)) by (by intros []). destruct Habs as (l & Hr & <-). destruct (room c l Hr Hz) as (c1 & E & Hr1 & Hs1 & _).
    assert ((if decide (base.size (lru_map c) = lru_size c) then fst <$> lru_evict c else Some c) = Some c1) as ->.
    { case_decide; [by rewrite E|by simplify_eq]. }
    cbn [mbind option_bind]. pose proof (new_node_rep c1 _ id section Hr1) as Hnew.
    destruct (lru_new_node c1 id section) as [c2 node]. destruct Hnew as (Hr2 & Hn & Hnode & Hs2 & _).
    destruct (insert_front c2 (take (lru_size c - 1) l) node id section) as (c3 & E3 & Hr3 & Hs3); try done; [by apply take_absent_keys| |].
    { rewrite length_take, Hs2, Hs1. lia. }
    exists c3. split_and!; [done| |congruence]. unfold spec_put. destruct (lru_size c) as [|n]; [done|].
    rewrite Hd, <- fmap_take. by replace (S n - 1) with n in Hr3 by lia.
Qed.

(** *** The block cache *)

Lemma block_put_new c xs hash value :
  lru_abs c xs -> lru_size c <> 0 -> find_key hash xs = None ->
  exists c', block_lru_cache_put c hash value = Some (c', xs !! (lru_size c - 1)) /\
    lru_abs c' (spec_put (lru_size c) hash value xs) /\ lru_size c' = lru_size c.
Proof.
  intros Habs Hz Hf. destruct (abs_cases c xs hash Habs) as [(a & l1 & v & l2 & _ & _ & _ & Hf' & _)|(Ha & _)]; [by rewrite Hf in Hf'|].
  unfold block_lru_cache_put. rewrite decide_False by done. rewrite Ha. pose proof (put_new c xs hash value Habs Hz Ha) as Hput.
  destruct (lru_new_node c hash value) as [c1 node]. destruct Hput as (c2 & c3 & -> & Hc & E3 & Hr & Hs). cbn [mbind option_bind].
  rewrite Hc, E3. cbn [mbind option_bind]. by exists c3.
Qed.

Lemma block_put_room c xs hash value :
  lru_abs c xs -> length xs <> lru_size c -> is_Some (find_key hash xs) ->
  exists c', block_lru_cache_put c hash value = Some (c', None) /\ lru_abs c' (spec_get hash xs).1 /\ lru_size c' = lru_size c.
Proof.
  intros Habs Hlen [w Hf]. destruct (abs_cases c xs hash Habs) as [(a & l1 & v & l2 & Ha & _)|(_ & _ & Hf' & _)]; [|by rewrite Hf in Hf'].
  pose proof (abs_bound _ _ Habs) as Hb. unfold block_lru_cache_put. rewrite decide_False by lia. rewrite Ha.
  rewrite (abs_map_size _ _ Habs), decide_False by done. cbn [mbind option_bind]. unfold lru_contains. rewrite Ha. rewrite bool_decide_true by eauto.
  destruct (move_refines c xs hash a Habs Ha) as (c' & -> & Hr & Hs). by exists c'.
Qed.

Lemma abs_snoc c xs k v : lru_abs c (xs ++ [(k, v)]) -> exists l a, lru_rep c (l ++ [(a, (k, v))]) /\ l.*2 = xs.
Proof.
  intros (l & Hr & E). destruct l as [|[a w] l _] using rev_ind; [by destruct xs|]. rewrite fmap_app in E. cbn in E.
  apply app_inj_tail in E as [<- ->]. by exists l, a.
Qed.

(** A block that is there is put again into a full cache: another is dropped. *)
Lemma block_put_drops c xs k v hash value :
  lru_abs c (xs ++ [(k, v)]) -> length (xs ++ [(k, v)]) = lru_size c -> is_Some (find_key hash xs) ->
  exists c', block_lru_cache_put c hash value = Some (c', Some (k, v)) /\ lru_abs c' (spec_get hash xs).1 /\ lru_size c' = lru_size c.
Proof.
  intros Habs Hlen Hf. pose proof (abs_map_size _ _ Habs) as Hm. destruct (abs_snoc _ _ _ _ Habs) as (l & a & Hr & <-).
  destruct (evict_last _ _ _ _ _ Hr) as (c1 & E & Hr1 & Hs1 & _). assert (lru_abs c1 l.*2) as Habs1 by by exists l.
  destruct Hf as [w Hf]. destruct (abs_cases c1 l.*2 hash Habs1) as [(b & l1 & u & l2 & Hb & Hr' & _)|(_ & _ & Hf' & _)]; [|by rewrite Hf in Hf'].
  assert (lru_map c !! hash = Some b) as Hb'.
  { rewrite (rep_map _ _ Hr1) in Hb. rewrite (rep_map _ _ Hr). unfold keyed in *. rewrite fmap_app, list_to_map_app.
    by apply lookup_union_Some_l. }
  unfold block_lru_cache_put. rewrite decide_False by (rewrite length_app in Hlen; cbn in Hlen; lia). rewrite Hb'.
  rewrite decide_True by (by rewrite Hm). rewrite E. cbn [mbind option_bind]. unfold lru_contains. rewrite Hb, bool_decide_true by eauto.
  destruct (move_refines c1 l.*2 hash b Habs1 Hb) as (c' & -> & Hr2 & Hs). exists c'. split_and!; [done..|congruence].
Qed.

(** A node that is not allocated cannot be put in front of another. *)
Lemma move_freed c f node : lru_first c = Some f -> f <> node -> lru_heap c !! node = None -> lru_last c <> Some node -> lru_move c node = None.
Proof.
  intros Hf Hn Hh Hl. unfold lru_move, set_next. rewrite Hf, decide_False by done. rewrite Hh.
  case_decide; [done|]. by rewrite decide_False.
Qed.

Lemma block_put_freed c xs hash v value :
  lru_abs c (xs ++ [(hash, v)]) -> length (xs ++ [(hash, v)]) = lru_size c -> xs <> [] -> block_lru_cache_put c hash value = None.
Proof.
  intros Habs Hlen Hne. pose proof (abs_map_size _ _ Habs) as Hm. destruct (abs_snoc _ _ _ _ Habs) as (l & a & Hr & <-).
  destruct (evict_last _ _ _ _ _ Hr) as (c1 & E & Hr1 & Hs1 & _). pose proof (rep_lookup _ _ _ _ _ _ Hr) as Ha.
  unfold block_lru_cache_put. rewrite decide_False by (rewrite length_app in Hlen; cbn in Hlen; lia). rewrite Ha.
  rewrite decide_True by (by rewrite Hm). pose proof E as Hev. rewrite E. cbn [mbind option_bind].
  unfold lru_evict in Hev. rewrite (rep_last _ _ Hr), last_or_snoc in Hev.
  rewrite (dseg_middle _ _ _ _ _ _ _ (rep_list _ _ Hr)) in Hev. cbn [mbind option_bind dn_prev dn_value fst] in Hev.
  assert (lru_heap c1 !! a = None) as Hfree.
  { destruct (last_or None l) as [p|]; [destruct (set_next _ p None); [|done]|]; cbn [mbind option_bind] in Hev;
      injection Hev as <-; cbn; apply lookup_delete_eq. }
  assert (a ∉ l.*1) as Hal by (pose proof (rep_nodes _ _ Hr) as (_ & ? & _)%nodup_mid; done).
  destruct l as [|[f w] l]; [done|]. rewrite (move_freed _ f a); [done|..].
  - transitivity (lru_first c1); [by destruct (lru_contains c1 hash)|by rewrite (rep_first _ _ Hr1)].
  - intros ->. apply Hal. by left.
  - by destruct (lru_contains c1 hash).
  - destruct (last_or_some ((f, w) :: l)) as (b & Eb & Hb); [done|].
    destruct (lru_contains c1 hash); cbn [lru_insert lru_last]; rewrite (rep_last _ _ Hr1), Eb; by intros [= ->].
Qed.
End Rep.

(** ** The caches of blocks and of sections

    [block_lru_cache_t] and [sections_lru_cache_t] have the operations of
    [tuple_cache_lru_t] on their own nodes: the value is a block with its index
    entry or a section, the key its hash or its id.  The statements that write
    to two different nodes come in another order, which no access can tell. *)

Section Copies.
Context {K A B E : Type} `{Countable K}.

Definition block_lru_cache_create : nat -> lru_cache_t K (B * E) := lru_create.
Definition block_lru_cache_move : lru_cache_t K (B * E) -> addr -> option (lru_cache_t K (B * E)) := lru_move.
Definition block_lru_cache_get (lru : lru_cache_t K (B * E)) (hash : K) : option (lru_cache_t K (B * E) * option B) :=
  match lru_get lru hash with Some (lru, value) => Some (lru, fst <$> value) | None => None end.
Definition block_lru_cache_delete : lru_cache_t K (B * E) -> K -> option (lru_cache_t K (B * E)) := lru_delete.
Definition block_lru_cache_contains : lru_cache_t K (B * E) -> K -> bool := lru_contains.

(** No node is moved. *)
Definition block_lru_cache_peek_entry (lru : lru_cache_t K (B * E)) (hash : K) : option (option E) :=
  match lru_map lru !! hash with
  | None => Some None
  | Some node => nd ← lru_heap lru !! node; Some (Some (dn_value nd).2.2)
  end.

Definition sections_lru_cache_create : nat -> lru_cache_t K A := lru_create.
Definition sections_lru_cache_move : lru_cache_t K A -> addr -> option (lru_cache_t K A) := lru_move.
Definition sections_lru_cache_get : lru_cache_t K A -> K -> option (lru_cache_t K A * option A) := lru_get.
Definition sections_lru_cache_delete : lru_cache_t K A -> K -> option (lru_cache_t K A) := lru_delete.
Definition sections_lru_cache_contains : lru_cache_t K A -> K -> bool := lru_contains.

Lemma peek_refines lru (xs : list (K * (B * E))) hash :
  lru_abs lru xs -> block_lru_cache_peek_entry lru hash = Some (snd <$> find_key hash xs).
Proof.
  intros Habs. unfold block_lru_cache_peek_entry.
  destruct (abs_cases lru xs hash Habs) as [(a & l1 & v & l2 & -> & Hr & _ & -> & _)|(-> & _ & -> & _)]; [|done].
  by rewrite (dseg_middle _ _ _ _ _ _ _ (rep_list _ _ Hr)).
Qed.

(** What [block_lru_cache_put] does, on every branch.  A new block goes in
    front and the last one of a full cache is ejected; a block that is there
    moves to the front if there is room; if the cache is full, putting a block
    again ejects another, and putting the last block again accesses the node
    that was just freed. *)
Theorem block_lru_put_cases (lru : lru_cache_t K (B * E)) (xs : list (K * (B * E))) (hash : K) (value : B * E) :
  lru_abs lru xs -> 1 < lru_size lru ->
  match find_key hash xs with
  | None =>
      exists lru', block_lru_cache_put lru hash value = Some (lru', xs !! (lru_size lru - 1)) /\
        lru_abs lru' (spec_put (lru_size lru) hash value xs)
  | Some _ =>
      if decide (length xs = lru_size lru) then
        if decide (fst <$> last xs = Some hash) then block_lru_cache_put lru hash value = None
        else exists lru', block_lru_cache_put lru hash value = Some (lru', last xs) /\
          lru_abs lru' (spec_get hash (removelast xs)).1
      else exists lru', block_lru_cache_put lru hash value = Some (lru', None) /\ lru_abs lru' (spec_get hash xs).1
  end.
Proof.
  intros Habs Hsize. destruct (find_key hash xs) as [w|] eqn:Ef.
  - case_decide as Hlen; [|destruct (block_put_room lru xs hash value Habs Hlen) as (lru' & -> & Hr & _); eauto].
    destruct xs as [|[k v] xs _] using rev_ind; [done|]. rewrite last_snoc, removelast_last. cbn [fmap option_fmap option_map fst].
    case_decide as Hk.
    + injection Hk as ->. eapply block_put_freed; [done..|]. intros ->. cbn in Hlen. lia.
    + destruct (block_put_drops lru xs k v hash value Habs Hlen) as (lru' & -> & Hr & _); [|eauto].
      rewrite find_key_snoc in Ef. destruct (find_key hash xs); [eauto|]. case_decide; [congruence|done].
  - destruct (block_put_new lru xs hash value Habs) as (lru' & -> & Hr & _); [lia|done|eauto].
Qed.
End Copies.

(** A cache of two: the block that was not used for longest is put again. *)
Lemma block_lru_put_cases_witness :
  exists lru : lru_cache_t nat (nat * nat),
    fst <$> block_lru_cache_put (block_lru_cache_create 2) 1 (10, 0) = Some lru /\
    exists lru2, fst <$> block_lru_cache_put lru 2 (20, 0) = Some lru2 /\ block_lru_cache_put lru2 1 (10, 0) = None.
Proof.
  eexists. split; [vm_compute; reflexivity|]. eexists. split; [vm_compute; reflexivity|].
  pose proof (create_abs (K := nat) (A := nat * nat) 2) as H0.
  destruct (block_put_new _ _ 1 (10, 0) H0) as (l1 & E1 & H1 & S1); [done..|]. vm_compute in E1. injection E1 as <-.
  destruct (block_put_new _ _ 2 (20, 0) H1) as (l2 & E2 & H2 & S2); [done..|]. vm_compute in E2. injection E2 as <-.
  exact (block_lru_put_cases _ _ 1 (10, 0) H2 ltac:(vm_compute; lia)).
Defined.
