(* ===== verification/TupleCache.v ===== *)
(** * TupleCache: the cache of decoded blocks

    Models the actor of src/src/OFFStreams/tuple_cache.c on the LRU cache of
    [Lru]: the blocks that tuples decode to, by the hashes of the tuple.  Two
    tuples are the same key of the hash map when [tuple_equals] says so, which
    is when their elements are the same.  A result [None] is an access to
    memory that is not allocated. *)

From stdpp Require Import gmap.
From S2P Require Import Prelude Buffer Tuple DList Lru.

Abbreviation tuple_key := (list (option bytes)).
Abbreviation tuple_cache_t := (lru_cache_t tuple_key buffer_t).

Inductive tuple_cache_message :=
  | TUPLE_CACHE_GET (key : tuple_t) (reply_to : option nat)
  | TUPLE_CACHE_PUT (key : tuple_t) (value : buffer_t)
  | TUPLE_CACHE_REMOVE (key : tuple_t)
  | TUPLE_CACHE_CONTAINS (key : tuple_t)
  | TUPLE_CACHE_SIZE.

(** The [result] field of a payload, and the reply that is sent. *)
Inductive tuple_cache_output :=
  | get_result (value : option buffer_t)
  | TUPLE_CACHE_GET_RESULT (reply_to : nat) (key : tuple_t) (value : option buffer_t)
  | contains_result (found : bool)
  | size_result (entries : nat).

Definition tuple_cache_create (capacity : nat) : tuple_cache_t := lru_create capacity.

Definition reply_get (reply_to : option nat) (key : tuple_t) (value : option buffer_t) : list tuple_cache_output :=
  get_result value :: match reply_to with Some a => [TUPLE_CACHE_GET_RESULT a key value] | None => [] end.

Definition tuple_cache_dispatch (tc : tuple_cache_t) (msg : tuple_cache_message) :
    option (tuple_cache_t * list tuple_cache_output) :=
  match msg with
  | TUPLE_CACHE_GET key reply_to =>
      '(tc, value) ← lru_get tc (elements key);
      Some (tc, reply_get reply_to key value)
  | TUPLE_CACHE_PUT key value =>
      tc ← tuple_cache_lru_put tc (elements key) value;
      Some (tc, [])
  | TUPLE_CACHE_REMOVE key =>
      tc ← lru_delete tc (elements key);
      Some (tc, [])
  | TUPLE_CACHE_CONTAINS key => Some (tc, [contains_result (lru_contains tc (elements key))])
  | TUPLE_CACHE_SIZE => Some (tc, [size_result (size (lru_map tc))])
  end.

(** The actor handles one message at a time. *)
Fixpoint tuple_cache_run (tc : tuple_cache_t) (msgs : list tuple_cache_message) :
    option (tuple_cache_t * list tuple_cache_output) :=
  match msgs with
  | [] => Some (tc, [])
  | msg :: msgs =>
      '(tc, out) ← tuple_cache_dispatch tc msg;
      '(tc, outs) ← tuple_cache_run tc msgs;
      Some (tc, out ++ outs)
  end.

(** ** The specification: a list of pairs *)

Abbreviation lru_list := (list (tuple_key * buffer_t)).

Definition spec_dispatch (n : nat) (l : lru_list) (msg : tuple_cache_message) : lru_list * list tuple_cache_output :=
  match msg with
  | TUPLE_CACHE_GET key reply_to =>
      let '(l, value) := spec_get (elements key) l in (l, reply_get reply_to key value)
  | TUPLE_CACHE_PUT key value => (spec_put n (elements key) value l, [])
  | TUPLE_CACHE_REMOVE key => (drop_key (elements key) l, [])
  | TUPLE_CACHE_CONTAINS key => (l, [contains_result (bool_decide (is_Some (find_key (elements key) l)))])
  | TUPLE_CACHE_SIZE => (l, [size_result (length l)])
  end.

Fixpoint spec_run (n : nat) (l : lru_list) (msgs : list tuple_cache_message) : lru_list * list tuple_cache_output :=
  match msgs with
  | [] => (l, [])
  | msg :: msgs => let '(l, out) := spec_dispatch n l msg in let '(l, outs) := spec_run n l msgs in (l, out ++ outs)
  end.

Lemma dispatch_refines tc l msg :
  lru_abs tc l ->
  exists tc', tuple_cache_dispatch tc msg = Some (tc', (spec_dispatch (lru_size tc) l msg).2) /\
    lru_abs tc' (spec_dispatch (lru_size tc) l msg).1 /\ lru_size tc' = lru_size tc.
Proof.
  intros Habs. destruct msg as [key reply_to|key value|key|key|]; cbn [tuple_cache_dispatch spec_dispatch].
  - destruct (get_refines tc l (elements key) Habs) as (tc' & -> & Hr & Hs). exists tc'. by destruct (spec_get _ _).
  - destruct (put_refines tc l (elements key) value Habs) as (tc' & -> & Hr & Hs). by exists tc'.
  - destruct (delete_refines tc l (elements key) Habs) as (tc' & -> & Hr & Hs). by exists tc'.
  - exists tc. by rewrite (contains_refines tc l _ Habs).
  - exists tc. by rewrite (abs_map_size tc l Habs).
Qed.

Lemma run_refines msgs tc l :
  lru_abs tc l ->
  exists tc', tuple_cache_run tc msgs = Some (tc', (spec_run (lru_size tc) l msgs).2) /\
    lru_abs tc' (spec_run (lru_size tc) l msgs).1 /\ lru_size tc' = lru_size tc.
Proof.
  revert tc l. induction msgs as [|msg msgs IH]; intros tc l Habs; [by exists tc|]. cbn [tuple_cache_run spec_run].
  destruct (dispatch_refines tc l msg Habs) as (tc1 & -> & Habs1 & Hs1). cbn [mbind option_bind].
  destruct (spec_dispatch (lru_size tc) l msg) as [l1 out]. cbn [fst snd] in *.
  destruct (IH tc1 l1 Habs1) as (tc2 & -> & Habs2 & Hs2). rewrite Hs1 in *. exists tc2.
  destruct (spec_run (lru_size tc) l1 msgs) as [l2 outs]. by split_and!.
Qed.

(** ** What a cache without a bound would hold *)

Definition unbounded (m : gmap tuple_key buffer_t) (msg : tuple_cache_message) : gmap tuple_key buffer_t :=
  match msg with
  | TUPLE_CACHE_PUT key value => <[elements key := value]> m
  | TUPLE_CACHE_REMOVE key => delete (elements key) m
  | _ => m
  end.

Definition holds_part (l : lru_list) (m : gmap tuple_key buffer_t) : Prop := forall key v, find_key key l = Some v -> m !! key = Some v.

Lemma find_take key v n (l : lru_list) : find_key key (take n l) = Some v -> find_key key l = Some v.
Proof. revert n. induction l as [|[k w] l IH]; intros [|n]; try done. cbn. case_decide; [done|apply IH]. Qed.

Lemma dispatch_part n l m msg : length l <= n -> holds_part l m -> holds_part (spec_dispatch n l msg).1 (unbounded m msg).
Proof.
  intros Hl Hp key v. destruct msg as [key' reply_to|key' value|key'|key'|]; cbn [spec_dispatch unbounded].
  - unfold spec_get. destruct (find_key (elements key') l) as [w|] eqn:E; cbn [fst]; [|apply Hp].
    cbn [find_key]. rewrite find_drop. case_decide as H1; [intros [= ->]; apply Hp; by subst|]. case_decide; [done|apply Hp].
  - destruct n as [|n]; cbn [spec_put fst find_key]; [by destruct l; [|cbn in Hl; lia]|].
    case_decide as H1; [intros [= ->]; subst; by rewrite lookup_insert_eq|]. intros Hf%find_take. rewrite find_drop in Hf.
    case_decide; [done|]. rewrite lookup_insert_ne by congruence. by apply Hp.
  - cbn [fst]. rewrite find_drop. case_decide; [done|]. intros Hf. rewrite lookup_delete_ne by congruence. by apply Hp.
  - apply Hp.
  - apply Hp.
Qed.

Lemma length_drop_key key (l : lru_list) : length (drop_key key l) <= length l.
Proof. apply length_filter. Qed.

(** The keys whose order a message can change. *)
Definition touched (msg : tuple_cache_message) : gset tuple_key :=
  match msg with
  | TUPLE_CACHE_GET key _ | TUPLE_CACHE_PUT key _ => {[elements key]}
  | _ => ∅
  end.

Definition overwrites (key : tuple_key) (msg : tuple_cache_message) : bool :=
  match msg with
  | TUPLE_CACHE_PUT key' _ | TUPLE_CACHE_REMOVE key' => bool_decide (elements key' = key)
  | _ => false
  end.

(** The pair is in the list, behind keys of [seen] only. *)
Definition behind (seen : gset tuple_key) (key : tuple_key) (v : buffer_t) (l : lru_list) : Prop :=
  NoDup l.*1 /\ exists l1 l2, l = l1 ++ (key, v) :: l2 /\ forall k, k ∈ l1.*1 -> k ∈ seen.

Lemma behind_position (seen : gset tuple_key) key v (l1 l2 : lru_list) :
  NoDup (l1 ++ (key, v) :: l2).*1 -> (forall k, k ∈ l1.*1 -> k ∈ seen) -> length l1 <= size (seen ∖ {[key]}).
Proof.
  intros Hn Hs. apply nodup_mid in Hn as (Hn & Hk & _). rewrite fmap_app in Hn. apply NoDup_app in Hn as [Hn _].
  rewrite <- (length_fmap fst), <- (size_list_to_set (C := gset tuple_key) _ Hn). apply subseteq_size.
  intros k Hin. apply elem_of_list_to_set in Hin. apply elem_of_difference. split; [by apply Hs|]. set_solver.
Qed.

Lemma drop_key_mid key k v (l1 l2 : lru_list) :
  k <> key -> drop_key k (l1 ++ (key, v) :: l2) = drop_key k l1 ++ (key, v) :: drop_key k l2.
Proof. intros Hk. unfold drop_key. rewrite filter_app, filter_cons_True by (cbn; congruence). done. Qed.

Lemma drop_key_keys key k (l : lru_list) : k ∈ (drop_key key l).*1 -> k ∈ l.*1.
Proof. rewrite !list_elem_of_fmap. intros (p & -> & Hp). apply list_elem_of_filter in Hp as [_ Hp]. eauto. Qed.

Lemma dispatch_nodup n l msg : NoDup l.*1 -> NoDup (spec_dispatch n l msg).1.*1.
Proof.
  intros Hn. assert (forall k, NoDup (drop_key k l).*1) as Hd by (intros k; eapply sublist_keys; [apply sublist_filter|done]).
  destruct msg as [key reply_to|key value|key|key|]; cbn [spec_dispatch fst]; try done.
  - unfold spec_get. destruct (find_key _ _); [|done]. cbn [fst fmap list_fmap]. constructor; [apply dropped_key|done].
  - destruct n as [|n]; [done|]. cbn [spec_put fmap list_fmap fst]. constructor.
    + rewrite fmap_take. intros Hin. apply (dropped_key (elements key) l). eapply elem_of_sublist; [exact Hin|apply sublist_take].
    + eapply sublist_keys; [apply sublist_take|done].
Qed.

Lemma dispatch_behind n seen key v l msg :
  behind seen key v l -> overwrites key msg = false -> size ((seen ∪ touched msg) ∖ {[key]}) < n ->
  behind (seen ∪ touched msg) key v (spec_dispatch n l msg).1.
Proof.
  intros [Hn (l1 & l2 & -> & Hs)] Ho Hsize. split; [by apply dispatch_nodup|].
  destruct msg as [key' reply_to|key' value|key'|key'|]; cbn [spec_dispatch overwrites touched fst] in *.
  - unfold spec_get. destruct (decide (elements key' = key)) as [->|Hk].
    + destruct (key_mid _ _ _ _ Hn) as [-> ->]. exists [], (l1 ++ l2). split; [done|]. by intros k Hk%not_elem_of_nil.
    + destruct (find_key _ _) as [w|]; [|exists l1, l2; set_solver]. cbn [fst]. rewrite drop_key_mid by done.
      exists ((elements key', w) :: drop_key (elements key') l1), (drop_key (elements key') l2). split; [done|]. cbn.
      intros k [->|Hk']%elem_of_cons; [set_solver|]. apply drop_key_keys in Hk'. set_solver.
  - apply bool_decide_eq_false in Ho. destruct n as [|m]; [lia|]. cbn [spec_put].
    pose proof (drop_key_mid key (elements key') v l1 l2 Ho) as Hmid. rewrite Hmid. revert Hmid. set (d1 := drop_key (elements key') l1). set (d2 := drop_key (elements key') l2). intros Hmid.
    assert (forall k, k ∈ ((elements key', value) :: d1).*1 -> k ∈ seen ∪ {[elements key']}) as Hd1.
    { cbn. intros k [->|Hk]%elem_of_cons; [set_solver|]. apply drop_key_keys in Hk. set_solver. }
    assert (length ((elements key', value) :: d1) <= m) as Hlen.
    { etransitivity; [apply (behind_position (seen ∪ {[elements key']}) key v _ d2)|lia]; [|done].
      rewrite <- app_comm_cons, <- Hmid. cbn [fmap list_fmap fst]. constructor; [apply dropped_key|].
      eapply sublist_keys; [apply sublist_filter|done]. }
    exists ((elements key', value) :: d1), (take (m - length d1 - 1) d2). split; [|done]. cbn in Hlen.
    cbn [app]. f_equal. rewrite take_app_ge by lia. f_equal. by destruct (m - length d1) as [|q] eqn:Eq; [lia|]; cbn [take]; rewrite Nat.sub_1_r.
  - apply bool_decide_eq_false in Ho. rewrite drop_key_mid by done. eexists _, _. split; [done|].
    intros k Hk%drop_key_keys. set_solver.
  - exists l1, l2. set_solver.
  - exists l1, l2. set_solver.
Qed.

Lemma spec_run_app n l ms1 ms2 : (spec_run n l (ms1 ++ ms2)).1 = (spec_run n (spec_run n l ms1).1 ms2).1.
Proof.
  revert l. induction ms1 as [|msg ms1 IH]; intros l; [done|]. cbn [app spec_run]. destruct (spec_dispatch n l msg) as [l1 out].
  specialize (IH l1). destruct (spec_run n l1 (ms1 ++ ms2)), (spec_run n l1 ms1). exact IH.
Qed.

Lemma spec_run_cons n l msg msgs : (spec_run n l (msg :: msgs)).1 = (spec_run n (spec_dispatch n l msg).1 msgs).1.
Proof. cbn [spec_run]. destruct (spec_dispatch n l msg) as [l1 out]. cbn [fst]. by destruct (spec_run n l1 msgs) as [l2 outs]. Qed.

Lemma run_part tc msgs l m :
  lru_abs tc l -> holds_part l m -> holds_part (spec_run (lru_size tc) l msgs).1 (foldl unbounded m msgs).
Proof.
  revert tc l m. induction msgs as [|msg msgs IH]; intros tc l m Ha Hp; [done|]. rewrite spec_run_cons. cbn [foldl].
  destruct (dispatch_refines tc l msg Ha) as (tc' & _ & Ha' & Hs). rewrite <- Hs at 1. apply IH; [done|].
  apply dispatch_part; [by apply abs_bound|done].
Qed.

Lemma run_behind n seen key v msgs l :
  behind seen key v l -> Forall (fun msg => overwrites key msg = false) msgs ->
  size ((seen ∪ ⋃ (touched <$> msgs)) ∖ {[key]}) < n ->
  find_key key (spec_run n l msgs).1 = Some v.
Proof.
  revert seen l. induction msgs as [|msg msgs IH]; intros seen l Hb Ho Hs.
  - destruct Hb as [Hn (l1 & l2 & -> & _)]. by apply key_mid.
  - apply Forall_cons in Ho as [Ho Hos]. rewrite spec_run_cons. cbn in Hs. rewrite (assoc_L (∪)) in Hs.
    apply (IH (seen ∪ touched msg)); [|done|done]. apply dispatch_behind; [done..|].
    eapply Nat.le_lt_trans; [|exact Hs]. apply subseteq_size. set_solver.
Qed.

(** ** The properties of the actor *)

(** C30: Whatever messages the tuple cache receives, it never accesses memory
    that is not allocated and its answers are those of a list of pairs, the
    most recently used first, that drops the last when it is full; it holds at
    most [capacity] entries, each the last value put for its tuple and not
    removed since. *)
Theorem tuple_cache_refines_lru (n : nat) (msgs : list tuple_cache_message) :
  exists tc, tuple_cache_run (tuple_cache_create n) msgs = Some (tc, (spec_run n [] msgs).2) /\
    lru_abs tc (spec_run n [] msgs).1 /\ size (lru_map tc) <= n /\
    holds_part (spec_run n [] msgs).1 (foldl unbounded ∅ msgs).
Proof.
  destruct (run_refines msgs (tuple_cache_create n) [] (create_abs n)) as (tc & E & Ha & Hs). exists tc. split_and!; [done..| |].
  - rewrite (abs_map_size _ _ Ha). pose proof (abs_bound _ _ Ha) as Hb. by rewrite Hs in Hb.
  - by apply (run_part (tuple_cache_create n) msgs [] ∅ (create_abs n)).
Qed.

(** A value put into the tuple cache is served as long as its tuple is not
    put again or removed and fewer than [capacity] other tuples are looked up
    or put. *)
Theorem tuple_cache_serves (n : nat) (before after : list tuple_cache_message) (key : tuple_t) (v : buffer_t) (reply_to : option nat) :
  Forall (fun msg => overwrites (elements key) msg = false) after ->
  size (⋃ (touched <$> after) ∖ {[elements key]} : gset tuple_key) < n ->
  exists tc outs tc', tuple_cache_run (tuple_cache_create n) (before ++ TUPLE_CACHE_PUT key v :: after) = Some (tc, outs) /\
    tuple_cache_dispatch tc (TUPLE_CACHE_GET key reply_to) = Some (tc', reply_get reply_to key (Some v)).
Proof.
  intros Ho Hsize. set (msgs := before ++ _).
  destruct (run_refines msgs (tuple_cache_create n) [] (create_abs n)) as (tc & E & Ha & Hs). exists tc. eexists.
  destruct (dispatch_refines tc _ (TUPLE_CACHE_GET key reply_to) Ha) as (tc' & Ed & _). exists tc'. split; [exact E|]. rewrite Ed.
  cbn [spec_dispatch tuple_cache_create lru_create lru_size]. unfold spec_get. subst msgs.
  rewrite spec_run_app, spec_run_cons, (run_behind n ∅ (elements key) v); [done| |done|by rewrite (left_id_L ∅ (∪))].
  destruct n as [|m]; [lia|]. cbn [spec_dispatch fst spec_put]. split; [|exists []; eexists; split; [done|]; by intros k Hk%not_elem_of_nil].
  apply (dispatch_nodup (S m) _ (TUPLE_CACHE_PUT key v)).
  destruct (run_refines before (tuple_cache_create (S m)) [] (create_abs (S m))) as (tc1 & _ & Ha1 & _). by apply abs_keys in Ha1.
Qed.

(** Two entries: a tuple survives one other, looked up and put. *)
Lemma tuple_cache_serves_witness :
  let key h := tuple_of 1 [[h]] in
  exists tc outs tc', tuple_cache_run (tuple_cache_create 2)
      ([TUPLE_CACHE_PUT (key 1%Z) (exact_buffer [7%Z]); TUPLE_CACHE_PUT (key 2%Z) (exact_buffer [8%Z])] ++
       TUPLE_CACHE_PUT (key 3%Z) (exact_buffer [9%Z]) ::
       [TUPLE_CACHE_GET (key 2%Z) None; TUPLE_CACHE_REMOVE (key 1%Z); TUPLE_CACHE_PUT (key 2%Z) (exact_buffer [8%Z])]) = Some (tc, outs) /\
    tuple_cache_dispatch tc (TUPLE_CACHE_GET (key 3%Z) (Some 5)) = Some (tc', reply_get (Some 5) (key 3%Z) (Some (exact_buffer [9%Z]))).
Proof.
  intros key. apply (tuple_cache_serves 2); [|vm_compute; lia].
  repeat constructor.
Defined.
