(* ===== verification/Sections.v ===== *)
(** * Sections: the pool of sections

    Models src/src/BlockCache/sections.c: blocks are written to the sections of
    the round robin in turn; full sections leave it and fresh ones join it; a
    bounded number of sections is open at a time, and a section that is closed
    saves its metadata and is opened again when it is needed.

    The LRU cache of open sections is the list that [Lru] shows its pointers to
    implement, most recently used first, and the doubly linked list of the round
    robin is a list of ids.  A section that is in the cache is mutated in place.
    The files are part of the state, by section id; [io] gives the outcomes of
    the platform calls by section.  A result [None] is the dereference of NULL.
    [visit] is the order in which the hash map enumerates the open sections.

    The theorems say that the pool is one store of blocks: what has been written
    is read back whichever sections have been closed, opened, filled, added or
    compacted since. *)

From Stdlib Require Import SpecFloat.
From stdpp Require Import gmap.
From S2P Require Import Prelude Platform FreeMap Section Block DList Lru Effect.
Local Open Scope Z_scope.

(** ** State *)

Record sections_t := mk_sections {
  ss_lru : list (Z * section_t);
  ss_cache_size : nat;
  ss_robin : list Z;
  ss_max_tuple_size : nat;
  ss_next_id : Z;
  ss_size : nat;
  ss_type : block_size_e;
  ss_max_bytes : Z;
  ss_timer : bool;              (* sections->timer_actor != NULL *)
  ss_disks : gmap Z disk_t      (* the files of the sections *)
}.

#[export] Instance sections_settable : Settable sections_t := fields! mk_sections
  [ss_lru; ss_cache_size; ss_robin; ss_max_tuple_size; ss_next_id; ss_size; ss_type; ss_max_bytes; ss_timer; ss_disks].

Abbreviation ios := (Z -> io_t).

Definition no_files : disk_t := mk_disk None None None.
Definition disk (st : sections_t) (id : Z) : disk_t := default no_files (ss_disks st !! id).
Definition set_disk (st : sections_t) (id : Z) (d : disk_t) : sections_t := st <| ss_disks := <[id := d]> (ss_disks st) |>.

Record block_relocation_t := mk_relocation { rl_section_id : Z; rl_old_index : nat; rl_new_index : Z }.

Inductive sections_msg :=
| SECTIONS_WRITE (data : bytes) (reply_to : option actor_id)
| SECTIONS_READ (section_id : Z) (section_index : nat) (reply_to : option actor_id)
| SECTIONS_DEALLOCATE (section_id : Z) (section_index : nat) (reply_to : option actor_id)
| SECTIONS_SECTION_FULL (section_id : Z)
| SECTIONS_SAVE_META                                   (* SECTION_SAVE_META *)
| SECTIONS_WRITE_META (visit : list Z)                 (* SECTION_WRITE_META *)
| SECTIONS_DEFRAGMENT (occupancy_threshold : spec_float) (reply_to : option actor_id) (visit : list Z)
| SECTIONS_OTHER (type : Z).

(** What a handler leaves in the payload. *)
Inductive sections_payload :=
| sections_write_payload (result : Z) (section_id : Z) (section_index : nat)
| sections_read_payload (result : option bytes)
| sections_deallocate_payload (result : Z)
| sections_defragment_payload (result : Z) (sections_defragmented : nat) (relocations : list block_relocation_t)
| sections_no_payload.

Inductive sections_event :=
| ev_sections_write_result (to : actor_id) (result : Z) (section_id : Z) (section_index : nat)
| ev_sections_read_result (to : actor_id) (section_id : Z) (section_index : nat) (data : option bytes)
| ev_sections_deallocate_result (to : actor_id) (result : Z)
| ev_sections_defragment_result (to : actor_id) (result : Z) (sections_defragmented : nat) (relocation_count : nat)
| ev_debounce_write_meta
| ev_robin_saved (ids : list Z).

Definition answer (to : option actor_id) (ev : actor_id -> sections_event) : list sections_event :=
  match to with Some a => [ev a] | None => [] end.

(** ** Round robin *)

Definition round_robin_add (robin : list Z) (id : Z) : list Z := robin ++ [id].
Definition round_robin_unshift (robin : list Z) (id : Z) : list Z := id :: robin.

(** The first node becomes the last. *)
Definition round_robin_next (robin : list Z) : option (Z * list Z) :=
  match robin with
  | [] => None
  | id :: rest => Some (id, rest ++ [id])
  end.

Fixpoint round_robin_remove (robin : list Z) (id : Z) : list Z :=
  match robin with
  | [] => []
  | current :: rest => if current =? id then rest else current :: round_robin_remove rest id
  end.

Definition round_robin_contains (robin : list Z) (id : Z) : bool := existsb (fun current => current =? id) robin.

(** ** Open sections *)

Definition section_destroy (io : io_t) (s : section_t) (d : disk_t) : disk_t :=
  if sec_dirty s then section_save_meta io s d else d.

(** [sections_lru_cache_put]; a section that is dropped is destroyed. *)
Definition lru_put (io : ios) (st : sections_t) (s : section_t) : sections_t :=
  if decide (ss_cache_size st = 0)%nat then st
  else if decide (is_Some (find_key (sec_id s) (ss_lru st))) then st <| ss_lru := (spec_get (sec_id s) (ss_lru st)).1 |>
  else
    let st :=
      if decide (length (ss_lru st) = ss_cache_size st) then
        match last (ss_lru st) with
        | Some (id, old) => set_disk (st <| ss_lru := removelast (ss_lru st) |>) id (section_destroy (io id) old (disk st id))
        | None => st
        end
      else st in
    st <| ss_lru := (sec_id s, s) :: ss_lru st |>.

Definition section_bytes (st : sections_t) : nat := Z.to_nat (block_size (ss_type st)).

(** [section_create] and [sections_lru_cache_put]. *)
Definition open_new (io : ios) (st : sections_t) (id : Z) : option (section_t * sections_t) :=
  match section_create (io id) (disk st id) (ss_size st) id (section_bytes st) with
  | None => None
  | Some (s, d) => Some (s, lru_put io (set_disk st id d) s)
  end.

(** The section object was mutated: it is the one in the cache, if it is there. *)
Definition update_section (st : sections_t) (s : section_t) : sections_t :=
  st <| ss_lru := (fun p => if decide (p.1 = sec_id s) then (p.1, s) else p) <$> ss_lru st |>.

(** [section_dispatch], with the [on_dirty] callback. *)
Definition section_on_dirty (io : io_t) (timer : bool) (s : section_t) (d : disk_t) : section_t * disk_t * list sections_event :=
  if timer then (s, d, [ev_debounce_write_meta]) else (set_dirty s false, section_save_meta io s d, []).

Definition dispatch_section (io : ios) (st : sections_t) (s : section_t) (msg : section_msg) :
    sections_t * section_payload * list sections_event :=
  let id := sec_id s in
  let '(s, d, payload, evs) := section_dispatch (io id) s (disk st id) msg in
  let '(s, d, out) :=
    if existsb (fun ev => match ev with ev_on_dirty => true | _ => false end) evs
    then section_on_dirty (io id) (ss_timer st) s d else (s, d, []) in
  (update_section (set_disk st id d) s, payload, out).

(** ** The size of the pool *)

Definition _sections_bytes_for_type (type : block_size_e) : Z :=
  match type with mega => 1000000 | standard => 128000 | mini => 64000 | nano => 136 end.

Definition _sections_target_count (st : sections_t) : Z :=
  if ss_max_bytes st =? 0 then 0
  else
    let section_bytes := u64 (Z.of_nat (ss_size st) * _sections_bytes_for_type (ss_type st)) in
    if section_bytes =? 0 then 0
    else u64 (u64 (ss_max_bytes st + section_bytes - 1) / section_bytes + 1).

Definition robin_size (st : sections_t) : Z := Z.of_nat (length (ss_robin st)).

Definition _sections_create_fresh (io : ios) (st : sections_t) : option (Z * sections_t) :=
  match open_new io st (ss_next_id st) with
  | None => None
  | Some (s, st) => Some (sec_id s, st <| ss_next_id := u64 (ss_next_id st + 1) |>)
  end.

(** [None] is the return value -1. *)
Definition _sections_grow (io : ios) (st : sections_t) : option sections_t :=
  match _sections_create_fresh io st with
  | None => None
  | Some (id, st) => Some (st <| ss_robin := round_robin_add (ss_robin st) id |>)
  end.

(** [while (robin->size < max_tuple_size)]: each turn adds one section. *)
Fixpoint refill (io : ios) (fuel : nat) (st : sections_t) : sections_t :=
  match fuel with
  | O => st
  | S fuel =>
      if robin_size st <? Z.of_nat (ss_max_tuple_size st) then
        match _sections_create_fresh io st with
        | None => st
        | Some (id, st) => refill io fuel (st <| ss_robin := round_robin_unshift (ss_robin st) id |>)
        end
      else st
  end.

(** [while (robin->size < want)]. *)
Fixpoint grow_to (io : ios) (fuel : nat) (want : Z) (st : sections_t) : sections_t :=
  match fuel with
  | O => st
  | S fuel =>
      if robin_size st <? want then
        match _sections_grow io st with
        | None => st
        | Some st => grow_to io fuel want st
        end
      else st
  end.

Definition sections_full (io : ios) (st : sections_t) (section_id : Z) : sections_t :=
  let pre_remove := robin_size st in
  let st := st <| ss_robin := round_robin_remove (ss_robin st) section_id |> in
  let st := refill io (ss_max_tuple_size st) st in
  let target := _sections_target_count st in
  if negb (target =? 0) && (robin_size st <? target) then
    let want := Z.min ((if robin_size st <=? pre_remove then pre_remove else robin_size st) + 1) target in
    grow_to io (Z.to_nat (want - robin_size st)) want st
  else st.

Definition sections_free (st : sections_t) (section_id : Z) : sections_t :=
  if round_robin_contains (ss_robin st) section_id then st
  else st <| ss_robin := round_robin_add (ss_robin st) section_id |>.

Definition sections_set_max_bytes (st : sections_t) (max_total_bytes : Z) : sections_t := st <| ss_max_bytes := max_total_bytes |>.

(** ** SECTIONS_WRITE *)

Definition is_sections_full (s : section_t) : bool := free_map_is_full (sec_free_map s).

Record write_loop_t := mk_write_loop { wl_result : Z; wl_section_id : Z; wl_section_index : nat }.

(** One turn of the loop: [inl] breaks with the payload, [inr] goes on; the
    number is what the turn adds to [full_rotations]. *)
Definition write_turn (io : ios) (st : sections_t) (data : bytes) (p : write_loop_t) :
    sections_t * list sections_event * (write_loop_t + write_loop_t * nat) :=
  match round_robin_next (ss_robin st) with
  | None => (st, [], inl p)
  | Some (id, robin) =>
      let st := st <| ss_robin := robin |> in
      let p := mk_write_loop (wl_result p) id (wl_section_index p) in
      let opened :=
        match spec_get id (ss_lru st) with
        | (lru, Some s) => Some (s, st <| ss_lru := lru |>, false)
        | (_, None) => match open_new io st id with None => None | Some (s, st) => Some (s, st, is_sections_full s) end
        end in
      match opened with
      | None => (st, [], inl (mk_write_loop (-1) id (wl_section_index p)))
      | Some (_, st, true) => (sections_full io st id, [], inr (p, 0%nat))
      | Some (s, st, false) =>
          let '(st, payload, evs) := dispatch_section io st s (SECTION_WRITE data None) in
          match payload with
          | write_payload result index full =>
              let p := mk_write_loop result id index in
              let '(st, rotated) :=
                if (result =? 2) || full then
                  let st := sections_full io st id in
                  (if (result =? 2) && ((robin_size st <=? Z.of_nat (ss_max_tuple_size st)) || (robin_size st <? _sections_target_count st))
                   then default st (_sections_grow io st) else st, 1%nat)
                else (st, 0%nat) in
              (st, evs, if result =? 2 then inr (p, rotated) else inl p)
          | _ => (st, evs, inl p)
          end
      end
  end.

(** [None]: out of fuel. *)
Fixpoint write_loop (io : ios) (fuel attempts full_rotations : nat) (st : sections_t) (data : bytes) (p : write_loop_t) :
    option (sections_t * write_loop_t * list sections_event) :=
  match fuel with
  | O => None
  | S fuel =>
      if (length (ss_robin st) + full_rotations + ss_max_tuple_size st <=? attempts)%nat then Some (st, p, [])
      else
        match write_turn io st data p with
        | (st, evs, inl p) => Some (st, p, evs)
        | (st, evs, inr (p, rotated)) =>
            '(st, p, evs') ← write_loop io fuel (S attempts) (full_rotations + rotated) st data p;
            Some (st, p, evs ++ evs')
        end
  end.

(** The number of turns: each one that goes on takes a full section out of the
    round robin. *)
Definition write_fuel (st : sections_t) : nat := S (length (ss_robin st)).

Definition sections_handle_write (io : ios) (st : sections_t) (data : bytes) (reply_to : option actor_id) :
    option (sections_t * sections_payload * list sections_event) :=
  '(st, p, evs) ← write_loop io (write_fuel st) 0 0 st data (mk_write_loop (-1) 0 0);
  Some (st, sections_write_payload (wl_result p) (wl_section_id p) (wl_section_index p),
        evs ++ answer reply_to (fun a => ev_sections_write_result a (wl_result p) (wl_section_id p) (wl_section_index p))).

(** ** SECTIONS_READ and SECTIONS_DEALLOCATE *)

(** The section of an id, opened if necessary; one with room that is opened
    joins the round robin.  [None]: [section_create] returned NULL, which is
    not tested. *)
Definition obtain (io : ios) (st : sections_t) (id : Z) : option (section_t * sections_t) :=
  match spec_get id (ss_lru st) with
  | (lru, Some s) => Some (s, st <| ss_lru := lru |>)
  | (_, None) =>
      '(s, st) ← open_new io st id;
      Some (s, if negb (is_sections_full s) && negb (round_robin_contains (ss_robin st) id)
               then st <| ss_robin := round_robin_add (ss_robin st) id |> else st)
  end.

Definition sections_handle_read (io : ios) (st : sections_t) (id : Z) (index : nat) (reply_to : option actor_id) :
    option (sections_t * sections_payload * list sections_event) :=
  '(s, st) ← obtain io st id;
  let '(st, payload, evs) := dispatch_section io st s (SECTION_READ index None) in
  let result := match payload with read_payload r => r | _ => None end in
  Some (st, sections_read_payload result, evs ++ answer reply_to (fun a => ev_sections_read_result a id index result)).

Definition sections_handle_deallocate (io : ios) (st : sections_t) (id : Z) (index : nat) (reply_to : option actor_id) :
    option (sections_t * sections_payload * list sections_event) :=
  '(s, st) ← obtain io st id;
  let '(st, payload, evs) := dispatch_section io st s (SECTION_DEALLOCATE index None) in
  let result := match payload with deallocate_payload r => r | _ => -1 end in
  let st := if result =? 0 then sections_free st id else st in
  Some (st, sections_deallocate_payload result, evs ++ answer reply_to (fun a => ev_sections_deallocate_result a result)).

(** ** SECTION_WRITE_META *)

Definition write_meta (io : ios) (st : sections_t) (id : Z) : sections_t :=
  match find_key id (ss_lru st) with
  | Some s => if sec_dirty s then set_disk (update_section st (set_dirty s false)) id (section_save_meta (io id) s (disk st id)) else st
  | None => st
  end.

(** ** SECTIONS_DEFRAGMENT *)

Definition float_of_nat (n : nat) : spec_float := binary_normalize 24 128 (Z.of_nat n) 0 false.

(** [(float)(total - free_count) / (float)total]. *)
Definition occupancy (total free_count : nat) : spec_float :=
  SFdiv 24 128 (float_of_nat (total - free_count)) (float_of_nat total).

Definition skip_section (threshold : spec_float) (s : section_t) : bool :=
  let total := fm_total_blocks (sec_free_map s) in
  let free_count := free_map_count_free (sec_free_map s) in
  (total =? 0)%nat || SFleb threshold (occupancy total free_count) || (free_count =? total)%nat || (total - free_count <=? 1)%nat.

(** [(size_t)-1] marks a slot that is free. *)
Definition relocation_entry (id : Z) (relocation : list Z) (i : nat) : option block_relocation_t :=
  match relocation !! i with
  | Some new => if (new =? u64 (-1)) || (new =? Z.of_nat i) then None else Some (mk_relocation id i new)
  | None => None
  end.

Definition relocations_of (id : Z) (total : nat) (relocation : list Z) : list block_relocation_t :=
  omap (relocation_entry id relocation) (seq 0 total).

Definition defragment_section (io : ios) (threshold : spec_float) (acc : sections_t * nat * list block_relocation_t) (id : Z) :
    sections_t * nat * list block_relocation_t :=
  let '(st, n, relocations) := acc in
  match find_key id (ss_lru st) with
  | None => acc
  | Some s =>
      if skip_section threshold s then acc
      else
        let '(st, payload, _) := dispatch_section io st s (SECTION_DEFRAGMENT None) in
        match payload with
        | defragment_payload 0 _ (Some relocation) _ =>
            (st, S n, relocations ++ relocations_of id (fm_total_blocks (sec_free_map s)) relocation)
        | _ => (st, n, relocations)
        end
  end.

Definition sections_handle_defragment (io : ios) (st : sections_t) (threshold : spec_float) (reply_to : option actor_id)
    (visit : list Z) : sections_t * sections_payload * list sections_event :=
  let '(st, n, relocations) := foldl (defragment_section io threshold) (st, 0%nat, []) visit in
  (st, sections_defragment_payload 0 n relocations,
   answer reply_to (fun a => ev_sections_defragment_result a 0 n (length relocations))).

(** ** Dispatch *)

Definition sections_dispatch (io : ios) (st : sections_t) (msg : sections_msg) :
    option (sections_t * sections_payload * list sections_event) :=
  match msg with
  | SECTIONS_WRITE data reply_to => sections_handle_write io st data reply_to
  | SECTIONS_READ id index reply_to => sections_handle_read io st id index reply_to
  | SECTIONS_DEALLOCATE id index reply_to => sections_handle_deallocate io st id index reply_to
  | SECTIONS_SECTION_FULL id => Some (sections_full io st id, sections_no_payload, [])
  | SECTIONS_SAVE_META => Some (st, sections_no_payload, [ev_robin_saved (ss_robin st)])
  | SECTIONS_WRITE_META visit => Some (foldl (write_meta io) st visit, sections_no_payload, [])
  | SECTIONS_DEFRAGMENT threshold reply_to visit => Some (sections_handle_defragment io st threshold reply_to visit)
  | SECTIONS_OTHER _ => Some (st, sections_no_payload, [])
  end.

(** ** Creation *)

(** The sections of the round robin file: full ones are replaced. *)
Definition refresh (io : ios) (st : sections_t) (id : Z) : option sections_t :=
  '(s, st) ← open_new io st id;
  Some (if is_sections_full s then sections_full io st id else st).

(** [while (robin->size < max_tuple_size)]. *)
Fixpoint create_floor (io : ios) (fuel : nat) (st : sections_t) : option sections_t :=
  match fuel with
  | O => Some st
  | S fuel =>
      if robin_size st <? Z.of_nat (ss_max_tuple_size st) then
        '(s, st) ← open_new io (st <| ss_next_id := u64 (ss_next_id st + 1) |>) (ss_next_id st);
        create_floor io fuel (st <| ss_robin := round_robin_add (ss_robin st) (sec_id s) |>)
      else Some st
  end.

(** [ids] is the contents of the round robin file, [last_id] the number of the
    last file of the metadata directory. *)
Definition sections_create (io : ios) (size cache_size max_tuple_size : nat) (type : block_size_e) (timer : bool)
    (files : gmap Z disk_t) (ids : list Z) (last_id : option Z) : option sections_t :=
  let next_id := match last_id with Some last => u64 (last + 1) | None => 0 end in
  let st := mk_sections [] cache_size ids max_tuple_size next_id size type 0 timer files in
  st ← foldl (fun st id => st ← st; refresh io st id) (Some st) ids;
  create_floor io max_tuple_size st.

(** ** The pool as one store *)

Definition stored_map (st : sections_t) (id : Z) : option free_map_t :=
  match d_meta (disk st id) with
  | Some meta => free_map_deserialize meta
  | None => Some (free_map_init (ss_size st))
  end.

(** The section of an id: the open one, or what opening it would give. *)
Definition section_of (st : sections_t) (id : Z) : option section_t :=
  match find_key id (ss_lru st) with
  | Some s => Some s
  | None => (fun fm => mk_section id false fm (section_bytes st) false) <$> stored_map st id
  end.

Definition block_at (st : sections_t) (id : Z) (i : nat) : option bytes :=
  match section_of st id with Some s => contents s (disk st id) i | None => None end.

Record section_ok (st : sections_t) (id : Z) (s : section_t) : Prop := {
  so_inv : section_inv s (disk st id);
  so_id : sec_id s = id;
  so_bytes : sec_block_size s = section_bytes st;
  so_plan : d_plan (disk st id) = None;
  so_saved : sec_dirty s = false -> stored_map st id = Some (sec_free_map s)
}.

Definition has_room (st : sections_t) (id : Z) : Prop :=
  exists s, section_of st id = Some s /\ is_sections_full s = false.

Record sections_inv (st : sections_t) : Prop := {
  si_section : forall id, exists s, section_of st id = Some s /\ section_ok st id s;
  si_keys : NoDup (ss_lru st).*1;
  si_bound : (length (ss_lru st) <= ss_cache_size st)%nat;
  si_cache : (0 < ss_cache_size st)%nat;
  si_robin : NoDup (ss_robin st);
  si_room : forall id, id ∈ ss_robin st -> has_room st id;
  si_known : forall id, id ∈ ss_robin st -> 0 <= id < ss_next_id st;
  si_fresh : forall id, ~ (0 <= id < ss_next_id st) -> find_key id (ss_lru st) = None /\ d_meta (disk st id) = None;
  si_next : 0 <= ss_next_id st;
  si_size : (0 < ss_size st)%nat;
  si_offsets : Z.of_nat (ss_size st * section_bytes st) <= OFF_MAX;
  si_total : Z.of_nat (ss_size st) < 2 ^ 32
}.

(** The metadata files can be opened and written. *)
Definition meta_ok (io : ios) : Prop := forall id, io_open_meta (io id) = true /\ io_write_meta (io id) = None.

(** The configuration does not change. *)
Definition same_config (st st' : sections_t) : Prop :=
  ss_cache_size st' = ss_cache_size st /\ ss_max_tuple_size st' = ss_max_tuple_size st /\ ss_size st' = ss_size st /\
  ss_type st' = ss_type st /\ ss_max_bytes st' = ss_max_bytes st /\ ss_timer st' = ss_timer st.

Definition same_blocks (st st' : sections_t) : Prop := forall id i, block_at st' id i = block_at st id i.

(** *** Lists of pairs *)

Lemma find_key_in {K A} `{EqDecision K} (key : K) (v : A) (l : list (K * A)) : find_key key l = Some v -> (key, v) ∈ l.
Proof.
  induction l as [|[k w] l IH]; [done|]. cbn. case_decide as Hk; [intros [= ->]; subst; by left|]. intros Hf. right. by apply IH.
Qed.

Lemma find_key_none {K A} `{EqDecision K} (key : K) (l : list (K * A)) : find_key key l = None <-> key ∉ l.*1.
Proof.
  induction l as [|[k w] l IH]; [split; [intros _; apply not_elem_of_nil|done]|]. cbn. rewrite not_elem_of_cons.
  case_decide as Hk; [naive_solver|]. rewrite IH. naive_solver.
Qed.

Lemma disk_set st id d id' : disk (set_disk st id d) id' = if decide (id' = id) then d else disk st id'.
Proof.
  unfold disk, set_disk. cbn. case_decide as Hd; [subst; by rewrite lookup_insert_eq|]. by rewrite lookup_insert_ne.
Qed.

(** *** The state of a section does not depend on its handle and its flag *)

Lemma contents_flags s s' d d' :
  sec_free_map s' = sec_free_map s -> sec_block_size s' = sec_block_size s -> d_data d' = d_data d ->
  forall i, contents s' d' i = contents s d i.
Proof. intros H1 H2 H3. apply contents_same; [done|done|]. unfold data_content. by rewrite H3. Qed.

Lemma save_meta_stored io s d :
  io_open_meta io = true -> io_write_meta io = None -> section_save_meta io s d = set_meta d (Some (free_map_serialize (sec_free_map s))).
Proof. intros H1 H2. unfold section_save_meta. by rewrite H1, H2, rewrite_complete. Qed.

(** *** Changes that keep every section *)

(** The section of [id] is the same up to its handle and its flag. *)
Definition kept (st st' : sections_t) (id : Z) : Prop :=
  forall s, section_of st id = Some s -> section_ok st id s ->
  exists s', section_of st' id = Some s' /\ section_ok st' id s' /\ sec_free_map s' = sec_free_map s /\
    sec_block_size s' = sec_block_size s /\ d_data (disk st' id) = d_data (disk st id).

Lemma kept_frame st st' id :
  find_key id (ss_lru st') = find_key id (ss_lru st) -> disk st' id = disk st id -> ss_size st' = ss_size st -> ss_type st' = ss_type st ->
  kept st st' id.
Proof.
  intros H1 H2 H3 H4 s Hs Hok. assert (stored_map st' id = stored_map st id) as Hm by (unfold stored_map; by rewrite H2, H3).
  exists s. split_and!; [|destruct Hok as [I1 I2 I3 I4 I5]; split; rewrite ?H2, ?Hm; unfold section_bytes in *; rewrite ?H4; done|done|done|by rewrite H2].
  unfold section_of in *. unfold section_bytes in *. by rewrite H1, Hm, H4.
Qed.

Lemma kept_block st st' id i : sections_inv st -> kept st st' id -> block_at st' id i = block_at st id i.
Proof.
  intros Hinv Hk. destruct (si_section st Hinv id) as (s & Hs & Hok). destruct (Hk s Hs Hok) as (s' & Hs' & _ & Hm & Hb & Hd).
  unfold block_at. rewrite Hs, Hs'. by apply contents_flags.
Qed.

Lemma kept_room st st' id : sections_inv st -> kept st st' id -> has_room st id -> has_room st' id.
Proof.
  intros Hinv Hk (s & Hs & Hr). destruct (si_section st Hinv id) as (s0 & Hs0 & Hok). rewrite Hs in Hs0. injection Hs0 as <-.
  destruct (Hk s Hs Hok) as (s' & Hs' & _ & Hm & _). exists s'. split; [done|]. unfold is_sections_full in *. by rewrite Hm.
Qed.

(** The invariant after a change that keeps every section. *)
Lemma inv_change st st' :
  sections_inv st -> same_config st st' -> ss_next_id st <= ss_next_id st' ->
  NoDup (ss_lru st').*1 -> (length (ss_lru st') <= ss_cache_size st)%nat -> (forall id, kept st st' id) ->
  (forall id, ~ (0 <= id < ss_next_id st') -> find_key id (ss_lru st') = None /\ d_meta (disk st' id) = None) ->
  NoDup (ss_robin st') -> (forall id, id ∈ ss_robin st' -> has_room st' id /\ 0 <= id < ss_next_id st') -> sections_inv st'.
Proof.
  intros Hinv (C1 & C2 & C3 & C4 & C5 & C6) Hn Hk Hl Hkept Hf Hr Hroom. split; rewrite ?C1, ?C3; try done; try (by apply Hroom);
    try (pose proof (si_next st Hinv); lia); try apply Hinv.
  - intros id. destruct (si_section st Hinv id) as (s & Hs & Hok). destruct (Hkept id s Hs Hok) as (s' & Hs' & Hok' & _). eauto.
  - unfold section_bytes. rewrite C4. apply (si_offsets st Hinv).
Qed.

Lemma inv_kept st st' :
  sections_inv st -> same_config st st' -> ss_robin st' = ss_robin st -> ss_next_id st' = ss_next_id st ->
  NoDup (ss_lru st').*1 -> (length (ss_lru st') <= ss_cache_size st)%nat -> (forall id, kept st st' id) ->
  (forall id, ~ (0 <= id < ss_next_id st) -> find_key id (ss_lru st') = None /\ d_meta (disk st' id) = None) ->
  sections_inv st'.
Proof.
  intros Hinv Hc Hr Hn Hk Hl Hkept Hf. apply (inv_change st); rewrite ?Hr, ?Hn; try done; [apply (si_robin st Hinv)|].
  intros id Hid. split; [|by apply (si_known st Hinv)]. apply (kept_room st); [done..|]. by apply (si_room st Hinv).
Qed.

(** ** Opening and closing *)

Lemma disk_lru st l id : disk (st <| ss_lru := l |>) id = disk st id.
Proof. done. Qed.

Lemma fresh_closed st id : sections_inv st -> ~ (0 <= id < ss_next_id st) -> find_key id (ss_lru st) = None /\ d_meta (disk st id) = None.
Proof. intros Hinv. apply (si_fresh st Hinv). Qed.

(** A closed section is what its metadata says. *)
Lemma closed_section st id s :
  section_of st id = Some s -> find_key id (ss_lru st) = None ->
  stored_map st id = Some (sec_free_map s) /\ s = mk_section id false (sec_free_map s) (section_bytes st) false.
Proof. unfold section_of. intros Hs Hn. rewrite Hn in Hs. destruct (stored_map st id) as [fm|]; [|done]. cbn in Hs. by injection Hs as <-. Qed.

Lemma stored_lru st l id : stored_map (st <| ss_lru := l |>) id = stored_map st id.
Proof. done. Qed.

(** What the destruction of a section leaves on disk. *)
Lemma destroy_saved io st id s :
  meta_ok io -> section_ok st id s ->
  let d := section_destroy (io id) s (disk st id) in
  d_data d = d_data (disk st id) /\ d_plan d = None /\
  match d_meta d with Some meta => free_map_deserialize meta | None => Some (free_map_init (ss_size st)) end = Some (sec_free_map s).
Proof.
  intros Hio Hok. destruct (Hio id) as [H1 H2]. cbn zeta. unfold section_destroy. destruct (sec_dirty s) eqn:Ed.
  - rewrite (save_meta_stored _ _ _ H1 H2). cbn [d_meta d_plan d_data set_meta]. split_and!; [done|apply Hok|].
    rewrite <- (app_nil_r (free_map_serialize _)). apply deserialize_serialize; apply (so_inv _ _ _ Hok).
  - split_and!; [done|apply Hok|]. by apply (so_saved _ _ _ Hok).
Qed.

Lemma close_kept io st rest id s :
  sections_inv st -> meta_ok io -> ss_lru st = rest ++ [(id, s)] ->
  let st' := set_disk (st <| ss_lru := rest |>) id (section_destroy (io id) s (disk st id)) in
  sections_inv st' /\ (forall id', kept st st' id').
Proof.
  intros Hinv Hio Hl st'. pose proof (si_keys st Hinv) as Hk. rewrite Hl in Hk. pose proof Hk as (Hk' & Hid & _)%nodup_mid.
  rewrite app_nil_r in Hk'. assert (forall id', id' <> id -> find_key id' rest = find_key id' (ss_lru st)) as Hf.
  { intros id' Hne. rewrite Hl, find_key_snoc. destruct (find_key id' rest); [done|]. by rewrite decide_False. }
  assert (forall id', disk st' id' = if decide (id' = id) then section_destroy (io id) s (disk st id) else disk st id') as Hd
    by (intros; unfold st'; by rewrite disk_set).
  assert (section_of st id = Some s) as Hs.
  { unfold section_of. rewrite Hl, find_key_snoc. rewrite (proj2 (find_key_none id rest)) by done. by rewrite decide_True. }
  assert (forall id', kept st st' id') as Hkept.
  { intros id'. destruct (decide (id' = id)) as [->|Hne].
    2: { apply kept_frame; [by apply Hf|by rewrite Hd, decide_False|done|done]. }
    intros s0 Hs0 Hok. rewrite Hs in Hs0. injection Hs0 as <-.
    destruct (destroy_saved io st id s Hio Hok) as (Hdata & Hplan & Hmap).
    assert (stored_map st' id = Some (sec_free_map s)) as Hsm.
    { unfold stored_map. rewrite Hd, decide_True by done. exact Hmap. }
    exists (mk_section id false (sec_free_map s) (section_bytes st) false).
    split_and!; [|split|done|symmetry; apply (so_bytes _ _ _ Hok)|by rewrite Hd, decide_True].
    - unfold section_of. cbn [ss_lru st' set_disk]. change (ss_lru st') with rest.
      rewrite (proj2 (find_key_none id rest)) by done. by rewrite Hsm.
    - rewrite Hd, decide_True by done. apply (section_inv_same s _ (disk st id)); try done; [symmetry; apply (so_bytes _ _ _ Hok)| |apply Hok].
      unfold data_content. by rewrite Hdata.
    - done.
    - done.
    - by rewrite Hd, decide_True.
    - done. }
  split; [|done]. apply (inv_kept st); try done.
  - apply (Nat.le_trans _ (length (ss_lru st))); [rewrite Hl, length_app; cbn; lia|apply (si_bound st Hinv)].
  - intros id' Hge. destruct (si_fresh st Hinv id' Hge) as [Hn Hm]. assert (id' <> id) as Hne.
    { intros ->. unfold section_of in Hs. rewrite Hn in Hs. rewrite Hl, find_key_snoc in Hn.
      destruct (find_key id rest); [done|]. by rewrite decide_True in Hn. }
    rewrite Hd, decide_False by done. split; [|done]. change (ss_lru st') with rest. by rewrite Hf.
Qed.

Lemma insert_kept st id s :
  sections_inv st -> find_key id (ss_lru st) = None -> section_of st id = Some s -> (length (ss_lru st) < ss_cache_size st)%nat ->
  0 <= id < ss_next_id st ->
  let st' := st <| ss_lru := (id, s) :: ss_lru st |> in
  sections_inv st' /\ (forall id', kept st st' id') /\ find_key id (ss_lru st') = Some s.
Proof.
  intros Hinv Hn Hs Hlen Hid st'. assert (find_key id (ss_lru st') = Some s) as Hf by (cbn; by rewrite decide_True).
  assert (forall id', kept st st' id') as Hkept.
  { intros id'. destruct (decide (id' = id)) as [->|Hne].
    - intros s0 Hs0 Hok. rewrite Hs in Hs0. injection Hs0 as <-. exists s. unfold section_of at 1. rewrite Hf.
      split_and!; [done| |done..]. by destruct Hok.
    - apply kept_frame; try done. cbn. by rewrite decide_False. }
  split_and!; [|done|done]. apply (inv_kept st); try done.
  - cbn. constructor; [by apply find_key_none|apply (si_keys st Hinv)].
  - intros id' Hge. destruct (si_fresh st Hinv id' Hge) as [Hn' Hm]. split; [|done]. cbn. rewrite decide_False; [done|lia].
Qed.

(** What an operation that only opens and closes sections preserves. *)
Record opens (st st' : sections_t) : Prop := {
  op_inv : sections_inv st';
  op_kept : forall id, kept st st' id;
  op_config : same_config st st';
  op_robin : ss_robin st' = ss_robin st;
  op_next : ss_next_id st' = ss_next_id st
}.

Lemma kept_trans st1 st2 st3 id : kept st1 st2 id -> kept st2 st3 id -> kept st1 st3 id.
Proof.
  intros H1 H2 s Hs Hok. destruct (H1 s Hs Hok) as (s2 & Hs2 & Hok2 & E1 & E2 & E3).
  destruct (H2 s2 Hs2 Hok2) as (s3 & Hs3 & Hok3 & E4 & E5 & E6). exists s3. split_and!; [done..|congruence|congruence|congruence].
Qed.

Lemma lru_put_opens io st id s :
  sections_inv st -> meta_ok io -> find_key id (ss_lru st) = None -> section_of st id = Some s -> 0 <= id < ss_next_id st ->
  opens st (lru_put io st s) /\ find_key id (ss_lru (lru_put io st s)) = Some s.
Proof.
  intros Hinv Hio Hn Hs Hid. assert (sec_id s = id) as Es.
  { destruct (closed_section st id s Hs Hn) as [_ ->]. done. }
  pose proof (si_cache st Hinv) as Hc. unfold lru_put. rewrite decide_False by lia. rewrite Es, Hn.
  rewrite (decide_False (P := is_Some None)) by (by intros []). case_decide as Hlen.
  - destruct (ss_lru st) as [|[id' old] rest _] eqn:El using rev_ind; [cbn in Hlen; lia|]. rewrite last_snoc, removelast_last.
    destruct (close_kept io st rest id' old Hinv Hio El) as [Hinv1 Hkept1]. set (st1 := set_disk _ _ _) in *.
    assert (find_key id (ss_lru st1) = None) as Hn1.
    { change (ss_lru st1) with rest. rewrite find_key_snoc in Hn. by destruct (find_key id rest). }
    assert (id' <> id) as Hne.
    { intros ->. rewrite find_key_snoc in Hn. destruct (find_key id rest); [done|]. by rewrite decide_True in Hn. }
    assert (section_of st1 id = Some s) as Hs1.
    { destruct (closed_section st id s Hs) as [Hm ->]; [by rewrite El|]. unfold section_of. rewrite Hn1.
      assert (stored_map st1 id = stored_map st id) as ->; [|by rewrite Hm].
      unfold stored_map, st1. rewrite disk_set, decide_False by done. done. }
    destruct (insert_kept st1 id s Hinv1 Hn1 Hs1) as (Hinv2 & Hkept2 & Hf2).
    { change (ss_lru st1) with rest. change (ss_cache_size st1) with (ss_cache_size st). rewrite length_app in Hlen. cbn in Hlen. lia. }
    { done. }
    split; [|done]. split; try done. intros id0. by eapply kept_trans.
  - destruct (insert_kept st id s Hinv Hn Hs) as (Hinv2 & Hkept2 & Hf2); [|done|by split].
    pose proof (si_bound st Hinv). lia.
Qed.

Lemma set_disk_opens st id : sections_inv st -> opens st (set_disk st id (disk st id)).
Proof.
  intros Hinv. assert (forall id', disk (set_disk st id (disk st id)) id' = disk st id') as Hd.
  { intros id'. rewrite disk_set. by case_decide; subst. }
  assert (forall id', kept st (set_disk st id (disk st id)) id') as Hkept by (intros id'; by apply kept_frame).
  split; try done. apply (inv_kept st); try done; [apply (si_keys st Hinv)|apply (si_bound st Hinv)|].
  intros id' Hge. rewrite Hd. by apply (si_fresh st Hinv).
Qed.

Lemma opens_trans st1 st2 st3 : opens st1 st2 -> opens st2 st3 -> opens st1 st3.
Proof.
  intros [I1 K1 C1 R1 N1] [I2 K2 C2 R2 N2]. split; [done| | |congruence|congruence].
  - intros id. by eapply kept_trans.
  - unfold same_config in *. destruct_and!. split_and!; congruence.
Qed.

Lemma open_new_opens io st id :
  sections_inv st -> meta_ok io -> find_key id (ss_lru st) = None -> 0 <= id < ss_next_id st ->
  exists s st', open_new io st id = Some (s, st') /\ section_of st id = Some s /\ opens st st' /\ find_key id (ss_lru st') = Some s.
Proof.
  intros Hinv Hio Hn Hid. destruct (si_section st Hinv id) as (s & Hs & Hok). destruct (closed_section st id s Hs Hn) as [Hm Es].
  unfold open_new, section_create. destruct (Hio id) as [Hopen _]. rewrite Hopen.
  replace (match d_meta (disk st id) with Some meta => free_map_deserialize meta | None => Some (free_map_init (ss_size st)) end)
    with (stored_map st id) by done. rewrite Hm. unfold section_defrag_plan_recover. rewrite (so_plan _ _ _ Hok).
  pose proof (set_disk_opens st id Hinv) as Ho. destruct (lru_put_opens io (set_disk st id (disk st id)) id s) as [Ho2 Hf]; try done.
  - apply Ho.
  - unfold section_of. cbn [ss_lru set_disk]. change (ss_lru (set_disk st id (disk st id))) with (ss_lru st). rewrite Hn.
    unfold stored_map. rewrite disk_set, decide_True by done. unfold section_of in Hs. by rewrite Hn in Hs.
  - rewrite <- Es. exists s. eexists. split; [done|]. split_and!; [done|by eapply opens_trans|done].
Qed.

(** ** Fresh sections *)

Lemma lru_put_next io st s n : lru_put io (st <| ss_next_id := n |>) s = (lru_put io st s) <| ss_next_id := n |>.
Proof.
  unfold lru_put. cbn [ss_cache_size ss_lru set]. case_decide; [done|]. case_decide; [done|]. case_decide; [|done].
  by destruct (last (ss_lru st)) as [[]|].
Qed.

Lemma open_new_next io st id n :
  open_new io (st <| ss_next_id := n |>) id = match open_new io st id with Some (s, st') => Some (s, st' <| ss_next_id := n |>) | None => None end.
Proof.
  unfold open_new. change (disk (st <| ss_next_id := n |>) id) with (disk st id). cbn [ss_size set].
  change (section_bytes (st <| ss_next_id := n |>)) with (section_bytes st).
  destruct (section_create _ _ _ _ _) as [[s d]|]; [|done]. f_equal. f_equal. apply (lru_put_next io (set_disk st id d)).
Qed.

Lemma open_new_next_id io st id s st' : open_new io st id = Some (s, st') -> ss_next_id st' = ss_next_id st.
Proof.
  unfold open_new. destruct (section_create _ _ _ _ _) as [[s0 d]|]; [|done]. intros [= <- <-]. unfold lru_put.
  case_decide; [done|]. case_decide; [done|]. case_decide; [|done]. by destruct (last _) as [[]|].
Qed.

(** What an operation that also adds fresh sections preserves; it adds at most
    [k] of them. *)
Record grows (k : Z) (st st' : sections_t) : Prop := {
  gr_inv : sections_inv st';
  gr_kept : forall id, kept st st' id;
  gr_config : same_config st st';
  gr_next : ss_next_id st <= ss_next_id st' <= ss_next_id st + k
}.

Lemma grows_refl st : sections_inv st -> grows 0 st st.
Proof. intros Hinv. split; [done| |done|lia]. intros id. by apply kept_frame. Qed.

Lemma grows_trans k1 k2 st1 st2 st3 : grows k1 st1 st2 -> grows k2 st2 st3 -> grows (k1 + k2) st1 st3.
Proof.
  intros [I1 K1 C1 N1] [I2 K2 C2 N2]. split; [done| | |lia].
  - intros id. by eapply kept_trans.
  - unfold same_config in *. destruct_and!. split_and!; congruence.
Qed.

Lemma grows_le k k' st st' : grows k st st' -> k <= k' -> grows k' st st'.
Proof. intros [I K C N] Hle. split; [done..|lia]. Qed.

Lemma opens_grows st st' : opens st st' -> grows 0 st st'.
Proof. intros [I K C R N]. split; [done..|lia]. Qed.

Lemma grows_blocks k st st' : sections_inv st -> grows k st st' -> same_blocks st st'.
Proof. intros Hinv Hg id i. apply kept_block; [done|apply Hg]. Qed.

(** Another round robin. *)
Lemma inv_robin st robin :
  sections_inv st -> NoDup robin -> (forall id, id ∈ robin -> has_room st id /\ 0 <= id < ss_next_id st) -> grows 0 st (st <| ss_robin := robin |>).
Proof.
  intros Hinv Hn Hr. assert (forall id, kept st (st <| ss_robin := robin |>) id) as Hk by (intros id; by apply kept_frame).
  split; [|done|done|cbn; lia]. apply (inv_change st); try done; apply Hinv.
Qed.

Lemma init_not_full n : (0 < n)%nat -> free_map_is_full (free_map_init n) = false.
Proof.
  intros Hn. apply not_true_iff_false. rewrite free_map_is_full_spec by apply free_map_init_wf. intros Hf.
  specialize (Hf 0%nat Hn). rewrite free_map_init_free in Hf. apply Nat.ltb_ge in Hf. lia.
Qed.

Lemma next_inv st n : sections_inv st -> ss_next_id st <= n -> grows (n - ss_next_id st) st (st <| ss_next_id := n |>).
Proof.
  intros Hinv Hle. assert (forall id, kept st (st <| ss_next_id := n |>) id) as Hk by (intros id; by apply kept_frame).
  split; [|done|done|cbn; lia]. apply (inv_change st); try done; try apply Hinv; cbn.
  - intros id Hid. apply (si_fresh st Hinv). lia.
  - intros id Hid. split; [apply (kept_room st); [done..|by apply (si_room st Hinv)]|]. pose proof (si_known st Hinv id Hid). lia.
Qed.

Lemma create_fresh_grows io st :
  sections_inv st -> meta_ok io -> ss_next_id st + 1 < 2 ^ 64 ->
  exists st', _sections_create_fresh io st = Some (ss_next_id st, st') /\ grows 1 st st' /\ ss_robin st' = ss_robin st /\
    has_room st' (ss_next_id st) /\ ss_next_id st' = ss_next_id st + 1.
Proof.
  intros Hinv Hio Hw. unfold _sections_create_fresh. set (id := ss_next_id st).
  assert (ss_next_id st <= id + 1) as Hle by (unfold id; lia). pose proof (next_inv st (id + 1) Hinv Hle) as G1.
  destruct (si_fresh st Hinv id ltac:(unfold id; lia)) as [Hn Hm].
  destruct (open_new_opens io (st <| ss_next_id := id + 1 |>) id (gr_inv _ _ _ G1) Hio Hn) as (s & st' & E & Hs & Ho & Hf);
    [pose proof (si_next st Hinv); cbn; lia|].
  rewrite open_new_next in E. destruct (open_new io st id) as [[s1 st1]|] eqn:Eo; [|done]. injection E as -> <-.
  apply open_new_next_id in Eo as Hnx. fold id in Hnx.
  assert (s = mk_section id false (free_map_init (ss_size st)) (section_bytes st) false) as ->.
  { unfold section_of in Hs. change (ss_lru (st <| ss_next_id := id + 1 |>)) with (ss_lru st) in Hs. rewrite Hn in Hs.
    unfold stored_map in Hs. change (disk (st <| ss_next_id := id + 1 |>) id) with (disk st id) in Hs. rewrite Hm in Hs. by injection Hs as <-. }
  assert (u64 (id + 1) = id + 1) as Hu by (apply u64_small; unfold is_u64; pose proof (si_next st Hinv); unfold id; lia).
  exists (st1 <| ss_next_id := id + 1 |>). cbn [sec_id]. rewrite Hnx, Hu. split_and!; try done.
  - eapply grows_le; [eapply grows_trans; [exact G1|apply opens_grows, Ho]|unfold id; lia].
  - apply (op_robin _ _ Ho).
  - eexists. unfold section_of. cbn [ss_lru set] in *. rewrite Hf. split; [done|]. apply init_not_full, (si_size st Hinv).
Qed.

Lemma grow_grows io st :
  sections_inv st -> meta_ok io -> ss_next_id st + 1 < 2 ^ 64 ->
  exists st', _sections_grow io st = Some st' /\ grows 1 st st' /\ ss_robin st' = ss_robin st ++ [ss_next_id st] /\
    ss_next_id st' = ss_next_id st + 1.
Proof.
  intros Hinv Hio Hw. destruct (create_fresh_grows io st Hinv Hio Hw) as (st1 & E & G & Hr & Hroom & Hn).
  unfold _sections_grow, round_robin_add. rewrite E. eexists. split; [done|]. rewrite Hr. split_and!; [|done|done].
  change 1 with (1 + 0). eapply grows_trans; [exact G|]. apply inv_robin; [apply G| |].
  - apply NoDup_app. split_and!; [apply (si_robin st Hinv)| |apply NoDup_singleton].
    intros id Hid ->%list_elem_of_singleton. pose proof (si_known st Hinv _ Hid). lia.
  - intros id [Hid| ->%list_elem_of_singleton]%elem_of_app; [|split; [done|pose proof (si_next st Hinv); lia]]. rewrite <- Hr in Hid.
    split; [by apply (si_room _ (gr_inv _ _ _ G))|by apply (si_known _ (gr_inv _ _ _ G))].
Qed.

(** The round robin has at least [max_tuple_size] sections. *)
Definition floor (st : sections_t) : Prop := (ss_max_tuple_size st <= length (ss_robin st))%nat.

(** Ids that join are fresh. *)
Definition joins (st st' : sections_t) : Prop :=
  (length (ss_robin st) <= length (ss_robin st'))%nat /\ forall id, id ∈ ss_robin st' -> id ∈ ss_robin st \/ ss_next_id st <= id.

Lemma joins_trans st1 st2 st3 : joins st1 st2 -> joins st2 st3 -> ss_next_id st1 <= ss_next_id st2 -> joins st1 st3.
Proof.
  intros [L1 J1] [L2 J2] Hn. split; [lia|]. intros id Hid. destruct (J2 id Hid) as [H|H]; [by apply J1|right; lia].
Qed.

Lemma refill_grows io fuel st :
  sections_inv st -> meta_ok io -> ss_next_id st + Z.of_nat fuel < 2 ^ 64 ->
  grows (Z.of_nat fuel) st (refill io fuel st) /\ joins st (refill io fuel st) /\
  (Z.of_nat (ss_max_tuple_size st) <= Z.of_nat fuel + robin_size st -> floor (refill io fuel st)).
Proof.
  revert st. induction fuel as [|fuel IH]; intros st Hinv Hio Hw; cbn [refill].
  { split_and!; [by apply grows_refl|split; auto|]. unfold floor, robin_size. lia. }
  destruct (Z.ltb_spec (robin_size st) (Z.of_nat (ss_max_tuple_size st))) as [Hlt|Hge].
  2: { split_and!; [eapply grows_le; [by apply grows_refl|lia]|split; auto|]. unfold floor, robin_size in *. lia. }
  destruct (create_fresh_grows io st Hinv Hio ltac:(lia)) as (st1 & E & G & Hr & Hroom & Hn). rewrite E. unfold round_robin_unshift.
  set (st2 := st1 <| ss_robin := ss_next_id st :: ss_robin st1 |>).
  assert (grows 0 st1 st2) as G2.
  { apply inv_robin; [apply G| |].
    - constructor; [|rewrite Hr; apply (si_robin st Hinv)]. rewrite Hr. intros Hid%(si_known st Hinv). lia.
    - intros id [->|Hid]%elem_of_cons; [split; [done|pose proof (si_next st Hinv); lia]|].
      split; [by apply (si_room _ (gr_inv _ _ _ G))|by apply (si_known _ (gr_inv _ _ _ G))]. }
  assert (ss_next_id st2 = ss_next_id st + 1) as Hn2 by done.
  assert (ss_robin st2 = ss_next_id st :: ss_robin st) as Hr2 by (unfold st2; cbn; by rewrite Hr).
  destruct (IH st2 (gr_inv _ _ _ G2) Hio ltac:(lia)) as (G3 & J3 & F3). split_and!.
  - eapply grows_le; [eapply grows_trans; [exact G|eapply grows_trans; [exact G2|exact G3]]|lia].
  - eapply joins_trans; [|exact J3|lia]. split; rewrite Hr2; [cbn; lia|]. intros id [->|Hid]%elem_of_cons; [right; lia|by left].
  - intros Hle. apply F3. unfold robin_size in *. rewrite Hr2. destruct (gr_config _ _ _ G) as (_ & Hmt & _).
    change (ss_max_tuple_size st2) with (ss_max_tuple_size st1). rewrite Hmt. cbn [length]. lia.
Qed.

Lemma grow_to_grows io fuel want st :
  sections_inv st -> meta_ok io -> ss_next_id st + Z.of_nat fuel < 2 ^ 64 ->
  grows (Z.of_nat fuel) st (grow_to io fuel want st) /\ joins st (grow_to io fuel want st).
Proof.
  revert st. induction fuel as [|fuel IH]; intros st Hinv Hio Hw; cbn [grow_to].
  { split; [by apply grows_refl|split; auto]. }
  destruct (robin_size st <? want); [|split; [eapply grows_le; [by apply grows_refl|lia]|split; auto]].
  destruct (grow_grows io st Hinv Hio ltac:(lia)) as (st1 & -> & G & Hr & Hn).
  destruct (IH st1 (gr_inv _ _ _ G) Hio ltac:(lia)) as [G3 J3]. split.
  - eapply grows_le; [eapply grows_trans; [exact G|exact G3]|lia].
  - eapply joins_trans; [|exact J3|lia]. split; rewrite Hr; [rewrite length_app; lia|].
    intros id [Hid| ->%list_elem_of_singleton]%elem_of_app; [by left|right; lia].
Qed.

Lemma remove_sublist robin id : round_robin_remove robin id `sublist_of` robin.
Proof. induction robin as [|c robin IH]; [done|]. cbn. destruct (c =? id); [by constructor|by constructor]. Qed.

Lemma remove_length robin id : (length robin <= S (length (round_robin_remove robin id)))%nat.
Proof. induction robin as [|c robin IH]; [cbn; lia|]. cbn. destruct (c =? id); cbn; lia. Qed.

Lemma remove_gone robin id : NoDup robin -> id ∉ round_robin_remove robin id.
Proof.
  induction robin as [|c robin IH]; cbn; intros Hn; [apply not_elem_of_nil|]. apply NoDup_cons in Hn as [Hc Hn].
  destruct (Z.eqb_spec c id) as [->|Hne]; [done|]. apply not_elem_of_cons. split; [congruence|by apply IH].
Qed.

Lemma sections_full_weak io st id :
  let st0 := st <| ss_robin := round_robin_remove (ss_robin st) id |> in
  sections_inv st0 -> NoDup (ss_robin st) -> meta_ok io -> ss_next_id st + Z.of_nat (ss_max_tuple_size st) + 2 < 2 ^ 64 ->
  grows (Z.of_nat (ss_max_tuple_size st) + 2) st0 (sections_full io st id) /\ floor (sections_full io st id) /\
  (0 <= id < ss_next_id st -> id ∉ ss_robin (sections_full io st id)).
Proof.
  intros st0 Hinv0 Hnd Hio Hw. unfold sections_full. fold st0.
  destruct (refill_grows io (ss_max_tuple_size st0) st0 Hinv0 Hio) as (G1 & J1 & F1);
    [change (ss_next_id st0) with (ss_next_id st); change (ss_max_tuple_size st0) with (ss_max_tuple_size st); lia|].
  specialize (F1 ltac:(unfold robin_size; lia)). set (st1 := refill io _ st0) in *.
  pose proof (gr_next _ _ _ G1) as Hn1. change (ss_next_id st0) with (ss_next_id st) in Hn1.
  change (Z.of_nat (ss_max_tuple_size st0)) with (Z.of_nat (ss_max_tuple_size st)) in *.
  assert (forall st2, joins st1 st2 -> 0 <= id < ss_next_id st -> id ∉ ss_robin st2) as Hgone.
  { intros st2 J2 Hlt Hin. destruct (proj2 J2 id Hin) as [Hin1|Hge]; [|lia]. destruct (proj2 J1 id Hin1) as [Hin0|Hge].
    - by apply (remove_gone (ss_robin st) id Hnd).
    - change (ss_next_id st0) with (ss_next_id st) in Hge. lia. }
  destruct (negb _ && _); [|split_and!; [eapply grows_le; [exact G1|lia]|done|apply Hgone; split; auto]].
  set (want := Z.min _ _). set (fuel := Z.to_nat (want - robin_size st1)).
  assert (Z.of_nat fuel <= 2) as Hfuel.
  { pose proof (remove_length (ss_robin st) id) as Hl. pose proof (proj1 J1) as Hj.
    change (ss_robin st0) with (round_robin_remove (ss_robin st) id) in Hj. unfold fuel, want, robin_size.
    destruct (Z.leb_spec (Z.of_nat (length (ss_robin st1))) (Z.of_nat (length (ss_robin st)))); lia. }
  destruct (grow_to_grows io fuel want st1 (gr_inv _ _ _ G1) Hio ltac:(lia)) as [G3 J3]. split_and!.
  - eapply grows_le; [eapply grows_trans; [exact G1|exact G3]|lia].
  - unfold floor in *. destruct (gr_config _ _ _ G3) as (_ & -> & _). pose proof (proj1 J3). lia.
  - by apply Hgone.
Qed.

Lemma remove_grows st id : sections_inv st -> grows 0 st (st <| ss_robin := round_robin_remove (ss_robin st) id |>).
Proof.
  intros Hinv. apply inv_robin; [done|eapply sublist_NoDup; [apply (si_robin st Hinv)|apply remove_sublist]|]. intros id' Hid.
  assert (id' ∈ ss_robin st) by (eapply elem_of_sublist; [exact Hid|apply remove_sublist]).
  split; [by apply (si_room st Hinv)|by apply (si_known st Hinv)].
Qed.

Lemma sections_full_grows io st id :
  sections_inv st -> meta_ok io -> ss_next_id st + Z.of_nat (ss_max_tuple_size st) + 2 < 2 ^ 64 ->
  grows (Z.of_nat (ss_max_tuple_size st) + 2) st (sections_full io st id) /\ floor (sections_full io st id).
Proof.
  intros Hinv Hio Hw. pose proof (remove_grows st id Hinv) as G0.
  destruct (sections_full_weak io st id (gr_inv _ _ _ G0) (si_robin st Hinv) Hio Hw) as (G1 & F & _). split; [|done].
  rewrite <- (Z.add_0_l (_ + 2)). by eapply grows_trans.
Qed.

(** ** A message to an open section *)

(** What the handlers of a section leave alone. *)
Definition plain (msg : section_msg) : bool :=
  match msg with SECTION_WRITE _ _ | SECTION_READ _ _ | SECTION_DEALLOCATE _ _ => true | _ => false end.

Lemma handler_frame io s d msg :
  section_inv s d -> plain msg = true ->
  let '(s', d', _, _) := section_dispatch io s d msg in
  sec_id s' = sec_id s /\ sec_block_size s' = sec_block_size s /\ d_meta d' = d_meta d /\ d_plan d' = d_plan d /\
  (sec_dirty s' = false -> sec_dirty s = false /\ sec_free_map s' = sec_free_map s).
Proof.
  intros Hinv. destruct msg as [data rt|index rt|index rt| | |rt]; try done; intros _; cbn [section_dispatch].
  - unfold section_handle_write. destruct (negb _); [done|]. pose proof (alloc_then_dealloc _ (inv_map s d Hinv)) as Halloc.
    destruct (free_map_alloc (sec_free_map s)) as [[idx|] fm']; [|done]. destruct Halloc as (_ & _ & _ & _ & _ & _ & Hdealloc).
    unfold open_data. cbn [sec_file set_free_map]. destruct (sec_file s); [|destruct (io_open_data io)].
    3: { cbn. by rewrite Hdealloc. }
    all: cbn; destruct (platform_file_pwrite _ _ _ _) as [w c]; destruct (w <? _); cbn; rewrite ?Hdealloc; done.
  - unfold section_handle_read. destruct (negb _); [done|]. destruct (platform_file_pread _ _ _ _) as [r data].
    destruct (r <? _); [done|]. by destruct rt.
  - unfold section_handle_deallocate. pose proof (free_map_dealloc_correct _ index (inv_map s d Hinv)) as Hd.
    destruct (free_map_dealloc (sec_free_map s) index) as [rc fm']. destruct Hd as [(-> & -> & _)|(-> & _)]; done.
Qed.

Lemma update_keys st s : (ss_lru (update_section st s)).*1 = (ss_lru st).*1.
Proof.
  unfold update_section. cbn. rewrite <- list_fmap_compose. apply list_fmap_ext. intros i [k v] _. cbn. by case_decide.
Qed.

Lemma find_update st s id :
  find_key id (ss_lru (update_section st s)) =
    if decide (id = sec_id s) then (fun _ => s) <$> find_key id (ss_lru st) else find_key id (ss_lru st).
Proof.
  unfold update_section. cbn. induction (ss_lru st) as [|[k v] l IH]; [by case_decide|]. cbn.
  destruct (decide (k = sec_id s)) as [->|Hk]; cbn.
  - destruct (decide (sec_id s = id)) as [<-|Hne]; [by rewrite !decide_True|]. exact IH.
  - destruct (decide (k = id)) as [->|Hne]; [by rewrite decide_False|]. exact IH.
Qed.

(** The section of [id] has become that of [s1] over the files [d1]; nothing
    else has changed. *)
Record touches (id : Z) (s1 : section_t) (d1 : disk_t) (st st' : sections_t) : Prop := {
  to_section : exists s', section_of st' id = Some s' /\ section_ok st' id s' /\ sec_free_map s' = sec_free_map s1 /\
    (forall i, contents s' (disk st' id) i = contents s1 d1 i) /\ find_key id (ss_lru st') = Some s';
  to_others : forall id', id' <> id -> kept st st' id';
  to_config : same_config st st';
  to_robin : ss_robin st' = ss_robin st;
  to_next : ss_next_id st' = ss_next_id st;
  to_keys : (ss_lru st').*1 = (ss_lru st).*1;
  to_fresh : forall id', ~ (0 <= id' < ss_next_id st) -> d_meta (disk st' id') = d_meta (disk st id')
}.

Lemma open_known st id s : sections_inv st -> find_key id (ss_lru st) = Some s -> 0 <= id < ss_next_id st.
Proof.
  intros Hinv Hf. destruct (decide (0 <= id < ss_next_id st)) as [|Hge]; [done|].
  destruct (si_fresh st Hinv id Hge) as [Hn _]. congruence.
Qed.

Lemma open_ok st id s : sections_inv st -> find_key id (ss_lru st) = Some s -> section_ok st id s.
Proof.
  intros Hinv Hf. destruct (si_section st Hinv id) as (s' & Hs & Hok). unfold section_of in Hs. rewrite Hf in Hs. by injection Hs as <-.
Qed.

(** Replacing an open section and its files. *)
Lemma replace_touches st id s s1 d1 s2 d2 :
  sections_inv st -> find_key id (ss_lru st) = Some s -> sec_id s2 = id -> sec_free_map s2 = sec_free_map s1 ->
  sec_block_size s2 = sec_block_size s1 -> d_data d2 = d_data d1 -> section_inv s2 d2 -> sec_block_size s2 = section_bytes st ->
  d_plan d2 = None ->
  (sec_dirty s2 = false -> match d_meta d2 with Some m => free_map_deserialize m | None => Some (free_map_init (ss_size st)) end = Some (sec_free_map s2)) ->
  touches id s1 d1 st (update_section (set_disk st id d2) s2).
Proof.
  intros Hinv Hf Hid Hfm Hbs Hdata Hs2 Hb Hplan Hsaved. set (st' := update_section _ _).
  assert (forall id', disk st' id' = if decide (id' = id) then d2 else disk st id') as Hd by (intros; apply (disk_set st id d2)).
  assert (forall id', find_key id' (ss_lru st') = if decide (id' = id) then Some s2 else find_key id' (ss_lru st)) as Hfk.
  { intros id'. unfold st'. rewrite find_update, Hid. change (ss_lru (set_disk st id d2)) with (ss_lru st).
    case_decide as E; [subst id'; by rewrite Hf|done]. }
  split; try done.
  - exists s2. unfold section_of. rewrite Hfk, decide_True by done. split_and!; [done| |done| |done].
    + split; rewrite ?Hd, ?decide_True by done; try done. intros Hdirty. unfold stored_map. rewrite Hd, decide_True by done. by apply Hsaved.
    + rewrite Hd, decide_True by done. by apply contents_flags.
  - intros id' Hne. apply kept_frame; [by rewrite Hfk, decide_False|by rewrite Hd, decide_False|done|done].
  - unfold st'. by rewrite update_keys.
  - intros id' Hge. rewrite Hd. case_decide as E; [|done]. subst id'. pose proof (open_known st id s Hinv Hf). lia.
Qed.

Lemma dispatch_section_touches io st s msg :
  sections_inv st -> meta_ok io -> find_key (sec_id s) (ss_lru st) = Some s -> plain msg = true ->
  let '(s1, d1, p1, _) := section_dispatch (io (sec_id s)) s (disk st (sec_id s)) msg in
  let '(st', p, _) := dispatch_section io st s msg in
  p = p1 /\ touches (sec_id s) s1 d1 st st'.
Proof.
  intros Hinv Hio Hf Hp. set (id := sec_id s) in *. pose proof (open_ok st id s Hinv Hf) as Hok.
  pose proof (handler_frame (io id) s (disk st id) msg (so_inv _ _ _ Hok) Hp) as Hfr.
  pose proof (dispatch_step (io id) s (disk st id) msg (so_inv _ _ _ Hok)) as Hst.
  unfold dispatch_section. fold id. destruct (section_dispatch (io id) s (disk st id) msg) as [[[s1 d1] p1] evs].
  destruct Hfr as (Hid & Hbs & Hmeta & Hplan & Hdirty). destruct Hst as [Hi _].
  assert (sec_block_size s1 = section_bytes st) as Hb by (rewrite Hbs; apply Hok).
  assert (d_plan d1 = None) as Hpl by (rewrite Hplan; apply Hok).
  destruct (existsb _ evs); [unfold section_on_dirty; destruct (ss_timer st)|].
  2: { destruct (Hio id) as [H1 H2]. rewrite (save_meta_stored _ _ _ H1 H2).
       split; [done|]. eapply (replace_touches st id s s1 d1); try done; cbn [d_meta set_meta sec_free_map set_dirty].
       - by apply (section_inv_same s1 _ d1); [..|apply (inv_file s1 d1 Hi)|].
       - intros _. rewrite <- (app_nil_r (free_map_serialize _)). apply deserialize_serialize; apply Hi. }
  all: split; [done|]; eapply (replace_touches st id s s1 d1); try done;
    intros [Hc Hm]%Hdirty; rewrite Hmeta, Hm; by apply (so_saved _ _ _ Hok).
Qed.

Lemma section_of_robin st r id : section_of (st <| ss_robin := r |>) id = section_of st id.
Proof. done. Qed.

Lemma section_ok_robin st r id s : section_ok st id s -> section_ok (st <| ss_robin := r |>) id s.
Proof. by destruct 1. Qed.

(** The invariant afterwards, with a round robin in which the section only is
    if it has room. *)
Lemma touches_inv id s1 d1 st st' r :
  sections_inv st -> touches id s1 d1 st st' -> 0 <= id < ss_next_id st ->
  NoDup r -> (forall id', id' ∈ r -> id' <> id -> id' ∈ ss_robin st) -> (id ∈ r -> is_sections_full s1 = false) ->
  sections_inv (st' <| ss_robin := r |>).
Proof.
  intros Hinv [(s' & Hs' & Hok & Hfm & _ & Hf) Ho (C1 & C2 & C3 & C4 & C5 & C6) Hr Hn Hk Hfr] Hid Hnd Hsub Hroom.
  split; try done.
  - intros id'. setoid_rewrite section_of_robin. destruct (decide (id' = id)) as [->|Hne].
    + exists s'. split; [done|by apply section_ok_robin].
    + destruct (si_section st Hinv id') as (s & Hs & Hok0). destruct (Ho id' Hne s Hs Hok0) as (s2 & Hs2 & Hok2 & _).
      exists s2. split; [done|by apply section_ok_robin].
  - cbn. rewrite Hk. apply (si_keys st Hinv).
  - cbn. rewrite C1, <- (length_fmap fst), Hk, length_fmap. apply (si_bound st Hinv).
  - cbn. rewrite C1. apply (si_cache st Hinv).
  - intros id' Hin. cbn in Hin. destruct (decide (id' = id)) as [->|Hne].
    + exists s'. split; [done|]. unfold is_sections_full in *. rewrite Hfm. by apply Hroom.
    + destruct (kept_room st st' id' Hinv (Ho id' Hne)) as (s2 & Hs2 & Hf2); [|by exists s2]. by apply (si_room st Hinv), Hsub.
  - intros id' Hin. cbn in Hin |- *. rewrite Hn. destruct (decide (id' = id)) as [->|Hne]; [done|]. by apply (si_known st Hinv), Hsub.
  - intros id' Hge. change (~ (0 <= id' < ss_next_id st')) in Hge. rewrite Hn in Hge. destruct (si_fresh st Hinv id' Hge) as [H1 H2].
    change (disk (st' <| ss_robin := r |>) id') with (disk st' id'). rewrite Hfr by done. split; [|done].
    change (ss_lru (st' <| ss_robin := r |>)) with (ss_lru st'). apply find_key_none. rewrite Hk. by apply find_key_none.
  - cbn. rewrite Hn. apply (si_next st Hinv).
  - cbn. rewrite C3. apply (si_size st Hinv).
  - cbn. unfold section_bytes. cbn. rewrite C3, C4. apply (si_offsets st Hinv).
  - cbn. rewrite C3. apply (si_total st Hinv).
Qed.
