(* ===== verification/SectionsStore.v ===== *)
(** * SectionsStore: the pool of sections is one store of blocks

    The specification of [sections_dispatch] (src/src/BlockCache/sections.c) as
    a step on the blocks by section and slot, and the proof that the pool
    implements it: a write fills an empty slot and no other, a read returns what
    the slot holds, a release empties one slot, a compaction moves blocks as its
    relocations say, and everything else, opening and closing sections, saving
    metadata, rotating and growing the pool, leaves all blocks where they are. *)

From Stdlib Require Import SpecFloat.
From stdpp Require Import gmap.
From S2P Require Import Prelude Platform FreeMap Section Block DList Lru Effect Sections.
Local Open Scope Z_scope.

(** ** Using an open section *)

(** [sections_lru_cache_get] of an open section. *)
Lemma lru_get_opens st id s :
  sections_inv st -> find_key id (ss_lru st) = Some s ->
  spec_get id (ss_lru st) = ((id, s) :: drop_key id (ss_lru st), Some s) /\
  opens st (st <| ss_lru := (id, s) :: drop_key id (ss_lru st) |>) /\
  find_key id ((id, s) :: drop_key id (ss_lru st)) = Some s.
Proof.
  intros Hinv Hf. unfold spec_get. rewrite Hf. split; [done|]. split; [|cbn; by rewrite decide_True].
  set (st' := st <| ss_lru := _ |>).
  assert (forall id', find_key id' (ss_lru st') = find_key id' (ss_lru st)) as Hfk.
  { intros id'. cbn [st' ss_lru set find_key]. case_decide as E; [by subst|]. rewrite find_drop. by rewrite decide_False by congruence. }
  assert (forall id', kept st st' id') as Hk by (intros id'; by apply kept_frame).
  assert ((ss_lru st').*1 ≡ₚ (ss_lru st).*1) as Hp.
  { cbn [st' ss_lru set fmap list_fmap fst]. apply find_key_in in Hf. apply list_elem_of_split in Hf as (l1 & l2 & E).
    pose proof (si_keys st Hinv) as Hn. rewrite E in Hn |- *. destruct (key_mid _ _ _ _ Hn) as [_ ->].
    rewrite !fmap_app. cbn. by rewrite Permutation_middle. }
  split; try done. apply (inv_kept st); try done.
  - rewrite Hp. apply (si_keys st Hinv).
  - rewrite <- (length_fmap fst), Hp, length_fmap. apply (si_bound st Hinv).
  - intros id' Hge. rewrite Hfk. by apply (si_fresh st Hinv).
Qed.

(** The payload of a write. *)
Lemma write_full io s d data rt :
  section_inv s d ->
  let '(s', _, p, _) := section_handle_write io s d data rt in
  forall result index full, p = write_payload result index full ->
  full = is_sections_full s' /\ (is_sections_full s = false -> result <> 2) /\
  (io = io_ok -> length data = sec_block_size s -> is_sections_full s = false -> result = 0).
Proof.
  intros Hinv. unfold section_handle_write.
  destruct (Nat.eqb_spec (length data) (sec_block_size s)) as [Hlen|Hlen]; cbn [negb].
  2: { intros r i f [= <- <- <-]. split_and!; [done|done|]. congruence. }
  pose proof (alloc_then_dealloc _ (inv_map s d Hinv)) as Halloc.
  destruct (free_map_alloc (sec_free_map s)) as [[idx|] fm'].
  2: { destruct Halloc as [-> Hfull]. intros r i f [= <- <- <-]. unfold is_sections_full. rewrite Hfull. done. }
  destruct Halloc as (Hidx & _ & _ & _ & _ & _ & Hdealloc).
  pose proof (open_data_spec io (set_free_map s fm') d) as Hopen.
  destruct (open_data io (set_free_map s fm') d) as [[s2 d2]|].
  2: { intros r i f [= <- <- <-]. split_and!; [done|done|]. intros ->. by destruct Hopen. }
  destruct (platform_file_pwrite _ _ _ _) as [w c'] eqn:Ew.
  destruct (Z.ltb_spec w (Z.of_nat (sec_block_size s2))) as [Hshort|Hfull].
  - intros r i f [= <- <- <-]. split_and!; [done|done|]. intros -> _ _. exfalso.
    destruct Hopen as (-> & _). cbn [sec_block_size set_file set_free_map] in Hshort.
    destruct (slot_offset s d idx Hinv Hidx) as [Hu Hoff]. rewrite Hlen, Z.mul_comm, Hu in Ew.
    unfold platform_file_pwrite in Ew. destruct (Z.ltb_spec OFF_MAX (Z.of_nat (idx * sec_block_size s))); [lia|].
    cbn [io_ok io_pwrite] in Ew. injection Ew as <- _. lia.
  - intros r i f [= <- <- <-]. done.
Qed.

(** ** The specification *)

Definition blocks := Z -> nat -> option bytes.

Definition same (σ σ' : blocks) : Prop := forall id i, σ' id i = σ id i.

Definition set_block (σ : blocks) (id : Z) (i : nat) (b : option bytes) : blocks :=
  fun id' i' => if decide (id' = id /\ i' = i) then b else σ id' i'.

(** Where the relocations put the block of a slot. *)
Fixpoint place (relocations : list block_relocation_t) (id : Z) (i : nat) : Z :=
  match relocations with
  | [] => Z.of_nat i
  | r :: rest => if decide (rl_section_id r = id /\ rl_old_index r = i) then rl_new_index r else place rest id i
  end.

Inductive pool_step (σ : blocks) : sections_msg -> sections_payload -> blocks -> Prop :=
| pool_write data rt id i σ' :
    σ id i = None -> same (set_block σ id i (Some data)) σ' ->
    pool_step σ (SECTIONS_WRITE data rt) (sections_write_payload 0 id i) σ'
| pool_write_failed data rt result id i σ' :
    result <> 0 -> same σ σ' -> pool_step σ (SECTIONS_WRITE data rt) (sections_write_payload result id i) σ'
| pool_read id i rt result σ' :
    (forall b b', σ id i = Some b -> result = Some b' -> b' = b) -> same σ σ' ->
    pool_step σ (SECTIONS_READ id i rt) (sections_read_payload result) σ'
| pool_deallocate id i rt σ' :
    same (set_block σ id i None) σ' ->
    pool_step σ (SECTIONS_DEALLOCATE id i rt) (sections_deallocate_payload (if σ id i is Some _ then 0 else 1)) σ'
| pool_full id σ' : same σ σ' -> pool_step σ (SECTIONS_SECTION_FULL id) sections_no_payload σ'
| pool_save σ' : same σ σ' -> pool_step σ SECTIONS_SAVE_META sections_no_payload σ'
| pool_meta visit σ' : same σ σ' -> pool_step σ (SECTIONS_WRITE_META visit) sections_no_payload σ'
| pool_defragment threshold rt visit n relocations σ' :
    (forall id i, is_Some (σ id i) -> 0 <= place relocations id i /\ σ' id (Z.to_nat (place relocations id i)) = σ id i) ->
    (forall id j, is_Some (σ' id j) -> exists i, is_Some (σ id i) /\ place relocations id i = Z.of_nat j) ->
    pool_step σ (SECTIONS_DEFRAGMENT threshold rt visit) (sections_defragment_payload 0 n relocations) σ'
| pool_other type σ' : same σ σ' -> pool_step σ (SECTIONS_OTHER type) sections_no_payload σ'.

(** A section that is known is opened if it is closed. *)
Lemma opens_refl st : sections_inv st -> opens st st.
Proof. intros Hinv. split; [done|intros id; by apply kept_frame|done..]. Qed.

Lemma reach_section io st id :
  sections_inv st -> meta_ok io -> 0 <= id < ss_next_id st ->
  match spec_get id (ss_lru st) with
  | (lru, Some s) => opens st (st <| ss_lru := lru |>) /\ find_key id lru = Some s /\ section_of st id = Some s
  | (_, None) => exists s st', open_new io st id = Some (s, st') /\ opens st st' /\ find_key id (ss_lru st') = Some s /\ section_of st id = Some s
  end.
Proof.
  intros Hinv Hio Hid. destruct (find_key id (ss_lru st)) as [s|] eqn:Ef.
  - destruct (lru_get_opens st id s Hinv Ef) as (-> & Ho & Hf). split_and!; [done..|]. unfold section_of. by rewrite Ef.
  - unfold spec_get. rewrite Ef. destruct (open_new_opens io st id Hinv Hio Ef Hid) as (s & st' & -> & Hs & Ho & Hf). by exists s, st'.
Qed.

(** The blocks after a message to one section. *)
Lemma touches_blocks id s1 d1 st st' :
  sections_inv st -> touches id s1 d1 st st' ->
  forall id' i, block_at st' id' i = if decide (id' = id) then contents s1 d1 i else block_at st id' i.
Proof.
  intros Hinv Ht id' i. case_decide as E; [subst id'|by apply kept_block, (to_others _ _ _ _ _ Ht)].
  destruct (to_section _ _ _ _ _ Ht) as (s' & Hs & _ & _ & Hc & _). unfold block_at. by rewrite Hs.
Qed.

Lemma block_open st id s i : find_key id (ss_lru st) = Some s -> block_at st id i = contents s (disk st id) i.
Proof. intros Hf. unfold block_at, section_of. by rewrite Hf. Qed.

(** ** SECTIONS_WRITE *)

Definition room_for_ids (st : sections_t) : Prop := ss_next_id st + Z.of_nat (ss_max_tuple_size st) + 2 < 2 ^ 64.

Lemma rotate_grows st id rest :
  sections_inv st -> ss_robin st = id :: rest -> grows 0 st (st <| ss_robin := rest ++ [id] |>).
Proof.
  intros Hinv Hr. assert (rest ++ [id] ≡ₚ ss_robin st) as Hp by (rewrite Hr; symmetry; apply Permutation_cons_append).
  apply inv_robin; [done|rewrite Hp; apply (si_robin st Hinv)|]. intros id'. rewrite Hp. intros Hin.
  split; [by apply (si_room st Hinv)|by apply (si_known st Hinv)].
Qed.

Lemma robin_eta st : st <| ss_robin := ss_robin st |> = st.
Proof. by destruct st. Qed.

Lemma same_trans σ1 σ2 σ3 : same σ1 σ2 -> same σ2 σ3 -> same σ1 σ3.
Proof. intros H1 H2 id i. by rewrite H2, H1. Qed.

(** A section that may have been filled leaves the round robin. *)
Lemma settle_full io id s s1 d1 st st' :
  sections_inv st -> meta_ok io -> floor st -> room_for_ids st -> find_key id (ss_lru st) = Some s -> touches id s1 d1 st st' ->
  let st'' := if is_sections_full s1 then sections_full io st' id else st' in
  sections_inv st'' /\ floor st'' /\ same_config st st'' /\
  ss_next_id st <= ss_next_id st'' <= ss_next_id st + Z.of_nat (ss_max_tuple_size st) + 2 /\ same (block_at st') (block_at st'').
Proof.
  intros Hinv Hio Hfl Hids Hf Ht. pose proof (open_known st id s Hinv Hf) as Hid. pose proof (si_robin st Hinv) as Hnd.
  destruct (to_config _ _ _ _ _ Ht) as (C1 & C2 & C3 & C4 & C5 & C6).
  assert (forall r, (id ∈ r -> is_sections_full s1 = false) -> r `sublist_of` ss_robin st -> sections_inv (st' <| ss_robin := r |>)) as Hr.
  { intros r Hroom Hsub. apply (touches_inv id s1 d1 st); try done; [by eapply sublist_NoDup|]. intros id' Hin _. by eapply elem_of_sublist. }
  destruct (is_sections_full s1) eqn:Efull; cbn zeta.
  - assert (sections_inv (st' <| ss_robin := round_robin_remove (ss_robin st') id |>)) as Hinv0.
    { rewrite (to_robin _ _ _ _ _ Ht). apply Hr; [|apply remove_sublist]. intros Hin. by apply remove_gone in Hin. }
    destruct (sections_full_weak io st' id Hinv0) as (G & F & _); rewrite ?(to_robin _ _ _ _ _ Ht), ?(to_next _ _ _ _ _ Ht), ?C2; try done.
    split_and!; [apply G|done| | | |].
    + destruct (gr_config _ _ _ G) as (D1 & D2 & D3 & D4 & D5 & D6). cbn in *. split_and!; congruence.
    + pose proof (gr_next _ _ _ G) as Hn. cbn in Hn. rewrite (to_next _ _ _ _ _ Ht) in Hn. lia.
    + pose proof (gr_next _ _ _ G) as Hn. cbn in Hn. rewrite (to_next _ _ _ _ _ Ht), C2 in Hn. lia.
    + exact (grows_blocks _ _ _ Hinv0 G).
  - split_and!; try done; rewrite ?(to_next _ _ _ _ _ Ht); try lia.
    + rewrite <- robin_eta. rewrite (to_robin _ _ _ _ _ Ht). by apply Hr.
    + unfold floor in *. by rewrite C2, (to_robin _ _ _ _ _ Ht).
Qed.

(** The section that is written to, before and after. *)
Lemma write_section io st s data :
  sections_inv st -> meta_ok io -> floor st -> room_for_ids st -> find_key (sec_id s) (ss_lru st) = Some s -> is_sections_full s = false ->
  exists st' evs r i full, dispatch_section io st s (SECTION_WRITE data None) = (st', write_payload r i full, evs) /\
    let st'' := if full then sections_full io st' (sec_id s) else st' in
    r <> 2 /\ sections_inv st'' /\ floor st'' /\ same_config st st'' /\
    ss_next_id st <= ss_next_id st'' <= ss_next_id st + Z.of_nat (ss_max_tuple_size st) + 2 /\
    ((r = 0 /\ block_at st (sec_id s) i = None /\ same (set_block (block_at st) (sec_id s) i (Some data)) (block_at st'')) \/
     (r <> 0 /\ same (block_at st) (block_at st''))) /\
    (io (sec_id s) = io_ok -> length data = section_bytes st -> r = 0).
Proof.
  intros Hinv Hio Hfl Hids Hf Hroom. set (id := sec_id s) in *. pose proof (open_ok st id s Hinv Hf) as Hok.
  pose proof (dispatch_section_touches io st s (SECTION_WRITE data None) Hinv Hio Hf eq_refl) as Ht.
  pose proof (handle_write_spec (io id) s (disk st id) data None (so_inv _ _ _ Hok)) as Hw.
  pose proof (write_full (io id) s (disk st id) data None (so_inv _ _ _ Hok)) as Hfull.
  cbn [section_dispatch] in Ht. fold id in Ht. destruct (section_handle_write (io id) s (disk st id) data None) as [[[s1 d1] p1] evs1].
  destruct (dispatch_section io st s (SECTION_WRITE data None)) as [[st' p] evs]. destruct Ht as [-> Ht].
  destruct Hw as (_ & r & i & full & -> & Hcases). destruct (Hfull r i full eq_refl) as (Hfu & H2 & H0).
  exists st', evs, r, i, full. split; [done|]. pose proof (touches_blocks id s1 d1 st st' Hinv Ht) as Hb.
  assert ((r = 0 /\ block_at st id i = None /\ same (set_block (block_at st) id i (Some data)) (block_at st')) \/
     (r <> 0 /\ same (block_at st) (block_at st'))) as Hres.
  { destruct Hcases as [(-> & _ & Hn & _ & Hc)|[Hr Hc]]; [left|right]; (split; [done|]).
    - split; [by rewrite (block_open st id s)|]. intros id' j. rewrite Hb. unfold set_block. case_decide as E.
      + subst id'. rewrite Hc, (block_open st id s) by done. destruct (Nat.eqb_spec j i) as [->|Hne]; [by rewrite decide_True|].
        by rewrite decide_False by naive_solver.
      + by rewrite decide_False by naive_solver.
    - intros id' j. rewrite Hb. case_decide as E; [|done]. subst id'. by rewrite Hc, (block_open st id s). }
  pose proof (settle_full io id s s1 d1 st st' Hinv Hio Hfl Hids Hf Ht) as Hset. rewrite <- Hfu in Hset. cbn zeta in *.
  destruct Hset as (I & F & C & N & S). split_and!; try done; try lia; [by apply H2| |].
  - destruct Hres as [(-> & Hn & Hs)|[Hr Hs]]; [left|right]; split_and!; try done; by eapply same_trans.
  - intros Hok0 Hlen. apply H0; [done| |done]. by rewrite (so_bytes _ _ _ Hok).
Qed.

Lemma config_trans st1 st2 st3 : same_config st1 st2 -> same_config st2 st3 -> same_config st1 st3.
Proof. unfold same_config. intros H1 H2. destruct_and!. split_and!; congruence. Qed.

Lemma config_bytes st st' : same_config st st' -> section_bytes st' = section_bytes st.
Proof. intros (_ & _ & _ & E & _). unfold section_bytes. by rewrite E. Qed.

(** What every message leaves the pool with; [k] bounds the ids it uses up. *)
Record pool_ok (k : Z) (st st' : sections_t) : Prop := {
  po_inv : sections_inv st';
  po_floor : floor st';
  po_config : same_config st st';
  po_next : ss_next_id st <= ss_next_id st' <= ss_next_id st + k
}.

Definition id_budget (st : sections_t) : Z := Z.of_nat (ss_max_tuple_size st) + 2.

(** The section that is written to is the one in the cache or is opened. *)
Lemma pick_opened io st id s :
  sections_inv st -> meta_ok io -> 0 <= id < ss_next_id st -> section_of st id = Some s -> is_sections_full s = false ->
  exists st1, match spec_get id (ss_lru st) with
      | (lru, Some s) => Some (s, st <| ss_lru := lru |>, false)
      | (_, None) => match open_new io st id with Some (s, st1) => Some (s, st1, is_sections_full s) | None => None end
      end = Some (s, st1, false) /\ opens st st1 /\ find_key id (ss_lru st1) = Some s.
Proof.
  intros Hinv Hio Hid Hs Hroom. pose proof (reach_section io st id Hinv Hio Hid) as Hreach.
  destruct (spec_get id (ss_lru st)) as [lru [s0|]].
  - destruct Hreach as (Ho & Hf & Hs0). rewrite Hs in Hs0. injection Hs0 as <-. by eexists.
  - destruct Hreach as (s0 & st1 & -> & Ho & Hf & Hs0). rewrite Hs in Hs0. injection Hs0 as <-. rewrite Hroom. by eexists.
Qed.

Lemma handle_write_pool io st data rt :
  sections_inv st -> meta_ok io -> floor st -> (0 < ss_max_tuple_size st)%nat -> room_for_ids st ->
  exists st' r id i evs, sections_handle_write io st data rt = Some (st', sections_write_payload r id i, evs) /\
    pool_ok (id_budget st) st st' /\ pool_step (block_at st) (SECTIONS_WRITE data rt) (sections_write_payload r id i) (block_at st') /\
    ((forall id, io id = io_ok) -> length data = section_bytes st -> r = 0).
Proof.
  intros Hinv Hio Hfl Hmt Hids. unfold sections_handle_write, write_fuel. cbn [write_loop].
  destruct (ss_robin st) as [|id rest] eqn:Er; [unfold floor in Hfl; rewrite Er in Hfl; cbn in Hfl; lia|].
  destruct (Nat.leb_spec (length (id :: rest) + 0 + ss_max_tuple_size st)%nat 0); [cbn in *; lia|].
  unfold write_turn. rewrite Er. cbn [round_robin_next]. pose proof (rotate_grows st id rest Hinv Er) as G0.
  set (st0 := st <| ss_robin := rest ++ [id] |>) in *.
  assert (id ∈ ss_robin st) as Hin by (rewrite Er; by left).
  destruct (si_room st Hinv id Hin) as (s & Hs & Hroom). pose proof (si_known st Hinv id Hin) as Hid.
  destruct (pick_opened io st0 id s (gr_inv _ _ _ G0) Hio Hid Hs Hroom) as (st1 & -> & Ho & Hf).
  destruct (si_section _ (op_inv _ _ Ho) id) as (s' & Hs' & Hok'). unfold section_of in Hs'. rewrite Hf in Hs'. injection Hs' as <-.
  pose proof (so_id _ _ _ Hok') as Esid. rewrite <- Esid in Hf.
  assert (floor st1) as Hfl1.
  { unfold floor in *. destruct (op_config _ _ Ho) as (_ & -> & _). rewrite (op_robin _ _ Ho). cbn. rewrite Er in Hfl. rewrite length_app. cbn in *. lia. }
  assert (room_for_ids st1) as Hids1.
  { unfold room_for_ids in *. destruct (op_config _ _ Ho) as (_ & -> & _). by rewrite (op_next _ _ Ho). }
  destruct (write_section io st1 s data (op_inv _ _ Ho) Hio Hfl1 Hids1 Hf Hroom) as (st2 & evs & r & i & full & -> & Hw).
  rewrite Esid in Hw. cbn zeta in Hw. destruct Hw as (H2 & I & F & C & N & Hres & Hsucc).
  assert (same (block_at st) (block_at st1)) as Hb1.
  { eapply same_trans; [exact (grows_blocks _ _ _ Hinv G0)|exact (grows_blocks _ _ _ (gr_inv _ _ _ G0) (opens_grows _ _ Ho))]. }
  assert (same_config st st1) as C1 by exact (op_config _ _ Ho).
  assert ((r =? 2) = false) as E2 by (by apply Z.eqb_neq). rewrite E2. cbn [orb].
  assert ((if full then (sections_full io st2 id, 1%nat) else (st2, 0%nat)).1 = if full then sections_full io st2 id else st2) as Hif by (by destruct full).
  set (st3 := if full then sections_full io st2 id else st2) in *. cbn [andb].
  destruct (if full then (sections_full io st2 id, 1%nat) else (st2, 0%nat)) as [st4 rotated]. cbn [fst] in Hif. subst st4.
  cbn [mbind option_bind]. eexists st3, r, id, i, _. split; [done|]. split_and!.
  - pose proof (op_next _ _ Ho) as Hn1. change (ss_next_id st0) with (ss_next_id st) in Hn1. destruct C1 as (_ & Cmt & _).
    split; [done|done|eapply config_trans; [exact (op_config _ _ Ho)|done]|unfold id_budget; rewrite <- Cmt; lia].
  - destruct Hres as [(-> & Hn & Hs3)|[Hr Hs3]].
    + apply pool_write; [by rewrite <- Hb1|]. intros id' j. rewrite Hs3. unfold set_block. case_decide; [done|apply Hb1].
    + apply pool_write_failed; [done|]. by eapply same_trans.
  - intros Hall Hlen. apply Hsucc; [done|]. by rewrite (config_bytes _ _ C1).
Qed.

(** ** SECTIONS_READ and SECTIONS_DEALLOCATE *)

Lemma robin_contains robin id : round_robin_contains robin id = true <-> id ∈ robin.
Proof.
  unfold round_robin_contains. rewrite existsb_exists. split.
  - intros (x & Hx & ->%Z.eqb_eq). by apply list_elem_of_In.
  - intros Hin. exists id. split; [by apply list_elem_of_In|apply Z.eqb_refl].
Qed.

Lemma robin_add_grows st id :
  sections_inv st -> has_room st id -> 0 <= id < ss_next_id st -> id ∉ ss_robin st -> grows 0 st (st <| ss_robin := round_robin_add (ss_robin st) id |>).
Proof.
  intros Hinv Hroom Hid Hnin. apply inv_robin; [done| |].
  - apply NoDup_app. split_and!; [apply (si_robin st Hinv)| |apply NoDup_singleton]. intros x Hx ->%list_elem_of_singleton. done.
  - intros x [Hx| ->%list_elem_of_singleton]%elem_of_app; [|done]. split; [by apply (si_room st Hinv)|by apply (si_known st Hinv)].
Qed.

Lemma obtain_grows io st id :
  sections_inv st -> meta_ok io -> floor st -> 0 <= id < ss_next_id st ->
  exists s st1, obtain io st id = Some (s, st1) /\ grows 0 st st1 /\ floor st1 /\ find_key id (ss_lru st1) = Some s.
Proof.
  intros Hinv Hio Hfl Hid. unfold obtain. pose proof (reach_section io st id Hinv Hio Hid) as Hreach.
  destruct (spec_get id (ss_lru st)) as [lru [s|]].
  { destruct Hreach as (Ho & Hf & _). exists s, (st <| ss_lru := lru |>). split_and!; [done|by apply opens_grows|done|done]. }
  destruct Hreach as (s & st1 & -> & Ho & Hf & Hs). cbn [mbind option_bind]. eexists s, _. split; [done|].
  assert (floor st1) as Hfl1 by (unfold floor in *; destruct (op_config _ _ Ho) as (_ & -> & _); by rewrite (op_robin _ _ Ho)).
  destruct (negb (is_sections_full s) && _) eqn:E; [|split_and!; [by apply opens_grows|done|done]].
  apply andb_true_iff in E as [E1%negb_true_iff E2%negb_true_iff].
  assert (id ∉ ss_robin st1) as Hnin by (intros Hin%robin_contains; congruence).
  split_and!; [|unfold floor, round_robin_add in *; cbn; rewrite length_app; lia|done].
  change 0 with (0 + 0). eapply grows_trans; [by apply opens_grows|]. apply robin_add_grows; [apply Ho| |by rewrite (op_next _ _ Ho)|done].
  exists s. unfold section_of. by rewrite Hf.
Qed.

(** The section stays in the round robin: it has as much room as before. *)
Lemma touches_keeps id s s1 d1 st st' :
  sections_inv st -> floor st -> find_key id (ss_lru st) = Some s -> touches id s1 d1 st st' ->
  (is_sections_full s = false -> is_sections_full s1 = false) -> pool_ok 0 st st'.
Proof.
  intros Hinv Hfl Hf Ht Hroom. split; [| |apply Ht|rewrite (to_next _ _ _ _ _ Ht); lia].
  - rewrite <- robin_eta, (to_robin _ _ _ _ _ Ht).
    apply (touches_inv id s1 d1 st); try done; [by eapply open_known|apply (si_robin st Hinv)|]. intros Hin. apply Hroom.
    destruct (si_room st Hinv id Hin) as (s0 & Hs0 & Hr). unfold section_of in Hs0. rewrite Hf in Hs0. by injection Hs0 as <-.
  - unfold floor in *. rewrite (to_robin _ _ _ _ _ Ht). by destruct (to_config _ _ _ _ _ Ht) as (_ & -> & _).
Qed.

Lemma grows_pool k k' st st1 st2 : grows k st st1 -> pool_ok k' st1 st2 -> pool_ok (k + k') st st2.
Proof. intros G P. split; [apply P|apply P|eapply config_trans; [apply G|apply P]|]. pose proof (gr_next _ _ _ G). pose proof (po_next _ _ _ P). lia. Qed.

Lemma read_result io s d i :
  section_inv s d ->
  exists r, section_handle_read io s d i None = (s, d, read_payload r, []) /\
    (forall b, contents s d i = Some b -> r = None \/ r = Some b) /\ (io = io_ok -> is_Some (contents s d i) -> r = contents s d i).
Proof.
  intros Hinv. assert (exists r, section_handle_read io s d i None = (s, d, read_payload r, [])) as [r E].
  { unfold section_handle_read. destruct (negb _); [by eexists|]. destruct (platform_file_pread _ _ _ _) as [n data].
    destruct (n <? _); by eexists. }
  exists r. split; [done|]. destruct (contents s d i) as [b|] eqn:Ec; [|by split; [|intros _ []]].
  pose proof (handle_read_spec io s d i None b Hinv Ec) as H. cbn zeta in H. rewrite E in H. cbn in H.
  destruct H as (_ & _ & [(s' & d' & [= _ _ ->])|[[= ->] _]] & Hok); (split; [naive_solver|]); [|done].
  intros Hio. destruct (Hok Hio). congruence.
Qed.

(** The common part: the section is opened and handles the message. *)
Lemma obtained_message io st id msg :
  sections_inv st -> meta_ok io -> floor st -> 0 <= id < ss_next_id st -> plain msg = true ->
  exists s st1 s1 d1 p evs st2 out, obtain io st id = Some (s, st1) /\ grows 0 st st1 /\ floor st1 /\ find_key id (ss_lru st1) = Some s /\
    section_inv s (disk st1 id) /\ section_dispatch (io id) s (disk st1 id) msg = (s1, d1, p, evs) /\
    dispatch_section io st1 s msg = (st2, p, out) /\ touches id s1 d1 st1 st2 /\ same (block_at st) (block_at st1).
Proof.
  intros Hinv Hio Hfl Hid Hp. destruct (obtain_grows io st id Hinv Hio Hfl Hid) as (s & st1 & E & G & Hfl1 & Hf).
  pose proof (open_ok _ id s (gr_inv _ _ _ G) Hf) as Hok. pose proof (so_id _ _ _ Hok) as Eid. pose proof Hf as Hf'. rewrite <- Eid in Hf'.
  pose proof (dispatch_section_touches io st1 s msg (gr_inv _ _ _ G) Hio Hf' Hp) as Ht. rewrite Eid in Ht.
  destruct (section_dispatch (io id) s (disk st1 id) msg) as [[[s1 d1] p] evs] eqn:Ed.
  destruct (dispatch_section io st1 s msg) as [[st2 p2] out] eqn:Eds.
  destruct Ht as [-> Ht]. exists s, st1, s1, d1, p, evs, st2, out. 
  pose proof (grows_blocks _ _ _ Hinv G). pose proof (so_inv _ _ _ Hok). by split_and!.
Qed.

Lemma handle_read_pool io st id i rt :
  sections_inv st -> meta_ok io -> floor st -> 0 <= id < ss_next_id st ->
  exists st' result evs, sections_handle_read io st id i rt = Some (st', sections_read_payload result, evs) /\
    pool_ok 0 st st' /\ pool_step (block_at st) (SECTIONS_READ id i rt) (sections_read_payload result) (block_at st') /\
    ((forall id, io id = io_ok) -> is_Some (block_at st id i) -> result = block_at st id i).
Proof.
  intros Hinv Hio Hfl Hid.
  destruct (obtained_message io st id (SECTION_READ i None) Hinv Hio Hfl Hid eq_refl)
    as (s & st1 & s1 & d1 & p & evs & st2 & out & E & G & Hfl1 & Hf & Hsi & Ed & Eds & Ht & Hb1).
  cbn [section_dispatch] in Ed. destruct (read_result (io id) s (disk st1 id) i Hsi) as (r & Er & Hr & Hok). rewrite Er in Ed.
  injection Ed as <- <- <- <-. unfold sections_handle_read. rewrite E. cbn [mbind option_bind]. rewrite Eds.
  pose proof (touches_blocks _ _ _ _ _ (gr_inv _ _ _ G) Ht) as Hb2.
  assert (same (block_at st) (block_at st2)) as Hb.
  { intros id' j. rewrite Hb2. case_decide as Ei; [subst id'|apply Hb1]. by rewrite <- Hb1, (block_open st1 id s). }
  exists st2, r, (out ++ answer rt (fun a => ev_sections_read_result a id i r)). split_and!; [done| | |].
  - apply (grows_pool 0 0 st st1 st2 G). by apply (touches_keeps id s s (disk st1 id) st1 st2 (gr_inv _ _ _ G)).
  - apply pool_read; [|done]. intros b b' Hb0 Hb'. rewrite <- Hb1, (block_open st1 id s) in Hb0 by done. destruct (Hr b Hb0); congruence.
  - intros Hall Hsome. rewrite <- Hb1, (block_open st1 id s) in Hsome |- * by done. by apply Hok.
Qed.

Lemma deallocate_room s d i rt :
  section_inv s d ->
  let '(s1, _, p, _) := section_handle_deallocate s d i rt in
  (p = deallocate_payload 0 /\ is_sections_full s1 = false) \/
  (exists rc, p = deallocate_payload rc /\ rc <> 0 /\ sec_free_map s1 = sec_free_map s).
Proof.
  intros Hinv. unfold section_handle_deallocate. pose proof (free_map_dealloc_correct _ i (inv_map s d Hinv)) as Hd.
  destruct (free_map_dealloc (sec_free_map s) i) as [rc fm']. destruct Hd as [(-> & -> & _)|(-> & Hidx & _ & Hwf & Htot & Hfree)].
  - right. by exists 1.
  - left. split; [done|]. unfold is_sections_full. cbn. apply not_true_iff_false. rewrite free_map_is_full_spec by done.
    intros Hf. specialize (Hf i). rewrite Htot, Hfree, Nat.eqb_refl in Hf. by specialize (Hf Hidx).
Qed.

Lemma handle_deallocate_pool io st id i rt :
  sections_inv st -> meta_ok io -> floor st -> 0 <= id < ss_next_id st ->
  exists st' result evs, sections_handle_deallocate io st id i rt = Some (st', sections_deallocate_payload result, evs) /\
    pool_ok 0 st st' /\ pool_step (block_at st) (SECTIONS_DEALLOCATE id i rt) (sections_deallocate_payload result) (block_at st').
Proof.
  intros Hinv Hio Hfl Hid.
  destruct (obtained_message io st id (SECTION_DEALLOCATE i None) Hinv Hio Hfl Hid eq_refl)
    as (s & st1 & s1 & d1 & p & evs & st2 & out & E & G & Hfl1 & Hf & Hsi & Ed & Eds & Ht & Hb1).
  cbn [section_dispatch] in Ed. pose proof (handle_deallocate_spec s (disk st1 id) i None Hsi) as Hd.
  pose proof (deallocate_room s (disk st1 id) i None Hsi) as Hroom. rewrite Ed in Hd, Hroom. destruct Hd as (_ & _ & -> & Hc).
  unfold sections_handle_deallocate. rewrite E. cbn [mbind option_bind]. rewrite Eds.
  pose proof (touches_blocks _ _ _ _ _ (gr_inv _ _ _ G) Ht) as Hb2.
  assert (same (set_block (block_at st) id i None) (block_at st2)) as Hb.
  { intros id' j. rewrite Hb2. unfold set_block. case_decide as Ei; [subst id'|rewrite decide_False by naive_solver; apply Hb1].
    rewrite Hc, <- Hb1, (block_open st1 id s) by done. destruct (Nat.eqb_spec j i) as [->|]; [by rewrite decide_True|].
    by rewrite decide_False by naive_solver. }
  assert (contents s (disk st1 id) i = block_at st id i) as Hci by (by rewrite <- Hb1, (block_open st1 id s)).
  rewrite Hci in *. set (rc := if block_at st id i is Some _ then 0 else 1) in *.
  assert (is_sections_full s = false -> is_sections_full s1 = false) as Hkeep.
  { destruct Hroom as [[_ Hr]|(rc' & _ & _ & Hfm)]; [done|]. unfold is_sections_full. by rewrite Hfm. }
  pose proof (touches_keeps id s s1 d1 st1 st2 (gr_inv _ _ _ G) Hfl1 Hf Ht Hkeep) as P.
  eexists _, rc, _. split; [done|]. assert (pool_ok 0 st st2) as P2 by exact (grows_pool 0 0 st st1 st2 G P).
  destruct (rc =? 0) eqn:Erc; [|split; [done|by apply pool_deallocate]].
  unfold sections_free. destruct (round_robin_contains (ss_robin st2) id) eqn:Ein; [split; [done|by apply pool_deallocate]|].
  assert (id ∉ ss_robin st2) as Hnin by (intros Hin%robin_contains; congruence).
  assert (has_room st2 id) as Hr2.
  { destruct (to_section _ _ _ _ _ Ht) as (s' & Hs' & _ & Hfm & _). exists s'. split; [done|]. unfold is_sections_full. rewrite Hfm.
    destruct Hroom as [[_ Hr]|(rc' & [= Hrc'] & Hne & _)]; [done|]. apply Z.eqb_eq in Erc. congruence. }
  assert (0 <= id < ss_next_id st2) as Hid2 by (pose proof (po_next _ _ _ P2); lia).
  pose proof (robin_add_grows st2 id (po_inv _ _ _ P2) Hr2 Hid2 Hnin) as G3. split; [|by apply pool_deallocate].
  split; [apply G3| |eapply config_trans; [apply P2|apply G3]|].
  - pose proof (po_floor _ _ _ P2) as F. unfold floor, round_robin_add in *. cbn. rewrite length_app. lia.
  - pose proof (po_next _ _ _ P2). exact H.
Qed.

(** ** SECTION_WRITE_META *)

Lemma pool_refl st : sections_inv st -> floor st -> pool_ok 0 st st.
Proof. intros Hinv Hf. split; [done|done|done|lia]. Qed.

Lemma pool_trans k1 k2 st1 st2 st3 : pool_ok k1 st1 st2 -> pool_ok k2 st2 st3 -> pool_ok (k1 + k2) st1 st3.
Proof.
  intros P1 P2. split; [apply P2|apply P2|eapply config_trans; [apply P1|apply P2]|].
  pose proof (po_next _ _ _ P1). pose proof (po_next _ _ _ P2). lia.
Qed.

Lemma write_meta_pool io st id :
  sections_inv st -> meta_ok io -> floor st -> pool_ok 0 st (write_meta io st id) /\ same (block_at st) (block_at (write_meta io st id)).
Proof.
  intros Hinv Hio Hfl. unfold write_meta. destruct (find_key id (ss_lru st)) as [s|] eqn:Ef; [|split; [by apply pool_refl|done]].
  destruct (sec_dirty s); [|split; [by apply pool_refl|done]]. pose proof (open_ok st id s Hinv Ef) as Hok.
  destruct (Hio id) as [H1 H2]. rewrite (save_meta_stored _ _ _ H1 H2).
  set (d2 := set_meta (disk st id) _). set (st' := set_disk _ _ _).
  assert (touches id s (disk st id) st st') as Ht.
  { change st' with (update_section (set_disk st id d2) (set_dirty s false)). eapply (replace_touches st id s); try done; try apply Hok.
    - apply (section_inv_same s _ (disk st id)); try done; [|apply Hok]. apply (inv_file _ _ (so_inv _ _ _ Hok)).
    - intros _. cbn [d2 set_meta d_meta]. rewrite <- (app_nil_r (free_map_serialize _)). apply deserialize_serialize; apply (so_inv _ _ _ Hok). }
  split; [by apply (touches_keeps id s s (disk st id) st st')|]. intros id' i. rewrite (touches_blocks _ _ _ _ _ Hinv Ht).
  case_decide as E; [subst id'|done]. by rewrite (block_open st id s).
Qed.

Lemma write_meta_all io visit st :
  sections_inv st -> meta_ok io -> floor st ->
  pool_ok 0 st (foldl (write_meta io) st visit) /\ same (block_at st) (block_at (foldl (write_meta io) st visit)).
Proof.
  intros Hinv Hio. revert st Hinv. induction visit as [|id visit IH]; intros st Hinv Hfl; [split; [by apply pool_refl|done]|].
  cbn [foldl]. destruct (write_meta_pool io st id Hinv Hio Hfl) as [P1 S1].
  destruct (IH (write_meta io st id) (po_inv _ _ _ P1) (po_floor _ _ _ P1)) as [P2 S2].
  split; [exact (pool_trans 0 0 _ _ _ P1 P2)|by eapply same_trans].
Qed.

(** ** SECTIONS_DEFRAGMENT *)

Lemma rank_surjective fm n j : (j < slot_rank fm n)%nat -> exists i, (i < n)%nat /\ slot_free fm i = false /\ slot_rank fm i = j.
Proof.
  induction n as [|n IH]; [cbn; lia|]. rewrite slot_rank_S. destruct (slot_free fm n) eqn:E; intros Hj.
  - destruct (IH Hj) as (i & Hi & Hf & Hr). exists i. split_and!; [lia|done..].
  - destruct (decide (j = slot_rank fm n)) as [->|Hne]; [exists n; split_and!; [lia|done..]|].
    destruct (IH ltac:(lia)) as (i & Hi & Hf & Hr). exists i. split_and!; [lia|done..].
Qed.

Lemma defragment_frame s d :
  section_inv s d -> d_plan d = None ->
  let '(s1, d1, p, evs) := section_handle_defragment io_ok s d None in
  sec_id s1 = sec_id s /\ sec_block_size s1 = sec_block_size s /\ d_plan d1 = None /\ evs = [] /\
  fm_total_blocks (sec_free_map s1) = fm_total_blocks (sec_free_map s) /\
  exists relocation n, p = defragment_payload 0 (sec_id s) relocation n /\
  match relocation with
  | None => s1 = s /\ d1 = d
  | Some rel => sec_dirty s1 = true /\ length rel = fm_total_blocks (sec_free_map s) /\
      forall i, (i < fm_total_blocks (sec_free_map s))%nat -> rel !! i = Some (relocation_of (sec_free_map s) i)
  end.
Proof.
  intros Hinv Hplan. pose proof (handle_defragment_spec io_ok s d None Hinv) as Hspec. revert Hspec. unfold section_handle_defragment.
  destruct (_ || _ || _)%nat; [intros _; split_and!; try done; by eexists None, _|].
  pose proof (free_map_defragment_fields _ (inv_map s d Hinv)) as Hf.
  destruct (free_map_defragment (sec_free_map s)) as [r fm']. destruct Hf as (_ & Hlen & Hrel & _ & Htot & _).
  destruct (section_defrag_plan_write _ _ _ _) as [d1 rc].
  destruct (negb (rc =? 0)); [by intros (_ & ? & ? & ? & [= <- _ _] & [[]|(_ & _ & [])])|].
  destruct (open_data _ _ _) as [[s2 d2]|] eqn:Eo; [|by intros (_ & ? & ? & ? & [= <- _ _] & [[]|(_ & _ & [])])].
  pose proof (open_data_spec io_ok (set_free_map s fm') d1) as Hopen. rewrite Eo in Hopen. destruct Hopen as (-> & _).
  destruct (move_blocks _ _ _ _ _) as [c|c]; [|by intros (_ & ? & ? & ? & [= <- _ _] & [[]|(_ & _ & [])])].
  cbn [io_ok io_truncate negb]. intros _. split_and!; try done. by eexists (Some _), _.
Qed.

Lemma place_first R1 R2 id i : Forall (fun r => rl_section_id r <> id) R1 -> place (R1 ++ R2) id i = place R2 id i.
Proof. induction 1 as [|r R1 Hr _ IH]; [done|]. cbn. rewrite decide_False by naive_solver. exact IH. Qed.

Lemma place_none R id i : Forall (fun r => rl_section_id r <> id) R -> place R id i = Z.of_nat i.
Proof. intros HR. rewrite <- (app_nil_r R). by rewrite place_first. Qed.

Lemma place_last R1 R2 id i : Forall (fun r => rl_section_id r <> id) R2 -> place (R1 ++ R2) id i = place R1 id i.
Proof.
  intros HR. induction R1 as [|r R1 IH]; [by apply place_none|]. cbn. case_decide; [done|exact IH].
Qed.

Lemma relocations_ids id total rel : Forall (fun r => rl_section_id r = id) (relocations_of id total rel).
Proof.
  apply Forall_forall. intros r. unfold relocations_of. rewrite list_elem_of_omap. unfold relocation_entry. intros (i & _ & E).
  destruct (rel !! i) as [new|]; [|done]. destruct (_ || _); [done|]. by injection E as <-.
Qed.

Lemma entry_index id rel k r : relocation_entry id rel k = Some r -> rl_old_index r = k.
Proof. unfold relocation_entry. destruct (rel !! k); [|done]. destruct (_ || _); [done|]. by intros [= <-]. Qed.

Lemma place_skip id rel i l : i ∉ l -> place (omap (relocation_entry id rel) l) id i = Z.of_nat i.
Proof.
  induction l as [|k l IH]; [done|]. intros [Hk Hl]%not_elem_of_cons. cbn.
  destruct (relocation_entry id rel k) as [r|] eqn:E; [|by apply IH]. apply entry_index in E. cbn.
  rewrite decide_False by (intros [_ E2]; congruence). by apply IH.
Qed.

Lemma place_relocations id total rel i new :
  (i < total)%nat -> rel !! i = Some new -> new <> u64 (-1) -> place (relocations_of id total rel) id i = new.
Proof.
  intros Hi Hrel Hne. unfold relocations_of. assert (i ∈ seq 0 total) as Hin by (apply elem_of_seq; lia).
  pose proof (NoDup_seq 0 total) as Hn. induction (seq 0 total) as [|k l IH]; [by apply not_elem_of_nil in Hin|].
  apply NoDup_cons in Hn as [Hk Hn]. cbn. destruct (decide (k = i)) as [->|Hki].
  - unfold relocation_entry at 1. rewrite Hrel. destruct (Z.eqb_spec new (u64 (-1))); [done|]. cbn [orb].
    destruct (Z.eqb_spec new (Z.of_nat i)) as [E|E]; [by rewrite place_skip|]. cbn. by rewrite decide_True.
  - apply elem_of_cons in Hin as [->|Hin]; [done|].
    destruct (relocation_entry id rel k) as [r|] eqn:E; [|by apply IH]. apply entry_index in E. cbn.
    rewrite decide_False by (intros [_ E2]; congruence). by apply IH.
Qed.

(** What a compaction does to the blocks. *)
Definition moved (R : list block_relocation_t) (σ σ' : blocks) (id : Z) : Prop :=
  (forall i, is_Some (σ id i) -> 0 <= place R id i /\ σ' id (Z.to_nat (place R id i)) = σ id i) /\
  (forall j, is_Some (σ' id j) -> exists i, is_Some (σ id i) /\ place R id i = Z.of_nat j).

Lemma moved_same R σ σ' id :
  (forall i, σ' id i = σ id i) -> Forall (fun r => rl_section_id r <> id) R -> moved R σ σ' id.
Proof.
  intros Hs HR. split; intros i Hi; [rewrite (place_none R) by done; rewrite Nat2Z.id; split; [lia|done]|]. exists i. rewrite Hs in Hi. by rewrite (place_none R).
Qed.

(** The compacted section, its relocations and its room. *)
Lemma compacted_moved_to s d s1 d1 rel id σ σ' :
  section_inv s d -> compacted_from s d s1 d1 ->
  (forall i, (i < fm_total_blocks (sec_free_map s))%nat -> rel !! i = Some (relocation_of (sec_free_map s) i)) ->
  (forall i, σ id i = contents s d i) -> (forall i, σ' id i = contents s1 d1 i) ->
  moved (relocations_of id (fm_total_blocks (sec_free_map s)) rel) σ σ' id.
Proof.
  intros Hinv [Hc Ho] Hrel Hσ Hσ'. set (fm := sec_free_map s) in *.
  assert (forall i, occupied s i = true -> place (relocations_of id (fm_total_blocks fm) rel) id i = Z.of_nat (slot_rank fm i)) as Hplace.
  { intros i [Hi Hf]%occupied_true. pose proof (slot_rank_le fm i) as Hle. pose proof (inv_total s d Hinv) as Ht. fold fm in Ht, Hf, Hi.
    apply place_relocations; [done| |].
    - rewrite Hrel by done. unfold relocation_of. by rewrite Hf.
    - unfold u64. change ((-1) mod 2 ^ 64) with 18446744073709551615. lia. }
  split.
  - intros i. rewrite Hσ. intros Hs%contents_some. rewrite Hplace, Nat2Z.id, Hσ', Hc by done. split; [lia|done].
  - intros j. rewrite Hσ'. intros Hs%contents_some. rewrite Ho, Nat.ltb_lt in Hs. fold fm in Hs.
    destruct (rank_surjective fm _ j Hs) as (i & Hi & Hf & Hr). exists i.
    assert (occupied s i = true) as Hocc by (by apply occupied_true). rewrite Hσ, Hplace by done. rewrite Hr. split; [by apply contents_some|done].
Qed.

Lemma compacted_room s d s1 d1 :
  section_inv s d -> section_inv s1 d1 -> compacted_from s d s1 d1 -> fm_total_blocks (sec_free_map s1) = fm_total_blocks (sec_free_map s) ->
  is_sections_full s = false -> is_sections_full s1 = false.
Proof.
  intros Hinv Hinv1 [_ Ho] Htot Hroom. apply not_true_iff_false. intros Hfull. apply not_true_iff_false in Hroom. apply Hroom.
  unfold is_sections_full in *. rewrite free_map_is_full_spec in Hfull |- * by (apply Hinv || apply Hinv1).
  set (fm := sec_free_map s) in *. destruct (fm_total_blocks fm) as [|n] eqn:En; [intros i Hi; lia|].
  assert (occupied s1 n = true) as Hocc by (apply occupied_true; rewrite Htot; split; [lia|]; apply Hfull; lia).
  rewrite Ho, Nat.ltb_lt in Hocc. fold fm in Hocc. pose proof (slot_rank_le fm (S n)) as Hle.
  assert (slot_rank fm (S n) = S n) as Hr by lia. intros i Hi.
  pose proof (rank_full fm (S n) (S i) Hr ltac:(lia)) as HS. rewrite slot_rank_S, (rank_full fm (S n) i) in HS by (done || lia).
  destruct (slot_free fm i); [lia|done].
Qed.

Lemma defragment_one io threshold st n R id :
  (forall id, io id = io_ok) -> sections_inv st -> floor st ->
  let '(st', _, R') := defragment_section io threshold (st, n, R) id in
  pool_ok 0 st st' /\ exists Rn, R' = R ++ Rn /\ Forall (fun r => rl_section_id r = id) Rn /\
    (forall id', id' <> id -> forall i, block_at st' id' i = block_at st id' i) /\ moved Rn (block_at st) (block_at st') id.
Proof.
  intros Hio Hinv Hfl. unfold defragment_section.
  assert (forall st', pool_ok 0 st st' -> same (block_at st) (block_at st') -> pool_ok 0 st st' /\ exists Rn, R = R ++ Rn /\
    Forall (fun r => rl_section_id r = id) Rn /\ (forall id', id' <> id -> forall i, block_at st' id' i = block_at st id' i) /\
    moved Rn (block_at st) (block_at st') id) as Hid.
  { intros st' P S. split; [done|]. exists []. rewrite app_nil_r. split_and!; [done|done|by intros; apply S|]. apply moved_same; [by intros; apply S|done]. }
  destruct (find_key id (ss_lru st)) as [s|] eqn:Ef; [|apply Hid; [by apply pool_refl|done]].
  destruct (skip_section threshold s); [apply Hid; [by apply pool_refl|done]|].
  pose proof (open_ok st id s Hinv Ef) as Hok. pose proof (so_id _ _ _ Hok) as Eid. pose proof (so_inv _ _ _ Hok) as Hsi.
  unfold dispatch_section. rewrite Eid, Hio. cbn [section_dispatch].
  pose proof (handle_defragment_spec io_ok s (disk st id) None Hsi) as Hspec.
  pose proof (defragment_frame s (disk st id) Hsi (so_plan _ _ _ Hok)) as Hframe.
  destruct (section_handle_defragment io_ok s (disk st id) None) as [[[s1 d1] p] evs].
  destruct Hframe as (Hid1 & Hbs & Hplan & -> & Htot & rel & m & -> & Hrel). cbn [existsb].
  destruct Hspec as (Hsi1 & r & rel' & m' & [= <- <- <-] & [(_ & Hcomp & _)|(_ & _ & [])]); [|done].
  assert (touches id s1 d1 st (update_section (set_disk st id d1) s1)) as Ht.
  { eapply (replace_touches st id s s1 d1); try done; [by rewrite Hid1|by rewrite Hbs, (so_bytes _ _ _ Hok)|].
    destruct rel as [rel|]; [by destruct Hrel as (-> & _)|]. destruct Hrel as [-> ->]. apply (so_saved _ _ _ Hok). }
  pose proof (touches_blocks _ _ _ _ _ Hinv Ht) as Hb.
  assert (pool_ok 0 st (update_section (set_disk st id d1) s1)) as P.
  { eapply (touches_keeps id s); try done. by apply (compacted_room s (disk st id) s1 d1). }
  destruct rel as [rel|].
  - split; [done|]. eexists. split; [done|]. split_and!; [apply relocations_ids| |].
    + intros id' Hne i. by rewrite Hb, decide_False.
    + apply (compacted_moved_to s (disk st id) s1 d1); try done; [apply Hrel|by intros; apply block_open|]. intros i. by rewrite Hb, decide_True.
  - apply Hid; [done|]. destruct Hrel as [-> ->]. intros id' i. rewrite Hb. case_decide as E; [subst id'|done]. by rewrite (block_open st id s).
Qed.

Lemma defragment_all io threshold visit st n R :
  (forall id, io id = io_ok) -> NoDup visit -> sections_inv st -> floor st ->
  let '(st', _, R') := foldl (defragment_section io threshold) (st, n, R) visit in
  pool_ok 0 st st' /\ exists Rn, R' = R ++ Rn /\ Forall (fun r => rl_section_id r ∈ visit) Rn /\ forall id, moved Rn (block_at st) (block_at st') id.
Proof.
  intros Hio. revert st n R. induction visit as [|id visit IH]; intros st n R Hn Hinv Hfl; cbn [foldl].
  { split; [by apply pool_refl|]. exists []. rewrite app_nil_r. split_and!; [done|done|]. intros id. by apply moved_same. }
  apply NoDup_cons in Hn as [Hid Hn]. pose proof (defragment_one io threshold st n R id Hio Hinv Hfl) as H1.
  destruct (defragment_section io threshold (st, n, R) id) as [[st1 n1] R1]. destruct H1 as (P1 & Rn1 & -> & HR1 & Ho1 & Hm1).
  specialize (IH st1 n1 (R ++ Rn1) Hn (po_inv _ _ _ P1) (po_floor _ _ _ P1)).
  destruct (foldl (defragment_section io threshold) (st1, n1, R ++ Rn1) visit) as [[st2 n2] R2]. destruct IH as (P2 & Rn2 & -> & HR2 & Hm2).
  split; [exact (pool_trans 0 0 _ _ _ P1 P2)|]. exists (Rn1 ++ Rn2). rewrite app_assoc. split; [done|]. split.
  { apply Forall_app. split; (eapply Forall_impl; [eassumption|]); cbn; intros r Hr; set_solver. }
  intros id'. destruct (decide (id' = id)) as [->|Hne].
  - assert (Forall (fun r => rl_section_id r <> id) Rn2) as HR2' by (eapply Forall_impl; [exact HR2|]; cbn; intros r Hr E; by rewrite E in Hr).
    assert (forall i, block_at st2 id i = block_at st1 id i) as Hs.
    { intros i. destruct (Hm2 id) as [Ha Hb]. destruct (block_at st1 id i) as [b|] eqn:E.
      - specialize (Ha i). rewrite E, (place_none Rn2), Nat2Z.id in Ha by done. apply Ha. eauto.
      - destruct (block_at st2 id i) as [b|] eqn:E2; [|done]. destruct (Hb i) as (j & Hj & Hp); [by rewrite E2|].
        rewrite (place_none Rn2) in Hp by done. apply Nat2Z.inj in Hp. subst j. rewrite E in Hj. by destruct Hj. }
    split; intros i Hi; rewrite ?(place_last Rn1 Rn2) by done.
    + rewrite Hs. by apply Hm1.
    + rewrite Hs in Hi. destruct (proj2 Hm1 i Hi) as (j & Hj & Hp). exists j. by rewrite (place_last Rn1 Rn2).
  - assert (Forall (fun r => rl_section_id r <> id') Rn1) as HR1' by (eapply Forall_impl; [exact HR1|]; cbn; congruence).
    split; intros i Hi.
    + rewrite (place_first Rn1) by done. rewrite <- (Ho1 id' Hne) in Hi |- *. by apply Hm2.
    + destruct (proj2 (Hm2 id') i Hi) as (j & Hj & Hp). exists j. rewrite (place_first Rn1) by done. by rewrite (Ho1 id' Hne) in Hj.
Qed.

(** ** The dispatcher *)

(** What the pool relies on: metadata can be saved, ids are known, and a
    compaction meets no fault. *)
Definition sound_message (io : ios) (st : sections_t) (msg : sections_msg) : Prop :=
  meta_ok io /\
  match msg with
  | SECTIONS_READ id _ _ | SECTIONS_DEALLOCATE id _ _ => 0 <= id < ss_next_id st
  | SECTIONS_DEFRAGMENT _ _ visit => NoDup visit /\ forall id, io id = io_ok
  | _ => True
  end.

(** The pool between messages. *)
Record pool_inv (st : sections_t) : Prop := {
  pi_inv : sections_inv st;
  pi_floor : floor st;
  pi_tuple : (0 < ss_max_tuple_size st)%nat
}.

Lemma dispatch_pool io st msg :
  pool_inv st -> room_for_ids st -> sound_message io st msg ->
  exists st' p evs, sections_dispatch io st msg = Some (st', p, evs) /\ pool_ok (id_budget st) st st' /\
    pool_step (block_at st) msg p (block_at st').
Proof.
  intros [Hinv Hfl Hmt] Hids [Hio Hmsg].
  assert (forall k st', pool_ok k st st' -> k <= id_budget st -> pool_ok (id_budget st) st st') as Hle.
  { intros k st' [I F C N] Hk. split; [done..|lia]. }
  assert (0 <= id_budget st) as Hb by (unfold id_budget; lia).
  destruct msg as [data rt|id i rt|id i rt|id| |visit|threshold rt visit|type]; cbn [sections_dispatch].
  - destruct (handle_write_pool io st data rt Hinv Hio Hfl Hmt Hids) as (st' & r & id & i & evs & -> & P & S & _). by eexists _, _, _.
  - destruct (handle_read_pool io st id i rt Hinv Hio Hfl Hmsg) as (st' & r & evs & -> & P & S & _). eexists _, _, _. split; [done|]. eauto.
  - destruct (handle_deallocate_pool io st id i rt Hinv Hio Hfl Hmsg) as (st' & r & evs & -> & P & S). eexists _, _, _. split; [done|]. eauto.
  - destruct (sections_full_grows io st id Hinv Hio Hids) as [G F]. eexists _, _, _. split; [done|]. split.
    + split; [apply G|done|apply G|apply G].
    + apply pool_full. exact (grows_blocks _ _ _ Hinv G).
  - eexists _, _, _. split; [done|]. split; [by apply (Hle 0), Hb; apply pool_refl|]. by apply pool_save.
  - destruct (write_meta_all io visit st Hinv Hio Hfl) as [P S]. eexists _, _, _. split; [done|]. split; [eauto|by apply pool_meta].
  - destruct Hmsg as [Hn Hall]. unfold sections_handle_defragment.
    pose proof (defragment_all io threshold visit st 0 [] Hall Hn Hinv Hfl) as H.
    destruct (foldl _ _ _) as [[st' n] R]. destruct H as (P & Rn & -> & _ & Hm). cbn [app]. eexists _, _, _. split; [done|].
    split; [eauto|]. apply pool_defragment; intros id; apply Hm.
  - eexists _, _, _. split; [done|]. split; [by apply (Hle 0), Hb; apply pool_refl|]. by apply pool_other.
Qed.

(** ** Creation *)

Definition consistent_files (size : nat) (type : block_size_e) (files : gmap Z disk_t) (next_id : Z) : Prop :=
  forall id, let d := default no_files (files !! id) in
    d_plan d = None /\ (~ (0 <= id < next_id) -> d_meta d = None) /\
    exists fm, match d_meta d with Some meta => free_map_deserialize meta | None => Some (free_map_init size) end = Some fm /\
      section_inv (mk_section id false fm (Z.to_nat (block_size type)) false) d.

Lemma empty_pool_inv size cache_size mt type timer files next_id :
  (0 < size)%nat -> (0 < cache_size)%nat -> Z.of_nat (size * Z.to_nat (block_size type)) <= OFF_MAX -> Z.of_nat size < 2 ^ 32 -> 0 <= next_id ->
  consistent_files size type files next_id -> sections_inv (mk_sections [] cache_size [] mt next_id size type 0 timer files).
Proof.
  intros Hs Hc Ho Ht Hn Hfiles. split; try done.
  - intros id. destruct (Hfiles id) as (Hp & _ & fm & Hfm & Hi). unfold section_of. cbn [ss_lru find_key].
    unfold stored_map. cbn [ss_size]. change (disk _ id) with (default no_files (files !! id)). rewrite Hfm. eexists. split; [done|]. by split.
  - constructor.
  - cbn. lia.
  - constructor.
  - intros id Hin. by apply not_elem_of_nil in Hin.
  - intros id Hin. by apply not_elem_of_nil in Hin.
  - intros id Hge. split; [done|]. by apply Hfiles.
Qed.

Lemma create_floor_pool io fuel st :
  sections_inv st -> meta_ok io -> ss_next_id st + Z.of_nat fuel < 2 ^ 64 ->
  Z.of_nat (ss_max_tuple_size st) <= Z.of_nat fuel + robin_size st ->
  exists st', create_floor io fuel st = Some st' /\ sections_inv st' /\ floor st' /\ same_config st st' /\
    ss_next_id st <= ss_next_id st' <= ss_next_id st + Z.of_nat fuel /\ same (block_at st) (block_at st').
Proof.
  revert st. induction fuel as [|fuel IH]; intros st Hinv Hio Hw Hle; cbn [create_floor].
  { exists st. split_and!; try done; try lia. unfold floor, robin_size in *. lia. }
  destruct (Z.ltb_spec (robin_size st) (Z.of_nat (ss_max_tuple_size st))) as [Hlt|Hge].
  2: { exists st. split_and!; try done; try lia. unfold floor, robin_size in *. lia. }
  destruct (grow_grows io st Hinv Hio ltac:(lia)) as (st1 & E & G & Hr & Hn).
  assert (open_new io (st <| ss_next_id := u64 (ss_next_id st + 1) |>) (ss_next_id st) =
    match open_new io st (ss_next_id st) with Some (s, st') => Some (s, st' <| ss_next_id := u64 (ss_next_id st + 1) |>) | None => None end)
    as Hop by apply open_new_next.
  unfold _sections_grow, _sections_create_fresh in E. rewrite Hop. destruct (open_new io st (ss_next_id st)) as [[s st2]|] eqn:Eo; [|done].
  cbn [mbind option_bind]. apply open_new_next_id in Eo. rewrite <- Eo. injection E as <-.
  match goal with |- context [create_floor io fuel ?x] => set (st1 := x) in * end.
  change (grows 1 st st1) in G. change (ss_next_id st1 = ss_next_id st + 1) in Hn. change (ss_robin st1 = ss_robin st ++ [ss_next_id st]) in Hr.
  destruct (gr_config _ _ _ G) as (_ & Hmt & _).
  destruct (IH st1 (gr_inv _ _ _ G) Hio) as (st' & E' & I & F & C & N & S); [lia| |].
  { unfold robin_size in *. rewrite Hr, Hmt, length_app. cbn [length]. lia. }
  exists st'. split_and!; try done; [eapply config_trans; [apply G|done]|lia|lia|]. eapply same_trans; [|exact S]. exact (grows_blocks _ _ _ Hinv G).
Qed.

(** A pool without a round robin file, over files of earlier sections. *)
Lemma sections_create_pool io size cache_size mt type timer files last_id :
  meta_ok io -> (0 < size)%nat -> (0 < cache_size)%nat -> (0 < mt)%nat ->
  Z.of_nat (size * Z.to_nat (block_size type)) <= OFF_MAX -> Z.of_nat size < 2 ^ 32 ->
  (forall last, last_id = Some last -> 0 <= last) ->
  let next := match last_id with Some last => last + 1 | None => 0 end in
  consistent_files size type files next -> next + Z.of_nat mt < 2 ^ 64 ->
  exists st, sections_create io size cache_size mt type timer files [] last_id = Some st /\ pool_inv st /\
    ss_next_id st <= next + Z.of_nat mt /\ ss_max_tuple_size st = mt /\ ss_type st = type.
Proof.
  intros Hio Hs Hc Hmt Ho Ht Hlast next Hfiles Hnext. unfold sections_create. cbn [foldl mbind option_bind].
  assert (match last_id with Some last => u64 (last + 1) | None => 0 end = next /\ 0 <= next) as [-> Hn0].
  { unfold next in *. destruct last_id as [last|]; [|done]. specialize (Hlast last eq_refl). split; [|lia]. apply u64_small. unfold is_u64. lia. }
  destruct (create_floor_pool io mt (mk_sections [] cache_size [] mt next size type 0 timer files)) as (st & E & I & F & C & N & _); try done.
  - by apply empty_pool_inv.
  - unfold robin_size; cbn [ss_max_tuple_size ss_robin length]; lia.
  - exists st. destruct C as (_ & C2 & _ & C4 & _). cbn in *. split_and!; [done|by split; [..|rewrite C2]|lia|done|done].
Qed.

(** ** Runs *)

(** A run of the pool; the location of a block follows the relocations. *)
Definition relocated (p : sections_payload) (loc : Z * nat) : Z * nat :=
  match p with
  | sections_defragment_payload _ _ relocations => (loc.1, Z.to_nat (place relocations loc.1 loc.2))
  | _ => loc
  end.

Definition releases (msg : sections_msg) (loc : Z * nat) : bool :=
  match msg with SECTIONS_DEALLOCATE id i _ => (id =? loc.1) && (i =? loc.2)%nat | _ => false end.

(** [pool_run st loc msgs st' loc']: no message releases the block at [loc]. *)
Inductive pool_run : sections_t -> Z * nat -> list (ios * sections_msg) -> sections_t -> Z * nat -> Prop :=
| run_done st loc : pool_run st loc [] st loc
| run_message st loc io msg st1 p evs msgs st2 loc2 :
    room_for_ids st -> sound_message io st msg -> releases msg loc = false ->
    sections_dispatch io st msg = Some (st1, p, evs) -> pool_run st1 (relocated p loc) msgs st2 loc2 ->
    pool_run st loc ((io, msg) :: msgs) st2 loc2.

Lemma pool_ok_inv k st st' : pool_inv st -> pool_ok k st st' -> pool_inv st'.
Proof. intros [_ _ Ht] [I F (_ & C & _) _]. split; [done|done|by rewrite C]. Qed.

Lemma step_keeps σ msg p σ' loc b :
  pool_step σ msg p σ' -> releases msg loc = false -> σ loc.1 loc.2 = Some b ->
  σ' (relocated p loc).1 (relocated p loc).2 = Some b.
Proof.
  destruct loc as [id i]. cbn [fst snd]. intros Hstep Hrel Hb.
  destruct Hstep as [data rt id0 i0 σ' Hn Hs|data rt r id0 i0 σ' _ Hs|id0 i0 rt r σ' _ Hs|id0 i0 rt σ' Hs|id0 σ' Hs|σ' Hs|visit σ' Hs
    |th rt visit n R σ' Hm _|type σ' Hs]; cbn [relocated fst snd]; try (by rewrite Hs).
  - rewrite Hs. unfold set_block. rewrite decide_False; [done|]. intros [-> ->]. congruence.
  - rewrite Hs. unfold set_block. rewrite decide_False; [done|]. intros [-> ->]. cbn in Hrel. by rewrite Z.eqb_refl, Nat.eqb_refl in Hrel.
  - destruct (Hm id i) as [_ ->]; [by rewrite Hb|done].
Qed.

Lemma run_keeps_block st loc msgs st' loc' b :
  pool_run st loc msgs st' loc' -> pool_inv st -> block_at st loc.1 loc.2 = Some b -> pool_inv st' /\ block_at st' loc'.1 loc'.2 = Some b.
Proof.
  induction 1 as [|st loc io msg st1 p evs msgs st2 loc2 Hids Hsound Hrel E _ IH]; intros Hinv Hb; [done|].
  destruct (dispatch_pool io st msg Hinv Hids Hsound) as (st1' & p' & evs' & E' & P & S). rewrite E in E'. injection E' as <- <- <-.
  apply IH; [by eapply pool_ok_inv|]. by eapply step_keeps.
Qed.

Lemma block_known st id i b : pool_inv st -> block_at st id i = Some b -> 0 <= id < ss_next_id st.
Proof.
  intros [Hinv _ _] Hb. destruct (decide (0 <= id < ss_next_id st)) as [|Hge]; [done|]. exfalso.
  destruct (si_fresh st Hinv id Hge) as [Hn Hm]. unfold block_at, section_of, stored_map in Hb. rewrite Hn, Hm in Hb. cbn in Hb.
  unfold contents in Hb. destruct (occupied _ i) eqn:E; [|done]. apply occupied_true in E as [Hi Hf]. cbn [sec_free_map] in *.
  rewrite free_map_init_free in Hf. apply Nat.ltb_ge in Hf. cbn [fm_total_blocks free_map_init] in Hi. lia.
Qed.

Definition all_ok : ios := fun _ => io_ok.

Lemma all_ok_meta : meta_ok all_ok.
Proof. by intros id. Qed.

(** ** The properties *)

(** C9: Every message takes the store of blocks of the pool to one the
    specification allows and keeps the pool well-formed, whatever sections are
    opened, closed, filled and added on the way and whatever transfers of data
    fail, as long as metadata can be saved: a write fills one empty slot of some
    section, a read returns what its slot holds, a release empties one slot, a
    compaction moves the blocks as its relocations say, and nothing else changes
    any block. *)
Theorem sections_dispatch_refines (io : ios) (st : sections_t) (msg : sections_msg) :
  pool_inv st -> room_for_ids st -> sound_message io st msg ->
  exists st' p evs, sections_dispatch io st msg = Some (st', p, evs) /\ pool_inv st' /\ pool_step (block_at st) msg p (block_at st').
Proof.
  intros Hinv Hids Hsound. destruct (dispatch_pool io st msg Hinv Hids Hsound) as (st' & p & evs & E & P & S).
  exists st', p, evs. split_and!; [done|by eapply pool_ok_inv|done].
Qed.

(** C27: A block whose SECTIONS_WRITE reported success is read back after any
    further messages that do not release it, from where the relocations of the
    compactions have put it. *)
Theorem sections_write_read_back (io : ios) (st st1 st2 : sections_t) (data : bytes) (rt : option actor_id) (id id' : Z) (i i' : nat)
    (evs : list sections_event) (msgs : list (ios * sections_msg)) :
  pool_inv st -> room_for_ids st -> meta_ok io ->
  sections_dispatch io st (SECTIONS_WRITE data rt) = Some (st1, sections_write_payload 0 id i, evs) ->
  pool_run st1 (id, i) msgs st2 (id', i') ->
  exists st3 evs3, sections_dispatch all_ok st2 (SECTIONS_READ id' i' None) = Some (st3, sections_read_payload (Some data), evs3).
Proof.
  intros Hinv Hids Hio E Hrun. destruct (dispatch_pool io st (SECTIONS_WRITE data rt) Hinv Hids) as (st1' & p & evs' & E' & P & S); [done|].
  rewrite E in E'. injection E' as <- <- <-. assert (block_at st1 id i = Some data) as Hb.
  { inversion S as [? ? ? ? ? _ Hs| | | | | | | |]; [|done]. subst. rewrite Hs. unfold set_block. by rewrite decide_True. }
  destruct (run_keeps_block st1 (id, i) msgs st2 (id', i') data Hrun) as [Hinv2 Hb2]; [by eapply pool_ok_inv|done|]. cbn [fst snd] in Hb2.
  pose proof (block_known _ _ _ _ Hinv2 Hb2) as Hid. destruct Hinv2 as [I2 F2 _].
  destruct (handle_read_pool all_ok st2 id' i' None I2 all_ok_meta F2 Hid) as (st3 & r & evs3 & E3 & _ & _ & Hok).
  exists st3, evs3. cbn [sections_dispatch]. rewrite E3, Hok by (done || by rewrite Hb2). by rewrite Hb2.
Qed.

(** A block of the right size can be written whenever the platform calls
    succeed, however many sections are full. *)
Theorem sections_write_succeeds (st : sections_t) (data : bytes) (rt : option actor_id) :
  pool_inv st -> room_for_ids st -> length data = section_bytes st ->
  exists st' id i evs, sections_dispatch all_ok st (SECTIONS_WRITE data rt) = Some (st', sections_write_payload 0 id i, evs) /\ pool_inv st'.
Proof.
  intros Hinv Hids Hlen. pose proof Hinv as [I F T].
  destruct (handle_write_pool all_ok st data rt I all_ok_meta F T Hids) as (st' & r & id & i & evs & E & P & _ & Hr).
  cbn [sections_dispatch]. rewrite Hr in E by done. exists st', id, i, evs. split; [done|by eapply pool_ok_inv].
Qed.

(** A pool of sections with two slots, one open at a time. *)
Definition sample_pool : sections_t :=
  default (mk_sections [] 1 [] 1 0 2 nano 0 true ∅) (sections_create all_ok 2 1 1 nano true ∅ [] None).

Lemma sample_pool_inv : pool_inv sample_pool /\ room_for_ids sample_pool.
Proof.
  destruct (sections_create_pool all_ok 2 1 1 nano true ∅ None) as (st & E & Hinv & Hn & Hmt & _); try done; try lia.
  - intros id. rewrite lookup_empty. cbn [default]. split_and!; [done|done|]. eexists. split; [done|].
    apply (fresh_section_inv id (Z.to_nat (block_size nano)) 2); [cbn; lia|vm_compute; discriminate|done].
  - unfold sample_pool. rewrite E. change (default _ (Some st)) with st. split; [done|]. unfold room_for_ids. rewrite Hmt. cbn in Hn. lia.
Qed.

Definition sample_block (z : Z) : bytes := replicate 136 z.

Lemma sections_dispatch_refines_witness :
  exists st' p evs, sections_dispatch all_ok sample_pool (SECTIONS_WRITE (sample_block 1) None) = Some (st', p, evs) /\ pool_inv st' /\
    pool_step (block_at sample_pool) (SECTIONS_WRITE (sample_block 1) None) p (block_at st').
Proof. apply sections_dispatch_refines; [apply sample_pool_inv|apply sample_pool_inv|split; [apply all_ok_meta|done]]. Defined.

Lemma sections_write_succeeds_witness :
  exists st' id i evs, sections_dispatch all_ok sample_pool (SECTIONS_WRITE (sample_block 1) None) =
    Some (st', sections_write_payload 0 id i, evs) /\ pool_inv st'.
Proof. apply sections_write_succeeds; [apply sample_pool_inv|apply sample_pool_inv|vm_compute; reflexivity]. Defined.

(** The first section is filled and closed; the next block goes to a new one. *)
Lemma sections_write_read_back_witness :
  exists st1 evs st2, sections_dispatch all_ok sample_pool (SECTIONS_WRITE (sample_block 1) None) = Some (st1, sections_write_payload 0 0 0, evs) /\
    (ss_robin st2, (ss_lru st2).*1) = ([1], [1]) /\
    exists st3 evs3, sections_dispatch all_ok st2 (SECTIONS_READ 0 0 None) = Some (st3, sections_read_payload (Some (sample_block 1)), evs3).
Proof.
  eexists _, _, _. split; [vm_compute; reflexivity|]. split.
  2: { eapply (sections_write_read_back all_ok sample_pool _ _ _ None 0 0 0 0 _
         [(all_ok, SECTIONS_WRITE (sample_block 2) None); (all_ok, SECTIONS_WRITE (sample_block 3) None)]).
       - apply sample_pool_inv.
       - apply sample_pool_inv.
       - apply all_ok_meta.
       - vm_compute; reflexivity.
       - eapply run_message; [vm_compute; reflexivity|split; [apply all_ok_meta|done]|reflexivity|vm_compute; reflexivity|].
         eapply run_message; [vm_compute; reflexivity|split; [apply all_ok_meta|done]|reflexivity|vm_compute; reflexivity|]. apply run_done. }
  vm_compute. reflexivity.
Defined.
