(* ===== verification/BlockCache.v ===== *)
(** * BlockCache: the block cache actor

    Models src/src/BlockCache/block_cache.c: the actor that ties the index of
    blocks ([IndexStore]), the pool of sections that holds their data
    ([Sections]) and the cache of blocks in memory ([Lru]) together.  Every
    message of [block_cache_dispatch] has its handler; handlers are written in
    a monad of state, effects and failure, where failure is an access to freed
    memory or a NULL pointer.

    The cache and the requests that wait for a read hold pointers to the entries
    of the index.  A pointer is an [entry_ref]: to the entry the index has for a
    hash, or to an entry that has left the index, which [bc_removed] keeps.

    The platform, the clock and the state of the respiration actor are the
    environment of a handler ([bc_env]); authority, respiration and network only
    receive effects. *)

From Stdlib Require Import SpecFloat.
From stdpp Require Import gmap sorting.
From S2P Require Import Prelude Cbor Buffer Block Bloom ElasticBloom DList Lru Effect.
From S2P Require Import Platform FreeMap Section Sections Wal Fibonacci IndexEntry Index IndexStore.
Local Open Scope Z_scope.

(** ** State *)

Inductive entry_ref := entry_live (hash : bytes) | entry_removed (n : nat).

#[export] Instance entry_ref_eq_dec : EqDecision entry_ref.
Proof. solve_decision. Defined.

Record bc_put_group_t := mk_put_group { gr_group : Z; gr_hashes : list bytes }.

Record pending_get_t := mk_pending { pg_hash : bytes; pg_entry : entry_ref; pg_reply_to : actor_id }.

Record block_cache_t := mk_bc {
  bc_lru : lru_cache_t bytes (block_t * entry_ref);
  bc_sections : sections_t;
  bc_index : index_store;
  bc_type : block_size_e;
  bc_delete_blocks_on_put_failure : bool;
  bc_put_groups : list bc_put_group_t;
  bc_ended_put_groups : list Z;           (* the first ended_put_groups_count of the array *)
  bc_ended_put_groups_next : nat;
  bc_pending_gets : list pending_get_t;
  bc_current_bytes : Z;
  bc_max_capacity_bytes : Z;
  bc_entry_count : Z;
  bc_exhale_shedding : bool;
  bc_authority : bool;                    (* != NULL *)
  bc_respiration : bool;                  (* != NULL *)
  bc_network : bool;                      (* respiration->network != NULL *)
  bc_removed : gmap nat index_entry_t     (* entries that were removed from the index *)
}.

#[export] Instance bc_settable : Settable block_cache_t := fields! mk_bc
  [bc_lru; bc_sections; bc_index; bc_type; bc_delete_blocks_on_put_failure; bc_put_groups; bc_ended_put_groups;
   bc_ended_put_groups_next; bc_pending_gets; bc_current_bytes; bc_max_capacity_bytes; bc_entry_count; bc_exhale_shedding;
   bc_authority; bc_respiration; bc_network; bc_removed].

(** What the handler of one message meets: the outcomes of the file operations,
    the clock, and whether the respiration actor is idle. *)
Record bc_env := mk_env { env_io : ios; env_store : store_io; env_time : Z; env_idle : bool }.

Definition CACHE_PUT_NEW : Z := 0.
Definition CACHE_PUT_EXISTS : Z := 1.
Definition CACHE_PUT_ERROR : Z := -1.
Definition CACHE_PUT_FULL : Z := -2.
Definition CACHE_FIT_OK : Z := 0.
Definition CACHE_FIT_FULL : Z := 1.
Definition CACHE_EPHEMERAL_OK : Z := 0.
Definition CACHE_EPHEMERAL_NOT_FOUND : Z := -1.
Definition CACHE_EPHEMERAL_OVERFLOW : Z := -2.
Definition CACHE_REMOVE_PINNED : Z := -3.
Definition CACHE_REMOVE_EPHEMERAL_CLAIMED : Z := -4.
Definition BLOCK_CACHE_PUT_GROUP_TOMBSTONES : nat := 1024.
Definition RESPIRATION_EXHALE_BATCH : nat := 40.
Definition SECTION_DEALLOCATE_type : Z := 2.

Inductive cache_ephemeral_op_e := CACHE_EPHEMERAL_ACQUIRE | CACHE_EPHEMERAL_RELEASE | CACHE_EPHEMERAL_CLEAR.

(** ** Messages and effects *)

Inductive bc_msg :=
| CACHE_CAPACITY_REFRESH
| CACHE_PUT (block : block_t) (reply_to : option actor_id) (incoming_fib : Z) (acquire_ephemeral : bool) (put_group : Z)
| CACHE_PUT_GROUP_END (group : Z) (abort : bool)
| CACHE_RESIZE (max_capacity_bytes : Z) (reply_to : option actor_id)
| CACHE_GC (keep : option elastic_bloom_filter_t) (force : bool) (reply_to : option actor_id)
| CACHE_GET (hash : bytes) (reply_to : option actor_id) (no_data peer_serve : bool)
| CACHE_REMOVE (hash : bytes) (reply_to : option actor_id) (force : bool)
| SECTIONS_READ_RESULT (section_id : Z) (section_index : nat) (data : option bytes)
| CACHE_DEFRAGMENT (occupancy_threshold : spec_float) (reply_to : option actor_id) (visit : list Z)
| INDEX_SAVE
| CACHE_EPHEMERAL (hash : bytes) (reply_to : option actor_id) (op : cache_ephemeral_op_e)
| CACHE_PIN (hash : bytes) (reply_to : option actor_id)
| CACHE_UNPIN (hash : bytes) (reply_to : option actor_id)
| CACHE_EPHEMERAL_LIST (reply_to : option actor_id)
| CACHE_LIST_SERVABLE (message_id : Z) (reply_to : option actor_id) (max_offers : nat) (exclude : list bytes)
| CACHE_OTHER (type : Z).

Record cache_get_result := mk_get_result {
  gres_hash : bytes;
  gres_block : option block_t;
  gres_fib : Z;
  gres_entry_existed : bool;
  gres_ephemeral_entry : bool;
  gres_no_data : bool
}.

Record cache_gc_result := mk_gc_result {
  gc_blocks_deleted : nat; gc_blocks_kept : nat; gc_skipped_pinned : nat; gc_skipped_ephemeral_claimed : nat; gc_entries_total : nat
}.

Inductive bc_event :=
| ev_put_result (to : actor_id) (result : Z) (promoted : bool) (fib : Z) (hash : option bytes)
| ev_get_result (to : actor_id) (result : cache_get_result)
| ev_remove_result (to : actor_id) (result : Z)
| ev_resize_result (to : actor_id) (max_capacity_bytes current_bytes : Z)
| ev_gc_result (to : actor_id) (result : cache_gc_result)
| ev_defragment_result (to : actor_id) (result : Z) (sections_defragmented blocks_relocated : nat)
| ev_ephemeral_result (to : actor_id) (result previous_count new_count : Z) (hash : bytes)
| ev_pin_result (pin : bool) (to : actor_id) (result previous_count new_count : Z)
| ev_ephemeral_list (to : actor_id) (blocks : list (bytes * Z * Z))
| ev_list_servable (to : actor_id) (message_id : Z) (offers : list (bytes * Z))
| ev_sections_read (section_id : Z) (section_index : nat)   (* SECTIONS_READ, to be answered to the cache *)
| ev_debounce_index_save
| ev_rank_advertise (hash : bytes) (fib : Z)
| ev_authority_capacity (capacity : spec_float)
| ev_exhale_trigger (capacity : spec_float) (candidates : list (bytes * Z))
| ev_sections (ev : sections_event).

(** What the handler leaves in the payload of a synchronous message. *)
Inductive bc_payload := put_result (result : Z) | get_result (block : option block_t) | remove_result (result : Z) | other_result.

(** ** The monad of the handlers *)

Definition M (A : Type) : Type := bc_env -> block_cache_t -> option (A * block_cache_t * list bc_event).

#[export] Instance M_ret : MRet M := fun A a env st => Some (a, st, []).
#[export] Instance M_bind : MBind M := fun A B f m env st =>
  match m env st with
  | None => None
  | Some (a, st, e1) => match f a env st with None => None | Some (b, st, e2) => Some (b, st, e1 ++ e2) end
  end.

Definition state : M block_cache_t := fun _ st => Some (st, st, []).
Definition ask : M bc_env := fun env st => Some (env, st, []).
Definition modify (f : block_cache_t -> block_cache_t) : M unit := fun _ st => Some (tt, f st, []).
Definition send (ev : bc_event) : M unit := fun _ st => Some (tt, st, [ev]).
Definition reply (to : option actor_id) (ev : actor_id -> bc_event) : M unit :=
  match to with Some a => send (ev a) | None => mret tt end.
(** A failure of a callee. *)
Definition lift {A} (o : option A) : M A := fun _ st => match o with Some a => Some (a, st, []) | None => None end.
Definition when (b : bool) (m : M unit) : M unit := if b then m else mret tt.

Fixpoint for_each {A} (f : A -> M unit) (l : list A) : M unit :=
  match l with [] => mret tt | x :: l => f x;; for_each f l end.

Section Cache.
Context {C : Cbor} {CS : CborSerial} {X : Xxh32} {X64 : Xxh64} {X3 : Xxh3} {B3 : Blake3}.

Definition the_index (st : block_cache_t) : index_t := st_index (bc_index st).
Definition with_index (st : block_cache_t) (ix : index_t) : block_cache_t := st <| bc_index := set_index (bc_index st) ix |>.

(** ** Entries through pointers *)

Definition entry_at (st : block_cache_t) (r : entry_ref) : option index_entry_t :=
  match r with
  | entry_live hash => index_find (the_index st) hash
  | entry_removed n => bc_removed st !! n
  end.

Definition write_entry (r : entry_ref) (f : index_entry_t -> index_entry_t) : M unit :=
  modify (fun st =>
    match r with
    | entry_live hash => with_index st (update_entry (the_index st) hash f)
    | entry_removed n => st <| bc_removed := alter f n (bc_removed st) |>
    end).

Definition read_entry (r : entry_ref) : M index_entry_t := st ← state; lift (entry_at st r).

(** The argument of the log record is the entry as it is now. *)
Definition log_metadata (r : entry_ref) : M unit :=
  e ← read_entry r; modify (fun st => with_index st (index_write_entry_metadata (the_index st) e)).

Definition set_entry_ejection (r : entry_ref) (date : Z) : M unit :=
  match r with
  | entry_live hash => modify (fun st => with_index st (index_set_entry_ejection (the_index st) hash date))
  | entry_removed n =>
      e ← read_entry r;
      modify (fun st => with_index st (index_log (the_index st) ejection (ejection_item (ie_hash e) date)));;
      write_entry r (fun e => index_entry_set_ejection_date e date)
  end.

(** [index_peek]: a pointer to the entry of the index. *)
Definition peek (hash : bytes) : M (option entry_ref) :=
  st ← state; mret (match index_peek (the_index st) hash with Some _ => Some (entry_live hash) | None => None end).

(** The entry of the block in memory, else that of the index. *)
Definition find_entry (hash : bytes) : M (option entry_ref) :=
  st ← state;
  cached ← lift (block_lru_cache_peek_entry (bc_lru st) hash);
  match cached with Some r => mret (Some r) | None => peek hash end.

Definition set_counter_fib (e : index_entry_t) (fib : Z) : index_entry_t :=
  mk_entry (mk_counter fib (hc_count (ie_counter e)) (hc_threshold (ie_counter e))) (ie_hash e) (ie_section_id e)
    (ie_section_index e) (ie_ejection_date e) (ie_ephemeral_count e) (ie_pin_count e).
Definition set_location (e : index_entry_t) (section_id section_index : Z) : index_entry_t :=
  mk_entry (ie_counter e) (ie_hash e) section_id section_index (ie_ejection_date e) (ie_ephemeral_count e) (ie_pin_count e).
Definition set_ephemeral (e : index_entry_t) (n : Z) : index_entry_t := set_entry_metadata e n (ie_pin_count e).
Definition set_pin (e : index_entry_t) (n : Z) : index_entry_t := set_entry_metadata e (ie_ephemeral_count e) n.

(** ** Components *)

Definition to_sections (msg : sections_msg) : M sections_payload :=
  st ← state; env ← ask;
  '(sections, payload, evs) ← lift (sections_dispatch (env_io env) (bc_sections st) msg);
  modify (fun st => st <| bc_sections := sections |>);;
  for_each (fun ev => send (ev_sections ev)) evs;;
  mret payload.

(** [block_lru_cache_put] and the ejection date of the block that leaves. *)
Definition lru_cache_put (block : block_t) (r : entry_ref) : M unit :=
  st ← state; env ← ask;
  '(lru, ejected) ← lift (block_lru_cache_put (bc_lru st) (buf_data (blk_hash block)) (block, r));
  modify (fun st => st <| bc_lru := lru |>);;
  match ejected with
  | Some (_, (_, r)) => set_entry_ejection r (env_time env);; send ev_debounce_index_save
  | None => mret tt
  end.

(** ** Capacity *)

Definition float_of_size (n : Z) : spec_float := binary_normalize 24 128 n 0 false.
Definition one_float : spec_float := S754_finite false 8388608 (-23).
Definition RESPIRATION_INHALE_THRESHOLD : spec_float := S754_finite false 8388608 (-24).       (* 0.50f *)
Definition RESPIRATION_EXHALE_THRESHOLD : spec_float := S754_finite false 13421773 (-24).      (* 0.80f *)
Definition respiration_should_exhale (capacity : spec_float) : bool := SFleb RESPIRATION_EXHALE_THRESHOLD capacity.

Definition block_cache_entry_is_sheddable (e : index_entry_t) : bool := (ie_pin_count e =? 0) && (ie_ephemeral_count e =? 0).

(** [current_bytes / max_capacity_bytes], at most 1. *)
Definition capacity_of (st : block_cache_t) : spec_float :=
  let capacity := SFdiv 24 128 (float_of_size (bc_current_bytes st)) (float_of_size (bc_max_capacity_bytes st)) in
  if SFltb one_float capacity then one_float else capacity.

Definition exhale_batch (ix : index_t) : list (bytes * Z) :=
  (fun e => (ie_hash e, ie_ejection_date e)) <$>
    take RESPIRATION_EXHALE_BATCH (filter (fun e => block_cache_entry_is_sheddable e = true) (index_entries_by_ejection_date ix)).

Definition block_cache_update_capacity : M unit :=
  st ← state; env ← ask;
  if (bc_max_capacity_bytes st =? 0) || negb (bc_authority st) then mret tt
  else
    let capacity := capacity_of st in
    send (ev_authority_capacity capacity);;
    modify (fun st => if SFleb capacity RESPIRATION_INHALE_THRESHOLD then st <| bc_exhale_shedding := false |> else st);;
    st ← state;
    if (respiration_should_exhale capacity || bc_exhale_shedding st) && bc_respiration st then
      modify (fun st => st <| bc_exhale_shedding := true |>);;
      let batch := exhale_batch (the_index st) in
      when (env_idle env && (0 <? length batch)%nat) (send (ev_exhale_trigger capacity batch))
    else mret tt.

Definition block_cache_set_max_capacity (max_capacity_bytes : Z) : M unit :=
  modify (fun st => st <| bc_max_capacity_bytes := max_capacity_bytes |>
                       <| bc_sections := sections_set_max_bytes (bc_sections st) max_capacity_bytes |>);;
  if 0 <? max_capacity_bytes then
    modify (fun st =>
      let count := Z.of_nat (index_count (the_index st)) in
      st <| bc_current_bytes := u64 (count * block_size (bc_type st)) |> <| bc_entry_count := count |>);;
    block_cache_update_capacity
  else mret tt.

Definition block_cache_can_fit (st : block_cache_t) (required_bytes : Z) : Z :=
  if bc_max_capacity_bytes st =? 0 then CACHE_FIT_OK
  else if bc_max_capacity_bytes st <? u64 (bc_current_bytes st + required_bytes) then CACHE_FIT_FULL else CACHE_FIT_OK.

Definition block_cache_count (st : block_cache_t) : Z := bc_entry_count st.

(** ** Removal *)

(** [index_remove]; pointers to the entry now lead to an entry outside the
    index.  The node of the cache with the hash is deleted by the caller. *)
Definition redirect (hash : bytes) (n : nat) (p : pending_get_t) : pending_get_t :=
  if decide (pg_entry p = entry_live hash) then mk_pending (pg_hash p) (entry_removed n) (pg_reply_to p) else p.

Definition remove_from_index (hash : bytes) (st : block_cache_t) : block_cache_t :=
  let st :=
    match index_find (the_index st) hash with
    | Some e =>
        let n := size (bc_removed st) in
        st <| bc_removed := <[n := e]> (bc_removed st) |> <| bc_pending_gets := redirect hash n <$> bc_pending_gets st |>
    | None => st
    end in
  with_index st (index_remove (the_index st) hash).

(** The message that should release the slot has a type the sections do not
    handle. *)
Definition _block_cache_delete_entry (hash : bytes) (r : entry_ref) : M unit :=
  _ ← read_entry r;
  modify (remove_from_index hash);;
  send ev_debounce_index_save;;
  modify (fun st => st <| bc_entry_count := u64 (bc_entry_count st - 1) |>
                       <| bc_current_bytes := u64 (bc_current_bytes st - block_size (bc_type st)) |>);;
  block_cache_update_capacity;;
  st ← state;
  lru ← lift (block_lru_cache_delete (bc_lru st) hash);
  modify (fun st => st <| bc_lru := lru |>);;
  _ ← to_sections (SECTIONS_OTHER SECTION_DEALLOCATE_type);
  mret tt.

(** With [force] a pinned block loses its pins first. *)
Definition drop_pins (r : entry_ref) : M unit :=
  e ← read_entry r;
  when (0 <? ie_pin_count e) (write_entry r (fun e => set_pin e 0);; log_metadata r).

(** ** Receipts of puts *)

Fixpoint record_hash (groups : list bc_put_group_t) (group : Z) (hash : bytes) : list bc_put_group_t :=
  match groups with
  | [] => [mk_put_group group [hash]]
  | g :: rest =>
      if gr_group g =? group then mk_put_group group (gr_hashes g ++ [hash]) :: rest else g :: record_hash rest group hash
  end.

Definition _put_group_record (group : Z) (hash : bytes) : M unit :=
  when (negb ((group =? 0) || negb (length hash =? 32)%nat))
    (modify (fun st => st <| bc_put_groups := record_hash (bc_put_groups st) group hash |>)).

(** The receipt of the group, and the others. *)
Fixpoint take_group (groups : list bc_put_group_t) (group : Z) : option (bc_put_group_t * list bc_put_group_t) :=
  match groups with
  | [] => None
  | g :: rest => if gr_group g =? group then Some (g, rest) else '(found, rest) ← take_group rest group; Some (found, g :: rest)
  end.

Definition add_tombstone (group : Z) (st : block_cache_t) : block_cache_t :=
  if (length (bc_ended_put_groups st) <? BLOCK_CACHE_PUT_GROUP_TOMBSTONES)%nat then
    st <| bc_ended_put_groups := bc_ended_put_groups st ++ [group] |>
  else
    let next := bc_ended_put_groups_next st in
    st <| bc_ended_put_groups := <[next := group]> (bc_ended_put_groups st) |>
       <| bc_ended_put_groups_next := ((next + 1) mod BLOCK_CACHE_PUT_GROUP_TOMBSTONES)%nat |>.

Definition delete_recorded (hash : bytes) : M unit :=
  entry ← peek hash;
  match entry with
  | Some r => drop_pins r;; _block_cache_delete_entry hash r
  | None => mret tt
  end.

Definition _put_group_end_dispatch (group : Z) (abort : bool) : M unit :=
  st ← state;
  match take_group (bc_put_groups st) group with
  | Some (found, rest) =>
      when (abort && bc_delete_blocks_on_put_failure st) (for_each delete_recorded (gr_hashes found));;
      modify (fun st => st <| bc_put_groups := rest |>)
  | None => mret tt
  end;;
  modify (add_tombstone group).

Definition _put_group_ended (st : block_cache_t) (group : Z) : bool := existsb (fun g => g =? group) (bc_ended_put_groups st).

(** ** CACHE_PUT *)

(** The entry of a block that was stored, with the rank that came with it. *)
Definition new_entry (hash : bytes) (incoming_fib section_id : Z) (section_index : nat) : index_entry_t :=
  set_location (set_counter_fib (index_entry_create hash) incoming_fib) section_id (Z.of_nat section_index).

(** The entry joins the cache and the index. *)
Definition store_entry (block : block_t) (incoming_fib section_id : Z) (section_index : nat) (put_group : Z) : M unit :=
  let hash := buf_data (blk_hash block) in
  lru_cache_put block (entry_live hash);;
  st ← state;
  ix ← lift (index_add (the_index st) (new_entry hash incoming_fib section_id section_index));
  modify (fun st => (with_index st ix) <| bc_entry_count := u64 (bc_entry_count st + 1) |>);;
  send ev_debounce_index_save;;
  modify (fun st => st <| bc_current_bytes := u64 (bc_current_bytes st + block_size (bc_type st)) |>);;
  block_cache_update_capacity;;
  _put_group_record put_group hash.

(** A claim on the entry; the count saturates. *)
Definition acquire_claim (r : entry_ref) : M unit :=
  e ← read_entry r;
  let count := ie_ephemeral_count e in
  when (count <? U16_MAX) (write_entry r (fun e => set_ephemeral e (count + 1));; log_metadata r).

Definition refuse_put (reply_to : option actor_id) (result : Z) : M bc_payload :=
  reply reply_to (fun to => ev_put_result to result false 0 None);; mret (put_result result).

Definition cache_handle_put (block : block_t) (reply_to : option actor_id) (incoming_fib : Z) (acquire : bool) (put_group : Z) :
    M bc_payload :=
  let hash := buf_data (blk_hash block) in
  let finish result promoted fib :=
    when acquire (acquire_claim (entry_live hash));;
    reply reply_to (fun to => ev_put_result to result promoted fib (Some hash));;
    mret (put_result result) in
  st ← state;
  entry ← peek hash;
  match entry with
  | None =>
      if (0 <? bc_max_capacity_bytes st) && (bc_max_capacity_bytes st <? u64 (bc_current_bytes st + block_size (bc_type st)))
      then refuse_put reply_to CACHE_PUT_FULL
      else if negb (put_group =? 0) && _put_group_ended st put_group then refuse_put reply_to CACHE_PUT_FULL
      else
        payload ← to_sections (SECTIONS_WRITE (buf_data (blk_data block)) None);
        match payload with
        | sections_write_payload 0 section_id section_index =>
            store_entry block incoming_fib section_id section_index put_group;;
            finish CACHE_PUT_NEW false incoming_fib
        | _ => refuse_put reply_to CACHE_PUT_ERROR
        end
  | Some r =>
      e ← read_entry r;
      if hc_fib (ie_counter e) <? incoming_fib then
        write_entry r (fun e => set_counter_fib e incoming_fib);;
        finish CACHE_PUT_EXISTS true incoming_fib
      else finish CACHE_PUT_EXISTS false (hc_fib (ie_counter e))
  end.

(** ** CACHE_GC *)

Definition gc_entry (keep : option elastic_bloom_filter_t) (force : bool) (result : cache_gc_result) (e : index_entry_t) : M cache_gc_result :=
  let '(mk_gc_result deleted kept pinned claimed total) := result in
  if match keep with Some filter => elastic_bloom_filter_contains filter (ie_hash e) | None => false end
  then mret (mk_gc_result deleted (S kept) pinned claimed (S total))
  else if negb force && (0 <? ie_ephemeral_count e) then mret (mk_gc_result deleted kept pinned (S claimed) (S total))
  else if negb force && (0 <? ie_pin_count e) then mret (mk_gc_result deleted kept (S pinned) claimed (S total))
  else _block_cache_delete_entry (ie_hash e) (entry_live (ie_hash e));;
       mret (mk_gc_result (S deleted) kept pinned claimed (S total)).

Fixpoint gc_sweep (keep : option elastic_bloom_filter_t) (force : bool) (entries : list index_entry_t) (result : cache_gc_result) : M cache_gc_result :=
  match entries with
  | [] => mret result
  | e :: entries => result ← gc_entry keep force result e; gc_sweep keep force entries result
  end.

Definition cache_handle_gc (keep : option elastic_bloom_filter_t) (force : bool) (reply_to : option actor_id) : M bc_payload :=
  st ← state;
  result ← gc_sweep keep force (index_to_array (the_index st)) (mk_gc_result 0 0 0 0 0);
  reply reply_to (fun to => ev_gc_result to result);;
  mret other_result.

(** ** CACHE_GET *)

Definition _block_cache_add_pending_get (hash : bytes) (r : entry_ref) (reply_to : actor_id) : M unit :=
  modify (fun st => st <| bc_pending_gets := mk_pending hash r reply_to :: bc_pending_gets st |>).

(** [block_cache_verify_read_hash] and [block_create_existing_data_hash]. *)
Definition verified_block (data hash : bytes) : option block_t :=
  if block_verify_hash (Some (buffer_create_from_existing_memory data)) (Some (buffer_create_from_existing_memory hash)) then
    block_create_existing_data_hash_by_type (buffer_create_from_existing_memory data) (buffer_create_from_existing_memory hash)
  else None.

Definition read_now (r : entry_ref) : M bc_payload :=
  e ← read_entry r;
  payload ← to_sections (SECTIONS_READ (ie_section_id e) (Z.to_nat (ie_section_index e)) None);
  match payload with
  | sections_read_payload (Some data) =>
      match verified_block data (ie_hash e) with
      | Some block => lru_cache_put block r;; mret (get_result (Some block))
      | None => mret (get_result None)
      end
  | _ => mret (get_result None)
  end.

Definition cache_handle_get (hash : bytes) (reply_to : option actor_id) (no_data peer_serve : bool) : M bc_payload :=
  entry ← peek hash;
  match entry with
  | None =>
      reply reply_to (fun to => ev_get_result to (mk_get_result hash None 0 false false false));; mret (get_result None)
  | Some r =>
      st ← state;
      e ← read_entry r;
      when (negb (ix_last_increment_promoted (the_index st) =? 0) && bc_respiration st && bc_network st)
        (send (ev_rank_advertise (ie_hash e) (hc_fib (ie_counter e))));;
      if peer_serve && negb (index_entry_is_servable (Some e)) then
        reply reply_to (fun to => ev_get_result to (mk_get_result hash None 0 false false false));; mret (get_result None)
      else
        let answer block no_data :=
          mk_get_result hash block (hc_fib (ie_counter e)) true (0 <? ie_ephemeral_count e) no_data in
        if no_data then reply reply_to (fun to => ev_get_result to (answer None true));; mret (get_result None)
        else
          '(lru, block) ← lift (block_lru_cache_get (bc_lru st) hash);
          modify (fun st => st <| bc_lru := lru |>);;
          match block, reply_to with
          | None, Some to =>
              _block_cache_add_pending_get hash r to;;
              send (ev_sections_read (ie_section_id e) (Z.to_nat (ie_section_index e)));;
              mret (get_result None)
          | None, None => read_now r
          | Some block, Some to => send (ev_get_result to (answer (Some block) false));; mret (get_result None)
          | Some block, None => mret (get_result (Some block))
          end
  end.

(** ** SECTIONS_READ_RESULT *)

Definition at_location (st : block_cache_t) (section_id : Z) (section_index : nat) (p : pending_get_t) : bool :=
  match entry_at st (pg_entry p) with
  | Some e => (ie_section_id e =? section_id) && (ie_section_index e =? Z.of_nat section_index)
  | None => false
  end.

(** The first request that waits for the location, and the others. *)
Fixpoint _block_cache_find_pending_get (matches : pending_get_t -> bool) (pending : list pending_get_t) :
    option (pending_get_t * list pending_get_t) :=
  match pending with
  | [] => None
  | p :: rest =>
      if matches p then Some (p, rest)
      else '(found, rest) ← _block_cache_find_pending_get matches rest; Some (found, p :: rest)
  end.

(** All requests that wait for the location are answered. *)
Fixpoint _block_cache_resolve_pending_gets (matches : pending_get_t -> bool) (block : option block_t) (pending : list pending_get_t) :
    M (list pending_get_t) :=
  match pending with
  | [] => mret []
  | p :: rest =>
      if matches p then
        e ← read_entry (pg_entry p);
        send (ev_get_result (pg_reply_to p)
          (mk_get_result (pg_hash p) block (hc_fib (ie_counter e)) true (0 <? ie_ephemeral_count e) false));;
        _block_cache_resolve_pending_gets matches block rest
      else kept ← _block_cache_resolve_pending_gets matches block rest; mret (p :: kept)
  end.

(** The block for the first request, put into the cache; the request goes to
    the front. *)
Definition load_block (section_id : Z) (section_index : nat) (data : bytes) : M (option block_t) :=
  st ← state;
  match _block_cache_find_pending_get (at_location st section_id section_index) (bc_pending_gets st) with
  | Some (first, rest) =>
      e ← read_entry (pg_entry first);
      let block := verified_block data (ie_hash e) in
      match block with Some b => lru_cache_put b (pg_entry first) | None => mret tt end;;
      modify (fun st => st <| bc_pending_gets := first :: rest |>);;
      mret block
  | None => mret None
  end.

Definition cache_handle_read_result (section_id : Z) (section_index : nat) (data : option bytes) : M bc_payload :=
  block ← match data with Some data => load_block section_id section_index data | None => mret None end;
  st ← state;
  kept ← _block_cache_resolve_pending_gets (at_location st section_id section_index) block (bc_pending_gets st);
  modify (fun st => st <| bc_pending_gets := kept |>);;
  mret other_result.

(** ** CACHE_REMOVE *)

Definition cache_handle_remove (hash : bytes) (reply_to : option actor_id) (force : bool) : M bc_payload :=
  entry ← find_entry hash;
  result ←
    match entry with
    | None => mret 0
    | Some r =>
        e ← read_entry r;
        if (0 <? ie_ephemeral_count e) && negb force then mret CACHE_REMOVE_EPHEMERAL_CLAIMED
        else if (0 <? ie_pin_count e) && negb force then mret CACHE_REMOVE_PINNED
        else when force (drop_pins r);; _block_cache_delete_entry hash r;; mret 0
    end;
  reply reply_to (fun to => ev_remove_result to result);;
  mret (remove_result result).

(** ** CACHE_DEFRAGMENT *)

Fixpoint relocate (relocations : list block_relocation_t) (e : index_entry_t) : index_entry_t :=
  match relocations with
  | [] => e
  | r :: rest =>
      if (ie_section_id e =? rl_section_id r) && (ie_section_index e =? Z.of_nat (rl_old_index r))
      then set_location e (ie_section_id e) (rl_new_index r) else relocate rest e
  end.

Definition cache_handle_defragment (threshold : spec_float) (reply_to : option actor_id) (visit : list Z) : M bc_payload :=
  env ← ask;
  payload ← to_sections (SECTIONS_DEFRAGMENT threshold None visit);
  match payload with
  | sections_defragment_payload result n relocations =>
      let moved := (result =? 0) && (0 <? length relocations)%nat in
      st ← state;
      when moved
        (for_each (fun e => write_entry (entry_live (ie_hash e)) (relocate relocations)) (index_to_array (the_index st));;
         modify (fun st => st <| bc_index := index_debounce (env_store env) (bc_index st) |>));;
      reply reply_to (fun to => ev_defragment_result to result n (if moved then length relocations else 0%nat));;
      mret other_result
  | _ => mret other_result
  end.

(** ** Claims and pins *)

Definition cache_handle_ephemeral (hash : bytes) (reply_to : option actor_id) (op : cache_ephemeral_op_e) : M bc_payload :=
  entry ← find_entry hash;
  '(result, previous, new) ←
    match entry with
    | None => mret (CACHE_EPHEMERAL_NOT_FOUND, 0, 0)
    | Some r =>
        e ← read_entry r;
        let count := ie_ephemeral_count e in
        match op with
        | CACHE_EPHEMERAL_ACQUIRE =>
            if count =? U16_MAX then mret (CACHE_EPHEMERAL_OVERFLOW, count, count)
            else write_entry r (fun e => set_ephemeral e (count + 1));; log_metadata r;; mret (CACHE_EPHEMERAL_OK, count, count + 1)
        | CACHE_EPHEMERAL_RELEASE =>
            if 0 <? count then
              write_entry r (fun e => set_ephemeral e (count - 1));; log_metadata r;;
              when (count - 1 =? 0) (_block_cache_delete_entry hash r);;
              mret (CACHE_EPHEMERAL_OK, count, count - 1)
            else mret (CACHE_EPHEMERAL_OK, count, 0)
        | CACHE_EPHEMERAL_CLEAR =>
            when (0 <? count) (write_entry r (fun e => set_ephemeral e 0);; log_metadata r);;
            mret (CACHE_EPHEMERAL_OK, count, 0)
        end
    end;
  reply reply_to (fun to => ev_ephemeral_result to result previous new hash);;
  mret other_result.

Definition cache_handle_pin (pin : bool) (hash : bytes) (reply_to : option actor_id) : M bc_payload :=
  entry ← find_entry hash;
  '(result, previous, new) ←
    match entry with
    | None => mret (CACHE_EPHEMERAL_NOT_FOUND, 0, 0)
    | Some r =>
        e ← read_entry r;
        let count := ie_pin_count e in
        let new := if pin then (if count =? U32_MAX then count else count + 1) else (if 0 <? count then count - 1 else count) in
        write_entry r (fun e => set_pin e new);; log_metadata r;;
        mret (CACHE_EPHEMERAL_OK, count, new)
    end;
  reply reply_to (fun to => ev_pin_result pin to result previous new);;
  when (negb pin && (result =? CACHE_EPHEMERAL_OK)) block_cache_update_capacity;;
  mret other_result.

(** ** Listings *)

Definition ephemeral_list (ix : index_t) : list (bytes * Z * Z) :=
  (fun e => (ie_hash e, ie_ephemeral_count e, ie_pin_count e)) <$> filter (fun e => 0 < ie_ephemeral_count e) (index_to_array ix).

Definition candidates (ix : index_t) (exclude : list bytes) : list index_entry_t :=
  filter (fun e => index_entry_is_servable (Some e) = true /\ ie_hash e ∉ exclude) (index_to_array ix).

Definition fib_of (e : index_entry_t) : Z := hc_fib (ie_counter e).

(** One run of the inner loop: every later candidate of higher rank is exchanged
    with the one in place. *)
Fixpoint exchange (x : index_entry_t) (later : list index_entry_t) : index_entry_t * list index_entry_t :=
  match later with
  | [] => (x, [])
  | y :: later =>
      if fib_of x <? fib_of y then let '(best, rest) := exchange y later in (best, x :: rest)
      else let '(best, rest) := exchange x later in (best, y :: rest)
  end.

(** [n] is the number of candidates. *)
Fixpoint sort_candidates (n : nat) (l : list index_entry_t) : list index_entry_t :=
  match n, l with
  | S n, x :: l => let '(best, rest) := exchange x l in best :: sort_candidates n rest
  | _, _ => []
  end.

Definition servable_offers (ix : index_t) (max_offers : nat) (exclude : list bytes) : list (bytes * Z) :=
  let l := candidates ix exclude in
  (fun e => (ie_hash e, fib_of e)) <$> take max_offers (sort_candidates (length l) l).

(** ** The actor *)

Definition block_cache_dispatch (msg : bc_msg) : M bc_payload :=
  match msg with
  | CACHE_CAPACITY_REFRESH => block_cache_update_capacity;; mret other_result
  | CACHE_PUT block reply_to incoming_fib acquire put_group => cache_handle_put block reply_to incoming_fib acquire put_group
  | CACHE_PUT_GROUP_END group abort => _put_group_end_dispatch group abort;; mret other_result
  | CACHE_RESIZE max_capacity_bytes reply_to =>
      block_cache_set_max_capacity max_capacity_bytes;;
      st ← state;
      reply reply_to (fun to => ev_resize_result to (bc_max_capacity_bytes st) (bc_current_bytes st));;
      mret other_result
  | CACHE_GC keep force reply_to => cache_handle_gc keep force reply_to
  | CACHE_GET hash reply_to no_data peer_serve => cache_handle_get hash reply_to no_data peer_serve
  | CACHE_REMOVE hash reply_to force => cache_handle_remove hash reply_to force
  | SECTIONS_READ_RESULT section_id section_index data => cache_handle_read_result section_id section_index data
  | CACHE_DEFRAGMENT threshold reply_to visit => cache_handle_defragment threshold reply_to visit
  | INDEX_SAVE =>
      env ← ask; modify (fun st => st <| bc_index := index_debounce (env_store env) (bc_index st) |>);; mret other_result
  | CACHE_EPHEMERAL hash reply_to op => cache_handle_ephemeral hash reply_to op
  | CACHE_PIN hash reply_to => cache_handle_pin true hash reply_to
  | CACHE_UNPIN hash reply_to => cache_handle_pin false hash reply_to
  | CACHE_EPHEMERAL_LIST reply_to =>
      st ← state; reply reply_to (fun to => ev_ephemeral_list to (ephemeral_list (the_index st)));; mret other_result
  | CACHE_LIST_SERVABLE message_id reply_to max_offers exclude =>
      st ← state;
      reply reply_to (fun to => ev_list_servable to message_id (servable_offers (the_index st) max_offers exclude));;
      mret other_result
  | CACHE_OTHER _ => mret other_result
  end.

(** The sections and the index are those [sections_create] and [index_create]
    return. *)
Definition block_cache_create (lru_size : nat) (delete_blocks_on_put_failure : bool) (type : block_size_e) (authority : bool)
    (max_capacity_bytes : Z) (sections : sections_t) (index : index_store) : M unit :=
  modify (fun _ =>
    mk_bc (block_lru_cache_create lru_size) sections index type delete_blocks_on_put_failure [] [] 0 [] 0 max_capacity_bytes 0 false
      authority false false ∅);;
  if 0 <? max_capacity_bytes then
    modify (fun st =>
      let count := Z.of_nat (index_count (the_index st)) in
      st <| bc_current_bytes := u64 (count * block_size type) |> <| bc_entry_count := count |>);;
    block_cache_update_capacity;;
    modify (fun st => st <| bc_sections := sections_set_max_bytes (bc_sections st) max_capacity_bytes |>)
  else mret tt.
End Cache.
