(* ===== verification/BlockCacheStore.v ===== *)
(** * BlockCacheStore: the block cache is a map from hashes to blocks

    The abstract cache maps a hash to the data of its block, its rank, its claims
    and its pins, and lists the requests that wait for a read.  The theorems show
    that the actor of [BlockCache], composed of the index, the sections and the
    cache of blocks in memory, implements it: every message answers and changes
    the map as the specification says, whatever is cached, ejected, opened or
    closed underneath. *)

From Stdlib Require Import SpecFloat.
From stdpp Require Import gmap sorting.
From S2P Require Import Prelude Cbor Buffer Block Bloom ElasticBloom DList Lru Effect.
From S2P Require Import Platform FreeMap Section Sections SectionsStore Wal Fibonacci IndexEntry Index IndexMap IndexStore BlockCache.
Local Open Scope Z_scope.

(** ** Reasoning about handlers *)

(** The effects that answer a request. *)
Definition visible (ev : bc_event) : bool :=
  match ev with
  | ev_debounce_index_save | ev_rank_advertise _ _ | ev_authority_capacity _ | ev_exhale_trigger _ _ | ev_sections _ => false
  | _ => true
  end.
Definition answers (evs : list bc_event) : list bc_event := filter (fun ev => visible ev = true) evs.

Lemma answers_app l1 l2 : answers (l1 ++ l2) = answers l1 ++ answers l2.
Proof. apply filter_app. Qed.

(** The handler does not fail, and the postcondition holds of its result, the
    state and the answers. *)
Definition wp {A} (m : M A) (env : bc_env) (st : block_cache_t) (Q : A -> block_cache_t -> list bc_event -> Prop) : Prop :=
  match m env st with Some (a, st, evs) => Q a st (answers evs) | None => False end.

Lemma wp_ret {B} (b : B) env st (Q : B -> block_cache_t -> list bc_event -> Prop) : wp (mret b) env st Q <-> Q b st [].
Proof. done. Qed.

Lemma wp_bind {A B} (m : M A) (f : A -> M B) env st Q :
  wp (m ≫= f) env st Q <-> wp m env st (fun a st1 e1 => wp (f a) env st1 (fun b st2 e2 => Q b st2 (e1 ++ e2))).
Proof.
  unfold wp, mbind, M_bind. destruct (m env st) as [[[a st1] e1]|]; [|done].
  destruct (f a env st1) as [[[b st2] e2]|]; [|done]. by rewrite answers_app.
Qed.

Lemma wp_mono {B} (k : M B) env st (Q Q' : B -> block_cache_t -> list bc_event -> Prop) :
  wp k env st Q' -> (forall b st' evs, Q' b st' evs -> Q b st' evs) -> wp k env st Q.
Proof. unfold wp. destruct (k env st) as [[[b st'] evs]|]; [|done]. auto. Qed.

Lemma wp_assoc {A B D} (m : M A) (f : A -> M B) (g : B -> M D) env st Q : wp ((m ≫= f) ≫= g) env st Q <-> wp (m ≫= fun a => f a ≫= g) env st Q.
Proof.
  unfold wp, mbind, M_bind. destruct (m env st) as [[[a st1] e1]|]; [|done]. destruct (f a env st1) as [[[b st2] e2]|]; [|done].
  destruct (g b env st2) as [[[d st3] e3]|]; [|done]. by rewrite app_assoc.
Qed.

(** A step whose effects do not answer. *)
Lemma wp_quiet {A B} (m : M A) (f : A -> M B) env st Q (P : A -> block_cache_t -> Prop) :
  wp m env st (fun a st1 e1 => e1 = [] /\ P a st1) -> (forall a st1, P a st1 -> wp (f a) env st1 Q) -> wp (m ≫= f) env st Q.
Proof. intros Hm Hf. rewrite wp_bind. eapply wp_mono; [exact Hm|]. intros a st1 e1 [-> HP]. by apply Hf. Qed.

Lemma wp_tail {B} (m : M B) env st (Q : B -> block_cache_t -> list bc_event -> Prop) : wp (m ≫= mret) env st Q -> wp m env st Q.
Proof. rewrite wp_bind. intros Hm. eapply wp_mono; [exact Hm|]. intros b st' evs HQ. apply wp_ret in HQ. by rewrite app_nil_r in HQ. Qed.

Lemma wp_send_last ev env st (Q : unit -> block_cache_t -> list bc_event -> Prop) :
  visible ev = false -> Q tt st [] -> wp (send ev) env st Q.
Proof. intros Hv HQ. unfold wp, send, answers. by rewrite filter_cons_False by (by rewrite Hv). Qed.

Section Steps.
Context {B : Type} (env : bc_env) (st : block_cache_t) (Q : B -> block_cache_t -> list bc_event -> Prop).

Lemma wp_state (f : block_cache_t -> M B) : wp (state ≫= f) env st Q <-> wp (f st) env st Q.
Proof. by rewrite wp_bind. Qed.
Lemma wp_ask (f : bc_env -> M B) : wp (ask ≫= f) env st Q <-> wp (f env) env st Q.
Proof. by rewrite wp_bind. Qed.
Lemma wp_modify g (f : unit -> M B) : wp (modify g ≫= f) env st Q <-> wp (f tt) env (g st) Q.
Proof. by rewrite wp_bind. Qed.
Lemma wp_lift {A} (a : A) (f : A -> M B) : wp (lift (Some a) ≫= f) env st Q <-> wp (f a) env st Q.
Proof. by rewrite wp_bind. Qed.
Lemma wp_lift_some {A} o (a : A) (f : A -> M B) : o = Some a -> wp (f a) env st Q -> wp (lift o ≫= f) env st Q.
Proof. intros ->. by rewrite wp_lift. Qed.
Lemma wp_mret {A} (a : A) (f : A -> M B) : wp (mret a ≫= f) env st Q <-> wp (f a) env st Q.
Proof. by rewrite wp_bind. Qed.
Lemma wp_send_quiet ev (f : unit -> M B) : visible ev = false -> wp (send ev ≫= f) env st Q <-> wp (f tt) env st Q.
Proof. intros Hv. rewrite wp_bind. unfold wp at 1, send. unfold answers. rewrite filter_cons_False by (by rewrite Hv). done. Qed.
Lemma wp_send ev (f : unit -> M B) :
  visible ev = true -> wp (send ev ≫= f) env st Q <-> wp (f tt) env st (fun b st' evs => Q b st' (ev :: evs)).
Proof. intros Hv. rewrite wp_bind. unfold wp at 1, send. unfold answers. by rewrite filter_cons_True. Qed.
Lemma wp_read_entry r e (f : index_entry_t -> M B) :
  entry_at st r = Some e -> wp (read_entry r ≫= f) env st Q <-> wp (f e) env st Q.
Proof. intros He. rewrite wp_bind. unfold read_entry. rewrite wp_bind. cbn. by rewrite He. Qed.
End Steps.

Definition replies (to : option actor_id) (ev : actor_id -> bc_event) : list bc_event :=
  match to with Some a => [ev a] | None => [] end.

Lemma wp_reply {B} env st (Q : B -> block_cache_t -> list bc_event -> Prop) to ev (f : unit -> M B) :
  (forall a, visible (ev a) = true) ->
  wp (reply to ev ≫= f) env st Q <-> wp (f tt) env st (fun b st' evs => Q b st' (replies to ev ++ evs)).
Proof. intros Hv. destruct to as [a|]; [by apply wp_send|apply wp_mret]. Qed.

Lemma filter_none {A} (P : A -> bool) (l : list A) : Forall (fun p => P p = false) l -> filter (fun p => P p = true) l = [].
Proof. induction 1 as [|y l Hy _ IH]; [done|]. by rewrite filter_cons_False by congruence. Qed.

(** Moving the first match to the front does not change who is answered. *)
Lemma filter_first {A} (P : A -> bool) (l1 : list A) x l2 b :
  P x = true -> Forall (fun p => P p = false) l1 ->
  filter (fun p => P p = b) (x :: l1 ++ l2) = filter (fun p => P p = b) (l1 ++ x :: l2).
Proof.
  intros Hx Hl. rewrite !filter_cons, !filter_app, filter_cons. destruct b.
  - rewrite filter_none by done. by rewrite !(decide_True (P := P x = true)).
  - by rewrite !(decide_False (P := P x = false)) by congruence.
Qed.

Lemma fmap_filter {A B} (f : A -> B) (P : A -> Prop) (R : B -> Prop) `{!forall a, Decision (P a)} `{!forall b, Decision (R b)} (l : list A) :
  (forall a, a ∈ l -> P a <-> R (f a)) -> f <$> filter P l = filter R (f <$> l).
Proof.
  induction l as [|a l IH]; intros HPR; [done|]. rewrite fmap_cons. assert (P a <-> R (f a)) as Ha by (apply HPR; set_solver).
  specialize (IH ltac:(set_solver)). destruct (decide (P a)) as [HP|HP].
  - rewrite !filter_cons_True by tauto. cbn. by rewrite IH.
  - by rewrite !filter_cons_False by tauto.
Qed.

Lemma filter_agree {A} (P R : A -> Prop) `{!forall a, Decision (P a)} `{!forall a, Decision (R a)} (l : list A) :
  (forall a, a ∈ l -> P a <-> R a) -> filter P l = filter R l.
Proof. intros HPR. pose proof (fmap_filter id P R l HPR) as E. by rewrite !list_fmap_id in E. Qed.

(** ** The index under the operations of the cache *)

Section Store.
Context {C : Cbor} {CS : CborSerial} {X : Xxh32} {X64 : Xxh64} {X3 : Xxh3} {B3 : Blake3}.

#[local] Strategy 1000 [index_add].

Definition ix_ok (ix : index_t) : Prop := index_wf ix /\ ix_is_rebuilding ix = false.

(** What a function on entries that is applied through a pointer preserves. *)
Definition keeps_hash (f : index_entry_t -> index_entry_t) : Prop :=
  forall e, entry_wf e -> entry_wf (f e) /\ ie_hash (f e) = ie_hash e.

Lemma ix_same ix ix' :
  ix_root ix' = ix_root ix -> ix_bucket_size ix' = ix_bucket_size ix -> ix_is_rebuilding ix' = ix_is_rebuilding ix ->
  ix_ok ix -> ix_ok ix' /\ forall h, index_find ix' h = index_find ix h.
Proof. intros Hr Hb Hi [[H1 H2] H3]. unfold ix_ok, index_wf, index_find. rewrite Hr, Hb, Hi. by split_and!. Qed.

Lemma ix_log ix type item : ix_ok ix -> ix_ok (index_log ix type item) /\ forall h, index_find (index_log ix type item) h = index_find ix h.
Proof. apply ix_same; unfold index_log; by destruct (ix_is_rebuilding ix) eqn:E, item; rewrite ?E. Qed.

Lemma ix_update ix h0 f :
  ix_ok ix -> keeps_hash f ->
  ix_ok (update_entry ix h0 f) /\ forall h, index_find (update_entry ix h0 f) h = map_set (index_find ix) h0 (f <$> index_find ix h0) h.
Proof.
  intros [Hwf Hlive] Hf. destruct (update_entry_refines ix ix h0 f [] Hwf Hf (extends_refl ix)) as (Hwf' & Hfind & _). done.
Qed.

(** An operation that refines its specification. *)
Lemma ix_op ix op :
  ix_ok ix -> op_wf op -> exists ix', index_apply ix op = Some ix' /\ ix_ok ix' /\ forall h, index_find ix' h = op_spec (index_find ix) op h.
Proof.
  intros [Hwf Hlive] Hop. destruct (index_op_refines ix op Hwf Hlive Hop) as (ix' & evs & E & Hwf' & Hfind & Hext & _).
  exists ix'. split_and!; [done|split; [done|]|done]. rewrite (ext_rebuilding _ _ _ Hext). exact Hlive.
Qed.

Lemma ix_add ix e :
  ix_ok ix -> entry_wf e -> index_find ix (ie_hash e) = None ->
  exists ix', index_add ix e = Some ix' /\ ix_ok ix' /\ forall h, index_find ix' h = map_set (index_find ix) (ie_hash e) (Some e) h.
Proof.
  intros Hok He Hn. destruct (ix_op ix (op_add e) Hok He) as (ix' & E & Hok' & Hf). exists ix'. split; [exact E|]. split; [done|].
  intros h. rewrite Hf. cbn [op_spec]. by rewrite Hn.
Qed.

Lemma ix_peek ix h : ix_ok ix -> index_peek ix h = index_find ix h.
Proof. intros [[_ Hwf] _]. unfold index_peek, index_find. by rewrite (wf_not_null _ _ _ _ Hwf). Qed.

Lemma ix_debounce io st :
  ix_ok (st_index st) -> ix_ok (st_index (index_debounce io st)) /\ forall h, index_find (st_index (index_debounce io st)) h = index_find (st_index st) h.
Proof.
  assert (ix_root (st_index (index_debounce io st)) = ix_root (st_index st) /\
    ix_bucket_size (st_index (index_debounce io st)) = ix_bucket_size (st_index st) /\
    ix_is_rebuilding (st_index (index_debounce io st)) = ix_is_rebuilding (st_index st)) as (Hr & Hb & Hi); [|by apply ix_same].
  unfold index_debounce. destruct (_index_to_cbor (st_index st)); [|done]. case_match; [done|].
  unfold _index_prune_old_snapshots, _index_prune_old_wals. repeat case_match; simplify_eq; done.
Qed.

(** ** Well-formed caches *)

Abbreviation entries := (bytes -> option index_entry_t).
Abbreviation cached_blocks := (list (bytes * (block_t * entry_ref))).

Definition located (e : index_entry_t) : Z * Z := (ie_section_id e, ie_section_index e).
Definition stored_at (σ : blocks) (e : index_entry_t) : option bytes := σ (ie_section_id e) (Z.to_nat (ie_section_index e)).
Definition data_of (m : entries) (σ : blocks) (h : bytes) : option bytes := e ← m h; stored_at σ e.

(** The index leads to the data of every block; the blocks in memory are those
    of the index; the requests that wait are for blocks that are not in memory. *)
Record good (m : entries) (σ : blocks) (xs : cached_blocks) (ps : list pending_get_t) : Prop := {
  g_stored : forall h e, m h = Some e -> exists d, stored_at σ e = Some d /\ blake3 d = h /\ legal_size (Z.of_nat (length d)) = true;
  g_cached : forall h b r, (h, (b, r)) ∈ xs ->
    r = entry_live h /\ buf_data (blk_hash b) = h /\ data_of m σ h = Some (buf_data (blk_data b));
  g_waiting : forall p, p ∈ ps -> pg_entry p = entry_live (pg_hash p) /\ is_Some (m (pg_hash p)) /\ pg_hash p ∉ xs.*1
}.

Definition ent (st : block_cache_t) : entries := index_find (the_index st).

Record bc_inv (st : block_cache_t) : Prop := {
  bi_index : ix_ok (the_index st);
  bi_pool : pool_inv (bc_sections st);
  bi_type : ss_type (bc_sections st) = bc_type st;
  bi_lru : exists xs, lru_abs (bc_lru st) xs /\ good (ent st) (block_at (bc_sections st)) xs (bc_pending_gets st)
}.

(** ** The abstract cache *)

Record cached := mk_cached { c_data : bytes; c_fib : Z; c_claims : Z; c_pins : Z }.

Definition view_entry (σ : blocks) (e : index_entry_t) : option cached :=
  d ← stored_at σ e; Some (mk_cached d (fib_of e) (ie_ephemeral_count e) (ie_pin_count e)).
Definition view (st : block_cache_t) (h : bytes) : option cached := e ← ent st h; view_entry (block_at (bc_sections st)) e.

Definition waiting (st : block_cache_t) : list (bytes * actor_id) := (fun p => (pg_hash p, pg_reply_to p)) <$> bc_pending_gets st.

Definition set_view (v : bytes -> option cached) (h : bytes) (c : option cached) : bytes -> option cached :=
  fun h' => if decide (h' = h) then c else v h'.

(** *** How the index, the data and the blocks in memory may change *)

Lemma good_same m m' σ σ' xs ps :
  (forall h, stored_at σ' <$> m' h = stored_at σ <$> m h) -> good m σ xs ps -> good m' σ' xs ps.
Proof.
  intros Hs [H1 H2 H3].
  assert (forall h, data_of m' σ' h = data_of m σ h) as Hd.
  { intros h. specialize (Hs h). unfold data_of. destruct (m' h), (m h); cbn in *; congruence. }
  split.
  - intros h e He. specialize (Hs h). rewrite He in Hs. destruct (m h) as [e0|] eqn:E0; [|done]. cbn in Hs.
    destruct (H1 h e0 E0) as (d & Hd0 & Hb). exists d. split; [congruence|done].
  - intros h b r Hin. rewrite Hd. by apply H2.
  - intros p Hp. destruct (H3 p Hp) as (Hr & Hm & Hn). split_and!; [done| |done]. specialize (Hs (pg_hash p)).
    destruct Hm as [e He]. rewrite He in Hs. by destruct (m' (pg_hash p)).
Qed.

Lemma good_sub m σ xs xs' ps ps' :
  (forall x, x ∈ xs' -> x ∈ xs) -> (forall p, p ∈ ps' -> p ∈ ps) -> good m σ xs ps -> good m σ xs' ps'.
Proof.
  intros Hx Hp [H1 H2 H3]. split; [done|intros h b r Hin; by apply H2, Hx|]. intros p Hin. destruct (H3 p (Hp p Hin)) as (Hr & Hm & Hn).
  split_and!; [done..|]. intros (x & Ex & Hin')%list_elem_of_fmap. apply Hn. apply list_elem_of_fmap. eauto.
Qed.

Lemma good_remove m σ xs ps h :
  (forall p, p ∈ ps -> pg_hash p <> h) -> good m σ xs ps -> good (map_set m h None) σ (drop_key h xs) ps.
Proof.
  intros Hp [H1 H2 H3]. unfold map_set. split.
  - intros h' e He. case_decide; [done|]. by apply H1.
  - intros h' b r [Hne Hin]%list_elem_of_filter. destruct (H2 h' b r Hin) as (Hr & Hb & Hd). split_and!; [done..|].
    unfold data_of. cbn in Hne. by rewrite decide_False.
  - intros p Hin. destruct (H3 p Hin) as (Hr & Hm & Hn). rewrite decide_False by eauto. split_and!; [done..|].
    intros (x & Ex & [_ Hin']%list_elem_of_filter)%list_elem_of_fmap. apply Hn, list_elem_of_fmap. eauto.
Qed.

(** A block joins: one that is new, or one that is loaded for the requests. *)
Lemma good_cache m σ xs xs' ps b h :
  good m σ xs ps -> (forall x, x ∈ xs' -> x = (h, (b, entry_live h)) \/ x ∈ xs) -> buf_data (blk_hash b) = h ->
  data_of m σ h = Some (buf_data (blk_data b)) -> (forall p, p ∈ ps -> pg_hash p <> h) -> good m σ xs' ps.
Proof.
  intros [H1 H2 H3] Hsub Hb Hd Hp. split; [done|..].
  - intros h' b' r' [Heq|Hin]%Hsub; [|by apply H2]. by simplify_eq.
  - intros p Hin. destruct (H3 p Hin) as (Hr & Hm & Hn). split_and!; [done..|].
    intros (x & Ex & [->|Hin']%Hsub)%list_elem_of_fmap; [by eapply Hp|]. apply Hn, list_elem_of_fmap. eauto.
Qed.

Lemma good_add m σ xs ps h e d :
  good m σ xs ps -> m h = None -> stored_at σ e = Some d -> blake3 d = h -> legal_size (Z.of_nat (length d)) = true ->
  good (map_set m h (Some e)) σ xs ps.
Proof.
  intros [H1 H2 H3] Hn Hs Hb Hl. unfold map_set. split.
  - intros h' e'. case_decide; [|by apply H1]. intros [= <-]. subst h'. eauto.
  - intros h' b r Hin. destruct (H2 h' b r Hin) as (Hr & Hh & Hd). split_and!; [done..|]. unfold data_of in *.
    rewrite decide_False; [done|]. intros E. rewrite E, Hn in Hd. done.
  - intros p Hin. destruct (H3 p Hin) as (Hr & Hm & Hk). split_and!; [done| |done]. case_decide; [done|]. exact Hm.
Qed.

Lemma good_wait m σ xs ps h to :
  good m σ xs ps -> is_Some (m h) -> h ∉ xs.*1 -> good m σ xs (mk_pending h (entry_live h) to :: ps).
Proof. intros [H1 H2 H3] Hm Hk. split; [done..|]. intros p [->|Hin]%elem_of_cons; [done|by apply H3]. Qed.

(** ** Counting the entries *)

Definition hashes (ix : index_t) : list bytes := ie_hash <$> index_to_array ix.

Lemma hashes_spec ix :
  index_wf ix -> NoDup (hashes ix) /\ (forall h, h ∈ hashes ix <-> is_Some (index_find ix h)) /\ length (hashes ix) = index_count ix.
Proof.
  intros [Hbs Hwf]. unfold hashes, index_count, index_to_array, index_find. split_and!.
  - by eapply to_array_nodup.
  - intros h. rewrite list_elem_of_fmap. split.
    + intros (e & -> & He). eexists. by apply (to_array_find _ _ _ _ _ Hwf).
    + intros [e He]. destruct (find_elem _ _ _ _ _ _ Hwf He) as (_ & _ & Hh). exists e. split; [done|].
      apply (to_array_find _ _ _ _ _ Hwf). by rewrite Hh.
  - rewrite length_fmap. apply to_array_length.
Qed.

Lemma count_step ix ix' h v :
  index_wf ix -> index_wf ix' -> (forall h', is_Some (index_find ix' h') <-> is_Some (map_set (index_find ix) h v h')) ->
  Z.of_nat (index_count ix') =
    Z.of_nat (index_count ix) + (match v with Some _ => 1 | None => 0 end) - (match index_find ix h with Some _ => 1 | None => 0 end).
Proof.
  intros Hwf Hwf' Hf. destruct (hashes_spec ix Hwf) as (Hn & Hin & <-). destruct (hashes_spec ix' Hwf') as (Hn' & Hin' & <-).
  assert (forall l : list bytes, NoDup l -> forall l' : list bytes, NoDup l' -> (forall x, x ∈ l <-> x ∈ l') -> length l = length l') as Hlen.
  { intros l H1 l' H2 H12. by apply Permutation_length, NoDup_Permutation. }
  unfold map_set in Hf. set (a := hashes ix) in *. set (b := hashes ix') in *.
  destruct (decide (h ∈ a)) as [Ha|Ha]; destruct v as [v|].
  - destruct (proj1 (Hin h) Ha) as [e ->]. rewrite (Hlen b Hn' a Hn); [lia|]. intros x. rewrite Hin', Hin, Hf. case_decide; [|done].
    subst x. rewrite <- Hin. split; [by eauto|]. intros _. done.
  - destruct (proj1 (Hin h) Ha) as [e ->]. rewrite (Hlen a Hn (h :: b)); [cbn; lia| |].
    + constructor; [|done]. rewrite Hin', Hf, decide_True by done. by intros [? ?].
    + intros x. rewrite elem_of_cons, Hin', Hf. case_decide; [subst x; naive_solver|]. rewrite <- Hin. naive_solver.
  - destruct (index_find ix h) eqn:E; [by destruct Ha; apply Hin; rewrite E|]. rewrite (Hlen b Hn' (h :: a)); [cbn; lia|by constructor|].
    intros x. rewrite elem_of_cons, Hin', Hf, Hin. case_decide; [subst x; naive_solver|]. naive_solver.
  - destruct (index_find ix h) eqn:E; [by destruct Ha; apply Hin; rewrite E|]. rewrite (Hlen b Hn' a Hn); [lia|].
    intros x. rewrite Hin', Hf, Hin. case_decide; [subst x; rewrite E|]; naive_solver.
Qed.

Lemma count_same ix ix' :
  index_wf ix -> index_wf ix' -> (forall h, is_Some (index_find ix' h) <-> is_Some (index_find ix h)) -> index_count ix' = index_count ix.
Proof.
  intros Hwf Hwf' Hf. apply Nat2Z.inj. rewrite (count_step ix ix' [] (index_find ix []) Hwf Hwf'); [destruct (index_find _ []); lia|].
  intros h. unfold map_set. case_decide; [subst h|]; apply Hf.
Qed.

(** How far the counters of the cache are off. *)
Definition drift (st : block_cache_t) : Z := u64 (bc_entry_count st - Z.of_nat (index_count (the_index st))).
Definition byte_drift (st : block_cache_t) : Z :=
  u64 (bc_current_bytes st - Z.of_nat (index_count (the_index st)) * block_size (bc_type st)).

(** What operations on entries and on blocks in memory leave alone. *)
Record frame (st st' : block_cache_t) : Prop := {
  fr_sections : bc_sections st' = bc_sections st;
  fr_type : bc_type st' = bc_type st;
  fr_flag : bc_delete_blocks_on_put_failure st' = bc_delete_blocks_on_put_failure st;
  fr_groups : bc_put_groups st' = bc_put_groups st;
  fr_ended : bc_ended_put_groups st' = bc_ended_put_groups st;
  fr_next : bc_ended_put_groups_next st' = bc_ended_put_groups_next st;
  fr_pending : bc_pending_gets st' = bc_pending_gets st;
  fr_max : bc_max_capacity_bytes st' = bc_max_capacity_bytes st;
  fr_drift : drift st' = drift st;
  fr_bytes : byte_drift st' = byte_drift st;
  fr_located : forall p, p ∈ bc_pending_gets st -> located <$> ent st' (pg_hash p) = located <$> ent st (pg_hash p)
}.

Lemma frame_refl st : frame st st.
Proof. by split. Qed.
Lemma frame_trans st1 st2 st3 : frame st1 st2 -> frame st2 st3 -> frame st1 st3.
Proof.
  intros F1 F2. pose proof F1 as []. pose proof F2 as []. split; try congruence. intros p Hp.
  rewrite (fr_located _ _ F2), (fr_located _ _ F1); [done..|]. by rewrite (fr_pending _ _ F1).
Qed.
Lemma frame_waiting st st' : frame st st' -> waiting st' = waiting st.
Proof. intros F. unfold waiting. by rewrite (fr_pending _ _ F). Qed.

(** ** Operations on entries *)

(** The date of ejection is not part of the abstract cache. *)
Definition strip (e : index_entry_t) : index_entry_t := index_entry_set_ejection_date e 0.
Definition same_entries (m m' : entries) : Prop := forall h, strip <$> m' h = strip <$> m h.

Lemma same_entries_trans m1 m2 m3 : same_entries m1 m2 -> same_entries m2 m3 -> same_entries m1 m3.
Proof. intros H1 H2 h. by rewrite H2. Qed.

Lemma same_entries_located m m' h : same_entries m m' -> located <$> m' h = located <$> m h.
Proof. intros Hs. specialize (Hs h). destruct (m' h), (m h); try done. injection Hs as _ _ H1 H2 _ _. cbn. unfold located. by rewrite H1, H2. Qed.

Lemma same_entries_set m m' h v v' : same_entries m m' -> strip <$> v' = strip <$> v -> same_entries (map_set m h v) (map_set m' h v').
Proof. intros Hs Hv h'. unfold map_set. by case_decide. Qed.

(** [st'] is [st] with the entries [m], up to dates. *)
Record updates (st : block_cache_t) (m : entries) (st' : block_cache_t) : Prop := {
  up_inv : bc_inv st';
  up_frame : frame st st';
  up_entries : same_entries m (ent st')
}.

Lemma updates_view st m st' : updates st m st' -> forall h, view st' h = (e ← m h; view_entry (block_at (bc_sections st)) e).
Proof.
  intros [_ F Hs] h. unfold view. rewrite (fr_sections _ _ F). specialize (Hs h).
  destruct (ent st' h) as [e'|], (m h) as [e|]; try done. injection Hs as H1 _ H3 H4 H5 H6.
  cbn. unfold view_entry, stored_at, fib_of. by rewrite H1, H3, H4, H5, H6.
Qed.

Lemma updates_trans st1 m1 st2 m2 st3 :
  updates st1 m1 st2 -> updates st2 m2 st3 -> updates st1 m2 st3.
Proof. intros [_ F1 _] [I2 F2 S2]. split; [done|by eapply frame_trans|done]. Qed.

Lemma updates_refl st : bc_inv st -> updates st (ent st) st.
Proof. intros Hi. split; [done|apply frame_refl|done]. Qed.

Lemma ent_with st ix : ent (with_index st ix) = index_find ix.
Proof. done. Qed.

(** The index is exchanged for one with the same blocks. *)
Lemma reindex st ix :
  bc_inv st -> ix_ok ix -> (forall h, located <$> index_find ix h = located <$> ent st h) -> updates st (index_find ix) (with_index st ix).
Proof.
  intros [Hix Hp Ht (xs & Hl & Hg)] Hok Hloc.
  assert (index_count ix = index_count (the_index st)) as Hc.
  { apply (count_same _ _ (proj1 Hix) (proj1 Hok)). intros h. specialize (Hloc h). unfold ent in Hloc.
    by destruct (index_find ix _), (index_find (the_index st) _). }
  split; [|split; try done; [unfold drift, byte_drift; cbn; by rewrite Hc..|intros p _; by apply Hloc]|done].
  split; [done..|]. exists xs. split; [done|]. eapply good_same; [|exact Hg]. intros h. specialize (Hloc h).
  rewrite ent_with. unfold stored_at.
  destruct (index_find ix h), (ent st h); try done. injection Hloc as H1 H2. cbn. by rewrite H1, H2.
Qed.

Lemma wp_write_entry {B} env st (Q : B -> block_cache_t -> list bc_event -> Prop) h e f (k : unit -> M B) :
  bc_inv st -> ent st h = Some e -> keeps_hash f -> (forall e, located (f e) = located e) ->
  (forall st', updates st (map_set (ent st) h (Some (f e))) st' -> ent st' h = Some (f e) -> wp (k tt) env st' Q) ->
  wp (write_entry (entry_live h) f ≫= k) env st Q.
Proof.
  intros Hi He Hf Hloc Hk. unfold write_entry. rewrite wp_modify. cbv beta iota.
  destruct (ix_update (the_index st) h f (bi_index st Hi) Hf) as [Hok Hfind].
  destruct (reindex st _ Hi Hok) as [I F S].
  { intros h'. rewrite Hfind. unfold map_set. case_decide; [subst h'|done]. unfold ent in *. rewrite He. cbn. by rewrite Hloc. }
  apply Hk; [split; [done..|]|].
  - intros h'. rewrite ent_with, Hfind. unfold map_set, ent in *.
    case_decide; [by rewrite He|done].
  - rewrite ent_with, Hfind. unfold map_set, ent in *.
    by rewrite decide_True, He.
Qed.

Lemma wp_log_metadata {B} env st (Q : B -> block_cache_t -> list bc_event -> Prop) h e (k : unit -> M B) :
  bc_inv st -> ent st h = Some e -> (forall st', updates st (ent st) st' -> ent st' h = Some e -> wp (k tt) env st' Q) ->
  wp (log_metadata (entry_live h) ≫= k) env st Q.
Proof.
  intros Hi He Hk. unfold log_metadata. rewrite wp_bind, (wp_read_entry _ _ _ _ e) by done.
  unfold index_write_entry_metadata. destruct (ix_log (the_index st) metadata (index_entry_to_cbor e) (bi_index st Hi)) as [Hok Hfind].
  destruct (reindex st _ Hi Hok) as [I F S]; [intros h'; by rewrite Hfind|].
  apply (Hk (with_index st _)); [split; [done..|]|]; [intros h'|]; by rewrite ent_with, Hfind.
Qed.

(** An entry is changed and its metadata logged. *)
Lemma wp_write_logged {B} env st (Q : B -> block_cache_t -> list bc_event -> Prop) h e f (k : unit -> M B) :
  bc_inv st -> ent st h = Some e -> keeps_hash f -> (forall e, located (f e) = located e) ->
  (forall st', updates st (map_set (ent st) h (Some (f e))) st' -> ent st' h = Some (f e) -> wp (k tt) env st' Q) ->
  wp ((write_entry (entry_live h) f;; log_metadata (entry_live h)) ≫= k) env st Q.
Proof.
  intros Hi He Hf Hloc Hk. rewrite wp_bind. eapply wp_write_entry; [done..|]. intros st1 U1 He1.
  apply wp_tail. eapply wp_log_metadata; [apply U1|done|]. intros st2 U2 He2. apply wp_ret. apply Hk; [|done].
  eapply updates_trans; [exact U1|]. destruct U2 as [I2 F2 S2]. split; [done..|]. eapply same_entries_trans; [apply U1|done].
Qed.

Lemma wp_update_capacity {B} env st (Q : B -> block_cache_t -> list bc_event -> Prop) (k : unit -> M B) :
  (forall b, wp (k tt) env (st <| bc_exhale_shedding := b |>) Q) -> wp (block_cache_update_capacity ≫= k) env st Q.
Proof.
  intros Hk. assert (wp (k tt) env st Q) as Hk0 by (specialize (Hk (bc_exhale_shedding st)); by destruct st).
  unfold block_cache_update_capacity. rewrite wp_bind, wp_state, wp_ask.
  destruct (_ || _); [exact Hk0|]. rewrite wp_send_quiet by done. rewrite wp_modify, wp_state.
  set (st1 := if SFleb _ _ then _ else st).
  assert (forall b, st1 <| bc_exhale_shedding := b |> = st <| bc_exhale_shedding := b |>) as E1 by (intros b; unfold st1; by case_match).
  destruct (_ && _).
  - rewrite wp_modify. unfold when. rewrite E1. destruct (_ && _); [|apply Hk]. unfold wp, send. cbn. apply Hk.
  - unfold st1. case_match; [apply Hk|exact Hk0].
Qed.

Lemma updates_shed st b : bc_inv st -> updates st (ent st) (st <| bc_exhale_shedding := b |>).
Proof. intros [H1 H2 H3 H4]. by split; [split|split|]. Qed.

Lemma redirect_others (ps : list pending_get_t) h n : (forall p, p ∈ ps -> pg_entry p <> entry_live h) -> redirect h n <$> ps = ps.
Proof.
  intros Hp. induction ps as [|p ps IH]; [done|]. rewrite fmap_cons, IH by set_solver. f_equal. unfold redirect.
  rewrite decide_False; [done|]. apply Hp. set_solver.
Qed.

Lemma removed_index st h :
  bc_inv st -> (forall p, p ∈ bc_pending_gets st -> pg_hash p <> h) -> is_Some (ent st h) ->
  exists rm, remove_from_index h st = with_index (st <| bc_removed := rm |>) (index_remove (the_index st) h) /\
    ix_ok (index_remove (the_index st) h) /\
    (forall h', index_find (index_remove (the_index st) h) h' = map_set (ent st) h None h') /\
    Z.of_nat (index_count (index_remove (the_index st) h)) = Z.of_nat (index_count (the_index st)) - 1.
Proof.
  intros [Hix Hp Ht (xs & Hl & Hg)] Hw [e He].
  destruct (ix_op _ (op_remove h) Hix I) as (ix & E & Hok & Hfind). injection E as <-. cbn [op_spec] in Hfind.
  exists (<[size (bc_removed st) := e]> (bc_removed st)). split_and!; [|done|done|].
  - unfold remove_from_index. unfold ent in He. rewrite He. rewrite redirect_others; [by destruct st|].
    intros p Hin. destruct (g_waiting _ _ _ _ Hg p Hin) as (-> & _ & _). intros [= Eh]. by apply (Hw p).
  - rewrite (count_step _ _ h None (proj1 Hix) (proj1 Hok)); [|intros h'; by rewrite Hfind]. unfold ent in He. rewrite He. lia.
Qed.

Lemma u64_congr a b : a mod 2 ^ 64 = b mod 2 ^ 64 -> u64 a = u64 b.
Proof. done. Qed.

Lemma u64_shift a b c : u64 (u64 (a + c) - (b + c)) = u64 (a - b).
Proof. unfold u64. rewrite Zminus_mod_idemp_l. f_equal. lia. Qed.

Lemma u64_sub_l a b : u64 (u64 a - b) = u64 (a - b).
Proof. unfold u64. by rewrite Zminus_mod_idemp_l. Qed.

Lemma wp_to_sections {B} env st (Q : B -> block_cache_t -> list bc_event -> Prop) msg sections p evs (k : sections_payload -> M B) :
  sections_dispatch (env_io env) (bc_sections st) msg = Some (sections, p, evs) ->
  wp (k p) env (st <| bc_sections := sections |>) Q -> wp (to_sections msg ≫= k) env st Q.
Proof.
  intros E Hk. unfold to_sections. rewrite wp_bind, wp_state, wp_ask, E, wp_lift, wp_modify, wp_bind.
  generalize (st <| bc_sections := sections |>) Hk. clear. intros st Hk. induction evs as [|ev evs IH]; [done|].
  cbn [for_each]. by rewrite wp_send_quiet.
Qed.

Lemma wp_delete_entry {B} env st (Q : B -> block_cache_t -> list bc_event -> Prop) h (k : unit -> M B) :
  bc_inv st -> is_Some (ent st h) -> (forall p, p ∈ bc_pending_gets st -> pg_hash p <> h) ->
  (forall st', updates st (map_set (ent st) h None) st' -> wp (k tt) env st' Q) ->
  wp (_block_cache_delete_entry h (entry_live h) ≫= k) env st Q.
Proof.
  intros Hi He Hw Hk. pose proof He as [e He']. destruct (removed_index st h Hi Hw He) as (rm & Erm & Hok & Hfind & Hcount).
  destruct Hi as [Hix Hp Ht (xs & Hl & Hg)].
  unfold _block_cache_delete_entry. rewrite wp_bind, (wp_read_entry _ _ _ _ e) by done.
  rewrite wp_modify, Erm. rewrite wp_send_quiet by done. rewrite wp_modify.
  apply wp_update_capacity. intros b. rewrite wp_state.
  destruct (delete_refines (bc_lru st) xs h Hl) as (lru & Elru & Hl' & _).
  match goal with |- context [bc_lru ?s] => change (bc_lru s) with (bc_lru st) end.
  unfold block_lru_cache_delete. rewrite Elru, wp_lift, wp_modify.
  eapply wp_to_sections; [done|]. apply wp_ret. cbn [app].
  match goal with |- wp (k tt) env ?s _ => assert (updates st (map_set (ent st) h None) s) as U end; [|by apply Hk].
  split.
  - split; try done. exists (drop_key h xs). split; [done|]. apply (good_same (map_set (ent st) h None) _ (block_at (bc_sections st))).
    + intros h'. apply f_equal. by apply Hfind.
    + by apply good_remove.
  - split; try done.
    1-2: unfold drift, byte_drift; cbn; unfold the_index in *; cbn; rewrite Hcount, u64_sub_l; f_equal; lia.
    intros p Hin. apply f_equal. etransitivity; [apply Hfind|]. unfold map_set. by rewrite decide_False by by apply Hw.
  - intros h'. apply f_equal. by apply Hfind.
Qed.

(** ** Blocks in memory *)

Lemma with_index_id st : with_index st (the_index st) = st.
Proof. destruct st as [? ? ix]. by destruct ix. Qed.

Lemma spec_put_elem n (h : bytes) (v : block_t * entry_ref) xs x : x ∈ spec_put n h v xs -> x = (h, v) \/ x ∈ xs.
Proof.
  unfold spec_put. destruct n as [|n]; [by right|]. intros [->|Hx]%elem_of_cons; [by left|]. right.
  apply list_elem_of_lookup in Hx as [i Hi]. apply lookup_take_Some in Hi as [Hi _]. apply list_elem_of_lookup_2 in Hi.
  by apply list_elem_of_filter in Hi as [_ Hi].
Qed.

Lemma wp_lru_cache_put {B} env st (Q : B -> block_cache_t -> list bc_event -> Prop) b r h xs (k : unit -> M B) :
  ix_ok (the_index st) -> lru_abs (bc_lru st) xs -> find_key h xs = None -> buf_data (blk_hash b) = h ->
  (forall x, x ∈ xs -> x.2.2 = entry_live x.1) -> is_u64 (env_time env) ->
  (forall lru ix xs', lru_abs lru xs' -> (forall x, x ∈ xs' -> x = (h, (b, r)) \/ x ∈ xs) -> ix_ok ix ->
    same_entries (index_find (the_index st)) (index_find ix) -> wp (k tt) env (with_index (st <| bc_lru := lru |>) ix) Q) ->
  wp (lru_cache_put b r ≫= k) env st Q.
Proof.
  intros Hix Hl Hf Hb Hlive Ht Hk. unfold lru_cache_put. rewrite wp_bind, wp_state, wp_ask, Hb.
  assert (exists lru ej xs', block_lru_cache_put (bc_lru st) h (b, r) = Some (lru, ej) /\ lru_abs lru xs' /\
    (forall x, x ∈ xs' -> x = (h, (b, r)) \/ x ∈ xs) /\ (forall x, ej = Some x -> x ∈ xs)) as (lru & ej & xs' & E & Hl' & Hsub & Hej).
  { destruct (decide (lru_size (bc_lru st) = 0)%nat) as [Hz|Hz].
    - exists (bc_lru st), None, xs. unfold block_lru_cache_put. rewrite decide_True by done. split_and!; try done. by right.
    - destruct (block_put_new _ xs h (b, r) Hl Hz Hf) as (lru & E & Hl' & _). eexists _, _, _. split; [done|]. split; [done|].
      split; [intros x; apply spec_put_elem|]. intros x Hx. by eapply list_elem_of_lookup_2. }
  rewrite E, wp_lift, wp_modify. destruct ej as [[h' [b' r']]|].
  - specialize (Hej _ eq_refl). apply Hlive in Hej. cbn in Hej. subst r'. unfold set_entry_ejection. rewrite wp_modify.
    destruct (ix_op (the_index st) (op_eject h' (env_time env)) Hix Ht) as (ix & Eix & Hok & Hfind). injection Eix as Eix.
    apply wp_send_last; [done|]. cbn [app]. change (the_index (st <| bc_lru := lru |>)) with (the_index st). rewrite Eix.
    apply (Hk lru ix xs'); [done..|]. intros x. rewrite Hfind. cbn [op_spec]. unfold map_set. case_decide; [subst x|done].
    by destruct (index_find _ h').
  - apply wp_ret. specialize (Hk lru (the_index st) xs' Hl' Hsub Hix ltac:(done)).
    change (the_index st) with (the_index (st <| bc_lru := lru |>)) in Hk. by rewrite with_index_id in Hk.
Qed.

Lemma verified_spec d h :
  length h = Block.BLAKE3_OUT_LEN -> is_bytes h -> legal_size (Z.of_nat (length d)) = true -> blake3 d = h ->
  verified_block d h = Some (mk_block (exact_buffer d) (exact_buffer h)).
Proof.
  intros Hlen Hh Hl Hb. unfold verified_block, buffer_create_from_existing_memory.
  rewrite (proj2 (verify_hash_iff (exact_buffer d) (exact_buffer h) Hh)) by done.
  unfold block_create_existing_data_hash_by_type. change (buf_size (exact_buffer d)) with (length d). rewrite Hl.
  change (buf_size (exact_buffer h)) with (length h). by rewrite Hlen.
Qed.

Lemma block_range st id i b :
  pool_inv st -> ss_next_id st < 2 ^ 64 -> block_at st id i = Some b -> is_u64 id /\ is_u64 (Z.of_nat i).
Proof.
  intros Hp Hids Hb. pose proof (block_known _ _ _ _ Hp Hb) as Hid. split; [unfold is_u64; lia|].
  destruct Hp as [Hinv _ _]. destruct (si_section st Hinv id) as (s & Hs & Hok). unfold block_at in Hb. rewrite Hs in Hb.
  unfold contents in Hb. destruct (occupied s i) eqn:E; [|done]. unfold occupied in E. apply andb_prop in E as [E%Nat.ltb_lt _].
  pose proof (inv_total _ _ (so_inv _ _ _ Hok)). unfold is_u64. lia.
Qed.

Lemma cached_live m σ xs ps x : good m σ xs ps -> x ∈ xs -> x.2.2 = entry_live x.1.
Proof. intros Hg Hx. destruct x as [h [b r]]. by destruct (g_cached _ _ _ _ Hg h b r Hx). Qed.

Lemma not_cached st xs h : bc_inv st -> good (ent st) (block_at (bc_sections st)) xs (bc_pending_gets st) -> ent st h = None -> find_key h xs = None.
Proof.
  intros Hi Hg Hn. apply find_key_absent. intros ([h' [b r]] & -> & Hin)%list_elem_of_fmap.
  destruct (g_cached _ _ _ _ Hg h' b r Hin) as (_ & _ & Hd). unfold data_of in Hd. cbn in Hn. by rewrite Hn in Hd.
Qed.

(** ** CACHE_PUT *)

(** What every message leaves alone, up to the ids of fresh sections. *)
Record steady (st st' : block_cache_t) : Prop := {
  sd_type : bc_type st' = bc_type st;
  sd_flag : bc_delete_blocks_on_put_failure st' = bc_delete_blocks_on_put_failure st;
  sd_max : bc_max_capacity_bytes st' = bc_max_capacity_bytes st;
  sd_next : bc_ended_put_groups_next st' = bc_ended_put_groups_next st;
  sd_drift : drift st' = drift st;
  sd_bytes : byte_drift st' = byte_drift st;
  sd_tuple : ss_max_tuple_size (bc_sections st') = ss_max_tuple_size (bc_sections st);
  sd_ids : ss_next_id (bc_sections st) <= ss_next_id (bc_sections st') <= ss_next_id (bc_sections st) + id_budget (bc_sections st);
  sd_slots : forall id i d, block_at (bc_sections st) id i = Some d -> block_at (bc_sections st') id i = Some d;
  sd_located : forall p, p ∈ bc_pending_gets st -> p ∈ bc_pending_gets st' -> located <$> ent st' (pg_hash p) = located <$> ent st (pg_hash p)
}.

Lemma frame_steady st st' : frame st st' -> steady st st'.
Proof.
  intros F. pose proof F as []. split; try done; rewrite ?(fr_sections _ _ F); try done; [unfold id_budget; lia|].
  intros p Hp _. by apply F.
Qed.

Lemma steady_frame st st1 st' : steady st st1 -> frame st1 st' -> steady st st'.
Proof.
  intros S F. pose proof S as []. pose proof F as []. split; try congruence; rewrite ?(fr_sections _ _ F); try done.
  intros p H1 H2. rewrite (fr_pending _ _ F) in H2. rewrite (fr_located _ _ F) by done. by apply S.
Qed.

Definition same_view (v v' : bytes -> option cached) : Prop := forall h, v' h = v h.

Definition claimed (acquire : bool) (c : cached) : cached :=
  if acquire && (c_claims c <? U16_MAX) then mk_cached (c_data c) (c_fib c) (c_claims c + 1) (c_pins c) else c.

Lemma view_known st h e :
  bc_inv st -> ent st h = Some e ->
  exists d, stored_at (block_at (bc_sections st)) e = Some d /\ view st h = Some (mk_cached d (fib_of e) (ie_ephemeral_count e) (ie_pin_count e)) /\
    blake3 d = h /\ legal_size (Z.of_nat (length d)) = true.
Proof.
  intros [_ _ _ (xs & _ & Hg)] He. destruct (g_stored _ _ _ _ Hg h e He) as (d & Hd & Hb & Hl).
  exists d. split_and!; try done. unfold view. rewrite He. cbn. unfold view_entry. by rewrite Hd.
Qed.

Lemma view_none st h : bc_inv st -> view st h = None <-> ent st h = None.
Proof.
  intros Hi. split; [|intros E; unfold view; by rewrite E]. intros Hv. destruct (ent st h) as [e|] eqn:E; [|done].
  destruct (view_known st h e Hi E) as (d & _ & Hv' & _). congruence.
Qed.

Lemma updates_set st h e st' d :
  bc_inv st -> updates st (map_set (ent st) h (Some e)) st' -> stored_at (block_at (bc_sections st)) e = Some d ->
  same_view (set_view (view st) h (Some (mk_cached d (fib_of e) (ie_ephemeral_count e) (ie_pin_count e)))) (view st').
Proof.
  intros Hi U Hd h'. rewrite (updates_view _ _ _ U). unfold map_set, set_view. case_decide; [|done]. cbn. unfold view_entry. by rewrite Hd.
Qed.

Lemma updates_unset st h st' :
  updates st (map_set (ent st) h None) st' -> same_view (set_view (view st) h None) (view st').
Proof. intros U h'. rewrite (updates_view _ _ _ U). unfold map_set, set_view. by case_decide. Qed.

Lemma entry_fields st h e : bc_inv st -> ent st h = Some e -> entry_wf e /\ ie_hash e = h.
Proof. intros [[Hwf _] _ _ _] He. by apply (index_find_wf (the_index st)). Qed.

Lemma keeps_ephemeral n : is_u16 n -> keeps_hash (fun e => set_ephemeral e n).
Proof. intros Hn e []. by split. Qed.
Lemma keeps_pin n : is_u32 n -> keeps_hash (fun e => set_pin e n).
Proof. intros Hn e []. by split. Qed.
Lemma keeps_fib n : is_u32 n -> keeps_hash (fun e => set_counter_fib e n).
Proof. intros Hn e []. by split. Qed.

(** The end of a put: the claim and the answer. *)
Lemma wp_put_finish env st h e c acquire rt result promoted fib :
  bc_inv st -> ent st h = Some e -> view st h = Some c ->
  wp (when acquire (acquire_claim (entry_live h));; reply rt (fun to => ev_put_result to result promoted fib (Some h));; mret (put_result result))
    env st (fun p st' es => p = put_result result /\ es = replies rt (fun to => ev_put_result to result promoted fib (Some h)) /\
      bc_inv st' /\ frame st st' /\ same_view (set_view (view st) h (Some (claimed acquire c))) (view st')).
Proof.
  intros Hi He Hv. destruct (view_known st h e Hi He) as (d & Hd & Hv' & _). rewrite Hv in Hv'. injection Hv' as ->.
  unfold claimed. cbn [c_data c_fib c_claims c_pins].
  assert (same_view (set_view (view st) h (Some (mk_cached d (fib_of e) (ie_ephemeral_count e) (ie_pin_count e)))) (view st)) as Hsame
    by (intros h'; unfold set_view; case_decide; congruence).
  assert (wp (reply rt (fun to => ev_put_result to result promoted fib (Some h));; mret (put_result result)) env st
    (fun p st' es => p = put_result result /\ es = replies rt (fun to => ev_put_result to result promoted fib (Some h)) /\ st' = st)) as Hreply.
  { rewrite wp_reply by done. apply wp_ret. by rewrite app_nil_r. }
  destruct acquire; cbn [when andb].
  - unfold acquire_claim. rewrite wp_bind, (wp_read_entry _ _ _ _ e) by done. cbv zeta. destruct (entry_fields st h e Hi He) as [Hwf _].
    destruct (Z.ltb_spec (ie_ephemeral_count e) U16_MAX) as [Hlt|Hge]; cbn [when].
    + apply wp_tail. eapply wp_write_logged; [done..| |done|].
      { apply keeps_ephemeral. destruct Hwf. unfold is_u16, U16_MAX in *. lia. }
      intros st1 U1 _. apply wp_ret. rewrite wp_reply by done. apply wp_ret. cbn [app]. rewrite app_nil_r. split_and!; try done; try apply U1.
      by apply (updates_set st h (set_ephemeral e (ie_ephemeral_count e + 1)) st1 d).
    + apply wp_ret. eapply wp_mono; [exact Hreply|]. intros p st' es (-> & -> & ->). split_and!; try done; apply frame_refl.
  - rewrite wp_mret. eapply wp_mono; [exact Hreply|]. intros p st' es (-> & -> & ->). split_and!; try done; apply frame_refl.
Qed.

(** A write into a free slot does not touch the blocks of the index. *)
Lemma write_keeps m σ σ' xs ps id i d :
  good m σ xs ps -> σ id i = None -> same (set_block σ id i (Some d)) σ' -> forall h e, m h = Some e -> stored_at σ' e = stored_at σ e.
Proof.
  intros Hg Hn Hs h e He. destruct (g_stored _ _ _ _ Hg h e He) as (d' & Hd & _). unfold stored_at in *. rewrite Hs. unfold set_block.
  rewrite decide_False; [done|]. intros [E1 E2]. congruence.
Qed.

(** The receipts after a block was stored for a group. *)
Definition receipts (groups : list bc_put_group_t) (group : Z) (hash : bytes) : list bc_put_group_t :=
  if group =? 0 then groups else record_hash groups group hash.

Lemma wp_group_record {B} env st (Q : B -> block_cache_t -> list bc_event -> Prop) g h (k : unit -> M B) :
  length h = 32%nat -> wp (k tt) env (st <| bc_put_groups := receipts (bc_put_groups st) g h |>) Q -> wp (_put_group_record g h ≫= k) env st Q.
Proof.
  intros Hl Hk. unfold _put_group_record, receipts in *. rewrite Hl. destruct (g =? 0); cbn [orb negb Nat.eqb when].
  - apply wp_mret. by destruct st.
  - by rewrite wp_modify.
Qed.

Lemma new_entry_wf h fib id i : length h = 32%nat -> is_bytes h -> is_u32 fib -> is_u64 id -> is_u64 (Z.of_nat i) -> entry_wf (new_entry h fib id i).
Proof. intros Hl Hb Hf Hid Hi. split; cbn; try done; unfold is_u32, is_u64, is_u16; lia. Qed.

(** What a put that stores a block does. *)
Record stores (st : block_cache_t) (b : block_t) (fib g : Z) (st' : block_cache_t) : Prop := {
  st_inv : bc_inv st';
  st_steady : steady st st';
  st_pending : bc_pending_gets st' = bc_pending_gets st;
  st_groups : bc_put_groups st' = receipts (bc_put_groups st) g (buf_data (blk_hash b));
  st_ended : bc_ended_put_groups st' = bc_ended_put_groups st;
  st_view : same_view (set_view (view st) (buf_data (blk_hash b)) (Some (mk_cached (buf_data (blk_data b)) fib 0 0))) (view st')
}.

(** The entry [e] of the new block joins the index [ix], the data [d] is in a
    slot that was free. *)
Lemma join_good st sections ix2 xs xs' b e id i ix :
  let h := buf_data (blk_hash b) in let d := buf_data (blk_data b) in
  good (ent st) (block_at (bc_sections st)) xs (bc_pending_gets st) -> ent st h = None ->
  block_at (bc_sections st) id i = None -> same (set_block (block_at (bc_sections st)) id i (Some d)) (block_at sections) ->
  stored_at (block_at sections) e = Some d -> blake3 d = h -> legal_size (Z.of_nat (length d)) = true ->
  same_entries (ent st) (index_find ix) -> (forall h', index_find ix2 h' = map_set (index_find ix) h (Some e) h') ->
  (forall x, x ∈ xs' -> x = (h, (b, entry_live h)) \/ x ∈ xs) ->
  good (index_find ix2) (block_at sections) xs' (bc_pending_gets st) /\
  (forall h', (e ← index_find ix2 h'; view_entry (block_at sections) e) =
    set_view (view st) h (Some (mk_cached d (fib_of e) (ie_ephemeral_count e) (ie_pin_count e))) h').
Proof.
  intros h d Hg Hn Hfree Hsame He Hb Hl Hs Hfind Hsub. pose proof (write_keeps _ _ _ _ _ id i d Hg Hfree Hsame) as Hw.
  assert (forall h', stored_at (block_at sections) <$> index_find ix h' = stored_at (block_at (bc_sections st)) <$> ent st h') as Hst.
  { intros h'. specialize (Hs h'). destruct (index_find ix h') as [e1|], (ent st h') as [e0|] eqn:E0; try done.
    cbn. rewrite <- (Hw h' e0 E0). injection Hs as _ _ H1 H2 _ _. unfold stored_at. by rewrite H1, H2. }
  split.
  - eapply (good_same (map_set (index_find ix) h (Some e)) _ (block_at sections)); [intros h'; by rewrite Hfind|].
    assert (index_find ix h = None) as Hn' by (specialize (Hs h); rewrite Hn in Hs; by destruct (index_find ix h)).
    eapply good_cache; [eapply good_add; [by eapply good_same|done..]|done|done| |].
    + unfold data_of, map_set. rewrite decide_True by done. exact He.
    + intros p Hp Eh. destruct (g_waiting _ _ _ _ Hg p Hp) as (_ & [x Hx] & _). rewrite Eh in Hx. congruence.
  - intros h'. rewrite Hfind. unfold map_set, set_view. case_decide; [cbn; unfold view_entry; by rewrite He|].
    specialize (Hs h'). specialize (Hst h'). unfold view. destruct (index_find ix h') as [e1|], (ent st h') as [e0|]; try done.
    injection Hs as H1 _ _ _ H5 H6. injection Hst as Hst. cbn. unfold view_entry, fib_of. by rewrite Hst, H1, H5, H6.
Qed.

Lemma wp_store_entry {B} env st sections id i b fib g (Q : B -> block_cache_t -> list bc_event -> Prop) (k : unit -> M B) :
  let h := buf_data (blk_hash b) in
  bc_inv st -> ent st h = None -> block_wf b -> is_u32 fib -> is_u64 (env_time env) -> room_for_ids (bc_sections st) ->
  pool_ok (id_budget (bc_sections st)) (bc_sections st) sections -> block_at (bc_sections st) id i = None ->
  same (set_block (block_at (bc_sections st)) id i (Some (buf_data (blk_data b)))) (block_at sections) ->
  (forall st', stores st b fib g st' -> is_Some (ent st' h) -> wp (k tt) env st' Q) ->
  wp (store_entry b fib id i g ≫= k) env (st <| bc_sections := sections |>) Q.
Proof.
  intros h Hi Hn [Hsize Hhash] Hfib Ht Hids Hpool Hfree Hsame Hk. pose proof Hi as [Hix Hp Hty (xs & Hl & Hg)].
  assert (pool_inv sections) as Hp' by by eapply pool_ok_inv.
  assert (length h = 32%nat /\ is_bytes h /\ blake3 (buf_data (blk_data b)) = h) as (Hlen & Hbytes & Hb).
  { unfold h. rewrite Hhash. cbn. split_and!; [apply blake3_length|apply blake3_bytes|done]. }
  assert (block_at sections id i = Some (buf_data (blk_data b))) as Hat by (rewrite Hsame; unfold set_block; by rewrite decide_True).
  destruct (block_range sections id i (buf_data (blk_data b)) Hp') as [Hid Hi64]; [pose proof (po_next _ _ _ Hpool); unfold room_for_ids, id_budget in *; lia|done|].
  set (e := new_entry h fib id i). assert (entry_wf e) as Hwf by by apply new_entry_wf.
  unfold store_entry. rewrite wp_bind. fold h.
  eapply (wp_lru_cache_put _ _ _ _ _ h xs); [done|done|by eapply not_cached|done|intros x; by apply (cached_live _ _ _ _ _ Hg)|done|].
  intros lru ix xs' Hl' Hsub Hok Hsame_e. rewrite wp_state.
  assert (index_find ix h = None) as Hn'.
  { specialize (Hsame_e h). change (index_find (the_index (st <| bc_sections := sections |>)) h) with (ent st h) in Hsame_e.
    rewrite Hn in Hsame_e. by destruct (index_find ix h). }
  destruct (ix_add ix e Hok Hwf Hn') as (ix2 & E2 & Hok2 & Hfind2). change (ie_hash e) with h in Hfind2.
  eapply wp_lift_some; [exact E2|]. rewrite wp_modify. rewrite wp_send_quiet by done. rewrite wp_modify.
  apply wp_update_capacity. intros shed. apply wp_tail. apply wp_group_record; [done|]. apply wp_ret. cbn [app].
  match goal with |- wp (k tt) env ?s _ => set (st' := s) end.
  destruct (join_good st sections ix2 xs xs' b e id i ix Hg Hn Hfree Hsame) as [Hg' Hview]; try done.
  { unfold stored_at. cbn. by rewrite Nat2Z.id. }
  apply Hk; [|change (ent st') with (index_find ix2); rewrite Hfind2; unfold map_set; by rewrite decide_True].
  assert (Z.of_nat (index_count ix2) = Z.of_nat (index_count (the_index st)) + 1) as Hcount.
  { rewrite (count_step (the_index st) ix2 h (Some e) (proj1 Hix) (proj1 Hok2)).
    - unfold ent in Hn. rewrite Hn. lia.
    - intros h'. rewrite Hfind2. unfold map_set. case_decide; [done|]. specialize (Hsame_e h').
      change (the_index (st <| bc_sections := sections |>)) with (the_index st) in Hsame_e.
      by destruct (index_find ix h'), (index_find (the_index st) h'). }
  destruct (po_config _ _ _ Hpool) as (_ & Hmt & _ & Hty' & _).
  split; try done.
  - split; [done|done|cbn; congruence|]. by exists xs'.
  - split; [done|done|done|done| | |done|apply Hpool| |].
    + unfold drift. change (the_index st') with ix2. change (bc_entry_count st') with (u64 (bc_entry_count st + 1)).
      rewrite Hcount. apply u64_shift.
    + unfold byte_drift. change (the_index st') with ix2. change (bc_current_bytes st') with (u64 (bc_current_bytes st + block_size (bc_type st))).
      change (bc_type st') with (bc_type st). rewrite Hcount, Z.mul_add_distr_r, Z.mul_1_l. apply u64_shift.
    + intros id' i' d Hd. rewrite Hsame. unfold set_block. case_decide as Eq; [|done]. destruct Eq as [-> ->]. congruence.
    + intros p Hpend _. change (ent st' (pg_hash p)) with (index_find ix2 (pg_hash p)). rewrite Hfind2. unfold map_set.
      destruct (g_waiting _ _ _ _ Hg p Hpend) as (_ & Hm & _).
      rewrite decide_False by (intros Eh; rewrite Eh, Hn in Hm; by destruct Hm).
      by apply (same_entries_located _ _ _ Hsame_e).
Qed.

(** What a put does to the blocks, and how it answers. *)
Inductive put_spec (v : bytes -> option cached) (b : block_t) (rt : option actor_id) (fib : Z) (acquire : bool) :
    bc_payload -> list bc_event -> (bytes -> option cached) -> Prop :=
| put_exists c v' :
    let h := buf_data (blk_hash b) in
    v h = Some c ->
    same_view (set_view v h (Some (claimed acquire (mk_cached (c_data c) (Z.max (c_fib c) fib) (c_claims c) (c_pins c))))) v' ->
    put_spec v b rt fib acquire (put_result CACHE_PUT_EXISTS)
      (replies rt (fun to => ev_put_result to CACHE_PUT_EXISTS (c_fib c <? fib) (Z.max (c_fib c) fib) (Some h))) v'
| put_new v' :
    let h := buf_data (blk_hash b) in
    v h = None -> same_view (set_view v h (Some (claimed acquire (mk_cached (buf_data (blk_data b)) fib 0 0)))) v' ->
    put_spec v b rt fib acquire (put_result CACHE_PUT_NEW) (replies rt (fun to => ev_put_result to CACHE_PUT_NEW false fib (Some h))) v'
| put_refused result v' :
    v (buf_data (blk_hash b)) = None -> result = CACHE_PUT_FULL \/ result = CACHE_PUT_ERROR -> same_view v v' ->
    put_spec v b rt fib acquire (put_result result) (replies rt (fun to => ev_put_result to result false 0 None)) v'.

(** There is room for one more block, and the group of the put is open. *)
Definition admits (st : block_cache_t) (g : Z) : bool :=
  negb ((0 <? bc_max_capacity_bytes st) && (bc_max_capacity_bytes st <? u64 (bc_current_bytes st + block_size (bc_type st)))) &&
  negb (negb (g =? 0) && _put_group_ended st g).

(** The rest of the state after a put. *)
Record put_rest (st : block_cache_t) (b : block_t) (g : Z) (p : bc_payload) (st' : block_cache_t) : Prop := {
  pr_steady : steady st st';
  pr_pending : bc_pending_gets st' = bc_pending_gets st;
  pr_groups : bc_put_groups st' =
    match p with put_result 0 => receipts (bc_put_groups st) g (buf_data (blk_hash b)) | _ => bc_put_groups st end;
  pr_ended : bc_ended_put_groups st' = bc_ended_put_groups st
}.

Lemma set_view_same v v' h c c' : same_view (set_view v h c) v' -> forall v2, same_view (set_view v' h c') v2 -> same_view (set_view v h c') v2.
Proof. intros H1 v2 H2 h'. rewrite H2. unfold set_view in *. case_decide; [done|]. rewrite H1. by rewrite decide_False. Qed.

Lemma wp_refuse env st rt result (Q : bc_payload -> block_cache_t -> list bc_event -> Prop) :
  Q (put_result result) st (replies rt (fun to => ev_put_result to result false 0 None)) -> wp (refuse_put rt result) env st Q.
Proof. intros HQ. unfold refuse_put. rewrite wp_reply by done. apply wp_ret. by rewrite app_nil_r. Qed.

Lemma wp_peek {B} env st (Q : B -> block_cache_t -> list bc_event -> Prop) h (k : option entry_ref -> M B) :
  bc_inv st ->
  wp (peek h ≫= k) env st Q <-> wp (k (match ent st h with Some _ => Some (entry_live h) | None => None end)) env st Q.
Proof.
  intros [Hix _ _ _]. rewrite wp_bind. unfold peek. rewrite wp_state. rewrite wp_ret. by rewrite ix_peek.
Qed.

(** The sections changed, the blocks did not. *)
Lemma new_sections st sections k :
  bc_inv st -> pool_ok k (bc_sections st) sections -> k <= id_budget (bc_sections st) -> same (block_at (bc_sections st)) (block_at sections) ->
  let st' := st <| bc_sections := sections |> in bc_inv st' /\ same_view (view st) (view st') /\ steady st st'.
Proof.
  intros [Hix Hp Hty (xs & Hl & Hg)] P Hk Hs st'. destruct (po_config _ _ _ P) as (_ & Hmt & _ & Hty' & _). split_and!.
  - split; [done|by eapply pool_ok_inv|cbn; congruence|]. exists xs. split; [done|]. eapply good_same; [|exact Hg].
    intros h. change (ent st') with (ent st). destruct (ent st h); [|done]. cbn. f_equal. apply Hs.
  - intros h. unfold view. change (ent st') with (ent st). destruct (ent st h) as [e|]; [|done]. cbn. unfold view_entry, stored_at. by rewrite Hs.
  - pose proof (po_next _ _ _ P). split; try done; [cbn; lia|]. intros id i d Hd. cbn. by rewrite Hs.
Qed.

Lemma frame_put_rest st b g p st' : frame st st' -> p <> put_result CACHE_PUT_NEW -> put_rest st b g p st'.
Proof.
  intros F Hp. pose proof F as []. split; [by apply frame_steady|done| |done]. rewrite (fr_groups _ _ F).
  destruct p as [[]| | |]; done.
Qed.

Lemma wp_put_existing env st b rt fib acquire g e :
  let h := buf_data (blk_hash b) in
  bc_inv st -> is_u32 fib -> ent st h = Some e ->
  wp (if hc_fib (ie_counter e) <? fib then
        write_entry (entry_live h) (fun e => set_counter_fib e fib);;
        when acquire (acquire_claim (entry_live h));;
        reply rt (fun to => ev_put_result to CACHE_PUT_EXISTS true fib (Some h));; mret (put_result CACHE_PUT_EXISTS)
      else
        when acquire (acquire_claim (entry_live h));;
        reply rt (fun to => ev_put_result to CACHE_PUT_EXISTS false (hc_fib (ie_counter e)) (Some h));; mret (put_result CACHE_PUT_EXISTS)) env st
    (fun p st' es => bc_inv st' /\ put_spec (view st) b rt fib acquire p es (view st') /\ put_rest st b g p st').
Proof.
  intros h Hi Hfib He. destruct (view_known st h e Hi He) as (d & Hd & Hv & _). change (hc_fib (ie_counter e)) with (fib_of e).
  destruct (Z.ltb_spec (fib_of e) fib) as [Hlt|Hge].
  - eapply wp_write_entry; [done..|by apply keeps_fib|done|]. intros st1 U1 He1.
    pose proof (updates_set st h (set_counter_fib e fib) st1 d Hi U1 Hd) as Hv1.
    assert (view st1 h = Some (mk_cached d fib (ie_ephemeral_count e) (ie_pin_count e))) as Hvh by (rewrite Hv1; unfold set_view; by rewrite decide_True).
    eapply wp_mono; [by eapply wp_put_finish; [apply U1|..]|]. intros p st' es (-> & -> & Hi' & F & Hv').
    split_and!; [done| |apply frame_put_rest; [|done]; eapply frame_trans; [apply U1|done]].
    pose proof (put_exists (view st) b rt fib acquire _ (view st') Hv) as P. cbn [c_data c_fib c_claims c_pins] in P.
    rewrite Z.max_r in P by lia. rewrite (proj2 (Z.ltb_lt _ _) Hlt) in P. apply P. eapply set_view_same; [exact Hv1|done].
  - eapply wp_mono; [by eapply wp_put_finish|]. intros p st' es (-> & -> & Hi' & F & Hv'). split_and!; [done| |by apply frame_put_rest].
    pose proof (put_exists (view st) b rt fib acquire _ (view st') Hv) as P. cbn [c_data c_fib c_claims c_pins] in P.
    rewrite Z.max_l in P by lia. rewrite (proj2 (Z.ltb_ge _ _)) in P by lia. by apply P.
Qed.

Lemma wp_handle_put env st b rt fib acquire g :
  bc_inv st -> block_wf b -> is_u32 fib -> meta_ok (env_io env) -> is_u64 (env_time env) -> room_for_ids (bc_sections st) ->
  wp (cache_handle_put b rt fib acquire g) env st (fun p st' es =>
    bc_inv st' /\ put_spec (view st) b rt fib acquire p es (view st') /\ put_rest st b g p st' /\
    (view st (buf_data (blk_hash b)) = None ->
     if admits st g then
       p <> put_result CACHE_PUT_FULL /\
       ((forall id, env_io env id = io_ok) -> Z.of_nat (buf_size (blk_data b)) = block_size (bc_type st) -> p = put_result CACHE_PUT_NEW)
     else p = put_result CACHE_PUT_FULL)).
Proof.
  intros Hi Hb Hfib Hio Ht Hids. unfold cache_handle_put. rewrite wp_state, wp_peek by done.
  set (h := buf_data (blk_hash b)). destruct (ent st h) as [e|] eqn:He.
  { rewrite (wp_read_entry _ _ _ _ e) by done. eapply wp_mono; [by apply (wp_put_existing env st b rt fib acquire g e)|].
    intros p st' es (H1 & H2 & H3). split_and!; try done. intros Hn. apply view_none in Hn; [congruence|done]. }
  assert (view st h = None) as Hv by by apply view_none.
  assert (forall r, r = CACHE_PUT_FULL \/ r = CACHE_PUT_ERROR -> put_spec (view st) b rt fib acquire (put_result r)
    (replies rt (fun to => ev_put_result to r false 0 None)) (view st) /\ put_rest st b g (put_result r) st) as Hno.
  { intros r Hr. split; [by apply put_refused|]. apply frame_put_rest; [apply frame_refl|]. by destruct Hr; subst. }
  unfold admits. destruct (_ && _); [apply wp_refuse; destruct (Hno CACHE_PUT_FULL); [by left|by split_and!]|].
  destruct (_ && _); [apply wp_refuse; destruct (Hno CACHE_PUT_FULL); [by left|by split_and!]|].
  pose proof Hi as [_ Hp Hty _]. pose proof Hp as [I F T].
  destruct (handle_write_pool (env_io env) (bc_sections st) (buf_data (blk_data b)) None I Hio F T Hids)
    as (sections & r & id & i & evs & E & P & S & Hok).
  eapply wp_to_sections; [exact E|]. inversion S as [? ? ? ? ? Hfree Hsame|? ? ? ? ? ? Hr Hsame| | | | | | |]; subst.
  - eapply (wp_store_entry env st sections id i b fib g); [done..|]. intros st1 S1 [e1 He1].
    assert (view st1 h = Some (mk_cached (buf_data (blk_data b)) fib 0 0)) as Hv1
      by (rewrite (st_view _ _ _ _ _ S1); unfold set_view; by rewrite decide_True).
    eapply wp_mono; [by eapply wp_put_finish; [apply S1|..]|]. intros p st' es (-> & -> & Hi' & Fr & Hv').
    split_and!; [done| |split|done].
    + apply put_new; [done|]. eapply set_view_same; [apply S1|done].
    + by eapply steady_frame; [apply S1|].
    + destruct S1, Fr. congruence.
    + destruct S1, Fr. cbn. congruence.
    + destruct S1, Fr. congruence.
  - destruct (new_sections st sections _ Hi P ltac:(lia) Hsame) as (Hi' & Hv' & Hst).
    assert (forall m1 m2 : M bc_payload, match r with 0 => m1 | _ => m2 end = m2) as -> by (by destruct r).
    apply wp_refuse. split_and!; [done|by apply put_refused; [|right|]|by split|].
    intros _. split; [done|]. intros Hall Hlen. destruct Hr. apply Hok; [done|]. unfold section_bytes, buf_size in *. rewrite Hty. lia.
Qed.

(** ** CACHE_GET *)

Definition get_answer (h : bytes) (c : cached) (block : option block_t) (no_data : bool) : cache_get_result :=
  mk_get_result h block (c_fib c) true (0 <? c_claims c) no_data.
Definition get_miss (h : bytes) : cache_get_result := mk_get_result h None 0 false false false.
Definition is_block (h : bytes) (c : cached) (b : block_t) : Prop := buf_data (blk_hash b) = h /\ buf_data (blk_data b) = c_data c.

Inductive get_spec (v : bytes -> option cached) (w : list (bytes * actor_id)) (h : bytes) (rt : option actor_id) (no_data peer_serve : bool) :
    bc_payload -> list bc_event -> list (bytes * actor_id) -> Prop :=
| get_absent :
    v h = None -> get_spec v w h rt no_data peer_serve (get_result None) (replies rt (fun to => ev_get_result to (get_miss h))) w
| get_hidden c :
    v h = Some c -> peer_serve = true -> c_claims c <> 0 ->
    get_spec v w h rt no_data peer_serve (get_result None) (replies rt (fun to => ev_get_result to (get_miss h))) w
| get_metadata c :
    v h = Some c -> no_data = true ->
    get_spec v w h rt no_data peer_serve (get_result None) (replies rt (fun to => ev_get_result to (get_answer h c None true))) w
| get_hit c b to :
    v h = Some c -> rt = Some to -> no_data = false -> is_block h c b ->
    get_spec v w h rt no_data peer_serve (get_result None) [ev_get_result to (get_answer h c (Some b) false)] w
| get_wait c to id i :
    v h = Some c -> rt = Some to -> no_data = false ->
    get_spec v w h rt no_data peer_serve (get_result None) [ev_sections_read id i] ((h, to) :: w)
| get_now c b :
    v h = Some c -> rt = None -> no_data = false -> is_block h c b -> get_spec v w h rt no_data peer_serve (get_result (Some b)) [] w
| get_unread c :
    v h = Some c -> rt = None -> no_data = false -> get_spec v w h rt no_data peer_serve (get_result None) [] w.

(** The entries keep their locations while a block joins those in memory. *)
Lemma load_good (m m' : entries) σ xs xs' ps ps' b h :
  good m σ xs ps -> same_entries m m' -> (forall x, x ∈ xs' -> x = (h, (b, entry_live h)) \/ x ∈ xs) -> buf_data (blk_hash b) = h ->
  data_of m σ h = Some (buf_data (blk_data b)) -> (forall p, p ∈ ps' -> p ∈ ps /\ pg_hash p <> h) -> good m' σ xs' ps'.
Proof.
  intros Hg Hs Hsub Hb Hd Hps. eapply (good_same m _ σ).
  - intros h'. specialize (Hs h'). destruct (m' h'), (m h'); try done. injection Hs as _ _ H1 H2 _ _. cbn. unfold stored_at. by rewrite H1, H2.
  - eapply good_cache; [eapply (good_sub _ _ xs xs ps ps'); [done| |exact Hg]|..]; try done; intros p Hp; by apply Hps.
Qed.

(** The state after the index and the blocks in memory changed. *)
Lemma updates_memory st lru ix xs' :
  bc_inv st -> ix_ok ix -> lru_abs lru xs' -> same_entries (ent st) (index_find ix) ->
  good (index_find ix) (block_at (bc_sections st)) xs' (bc_pending_gets st) -> updates st (ent st) (with_index (st <| bc_lru := lru |>) ix).
Proof.
  intros [Hix Hp Ht (xs & Hl & Hg)] Hok Hl' Hs Hg'. assert (index_count ix = index_count (the_index st)) as Hc.
  { apply (count_same _ _ (proj1 Hix) (proj1 Hok)). intros h. specialize (Hs h). unfold ent in Hs.
    by destruct (index_find ix _), (index_find (the_index st) _). }
  split; [split; try done; by exists xs'|split; try done; [unfold drift, byte_drift; cbn; by rewrite Hc..|]|done].
  intros p _. change (ent _ (pg_hash p)) with (index_find ix (pg_hash p)) at 1.
  by apply (same_entries_located _ _ _ Hs).
Qed.

(** Nothing but the blocks in memory, dates, sections and requests changed. *)
Record gets (st st' : block_cache_t) : Prop := {
  ge_inv : bc_inv st';
  ge_view : same_view (view st) (view st');
  ge_steady : steady st st';
  ge_groups : bc_put_groups st' = bc_put_groups st;
  ge_ended : bc_ended_put_groups st' = bc_ended_put_groups st
}.

Lemma updates_same st st' : updates st (ent st) st' -> same_view (view st) (view st').
Proof. intros U h. by rewrite (updates_view _ _ _ U). Qed.

Lemma updates_gets st st' : updates st (ent st) st' -> gets st st'.
Proof. intros U. pose proof U as [Hi F _]. split; [done|by apply updates_same|by apply frame_steady|apply F|apply F]. Qed.

Lemma gets_refl st : bc_inv st -> gets st st.
Proof. intros Hi. apply updates_gets, updates_refl, Hi. Qed.

Lemma gets_frame st st1 st' : gets st st1 -> updates st1 (ent st1) st' -> gets st st'.
Proof.
  intros [I1 V1 S1 G1 E1] U. pose proof U as [Hi F _]. split; [done| |by eapply steady_frame| |].
  - intros h. by rewrite (updates_same _ _ U).
  - by rewrite (fr_groups _ _ F).
  - by rewrite (fr_ended _ _ F).
Qed.

Definition not_waiting (st : block_cache_t) (h : bytes) : Prop := forall p, p ∈ bc_pending_gets st -> pg_hash p <> h.

Lemma pool_read_step σ id i rt r σ' :
  pool_step σ (SECTIONS_READ id i rt) (sections_read_payload r) σ' -> (forall b b', σ id i = Some b -> r = Some b' -> b' = b) /\ same σ σ'.
Proof. by inversion 1. Qed.

(** A synchronous read. *)
Lemma wp_read_now env st h e xs :
  bc_inv st -> meta_ok (env_io env) -> is_u64 (env_time env) -> ent st h = Some e -> not_waiting st h ->
  lru_abs (bc_lru st) xs -> good (ent st) (block_at (bc_sections st)) xs (bc_pending_gets st) -> find_key h xs = None ->
  wp (read_now (entry_live h)) env st (fun p st' es => es = [] /\ gets st st' /\ bc_pending_gets st' = bc_pending_gets st /\
    (p = get_result None \/ exists c b, view st h = Some c /\ p = get_result (Some b) /\ is_block h c b)).
Proof.
  intros Hi Hio Ht He Hw Hl Hg Hf. destruct (view_known st h e Hi He) as (d & Hd & Hv & Hb & Hlegal).
  destruct (entry_fields st h e Hi He) as [Hwf Hh]. pose proof Hi as [_ Hp _ _]. pose proof Hp as [I F T].
  unfold read_now. rewrite (wp_read_entry _ _ _ _ e) by done.
  destruct (handle_read_pool (env_io env) (bc_sections st) (ie_section_id e) (Z.to_nat (ie_section_index e)) None I Hio F)
    as (sections & r & evs & E & P & S & _); [by apply (block_known _ _ _ _ Hp Hd)|].
  eapply wp_to_sections; [exact E|]. destruct (pool_read_step _ _ _ _ _ _ S) as [Hr Hsame].
  destruct (new_sections st sections 0 Hi P) as (Hi' & Hv' & Hst); [unfold id_budget; lia|done|].
  set (st1 := st <| bc_sections := sections |>) in *. assert (gets st st1) as G1 by by split.
  destruct r as [data|]; [|apply wp_ret; split_and!; try done; by left].
  rewrite (Hr d data Hd eq_refl). rewrite Hh, verified_spec by (done || by rewrite <- Hh; apply Hwf).
  eapply (wp_lru_cache_put _ _ _ _ _ h xs); [apply Hi|done..|intros x; by apply (cached_live _ _ _ _ _ Hg)|done|].
  intros lru ix xs' Hl' Hsub Hok Hsm. apply wp_ret. change (the_index st1) with (the_index st) in Hsm. fold (ent st) in Hsm.
  assert (updates st1 (ent st1) (with_index (st1 <| bc_lru := lru |>) ix)) as U.
  { apply (updates_memory st1 lru ix xs'); try done. eapply (load_good (ent st) _ _ xs xs'); try done.
    - eapply good_same; [|exact Hg]. intros h'. destruct (ent st h'); [|done]. cbn. f_equal. apply Hsame.
    - unfold data_of. rewrite He. cbn. unfold stored_at. rewrite Hsame. exact Hd.
    - intros p Hin. split; [done|by apply Hw]. }
  split_and!; [done|by eapply gets_frame|done|]. right. eexists _, _. split_and!; [exact Hv|done|by split].
Qed.

Lemma spec_get_elem (h : bytes) (xs : cached_blocks) x : x ∈ (spec_get h xs).1 -> x ∈ xs.
Proof.
  unfold spec_get. destruct (find_key h xs) as [v|] eqn:E; [|done]. cbn. intros [->|Hx]%elem_of_cons; [by apply find_key_in|].
  by apply list_elem_of_filter in Hx as [_ Hx].
Qed.

Lemma updates_lru st lru xs xs' :
  bc_inv st -> good (ent st) (block_at (bc_sections st)) xs (bc_pending_gets st) -> lru_abs lru xs' -> (forall x, x ∈ xs' -> x ∈ xs) ->
  updates st (ent st) (st <| bc_lru := lru |>).
Proof.
  intros Hi Hg Hl Hsub. pose proof (updates_memory st lru (the_index st) xs' Hi (bi_index st Hi) Hl ltac:(done)) as U.
  change (the_index st) with (the_index (st <| bc_lru := lru |>)) in U at 2. rewrite with_index_id in U. apply U.
  by eapply good_sub; [exact Hsub| |exact Hg].
Qed.

(** The location of a read that was requested. *)
Definition requested (st : block_cache_t) (h : bytes) (es : list bc_event) : Prop :=
  forall id i, ev_sections_read id i ∈ es -> exists e, ent st h = Some e /\ located e = (id, Z.of_nat i).

Lemma wp_handle_get env st h rt no_data peer_serve :
  bc_inv st -> meta_ok (env_io env) -> is_u64 (env_time env) -> (rt = None -> not_waiting st h) ->
  wp (cache_handle_get h rt no_data peer_serve) env st (fun p st' es =>
    gets st st' /\ get_spec (view st) (waiting st) h rt no_data peer_serve p es (waiting st') /\ requested st' h es).
Proof.
  intros Hi Hio Ht Hsync. unfold cache_handle_get. rewrite wp_peek by done.
  assert (forall ev es, es = replies rt (fun to => ev_get_result to ev) -> requested st h es) as Hno
    by (intros ev es ->; destruct rt; intros id i Hin; set_solver).
  destruct (ent st h) as [e|] eqn:He.
  2: { rewrite wp_reply by done. apply wp_ret. rewrite app_nil_r. split_and!; [by apply gets_refl|by apply get_absent, view_none|by eapply Hno]. }
  destruct (view_known st h e Hi He) as (d & Hd & Hv & _). rewrite wp_state, (wp_read_entry _ _ _ _ e) by done.
  eapply (wp_quiet _ _ _ _ _ (fun _ st1 => st1 = st)).
  { unfold when. case_match; [by apply wp_send_last|by apply wp_ret]. }
  intros _ st1 ->. destruct (peer_serve && negb _) eqn:Eps.
  { rewrite wp_reply by done. apply wp_ret. rewrite app_nil_r. split_and!; [by apply gets_refl| |by eapply Hno].
    apply andb_prop in Eps as [-> Eps]. eapply get_hidden; [exact Hv|done|]. cbn in *. by apply negb_true_iff, Z.eqb_neq in Eps. }
  destruct no_data.
  { rewrite wp_reply by done. apply wp_ret. rewrite app_nil_r. split_and!; [by apply gets_refl| |by eapply Hno]. by apply (get_metadata _ _ _ _ _ _ _ Hv). }
  pose proof Hi as [_ _ _ (xs & Hl & Hg)]. destruct (get_refines (bc_lru st) xs h Hl) as (lru & El & Hl' & _).
  unfold block_lru_cache_get. rewrite El, wp_lift, wp_modify.
  assert (updates st (ent st) (st <| bc_lru := lru |>)) as U by (eapply updates_lru; [done..|apply spec_get_elem]).
  set (st1 := st <| bc_lru := lru |>) in *. unfold spec_get. destruct (find_key h xs) as [[b r]|] eqn:Ef; cbn [snd fst fmap option_fmap option_map].
  - destruct (g_cached _ _ _ _ Hg h b r (find_key_in _ _ _ Ef)) as (_ & Hbh & Hbd). unfold data_of in Hbd. rewrite He in Hbd. cbn in Hbd.
    assert (is_block h (mk_cached d (fib_of e) (ie_ephemeral_count e) (ie_pin_count e)) b) as Hblk by (split; [done|cbn; congruence]).
    destruct rt as [to|].
    + rewrite wp_send by done. apply wp_ret. split_and!; [by apply updates_gets| |intros id i Hin; set_solver].
      exact (get_hit _ _ _ _ _ _ _ b to Hv eq_refl eq_refl Hblk).
    + apply wp_ret. split_and!; [by apply updates_gets| |intros id i Hin; set_solver].
      exact (get_now _ _ _ _ _ _ _ b Hv eq_refl eq_refl Hblk).
  - destruct rt as [to|].
    + unfold _block_cache_add_pending_get. rewrite wp_modify, wp_send by done. apply wp_ret.
      destruct (entry_fields st h e Hi He) as [Hwf _]. split_and!.
      * destruct U as [[I1 I2 I3 I4] F _]. pose proof (frame_steady _ _ F) as []. split; [|done| |done|done].
        -- split; [done..|]. exists xs. unfold spec_get in Hl'. rewrite Ef in Hl'. split; [exact Hl'|]. apply good_wait; [done|by eexists|].
           intros Hin. apply find_key_none in Ef. done.
        -- by split.
      * exact (get_wait _ _ _ _ _ _ _ to _ _ Hv eq_refl eq_refl).
      * intros id i [= -> ->]%list_elem_of_singleton. exists e. split; [done|]. unfold located. f_equal. destruct Hwf. unfold is_u64 in *. lia.
    + eapply wp_mono; [eapply (wp_read_now env st1 h e xs); try done; [apply U|by apply Hsync|]|].
      { unfold spec_get in Hl'. by rewrite Ef in Hl'. }
      intros p st' es (-> & G & Hpend & Hres). assert (waiting st' = waiting st) as Hw by (unfold waiting; by rewrite Hpend).
      rewrite Hw. split_and!; [|destruct Hres as [->|(c & b & Hvc & -> & Hblk)]|intros id i Hin; set_solver].
      * destruct G as [G1 G2 [] G4 G5]. split; [done|done|by split|done|done].
      * exact (get_unread _ _ _ _ _ _ _ Hv eq_refl eq_refl).
      * by apply (get_now _ _ _ _ _ _ c b).
Qed.

(** ** SECTIONS_READ_RESULT *)

Definition answer_to (block : option block_t) (st : block_cache_t) (p : pending_get_t) : bc_event :=
  let e := default (index_entry_create []) (entry_at st (pg_entry p)) in
  ev_get_result (pg_reply_to p) (mk_get_result (pg_hash p) block (fib_of e) true (0 <? ie_ephemeral_count e) false).

Lemma wp_resolve env st matches block ps :
  (forall p, p ∈ ps -> is_Some (entry_at st (pg_entry p))) ->
  wp (_block_cache_resolve_pending_gets matches block ps) env st (fun kept st' es =>
    st' = st /\ kept = filter (fun p => matches p = false) ps /\ es = answer_to block st <$> filter (fun p => matches p = true) ps).
Proof.
  induction ps as [|p ps IH]; intros Hps; cbn [_block_cache_resolve_pending_gets]; [by apply wp_ret|].
  assert (wp (_block_cache_resolve_pending_gets matches block ps) env st (fun kept st' es =>
    st' = st /\ kept = filter (fun p => matches p = false) ps /\ es = answer_to block st <$> filter (fun p => matches p = true) ps)) as H
    by (apply IH; intros q Hq; apply Hps; set_solver).
  destruct (matches p) eqn:E.
  - destruct (Hps p ltac:(set_solver)) as [e He]. rewrite (wp_read_entry _ _ _ _ e) by done. rewrite wp_send by done.
    eapply wp_mono; [exact H|]. intros kept st' es (-> & -> & ->). split_and!; [done|by rewrite filter_cons_False by congruence|].
    rewrite filter_cons_True by done. cbn. unfold answer_to. by rewrite He.
  - rewrite wp_bind. eapply wp_mono; [exact H|]. intros kept st' es (-> & -> & ->). apply wp_ret. rewrite app_nil_r.
    split_and!; [done|by rewrite filter_cons_True|by rewrite filter_cons_False by congruence].
Qed.

Lemma find_pending_spec matches ps :
  match _block_cache_find_pending_get matches ps with
  | Some (first, rest) => exists l1 l2, ps = l1 ++ first :: l2 /\ rest = l1 ++ l2 /\ matches first = true /\ Forall (fun p => matches p = false) l1
  | None => Forall (fun p => matches p = false) ps
  end.
Proof.
  induction ps as [|p ps IH]; cbn [_block_cache_find_pending_get]; [constructor|]. destruct (matches p) eqn:E; [by exists [], ps|].
  destruct (_block_cache_find_pending_get matches ps) as [[first rest]|]; cbn [mbind option_bind]; [|by constructor].
  destruct IH as (l1 & l2 & -> & -> & Hm & Hl). exists (p :: l1), l2. split_and!; try done. by constructor.
Qed.


Inductive read_spec (v : bytes -> option cached) (w : list (bytes * actor_id)) (data : option bytes) :
    list bc_event -> list (bytes * actor_id) -> Prop :=
| read_nobody : read_spec v w data [] w
| read_served h c :
    v h = Some c ->
    read_spec v w data
      ((fun x => ev_get_result x.2 (get_answer x.1 c (if data is Some _ then Some (mk_block (exact_buffer (c_data c)) (exact_buffer h)) else None) false))
         <$> filter (fun x => x.1 = h) w)
      (filter (fun x => x.1 <> h) w).

Lemma pending_entry st p :
  bc_inv st -> p ∈ bc_pending_gets st -> exists e, pg_entry p = entry_live (pg_hash p) /\ ent st (pg_hash p) = Some e.
Proof. intros [_ _ _ (xs & _ & Hg)] Hp. destruct (g_waiting _ _ _ _ Hg p Hp) as (-> & [e He] & _). eauto. Qed.

Lemma at_location_true st id i p :
  bc_inv st -> p ∈ bc_pending_gets st ->
  at_location st id i p = true <-> exists e, ent st (pg_hash p) = Some e /\ located e = (id, Z.of_nat i).
Proof.
  intros Hi Hp. destruct (pending_entry st p Hi Hp) as (e & Hr & He). unfold at_location. rewrite Hr. cbn. change (index_find _) with (ent st).
  rewrite He, andb_true_iff, !Z.eqb_eq. unfold located. split.
  - intros [H1 H2]. exists e. by rewrite H1, H2.
  - intros (e' & [= <-] & [= -> ->]). done.
Qed.

(** A location belongs to one hash. *)
Lemma location_unique st h h' e e' :
  bc_inv st -> ent st h = Some e -> ent st h' = Some e' -> located e = located e' -> h = h'.
Proof.
  intros Hi He He' [= H1 H2]. destruct (view_known st h e Hi He) as (d & Hd & _ & <- & _).
  destruct (view_known st h' e' Hi He') as (d' & Hd' & _ & <- & _). unfold stored_at in *. rewrite H1, H2 in Hd. congruence.
Qed.

Lemma at_location_hash st id i p q :
  bc_inv st -> p ∈ bc_pending_gets st -> q ∈ bc_pending_gets st -> at_location st id i p = true ->
  at_location st id i q = true <-> pg_hash q = pg_hash p.
Proof.
  intros Hi Hp Hq Hat. apply (at_location_true st id i p Hi Hp) in Hat as (e & He & Hl). rewrite (at_location_true st id i q Hi Hq). split.
  - intros (e' & He' & Hl'). eapply location_unique; [exact Hi|done..|congruence].
  - intros ->. eauto.
Qed.

Lemma at_location_same st st' id i p :
  bc_inv st -> same_entries (ent st) (ent st') -> p ∈ bc_pending_gets st -> at_location st' id i p = at_location st id i p.
Proof.
  intros Hi Hs Hp. destruct (pending_entry st p Hi Hp) as (e & Hr & He). unfold at_location. rewrite Hr. cbn.
  specialize (Hs (pg_hash p)). change (index_find (the_index st)) with (ent st). change (index_find (the_index st')) with (ent st').
  rewrite He in *. destruct (ent st' (pg_hash p)) as [e'|]; [|done]. injection Hs as _ _ H1 H2 _ _. by rewrite H1, H2.
Qed.

Lemma gets_fewer st qs :
  bc_inv st -> (forall p, p ∈ qs -> p ∈ bc_pending_gets st) -> gets st (st <| bc_pending_gets := qs |>).
Proof.
  intros [Hix Hp Ht (xs & Hl & Hg)] Hq. split; try done.
  - split; try done. exists xs. split; [done|]. by eapply good_sub; [|exact Hq|exact Hg].
  - split; try done. cbn. unfold id_budget. lia.
Qed.

Definition requester (p : pending_get_t) : bytes * actor_id := (pg_hash p, pg_reply_to p).

Lemma answers_served st s h c block (ps : list pending_get_t) :
  bc_inv st -> same_entries (ent st) (ent s) -> view st h = Some c ->
  (forall p, p ∈ ps -> pg_entry p = entry_live (pg_hash p) /\ pg_hash p = h) ->
  answer_to block s <$> ps = (fun x => ev_get_result x.2 (get_answer x.1 c block false)) <$> (requester <$> ps).
Proof.
  intros Hi Hs Hv Hps. rewrite <- list_fmap_compose. apply list_fmap_ext. intros k p Hk.
  destruct (Hps p (list_elem_of_lookup_2 _ _ _ Hk)) as [Hr Hh]. unfold answer_to, compose, get_answer. rewrite Hr. cbn [requester fst snd entry_at].
  change (index_find (the_index s)) with (ent s). rewrite Hh. specialize (Hs h). destruct (ent st h) as [e|] eqn:He.
  - destruct (view_known st h e Hi He) as (d & _ & Hv' & _). rewrite Hv in Hv'. injection Hv' as ->.
    destruct (ent s h) as [e'|]; [|done]. injection Hs as H1 _ _ _ H5 _. cbn. unfold fib_of. by rewrite H1, H5.
  - apply view_none in He; [congruence|done].
Qed.

(** The requests that wait for the location, and the hash they wait for. *)
Lemma waiting_split st id i :
  bc_inv st -> let ps := bc_pending_gets st in
  (filter (fun p => at_location st id i p = true) ps = [] /\ filter (fun p => at_location st id i p = false) ps = ps) \/
  (exists p, p ∈ ps /\ at_location st id i p = true /\
    requester <$> filter (fun p => at_location st id i p = true) ps = filter (fun x => x.1 = pg_hash p) (waiting st) /\
    requester <$> filter (fun p => at_location st id i p = false) ps = filter (fun x => x.1 <> pg_hash p) (waiting st)).
Proof.
  intros Hi ps. destruct (filter (fun p => at_location st id i p = true) ps) as [|p l] eqn:E.
  - left. split; [done|]. assert (forall p, p ∈ ps -> at_location st id i p = false) as Hall.
    { intros p Hp. destruct (at_location st id i p) eqn:Ep; [|done]. assert (p ∈ filter (fun p => at_location st id i p = true) ps) as Hin
        by by apply list_elem_of_filter. rewrite E in Hin. by apply not_elem_of_nil in Hin. }
    clear E. induction ps as [|q qs IH]; [done|]. rewrite filter_cons_True by (apply Hall; set_solver). f_equal. apply IH. set_solver.
  - right. exists p. assert (p ∈ filter (fun p => at_location st id i p = true) ps) as [Hat Hp]%list_elem_of_filter by (rewrite E; set_solver).
    rewrite <- E. unfold waiting. change (fun p => (pg_hash p, pg_reply_to p)) with requester.
    split_and!; [done|done|..]; apply fmap_filter; intros q Hq; cbn [requester fst].
    + by apply (at_location_hash st id i p q).
    + rewrite <- (at_location_hash st id i p q Hi Hp Hq Hat). destruct (at_location st id i q); split; congruence.
Qed.

Lemma wp_serve env st s id i block :
  bc_inv st -> same_entries (ent st) (ent s) -> (forall p, p ∈ bc_pending_gets s -> p ∈ bc_pending_gets st) ->
  (forall b, filter (fun p => at_location st id i p = b) (bc_pending_gets s) = filter (fun p => at_location st id i p = b) (bc_pending_gets st)) ->
  wp (s ← state; kept ← _block_cache_resolve_pending_gets (at_location s id i) block (bc_pending_gets s);
      modify (fun st => st <| bc_pending_gets := kept |>);; mret other_result) env s
    (fun _ st' es => st' = s <| bc_pending_gets := filter (fun p => at_location st id i p = false) (bc_pending_gets st) |> /\
      es = answer_to block s <$> filter (fun p => at_location st id i p = true) (bc_pending_gets st)).
Proof.
  intros Hi Hs Hsub Hf. rewrite wp_state, wp_bind. eapply wp_mono; [apply wp_resolve|].
  { intros p Hp%Hsub. destruct (pending_entry st p Hi Hp) as (e & -> & He). cbn. specialize (Hs (pg_hash p)). rewrite He in Hs.
    change (index_find (the_index s)) with (ent s). by destruct (ent s (pg_hash p)). }
  intros kept st' es (-> & -> & ->). rewrite wp_modify. apply wp_ret. rewrite app_nil_r.
  assert (forall b, filter (fun p => at_location s id i p = b) (bc_pending_gets s) = filter (fun p => at_location st id i p = b) (bc_pending_gets s)) as E.
  { intros b. apply filter_agree. intros p Hp%Hsub. by rewrite (at_location_same st s). }
  by rewrite !E, !Hf.
Qed.

(** Nobody waits, or there is no data: everybody who waits is told so. *)
Lemma wp_serve_none env st id i data :
  bc_inv st -> let ps := bc_pending_gets st in
  data = None \/ filter (fun p => at_location st id i p = true) ps = [] ->
  wp (s ← state; kept ← _block_cache_resolve_pending_gets (at_location s id i) None (bc_pending_gets s);
      modify (fun st => st <| bc_pending_gets := kept |>);; mret other_result) env st (fun _ st' es =>
    gets st st' /\ read_spec (view st) (waiting st) data es (waiting st') /\
    bc_pending_gets st' = filter (fun p => at_location st id i p = false) ps).
Proof.
  intros Hi ps Hd. eapply wp_mono; [by apply (wp_serve env st st id i None)|]. fold ps. intros _ st' es (-> & ->).
  split_and!; [apply gets_fewer; [done|]; by intros p [_ Hp]%list_elem_of_filter| |done]. unfold waiting at 2. cbn [bc_pending_gets set].
  change (fun p => (pg_hash p, pg_reply_to p)) with requester. pose proof (waiting_split st id i Hi) as Hsplit. cbv zeta in Hsplit. fold ps in Hsplit.
  destruct Hsplit as [[-> ->]|(p & Hp & Hat & Hw1 & ->)]; [apply read_nobody|].
  destruct Hd as [->|Hd].
  2: { assert (p ∈ filter (fun p => at_location st id i p = true) ps) as Hin by (by apply list_elem_of_filter).
       rewrite Hd in Hin. by apply not_elem_of_nil in Hin. }
  destruct (pending_entry st p Hi Hp) as (e & _ & He). destruct (view_known st _ e Hi He) as (d & _ & Hv & _).
  erewrite (answers_served st st (pg_hash p)); [|done..|].
  - rewrite Hw1. by apply (read_served _ _ None).
  - intros q [Hq Hin]%list_elem_of_filter. destruct (pending_entry st q Hi Hin) as (? & -> & _). split; [done|].
    by apply (at_location_hash st id i p q).
Qed.

(** The block was loaded: everybody who waits for it gets it. *)
Lemma served_gets st s lru ix xs xs' id i p e d :
  let h := pg_hash p in let b := mk_block (exact_buffer d) (exact_buffer h) in
  let kept := filter (fun p => at_location st id i p = false) (bc_pending_gets st) in
  bc_inv st -> good (ent st) (block_at (bc_sections st)) xs (bc_pending_gets st) ->
  p ∈ bc_pending_gets st -> at_location st id i p = true -> ent st h = Some e -> stored_at (block_at (bc_sections st)) e = Some d ->
  lru_abs lru xs' -> (forall x, x ∈ xs' -> x = (h, (b, entry_live h)) \/ x ∈ xs) -> ix_ok ix -> same_entries (ent st) (index_find ix) ->
  s = with_index (st <| bc_lru := lru |>) ix -> gets st (s <| bc_pending_gets := kept |>).
Proof.
  intros h b kept Hi Hg Hp Hat He Hd Hl Hsub Hok Hs ->.
  assert (forall q, q ∈ kept -> q ∈ bc_pending_gets st /\ pg_hash q <> h) as Hk.
  { intros q [Hq Hin]%list_elem_of_filter. split; [done|]. intros E. apply (at_location_hash st id i p q Hi Hp Hin) in E; congruence. }
  assert (gets st (st <| bc_pending_gets := kept |>)) as G by (apply gets_fewer; [done|]; intros q Hq; by apply Hk).
  assert (updates (st <| bc_pending_gets := kept |>) (ent st) (with_index (st <| bc_pending_gets := kept |> <| bc_lru := lru |>) ix)) as U.
  { apply (updates_memory _ lru ix xs' (ge_inv _ _ G)); try done. eapply (load_good (ent st) _ _ xs xs'); try done.
    unfold data_of. rewrite He. exact Hd. }
  replace (_ <| bc_pending_gets := kept |>) with (with_index (st <| bc_pending_gets := kept |> <| bc_lru := lru |>) ix) by (by destruct st).
  by eapply gets_frame.
Qed.

Lemma wp_handle_read_result env st id i data :
  bc_inv st -> is_u64 (env_time env) -> (forall d d', data = Some d -> block_at (bc_sections st) id i = Some d' -> d = d') ->
  wp (cache_handle_read_result id i data) env st (fun _ st' es =>
    gets st st' /\ read_spec (view st) (waiting st) data es (waiting st') /\
    bc_pending_gets st' = filter (fun p => at_location st id i p = false) (bc_pending_gets st)).
Proof.
  intros Hi Ht Hdata. unfold cache_handle_read_result. set (ps := bc_pending_gets st).
  destruct data as [d|]; [|rewrite wp_mret; apply wp_serve_none; [done|by left]].
  unfold load_block. rewrite wp_bind, wp_state. pose proof (find_pending_spec (at_location st id i) ps) as Hfind. fold ps.
  destruct (_block_cache_find_pending_get _ ps) as [[p rest]|].
  2: { apply wp_ret. apply wp_serve_none; [done|]. right. by apply filter_none. }
  destruct Hfind as (l1 & l2 & Eps & -> & Hat & Hl1). assert (p ∈ ps) as Hp by (rewrite Eps; set_solver).
  destruct (pending_entry st p Hi Hp) as (e & Hr & He). destruct (view_known st _ e Hi He) as (d' & Hd & Hv & Hb & Hlegal).
  destruct (entry_fields st _ e Hi He) as [Hwf Hh]. rewrite Hr, (wp_read_entry _ _ _ _ e) by done.
  assert (d = d') as ->.
  { apply (Hdata d d' eq_refl). apply at_location_true in Hat as (e' & He' & Hloc); [|done..]. rewrite He in He'. injection He' as <-.
    unfold stored_at, located in *. injection Hloc as H1 H2. by rewrite H1, H2, Nat2Z.id in Hd. }
  rewrite Hh, verified_spec by (done || by rewrite <- Hh; apply Hwf). pose proof Hi as [_ _ _ (xs & Hl & Hg)].
  destruct (g_waiting _ _ _ _ Hg p Hp) as (_ & _ & Hk).
  eapply (wp_lru_cache_put _ _ _ _ _ (pg_hash p) xs); [apply Hi|done|by apply find_key_absent|done|intros x; by apply (cached_live _ _ _ _ _ Hg)|done|].
  intros lru ix xs' Hl' Hsub Hok Hs. rewrite wp_modify. apply wp_ret.
  eapply wp_mono; [apply (wp_serve env st); [done..|cbn; fold ps; rewrite Eps; set_solver|]|].
  { intros b. cbn [bc_pending_gets set]. fold ps. rewrite Eps. by apply filter_first. }
  intros _ st' es (-> & ->). fold ps. split_and!; [|cbn [app]|done].
  - by apply (served_gets st (with_index (st <| bc_lru := lru |>) ix) lru ix xs xs' id i p e d').
  - unfold waiting at 2. cbn [bc_pending_gets set]. change (fun p => (pg_hash p, pg_reply_to p)) with requester.
    destruct (waiting_split st id i Hi) as [[E _]|(q & Hq & Hatq & Hw1 & Hw2)].
    { fold ps in E. assert (p ∈ filter (fun p => at_location st id i p = true) ps) as Hin by (by apply list_elem_of_filter).
      rewrite E in Hin. by apply not_elem_of_nil in Hin. }
    fold ps in Hw1, Hw2, Hq.
    assert (pg_hash q = pg_hash p) as Eq by (by apply (at_location_hash st id i p q)).
    rewrite Eq in *. rewrite Hw2. erewrite (answers_served st _ (pg_hash p)); [|done|done|exact Hv|].
    + rewrite Hw1. exact (read_served _ _ (Some d') _ _ Hv).
    + intros q' [Hq' Hin]%list_elem_of_filter. destruct (pending_entry st q' Hi Hin) as (? & -> & _). split; [done|].
      by apply (at_location_hash st id i p q').
Qed.
End Store.
