(* ===== verification/BlockCacheActor.v ===== *)
(** * BlockCacheActor: the messages that remove blocks and change claims

    Continues [BlockCacheStore] with the messages that remove blocks, change
    claims and pins, sweep and end a group of puts, and with the order of the
    listings. *)

From Stdlib Require Import SpecFloat.
From stdpp Require Import gmap sorting.
From S2P Require Import Prelude Cbor Buffer Block Bloom ElasticBloom DList Lru Effect.
From S2P Require Import Platform FreeMap Section Sections SectionsStore Wal Fibonacci IndexEntry Index IndexMap IndexStore.
From S2P Require Import BlockCache BlockCacheStore.
Local Open Scope Z_scope.

Section Actor.
Context {C : Cbor} {CS : CborSerial} {X : Xxh32} {X64 : Xxh64} {X3 : Xxh3} {B3 : Blake3}.

(** ** CACHE_REMOVE *)

Lemma wp_find_entry {B} env st (Q : B -> block_cache_t -> list bc_event -> Prop) h (k : option entry_ref -> M B) :
  bc_inv st ->
  wp (find_entry h ≫= k) env st Q <-> wp (k (match ent st h with Some _ => Some (entry_live h) | None => None end)) env st Q.
Proof.
  intros Hi. pose proof Hi as [_ _ _ (xs & Hl & Hg)]. rewrite wp_bind. unfold find_entry. rewrite wp_state, (peek_refines _ xs) by done.
  rewrite wp_lift. destruct (find_key h xs) as [[b r]|] eqn:E; cbn [fmap option_fmap option_map snd].
  - destruct (g_cached _ _ _ _ Hg h b r (find_key_in _ _ _ E)) as (-> & _ & Hd). rewrite wp_ret. unfold data_of in Hd.
    by destruct (ent st h).
  - rewrite <- (wp_peek env st Q h k Hi). by rewrite wp_bind.
Qed.

(** The result of a removal and the blocks that remain. *)
Definition remove_spec (v : bytes -> option cached) (h : bytes) (force : bool) : Z * (bytes -> option cached) :=
  match v h with
  | None => (0, v)
  | Some c =>
      if (0 <? c_claims c) && negb force then (CACHE_REMOVE_EPHEMERAL_CLAIMED, v)
      else if (0 <? c_pins c) && negb force then (CACHE_REMOVE_PINNED, v)
      else (0, set_view v h None)
  end.

Lemma wp_drop_pins {B} env st (Q : B -> block_cache_t -> list bc_event -> Prop) h e (k : unit -> M B) :
  bc_inv st -> ent st h = Some e ->
  (forall st' e', updates st (map_set (ent st) h (Some e')) st' -> ent st' h = Some e' -> located e' = located e -> wp (k tt) env st' Q) ->
  wp (drop_pins (entry_live h) ≫= k) env st Q.
Proof.
  intros Hi He Hk. unfold drop_pins. rewrite wp_bind, (wp_read_entry _ _ _ _ e) by done. unfold when. destruct (0 <? ie_pin_count e).
  - apply wp_tail. eapply wp_write_logged; [done..|by apply keeps_pin|done|]. intros st' U He'. apply wp_ret. by apply (Hk st' (set_pin e 0)).
  - apply wp_ret. apply (Hk st e); [|done..]. destruct (updates_refl st Hi) as [I F S]. split; [done..|]. intros h'. unfold map_set.
    case_decide; [subst h'; by rewrite He|done].
Qed.

(** A block leaves the cache, whatever its pins. *)
Lemma wp_force_delete {B} env st (Q : B -> block_cache_t -> list bc_event -> Prop) h (force : bool) (k : unit -> M B) :
  bc_inv st -> is_Some (ent st h) -> not_waiting st h ->
  (forall st', updates st (map_set (ent st) h None) st' -> wp (k tt) env st' Q) ->
  wp (when force (drop_pins (entry_live h)) ≫= fun _ => _block_cache_delete_entry h (entry_live h) ≫= k) env st Q.
Proof.
  intros Hi [e He] Hw Hk. assert (forall st1 e', updates st (map_set (ent st) h (Some e')) st1 -> ent st1 h = Some e' ->
    wp (_block_cache_delete_entry h (entry_live h) ≫= k) env st1 Q) as Hdel.
  { intros st1 e' U1 He1. eapply wp_delete_entry; [apply U1|by eexists| |].
    - rewrite (fr_pending _ _ (up_frame _ _ _ U1)). exact Hw.
    - intros st2 U2. apply Hk. eapply updates_trans; [exact U1|]. destruct U2 as [I2 F2 S2]. split; [done..|].
      intros h'. rewrite S2. unfold map_set. case_decide; [done|]. rewrite (up_entries _ _ _ U1). unfold map_set. by rewrite decide_False. }
  destruct force; cbn [when].
  - eapply wp_drop_pins; [done..|]. intros st' e' U He' _. by eapply Hdel.
  - rewrite wp_mret. eapply Hdel; [|exact He]. destruct (updates_refl st Hi) as [I F S]. split; [done..|]. intros h'. unfold map_set.
    case_decide; [subst h'; by rewrite He|done].
Qed.

(** Only entries, the blocks in memory and the counters changed. *)
Record edits (st : block_cache_t) (v : bytes -> option cached) (st' : block_cache_t) : Prop := {
  ed_inv : bc_inv st';
  ed_frame : frame st st';
  ed_view : same_view v (view st')
}.

Lemma edits_refl st : bc_inv st -> edits st (view st) st.
Proof. intros Hi. split; [done|apply frame_refl|done]. Qed.

Lemma updates_edits_unset st h st' : updates st (map_set (ent st) h None) st' -> edits st (set_view (view st) h None) st'.
Proof. intros U. split; [apply U|apply U|by apply updates_unset]. Qed.

Lemma wp_handle_remove env st h rt force :
  bc_inv st -> not_waiting st h ->
  wp (cache_handle_remove h rt force) env st (fun p st' es =>
    let '(result, v) := remove_spec (view st) h force in
    p = remove_result result /\ es = replies rt (fun to => ev_remove_result to result) /\ edits st v st').
Proof.
  intros Hi Hw. unfold cache_handle_remove, remove_spec. rewrite wp_find_entry by done.
  assert (forall st1 r v, edits st v st1 -> wp (reply rt (fun to => ev_remove_result to r);; mret (remove_result r)) env st1
    (fun p st' es => p = remove_result r /\ es = replies rt (fun to => ev_remove_result to r) /\ edits st v st')) as Hend.
  { intros st1 r v E. rewrite wp_reply by done. apply wp_ret. by rewrite app_nil_r. }
  destruct (ent st h) as [e|] eqn:He.
  - destruct (view_known st h e Hi He) as (d & _ & -> & _). cbn [c_claims c_pins]. rewrite wp_bind, (wp_read_entry _ _ _ _ e) by done.
    destruct ((0 <? ie_ephemeral_count e) && negb force); [by apply wp_ret, Hend, edits_refl|].
    destruct ((0 <? ie_pin_count e) && negb force); [by apply wp_ret, Hend, edits_refl|].
    eapply wp_force_delete; [done|by eexists|done|]. intros st' U. apply wp_ret, Hend. by apply updates_edits_unset.
  - rewrite (proj2 (view_none st h Hi) He). rewrite wp_mret. by apply Hend, edits_refl.
Qed.

(** ** Claims and pins *)

Definition with_claims (c : cached) (n : Z) : cached := mk_cached (c_data c) (c_fib c) n (c_pins c).
Definition with_pins (c : cached) (n : Z) : cached := mk_cached (c_data c) (c_fib c) (c_claims c) n.

(** The result, the counts before and after, and the blocks.  The last release
    deletes the block. *)
Definition ephemeral_spec (v : bytes -> option cached) (h : bytes) (op : cache_ephemeral_op_e) : Z * Z * Z * (bytes -> option cached) :=
  match v h with
  | None => (CACHE_EPHEMERAL_NOT_FOUND, 0, 0, v)
  | Some c =>
      let n := c_claims c in
      match op with
      | CACHE_EPHEMERAL_ACQUIRE =>
          if n =? U16_MAX then (CACHE_EPHEMERAL_OVERFLOW, n, n, v)
          else (CACHE_EPHEMERAL_OK, n, n + 1, set_view v h (Some (with_claims c (n + 1))))
      | CACHE_EPHEMERAL_RELEASE =>
          if 0 <? n then (CACHE_EPHEMERAL_OK, n, n - 1, set_view v h (if n - 1 =? 0 then None else Some (with_claims c (n - 1))))
          else (CACHE_EPHEMERAL_OK, n, 0, v)
      | CACHE_EPHEMERAL_CLEAR => (CACHE_EPHEMERAL_OK, n, 0, if 0 <? n then set_view v h (Some (with_claims c 0)) else v)
      end
  end.

Definition pin_spec (pin : bool) (v : bytes -> option cached) (h : bytes) : Z * Z * Z * (bytes -> option cached) :=
  match v h with
  | None => (CACHE_EPHEMERAL_NOT_FOUND, 0, 0, v)
  | Some c =>
      let n := c_pins c in
      let n' := if pin then Z.min (n + 1) U32_MAX else Z.max 0 (n - 1) in
      (CACHE_EPHEMERAL_OK, n, n', set_view v h (Some (with_pins c n')))
  end.

Lemma wp_set_claims {B} env st (Q : B -> block_cache_t -> list bc_event -> Prop) h e c n (k : unit -> M B) :
  bc_inv st -> ent st h = Some e -> view st h = Some c -> is_u16 n ->
  (forall st', updates st (map_set (ent st) h (Some (set_ephemeral e n))) st' -> ent st' h = Some (set_ephemeral e n) ->
    edits st (set_view (view st) h (Some (with_claims c n))) st' -> wp (k tt) env st' Q) ->
  wp (write_entry (entry_live h) (fun e => set_ephemeral e n) ≫= fun _ => log_metadata (entry_live h) ≫= k) env st Q.
Proof.
  intros Hi He Hv Hn Hk. rewrite <- wp_assoc. destruct (view_known st h e Hi He) as (d & Hd & Hv' & _). rewrite Hv in Hv'. injection Hv' as ->.
  eapply wp_write_logged; [done..|by apply keeps_ephemeral|done|]. intros st' U He'. apply Hk; [done..|].
  split; [apply U|apply U|]. by apply (updates_set st h (set_ephemeral e n) st' d).
Qed.

Lemma wp_handle_ephemeral env st h rt op :
  bc_inv st -> (op = CACHE_EPHEMERAL_RELEASE -> not_waiting st h) ->
  wp (cache_handle_ephemeral h rt op) env st (fun _ st' es =>
    let '(result, previous, new, v) := ephemeral_spec (view st) h op in
    es = replies rt (fun to => ev_ephemeral_result to result previous new h) /\ edits st v st').
Proof.
  intros Hi Hw. unfold cache_handle_ephemeral, ephemeral_spec. rewrite wp_find_entry by done.
  assert (forall st1 r p n v, edits st v st1 -> wp (reply rt (fun to => ev_ephemeral_result to r p n h);; mret other_result) env st1
    (fun _ st' es => es = replies rt (fun to => ev_ephemeral_result to r p n h) /\ edits st v st')) as Hend.
  { intros st1 r p n v E. rewrite wp_reply by done. apply wp_ret. by rewrite app_nil_r. }
  destruct (ent st h) as [e|] eqn:He.
  2: { rewrite (proj2 (view_none st h Hi) He). rewrite wp_mret. by apply Hend, edits_refl. }
  destruct (view_known st h e Hi He) as (d & _ & Hv & _). destruct (entry_fields st h e Hi He) as [Hwf _].
  pose proof (ewf_ephemeral e Hwf) as Hu. rewrite Hv. cbn [c_claims]. rewrite wp_bind, (wp_read_entry _ _ _ _ e) by done. cbv zeta.
  destruct op.
  - destruct (Z.eqb_spec (ie_ephemeral_count e) U16_MAX) as [|Hne]; [by apply wp_ret, Hend, edits_refl|].
    eapply wp_set_claims; [done..|unfold is_u16, U16_MAX in *; lia|]. intros st' _ _ E. by apply wp_ret, Hend.
  - destruct (Z.ltb_spec 0 (ie_ephemeral_count e)) as [Hlt|Hge]; [|by apply wp_ret, Hend, edits_refl].
    eapply wp_set_claims; [done..|unfold is_u16 in *; lia|]. intros st1 U1 He1 E1. unfold when.
    destruct (ie_ephemeral_count e - 1 =? 0); [|rewrite wp_mret; by apply wp_ret, Hend].
    eapply wp_delete_entry; [apply U1|by eexists| |].
    { rewrite (fr_pending _ _ (up_frame _ _ _ U1)). by apply Hw. }
    intros st2 U2. apply wp_ret, Hend. destruct (updates_edits_unset _ _ _ U2) as [I2 F2 V2].
    split; [done|eapply frame_trans; [apply E1|done]|]. eapply set_view_same; [apply E1|exact V2].
  - unfold when. destruct (0 <? ie_ephemeral_count e); [|rewrite wp_mret; by apply wp_ret, Hend, edits_refl].
    rewrite wp_assoc. eapply wp_set_claims; [done..|]. intros st' _ _ E. by apply wp_ret, Hend.
Qed.

Lemma wp_handle_pin env st pin h rt :
  bc_inv st ->
  wp (cache_handle_pin pin h rt) env st (fun _ st' es =>
    let '(result, previous, new, v) := pin_spec pin (view st) h in
    es = replies rt (fun to => ev_pin_result pin to result previous new) /\ edits st v st').
Proof.
  intros Hi. unfold cache_handle_pin, pin_spec. rewrite wp_find_entry by done.
  assert (forall st1 r p n v, edits st v st1 ->
    wp (reply rt (fun to => ev_pin_result pin to r p n);; when (negb pin && (r =? CACHE_EPHEMERAL_OK)) block_cache_update_capacity;; mret other_result) env st1
    (fun _ st' es => es = replies rt (fun to => ev_pin_result pin to r p n) /\ edits st v st')) as Hend.
  { intros st1 r p n v E. rewrite wp_reply by done. unfold when. case_match.
    - apply wp_update_capacity. intros b. apply wp_ret. rewrite app_nil_r. split; [done|]. destruct E as [I F V].
      destruct (updates_shed st1 b I) as [I' F' S']. split; [done|by eapply frame_trans|]. intros h'. by rewrite <- V.
    - rewrite wp_mret. apply wp_ret. by rewrite app_nil_r. }
  destruct (ent st h) as [e|] eqn:He.
  2: { rewrite (proj2 (view_none st h Hi) He). rewrite wp_mret. by apply Hend, edits_refl. }
  destruct (view_known st h e Hi He) as (d & Hd & Hv & _). destruct (entry_fields st h e Hi He) as [Hwf _].
  pose proof (ewf_pin e Hwf) as Hu. rewrite Hv. cbn [c_pins]. rewrite wp_bind, (wp_read_entry _ _ _ _ e) by done. cbv zeta.
  set (n := if pin then _ else _).
  assert (n = if pin then Z.min (ie_pin_count e + 1) U32_MAX else Z.max 0 (ie_pin_count e - 1)) as En.
  { unfold n, is_u32, U32_MAX in *. destruct pin; [destruct (Z.eqb_spec (ie_pin_count e) (2 ^ 32 - 1)); lia|].
    destruct (Z.ltb_spec 0 (ie_pin_count e)); lia. }
  rewrite <- En. rewrite <- wp_assoc. eapply wp_write_logged; [done..| |done|].
  { apply keeps_pin. rewrite En. unfold is_u32, U32_MAX in *. destruct pin; lia. }
  intros st' U _. apply wp_ret, Hend. split; [apply U|apply U|]. by apply (updates_set st h (set_pin e n) st' d).
Qed.

(** ** Sweeps *)

Definition without (hs : list bytes) (v : bytes -> option cached) : bytes -> option cached :=
  fun h => if decide (h ∈ hs) then None else v h.

Lemma edits_trans st v1 st1 st2 hs :
  edits st v1 st1 -> edits st1 (without hs (view st1)) st2 -> edits st (without hs v1) st2.
Proof.
  intros [I1 F1 V1] [I2 F2 V2]. split; [done|by eapply frame_trans|]. intros h. rewrite V2. unfold without. case_decide; [done|apply V1].
Qed.

Lemma edits_view st v v' st' : edits st v st' -> (forall h, v h = v' h) -> edits st v' st'.
Proof. intros [I F V] Hv. split; [done|done|]. intros h. by rewrite <- Hv. Qed.

Definition gc_kept (keep : option elastic_bloom_filter_t) (h : bytes) : bool :=
  match keep with Some filter => elastic_bloom_filter_contains filter h | None => false end.

(** The blocks a sweep deletes. *)
Definition gc_dooms (keep : option elastic_bloom_filter_t) (force : bool) (h : bytes) (c : cached) : bool :=
  negb (gc_kept keep h) && (force || ((c_claims c <=? 0) && (c_pins c <=? 0))).

Definition gc_tally (keep : option elastic_bloom_filter_t) (force : bool) (r : cache_gc_result) (x : bytes * cached) : cache_gc_result :=
  let '(mk_gc_result deleted kept pinned claimed total) := r in
  if gc_kept keep x.1 then mk_gc_result deleted (S kept) pinned claimed (S total)
  else if gc_dooms keep force x.1 x.2 then mk_gc_result (S deleted) kept pinned claimed (S total)
  else if 0 <? c_claims x.2 then mk_gc_result deleted kept pinned (S claimed) (S total)
  else mk_gc_result deleted kept (S pinned) claimed (S total).

(** What the sweep sees of an entry. *)
Definition summary (e : index_entry_t) : bytes * cached := (ie_hash e, mk_cached [] (fib_of e) (ie_ephemeral_count e) (ie_pin_count e)).
Definition doomed (keep : option elastic_bloom_filter_t) (force : bool) (es : list index_entry_t) : list bytes :=
  ie_hash <$> filter (fun e => gc_dooms keep force (ie_hash e) (summary e).2 = true) es.

(** The branches of [gc_entry]. *)
Lemma gc_entry_cases keep force r e :
  if gc_dooms keep force (ie_hash e) (summary e).2 then
    gc_entry keep force r e = (_block_cache_delete_entry (ie_hash e) (entry_live (ie_hash e));; mret (gc_tally keep force r (summary e)))
  else gc_entry keep force r e = mret (gc_tally keep force r (summary e)).
Proof.
  destruct r as [deleted kept pinned claimed total]. unfold gc_entry, gc_tally, gc_dooms. cbn [fst snd summary c_claims c_pins].
  fold (gc_kept keep (ie_hash e)). destruct (gc_kept keep (ie_hash e)); [done|].
  rewrite (Z.leb_antisym 0 (ie_ephemeral_count e)), (Z.leb_antisym 0 (ie_pin_count e)).
  by destruct force, (0 <? ie_ephemeral_count e), (0 <? ie_pin_count e).
Qed.

Lemma wp_gc_sweep env keep force entries : forall st r,
  bc_inv st -> NoDup (ie_hash <$> entries) -> (forall e, e ∈ entries -> is_Some (ent st (ie_hash e))) ->
  (forall h, h ∈ doomed keep force entries -> not_waiting st h) ->
  wp (gc_sweep keep force entries r) env st (fun r' st' es =>
    es = [] /\ r' = foldl (gc_tally keep force) r (summary <$> entries) /\ edits st (without (doomed keep force entries) (view st)) st').
Proof.
  induction entries as [|e entries IH]; intros st r Hi Hn He Hw; cbn [gc_sweep].
  { apply wp_ret. split_and!; [done..|]. eapply edits_view; [by apply edits_refl|]. intros h. unfold without. by rewrite decide_False by apply not_elem_of_nil. }
  apply NoDup_cons in Hn as [Hnot Hn]. pose proof (gc_entry_cases keep force r e) as Hcase. unfold doomed in *. rewrite filter_cons in *.
  destruct (gc_dooms keep force (ie_hash e) (summary e).2) eqn:Ed; rewrite Hcase; cbn [decide] in *.
  - rewrite (decide_True (P := true = true)) in * by done. cbn [fmap list_fmap] in *. rewrite wp_assoc.
    eapply wp_delete_entry; [done|apply He; set_solver|apply Hw; set_solver|]. intros st1 U1. rewrite wp_mret.
    destruct (updates_edits_unset _ _ _ U1) as [I1 F1 V1]. eapply wp_mono; [apply IH; try done|].
    + intros e' Hin. assert (ie_hash e' <> ie_hash e) as Hne by (intros E; apply Hnot; rewrite <- E; by apply list_elem_of_fmap_2).
      destruct (He e' ltac:(set_solver)) as [x Hx]. pose proof (up_entries _ _ _ U1 (ie_hash e')) as S. unfold map_set in S.
      rewrite decide_False, Hx in S by done. by destruct (ent st1 (ie_hash e')).
    + intros h Hin. unfold not_waiting. rewrite (fr_pending _ _ F1). apply Hw. set_solver.
    + intros r' st' es (-> & -> & E). split_and!; [done..|]. eapply edits_view; [eapply edits_trans; [split; [exact I1|exact F1|exact V1]|exact E]|].
      intros h. unfold without, set_view. destruct (decide (h ∈ _)) as [Hin|Hin]; [by rewrite decide_True by set_solver|].
      case_decide as Eh; [by rewrite decide_True by set_solver|]. by rewrite decide_False by set_solver.
  - rewrite (decide_False (P := false = true)) in * by done. rewrite wp_mret. apply IH; try done. intros e' Hin. apply He. set_solver.
Qed.

(** Every block once. *)
Definition listing (v : bytes -> option cached) (l : list (bytes * cached)) : Prop :=
  NoDup l.*1 /\ forall h c, (h, c) ∈ l <-> v h = Some c.

Lemma entries_listing st :
  bc_inv st -> exists l, listing (view st) l /\
    Forall2 (fun e x => ent st (ie_hash e) = Some e /\ x.1 = ie_hash e /\ view st (ie_hash e) = Some x.2 /\
      c_claims x.2 = ie_ephemeral_count e /\ c_pins x.2 = ie_pin_count e /\ c_fib x.2 = fib_of e) (index_to_array (the_index st)) l.
Proof.
  intros Hi. pose proof (bi_index st Hi) as [Hwf _]. destruct (hashes_spec _ Hwf) as (Hn & Hin & _). unfold hashes in *.
  set (es := index_to_array (the_index st)) in *. assert (forall e, e ∈ es -> ent st (ie_hash e) = Some e) as Hes.
  { intros e He. apply (to_array_find _ _ _ _ _ (proj2 Hwf)) in He. exact He. }
  exists ((fun e => (ie_hash e, default (summary e).2 (view st (ie_hash e)))) <$> es). split.
  - split.
    + rewrite <- list_fmap_compose. exact Hn.
    + intros h c. rewrite list_elem_of_fmap. split.
      * intros (e & [= -> ->] & He). destruct (view_known st _ e Hi (Hes e He)) as (d & _ & -> & _). done.
      * intros Hv. assert (is_Some (index_find (the_index st) h)) as Hs.
        { change (is_Some (ent st h)). destruct (ent st h) eqn:E; [done|]. apply view_none in E; [congruence|done]. }
        apply Hin in Hs. apply list_elem_of_fmap in Hs as (e & -> & He). exists e. split; [|done]. by rewrite Hv.
  - apply Forall2_fmap_r. apply Forall_Forall2_diag. apply Forall_forall. intros e He. cbn.
    destruct (view_known st _ e Hi (Hes e He)) as (d & _ & Hv & _). rewrite Hv. by split_and!; [apply Hes|..].
Qed.

Definition gc_zero : cache_gc_result := mk_gc_result 0 0 0 0 0.

Definition gc_view (keep : option elastic_bloom_filter_t) (force : bool) (v : bytes -> option cached) : bytes -> option cached :=
  fun h => match v h with Some c => if gc_dooms keep force h c then None else Some c | None => None end.

Lemma tally_listing keep force es l st r :
  Forall2 (fun e x => ent st (ie_hash e) = Some e /\ x.1 = ie_hash e /\ view st (ie_hash e) = Some x.2 /\
      c_claims x.2 = ie_ephemeral_count e /\ c_pins x.2 = ie_pin_count e /\ c_fib x.2 = fib_of e) es l ->
  foldl (gc_tally keep force) r (summary <$> es) = foldl (gc_tally keep force) r l.
Proof.
  intros HF. revert r. induction HF as [|e [h c] es l (_ & Eh & _ & Hc & Hp & _) _ IH]; intros r; [done|]. cbn in Eh, Hc, Hp. subst h. cbn [fmap list_fmap foldl].
  rewrite <- IH. f_equal. destruct r. unfold gc_tally, gc_dooms. cbn. by rewrite Hc, Hp.
Qed.

Lemma doomed_view st keep force h :
  bc_inv st -> h ∈ doomed keep force (index_to_array (the_index st)) <-> exists c, view st h = Some c /\ gc_dooms keep force h c = true.
Proof.
  intros Hi. pose proof (bi_index st Hi) as [Hwf _]. unfold doomed. rewrite list_elem_of_fmap. split.
  - intros (e & -> & [Hd He]%list_elem_of_filter). apply (to_array_find _ _ _ _ _ (proj2 Hwf)) in He.
    destruct (view_known st _ e Hi He) as (d & _ & Hv & _). eexists. split; [exact Hv|]. exact Hd.
  - intros (c & Hv & Hd). destruct (ent st h) as [e|] eqn:He; [|apply view_none in He; [congruence|done]].
    destruct (view_known st h e Hi He) as (d & _ & Hv' & _). rewrite Hv in Hv'. injection Hv' as ->. destruct (entry_fields st h e Hi He) as [_ <-].
    exists e. split; [done|]. apply list_elem_of_filter. split; [exact Hd|]. by apply (to_array_find _ _ _ _ _ (proj2 Hwf)).
Qed.

Lemma wp_handle_gc env st keep force rt :
  bc_inv st -> (forall h c, view st h = Some c -> gc_dooms keep force h c = true -> not_waiting st h) ->
  wp (cache_handle_gc keep force rt) env st (fun _ st' es =>
    (exists l, listing (view st) l /\ es = replies rt (fun to => ev_gc_result to (foldl (gc_tally keep force) gc_zero l))) /\
    edits st (gc_view keep force (view st)) st').
Proof.
  intros Hi Hw. unfold cache_handle_gc. rewrite wp_state, wp_bind. destruct (entries_listing st Hi) as (l & Hl & HF).
  pose proof (bi_index st Hi) as [Hwf _]. destruct (hashes_spec _ Hwf) as (Hn & _ & _).
  eapply wp_mono; [apply wp_gc_sweep; [done..| |]|].
  - intros e He. apply (to_array_find _ _ _ _ _ (proj2 Hwf)) in He. by eexists.
  - intros h (c & Hv & Hd)%doomed_view; [|done]. by eapply Hw.
  - intros r st' es (-> & -> & E). rewrite wp_reply by done. apply wp_ret. rewrite app_nil_r. cbn [app]. split.
    + exists l. split; [done|]. by rewrite (tally_listing _ _ _ l st).
    + eapply edits_view; [exact E|]. intros h. unfold without, gc_view. case_decide as Hin.
      * apply doomed_view in Hin as (c & -> & ->); done.
      * destruct (view st h) as [c|] eqn:Hv; [|done]. destruct (gc_dooms keep force h c) eqn:Hd; [|done].
        destruct Hin. apply doomed_view; [done|]. eauto.
Qed.

(** ** CACHE_PUT_GROUP_END *)

Lemma wp_delete_one {B} env st (Q : B -> block_cache_t -> list bc_event -> Prop) h (k : unit -> M B) :
  bc_inv st -> not_waiting st h ->
  (forall st', edits st (set_view (view st) h None) st' -> wp (k tt) env st' Q) -> wp (delete_recorded h ≫= k) env st Q.
Proof.
  intros Hi Hw Hk. rewrite wp_bind. unfold delete_recorded. rewrite wp_peek by done. destruct (ent st h) as [e|] eqn:He.
  - apply wp_tail. rewrite wp_assoc. apply (wp_force_delete env st _ h true); [done|by eexists|done|]. intros st' U. apply wp_ret. by apply Hk, updates_edits_unset.
  - apply wp_ret. apply Hk. eapply edits_view; [by apply edits_refl|]. intros h'. unfold set_view. case_decide; [subst h'|done]. by apply view_none.
Qed.

Lemma wp_delete_recorded env hs : forall st,
  bc_inv st -> (forall h, h ∈ hs -> not_waiting st h) ->
  wp (for_each delete_recorded hs) env st (fun _ st' es => es = [] /\ edits st (without hs (view st)) st').
Proof.
  induction hs as [|h hs IH]; intros st Hi Hw; cbn [for_each].
  { apply wp_ret. split; [done|]. eapply edits_view; [by apply edits_refl|]. intros h. unfold without. by rewrite decide_False by apply not_elem_of_nil. }
  apply wp_delete_one; [done|apply Hw; set_solver|]. intros st1 E1. eapply wp_mono; [apply IH; [apply E1|]|].
  - intros h' Hin. unfold not_waiting. rewrite (fr_pending _ _ (ed_frame _ _ _ E1)). apply Hw. set_solver.
  - intros _ st' es (-> & E). split; [done|]. eapply edits_view; [eapply edits_trans; [exact E1|exact E]|].
    intros h'. unfold without, set_view. destruct (decide (h' ∈ hs)); [by rewrite decide_True by set_solver|].
    case_decide; [by rewrite decide_True by set_solver|]. by rewrite decide_False by set_solver.
Qed.

(** The blocks after the end of a group. *)
Definition group_end_view (st : block_cache_t) (g : Z) (abort : bool) : bytes -> option cached :=
  match take_group (bc_put_groups st) g with
  | Some (found, _) => if abort && bc_delete_blocks_on_put_failure st then without (gr_hashes found) (view st) else view st
  | None => view st
  end.

Definition group_rest (groups : list bc_put_group_t) (g : Z) : list bc_put_group_t :=
  match take_group groups g with Some (_, rest) => rest | None => groups end.

Lemma wp_group_end env st g abort :
  bc_inv st ->
  (forall found rest, take_group (bc_put_groups st) g = Some (found, rest) -> abort = true -> forall h, h ∈ gr_hashes found -> not_waiting st h) ->
  wp (_put_group_end_dispatch g abort) env st (fun _ st' es =>
    es = [] /\ exists st1, edits st (group_end_view st g abort) st1 /\
      st' = add_tombstone g (st1 <| bc_put_groups := group_rest (bc_put_groups st) g |>)).
Proof.
  intros Hi Hw. unfold _put_group_end_dispatch, group_end_view, group_rest. rewrite wp_state.
  destruct (take_group (bc_put_groups st) g) as [[found rest]|].
  - rewrite wp_assoc. unfold when. destruct (abort && bc_delete_blocks_on_put_failure st) eqn:Ea.
    + apply andb_prop in Ea as [-> _]. rewrite wp_bind. eapply wp_mono; [apply (wp_delete_recorded env (gr_hashes found) st Hi); by eapply Hw|].
      intros _ st1 es (-> & E). rewrite wp_modify. apply wp_tail. rewrite wp_modify. apply wp_ret. cbn [app]. split; [done|]. by exists st1.
    + rewrite wp_mret, wp_modify. apply wp_tail. rewrite wp_modify. apply wp_ret. split; [done|]. exists st. split; [by apply edits_refl|done].
  - rewrite wp_mret. apply wp_tail. rewrite wp_modify. apply wp_ret. split; [done|]. exists st. split; [by apply edits_refl|by destruct st].
Qed.

(** ** Listings *)

Lemma exchange_spec x later :
  let '(best, rest) := exchange x later in (x :: later) ≡ₚ best :: rest /\ Forall (fun y => fib_of y <= fib_of best) (x :: later).
Proof.
  revert x. induction later as [|y later IH]; intros x; cbn [exchange]; [split; [done|]; constructor; [lia|constructor]|].
  destruct (Z.ltb_spec (fib_of x) (fib_of y)) as [Hlt|Hge].
  - specialize (IH y). destruct (exchange y later) as [best rest]. destruct IH as [Hp Hf]. split; [rewrite Hp; apply Permutation_swap|].
    apply Forall_cons in Hf as [Hy Hf]. repeat constructor; [lia|done|done].
  - specialize (IH x). destruct (exchange x later) as [best rest]. destruct IH as [Hp Hf].
    split; [rewrite (Permutation_swap y x later), Hp; apply Permutation_swap|]. apply Forall_cons in Hf as [Hx Hf]. repeat constructor; [lia|lia|done].
Qed.

Definition by_rank (a b : index_entry_t) : Prop := fib_of b <= fib_of a.

Lemma sort_candidates_spec n : forall l, length l = n -> l ≡ₚ sort_candidates n l /\ StronglySorted by_rank (sort_candidates n l).
Proof.
  induction n as [|n IH]; intros l Hl; [destruct l; [by split; [|constructor]|done]|]. destruct l as [|x l]; [done|]. cbn [sort_candidates].
  pose proof (exchange_spec x l) as He. destruct (exchange x l) as [best rest]. destruct He as [Hp Hf].
  destruct (IH rest) as [Hp' Hs]. { apply Permutation_length in Hp. cbn in *. lia. }
  split; [by rewrite Hp, <- Hp'|]. constructor; [done|]. rewrite <- Hp'. rewrite Hp in Hf. by apply Forall_cons in Hf as [_ Hf].
Qed.
End Actor.
