(* ===== verification/BlockCacheSpec.v ===== *)
(** * BlockCacheSpec: the block cache implements its specification

    The messages that resize, save, compact and list, the specification of every
    message of the actor ([cache_step]) and the theorems that the actor of
    [BlockCache] implements it. *)

From Stdlib Require Import SpecFloat.
From stdpp Require Import gmap sorting.
From S2P Require Import Prelude Cbor Buffer Block Bloom ElasticBloom DList Lru Effect.
From S2P Require Import Platform FreeMap Section Sections SectionsStore Wal Fibonacci IndexEntry Index IndexMap IndexStore.
From S2P Require Import BlockCache BlockCacheStore BlockCacheActor.
Local Open Scope Z_scope.

Section Spec.
Context {C : Cbor} {CS : CborSerial} {X : Xxh32} {X64 : Xxh64} {X3 : Xxh3} {B3 : Blake3}.

(** ** Messages that do not touch blocks *)

(** The blocks, the requests that wait, the groups are as before. *)
Record idle (st st' : block_cache_t) : Prop := {
  id_inv : bc_inv st';
  id_view : same_view (view st) (view st');
  id_pending : bc_pending_gets st' = bc_pending_gets st;
  id_groups : bc_put_groups st' = bc_put_groups st;
  id_ended : bc_ended_put_groups st' = bc_ended_put_groups st;
  id_next : bc_ended_put_groups_next st' = bc_ended_put_groups_next st;
  id_flag : bc_delete_blocks_on_put_failure st' = bc_delete_blocks_on_put_failure st
}.

Lemma idle_refl st : bc_inv st -> idle st st.
Proof. by split. Qed.

Lemma idle_trans st1 st2 st3 : idle st1 st2 -> idle st2 st3 -> idle st1 st3.
Proof. intros [] []. split; unfold same_view in *; congruence. Qed.

(** Blocks stay in their slots, and entries with requests that wait keep their
    location. *)
Record kept (st st' : block_cache_t) : Prop := {
  kp_slots : forall id i d, block_at (bc_sections st) id i = Some d -> block_at (bc_sections st') id i = Some d;
  kp_located : forall p, p ∈ bc_pending_gets st -> p ∈ bc_pending_gets st' -> located <$> ent st' (pg_hash p) = located <$> ent st (pg_hash p)
}.

Lemma steady_kept st st' : steady st st' -> kept st st'.
Proof. intros []. by split. Qed.

Lemma same_kept st st' : bc_sections st' = bc_sections st -> (forall h, ent st' h = ent st h) -> kept st st'.
Proof. intros Hs He. split; [by rewrite Hs|]. intros p _ _. by rewrite He. Qed.

Lemma view_entry_stored σ σ' e e' : view_entry σ' e' = view_entry σ e -> stored_at σ' e' = stored_at σ e.
Proof. unfold view_entry. destruct (stored_at σ' e'), (stored_at σ e); cbn; congruence. Qed.

(** The index and the sections are exchanged for others with the same blocks. *)
Lemma rebase st ixs sections :
  bc_inv st -> ix_ok (st_index ixs) -> pool_inv sections -> ss_type sections = ss_type (bc_sections st) ->
  (forall h, view_entry (block_at sections) <$> index_find (st_index ixs) h = view_entry (block_at (bc_sections st)) <$> ent st h) ->
  idle st (st <| bc_index := ixs |> <| bc_sections := sections |>) /\ index_count (st_index ixs) = index_count (the_index st).
Proof.
  intros [Hix Hp Ht (xs & Hl & Hg)] Hok Hp' Ht' Hv. split.
  - split; try done.
    + split; [done|done|cbn; congruence|]. exists xs. split; [done|]. eapply good_same; [|exact Hg]. intros h. specialize (Hv h).
      change (ent (st <| bc_index := ixs |> <| bc_sections := sections |>) h) with (index_find (st_index ixs) h).
      destruct (index_find (st_index ixs) h), (ent st h); try done. cbn. f_equal. apply view_entry_stored. cbn in Hv. congruence.
    + intros h. specialize (Hv h). unfold view.
      change (ent (st <| bc_index := ixs |> <| bc_sections := sections |>) h) with (index_find (st_index ixs) h).
      destruct (index_find (st_index ixs) h), (ent st h); try done. cbn in *. congruence.
  - apply (count_same _ _ (proj1 Hix) (proj1 Hok)). intros h. specialize (Hv h). unfold ent in Hv.
    by destruct (index_find (st_index ixs) h), (index_find (the_index st) h).
Qed.

Lemma wp_index_save env st :
  bc_inv st -> wp (block_cache_dispatch INDEX_SAVE) env st (fun _ st' es => es = [] /\ idle st st' /\ kept st st').
Proof.
  intros Hi. cbn [block_cache_dispatch]. rewrite wp_ask, wp_modify. apply wp_ret. split; [done|].
  destruct (ix_debounce (env_store env) (bc_index st) (bi_index st Hi)) as [Hok Hfind].
  destruct (rebase st (index_debounce (env_store env) (bc_index st)) (bc_sections st) Hi Hok (bi_pool st Hi) eq_refl) as [[] _].
  { intros h. by rewrite Hfind. }
  split; [by split|]. by apply same_kept.
Qed.

Lemma wp_capacity_refresh env st :
  bc_inv st -> wp (block_cache_dispatch CACHE_CAPACITY_REFRESH) env st (fun _ st' es => es = [] /\ idle st st' /\ kept st st').
Proof.
  intros Hi. cbn [block_cache_dispatch]. apply wp_update_capacity. intros b. apply wp_ret. split; [done|].
  destruct (updates_shed st b Hi) as [I F _]. split; [by split|]. by apply same_kept.
Qed.

Lemma pool_set_max sections m : pool_inv sections -> pool_inv (sections_set_max_bytes sections m).
Proof.
  intros [[Hs ? ? ? ? Hr ? ? ? ? ? ?] ? ?]. split; [split; try done|done..].
  - intros id. destruct (Hs id) as (s & E & []). exists s. split; [exact E|]. by split.
Qed.

Lemma wp_resize env st m rt :
  bc_inv st -> wp (block_cache_dispatch (CACHE_RESIZE m rt)) env st (fun _ st' es =>
    es = replies rt (fun to => ev_resize_result to m (bc_current_bytes st')) /\ idle st st' /\ kept st st' /\
    bc_max_capacity_bytes st' = m /\ ss_max_bytes (bc_sections st') = m /\ (0 < m -> drift st' = 0 /\ byte_drift st' = 0)).
Proof.
  intros Hi. pose proof Hi as [Hix Hp Ht (xs & Hl & Hg)].
  assert (forall st', the_index st' = the_index st -> bc_sections st' = sections_set_max_bytes (bc_sections st) m ->
    bc_lru st' = bc_lru st -> bc_pending_gets st' = bc_pending_gets st -> bc_type st' = bc_type st -> bc_inv st' /\ same_view (view st) (view st')) as Hinv.
  { intros st' E1 E2 E3 E4 E5. split.
    - split; [by rewrite E1|rewrite E2; by apply pool_set_max|by rewrite E2, E5|]. exists xs. rewrite E2, E3, E4. split; [done|]. unfold ent. by rewrite E1.
    - intros h. unfold view, ent. by rewrite E1, E2. }
  cbn [block_cache_dispatch]. unfold block_cache_set_max_capacity. rewrite wp_assoc, wp_modify.
  destruct (Z.ltb_spec 0 m) as [Hm|Hm].
  - rewrite wp_assoc, wp_modify. apply wp_update_capacity. intros b. rewrite wp_state, wp_reply by done. apply wp_ret. rewrite app_nil_r.
    split; [done|]. match goal with |- idle st ?s /\ _ => destruct (Hinv s) as [I V]; try done end.
    split_and!; [by split|by split|done|done|]. intros _. unfold drift, byte_drift. cbn. unfold the_index. cbn. rewrite u64_sub_l, !Z.sub_diag. done.
  - rewrite wp_mret, wp_state, wp_reply by done. apply wp_ret. rewrite app_nil_r. split; [done|].
    match goal with |- idle st ?s /\ _ => destruct (Hinv s) as [I V]; try done end. split_and!; [by split|by split|done|done|lia].
Qed.

(** ** CACHE_DEFRAGMENT *)

(** A function that keeps the entry of the hash well formed. *)
Lemma ix_update_at ix h e f :
  ix_ok ix -> index_find ix h = Some e -> entry_wf (f e) -> ie_hash (f e) = ie_hash e ->
  ix_ok (update_entry ix h f) /\ forall h', index_find (update_entry ix h f) h' = map_set (index_find ix) h (Some (f e)) h'.
Proof.
  intros Hok He Hwf Hh. pose proof Hok as [[_ Hnode] _]. set (g := fun e0 => if decide (e0 = e) then f e else e0).
  assert (g e = f e) as Eg by (unfold g; by rewrite decide_True).
  assert (update_entry ix h f = update_entry ix h g) as ->.
  { unfold update_entry. f_equal. rewrite <- (update_const _ _ _ _ _ e f Hnode He), <- (update_const _ _ _ _ _ e g Hnode He). by rewrite Eg. }
  destruct (ix_update ix h g Hok) as [Hok' Hfind].
  { intros e0 He0. unfold g. case_decide; [subst e0|]; done. }
  split; [done|]. intros h'. by rewrite Hfind, He, <- Eg.
Qed.

(** Every entry of the list is rewritten. *)
Lemma wp_rewrite_entries {B} env f es : forall st (Q : B -> block_cache_t -> list bc_event -> Prop) (k : unit -> M B),
  ix_ok (the_index st) -> NoDup (ie_hash <$> es) ->
  (forall e, e ∈ es -> ent st (ie_hash e) = Some e /\ entry_wf (f e) /\ ie_hash (f e) = ie_hash e) ->
  (forall ix, ix_ok ix -> (forall h, index_find ix h = if decide (h ∈ ie_hash <$> es) then f <$> ent st h else ent st h) -> wp (k tt) env (with_index st ix) Q) ->
  wp (for_each (fun e => write_entry (entry_live (ie_hash e)) f) es ≫= k) env st Q.
Proof.
  induction es as [|e es IH]; intros st Q k Hok Hn Hes Hk; cbn [for_each].
  { rewrite wp_mret. rewrite <- (with_index_id st). apply Hk; [done|]. intros h. by rewrite decide_False by (cbn; set_solver). }
  apply NoDup_cons in Hn as [Hnot Hn]. destruct (Hes e ltac:(set_solver)) as (He & Hwf & Hh).
  destruct (ix_update_at (the_index st) (ie_hash e) e f Hok He Hwf Hh) as [Hok1 Hfind1].
  rewrite wp_assoc. apply (wp_modify env st Q). apply IH; [done|done|..].
  - intros e' Hin. destruct (Hes e' ltac:(set_solver)) as (He' & ?). split; [|done]. rewrite ent_with, Hfind1. unfold map_set.
    rewrite decide_False; [exact He'|]. intros E. apply Hnot. rewrite <- E. by apply list_elem_of_fmap_2.
  - intros ix Hix Hfind. apply (Hk ix Hix). intros h. rewrite Hfind, ent_with, Hfind1. unfold map_set. cbn [fmap list_fmap].
    destruct (decide (h = ie_hash e)) as [->|Hne].
    + rewrite decide_False by done. rewrite decide_True by set_solver. by rewrite He.
    + destruct (decide (h ∈ ie_hash <$> es)); [rewrite decide_True by set_solver|rewrite decide_False by set_solver]; done.
Qed.

Lemma relocate_place R e :
  0 <= ie_section_index e -> relocate R e = set_location e (ie_section_id e) (place R (ie_section_id e) (Z.to_nat (ie_section_index e))).
Proof.
  intros Hn. induction R as [|r R IH]; cbn [relocate place].
  - rewrite Z2Nat.id by done. by destruct e.
  - rewrite IH. destruct (Z.eqb_spec (ie_section_id e) (rl_section_id r)); cbn [andb]; [|by rewrite decide_False by naive_solver].
    destruct (Z.eqb_spec (ie_section_index e) (Z.of_nat (rl_old_index r))); [|by rewrite decide_False by lia].
    by rewrite decide_True by lia.
Qed.

(** The entries after a compaction lead to the same data. *)
Lemma relocate_entry st sections R h e :
  bc_inv st -> pool_inv sections -> ss_next_id sections < 2 ^ 64 ->
  (forall id i, is_Some (block_at (bc_sections st) id i) ->
    0 <= place R id i /\ block_at sections id (Z.to_nat (place R id i)) = block_at (bc_sections st) id i) ->
  ent st h = Some e ->
  entry_wf (relocate R e) /\ ie_hash (relocate R e) = ie_hash e /\
  view_entry (block_at sections) (relocate R e) = view_entry (block_at (bc_sections st)) e.
Proof.
  intros Hi Hp Hids HR He. destruct (entry_fields st h e Hi He) as [Hwf _]. destruct (view_known st h e Hi He) as (d & Hd & _).
  rewrite relocate_place by apply Hwf. unfold stored_at in Hd. destruct (HR (ie_section_id e) (Z.to_nat (ie_section_index e))) as [Hn Hat]; [by rewrite Hd|].
  rewrite Hd in Hat. destruct (block_range _ _ _ _ Hp Hids Hat) as [_ Hr]. rewrite Z2Nat.id in Hr by done.
  split_and!; [destruct Hwf; by split|done|]. unfold view_entry, stored_at. cbn. by rewrite Hat, Hd.
Qed.

Lemma wp_handle_defragment env st threshold rt visit :
  bc_inv st -> meta_ok (env_io env) -> room_for_ids (bc_sections st) -> NoDup visit -> (forall id, env_io env id = io_ok) ->
  wp (cache_handle_defragment threshold rt visit) env st (fun _ st' es =>
    idle st st' /\ exists n moved, es = replies rt (fun to => ev_defragment_result to 0 n moved)).
Proof.
  intros Hi Hio Hids Hn Hok. unfold cache_handle_defragment. rewrite wp_ask.
  destruct (dispatch_pool (env_io env) (bc_sections st) (SECTIONS_DEFRAGMENT threshold None visit) (bi_pool st Hi) Hids) as (sections & p & evs & E & P & S); [done|].
  inversion S as [| | | | | | |? ? ? n R ? HR _|]; subst. clear S. eapply wp_to_sections; [exact E|]. rewrite wp_state. cbn [Z.eqb andb].
  assert (pool_inv sections) as Hp by (eapply pool_ok_inv; [apply Hi|exact P]). destruct (po_config _ _ _ P) as (_ & _ & _ & Hty & _).
  assert (ss_next_id sections < 2 ^ 64) as Hmax by (pose proof (po_next _ _ _ P); unfold room_for_ids, id_budget in *; lia).
  pose proof (relocate_entry st sections R) as Hrel.
  assert (forall st1, idle st st1 -> forall moved, wp (reply rt (fun to => ev_defragment_result to 0 n moved);; mret other_result) env st1
    (fun _ st' es => idle st st' /\ exists n moved, es = replies rt (fun to => ev_defragment_result to 0 n moved))) as Hend.
  { intros st1 I1 moved. rewrite wp_reply by done. apply wp_ret. rewrite app_nil_r. split; [done|]. by eexists _, _. }
  unfold when. destruct (Nat.ltb_spec 0 (length R)) as [Hlen|Hlen].
  - rewrite wp_assoc. destruct (hashes_spec _ (proj1 (bi_index st Hi))) as (Hnd & Hin & _). unfold hashes in *.
    change (the_index (st <| bc_sections := sections |>)) with (the_index st). apply wp_rewrite_entries; [apply Hi|done| |].
    { intros e He. apply (to_array_find _ _ _ _ _ (proj2 (proj1 (bi_index st Hi)))) in He. split; [exact He|]. by destruct (Hrel _ e Hi Hp Hmax HR He) as (? & ? & _). }
    intros ix Hix Hfind. rewrite wp_modify. apply Hend.
    match goal with |- idle st (?s <| bc_index := index_debounce ?io ?ixs |>) => destruct (ix_debounce io ixs Hix) as [Hok' Hsame];
      destruct (rebase st (index_debounce io ixs) sections Hi Hok' Hp Hty) as [[] _] end; [|by split].
    intros h. rewrite Hsame. change (index_find (st_index _) h) with (index_find ix h). rewrite Hfind. change (ent (st <| bc_sections := sections |>)) with (ent st).
    destruct (ent st h) as [e|] eqn:He; [|by case_decide]. rewrite decide_True by (apply Hin; by eexists). cbn. f_equal. by apply (Hrel h e).
  - destruct R; [|cbn in Hlen; lia]. rewrite wp_mret. apply Hend.
    destruct (rebase st (bc_index st) sections Hi (bi_index st Hi) Hp Hty) as [[] _]; [|by split].
    intros h. change (index_find (st_index (bc_index st)) h) with (ent st h). destruct (ent st h) as [e|] eqn:He; [|done]. cbn. f_equal. by apply (Hrel h e).
Qed.

(** ** Listings *)

Lemma wp_ephemeral_list env st rt :
  bc_inv st -> wp (block_cache_dispatch (CACHE_EPHEMERAL_LIST rt)) env st (fun _ st' es =>
    st' = st /\ exists l, listing (view st) l /\
      es = replies rt (fun to => ev_ephemeral_list to ((fun x => (x.1, c_claims x.2, c_pins x.2)) <$> filter (fun x => 0 < c_claims x.2) l))).
Proof.
  intros Hi. cbn [block_cache_dispatch]. rewrite wp_state, wp_reply by done. apply wp_ret. rewrite app_nil_r. split; [done|].
  destruct (entries_listing st Hi) as (l & Hl & HF). exists l. split; [done|]. f_equal. unfold ephemeral_list.
  assert ((fun e => (ie_hash e, ie_ephemeral_count e, ie_pin_count e)) <$> filter (fun e => 0 < ie_ephemeral_count e) (index_to_array (the_index st)) =
    (fun x => (x.1, c_claims x.2, c_pins x.2)) <$> filter (fun x => 0 < c_claims x.2) l) as ->; [|done].
  clear Hl. induction HF as [|e [h c] es l (_ & Eh & _ & Hc & Hp & _) _ IH]; [done|]. cbn in Eh, Hc, Hp. subst h.
  rewrite !filter_cons. cbn [snd]. rewrite Hc. case_decide; [|done]. rewrite !fmap_cons, IH. cbn. by rewrite Hc, Hp.
Qed.

(** The offers are the best of the blocks that may be served. *)
Definition servable (exclude : list bytes) (l : list (bytes * cached)) : list (bytes * Z) :=
  (fun x => (x.1, c_fib x.2)) <$> filter (fun x => c_claims x.2 = 0 /\ x.1 ∉ exclude) l.

Definition best_offers (max_offers : nat) (all offers : list (bytes * Z)) : Prop :=
  exists rest, all ≡ₚ offers ++ rest /\ length offers = Nat.min max_offers (length all) /\
    StronglySorted (fun a b => b.2 <= a.2) offers /\ forall a b, a ∈ offers -> b ∈ rest -> b.2 <= a.2.

Lemma sorted_split {A} (P : relation A) l1 l2 : StronglySorted P (l1 ++ l2) -> StronglySorted P l1 /\ forall a b, a ∈ l1 -> b ∈ l2 -> P a b.
Proof.
  induction l1 as [|x l1 IH]; cbn [app]; intros H; [split; [constructor|set_solver]|]. apply StronglySorted_inv in H as [H Hf].
  destruct (IH H) as [Hs Hall]. rewrite Forall_app in Hf. destruct Hf as [H1 H2]. split; [by constructor|].
  intros a b [->|Ha]%elem_of_cons Hb; [by eapply Forall_forall in H2|by apply Hall].
Qed.

Lemma servable_best st max exclude l :
  Forall2 (fun e x => x.1 = ie_hash e /\ c_claims x.2 = ie_ephemeral_count e /\ c_fib x.2 = fib_of e) (index_to_array (the_index st)) l ->
  best_offers max (servable exclude l) (servable_offers (the_index st) max exclude).
Proof.
  intros HF. unfold servable_offers. set (cs := candidates (the_index st) exclude). set (f := fun e => (ie_hash e, fib_of e)).
  assert (servable exclude l = f <$> cs) as ->.
  { unfold cs, candidates, servable. induction HF as [|e [h c] es l (Eh & Hc & Hf) _ IH]; [done|]. cbn in Eh, Hc, Hf. subst h.
    rewrite !filter_cons. cbn [fst snd]. rewrite Hc. change (index_entry_is_servable (Some e)) with (ie_ephemeral_count e =? 0).
    destruct (decide (ie_ephemeral_count e = 0 /\ ie_hash e ∉ exclude)) as [[H1 H2]|Hn].
    - rewrite decide_True by (split; [by apply Z.eqb_eq|done]). rewrite !fmap_cons, IH. cbn. by rewrite Hf.
    - rewrite decide_False by (intros [H1%Z.eqb_eq H2]; by apply Hn). exact IH. }
  destruct (sort_candidates_spec (length cs) cs eq_refl) as [Hp Hs]. set (so := sort_candidates (length cs) cs) in *.
  rewrite <- (take_drop max so) in Hs. apply sorted_split in Hs as [Hs Hall]. exists (f <$> drop max so). split_and!.
  - rewrite <- fmap_app, take_drop. by rewrite <- Hp.
  - rewrite !length_fmap, length_take. by rewrite <- Hp.
  - clear Hall. induction Hs as [|e es _ IH Hf]; cbn; constructor; [done|]. apply Forall_fmap. exact Hf.
  - intros a b (x & -> & Hx)%list_elem_of_fmap (y & -> & Hy)%list_elem_of_fmap. by apply Hall.
Qed.

Lemma wp_list_servable env st message_id rt max exclude :
  bc_inv st -> wp (block_cache_dispatch (CACHE_LIST_SERVABLE message_id rt max exclude)) env st (fun _ st' es =>
    st' = st /\ exists l offers, listing (view st) l /\ best_offers max (servable exclude l) offers /\
      es = replies rt (fun to => ev_list_servable to message_id offers)).
Proof.
  intros Hi. cbn [block_cache_dispatch]. rewrite wp_state, wp_reply by done. apply wp_ret. rewrite app_nil_r. split; [done|].
  destruct (entries_listing st Hi) as (l & Hl & HF). exists l. eexists. split_and!; [done| |done].
  apply servable_best. eapply Forall2_impl; [exact HF|]. by intros e x (_ & ? & _ & ? & _ & ?).
Qed.

(** ** The specification *)

(** The abstract cache: the blocks, the requests that wait for a read, the groups
    of puts that are open with what they stored, those that have ended, and
    whether there is room for one more block. *)
Record cache := mk_cache {
  k_blocks : bytes -> option cached;
  k_waiting : list (bytes * actor_id);
  k_groups : list bc_put_group_t;
  k_ended : list Z;
  k_room : bool
}.

Definition room_left (st : block_cache_t) : bool :=
  negb ((0 <? bc_max_capacity_bytes st) && (bc_max_capacity_bytes st <? u64 (bc_current_bytes st + block_size (bc_type st)))).

Definition abs (st : block_cache_t) : cache :=
  mk_cache (view st) (waiting st) (bc_put_groups st) (bc_ended_put_groups st) (room_left st).

Definition group_open (k : cache) (g : Z) : bool := (g =? 0) || negb (existsb (fun g' => g' =? g) (k_ended k)).

(** Only the blocks changed. *)
Definition rest_same (k k' : cache) : Prop := k_waiting k' = k_waiting k /\ k_groups k' = k_groups k /\ k_ended k' = k_ended k.

Definition to_blocks (v : bytes -> option cached) (k k' : cache) : Prop := same_view v (k_blocks k') /\ rest_same k k'.

Definition put_admission (k : cache) (g : Z) (b : block_t) (p : bc_payload) : Prop :=
  k_blocks k (buf_data (blk_hash b)) = None ->
  if k_room k && group_open k g then p <> put_result CACHE_PUT_FULL else p = put_result CACHE_PUT_FULL.

Definition ended_with (g : Z) (l l' : list Z) : Prop :=
  g ∈ l' /\ (forall g', g' ∈ l' -> g' = g \/ g' ∈ l) /\ ((length l < BLOCK_CACHE_PUT_GROUP_TOMBSTONES)%nat -> forall g', g' ∈ l -> g' ∈ l').

(** What the actor answers and how the abstract cache changes. *)
Definition cache_step (delete_on_abort : bool) (k : cache) (msg : bc_msg) (p : bc_payload) (es : list bc_event) (k' : cache) : Prop :=
  match msg with
  | CACHE_PUT b rt fib acquire g =>
      put_spec (k_blocks k) b rt fib acquire p es (k_blocks k') /\ put_admission k g b p /\
      k_waiting k' = k_waiting k /\ k_ended k' = k_ended k /\
      k_groups k' = match p with put_result 0 => receipts (k_groups k) g (buf_data (blk_hash b)) | _ => k_groups k end
  | CACHE_GET h rt no_data peer_serve =>
      get_spec (k_blocks k) (k_waiting k) h rt no_data peer_serve p es (k_waiting k') /\
      same_view (k_blocks k) (k_blocks k') /\ k_groups k' = k_groups k /\ k_ended k' = k_ended k
  | SECTIONS_READ_RESULT _ _ data =>
      read_spec (k_blocks k) (k_waiting k) data es (k_waiting k') /\
      same_view (k_blocks k) (k_blocks k') /\ k_groups k' = k_groups k /\ k_ended k' = k_ended k
  | CACHE_REMOVE h rt force =>
      let '(result, v) := remove_spec (k_blocks k) h force in
      p = remove_result result /\ es = replies rt (fun to => ev_remove_result to result) /\ to_blocks v k k'
  | CACHE_GC keep force rt =>
      (exists l, listing (k_blocks k) l /\ es = replies rt (fun to => ev_gc_result to (foldl (gc_tally keep force) gc_zero l))) /\
      to_blocks (gc_view keep force (k_blocks k)) k k'
  | CACHE_EPHEMERAL h rt op =>
      let '(result, previous, new, v) := ephemeral_spec (k_blocks k) h op in
      es = replies rt (fun to => ev_ephemeral_result to result previous new h) /\ to_blocks v k k'
  | CACHE_PIN h rt =>
      let '(result, previous, new, v) := pin_spec true (k_blocks k) h in
      es = replies rt (fun to => ev_pin_result true to result previous new) /\ to_blocks v k k'
  | CACHE_UNPIN h rt =>
      let '(result, previous, new, v) := pin_spec false (k_blocks k) h in
      es = replies rt (fun to => ev_pin_result false to result previous new) /\ to_blocks v k k'
  | CACHE_PUT_GROUP_END g abort =>
      es = [] /\ k_waiting k' = k_waiting k /\ k_groups k' = group_rest (k_groups k) g /\ ended_with g (k_ended k) (k_ended k') /\
      same_view
        match take_group (k_groups k) g with
        | Some (found, _) => if abort && delete_on_abort then without (gr_hashes found) (k_blocks k) else k_blocks k
        | None => k_blocks k
        end (k_blocks k')
  | CACHE_EPHEMERAL_LIST rt =>
      to_blocks (k_blocks k) k k' /\ exists l, listing (k_blocks k) l /\
        es = replies rt (fun to => ev_ephemeral_list to ((fun x => (x.1, c_claims x.2, c_pins x.2)) <$> filter (fun x => 0 < c_claims x.2) l))
  | CACHE_LIST_SERVABLE message_id rt max exclude =>
      to_blocks (k_blocks k) k k' /\ exists l offers, listing (k_blocks k) l /\ best_offers max (servable exclude l) offers /\
        es = replies rt (fun to => ev_list_servable to message_id offers)
  | CACHE_DEFRAGMENT _ rt _ =>
      to_blocks (k_blocks k) k k' /\ exists n moved, es = replies rt (fun to => ev_defragment_result to 0 n moved)
  | CACHE_RESIZE m rt =>
      to_blocks (k_blocks k) k k' /\ exists current, es = replies rt (fun to => ev_resize_result to m current)
  | CACHE_CAPACITY_REFRESH | INDEX_SAVE | CACHE_OTHER _ => es = [] /\ to_blocks (k_blocks k) k k'
  end.

(** When the actor does what the specification says: the metadata files can be
    saved, ids are not used up, a block that waits for a read is not deleted, a
    read result is what the sections hold, and a compaction meets no fault. *)
Definition admissible (env : bc_env) (st : block_cache_t) (msg : bc_msg) : Prop :=
  meta_ok (env_io env) /\ is_u64 (env_time env) /\
  match msg with
  | CACHE_PUT b _ fib _ _ => block_wf b /\ is_u32 fib /\ room_for_ids (bc_sections st)
  | CACHE_GET h rt _ _ => rt = None -> not_waiting st h
  | SECTIONS_READ_RESULT id i data => forall d d', data = Some d -> block_at (bc_sections st) id i = Some d' -> d = d'
  | CACHE_REMOVE h _ _ => not_waiting st h
  | CACHE_GC keep force _ => forall h c, view st h = Some c -> gc_dooms keep force h c = true -> not_waiting st h
  | CACHE_EPHEMERAL h _ op => op = CACHE_EPHEMERAL_RELEASE -> not_waiting st h
  | CACHE_PUT_GROUP_END g abort =>
      forall found rest, take_group (bc_put_groups st) g = Some (found, rest) -> abort = true -> forall h, h ∈ gr_hashes found -> not_waiting st h
  | CACHE_DEFRAGMENT _ _ visit => room_for_ids (bc_sections st) /\ NoDup visit /\ forall id, env_io env id = io_ok
  | _ => True
  end.

(** The cache between messages. *)
Record cache_inv (st : block_cache_t) : Prop := {
  ci_inv : bc_inv st;
  ci_length : (length (bc_ended_put_groups st) <= BLOCK_CACHE_PUT_GROUP_TOMBSTONES)%nat;
  ci_next : (bc_ended_put_groups_next st < BLOCK_CACHE_PUT_GROUP_TOMBSTONES)%nat
}.

(** The requests that wait after a message, and the reads it asks for. *)
Definition traffic (st : block_cache_t) (msg : bc_msg) (es : list bc_event) (st' : block_cache_t) : Prop :=
  match msg with
  | CACHE_GET h _ _ _ => requested st' h es
  | SECTIONS_READ_RESULT id i _ => bc_pending_gets st' = filter (fun p => at_location st id i p = false) (bc_pending_gets st)
  | _ => True
  end.

Definition compacts (msg : bc_msg) : bool := if msg is CACHE_DEFRAGMENT _ _ _ then true else false.

(** What the lemmas on the messages give for the actor. *)
Definition implements (st : block_cache_t) (msg : bc_msg) (p : bc_payload) (st' : block_cache_t) (es : list bc_event) : Prop :=
  cache_inv st' /\ cache_step (bc_delete_blocks_on_put_failure st) (abs st) msg p es (abs st') /\ traffic st msg es st' /\
  (compacts msg = false -> kept st st').

Lemma cache_inv_same st st' :
  cache_inv st -> bc_inv st' -> bc_ended_put_groups st' = bc_ended_put_groups st -> bc_ended_put_groups_next st' = bc_ended_put_groups_next st -> cache_inv st'.
Proof. intros [_ H1 H2] Hi E1 E2. split; [done|by rewrite E1|by rewrite E2]. Qed.

Lemma frame_rest st st' : frame st st' -> rest_same (abs st) (abs st').
Proof. intros F. split; [by apply frame_waiting|]. split; apply F. Qed.

Lemma edits_done st v st' :
  cache_inv st -> edits st v st' -> cache_inv st' /\ to_blocks v (abs st) (abs st') /\ kept st st'.
Proof.
  intros Hc [I F V]. split; [by eapply cache_inv_same; [..|apply F|apply F]|]. split; [split; [done|by apply frame_rest]|].
  by apply steady_kept, frame_steady.
Qed.

Lemma idle_done st st' : cache_inv st -> idle st st' -> cache_inv st' /\ to_blocks (view st) (abs st) (abs st').
Proof.
  intros Hc [I V P G E N F]. split; [by eapply cache_inv_same|]. split; [done|]. split; [|done]. cbn. unfold waiting. by rewrite P.
Qed.

Lemma steady_done st st' :
  cache_inv st -> bc_inv st' -> steady st st' -> bc_ended_put_groups st' = bc_ended_put_groups st -> cache_inv st' /\ kept st st'.
Proof. intros Hc I S E. split; [by eapply cache_inv_same; [..|apply S]|by apply steady_kept]. Qed.

Lemma admits_spec st g : admits st g = k_room (abs st) && group_open (abs st) g.
Proof. unfold admits, group_open, room_left, _put_group_ended. cbn. f_equal. by rewrite negb_andb, negb_involutive. Qed.

Lemma put_implements env st b rt fib acquire g :
  cache_inv st -> admissible env st (CACHE_PUT b rt fib acquire g) ->
  wp (cache_handle_put b rt fib acquire g) env st (implements st (CACHE_PUT b rt fib acquire g)).
Proof.
  intros Hc (Hio & Ht & Hb & Hf & Hids). eapply wp_mono; [by apply wp_handle_put; [apply Hc|..]|].
  intros p st' es (I & S & [Hs Hp Hg He] & Ha). destruct (steady_done st st' Hc I Hs He) as [Hc' Hk]. split_and!; try done.
  split_and!; try done.
  - intros Hn. rewrite <- admits_spec. specialize (Ha Hn). destruct (admits st g); [by destruct Ha|done].
  - cbn. unfold waiting. by rewrite Hp.
Qed.

Lemma get_implements env st h rt no_data peer_serve :
  cache_inv st -> admissible env st (CACHE_GET h rt no_data peer_serve) ->
  wp (cache_handle_get h rt no_data peer_serve) env st (implements st (CACHE_GET h rt no_data peer_serve)).
Proof.
  intros Hc (Hio & Ht & Hw). eapply wp_mono; [by apply wp_handle_get; [apply Hc|..]|].
  intros p st' es ([I V S G E] & Hs & Hr). destruct (steady_done st st' Hc I S E) as [Hc' Hk]. by split_and!.
Qed.

Lemma read_implements env st id i data :
  cache_inv st -> admissible env st (SECTIONS_READ_RESULT id i data) ->
  wp (cache_handle_read_result id i data) env st (implements st (SECTIONS_READ_RESULT id i data)).
Proof.
  intros Hc (Hio & Ht & Hd). eapply wp_mono; [by apply wp_handle_read_result; [apply Hc|..]|].
  intros p st' es ([I V S G E] & Hs & Hr). destruct (steady_done st st' Hc I S E) as [Hc' Hk]. by split_and!.
Qed.

Lemma tombstone_done st st1 g rest :
  cache_inv st -> bc_inv st1 -> frame st st1 ->
  let st' := add_tombstone g (st1 <| bc_put_groups := rest |>) in
  cache_inv st' /\ ended_with g (bc_ended_put_groups st) (bc_ended_put_groups st') /\ kept st st' /\ waiting st' = waiting st /\
  view st' = view st1 /\ bc_put_groups st' = rest.
Proof.
  intros [_ Hl Hn] I F st'. assert (bc_inv st' /\ kept st st' /\ waiting st' = waiting st /\ view st' = view st1 /\ bc_put_groups st' = rest) as (I' & K & W & V & G).
  { pose proof (frame_steady _ _ F) as [_ _ _ _ _ _ _ _ HS HL]. pose proof (frame_waiting _ _ F) as W. destruct I as [I1 I2 I3 I4].
    unfold st', add_tombstone. case_match; split_and!; try done; by split. }
  split_and!; try done.
  - split; [done|..]; unfold st', add_tombstone; cbn [set bc_ended_put_groups]; rewrite (fr_ended _ _ F); destruct (Nat.ltb_spec (length (bc_ended_put_groups st)) BLOCK_CACHE_PUT_GROUP_TOMBSTONES) as [Hlt|Hge].
    + cbn. rewrite length_app. cbn. lia.
    + cbn. by rewrite length_insert.
    + cbn. by rewrite (fr_next _ _ F).
    + cbn -[Nat.modulo]. apply Nat.mod_upper_bound. done.
  - unfold st', add_tombstone. cbn [set bc_ended_put_groups]. rewrite (fr_ended _ _ F), (fr_next _ _ F).
    destruct (Nat.ltb_spec (length (bc_ended_put_groups st)) BLOCK_CACHE_PUT_GROUP_TOMBSTONES) as [Hlt|Hge]; cbn.
    + split_and!; intros; set_solver.
    + split_and!; [apply list_elem_of_insert; lia| |lia]. intros g' [j Hj]%list_elem_of_lookup. apply list_lookup_insert_Some in Hj as [(_ & <- & _)|[_ Hj]]; [by left|].
      right. by eapply list_elem_of_lookup_2.
Qed.

Lemma group_end_implements env st g abort :
  cache_inv st -> admissible env st (CACHE_PUT_GROUP_END g abort) ->
  wp (block_cache_dispatch (CACHE_PUT_GROUP_END g abort)) env st (implements st (CACHE_PUT_GROUP_END g abort)).
Proof.
  intros Hc (_ & _ & Hw). cbn [block_cache_dispatch]. rewrite wp_bind. eapply wp_mono; [by apply wp_group_end; [apply Hc|]|].
  intros _ st2 es (-> & st1 & [I F V] & ->). apply wp_ret. cbn [app].
  destruct (tombstone_done st st1 g (group_rest (bc_put_groups st) g) Hc I F) as (Hc' & He & Hk & W & Ev & G).
  split_and!; try done. split_and!; try done. cbn [abs k_blocks k_groups]. rewrite Ev. exact V.
Qed.

(** A message whose specification gives the blocks it leaves. *)
Ltac by_edits spec Hc :=
  intros p st' es H; unfold implements; cbn [cache_step abs k_blocks]; destruct spec; repeat case_match; destruct_and?;
  match goal with E : edits _ _ _ |- _ => destruct (edits_done _ _ _ Hc E) as (? & ? & ?) end; by split_and!.

(** Every message. *)
Lemma dispatch_implements env st msg :
  cache_inv st -> admissible env st msg -> wp (block_cache_dispatch msg) env st (implements st msg).
Proof.
  intros Hc Ha. pose proof Hc as [Hi _ _]. pose proof Ha as (Hio & Ht & Hm).
  destruct msg as [|b rt fib acquire g|g abort|m rt|keep force rt|h rt no_data peer_serve|h rt force|id i data|threshold rt visit| |h rt op|h rt|h rt|rt|message_id rt max exclude|type].
  - eapply wp_mono; [by apply wp_capacity_refresh|]. intros p st' es (-> & I & K). destruct (idle_done st st' Hc I). by split_and!.
  - by apply (put_implements env).
  - by apply group_end_implements.
  - eapply wp_mono; [by apply wp_resize|]. intros p st' es (-> & I & K & _). destruct (idle_done st st' Hc I). split_and!; try done.
    split; [done|]. by eexists.
  - eapply wp_mono; [by apply (wp_handle_gc env st keep force rt)|]. intros p st' es (Hl & E). destruct (edits_done _ _ _ Hc E) as (? & ? & ?). by split_and!.
  - by apply (get_implements env).
  - eapply wp_mono; [by apply (wp_handle_remove env st h rt force)|]. by_edits (remove_spec (view st) h force) Hc.
  - by apply (read_implements env).
  - destruct Hm as (Hids & Hn & Hok). eapply wp_mono; [by apply (wp_handle_defragment env st threshold rt visit)|].
    intros p st' es (I & He). destruct (idle_done st st' Hc I). by split_and!.
  - eapply wp_mono; [by apply wp_index_save|]. intros p st' es (-> & I & K). destruct (idle_done st st' Hc I). by split_and!.
  - eapply wp_mono; [by apply (wp_handle_ephemeral env st h rt op)|]. by_edits (ephemeral_spec (view st) h op) Hc.
  - eapply wp_mono; [by apply (wp_handle_pin env st true h rt)|]. by_edits (pin_spec true (view st) h) Hc.
  - eapply wp_mono; [by apply (wp_handle_pin env st false h rt)|]. by_edits (pin_spec false (view st) h) Hc.
  - eapply wp_mono; [by apply wp_ephemeral_list|]. intros p st' es (-> & He). destruct (idle_done st st Hc (idle_refl st Hi)). by split_and!.
  - eapply wp_mono; [by apply wp_list_servable|]. intros p st' es (-> & He). destruct (idle_done st st Hc (idle_refl st Hi)). by split_and!.
  - apply wp_ret. destruct (idle_done st st Hc (idle_refl st Hi)). by split_and!.
Qed.

Lemma wp_run {A} (m : M A) env st (Q : A -> block_cache_t -> list bc_event -> Prop) :
  wp m env st Q <-> exists a st' evs, m env st = Some (a, st', evs) /\ Q a st' (answers evs).
Proof.
  unfold wp. split.
  - destruct (m env st) as [[[a st'] evs]|]; [|done]. eauto.
  - by intros (a & st' & evs & -> & HQ).
Qed.
End Spec.
