(* ===== verification/BlockCacheSystem.v ===== *)
(** * BlockCacheSystem: the block cache and its sections as two actors

    A GET for a block that is not in memory sends SECTIONS_READ to the sections
    actor, whose answer comes back as SECTIONS_READ_RESULT.  [node] composes the
    two actors with the messages between them; [node_step] lets one of them
    handle its next message.  The theorems show that no request is lost, that
    running the queues to the end answers every request with its block, and that
    a block that was put is the block a later GET returns. *)

From Stdlib Require Import SpecFloat.
From stdpp Require Import gmap sorting.
From S2P Require Import Prelude Cbor Buffer Block Bloom ElasticBloom DList Lru Effect.
From S2P Require Import Platform FreeMap Section Sections SectionsStore Wal Fibonacci IndexEntry Index IndexMap IndexStore.
From S2P Require Import BlockCache BlockCacheStore BlockCacheActor BlockCacheSpec.
Local Open Scope Z_scope.

Section System.
Context {C : Cbor} {CS : CborSerial} {X : Xxh32} {X64 : Xxh64} {X3 : Xxh3} {B3 : Blake3}.

(** ** The two actors *)

Record node := mk_node {
  n_cache : block_cache_t;
  n_reads : list (Z * nat);                   (* SECTIONS_READ, not yet handled *)
  n_results : list (Z * nat * option bytes)   (* SECTIONS_READ_RESULT, not yet handled *)
}.

Definition reads_of (evs : list bc_event) : list (Z * nat) :=
  omap (fun ev => if ev is ev_sections_read id i then Some (id, i) else None) evs.
Definition results_of (evs : list sections_event) : list (Z * nat * option bytes) :=
  omap (fun ev => if ev is ev_sections_read_result _ id i data then Some (id, i, data) else None) evs.

(** The cache as the actor its reads are answered to. *)
Definition cache_actor : actor_id := 0.

Inductive node_move := client (msg : bc_msg) | serve | deliver.

Definition node_step (env : bc_env) (n : node) (mv : node_move) : option (node * bc_payload * list bc_event) :=
  match mv with
  | client msg =>
      '(p, st, evs) ← block_cache_dispatch msg env (n_cache n);
      Some (mk_node st (n_reads n ++ reads_of evs) (n_results n), p, evs)
  | serve =>
      match n_reads n with
      | [] => Some (n, other_result, [])
      | (id, i) :: reads =>
          '(sections, _, evs) ← sections_dispatch (env_io env) (bc_sections (n_cache n)) (SECTIONS_READ id i (Some cache_actor));
          Some (mk_node ((n_cache n) <| bc_sections := sections |>) reads (n_results n ++ results_of evs), other_result, [])
      end
  | deliver =>
      match n_results n with
      | [] => Some (n, other_result, [])
      | (id, i, data) :: results =>
          '(p, st, evs) ← block_cache_dispatch (SECTIONS_READ_RESULT id i data) env (n_cache n);
          Some (mk_node st (n_reads n) results, p, evs)
      end
  end.

(** The queues are run to their end. *)
Fixpoint drain (fuel : nat) (env : bc_env) (n : node) : option (node * list bc_event) :=
  match fuel with
  | O => Some (n, [])
  | S fuel =>
      '(n, _, e1) ← node_step env n (if n_reads n is [] then deliver else serve);
      '(n, e2) ← drain fuel env n;
      Some (n, e1 ++ e2)
  end.

Definition in_flight (n : node) : nat := 2 * length (n_reads n) + length (n_results n).

(** ** The invariant *)

Definition asked (n : node) : list (Z * nat) := n_reads n ++ (n_results n).*1.

Record node_inv (n : node) : Prop := {
  ni_cache : cache_inv (n_cache n);
  ni_asked : forall loc, loc ∈ asked n -> is_Some (block_at (bc_sections (n_cache n)) loc.1 loc.2);
  ni_data : forall id i d, (id, i, Some d) ∈ n_results n -> block_at (bc_sections (n_cache n)) id i = Some d;
  ni_covered : forall p, p ∈ bc_pending_gets (n_cache n) -> exists id i,
    located <$> ent (n_cache n) (pg_hash p) = Some (id, Z.of_nat i) /\ (id, i) ∈ asked n
}.

(** Messages of clients: those the cache accepts; a compaction only while no
    read is in flight. *)
Definition client_ok (env : bc_env) (n : node) (msg : bc_msg) : Prop :=
  admissible env (n_cache n) msg /\
  match msg with
  | SECTIONS_READ_RESULT _ _ _ => False
  | CACHE_DEFRAGMENT _ _ _ => asked n = []
  | _ => True
  end.

Definition move_ok (env : bc_env) (n : node) (mv : node_move) : Prop :=
  match mv with client msg => client_ok env n msg | _ => meta_ok (env_io env) /\ is_u64 (env_time env) end.

(** ** Messages between the actors *)

Lemma reads_answers evs : reads_of (answers evs) = reads_of evs.
Proof.
  unfold answers, reads_of. induction evs as [|ev evs IH]; [done|]. rewrite filter_cons. case_decide as E; cbn; rewrite IH; [done|].
  by destruct ev.
Qed.

Lemma reads_replies rt (ev : actor_id -> bc_event) : (forall a, reads_of [ev a] = []) -> reads_of (replies rt ev) = [].
Proof. intros H. destruct rt; [apply H|done]. Qed.

Lemma pending_waiting st :
  bc_inv st -> bc_pending_gets st = (fun x => mk_pending x.1 (entry_live x.1) x.2) <$> waiting st.
Proof.
  intros [_ _ _ (xs & _ & Hg)]. unfold waiting. pose proof (g_waiting _ _ _ _ Hg) as Hw. clear Hg.
  induction (bc_pending_gets st) as [|[h r to] ps IH]; [done|]. rewrite !fmap_cons, <- IH by set_solver. f_equal.
  destruct (Hw (mk_pending h r to) ltac:(set_solver)) as (Hr & _). cbn in *. by subst r.
Qed.

(** Only a GET asks for a read, and then it waits for it. *)
Lemma step_traffic f k msg p es k' :
  cache_step f k msg p es k' -> (if msg is SECTIONS_READ_RESULT _ _ _ then False else True) ->
  (k_waiting k' = k_waiting k /\ reads_of es = []) \/
  exists h rt no_data peer_serve to id i,
    msg = CACHE_GET h rt no_data peer_serve /\ k_waiting k' = (h, to) :: k_waiting k /\ es = [ev_sections_read id i].
Proof.
  destruct msg; cbn [cache_step]; intros H Hm; try done; unfold to_blocks, rest_same in H;
    try (left; repeat case_match; naive_solver (eauto using reads_replies)).
  - destruct H as (S & _ & W & _). left. split; [done|]. destruct S; by apply reads_replies.
  - destruct H as (S & _). inversion S; subst; try (left; split; [done|by try apply reads_replies]). right. by eexists _, _, _, _, _, _, _.
Qed.

(** ** Every move keeps the invariant *)

Lemma asked_client n st evs : asked (mk_node st (n_reads n ++ reads_of evs) (n_results n)) ≡ₚ asked n ++ reads_of evs.
Proof. unfold asked. cbn. rewrite <- !app_assoc. f_equiv. apply Permutation_app_comm. Qed.

(** A request that still waits is still covered. *)
Lemma covered_kept st st' (ls ls' : list (Z * nat)) p :
  kept st st' -> p ∈ bc_pending_gets st -> p ∈ bc_pending_gets st' -> (forall loc, loc ∈ ls -> loc ∈ ls') ->
  (exists id i, located <$> ent st (pg_hash p) = Some (id, Z.of_nat i) /\ (id, i) ∈ ls) ->
  exists id i, located <$> ent st' (pg_hash p) = Some (id, Z.of_nat i) /\ (id, i) ∈ ls'.
Proof. intros K H1 H2 Hls (id & i & E & Hin). exists id, i. rewrite (kp_located _ _ K) by done. auto. Qed.

Lemma stored_some st h e : bc_inv st -> ent st h = Some e -> forall id i, located e = (id, Z.of_nat i) -> is_Some (block_at (bc_sections st) id i).
Proof.
  intros Hi He id i [= <- Hl]. destruct (view_known st h e Hi He) as (d & Hd & _). unfold stored_at in Hd. rewrite Hl, Nat2Z.id in Hd. by rewrite Hd.
Qed.

(** The messages that do not move blocks. *)
Lemma client_inv n st' msg p evs :
  node_inv n -> cache_inv st' -> kept (n_cache n) st' -> (if msg is SECTIONS_READ_RESULT _ _ _ then False else True) ->
  cache_step (bc_delete_blocks_on_put_failure (n_cache n)) (abs (n_cache n)) msg p (answers evs) (abs st') -> traffic (n_cache n) msg (answers evs) st' ->
  node_inv (mk_node st' (n_reads n ++ reads_of evs) (n_results n)).
Proof.
  intros [Hc Ha Hd Hcov] Hc' K Hm S T. set (st := n_cache n) in *. pose proof (ci_inv _ Hc') as Hi'. rewrite <- (reads_answers evs).
  pose proof (pending_waiting st (ci_inv _ Hc)) as Ep. pose proof (pending_waiting st' Hi') as Ep'.
  assert (forall loc, is_Some (block_at (bc_sections st) loc.1 loc.2) -> is_Some (block_at (bc_sections st') loc.1 loc.2)) as Hslots
    by (intros loc [d E]; exists d; by apply K).
  split; cbn [n_cache n_reads n_results]; [done| |intros id i d Hin; apply K, Hd, Hin|].
  - intros loc. rewrite asked_client, elem_of_app. intros [Hin|Hin]; [by apply Hslots, Ha|].
    destruct (step_traffic _ _ _ _ _ _ S Hm) as [(_ & E)|(h & rt & nd & ps & to & id & i & -> & _ & E)]; rewrite E in *; [set_solver|].
    apply list_elem_of_singleton in Hin as ->. destruct (T id i ltac:(set_solver)) as (e & He & Hl). by eapply stored_some.
  - intros q Hq. setoid_rewrite asked_client. destruct (step_traffic _ _ _ _ _ _ S Hm) as [(W & _)|(h & rt & nd & ps & to & id & i & -> & W & E)].
    + change (waiting st' = waiting st) in W. rewrite Ep', W, <- Ep in Hq. eapply (covered_kept st); [done|done| | |by apply Hcov]; [|set_solver].
      by rewrite Ep', W, <- Ep.
    + change (waiting st' = (h, to) :: waiting st) in W. rewrite Ep', W, fmap_cons, <- Ep in Hq. apply elem_of_cons in Hq as [->|Hq].
      * destruct (T id i) as (e & He & Hl); [rewrite E; set_solver|]. exists id, i. cbn. rewrite He. cbn. rewrite Hl, E. split; [done|set_solver].
      * eapply (covered_kept st); [done|done| | |by apply Hcov]; [|set_solver]. rewrite Ep', W, fmap_cons, <- Ep. set_solver.
Qed.

(** A compaction while nothing is in flight. *)
Lemma compact_inv n st' es :
  node_inv n -> cache_inv st' -> asked n = [] -> waiting st' = waiting (n_cache n) -> reads_of es = [] ->
  node_inv (mk_node st' (n_reads n ++ reads_of es) (n_results n)).
Proof.
  intros [Hc Ha Hd Hcov] Hc' Hn W E. unfold asked in Hn. apply app_nil in Hn as [Hn1 Hn2]. apply fmap_nil_inv in Hn2.
  assert (bc_pending_gets st' = []) as Hp.
  { rewrite (pending_waiting st' (ci_inv _ Hc')), W, <- (pending_waiting _ (ci_inv _ Hc)).
    destruct (bc_pending_gets (n_cache n)) as [|q qs]; [done|]. destruct (Hcov q ltac:(set_solver)) as (id & i & _ & Hin).
    unfold asked in Hin. rewrite Hn1, Hn2 in Hin. set_solver. }
  rewrite E, Hn1, Hn2. split; unfold asked; cbn; try done; try set_solver. by rewrite Hp; set_solver.
Qed.

(** The sections actor answers a read once. *)
Lemma read_answered io st id i st' r evs :
  sections_handle_read io st id i (Some cache_actor) = Some (st', sections_read_payload r, evs) -> results_of evs = [(id, i, r)].
Proof.
  unfold sections_handle_read. destruct (obtain io st id) as [[s st1]|]; [|done]. cbn [mbind option_bind].
  unfold dispatch_section. destruct (section_dispatch _ _ _ _) as [[[s1 d] p] evs1].
  destruct (existsb _ evs1); [unfold section_on_dirty; destruct (ss_timer st1)|]; intros [= _ <- <-].
  all: done.
Qed.

Lemma serve_inv env n :
  node_inv n -> meta_ok (env_io env) ->
  exists n', node_step env n serve = Some (n', other_result, []) /\ node_inv n' /\
    same_view (view (n_cache n)) (view (n_cache n')) /\ waiting (n_cache n') = waiting (n_cache n) /\
    in_flight n' = (in_flight n - (if n_reads n is [] then 0 else 1))%nat /\
    ((forall id, env_io env id = io_ok) -> Forall (fun x => is_Some x.2) (n_results n) -> Forall (fun x => is_Some x.2) (n_results n')).
Proof.
  intros Hn Hio. pose proof Hn as [Hc Ha Hd Hcov]. destruct n as [st reads results]. cbn [n_cache n_reads n_results node_step] in *.
  destruct reads as [|[id i] reads].
  { eexists. split_and!; try done. unfold in_flight. lia. }
  destruct (Ha (id, i) ltac:(unfold asked; cbn; set_solver)) as [d Hdat]. cbn in Hdat. pose proof (ci_inv _ Hc) as Hi. pose proof (bi_pool _ Hi) as Hp.
  pose proof Hp as [I F T]. pose proof (block_known _ _ _ _ Hp Hdat) as Hid.
  destruct (handle_read_pool (env_io env) (bc_sections st) id i (Some cache_actor) I Hio F Hid) as (sections & r & evs & E & P & S & Hok).
  cbn [sections_dispatch]. rewrite E. cbn [mbind option_bind]. rewrite (read_answered _ _ _ _ _ _ _ E). apply pool_read_step in S as [Hr Hs].
  destruct (new_sections st sections 0 Hi P ltac:(unfold id_budget; lia) Hs) as (Hi' & Hv & Hst).
  eexists. split; [done|]. cbn [n_cache n_reads n_results]. split_and!; try done.
  - split; cbn [n_cache n_reads n_results].
    + by eapply cache_inv_same.
    + intros loc Hin. cbn. rewrite Hs. apply Ha. unfold asked in *. cbn in *. rewrite fmap_app in Hin. set_solver.
    + intros id' i' d' [Hin|Hin]%elem_of_app; cbn; rewrite Hs; [by apply Hd|]. apply list_elem_of_singleton in Hin as [= -> -> <-].
      rewrite Hdat. f_equal. symmetry. by apply Hr.
    + intros p Hpend. destruct (Hcov p Hpend) as (id' & i' & El & Hin). exists id', i'. split; [done|]. unfold asked in *. cbn in *.
      rewrite fmap_app. set_solver.
  - unfold in_flight. cbn. rewrite length_app. cbn. lia.
  - intros Hall Hres. apply Forall_app. split; [done|]. apply Forall_singleton. cbn. rewrite Hok by (done || by rewrite Hdat). by rewrite Hdat.
Qed.

Lemma deliver_inv env n :
  node_inv n -> meta_ok (env_io env) -> is_u64 (env_time env) ->
  exists n' p evs, node_step env n deliver = Some (n', p, evs) /\ node_inv n' /\
    same_view (view (n_cache n)) (view (n_cache n')) /\ in_flight n' = (in_flight n - (if n_results n is [] then 0 else 1))%nat /\
    n_reads n' = n_reads n /\ n_results n' = tail (n_results n) /\
    (if n_results n is (_, _, data) :: _ then read_spec (view (n_cache n)) (waiting (n_cache n)) data (answers evs) (waiting (n_cache n'))
     else waiting (n_cache n') = waiting (n_cache n)).
Proof.
  intros Hn Hio Ht. pose proof Hn as [Hc Ha Hd Hcov]. destruct n as [st reads results]. cbn [n_cache n_reads n_results node_step] in *.
  destruct results as [|[[id i] data] results].
  { eexists _, _, _. split_and!; try done. unfold in_flight. lia. }
  destruct (proj1 (wp_run _ _ _ _) (dispatch_implements env st (SECTIONS_READ_RESULT id i data) Hc ltac:(split_and!; [done..|]; intros d d' -> E;
    rewrite (Hd id i d) in E by set_solver; congruence))) as (p & st' & evs & -> & Hc' & S & Tr & K). specialize (K eq_refl).
  cbn [mbind option_bind cache_step traffic abs k_blocks k_waiting] in *. destruct S as (Hr & Hv & _). eexists _, _, _. split; [done|].
  cbn [n_cache n_reads n_results]. split_and!; try done; [|unfold in_flight; cbn; lia].
  split; cbn [n_cache n_reads n_results].
  - done.
  - intros loc Hin. destruct (Ha loc) as [d E]; [unfold asked in *; cbn in *; set_solver|]. exists d. by apply K.
  - intros id' i' d Hin. apply K, Hd. set_solver.
  - intros q Hq. rewrite Tr in Hq. apply list_elem_of_filter in Hq as [Hat Hq]. destruct (Hcov q Hq) as (id' & i' & El & Hin).
    exists id', i'. rewrite (kp_located _ _ K); [|done|rewrite Tr; by apply list_elem_of_filter]. split; [done|].
    assert ((id', i') <> (id, i)) as Hne.
    { intros [= -> ->]. destruct (ent st (pg_hash q)) as [e|] eqn:He; [|done]. cbn in El.
      rewrite (proj2 (at_location_true st id i q (ci_inv _ Hc) Hq)) in Hat; [done|exists e; split; congruence]. }
    unfold asked in *. cbn in *. set_solver.
Qed.

Lemma client_inv_step env n msg :
  node_inv n -> client_ok env n msg ->
  exists n' p evs, node_step env n (client msg) = Some (n', p, evs) /\ node_inv n' /\ n_results n' = n_results n /\
    wp (block_cache_dispatch msg) env (n_cache n) (fun p0 st0 es0 => p0 = p /\ st0 = n_cache n' /\ es0 = answers evs) /\
    implements (n_cache n) msg p (n_cache n') (answers evs).
Proof.
  intros Hn [Ha Hm]. pose proof (ni_cache _ Hn) as Hc.
  destruct (proj1 (wp_run _ _ _ _) (dispatch_implements env (n_cache n) msg Hc Ha)) as (p & st' & evs & E & Himp).
  cbn [node_step]. rewrite E. eexists _, _, _. split; [done|]. cbn [n_cache n_results]. split_and!; [|done|unfold wp; by rewrite E|done].
  destruct Himp as (Hc' & S & T & K). destruct (compacts msg) eqn:Eco.
  - destruct msg; try done. destruct S as ([_ (W & _)] & m1 & m2 & E2). apply compact_inv; try done.
    rewrite <- reads_answers, E2. by apply reads_replies.
  - eapply client_inv; try done; [by apply K|]. by destruct msg.
Qed.

(** A request leaves the list only with its answer. *)
Lemma read_spec_answers v w data es w' h to :
  read_spec v w data es w' -> is_Some data -> (h, to) ∈ w ->
  (h, to) ∈ w' \/ exists c, v h = Some c /\ ev_get_result to (get_answer h c (Some (mk_block (exact_buffer (c_data c)) (exact_buffer h))) false) ∈ es.
Proof.
  intros [|h' c Hv] [d ->] Hin; [by left|]. destruct (decide (h = h')) as [->|Hne].
  - right. exists c. split; [done|]. apply list_elem_of_fmap. exists (h', to). split; [done|]. by apply list_elem_of_filter.
  - left. by apply list_elem_of_filter.
Qed.

Lemma answers_elem ev evs : ev ∈ answers evs -> ev ∈ evs.
Proof. by intros [_ H]%list_elem_of_filter. Qed.

(** The request of [h] is answered with the block. *)
Definition answered (v : bytes -> option cached) (h : bytes) (to : actor_id) (evs : list bc_event) : Prop :=
  exists c, v h = Some c /\ ev_get_result to (get_answer h c (Some (mk_block (exact_buffer (c_data c)) (exact_buffer h))) false) ∈ evs.

Lemma answered_mono v v' h to evs evs' : (forall h, v h = v' h) -> (forall ev, ev ∈ evs -> ev ∈ evs') -> answered v h to evs -> answered v' h to evs'.
Proof. intros Hv He (c & Hc & Hin). exists c. rewrite <- Hv. auto. Qed.

Lemma idle_queue n : in_flight n = 0%nat -> node_inv n -> waiting (n_cache n) = [].
Proof.
  intros Hf Hn. unfold waiting. destruct (bc_pending_gets (n_cache n)) as [|p ps] eqn:E; [done|].
  destruct (ni_covered _ Hn p) as (id & i & _ & Hin); [rewrite E; set_solver|]. unfold in_flight in Hf. unfold asked in Hin.
  destruct (n_reads n), (n_results n); cbn in *; try lia. set_solver.
Qed.

Lemma drain_all env fuel : forall n,
  in_flight n = fuel -> node_inv n -> (forall id, env_io env id = io_ok) -> is_u64 (env_time env) -> Forall (fun x => is_Some x.2) (n_results n) ->
  exists n' evs, drain fuel env n = Some (n', evs) /\ node_inv n' /\ in_flight n' = 0%nat /\ same_view (view (n_cache n)) (view (n_cache n')) /\
    forall h to, (h, to) ∈ waiting (n_cache n) -> answered (view (n_cache n)) h to evs.
Proof.
  intros n Hf Hn Hok Ht. assert (meta_ok (env_io env)) as Hio by (intros id; by rewrite Hok). revert n Hf Hn.
  induction fuel as [|fuel IH]; intros n Hf Hn Hres; cbn [drain].
  { eexists _, _. split_and!; try done. rewrite (idle_queue n) by done. set_solver. }
  destruct (n_reads n) as [|rd reads] eqn:Er.
  - destruct (deliver_inv env n Hn Hio Ht) as (n1 & p & e1 & -> & Hn1 & Hv1 & Hf1 & _ & Hr1 & Hs). cbn [mbind option_bind].
    destruct (n_results n) as [|[[id i] data] results] eqn:Es; [unfold in_flight in Hf; rewrite Er, Es in Hf; done|].
    apply Forall_cons in Hres as [Hdata Hres].
    destruct (IH n1) as (n' & e2 & -> & Hn' & Hf' & Hv' & Ha); [lia|done|by rewrite Hr1|]. cbn [mbind option_bind].
    eexists _, _. split_and!; try done; [intros h; by rewrite Hv', Hv1|]. intros h to Hin.
    destruct (read_spec_answers _ _ _ _ _ h to Hs Hdata Hin) as [Hw|(c & Hc & He)].
    + eapply answered_mono; [exact Hv1| |by apply Ha]. set_solver.
    + exists c. split; [done|]. apply elem_of_app. left. by apply answers_elem.
  - destruct (serve_inv env n Hn Hio) as (n1 & -> & Hn1 & Hv1 & Hw1 & Hf1 & Hr1). cbn [mbind option_bind]. rewrite Er in Hf1.
    destruct (IH n1) as (n' & e2 & -> & Hn' & Hf' & Hv' & Ha); [lia|done|by apply Hr1|]. cbn [mbind option_bind].
    eexists _, _. split_and!; try done; [intros h; by rewrite Hv', Hv1|]. intros h to Hin.
    eapply answered_mono; [exact Hv1| |apply Ha; by rewrite Hw1]. done.
Qed.

(** ** A block that was put *)

Definition delivers (to : actor_id) (h d : bytes) (evs : list bc_event) : Prop :=
  exists r b, ev_get_result to r ∈ evs /\ gres_hash r = h /\ gres_block r = Some b /\ buf_data (blk_hash b) = h /\ buf_data (blk_data b) = d.

Lemma put_stores env n b rt fib acquire g :
  let h := buf_data (blk_hash b) in
  node_inv n -> client_ok env n (CACHE_PUT b rt fib acquire g) -> (forall id, env_io env id = io_ok) ->
  (view (n_cache n) h = None -> admits (n_cache n) g = true /\ Z.of_nat (buf_size (blk_data b)) = block_size (bc_type (n_cache n))) ->
  exists n' p evs c, node_step env n (client (CACHE_PUT b rt fib acquire g)) = Some (n', p, evs) /\ node_inv n' /\ n_results n' = n_results n /\
    p = put_result (if view (n_cache n) h is Some _ then CACHE_PUT_EXISTS else CACHE_PUT_NEW) /\ view (n_cache n') h = Some c /\
    c_data c = (if view (n_cache n) h is Some c0 then c_data c0 else buf_data (blk_data b)).
Proof.
  intros h Hn Hok Hall Hroom. destruct (client_inv_step env n _ Hn Hok) as (n' & p & evs & E & Hn' & Hr & Hdet & (_ & (S & _) & _)).
  destruct Hok as [(Hio & Ht & Hb & Hf & Hids) _].
  assert (view (n_cache n) h = None -> p = put_result CACHE_PUT_NEW) as Hnew.
  { intros Hv. destruct (Hroom Hv) as [Had Hsz].
    pose proof (wp_handle_put env (n_cache n) b rt fib acquire g (ci_inv _ (ni_cache _ Hn)) Hb Hf Hio Ht Hids) as Hput.
    cbn [block_cache_dispatch] in Hdet. unfold wp in Hput, Hdet. destruct (cache_handle_put _ _ _ _ _ _ _) as [[[p0 st0] e0]|]; [|done].
    destruct Hdet as (-> & _ & _), Hput as (_ & _ & _ & Hput). specialize (Hput Hv). rewrite Had in Hput. by apply Hput. }
  cbn [abs k_blocks] in S. inversion S as [c v' h0 Hv Hs|v' h0 Hv Hs|r v' Hv Hres Hs]; subst; fold h in Hv.
  1-2: subst h0; fold h in Hv, Hs; eexists n', _, evs, _; split_and!; try done; [by rewrite Hv|rewrite Hs; unfold set_view; by rewrite decide_True|];
    rewrite Hv; unfold claimed; by case_match.
  - specialize (Hnew Hv). injection Hnew as ->. by destruct Hres.
Qed.

(** A GET for a block of the cache, with the queues run to their end. *)
Lemma get_delivers env n h c to :
  node_inv n -> (forall id, env_io env id = io_ok) -> is_u64 (env_time env) -> Forall (fun x => is_Some x.2) (n_results n) ->
  view (n_cache n) h = Some c ->
  exists n1 p1 evs1 n2 evs2, node_step env n (client (CACHE_GET h (Some to) false false)) = Some (n1, p1, evs1) /\
    drain (in_flight n1) env n1 = Some (n2, evs2) /\ node_inv n2 /\ delivers to h (c_data c) (evs1 ++ evs2).
Proof.
  intros Hn Hall Ht Hres Hv. assert (meta_ok (env_io env)) as Hio by (intros id; by rewrite Hall).
  destruct (client_inv_step env n (CACHE_GET h (Some to) false false) Hn) as (n1 & p1 & evs1 & E & Hn1 & Hr & _ & (_ & (S & Hsame & _) & _)); [done|].
  destruct (drain_all env (in_flight n1) n1 eq_refl Hn1 Hall Ht) as (n2 & evs2 & Ed & Hn2 & _ & _ & Ha); [by rewrite Hr|].
  exists n1, p1, evs1, n2, evs2. split_and!; try done. cbn [abs k_blocks k_waiting] in *.
  inversion S as [H|c' H Hx|c' H Hx|c' b to' H Hto _ [Hb1 Hb2] Hp Hes Hw|c' to' id i H Hto _ Hp Hes Hw|c' b H Hx|c' H Hx]; subst; try congruence.
  - injection Hto as <-. rewrite Hv in H. injection H as <-. exists (get_answer (buf_data (blk_hash b)) c (Some b) false), b.
    split_and!; try done. apply elem_of_app. left. apply answers_elem. rewrite <- Hes. set_solver.
  - injection Hto as <-.
    destruct (Ha h to) as (c1 & Hc1 & Hin); [set_solver|]. rewrite Hsame, Hv in Hc1. injection Hc1 as <-.
    eexists _, _. split_and!; [apply elem_of_app; right; exact Hin|done..].
Qed.
End System.
