(* ===== verification/BlockCacheProps.v ===== *)
(** * BlockCacheProps: what the block cache guarantees

    The theorems on the block cache as a component: the actor implements the
    abstract cache, no request is lost, the queues between the cache and its
    sections run to the end, a block that was put is returned, a group of puts
    that is aborted leaves nothing behind, and only blocks nobody holds are
    offered to be shed. *)

From Stdlib Require Import SpecFloat.
From stdpp Require Import gmap sorting.
From S2P Require Import Prelude Cbor CborCodec Buffer Block Bloom ElasticBloom DList Lru Effect.
From S2P Require Import Platform FreeMap Section Sections SectionsStore Wal Fibonacci IndexEntry Index IndexMap IndexStore.
From S2P Require Import BlockCache BlockCacheStore BlockCacheActor BlockCacheSpec BlockCacheSystem.
Local Open Scope Z_scope.

Section Props.
Context {C : Cbor} {CS : CborSerial} {X : Xxh32} {X64 : Xxh64} {X3 : Xxh3} {B3 : Blake3}.

(** ** Creation *)

(** Every entry of the index leads to a block with its hash. *)
Definition entries_stored (ix : index_t) (sections : sections_t) : Prop :=
  forall h e, index_find ix h = Some e -> exists d, stored_at (block_at sections) e = Some d /\ blake3 d = h /\ legal_size (Z.of_nat (length d)) = true.

Lemma create_inv env st0 n flag type authority max sections index :
  ix_ok (st_index index) -> pool_inv sections -> ss_type sections = type -> entries_stored (st_index index) sections ->
  wp (block_cache_create n flag type authority max sections index) env st0 (fun _ st es =>
    es = [] /\ cache_inv st /\ waiting st = [] /\ (forall h e, index_find (st_index index) h = Some e -> view st h = view_entry (block_at sections) e) /\
    (0 < max -> drift st = 0 /\ byte_drift st = 0)).
Proof.
  intros Hix Hp Ht Hs. unfold block_cache_create. rewrite wp_modify.
  match goal with |- wp _ _ ?s _ => set (st1 := s) end.
  assert (forall sections', block_at sections' = block_at sections -> good (index_find (st_index index)) (block_at sections') [] []) as Hg.
  { intros s' ->. split; [done|..]; intros; set_solver. }
  assert (bc_inv st1) as Hi by (split; [done..|]; exists []; split; [apply create_abs|by apply Hg]).
  assert (forall h e, index_find (st_index index) h = Some e -> view st1 h = view_entry (block_at sections) e) as Hv.
  { intros h e He. unfold view. change (ent st1 h) with (index_find (st_index index) h). by rewrite He. }
  destruct (Z.ltb_spec 0 max) as [Hm|Hm].
  - rewrite wp_modify. apply wp_update_capacity. intros b. apply wp_tail. rewrite wp_modify. apply wp_ret. split; [done|]. split_and!; try done.
    + split; [|apply Nat.le_0_l|by apply Nat.ltb_lt]. split; [done|by apply pool_set_max|done|]. exists []. split; [apply create_abs|by apply Hg].
    + intros _. unfold drift, byte_drift. cbn. unfold the_index. cbn. rewrite u64_sub_l, !Z.sub_diag. done.
  - apply wp_ret. split; [done|]. split_and!; try done; [|lia]. split; [done|apply Nat.le_0_l|by apply Nat.ltb_lt].
Qed.

(** ** Groups of puts *)

(** A block with its rank and the client that waits for the answer. *)
Definition group_put (g : Z) (x : block_t * Z * option actor_id) : M unit :=
  block_cache_dispatch (CACHE_PUT x.1.1 x.2 x.1.2 false g);; mret tt.

Definition hashes_of (groups : list bc_put_group_t) (g : Z) : list bytes :=
  match take_group groups g with Some (found, _) => gr_hashes found | None => [] end.

Lemma record_hash_taken groups g h : hashes_of (record_hash groups g h) g = hashes_of groups g ++ [h].
Proof.
  unfold hashes_of. induction groups as [|x groups IH]; cbn [record_hash take_group].
  - cbn. by rewrite Z.eqb_refl.
  - destruct (gr_group x =? g) eqn:E; cbn [take_group]; [cbn; by rewrite Z.eqb_refl|]. rewrite E.
    by destruct (take_group (record_hash groups g h) g) as [[? ?]|], (take_group groups g) as [[? ?]|].
Qed.

(** While a group puts blocks, what is new is what it recorded. *)
Record put_so_far (st0 : block_cache_t) (g : Z) (st : block_cache_t) : Prop := {
  ps_inv : cache_inv st;
  ps_old : forall h c, view st0 h = Some c -> h ∉ hashes_of (bc_put_groups st) g /\ exists c', view st h = Some c' /\ c_data c' = c_data c;
  ps_new : forall h, view st0 h = None -> is_Some (view st h) -> h ∈ hashes_of (bc_put_groups st) g;
  ps_pending : bc_pending_gets st = bc_pending_gets st0;
  ps_flag : bc_delete_blocks_on_put_failure st = bc_delete_blocks_on_put_failure st0
}.

Lemma group_put_one env st0 g st b fib rt :
  put_so_far st0 g st -> g <> 0 -> meta_ok (env_io env) -> is_u64 (env_time env) -> block_wf b -> is_u32 fib -> room_for_ids (bc_sections st) ->
  wp (block_cache_dispatch (CACHE_PUT b rt fib false g)) env st (fun _ st' _ => put_so_far st0 g st' /\ steady st st').
Proof.
  intros [Hc Hold Hnew Hp Hfl] Hg Hio Ht Hb Hf Hids. cbn [block_cache_dispatch]. set (h := buf_data (blk_hash b)).
  eapply wp_mono; [by apply (wp_handle_put env st b rt fib false g); [apply Hc|..]|]. intros p st' es (I & S & [Hst Hpp Hgr He] & _).
  split; [|done]. destruct (steady_done st st' Hc I Hst He) as [Hc' _].
  inversion S as [c v' h0 Hv Hs|v' h0 Hv Hs|r v' Hv Hr Hs]; subst; try subst h0; fold h in Hv, Hs; unfold set_view in Hs.
  - split; [done|..|congruence|by rewrite (sd_flag _ _ Hst)]; rewrite Hgr; cbn.
    + intros h1 c1 Hc1. destruct (Hold h1 c1 Hc1) as (Hn & c' & Hc2 & Hd). split; [done|]. rewrite Hs. case_decide; [|by eauto].
      subst h1. eexists. split; [done|]. rewrite Hv in Hc2. injection Hc2 as <-. exact Hd.
    + intros h1 Hn1. rewrite Hs. case_decide; [|by apply Hnew]. subst h1. intros _. apply Hnew; [done|]. by rewrite Hv.
  - assert (view st0 h = None) as Hv0.
    { destruct (view st0 h) eqn:E; [|done]. destruct (Hold _ _ E) as (_ & c' & Hc1 & _). congruence. }
    assert (hashes_of (bc_put_groups st') g = hashes_of (bc_put_groups st) g ++ [h]) as Eh.
    { rewrite Hgr. cbn. unfold receipts. rewrite (proj2 (Z.eqb_neq g 0)) by done. apply record_hash_taken. }
    split; [done|..|congruence|by rewrite (sd_flag _ _ Hst)]; rewrite Eh.
    + intros h1 c1 Hc1. assert (h1 <> h) as Hne by congruence. destruct (Hold h1 c1 Hc1) as (Hn & c' & Hc2 & Hd). split; [set_solver|].
      rewrite Hs. rewrite decide_False by done. eauto.
    + intros h1 Hn1. rewrite Hs. case_decide as E; [intros _; rewrite E; set_solver|]. intros Hx. apply elem_of_app. left. by apply Hnew.
  - assert (bc_put_groups st' = bc_put_groups st) as Eg by (rewrite Hgr; by destruct Hr; subst).
    split; [done|..|congruence|by rewrite (sd_flag _ _ Hst)]; rewrite Eg.
    + intros h1 c1 Hc1. rewrite Hs. by apply Hold.
    + intros h1 Hn1. rewrite Hs. by apply Hnew.
Qed.

Definition good_put (x : block_t * Z * option actor_id) : Prop := block_wf x.1.1 /\ is_u32 x.1.2.

(** Ids for [n] puts. *)
Definition ids_for (n : nat) (sections : sections_t) : Prop := ss_next_id sections + Z.of_nat n * id_budget sections < 2 ^ 64.

Lemma group_puts env st0 g xs : forall st,
  put_so_far st0 g st -> g <> 0 -> meta_ok (env_io env) -> is_u64 (env_time env) -> Forall good_put xs -> ids_for (length xs) (bc_sections st) ->
  wp (for_each (group_put g) xs) env st (fun _ st' _ => put_so_far st0 g st').
Proof.
  induction xs as [|[[b fib] rt] xs IH]; intros st Hs Hg Hio Ht Hx Hids; cbn [for_each]; [by apply wp_ret|].
  apply Forall_cons in Hx as [[Hb Hf] Hx]. rewrite wp_bind. unfold group_put at 1. cbn [fst snd] in *. rewrite wp_bind.
  unfold ids_for in Hids. cbn [length] in Hids. eapply wp_mono; [apply (group_put_one env st0 g st b fib rt); try done|].
  { unfold room_for_ids, id_budget in *. nia. }
  intros p st1 e1 [Hs1 Hst]. apply wp_ret. eapply wp_mono; [apply (IH st1); try done|done].
  pose proof (sd_ids _ _ Hst) as Hn. pose proof (sd_tuple _ _ Hst) as Ht1. unfold ids_for, id_budget in *. rewrite Ht1. nia.
Qed.

(** ** Shedding *)

#[local] Instance ejected_before_total : Total ejected_before.
Proof.
  intros a b. unfold ejected_before, _compare_ejection_date.
  destruct (Z.eqb_spec (ie_ejection_date a) 0), (Z.eqb_spec (ie_ejection_date b) 0); cbn [andb]; [left; lia|right; lia|left; lia|].
  destruct (Z.ltb_spec (ie_ejection_date a) (ie_ejection_date b)); [left; lia|]. right.
  destruct (Z.ltb_spec (ie_ejection_date b) (ie_ejection_date a)); [lia|]. destruct (Z.ltb_spec (ie_ejection_date a) (ie_ejection_date b)); lia.
Qed.

#[local] Instance ejected_before_trans : Transitive ejected_before.
Proof.
  intros a b c. unfold ejected_before, _compare_ejection_date.
  destruct (Z.eqb_spec (ie_ejection_date a) 0), (Z.eqb_spec (ie_ejection_date b) 0), (Z.eqb_spec (ie_ejection_date c) 0); cbn [andb]; try lia.
  repeat (match goal with |- context [?x <? ?y] => destruct (Z.ltb_spec x y) end); lia.
Qed.

Lemma sorted_filter {A} (R : relation A) (P : A -> Prop) `{forall x, Decision (P x)} l : StronglySorted R l -> StronglySorted R (filter P l).
Proof.
  induction 1 as [|x l _ IH Hf]; [constructor|]. rewrite filter_cons. case_decide; [|done]. constructor; [done|].
  apply Forall_forall. intros y [_ Hy]%list_elem_of_filter. by eapply Forall_forall in Hf.
Qed.

(** ** The guarantees *)

(** C3: The block cache actor implements the abstract cache: every message
    succeeds, keeps the invariant that ties index, sections and blocks in memory
    together, and answers and changes the map of blocks, the requests that wait
    and the groups of puts as [cache_step] says. *)
Theorem block_cache_refines (env : bc_env) (st : block_cache_t) (msg : bc_msg) :
  cache_inv st -> admissible env st msg ->
  exists p st' evs, block_cache_dispatch msg env st = Some (p, st', evs) /\ cache_inv st' /\
    cache_step (bc_delete_blocks_on_put_failure st) (abs st) msg p (answers evs) (abs st').
Proof.
  intros Hc Ha. destruct (proj1 (wp_run _ _ _ _) (dispatch_implements env st msg Hc Ha)) as (p & st' & evs & E & Hc' & S & _).
  by exists p, st', evs.
Qed.

(** C4: A block that was put is returned: after a PUT of a block the cache has
    room for, a GET for its hash is answered, at once or after the sections actor
    has read it, with a block of that hash; if the block was new, it is the block
    that was put. *)
Theorem put_then_get (env : bc_env) (n : node) (b : block_t) (rt : option actor_id) (fib : Z) (acquire : bool) (g : Z) (to : actor_id) :
  let h := buf_data (blk_hash b) in
  node_inv n -> client_ok env n (CACHE_PUT b rt fib acquire g) -> (forall id, env_io env id = io_ok) ->
  Forall (fun x => is_Some x.2) (n_results n) ->
  (view (n_cache n) h = None -> admits (n_cache n) g = true /\ Z.of_nat (buf_size (blk_data b)) = block_size (bc_type (n_cache n))) ->
  exists n1 p1 evs1 n2 p2 evs2 n3 evs3 d,
    node_step env n (client (CACHE_PUT b rt fib acquire g)) = Some (n1, p1, evs1) /\
    node_step env n1 (client (CACHE_GET h (Some to) false false)) = Some (n2, p2, evs2) /\
    drain (in_flight n2) env n2 = Some (n3, evs3) /\ delivers to h d (evs2 ++ evs3) /\
    d = (if view (n_cache n) h is Some c then c_data c else buf_data (blk_data b)) /\ blake3 d = h.
Proof.
  intros h Hn Hok Hall Hres Hroom.
  destruct (put_stores env n b rt fib acquire g Hn Hok Hall Hroom) as (n1 & p1 & evs1 & c & E1 & Hn1 & Hr1 & _ & Hv1 & Hd).
  destruct Hok as [(_ & Ht & _) _]. fold h in Hv1, Hd.
  destruct (get_delivers env n1 h c to Hn1 Hall Ht) as (n2 & p2 & evs2 & n3 & evs3 & E2 & E3 & _ & Hdel); [by rewrite Hr1|done|].
  exists n1, p1, evs1, n2, p2, evs2, n3, evs3, (c_data c). split_and!; try done.
  pose proof (ci_inv _ (ni_cache _ Hn1)) as Hi. destruct (ent (n_cache n1) h) as [e|] eqn:He; [|apply view_none in He; [congruence|done]].
  destruct (view_known _ h e Hi He) as (d & _ & Hv & Hb & _). rewrite Hv1 in Hv. by injection Hv as ->.
Qed.


(** C11: The queues run to the end: two moves for each read under way and one for
    each result answer every request that waits with its block, and leave the
    blocks as they were. *)
Theorem queues_drain (env : bc_env) (n : node) :
  node_inv n -> (forall id, env_io env id = io_ok) -> is_u64 (env_time env) -> Forall (fun x => is_Some x.2) (n_results n) ->
  exists n' evs, drain (in_flight n) env n = Some (n', evs) /\ node_inv n' /\ in_flight n' = 0%nat /\ waiting (n_cache n') = [] /\
    same_view (view (n_cache n)) (view (n_cache n')) /\ forall h to, (h, to) ∈ waiting (n_cache n) -> answered (view (n_cache n)) h to evs.
Proof.
  intros Hn Hall Ht Hres. destruct (drain_all env (in_flight n) n eq_refl Hn Hall Ht Hres) as (n' & evs & E & Hn' & Hf & Hv & Ha).
  exists n', evs. split_and!; try done. by apply idle_queue.
Qed.


(** C38: Only blocks nobody holds are offered to be shed, at most a batch of them,
    and no block outside the batch that could be shed was ejected earlier. *)
Theorem exhale_batch_coldest (st : block_cache_t) :
  cache_inv st ->
  (length (exhale_batch (the_index st)) <= RESPIRATION_EXHALE_BATCH)%nat /\ NoDup (exhale_batch (the_index st)).*1 /\
  (forall h date, (h, date) ∈ exhale_batch (the_index st) ->
    exists e c, ent st h = Some e /\ ie_ejection_date e = date /\ view st h = Some c /\ c_pins c = 0 /\ c_claims c = 0) /\
  (forall h date h' e', (h, date) ∈ exhale_batch (the_index st) -> ent st h' = Some e' -> block_cache_entry_is_sheddable e' = true ->
    h' ∉ (exhale_batch (the_index st)).*1 -> exists e, ent st h = Some e /\ ejected_before e e').
Proof.
  intros [Hi _ _]. pose proof (proj1 (bi_index st Hi)) as Hwf. destruct (hashes_spec _ Hwf) as (Hnd & _ & _).
  unfold exhale_batch. set (all := index_entries_by_ejection_date (the_index st)). set (shed := filter _ all).
  assert (forall e, e ∈ all <-> ent st (ie_hash e) = Some e) as Hall.
  { intros e. unfold all, index_entries_by_ejection_date. rewrite (merge_sort_Permutation _ _). apply (to_array_find _ _ _ _ _ (proj2 Hwf)). }
  assert (StronglySorted ejected_before shed) as Hsort by (apply sorted_filter, StronglySorted_merge_sort; apply _).
  rewrite <- (take_drop RESPIRATION_EXHALE_BATCH shed) in Hsort. apply sorted_split in Hsort as [_ Hcold].
  assert (forall h date, (h, date) ∈ (fun e => (ie_hash e, ie_ejection_date e)) <$> take RESPIRATION_EXHALE_BATCH shed ->
    exists e, ent st h = Some e /\ ie_ejection_date e = date /\ block_cache_entry_is_sheddable e = true /\ e ∈ take RESPIRATION_EXHALE_BATCH shed) as Hin.
  { intros h date (e & [= -> ->] & He)%list_elem_of_fmap. exists e.
    assert (e ∈ shed) as [Hs He']%list_elem_of_filter by (rewrite <- (take_drop RESPIRATION_EXHALE_BATCH shed); apply elem_of_app; by left).
    split_and!; try done. by apply Hall. }
  split_and!.
  - rewrite length_fmap, length_take. lia.
  - rewrite <- list_fmap_compose. change (NoDup (ie_hash <$> take RESPIRATION_EXHALE_BATCH shed)). 
    assert (NoDup (ie_hash <$> shed)) as Hsh.
    { eapply sublist_NoDup; [|apply fmap_sublist, sublist_filter]. unfold all, index_entries_by_ejection_date. by rewrite (merge_sort_Permutation _ _). }
    rewrite <- (take_drop RESPIRATION_EXHALE_BATCH shed), fmap_app in Hsh. by apply NoDup_app in Hsh as [Hsh _].
  - intros h date (e & He & Hd & Hs & _)%Hin. destruct (view_known st h e Hi He) as (d & _ & Hv & _). exists e. eexists. split_and!; try done; cbn;
      apply andb_prop in Hs as [H1%Z.eqb_eq H2%Z.eqb_eq]; done.
  - intros h date h' e' (e & He & _ & _ & Het)%Hin He' Hs' Hnot. exists e. split; [done|]. apply Hcold; [done|].
    destruct (entry_fields st h' e' Hi He') as [_ Hh']. assert (e' ∈ shed) as Hshed by (apply list_elem_of_filter; split; [done|apply Hall; by rewrite Hh']).
    rewrite <- (take_drop RESPIRATION_EXHALE_BATCH shed), elem_of_app in Hshed. destruct Hshed as [Hx|]; [|done]. destruct Hnot.
    rewrite <- list_fmap_compose. apply list_elem_of_fmap. by exists e'.
Qed.

(** Deleting a block does not free its slot: the message the deletion sends
    to the sections is one they ignore, so the data stays where it is and its
    slot is never used again. *)
Theorem deletion_leaks_slot (env : bc_env) (st : block_cache_t) (h : bytes) (e : index_entry_t) (rt : option actor_id) :
  cache_inv st -> not_waiting st h -> ent st h = Some e -> ie_ephemeral_count e = 0 -> ie_pin_count e = 0 ->
  exists st' evs d, block_cache_dispatch (CACHE_REMOVE h rt false) env st = Some (remove_result 0, st', evs) /\
    view st' h = None /\ bc_sections st' = bc_sections st /\
    block_at (bc_sections st') (ie_section_id e) (Z.to_nat (ie_section_index e)) = Some d /\ blake3 d = h.
Proof.
  intros [Hi _ _] Hw He H1 H2. destruct (view_known st h e Hi He) as (d & Hd & Hv & Hb & _).
  destruct (proj1 (wp_run _ _ _ _) (wp_handle_remove env st h rt false Hi Hw)) as (p & st' & evs & E & Hpost).
  unfold remove_spec in Hpost. rewrite Hv in Hpost. cbn [c_claims c_pins] in Hpost. rewrite H1, H2 in Hpost. destruct Hpost as (-> & _ & [_ F V]).
  exists st', evs, d. split_and!; [exact E| |apply F| |done].
  - rewrite V. unfold set_view. by rewrite decide_True.
  - by rewrite (fr_sections _ _ F).
Qed.
End Props.

(** ** A small cache *)

#[local] Existing Instances item_cbor item_serial toy_xxh32 toy_xxh64 toy_xxh3 poly_blake3.

Definition sample_index : index_store := _index_new_empty 2 0 1 1 [] ∅ wal_io_ok.
Definition sample_env : bc_env := mk_env all_ok store_io_ok 5 false.

(** One block in memory, sections with two slots. *)
Definition sample_cache : block_cache_t :=
  mk_bc (block_lru_cache_create 1) sample_pool sample_index nano true [] [] 0 [] 0 0 0 false false false false ∅.

Lemma sample_index_ok : ix_ok (st_index sample_index) /\ forall h, index_find (st_index sample_index) h = None.
Proof. split; [|done]. destruct (new_empty_ok 2 1 1) as [H1 _ _ _]; [lia|unfold is_u64; lia|]. by split. Qed.

Lemma sample_cache_inv : cache_inv sample_cache.
Proof.
  pose proof (create_inv sample_env sample_cache 1 true nano false 0 sample_pool sample_index) as H.
  destruct (proj1 (wp_run _ _ _ _) (H (proj1 sample_index_ok) (proj1 sample_pool_inv) ltac:(vm_compute; reflexivity)
    ltac:(intros h e He; by rewrite (proj2 sample_index_ok) in He))) as (a & st & evs & E & _ & Hc & _).
  cbn in E. injection E as <- <- <-. exact Hc.
Qed.

Definition sample_put (x : Z) : block_t := block_create_random_block_by_type (replicate 136 x).

Lemma sample_put_wf x : block_wf (sample_put x).
Proof. by split. Qed.

Lemma sample_ids : room_for_ids sample_pool.
Proof. apply sample_pool_inv. Qed.

Definition sample_node : node := mk_node sample_cache [] [].

Lemma sample_node_inv : node_inv sample_node.
Proof. split; [apply sample_cache_inv|..]; intros; set_solver. Qed.

(** The node after a message of a client. *)
Definition after (n : node) (msg : bc_msg) : node :=
  match node_step sample_env n (client msg) with Some (n, _, _) => n | None => n end.

Lemma after_inv n msg : node_inv n -> client_ok sample_env n msg -> node_inv (after n msg).
Proof. intros Hn Hok. destruct (client_inv_step sample_env n msg Hn Hok) as (n' & p & evs & E & Hn' & _). unfold after. by rewrite E. Qed.

(** Two blocks are put, of which the second is in memory; a client asks for the
    first. *)
Definition hash_of (x : Z) : bytes := buf_data (blk_hash (sample_put x)).
Definition put_msg (x : Z) : bc_msg := CACHE_PUT (sample_put x) None 0 false 0.
Definition sample_two : node := after (after sample_node (put_msg 1)) (put_msg 2).
Definition sample_waiting : node := after sample_two (CACHE_GET (hash_of 1) (Some 9) false false).

Lemma put_ok n x :
  (ss_next_id (bc_sections (n_cache n)) + Z.of_nat (ss_max_tuple_size (bc_sections (n_cache n))) + 2 <? 2 ^ 64) = true ->
  client_ok sample_env n (put_msg x).
Proof.
  intros Hr. split; [|done]. split; [apply all_ok_meta|]. split; [cbn; unfold is_u64; lia|]. split; [apply sample_put_wf|].
  split; [unfold is_u32; lia|]. unfold room_for_ids. lia.
Qed.

Lemma sample_two_inv : node_inv sample_two.
Proof.
  apply after_inv; [apply after_inv; [apply sample_node_inv|]|]; apply put_ok; vm_compute; reflexivity.
Qed.

Lemma sample_waiting_inv : node_inv sample_waiting.
Proof. apply after_inv; [apply sample_two_inv|]. split; [|done]. split; [apply all_ok_meta|]. split; [cbn; unfold is_u64; lia|done]. Qed.

Lemma block_cache_refines_witness :
  exists p st' evs, block_cache_dispatch (put_msg 1) sample_env sample_cache = Some (p, st', evs) /\ cache_inv st' /\
    cache_step true (abs sample_cache) (put_msg 1) p (answers evs) (abs st').
Proof.
  apply (block_cache_refines sample_env sample_cache (put_msg 1)); [apply sample_cache_inv|].
  apply (put_ok sample_node 1). vm_compute. reflexivity.
Defined.

Lemma put_then_get_witness :
  exists n1 p1 evs1 n2 p2 evs2 n3 evs3 d,
    node_step sample_env sample_two (client (put_msg 3)) = Some (n1, p1, evs1) /\
    node_step sample_env n1 (client (CACHE_GET (hash_of 3) (Some 9) false false)) = Some (n2, p2, evs2) /\
    drain (in_flight n2) sample_env n2 = Some (n3, evs3) /\ delivers 9 (hash_of 3) d (evs2 ++ evs3) /\
    d = (if view (n_cache sample_two) (hash_of 3) is Some c then c_data c else buf_data (blk_data (sample_put 3))) /\ blake3 d = hash_of 3.
Proof.
  apply (put_then_get sample_env sample_two (sample_put 3) None 0 false 0 9); [apply sample_two_inv| |done| |].
  - apply (put_ok sample_two 3). vm_compute. reflexivity.
  - vm_compute. constructor.
  - intros _. vm_compute. by split.
Defined.


Lemma queues_drain_witness :
  waiting (n_cache sample_waiting) = [(hash_of 1, 9)] /\ in_flight sample_waiting = 2%nat /\
  exists n' evs, drain (in_flight sample_waiting) sample_env sample_waiting = Some (n', evs) /\ node_inv n' /\ in_flight n' = 0%nat /\
    waiting (n_cache n') = [] /\ same_view (view (n_cache sample_waiting)) (view (n_cache n')) /\
    forall h to, (h, to) ∈ waiting (n_cache sample_waiting) -> answered (view (n_cache sample_waiting)) h to evs.
Proof.
  split; [vm_compute; reflexivity|]. split; [vm_compute; reflexivity|].
  apply (queues_drain sample_env sample_waiting); [apply sample_waiting_inv|done|cbn; unfold is_u64; lia|vm_compute; constructor].
Defined.


Lemma exhale_batch_coldest_witness :
  let ix := the_index (n_cache sample_two) in
  exhale_batch ix = [(hash_of 1, 5); (hash_of 2, 0)] /\ NoDup (exhale_batch ix).*1 /\
  forall h date h' e', (h, date) ∈ exhale_batch ix -> ent (n_cache sample_two) h' = Some e' -> block_cache_entry_is_sheddable e' = true ->
    h' ∉ (exhale_batch ix).*1 -> exists e, ent (n_cache sample_two) h = Some e /\ ejected_before e e'.
Proof.
  intros ix. destruct (exhale_batch_coldest (n_cache sample_two)) as (_ & H1 & _ & H2); [apply sample_two_inv|].
  split; [vm_compute; reflexivity|by split].
Defined.

Lemma deletion_leaks_slot_witness :
  exists e st' evs d, ent (n_cache sample_two) (hash_of 1) = Some e /\
    block_cache_dispatch (CACHE_REMOVE (hash_of 1) None false) sample_env (n_cache sample_two) = Some (remove_result 0, st', evs) /\
    view st' (hash_of 1) = None /\ bc_sections st' = bc_sections (n_cache sample_two) /\
    block_at (bc_sections st') (ie_section_id e) (Z.to_nat (ie_section_index e)) = Some d /\ blake3 d = hash_of 1.
Proof.
  eexists. assert (ent (n_cache sample_two) (hash_of 1) = Some _) as He by (vm_compute; reflexivity).
  destruct (deletion_leaks_slot sample_env (n_cache sample_two) (hash_of 1) _ None (ni_cache _ sample_two_inv)
    ltac:(intros p Hp; vm_compute in Hp; inversion Hp) He eq_refl eq_refl) as (st' & evs & d & H).
  exists st', evs, d. split; [exact He|exact H].
Defined.

(** A read that arrives after its block was removed puts the block back in
    memory: the next removal of the hash finds it there and counts it out of the
    cache a second time, so that the counters of the cache are one block short of
    its index. *)
Theorem late_read_counts_twice :
  let n := after (after (after sample_two (CACHE_GET (hash_of 1) (Some 9) false false)) (CACHE_REMOVE (hash_of 1) None false))
             (SECTIONS_READ_RESULT 0 0 (Some (replicate 136 1))) in
  let n' := after n (CACHE_REMOVE (hash_of 1) None false) in
  bc_entry_count (n_cache sample_two) = 2 /\ index_count (the_index (n_cache sample_two)) = 2%nat /\
  bc_entry_count (n_cache n) = 1 /\ index_count (the_index (n_cache n)) = 1%nat /\
  bc_entry_count (n_cache n') = 0 /\ index_count (the_index (n_cache n')) = 1%nat.
Proof. vm_compute. by split_and!. Qed.
