(* ===== verification/Base58.v ===== *)
(** * Base58 (src/src/Util/base58.c)

    Addresses of blocks appear in URLs and in the client protocol in Base58.
    The routines work on a number held in base 256, least significant digit
    first, in a workspace of [BIGINT_SIZE] bytes with a length; the model keeps
    the digits below the length as a list and answers [None] where the C code
    would write past the workspace.  The reference is positional notation:
    [digits_value] and the normal digit list of a number. *)

From S2P Require Import Prelude.
Local Open Scope Z_scope.

Definition BASE58_ALPHABET : bytes :=
  [49;50;51;52;53;54;55;56;57;
   65;66;67;68;69;70;71;72; 74;75;76;77;78; 80;81;82;83;84;85;86;87;88;89;90;
   97;98;99;100;101;102;103;104;105;106;107; 109;110;111;112;113;114;115;116;117;118;119;120;121;122].

Definition BASE58_MAP : list Z :=
  [-1;-1;-1;-1;-1;-1;-1;-1;-1;-1;-1;-1;-1;-1;-1;-1;
   -1;-1;-1;-1;-1;-1;-1;-1;-1;-1;-1;-1;-1;-1;-1;-1;
   -1;-1;-1;-1;-1;-1;-1;-1;-1;-1;-1;-1;-1;-1;-1;-1;
   -1; 0; 1; 2; 3; 4; 5; 6; 7; 8;-1;-1;-1;-1;-1;-1;
   -1; 9;10;11;12;13;14;15;16;-1;17;18;19;20;21;-1;
   22;23;24;25;26;27;28;29;30;31;32;-1;-1;-1;-1;-1;
   -1;33;34;35;36;37;38;39;40;41;42;43;-1;44;45;46;
   47;48;49;50;51;52;53;54;55;56;57;-1;-1;-1;-1;-1] ++ replicate 128 (-1).

Definition BIGINT_SIZE : nat := 4096.

(** The digits of the workspace, least significant first. *)
Abbreviation bigint := (list Z).

(** [while (carry > 0)]: one digit is appended per turn.  A 32-bit carry is
    zero after four turns. *)
Fixpoint carry_loop (fuel : nat) (result : bigint) (carry : Z) : option bigint :=
  if carry >? 0 then
    match fuel with
    | O => None
    | S k =>
        if (length result <? BIGINT_SIZE)%nat
        then carry_loop k (result ++ [Z.land carry 255]) (Z.shiftr carry 8)
        else None
    end
  else Some result.

Fixpoint multiply_loop (result : bigint) (factor carry : Z) : bigint * Z :=
  match result with
  | [] => ([], carry)
  | d :: t =>
      let val := u32 (u32 (d * factor) + carry) in
      let '(t', c) := multiply_loop t factor (Z.shiftr val 8) in
      (Z.land val 255 :: t', c)
  end.

Definition bigint_multiply (result : bigint) (factor : Z) : option bigint :=
  let '(r, carry) := multiply_loop result factor 0 in carry_loop 4 r carry.

Fixpoint add_loop (result : bigint) (carry : Z) : bigint * Z :=
  match result with
  | [] => ([], carry)
  | d :: t =>
      if carry >? 0 then
        let val := u32 (d + carry) in
        let '(t', c) := add_loop t (Z.shiftr val 8) in
        (Z.land val 255 :: t', c)
      else (result, carry)
  end.

Definition bigint_add (result : bigint) (value : Z) : option bigint :=
  let '(r, carry) := add_loop result value in carry_loop 4 r carry.

(** The loop runs from the most significant digit down. *)
Fixpoint divmod_loop (result : bigint) (divisor : Z) : bigint * Z :=
  match result with
  | [] => ([], 0)
  | d :: t =>
      let '(t', remainder) := divmod_loop t divisor in
      let val := Z.lor (u32 (Z.shiftl remainder 8)) d in
      (u8 (val / divisor) :: t', val mod divisor)
  end.

(** The leading zero digits of a quotient are dropped from the length. *)
Fixpoint trim (result : bigint) : bigint :=
  match result with
  | [] => []
  | d :: t =>
      match trim t with
      | [] => if d =? 0 then [] else [d]
      | t' => d :: t'
      end
  end.

Definition bigint_divmod (result : bigint) (divisor : Z) : bigint * Z :=
  let '(r, remainder) := divmod_loop result divisor in (trim r, u8 remainder).

(** [while (bigint_len > 0) digits[digits_len++] = bigint_divmod(...)]; the
    digit buffer has room for [room] more digits. *)
Fixpoint divmod_digits (room : nat) (n : bigint) (divisor : Z) : option (list Z) :=
  match n with
  | [] => Some []
  | _ =>
      match room with
      | O => None
      | S k =>
          let '(q, r) := bigint_divmod n divisor in
          match divmod_digits k q divisor with
          | Some ds => Some (r :: ds)
          | None => None
          end
      end
  end.

(** One turn of the loops that read the number in: multiply, then add. *)
Definition bigint_push (n : bigint) (base digit : Z) : option bigint :=
  match bigint_multiply n base with
  | Some m => bigint_add m digit
  | None => None
  end.

Fixpoint bigint_read (n : bigint) (base : Z) (ds : list Z) : option bigint :=
  match ds with
  | [] => Some n
  | d :: t =>
      match bigint_push n base d with
      | Some m => bigint_read m base t
      | None => None
      end
  end.

Definition base58_encoded_length (input_len : Z) : Z := u64 (u64 (input_len * 138) / 100 + 1).
Definition base58_decoded_length (str_len : Z) : Z := u64 (u64 (str_len * 733) / 1000 + 2).

(** The elements equal to [x] a list starts with. *)
Fixpoint leading (x : Z) (l : list Z) : nat :=
  match l with
  | y :: t => if y =? x then S (leading x t) else O
  | [] => O
  end.

(** What a call returns: -1, or the bytes it wrote. *)
Inductive b58_result : Type :=
| B58_ERROR
| B58_OK (out : bytes).

#[global] Instance b58_result_eq_dec : EqDecision b58_result.
Proof. solve_decision. Defined.

Definition alphabet_at (d : Z) : Z := nth (Z.to_nat d) BASE58_ALPHABET 0.

Definition base58_encode (input : bytes) (output_size : Z) : option b58_result :=
  if (length input =? 0)%nat then
    Some (if output_size <? 1 then B58_ERROR else B58_OK [])
  else if (BIGINT_SIZE / 2 <? length input)%nat then Some B58_ERROR
  else
    let leading_zeros := leading 0 input in
    match bigint_read [] 256 input with
    | None => None
    | Some n =>
        match divmod_digits BIGINT_SIZE n 58 with
        | None => None
        | Some digits =>
            let total_len := (leading_zeros + length digits)%nat in
            if output_size <? Z.of_nat total_len then Some B58_ERROR
            else Some (B58_OK (replicate leading_zeros 49 ++ map alphabet_at (reverse digits)))
        end
    end.

(** [BASE58_MAP[(unsigned char)c]]. *)
Definition base58_digit (c : Z) : Z := nth (Z.to_nat (u8 c)) BASE58_MAP (-1).

(** The loop of [base58_decode]; [inl] is the return at a character outside
    the alphabet. *)
Fixpoint decode_loop (n : bigint) (s : bytes) : option (unit + bigint) :=
  match s with
  | [] => Some (inr n)
  | c :: t =>
      let val := base58_digit c in
      if val <? 0 then Some (inl ())
      else match bigint_push n 58 (u32 val) with
           | Some m => decode_loop m t
           | None => None
           end
  end.

Definition base58_decode (input : bytes) (output_size : Z) : option b58_result :=
  if (length input =? 0)%nat then Some (B58_OK [])
  else if (BIGINT_SIZE <? length input)%nat then Some B58_ERROR
  else
    let leading_ones := leading 49 input in
    match decode_loop [] (drop leading_ones input) with
    | None => None
    | Some (inl _) => Some B58_ERROR
    | Some (inr n) =>
        match divmod_digits BIGINT_SIZE n 256 with
        | None => None
        | Some ds =>
            let total_len := (leading_ones + length ds)%nat in
            if output_size <? Z.of_nat total_len then Some B58_ERROR
            else Some (B58_OK (replicate leading_ones 0 ++ reverse ds))
        end
    end.

(** ** Positional notation *)

(** The value of digits in base [b], least significant first. *)
Fixpoint digits_value (b : Z) (ds : list Z) : Z :=
  match ds with
  | [] => 0
  | d :: t => d + b * digits_value b t
  end.

Definition is_digits (b : Z) (ds : list Z) : Prop := Forall (fun d => 0 <= d < b) ds.

(** No superfluous digit at the most significant end. *)
Definition normal (b : Z) (ds : list Z) : Prop :=
  is_digits b ds /\ (ds = [] \/ b ^ (Z.of_nat (length ds) - 1) <= digits_value b ds).

Section Positional.
Variable b : Z.
Hypothesis Hb : 2 <= b.

Lemma digits_value_range ds :
  is_digits b ds -> 0 <= digits_value b ds < b ^ Z.of_nat (length ds).
Proof.
  induction 1 as [|d t Hd _ IH]; [simpl; lia|].
  cbn [digits_value length]. rewrite Nat2Z.inj_succ, Z.pow_succ_r by lia. nia.
Qed.

Lemma digits_value_app ds es :
  digits_value b (ds ++ es) = digits_value b ds + b ^ Z.of_nat (length ds) * digits_value b es.
Proof.
  induction ds as [|d t IH]; [cbn; lia|]. cbn [digits_value app length].
  rewrite IH, Nat2Z.inj_succ, Z.pow_succ_r by lia. ring.
Qed.

Lemma digits_eq ds es :
  is_digits b ds -> is_digits b es -> length ds = length es ->
  digits_value b ds = digits_value b es -> ds = es.
Proof.
  intros Hd. revert es. induction Hd as [|d t Hd _ IH]; intros [|e u] He Hl Hv; try done.
  apply Forall_cons in He as [He Hu]. cbn [digits_value] in Hv.
  assert (d = e /\ digits_value b t = digits_value b u) as [-> Ht].
  { assert (digits_value b t = digits_value b u); [|lia].
    destruct (Z.lt_trichotomy (digits_value b t) (digits_value b u)) as [?|[?|?]]; nia. }
  f_equal. apply IH; auto.
Qed.

(** The number of digits of a number is determined by its size. *)
Lemma normal_length_le ds n :
  normal b ds -> digits_value b ds < b ^ Z.of_nat n -> (length ds <= n)%nat.
Proof.
  intros [_ [->|Hv]] Hn; [simpl; lia|].
  assert (Z.of_nat (length ds) - 1 < Z.of_nat n); [|lia].
  apply (Z.pow_lt_mono_r_iff b); lia.
Qed.

(** Positional notation without leading zeros is unique. *)
Lemma normal_unique ds es :
  normal b ds -> normal b es -> digits_value b ds = digits_value b es -> ds = es.
Proof.
  intros Hd He Hv. apply digits_eq; [apply Hd|apply He| |done].
  apply Nat.le_antisymm; apply normal_length_le; try done.
  - rewrite Hv. apply digits_value_range, He.
  - rewrite <- Hv. apply digits_value_range, Hd.
Qed.

Lemma normal_zero ds : normal b ds -> digits_value b ds = 0 -> ds = [].
Proof.
  intros [_ [->|Hv]] H0; [done|]. destruct ds as [|d t]; [done|].
  cbn [length] in Hv. assert (0 < b ^ (Z.of_nat (S (length t)) - 1)) by (apply Z.pow_pos_nonneg; lia). lia.
Qed.

Lemma normal_nil : normal b [].
Proof. split; [constructor|by left]. Qed.

Lemma normal_snoc ds d : is_digits b ds -> 0 < d < b -> normal b (ds ++ [d]).
Proof.
  intros Hds Hd. split; [apply Forall_app; split; [done|by constructor; [lia|]]|]. right.
  rewrite digits_value_app, length_app. cbn [length digits_value].
  replace (Z.of_nat (length ds + 1) - 1) with (Z.of_nat (length ds)) by lia.
  pose proof (digits_value_range ds Hds). nia.
Qed.

Lemma normal_cons d t : 0 <= d < b -> normal b t -> t <> [] -> normal b (d :: t).
Proof.
  intros Hd [Ht [->|Hv]] Hne; [done|]. split; [by constructor|]. right.
  cbn [digits_value length]. destruct t as [|e t]; [done|]. cbn [length] in *.
  replace (Z.of_nat (S (S (length t))) - 1) with (Z.succ (Z.of_nat (S (length t)) - 1)) by lia.
  rewrite Z.pow_succ_r by lia. nia.
Qed.

Lemma trim_value ds : digits_value b (trim ds) = digits_value b ds.
Proof.
  induction ds as [|d t IH]; [done|]. cbn [trim digits_value].
  destruct (trim t) eqn:E; cbn [digits_value] in *; [bool_cases|]; lia.
Qed.

Lemma trim_normal ds : is_digits b ds -> normal b (trim ds).
Proof.
  induction 1 as [|d t Hd _ IH]; [apply normal_nil|]. cbn [trim].
  destruct (trim t) eqn:E.
  - destruct (Z.eqb_spec d 0); [apply normal_nil|].
    apply (normal_snoc []); [constructor|lia].
  - by apply normal_cons.
Qed.
End Positional.

(** ** The arithmetic on the workspace *)

Lemma land_255 z : Z.land z 255 = z mod 256.
Proof. exact (Z.land_ones z 8 ltac:(lia)). Qed.

Lemma shiftr_8 z : Z.shiftr z 8 = z / 256.
Proof. exact (Z.shiftr_div_pow2 z 8 ltac:(lia)). Qed.

Lemma lor_shiftl_8 r d : 0 <= d < 256 -> Z.lor (Z.shiftl r 8) d = r * 256 + d.
Proof.
  intros Hd. rewrite Z.shiftl_mul_pow2 by lia. change (2 ^ 8) with 256.
  rewrite Z.add_nocarry_lxor, Z.lxor_lor; [done| |];
    (apply Z.bits_inj'; intros i Hi; rewrite Z.land_spec, Z.bits_0;
     change 256 with (2 ^ 8); rewrite <- Z.shiftl_mul_pow2, Z.shiftl_spec by lia;
     destruct (Z.lt_ge_cases i 8);
     [by rewrite (Z.testbit_neg_r _ (i - 8)) by lia
     |by rewrite (testbit_above 8 d i), andb_false_r by lia]).
Qed.

#[local] Opaque BIGINT_SIZE.

Ltac div256 z := pose proof (Z.div_mod z 256 ltac:(lia)); pose proof (Z.mod_pos_bound z 256 ltac:(lia)).

Lemma carry_loop_spec fuel r c :
  is_digits 256 r -> 0 <= c < 256 ^ Z.of_nat fuel -> (c = 0 -> normal 256 r) ->
  digits_value 256 r + 256 ^ Z.of_nat (length r) * c < 256 ^ Z.of_nat BIGINT_SIZE ->
  exists r', carry_loop fuel r c = Some r' /\ normal 256 r' /\
    digits_value 256 r' = digits_value 256 r + 256 ^ Z.of_nat (length r) * c.
Proof.
  revert r c. induction fuel as [|k IH]; intros r c Hr Hc Hz Hs; cbn [carry_loop].
  - assert (c = 0) as -> by (simpl in Hc; lia). eexists. split_and!; [done|auto|lia].
  - destruct (Z.gtb_spec c 0) as [Hpos|Hle]; cycle 1.
    { assert (c = 0) as -> by lia. eexists. split_and!; [done|auto|lia]. }
    pose proof (digits_value_range 256 ltac:(lia) r Hr) as Hv.
    assert (length r < BIGINT_SIZE)%nat as Hl.
    { apply Nat2Z.inj_lt, (Z.pow_lt_mono_r_iff 256); nia. }
    rewrite (proj2 (Nat.ltb_lt _ _) Hl), land_255, shiftr_8. div256 c.
    rewrite Nat2Z.inj_succ, Z.pow_succ_r in Hc by lia.
    destruct (IH (r ++ [c mod 256]) (c / 256)) as (r' & -> & Hn & Hr').
    + apply Forall_app. split; [done|]. by constructor.
    + nia.
    + intros Hq. apply normal_snoc; [lia|done|lia].
    + rewrite digits_value_app, length_app, Nat2Z.inj_add, Z.pow_add_r by lia. simpl. nia.
    + eexists. split_and!; [done|done|]. rewrite Hr', digits_value_app, length_app, Nat2Z.inj_add, Z.pow_add_r by lia.
      simpl. nia.
Qed.

(** A digit list with the length of a normal one and at least its value. *)
Lemma normal_grow r r' :
  normal 256 r -> is_digits 256 r' -> length r' = length r ->
  digits_value 256 r <= digits_value 256 r' -> normal 256 r'.
Proof.
  intros [_ [->|Hv]] Hr' Hl Hle; (split; [done|]).
  - left. by apply nil_length_inv.
  - right. rewrite Hl. lia.
Qed.

Lemma multiply_loop_spec r f c :
  is_digits 256 r -> 0 < f <= 256 -> 0 <= c <= f ->
  exists r' c', multiply_loop r f c = (r', c') /\ is_digits 256 r' /\ length r' = length r /\
    0 <= c' <= f /\
    digits_value 256 r' + 256 ^ Z.of_nat (length r) * c' = f * digits_value 256 r + c.
Proof.
  intros Hr Hf. revert c. induction Hr as [|d t Hd _ IH]; intros c Hc.
  - exists [], c. split_and!; cbn [digits_value length Z.of_nat]; rewrite ?Z.pow_0_r; try constructor; lia.
  - cbn [multiply_loop]. rewrite (u32_small (d * f)), u32_small by (unfold is_u32; nia).
    rewrite land_255, shiftr_8. set (v := d * f + c). div256 v.
    destruct (IH (v / 256)) as (t' & c' & -> & Ht & Hl & Hc' & Hv); [nia|].
    eexists _, _. split_and!; [done|by constructor|by cbn; f_equal|lia|lia|].
    cbn [length digits_value]. rewrite Nat2Z.inj_succ, Z.pow_succ_r by lia. nia.
Qed.

Lemma add_loop_spec r c :
  is_digits 256 r -> 0 <= c < 256 ->
  exists r' c', add_loop r c = (r', c') /\ is_digits 256 r' /\ length r' = length r /\
    0 <= c' < 256 /\
    digits_value 256 r' + 256 ^ Z.of_nat (length r) * c' = digits_value 256 r + c.
Proof.
  intros Hr. revert c. induction Hr as [|d t Hd Ht IH]; intros c Hc.
  - exists [], c. split_and!; cbn [digits_value length Z.of_nat]; rewrite ?Z.pow_0_r; try constructor; lia.
  - cbn [add_loop]. destruct (Z.gtb_spec c 0) as [Hpos|Hle].
    + rewrite u32_small by (unfold is_u32; lia).
      rewrite land_255, shiftr_8. div256 (d + c).
      destruct (IH ((d + c) / 256)) as (t' & c' & -> & Ht' & Hl & Hc' & Hv); [nia|].
      eexists _, _. split_and!; [done|by constructor|by cbn; f_equal|lia|lia|].
      cbn [length digits_value]. rewrite Nat2Z.inj_succ, Z.pow_succ_r by lia. nia.
    + exists (d :: t), c. split_and!; try done; [by constructor|lia..].
Qed.

Lemma bigint_multiply_spec n f :
  normal 256 n -> 0 < f <= 256 -> f * digits_value 256 n < 256 ^ Z.of_nat BIGINT_SIZE ->
  exists m, bigint_multiply n f = Some m /\ normal 256 m /\ digits_value 256 m = f * digits_value 256 n.
Proof.
  intros Hn Hf Hs. unfold bigint_multiply.
  destruct (multiply_loop_spec n f 0) as (r & c & -> & Hr & Hl & Hc & Hv); [apply Hn|done|lia|].
  pose proof (digits_value_range 256 ltac:(lia) n (proj1 Hn)).
  destruct (carry_loop_spec 4 r c) as (m & -> & Hm & Hv'); [done|simpl; lia| |rewrite Hl; lia|].
  - intros ->. apply (normal_grow n); [done..|]. nia.
  - exists m. rewrite Hl in Hv'. split_and!; [done|done|lia].
Qed.

Lemma bigint_add_spec n v :
  normal 256 n -> 0 <= v < 256 -> digits_value 256 n + v < 256 ^ Z.of_nat BIGINT_SIZE ->
  exists m, bigint_add n v = Some m /\ normal 256 m /\ digits_value 256 m = digits_value 256 n + v.
Proof.
  intros Hn Hf Hs. unfold bigint_add.
  destruct (add_loop_spec n v) as (r & c & -> & Hr & Hl & Hc & Hv); [apply Hn|done|].
  destruct (carry_loop_spec 4 r c) as (m & -> & Hm & Hv'); [done|simpl; lia| |rewrite Hl; lia|].
  - intros ->. apply (normal_grow n); [done..|]. lia.
  - exists m. rewrite Hl in Hv'. split_and!; [done|done|lia].
Qed.

Lemma bigint_push_spec n base d :
  normal 256 n -> 0 <= d < base -> base <= 256 ->
  base * digits_value 256 n + d < 256 ^ Z.of_nat BIGINT_SIZE ->
  exists m, bigint_push n base d = Some m /\ normal 256 m /\
    digits_value 256 m = base * digits_value 256 n + d.
Proof.
  intros Hn Hd Hb Hs. unfold bigint_push.
  destruct (bigint_multiply_spec n base) as (m & -> & Hm & Hv); [done|lia|lia|].
  destruct (bigint_add_spec m d) as (k & -> & Hk & Hv'); [done|lia|lia|].
  exists k. split_and!; [done|done|lia].
Qed.

Lemma divmod_loop_spec n v :
  is_digits 256 n -> 2 <= v <= 256 ->
  exists q r, divmod_loop n v = (q, r) /\ is_digits 256 q /\ 0 <= r < v /\
    digits_value 256 n = v * digits_value 256 q + r.
Proof.
  intros Hn Hv. induction Hn as [|d t Hd _ (q & r & E & Hq & Hr & IH)].
  - exists [], 0. split_and!; cbn [digits_value]; try constructor; lia.
  - cbn [divmod_loop]. rewrite E.
    rewrite (u32_small (Z.shiftl r 8)); cycle 1.
    { rewrite Z.shiftl_mul_pow2 by lia. unfold is_u32. lia. }
    rewrite lor_shiftl_8 by done.
    set (w := r * 256 + d). pose proof (Z.div_mod w v ltac:(lia)).
    pose proof (Z.mod_pos_bound w v ltac:(lia)).
    assert (0 <= w / v < 256) as Hw.
    { split; [apply Z.div_pos; lia|]. apply Z.div_lt_upper_bound; lia. }
    eexists _, _. rewrite u8_small by done. split_and!; [done|by constructor|lia|lia|].
    cbn [digits_value]. lia.
Qed.

Lemma bigint_divmod_spec n v :
  is_digits 256 n -> 2 <= v <= 256 ->
  exists q r, bigint_divmod n v = (q, r) /\ normal 256 q /\ 0 <= r < v /\
    digits_value 256 n = v * digits_value 256 q + r.
Proof.
  intros Hn Hv. unfold bigint_divmod.
  destruct (divmod_loop_spec n v) as (q & r & -> & Hq & Hr & E); [done..|].
  eexists _, _. rewrite u8_small by (unfold is_u8; lia).
  split_and!; [done|apply trim_normal; [lia|done]|lia|lia|]. rewrite trim_value by lia. done.
Qed.

(** Repeated division gives the digits in the new base, and stops before the
    digit buffer is full. *)
Lemma divmod_digits_spec room n v :
  normal 256 n -> 2 <= v <= 256 -> digits_value 256 n < v ^ Z.of_nat room ->
  exists ds, divmod_digits room n v = Some ds /\ normal v ds /\
    digits_value v ds = digits_value 256 n.
Proof.
  intros Hn Hv. revert n Hn. induction room as [|k IH]; intros n Hn Hs.
  - assert (n = []) as -> by (apply (normal_zero 256); [lia|done|];
      pose proof (digits_value_range 256 ltac:(lia) n (proj1 Hn)); simpl in Hs; lia).
    exists []. split_and!; [done|apply normal_nil|done].
  - destruct n as [|d t]; [exists []; split_and!; [done|apply normal_nil|done]|].
    cbn [divmod_digits].
    destruct (bigint_divmod_spec (d :: t) v) as (q & r & -> & Hq & Hr & E); [apply Hn|done|].
    rewrite Nat2Z.inj_succ, Z.pow_succ_r in Hs by lia.
    destruct (IH q Hq) as (ds & -> & Hds & Hval); [nia|].
    exists (r :: ds). split_and!; [done| |rewrite E, <- Hval; cbn [digits_value]; lia].
    destruct ds as [|e u]; [|by apply (normal_cons v ltac:(lia))].
    apply (normal_snoc v ltac:(lia) []); [constructor|].
    destruct (Z.eq_dec r 0) as [->|]; [|lia]. exfalso.
    cbn [digits_value] in Hval.
    assert (d :: t = []); [|done]. apply (normal_zero 256); [lia|done|rewrite E, <- Hval; lia].
Qed.

(** ** Reading a number in *)

(** The value of digits in base [b], most significant first. *)
Definition be_digits_value (b : Z) (ds : list Z) : Z := digits_value b (reverse ds).

Lemma be_digits_value_snoc b ds d :
  be_digits_value b (ds ++ [d]) = b * be_digits_value b ds + d.
Proof. unfold be_digits_value. rewrite reverse_snoc. cbn [digits_value]. lia. Qed.

Lemma be_digits_value_range b ds :
  2 <= b -> is_digits b ds -> 0 <= be_digits_value b ds < b ^ Z.of_nat (length ds).
Proof.
  intros Hb Hd. rewrite <- length_reverse. by apply digits_value_range, Forall_reverse.
Qed.

Lemma be_digits_value_app_zeros b z ds :
  be_digits_value b (replicate z 0 ++ ds) = be_digits_value b ds.
Proof.
  unfold be_digits_value. rewrite reverse_app, reverse_replicate.
  induction (reverse ds) as [|d t IH]; cbn [app digits_value]; [|lia].
  induction z as [|z IH]; cbn [replicate digits_value]; lia.
Qed.

Lemma bigint_read_spec n base (pre ds : list Z) :
  normal 256 n -> 2 <= base <= 256 -> is_digits base (pre ++ ds) ->
  digits_value 256 n = be_digits_value base pre ->
  (length pre + length ds <= BIGINT_SIZE)%nat ->
  exists m, bigint_read n base ds = Some m /\ normal 256 m /\
    digits_value 256 m = be_digits_value base (pre ++ ds).
Proof.
  intros Hn Hb. revert n pre Hn. induction ds as [|d t IH]; intros n pre Hn Hd Hv Hl.
  - exists n. by rewrite app_nil_r.
  - cbn [bigint_read length] in *. rewrite cons_middle, app_assoc in Hd |- *.
    pose proof (proj1 (Forall_app _ _ _) Hd) as [Hd' _].
    pose proof (be_digits_value_range base _ ltac:(lia) Hd') as Hr.
    destruct (bigint_push_spec n base d) as (m & -> & Hm & Hv'); [done| |lia| |].
    + apply Forall_app in Hd' as [_ Hd']. apply Forall_cons in Hd' as [Hd' _]. exact Hd'.
    + rewrite Hv, <- be_digits_value_snoc. apply Z.lt_le_trans with (1 := proj2 Hr).
      rewrite length_app. cbn [length].
      etrans; [apply (Z.pow_le_mono_l _ 256); lia|]. apply Z.pow_le_mono_r; lia.
    + apply IH; [done..| |rewrite length_app; cbn; lia].
      by rewrite Hv', Hv, be_digits_value_snoc.
Qed.

Lemma base58_digit_lt c : base58_digit c < 58.
Proof.
  assert (forallb (fun d => d <? 58) BASE58_MAP = true) as H by (vm_compute; done).
  rewrite forallb_forall in H. unfold base58_digit.
  destruct (nth_in_or_default (Z.to_nat (u8 c)) BASE58_MAP (-1)) as [Hin| ->]; [|lia].
  by apply Z.ltb_lt, H.
Qed.

Lemma decode_loop_valid n s :
  Forall (fun c => 0 <= base58_digit c) s ->
  decode_loop n s = inr <$> bigint_read n 58 (map base58_digit s).
Proof.
  intros Hs. revert n. induction Hs as [|c t Hc _ IH]; intros n; [done|].
  cbn [decode_loop map bigint_read].
  destruct (Z.ltb_spec (base58_digit c) 0); [lia|].
  pose proof (base58_digit_lt c).
  rewrite u32_small by (unfold is_u32; lia). destruct (bigint_push n 58 (base58_digit c)); [apply IH|done].
Qed.

(** ** The alphabet *)

Lemma alphabet_digit d : 0 <= d < 58 -> base58_digit (alphabet_at d) = d.
Proof.
  intros Hd. assert (forallb (fun d => base58_digit (alphabet_at d) =? d)
    (map Z.of_nat (seq 0 58)) = true) as H by (vm_compute; done).
  rewrite forallb_forall in H. apply Z.eqb_eq, H, in_map_iff.
  exists (Z.to_nat d). split; [lia|]. apply in_seq. lia.
Qed.

Lemma digit_alphabet c :
  is_u8 c -> 0 <= base58_digit c -> base58_digit c < 58 /\ alphabet_at (base58_digit c) = c.
Proof.
  intros Hc Hd. assert (forallb (fun c => (base58_digit c <? 0) ||
    ((base58_digit c <? 58) && (alphabet_at (base58_digit c) =? c)))
    (map Z.of_nat (seq 0 256)) = true) as H by (vm_compute; done).
  rewrite forallb_forall in H. specialize (H c). destruct (Z.ltb_spec (base58_digit c) 0); [lia|].
  apply andb_true_iff in H as [H1 H2]; [by rewrite <- Z.ltb_lt, <- Z.eqb_eq|].
  apply in_map_iff. exists (Z.to_nat c). unfold is_u8 in Hc. split; [lia|]. apply in_seq. lia.
Qed.

Lemma alphabet_not_one d : 0 < d < 58 -> alphabet_at d <> 49.
Proof.
  intros Hd E. pose proof (alphabet_digit d ltac:(lia)) as H. rewrite E in H.
  vm_compute in H. lia.
Qed.

Lemma map_alphabet_digit ds : is_digits 58 ds -> map base58_digit (map alphabet_at ds) = ds.
Proof.
  induction 1 as [|d t Hd _ IH]; [done|]. cbn [map]. by rewrite IH, alphabet_digit.
Qed.

Lemma map_digit_alphabet s :
  is_bytes s -> Forall (fun c => 0 <= base58_digit c) s ->
  is_digits 58 (map base58_digit s) /\ map alphabet_at (map base58_digit s) = s.
Proof.
  induction 1 as [|c t Hc _ IH]; intros Hs; [by split; [constructor|]|].
  apply Forall_cons in Hs as [Hd Hs]. destruct (IH Hs) as [IH1 IH2].
  destruct (digit_alphabet c Hc Hd) as [Hlt He]. cbn [map]. rewrite IH2, He.
  split; [by constructor|done].
Qed.

(** ** Leading zeros and ones *)

Lemma leading_app x z l : leading x (replicate z x ++ l) = (z + leading x l)%nat.
Proof.
  induction z as [|z IH]; [done|]. cbn [replicate app leading]. by rewrite Z.eqb_refl, IH.
Qed.

Lemma leading_spec x l :
  replicate (leading x l) x ++ drop (leading x l) l = l /\ leading x (drop (leading x l) l) = O.
Proof.
  induction l as [|y t [IH1 IH2]]; [done|]. cbn [leading]. destruct (Z.eqb_spec y x) as [->|Hne].
  - cbn [replicate app drop]. by rewrite IH1.
  - cbn [replicate app drop leading]. by rewrite (proj2 (Z.eqb_neq _ _) Hne).
Qed.

Lemma leading_length x l : (leading x l <= length l)%nat.
Proof.
  induction l as [|y t IH]; [done|]. cbn [leading length]. destruct (y =? x); lia.
Qed.

(** Digits most significant first without a leading zero are in normal form. *)
Lemma normal_reverse b ds : 2 <= b -> is_digits b ds -> leading 0 ds = O -> normal b (reverse ds).
Proof.
  intros Hb Hd Hl. destruct ds as [|d t]; [apply normal_nil|].
  apply Forall_cons in Hd as [Hd Ht]. cbn [leading] in Hl.
  destruct (Z.eqb_spec d 0); [done|]. rewrite reverse_cons.
  apply normal_snoc; [done|by apply Forall_reverse|lia].
Qed.

Lemma leading_normal b ds : 2 <= b -> normal b ds -> leading 0 (reverse ds) = O.
Proof.
  intros Hb [Hd Hv]. destruct ds as [|d ds] using rev_ind; [done|].
  destruct Hv as [Hv|Hv]; [by destruct ds|]. rewrite reverse_snoc. cbn [leading].
  destruct (Z.eqb_spec d 0) as [->|]; [|done]. exfalso.
  apply Forall_app in Hd as [Hd _]. pose proof (digits_value_range b Hb ds Hd).
  rewrite digits_value_app, length_app in Hv by done. cbn [length digits_value] in Hv.
  replace (Z.of_nat (length ds + 1) - 1) with (Z.of_nat (length ds)) in Hv by lia. lia.
Qed.

Lemma leading_alphabet ds :
  is_digits 58 ds -> leading 0 ds = O -> leading 49 (map alphabet_at ds) = O.
Proof.
  intros Hd Hl. destruct ds as [|d t]; [done|]. apply Forall_cons in Hd as [Hd _].
  cbn [leading map] in *. destruct (Z.eqb_spec d 0); [done|].
  destruct (Z.eqb_spec (alphabet_at d) 49) as [E|]; [|done]. by apply alphabet_not_one in E; [|lia].
Qed.

Lemma map_digit_ones z s :
  map base58_digit (replicate z 49 ++ s) = replicate z 0 ++ map base58_digit s.
Proof. induction z as [|z IH]; [done|]. cbn [replicate app map]. by rewrite IH. Qed.

(** ** The codec against positional notation *)

Definition is_base58 (s : bytes) : Prop := is_bytes s /\ Forall (fun c => 0 <= base58_digit c) s.

(** [s] is the Base58 notation of [input]: the same number, and one '1' for
    each leading zero byte. *)
Definition base58_represents (input s : bytes) : Prop :=
  is_base58 s /\ leading 49 s = leading 0 input /\
  be_digits_value 58 (map base58_digit s) = be_digits_value 256 input.

(** A digit list is determined by its leading zeros and its value. *)
Lemma digits_determined b ds es :
  2 <= b -> is_digits b ds -> is_digits b es -> leading 0 ds = leading 0 es ->
  be_digits_value b ds = be_digits_value b es -> ds = es.
Proof.
  intros Hb Hd He Hl Hv.
  destruct (leading_spec 0 ds) as [Ed Zd], (leading_spec 0 es) as [Ee Ze].
  rewrite <- Ed in Hd, Hv |- *. rewrite <- Ee in He, Hv |- *. rewrite <- Hl in *.
  apply Forall_app in Hd as [_ Hd], He as [_ He].
  rewrite !be_digits_value_app_zeros in Hv. f_equal.
  apply (inj reverse), (normal_unique b Hb); [by apply normal_reverse..|done].
Qed.

Lemma leading_map_digit s : is_base58 s -> leading 0 (map base58_digit s) = leading 49 s.
Proof.
  intros [Hb Hs]. induction s as [|c t IH]; [done|].
  apply Forall_cons in Hb as [Hc Hb], Hs as [Hd Hs]. cbn [map leading].
  destruct (digit_alphabet c Hc Hd) as [_ Ha]. rewrite IH by done.
  destruct (Z.eqb_spec (base58_digit c) 0) as [E|], (Z.eqb_spec c 49) as [->|]; try done.
  by rewrite E in Ha; vm_compute in Ha.
Qed.

(** A text represents one byte string, and a byte string has one text. *)
Lemma represents_input x y s :
  is_bytes x -> is_bytes y -> base58_represents x s -> base58_represents y s -> x = y.
Proof.
  intros Hx Hy (_ & L1 & V1) (_ & L2 & V2). apply (digits_determined 256); try done; congruence.
Qed.

Lemma represents_text x s t : base58_represents x s -> base58_represents x t -> s = t.
Proof.
  intros (Hs & L1 & V1) (Ht & L2 & V2).
  destruct (map_digit_alphabet s) as [Ds Es]; [apply Hs..|].
  destruct (map_digit_alphabet t) as [Dt Et]; [apply Ht..|].
  rewrite <- Es, <- Et. f_equal. apply (digits_determined 58); try done.
  - rewrite !leading_map_digit by done. congruence.
  - congruence.
Qed.

Lemma is_bytes_digits s : is_bytes s -> is_digits 256 s.
Proof. done. Qed.

Lemma value_below_workspace b n (k : nat) :
  2 <= b <= 256 -> n < b ^ Z.of_nat k -> (k <= BIGINT_SIZE)%nat -> n < 256 ^ Z.of_nat BIGINT_SIZE.
Proof.
  intros Hb Hn Hk. apply Z.lt_le_trans with (1 := Hn).
  etrans; [apply (Z.pow_le_mono_l _ 256); lia|]. apply Z.pow_le_mono_r; lia.
Qed.

Lemma is_base58_ones z : is_base58 (replicate z 49).
Proof. split; apply Forall_replicate; [unfold is_u8; lia|done]. Qed.

Lemma is_base58_alphabet ds : is_digits 58 ds -> is_base58 (map alphabet_at ds).
Proof.
  intros Hd. split; induction Hd as [|d t Hd _ IH]; constructor; try done.
  - unfold alphabet_at. destruct (nth_in_or_default (Z.to_nat d) BASE58_ALPHABET 0) as [Hin| ->]; [|done].
    assert (forallb (fun c => (0 <=? c) && (c <? 256)) BASE58_ALPHABET = true) as H by (vm_compute; done).
    rewrite forallb_forall in H. apply H, andb_true_iff in Hin. unfold is_u8. lia.
  - rewrite alphabet_digit by done. lia.
Qed.

(** The encoder computes the notation and compares the room with its length. *)
Lemma base58_encode_represents input output_size :
  is_bytes input -> input <> [] -> (length input <= BIGINT_SIZE / 2)%nat ->
  exists s, base58_represents input s /\
    base58_encode input output_size =
      Some (if output_size <? Z.of_nat (length s) then B58_ERROR else B58_OK s).
Proof.
  intros Hb Hne Hl. unfold base58_encode.
  rewrite (proj2 (Nat.eqb_neq (length input) 0)) by (by destruct input).
  rewrite (proj2 (Nat.ltb_ge _ _) Hl).
  assert (BIGINT_SIZE / 2 * 2 = BIGINT_SIZE)%nat as Hhalf by (vm_compute; done).
  assert (length input <= BIGINT_SIZE)%nat as Hl' by lia.
  pose proof (is_bytes_digits input Hb) as Hd.
  destruct (bigint_read_spec [] 256 [] input) as (n & -> & Hn & Hv);
    [apply normal_nil|lia|done|done|done|].
  pose proof (be_digits_value_range 256 input ltac:(lia) Hd) as Hr.
  destruct (divmod_digits_spec BIGINT_SIZE n 58) as (ds & -> & Hds & Hval); [done|lia| |].
  { rewrite Hv. cbn [app]. apply Z.lt_le_trans with (1 := proj2 Hr).
    etrans; [apply (Z.pow_le_mono_l 256 (58 ^ 2)); lia|].
    rewrite <- Z.pow_mul_r by lia. apply Z.pow_le_mono_r; lia. }
  exists (replicate (leading 0 input) 49 ++ map alphabet_at (reverse ds)).
  assert (is_digits 58 (reverse ds)) as Hdr by apply Forall_reverse, Hds.
  split; [split_and!|].
  - destruct (is_base58_ones (leading 0 input)), (is_base58_alphabet _ Hdr).
    split; by apply Forall_app.
  - rewrite leading_app, leading_alphabet; [lia|done|]. by apply (leading_normal 58).
  - rewrite map_digit_ones, be_digits_value_app_zeros, map_alphabet_digit by done.
    unfold be_digits_value at 1. rewrite reverse_involutive, Hval, Hv. done.
  - rewrite length_app, length_replicate, length_map, length_reverse. by case_match.
Qed.

(** The decoder recovers the bytes a text in the alphabet represents. *)
Lemma base58_decode_represents s output_size :
  is_base58 s -> s <> [] -> (length s <= BIGINT_SIZE)%nat ->
  exists x, is_bytes x /\ base58_represents x s /\
    base58_decode s output_size =
      Some (if output_size <? Z.of_nat (length x) then B58_ERROR else B58_OK x).
Proof.
  intros [Hb Hs] Hne Hl. unfold base58_decode.
  rewrite (proj2 (Nat.eqb_neq (length s) 0)) by (by destruct s).
  rewrite (proj2 (Nat.ltb_ge _ _) Hl).
  destruct (leading_spec 49 s) as [Es Ls]. set (z := leading 49 s) in *. set (t := drop z s) in *.
  assert (is_base58 t) as [Htb Hts] by (split; by apply Forall_drop).
  destruct (map_digit_alphabet t Htb Hts) as [Ht _].
  rewrite decode_loop_valid by done.
  assert (length (map base58_digit t) <= BIGINT_SIZE)%nat as Hlt.
  { rewrite length_map. unfold t. rewrite length_drop. lia. }
  destruct (bigint_read_spec [] 58 [] (map base58_digit t)) as (n & -> & Hn & Hv);
    [apply normal_nil|lia|done|done|done|].
  pose proof (be_digits_value_range 58 _ ltac:(lia) Ht) as Hr.
  destruct (divmod_digits_spec BIGINT_SIZE n 256) as (ds & E & Hds & Hval); [done|lia| |].
  { rewrite Hv. apply (value_below_workspace 58 _ (length (map base58_digit t))); [lia|apply Hr|done]. }
  cbn [fmap option_fmap option_map]. rewrite E.
  exists (replicate z 0 ++ reverse ds). split_and!.
  - apply Forall_app. split; [by apply Forall_replicate|apply Forall_reverse, Hds].
  - split_and!; [done| |].
    + rewrite leading_app, (leading_normal 256); [fold z; lia|lia|done].
    + rewrite be_digits_value_app_zeros. unfold be_digits_value at 2.
      rewrite reverse_involutive, Hval, Hv, <- Es, map_digit_ones. apply be_digits_value_app_zeros.
  - rewrite length_app, length_replicate, length_reverse. by case_match.
Qed.

(** ** Lengths *)

(** Change of base: if [b^p <= c^q], a number of [m] digits in base [b] has at
    most [m * q / p + 1] digits in base [c]. *)
Lemma change_of_base b c p q ds (m : nat) :
  2 <= b -> 2 <= c -> 0 < p -> 0 < q -> b ^ p <= c ^ q ->
  normal c ds -> digits_value c ds < b ^ Z.of_nat m ->
  Z.of_nat (length ds) <= Z.of_nat m * q / p + 1.
Proof.
  intros Hb Hc Hp Hq Hpq [Hd [->|Hv]] Hlt; [cbn; pose proof (Z.div_pos (Z.of_nat m * q) p); lia|].
  destruct (Z.eq_dec (Z.of_nat (length ds)) 0) as [->|Hz];
    [pose proof (Z.div_pos (Z.of_nat m * q) p); lia|].
  set (k := Z.of_nat (length ds) - 1) in *.
  assert (k <= Z.of_nat m * q / p); [|lia]. apply Z.div_le_lower_bound; [lia|].
  apply (Z.pow_le_mono_r_iff c); [lia..|].
  rewrite Z.mul_comm, Z.pow_mul_r, (Z.mul_comm _ q), Z.pow_mul_r by lia.
  apply Z.le_trans with ((b ^ Z.of_nat m) ^ p); [apply Z.pow_le_mono_l; lia|].
  rewrite <- Z.pow_mul_r, Z.mul_comm, Z.pow_mul_r by lia. apply Z.pow_le_mono_l. lia.
Qed.

Lemma encoded_ratio : 256 ^ 100 <= 58 ^ 138.
Proof. apply Z.leb_le. vm_compute. done. Qed.

Lemma decoded_ratio : 58 ^ 1000 <= 256 ^ 733.
Proof. apply Z.leb_le. vm_compute. done. Qed.

(** Digits of the same number in two bases, with the same leading zeros. *)
Lemma change_of_base_leading b c p q ds es :
  2 <= b -> 2 <= c -> 0 < p -> 0 < q -> b ^ p <= c ^ q ->
  is_digits b ds -> is_digits c es -> leading 0 ds = leading 0 es ->
  be_digits_value b ds = be_digits_value c es ->
  let z := Z.of_nat (leading 0 ds) in
  Z.of_nat (length es) <= z + ((Z.of_nat (length ds) - z) * q / p + 1).
Proof.
  intros Hb Hc Hp Hq Hpq Hd He Hl Hv z.
  destruct (leading_spec 0 ds) as [Ed Zd], (leading_spec 0 es) as [Ee Ze].
  pose proof (leading_length 0 ds). pose proof (leading_length 0 es).
  rewrite <- Ed, <- Ee, !be_digits_value_app_zeros in Hv.
  assert (is_digits b (drop (leading 0 ds) ds)) as Hdd by by apply Forall_drop.
  assert (is_digits c (drop (leading 0 es) es)) as Hde by by apply Forall_drop.
  pose proof (change_of_base b c p q (reverse (drop (leading 0 es) es))
    (length (drop (leading 0 ds) ds)) Hb Hc Hp Hq Hpq) as Hcb.
  rewrite length_reverse, !length_drop in Hcb.
  pose proof (be_digits_value_range b _ Hb Hdd) as Hr. rewrite length_drop, Hv in Hr.
  specialize (Hcb ltac:(by apply normal_reverse) ltac:(apply Hr)).
  unfold z. rewrite !Nat2Z.inj_sub in Hcb by lia. rewrite Hl in *. lia.
Qed.

Lemma represents_encoded_length x s :
  is_bytes x -> base58_represents x s -> Z.of_nat (length x) <= 2 ^ 32 ->
  Z.of_nat (length s) <= base58_encoded_length (Z.of_nat (length x)).
Proof.
  intros Hx (Hs & Hl & Hv) Hn. destruct (map_digit_alphabet s) as [Hd _]; [apply Hs..|].
  rewrite <- leading_map_digit in Hl by done.
  pose proof (change_of_base_leading 256 58 100 138 x (map base58_digit s)) as H.
  rewrite length_map in H. specialize (H ltac:(lia) ltac:(lia) ltac:(lia) ltac:(lia) encoded_ratio Hx Hd).
  specialize (H (eq_sym Hl) (eq_sym Hv)). cbv zeta in H. pose proof (leading_length 0 x).
  unfold base58_encoded_length. rewrite (u64_small (_ * 138)) by (unfold is_u64; lia).
  rewrite u64_small by (unfold is_u64; Z.to_euclidean_division_equations; lia).
  Z.to_euclidean_division_equations. lia.
Qed.

(** The room [base58_decoded_length] allows for is enough as long as the text
    has at most three leading ones. *)
Lemma represents_decoded_length x s :
  is_bytes x -> base58_represents x s -> Z.of_nat (length s) <= 2 ^ 32 ->
  (leading 0 x <= 3)%nat ->
  Z.of_nat (length x) <= base58_decoded_length (Z.of_nat (length s)).
Proof.
  intros Hx (Hs & Hl & Hv) Hn Hz. destruct (map_digit_alphabet s) as [Hd _]; [apply Hs..|].
  rewrite <- leading_map_digit in Hl by done.
  pose proof (change_of_base_leading 58 256 1000 733 (map base58_digit s) x) as H.
  rewrite length_map in H. specialize (H ltac:(lia) ltac:(lia) ltac:(lia) ltac:(lia) decoded_ratio Hd Hx).
  specialize (H Hl Hv). cbv zeta in H. pose proof (leading_length 0 (map base58_digit s)) as Hll.
  rewrite length_map in Hll. rewrite Hl in *.
  unfold base58_decoded_length. rewrite (u64_small (_ * 733)) by (unfold is_u64; lia).
  rewrite u64_small by (unfold is_u64; Z.to_euclidean_division_equations; lia).
  Z.to_euclidean_division_equations. lia.
Qed.

(** ** A character outside the alphabet *)

Lemma decode_loop_invalid n (pre : list Z) s :
  normal 256 n -> is_digits 58 pre -> digits_value 256 n = be_digits_value 58 pre ->
  (length pre + length s <= BIGINT_SIZE)%nat ->
  ~ Forall (fun c => 0 <= base58_digit c) s -> decode_loop n s = Some (inl ()).
Proof.
  revert n pre. induction s as [|c t IH]; intros n pre Hn Hp Hv Hl Hs; [by destruct Hs|].
  cbn [decode_loop length] in *. destruct (Z.ltb_spec (base58_digit c) 0) as [|Hc]; [done|].
  pose proof (base58_digit_lt c) as Hlt. rewrite u32_small by (unfold is_u32; lia).
  assert (is_digits 58 (pre ++ [base58_digit c])) as Hp'
    by (apply Forall_app; split; [done|by constructor]).
  pose proof (be_digits_value_range 58 _ ltac:(lia) Hp') as Hr.
  destruct (bigint_push_spec n 58 (base58_digit c)) as (m & -> & Hm & Hv'); [done|lia|lia| |].
  - rewrite Hv, <- be_digits_value_snoc.
    apply (value_below_workspace 58 _ (length (pre ++ [base58_digit c]))); [lia|lia|].
    rewrite length_app. cbn. lia.
  - apply (IH m (pre ++ [base58_digit c])); [done..| | |].
    + by rewrite Hv', Hv, be_digits_value_snoc.
    + rewrite length_app. cbn. lia.
    + intros Ht. apply Hs. by constructor.
Qed.

Lemma base58_decode_invalid s output_size :
  ~ Forall (fun c => 0 <= base58_digit c) s -> base58_decode s output_size = Some B58_ERROR.
Proof.
  intros Hs. unfold base58_decode. destruct (Nat.eqb_spec (length s) 0) as [E|_].
  { apply nil_length_inv in E. subst. by destruct Hs. }
  destruct (Nat.ltb_spec BIGINT_SIZE (length s)) as [|Hl]; [done|].
  rewrite (decode_loop_invalid [] []); [done|apply normal_nil|constructor|done| |].
  - rewrite length_drop. cbn. lia.
  - intros Hd. apply Hs. rewrite <- (proj1 (leading_spec 49 s)).
    apply Forall_app. split; [by apply Forall_replicate|done].
Qed.

(** ** The properties *)

(** C34: neither routine writes past its workspace or past the room the caller
    gives it, whatever the input; a text the encoder returns has at most
    [base58_encoded_length] characters. *)
Theorem base58_bounds input s output_size :
  is_bytes input -> is_bytes s ->
  (exists r, base58_encode input output_size = Some r /\
     forall t, r = B58_OK t ->
       Z.of_nat (length t) <= Z.max 0 output_size /\
       Z.of_nat (length t) <= base58_encoded_length (Z.of_nat (length input))) /\
  (exists r, base58_decode s output_size = Some r /\
     forall x, r = B58_OK x -> Z.of_nat (length x) <= Z.max 0 output_size).
Proof.
  intros Hi Hs. split.
  - destruct (decide (input = [])) as [->|Hne].
    { unfold base58_encode. cbn. eexists. split; [done|]. intros t Ht.
      case_match; simplify_eq. cbn. split; [lia|]. vm_compute. done. }
    destruct (Nat.ltb_spec (BIGINT_SIZE / 2) (length input)) as [Hl|Hl].
    { exists B58_ERROR. split; [|done]. unfold base58_encode.
      rewrite (proj2 (Nat.eqb_neq (length input) 0)) by lia. by rewrite (proj2 (Nat.ltb_lt _ _) Hl). }
    destruct (base58_encode_represents input output_size Hi Hne Hl) as (t & Ht & ->).
    eexists. split; [done|]. intros t' E. case_match; simplify_eq.
    split; [lia|]. apply represents_encoded_length; [done..|].
    assert (Z.of_nat (BIGINT_SIZE / 2) <= 2 ^ 32) by (vm_compute; done). lia.
  - destruct (decide (Forall (fun c => 0 <= base58_digit c) s)) as [Hv|Hv]; cycle 1.
    { exists B58_ERROR. by rewrite base58_decode_invalid. }
    destruct (decide (s = [])) as [->|Hne].
    { eexists. split; [done|]. intros x [= <-]. cbn. lia. }
    destruct (Nat.ltb_spec BIGINT_SIZE (length s)) as [Hl|Hl].
    { exists B58_ERROR. split; [|done]. unfold base58_decode.
      rewrite (proj2 (Nat.eqb_neq (length s) 0)) by lia. by rewrite (proj2 (Nat.ltb_lt _ _) Hl). }
    destruct (base58_decode_represents s output_size (conj Hs Hv) Hne Hl) as (x & _ & _ & ->).
    eexists. split; [done|]. intros x' E. case_match; simplify_eq. lia.
Qed.

Lemma base58_bounds_witness :
  is_bytes [0; 255] /\ is_bytes [49; 53] /\ exists r, base58_decode [49; 53] 1 = Some r /\
     forall x, r = B58_OK x -> Z.of_nat (length x) <= Z.max 0 1.
Proof.
  assert (is_bytes [0; 255]) as H1 by (repeat constructor; unfold is_u8; lia).
  assert (is_bytes [49; 53]) as H2 by (repeat constructor; unfold is_u8; lia).
  split_and!; [done|done|]. exact (proj2 (base58_bounds [0; 255] [49; 53] 1 H1 H2)).
Defined.

Lemma represents_nil_iff x s : base58_represents x s -> is_bytes x -> x <> [] -> s <> [].
Proof.
  intros (Hs & Hl & Hv) Hx Hne ->. apply Hne. apply (digits_determined 256); [done|done|constructor| |].
  - by rewrite <- Hl.
  - by rewrite <- Hv.
Qed.

Lemma base58_encoded_length_mono x s :
  is_bytes x -> base58_represents x s -> (length x <= BIGINT_SIZE / 2)%nat ->
  Z.of_nat (length s) <= base58_encoded_length (Z.of_nat (length x)) <= Z.of_nat BIGINT_SIZE.
Proof.
  intros Hx Hs Hl. assert (Z.of_nat (BIGINT_SIZE / 2) = 2048) as H2048 by (vm_compute; done).
  split; [apply represents_encoded_length; [done..|lia]|]. unfold base58_encoded_length.
  rewrite (u64_small (_ * 138)) by (unfold is_u64; lia).
  rewrite u64_small by (unfold is_u64; Z.to_euclidean_division_equations; lia).
  change (Z.of_nat BIGINT_SIZE) with 4096. Z.to_euclidean_division_equations. lia.
Qed.

(** Encoding into at least [base58_encoded_length] characters, and back. *)
Lemma base58_encode_decode x size :
  is_bytes x -> (length x <= BIGINT_SIZE / 2)%nat -> x <> [] ->
  base58_encoded_length (Z.of_nat (length x)) <= size ->
  exists s,
    base58_represents x s /\ s <> [] /\ base58_encode x size = Some (B58_OK s) /\
    (forall room, Z.of_nat (length x) <= room -> base58_decode s room = Some (B58_OK x)) /\
    ((leading 0 x <= 3)%nat ->
     base58_decode s (base58_decoded_length (Z.of_nat (length s))) = Some (B58_OK x)).
Proof.
  intros Hx Hl Hne Hsize.
  destruct (base58_encode_represents x size Hx Hne Hl) as (s & Hs & E).
  pose proof (base58_encoded_length_mono x s Hx Hs Hl) as Hlen.
  rewrite (proj2 (Z.ltb_ge _ _)) in E by lia.
  assert (forall room, Z.of_nat (length x) <= room -> base58_decode s room = Some (B58_OK x)) as Hd.
  { intros room Hroom.
    destruct (base58_decode_represents s room (proj1 Hs)) as (y & Hy & Hr & ->);
      [by apply (represents_nil_iff x)|lia|].
    rewrite (represents_input y x s) by done. by rewrite (proj2 (Z.ltb_ge _ _) Hroom). }
  exists s. split_and!; [done|by apply (represents_nil_iff x)|done|done|]. intros Hz. apply Hd.
  apply represents_decoded_length; [done..| |done].
  change (Z.of_nat BIGINT_SIZE) with 4096 in Hlen. lia.
Qed.

(** The encoder succeeds with the room [base58_encoded_length] gives, and
    decoding its text gives the bytes back in any buffer they fit; the room
    [base58_decoded_length] gives is enough for at most three leading zeros. *)
Theorem base58_roundtrip x :
  is_bytes x -> (length x <= BIGINT_SIZE / 2)%nat ->
  exists s,
    base58_encode x (base58_encoded_length (Z.of_nat (length x))) = Some (B58_OK s) /\
    (forall room, Z.of_nat (length x) <= room -> base58_decode s room = Some (B58_OK x)) /\
    ((leading 0 x <= 3)%nat ->
     base58_decode s (base58_decoded_length (Z.of_nat (length s))) = Some (B58_OK x)).
Proof.
  intros Hx Hl. destruct (decide (x = [])) as [->|Hne].
  { exists []. split_and!; [vm_compute; done|done|done]. }
  destruct (base58_encode_decode x _ Hx Hl Hne (Z.le_refl _)) as (s & _ & _ & H). by exists s.
Qed.

Lemma base58_roundtrip_witness :
  exists s, base58_encode [0; 7; 255] (base58_encoded_length 3) = Some (B58_OK s) /\
    base58_decode s (base58_decoded_length (Z.of_nat (length s))) = Some (B58_OK [0; 7; 255]).
Proof.
  destruct (base58_roundtrip [0; 7; 255]) as (s & E & _ & H).
  - repeat constructor; unfold is_u8; lia.
  - apply Nat.leb_le. vm_compute. done.
  - exists s. split; [exact E|]. apply H. cbn. lia.
Defined.

(** With many leading zeros the room [base58_decoded_length] gives is too
    small: the text of eight zero bytes is refused. *)
Lemma base58_decoded_length_short :
  base58_encode (replicate 8 0) (base58_encoded_length 8) = Some (B58_OK (replicate 8 49)) /\
  base58_decode (replicate 8 49) (base58_decoded_length 8) = Some B58_ERROR.
Proof. vm_compute. done. Qed.
