(* ===== verification/OffUrl.v ===== *)
(** * Content addresses (src/src/OFFStreams/off_url.c, src/src/Util/validation.c)

    An OFF URL names a stored file:
    [server/offsystem/v3/type/length/file hash/descriptor hash/name].  A C
    string is the list of its characters, each a byte other than zero; a
    [char*] into it is the rest of the list.  [strstr], [strchr], [strtol],
    [snprintf] and the classes of [ctype.h] (in the "C" locale) are written
    out as far as the code uses them. *)

From S2P Require Import Prelude Base58.
From stdpp Require Import strings.
Local Open Scope Z_scope.

(** ** Strings *)

Definition is_cstring (s : bytes) : Prop := Forall (fun c => 0 < c < 256) s.

(** The characters of a literal. *)
Definition lit (s : string) : bytes := map (fun a => Z.of_N (Ascii.N_of_ascii a)) (String.list_ascii_of_string s).

Definition SLASH : Z := 47.
Definition PERCENT : Z := 37.
Definition MINUS : Z := 45.
Definition PLUS : Z := 43.

Fixpoint is_prefix (p s : bytes) : bool :=
  match p, s with
  | [], _ => true
  | a :: p', b :: s' => (a =? b) && is_prefix p' s'
  | _ :: _, [] => false
  end.

(** The position of the first occurrence. *)
Fixpoint strstr (s p : bytes) : option nat :=
  if is_prefix p s then Some O
  else match s with
       | [] => None
       | _ :: t => S <$> strstr t p
       end.

Fixpoint strchr (s : bytes) (c : Z) : option nat :=
  match s with
  | [] => None
  | d :: t => if d =? c then Some O else S <$> strchr t c
  end.

(** What a [char*] shows of a buffer with a zero byte in it. *)
Fixpoint cstr (s : bytes) : bytes :=
  match s with
  | [] => []
  | c :: t => if c =? 0 then [] else c :: cstr t
  end.

Definition isdigit (c : Z) : bool := (48 <=? c) && (c <=? 57).
Definition isupper (c : Z) : bool := (65 <=? c) && (c <=? 90).
Definition islower (c : Z) : bool := (97 <=? c) && (c <=? 122).
Definition isalnum (c : Z) : bool := isdigit c || isupper c || islower c.
Definition isxdigit (c : Z) : bool :=
  isdigit c || ((65 <=? c) && (c <=? 70)) || ((97 <=? c) && (c <=? 102)).
Definition isspace (c : Z) : bool := (c =? 32) || ((9 <=? c) && (c <=? 13)).
Definition isprint (c : Z) : bool := (32 <=? c) && (c <=? 126).

Definition LONG_MAX : Z := 2 ^ 63 - 1.
Definition LONG_MIN : Z := - 2 ^ 63.

(** The longest run of digits: its value (added to [acc]) and its length. *)
Fixpoint scan_digits (acc : Z) (s : bytes) : Z * nat :=
  match s with
  | c :: t => if isdigit c then let '(v, n) := scan_digits (10 * acc + (c - 48)) t in (v, S n) else (acc, O)
  | [] => (acc, O)
  end.

Fixpoint skip_space (s : bytes) : nat :=
  match s with
  | c :: t => if isspace c then S (skip_space t) else O
  | [] => O
  end.

(** [strtol(s, &endp, 10)]: the value, and [endp - s]. *)
Definition strtol (s : bytes) : Z * nat :=
  let sp := skip_space s in
  let s1 := drop sp s in
  let '(neg, sg) := match s1 with
                    | c :: _ => if c =? MINUS then (true, 1%nat) else if c =? PLUS then (false, 1%nat) else (false, O)
                    | [] => (false, O)
                    end in
  let '(v, n) := scan_digits 0 (drop sg s1) in
  if (n =? 0)%nat then (0, O)
  else (Z.max LONG_MIN (Z.min LONG_MAX (if neg then - v else v)), (sp + sg + n)%nat).

(** The digits of a number, least significant first; 20 are enough for 64 bits. *)
Fixpoint dec_digits (fuel : nat) (n : Z) : bytes :=
  match fuel with
  | O => []
  | S k => if n <? 10 then [48 + n] else (48 + n mod 10) :: dec_digits k (n / 10)
  end.

(** [%zu]. *)
Definition print_dec (n : Z) : bytes := reverse (dec_digits 20 n).

(** [snprintf(result, size, ...)] writes at most [size - 1] characters. *)
Definition snprintf (size : nat) (s : bytes) : bytes := take (size - 1) s.

(** ** The URL *)

Record off_url_t : Type := mk_off_url {
  server_address : bytes;
  content_type : bytes;
  stream_length : Z;
  stream_offset : Z;
  file_hash : option bytes;
  descriptor_hash : option bytes;
  file_name : option bytes;
}.

Definition OFFS_MAX_CONTENT_TYPE_LEN : nat := 256.
Definition OFFS_MAX_FILE_NAME_LEN : nat := 1024.
Definition OFFS_MAX_ORI_STRING_LEN : nat := 2048.

Definition off_url_create : off_url_t :=
  mk_off_url (lit "http://localhost:23402") (lit "application/octet-stream") 0 0 None None None.

Definition is_base58_char (c : Z) : bool :=
  if (49 <=? c) && (c <=? 57) then true
  else if (65 <=? c) && (c <=? 72) then true
  else if (74 <=? c) && (c <=? 78) then true
  else if (80 <=? c) && (c <=? 90) then true
  else if (97 <=? c) && (c <=? 107) then true
  else if (109 <=? c) && (c <=? 122) then true
  else false.

Definition prefix : bytes := lit "/offsystem/v3/".

(** What follows a slash starts with a number, a slash and a Base58 character. *)
Definition at_length (after_slash : bytes) : bool :=
  let endp := snd (strtol after_slash) in
  negb (endp =? 0)%nat &&
  match drop endp after_slash with
  | c :: hash_start :: _ => (c =? SLASH) && is_base58_char hash_start
  | _ => false
  end.

(** The loop that looks for the end of the content type. *)
Fixpoint type_end (s : bytes) : option nat :=
  match s with
  | [] => None
  | c :: t => if (c =? SLASH) && at_length t then Some O else S <$> type_end t
  end.

Definition hex_value (c : Z) : Z :=
  if isdigit c then c - 48 else if (65 <=? c) && (c <=? 70) then c - 55 else c - 87.

(** The decoding loops of [off_url_parse]: an escape needs both its digits. *)
Fixpoint percent_decode (s : bytes) : bytes :=
  match s with
  | [] => []
  | c :: t =>
      match t with
      | a :: (b :: u) =>
          if (c =? PERCENT) && isxdigit a && isxdigit b
          then (16 * hex_value a + hex_value b) :: percent_decode u
          else c :: percent_decode t
      | _ => c :: percent_decode t
      end
  end.

(** A hash of the URL: its text up to the next slash, and the rest after it. *)
Definition take_hash (cursor : bytes) : option (bytes * bytes) :=
  match strchr cursor SLASH with
  | None => None
  | Some n =>
      if forallb is_base58_char (take n cursor)
      then Some (take n cursor, drop (S n) cursor) else None
  end.

Definition decode_hash (b58 : bytes) : option bytes :=
  match base58_decode b58 (base58_decoded_length (Z.of_nat (length b58))) with
  | Some (B58_OK h) => Some h
  | _ => None
  end.

Definition off_url_parse (url_string : bytes) : option off_url_t :=
  match strstr url_string prefix with
  | None => None
  | Some server_len =>
  let server := take server_len url_string in
  let cursor := drop (server_len + length prefix) url_string in
  match type_end cursor with
  | None => None
  | Some type_len =>
  let decoded_type := percent_decode (take type_len cursor) in
  if (OFFS_MAX_CONTENT_TYPE_LEN <? length decoded_type)%nat then None else
  let cursor := drop (S type_len) cursor in
  let '(len, endp) := strtol cursor in
  if (endp =? 0)%nat then None else
  match take_hash (drop (S endp) cursor) with
  | None => None
  | Some (file_hash_b58, cursor) =>
  match take_hash cursor with
  | None => None
  | Some (descriptor_hash_b58, cursor) =>
  let name := percent_decode cursor in
  if (OFFS_MAX_FILE_NAME_LEN <? length name)%nat then None else
  match decode_hash file_hash_b58 with
  | None => None
  | Some fh =>
  match decode_hash descriptor_hash_b58 with
  | None => None
  | Some dh =>
      let url := off_url_create in
      Some (mk_off_url (if (0 <? server_len)%nat then server else server_address url)
        (cstr decoded_type) (u64 len) (stream_offset url) (Some fh) (Some dh) (Some (cstr name)))
  end end end end end end.

(** ["%%%02X"]. *)
Definition hex_digit (d : Z) : Z := if d <? 10 then 48 + d else 55 + d.
Definition percent_escape (c : Z) : bytes := [PERCENT; hex_digit (c / 16); hex_digit (c mod 16)].

Definition unreserved (encode_slash : bool) (c : Z) : bool :=
  isalnum c || (c =? MINUS) || (c =? 95) || (c =? 46) || (c =? 126) || (negb encode_slash && (c =? SLASH)).

Definition url_encode (input : bytes) (encode_slash : bool) : bytes :=
  concat (map (fun c => if unreserved encode_slash c then [c] else percent_escape c) input).

(** [off_url_to_string] returns NULL, returns a string, or passes the NULL
    file name of a URL without one to [strlen]. *)
Inductive string_result : Type :=
| NULL_DEREFERENCE
| RETURN_NULL
| RETURN (s : bytes).

Definition encode_hash (h : bytes) : option bytes :=
  match base58_encode h (base58_encoded_length (Z.of_nat (length h)) + 1) with
  | Some (B58_OK s) => Some s
  | _ => None
  end.

Definition off_url_to_string (url : off_url_t) : string_result :=
  match file_hash url, descriptor_hash url with
  | Some fh, Some dh =>
      match encode_hash fh, encode_hash dh with
      | Some fh_b58, Some dh_b58 =>
          match file_name url with
          | None => NULL_DEREFERENCE
          | Some name =>
              let encoded_type := url_encode (content_type url) false in
              let encoded_name := url_encode name true in
              let total := (length (server_address url) + length prefix + length encoded_type + 1 + 20 +
                            length fh_b58 + 1 + length dh_b58 + 1 + length encoded_name + 1)%nat in
              RETURN (snprintf total
                (server_address url ++ prefix ++ encoded_type ++ [SLASH] ++ print_dec (stream_length url) ++
                 [SLASH] ++ fh_b58 ++ [SLASH] ++ dh_b58 ++ [SLASH] ++ encoded_name))
          end
      | _, _ => RETURN_NULL
      end
  | _, _ => RETURN_NULL
  end.

Definition off_url_from_headers (type name : bytes) (len : Z) (server : option bytes) : option off_url_t :=
  if len =? 0 then None
  else
    let url := off_url_create in
    Some (mk_off_url (default (server_address url) server) type len (stream_offset url)
      (file_hash url) (descriptor_hash url) (Some name)).

(** ** Validation of what clients send *)

Definition is_printable_or_special (c : Z) : bool :=
  isprint c || (c =? SLASH) || (c =? MINUS) || (c =? PLUS) || (c =? 46).

Definition validate_content_type (s : bytes) : Z :=
  if (length s =? 0)%nat || (OFFS_MAX_CONTENT_TYPE_LEN <? length s)%nat then -1
  else if forallb is_printable_or_special s then 0 else -1.

Definition validate_file_name (s : bytes) : Z :=
  if (length s =? 0)%nat || (OFFS_MAX_FILE_NAME_LEN <? length s)%nat then -1
  else if bool_decide (is_Some (strstr s (lit ".."))) then -1
  else if bool_decide (is_Some (strchr s SLASH)) then -1
  else if forallb isprint s then 0 else -1.

Definition validate_ori_string (s : bytes) : Z :=
  if (length s =? 0)%nat || (OFFS_MAX_ORI_STRING_LEN <? length s)%nat then -1
  else if negb (is_prefix (lit "https://") s) && negb (is_prefix (lit "http://") s) then -1
  else if bool_decide (strstr s prefix = None) then -1
  else 0.

(** ** Escapes *)

Lemma percent_decode_plain c t : c <> PERCENT -> percent_decode (c :: t) = c :: percent_decode t.
Proof.
  intros Hc. cbn [percent_decode]. destruct t as [|a [|b u]]; [done..|].
  by rewrite (proj2 (Z.eqb_neq _ _) Hc).
Qed.

Lemma hex_digit_spec d : 0 <= d < 16 -> isxdigit (hex_digit d) = true /\ hex_value (hex_digit d) = d.
Proof.
  intros Hd. unfold hex_digit, hex_value, isxdigit, isdigit.
  destruct (Z.ltb_spec d 10); bool_cases; lia.
Qed.

Lemma percent_decode_escape c t :
  0 <= c < 256 -> percent_decode (percent_escape c ++ t) = c :: percent_decode t.
Proof.
  intros Hc. unfold percent_escape. cbn [app percent_decode].
  destruct (hex_digit_spec (c / 16)) as [-> ->]; [Z.to_euclidean_division_equations; lia|].
  destruct (hex_digit_spec (c mod 16)) as [-> ->]; [Z.to_euclidean_division_equations; lia|].
  cbn. f_equal. Z.to_euclidean_division_equations. lia.
Qed.

Lemma unreserved_not_percent e c : unreserved e c = true -> c <> PERCENT.
Proof. intros H ->. by destruct e; vm_compute in H. Qed.

(** Decoding undoes encoding, slashes escaped or not. *)
Lemma percent_decode_encode s e : is_cstring s -> percent_decode (url_encode s e) = s.
Proof.
  induction 1 as [|c t Hc _ IH]; [done|]. unfold url_encode in *. cbn [map concat].
  destruct (unreserved e c) eqn:E.
  - cbn [app]. rewrite percent_decode_plain by (by apply (unreserved_not_percent e)). by rewrite IH.
  - rewrite percent_decode_escape by lia. by rewrite IH.
Qed.

Lemma cstr_id s : is_cstring s -> cstr s = s.
Proof.
  induction 1 as [|c t Hc _ IH]; [done|]. cbn [cstr].
  destruct (Z.eqb_spec c 0); [lia|]. by rewrite IH.
Qed.

(** ** Searching *)

Lemma is_prefix_app p s : is_prefix p s = true <-> exists t, s = p ++ t.
Proof.
  revert s. induction p as [|a p IH]; intros s; [split; [by exists s|done]|].
  destruct s as [|b s]; cbn [is_prefix].
  - split; [done|]. by intros [t ?].
  - rewrite andb_true_iff, IH, Z.eqb_eq. split.
    + intros [-> [t ->]]. by exists t.
    + intros [t ?]; simplify_eq/=. split; [done|by exists t].
Qed.

(** An occurrence that starts before a second copy of the prefix lies in what
    precedes the copy and its first slash: the prefix overlaps itself only in
    one slash. *)
Lemma prefix_overlap u rest :
  u <> [] -> is_prefix prefix (u ++ prefix ++ rest) = true -> is_prefix prefix (u ++ [SLASH]) = true.
Proof.
  intros Hu [t E]%is_prefix_app.
  destruct (decide (length prefix <= length u + 1)%nat) as [Hl|Hl].
  - apply is_prefix_app. exists (drop (length prefix) (u ++ [SLASH])).
    assert (take (length prefix) (u ++ [SLASH]) = prefix) as Hp;
      [|by rewrite <- (take_drop (length prefix) (u ++ [SLASH])) at 1; rewrite Hp].
    apply (f_equal (take (length prefix))) in E. rewrite take_app_length in E.
    etrans; [|exact E]. change (u ++ prefix ++ rest) with (u ++ [SLASH] ++ drop 1 prefix ++ rest).
    rewrite (app_assoc u), (take_app_le (u ++ [SLASH])); [done|].
    rewrite length_app. cbn [length]. lia.
  - exfalso. apply (f_equal (drop (length u))) in E. rewrite drop_app_length in E.
    apply (f_equal (take (length prefix - length u))) in E.
    rewrite drop_app_le in E by lia. rewrite take_app_le in E by (rewrite ?length_app; lia).
    rewrite take_app_length' in E by (by rewrite length_drop).
    assert (forallb (fun k => negb (bool_decide (take (length prefix - k) prefix = drop k prefix))) (seq 1 12) = true)
      as H by (vm_compute; done).
    rewrite forallb_forall in H. specialize (H (length u)). apply negb_true_iff, bool_decide_eq_false in H; [done|].
    apply in_seq. destruct u; [done|]. cbn [length] in *. change (length prefix) with 14%nat in Hl. lia.
Qed.

Lemma strstr_first server rest :
  strstr (server ++ [SLASH]) prefix = None -> strstr (server ++ prefix ++ rest) prefix = Some (length server).
Proof.
  induction server as [|c t IH]; intros H.
  - cbn [app length]. assert (is_prefix prefix (prefix ++ rest) = true) as E
      by (apply is_prefix_app; by exists rest).
    destruct (prefix ++ rest) eqn:Er; cbn [strstr]; by rewrite E.
  - cbn [app strstr length] in *.
    destruct (is_prefix prefix (c :: t ++ [SLASH])) eqn:E1; [done|].
    destruct (is_prefix prefix (c :: t ++ prefix ++ rest)) eqn:E2.
    + pose proof (prefix_overlap (c :: t) rest) as Ho. cbn [app] in Ho. by rewrite Ho in E1.
    + rewrite IH; [done|]. by destruct (strstr (t ++ [SLASH]) prefix).
Qed.

(** ** Numbers *)

Lemma be_digits_value_cons b d ds :
  be_digits_value b (d :: ds) = d * b ^ Z.of_nat (length ds) + be_digits_value b ds.
Proof.
  unfold be_digits_value. rewrite reverse_cons, digits_value_app, length_reverse.
  cbn [digits_value]. lia.
Qed.

Lemma scan_digits_spec acc ds w :
  Forall (fun c => isdigit c = true) ds ->
  scan_digits acc (ds ++ SLASH :: w) =
    (acc * 10 ^ Z.of_nat (length ds) + be_digits_value 10 (map (fun c => c - 48) ds), length ds).
Proof.
  intros Hd. revert acc. induction Hd as [|c t Hc _ IH]; intros acc.
  - cbn. f_equal. unfold be_digits_value. cbn. lia.
  - cbn [app scan_digits map length]. rewrite Hc, IH, be_digits_value_cons, length_map.
    rewrite Nat2Z.inj_succ, Z.pow_succ_r by lia. f_equal. lia.
Qed.

Lemma dec_digits_spec fuel n :
  (0 < fuel)%nat -> 0 <= n < 10 ^ Z.of_nat fuel ->
  Forall (fun c => isdigit c = true) (dec_digits fuel n) /\
  digits_value 10 (map (fun c => c - 48) (dec_digits fuel n)) = n /\
  (0 < length (dec_digits fuel n))%nat.
Proof.
  revert n. induction fuel as [|k IH]; intros n Hk Hn; [lia|]. cbn [dec_digits].
  destruct (Z.ltb_spec n 10).
  { split_and!; [|cbn; lia..]. constructor; [|done]. unfold isdigit. lia. }
  rewrite Nat2Z.inj_succ, Z.pow_succ_r in Hn by lia.
  pose proof (Z.div_mod n 10 ltac:(lia)). pose proof (Z.mod_pos_bound n 10 ltac:(lia)).
  destruct k as [|k]; [cbn in Hn; lia|].
  destruct (IH (n / 10)) as (Hd1 & Hd2 & Hd3); [lia|nia|].
  split_and!; [|cbn [map digits_value]; lia|cbn; lia].
  constructor; [|done]. unfold isdigit. lia.
Qed.

Lemma dec_digits_length fuel (k : nat) n :
  (0 < k)%nat -> 0 <= n < 10 ^ Z.of_nat k -> (length (dec_digits fuel n) <= k)%nat.
Proof.
  revert k n. induction fuel as [|f IH]; intros k n Hk Hn; [cbn; lia|]. cbn [dec_digits].
  destruct (Z.ltb_spec n 10); [cbn; lia|]. destruct k as [|[|k]]; [lia|cbn in Hn; lia|].
  cbn [length]. rewrite (Nat2Z.inj_succ (S k)), Z.pow_succ_r in Hn by lia.
  pose proof (Z.div_mod n 10 ltac:(lia)). pose proof (Z.mod_pos_bound n 10 ltac:(lia)).
  pose proof (IH (S k) (n / 10) ltac:(lia)). nia.
Qed.

Lemma print_dec_length n : 0 <= n <= LONG_MAX -> (length (print_dec n) <= 19)%nat.
Proof.
  intros Hn. unfold print_dec. rewrite length_reverse. apply dec_digits_length; [lia|].
  unfold LONG_MAX in Hn. lia.
Qed.

Lemma digit_not_special c :
  isdigit c = true -> isspace c = false /\ (c =? MINUS) = false /\ (c =? PLUS) = false.
Proof. unfold isdigit, isspace, MINUS, PLUS. lia. Qed.

(** [strtol] reads back what [%zu] printed. *)
Lemma strtol_print n w :
  0 <= n <= LONG_MAX -> strtol (print_dec n ++ SLASH :: w) = (n, length (print_dec n)).
Proof.
  intros Hn. destruct (dec_digits_spec 20 n) as (Hd & Hv & Hl); [lia|unfold LONG_MAX in Hn; lia|].
  unfold strtol. pose proof (scan_digits_spec 0 (print_dec n) w) as Hs.
  assert (length (print_dec n) <> 0)%nat as Hl' by (unfold print_dec; rewrite length_reverse; lia).
  assert (Forall (fun c => isdigit c = true) (print_dec n)) as Hd' by by apply Forall_reverse.
  destruct (print_dec n) as [|c t] eqn:E; [done|].
  apply Forall_cons in Hd' as [Hc Ht]. destruct (digit_not_special c Hc) as (S1 & S2 & S3).
  cbn [app skip_space]. rewrite S1. cbn [drop]. rewrite S2, S3. cbn [drop].
  cbn [app] in Hs. rewrite Hs by by constructor. cbn [length Nat.eqb Nat.add].
  f_equal. rewrite Z.mul_0_l, Z.add_0_l. rewrite <- E. unfold print_dec, be_digits_value.
  replace (reverse (map (fun c0 => c0 - 48) (reverse (dec_digits 20 n))))
    with (map (fun c0 => c0 - 48) (dec_digits 20 n)); [rewrite Hv; unfold LONG_MAX, LONG_MIN in *; lia|].
  rewrite <- (fmap_reverse (fun c0 => c0 - 48)). by rewrite reverse_involutive.
Qed.

(** ** The end of the content type *)

(** Digits up to a slash or the end. *)
Fixpoint digits_then_end (seen : bool) (s : bytes) : bool :=
  match s with
  | [] => seen
  | c :: t => if isdigit c then digits_then_end true t else seen && (c =? SLASH)
  end.

(** A path segment that [strtol] would take for the length. *)
Definition numeric_segment (s : bytes) : bool :=
  match s with
  | c :: t => digits_then_end false (if c =? MINUS then t else s)
  | [] => false
  end.

(** A content type none of whose segments after the first is a number. *)
Fixpoint plain_type (s : bytes) : bool :=
  match s with
  | [] => true
  | c :: t => negb ((c =? SLASH) && numeric_segment t) && plain_type t
  end.

Lemma digits_then_end_scan seen acc t w :
  digits_then_end seen t =
    let n := snd (scan_digits acc (t ++ SLASH :: w)) in
    (seen || negb (n =? 0)%nat) &&
    match drop n (t ++ SLASH :: w) with c :: _ => c =? SLASH | [] => false end.
Proof.
  revert seen acc. induction t as [|c t IH]; intros seen acc; [by destruct seen|].
  cbn [app digits_then_end scan_digits]. destruct (isdigit c) eqn:E.
  - rewrite (IH true (10 * acc + (c - 48))).
    destruct (scan_digits _ (t ++ SLASH :: w)) as [v n]. cbn. by rewrite orb_true_r.
  - cbn. by destruct seen.
Qed.

Lemma at_length_numeric t w :
  Forall (fun c => isspace c = false /\ c <> PLUS) t ->
  at_length (t ++ SLASH :: w) = true -> numeric_segment t = true.
Proof.
  intros Ht. unfold at_length, strtol. destruct t as [|c t]; [done|].
  apply Forall_cons in Ht as [[Hc Hp] _]. cbn [app skip_space]. rewrite Hc. cbn [drop numeric_segment].
  rewrite (proj2 (Z.eqb_neq _ _) Hp).
  destruct (Z.eqb_spec c MINUS) as [->|Hm]; cbn [drop]; rewrite ?drop_0.
  - rewrite (digits_then_end_scan false 0 t w).
    destruct (scan_digits 0 (t ++ SLASH :: w)) as [v n]. cbn [snd].
    destruct (Nat.eqb_spec n 0); [done|]. cbn [snd Nat.add Nat.eqb negb drop andb orb].
    destruct (drop n (t ++ SLASH :: w)) as [|d [|e u]]; [done..|]. intros H. by apply andb_true_iff in H as [H _].
  - rewrite (digits_then_end_scan false 0 (c :: t) w). cbn [app].
    destruct (scan_digits 0 (c :: t ++ SLASH :: w)) as [v n]. cbn [snd].
    destruct (Nat.eqb_spec n 0) as [|Hn]; [done|]. cbn [snd Nat.add negb andb orb].
    rewrite (proj2 (Nat.eqb_neq n 0) Hn). cbn [negb andb].
    destruct (drop n (c :: t ++ SLASH :: w)) as [|d [|e u]]; [done..|]. intros H. by apply andb_true_iff in H as [H _].
Qed.

Lemma type_end_skip t w :
  Forall (fun c => isspace c = false /\ c <> PLUS) t -> plain_type t = true ->
  at_length w = true -> type_end (t ++ SLASH :: w) = Some (length t).
Proof.
  induction 1 as [|c t Hc Ht IH]; intros Hp Hw.
  - cbn [app type_end]. by rewrite Hw.
  - cbn [plain_type] in Hp. apply andb_true_iff in Hp as [Hp1 Hp2]. cbn [app type_end length].
    rewrite IH by done. destruct (Z.eqb_spec c SLASH) as [->|]; [|done].
    destruct (at_length (t ++ SLASH :: w)) eqn:E; [|done].
    apply at_length_numeric in E; [|done]. by rewrite E in Hp1.
Qed.

(** The encoding of a content type has no blank and no plus sign, and the same
    numeric segments. *)
Lemma unreserved_not_space e c : unreserved e c = true -> isspace c = false /\ c <> PLUS.
Proof.
  unfold unreserved, isalnum, isdigit, isupper, islower, isspace, SLASH, MINUS, PLUS. destruct e; lia.
Qed.

Lemma hex_digit_not_space d : 0 <= d < 16 -> isspace (hex_digit d) = false /\ hex_digit d <> PLUS.
Proof. unfold hex_digit, isspace, PLUS. destruct (Z.ltb_spec d 10); lia. Qed.

Lemma url_encode_not_space s e :
  is_cstring s -> Forall (fun c => isspace c = false /\ c <> PLUS) (url_encode s e).
Proof.
  induction 1 as [|c t Hc _ IH]; [constructor|]. unfold url_encode in *. cbn [map concat].
  apply Forall_app. split; [|done]. destruct (unreserved e c) eqn:E.
  - constructor; [|done]. by apply (unreserved_not_space e).
  - constructor; [done|]. constructor; [|constructor; [|done]]; apply hex_digit_not_space;
      Z.to_euclidean_division_equations; lia.
Qed.

Lemma url_encode_cons c t e :
  url_encode (c :: t) e = (if unreserved e c then [c] else percent_escape c) ++ url_encode t e.
Proof. done. Qed.

Lemma digits_then_end_encode seen s :
  digits_then_end seen (url_encode s false) = digits_then_end seen s.
Proof.
  revert seen. induction s as [|c t IH]; intros seen; [done|]. rewrite url_encode_cons.
  cbn [digits_then_end]. destruct (isdigit c) eqn:E.
  - unfold unreserved, isalnum. rewrite E. cbn. by rewrite E.
  - destruct (unreserved false c) eqn:U; cbn [app digits_then_end percent_escape].
    + by rewrite E.
    + change (isdigit PERCENT) with false. cbn. destruct (Z.eqb_spec c SLASH) as [->|]; [done|].
      by destruct seen.
Qed.

Lemma numeric_segment_encode s : numeric_segment (url_encode s false) = numeric_segment s.
Proof.
  destruct s as [|c t]; [done|]. cbn [numeric_segment]. destruct (Z.eqb_spec c MINUS) as [->|Hm].
  - cbn. apply digits_then_end_encode.
  - rewrite <- (digits_then_end_encode false (c :: t)), url_encode_cons.
    destruct (unreserved false c); cbn [app percent_escape numeric_segment]; [|done].
    by rewrite (proj2 (Z.eqb_neq _ _) Hm).
Qed.

Lemma hex_digit_not_slash d : 0 <= d < 16 -> (hex_digit d =? SLASH) = false.
Proof. unfold hex_digit, SLASH. destruct (Z.ltb_spec d 10); lia. Qed.

Lemma plain_type_encode s : is_cstring s -> plain_type (url_encode s false) = plain_type s.
Proof.
  induction 1 as [|c t Hc _ IH]; [done|]. rewrite url_encode_cons. cbn [plain_type].
  destruct (unreserved false c) eqn:U; cbn [app percent_escape plain_type].
  - by rewrite numeric_segment_encode, IH.
  - rewrite !hex_digit_not_slash by (Z.to_euclidean_division_equations; lia). cbn. rewrite IH.
    destruct (Z.eqb_spec c SLASH) as [->|]; done.
Qed.

(** ** Hashes *)

Lemma is_base58_char_digit c : is_u8 c -> is_base58_char c = (0 <=? base58_digit c).
Proof.
  intros Hc. assert (forallb (fun c => Bool.eqb (is_base58_char c) (0 <=? base58_digit c))
    (map Z.of_nat (seq 0 256)) = true) as H by (vm_compute; done).
  rewrite forallb_forall in H. apply Bool.eqb_prop, H, in_map_iff.
  exists (Z.to_nat c). unfold is_u8 in Hc. split; [lia|]. apply in_seq. lia.
Qed.

Lemma is_base58_forallb s : is_base58 s -> forallb is_base58_char s = true.
Proof.
  intros [Hb Hd]. induction Hb as [|c t Hc _ IH]; [done|]. apply Forall_cons in Hd as [Hd Ht].
  cbn [forallb]. rewrite IH, is_base58_char_digit by done. lia.
Qed.

Lemma take_hash_app s w : forallb is_base58_char s = true -> take_hash (s ++ SLASH :: w) = Some (s, w).
Proof.
  intros Hs. assert (strchr (s ++ SLASH :: w) SLASH = Some (length s)) as E.
  { induction s as [|c t IH]; [done|]. cbn [forallb] in Hs. apply andb_true_iff in Hs as [Hc Ht].
    cbn [app strchr length]. rewrite (IH Ht).
    destruct (Z.eqb_spec c SLASH) as [->|]; [by vm_compute in Hc|done]. }
  unfold take_hash. rewrite E, take_app_length, Hs.
  by rewrite cons_middle, app_assoc, drop_app_length' by (rewrite length_app; cbn; lia).
Qed.

(** A hash that can appear in a URL. *)
Definition url_hash (h : bytes) : Prop :=
  is_bytes h /\ (length h <= BIGINT_SIZE / 2)%nat /\ (leading 0 h <= 3)%nat.

Lemma encode_hash_decode h :
  url_hash h -> exists s, encode_hash h = Some s /\ forallb is_base58_char s = true /\
    decode_hash s = Some h /\ (h <> [] -> s <> []).
Proof.
  intros (Hb & Hl & Hz). unfold encode_hash, decode_hash. destruct (decide (h = [])) as [->|Hne].
  { by exists []. }
  destruct (base58_encode_decode h (base58_encoded_length (Z.of_nat (length h)) + 1))
    as (s & Hs & Hns & -> & _ & Hd); [done..|lia|].
  exists s. rewrite (Hd Hz). split_and!; [done|by apply is_base58_forallb, Hs|done|done].
Qed.

(** ** Printing and parsing *)

(** The URLs the parser gives back. *)
Record url_ok (url : off_url_t) (fh dh name : bytes) : Prop := {
  ok_server : server_address url <> [] /\ strstr (server_address url ++ [SLASH]) prefix = None;
  ok_type : is_cstring (content_type url) /\ (length (content_type url) <= OFFS_MAX_CONTENT_TYPE_LEN)%nat /\
    plain_type (content_type url) = true;
  ok_length : 0 <= stream_length url <= LONG_MAX;
  ok_file_hash : file_hash url = Some fh /\ url_hash fh /\ fh <> [];
  ok_descriptor_hash : descriptor_hash url = Some dh /\ url_hash dh;
  ok_name : file_name url = Some name /\ is_cstring name /\ (length name <= OFFS_MAX_FILE_NAME_LEN)%nat;
}.

Lemma off_url_print url fh dh name :
  url_ok url fh dh name ->
  exists s1 s2,
    encode_hash fh = Some s1 /\ encode_hash dh = Some s2 /\
    off_url_to_string url = RETURN (server_address url ++ prefix ++ url_encode (content_type url) false ++
      SLASH :: print_dec (stream_length url) ++ SLASH :: s1 ++ SLASH :: s2 ++ SLASH :: url_encode name true).
Proof.
  intros [_ _ Hn (Ef & Hf & _) (Ed & Hd) (En & _)].
  destruct (encode_hash_decode fh Hf) as (s1 & E1 & _), (encode_hash_decode dh Hd) as (s2 & E2 & _).
  exists s1, s2. split_and!; [done..|]. unfold off_url_to_string. rewrite Ef, Ed, E1, E2, En.
  f_equal. unfold snprintf. apply take_ge.
  pose proof (print_dec_length _ Hn). repeat (rewrite length_app, ?length_cons || rewrite length_cons). lia.
Qed.

Lemma at_length_print n h w :
  0 <= n <= LONG_MAX -> h <> [] -> forallb is_base58_char h = true ->
  at_length (print_dec n ++ SLASH :: h ++ w) = true.
Proof.
  intros Hn Hh Hc. unfold at_length. rewrite strtol_print by done. cbn [snd].
  rewrite drop_app_length. destruct h as [|c t]; [done|]. cbn [app forallb] in *.
  apply andb_true_iff in Hc as [-> _]. rewrite Z.eqb_refl, andb_true_r.
  destruct (dec_digits_spec 20 n) as (_ & _ & Hl); [lia|unfold LONG_MAX in Hn; lia|].
  unfold print_dec. rewrite length_reverse. by destruct (Nat.eqb_spec (length (dec_digits 20 n)) 0); [lia|].
Qed.

Lemma off_url_prints_back url fh dh name :
  url_ok url fh dh name ->
  exists s, off_url_to_string url = RETURN s /\
    off_url_parse s = Some (mk_off_url (server_address url) (content_type url) (stream_length url) 0
      (file_hash url) (descriptor_hash url) (file_name url)).
Proof.
  intros Hok. destruct (off_url_print url fh dh name Hok) as (s1 & s2 & E1 & E2 & ->).
  destruct Hok as [[Hs1 Hs2] (Ht1 & Ht2 & Ht3) Hn (Ef & Hf & Hfne) (Ed & Hd) (En & Hn1 & Hn2)].
  destruct (encode_hash_decode fh Hf) as (s1' & E1' & C1 & D1 & N1).
  destruct (encode_hash_decode dh Hd) as (s2' & E2' & C2 & D2 & _). simplify_eq.
  eexists. split; [done|]. unfold off_url_parse.
  rewrite strstr_first by done. rewrite app_assoc, drop_app_length' by by rewrite length_app.
  rewrite type_end_skip;
    [|by apply url_encode_not_space|by rewrite plain_type_encode|by apply at_length_print; auto].
  rewrite take_app_length, percent_decode_encode by done.
  rewrite (proj2 (Nat.ltb_ge _ _) Ht2).
  rewrite cons_middle, app_assoc, drop_app_length' by (rewrite length_app; cbn; lia).
  rewrite strtol_print by done.
  rewrite (cons_middle SLASH (print_dec _)), (app_assoc (print_dec _)), drop_app_length'
    by (rewrite length_app; cbn; lia).
  destruct (Nat.eqb_spec (length (print_dec (stream_length url))) 0) as [Hz|_].
  { destruct (dec_digits_spec 20 (stream_length url)) as (_ & _ & Hl); [lia|unfold LONG_MAX in Hn; lia|].
    unfold print_dec in Hz. rewrite length_reverse in Hz. lia. }
  rewrite !take_hash_app, D1, D2, percent_decode_encode by done.
  rewrite (proj2 (Nat.ltb_ge _ _) Hn2), !cstr_id by done.
  rewrite <- app_assoc, take_app_length, u64_small by (unfold is_u64, LONG_MAX in *; lia).
  destruct (server_address url) eqn:Es; [done|]. cbn. by rewrite Ef, Ed, En.
Qed.


Definition sample_hash : bytes := map Z.of_nat (seq 1 32).

Definition sample_url (len : Z) : off_url_t :=
  mk_off_url (lit "http://localhost:23402") (lit "video/3gpp") len 0 (Some sample_hash) (Some sample_hash)
    (Some (lit "my film.3gp")).


(** A content type with a numeric segment is cut there, so [url_ok] cannot do
    without [plain_type]: the content type here was meant to be [a/5/c]. *)
Lemma numeric_type_cut :
  content_type <$> off_url_parse (lit "http://h/offsystem/v3/a/5/c/7/2/2/n") = Some (lit "a").
Proof. vm_compute. done. Qed.

(** With a length of twenty digits the buffer is one byte short and the last
    character of the name is lost. *)
Lemma twenty_digit_length_truncates :
  exists s, off_url_to_string (sample_url (10 ^ 19)) = RETURN s /\
    is_prefix (reverse (lit "my%20film.3g")) (reverse s) = true.
Proof. eexists. split; [vm_compute; reflexivity|]. vm_compute. done. Qed.

(** ** What validation establishes *)

Lemma strchr_none s c : strchr s c = None -> Forall (fun d => d <> c) s.
Proof.
  induction s as [|d t IH]; intros H; [constructor|]. cbn [strchr] in H.
  destruct (Z.eqb_spec d c); [done|]. constructor; [done|]. apply IH. by destruct (strchr t c).
Qed.

(** A validated file name can be put in a URL and names no other directory. *)
Lemma validate_file_name_sound s :
  validate_file_name s = 0 ->
  is_cstring s /\ (0 < length s <= OFFS_MAX_FILE_NAME_LEN)%nat /\
  Forall (fun c => c <> SLASH) s /\ strstr s (lit "..") = None.
Proof.
  unfold validate_file_name. intros H.
  destruct (Nat.eqb_spec (length s) 0); [done|].
  destruct (Nat.ltb_spec OFFS_MAX_FILE_NAME_LEN (length s)); [done|]. cbn [orb] in H.
  case_bool_decide as E1; [done|]. case_bool_decide as E2; [done|].
  destruct (forallb isprint s) eqn:E3; [|done]. split_and!; [|lia|lia| |].
  - rewrite forallb_forall in E3. apply Forall_forall. intros c Hc.
    apply list_elem_of_In, E3 in Hc. unfold isprint in Hc. lia.
  - apply strchr_none. by apply eq_None_not_Some.
  - by apply eq_None_not_Some.
Qed.

Lemma validate_content_type_sound s :
  validate_content_type s = 0 -> is_cstring s /\ (0 < length s <= OFFS_MAX_CONTENT_TYPE_LEN)%nat.
Proof.
  unfold validate_content_type. intros H.
  destruct (Nat.eqb_spec (length s) 0); [done|].
  destruct (Nat.ltb_spec OFFS_MAX_CONTENT_TYPE_LEN (length s)); [done|]. cbn [orb] in H.
  destruct (forallb is_printable_or_special s) eqn:E3; [|done]. split; [|lia].
  rewrite forallb_forall in E3. apply Forall_forall. intros c Hc. apply list_elem_of_In, E3 in Hc.
  unfold is_printable_or_special, isprint, SLASH, MINUS, PLUS in Hc. lia.
Qed.

(** The URL of a stored file, built from validated headers and the hashes the
    writer computed, satisfies [url_ok]. *)
Lemma validated_url_ok type name len fh dh :
  validate_content_type type = 0 -> plain_type type = true -> validate_file_name name = 0 ->
  0 < len <= LONG_MAX -> url_hash fh -> fh <> [] -> url_hash dh ->
  exists url, off_url_from_headers type name len None = Some url /\
    url_ok (mk_off_url (server_address url) (content_type url) (stream_length url) (stream_offset url)
      (Some fh) (Some dh) (file_name url)) fh dh name.
Proof.
  intros Ht Hp Hn Hl Hf Hfne Hd.
  apply validate_content_type_sound in Ht as (Ht1 & Ht2).
  apply validate_file_name_sound in Hn as (Hn1 & Hn2 & _).
  unfold off_url_from_headers. rewrite (proj2 (Z.eqb_neq len 0)) by lia.
  eexists. split; [done|]. constructor; cbn [server_address content_type stream_length file_hash
    descriptor_hash file_name]; split_and!; try done; try lia; try (vm_compute; done).
Qed.

(** ** Bounds on what the parser accepts *)

Lemma cstr_length s : (length (cstr s) <= length s)%nat.
Proof. induction s as [|c t IH]; cbn [cstr length]; [lia|]. destruct (c =? 0); cbn [length]; lia. Qed.

(** Whatever the text, a URL the parser returns has both hashes, a name and a
    content type within the limits, and a 64-bit length. *)
Lemma off_url_parse_bounds s url :
  off_url_parse s = Some url ->
  (length (content_type url) <= OFFS_MAX_CONTENT_TYPE_LEN)%nat /\ is_u64 (stream_length url) /\
  server_address url <> [] /\ stream_offset url = 0 /\
  is_Some (file_hash url) /\ is_Some (descriptor_hash url) /\
  exists name, file_name url = Some name /\ (length name <= OFFS_MAX_FILE_NAME_LEN)%nat.
Proof.
  unfold off_url_parse. intros H.
  destruct (strstr s prefix) as [n|] eqn:Es; [|done].
  destruct (type_end _) as [k|]; [|done].
  destruct (Nat.ltb_spec OFFS_MAX_CONTENT_TYPE_LEN
    (length (percent_decode (take k (drop (n + length prefix) s))))) as [|Ht]; [done|].
  destruct (strtol _) as [len endp]. destruct (endp =? 0)%nat; [done|].
  destruct (take_hash _) as [[h1 c1]|]; [|done]. destruct (take_hash c1) as [[h2 c2]|]; [|done].
  destruct (Nat.ltb_spec OFFS_MAX_FILE_NAME_LEN (length (percent_decode c2))) as [|Hn]; [done|].
  destruct (decode_hash h1), (decode_hash h2); try done. simplify_eq.
  cbn [content_type stream_length server_address stream_offset file_hash descriptor_hash file_name].
  split_and!; try done.
  - etrans; [apply cstr_length|done].
  - apply u64_range.
  - destruct (Nat.ltb_spec 0 n) as [Hpos|]; [|done]. destruct s; [|by destruct n; [lia|]].
    cbn in Es. simplify_eq.
  - eexists. split; [done|]. etrans; [apply cstr_length|done].
Qed.
