(* ===== verification/Representation.v ===== *)
(** * Representation: walking the descriptor chain of a stored file

    Models src/src/OFFStreams/representation_actor.c: the actor that visits the
    descriptor blocks of a file and applies an operation (commit, delete, pin,
    unpin, or only collect) to every block of the file once.  Requests to the
    block cache, the announcement of committed blocks and the reply are
    effects; the answers of the cache are messages. *)

From S2P Require Import Prelude Buffer Block Effect Tuple OffWrite DescWrite DescRead Descriptor.
Local Open Scope effect_scope.

Definition REPRESENTATION_DESCRIPTOR_PAD : nat := 32.

Definition representation_block_size_for_type (type : block_size_e) : nat :=
  Z.to_nat match type with mega => 1000000 | standard => 128000 | mini => 64000 | nano => 136 end.

Inductive representation_op_e :=
| REPRESENTATION_OP_MARK_PERMANENT
| REPRESENTATION_OP_DELETE_EPHEMERAL
| REPRESENTATION_OP_PIN
| REPRESENTATION_OP_UNPIN
| REPRESENTATION_OP_COLLECT.

Record representation_actor_t := mk_rep {
  rep_descriptor_hash : bytes;
  rep_next_descriptor_hash : option bytes;
  rep_op : representation_op_e;
  rep_reply_to : bool;
  rep_result : Z;
  rep_blocks_touched : nat;
  rep_outstanding_ops : nat;
  rep_seen_hashes : list bytes;
  rep_walk_done : bool
}.

#[export] Instance rep_settable : Settable representation_actor_t := fields! mk_rep
  [rep_descriptor_hash; rep_next_descriptor_hash; rep_op; rep_reply_to; rep_result; rep_blocks_touched;
   rep_outstanding_ops; rep_seen_hashes; rep_walk_done].

Inductive rep_effect :=
| Rep_cache_get (hash : bytes)
| Rep_cache_clear (hash : bytes)
| Rep_cache_release (hash : bytes)
| Rep_cache_pin (hash : bytes)
| Rep_cache_unpin (hash : bytes)
| Rep_registry_remove (hash : bytes)
| Rep_network_store (hash : bytes)
| Rep_op_result (result : Z) (blocks_touched : nat)
| Rep_collect_result (result : Z) (blocks_touched : nat) (hashes : list bytes).

Inductive rep_message :=
| REP_READABLE_PULL
| REP_CACHE_GET_RESULT (block : option block_t) (hash : bytes)
| REP_CACHE_EPHEMERAL_RESULT (hash : option bytes) (previous_count : Z)
| REP_CACHE_PIN_RESULT
| REP_CACHE_UNPIN_RESULT.

Section Walk.
(** The size class of the cache, and whether there is a registry of ephemeral
    files and a network. *)
Variables (type : block_size_e) (registry network : bool).

Implicit Types s : representation_actor_t.

Definition _rep_is_zero_hash (hash : bytes) : bool := forallb (fun x => x =? 0)%Z hash.

(** The summary, once. *)
Definition _rep_reply s : representation_actor_t * list rep_effect :=
  if rep_reply_to s then
    match rep_op s with
    | REPRESENTATION_OP_COLLECT =>
        (s <| rep_reply_to := false |> <| rep_seen_hashes := [] |>,
         [Rep_collect_result (rep_result s) (rep_blocks_touched s) (rep_seen_hashes s)])
    | _ => (s <| rep_reply_to := false |>, [Rep_op_result (rep_result s) (rep_blocks_touched s)])
    end
  else done s.

Definition _rep_maybe_finish s : representation_actor_t * list rep_effect :=
  if negb (rep_walk_done s) || (0 <? rep_outstanding_ops s) then done s else _rep_reply s.

Definition _rep_hash_seen s (hash : bytes) : bool :=
  existsb (fun seen => compare_bytes seen hash =? 0)%Z (rep_seen_hashes s).

Definition _rep_end_walk s : representation_actor_t * list rep_effect :=
  let s := s <| rep_walk_done := true |> in
  match rep_op s with
  | REPRESENTATION_OP_MARK_PERMANENT | REPRESENTATION_OP_DELETE_EPHEMERAL =>
      (s, if registry then [Rep_registry_remove (rep_descriptor_hash s)] else []) ;;; _rep_maybe_finish
  | _ => _rep_maybe_finish s
  end.

(** The request an operation makes for a block. *)
Definition op_request (op : representation_op_e) (hash : bytes) : option rep_effect :=
  match op with
  | REPRESENTATION_OP_COLLECT => None
  | REPRESENTATION_OP_MARK_PERMANENT => Some (Rep_cache_clear hash)
  | REPRESENTATION_OP_DELETE_EPHEMERAL => Some (Rep_cache_release hash)
  | REPRESENTATION_OP_PIN => Some (Rep_cache_pin hash)
  | REPRESENTATION_OP_UNPIN => Some (Rep_cache_unpin hash)
  end.

Definition _rep_apply_to_hash (hash : bytes) s : representation_actor_t * list rep_effect :=
  if _rep_hash_seen s hash then done s
  else
    let s := s <| rep_seen_hashes := rep_seen_hashes s ++ [hash] |>
               <| rep_blocks_touched := S (rep_blocks_touched s) |> in
    match op_request (rep_op s) hash with
    | None => done s
    | Some request => (s <| rep_outstanding_ops := S (rep_outstanding_ops s) |>, [request])
    end.

(** The loop over the hashes of a block. *)
Fixpoint apply_slices (fuel : nat) (data : bytes) (offset data_end : nat) s : representation_actor_t * list rep_effect :=
  match fuel with
  | O => done s
  | S fuel =>
      if offset + REPRESENTATION_DESCRIPTOR_PAD <=? data_end then
        let hash := take REPRESENTATION_DESCRIPTOR_PAD (drop offset data) in
        (if _rep_is_zero_hash hash then done s else _rep_apply_to_hash hash s) ;;;
        apply_slices fuel data (offset + REPRESENTATION_DESCRIPTOR_PAD) data_end
      else done s
  end.

Definition _rep_process_descriptor_block (block_data descriptor_block_hash : bytes) s
  : representation_actor_t * list rep_effect :=
  let descriptor_pad := REPRESENTATION_DESCRIPTOR_PAD in
  let block_size := representation_block_size_for_type type in
  let cut_point := block_size / descriptor_pad * descriptor_pad in
  let size := length block_data in
  if size <? descriptor_pad then done (s <| rep_result := (-2)%Z |>)
  else
    let data_end := if cut_point <? size then cut_point - descriptor_pad else size - descriptor_pad in
    apply_slices size block_data 0 data_end s ;;;
    _rep_apply_to_hash descriptor_block_hash ;;;
    fun s =>
      let next_hash_start := size - descriptor_pad in
      if data_end <=? next_hash_start then
        let next_hash := drop next_hash_start block_data in
        if _rep_is_zero_hash next_hash then done s else done (s <| rep_next_descriptor_hash := Some next_hash |>)
      else done s.

Definition rep_get_result (block : option block_t) (hash : bytes) s : representation_actor_t * list rep_effect :=
  match block with
  | None => _rep_end_walk (s <| rep_result := (-1)%Z |>)
  | Some b =>
      _rep_process_descriptor_block (block_bytes b) hash s ;;;
      fun s =>
        match rep_next_descriptor_hash s with
        | Some next_hash =>
            let s := s <| rep_next_descriptor_hash := None |> in
            if _rep_hash_seen s next_hash then _rep_end_walk (s <| rep_result := (-3)%Z |>)
            else (s, [Rep_cache_get next_hash])
        | None => _rep_end_walk s
        end
  end.

Definition rep_ephemeral_result (hash : option bytes) (previous_count : Z) s : representation_actor_t * list rep_effect :=
  let announce :=
    match rep_op s, hash with
    | REPRESENTATION_OP_MARK_PERMANENT, Some h =>
        if (0 <? previous_count)%Z && network then [Rep_network_store h] else []
    | _, _ => []
    end in
  (s <| rep_outstanding_ops := pred (rep_outstanding_ops s) |>, announce) ;;; _rep_maybe_finish.

Definition representation_actor_dispatch s (msg : rep_message) : representation_actor_t * list rep_effect :=
  match msg with
  | REP_READABLE_PULL => (s, [Rep_cache_get (rep_descriptor_hash s)])
  | REP_CACHE_GET_RESULT block hash => rep_get_result block hash s
  | REP_CACHE_EPHEMERAL_RESULT hash previous_count => rep_ephemeral_result hash previous_count s
  | REP_CACHE_PIN_RESULT | REP_CACHE_UNPIN_RESULT =>
      _rep_maybe_finish (s <| rep_outstanding_ops := pred (rep_outstanding_ops s) |>)
  end.
End Walk.

Definition representation_actor_create (descriptor_hash : bytes) (op : representation_op_e) (reply_to : bool)
  : representation_actor_t :=
  mk_rep descriptor_hash None op reply_to 0 0 0 [] false.

(** ** Visiting hashes *)

Lemma hash_seen_spec s h : _rep_hash_seen s h = true <-> h ∈ rep_seen_hashes s.
Proof.
  unfold _rep_hash_seen. rewrite existsb_exists. split.
  - intros (x & Hin & E). apply Z.eqb_eq, compare_bytes_eq in E. subst. by apply list_elem_of_In.
  - intros Hin. exists h. split; [by apply list_elem_of_In|]. by apply Z.eqb_eq, compare_bytes_eq.
Qed.

(** The outcome of visiting the hashes [hs]: each one not seen before is
    recorded, counted and gets the operation once. *)
Record visits (hs : list bytes) (s : representation_actor_t) (r : representation_actor_t * list rep_effect)
    (new : list bytes) : Prop := {
  vis_state : r.1 = s <| rep_seen_hashes := rep_seen_hashes s ++ new |>
                      <| rep_blocks_touched := (rep_blocks_touched s + length new)%nat |>
                      <| rep_outstanding_ops := (rep_outstanding_ops s + length r.2)%nat |>;
  vis_effects : r.2 = omap (op_request (rep_op s)) new;
  vis_fresh : NoDup new /\ Forall (fun x => x ∉ rep_seen_hashes s) new;
  vis_new : new ⊆ hs;
  vis_all : forall x, x ∈ hs -> x ∈ rep_seen_hashes s \/ x ∈ new
}.

Lemma visits_nil s : visits [] s (done s) [].
Proof.
  split; cbn.
  - rewrite app_nil_r, !Nat.add_0_r. by destruct s.
  - done.
  - by split; constructor.
  - done.
  - intros x Hx. by apply elem_of_nil in Hx.
Qed.

Lemma visits_one h s : exists new, visits [h] s (_rep_apply_to_hash h s) new.
Proof.
  unfold _rep_apply_to_hash. destruct (_rep_hash_seen s h) eqn:E.
  - apply hash_seen_spec in E. exists []. destruct (visits_nil s) as [H1 H2 H3 _ _].
    split; [done..|intros x Hx; by apply elem_of_nil in Hx|].
    intros x Hx. left. by apply list_elem_of_singleton in Hx as ->.
  - exists [h]. assert (h ∉ rep_seen_hashes s) as Hh by (rewrite <- hash_seen_spec; by rewrite E).
    change (rep_op (s <| rep_seen_hashes := rep_seen_hashes s ++ [h] |> <| rep_blocks_touched := S (rep_blocks_touched s) |>))
      with (rep_op s).
    split.
    + destruct (op_request (rep_op s) h); cbn; unfold set; destruct s; cbn; f_equal; lia.
    + cbn. by destruct (op_request (rep_op s) h).
    + split; [apply NoDup_singleton|by constructor].
    + done.
    + intros x Hx. by right.
Qed.

Lemma visits_app hs1 hs2 s r1 f new1 new2 :
  visits hs1 s r1 new1 -> visits hs2 r1.1 (f r1.1) new2 -> visits (hs1 ++ hs2) s (r1 ;;; f) (new1 ++ new2).
Proof.
  intros [A1 A2 A3 A4 A5] [B1 B2 B3 B4 B5]. rewrite andthen_eq.
  assert (rep_op r1.1 = rep_op s) as Ho by by rewrite A1.
  assert (rep_seen_hashes r1.1 = rep_seen_hashes s ++ new1) as Hs by by rewrite A1.
  rewrite Ho in B2. rewrite Hs in B3, B5. split; cbn [fst snd].
  - rewrite B1, A1. unfold set. cbn. rewrite !length_app, A2. destruct s; cbn. f_equal; [lia|lia|by rewrite app_assoc].
  - by rewrite A2, B2, omap_app.
  - destruct A3 as [N1 F1], B3 as [N2 F2]. split.
    + apply NoDup_app. split_and!; [done| |done]. intros x Hx Hx2.
      eapply Forall_forall in F2; [|exact Hx2]. apply F2, elem_of_app. by right.
    + apply Forall_app. split; [done|]. eapply Forall_impl; [exact F2|]. intros x Hx Hx2. apply Hx, elem_of_app. by left.
  - intros x [Hx|Hx]%elem_of_app; apply elem_of_app; [left; by apply A4|right; by apply B4].
  - intros x [Hx|Hx]%elem_of_app.
    + destruct (A5 x Hx); [by left|]. right. apply elem_of_app. by left.
    + destruct (B5 x Hx) as [[?|?]%elem_of_app|?]; [by left|right; apply elem_of_app; by left|right; apply elem_of_app; by right].
Qed.

(** The hashes in the first [n] slots of a block; a slot of zeros is padding. *)
Definition slot_hashes (n : nat) (data : bytes) : list bytes :=
  filter (fun h => _rep_is_zero_hash h = false) (chunks REPRESENTATION_DESCRIPTOR_PAD n data).

Lemma apply_slices_visits fuel data offset data_end s :
  (offset <= data_end)%nat -> (data_end <= offset + fuel)%nat ->
  exists new, visits (slot_hashes ((data_end - offset) / REPRESENTATION_DESCRIPTOR_PAD) (drop offset data)) s
    (apply_slices fuel data offset data_end s) new.
Proof.
  unfold REPRESENTATION_DESCRIPTOR_PAD. revert offset s.
  induction fuel as [|fuel IH]; intros offset s Hle Hf; cbn [apply_slices].
  { exists []. replace (data_end - offset)%nat with 0%nat by lia. apply visits_nil. }
  destruct (Nat.leb_spec (offset + REPRESENTATION_DESCRIPTOR_PAD) data_end) as [Hin|Hout];
    unfold REPRESENTATION_DESCRIPTOR_PAD in *; cycle 1.
  { exists []. rewrite Nat.div_small by lia. apply visits_nil. }
  replace ((data_end - offset) / 32)%nat with (S ((data_end - (offset + 32)) / 32)); cycle 1.
  { replace (data_end - offset)%nat with ((data_end - (offset + 32)) + 1 * 32)%nat by lia. rewrite Nat.div_add; lia. }
  unfold slot_hashes in *. unfold REPRESENTATION_DESCRIPTOR_PAD in *. cbn [chunks]. rewrite drop_drop, filter_cons.
  destruct (_rep_is_zero_hash (take 32 (drop offset data))) eqn:Ez; cbn [decide].
  - rewrite decide_False by done. destruct (IH (offset + 32)%nat s ltac:(lia) ltac:(lia)) as [new Hn]. exists new.
    rewrite andthen_eq. cbn [done fst snd app]. rewrite <- surjective_pairing. exact Hn.
  - rewrite decide_True by done. destruct (visits_one (take 32 (drop offset data)) s) as [new1 H1].
    destruct (IH (offset + 32)%nat (_rep_apply_to_hash (take 32 (drop offset data)) s).1 ltac:(lia) ltac:(lia)) as [new2 H2].
    exists (new1 ++ new2). by apply (visits_app [_]).
Qed.

(** ** A descriptor block *)

(** How many slots of a block hold hashes of the file, and the pointer to the
    next descriptor block. *)
Definition data_slots (type : block_size_e) (size : nat) : nat :=
  let cut_point := (representation_block_size_for_type type / REPRESENTATION_DESCRIPTOR_PAD * REPRESENTATION_DESCRIPTOR_PAD)%nat in
  ((if cut_point <? size then cut_point - REPRESENTATION_DESCRIPTOR_PAD else size - REPRESENTATION_DESCRIPTOR_PAD)
   / REPRESENTATION_DESCRIPTOR_PAD)%nat.

Definition next_pointer (data : bytes) : bytes := drop (length data - REPRESENTATION_DESCRIPTOR_PAD) data.

Definition found_hashes (type : block_size_e) (data h : bytes) : list bytes :=
  slot_hashes (data_slots type (length data)) data ++ [h].

Lemma process_block_spec type data h s :
  (REPRESENTATION_DESCRIPTOR_PAD <= length data)%nat ->
  exists r new, visits (found_hashes type data h) s r new /\
    _rep_process_descriptor_block type data h s =
      (if _rep_is_zero_hash (next_pointer data) then r.1 else r.1 <| rep_next_descriptor_hash := Some (next_pointer data) |>, r.2).
Proof.
  intros Hl. unfold _rep_process_descriptor_block, found_hashes, data_slots.
  rewrite (proj2 (Nat.ltb_ge _ _) Hl).
  set (cut := (representation_block_size_for_type type / REPRESENTATION_DESCRIPTOR_PAD * REPRESENTATION_DESCRIPTOR_PAD)%nat).
  set (e := if (cut <? length data)%nat then _ else _).
  assert (e <= length data - REPRESENTATION_DESCRIPTOR_PAD)%nat as He.
  { subst e. destruct (Nat.ltb_spec cut (length data)); lia. }
  destruct (apply_slices_visits (length data) data 0 e s ltac:(lia) ltac:(lia)) as [new1 H1].
  rewrite Nat.sub_0_r, drop_0 in H1.
  destruct (visits_one h (apply_slices (length data) data 0 e s).1) as [new2 H2].
  eexists _, _. split; [exact (visits_app _ _ _ _ _ _ _ H1 H2)|].
  rewrite (andthen_eq (_ ;;; _)), (proj2 (Nat.leb_le _ _) He). fold (next_pointer data).
  destruct (_rep_is_zero_hash (next_pointer data)); cbn [done fst snd]; rewrite app_nil_r; [|done]. by rewrite <- surjective_pairing.
Qed.

(** ** The actor and its environment *)

Definition is_request (e : rep_effect) : bool :=
  match e with Rep_cache_clear _ | Rep_cache_release _ | Rep_cache_pin _ | Rep_cache_unpin _ => true | _ => false end.

Definition is_reply (e : rep_effect) : bool :=
  match e with Rep_op_result _ _ | Rep_collect_result _ _ _ => true | _ => false end.

Definition requests (effs : list rep_effect) : list rep_effect := List.filter is_request effs.
Definition rep_replies (effs : list rep_effect) : list rep_effect := List.filter is_reply effs.

(** The block the actor waits for after a message. *)
Definition gets (effs : list rep_effect) : list bytes :=
  omap (fun e => match e with Rep_cache_get h => Some h | _ => None end) effs.

Definition pending_get (effs : list rep_effect) : option bytes := last (gets effs).

Definition is_answer (msg : rep_message) : bool :=
  match msg with REP_CACHE_EPHEMERAL_RESULT _ _ | REP_CACHE_PIN_RESULT | REP_CACHE_UNPIN_RESULT => true | _ => false end.

Section Reach.
Variables (type : block_size_e) (registry network : bool) (h0 : bytes) (op : representation_op_e).
Abbreviation dispatch := (representation_actor_dispatch type registry network).

(** The states of a walk with the block it waits for, the number of operations
    without an answer, and all effects so far.  The cache answers each request
    once, in any order, and may not have the block. *)
Inductive rep_reach : representation_actor_t -> option bytes -> nat -> list rep_effect -> Prop :=
| reach_start s effs :
    dispatch (representation_actor_create h0 op true) REP_READABLE_PULL = (s, effs) ->
    rep_reach s (pending_get effs) 0 effs
| reach_get s h k effs block s' e :
    rep_reach s (Some h) k effs -> dispatch s (REP_CACHE_GET_RESULT block h) = (s', e) ->
    rep_reach s' (pending_get e) (k + length (requests e)) (effs ++ e)
| reach_answer s g k effs msg s' e :
    rep_reach s g (S k) effs -> is_answer msg = true -> dispatch s msg = (s', e) ->
    rep_reach s' g k (effs ++ e).

Record rep_inv (s : representation_actor_t) (g : option bytes) (k : nat) (effs : list rep_effect)
    (visited : list bytes) : Prop := {
  ri_fixed : rep_op s = op /\ rep_descriptor_hash s = h0 /\ rep_next_descriptor_hash s = None;
  ri_done : rep_walk_done s = match g with Some _ => false | None => true end;
  ri_outstanding : rep_outstanding_ops s = k;
  ri_visited : NoDup visited /\ rep_blocks_touched s = length visited;
  ri_seen : rep_reply_to s = true -> rep_seen_hashes s = visited;
  ri_next : forall h, g = Some h -> h ∉ visited /\ rep_reply_to s = true;
  ri_requests : requests effs = omap (op_request op) visited;
  ri_replies : rep_replies effs =
    if rep_reply_to s then []
    else [match op with
          | REPRESENTATION_OP_COLLECT => Rep_collect_result (rep_result s) (length visited) visited
          | _ => Rep_op_result (rep_result s) (length visited)
          end];
  ri_replied : rep_reply_to s = false <-> g = None /\ k = 0%nat
}.

Lemma rep_requests_app e1 e2 : requests (e1 ++ e2) = requests e1 ++ requests e2.
Proof. apply List.filter_app. Qed.

Lemma rep_replies_app e1 e2 : rep_replies (e1 ++ e2) = rep_replies e1 ++ rep_replies e2.
Proof. apply List.filter_app. Qed.

Lemma gets_app e1 e2 : gets (e1 ++ e2) = gets e1 ++ gets e2.
Proof. apply omap_app. Qed.

Lemma requests_gets l : requests l = l -> gets l = [].
Proof.
  induction l as [|e l IH]; [done|]. unfold requests in *. cbn [List.filter].
  destruct e; cbn [is_request]; intros H; try (by injection H as H; apply IH);
    (assert (length (List.filter is_request l) <= length l)%nat by apply List.filter_length_le;
     apply (f_equal length) in H; cbn [length] in H; lia).
Qed.

Lemma op_requests l : requests (omap (op_request op) l) = omap (op_request op) l /\ rep_replies (omap (op_request op) l) = [].
Proof.
  induction l as [|x l [IH1 IH2]]; [done|]. cbn [omap list_omap].
  destruct op; cbn in *; (split; [f_equal; exact IH1|exact IH2]) || done.
Qed.

(** A state before it has replied. *)
Record rep_open (s : representation_actor_t) (k : nat) (effs : list rep_effect) (visited : list bytes) : Prop := {
  ro_fixed : rep_op s = op /\ rep_descriptor_hash s = h0 /\ rep_next_descriptor_hash s = None;
  ro_outstanding : rep_outstanding_ops s = k;
  ro_visited : NoDup visited /\ rep_blocks_touched s = length visited;
  ro_seen : rep_reply_to s = true /\ rep_seen_hashes s = visited;
  ro_requests : requests effs = omap (op_request op) visited;
  ro_replies : rep_replies effs = []
}.

Lemma open_inv s g k effs visited :
  rep_open s k effs visited -> rep_walk_done s = match g with Some _ => false | None => true end ->
  (forall h, g = Some h -> h ∉ visited) -> g <> None \/ k <> 0%nat -> rep_inv s g k effs visited.
Proof.
  intros [Hf Ho Hv [Hr Hs] Hq Hp] Hd Hg Hopen. split; try done.
  - intros h Hh. split; [by apply Hg|done].
  - by rewrite Hr.
  - rewrite Hr. split; [done|]. intros [-> ->]. by destruct Hopen.
Qed.

Lemma inv_open s g k effs visited :
  rep_inv s g k effs visited -> g <> None \/ k <> 0%nat -> rep_open s k effs visited.
Proof.
  intros [Hf Hd Ho Hv Hs Hg Hq Hp Hr] Hopen.
  assert (rep_reply_to s = true) as Ht.
  { destruct (rep_reply_to s); [done|]. destruct (proj1 Hr eq_refl) as [-> ->]. by destruct Hopen. }
  split; try done; [split; [done|by apply Hs]|]. by rewrite Hp, Ht.
Qed.

Lemma maybe_finish_inv s g k effs visited :
  rep_open s k effs visited -> rep_walk_done s = match g with Some _ => false | None => true end ->
  (forall h, g = Some h -> h ∉ visited) ->
  let '(s', e) := _rep_maybe_finish s in
  rep_inv s' g k (effs ++ e) visited /\ requests e = [] /\ gets e = [] /\ rep_result s' = rep_result s.
Proof.
  intros Hop Hd Hg. unfold _rep_maybe_finish. rewrite Hd, (ro_outstanding _ _ _ _ Hop).
  destruct g as [h|]; cbn [negb orb].
  { cbn [done]. rewrite app_nil_r. split; [|done]. apply open_inv; try done. by left. }
  destruct (Nat.ltb_spec 0 k) as [Hk|Hk].
  { cbn [done]. rewrite app_nil_r. split; [|done]. apply open_inv; try done. right. lia. }
  assert (k = 0%nat) as -> by lia. destruct Hop as [[Ho Hf] Hk0 [Hv Ht] [Hr Hs] Hq Hp].
  unfold _rep_reply. rewrite Hr, Ho, Ht, Hs.
  assert (forall s' e, rep_op s' = op /\ rep_descriptor_hash s' = h0 /\ rep_next_descriptor_hash s' = None ->
    rep_walk_done s' = true -> rep_outstanding_ops s' = 0%nat -> rep_blocks_touched s' = length visited ->
    rep_reply_to s' = false -> requests e = [] -> rep_replies e =
      [match op with
       | REPRESENTATION_OP_COLLECT => Rep_collect_result (rep_result s') (length visited) visited
       | _ => Rep_op_result (rep_result s') (length visited)
       end] -> rep_inv s' None 0 (effs ++ e) visited) as Hfin.
  { intros s' e Hf' Hd' Hk' Ht' Hr' He Hre. split; try done.
    - by rewrite Hr'.
    - by rewrite rep_requests_app, He, app_nil_r.
    - by rewrite rep_replies_app, Hp, Hre, Hr'. }
  destruct op; (split; [|done]); apply Hfin; done.
Qed.

Lemma end_walk_inv s k effs visited :
  rep_open s k effs visited ->
  let '(s', e) := _rep_end_walk registry s in
  rep_inv s' None k (effs ++ e) visited /\ requests e = [] /\ gets e = [] /\ rep_result s' = rep_result s.
Proof.
  intros Hop. unfold _rep_end_walk. set (s1 := s <| rep_walk_done := true |>).
  assert (forall e0, requests e0 = [] -> rep_replies e0 = [] -> gets e0 = [] ->
    let '(s', e) := (s1, e0) ;;; _rep_maybe_finish in
    rep_inv s' None k (effs ++ e) visited /\ requests e = [] /\ gets e = [] /\ rep_result s' = rep_result s) as H.
  { intros e0 H1 H2 H3. assert (rep_open s1 k (effs ++ e0) visited) as Hop1.
    { destruct Hop as [? ? ? ? Hq Hp]. split; try done; [by rewrite rep_requests_app, H1, app_nil_r|by rewrite rep_replies_app, Hp, H2]. }
    pose proof (maybe_finish_inv s1 None k (effs ++ e0) visited Hop1 eq_refl ltac:(done)) as Hm.
    cbn [andthen]. destruct (_rep_maybe_finish s1) as [s' e]. rewrite <- app_assoc in Hm. destruct Hm as (Hi & Hq & Hg & Hr).
    split; [done|]. rewrite rep_requests_app, H1, Hq. split; [done|]. split; [|done].
    unfold gets in *. by rewrite omap_app, H3, Hg. }
  pose proof (H [] eq_refl eq_refl eq_refl) as Hnil. pose proof (H [Rep_registry_remove (rep_descriptor_hash s)] eq_refl eq_refl eq_refl) as Hreg.
  change (rep_op s1) with (rep_op s). change (rep_descriptor_hash s1) with (rep_descriptor_hash s).
  destruct (rep_op s); try (by destruct registry);
    rewrite andthen_eq in Hnil; cbn [fst snd app] in Hnil; by destruct (_rep_maybe_finish s1).
Qed.

Lemma visits_open hs s r new k effs visited :
  rep_open s k effs visited -> visits hs s r new ->
  rep_open r.1 (k + length (requests r.2)) (effs ++ r.2) (visited ++ new) /\
  requests r.2 = r.2 /\ rep_walk_done r.1 = rep_walk_done s /\ rep_result r.1 = rep_result s.
Proof.
  intros [(Ho & Hh & Hn) Hk [Hv Ht] [Hr Hs] Hq Hp] [V1 V2 [V3 V4] _ _].
  rewrite Ho in V2. destruct (op_requests new) as [Hq2 Hp2]. rewrite <- V2 in Hq2, Hp2.
  rewrite V1. rewrite Hq2. split; [|done]. split.
  - done.
  - cbn. by rewrite Hk.
  - cbn. rewrite Ht, length_app. split; [|done]. apply NoDup_app. split_and!; [done| |done].
    intros x Hx Hx2. eapply Forall_forall in V4; [|exact Hx2]. by rewrite Hs in V4.
  - cbn. by rewrite Hs.
  - by rewrite rep_requests_app, Hq, Hq2, V2, omap_app.
  - by rewrite rep_replies_app, Hp, Hp2.
Qed.

(** The end of a walk with a given result. *)
Lemma end_walk_with s z k effs visited :
  rep_open s k effs visited ->
  let '(s', e) := _rep_end_walk registry (s <| rep_result := z |>) in
  rep_inv s' (pending_get e) (k + length (requests e)) (effs ++ e) visited /\ rep_result s' = z /\ gets e = [].
Proof.
  intros Hop. pose proof (end_walk_inv (s <| rep_result := z |>) k effs visited) as Hw.
  destruct (_rep_end_walk registry _) as [s' e]. destruct Hw as (Hw & Hq & Hg & Hr); [by destruct Hop|].
  unfold pending_get. rewrite Hg, Hq, Nat.add_0_r. by split_and!.
Qed.

(** The arrival of a descriptor block. *)
Lemma get_result_inv s h k effs visited block :
  rep_inv s (Some h) k effs visited ->
  let '(s', e) := rep_get_result type registry block h s in
  exists visited', rep_inv s' (pending_get e) (k + length (requests e)) (effs ++ e) visited' /\
    visited ⊆ visited' /\ (is_Some (pending_get e) -> h ∈ visited' /\ block <> None).
Proof.
  intros Hi. pose proof (inv_open _ _ _ _ _ Hi ltac:(by left)) as Hop.
  unfold rep_get_result. destruct block as [b|]; cycle 1.
  { pose proof (end_walk_with s (-1)%Z k effs visited Hop) as Hw. destruct (_rep_end_walk registry _) as [s' e].
    destruct Hw as (Hw & _ & Hg). exists visited. split_and!; [done|done|]. unfold pending_get. rewrite Hg. by intros [? ?]. }
  destruct (Nat.ltb_spec (length (block_bytes b)) REPRESENTATION_DESCRIPTOR_PAD) as [Hsmall|Hl].
  { unfold _rep_process_descriptor_block. rewrite (proj2 (Nat.ltb_lt _ _) Hsmall), andthen_eq. cbn [done fst snd].
    change (rep_next_descriptor_hash (s <| rep_result := (-2)%Z |>)) with (rep_next_descriptor_hash s).
    destruct (ro_fixed _ _ _ _ Hop) as (_ & _ & ->).
    pose proof (end_walk_with s (-2)%Z k effs visited Hop) as Hw. destruct (_rep_end_walk registry _) as [s' e].
    destruct Hw as (Hw & _ & Hg). exists visited. cbn [fst snd app]. split_and!; [done|done|]. unfold pending_get. rewrite Hg. by intros [? ?]. }
  destruct (process_block_spec type (block_bytes b) h s Hl) as (r & new & Hvis & ->).
  destruct (visits_open _ _ _ _ _ _ _ Hop Hvis) as (Hop' & Hreq & Hdone & Hres).
  assert (h ∈ visited ++ new) as Hh.
  { destruct (vis_all _ _ _ _ Hvis h); [apply elem_of_app; right; by apply list_elem_of_singleton| |].
    - rewrite <- (proj2 (ro_seen _ _ _ _ Hop)). apply elem_of_app. by left.
    - apply elem_of_app. by right. }
  rewrite (ri_done _ _ _ _ _ Hi) in Hdone.
  rewrite andthen_eq. cbn [fst snd]. destruct (_rep_is_zero_hash (next_pointer (block_bytes b))).
  - destruct (ro_fixed _ _ _ _ Hop') as (_ & _ & ->).
    pose proof (end_walk_inv r.1 _ _ _ Hop') as Hw. destruct (_rep_end_walk registry r.1) as [s' e]. cbn [fst snd].
    destruct Hw as (Hw & Hq & Hg & _). exists (visited ++ new).
    unfold pending_get. rewrite gets_app, Hg, app_nil_r, (requests_gets _ Hreq), rep_requests_app, Hq, app_nil_r, app_assoc.
    split_and!; [done|intros x Hx; apply elem_of_app; by left|by intros [? ?]].
  - change (rep_next_descriptor_hash (r.1 <| rep_next_descriptor_hash := Some (next_pointer (block_bytes b)) |>))
      with (Some (next_pointer (block_bytes b))). cbn iota beta.
    set (s1 := r.1 <| rep_next_descriptor_hash := Some _ |> <| rep_next_descriptor_hash := None |>).
    assert (rep_open s1 (k + length (requests r.2)) (effs ++ r.2) (visited ++ new)) as Hop1 by (by destruct Hop' as [(? & ? & ?)]).
    destruct (_rep_hash_seen s1 (next_pointer (block_bytes b))) eqn:Eseen.
    + pose proof (end_walk_with s1 (-3)%Z _ _ _ Hop1) as Hw. destruct (_rep_end_walk registry _) as [s' e]. cbn [fst snd].
      destruct Hw as (Hw & _ & Hg). exists (visited ++ new). unfold pending_get in *.
      rewrite gets_app, (requests_gets _ Hreq), rep_requests_app, length_app, Nat.add_assoc, app_assoc. cbn [app].
      split_and!; [done|intros x Hx; apply elem_of_app; by left|]. rewrite Hg. by intros [? ?].
    + cbn [fst snd]. exists (visited ++ new). unfold pending_get. rewrite gets_app, (requests_gets _ Hreq), rep_requests_app.
      cbn [requests List.filter is_request app gets omap list_omap last]. rewrite app_nil_r, app_assoc.
      split_and!; [|intros x Hx; apply elem_of_app; by left|done].
      apply open_inv; [|done| |by left].
      * destruct Hop1 as [? ? ? ? Hq Hp]. split; try done; [by rewrite rep_requests_app, Hq, app_nil_r|by rewrite rep_replies_app, Hp].
      * intros x [= <-]. rewrite <- (proj2 (ro_seen _ _ _ _ Hop1)), <- hash_seen_spec. by rewrite Eseen.
Qed.

Lemma rep_reach_inv s g k effs : rep_reach s g k effs -> exists visited, rep_inv s g k effs visited.
Proof.
  induction 1 as [s effs E|s h k effs block s' e _ [visited IH] E|s g k effs msg s' e _ [visited IH] Hm E].
  - injection E as <- <-. exists []. apply open_inv; [|done|intros h [= <-]; apply not_elem_of_nil|by left].
    split; try done. by split; [constructor|].
  - pose proof (get_result_inv s h k effs visited block IH) as Hg. change (rep_get_result type registry block h s = (s', e)) in E.
    rewrite E in Hg. destruct Hg as (visited' & Hi & _). by exists visited'.
  - exists visited. assert (g <> None \/ S k <> 0%nat) as Hopen by by right.
    pose proof (inv_open _ _ _ _ _ IH Hopen) as Hop.
    set (s1 := s <| rep_outstanding_ops := pred (rep_outstanding_ops s) |>).
    assert (forall e0, requests e0 = [] -> rep_replies e0 = [] -> (s1, e0) ;;; _rep_maybe_finish = (s', e) ->
      rep_inv s' g k (effs ++ e) visited) as H.
    { intros e0 H1 H2 He. assert (rep_open s1 k (effs ++ e0) visited) as Hop1.
      { destruct Hop as [? Hk ? ? Hq Hp]. split; try done; [cbn; by rewrite Hk|by rewrite rep_requests_app, H1, app_nil_r|
          by rewrite rep_replies_app, Hp, H2]. }
      pose proof (maybe_finish_inv s1 g k (effs ++ e0) visited Hop1 (ri_done _ _ _ _ _ IH)) as Hw.
      cbn [andthen] in He. destruct (_rep_maybe_finish s1) as [s2 e2]. injection He as <- <-. rewrite app_assoc.
      apply Hw. intros h Hh. by apply (ri_next _ _ _ _ _ IH). }
    destruct msg as [| |hash previous| |]; try done; cbn [representation_actor_dispatch] in E.
    + apply (H _) in E; [done|..]; destruct (rep_op s); try done; destruct hash; try done;
        by destruct ((0 <? previous)%Z && network).
    + apply (H [] eq_refl eq_refl). cbn [andthen]. fold s1 in E. by rewrite E.
    + apply (H [] eq_refl eq_refl). cbn [andthen]. fold s1 in E. by rewrite E.
Qed.

(** In every state of a walk, each block found so far has got the operation
    exactly once, no block twice; the reply is sent exactly when no block is
    awaited and no operation is unanswered, once, and counts the blocks. *)
Theorem representation_exactly_once s g k effs :
  rep_reach s g k effs ->
  exists visited, NoDup visited /\ requests effs = omap (op_request op) visited /\
    rep_outstanding_ops s = k /\
    (g = None /\ k = 0%nat -> exists result, rep_replies effs =
       [match op with
        | REPRESENTATION_OP_COLLECT => Rep_collect_result result (length visited) visited
        | _ => Rep_op_result result (length visited)
        end]) /\
    (g <> None \/ k <> 0%nat -> rep_replies effs = []).
Proof.
  intros Hr. destruct (rep_reach_inv s g k effs Hr) as [visited Hi]. exists visited. split_and!.
  - apply Hi.
  - apply Hi.
  - apply Hi.
  - intros Hd. exists (rep_result s). by rewrite (ri_replies _ _ _ _ _ Hi), (proj2 (ri_replied _ _ _ _ _ Hi) Hd).
  - intros Hd. apply (inv_open _ _ _ _ _ Hi) in Hd. by destruct Hd.
Qed.
End Reach.

(** ** Termination *)

(** The walk with a cache that answers from [lookup]. *)
Fixpoint rep_drive (fuel : nat) (type : block_size_e) (registry : bool) (lookup : bytes -> option block_t)
    (s : representation_actor_t) (h : bytes) : representation_actor_t * list rep_effect :=
  let '(s, effs) := rep_get_result type registry (lookup h) h s in
  match fuel, pending_get effs with
  | S fuel, Some h' => let '(s, effs') := rep_drive fuel type registry lookup s h' in (s, effs ++ effs')
  | _, _ => (s, effs)
  end.

(** The walk of the file with descriptor hash [h]. *)
Definition rep_walk (fuel : nat) (type : block_size_e) (registry : bool) (op : representation_op_e)
    (lookup : bytes -> option block_t) (h : bytes) : representation_actor_t * list rep_effect :=
  rep_drive fuel type registry lookup (representation_actor_create h op true) h.

Lemma rep_drive_ends type registry op h0 lookup (stored : list bytes) fuel :
  (forall h, lookup h <> None -> h ∈ stored) ->
  forall s h k effs visited, rep_inv h0 op s (Some h) k effs visited ->
  (length (filter (fun x => x ∉ visited) (remove_dups stored)) < fuel)%nat ->
  let '(s', e) := rep_drive fuel type registry lookup s h in
  exists visited', rep_inv h0 op s' None (k + length (requests e)) (effs ++ e) visited'.
Proof.
  intros Hst. induction fuel as [|fuel IH]; intros s h k effs visited Hi Hf; [lia|]. cbn [rep_drive].
  pose proof (get_result_inv type registry h0 op s h k effs visited (lookup h) Hi) as Hg.
  destruct (rep_get_result type registry (lookup h) h s) as [s1 e1]. destruct Hg as (visited1 & Hi1 & Hsub & Hnew).
  destruct (pending_get e1) as [h'|] eqn:Ep; [|by exists visited1].
  destruct (Hnew ltac:(by eexists)) as [Hin Hblk].
  specialize (IH s1 h' _ _ _ Hi1). destruct (rep_drive fuel type registry lookup s1 h') as [s2 e2].
  destruct IH as [visited2 Hi2].
  - eapply Nat.lt_le_trans; [|apply le_S_n, Hf].
    assert (h ∈ filter (fun x => x ∉ visited) (remove_dups stored)) as Hh.
    { apply list_elem_of_filter. split; [by apply (ri_next _ _ _ _ _ _ _ Hi h eq_refl)|]. apply elem_of_remove_dups. by apply Hst. }
    assert (filter (fun x => x ∉ visited1) (remove_dups stored) ⊆+
            filter (fun x => x <> h) (filter (fun x => x ∉ visited) (remove_dups stored))) as Hsm.
    { apply NoDup_submseteq; [apply NoDup_filter, NoDup_remove_dups|]. intros x [Hx Hx2]%list_elem_of_filter.
      apply list_elem_of_filter. split; [by intros ->|]. apply list_elem_of_filter. split; [|done]. intros Hx3. by apply Hx, Hsub. }
    apply submseteq_length in Hsm. eapply Nat.le_lt_trans; [exact Hsm|].
    apply list_elem_of_split in Hh as (l1 & l2 & El). rewrite El, filter_app, filter_cons, decide_False by (intros Hn; by apply Hn).
    rewrite !length_app. cbn [length].
    pose proof (length_filter (fun x => x <> h) l1). pose proof (length_filter (fun x => x <> h) l2). lia.
  - exists visited2. rewrite rep_requests_app, length_app, Nat.add_assoc, app_assoc. done.
Qed.

Lemma rep_start_inv op h : rep_inv h op (representation_actor_create h op true) (Some h) 0 [Rep_cache_get h] [].
Proof.
  apply open_inv; [|done|intros x [= <-]; apply not_elem_of_nil|by left]. split; try done. by split; [constructor|].
Qed.

(** C33: the walk ends, however the descriptor blocks point to one another, once
    every block of the cache has been visited; a collecting walk then has
    replied with the set of hashes it found. *)
Theorem representation_walk_ends type registry op lookup (stored : list bytes) h fuel :
  (forall x, lookup x <> None -> x ∈ stored) -> (length stored < fuel)%nat ->
  let '(s, effs) := rep_walk fuel type registry op lookup h in
  rep_walk_done s = true /\ rep_outstanding_ops s = length (requests effs) /\
  (op = REPRESENTATION_OP_COLLECT -> exists result hashes,
     rep_replies effs = [Rep_collect_result result (length hashes) hashes] /\ NoDup hashes).
Proof.
  intros Hst Hf. unfold rep_walk.
  pose proof (rep_drive_ends type registry op h lookup stored fuel Hst _ h 0 _ _ (rep_start_inv op h)) as H.
  destruct (rep_drive fuel type registry lookup _ h) as [s effs]. destruct H as [visited Hi].
  { eapply Nat.le_lt_trans; [apply length_filter|].
    eapply Nat.le_lt_trans; [apply submseteq_length, NoDup_submseteq; [apply NoDup_remove_dups|]|exact Hf].
    intros x. by rewrite elem_of_remove_dups. }
  split_and!; [by rewrite (ri_done _ _ _ _ _ _ _ Hi)|by rewrite (ri_outstanding _ _ _ _ _ _ _ Hi)|].
  intros ->. exists (rep_result s), visited. split; [|apply Hi].
  pose proof (ri_replies _ _ _ _ _ _ _ Hi) as Hr. cbn [rep_replies List.filter is_reply app] in Hr.
  change (rep_replies effs = if rep_reply_to s then [] else [Rep_collect_result (rep_result s) (length visited) visited]) in Hr.
  rewrite Hr, (proj2 (ri_replied _ _ _ _ _ _ _ Hi)); [done|]. split; [done|].
  pose proof (ri_requests _ _ _ _ _ _ _ Hi) as Hq. cbn [requests List.filter is_request app] in Hq.
  change (requests effs = omap (op_request REPRESENTATION_OP_COLLECT) visited) in Hq. rewrite Hq.
  clear. by induction visited.
Qed.

Lemma representation_walk_ends_witness :
  let lookup := fun x => if decide (x = replicate 32 7%Z)
    then Some (mk_block (exact_buffer (replicate 32 7%Z)) (exact_buffer (replicate 32 7%Z))) else None in
  let '(s, effs) := rep_walk 2 nano false REPRESENTATION_OP_COLLECT lookup (replicate 32 7%Z) in
  rep_walk_done s = true /\ rep_outstanding_ops s = length (requests effs) /\
  (REPRESENTATION_OP_COLLECT = REPRESENTATION_OP_COLLECT -> exists result hashes,
     rep_replies effs = [Rep_collect_result result (length hashes) hashes] /\ NoDup hashes).
Proof.
  intros lookup. apply (representation_walk_ends nano false REPRESENTATION_OP_COLLECT lookup [replicate 32 7%Z]).
  - intros x Hx. unfold lookup in Hx. case_decide; [|done]. subst. by apply list_elem_of_singleton.
  - cbn. lia.
Defined.

(** ** The walk of a stored file *)

Lemma chunks_keys (ks : list bytes) rest :
  Forall (is_key REPRESENTATION_DESCRIPTOR_PAD) ks ->
  chunks REPRESENTATION_DESCRIPTOR_PAD (length ks) (concat ks ++ rest) = ks.
Proof.
  induction 1 as [|k ks Hk _ IH]; [done|]. cbn [length chunks concat].
  rewrite <- app_assoc, take_app_length', drop_app_length' by done. by rewrite IH.
Qed.

Lemma zero_hash_key x : is_key REPRESENTATION_DESCRIPTOR_PAD x -> _rep_is_zero_hash x = true -> x = replicate 32 0%Z.
Proof.
  unfold is_key, REPRESENTATION_DESCRIPTOR_PAD, _rep_is_zero_hash. intros Hl Hz. rewrite <- Hl. clear Hl.
  induction x as [|y x IH]; [done|]. cbn [forallb length replicate] in *.
  apply andb_true_iff in Hz as [Hy Hz]. apply Z.eqb_eq in Hy. subst. f_equal. by apply IH.
Qed.

Lemma zero_hash_replicate n : _rep_is_zero_hash (replicate n 0%Z) = true.
Proof. induction n as [|n IH]; [done|]. exact IH. Qed.

Section Collect.
Variables (type : block_size_e) (registry : bool) (Ts : list (list bytes)) (lookup : bytes -> option block_t).
Let cutk := (Z.to_nat (block_size type) / BLAKE3_OUT_LEN)%nat.
Let K := concat Ts.
Hypothesis keys : Forall (is_key BLAKE3_OUT_LEN) K.
Hypothesis no_zero_hash : lookup (replicate 32 0%Z) = None.

Abbreviation chain_of lk := (chain BLAKE3_OUT_LEN cutk Ts lk).

(** A descriptor block that starts with the hashes [ks] and one more. *)
Lemma keys_block_slots (ks : list bytes) z data :
  Forall (is_key BLAKE3_OUT_LEN) ks -> length (ks ++ [z]) = cutk -> is_key BLAKE3_OUT_LEN z ->
  take (BLAKE3_OUT_LEN * cutk) data = concat (ks ++ [z]) ->
  (REPRESENTATION_DESCRIPTOR_PAD <= length data)%nat /\ (BLAKE3_OUT_LEN * cutk <= length data)%nat /\
  slot_hashes (data_slots type (length data)) data = filter (fun h => _rep_is_zero_hash h = false) ks.
Proof.
  intros Hk Hl Hz Ht. assert (Forall (is_key BLAKE3_OUT_LEN) (ks ++ [z])) as Hkz
    by (apply Forall_app; split; [done|by apply Forall_singleton]).
  pose proof (f_equal length Ht) as Hlen. rewrite length_take, (length_keys _ _ Hkz), Hl in Hlen.
  rewrite length_app in Hl. cbn [length] in Hl. unfold BLAKE3_OUT_LEN, REPRESENTATION_DESCRIPTOR_PAD in *.
  split; [lia|]. split; [lia|].
  assert (data_slots type (length data) = length ks) as ->.
  { unfold data_slots, representation_block_size_for_type, REPRESENTATION_DESCRIPTOR_PAD.
    change (match type with mega => 1000000 | standard => 128000 | mini => 64000 | nano => 136 end)%Z with (block_size type).
    fold cutk. destruct (Nat.ltb_spec (cutk * 32) (length data)).
    - replace (cutk * 32 - 32)%nat with (length ks * 32)%nat by lia. by apply Nat.div_mul.
    - replace (length data - 32)%nat with (length ks * 32)%nat by lia. by apply Nat.div_mul. }
  unfold slot_hashes. f_equal. rewrite <- (take_drop (32 * cutk) data), Ht, concat_app, <- app_assoc. by apply chunks_keys.
Qed.

Lemma last_block_pointer n b zs z k :
  Forall (is_key BLAKE3_OUT_LEN) (zs ++ [z]) -> length ((drop n K ++ zs) ++ [z]) = cutk ->
  (BLAKE3_OUT_LEN * cutk <= length (block_bytes b))%nat ->
  block_bytes b = concat (drop n K) ++ replicate k 0%Z -> _rep_is_zero_hash (next_pointer (block_bytes b)) = true.
Proof.
  intros Hz Hl Hlen Hb. unfold next_pointer, REPRESENTATION_DESCRIPTOR_PAD.
  pose proof (length_keys BLAKE3_OUT_LEN (drop n K) ltac:(by apply Forall_drop)) as Hd.
  rewrite !length_app in Hl. cbn [length] in Hl. unfold BLAKE3_OUT_LEN in *.
  rewrite Hb in Hlen |- *. rewrite drop_app_ge, drop_replicate; [apply zero_hash_replicate|]. rewrite length_app in *. lia.
Qed.

Lemma next_block_pointer ks (h' data : bytes) :
  Forall (is_key BLAKE3_OUT_LEN) ks -> is_key BLAKE3_OUT_LEN h' -> S (length ks) = cutk ->
  take (BLAKE3_OUT_LEN * cutk) data = concat (ks ++ [h']) -> length data = (BLAKE3_OUT_LEN * cutk)%nat ->
  next_pointer data = h'.
Proof.
  intros Hk Hh Hl Ht Hlen. rewrite take_ge in Ht by lia. unfold next_pointer. rewrite Hlen, Ht, concat_app. cbn [concat].
  rewrite app_nil_r. apply drop_app_length'. rewrite (length_keys _ _ Hk). unfold BLAKE3_OUT_LEN, REPRESENTATION_DESCRIPTOR_PAD in *. lia.
Qed.

(** A collecting actor that waits for a block, nothing having gone wrong. *)
Definition collecting (s : representation_actor_t) : Prop :=
  rep_op s = REPRESENTATION_OP_COLLECT /\ rep_reply_to s = true /\ rep_next_descriptor_hash s = None /\
  rep_outstanding_ops s = 0%nat /\ rep_result s = 0%Z.

Lemma collecting_visits hs s r new :
  collecting s -> visits hs s r new -> collecting r.1 /\ r.2 = [] /\
    (forall x, x ∈ rep_seen_hashes r.1 <-> x ∈ rep_seen_hashes s \/ x ∈ hs).
Proof.
  intros (Ho & Hr & Hn & Hk & Hz) [V1 V2 _ V4 V5].
  assert (r.2 = []) as He by (rewrite V2, Ho; clear; by induction new).
  rewrite V1, He. split; [|split; [done|]].
  - unfold collecting. cbn. by rewrite Hk.
  - intros x. cbn. rewrite elem_of_app. split; [intros [?|?]; [by left|right; by apply V4]|].
    intros [?|?]; [by left|by apply V5].
Qed.

(** A walk that ends replies with its result and the hashes it has seen. *)
Lemma collect_end s z :
  collecting s -> exists s' t, _rep_end_walk registry (s <| rep_result := z |>) = (s', [Rep_collect_result z t (rep_seen_hashes s)]).
Proof.
  intros (Ho & Hr & Hn & Hk & Hz). destruct s. cbn in *. subst. by eexists _, _.
Qed.

(** The block of [h], with hashes [ks] and pointer [p], has arrived. *)
Lemma collect_block s h b (ks : list bytes) :
  collecting s -> lookup h = Some b -> (REPRESENTATION_DESCRIPTOR_PAD <= length (block_bytes b))%nat ->
  slot_hashes (data_slots type (length (block_bytes b))) (block_bytes b) = filter (fun h => _rep_is_zero_hash h = false) ks ->
  exists s1, collecting s1 /\
    (forall x, x ∈ rep_seen_hashes s1 <-> x ∈ rep_seen_hashes s \/ (x ∈ ks /\ _rep_is_zero_hash x = false) \/ x = h) /\
    rep_get_result type registry (lookup h) h s =
      let p := next_pointer (block_bytes b) in
      if _rep_is_zero_hash p then _rep_end_walk registry s1
      else if _rep_hash_seen s1 p then _rep_end_walk registry (s1 <| rep_result := (-3)%Z |>)
      else (s1, [Rep_cache_get p]).
Proof.
  intros Hs Hb Hl Hsl. rewrite Hb. unfold rep_get_result.
  destruct (process_block_spec type (block_bytes b) h s Hl) as (r & new & Hv & ->).
  destruct (collecting_visits _ _ _ _ Hs Hv) as (Hc & He & Hin). unfold found_hashes in Hin. rewrite Hsl in Hin.
  exists r.1. split; [done|]. split.
  { intros x. rewrite Hin, elem_of_app, list_elem_of_filter, list_elem_of_singleton. tauto. }
  cbv zeta. rewrite andthen_eq, He. cbn [fst snd]. destruct (_rep_is_zero_hash (next_pointer (block_bytes b))).
  - destruct Hc as (_ & _ & -> & _). cbn [app]. by rewrite <- surjective_pairing.
  - assert (r.1 <| rep_next_descriptor_hash := None |> = r.1) as Hn.
    { destruct Hc as (_ & _ & Hn & _). destruct r.1. cbn in *. by subst. }
    change (rep_next_descriptor_hash (r.1 <| rep_next_descriptor_hash := Some (next_pointer (block_bytes b)) |>))
      with (Some (next_pointer (block_bytes b))). cbn iota beta.
    change (r.1 <| rep_next_descriptor_hash := Some (next_pointer (block_bytes b)) |> <| rep_next_descriptor_hash := None |>)
      with (r.1 <| rep_next_descriptor_hash := None |>). rewrite Hn. cbn [app].
    destruct (_rep_hash_seen r.1 _); [by rewrite <- surjective_pairing|done].
Qed.

(** Of a chain, a walk that reports success has collected every hash of the
    file, and every descriptor block: a cache that keeps the collected blocks
    keeps the chain. *)
Lemma collect_chain h n :
  chain_of lookup h n -> forall fuel s, collecting s ->
  let '(s', e) := rep_drive fuel type registry lookup s h in
  forall t hs, Rep_collect_result 0 t hs ∈ e ->
    rep_seen_hashes s ⊆ hs /\ h ∈ hs /\ (forall x, x ∈ drop n K -> _rep_is_zero_hash x = false -> x ∈ hs) /\
    (forall lookup', (forall x, x ∈ hs -> lookup' x = lookup x) -> chain_of lookup' h n).
Proof.
  induction 1 as [h n b zs z Hb Hk Hn Hz Hl Ht [k Hp]|h n len b h' Hb Hk Hn Hlen Ht Hsz Hch IH]; intros fuel s Hs.
  - assert (Forall (is_key BLAKE3_OUT_LEN) (drop n K ++ zs) /\ is_key BLAKE3_OUT_LEN z) as [Hdz Hz1].
    { apply Forall_app in Hz as [Hz1 Hz2]. apply Forall_cons in Hz2 as [Hz2 _]. split; [|exact Hz2].
      apply Forall_app. split; [by apply Forall_drop|done]. }
    destruct (keys_block_slots _ _ _ Hdz Hl Hz1 Ht) as (H32 & Hle & Hsl).
    destruct (collect_block s h b _ Hs Hb H32 Hsl) as (s1 & Hc & Hin & E).
    cbv zeta in E. rewrite (last_block_pointer n b zs z k) in E by done. cbn iota in E.
    destruct (collect_end s1 0 Hc) as (s' & t0 & Ew).
    assert (s1 <| rep_result := 0%Z |> = s1) as Hs1.
    { destruct Hc as (_ & _ & _ & _ & Hr). destruct s1. cbn in *. by subst. }
    rewrite Hs1 in Ew. rewrite Ew in E. destruct fuel; cbn [rep_drive]; rewrite E; cbn [pending_get gets omap list_omap last];
      intros t hs [= -> ->]%list_elem_of_singleton.
    all: split_and!; [intros x Hx; apply Hin; by left|apply Hin; by right; right|
      intros x Hx Hnz; apply Hin; right; left; split; [apply elem_of_app; by left|done]|].
    all: intros lookup' Hl'; apply (chain_last _ _ _ _ _ _ b zs z); try done; [|by exists k];
      rewrite Hl'; [done|]; apply Hin; by right; right.
  - assert (Forall (is_key BLAKE3_OUT_LEN) (take len (drop n K))) as Htk by by apply Forall_take, Forall_drop.
    pose proof (chain_key _ _ _ _ _ _ Hch) as Hk'.
    assert (length (take len (drop n K)) = len) as Hll by (rewrite length_take, length_drop; fold K in Hn; lia).
    destruct (keys_block_slots (take len (drop n K)) h' (block_bytes b) Htk) as (H32 & Hle & Hsl);
      [rewrite length_app, Hll; cbn [length]; lia|done|done|].
    destruct (collect_block s h b _ Hs Hb H32 Hsl) as (s1 & Hc & Hin & E). cbv zeta in E.
    rewrite (next_block_pointer (take len (drop n K)) h' (block_bytes b)) in E by (done || lia).
    assert (_rep_is_zero_hash h' = false) as Hnz.
    { destruct (_rep_is_zero_hash h') eqn:Ez; [|done]. apply zero_hash_key in Ez; [|done]. subst h'. by inversion Hch; simplify_eq. }
    rewrite Hnz in E. destruct (_rep_hash_seen s1 h') eqn:Eseen.
    { destruct (collect_end s1 (-3) Hc) as (s' & t0 & Ew). rewrite Ew in E.
      destruct fuel; cbn [rep_drive]; rewrite E; cbn [pending_get gets omap list_omap last];
        by intros t hs ?%list_elem_of_singleton. }
    destruct fuel as [|fuel]; cbn [rep_drive]; rewrite E; cbn [pending_get gets omap list_omap last].
    { by intros t hs ?%list_elem_of_singleton. }
    specialize (IH fuel s1 Hc). destruct (rep_drive fuel type registry lookup s1 h') as [s2 e2].
    intros t hs [?%list_elem_of_singleton|He]%elem_of_app; [done|].
    destruct (IH t hs He) as (I1 & I2 & I3 & I4). split_and!.
    + intros x Hx. apply I1, Hin. by left.
    + apply I1, Hin. by right; right.
    + intros x Hx Hxz. rewrite <- (take_drop len (drop n K)), drop_drop in Hx. apply elem_of_app in Hx as [Hx|Hx]; [|by apply I3].
      apply I1, Hin. right; left. done.
    + intros lookup' Hl'. apply (chain_next _ _ _ _ _ _ len b h'); try done; [|by apply I4].
      rewrite Hl'; [done|]. apply I1, Hin. by right; right.
Qed.

(** A walk that gets past its first block has collected at least that block. *)
Lemma collect_head fuel s h r t hs :
  collecting s -> Rep_collect_result r t hs ∈ (rep_drive fuel type registry lookup s h).2 -> r = 0%Z \/ r = (-3)%Z ->
  rep_seen_hashes s ⊆ hs /\ h ∈ hs.
Proof.
  intros Hs Hin Hr. revert s h Hs Hin. induction fuel as [|fuel IH]; intros s h Hs Hin; cbn [rep_drive] in Hin.
  all: destruct (lookup h) as [b|] eqn:Hb; cycle 1.
  1, 3: destruct (collect_end s (-1) Hs) as (s' & t0 & Ew); unfold rep_get_result in Hin; rewrite Ew in Hin;
    cbn in Hin; apply list_elem_of_singleton in Hin; simplify_eq; by destruct Hr.
  all: destruct (Nat.ltb_spec (length (block_bytes b)) REPRESENTATION_DESCRIPTOR_PAD) as [Hsmall|Hl].
  1, 3: unfold rep_get_result, _rep_process_descriptor_block in Hin; rewrite (proj2 (Nat.ltb_lt _ _) Hsmall), andthen_eq in Hin;
    cbn [done fst snd app] in Hin; destruct (collect_end s (-2) Hs) as (s' & t0 & Ew); pose proof Hs as (_ & _ & Hn & _);
    change (rep_next_descriptor_hash (s <| rep_result := (-2)%Z |>)) with (rep_next_descriptor_hash s) in Hin;
    rewrite Hn, Ew in Hin; cbn in Hin; apply list_elem_of_singleton in Hin; simplify_eq; by destruct Hr.
  all: destruct (collect_block s h b _ Hs Hb Hl eq_refl) as (s1 & Hc & Hseen & E); rewrite <- Hb in Hin; rewrite E in Hin; cbv zeta in Hin.
  all: assert (h ∈ rep_seen_hashes s1 /\ rep_seen_hashes s ⊆ rep_seen_hashes s1) as [Hh Hsub]
    by (split; [apply Hseen; by right; right|intros x Hx; apply Hseen; by left]).
  all: assert (s1 <| rep_result := 0%Z |> = s1) as Hs1 by (destruct Hc as (_ & _ & _ & _ & Hz); destruct s1; cbn in *; by subst).
  all: destruct (_rep_is_zero_hash (next_pointer (block_bytes b)));
    [destruct (collect_end s1 0 Hc) as (s' & t0 & Ew); rewrite Hs1 in Ew; rewrite Ew in Hin|
     destruct (_rep_hash_seen s1 (next_pointer (block_bytes b)));
       [destruct (collect_end s1 (-3) Hc) as (s' & t0 & Ew); rewrite Ew in Hin|]];
    cbn [pending_get gets omap list_omap last snd] in Hin.
  all: try (apply list_elem_of_singleton in Hin; simplify_eq; by split).
  specialize (IH s1 (next_pointer (block_bytes b)) Hc).
  destruct (rep_drive fuel type registry lookup s1 (next_pointer (block_bytes b))) as [s2 e2]. cbn [snd] in *.
  apply elem_of_app in Hin as [Hin|Hin]; [apply list_elem_of_singleton in Hin; simplify_eq|].
  destruct (IH Hin) as [I1 _]. split; [|by apply I1]. etrans; [exact Hsub|exact I1].
Qed.
End Collect.

Lemma collecting_start h : collecting (representation_actor_create h REPRESENTATION_OP_COLLECT true).
Proof. done. Qed.
