(* ===== verification/FloatRatio.v ===== *)
(** * FloatRatio: a quotient of counters does not exceed one

    The elastic Bloom filter compares the float [occupied / buckets] with its
    load factor.  With counters a float represents exactly, the quotient of a
    smaller by a larger one is at most 1.0f, whatever the rounding. *)

From S2P Require Import Prelude Float.
Local Open Scope Z_scope.

Definition one_f : spec_float := S754_finite false 8388608 (-23).

(** ** Shifting a mantissa right *)

Lemma shr_1_half mrs : 0 <= shr_m mrs -> shr_m (shr_1 mrs) = shr_m mrs / 2.
Proof.
  destruct mrs as [m r s]. cbn [shr_m]. intros Hm.
  destruct m as [|[p|p|]|p]; cbn [shr_1 shr_m]; try done.
  - rewrite Pos2Z.inj_xI. apply (Z.div_unique_pos _ _ _ 1); lia.
  - rewrite Pos2Z.inj_xO. apply (Z.div_unique_pos _ _ _ 0); lia.
Qed.

Lemma iter_pos_nat {A} (f : A -> A) p x : iter_pos f p x = Nat.iter (Pos.to_nat p) f x.
Proof.
  revert x. induction p as [p IH|p IH|]; intros x; cbn [iter_pos]; [| |done].
  - rewrite !IH, <- Nat.iter_add, Pos2Nat.inj_xI. replace (S (2 * Pos.to_nat p)) with (S (Pos.to_nat p + Pos.to_nat p)) by lia.
    by rewrite Nat.iter_succ_r.
  - rewrite !IH, <- Nat.iter_add, Pos2Nat.inj_xO. f_equal. lia.
Qed.

Lemma iter_shr n mrs : 0 <= shr_m mrs -> shr_m (Nat.iter n shr_1 mrs) = shr_m mrs / 2 ^ Z.of_nat n.
Proof.
  intros Hm. induction n as [|n IH]; [cbn; by rewrite Z.div_1_r|].
  rewrite Nat.iter_succ, shr_1_half, IH by (rewrite IH; apply Z.div_pos; lia).
  rewrite Z.div_div, Nat2Z.inj_succ, Z.pow_succ_r by lia. f_equal. lia.
Qed.

Lemma iter_shr_exact n m : 0 <= m ->
  Nat.iter n shr_1 (Build_shr_record (m * 2 ^ Z.of_nat n) false false) = Build_shr_record m false false.
Proof.
  revert m. induction n as [|n IH]; intros m Hm; [cbn; by rewrite Z.mul_1_r|].
  rewrite Nat2Z.inj_succ, Z.pow_succ_r, Z.mul_assoc, Nat.iter_succ, IH by lia.
  destruct m as [|p|p]; [done| |lia]. by rewrite Z.mul_comm.
Qed.

(** [shr] as a function of the exponent it ends with. *)
Lemma shr_spec mrs e n :
  0 <= shr_m mrs -> exists mrs', shr mrs e n = (mrs', e + Z.max 0 n) /\ shr_m mrs' = shr_m mrs / 2 ^ Z.max 0 n.
Proof.
  intros Hm. destruct n as [|p|p]; cbn [shr Z.max].
  - exists mrs. rewrite Z.add_0_r, Z.div_1_r. done.
  - exists (iter_pos shr_1 p mrs). split; [done|]. rewrite iter_pos_nat, iter_shr, positive_nat_Z by done. done.
  - exists mrs. rewrite Z.add_0_r, Z.div_1_r. done.
Qed.

Lemma shr_record_m m l : shr_m (shr_record_of_loc m l) = m.
Proof. by destruct l as [|[]]. Qed.

(** ** Rounding a value of at most one *)

Lemma Zdigits_bound m k : 0 <= m -> 0 <= k -> m < 2 ^ k -> Zdigits2 m <= k.
Proof.
  intros Hm Hk Hlt. destruct m as [|p|p]; cbn [Zdigits2]; [done| |lia].
  pose proof (digits_bounds p) as [Hd _].
  destruct (Z.le_gt_cases (Zpos (digits2_pos p)) k) as [|Hgt]; [done|]. exfalso.
  assert (2 ^ k <= 2 ^ (Zpos (digits2_pos p) - 1)) by (apply Z.pow_le_mono_r; lia). lia.
Qed.

Lemma Zdigits_pow k : 0 <= k -> Zdigits2 (2 ^ k) = k + 1.
Proof.
  intros Hk. assert (0 < 2 ^ k) by (apply Z.pow_pos_nonneg; lia).
  destruct (2 ^ k) as [|p|p] eqn:E; try lia. cbn [Zdigits2]. pose proof (digits_bounds p) as [Hl Hu]. rewrite <- E in Hl, Hu.
  apply Z.pow_lt_mono_r_iff in Hu; [|lia..]. apply Z.pow_le_mono_r_iff in Hl; [|lia..]. lia.
Qed.

Lemma fexp_le e : e <= 0 -> fexp 24 128 e <= -24.
Proof. unfold fexp, emin. lia. Qed.

Lemma round_even_le m l : m <= round_nearest_even m l <= m + 1.
Proof. destruct l as [|[]]; cbn; try lia. destruct (Z.even m); lia. Qed.

(** The second normalisation: a mantissa below [2^(-e)], or that power. *)
Lemma finish_round_le m e :
  0 <= m -> e <= -24 -> m <= 2 ^ (- e) ->
  let '(mrs, e') := shr_fexp 24 128 m e loc_Exact in
  SFltb one_f (match shr_m mrs with
               | Z0 => S754_zero false
               | Zpos p => if e' <=? 128 - 24 then S754_finite false p e' else S754_infinity false
               | _ => S754_nan
               end) = false.
Proof.
  intros Hm He Hle. unfold shr_fexp. destruct (Z.eq_dec m (2 ^ (- e))) as [->|Hne].
  - rewrite Zdigits_pow by lia. replace (- e + 1 + e) with 1 by lia. change (fexp 24 128 1) with (-23).
    destruct (shr_spec (shr_record_of_loc (2 ^ (- e)) loc_Exact) e (-23 - e)) as (mrs & -> & Hs); [cbn [shr_record_of_loc shr_m]; lia|].
    rewrite Hs. cbn [shr_record_of_loc shr_m]. rewrite Z.max_r, <- Z.pow_sub_r by lia.
    replace (- e - (-23 - e)) with 23 by lia. replace (e + (-23 - e)) with (-23) by lia. done.
  - pose proof (Zdigits_bound m (- e) Hm ltac:(lia) ltac:(lia)) as Hd.
    pose proof (fexp_le (Zdigits2 m + e) ltac:(lia)) as Hf.
    destruct (shr_spec (shr_record_of_loc m loc_Exact) e (fexp 24 128 (Zdigits2 m + e) - e)) as (mrs & -> & Hs); [done|].
    destruct (shr_m mrs) as [|p|p]; [done| |done].
    rewrite (proj2 (Z.leb_le _ _)) by lia. unfold SFltb, SFcompare, one_f.
    destruct (Z.compare_spec (-23) (e + Z.max 0 (fexp 24 128 (Zdigits2 m + e) - e))); [lia|lia|done].
Qed.

(** A quotient [q * 2^e] of at most one, one only if exact. *)
Lemma round_le_one q e l :
  0 <= q -> e <= -24 -> q < 2 ^ (- e) \/ (q = 2 ^ (- e) /\ l = loc_Exact) ->
  SFltb one_f (binary_round_aux 24 128 false q e l) = false.
Proof.
  intros Hq He Hor. unfold binary_round_aux. destruct Hor as [Hlt|[-> ->]].
  - unfold shr_fexp at 1. pose proof (Zdigits_bound q (- e) Hq ltac:(lia) Hlt) as Hd.
    pose proof (fexp_le (Zdigits2 q + e) ltac:(lia)) as Hf. set (n := fexp 24 128 (Zdigits2 q + e) - e) in *.
    destruct (shr_spec (shr_record_of_loc q l) e n) as (mrs & -> & Hs); [by rewrite shr_record_m|].
    rewrite shr_record_m in Hs.
    assert (q / 2 ^ Z.max 0 n < 2 ^ (- (e + Z.max 0 n))) as Hqn.
    { apply Z.div_lt_upper_bound; [apply Z.pow_pos_nonneg; lia|]. rewrite <- Z.pow_add_r by lia.
      by replace (Z.max 0 n + - (e + Z.max 0 n)) with (- e) by lia. }
    assert (0 <= q / 2 ^ Z.max 0 n) by (apply Z.div_pos; [done|apply Z.pow_pos_nonneg; lia]).
    pose proof (round_even_le (shr_m mrs) (loc_of_shr_record mrs)) as Hr.
    pose proof (finish_round_le (round_nearest_even (shr_m mrs) (loc_of_shr_record mrs)) (e + Z.max 0 n)) as Hfin.
    destruct (shr_fexp 24 128 (round_nearest_even _ _) _ _) as [mrs2 e2]. apply Hfin; lia.
  - unfold shr_fexp at 1. rewrite Zdigits_pow by lia. replace (- e + 1 + e) with 1 by lia. change (fexp 24 128 1) with (-23).
    destruct (-23 - e) as [|p|p] eqn:En; [lia| |lia]. cbn [shr shr_record_of_loc]. rewrite iter_pos_nat.
    replace (2 ^ (- e)) with (2 ^ 23 * 2 ^ Z.of_nat (Pos.to_nat p)) by (rewrite positive_nat_Z, <- Z.pow_add_r by lia; f_equal; lia).
    rewrite iter_shr_exact by lia. replace (e + Zpos p) with (-23) by lia. vm_compute. done.
Qed.

(** ** Counters *)

Lemma shift_left p d : Zpos (Pos.iter xO p d) = Zpos p * 2 ^ Zpos d /\ digits2_pos (Pos.iter xO p d) = (digits2_pos p + d)%positive.
Proof.
  induction d as [|d [IH1 IH2]] using Pos.peano_ind.
  - cbn. split; [lia|]. lia.
  - rewrite Pos.iter_succ. cbn [digits2_pos]. rewrite IH2, Pos2Z.inj_xO, IH1, Pos2Z.inj_succ, Z.pow_succ_r by lia. split; lia.
Qed.

Lemma round_aux_exact m e :
  Zpos (digits2_pos m) = 24 -> -149 <= e <= 104 -> binary_round_aux 24 128 false (Zpos m) e loc_Exact = S754_finite false m e.
Proof.
  intros Hm He. unfold binary_round_aux.
  assert (shr_fexp 24 128 (Zpos m) e loc_Exact = (Build_shr_record (Zpos m) false false, e)) as E.
  { unfold shr_fexp. cbn [Zdigits2 shr_record_of_loc]. rewrite Hm.
    replace (fexp 24 128 (24 + e) - e) with 0 by (unfold fexp, emin; lia). done. }
  rewrite E. cbn [shr_m loc_of_shr_record round_nearest_even]. rewrite E. cbn [shr_m].
  by rewrite (proj2 (Z.leb_le _ _)) by lia.
Qed.

(** A counter below 2^24 is a float with a mantissa of 24 digits. *)
Lemma counter_exact p :
  Zpos p < 2 ^ 24 -> exists m e, binary_normalize 24 128 (Zpos p) 0 false = S754_finite false m e /\
    Zpos (digits2_pos m) = 24 /\ e = Zpos (digits2_pos p) - 24 /\ -23 <= e <= 0 /\ Zpos m = Zpos p * 2 ^ (- e).
Proof.
  intros Hp. assert (Zpos (digits2_pos p) <= 24) as Hd by (apply (Zdigits_bound (Zpos p)); lia).
  cbn [binary_normalize]. unfold binary_round, shl_align. rewrite Z.add_0_r, Z.sub_0_r.
  replace (fexp 24 128 (Zpos (digits2_pos p))) with (Zpos (digits2_pos p) - 24) by (unfold fexp, emin; lia).
  destruct (Zpos (digits2_pos p) - 24) as [|d|d] eqn:E; [|lia|].
  - exists p, 0. split; [by apply round_aux_exact; lia|]. rewrite Z.mul_1_r. lia.
  - destruct (shift_left p d) as [Hv Hg]. exists (Pos.iter xO p d), (Zneg d).
    rewrite round_aux_exact by (rewrite ?Hg; lia). rewrite Hg, Hv. split_and!; (done || lia).
Qed.

Lemma digits_mono p q : (p <= q)%positive -> Zpos (digits2_pos p) <= Zpos (digits2_pos q).
Proof.
  intros Hpq. apply (Zdigits_bound (Zpos p)); [lia..|]. pose proof (digits_bounds q). lia.
Qed.

(** The quotient of two counters, the first not larger. *)
Lemma counter_ratio_le_one a b :
  0 <= a <= b -> 0 < b < 2 ^ 24 ->
  SFltb one_f (SFdiv 24 128 (binary_normalize 24 128 a 0 false) (binary_normalize 24 128 b 0 false)) = false.
Proof.
  intros Ha Hb. destruct b as [|q|q]; [lia| |lia].
  destruct (counter_exact q) as (my & ey & -> & Hdy & Hey & Hy & Hmy); [lia|].
  destruct a as [|p|p]; [done| |lia].
  destruct (counter_exact p) as (mx & ex & -> & Hdx & Hex & Hx & Hmx); [lia|].
  pose proof (digits_mono p q ltac:(lia)) as Hpq. cbn [SFdiv xorb]. unfold SFdiv_core_binary. cbn [Zdigits2].
  rewrite Hdx, Hdy. set (e := Z.min _ _).
  assert (e = ex - ey - 24) as -> by (subst e; unfold fexp, emin; lia).
  replace (ex - ey - (ex - ey - 24)) with 24 by lia. cbn iota. rewrite Z.shiftl_mul_pow2 by lia.
  pose proof (Z_div_mod (Zpos mx * 2 ^ 24) (Zpos my) ltac:(lia)) as Hdm.
  destruct (Z.div_eucl (Zpos mx * 2 ^ 24) (Zpos my)) as [k r]. destruct Hdm as [Hdm Hr].
  pose proof (digits_bounds mx) as [_ Hux]. rewrite Hdx in Hux. pose proof (digits_bounds my) as [Hly _]. rewrite Hdy in Hly.
  apply round_le_one; [nia|lia|].
  destruct (Z.eq_dec ex ey) as [Heq|Hne].
  - assert (Zpos mx <= Zpos my) as Hm by (rewrite Hmx, Hmy, Heq; apply Z.mul_le_mono_nonneg_r; [apply Z.pow_nonneg; lia|lia]).
    replace (- (ex - ey - 24)) with 24 by lia. destruct (Z.eq_dec k (2 ^ 24)) as [->|]; [right|left; nia].
    split; [done|]. assert (r = 0) as -> by nia. unfold new_location, new_location_even, new_location_odd. by destruct (Z.even _).
  - left. apply Z.lt_le_trans with (2 ^ 25); [nia|]. apply Z.pow_le_mono_r; lia.
Qed.
