(* ===== verification/BlockGc.v ===== *)
(** * BlockGc: collecting the blocks of files that are not listed

    Models src/src/BlockCache/block_gc.c: an actor gets a text of URLs, one per
    line, walks the descriptor chain of each (Representation), adds the hashes
    it finds to an elastic Bloom filter, and has the block cache delete every
    block that is not in the filter; then it may have the sections
    defragmented.  [size_t] values computed from the text are kept to 64 bits. *)

From S2P Require Import Prelude Float FloatRatio Base58 OffUrl Buffer Block Bitset Bloom ElasticBloom Effect Tuple OffWrite DescWrite DescRead Descriptor OffRead OffFile Representation.
Local Open Scope Z_scope.
Local Open Scope effect_scope.

(** ** Lines *)

Definition NEWLINE : Z := 10.
Definition RETURN_CHAR : Z := 13.
Definition is_blank (c : Z) : bool := (c =? 32) || (c =? 9).

Fixpoint drop_blanks (s : bytes) : bytes :=
  match s with
  | c :: t => if is_blank c then drop_blanks t else s
  | [] => []
  end.

(** A trailing carriage return, then blanks at either end. *)
Definition block_gc_trim_line (line : bytes) : bytes :=
  let line := match last line with
              | Some c => if c =? RETURN_CHAR then take (length line - 1) line else line
              | None => line
              end in
  reverse (drop_blanks (reverse (drop_blanks line))).

(** The characters up to the newline, and what follows it. *)
Fixpoint scan_line (text : bytes) : bytes * bytes :=
  match text with
  | [] => ([], [])
  | c :: t => if c =? NEWLINE then ([], t) else let '(line, rest) := scan_line t in (c :: line, rest)
  end.

Fixpoint count_lines (fuel : nat) (text : bytes) : nat :=
  match fuel, text with
  | S fuel, _ :: _ =>
      let '(line, rest) := scan_line text in
      if (length (block_gc_trim_line line) =? 0)%nat then count_lines fuel rest else S (count_lines fuel rest)
  | _, _ => O
  end.

Definition block_gc_count_lines (text : bytes) : nat := count_lines (length text) text.

Fixpoint fill_lines (fuel : nat) (text : bytes) (room : nat) : list bytes :=
  match fuel, room, text with
  | S fuel, S room', _ :: _ =>
      let '(line, rest) := scan_line text in
      let line := block_gc_trim_line line in
      if (length line =? 0)%nat then fill_lines fuel rest room else line :: fill_lines fuel rest room'
  | _, _, _ => []
  end.

Definition block_gc_fill_lines (text : bytes) (line_count : nat) : list bytes := fill_lines (length text) text line_count.

(** ** Sizing the filter *)

(** The descriptor hash of a line, if it is a URL. *)
Definition line_hash (line : bytes) : option bytes := url ← off_url_parse line; descriptor_hash url.

Definition line_blocks (block_size entries : Z) (line : bytes) : Z :=
  match off_url_parse line with
  | None => 0
  | Some url =>
      match descriptor_hash url with
      | None => 0
      | Some _ =>
          let data_blocks := u64 (stream_length url + block_size - 1) / block_size in
          let descriptor_blocks := u64 (data_blocks + entries - 1) / entries in
          u64 (data_blocks + (if descriptor_blocks =? 0 then 1 else descriptor_blocks))
      end
  end.

Definition block_gc_expected_blocks (type : block_size_e) (lines : list bytes) : Z :=
  let block_size := Z.of_nat (representation_block_size_for_type type) in
  let pad := Z.of_nat REPRESENTATION_DESCRIPTOR_PAD in
  if block_size <=? pad then 0
  else
    let entries := block_size / pad - 1 in
    let entries := if entries =? 0 then 1 else entries in
    fold_left (fun expected line => u64 (expected + line_blocks block_size entries line)) lines 0.

(** ** The actor *)

Definition GC_LINE_MALFORMED_URL : Z := 1.
Definition GC_LINE_MISSING_DESCRIPTOR : Z := 2.
Definition GC_LINE_MALFORMED_DESCRIPTOR : Z := 3.
Definition GC_LINE_CYCLE : Z := 4.

Definition BLOCK_GC_EXPECTED_PER_URL : Z := 16.
Definition BLOCK_GC_EBF_HASH_COUNT : Z := 4.

Inductive block_gc_phase := BLOCK_GC_PHASE_COLLECT | BLOCK_GC_PHASE_SWEEP | BLOCK_GC_PHASE_DEFRAG.

#[export] Instance block_gc_phase_eq_dec : EqDecision block_gc_phase.
Proof. solve_decision. Defined.

(** A failed line: its number from one on, the reason and its text. *)
Record gc_failure := mk_failure { gf_line : Z; gf_reason : Z; gf_text : bytes }.

Record sweep_counts := mk_counts { sc_deleted : nat; sc_kept : nat; sc_pinned : nat; sc_claimed : nat }.
Record defrag_counts := mk_defrag { dc_applied : bool; dc_result : Z; dc_sections : nat; dc_relocated : nat }.

Record block_gc_result_t := mk_gc_report {
  gr_status : Z;
  gr_urls_request : nat;
  gr_urls_collected : nat;
  gr_sweep : sweep_counts;
  gr_failed : list gc_failure;
  gr_defrag : defrag_counts
}.

Record block_gc_t := mk_gc {
  gc_type : block_size_e;
  gc_lines : list bytes;
  gc_next_line : nat;
  gc_force : bool;
  gc_defrag : bool;
  gc_phase : block_gc_phase;
  gc_collecting : bool;
  gc_current_line : nat;
  gc_keep : option elastic_bloom_filter_t;
  gc_failed : list gc_failure;
  gc_urls_collected : nat;
  gc_status : Z;
  gc_sweep : sweep_counts;
  gc_defrag_counts : defrag_counts;
  gc_reply_to : bool;
  gc_reported : bool
}.

#[export] Instance gc_settable : Settable block_gc_t := fields! mk_gc
  [gc_type; gc_lines; gc_next_line; gc_force; gc_defrag; gc_phase; gc_collecting; gc_current_line; gc_keep; gc_failed;
   gc_urls_collected; gc_status; gc_sweep; gc_defrag_counts; gc_reply_to; gc_reported].

Inductive gc_effect :=
| Gc_walk (descriptor_hash : bytes)
| Gc_sweep_request (keep : elastic_bloom_filter_t) (force : bool)
| Gc_defragment
| Gc_report (result : block_gc_result_t).

Inductive gc_message :=
| BLOCK_GC_START
| REPRESENTATION_COLLECT_RESULT (payload : option (Z * list bytes))
| CACHE_GC_RESULT (payload : option sweep_counts)
| CACHE_DEFRAGMENT_RESULT (payload : option (Z * nat * nat)).

Section Gc.
Context `{Xxh3}.

Implicit Types s : block_gc_t.

Definition block_gc_push_failure (line_index : nat) (reason : Z) s : block_gc_t :=
  s <| gc_failed := gc_failed s ++
         [mk_failure (Z.of_nat line_index + 1) reason (nth line_index (gc_lines s) [])] |>.

Definition merge_hash (keep : option elastic_bloom_filter_t) (hash : bytes) : option elastic_bloom_filter_t :=
  match keep with
  | None => None
  | Some filter => Some (if elastic_bloom_filter_contains filter hash then filter else (elastic_bloom_filter_add filter hash).1)
  end.

Definition block_gc_merge_collect_result (hashes : list bytes) s : block_gc_t :=
  s <| gc_keep := fold_left merge_hash hashes (gc_keep s) |>.

Definition block_gc_report s : block_gc_t * list gc_effect :=
  if gc_reported s then done s
  else
    let s1 := s <| gc_reported := true |> in
    if gc_reply_to s then
      (s1 <| gc_failed := [] |>,
       [Gc_report (mk_gc_report (gc_status s) (length (gc_lines s)) (gc_urls_collected s) (gc_sweep s) (gc_failed s)
          (gc_defrag_counts s))])
    else done s1.

(** The loop over the lines up to the first one whose walk is started. *)
Fixpoint next_walk (fuel : nat) s : block_gc_t * list gc_effect :=
  match fuel with
  | O => done s
  | S fuel =>
      if negb (gc_collecting s) && (gc_next_line s <? length (gc_lines s))%nat then
        let line_index := gc_next_line s in
        let s := s <| gc_next_line := S (gc_next_line s) |> in
        match line_hash (nth line_index (gc_lines s) []) with
        | None => next_walk fuel (block_gc_push_failure line_index GC_LINE_MALFORMED_URL s)
        | Some h => (s <| gc_collecting := true |> <| gc_current_line := line_index |>, [Gc_walk h])
        end
      else done s
  end.

(** What follows the loop when every line has been attempted. *)
Definition finish_collect s : block_gc_t * list gc_effect :=
  if (length (gc_lines s) <=? gc_next_line s)%nat then
    match gc_keep s with
    | None => block_gc_report (s <| gc_status := 1 |>)
    | Some keep =>
        if (gc_urls_collected s =? 0)%nat && (length (gc_failed s) =? length (gc_lines s))%nat
        then block_gc_report (s <| gc_status := 1 |>)
        else (s <| gc_phase := BLOCK_GC_PHASE_SWEEP |> <| gc_keep := None |>, [Gc_sweep_request keep (gc_force s)])
    end
  else done s.

(** The loop returns from the function when it has started a walk. *)
Definition block_gc_collect_step s : block_gc_t * list gc_effect :=
  match gc_phase s with
  | BLOCK_GC_PHASE_COLLECT =>
      let '(s, effs) := next_walk (S (length (gc_lines s))) s in
      match effs with
      | [] => finish_collect s
      | _ => (s, effs)
      end
  | _ => done s
  end.

Definition on_collect_result (walk_result : Z) (hashes : list bytes) s : block_gc_t :=
  let s := block_gc_merge_collect_result hashes s in
  let line_index := gc_current_line s in
  if (walk_result =? 0) || (walk_result =? -3) then
    let s := s <| gc_urls_collected := S (gc_urls_collected s) |> in
    if walk_result =? -3 then block_gc_push_failure line_index GC_LINE_CYCLE s else s
  else if walk_result =? -1 then block_gc_push_failure line_index GC_LINE_MISSING_DESCRIPTOR s
  else block_gc_push_failure line_index GC_LINE_MALFORMED_DESCRIPTOR s.

Definition block_gc_dispatch s (msg : gc_message) : block_gc_t * list gc_effect :=
  match msg with
  | BLOCK_GC_START => block_gc_collect_step s
  | REPRESENTATION_COLLECT_RESULT payload =>
      let s := s <| gc_collecting := false |> in
      block_gc_collect_step (match payload with Some (r, hashes) => on_collect_result r hashes s | None => s end)
  | CACHE_GC_RESULT None => block_gc_report (s <| gc_status := 1 |>)
  | CACHE_GC_RESULT (Some counts) =>
      let s := s <| gc_sweep := counts |> in
      if gc_defrag s then
        (s <| gc_defrag_counts := mk_defrag true (dc_result (gc_defrag_counts s)) (dc_sections (gc_defrag_counts s))
                (dc_relocated (gc_defrag_counts s)) |> <| gc_phase := BLOCK_GC_PHASE_DEFRAG |>, [Gc_defragment])
      else block_gc_report s
  | CACHE_DEFRAGMENT_RESULT payload =>
      let '(r, sections, relocated) := default (-1, O, O) payload in
      block_gc_report (s <| gc_defrag_counts := mk_defrag (dc_applied (gc_defrag_counts s)) r sections relocated |>)
  end.

(** The filter of a new actor. *)
Definition keep_filter_size (type : block_size_e) (lines : list bytes) : Z :=
  let expected := block_gc_expected_blocks type lines in
  let expected := if expected =? 0 then u64 (Z.of_nat (length lines) * BLOCK_GC_EXPECTED_PER_URL) else expected in
  Z.max 1024 (u64 (expected * 16)).

Definition block_gc_create (type : block_size_e) (text : bytes) (force defrag reply_to : bool) : block_gc_t :=
  let line_count := block_gc_count_lines text in
  let lines := block_gc_fill_lines text line_count in
  let keep :=
    if (0 <? line_count)%nat
    then Some (elastic_bloom_filter_create (Z.to_nat (keep_filter_size type lines)) BLOCK_GC_EBF_HASH_COUNT one_f EBF_DEFAULT_FP_BITS)
    else None in
  mk_gc type lines 0 force defrag BLOCK_GC_PHASE_COLLECT false 0 keep [] 0 0 (mk_counts 0 0 0 0) (mk_defrag false 0 0 0)
    reply_to false.
End Gc.

(** ** Lines *)

Lemma scan_line_length text : (length (scan_line text).2 <= length text)%nat /\
  (text <> [] -> length (scan_line text).2 < length text)%nat.
Proof.
  induction text as [|c t [IH _]]; [done|]. cbn [scan_line]. destruct (c =? NEWLINE); [cbn; lia|].
  destruct (scan_line t) as [line rest]. cbn in *. lia.
Qed.

(** Every line that is counted is filled in. *)
Lemma fill_lines_count f1 f2 text :
  (length text <= f1)%nat -> (length text <= f2)%nat -> length (fill_lines f1 text (count_lines f2 text)) = count_lines f2 text.
Proof.
  revert f2 text. induction f1 as [|f1 IH]; intros f2 text H1 H2.
  { destruct text; [|cbn in H1; lia]. by destruct f2. }
  destruct text as [|c t]; [by destruct f2|]. destruct f2 as [|f2]; [cbn in H2; lia|].
  pose proof (proj2 (scan_line_length (c :: t)) ltac:(done)) as Hl. cbn [count_lines].
  destruct (scan_line (c :: t)) as [line rest] eqn:E. cbn [snd] in Hl. cbn [length] in *.
  destruct (Nat.eqb_spec (length (block_gc_trim_line line)) 0) as [Hz|Hz].
  - pose proof (IH f2 rest ltac:(lia) ltac:(lia)) as IH'. destruct (count_lines f2 rest) as [|n] eqn:En; [done|].
    cbn [fill_lines]. rewrite E, (proj2 (Nat.eqb_eq _ _) Hz). exact IH'.
  - cbn [fill_lines]. rewrite E, (proj2 (Nat.eqb_neq _ _) Hz). cbn [length]. f_equal. apply IH; lia.
Qed.

(** ** The filter keeps what is merged into it *)

Section Keep.
Context `{Xxh3}.

(** A filter with load factor 1.0f of a size whose counts are exact floats. *)
Definition steady_filter (n : nat) (f : elastic_bloom_filter_t) : Prop :=
  ebf_wf f /\ ebf_omega f = one_f /\ ebf_bucket_count f = n.

Lemma occupied_le f : (occupied_buckets f <= ebf_bucket_count f)%nat.
Proof.
  unfold occupied_buckets. etrans; [apply List.filter_length_le|]. by rewrite length_seq.
Qed.

Lemma steady_no_growth f : Z.of_nat (ebf_bucket_count f) < 2 ^ 24 -> SFltb one_f (elastic_bloom_filter_ratio f) = false.
Proof.
  intros Hn. unfold elastic_bloom_filter_ratio. destruct (Nat.eqb_spec (ebf_bucket_count f) 0) as [|Hz]; [done|].
  apply counter_ratio_le_one; pose proof (occupied_le f); lia.
Qed.

Lemma steady_add n f h :
  Z.of_nat n < 2 ^ 24 -> steady_filter n f ->
  steady_filter n (elastic_bloom_filter_add f h).1 /\
  (forall x, x = h \/ elastic_bloom_filter_contains f x = true ->
     elastic_bloom_filter_contains (elastic_bloom_filter_add f h).1 x = true).
Proof.
  intros Hn (Hwf & Ho & Hc). pose proof (insert_hashes_spec f h Hwf) as Hs.
  unfold elastic_bloom_filter_add. pose proof (fun x => insert_hashes_contains f h x Hwf) as Hin.
  destruct (insert_hashes f h) as [f1 was_new]. cbn [fst] in Hin. destruct Hs as (Hwf1 & (bk & bt & ->) & _).
  destruct was_new; [|done].
  match goal with |- context [SFltb (ebf_omega ?g) (elastic_bloom_filter_ratio ?g)] =>
    change (ebf_omega g) with (ebf_omega f); rewrite Ho, (steady_no_growth g) by (change (ebf_bucket_count g) with (ebf_bucket_count f); lia) end.
  cbn [fst]. split; [|exact Hin]. split_and!; [by apply wf_with_count|done|done].
Qed.

Lemma merge_hashes n f hs :
  Z.of_nat n < 2 ^ 24 -> steady_filter n f ->
  exists f', fold_left merge_hash hs (Some f) = Some f' /\ steady_filter n f' /\
    forall x, x ∈ hs \/ elastic_bloom_filter_contains f x = true -> elastic_bloom_filter_contains f' x = true.
Proof.
  intros Hn. revert f. induction hs as [|h hs IH]; intros f Hf.
  { exists f. split_and!; [done|done|]. intros x [Hx|Hx]; [by apply elem_of_nil in Hx|done]. }
  cbn [fold_left merge_hash]. destruct (elastic_bloom_filter_contains f h) eqn:E.
  - destruct (IH f Hf) as (f' & E' & Hf' & Hin). exists f'. split_and!; [done|done|].
    intros x [[->|Hx]%elem_of_cons|Hx]; apply Hin; auto.
  - destruct (steady_add n f h Hn Hf) as [Hs1 Hin1]. destruct (IH _ Hs1) as (f' & E' & Hf' & Hin). exists f'.
    split_and!; [done|done|]. intros x [[->|Hx]%elem_of_cons|Hx]; apply Hin; auto.
Qed.
End Keep.

(** ** The run of a collection *)

Section Run.
Context `{Xxh3}.
Variables (type : block_size_e) (registry : bool) (text : bytes) (force defrag : bool) (lookup : bytes -> option block_t).

Let lines := block_gc_fill_lines text (block_gc_count_lines text).
Abbreviation start := (block_gc_create type text force defrag true).

(** The states of a collection, the request it waits for, and all effects.  The
    walks find the blocks of [lookup]; the sweep and the defragmentation may
    count anything. *)
Inductive gc_reach : block_gc_t -> option gc_effect -> list gc_effect -> Prop :=
| gc_started s e : block_gc_dispatch start BLOCK_GC_START = (s, e) -> gc_reach s (last e) e
| gc_walked s h effs fuel r t hs s' e :
    gc_reach s (Some (Gc_walk h)) effs ->
    Rep_collect_result r t hs ∈ (rep_walk fuel type registry REPRESENTATION_OP_COLLECT lookup h).2 ->
    block_gc_dispatch s (REPRESENTATION_COLLECT_RESULT (Some (r, hs))) = (s', e) -> gc_reach s' (last e) (effs ++ e)
| gc_swept s keep f effs counts s' e :
    gc_reach s (Some (Gc_sweep_request keep f)) effs ->
    block_gc_dispatch s (CACHE_GC_RESULT counts) = (s', e) -> gc_reach s' (last e) (effs ++ e)
| gc_defragmented s effs counts s' e :
    gc_reach s (Some Gc_defragment) effs ->
    block_gc_dispatch s (CACHE_DEFRAGMENT_RESULT counts) = (s', e) -> gc_reach s' (last e) (effs ++ e).

(** Line [i] is kept by filter [keep]: its walk succeeded and the filter holds
    what it collected. *)
Definition line_kept (keep : elastic_bloom_filter_t) (i : nat) : Prop :=
  exists h fuel t hs, line_hash (nth i lines []) = Some h /\
    Rep_collect_result 0 t hs ∈ (rep_walk fuel type registry REPRESENTATION_OP_COLLECT lookup h).2 /\
    forall x, x ∈ hs -> elastic_bloom_filter_contains keep x = true.

Definition line_failed (failed : list gc_failure) (i : nat) : Prop := Z.of_nat i + 1 ∈ (gf_line <$> failed).

Definition settled (keep : elastic_bloom_filter_t) (failed : list gc_failure) (i : nat) : Prop :=
  line_failed failed i \/ line_kept keep i.

Lemma settled_mono keep keep' failed failed' i :
  (forall x, elastic_bloom_filter_contains keep x = true -> elastic_bloom_filter_contains keep' x = true) ->
  (gf_line <$> failed) ⊆ (gf_line <$> failed') -> settled keep failed i -> settled keep' failed' i.
Proof.
  intros Hk Hf [Hl|(h & fuel & t & hs & H1 & H2 & H3)]; [left; by apply Hf|right]. exists h, fuel, t, hs. eauto.
Qed.

(** The filter holds the descriptor block of some line. *)
Definition collected_something (keep : elastic_bloom_filter_t) : Prop :=
  exists i h, (i < length lines)%nat /\ line_hash (nth i lines []) = Some h /\ elastic_bloom_filter_contains keep h = true.

(** While lines are collected: [n] lines have been settled. *)
Record collect_inv (s : block_gc_t) (keep : elastic_bloom_filter_t) (size n : nat) : Prop := {
  co_lines : gc_lines s = lines /\ gc_type s = type /\ gc_force s = force;
  co_phase : gc_phase s = BLOCK_GC_PHASE_COLLECT /\ gc_reported s = false /\ gc_reply_to s = true /\ gc_status s = 0;
  co_keep : gc_keep s = Some keep /\ steady_filter size keep;
  co_rows : (length (gc_failed s) <= n)%nat /\ (n <= length lines)%nat /\ (n <= gc_urls_collected s + length (gc_failed s))%nat;
  co_settled : forall i, (i < n)%nat -> settled keep (gc_failed s) i;
  co_collected : (0 < gc_urls_collected s)%nat -> collected_something keep
}.

Hypothesis size_small : keep_filter_size type lines < 2 ^ 24.
Let size := Z.to_nat (keep_filter_size type lines).

Lemma size_exact : Z.of_nat size < 2 ^ 24.
Proof. unfold size, keep_filter_size in *. lia. Qed.

Lemma push_failure_inv s keep n reason :
  collect_inv s keep size n -> (n < length lines)%nat -> collect_inv (block_gc_push_failure n reason s) keep size (S n).
Proof.
  intros [Hl Hp Hk (Hr & Hn & Hu) Hs Hc] Hlt. split; try done.
  - cbn. rewrite length_app. cbn. lia.
  - intros i Hi. cbn. destruct (decide (i = n)) as [->|].
    + left. unfold line_failed. rewrite fmap_app. apply elem_of_app. right. by apply list_elem_of_singleton.
    + apply (settled_mono keep keep (gc_failed s)); [done| |apply Hs; lia]. rewrite fmap_app. intros x Hx. apply elem_of_app. by left.
Qed.

(** What a collection does next when [n] lines are settled. *)
Inductive collect_next (keep : elastic_bloom_filter_t) : block_gc_t * list gc_effect -> Prop :=
| next_walks s n h :
    collect_inv s keep size n -> (n < length lines)%nat -> gc_next_line s = S n -> gc_current_line s = n ->
    line_hash (nth n lines []) = Some h -> collect_next keep (s, [Gc_walk h])
| next_sweeps s s' :
    collect_inv s keep size (length lines) -> s' = s <| gc_phase := BLOCK_GC_PHASE_SWEEP |> <| gc_keep := None |> ->
    collected_something keep -> collect_next keep (s', [Gc_sweep_request keep force])
| next_refuses s s' :
    collect_inv s keep size (length lines) -> gc_urls_collected s = 0%nat -> length (gc_failed s) = length lines ->
    s' = s <| gc_status := 1 |> <| gc_reported := true |> <| gc_failed := [] |> ->
    collect_next keep (s', [Gc_report (mk_gc_report 1 (length lines) 0 (gc_sweep s) (gc_failed s) (gc_defrag_counts s))]).

Lemma next_walk_inv fuel s keep n :
  collect_inv s keep size n -> gc_collecting s = false -> gc_next_line s = n -> (length lines < n + fuel)%nat ->
  let '(s', e) := next_walk fuel s in
  (collect_next keep (s', e) /\ e <> []) \/
  (e = [] /\ collect_inv s' keep size (length lines) /\ gc_next_line s' = length lines /\ gc_urls_collected s' = gc_urls_collected s).
Proof.
  revert s n. induction fuel as [|fuel IH]; intros s n Hi Hc Hn Hf; [destruct Hi as [_ _ _ (_ & ? & _) _ _]; lia|].
  cbn [next_walk]. destruct (co_lines _ _ _ _ Hi) as (Hl & _). rewrite Hc, Hn, Hl. cbn [negb andb].
  destruct (Nat.ltb_spec n (length lines)) as [Hlt|Hge]; cycle 1.
  { right. assert (n = length lines) as <- by (destruct Hi as [_ _ _ (_ & ? & _) _ _]; lia). done. }
  change (gc_lines (s <| gc_next_line := S n |>)) with (gc_lines s). rewrite Hl.
  assert (collect_inv (s <| gc_next_line := S n |>) keep size n) as Hi1 by by destruct Hi.
  destruct (line_hash (nth n lines [])) as [h|] eqn:Eh.
  - left. split; [|done]. apply (next_walks _ _ n); try done. by destruct Hi1.
  - pose proof (push_failure_inv (s <| gc_next_line := S n |>) keep n GC_LINE_MALFORMED_URL Hi1 Hlt) as Hi2.
    set (s2 := block_gc_push_failure n GC_LINE_MALFORMED_URL (s <| gc_next_line := S n |>)) in *.
    assert (gc_next_line s2 = S n) as Hn2 by (cbn; reflexivity).
    exact (IH s2 (S n) Hi2 Hc Hn2 ltac:(lia)).
Qed.

Lemma collect_step_inv s keep n :
  collect_inv s keep size n -> gc_collecting s = false -> gc_next_line s = n -> collect_next keep (block_gc_collect_step s).
Proof.
  intros Hi Hc Hn. unfold block_gc_collect_step. destruct (co_phase _ _ _ _ Hi) as (-> & _).
  destruct (co_lines _ _ _ _ Hi) as (-> & _).
  pose proof (next_walk_inv (S (length lines)) s keep n Hi Hc Hn ltac:(lia)) as Hw.
  destruct (next_walk (S (length lines)) s) as [s1 e]. destruct Hw as [[Hw Hne]|(-> & Hi1 & Hn1 & _)]; [by destruct e|].
  unfold finish_collect. destruct (co_lines _ _ _ _ Hi1) as (Hl1 & _ & Hf1). rewrite Hl1, Hn1, Nat.leb_refl.
  destruct (co_keep _ _ _ _ Hi1) as [-> _]. destruct (co_phase _ _ _ _ Hi1) as (_ & Hr1 & Ht1 & _).
  destruct (Nat.eqb_spec (gc_urls_collected s1) 0) as [Hu|Hu]; [destruct (Nat.eqb_spec (length (gc_failed s1)) (length lines)) as [Hx|Hx]|];
    cbn [andb].
  - unfold block_gc_report. cbn. rewrite Hr1, Ht1, Hl1, Hu. apply (next_refuses _ s1 _ Hi1 Hu Hx). destruct s1. cbn in *. by subst.
  - rewrite Hf1. apply (next_sweeps _ s1); try done. apply (co_collected _ _ _ _ Hi1). destruct (co_rows _ _ _ _ Hi1). lia.
  - rewrite Hf1. apply (next_sweeps _ s1); try done. apply (co_collected _ _ _ _ Hi1). lia.
Qed.

Lemma collected_mono keep keep' :
  (forall x, elastic_bloom_filter_contains keep x = true -> elastic_bloom_filter_contains keep' x = true) ->
  collected_something keep -> collected_something keep'.
Proof. intros Hk (i & h & H1 & H2 & H3). exists i, h. eauto. Qed.

(** The result of a walk is merged and its line settled. *)
Lemma collect_result_inv s keep n h fuel r t hs :
  collect_inv s keep size n -> (n < length lines)%nat -> gc_next_line s = S n -> gc_current_line s = n ->
  line_hash (nth n lines []) = Some h ->
  Rep_collect_result r t hs ∈ (rep_walk fuel type registry REPRESENTATION_OP_COLLECT lookup h).2 ->
  exists keep', collect_inv (on_collect_result r hs (s <| gc_collecting := false |>)) keep' size (S n) /\
    gc_next_line (on_collect_result r hs (s <| gc_collecting := false |>)) = S n /\
    gc_collecting (on_collect_result r hs (s <| gc_collecting := false |>)) = false.
Proof.
  intros [Hl Hp [Hk Hst] (Hr & Hn & Hu) Hs Hc] Hlt Hnext Hcur Hh Hin.
  destruct (merge_hashes size keep hs size_exact Hst) as (keep' & Hm & Hst' & Hkeep).
  set (s1 := block_gc_merge_collect_result hs (s <| gc_collecting := false |>)).
  assert (gc_keep s1 = Some keep') as Hk1 by (cbn; by rewrite Hk).
  assert (forall failed, (gf_line <$> gc_failed s) ⊆ (gf_line <$> failed) ->
    forall i, (i < n)%nat -> settled keep' failed i) as Hset.
  { intros failed Hf i Hi. apply (settled_mono keep keep' (gc_failed s)); auto. }
  assert (collected_something keep -> collected_something keep') as Hcm by (apply collected_mono; auto).
  assert (r = 0 \/ r = -3 -> collected_something keep') as Hnew.
  { intros Hr0. exists n, h. split_and!; [done|done|]. apply Hkeep. left.
    by apply (collect_head type registry lookup fuel _ h r t hs (collecting_start h)). }
  assert (collect_inv s1 keep' size n) as Hi1 by (by split; try done; auto).
  set (s2 := s1 <| gc_urls_collected := S (gc_urls_collected s1) |>).
  assert (r = 0 \/ r = -3 -> collect_inv s2 keep' size n) as Hi2.
  { intros Hr0. split; try done; [change (gc_urls_collected s2) with (S (gc_urls_collected s));
      change (gc_failed s2) with (gc_failed s); lia|apply Hset; done|auto]. }
  exists keep'. unfold on_collect_result. fold s1. change (gc_current_line s1) with (gc_current_line s). rewrite Hcur. fold s2.
  destruct (Z.eqb_spec r 0) as [->|Hr0]; cbn [orb].
  - change (0 =? -3) with false. cbn iota. split; [|by split]. destruct (Hi2 ltac:(by left)) as [A1 A2 A3 (A4 & A5 & A6) A7 A8]. split; try done.
    + change (gc_urls_collected s2) with (S (gc_urls_collected s)). change (gc_failed s2) with (gc_failed s). lia.
    + intros i Hi. destruct (decide (i = n)) as [->|]; [|apply A7; lia]. right. exists h, fuel, t, hs. auto.
  - destruct (Z.eqb_spec r (-3)) as [->|Hr3]; cbn [orb]; [|destruct (r =? -1)]; (split; [|by split]); apply push_failure_inv; auto.
Qed.

Definition no_sweep (effs : list gc_effect) : Prop := forall keep f, Gc_sweep_request keep f ∉ effs.
Definition no_report (effs : list gc_effect) : Prop := forall rep, Gc_report rep ∉ effs.

(** The lines are settled by the filter of the sweep and the failed rows. *)
Definition sweep_ok (keep : elastic_bloom_filter_t) (failed : list gc_failure) (effs : list gc_effect) : Prop :=
  collected_something keep /\ (forall i, (i < length lines)%nat -> settled keep failed i) /\
  forall k f, Gc_sweep_request k f ∈ effs -> k = keep /\ f = force.

Inductive gc_inv : block_gc_t -> option gc_effect -> list gc_effect -> Prop :=
| inv_walking s keep n h effs :
    collect_inv s keep size n -> (n < length lines)%nat -> gc_next_line s = S n -> gc_current_line s = n ->
    line_hash (nth n lines []) = Some h -> no_sweep effs -> no_report effs -> gc_inv s (Some (Gc_walk h)) effs
| inv_refused s rep effs : gr_status rep = 1 -> no_sweep effs -> gc_inv s (Some (Gc_report rep)) effs
| inv_sweeping s keep request effs :
    sweep_ok keep (gc_failed s) effs -> no_report effs -> gc_reported s = false -> gc_reply_to s = true ->
    (forall h, request <> Gc_walk h) -> gc_inv s (Some request) effs
| inv_reported s keep failed rep effs :
    sweep_ok keep failed effs -> (forall rep', Gc_report rep' ∈ effs -> gr_failed rep' = failed) ->
    gc_inv s (Some (Gc_report rep)) effs.

Lemma collect_next_inv keep effs r :
  collect_next keep r -> no_sweep effs -> no_report effs -> gc_inv r.1 (last r.2) (effs ++ r.2).
Proof.
  intros Hn Hs Hr. destruct Hn as [s n h Hi Hlt H1 H2 H3|s s' Hi -> Hc|s s' Hi H1 H2 ->]; cbn [fst snd last].
  - apply (inv_walking _ keep n); try done.
    + intros k f [Hx|Hx%list_elem_of_singleton]%elem_of_app; [by apply (Hs k f)|done].
    + intros rep [Hx|Hx%list_elem_of_singleton]%elem_of_app; [by apply (Hr rep)|done].
  - apply (inv_sweeping _ keep); try apply Hi; try done.
    + split_and!; [done|apply Hi|]. intros k f [Hx|Hx%list_elem_of_singleton]%elem_of_app; [by apply Hs in Hx|]. by simplify_eq.
    + intros rep [Hx|Hx%list_elem_of_singleton]%elem_of_app; [by apply (Hr rep)|done].
  - apply inv_refused; [done|]. intros k f [Hx|Hx%list_elem_of_singleton]%elem_of_app; [by apply (Hs k f)|done].
Qed.

(** The report sends the failed rows. *)
Lemma report_inv s keep effs :
  sweep_ok keep (gc_failed s) effs -> no_report effs -> gc_reported s = false -> gc_reply_to s = true ->
  let '(s', e) := block_gc_report s in gc_inv s' (last e) (effs ++ e).
Proof.
  intros (H1 & H2 & H3) Hr E1 E2. unfold block_gc_report. rewrite E1, E2. cbn [last].
  apply (inv_reported _ keep (gc_failed s)).
  - split_and!; try done. intros k f [Hx|Hx%list_elem_of_singleton]%elem_of_app; [by apply H3|done].
  - intros rep [Hx|Hx%list_elem_of_singleton]%elem_of_app; [by apply Hr in Hx|]. by simplify_eq.
Qed.

Lemma gc_start_inv : let '(s, e) := block_gc_dispatch start BLOCK_GC_START in gc_inv s (last e) e.
Proof.
  cbn [block_gc_dispatch]. destruct (Nat.ltb_spec 0 (block_gc_count_lines text)) as [Hpos|Hz].
  - set (keep := elastic_bloom_filter_create size BLOCK_GC_EBF_HASH_COUNT one_f EBF_DEFAULT_FP_BITS).
    assert (collect_inv start keep size 0) as Hi.
    { split; try done.
      - split; [unfold block_gc_create; by rewrite (proj2 (Nat.ltb_lt _ _) Hpos)|].
        split_and!; [apply create_wf|done|]. unfold keep, elastic_bloom_filter_create. cbn [ebf_bucket_count].
        destruct (Nat.eqb_spec size 0) as [Hs|]; [|done]. unfold size, keep_filter_size in Hs. lia.
      - cbn. lia.
      - intros i Hi. lia.
      - cbn. lia. }
    pose proof (collect_next_inv keep [] _ (collect_step_inv _ _ _ Hi eq_refl eq_refl)) as H0.
    destruct (block_gc_collect_step start) as [s e]. apply H0; intros ? *; apply not_elem_of_nil.
  - assert (lines = []) as Hl.
    { apply nil_length_inv. unfold lines, block_gc_fill_lines, block_gc_count_lines in *. rewrite fill_lines_count by lia. lia. }
    unfold block_gc_collect_step, block_gc_create. rewrite (proj2 (Nat.ltb_ge _ _) Hz). fold lines. rewrite Hl. cbn.
    apply inv_refused; [done|]. intros k f ?%list_elem_of_singleton. done.
Qed.

Ltac by_report E Hs Hr E1 E2 :=
  match type of E with block_gc_report ?s1 = _ =>
    let H0 := fresh in pose proof (report_inv s1 _ _ Hs Hr E1 E2) as H0; by rewrite E in H0 end.

Lemma gc_reach_inv s p effs : gc_reach s p effs -> gc_inv s p effs.
Proof.
  induction 1 as [s e E|s h effs fuel r t hs s' e _ IH Hw E|s keep f effs counts s' e _ IH E|s effs counts s' e _ IH E].
  - pose proof gc_start_inv as Hs. by rewrite E in Hs.
  - inversion IH as [? keep n ? ? Hi Hlt Hn Hc Hh Hs Hr| |? ? ? ? _ _ _ _ Hne|]; subst; [|by destruct (Hne h)].
    destruct (collect_result_inv s keep _ h fuel r t hs Hi Hlt Hn eq_refl Hh Hw) as (keep' & Hi' & Hn' & Hc').
    pose proof (collect_next_inv keep' effs _ (collect_step_inv _ _ _ Hi' Hc' Hn') Hs Hr) as H0.
    cbn [block_gc_dispatch] in E. by rewrite E in H0.
  - inversion IH as [| |? k ? ? Hs Hr E1 E2 _|]; subst. destruct counts as [counts|]; cbn [block_gc_dispatch] in E.
    + destruct (gc_defrag (s <| gc_sweep := counts |>)); [|].
      * injection E as <- <-. cbn [last]. apply (inv_sweeping _ k); try done.
        -- destruct Hs as (H1 & H2 & H3). split_and!; try done.
           intros k' f' [Hx|Hx%list_elem_of_singleton]%elem_of_app; [by apply H3|done].
        -- intros rep [Hx|Hx%list_elem_of_singleton]%elem_of_app; [by apply (Hr rep)|done].
      * by_report E Hs Hr E1 E2.
    + by_report E Hs Hr E1 E2.
  - inversion IH as [| |? k ? ? Hs Hr E1 E2 _|]; subst. cbn [block_gc_dispatch] in E.
    destruct (default (-1, 0%nat, 0%nat) counts) as [[r sections] relocated].
    by_report E Hs Hr E1 E2.
Qed.

(** The collection is safe: a sweep is asked for with a filter that holds the
    descriptor block of at least one line, and for every line the report lists
    it as failed or the filter holds every hash its walk collected. *)
Lemma sweep_covers s p effs keep f :
  gc_reach s p effs -> Gc_sweep_request keep f ∈ effs ->
  f = force /\ collected_something keep /\
  exists failed, (forall i, (i < length lines)%nat -> line_failed failed i \/ line_kept keep i) /\
    (forall rep, Gc_report rep ∈ effs -> gr_failed rep = failed).
Proof.
  intros Hr Hin. destruct (gc_reach_inv s p effs Hr) as [s0 k n h effs0 _ _ _ _ _ Hs _|s0 rep effs0 _ Hs|
    s0 k request effs0 (Hc & Hset & Hk) Hrep _ _ _|s0 k failed rep effs0 (Hc & Hset & Hk) Hrep].
  - by apply Hs in Hin.
  - by apply Hs in Hin.
  - destruct (Hk keep f Hin) as [-> ->]. split_and!; [done|done|]. exists (gc_failed s0). split; [done|]. intros rep Hx. by apply Hrep in Hx.
  - destruct (Hk keep f Hin) as [-> ->]. split_and!; [done|done|]. by exists failed.
Qed.

(** A collection always waits for an answer or has reported. *)
Lemma gc_never_stuck s p effs : gc_reach s p effs -> is_Some p.
Proof. intros Hr. destruct (gc_reach_inv s p effs Hr); by eexists. Qed.
End Run.
