(* ===== verification/GcSystem.v ===== *)
(** * GcSystem: a garbage collection keeps the files on its list

    Composes the collection (BlockGc), the walk of descriptor chains
    (Representation), the files of the streams (OffFile) and the block cache
    (BlockCache).  The walks of the collection and its sweep see the same
    blocks: no other client changes the cache in between. *)

From Stdlib Require Import SpecFloat.
From stdpp Require Import gmap strings.
From S2P Require Import Prelude Cbor CborCodec FloatRatio Buffer Block Bloom ElasticBloom DList Lru Effect Tuple OffWrite DescWrite DescRead Descriptor OffRead OffFile Base58 OffUrl Representation.
From S2P Require Import Platform FreeMap Section Sections SectionsStore Wal Fibonacci IndexEntry Index IndexMap IndexStore.
From S2P Require Import BlockCache BlockCacheStore BlockCacheActor BlockCacheSpec BlockCacheSystem BlockCacheProps BlockGc.
Local Open Scope Z_scope.

(** ** A file whose collected blocks are kept *)

Lemma decoded_ext c c' t : (forall x, x ∈ tuple_hashes t -> c x = c' x) -> decoded c t = decoded c' t.
Proof.
  intros Hx. unfold decoded. replace (map c (tuple_hashes t)) with (map c' (tuple_hashes t)); [done|].
  apply map_ext_in. intros x Hin. symmetry. apply Hx. by apply list_elem_of_In.
Qed.

Lemma content_of_ext lookup lookup' type x : lookup x = lookup' x -> content_of lookup type x = content_of lookup' type x.
Proof. unfold content_of. by intros ->. Qed.

Lemma stored_file_kept type registry ts lookup lookup' w h Ts fuel t hs :
  stored_file type ts lookup w h Ts ->
  lookup (replicate 32 0) = None -> lookup' (replicate 32 0) = None ->
  Rep_collect_result 0 t hs ∈ (rep_walk fuel type registry REPRESENTATION_OP_COLLECT lookup h).2 ->
  (forall x, x ∈ hs -> lookup' x = lookup x) -> stored_file type ts lookup' w h Ts.
Proof.
  intros (HT & Hcnt & Hch & Hsz & pad & Hcon) Hz Hz' Hw Hsame.
  pose proof (tuple_keys ts Ts HT) as HK.
  pose proof (collect_chain type registry Ts lookup HK Hz h 0 Hch fuel _ (collecting_start h)) as Hcol.
  unfold rep_walk in Hw. destruct (rep_drive fuel type registry lookup _ h) as [s e].
  destruct (Hcol t hs Hw) as (_ & _ & Hkeys & Hchain).
  assert (map (decoded (content_of lookup' type)) (map (tuple_of ts) Ts) = map (decoded (content_of lookup type)) (map (tuple_of ts) Ts)) as Hdec.
  { rewrite !map_map. apply map_ext_in. intros T HinT. apply decoded_ext. intros x Hx. rewrite tuple_hashes_of in Hx.
    apply content_of_ext. assert (x ∈ concat Ts) as HxK.
    { apply list_elem_of_In, in_concat. exists T. split; [done|]. by apply list_elem_of_In. }
    destruct (_rep_is_zero_hash x) eqn:Ez; [|by apply Hsame, Hkeys].
    apply zero_hash_key in Ez; [by rewrite Ez, Hz, Hz'|]. by eapply Forall_forall in HK. }
  split_and!; [done|done|by apply Hchain|by rewrite Hdec|]. exists pad. by rewrite Hdec.
Qed.

Section System.
Context {C : Cbor} {CS : CborSerial} {X : Xxh32} {X64 : Xxh64} {X3 : Xxh3} {B3 : Blake3}.

(** The block the cache has for a hash. *)
Definition cache_lookup (st : block_cache_t) (h : bytes) : option block_t :=
  c ← view st h; Some (mk_block (exact_buffer (c_data c)) (exact_buffer h)).

Lemma sweep_keeps keep force st st' h :
  (forall x, view st' x = gc_view (Some keep) force (view st) x) ->
  elastic_bloom_filter_contains keep h = true -> cache_lookup st' h = cache_lookup st h.
Proof.
  intros Hv Hk. unfold cache_lookup. rewrite Hv. unfold gc_view, gc_dooms, gc_kept. rewrite Hk. cbn. by destruct (view st h).
Qed.

(** The cache carries out a sweep. *)
Lemma sweep_runs env st keep force rt :
  cache_inv st -> admissible env st (CACHE_GC (Some keep) force rt) ->
  exists p st' evs, block_cache_dispatch (CACHE_GC (Some keep) force rt) env st = Some (p, st', evs) /\ cache_inv st' /\
    forall x, view st' x = gc_view (Some keep) force (view st) x.
Proof.
  intros Hc Ha. destruct (proj1 (wp_run _ _ _ _) (dispatch_implements env st _ Hc Ha)) as (p & st' & evs & E & Hc' & S & _).
  exists p, st', evs. split_and!; [done|done|]. destruct S as [_ [Hv _]]. intros x. apply Hv.
Qed.

(** C7: the files of the lines that did not fail are got back from the cache after
    the sweep. *)
Theorem gc_keeps_listed_files (env : bc_env) (st : block_cache_t) (registry : bool) (text : bytes) (force defrag : bool)
    (s : BlockGc.block_gc_t) p effs keep f rt :
  let type := bc_type st in
  let lines := block_gc_fill_lines text (block_gc_count_lines text) in
  keep_filter_size type lines < 2 ^ 24 -> view st (replicate 32 0) = None -> cache_inv st ->
  gc_reach type registry text force defrag (cache_lookup st) s p effs -> Gc_sweep_request keep f ∈ effs ->
  admissible env st (CACHE_GC (Some keep) f rt) ->
  exists pl st' evs failed,
    block_cache_dispatch (CACHE_GC (Some keep) f rt) env st = Some (pl, st', evs) /\ cache_inv st' /\
    (forall rep, Gc_report rep ∈ effs -> gr_failed rep = failed) /\
    forall i h, (i < length lines)%nat -> line_hash (nth i lines []) = Some h -> ~ line_failed failed i ->
    forall ts w Ts file_offset, stored_file type ts (cache_lookup st) w h Ts ->
    (2 <= ts)%nat /\ Z.of_nat ts < 2 ^ 56 -> 0 <= file_offset < Z.of_nat (length w) -> Z.of_nat (length w) < 2 ^ 63 ->
    let ori := read_ori type ts h file_offset (Z.of_nat (length w)) in
    exists m, forall fuel, (m <= fuel)%nat -> forall tc network s' R effs',
      get_reach tc network (content_of (cache_lookup st') type) ori false s' R
        (tuples_read (read_descriptor fuel (cache_lookup st') ori).2) effs' ->
      ro_is_deactivated s' = false -> R = [] ->
      OffRead.data_of effs' = drop (Z.to_nat file_offset) w /\ Complete_out ∈ effs'.
Proof.
  intros type lines Hsize Hzero Hc Hreach Hin Ha.
  destruct (sweep_covers type registry text force defrag (cache_lookup st) Hsize s p effs keep f Hreach Hin)
    as (_ & _ & failed & Hset & Hrep).
  destruct (sweep_runs env st keep f rt Hc Ha) as (pl & st' & evs & E & Hc' & Hv).
  exists pl, st', evs, failed. split_and!; [done|done|done|].
  intros i h Hi Hh Hnf ts w Ts off Hst Hts Ho Hw.
  destruct (Hset i Hi) as [?|(h' & fuel & t & hs & Hh' & Hwalk & Hkeep)]; [done|].
  change (line_hash (nth i lines []) = Some h') in Hh'. rewrite Hh in Hh'. injection Hh' as <-.
  apply (stored_file_reads type ts (cache_lookup st') w h Ts); try done.
  apply (stored_file_kept type registry ts (cache_lookup st) _ w h Ts fuel t hs); try done.
  - unfold cache_lookup. by rewrite Hzero.
  - unfold cache_lookup. rewrite Hv. unfold gc_view. by rewrite Hzero.
  - intros x Hx. apply (sweep_keeps keep f); auto.
Qed.
End System.

(** ** A collection that keeps one file *)

#[local] Existing Instances item_cbor item_serial toy_xxh32 toy_xxh64 toy_xxh3 poly_blake3.

(** A descriptor block with one hash. *)
Definition listed_block : block_t := block_create_random_block_by_type (replicate 32 1 ++ replicate 104 0).
Definition listed_hash : bytes := buf_data (blk_hash listed_block).
Definition listed_node : node := after sample_node (CACHE_PUT listed_block None 0 false 0).
Definition listed_cache : block_cache_t := n_cache listed_node.

Definition keep_text : bytes :=
  match off_url_to_string (mk_off_url (lit "http://h") (lit "t") 100 0 (Some listed_hash) (Some listed_hash) (Some (lit "n"))) with
  | RETURN s => s
  | _ => []
  end.

Lemma listed_node_inv : node_inv listed_node.
Proof.
  apply after_inv; [apply sample_node_inv|]. split; [|done]. split; [apply all_ok_meta|]. split; [cbn; unfold is_u64; lia|].
  split; [by split|]. split; [unfold is_u32; lia|]. apply sample_ids.
Qed.

Definition listed_start := block_gc_dispatch (block_gc_create nano keep_text false false true) BLOCK_GC_START.
Definition listed_walk := rep_walk 3 nano false REPRESENTATION_OP_COLLECT (cache_lookup listed_cache) listed_hash.
Definition listed_hashes : list bytes := [replicate 32 1; listed_hash].
Definition listed_merged := block_gc_dispatch listed_start.1 (REPRESENTATION_COLLECT_RESULT (Some (0, listed_hashes))).

Definition requested_filter (effs : list gc_effect) : elastic_bloom_filter_t :=
  match effs with [Gc_sweep_request keep _] => keep | _ => elastic_bloom_filter_create 1 1 one_f 1 end.

Definition listed_keep : elastic_bloom_filter_t := requested_filter listed_merged.2.

Lemma listed_reach :
  gc_reach nano false keep_text false false (cache_lookup listed_cache) listed_merged.1 (last listed_merged.2)
    (listed_start.2 ++ listed_merged.2).
Proof.
  apply (gc_walked nano false keep_text false false (cache_lookup listed_cache) listed_start.1 listed_hash listed_start.2 3 0 2 listed_hashes).
  - replace (Some (Gc_walk listed_hash)) with (last listed_start.2) by (vm_compute; reflexivity).
    apply (gc_started nano false keep_text false false _ listed_start.1 listed_start.2).
    unfold listed_start. apply surjective_pairing.
  - replace (rep_walk 3 nano false REPRESENTATION_OP_COLLECT (cache_lookup listed_cache) listed_hash).2
      with [Rep_collect_result 0 2 listed_hashes] by (vm_compute; reflexivity). by apply list_elem_of_singleton.
  - unfold listed_merged. apply surjective_pairing.
Qed.

Lemma gc_keeps_listed_files_witness :
  exists pl st' evs, block_cache_dispatch (CACHE_GC (Some listed_keep) false None) sample_env listed_cache = Some (pl, st', evs) /\ cache_inv st'.
Proof.
  destruct (gc_keeps_listed_files sample_env listed_cache false keep_text false false listed_merged.1 (last listed_merged.2)
    (listed_start.2 ++ listed_merged.2) listed_keep false None) as (pl & st' & evs & failed & E & Hc & _).
  - vm_compute. reflexivity.
  - vm_compute. reflexivity.
  - apply listed_node_inv.
  - apply listed_reach.
  - apply elem_of_app. right. replace listed_merged.2 with [Gc_sweep_request listed_keep false] by (vm_compute; reflexivity).
    by apply list_elem_of_singleton.
  - split; [apply all_ok_meta|]. split; [cbn; unfold is_u64; lia|]. intros h c _ _.
    assert (bc_pending_gets listed_cache = []) as Hp by (vm_compute; reflexivity). unfold not_waiting. rewrite Hp. set_solver.
  - exists pl, st', evs. split; [exact E|exact Hc].
Defined.
