(* ===== verification/ClientApiBase.v ===== *)
(** * ClientApiBase: the building blocks of the client protocol

    Models the helpers of src/src/ClientAPI/client_api_wire.c and the message
    types of client_api_wire.h.  A frame of the protocol that clients speak to
    a daemon (over TCP, a Unix socket or a WebSocket) is a CBOR array whose
    first element is the message type.

    Unlike the decoders of the peer protocol, many of these read an element
    without looking at its kind.  A decoder therefore has three results:
    [DECODED], [REJECTED] where the C code returns -1, and [ILL_TYPED] where
    an accessor of libcbor is applied to an item of another kind, outside the
    library's contract.

    A C string is the list of its characters, without zeros; [option] where
    the pointer may be null.  A buffer with its length is a list of bytes, the
    empty one standing for a null pointer. *)

From S2P Require Import Prelude Cbor WireBase OffUrl.
Local Open Scope Z_scope.

(** ** Message types *)

Definition CLIENT_API_PUT_REQUEST : Z := 1.
Definition CLIENT_API_PUT_DATA : Z := 2.
Definition CLIENT_API_PUT_END : Z := 3.
Definition CLIENT_API_PUT_RESPONSE : Z := 4.
Definition CLIENT_API_GET_REQUEST : Z := 5.
Definition CLIENT_API_GET_RESPONSE_START : Z := 6.
Definition CLIENT_API_GET_DATA : Z := 7.
Definition CLIENT_API_GET_END : Z := 8.
Definition CLIENT_API_ERROR : Z := 11.
Definition CLIENT_API_AUTH_REQUEST : Z := 12.
Definition CLIENT_API_BLOCK_PUT_REQUEST : Z := 13.
Definition CLIENT_API_BLOCK_PUT_RESPONSE : Z := 14.
Definition CLIENT_API_BLOCK_GET_REQUEST : Z := 15.
Definition CLIENT_API_BLOCK_GET_RESPONSE : Z := 16.
Definition CLIENT_API_BLOCK_DELETE_REQUEST : Z := 17.
Definition CLIENT_API_BLOCK_DELETE_RESPONSE : Z := 18.
Definition CLIENT_API_HEALTH_REQUEST : Z := 19.
Definition CLIENT_API_HEALTH_RESPONSE : Z := 20.
Definition CLIENT_API_PEER_INFO_REQUEST : Z := 21.
Definition CLIENT_API_PEER_INFO_RESPONSE : Z := 22.
Definition CLIENT_API_PEER_CONNECT : Z := 23.
Definition CLIENT_API_PEER_CONNECT_RESULT : Z := 24.
Definition CLIENT_API_PEER_LIST_REQUEST : Z := 25.
Definition CLIENT_API_PEER_LIST_RESPONSE : Z := 26.
Definition CLIENT_API_FRIEND_ADD : Z := 27.
Definition CLIENT_API_FRIEND_REMOVE : Z := 28.
Definition CLIENT_API_FRIEND_LIST : Z := 29.
Definition CLIENT_API_FRIEND_LIST_RESPONSE : Z := 30.
Definition CLIENT_API_UPDATE_STATUS_REQUEST : Z := 31.
Definition CLIENT_API_UPDATE_STATUS_RESPONSE : Z := 32.
Definition CLIENT_API_CONFIG_SHOW_REQUEST : Z := 33.
Definition CLIENT_API_CONFIG_SHOW_RESPONSE : Z := 34.
Definition CLIENT_API_CONFIG_SET_REQUEST : Z := 35.
Definition CLIENT_API_CONFIG_SET_RESPONSE : Z := 36.
Definition CLIENT_API_CONFIG_RELOAD_REQUEST : Z := 37.
Definition CLIENT_API_CONFIG_RELOAD_RESPONSE : Z := 38.
Definition CLIENT_API_LOAD_REQUEST : Z := 39.
Definition CLIENT_API_LOAD_PROGRESS : Z := 40.
Definition CLIENT_API_LOAD_END : Z := 41.
Definition CLIENT_API_REP_MARK_PERMANENT_REQUEST : Z := 42.
Definition CLIENT_API_REP_MARK_PERMANENT_RESPONSE : Z := 43.
Definition CLIENT_API_REP_DELETE_EPHEMERAL_REQUEST : Z := 44.
Definition CLIENT_API_REP_DELETE_EPHEMERAL_RESPONSE : Z := 45.
Definition CLIENT_API_REP_PIN_REQUEST : Z := 46.
Definition CLIENT_API_REP_PIN_RESPONSE : Z := 47.
Definition CLIENT_API_REP_UNPIN_REQUEST : Z := 48.
Definition CLIENT_API_REP_UNPIN_RESPONSE : Z := 49.
Definition CLIENT_API_EPHEMERAL_LIST_REQUEST : Z := 50.
Definition CLIENT_API_EPHEMERAL_LIST_RESPONSE : Z := 51.
Definition CLIENT_API_BOOTSTRAP_ADD : Z := 52.
Definition CLIENT_API_BOOTSTRAP_REMOVE : Z := 53.
Definition CLIENT_API_BOOTSTRAP_LIST : Z := 54.
Definition CLIENT_API_BOOTSTRAP_LIST_RESPONSE : Z := 55.
Definition CLIENT_API_CACHE_RESIZE_REQUEST : Z := 56.
Definition CLIENT_API_CACHE_RESIZE_RESPONSE : Z := 57.
Definition CLIENT_API_GC_REQUEST : Z := 58.
Definition CLIENT_API_GC_RESPONSE : Z := 59.

(** Limits of the frames, in bytes and elements. *)
Definition OFFS_MAX_CBOR_MESSAGE_SIZE : Z := 64 * 1024 * 1024.
Definition CLIENT_API_PEER_INFO_MAX_PAYLOAD : Z := 2 * 1024 * 1024.
Definition CLIENT_API_GC_MAX_URLS_TEXT : Z := 4 * 1024 * 1024.
Definition CLIENT_API_GC_MAX_FAILED_ROWS : nat := 256.
Definition MAX_BLOCK_PAYLOAD : Z := 128000.
Definition MAX_RECYCLER_URLS : nat := 256.

(** ** Guards *)

Definition reject_if (b : bool) : decoded unit := if b then REJECTED else DECODED tt.

Definition blen (b : bytes) : Z := Z.of_nat (length b).

Section Helpers.
Context {C : Cbor}.

(** The guard every decoder starts with. *)
Definition need (item : cbor_item) (n : nat) : decoded unit :=
  reject_if (negb (cbor_isa_array item) || (cbor_array_size item <? n)%nat).

Definition need_exactly (item : cbor_item) (n : nat) : decoded unit :=
  reject_if (negb (cbor_isa_array item) || negb (cbor_array_size item =? n)%nat).

Definition get (item : cbor_item) (k : nat) : decoded cbor_item :=
  match cbor_array_get item k with Some i => DECODED i | None => ILL_TYPED end.

Definition is_int (i : cbor_item) : bool :=
  cbor_isa_uint i || bool_decide (cbor_typeof i = CBOR_TYPE_NEGINT).

Definition get_uint8 (i : cbor_item) : decoded Z :=
  if is_int i then DECODED (cbor_get_uint8 i) else ILL_TYPED.

Definition get_int (i : cbor_item) : decoded Z :=
  if is_int i then DECODED (cbor_get_int i) else ILL_TYPED.

Definition _encode_string (str : option bytes) : cbor_item :=
  match str with None => cbor_build_string [] | Some s => cbor_build_string s end.

Definition _decode_string (item : cbor_item) (max_len : Z) : option bytes :=
  if negb (cbor_isa_string item) then None else
  let len := Z.of_nat (cbor_string_length item) in
  if (len =? 0) || (max_len <? len) then None else Some (cstr (cbor_string_handle item)).

(** [SIZE_MAX] is 2^64 - 1: the guard never applies. *)
Definition _decode_size (item : cbor_item) : decoded Z :=
  val ← get_int item;
  DECODED (if 2 ^ 64 - 1 <? val then 0 else val).

(** [None] is a null pointer, for which the length is left at the cleared 0. *)
Definition _decode_bytestring (item : cbor_item) : option bytes :=
  if cbor_is_null item then None else
  if negb (cbor_isa_bytestring item) then None else Some (cbor_bytestring_handle item).

Definition client_api_wire_get_type (item : cbor_item) : decoded Z :=
  if negb (cbor_isa_array item) || (cbor_array_size item <? 1)%nat then DECODED 0 else
  type_item ← get item 0;
  if negb (cbor_isa_uint type_item) then DECODED 0 else get_uint8 type_item.

(** The guard on the type element. *)
Definition check_type (item : cbor_item) (valid : Z -> bool) : decoded unit :=
  type_item ← get item 0;
  if negb (cbor_isa_uint type_item) then REJECTED else
  type ← get_uint8 type_item;
  reject_if (negb (valid type)).

(** [cbor_new_definite_array(n)] and a push of each item: the codecs ignore
    the result of [cbor_array_push], which is false once the array is full. *)
Definition definite (n : nat) (items : list cbor_item) : cbor_item := cbor_array (take n items).

(** The guard on an optional element: [d] when the array has at least [n]
    elements, the cleared field otherwise. *)
Definition if_size {A} (item : cbor_item) (n : nat) (cleared : A) (d : decoded A) : decoded A :=
  if (n <=? cbor_array_size item)%nat then d else DECODED cleared.

(** A guarded element: anything but an unsigned integer is rejected. *)
Definition require_uint8 (item : cbor_item) (k : nat) : decoded Z :=
  i ← get item k; if negb (cbor_isa_uint i) then REJECTED else get_uint8 i.
Definition require_size (item : cbor_item) (k : nat) : decoded Z :=
  i ← get item k; if negb (cbor_isa_uint i) then REJECTED else _decode_size i.

(** A guarded element: anything but an unsigned integer leaves the field 0. *)
Definition optional_uint8 (item : cbor_item) (k : nat) : decoded Z :=
  i ← get item k; if cbor_isa_uint i then get_uint8 i else DECODED 0.
Definition optional_int (item : cbor_item) (k : nat) : decoded Z :=
  i ← get item k; if cbor_isa_uint i then get_int i else DECODED 0.

(** A guarded element: anything but a byte string is rejected. *)
Definition require_data (item : cbor_item) (k : nat) : decoded bytes :=
  i ← get item k; if negb (cbor_isa_bytestring i) then REJECTED else DECODED (cbor_bytestring_handle i).

(** The open-coded text fields: any length, and "" for another kind. *)
Definition decode_text (item : cbor_item) (k : nat) : decoded bytes :=
  i ← get item k;
  DECODED (if cbor_isa_string i then cstr (cbor_string_handle i) else []).
End Helpers.

(** A validator applied to a pointer: all three refuse a null pointer. *)
Definition validate (v : bytes -> Z) (str : option bytes) : Z :=
  match str with None => -1 | Some s => v s end.

Lemma reject_if_DECODED b u : reject_if b = DECODED u -> b = false.
Proof. by destruct b. Qed.

Lemma if_size_DECODED {C : Cbor} {A} item n (cleared : A) d x :
  if_size item n cleared d = DECODED x -> x = cleared \/ d = DECODED x.
Proof. unfold if_size. case_match; [by right|]. intros [= <-]. by left. Qed.

Lemma if_size_yields {C : Cbor} {A} (P : A -> Prop) {item n} {cleared : A} {d x} :
  if_size item n cleared d = DECODED x -> P cleared -> (forall y, d = DECODED y -> P y) -> P x.
Proof. intros [->|E]%if_size_DECODED; auto. Qed.

(** ** Values that survive the wire *)

Definition is_text (max : Z) (s : bytes) : Prop := is_cstring s /\ 0 < blen s <= max.

Definition is_opt_text (max : Z) (o : option bytes) : Prop :=
  match o with None => True | Some s => is_text max s end.

(** What a decoded string is worth: a C string within its limit. *)
Definition opt_text_bounds (max : Z) (o : option bytes) : Prop :=
  match o with None => True | Some s => Forall (fun c => c <> 0) s /\ blen s <= max end.

Definition is_flag (z : Z) : Prop := z = 0 \/ z = 1.

Definition is_payload (max : Z) (b : bytes) : Prop := is_bytes b /\ blen b <= max.

Definition is_hash (h : bytes) : Prop := is_bytes h /\ blen h = 32.

Lemma hash_buffer h : is_hash h -> is_buffer h.
Proof. intros [Hb Hl]. split; [done|]. unfold blen in Hl. lia. Qed.

(** A text of any length. *)
Definition is_free_text (o : option bytes) : Prop :=
  match o with None => False | Some s => is_cstring s /\ blen s < 2 ^ 64 end.
Definition free_text_bounds (o : option bytes) : Prop :=
  match o with None => False | Some s => Forall (fun c => c <> 0) s end.

(** The "host:port" of a bootstrap entry. *)
Definition is_endpoint (o : option bytes) : Prop := is_Some o /\ is_opt_text 256 o.
Definition endpoint_bounds (o : option bytes) : Prop := is_Some o /\ opt_text_bounds 256 o.

(** An item a list response carries. *)
Definition is_listing {C : Cbor} {CS : CborSerial} (o : option cbor_item) : Prop :=
  match o with None => False | Some i => cbor_serializable i end.

Definition is_url (url : option bytes) : Prop :=
  exists s, url = Some s /\ is_text (Z.of_nat OFFS_MAX_ORI_STRING_LEN) s /\ validate_ori_string s = 0.

Lemma length_cstr s : (length (cstr s) <= length s)%nat.
Proof. induction s as [|c t IH]; [done|]. cbn [cstr]. case_match; cbn [length]; lia. Qed.

Lemma cstr_no_zero s : Forall (fun c => c <> 0) (cstr s).
Proof.
  induction s as [|c t IH]; [constructor|]. cbn [cstr].
  destruct (Z.eqb_spec c 0); [constructor|by constructor].
Qed.

Lemma cstring_bytes s : is_cstring s -> is_bytes s.
Proof. intros Hs. eapply Forall_impl; [exact Hs|]. cbv beta. intros c Hc. unfold is_u8. lia. Qed.

Lemma url_text o : is_url o -> is_opt_text (Z.of_nat OFFS_MAX_ORI_STRING_LEN) o.
Proof. by intros (s & -> & Hs & _). Qed.

Lemma url_valid o : is_url o -> validate validate_ori_string o = 0.
Proof. by intros (s & -> & _ & Hs). Qed.

Lemma validated_content_type o :
  validate validate_content_type o = 0 -> is_opt_text (Z.of_nat OFFS_MAX_CONTENT_TYPE_LEN) o.
Proof.
  destruct o as [s|]; [|done]. cbn [validate is_opt_text]. intros (? & ?)%validate_content_type_sound.
  split; [done|]. unfold blen. lia.
Qed.

Lemma validated_file_name o :
  validate validate_file_name o = 0 -> is_opt_text (Z.of_nat OFFS_MAX_FILE_NAME_LEN) o.
Proof.
  destruct o as [s|]; [|done]. cbn [validate is_opt_text]. intros (? & ? & _)%validate_file_name_sound.
  split; [done|]. unfold blen. lia.
Qed.

(** An optional range of a file: a flag and two bounds, all cleared when the
    range is absent. *)
Definition is_range (has start last : Z) : Prop :=
  (has = 0 /\ start = 0 /\ last = 0) \/ (has = 1 /\ is_u64 start /\ is_u64 last).

Lemma flag_encode z : is_flag z -> (if negb (z =? 0) then 1 else 0) = z.
Proof. by intros [-> | ->]. Qed.

Lemma flag_u8 z : is_flag z -> is_u8 z.
Proof. unfold is_u8. intros [-> | ->]; lia. Qed.
Section Laws.
Context {C : Cbor} {CL : CborLaws}.

Lemma need_array l n : (n <= length l)%nat -> need (cbor_array l) n = DECODED tt.
Proof.
  intros Hn. unfold need. cbor_simp. rewrite bool_decide_eq_true_2 by done. cbn [negb orb].
  by rewrite (proj2 (Nat.ltb_ge _ _) Hn).
Qed.

Lemma need_exactly_array l n : length l = n -> need_exactly (cbor_array l) n = DECODED tt.
Proof.
  intros <-. unfold need_exactly. cbor_simp. rewrite bool_decide_eq_true_2 by done. cbn [negb orb].
  by rewrite Nat.eqb_refl.
Qed.

Lemma get_array l k : get (cbor_array l) k = match l !! k with Some i => DECODED i | None => ILL_TYPED end.
Proof. unfold get. by cbor_simp. Qed.

Lemma size_array l : cbor_array_size (cbor_array l) = length l.
Proof. by cbor_simp. Qed.

Lemma isa_array_build l : cbor_isa_array (cbor_array l) = true.
Proof. unfold cbor_isa_array. rewrite typeof_array. by apply bool_decide_eq_true_2. Qed.

Lemma if_size_array {A} l n (cleared : A) d :
  if_size (cbor_array l) n cleared d = if (n <=? length l)%nat then d else DECODED cleared.
Proof. unfold if_size. by rewrite size_array. Qed.

Lemma isa_uint_build w z : cbor_isa_uint (cbor_build_uint w z) = true.
Proof. cbor_simp. by apply bool_decide_eq_true_2. Qed.
Lemma isa_uint8_build z : cbor_isa_uint (cbor_build_uint8 z) = true.
Proof. apply isa_uint_build. Qed.
Lemma isa_uint64_build z : cbor_isa_uint (cbor_build_uint64 z) = true.
Proof. apply isa_uint_build. Qed.

Lemma get_uint8_build z : is_u8 z -> get_uint8 (cbor_build_uint8 z) = DECODED z.
Proof. intros Hz. unfold get_uint8, is_int. rewrite isa_uint8_build. cbn [orb]. by cbor_simp. Qed.

Lemma get_int_build64 z : is_u64 z -> get_int (cbor_build_uint64 z) = DECODED z.
Proof. intros Hz. unfold get_int, is_int. rewrite isa_uint64_build. cbn [orb]. by cbor_simp. Qed.

Lemma get_int_build8 z : is_u8 z -> get_int (cbor_build_uint8 z) = DECODED z.
Proof. intros Hz. unfold get_int, is_int. rewrite isa_uint8_build. cbn [orb]. by cbor_simp. Qed.

Lemma decode_size_build z : is_u64 z -> _decode_size (cbor_build_uint64 z) = DECODED z.
Proof.
  intros Hz. unfold _decode_size. rewrite get_int_build64 by done. cbn [mbind decoded_bind].
  unfold is_u64 in Hz. destruct (Z.ltb_spec (2 ^ 64 - 1) z); [lia|done].
Qed.

Lemma isa_string_build s : cbor_isa_string (cbor_build_string s) = true.
Proof. cbor_simp. by apply bool_decide_eq_true_2. Qed.

Lemma string_handle_encode s : cbor_string_handle (cbor_build_string s) = s.
Proof. apply string_build. Qed.

Lemma decode_string_encode o max : is_opt_text max o -> _decode_string (_encode_string o) max = o.
Proof.
  intros Ho. unfold _decode_string. destruct o as [s|]; cbn [_encode_string]; rewrite isa_string_build;
    cbn [negb]; cbor_simp; [|done].
  destruct Ho as [Hs Hl]. unfold blen in Hl.
  destruct (Z.eqb_spec (Z.of_nat (length s)) 0); [lia|].
  destruct (Z.ltb_spec max (Z.of_nat (length s))); [lia|]. cbn [orb]. by rewrite cstr_id.
Qed.

Lemma decode_string_build s max : is_text max s -> _decode_string (cbor_build_string s) max = Some s.
Proof. apply (decode_string_encode (Some s)). Qed.

Lemma isa_bytestring_build b : cbor_isa_bytestring (cbor_build_bytestring b) = true.
Proof. cbor_simp. by apply bool_decide_eq_true_2. Qed.

Lemma isa_string_bytestring b : cbor_isa_string (cbor_build_bytestring b) = false.
Proof. unfold cbor_isa_string. rewrite typeof_bytestring. by apply bool_decide_eq_false_2. Qed.

Lemma not_null_typeof i : cbor_typeof i <> CBOR_TYPE_FLOAT_CTRL -> cbor_is_null i = false.
Proof. intros Hi. destruct (cbor_is_null i) eqn:E; [by apply is_null_typeof in E|done]. Qed.

Lemma not_null_bytestring b : cbor_is_null (cbor_build_bytestring b) = false.
Proof. apply not_null_typeof. by rewrite typeof_bytestring. Qed.

Lemma not_null_uint w z : cbor_is_null (cbor_build_uint w z) = false.
Proof. apply not_null_typeof. by rewrite typeof_uint. Qed.

Lemma not_null_uint8 z : cbor_is_null (cbor_build_uint8 z) = false.
Proof. apply not_null_uint. Qed.
Lemma not_null_uint64 z : cbor_is_null (cbor_build_uint64 z) = false.
Proof. apply not_null_uint. Qed.

Lemma decode_bytestring_build b : _decode_bytestring (cbor_build_bytestring b) = Some b.
Proof.
  unfold _decode_bytestring. rewrite not_null_bytestring, isa_bytestring_build. cbn [negb]. by cbor_simp.
Qed.

Lemma decode_string_bounds i max : opt_text_bounds max (_decode_string i max).
Proof.
  unfold _decode_string. destruct (cbor_isa_string i); cbn [negb]; [|done].
  destruct (Z.eqb_spec (Z.of_nat (cbor_string_length i)) 0); [done|].
  destruct (Z.ltb_spec max (Z.of_nat (cbor_string_length i))); [done|]. cbn [orb opt_text_bounds].
  split; [apply cstr_no_zero|]. pose proof (length_cstr (cbor_string_handle i)).
  unfold blen, cbor_string_length in *. lia.
Qed.

Lemma decode_size_range i z : _decode_size i = DECODED z -> is_u64 z.
Proof.
  unfold _decode_size, get_int. case_match; [|done]. cbn [mbind decoded_bind]. intros [= <-].
  pose proof (get_int_range i). unfold is_u64 in *. case_match; lia.
Qed.

Lemma get_uint8_range i z : get_uint8 i = DECODED z -> is_u8 z.
Proof. unfold get_uint8. case_match; [|done]. intros [= <-]. apply (get_uint_range CBOR_INT_8). Qed.

Lemma get_int_u64 i z : get_int i = DECODED z -> is_u64 z.
Proof. unfold get_int. case_match; [|done]. intros [= <-]. apply get_int_range. Qed.

Lemma require_uint8_range item k z : require_uint8 item k = DECODED z -> is_u8 z.
Proof. unfold require_uint8. intros (i & _ & H)%bind_DECODED. case_match; [done|]. by apply get_uint8_range in H. Qed.

Lemma require_size_range item k z : require_size item k = DECODED z -> is_u64 z.
Proof. unfold require_size. intros (i & _ & H)%bind_DECODED. case_match; [done|]. by apply decode_size_range in H. Qed.

Lemma optional_uint8_range item k z : optional_uint8 item k = DECODED z -> is_u8 z.
Proof.
  unfold optional_uint8. intros (i & _ & H)%bind_DECODED. case_match; [by apply get_uint8_range in H|].
  injection H as <-. by unfold is_u8.
Qed.

Lemma optional_int_range item k z : optional_int item k = DECODED z -> is_u64 z.
Proof.
  unfold optional_int. intros (i & _ & H)%bind_DECODED. case_match; [by apply get_int_u64 in H|].
  injection H as <-. by unfold is_u64.
Qed.

Lemma decode_text_no_zero item k s : decode_text item k = DECODED s -> Forall (fun c => c <> 0) s.
Proof.
  unfold decode_text. intros (i & _ & [= <-])%bind_DECODED.
  destruct (cbor_isa_string i); [apply cstr_no_zero|constructor].
Qed.

(** *** Typing *)

Lemma need_size item n u : need item n = DECODED u -> (n <= cbor_array_size item)%nat.
Proof.
  unfold need, reject_if. destruct (negb (cbor_isa_array item)); [done|]. cbn [orb].
  by destruct (Nat.ltb_spec (cbor_array_size item) n).
Qed.

Lemma need_exactly_size item n u : need_exactly item n = DECODED u -> cbor_array_size item = n.
Proof.
  unfold need_exactly, reject_if. destruct (negb (cbor_isa_array item)); [done|]. cbn [orb].
  by destruct (Nat.eqb_spec (cbor_array_size item) n).
Qed.

Lemma need_exactly_typed item n : well_typed (need_exactly item n).
Proof. unfold need_exactly, reject_if. by case_match. Qed.

Lemma get_typed item k : (k < cbor_array_size item)%nat -> well_typed (get item k).
Proof.
  unfold get, cbor_array_get, cbor_array_size. intros Hk.
  by destruct (lookup_lt_is_Some_2 (cbor_array_items item) k Hk) as [i ->].
Qed.

Lemma reject_if_typed b : well_typed (reject_if b).
Proof. by destruct b. Qed.

Lemma need_typed item n : well_typed (need item n).
Proof. apply reject_if_typed. Qed.

Lemma get_uint8_typed i : cbor_isa_uint i = true -> well_typed (get_uint8 i).
Proof. intros Hi. unfold get_uint8, is_int. by rewrite Hi. Qed.

Lemma get_int_typed i : cbor_isa_uint i = true -> well_typed (get_int i).
Proof. intros Hi. unfold get_int, is_int. by rewrite Hi. Qed.

Lemma decode_size_typed i : cbor_isa_uint i = true -> well_typed (_decode_size i).
Proof. intros Hi. apply well_typed_bind; [by apply get_int_typed|done]. Qed.

Lemma guarded_typed {A} item k (f : cbor_item -> decoded A) (d : decoded A) :
  (k < cbor_array_size item)%nat -> well_typed d ->
  (forall i, cbor_isa_uint i = true -> well_typed (f i)) ->
  well_typed (i ← get item k; if cbor_isa_uint i then f i else d).
Proof.
  intros Hk Hd Hf. apply well_typed_bind; [by apply get_typed|]. intros i _.
  destruct (cbor_isa_uint i) eqn:E; auto.
Qed.

Lemma check_type_typed item valid : (0 < cbor_array_size item)%nat -> well_typed (check_type item valid).
Proof.
  intros Hk. apply well_typed_bind; [by apply get_typed|]. intros i _.
  destruct (cbor_isa_uint i) eqn:E; [|done]. cbn [negb].
  apply well_typed_bind; [by apply get_uint8_typed|]. intros t _. apply reject_if_typed.
Qed.

Lemma require_uint8_typed item k : (k < cbor_array_size item)%nat -> well_typed (require_uint8 item k).
Proof.
  intros Hk. apply well_typed_bind; [by apply get_typed|]. intros i _.
  destruct (cbor_isa_uint i) eqn:E; [by apply get_uint8_typed|done].
Qed.

Lemma require_size_typed item k : (k < cbor_array_size item)%nat -> well_typed (require_size item k).
Proof.
  intros Hk. apply well_typed_bind; [by apply get_typed|]. intros i _.
  destruct (cbor_isa_uint i) eqn:E; [by apply decode_size_typed|done].
Qed.

Lemma optional_uint8_typed item k : (k < cbor_array_size item)%nat -> well_typed (optional_uint8 item k).
Proof. intros Hk. by apply guarded_typed; [..|apply get_uint8_typed]. Qed.

Lemma optional_int_typed item k : (k < cbor_array_size item)%nat -> well_typed (optional_int item k).
Proof. intros Hk. by apply guarded_typed; [..|apply get_int_typed]. Qed.

Lemma require_data_typed item k : (k < cbor_array_size item)%nat -> well_typed (require_data item k).
Proof. intros Hk. apply well_typed_bind; [by apply get_typed|]. intros i _. by destruct (cbor_isa_bytestring i). Qed.

Lemma decode_text_typed item k : (k < cbor_array_size item)%nat -> well_typed (decode_text item k).
Proof. intros Hk. apply well_typed_bind; [by apply get_typed|done]. Qed.

Lemma client_api_wire_get_type_typed item : well_typed (client_api_wire_get_type item).
Proof.
  unfold client_api_wire_get_type. destruct (negb (cbor_isa_array item)); [done|]. cbn [orb].
  destruct (Nat.ltb_spec (cbor_array_size item) 1) as [|Hk]; [done|].
  apply well_typed_bind; [apply get_typed; lia|]. intros i _.
  destruct (cbor_isa_uint i) eqn:E; [by apply get_uint8_typed|done].
Qed.

Lemma if_size_typed {A} item n (cleared : A) d :
  ((n <= cbor_array_size item)%nat -> well_typed d) -> well_typed (if_size item n cleared d).
Proof. intros Hd. unfold if_size. destruct (Nat.leb_spec n (cbor_array_size item)); auto. discriminate. Qed.

(** A frame with a type has an unsigned integer as its first element. *)
Lemma get_type_uint item t :
  client_api_wire_get_type item = DECODED t -> t <> 0 ->
  exists i, get item 0 = DECODED i /\ cbor_isa_uint i = true /\ get_uint8 i = DECODED t.
Proof.
  unfold client_api_wire_get_type. intros H Ht. case_match; [by injection H as <-|].
  apply bind_DECODED in H as (i & Hi & H). exists i. split; [done|].
  destruct (cbor_isa_uint i); [done|]. by injection H as <-.
Qed.

Lemma get_type_array t l :
  is_u8 t -> client_api_wire_get_type (cbor_array (cbor_build_uint8 t :: l)) = DECODED t.
Proof.
  intros Ht. unfold client_api_wire_get_type. rewrite get_array, size_array. cbn [length Nat.ltb Nat.leb lookup list_lookup].
  unfold cbor_isa_array. rewrite typeof_array, bool_decide_eq_true_2 by done. cbn [negb orb mbind decoded_bind].
  rewrite isa_uint8_build. by apply get_uint8_build.
Qed.
End Laws.

(** ** The interface of a codec *)

(** [cm_types] lists the type bytes the frame may carry (several for the
    representation operations, which share a layout) and [cm_encode] is given
    the one to use; [None] is an encoder that returns a null pointer.  [cm_ok]
    are the structures an encoder may be given, [cm_bounds] the limits every
    decoded structure respects. *)
Class ClientMsg {C : Cbor} {CS : CborSerial} (M : Type) := {
  cm_types : list Z;
  cm_encode : Z -> M -> option cbor_item;
  cm_decode : cbor_item -> decoded M;
  cm_ok : M -> Prop;
  cm_bounds : M -> Prop
}.

Class ClientMsgLaws {C : Cbor} {CS : CborSerial} (M : Type) {W : ClientMsg M} : Prop := {
  cm_types_u8 : Forall is_u8 (cm_types (M := M));
  cm_encode_type t m :
    t ∈ cm_types (M := M) -> cm_ok m -> exists l, cm_encode t m = Some (cbor_array (cbor_build_uint8 t :: l));
  cm_roundtrip t m item :
    t ∈ cm_types (M := M) -> cm_ok m -> cm_encode t m = Some item -> cm_decode item = DECODED m;
  cm_serializable t m item :
    t ∈ cm_types (M := M) -> cm_ok m -> cm_encode t m = Some item -> cbor_serializable item;
  (** Whatever the other end sent, a decoded structure is within its bounds. *)
  cm_decode_bounds item m : cm_decode item = DECODED m -> cm_bounds m
}.

(** Whatever the other end sent, a frame that carries a type byte of the
    message is decoded or rejected. *)
Class ClientMsgTyped {C : Cbor} {CS : CborSerial} (M : Type) {W : ClientMsg M} : Prop :=
  cm_well_typed item t :
    client_api_wire_get_type item = DECODED t -> t ∈ cm_types (M := M) -> well_typed (cm_decode (M := M) item).

Create HintDb client.
#[export] Hint Unfold is_endpoint endpoint_bounds : client.
#[export] Hint Resolve url_text validated_content_type validated_file_name flag_u8 : client.
#[export] Hint Unfold cm_types cm_encode cm_decode cm_ok cm_bounds : client.

(** ** Automation *)

Lemma serializable_text {C : Cbor} {CS : CborSerial} {CSL : CborSerialLaws} max s :
  is_text max s -> max < 2 ^ 64 -> cbor_serializable (cbor_build_string s).
Proof.
  intros [Hs Hl] Hm. apply serializable_string; [by apply cstring_bytes|]. unfold blen in Hl. lia.
Qed.

Lemma serializable_opt_text {C : Cbor} {CS : CborSerial} {CSL : CborSerialLaws} max o :
  is_opt_text max o -> max < 2 ^ 64 -> cbor_serializable (_encode_string o).
Proof.
  destruct o as [s|]; cbn [_encode_string]; intros Ho Hm; [by eapply serializable_text|].
  apply serializable_string; [constructor|done].
Qed.

Lemma serializable_payload {C : Cbor} {CS : CborSerial} {CSL : CborSerialLaws} max b :
  is_payload max b -> max < 2 ^ 64 -> cbor_serializable (cbor_build_bytestring b).
Proof. intros [Hb Hl] Hm. apply serializable_bytestring; [done|]. unfold blen in Hl. lia. Qed.

Lemma serializable_string_buffer {C : Cbor} {CS : CborSerial} {CSL : CborSerialLaws} b :
  is_buffer b -> cbor_serializable (cbor_build_string b).
Proof. intros [Hb Hl]. by apply serializable_string. Qed.

Ltac client_unfold := autounfold with client in *; cbn beta iota in *.

Ltac client_side :=
  first [reflexivity | assumption | discriminate | solve [auto with client] | solve [auto with offs]
        | cbn [length]; lia | unfold is_u8, is_u16, is_u32, is_u64 in *; lia | vm_compute; intuition congruence].

(** Evaluates a decoder on an encoded frame, one accessor at a time. *)
Ltac client_get :=
  unfold require_uint8, require_size, optional_uint8, optional_int, require_data, decode_text, check_type;
  repeat (first
    [ rewrite need_array by (cbn [length]; lia) | rewrite need_exactly_array by reflexivity
    | rewrite get_array | rewrite size_array | rewrite if_size_array
    | rewrite isa_uint8_build | rewrite isa_uint64_build | rewrite isa_uint_build
    | rewrite isa_string_build | rewrite string_handle_encode
    | rewrite isa_bytestring_build | rewrite bytestring_build | rewrite not_null_bytestring
    | rewrite decode_bytestring_build | rewrite is_null_null | rewrite not_null_uint8 | rewrite not_null_uint64
    | rewrite get_uint8_build by client_side | rewrite decode_size_build by client_side
    | rewrite get_int_build64 by client_side | rewrite get_int_build8 by client_side
    | rewrite decode_string_encode by client_side | rewrite decode_string_build by client_side
    | rewrite cstr_id by client_side | rewrite Z.eqb_refl | rewrite flag_encode by assumption
    | rewrite url_valid by assumption
    | match goal with
      | E : ?x <> ?y |- context [?x =? ?y] => rewrite (proj2 (Z.eqb_neq x y) E)
      | E : ?x <= ?y |- context [?y <? ?x] => rewrite (proj2 (Z.ltb_ge y x) E)
      | E : is_hash ?b |- context [blen ?b =? 32] => rewrite (proj2 (Z.eqb_eq (blen b) 32) (proj2 E))
      | E : is_payload ?y ?b |- context [?y <? blen ?b] => rewrite (proj2 (Z.ltb_ge y (blen b)) (proj2 E))
      end
    | match goal with E : validate ?v ?s = 0 |- context [validate ?v ?s] => rewrite E end ];
    cbn [length Nat.leb lookup list_lookup mbind decoded_bind negb orb andb reject_if Z.eqb]).

(** Takes a successful decoder apart. *)
Ltac client_inv H :=
  repeat match type of H with
  | (_ ≫= _) = DECODED _ =>
      let x := fresh "x" in let E := fresh "E" in apply bind_DECODED in H as (x & E & H)
  end.

Ltac client_facts :=
  repeat match goal with
  | E : reject_if _ = DECODED _ |- _ => apply reject_if_DECODED in E
  | E : (_ ≫= _) = DECODED _ |- _ => client_inv E
  | E : DECODED _ = DECODED _ |- _ => injection E as E; subst
  | E : require_uint8 _ _ = DECODED _ |- _ => apply require_uint8_range in E
  | E : require_size _ _ = DECODED _ |- _ => apply require_size_range in E
  | E : optional_uint8 _ _ = DECODED _ |- _ => apply optional_uint8_range in E
  | E : optional_int _ _ = DECODED _ |- _ => apply optional_int_range in E
  | E : decode_text _ _ = DECODED _ |- _ => apply decode_text_no_zero in E
  | E : get_uint8 _ = DECODED _ |- _ => apply get_uint8_range in E
  | E : get_int _ = DECODED _ |- _ => apply get_int_u64 in E
  | E : _decode_size _ = DECODED _ |- _ => apply decode_size_range in E
  | E : _decode_string ?i ?m = Some ?l |- _ =>
      let B := fresh E in pose proof (decode_string_bounds i m) as B; rewrite E in B; destruct B; clear E
  | E : _ || _ = false |- _ => let E' := fresh E in apply orb_false_iff in E as [E E']
  | E : negb _ = false |- _ => apply negb_false_iff in E
  | E : (_ =? _) = true |- _ => apply Z.eqb_eq in E
  | E : (_ =? _) = false |- _ => apply Z.eqb_neq in E
  | E : (_ <? _) = false |- _ => apply Z.ltb_ge in E
  | E : (_ <? _)%nat = false |- _ => apply Nat.ltb_ge in E
  end.

Ltac client_conj :=
  repeat match goal with
  | |- _ /\ _ => split
  | |- opt_text_bounds _ (_decode_string _ _) => apply decode_string_bounds
  | |- opt_text_bounds _ None => exact I
  | |- is_u8 0 => by unfold is_u8
  | |- is_flag (if ?b then _ else _) => destruct b; [by right|by left]
  | |- is_flag 0 => by left
  | |- is_flag 1 => by right
  | |- is_u64 0 => by unfold is_u64
  | |- _ => first [assumption | done]
  end.

(** The proof of [cm_decode_bounds]. *)
Ltac client_bounds :=
  let H := fresh "H" in
  intros ? ? H; client_unfold; cbv zeta in H; client_inv H;
  repeat (client_facts; repeat case_match; simplify_eq;
    try match goal with E : if_size _ _ _ _ = DECODED _ |- _ => apply if_size_DECODED in E as [E|E] end);
  simpl; client_conj.

Ltac client_text :=
  first [eassumption | apply url_text; eassumption | apply validated_content_type; eassumption
        | apply validated_file_name; eassumption].

Ltac client_item :=
  first [assumption |
  match goal with
  | |- cbor_serializable (cbor_array _) =>
      apply serializable_array; [repeat constructor; client_item|cbn [length]; lia]
  | |- cbor_serializable (cbor_build_uint8 _) => apply serializable_uint8; client_side
  | |- cbor_serializable (cbor_build_uint64 _) => apply serializable_uint64; client_side
  | |- cbor_serializable (cbor_build_bytestring _) =>
      first [apply serializable_buffer; first [assumption | by apply hash_buffer] | eapply serializable_payload; [eassumption|by vm_compute] | apply serializable_bytestring; client_side]
  | |- cbor_serializable (_encode_string _) => eapply serializable_opt_text; [client_text|by vm_compute]
  | |- cbor_serializable (cbor_build_string _) => first [eapply serializable_text; [eassumption|by vm_compute] | apply serializable_string_buffer; assumption
            | apply serializable_string; [by apply cstring_bytes|assumption]]
  end].

(** The laws of a codec with one type byte whose encoder always succeeds; the
    definitions of the codec are unfolded with the [client] database. *)
Ltac client_cases :=
  repeat match goal with
  | E : is_flag ?z |- context [definite (if negb (?z =? 0) then _ else _)] =>
      let Eh := fresh "Eh" in destruct E as [Eh|Eh]; rewrite ?Eh
  | E : is_free_text ?o |- _ => let Eo := fresh "Eo" in destruct o eqn:Eo; [destruct E|done]
  | E : is_listing ?o |- _ => let Eo := fresh "Eo" in destruct o eqn:Eo; [cbn [is_listing] in E|done]
  | E : is_Some ?o |- _ => let Eo := fresh "Eo" in destruct o eqn:Eo; [clear E|by destruct E]
  | E : is_range _ _ _ |- _ =>
      let Eh := fresh "Eh" in destruct E as [(Eh & ? & ?)|(Eh & ? & ?)]; rewrite ?Eh
  end.

Ltac client_start Ht Hok :=
  client_unfold; apply list_elem_of_singleton in Ht; subst; destruct_and? Hok; client_cases;
  rewrite ?flag_encode by assumption;
  unfold definite; cbn [take app Z.eqb negb _encode_string default].

Ltac client_encodes := intros t m Ht Hok; client_start Ht Hok; eexists; reflexivity.

Ltac client_roundtrips :=
  intros t m item Ht Hok; client_start Ht Hok; intros [= <-]; client_get;
  destruct m; simpl in *; by subst.

Ltac client_serials := intros t m item Ht Hok; client_start Ht Hok; intros [= <-]; client_item.

Ltac client_type_bytes := once (repeat first [apply Forall_nil_2 | apply Forall_cons_2; [vm_compute; intuition congruence|]]).

Ltac client_codec :=
  split; [client_type_bytes | client_encodes | client_roundtrips | client_serials | client_bounds].

Ltac client_size :=
  repeat match goal with
  | E : need _ _ = DECODED _ |- _ => apply need_size in E
  | E : need_exactly _ _ = DECODED _ |- _ => apply need_exactly_size in E
  end; lia.

Ltac client_uint :=
  match goal with
  | E : negb (cbor_isa_uint ?i) = false |- cbor_isa_uint ?i = true => by apply negb_false_iff
  | E : _ && cbor_isa_uint ?i = true |- cbor_isa_uint ?i = true => by apply andb_true_iff in E as [_ E]
  | |- _ => assumption
  end.

(** The proof of [cm_well_typed] for a decoder that guards what it reads. *)
Ltac client_typed_step :=
  match goal with
  | |- well_typed (DECODED _) => discriminate
  | |- well_typed REJECTED => discriminate
  | |- well_typed (need _ _) => apply need_typed
  | |- well_typed (need_exactly _ _) => apply need_exactly_typed
  | |- well_typed (reject_if _) => apply reject_if_typed
  | |- well_typed (check_type _ _) => apply check_type_typed; client_size
  | |- well_typed (get _ _) => apply get_typed; client_size
  | |- well_typed (require_uint8 _ _) => apply require_uint8_typed; client_size
  | |- well_typed (require_size _ _) => apply require_size_typed; client_size
  | |- well_typed (optional_uint8 _ _) => apply optional_uint8_typed; client_size
  | |- well_typed (optional_int _ _) => apply optional_int_typed; client_size
  | |- well_typed (require_data _ _) => apply require_data_typed; client_size
  | |- well_typed (decode_text _ _) => apply decode_text_typed; client_size
  | |- well_typed (get_uint8 _) => apply get_uint8_typed; client_uint
  | |- well_typed (get_int _) => apply get_int_typed; client_uint
  | |- well_typed (_decode_size _) => apply decode_size_typed; client_uint
  | |- well_typed (if_size _ _ _ _) => apply if_size_typed; intros ?
  | |- well_typed (_ ≫= _) => apply well_typed_bind; [|intros ? ?]
  | |- well_typed (match ?b with _ => _ end) => destruct b eqn:?
  end.

Ltac client_typed :=
  intros item t Ht Hin; client_unfold; cbv zeta; repeat client_typed_step.
