(* ===== verification/ClientApiTransfer.v ===== *)
(** * ClientApiTransfer: storing and retrieving files over the client protocol

    Models the codecs of src/src/ClientAPI/client_api_wire.c (structures in
    client_api_wire.h) for PUT (request, data, end, response), GET (request,
    response start, data, end), LOAD (request, progress, end), errors and
    authentication. *)

From S2P Require Import Prelude Cbor WireBase OffUrl ClientApiBase.
Local Open Scope Z_scope.

(** ** PUT request *)

Record client_api_put_request_t := {
  put_content_type : option bytes;
  put_file_name : option bytes;
  put_stream_length : Z;
  put_server_address : option bytes;
  put_data : bytes;
  put_recycler_urls : list (option bytes);
  put_temporary : Z;
  put_has_tuple_size : Z;
  put_tuple_size : Z;
  put_recycle_ephemeral : Z
}.

Section PutRequest.
Context {C : Cbor}.

Definition client_api_put_request_encode (msg : client_api_put_request_t) : cbor_item :=
  let element_count := (8 + (if negb (put_has_tuple_size msg =? 0)%Z then 1 else 0) +
    (if negb (put_recycle_ephemeral msg =? 0)%Z then 1 else 0))%nat in
  definite element_count
    ([cbor_build_uint8 CLIENT_API_PUT_REQUEST;
      _encode_string (put_content_type msg);
      _encode_string (put_file_name msg);
      cbor_build_uint64 (put_stream_length msg);
      _encode_string (put_server_address msg);
      cbor_build_bytestring (put_data msg);
      cbor_array (map _encode_string (put_recycler_urls msg));
      cbor_build_uint8 (if negb (put_temporary msg =? 0) then 1 else 0)] ++
     (if negb (put_has_tuple_size msg =? 0) then [cbor_build_uint64 (put_tuple_size msg)]
      else if negb (put_recycle_ephemeral msg =? 0) then [cbor_new_null] else []) ++
     (if negb (put_recycle_ephemeral msg =? 0) then [cbor_build_uint8 (put_recycle_ephemeral msg)] else [])).

(** The loop over the recycler URLs. *)
Fixpoint decode_urls (urls : list cbor_item) : decoded (list (option bytes)) :=
  match urls with
  | [] => DECODED []
  | url_str :: urls =>
      let url := _decode_string url_str (Z.of_nat OFFS_MAX_ORI_STRING_LEN) in
      _ ← reject_if (negb (validate validate_ori_string url =? 0));
      rest ← decode_urls urls;
      DECODED (url :: rest)
  end.

Definition client_api_put_request_decode (item : cbor_item) : decoded client_api_put_request_t :=
  _ ← need item 4;
  content_type ← get item 1;
  let content_type := _decode_string content_type (Z.of_nat OFFS_MAX_CONTENT_TYPE_LEN) in
  file_name ← get item 2;
  let file_name := _decode_string file_name (Z.of_nat OFFS_MAX_FILE_NAME_LEN) in
  stream_length ← get item 3;
  stream_length ← _decode_size stream_length;
  _ ← reject_if (negb (validate validate_content_type content_type =? 0));
  _ ← reject_if (negb (validate validate_file_name file_name =? 0));
  _ ← reject_if (stream_length =? 0);
  server_address ← if_size item 5 None (
    server_address ← get item 4;
    DECODED (_decode_string server_address (Z.of_nat OFFS_MAX_ORI_STRING_LEN)));
  data ← if_size item 6 [] (
    data_item ← get item 5;
    if negb (cbor_is_null data_item) && cbor_isa_bytestring data_item then
      let data := cbor_bytestring_handle data_item in
      _ ← reject_if (OFFS_MAX_CBOR_MESSAGE_SIZE <? blen data);
      DECODED data
    else DECODED []);
  recycler_urls ← if_size item 7 [] (
    urls_item ← get item 6;
    if cbor_isa_array urls_item then
      _ ← reject_if (MAX_RECYCLER_URLS <? cbor_array_size urls_item)%nat;
      decode_urls (cbor_array_items urls_item)
    else DECODED []);
  temporary ← if_size item 8 0 (optional_uint8 item 7);
  tuple_size ← if_size item 9 None (
    tuple_size_item ← get item 8;
    if negb (cbor_is_null tuple_size_item) && cbor_isa_uint tuple_size_item then
      size ← _decode_size tuple_size_item;
      DECODED (Some size)
    else DECODED None);
  recycle_ephemeral ← if_size item 10 0 (
    recycle_item ← get item 9;
    if negb (cbor_is_null recycle_item) && cbor_isa_uint recycle_item then get_uint8 recycle_item
    else DECODED 0);
  DECODED {|
    put_content_type := content_type; put_file_name := file_name; put_stream_length := stream_length;
    put_server_address := server_address; put_data := data; put_recycler_urls := recycler_urls;
    put_temporary := temporary;
    put_has_tuple_size := if tuple_size is Some _ then 1 else 0;
    put_tuple_size := default 0 tuple_size;
    put_recycle_ephemeral := recycle_ephemeral |}.
End PutRequest.

Record put_request_fields (m : client_api_put_request_t) : Prop := {
  fields_type : validate validate_content_type (put_content_type m) = 0;
  fields_name : validate validate_file_name (put_file_name m) = 0;
  fields_length : is_u64 (put_stream_length m) /\ put_stream_length m <> 0;
  fields_server : is_opt_text (Z.of_nat OFFS_MAX_ORI_STRING_LEN) (put_server_address m);
  fields_data : is_payload OFFS_MAX_CBOR_MESSAGE_SIZE (put_data m);
  fields_urls : Forall is_url (put_recycler_urls m) /\ (length (put_recycler_urls m) <= MAX_RECYCLER_URLS)%nat;
  fields_temporary : is_flag (put_temporary m);
  fields_tuple : (put_has_tuple_size m = 0 /\ put_tuple_size m = 0) \/
    (put_has_tuple_size m = 1 /\ is_u64 (put_tuple_size m));
  fields_recycle : is_u8 (put_recycle_ephemeral m)
}.

(** The recycle mode only travels with a tuple size. *)
Definition put_request_ok (m : client_api_put_request_t) : Prop :=
  put_request_fields m /\ (put_recycle_ephemeral m <> 0 -> put_has_tuple_size m <> 0).

Definition put_request_bounds (m : client_api_put_request_t) : Prop :=
  validate validate_content_type (put_content_type m) = 0 /\
  validate validate_file_name (put_file_name m) = 0 /\
  is_u64 (put_stream_length m) /\ put_stream_length m <> 0 /\
  opt_text_bounds (Z.of_nat OFFS_MAX_ORI_STRING_LEN) (put_server_address m) /\
  blen (put_data m) <= OFFS_MAX_CBOR_MESSAGE_SIZE /\
  (length (put_recycler_urls m) <= MAX_RECYCLER_URLS)%nat /\
  Forall (fun url => validate validate_ori_string url = 0) (put_recycler_urls m) /\
  is_u8 (put_temporary m) /\ is_u64 (put_tuple_size m) /\ is_u8 (put_recycle_ephemeral m).

(** What arrives: without a tuple size the array is one element too short for
    the recycle mode, and its push fails. *)
Definition put_request_received (m : client_api_put_request_t) : client_api_put_request_t := {|
  put_content_type := put_content_type m; put_file_name := put_file_name m;
  put_stream_length := put_stream_length m; put_server_address := put_server_address m;
  put_data := put_data m; put_recycler_urls := put_recycler_urls m; put_temporary := put_temporary m;
  put_has_tuple_size := put_has_tuple_size m; put_tuple_size := put_tuple_size m;
  put_recycle_ephemeral := if put_has_tuple_size m =? 0 then 0 else put_recycle_ephemeral m |}.

Section PutRequestProofs.
Context {C : Cbor} {CL : CborLaws}.

Lemma decode_urls_encode urls : Forall is_url urls -> decode_urls (map _encode_string urls) = DECODED urls.
Proof.
  induction 1 as [|url urls Hu _ IH]; [done|]. cbn [map decode_urls].
  rewrite decode_string_encode by (by apply url_text). rewrite url_valid by done. cbn [reject_if Z.eqb negb].
  cbn [mbind decoded_bind] in *. by rewrite IH.
Qed.

Lemma decode_urls_valid items urls :
  decode_urls items = DECODED urls ->
  length urls = length items /\ Forall (fun url => validate validate_ori_string url = 0) urls.
Proof.
  revert urls. induction items as [|i items IH]; intros urls H; cbn [decode_urls] in H; [by injection H as <-|].
  cbv zeta in H. client_inv H. injection H as <-. destruct (IH _ E0) as [Hl Hf].
  split; [by cbn [length]; rewrite Hl|]. constructor; [|done].
  unfold reject_if in E. by destruct (Z.eqb_spec (validate validate_ori_string (_decode_string i (Z.of_nat OFFS_MAX_ORI_STRING_LEN))) 0).
Qed.

Lemma put_request_shape m :
  put_request_fields m ->
  exists tail,
    client_api_put_request_encode m = cbor_array (
      [cbor_build_uint8 CLIENT_API_PUT_REQUEST; _encode_string (put_content_type m);
       _encode_string (put_file_name m); cbor_build_uint64 (put_stream_length m);
       _encode_string (put_server_address m); cbor_build_bytestring (put_data m);
       cbor_array (map _encode_string (put_recycler_urls m)); cbor_build_uint8 (put_temporary m)] ++ tail) /\
    tail = (if put_has_tuple_size m =? 0 then if put_recycle_ephemeral m =? 0 then [] else [cbor_new_null]
            else cbor_build_uint64 (put_tuple_size m) ::
              if put_recycle_ephemeral m =? 0 then [] else [cbor_build_uint8 (put_recycle_ephemeral m)]).
Proof.
  intros [_ _ _ _ _ _ Ht Hs _]. eexists. split; [|reflexivity].
  unfold client_api_put_request_encode, definite. rewrite (flag_encode _ Ht).
  destruct Hs as [[-> _]|[-> _]]; cbn [Z.eqb negb];
    by destruct (Z.eqb_spec (put_recycle_ephemeral m) 0); cbn [negb].
Qed.

Lemma put_request_arrives m :
  put_request_fields m ->
  client_api_put_request_decode (client_api_put_request_encode m) = DECODED (put_request_received m).
Proof.
  intros Hf. destruct (put_request_shape m Hf) as (tail & -> & Ht).
  destruct Hf as [Hct Hfn [Hl Hl0] Hs [_ Hd] [Hu Hn] Htemp Htup Hr].
  pose proof (validated_content_type _ Hct). pose proof (validated_file_name _ Hfn). pose proof (flag_u8 _ Htemp).
  unfold client_api_put_request_decode. cbn [app]. cbv zeta. client_get.
  rewrite isa_array_build, ?size_array, array_items, length_map, (proj2 (Nat.ltb_ge _ _) Hn).
  cbn [reject_if mbind decoded_bind]. rewrite (decode_urls_encode _ Hu). cbn [mbind decoded_bind].
  client_get. unfold put_request_received. subst tail.
  destruct Htup as [[Hh Hz]|[Hh Hz]]; rewrite Hh, ?Hz; cbn [Z.eqb];
    destruct (Z.eqb_spec (put_recycle_ephemeral m) 0) as [Er|]; rewrite ?Er; cbn [length Nat.leb lookup list_lookup mbind decoded_bind];
    client_get; reflexivity.
Qed.
End PutRequestProofs.

Section PutRequestBounds.
Context {C : Cbor} {CL : CborLaws}.

Lemma put_request_decode_bounds item m : client_api_put_request_decode item = DECODED m -> put_request_bounds m.
Proof.
  unfold client_api_put_request_decode, put_request_bounds. intros H. cbv zeta in H. client_inv H. simplify_eq. simpl.
  apply (if_size_yields (opt_text_bounds (Z.of_nat OFFS_MAX_ORI_STRING_LEN))) in E7;
    [|done|by intros y Hy; client_facts; apply decode_string_bounds].
  apply (if_size_yields (fun d => blen d <= OFFS_MAX_CBOR_MESSAGE_SIZE)) in E8;
    [|done|by intros y Hy; client_inv Hy; case_match; client_facts].
  apply (if_size_yields (fun l => (length l <= MAX_RECYCLER_URLS)%nat /\
    Forall (fun url => validate validate_ori_string url = 0) l)) in E9;
    [|split; [apply Nat.le_0_l|constructor]|].
  2: { intros y Hy. client_inv Hy. case_match; client_facts; [|split; [apply Nat.le_0_l|constructor]].
       apply decode_urls_valid in Hy as [-> Hv]. done. }
  apply (if_size_yields is_u8) in E10; [|by unfold is_u8|by intros y Hy; client_facts].
  apply (if_size_yields (fun o => is_u64 (default 0 o))) in E11; [|by unfold is_u64|].
  2: { intros y Hy. client_inv Hy. case_match; client_facts; [done|by unfold is_u64]. }
  apply (if_size_yields is_u8) in E12; [|by unfold is_u8|].
  2: { intros y Hy. client_inv Hy. case_match; client_facts; [done|by unfold is_u8]. }
  client_facts. destruct E9. client_conj.
Qed.
End PutRequestBounds.

#[export] Instance client_put_request {C : Cbor} {CS : CborSerial} : ClientMsg client_api_put_request_t := {|
  cm_types := [CLIENT_API_PUT_REQUEST];
  cm_encode _ m := Some (client_api_put_request_encode m);
  cm_decode := client_api_put_request_decode;
  cm_ok := put_request_ok;
  cm_bounds := put_request_bounds |}.

Lemma put_request_serializable {C : Cbor} {CS : CborSerial} {CSL : CborSerialLaws} m :
  put_request_fields m -> cbor_serializable (client_api_put_request_encode m).
Proof.
  intros Hf. destruct (put_request_shape m Hf) as (tail & -> & Ht).
  destruct Hf as [Hct Hfn [Hl _] Hs [Hb Hd] [Hu Hn] Htemp Htup Hr].
  apply validated_content_type in Hct. apply validated_file_name in Hfn. apply flag_u8 in Htemp.
  unfold OFFS_MAX_CBOR_MESSAGE_SIZE, blen in Hd. unfold MAX_RECYCLER_URLS in Hn.
  assert (cbor_serializable (cbor_array (map _encode_string (put_recycler_urls m)))) as Hurls.
  { apply serializable_array; [|rewrite length_map; lia]. apply Forall_fmap. eapply Forall_impl; [exact Hu|].
    intros o Ho%url_text. by eapply serializable_opt_text. }
  assert (cbor_serializable cbor_new_null) by apply serializable_null.
  assert (put_has_tuple_size m <> 0 -> is_u64 (put_tuple_size m)) as Htup' by (intros; by destruct Htup as [[]|[]]).
  clear Htup Hu. subst tail. destruct (Z.eqb_spec (put_has_tuple_size m) 0); [|specialize (Htup' ltac:(done))];
    destruct (put_recycle_ephemeral m =? 0); cbn [app]; client_item.
Qed.

#[export] Instance client_put_request_laws {C : Cbor} {CS : CborSerial} {CL : CborLaws} {CSL : CborSerialLaws} :
  ClientMsgLaws client_api_put_request_t.
Proof.
  split.
  - repeat constructor; vm_compute; intuition congruence.
  - intros t m ->%list_elem_of_singleton [Hf _]. destruct (put_request_shape m Hf) as (tail & He & _).
    eexists. cbn [cm_encode client_put_request]. by rewrite He.
  - intros t m item Ht [Hf Hr] [= <-]. cbn [cm_decode client_put_request]. rewrite put_request_arrives by done.
    destruct m as [? ? ? ? ? ? ? has ? rec]. unfold put_request_received. cbn in *.
    destruct (Z.eqb_spec has 0) as [->|]; [|done]. destruct (Z.eq_dec rec 0) as [->|]; [done|]. by destruct Hr.
  - intros t m item Ht [Hf Hr] [= <-]. by apply put_request_serializable.
  - apply put_request_decode_bounds.
Qed.

(** ** PUT data, end and response *)

Record client_api_put_data_t := { put_data_data : bytes }.

Section PutData.
Context {C : Cbor}.

Definition client_api_put_data_encode (msg : client_api_put_data_t) : cbor_item :=
  definite 2 [cbor_build_uint8 CLIENT_API_PUT_DATA; cbor_build_bytestring (put_data_data msg)].

Definition client_api_put_data_decode (item : cbor_item) : decoded client_api_put_data_t :=
  _ ← need item 2;
  data ← require_data item 1;
  DECODED {| put_data_data := data |}.
End PutData.

Definition put_data_ok (m : client_api_put_data_t) : Prop := is_buffer (put_data_data m).
Definition put_data_bounds (m : client_api_put_data_t) : Prop := True.

#[export] Instance client_put_data {C : Cbor} {CS : CborSerial} : ClientMsg client_api_put_data_t := {|
  cm_types := [CLIENT_API_PUT_DATA]; cm_encode _ m := Some (client_api_put_data_encode m); cm_decode := client_api_put_data_decode;
  cm_ok := put_data_ok; cm_bounds := put_data_bounds |}.

#[export] Hint Unfold client_put_data client_api_put_data_encode client_api_put_data_decode put_data_ok put_data_bounds : client.

#[export] Instance client_put_data_laws {C : Cbor} {CS : CborSerial} {CL : CborLaws} {CSL : CborSerialLaws} :
  ClientMsgLaws client_api_put_data_t.
Proof. client_codec. Qed.

#[export] Instance client_put_data_typed {C : Cbor} {CS : CborSerial} : ClientMsgTyped client_api_put_data_t.
Proof. client_typed. Qed.

(** A frame without a payload. *)
Inductive client_api_put_end_t := PUT_END.

Section PutEnd.
Context {C : Cbor}.

Definition client_api_put_end_encode : cbor_item := definite 1 [cbor_build_uint8 CLIENT_API_PUT_END].

Definition client_api_put_end_decode (item : cbor_item) : decoded client_api_put_end_t :=
  _ ← need item 1;
  type_item ← get item 0;
  type ← get_uint8 type_item;
  if type =? CLIENT_API_PUT_END then DECODED PUT_END else REJECTED.
End PutEnd.

#[export] Instance client_put_end {C : Cbor} {CS : CborSerial} : ClientMsg client_api_put_end_t := {|
  cm_types := [CLIENT_API_PUT_END]; cm_encode _ _ := Some client_api_put_end_encode; cm_decode := client_api_put_end_decode;
  cm_ok _ := True; cm_bounds _ := True |}.

#[export] Hint Unfold client_put_end client_api_put_end_encode client_api_put_end_decode : client.

#[export] Instance client_put_end_laws {C : Cbor} {CS : CborSerial} {CL : CborLaws} {CSL : CborSerialLaws} :
  ClientMsgLaws client_api_put_end_t.
Proof. client_codec. Qed.

#[export] Instance client_put_end_typed {C : Cbor} {CS : CborSerial} : ClientMsgTyped client_api_put_end_t.
Proof.
  intros item t Ht ->%list_elem_of_singleton. destruct (get_type_uint item _ Ht) as (i & Hi & Hu & Hg); [done|].
  client_unfold. apply well_typed_bind; [apply need_typed|]. intros _ _. rewrite Hi. cbn [mbind decoded_bind].
  rewrite Hg. discriminate.
Qed.

Record client_api_put_response_t := { put_response_ori_string : option bytes }.

Section PutResponse.
Context {C : Cbor}.

Definition client_api_put_response_encode (msg : client_api_put_response_t) : cbor_item :=
  definite 2 [cbor_build_uint8 CLIENT_API_PUT_RESPONSE; _encode_string (put_response_ori_string msg)].

Definition client_api_put_response_decode (item : cbor_item) : decoded client_api_put_response_t :=
  _ ← need item 2;
  ori ← get item 1;
  DECODED {| put_response_ori_string := _decode_string ori (Z.of_nat OFFS_MAX_ORI_STRING_LEN) |}.
End PutResponse.

Definition put_response_ok (m : client_api_put_response_t) : Prop :=
  is_opt_text (Z.of_nat OFFS_MAX_ORI_STRING_LEN) (put_response_ori_string m).
Definition put_response_bounds (m : client_api_put_response_t) : Prop :=
  opt_text_bounds (Z.of_nat OFFS_MAX_ORI_STRING_LEN) (put_response_ori_string m).

#[export] Instance client_put_response {C : Cbor} {CS : CborSerial} : ClientMsg client_api_put_response_t := {|
  cm_types := [CLIENT_API_PUT_RESPONSE]; cm_encode _ m := Some (client_api_put_response_encode m); cm_decode := client_api_put_response_decode;
  cm_ok := put_response_ok; cm_bounds := put_response_bounds |}.

#[export] Hint Unfold client_put_response client_api_put_response_encode client_api_put_response_decode put_response_ok put_response_bounds : client.

#[export] Instance client_put_response_laws {C : Cbor} {CS : CborSerial} {CL : CborLaws} {CSL : CborSerialLaws} :
  ClientMsgLaws client_api_put_response_t.
Proof. client_codec. Qed.

#[export] Instance client_put_response_typed {C : Cbor} {CS : CborSerial} : ClientMsgTyped client_api_put_response_t.
Proof. client_typed. Qed.

(** ** GET request, response start, data and end *)

Record client_api_get_request_t := {
  get_ori_string : option bytes; get_has_range : Z; get_range_start : Z; get_range_end : Z
}.

Section GetRequest.
Context {C : Cbor}.

Definition client_api_get_request_encode (msg : client_api_get_request_t) : cbor_item :=
  definite (if negb (get_has_range msg =? 0) then 5 else 2)
    ([cbor_build_uint8 CLIENT_API_GET_REQUEST; _encode_string (get_ori_string msg)] ++
     (if negb (get_has_range msg =? 0) then
        [cbor_build_uint8 1; cbor_build_uint64 (get_range_start msg); cbor_build_uint64 (get_range_end msg)]
      else [])).

Definition client_api_get_request_decode (item : cbor_item) : decoded client_api_get_request_t :=
  _ ← need item 2;
  ori ← get item 1;
  let ori_string := _decode_string ori (Z.of_nat OFFS_MAX_ORI_STRING_LEN) in
  _ ← reject_if (negb (validate validate_ori_string ori_string =? 0));
  range ← if_size item 5 (0, 0, 0) (
    has_range ← get item 2;
    has_range ← get_uint8 has_range;
    range_start ← get item 3;
    range_start ← _decode_size range_start;
    range_end ← get item 4;
    range_end ← _decode_size range_end;
    DECODED (has_range, range_start, range_end));
  DECODED {| get_ori_string := ori_string; get_has_range := range.1.1;
             get_range_start := range.1.2; get_range_end := range.2 |}.
End GetRequest.

Definition get_request_ok (m : client_api_get_request_t) : Prop :=
  is_url (get_ori_string m) /\ is_range (get_has_range m) (get_range_start m) (get_range_end m).
Definition get_request_bounds (m : client_api_get_request_t) : Prop :=
  validate validate_ori_string (get_ori_string m) = 0 /\
  is_u8 (get_has_range m) /\ is_u64 (get_range_start m) /\ is_u64 (get_range_end m).

#[export] Instance client_get_request {C : Cbor} {CS : CborSerial} : ClientMsg client_api_get_request_t := {|
  cm_types := [CLIENT_API_GET_REQUEST]; cm_encode _ m := Some (client_api_get_request_encode m); cm_decode := client_api_get_request_decode;
  cm_ok := get_request_ok; cm_bounds := get_request_bounds |}.

#[export] Hint Unfold client_get_request client_api_get_request_encode client_api_get_request_decode get_request_ok get_request_bounds : client.

#[export] Instance client_get_request_laws {C : Cbor} {CS : CborSerial} {CL : CborLaws} {CSL : CborSerialLaws} :
  ClientMsgLaws client_api_get_request_t.
Proof. client_codec. Qed.

Record client_api_get_response_start_t := {
  grs_content_type : option bytes; grs_content_length : Z;
  grs_has_range : Z; grs_range_start : Z; grs_range_end : Z
}.

Section GetResponseStart.
Context {C : Cbor}.

Definition client_api_get_response_start_encode (msg : client_api_get_response_start_t) : cbor_item :=
  definite (if negb (grs_has_range msg =? 0) then 6 else 4)
    ([cbor_build_uint8 CLIENT_API_GET_RESPONSE_START;
      _encode_string (grs_content_type msg);
      cbor_build_uint64 (grs_content_length msg);
      cbor_build_uint8 (grs_has_range msg)] ++
     (if negb (grs_has_range msg =? 0) then
        [cbor_build_uint64 (grs_range_start msg); cbor_build_uint64 (grs_range_end msg)]
      else [])).

Definition client_api_get_response_start_decode (item : cbor_item) : decoded client_api_get_response_start_t :=
  _ ← need item 4;
  content_type ← get item 1;
  let content_type := _decode_string content_type (Z.of_nat OFFS_MAX_CONTENT_TYPE_LEN) in
  _ ← reject_if (negb (validate validate_content_type content_type =? 0));
  content_length ← get item 2;
  content_length ← _decode_size content_length;
  has_range ← get item 3;
  has_range ← get_uint8 has_range;
  range ← if_size item 6 (0, 0) (
    if negb (has_range =? 0) then
      range_start ← get item 4;
      range_start ← _decode_size range_start;
      range_end ← get item 5;
      range_end ← _decode_size range_end;
      DECODED (range_start, range_end)
    else DECODED (0, 0));
  DECODED {| grs_content_type := content_type; grs_content_length := content_length;
             grs_has_range := has_range; grs_range_start := range.1; grs_range_end := range.2 |}.
End GetResponseStart.

Definition get_response_start_ok (m : client_api_get_response_start_t) : Prop :=
  validate validate_content_type (grs_content_type m) = 0 /\ is_u64 (grs_content_length m) /\
  is_range (grs_has_range m) (grs_range_start m) (grs_range_end m).
Definition get_response_start_bounds (m : client_api_get_response_start_t) : Prop :=
  validate validate_content_type (grs_content_type m) = 0 /\ is_u64 (grs_content_length m) /\
  is_u8 (grs_has_range m) /\ is_u64 (grs_range_start m) /\ is_u64 (grs_range_end m).

#[export] Instance client_get_response_start {C : Cbor} {CS : CborSerial} : ClientMsg client_api_get_response_start_t := {|
  cm_types := [CLIENT_API_GET_RESPONSE_START]; cm_encode _ m := Some (client_api_get_response_start_encode m); cm_decode := client_api_get_response_start_decode;
  cm_ok := get_response_start_ok; cm_bounds := get_response_start_bounds |}.

#[export] Hint Unfold client_get_response_start client_api_get_response_start_encode client_api_get_response_start_decode get_response_start_ok get_response_start_bounds : client.

#[export] Instance client_get_response_start_laws {C : Cbor} {CS : CborSerial} {CL : CborLaws} {CSL : CborSerialLaws} :
  ClientMsgLaws client_api_get_response_start_t.
Proof. client_codec. Qed.

Record client_api_get_data_t := { get_data_data : bytes }.

Section GetData.
Context {C : Cbor}.

Definition client_api_get_data_encode (msg : client_api_get_data_t) : cbor_item :=
  definite 2 [cbor_build_uint8 CLIENT_API_GET_DATA; cbor_build_bytestring (get_data_data msg)].

Definition client_api_get_data_decode (item : cbor_item) : decoded client_api_get_data_t :=
  _ ← need item 2;
  data ← require_data item 1;
  DECODED {| get_data_data := data |}.
End GetData.

Definition get_data_ok (m : client_api_get_data_t) : Prop := is_buffer (get_data_data m).
Definition get_data_bounds (m : client_api_get_data_t) : Prop := True.

#[export] Instance client_get_data {C : Cbor} {CS : CborSerial} : ClientMsg client_api_get_data_t := {|
  cm_types := [CLIENT_API_GET_DATA]; cm_encode _ m := Some (client_api_get_data_encode m); cm_decode := client_api_get_data_decode;
  cm_ok := get_data_ok; cm_bounds := get_data_bounds |}.

#[export] Hint Unfold client_get_data client_api_get_data_encode client_api_get_data_decode get_data_ok get_data_bounds : client.

#[export] Instance client_get_data_laws {C : Cbor} {CS : CborSerial} {CL : CborLaws} {CSL : CborSerialLaws} :
  ClientMsgLaws client_api_get_data_t.
Proof. client_codec. Qed.

#[export] Instance client_get_data_typed {C : Cbor} {CS : CborSerial} : ClientMsgTyped client_api_get_data_t.
Proof. client_typed. Qed.

Inductive client_api_get_end_t := GET_END.

Section GetEnd.
Context {C : Cbor}.

Definition client_api_get_end_encode : cbor_item := definite 1 [cbor_build_uint8 CLIENT_API_GET_END].

Definition client_api_get_end_decode (item : cbor_item) : decoded client_api_get_end_t :=
  _ ← need item 1;
  type_item ← get item 0;
  type ← get_uint8 type_item;
  if type =? CLIENT_API_GET_END then DECODED GET_END else REJECTED.
End GetEnd.

#[export] Instance client_get_end {C : Cbor} {CS : CborSerial} : ClientMsg client_api_get_end_t := {|
  cm_types := [CLIENT_API_GET_END]; cm_encode _ _ := Some client_api_get_end_encode; cm_decode := client_api_get_end_decode;
  cm_ok _ := True; cm_bounds _ := True |}.

#[export] Hint Unfold client_get_end client_api_get_end_encode client_api_get_end_decode : client.

#[export] Instance client_get_end_laws {C : Cbor} {CS : CborSerial} {CL : CborLaws} {CSL : CborSerialLaws} :
  ClientMsgLaws client_api_get_end_t.
Proof. client_codec. Qed.

#[export] Instance client_get_end_typed {C : Cbor} {CS : CborSerial} : ClientMsgTyped client_api_get_end_t.
Proof.
  intros item t Ht ->%list_elem_of_singleton. destruct (get_type_uint item _ Ht) as (i & Hi & Hu & Hg); [done|].
  client_unfold. apply well_typed_bind; [apply need_typed|]. intros _ _. rewrite Hi. cbn [mbind decoded_bind].
  rewrite Hg. discriminate.
Qed.

(** ** LOAD request, progress and end *)

Record client_api_load_request_t := {
  load_ori_string : option bytes; load_has_range : Z; load_range_start : Z; load_range_end : Z
}.

Section LoadRequest.
Context {C : Cbor}.

Definition client_api_load_request_encode (msg : client_api_load_request_t) : cbor_item :=
  definite (if negb (load_has_range msg =? 0) then 5 else 2)
    ([cbor_build_uint8 CLIENT_API_LOAD_REQUEST; _encode_string (load_ori_string msg)] ++
     (if negb (load_has_range msg =? 0) then
        [cbor_build_uint8 1; cbor_build_uint64 (load_range_start msg); cbor_build_uint64 (load_range_end msg)]
      else [])).

Definition client_api_load_request_decode (item : cbor_item) : decoded client_api_load_request_t :=
  _ ← need item 2;
  _ ← check_type item (Z.eqb CLIENT_API_LOAD_REQUEST);
  ori ← get item 1;
  let ori_string := _decode_string ori (Z.of_nat OFFS_MAX_ORI_STRING_LEN) in
  _ ← reject_if (negb (validate validate_ori_string ori_string =? 0));
  range ← if_size item 5 (0, 0, 0) (
    range_start ← require_size item 3;
    range_end ← require_size item 4;
    DECODED (1, range_start, range_end));
  DECODED {| load_ori_string := ori_string; load_has_range := range.1.1;
             load_range_start := range.1.2; load_range_end := range.2 |}.
End LoadRequest.

Definition load_request_ok (m : client_api_load_request_t) : Prop :=
  is_url (load_ori_string m) /\ is_range (load_has_range m) (load_range_start m) (load_range_end m).
Definition load_request_bounds (m : client_api_load_request_t) : Prop :=
  validate validate_ori_string (load_ori_string m) = 0 /\
  is_u8 (load_has_range m) /\ is_u64 (load_range_start m) /\ is_u64 (load_range_end m).

#[export] Instance client_load_request {C : Cbor} {CS : CborSerial} : ClientMsg client_api_load_request_t := {|
  cm_types := [CLIENT_API_LOAD_REQUEST]; cm_encode _ m := Some (client_api_load_request_encode m); cm_decode := client_api_load_request_decode;
  cm_ok := load_request_ok; cm_bounds := load_request_bounds |}.

#[export] Hint Unfold client_load_request client_api_load_request_encode client_api_load_request_decode load_request_ok load_request_bounds : client.

#[export] Instance client_load_request_laws {C : Cbor} {CS : CborSerial} {CL : CborLaws} {CSL : CborSerialLaws} :
  ClientMsgLaws client_api_load_request_t.
Proof. client_codec. Qed.

#[export] Instance client_load_request_typed {C : Cbor} {CS : CborSerial} : ClientMsgTyped client_api_load_request_t.
Proof. client_typed. Qed.

(** The arguments of the encoder, which are the results of the decoder. *)
Record client_api_load_progress_t := { progress_loaded : Z; progress_total : Z }.

Section LoadProgress.
Context {C : Cbor}.

Definition client_api_load_progress_encode (msg : client_api_load_progress_t) : cbor_item :=
  definite 3 [cbor_build_uint8 CLIENT_API_LOAD_PROGRESS; cbor_build_uint64 (progress_loaded msg);
    cbor_build_uint64 (progress_total msg)].

Definition client_api_load_progress_decode (item : cbor_item) : decoded client_api_load_progress_t :=
  _ ← need item 3;
  _ ← check_type item (Z.eqb CLIENT_API_LOAD_PROGRESS);
  tuples_loaded ← require_size item 1;
  tuples_total ← require_size item 2;
  DECODED {| progress_loaded := tuples_loaded; progress_total := tuples_total |}.
End LoadProgress.

Definition load_progress_ok (m : client_api_load_progress_t) : Prop :=
  is_u64 (progress_loaded m) /\ is_u64 (progress_total m).
Definition load_progress_bounds (m : client_api_load_progress_t) : Prop :=
  is_u64 (progress_loaded m) /\ is_u64 (progress_total m).

#[export] Instance client_load_progress {C : Cbor} {CS : CborSerial} : ClientMsg client_api_load_progress_t := {|
  cm_types := [CLIENT_API_LOAD_PROGRESS]; cm_encode _ m := Some (client_api_load_progress_encode m); cm_decode := client_api_load_progress_decode;
  cm_ok := load_progress_ok; cm_bounds := load_progress_bounds |}.

#[export] Hint Unfold client_load_progress client_api_load_progress_encode client_api_load_progress_decode load_progress_ok load_progress_bounds : client.

#[export] Instance client_load_progress_laws {C : Cbor} {CS : CborSerial} {CL : CborLaws} {CSL : CborSerialLaws} :
  ClientMsgLaws client_api_load_progress_t.
Proof. client_codec. Qed.

#[export] Instance client_load_progress_typed {C : Cbor} {CS : CborSerial} : ClientMsgTyped client_api_load_progress_t.
Proof. client_typed. Qed.

Record client_api_load_end_t := { load_end_status : Z; load_end_loaded : Z; load_end_total : Z }.

Section LoadEnd.
Context {C : Cbor}.

Definition client_api_load_end_encode (msg : client_api_load_end_t) : cbor_item :=
  definite 4 [cbor_build_uint8 CLIENT_API_LOAD_END; cbor_build_uint8 (load_end_status msg);
    cbor_build_uint64 (load_end_loaded msg); cbor_build_uint64 (load_end_total msg)].

Definition client_api_load_end_decode (item : cbor_item) : decoded client_api_load_end_t :=
  _ ← need item 4;
  _ ← check_type item (Z.eqb CLIENT_API_LOAD_END);
  status ← require_uint8 item 1;
  tuples_loaded ← require_size item 2;
  tuples_total ← require_size item 3;
  DECODED {| load_end_status := status; load_end_loaded := tuples_loaded; load_end_total := tuples_total |}.
End LoadEnd.

Definition load_end_ok (m : client_api_load_end_t) : Prop :=
  is_u8 (load_end_status m) /\ is_u64 (load_end_loaded m) /\ is_u64 (load_end_total m).
Definition load_end_bounds (m : client_api_load_end_t) : Prop :=
  is_u8 (load_end_status m) /\ is_u64 (load_end_loaded m) /\ is_u64 (load_end_total m).

#[export] Instance client_load_end {C : Cbor} {CS : CborSerial} : ClientMsg client_api_load_end_t := {|
  cm_types := [CLIENT_API_LOAD_END]; cm_encode _ m := Some (client_api_load_end_encode m); cm_decode := client_api_load_end_decode;
  cm_ok := load_end_ok; cm_bounds := load_end_bounds |}.

#[export] Hint Unfold client_load_end client_api_load_end_encode client_api_load_end_decode load_end_ok load_end_bounds : client.

#[export] Instance client_load_end_laws {C : Cbor} {CS : CborSerial} {CL : CborLaws} {CSL : CborSerialLaws} :
  ClientMsgLaws client_api_load_end_t.
Proof. client_codec. Qed.

#[export] Instance client_load_end_typed {C : Cbor} {CS : CborSerial} : ClientMsgTyped client_api_load_end_t.
Proof. client_typed. Qed.

(** ** Errors *)

Record client_api_error_t := { error_status_code : Z; error_message : option bytes }.

Section Error.
Context {C : Cbor}.

Definition client_api_error_encode (msg : client_api_error_t) : cbor_item :=
  definite 3 [cbor_build_uint8 CLIENT_API_ERROR; cbor_build_uint8 (error_status_code msg);
    _encode_string (error_message msg)].

Definition client_api_error_decode (item : cbor_item) : decoded client_api_error_t :=
  _ ← need item 3;
  status_code ← get item 1;
  status_code ← get_uint8 status_code;
  message ← get item 2;
  DECODED {| error_status_code := status_code; error_message := _decode_string message 1024 |}.
End Error.

Definition error_ok (m : client_api_error_t) : Prop :=
  is_u8 (error_status_code m) /\ is_opt_text 1024 (error_message m).
Definition error_bounds (m : client_api_error_t) : Prop :=
  is_u8 (error_status_code m) /\ opt_text_bounds 1024 (error_message m).

#[export] Instance client_error {C : Cbor} {CS : CborSerial} : ClientMsg client_api_error_t := {|
  cm_types := [CLIENT_API_ERROR]; cm_encode _ m := Some (client_api_error_encode m); cm_decode := client_api_error_decode;
  cm_ok := error_ok; cm_bounds := error_bounds |}.

#[export] Hint Unfold client_error client_api_error_encode client_api_error_decode error_ok error_bounds : client.

#[export] Instance client_error_laws {C : Cbor} {CS : CborSerial} {CL : CborLaws} {CSL : CborSerialLaws} :
  ClientMsgLaws client_api_error_t.
Proof. client_codec. Qed.

(** ** Authentication *)

Record client_api_auth_request_t := { auth_api_key : bytes }.

Section AuthRequest.
Context {C : Cbor}.

Definition client_api_auth_request_encode (auth : client_api_auth_request_t) : cbor_item :=
  definite 2 [cbor_build_uint8 CLIENT_API_AUTH_REQUEST; cbor_build_bytestring (auth_api_key auth)].

Definition client_api_auth_request_decode (item : cbor_item) : decoded client_api_auth_request_t :=
  _ ← need item 2;
  _ ← check_type item (Z.eqb CLIENT_API_AUTH_REQUEST);
  key_item ← get item 1;
  match _decode_bytestring key_item with
  | None => REJECTED
  | Some api_key =>
      _ ← reject_if (blen api_key =? 0);
      DECODED {| auth_api_key := api_key |}
  end.
End AuthRequest.

Definition auth_request_ok (m : client_api_auth_request_t) : Prop :=
  is_buffer (auth_api_key m) /\ blen (auth_api_key m) <> 0.
Definition auth_request_bounds (m : client_api_auth_request_t) : Prop := blen (auth_api_key m) <> 0.

#[export] Instance client_auth_request {C : Cbor} {CS : CborSerial} : ClientMsg client_api_auth_request_t := {|
  cm_types := [CLIENT_API_AUTH_REQUEST]; cm_encode _ m := Some (client_api_auth_request_encode m); cm_decode := client_api_auth_request_decode;
  cm_ok := auth_request_ok; cm_bounds := auth_request_bounds |}.

#[export] Hint Unfold client_auth_request client_api_auth_request_encode client_api_auth_request_decode auth_request_ok auth_request_bounds : client.

#[export] Instance client_auth_request_laws {C : Cbor} {CS : CborSerial} {CL : CborLaws} {CSL : CborSerialLaws} :
  ClientMsgLaws client_api_auth_request_t.
Proof. client_codec. Qed.

#[export] Instance client_auth_request_typed {C : Cbor} {CS : CborSerial} : ClientMsgTyped client_api_auth_request_t.
Proof. client_typed. Qed.
