(* ===== verification/ClientApiBlock.v ===== *)
(** * ClientApiBlock: block and cache operations over the client protocol

    Models the codecs of src/src/ClientAPI/client_api_wire.c (structures in
    client_api_wire.h) for storing, fetching and deleting single blocks and for
    resizing the block cache. *)

From S2P Require Import Prelude Cbor WireBase OffUrl ClientApiBase.
Local Open Scope Z_scope.

(** ** Block PUT *)

Record client_api_block_put_request_t := { bput_data : bytes; bput_encoding : Z }.

Section BlockPutRequest.
Context {C : Cbor}.

Definition client_api_block_put_request_encode (msg : client_api_block_put_request_t) : cbor_item :=
  definite 3 [cbor_build_uint8 CLIENT_API_BLOCK_PUT_REQUEST; cbor_build_bytestring (bput_data msg);
    cbor_build_uint8 (bput_encoding msg)].

Definition client_api_block_put_request_decode (item : cbor_item) : decoded client_api_block_put_request_t :=
  _ ← need item 2;
  data ← require_data item 1;
  _ ← reject_if ((blen data =? 0) || (MAX_BLOCK_PAYLOAD <? blen data));
  encoding ← if_size item 3 0 (optional_uint8 item 2);
  DECODED {| bput_data := data; bput_encoding := encoding |}.
End BlockPutRequest.

Definition block_put_request_ok (m : client_api_block_put_request_t) : Prop :=
  is_payload MAX_BLOCK_PAYLOAD (bput_data m) /\ blen (bput_data m) <> 0 /\ is_u8 (bput_encoding m).
Definition block_put_request_bounds (m : client_api_block_put_request_t) : Prop :=
  blen (bput_data m) <> 0 /\ blen (bput_data m) <= MAX_BLOCK_PAYLOAD /\ is_u8 (bput_encoding m).

#[export] Instance client_block_put_request {C : Cbor} {CS : CborSerial} : ClientMsg client_api_block_put_request_t := {|
  cm_types := [CLIENT_API_BLOCK_PUT_REQUEST]; cm_encode _ m := Some (client_api_block_put_request_encode m); cm_decode := client_api_block_put_request_decode;
  cm_ok := block_put_request_ok; cm_bounds := block_put_request_bounds |}.

#[export] Hint Unfold client_block_put_request client_api_block_put_request_encode client_api_block_put_request_decode block_put_request_ok block_put_request_bounds : client.

#[export] Instance client_block_put_request_laws {C : Cbor} {CS : CborSerial} {CL : CborLaws} {CSL : CborSerialLaws} :
  ClientMsgLaws client_api_block_put_request_t.
Proof. client_codec. Qed.

#[export] Instance client_block_put_request_typed {C : Cbor} {CS : CborSerial} : ClientMsgTyped client_api_block_put_request_t.
Proof. client_typed. Qed.

Record client_api_block_put_response_t := { bputr_status : Z; bputr_hash : bytes; bputr_hash_is_text : Z }.

Section BlockPutResponse.
Context {C : Cbor}.

(** A text hash is written up to its terminator. *)
Definition client_api_block_put_response_encode (msg : client_api_block_put_response_t) : cbor_item :=
  definite 3 [cbor_build_uint8 CLIENT_API_BLOCK_PUT_RESPONSE; cbor_build_uint8 (bputr_status msg);
    if negb (bputr_hash_is_text msg =? 0) then cbor_build_string (cstr (bputr_hash msg))
    else cbor_build_bytestring (bputr_hash msg)].

Definition client_api_block_put_response_decode (item : cbor_item) : decoded client_api_block_put_response_t :=
  _ ← need item 3;
  status_item ← get item 1;
  status ← get_uint8 status_item;
  hash_item ← get item 2;
  if cbor_isa_string hash_item then
    DECODED {| bputr_status := status; bputr_hash := cbor_string_handle hash_item; bputr_hash_is_text := 1 |}
  else if cbor_isa_bytestring hash_item then
    DECODED {| bputr_status := status; bputr_hash := cbor_bytestring_handle hash_item; bputr_hash_is_text := 0 |}
  else REJECTED.
End BlockPutResponse.

Definition block_put_response_ok (m : client_api_block_put_response_t) : Prop :=
  is_u8 (bputr_status m) /\ is_buffer (bputr_hash m) /\
  (bputr_hash_is_text m = 0 \/ (bputr_hash_is_text m = 1 /\ is_cstring (bputr_hash m))).
Definition block_put_response_bounds (m : client_api_block_put_response_t) : Prop :=
  is_u8 (bputr_status m) /\ is_flag (bputr_hash_is_text m).

#[export] Instance client_block_put_response {C : Cbor} {CS : CborSerial} : ClientMsg client_api_block_put_response_t := {|
  cm_types := [CLIENT_API_BLOCK_PUT_RESPONSE]; cm_encode _ m := Some (client_api_block_put_response_encode m); cm_decode := client_api_block_put_response_decode;
  cm_ok := block_put_response_ok; cm_bounds := block_put_response_bounds |}.

#[export] Hint Unfold client_block_put_response client_api_block_put_response_encode client_api_block_put_response_decode block_put_response_ok block_put_response_bounds : client.

#[export] Instance client_block_put_response_laws {C : Cbor} {CS : CborSerial} {CL : CborLaws} {CSL : CborSerialLaws} :
  ClientMsgLaws client_api_block_put_response_t.
Proof.
  split; [client_type_bytes|client_encodes| | |client_bounds; by (left + right)].
  - intros t m item Ht Hok. client_start Ht Hok. intros [= <-].
    destruct_or?; destruct_and?; match goal with E : bputr_hash_is_text m = _ |- _ => rewrite E end;
      cbn [Z.eqb negb]; client_get; [rewrite isa_string_bytestring; client_get|]; destruct m; simpl in *; by subst.
  - intros t m item Ht Hok. client_start Ht Hok. intros [= <-].
    destruct_or?; destruct_and?; match goal with E : bputr_hash_is_text m = _ |- _ => rewrite E end;
      cbn [Z.eqb negb]; rewrite ?cstr_id by done; client_item. Qed.

(** ** Block GET *)

Record client_api_block_get_request_t := { bget_hash : bytes }.

Section BlockGetRequest.
Context {C : Cbor}.

Definition client_api_block_get_request_encode (msg : client_api_block_get_request_t) : cbor_item :=
  definite 2 [cbor_build_uint8 CLIENT_API_BLOCK_GET_REQUEST; cbor_build_bytestring (bget_hash msg)].

Definition client_api_block_get_request_decode (item : cbor_item) : decoded client_api_block_get_request_t :=
  _ ← need item 2;
  hash_item ← get item 1;
  match _decode_bytestring hash_item with
  | None => REJECTED
  | Some hash_data =>
      _ ← reject_if (negb (blen hash_data =? 32));
      DECODED {| bget_hash := hash_data |}
  end.
End BlockGetRequest.

Definition block_get_request_ok (m : client_api_block_get_request_t) : Prop := is_hash (bget_hash m).
Definition block_get_request_bounds (m : client_api_block_get_request_t) : Prop := blen (bget_hash m) = 32.

#[export] Instance client_block_get_request {C : Cbor} {CS : CborSerial} : ClientMsg client_api_block_get_request_t := {|
  cm_types := [CLIENT_API_BLOCK_GET_REQUEST]; cm_encode _ m := Some (client_api_block_get_request_encode m); cm_decode := client_api_block_get_request_decode;
  cm_ok := block_get_request_ok; cm_bounds := block_get_request_bounds |}.

#[export] Hint Unfold client_block_get_request client_api_block_get_request_encode client_api_block_get_request_decode block_get_request_ok block_get_request_bounds : client.

#[export] Instance client_block_get_request_laws {C : Cbor} {CS : CborSerial} {CL : CborLaws} {CSL : CborSerialLaws} :
  ClientMsgLaws client_api_block_get_request_t.
Proof. client_codec. Qed.

#[export] Instance client_block_get_request_typed {C : Cbor} {CS : CborSerial} : ClientMsgTyped client_api_block_get_request_t.
Proof. client_typed. Qed.

Record client_api_block_get_response_t := { bgetr_status : Z; bgetr_data : bytes }.

Section BlockGetResponse.
Context {C : Cbor}.

Definition client_api_block_get_response_encode (msg : client_api_block_get_response_t) : cbor_item :=
  definite 3 [cbor_build_uint8 CLIENT_API_BLOCK_GET_RESPONSE; cbor_build_uint8 (bgetr_status msg);
    cbor_build_bytestring (bgetr_data msg)].

Definition client_api_block_get_response_decode (item : cbor_item) : decoded client_api_block_get_response_t :=
  _ ← need item 3;
  status_item ← get item 1;
  status ← get_uint8 status_item;
  data_item ← get item 2;
  if negb (cbor_is_null data_item) && cbor_isa_bytestring data_item then
    let data := cbor_bytestring_handle data_item in
    _ ← reject_if (MAX_BLOCK_PAYLOAD <? blen data);
    DECODED {| bgetr_status := status; bgetr_data := data |}
  else DECODED {| bgetr_status := status; bgetr_data := [] |}.
End BlockGetResponse.

Definition block_get_response_ok (m : client_api_block_get_response_t) : Prop :=
  is_u8 (bgetr_status m) /\ is_payload MAX_BLOCK_PAYLOAD (bgetr_data m).
Definition block_get_response_bounds (m : client_api_block_get_response_t) : Prop :=
  is_u8 (bgetr_status m) /\ blen (bgetr_data m) <= MAX_BLOCK_PAYLOAD.

#[export] Instance client_block_get_response {C : Cbor} {CS : CborSerial} : ClientMsg client_api_block_get_response_t := {|
  cm_types := [CLIENT_API_BLOCK_GET_RESPONSE]; cm_encode _ m := Some (client_api_block_get_response_encode m); cm_decode := client_api_block_get_response_decode;
  cm_ok := block_get_response_ok; cm_bounds := block_get_response_bounds |}.

#[export] Hint Unfold client_block_get_response client_api_block_get_response_encode client_api_block_get_response_decode block_get_response_ok block_get_response_bounds : client.

#[export] Instance client_block_get_response_laws {C : Cbor} {CS : CborSerial} {CL : CborLaws} {CSL : CborSerialLaws} :
  ClientMsgLaws client_api_block_get_response_t.
Proof. client_codec. Qed.

(** ** Block DELETE *)

Record client_api_block_delete_request_t := { bdel_hash : bytes; bdel_force : Z }.

Section BlockDeleteRequest.
Context {C : Cbor}.

Definition client_api_block_delete_request_encode (msg : client_api_block_delete_request_t) : cbor_item :=
  definite (if negb (bdel_force msg =? 0) then 3 else 2)
    ([cbor_build_uint8 CLIENT_API_BLOCK_DELETE_REQUEST; cbor_build_bytestring (bdel_hash msg)] ++
     (if negb (bdel_force msg =? 0) then [cbor_build_uint8 1] else [])).

Definition client_api_block_delete_request_decode (item : cbor_item) : decoded client_api_block_delete_request_t :=
  _ ← need item 2;
  hash_item ← get item 1;
  match _decode_bytestring hash_item with
  | None => REJECTED
  | Some hash_data =>
      _ ← reject_if (negb (blen hash_data =? 32));
      force ← if_size item 3 0 (
        force ← optional_int item 2;
        DECODED (if negb (force =? 0) then 1 else 0));
      DECODED {| bdel_hash := hash_data; bdel_force := force |}
  end.
End BlockDeleteRequest.

Definition block_delete_request_ok (m : client_api_block_delete_request_t) : Prop :=
  is_hash (bdel_hash m) /\ is_flag (bdel_force m).
Definition block_delete_request_bounds (m : client_api_block_delete_request_t) : Prop :=
  blen (bdel_hash m) = 32 /\ is_flag (bdel_force m).

#[export] Instance client_block_delete_request {C : Cbor} {CS : CborSerial} : ClientMsg client_api_block_delete_request_t := {|
  cm_types := [CLIENT_API_BLOCK_DELETE_REQUEST]; cm_encode _ m := Some (client_api_block_delete_request_encode m); cm_decode := client_api_block_delete_request_decode;
  cm_ok := block_delete_request_ok; cm_bounds := block_delete_request_bounds |}.

#[export] Hint Unfold client_block_delete_request client_api_block_delete_request_encode client_api_block_delete_request_decode block_delete_request_ok block_delete_request_bounds : client.

#[export] Instance client_block_delete_request_laws {C : Cbor} {CS : CborSerial} {CL : CborLaws} {CSL : CborSerialLaws} :
  ClientMsgLaws client_api_block_delete_request_t.
Proof. client_codec. Qed.

#[export] Instance client_block_delete_request_typed {C : Cbor} {CS : CborSerial} : ClientMsgTyped client_api_block_delete_request_t.
Proof. client_typed. Qed.

Record client_api_block_delete_response_t := { bdelr_status : Z }.

Section BlockDeleteResponse.
Context {C : Cbor}.

Definition client_api_block_delete_response_encode (msg : client_api_block_delete_response_t) : cbor_item :=
  definite 2 [cbor_build_uint8 CLIENT_API_BLOCK_DELETE_RESPONSE; cbor_build_uint8 (bdelr_status msg)].

Definition client_api_block_delete_response_decode (item : cbor_item) : decoded client_api_block_delete_response_t :=
  _ ← need item 2;
  status_item ← get item 1;
  status ← get_uint8 status_item;
  DECODED {| bdelr_status := status |}.
End BlockDeleteResponse.

Definition block_delete_response_ok (m : client_api_block_delete_response_t) : Prop := is_u8 (bdelr_status m).
Definition block_delete_response_bounds (m : client_api_block_delete_response_t) : Prop := is_u8 (bdelr_status m).

#[export] Instance client_block_delete_response {C : Cbor} {CS : CborSerial} : ClientMsg client_api_block_delete_response_t := {|
  cm_types := [CLIENT_API_BLOCK_DELETE_RESPONSE]; cm_encode _ m := Some (client_api_block_delete_response_encode m); cm_decode := client_api_block_delete_response_decode;
  cm_ok := block_delete_response_ok; cm_bounds := block_delete_response_bounds |}.

#[export] Hint Unfold client_block_delete_response client_api_block_delete_response_encode client_api_block_delete_response_decode block_delete_response_ok block_delete_response_bounds : client.

#[export] Instance client_block_delete_response_laws {C : Cbor} {CS : CborSerial} {CL : CborLaws} {CSL : CborSerialLaws} :
  ClientMsgLaws client_api_block_delete_response_t.
Proof. client_codec. Qed.

(** ** Cache resize *)

Record client_api_cache_resize_request_t := { resize_capacity_bytes : Z }.

Section CacheResizeRequest.
Context {C : Cbor}.

Definition client_api_cache_resize_request_encode (msg : client_api_cache_resize_request_t) : cbor_item :=
  definite 2 [cbor_build_uint8 CLIENT_API_CACHE_RESIZE_REQUEST; cbor_build_uint64 (resize_capacity_bytes msg)].

Definition client_api_cache_resize_request_decode (item : cbor_item) : decoded client_api_cache_resize_request_t :=
  _ ← need_exactly item 2;
  capacity_bytes ← optional_int item 1;
  _ ← reject_if (capacity_bytes =? 0);
  DECODED {| resize_capacity_bytes := capacity_bytes |}.
End CacheResizeRequest.

Definition cache_resize_request_ok (m : client_api_cache_resize_request_t) : Prop :=
  is_u64 (resize_capacity_bytes m) /\ resize_capacity_bytes m <> 0.
Definition cache_resize_request_bounds (m : client_api_cache_resize_request_t) : Prop :=
  is_u64 (resize_capacity_bytes m) /\ resize_capacity_bytes m <> 0.

#[export] Instance client_cache_resize_request {C : Cbor} {CS : CborSerial} : ClientMsg client_api_cache_resize_request_t := {|
  cm_types := [CLIENT_API_CACHE_RESIZE_REQUEST]; cm_encode _ m := Some (client_api_cache_resize_request_encode m); cm_decode := client_api_cache_resize_request_decode;
  cm_ok := cache_resize_request_ok; cm_bounds := cache_resize_request_bounds |}.

#[export] Hint Unfold client_cache_resize_request client_api_cache_resize_request_encode client_api_cache_resize_request_decode cache_resize_request_ok cache_resize_request_bounds : client.

#[export] Instance client_cache_resize_request_laws {C : Cbor} {CS : CborSerial} {CL : CborLaws} {CSL : CborSerialLaws} :
  ClientMsgLaws client_api_cache_resize_request_t.
Proof. client_codec. Qed.

#[export] Instance client_cache_resize_request_typed {C : Cbor} {CS : CborSerial} : ClientMsgTyped client_api_cache_resize_request_t.
Proof. client_typed. Qed.

Record client_api_cache_resize_response_t := {
  resizer_status : Z; resizer_applied_live : Z; resizer_max_capacity_bytes : Z; resizer_current_bytes : Z
}.

Section CacheResizeResponse.
Context {C : Cbor}.

Definition client_api_cache_resize_response_encode (msg : client_api_cache_resize_response_t) : cbor_item :=
  definite 5 [cbor_build_uint8 CLIENT_API_CACHE_RESIZE_RESPONSE; cbor_build_uint8 (resizer_status msg);
    cbor_build_uint8 (resizer_applied_live msg); cbor_build_uint64 (resizer_max_capacity_bytes msg);
    cbor_build_uint64 (resizer_current_bytes msg)].

Definition client_api_cache_resize_response_decode (item : cbor_item) : decoded client_api_cache_resize_response_t :=
  _ ← need item 5;
  status_item ← get item 1;
  status ← get_uint8 status_item;
  live_item ← get item 2;
  applied_live ← get_uint8 live_item;
  max_capacity_bytes ← optional_int item 3;
  current_bytes ← optional_int item 4;
  DECODED {| resizer_status := status; resizer_applied_live := applied_live;
             resizer_max_capacity_bytes := max_capacity_bytes; resizer_current_bytes := current_bytes |}.
End CacheResizeResponse.

Definition cache_resize_response_ok (m : client_api_cache_resize_response_t) : Prop :=
  is_u8 (resizer_status m) /\ is_u8 (resizer_applied_live m) /\
  is_u64 (resizer_max_capacity_bytes m) /\ is_u64 (resizer_current_bytes m).
Definition cache_resize_response_bounds (m : client_api_cache_resize_response_t) : Prop :=
  is_u8 (resizer_status m) /\ is_u8 (resizer_applied_live m) /\
  is_u64 (resizer_max_capacity_bytes m) /\ is_u64 (resizer_current_bytes m).

#[export] Instance client_cache_resize_response {C : Cbor} {CS : CborSerial} : ClientMsg client_api_cache_resize_response_t := {|
  cm_types := [CLIENT_API_CACHE_RESIZE_RESPONSE]; cm_encode _ m := Some (client_api_cache_resize_response_encode m); cm_decode := client_api_cache_resize_response_decode;
  cm_ok := cache_resize_response_ok; cm_bounds := cache_resize_response_bounds |}.

#[export] Hint Unfold client_cache_resize_response client_api_cache_resize_response_encode client_api_cache_resize_response_decode cache_resize_response_ok cache_resize_response_bounds : client.

#[export] Instance client_cache_resize_response_laws {C : Cbor} {CS : CborSerial} {CL : CborLaws} {CSL : CborSerialLaws} :
  ClientMsgLaws client_api_cache_resize_response_t.
Proof. client_codec. Qed.
