(* ===== verification/ClientApiAdmin.v ===== *)
(** * ClientApiAdmin: administration over the client protocol

    Models the codecs of src/src/ClientAPI/client_api_wire.c (structures in
    client_api_wire.h) for health and update reports, peers, friends, bootstrap
    entries and the configuration.  Requests without a payload have an encoder
    only; the daemon recognises them by their type. *)

From S2P Require Import Prelude Cbor WireBase OffUrl ClientApiBase.
Local Open Scope Z_scope.

(** ** Health and update status *)

Definition client_api_health_request_encode {C : Cbor} : cbor_item := definite 1 [cbor_build_uint8 CLIENT_API_HEALTH_REQUEST].

Record client_api_health_response_t := { health_json_data : option bytes }.

Section HealthResponse.
Context {C : Cbor}.

Definition client_api_health_response_encode (msg : client_api_health_response_t) : cbor_item :=
  definite 2 [cbor_build_uint8 CLIENT_API_HEALTH_RESPONSE; _encode_string (health_json_data msg)].

Definition client_api_health_response_decode (item : cbor_item) : decoded client_api_health_response_t :=
  _ ← need item 2;
  _ ← check_type item (Z.eqb CLIENT_API_HEALTH_RESPONSE);
  json_data ← decode_text item 1;
  DECODED {| health_json_data := Some json_data |}.
End HealthResponse.

Definition health_response_ok (m : client_api_health_response_t) : Prop := is_free_text (health_json_data m).
Definition health_response_bounds (m : client_api_health_response_t) : Prop := free_text_bounds (health_json_data m).

#[export] Instance client_health_response {C : Cbor} {CS : CborSerial} : ClientMsg client_api_health_response_t := {|
  cm_types := [CLIENT_API_HEALTH_RESPONSE]; cm_encode _ m := Some (client_api_health_response_encode m); cm_decode := client_api_health_response_decode;
  cm_ok := health_response_ok; cm_bounds := health_response_bounds |}.

#[export] Hint Unfold client_health_response client_api_health_response_encode client_api_health_response_decode health_response_ok health_response_bounds : client.

#[export] Instance client_health_response_laws {C : Cbor} {CS : CborSerial} {CL : CborLaws} {CSL : CborSerialLaws} :
  ClientMsgLaws client_api_health_response_t.
Proof. client_codec. Qed.

#[export] Instance client_health_response_typed {C : Cbor} {CS : CborSerial} : ClientMsgTyped client_api_health_response_t.
Proof. client_typed. Qed.

Definition client_api_update_status_request_encode {C : Cbor} : cbor_item := definite 1 [cbor_build_uint8 CLIENT_API_UPDATE_STATUS_REQUEST].

Record client_api_update_status_response_t := { update_json_data : option bytes }.

Section UpdateStatusResponse.
Context {C : Cbor}.

Definition client_api_update_status_response_encode (msg : client_api_update_status_response_t) : cbor_item :=
  definite 2 [cbor_build_uint8 CLIENT_API_UPDATE_STATUS_RESPONSE; _encode_string (update_json_data msg)].

Definition client_api_update_status_response_decode (item : cbor_item) : decoded client_api_update_status_response_t :=
  _ ← need item 2;
  _ ← check_type item (Z.eqb CLIENT_API_UPDATE_STATUS_RESPONSE);
  json_data ← decode_text item 1;
  DECODED {| update_json_data := Some json_data |}.
End UpdateStatusResponse.

Definition update_status_response_ok (m : client_api_update_status_response_t) : Prop := is_free_text (update_json_data m).
Definition update_status_response_bounds (m : client_api_update_status_response_t) : Prop := free_text_bounds (update_json_data m).

#[export] Instance client_update_status_response {C : Cbor} {CS : CborSerial} : ClientMsg client_api_update_status_response_t := {|
  cm_types := [CLIENT_API_UPDATE_STATUS_RESPONSE]; cm_encode _ m := Some (client_api_update_status_response_encode m); cm_decode := client_api_update_status_response_decode;
  cm_ok := update_status_response_ok; cm_bounds := update_status_response_bounds |}.

#[export] Hint Unfold client_update_status_response client_api_update_status_response_encode client_api_update_status_response_decode update_status_response_ok update_status_response_bounds : client.

#[export] Instance client_update_status_response_laws {C : Cbor} {CS : CborSerial} {CL : CborLaws} {CSL : CborSerialLaws} :
  ClientMsgLaws client_api_update_status_response_t.
Proof. client_codec. Qed.

#[export] Instance client_update_status_response_typed {C : Cbor} {CS : CborSerial} : ClientMsgTyped client_api_update_status_response_t.
Proof. client_typed. Qed.

(** ** Peers *)

Record client_api_peer_info_request_t := { pir_format : Z }.

Section PeerInfoRequest.
Context {C : Cbor}.

Definition client_api_peer_info_request_encode_format (format : Z) : option cbor_item :=
  if 2 <? format then None else
  Some (definite (if format =? 0 then 1 else 2)
    ([cbor_build_uint8 CLIENT_API_PEER_INFO_REQUEST] ++
     (if negb (format =? 0) then [cbor_build_uint8 format] else []))).

Definition client_api_peer_info_request_encode : option cbor_item := client_api_peer_info_request_encode_format 0.

Definition client_api_peer_info_request_decode (item : cbor_item) : decoded client_api_peer_info_request_t :=
  _ ← reject_if (negb (cbor_isa_array item));
  let size := cbor_array_size item in
  _ ← reject_if ((size <? 1)%nat || (2 <? size)%nat);
  _ ← check_type item (Z.eqb CLIENT_API_PEER_INFO_REQUEST);
  if (size =? 2)%nat then
    format ← require_uint8 item 1;
    _ ← reject_if (2 <? format);
    DECODED {| pir_format := format |}
  else DECODED {| pir_format := 0 |}.
End PeerInfoRequest.

Definition peer_info_request_ok (m : client_api_peer_info_request_t) : Prop :=
  pir_format m = 0 \/ pir_format m = 1 \/ pir_format m = 2.
Definition peer_info_request_bounds (m : client_api_peer_info_request_t) : Prop := 0 <= pir_format m <= 2.

#[export] Instance client_peer_info_request {C : Cbor} {CS : CborSerial} : ClientMsg client_api_peer_info_request_t := {|
  cm_types := [CLIENT_API_PEER_INFO_REQUEST];
  cm_encode _ m := client_api_peer_info_request_encode_format (pir_format m);
  cm_decode := client_api_peer_info_request_decode;
  cm_ok := peer_info_request_ok; cm_bounds := peer_info_request_bounds |}.

#[export] Hint Unfold client_peer_info_request client_api_peer_info_request_encode_format
  client_api_peer_info_request_decode peer_info_request_ok peer_info_request_bounds : client.

#[export] Instance client_peer_info_request_laws
  {C : Cbor} {CS : CborSerial} {CL : CborLaws} {CSL : CborSerialLaws} :
  ClientMsgLaws client_api_peer_info_request_t.
Proof.
  split; [client_type_bytes| | | |].
  - intros t [f] ->%list_elem_of_singleton Hok. client_unfold. cbn [pir_format] in *.
    destruct Hok as [->|[->| ->]]; eexists; reflexivity.
  - intros t [f] item Ht Hok. client_unfold. cbn [pir_format] in *.
    destruct Hok as [->|[->| ->]]; unfold definite; cbn [Z.ltb Z.compare Z.eqb negb take app]; intros [= <-];
      rewrite isa_array_build; client_get; done.
  - intros t [f] item Ht Hok. client_unfold. cbn [pir_format] in *.
    destruct Hok as [->|[->| ->]]; unfold definite; cbn [Z.ltb Z.compare Z.eqb negb take app]; intros [= <-];
      client_item.
  - client_bounds; unfold is_u8 in *; lia.
Qed.

#[export] Instance client_peer_info_request_typed {C : Cbor} {CS : CborSerial} :
  ClientMsgTyped client_api_peer_info_request_t.
Proof.
  intros item t _ _. client_unfold. cbv zeta. apply well_typed_bind; [apply reject_if_typed|]. intros _ _.
  apply well_typed_bind; [apply reject_if_typed|].
  intros _ [Hs%Nat.ltb_ge _]%reject_if_DECODED%orb_false_iff.
  apply well_typed_bind; [by apply check_type_typed|]. intros _ _.
  destruct (Nat.eqb_spec (cbor_array_size item) 2) as [E|]; [|discriminate].
  apply well_typed_bind; [apply require_uint8_typed; lia|]. intros f _. by destruct (2 <? f).
Qed.

Record client_api_peer_info_response_t := { pinfo_format : Z; pinfo_data : bytes }.

Section PeerInfoResponse.
Context {C : Cbor}.

Definition client_api_peer_info_response_encode (msg : client_api_peer_info_response_t) : cbor_item :=
  definite 3 [cbor_build_uint8 CLIENT_API_PEER_INFO_RESPONSE; cbor_build_uint8 (pinfo_format msg); cbor_build_bytestring (pinfo_data msg)].

Definition client_api_peer_info_response_decode (item : cbor_item) : decoded client_api_peer_info_response_t :=
  _ ← need item 3;
  _ ← check_type item (Z.eqb CLIENT_API_PEER_INFO_RESPONSE);
  format ← require_uint8 item 1;
  data ← require_data item 2;
  _ ← reject_if (CLIENT_API_PEER_INFO_MAX_PAYLOAD <? blen data);
  DECODED {| pinfo_format := format; pinfo_data := data |}.
End PeerInfoResponse.

Definition peer_info_response_ok (m : client_api_peer_info_response_t) : Prop :=
  is_u8 (pinfo_format m) /\ is_payload CLIENT_API_PEER_INFO_MAX_PAYLOAD (pinfo_data m).
Definition peer_info_response_bounds (m : client_api_peer_info_response_t) : Prop :=
  is_u8 (pinfo_format m) /\ blen (pinfo_data m) <= CLIENT_API_PEER_INFO_MAX_PAYLOAD.

#[export] Instance client_peer_info_response {C : Cbor} {CS : CborSerial} : ClientMsg client_api_peer_info_response_t := {|
  cm_types := [CLIENT_API_PEER_INFO_RESPONSE]; cm_encode _ m := Some (client_api_peer_info_response_encode m); cm_decode := client_api_peer_info_response_decode;
  cm_ok := peer_info_response_ok; cm_bounds := peer_info_response_bounds |}.

#[export] Hint Unfold client_peer_info_response client_api_peer_info_response_encode client_api_peer_info_response_decode peer_info_response_ok peer_info_response_bounds : client.

#[export] Instance client_peer_info_response_laws {C : Cbor} {CS : CborSerial} {CL : CborLaws} {CSL : CborSerialLaws} :
  ClientMsgLaws client_api_peer_info_response_t.
Proof. client_codec. Qed.

#[export] Instance client_peer_info_response_typed {C : Cbor} {CS : CborSerial} : ClientMsgTyped client_api_peer_info_response_t.
Proof. client_typed. Qed.

Record client_api_peer_connect_t := { pconn_format : Z; pconn_data : bytes }.

Section PeerConnect.
Context {C : Cbor}.

Definition client_api_peer_connect_encode (msg : client_api_peer_connect_t) : cbor_item :=
  definite 3 [cbor_build_uint8 CLIENT_API_PEER_CONNECT; cbor_build_uint8 (pconn_format msg); cbor_build_bytestring (pconn_data msg)].

Definition client_api_peer_connect_decode (item : cbor_item) : decoded client_api_peer_connect_t :=
  _ ← need item 3;
  _ ← check_type item (Z.eqb CLIENT_API_PEER_CONNECT);
  format ← require_uint8 item 1;
  data ← require_data item 2;
  _ ← reject_if (CLIENT_API_PEER_INFO_MAX_PAYLOAD <? blen data);
  DECODED {| pconn_format := format; pconn_data := data |}.
End PeerConnect.

Definition peer_connect_ok (m : client_api_peer_connect_t) : Prop :=
  is_u8 (pconn_format m) /\ is_payload CLIENT_API_PEER_INFO_MAX_PAYLOAD (pconn_data m).
Definition peer_connect_bounds (m : client_api_peer_connect_t) : Prop :=
  is_u8 (pconn_format m) /\ blen (pconn_data m) <= CLIENT_API_PEER_INFO_MAX_PAYLOAD.

#[export] Instance client_peer_connect {C : Cbor} {CS : CborSerial} : ClientMsg client_api_peer_connect_t := {|
  cm_types := [CLIENT_API_PEER_CONNECT]; cm_encode _ m := Some (client_api_peer_connect_encode m); cm_decode := client_api_peer_connect_decode;
  cm_ok := peer_connect_ok; cm_bounds := peer_connect_bounds |}.

#[export] Hint Unfold client_peer_connect client_api_peer_connect_encode client_api_peer_connect_decode peer_connect_ok peer_connect_bounds : client.

#[export] Instance client_peer_connect_laws {C : Cbor} {CS : CborSerial} {CL : CborLaws} {CSL : CborSerialLaws} :
  ClientMsgLaws client_api_peer_connect_t.
Proof. client_codec. Qed.

#[export] Instance client_peer_connect_typed {C : Cbor} {CS : CborSerial} : ClientMsgTyped client_api_peer_connect_t.
Proof. client_typed. Qed.

Record client_api_peer_connect_result_t := { pconnr_status : Z }.

Section PeerConnectResult.
Context {C : Cbor}.

Definition client_api_peer_connect_result_encode (msg : client_api_peer_connect_result_t) : cbor_item :=
  definite 2 [cbor_build_uint8 CLIENT_API_PEER_CONNECT_RESULT; cbor_build_uint8 (pconnr_status msg)].

Definition client_api_peer_connect_result_decode (item : cbor_item) : decoded client_api_peer_connect_result_t :=
  _ ← need item 2;
  _ ← check_type item (Z.eqb CLIENT_API_PEER_CONNECT_RESULT);
  status ← require_uint8 item 1;
  DECODED {| pconnr_status := status |}.
End PeerConnectResult.

Definition peer_connect_result_ok (m : client_api_peer_connect_result_t) : Prop := is_u8 (pconnr_status m).
Definition peer_connect_result_bounds (m : client_api_peer_connect_result_t) : Prop := is_u8 (pconnr_status m).

#[export] Instance client_peer_connect_result {C : Cbor} {CS : CborSerial} : ClientMsg client_api_peer_connect_result_t := {|
  cm_types := [CLIENT_API_PEER_CONNECT_RESULT]; cm_encode _ m := Some (client_api_peer_connect_result_encode m); cm_decode := client_api_peer_connect_result_decode;
  cm_ok := peer_connect_result_ok; cm_bounds := peer_connect_result_bounds |}.

#[export] Hint Unfold client_peer_connect_result client_api_peer_connect_result_encode client_api_peer_connect_result_decode peer_connect_result_ok peer_connect_result_bounds : client.

#[export] Instance client_peer_connect_result_laws {C : Cbor} {CS : CborSerial} {CL : CborLaws} {CSL : CborSerialLaws} :
  ClientMsgLaws client_api_peer_connect_result_t.
Proof. client_codec. Qed.

#[export] Instance client_peer_connect_result_typed {C : Cbor} {CS : CborSerial} : ClientMsgTyped client_api_peer_connect_result_t.
Proof. client_typed. Qed.

Definition client_api_peer_list_request_encode {C : Cbor} : cbor_item := definite 1 [cbor_build_uint8 CLIENT_API_PEER_LIST_REQUEST].

Record client_api_peer_list_response_t {C : Cbor} := { peers : option cbor_item }.

Section PeerListResponse.
Context {C : Cbor}.

Definition client_api_peer_list_response_encode (msg : client_api_peer_list_response_t) : cbor_item :=
  definite 2 [cbor_build_uint8 CLIENT_API_PEER_LIST_RESPONSE; default (cbor_array []) (peers msg)].

Definition client_api_peer_list_response_decode (item : cbor_item) : decoded client_api_peer_list_response_t :=
  _ ← need item 2;
  _ ← check_type item (Z.eqb CLIENT_API_PEER_LIST_RESPONSE);
  peers ← get item 1;
  DECODED {| peers := Some peers |}.
End PeerListResponse.

Definition peer_list_response_ok {C : Cbor} {CS : CborSerial} (m : client_api_peer_list_response_t) : Prop := is_listing (peers m).
Definition peer_list_response_bounds {C : Cbor} (m : client_api_peer_list_response_t) : Prop := is_Some (peers m).

#[export] Instance client_peer_list_response {C : Cbor} {CS : CborSerial} : ClientMsg client_api_peer_list_response_t := {|
  cm_types := [CLIENT_API_PEER_LIST_RESPONSE]; cm_encode _ m := Some (client_api_peer_list_response_encode m); cm_decode := client_api_peer_list_response_decode;
  cm_ok := peer_list_response_ok; cm_bounds := peer_list_response_bounds |}.

#[export] Hint Unfold client_peer_list_response client_api_peer_list_response_encode client_api_peer_list_response_decode peer_list_response_ok peer_list_response_bounds : client.

#[export] Instance client_peer_list_response_laws {C : Cbor} {CS : CborSerial} {CL : CborLaws} {CSL : CborSerialLaws} :
  ClientMsgLaws client_api_peer_list_response_t.
Proof. client_codec. Qed.

#[export] Instance client_peer_list_response_typed {C : Cbor} {CS : CborSerial} : ClientMsgTyped client_api_peer_list_response_t.
Proof. client_typed. Qed.

(** ** Friends *)

Record client_api_friend_add_t := { fadd_format : Z; fadd_data : bytes }.

Section FriendAdd.
Context {C : Cbor}.

Definition client_api_friend_add_encode (msg : client_api_friend_add_t) : cbor_item :=
  definite 3 [cbor_build_uint8 CLIENT_API_FRIEND_ADD; cbor_build_uint8 (fadd_format msg); cbor_build_bytestring (fadd_data msg)].

Definition client_api_friend_add_decode (item : cbor_item) : decoded client_api_friend_add_t :=
  _ ← need item 3;
  _ ← check_type item (Z.eqb CLIENT_API_FRIEND_ADD);
  format ← require_uint8 item 1;
  data ← require_data item 2;
  _ ← reject_if (CLIENT_API_PEER_INFO_MAX_PAYLOAD <? blen data);
  DECODED {| fadd_format := format; fadd_data := data |}.
End FriendAdd.

Definition friend_add_ok (m : client_api_friend_add_t) : Prop :=
  is_u8 (fadd_format m) /\ is_payload CLIENT_API_PEER_INFO_MAX_PAYLOAD (fadd_data m).
Definition friend_add_bounds (m : client_api_friend_add_t) : Prop :=
  is_u8 (fadd_format m) /\ blen (fadd_data m) <= CLIENT_API_PEER_INFO_MAX_PAYLOAD.

#[export] Instance client_friend_add {C : Cbor} {CS : CborSerial} : ClientMsg client_api_friend_add_t := {|
  cm_types := [CLIENT_API_FRIEND_ADD]; cm_encode _ m := Some (client_api_friend_add_encode m); cm_decode := client_api_friend_add_decode;
  cm_ok := friend_add_ok; cm_bounds := friend_add_bounds |}.

#[export] Hint Unfold client_friend_add client_api_friend_add_encode client_api_friend_add_decode friend_add_ok friend_add_bounds : client.

#[export] Instance client_friend_add_laws {C : Cbor} {CS : CborSerial} {CL : CborLaws} {CSL : CborSerialLaws} :
  ClientMsgLaws client_api_friend_add_t.
Proof. client_codec. Qed.

#[export] Instance client_friend_add_typed {C : Cbor} {CS : CborSerial} : ClientMsgTyped client_api_friend_add_t.
Proof. client_typed. Qed.

Record client_api_friend_remove_t := { fremove_node_id : bytes }.

Section FriendRemove.
Context {C : Cbor}.

Definition client_api_friend_remove_encode (msg : client_api_friend_remove_t) : cbor_item :=
  definite 2 [cbor_build_uint8 CLIENT_API_FRIEND_REMOVE; cbor_build_bytestring (fremove_node_id msg)].

Definition client_api_friend_remove_decode (item : cbor_item) : decoded client_api_friend_remove_t :=
  _ ← need item 2;
  _ ← check_type item (Z.eqb CLIENT_API_FRIEND_REMOVE);
  node_id_item ← get item 1;
  match _decode_bytestring node_id_item with
  | None => REJECTED
  | Some node_id =>
      _ ← reject_if (blen node_id =? 0);
      DECODED {| fremove_node_id := node_id |}
  end.
End FriendRemove.

Definition friend_remove_ok (m : client_api_friend_remove_t) : Prop :=
  is_buffer (fremove_node_id m) /\ blen (fremove_node_id m) <> 0.
Definition friend_remove_bounds (m : client_api_friend_remove_t) : Prop := blen (fremove_node_id m) <> 0.

#[export] Instance client_friend_remove {C : Cbor} {CS : CborSerial} : ClientMsg client_api_friend_remove_t := {|
  cm_types := [CLIENT_API_FRIEND_REMOVE]; cm_encode _ m := Some (client_api_friend_remove_encode m); cm_decode := client_api_friend_remove_decode;
  cm_ok := friend_remove_ok; cm_bounds := friend_remove_bounds |}.

#[export] Hint Unfold client_friend_remove client_api_friend_remove_encode client_api_friend_remove_decode friend_remove_ok friend_remove_bounds : client.

#[export] Instance client_friend_remove_laws {C : Cbor} {CS : CborSerial} {CL : CborLaws} {CSL : CborSerialLaws} :
  ClientMsgLaws client_api_friend_remove_t.
Proof. client_codec. Qed.

#[export] Instance client_friend_remove_typed {C : Cbor} {CS : CborSerial} : ClientMsgTyped client_api_friend_remove_t.
Proof. client_typed. Qed.

Definition client_api_friend_list_request_encode {C : Cbor} : cbor_item := definite 1 [cbor_build_uint8 CLIENT_API_FRIEND_LIST].

Record client_api_friend_list_response_t {C : Cbor} := { friends : option cbor_item }.

Section FriendListResponse.
Context {C : Cbor}.

Definition client_api_friend_list_response_encode (msg : client_api_friend_list_response_t) : cbor_item :=
  definite 2 [cbor_build_uint8 CLIENT_API_FRIEND_LIST_RESPONSE; default (cbor_array []) (friends msg)].

Definition client_api_friend_list_response_decode (item : cbor_item) : decoded client_api_friend_list_response_t :=
  _ ← need item 2;
  _ ← check_type item (Z.eqb CLIENT_API_FRIEND_LIST_RESPONSE);
  friends ← get item 1;
  DECODED {| friends := Some friends |}.
End FriendListResponse.

Definition friend_list_response_ok {C : Cbor} {CS : CborSerial} (m : client_api_friend_list_response_t) : Prop := is_listing (friends m).
Definition friend_list_response_bounds {C : Cbor} (m : client_api_friend_list_response_t) : Prop := is_Some (friends m).

#[export] Instance client_friend_list_response {C : Cbor} {CS : CborSerial} : ClientMsg client_api_friend_list_response_t := {|
  cm_types := [CLIENT_API_FRIEND_LIST_RESPONSE]; cm_encode _ m := Some (client_api_friend_list_response_encode m); cm_decode := client_api_friend_list_response_decode;
  cm_ok := friend_list_response_ok; cm_bounds := friend_list_response_bounds |}.

#[export] Hint Unfold client_friend_list_response client_api_friend_list_response_encode client_api_friend_list_response_decode friend_list_response_ok friend_list_response_bounds : client.

#[export] Instance client_friend_list_response_laws {C : Cbor} {CS : CborSerial} {CL : CborLaws} {CSL : CborSerialLaws} :
  ClientMsgLaws client_api_friend_list_response_t.
Proof. client_codec. Qed.

#[export] Instance client_friend_list_response_typed {C : Cbor} {CS : CborSerial} : ClientMsgTyped client_api_friend_list_response_t.
Proof. client_typed. Qed.

(** ** Bootstrap entries *)

Record client_api_bootstrap_add_t := { badd_endpoint : option bytes }.

Section BootstrapAdd.
Context {C : Cbor}.

Definition client_api_bootstrap_add_encode (msg : client_api_bootstrap_add_t) : cbor_item :=
  definite 2 [cbor_build_uint8 CLIENT_API_BOOTSTRAP_ADD; _encode_string (badd_endpoint msg)].

Definition client_api_bootstrap_add_decode (item : cbor_item) : decoded client_api_bootstrap_add_t :=
  _ ← need item 2;
  _ ← check_type item (Z.eqb CLIENT_API_BOOTSTRAP_ADD);
  endpoint_item ← get item 1;
  match _decode_string endpoint_item 256 with
  | None => REJECTED
  | Some endpoint => DECODED {| badd_endpoint := Some endpoint |}
  end.
End BootstrapAdd.

Definition bootstrap_add_ok (m : client_api_bootstrap_add_t) : Prop := is_endpoint (badd_endpoint m).
Definition bootstrap_add_bounds (m : client_api_bootstrap_add_t) : Prop := endpoint_bounds (badd_endpoint m).

#[export] Instance client_bootstrap_add {C : Cbor} {CS : CborSerial} : ClientMsg client_api_bootstrap_add_t := {|
  cm_types := [CLIENT_API_BOOTSTRAP_ADD]; cm_encode _ m := Some (client_api_bootstrap_add_encode m); cm_decode := client_api_bootstrap_add_decode;
  cm_ok := bootstrap_add_ok; cm_bounds := bootstrap_add_bounds |}.

#[export] Hint Unfold client_bootstrap_add client_api_bootstrap_add_encode client_api_bootstrap_add_decode bootstrap_add_ok bootstrap_add_bounds : client.

#[export] Instance client_bootstrap_add_laws {C : Cbor} {CS : CborSerial} {CL : CborLaws} {CSL : CborSerialLaws} :
  ClientMsgLaws client_api_bootstrap_add_t.
Proof. client_codec. Qed.

#[export] Instance client_bootstrap_add_typed {C : Cbor} {CS : CborSerial} : ClientMsgTyped client_api_bootstrap_add_t.
Proof. client_typed. Qed.

Record client_api_bootstrap_remove_t := { bremove_endpoint : option bytes }.

Section BootstrapRemove.
Context {C : Cbor}.

Definition client_api_bootstrap_remove_encode (msg : client_api_bootstrap_remove_t) : cbor_item :=
  definite 2 [cbor_build_uint8 CLIENT_API_BOOTSTRAP_REMOVE; _encode_string (bremove_endpoint msg)].

Definition client_api_bootstrap_remove_decode (item : cbor_item) : decoded client_api_bootstrap_remove_t :=
  _ ← need item 2;
  _ ← check_type item (Z.eqb CLIENT_API_BOOTSTRAP_REMOVE);
  endpoint_item ← get item 1;
  match _decode_string endpoint_item 256 with
  | None => REJECTED
  | Some endpoint => DECODED {| bremove_endpoint := Some endpoint |}
  end.
End BootstrapRemove.

Definition bootstrap_remove_ok (m : client_api_bootstrap_remove_t) : Prop := is_endpoint (bremove_endpoint m).
Definition bootstrap_remove_bounds (m : client_api_bootstrap_remove_t) : Prop := endpoint_bounds (bremove_endpoint m).

#[export] Instance client_bootstrap_remove {C : Cbor} {CS : CborSerial} : ClientMsg client_api_bootstrap_remove_t := {|
  cm_types := [CLIENT_API_BOOTSTRAP_REMOVE]; cm_encode _ m := Some (client_api_bootstrap_remove_encode m); cm_decode := client_api_bootstrap_remove_decode;
  cm_ok := bootstrap_remove_ok; cm_bounds := bootstrap_remove_bounds |}.

#[export] Hint Unfold client_bootstrap_remove client_api_bootstrap_remove_encode client_api_bootstrap_remove_decode bootstrap_remove_ok bootstrap_remove_bounds : client.

#[export] Instance client_bootstrap_remove_laws {C : Cbor} {CS : CborSerial} {CL : CborLaws} {CSL : CborSerialLaws} :
  ClientMsgLaws client_api_bootstrap_remove_t.
Proof. client_codec. Qed.

#[export] Instance client_bootstrap_remove_typed {C : Cbor} {CS : CborSerial} : ClientMsgTyped client_api_bootstrap_remove_t.
Proof. client_typed. Qed.

Definition client_api_bootstrap_list_request_encode {C : Cbor} : cbor_item := definite 1 [cbor_build_uint8 CLIENT_API_BOOTSTRAP_LIST].

Record client_api_bootstrap_list_response_t {C : Cbor} := { bootstrap_entries : option cbor_item }.

Section BootstrapListResponse.
Context {C : Cbor}.

Definition client_api_bootstrap_list_response_encode (msg : client_api_bootstrap_list_response_t) : cbor_item :=
  definite 2 [cbor_build_uint8 CLIENT_API_BOOTSTRAP_LIST_RESPONSE; default (cbor_array []) (bootstrap_entries msg)].

Definition client_api_bootstrap_list_response_decode (item : cbor_item) : decoded client_api_bootstrap_list_response_t :=
  _ ← need item 2;
  _ ← check_type item (Z.eqb CLIENT_API_BOOTSTRAP_LIST_RESPONSE);
  bootstrap_entries ← get item 1;
  DECODED {| bootstrap_entries := Some bootstrap_entries |}.
End BootstrapListResponse.

Definition bootstrap_list_response_ok {C : Cbor} {CS : CborSerial} (m : client_api_bootstrap_list_response_t) : Prop := is_listing (bootstrap_entries m).
Definition bootstrap_list_response_bounds {C : Cbor} (m : client_api_bootstrap_list_response_t) : Prop := is_Some (bootstrap_entries m).

#[export] Instance client_bootstrap_list_response {C : Cbor} {CS : CborSerial} : ClientMsg client_api_bootstrap_list_response_t := {|
  cm_types := [CLIENT_API_BOOTSTRAP_LIST_RESPONSE]; cm_encode _ m := Some (client_api_bootstrap_list_response_encode m); cm_decode := client_api_bootstrap_list_response_decode;
  cm_ok := bootstrap_list_response_ok; cm_bounds := bootstrap_list_response_bounds |}.

#[export] Hint Unfold client_bootstrap_list_response client_api_bootstrap_list_response_encode client_api_bootstrap_list_response_decode bootstrap_list_response_ok bootstrap_list_response_bounds : client.

#[export] Instance client_bootstrap_list_response_laws {C : Cbor} {CS : CborSerial} {CL : CborLaws} {CSL : CborSerialLaws} :
  ClientMsgLaws client_api_bootstrap_list_response_t.
Proof. client_codec. Qed.

#[export] Instance client_bootstrap_list_response_typed {C : Cbor} {CS : CborSerial} : ClientMsgTyped client_api_bootstrap_list_response_t.
Proof. client_typed. Qed.

(** ** Configuration *)

Definition client_api_config_show_request_encode {C : Cbor} : cbor_item := definite 1 [cbor_build_uint8 CLIENT_API_CONFIG_SHOW_REQUEST].

Record client_api_config_show_response_t := { config_json_data : option bytes }.

Section ConfigShowResponse.
Context {C : Cbor}.

Definition client_api_config_show_response_encode (msg : client_api_config_show_response_t) : cbor_item :=
  definite 2 [cbor_build_uint8 CLIENT_API_CONFIG_SHOW_RESPONSE; _encode_string (config_json_data msg)].

Definition client_api_config_show_response_decode (item : cbor_item) : decoded client_api_config_show_response_t :=
  _ ← need item 2;
  _ ← check_type item (Z.eqb CLIENT_API_CONFIG_SHOW_RESPONSE);
  json_data ← decode_text item 1;
  DECODED {| config_json_data := Some json_data |}.
End ConfigShowResponse.

Definition config_show_response_ok (m : client_api_config_show_response_t) : Prop := is_free_text (config_json_data m).
Definition config_show_response_bounds (m : client_api_config_show_response_t) : Prop := free_text_bounds (config_json_data m).

#[export] Instance client_config_show_response {C : Cbor} {CS : CborSerial} : ClientMsg client_api_config_show_response_t := {|
  cm_types := [CLIENT_API_CONFIG_SHOW_RESPONSE]; cm_encode _ m := Some (client_api_config_show_response_encode m); cm_decode := client_api_config_show_response_decode;
  cm_ok := config_show_response_ok; cm_bounds := config_show_response_bounds |}.

#[export] Hint Unfold client_config_show_response client_api_config_show_response_encode client_api_config_show_response_decode config_show_response_ok config_show_response_bounds : client.

#[export] Instance client_config_show_response_laws {C : Cbor} {CS : CborSerial} {CL : CborLaws} {CSL : CborSerialLaws} :
  ClientMsgLaws client_api_config_show_response_t.
Proof. client_codec. Qed.

#[export] Instance client_config_show_response_typed {C : Cbor} {CS : CborSerial} : ClientMsgTyped client_api_config_show_response_t.
Proof. client_typed. Qed.

Record client_api_config_set_request_t := { cset_field : option bytes; cset_value : option bytes }.

Section ConfigSetRequest.
Context {C : Cbor}.

Definition client_api_config_set_request_encode (msg : client_api_config_set_request_t) : cbor_item :=
  definite 3 [cbor_build_uint8 CLIENT_API_CONFIG_SET_REQUEST; _encode_string (cset_field msg);
    _encode_string (cset_value msg)].

Definition client_api_config_set_request_decode (item : cbor_item) : decoded client_api_config_set_request_t :=
  _ ← need item 3;
  _ ← check_type item (Z.eqb CLIENT_API_CONFIG_SET_REQUEST);
  field ← decode_text item 1;
  value ← decode_text item 2;
  DECODED {| cset_field := Some field; cset_value := Some value |}.
End ConfigSetRequest.

Definition config_set_request_ok (m : client_api_config_set_request_t) : Prop :=
  is_free_text (cset_field m) /\ is_free_text (cset_value m).
Definition config_set_request_bounds (m : client_api_config_set_request_t) : Prop :=
  free_text_bounds (cset_field m) /\ free_text_bounds (cset_value m).

#[export] Instance client_config_set_request {C : Cbor} {CS : CborSerial} : ClientMsg client_api_config_set_request_t := {|
  cm_types := [CLIENT_API_CONFIG_SET_REQUEST]; cm_encode _ m := Some (client_api_config_set_request_encode m); cm_decode := client_api_config_set_request_decode;
  cm_ok := config_set_request_ok; cm_bounds := config_set_request_bounds |}.

#[export] Hint Unfold client_config_set_request client_api_config_set_request_encode client_api_config_set_request_decode config_set_request_ok config_set_request_bounds : client.

#[export] Instance client_config_set_request_laws {C : Cbor} {CS : CborSerial} {CL : CborLaws} {CSL : CborSerialLaws} :
  ClientMsgLaws client_api_config_set_request_t.
Proof. client_codec. Qed.

#[export] Instance client_config_set_request_typed {C : Cbor} {CS : CborSerial} : ClientMsgTyped client_api_config_set_request_t.
Proof. client_typed. Qed.

Record client_api_config_set_response_t := {
  csetr_status : Z; csetr_restart_required : Z; csetr_message : option bytes
}.

Section ConfigSetResponse.
Context {C : Cbor}.

Definition client_api_config_set_response_encode (msg : client_api_config_set_response_t) : cbor_item :=
  definite 4 [cbor_build_uint8 CLIENT_API_CONFIG_SET_RESPONSE; cbor_build_uint8 (csetr_status msg);
    cbor_build_uint8 (if negb (csetr_restart_required msg =? 0) then 1 else 0);
    _encode_string (csetr_message msg)].

Definition client_api_config_set_response_decode (item : cbor_item) : decoded client_api_config_set_response_t :=
  _ ← need item 4;
  _ ← check_type item (Z.eqb CLIENT_API_CONFIG_SET_RESPONSE);
  status ← optional_uint8 item 1;
  restart_required ← optional_uint8 item 2;
  message ← decode_text item 3;
  DECODED {| csetr_status := status; csetr_restart_required := if negb (restart_required =? 0) then 1 else 0;
             csetr_message := Some message |}.
End ConfigSetResponse.

Definition config_set_response_ok (m : client_api_config_set_response_t) : Prop :=
  is_u8 (csetr_status m) /\ is_flag (csetr_restart_required m) /\ is_free_text (csetr_message m).
Definition config_set_response_bounds (m : client_api_config_set_response_t) : Prop :=
  is_u8 (csetr_status m) /\ is_flag (csetr_restart_required m) /\ free_text_bounds (csetr_message m).

#[export] Instance client_config_set_response {C : Cbor} {CS : CborSerial} : ClientMsg client_api_config_set_response_t := {|
  cm_types := [CLIENT_API_CONFIG_SET_RESPONSE]; cm_encode _ m := Some (client_api_config_set_response_encode m); cm_decode := client_api_config_set_response_decode;
  cm_ok := config_set_response_ok; cm_bounds := config_set_response_bounds |}.

#[export] Hint Unfold client_config_set_response client_api_config_set_response_encode client_api_config_set_response_decode config_set_response_ok config_set_response_bounds : client.

#[export] Instance client_config_set_response_laws {C : Cbor} {CS : CborSerial} {CL : CborLaws} {CSL : CborSerialLaws} :
  ClientMsgLaws client_api_config_set_response_t.
Proof. client_codec. Qed.

#[export] Instance client_config_set_response_typed {C : Cbor} {CS : CborSerial} : ClientMsgTyped client_api_config_set_response_t.
Proof. client_typed. Qed.

Definition client_api_config_reload_request_encode {C : Cbor} : cbor_item := definite 1 [cbor_build_uint8 CLIENT_API_CONFIG_RELOAD_REQUEST].

Record client_api_config_reload_response_t := { creload_status : Z; creload_message : option bytes }.

Section ConfigReloadResponse.
Context {C : Cbor}.

Definition client_api_config_reload_response_encode (msg : client_api_config_reload_response_t) : cbor_item :=
  definite 3 [cbor_build_uint8 CLIENT_API_CONFIG_RELOAD_RESPONSE; cbor_build_uint8 (creload_status msg);
    _encode_string (creload_message msg)].

Definition client_api_config_reload_response_decode (item : cbor_item) : decoded client_api_config_reload_response_t :=
  _ ← need item 3;
  _ ← check_type item (Z.eqb CLIENT_API_CONFIG_RELOAD_RESPONSE);
  status ← optional_uint8 item 1;
  message ← decode_text item 2;
  DECODED {| creload_status := status; creload_message := Some message |}.
End ConfigReloadResponse.

Definition config_reload_response_ok (m : client_api_config_reload_response_t) : Prop :=
  is_u8 (creload_status m) /\ is_free_text (creload_message m).
Definition config_reload_response_bounds (m : client_api_config_reload_response_t) : Prop :=
  is_u8 (creload_status m) /\ free_text_bounds (creload_message m).

#[export] Instance client_config_reload_response {C : Cbor} {CS : CborSerial} : ClientMsg client_api_config_reload_response_t := {|
  cm_types := [CLIENT_API_CONFIG_RELOAD_RESPONSE]; cm_encode _ m := Some (client_api_config_reload_response_encode m); cm_decode := client_api_config_reload_response_decode;
  cm_ok := config_reload_response_ok; cm_bounds := config_reload_response_bounds |}.

#[export] Hint Unfold client_config_reload_response client_api_config_reload_response_encode client_api_config_reload_response_decode config_reload_response_ok config_reload_response_bounds : client.

#[export] Instance client_config_reload_response_laws {C : Cbor} {CS : CborSerial} {CL : CborLaws} {CSL : CborSerialLaws} :
  ClientMsgLaws client_api_config_reload_response_t.
Proof. client_codec. Qed.

#[export] Instance client_config_reload_response_typed {C : Cbor} {CS : CborSerial} : ClientMsgTyped client_api_config_reload_response_t.
Proof. client_typed. Qed.
