(* ===== verification/ClientApiOps.v ===== *)
(** * ClientApiOps: representations, ephemeral blocks and garbage collection

    Models the codecs of src/src/ClientAPI/client_api_wire.c (structures in
    client_api_wire.h) for the operations on a whole representation, the list
    of ephemeral blocks and the garbage collector. *)

From S2P Require Import Prelude Cbor WireBase OffUrl ClientApiBase.
Local Open Scope Z_scope.

(** ** Representation operations: one layout for four operations *)

Definition rep_request_types : list Z :=
  [CLIENT_API_REP_MARK_PERMANENT_REQUEST; CLIENT_API_REP_DELETE_EPHEMERAL_REQUEST;
   CLIENT_API_REP_PIN_REQUEST; CLIENT_API_REP_UNPIN_REQUEST].

Definition _rep_request_type_valid (type : Z) : bool := bool_decide (type ∈ rep_request_types).

Record client_api_rep_request_t := { rep_url : option bytes }.

Section RepRequest.
Context {C : Cbor}.

Definition client_api_rep_request_encode (op_code : Z) (msg : client_api_rep_request_t) : option cbor_item :=
  if negb (_rep_request_type_valid (u8 op_code)) then None else
  Some (definite 2 [cbor_build_uint8 (u8 op_code); _encode_string (rep_url msg)]).

Definition client_api_rep_request_decode (item : cbor_item) : decoded client_api_rep_request_t :=
  _ ← need item 2;
  _ ← check_type item _rep_request_type_valid;
  url_item ← get item 1;
  let url := _decode_string url_item (Z.of_nat OFFS_MAX_ORI_STRING_LEN) in
  _ ← reject_if (negb (validate validate_ori_string url =? 0));
  DECODED {| rep_url := url |}.
End RepRequest.

Definition rep_request_ok (m : client_api_rep_request_t) : Prop := is_url (rep_url m).
Definition rep_request_bounds (m : client_api_rep_request_t) : Prop := validate validate_ori_string (rep_url m) = 0.

#[export] Instance client_rep_request {C : Cbor} {CS : CborSerial} : ClientMsg client_api_rep_request_t := {|
  cm_types := rep_request_types; cm_encode := client_api_rep_request_encode; cm_decode := client_api_rep_request_decode;
  cm_ok := rep_request_ok; cm_bounds := rep_request_bounds |}.

#[export] Hint Unfold client_rep_request client_api_rep_request_encode client_api_rep_request_decode rep_request_ok rep_request_bounds : client.

Lemma rep_request_type t : t ∈ rep_request_types -> u8 t = t /\ is_u8 t /\ _rep_request_type_valid t = true.
Proof. unfold rep_request_types. rewrite !elem_of_cons, elem_of_nil. intros Ht. by destruct_or! Ht; subst. Qed.

#[export] Instance client_rep_request_laws {C : Cbor} {CS : CborSerial} {CL : CborLaws} {CSL : CborSerialLaws} :
  ClientMsgLaws client_api_rep_request_t.
Proof.
  split; [client_type_bytes| | | |client_bounds].
  - intros t m (Hu & _ & Hv)%rep_request_type Hok. client_unfold. rewrite Hu, Hv. eexists. reflexivity.
  - intros t m item (Hu & Ht & Hv)%rep_request_type Hok. client_unfold. destruct_and? Hok. rewrite Hu, Hv.
    intros [= <-]. unfold definite; cbn [negb take]. client_get. rewrite Hv. cbn [negb reject_if mbind decoded_bind].
    client_get. by destruct m.
  - intros t m item (Hu & Ht & Hv)%rep_request_type Hok. client_unfold. destruct_and? Hok. rewrite Hu, Hv.
    intros [= <-]. rewrite ?flag_encode by assumption. unfold definite; cbn [negb take]. client_item.
Qed.

#[export] Instance client_rep_request_typed {C : Cbor} {CS : CborSerial} : ClientMsgTyped client_api_rep_request_t.
Proof. client_typed. Qed.

Definition rep_response_types : list Z :=
  [CLIENT_API_REP_MARK_PERMANENT_RESPONSE; CLIENT_API_REP_DELETE_EPHEMERAL_RESPONSE;
   CLIENT_API_REP_PIN_RESPONSE; CLIENT_API_REP_UNPIN_RESPONSE].

Definition _rep_response_type_valid (type : Z) : bool := bool_decide (type ∈ rep_response_types).

Record client_api_rep_response_t := { rep_status : Z; rep_blocks : Z }.

Section RepResponse.
Context {C : Cbor}.

Definition client_api_rep_response_encode (op_code : Z) (msg : client_api_rep_response_t) : option cbor_item :=
  if negb (_rep_response_type_valid (u8 op_code)) then None else
  Some (definite 3 [cbor_build_uint8 (u8 op_code);
    cbor_build_uint8 (if negb (rep_status msg =? 0) then 1 else 0); cbor_build_uint64 (rep_blocks msg)]).

Definition client_api_rep_response_decode (item : cbor_item) : decoded client_api_rep_response_t :=
  _ ← need item 3;
  _ ← check_type item _rep_response_type_valid;
  status ← require_uint8 item 1;
  blocks ← require_size item 2;
  DECODED {| rep_status := status; rep_blocks := blocks |}.
End RepResponse.

Definition rep_response_ok (m : client_api_rep_response_t) : Prop :=
  is_flag (rep_status m) /\ is_u64 (rep_blocks m).
Definition rep_response_bounds (m : client_api_rep_response_t) : Prop :=
  is_u8 (rep_status m) /\ is_u64 (rep_blocks m).

#[export] Instance client_rep_response {C : Cbor} {CS : CborSerial} : ClientMsg client_api_rep_response_t := {|
  cm_types := rep_response_types; cm_encode := client_api_rep_response_encode; cm_decode := client_api_rep_response_decode;
  cm_ok := rep_response_ok; cm_bounds := rep_response_bounds |}.

#[export] Hint Unfold client_rep_response client_api_rep_response_encode client_api_rep_response_decode rep_response_ok rep_response_bounds : client.

Lemma rep_response_type t : t ∈ rep_response_types -> u8 t = t /\ is_u8 t /\ _rep_response_type_valid t = true.
Proof. unfold rep_response_types. rewrite !elem_of_cons, elem_of_nil. intros Ht. by destruct_or! Ht; subst. Qed.

#[export] Instance client_rep_response_laws {C : Cbor} {CS : CborSerial} {CL : CborLaws} {CSL : CborSerialLaws} :
  ClientMsgLaws client_api_rep_response_t.
Proof.
  split; [client_type_bytes| | | |client_bounds].
  - intros t m (Hu & _ & Hv)%rep_response_type Hok. client_unfold. rewrite Hu, Hv. eexists. reflexivity.
  - intros t m item (Hu & Ht & Hv)%rep_response_type Hok. client_unfold. destruct_and? Hok. rewrite Hu, Hv.
    intros [= <-]. unfold definite; cbn [negb take]. client_get. rewrite Hv. cbn [negb reject_if mbind decoded_bind].
    client_get. by destruct m.
  - intros t m item (Hu & Ht & Hv)%rep_response_type Hok. client_unfold. destruct_and? Hok. rewrite Hu, Hv.
    intros [= <-]. rewrite ?flag_encode by assumption. unfold definite; cbn [negb take]. client_item.
Qed.

#[export] Instance client_rep_response_typed {C : Cbor} {CS : CborSerial} : ClientMsgTyped client_api_rep_response_t.
Proof. client_typed. Qed.

(** ** The garbage collector *)

Record client_api_gc_request_t := { gcq_urls : option bytes; gcq_force : Z; gcq_defrag : Z }.

Section GcRequest.
Context {C : Cbor}.

Definition client_api_gc_request_encode (msg : client_api_gc_request_t) : cbor_item :=
  definite 4 [cbor_build_uint8 CLIENT_API_GC_REQUEST; _encode_string (gcq_urls msg);
    cbor_build_uint8 (if negb (gcq_force msg =? 0) then 1 else 0);
    cbor_build_uint8 (if negb (gcq_defrag msg =? 0) then 1 else 0)].

Definition client_api_gc_request_decode (item : cbor_item) : decoded client_api_gc_request_t :=
  _ ← need_exactly item 4;
  urls_item ← get item 1;
  match _decode_string urls_item CLIENT_API_GC_MAX_URLS_TEXT with
  | None => REJECTED
  | Some urls =>
      force ← optional_int item 2;
      _ ← reject_if (1 <? force);
      defrag ← optional_int item 3;
      _ ← reject_if (1 <? defrag);
      DECODED {| gcq_urls := Some urls; gcq_force := u8 force; gcq_defrag := u8 defrag |}
  end.
End GcRequest.

Definition gc_request_ok (m : client_api_gc_request_t) : Prop :=
  is_Some (gcq_urls m) /\ is_opt_text CLIENT_API_GC_MAX_URLS_TEXT (gcq_urls m) /\
  is_flag (gcq_force m) /\ is_flag (gcq_defrag m).
Definition gc_request_bounds (m : client_api_gc_request_t) : Prop :=
  is_Some (gcq_urls m) /\ opt_text_bounds CLIENT_API_GC_MAX_URLS_TEXT (gcq_urls m) /\
  is_flag (gcq_force m) /\ is_flag (gcq_defrag m).

Lemma small_flag z : is_u64 z -> z <= 1 -> is_flag (u8 z).
Proof. unfold is_u64, is_flag. intros Hz Hl. rewrite u8_small by (unfold is_u8; lia). lia. Qed.

Lemma flag_limit z : is_flag z -> (1 <? z) = false /\ u8 z = z.
Proof. by intros [-> | ->]. Qed.

#[export] Instance client_gc_request {C : Cbor} {CS : CborSerial} : ClientMsg client_api_gc_request_t := {|
  cm_types := [CLIENT_API_GC_REQUEST]; cm_encode _ m := Some (client_api_gc_request_encode m); cm_decode := client_api_gc_request_decode;
  cm_ok := gc_request_ok; cm_bounds := gc_request_bounds |}.

#[export] Hint Unfold client_gc_request client_api_gc_request_encode client_api_gc_request_decode gc_request_ok gc_request_bounds : client.

#[export] Instance client_gc_request_laws {C : Cbor} {CS : CborSerial} {CL : CborLaws} {CSL : CborSerialLaws} :
  ClientMsgLaws client_api_gc_request_t.
Proof.
  split; [client_type_bytes|client_encodes| |client_serials|client_bounds; by apply small_flag].
  intros t m item Ht Hok. client_start Ht Hok. intros [= <-].
  destruct (flag_limit (gcq_force m)) as [Hf Hf']; [done|]. destruct (flag_limit (gcq_defrag m)) as [Hd Hd']; [done|].
  client_get. rewrite Hf. cbn [reject_if mbind decoded_bind]. client_get. rewrite Hd, Hf', Hd'.
  destruct m; simpl in *; by subst.
Qed.

#[export] Instance client_gc_request_typed {C : Cbor} {CS : CborSerial} : ClientMsgTyped client_api_gc_request_t.
Proof. client_typed. Qed.

Record client_api_gc_response_t {C : Cbor} := {
  gcr_status : Z; gcr_urls_request : Z; gcr_urls_collected : Z;
  gcr_blocks_deleted : Z; gcr_blocks_kept : Z; gcr_skipped_pinned : Z; gcr_skipped_claimed : Z;
  gcr_defrag_applied : Z; gcr_failed : option cbor_item;
  gcr_defrag_sections : Z; gcr_defrag_blocks_relocated : Z
}.

Section GcResponse.
Context {C : Cbor}.

(** Element 9: the first rows of the failed lines. *)
Definition encode_failed (failed : option cbor_item) : cbor_item :=
  let failed_count := Nat.min CLIENT_API_GC_MAX_FAILED_ROWS
    (match failed with Some failed => cbor_array_size failed | None => 0%nat end) in
  definite failed_count (take failed_count
    (match failed with Some failed => cbor_array_items failed | None => [] end)).

Definition client_api_gc_response_encode (msg : client_api_gc_response_t) : cbor_item :=
  definite 12 [cbor_build_uint8 CLIENT_API_GC_RESPONSE;
    cbor_build_uint8 (u8 (gcr_status msg));
    cbor_build_uint64 (gcr_urls_request msg); cbor_build_uint64 (gcr_urls_collected msg);
    cbor_build_uint64 (gcr_blocks_deleted msg); cbor_build_uint64 (gcr_blocks_kept msg);
    cbor_build_uint64 (gcr_skipped_pinned msg); cbor_build_uint64 (gcr_skipped_claimed msg);
    cbor_build_uint8 (if negb (gcr_defrag_applied msg =? 0) then 1 else 0);
    encode_failed (gcr_failed msg);
    cbor_build_uint64 (gcr_defrag_sections msg); cbor_build_uint64 (gcr_defrag_blocks_relocated msg)].

(** The guards on one failed row. *)
Definition check_failed_row (row : cbor_item) : decoded unit :=
  _ ← need row 3;
  line_item ← get row 0;
  _ ← reject_if (negb (cbor_isa_uint line_item));
  reason_item ← get row 1;
  _ ← reject_if (negb (cbor_isa_uint reason_item));
  text_item ← get row 2;
  reject_if (negb (cbor_isa_string text_item)).

Fixpoint check_failed_rows (rows : list cbor_item) : decoded unit :=
  match rows with
  | [] => DECODED tt
  | row :: rows => _ ← check_failed_row row; check_failed_rows rows
  end.

(** The copy [cbor_copy] makes of the rows is an equal item. *)
Definition client_api_gc_response_decode (item : cbor_item) : decoded client_api_gc_response_t :=
  _ ← need item 12;
  status_item ← get item 1;
  status ← get_uint8 status_item;
  urls_request ← optional_int item 2;
  urls_collected ← optional_int item 3;
  blocks_deleted ← optional_int item 4;
  blocks_kept ← optional_int item 5;
  skipped_pinned ← optional_int item 6;
  skipped_claimed ← optional_int item 7;
  defrag_applied ← optional_uint8 item 8;
  failed_item ← get item 9;
  failed ← (
    if cbor_isa_array failed_item && (0 <? cbor_array_size failed_item)%nat then
      _ ← check_failed_rows (take CLIENT_API_GC_MAX_FAILED_ROWS (cbor_array_items failed_item));
      DECODED (Some failed_item)
    else DECODED None);
  defrag_sections ← optional_int item 10;
  defrag_blocks_relocated ← optional_int item 11;
  DECODED {| gcr_status := status; gcr_urls_request := urls_request; gcr_urls_collected := urls_collected;
    gcr_blocks_deleted := blocks_deleted; gcr_blocks_kept := blocks_kept;
    gcr_skipped_pinned := skipped_pinned; gcr_skipped_claimed := skipped_claimed;
    gcr_defrag_applied := if negb (defrag_applied =? 0) then 1 else 0; gcr_failed := failed;
    gcr_defrag_sections := defrag_sections; gcr_defrag_blocks_relocated := defrag_blocks_relocated |}.
End GcResponse.

(** The rows of the lines that were not kept, at most as many as a response
    carries. *)
Definition is_failed {C : Cbor} {CS : CborSerial} (failed : option cbor_item) : Prop :=
  match failed with
  | None => True
  | Some item => exists rows, item = cbor_array rows /\ (0 < length rows <= CLIENT_API_GC_MAX_FAILED_ROWS)%nat /\
      Forall cbor_serializable rows /\ check_failed_rows rows = DECODED tt
  end.

Definition gc_counters {C : Cbor} (m : client_api_gc_response_t) : Prop :=
  is_u64 (gcr_urls_request m) /\ is_u64 (gcr_urls_collected m) /\ is_u64 (gcr_blocks_deleted m) /\
  is_u64 (gcr_blocks_kept m) /\ is_u64 (gcr_skipped_pinned m) /\ is_u64 (gcr_skipped_claimed m) /\
  is_u64 (gcr_defrag_sections m) /\ is_u64 (gcr_defrag_blocks_relocated m).

Definition gc_response_ok {C : Cbor} {CS : CborSerial} (m : client_api_gc_response_t) : Prop :=
  is_u8 (gcr_status m) /\ gc_counters m /\ is_flag (gcr_defrag_applied m) /\ is_failed (gcr_failed m).

Definition gc_response_bounds {C : Cbor} (m : client_api_gc_response_t) : Prop :=
  is_u8 (gcr_status m) /\ gc_counters m /\ is_flag (gcr_defrag_applied m) /\
  match gcr_failed m with
  | None => True
  | Some item => (0 < cbor_array_size item)%nat /\
      check_failed_rows (take CLIENT_API_GC_MAX_FAILED_ROWS (cbor_array_items item)) = DECODED tt
  end.

#[export] Instance client_gc_response {C : Cbor} {CS : CborSerial} : ClientMsg client_api_gc_response_t := {|
  cm_types := [CLIENT_API_GC_RESPONSE]; cm_encode _ m := Some (client_api_gc_response_encode m);
  cm_decode := client_api_gc_response_decode; cm_ok := gc_response_ok; cm_bounds := gc_response_bounds |}.

#[export] Hint Unfold client_gc_response client_api_gc_response_encode client_api_gc_response_decode
  gc_response_ok gc_response_bounds gc_counters : client.

(** The rows that are sent. *)
Lemma failed_rows_sent {C : Cbor} {CS : CborSerial} {CL : CborLaws} {CSL : CborSerialLaws} (failed : option cbor_item) :
  is_failed failed ->
  exists rows, encode_failed failed = cbor_array rows /\
    cbor_serializable (cbor_array rows) /\ check_failed_rows (take CLIENT_API_GC_MAX_FAILED_ROWS rows) = DECODED tt /\
    (if (0 <? length rows)%nat then Some (cbor_array rows) else None) = failed.
Proof.
  intros Hf. unfold encode_failed. cbv zeta. destruct failed as [item|].
  - destruct Hf as (rows & -> & Hl & Hs & Hc). exists rows. rewrite size_array, array_items.
    rewrite Nat.min_r by lia. unfold definite. rewrite !firstn_all, take_ge by lia. split; [done|]. split_and!; try done.
    + apply serializable_array; [done|]. unfold CLIENT_API_GC_MAX_FAILED_ROWS in Hl. lia.
    + destruct (Nat.ltb_spec 0 (length rows)); [done|lia].
  - exists []. split_and!; try done. by apply serializable_array.
Qed.

#[export] Instance client_gc_response_laws {C : Cbor} {CS : CborSerial} {CL : CborLaws} {CSL : CborSerialLaws} :
  ClientMsgLaws client_api_gc_response_t.
Proof.
  split; [client_type_bytes|client_encodes| | |].
  - intros t m item Ht Hok. client_start Ht Hok. intros [= <-]. cbv zeta.
    destruct (failed_rows_sent (gcr_failed m)) as (rows & -> & _ & Hc & Hf); [done|].
    rewrite u8_small by done. client_get. rewrite isa_array_build, ?size_array, array_items, Hc.
    cbn [andb mbind decoded_bind].
    destruct (0 <? length rows)%nat; cbn [mbind decoded_bind]; destruct m; cbn in Hf |- *; by subst.
  - intros t m item Ht Hok. client_start Ht Hok. intros [= <-].
    destruct (failed_rows_sent (gcr_failed m)) as (rows & -> & Hs & _); [done|]. rewrite u8_small by done. client_item.
  - client_bounds; match goal with E : gcr_failed _ = Some _ |- _ => injection E as <- end; try by destruct x13.
    all: match goal with E : _ && _ = true |- _ => apply andb_true_iff in E as [_ E]; by apply Nat.ltb_lt in E end.
Qed.

(** ** The list of ephemeral blocks *)

(** Three parallel arrays of [eph_count] elements, each possibly null. *)
Record client_api_ephemeral_list_response_t := {
  eph_status : Z;
  eph_count : nat;
  eph_hashes : option (list (option bytes));
  eph_claims : option (list Z);
  eph_pins : option (list Z)
}.

(** [n] bytes from the start of an object, [None] when it is shorter. *)
Definition read_object (object : bytes) (n : nat) : option bytes :=
  if (n <=? length object)%nat then Some (take n object) else None.

Section EphemeralListResponse.
Context {C : Cbor}.

Definition _empty_byte_sentinel : bytes := [0].

(** The row of an entry; [None] is a read outside an object. *)
Definition encode_ephemeral_entry (msg : client_api_ephemeral_list_response_t) (entry_index : nat) : option cbor_item :=
  hash ← (match eph_hashes msg with
          | None => Some None
          | Some hashes => hashes !! entry_index
          end);
  hash ← read_object (default _empty_byte_sentinel hash) 32;
  claims ← (match eph_claims msg with None => Some 0 | Some claims => claims !! entry_index end);
  pins ← (match eph_pins msg with None => Some 0 | Some pins => pins !! entry_index end);
  Some (definite 3 [cbor_build_bytestring hash; cbor_build_uint16 claims; cbor_build_uint32 pins]).

Definition client_api_ephemeral_list_response_encode (msg : client_api_ephemeral_list_response_t) : option cbor_item :=
  entries ← mapM (encode_ephemeral_entry msg) (seq 0 (eph_count msg));
  Some (definite 3 [cbor_build_uint8 CLIENT_API_EPHEMERAL_LIST_RESPONSE;
    cbor_build_uint8 (if negb (eph_status msg =? 0) then 1 else 0); definite (eph_count msg) entries]).

Definition UINT16_MAX : Z := 65535.
Definition UINT32_MAX : Z := 4294967295.

Definition decode_ephemeral_entry (entry : cbor_item) : decoded (bytes * Z * Z) :=
  _ ← need entry 3;
  hash_item ← get entry 0;
  _ ← reject_if (negb (cbor_isa_bytestring hash_item) || negb (cbor_bytestring_length hash_item =? 32)%nat);
  claims_item ← get entry 1;
  _ ← reject_if (negb (cbor_isa_uint claims_item));
  claims_value ← get_int claims_item;
  pins_item ← get entry 2;
  _ ← reject_if (negb (cbor_isa_uint pins_item));
  pins_value ← get_int pins_item;
  DECODED (cbor_bytestring_handle hash_item,
    if UINT16_MAX <? claims_value then UINT16_MAX else claims_value,
    if UINT32_MAX <? pins_value then UINT32_MAX else pins_value).

Fixpoint decode_ephemeral_entries (entries : list cbor_item) : decoded (list (bytes * Z * Z)) :=
  match entries with
  | [] => DECODED []
  | entry :: entries =>
      row ← decode_ephemeral_entry entry;
      rows ← decode_ephemeral_entries entries;
      DECODED (row :: rows)
  end.

(** The structure that holds the given rows. *)
Definition ephemeral_entries (status : Z) (rows : list (bytes * Z * Z)) : client_api_ephemeral_list_response_t :=
  match rows with
  | [] => {| eph_status := status; eph_count := 0; eph_hashes := None; eph_claims := None; eph_pins := None |}
  | _ => {| eph_status := status; eph_count := length rows; eph_hashes := Some (map (fun r => Some r.1.1) rows);
            eph_claims := Some (map (fun r => r.1.2) rows); eph_pins := Some (map snd rows) |}
  end.

Definition client_api_ephemeral_list_response_decode (item : cbor_item) : decoded client_api_ephemeral_list_response_t :=
  _ ← need item 3;
  _ ← check_type item (Z.eqb CLIENT_API_EPHEMERAL_LIST_RESPONSE);
  status ← require_uint8 item 1;
  entries ← get item 2;
  _ ← reject_if (negb (cbor_isa_array entries));
  rows ← decode_ephemeral_entries (cbor_array_items entries);
  DECODED (ephemeral_entries status rows).
End EphemeralListResponse.

Definition is_ephemeral_row (r : bytes * Z * Z) : Prop := is_hash r.1.1 /\ is_u16 r.1.2 /\ is_u32 r.2.

Definition ephemeral_list_response_ok (m : client_api_ephemeral_list_response_t) : Prop :=
  exists status rows, m = ephemeral_entries status rows /\ is_flag status /\
    Forall is_ephemeral_row rows /\ Z.of_nat (length rows) < 2 ^ 64.

Definition ephemeral_list_response_bounds (m : client_api_ephemeral_list_response_t) : Prop :=
  exists status rows, m = ephemeral_entries status rows /\ is_u8 status /\
    Forall (fun r => blen r.1.1 = 32 /\ is_u16 r.1.2 /\ is_u32 r.2) rows.

#[export] Instance client_ephemeral_list_response {C : Cbor} {CS : CborSerial} :
  ClientMsg client_api_ephemeral_list_response_t := {|
  cm_types := [CLIENT_API_EPHEMERAL_LIST_RESPONSE]; cm_encode _ m := client_api_ephemeral_list_response_encode m;
  cm_decode := client_api_ephemeral_list_response_decode;
  cm_ok := ephemeral_list_response_ok; cm_bounds := ephemeral_list_response_bounds |}.

#[export] Hint Unfold client_ephemeral_list_response client_api_ephemeral_list_response_decode : client.

Section EphemeralProofs.
Context {C : Cbor}.

Definition row_item (r : bytes * Z * Z) : cbor_item :=
  cbor_array [cbor_build_bytestring r.1.1; cbor_build_uint16 r.1.2; cbor_build_uint32 r.2].

Lemma encode_entry_at status rows i r :
  rows !! i = Some r -> is_hash r.1.1 -> encode_ephemeral_entry (ephemeral_entries status rows) i = Some (row_item r).
Proof.
  intros Hr [_ Hl]. unfold encode_ephemeral_entry. destruct rows as [|r0 rows]; [done|].
  cbn [ephemeral_entries eph_hashes eph_claims eph_pins]. rewrite !list_lookup_fmap, Hr.
  cbn [fmap option_fmap option_map mbind option_bind default]. unfold read_object, blen, id in *.
  rewrite (proj2 (Nat.leb_le 32 _)) by lia. by rewrite (take_ge r.1.1) by lia.
Qed.

Lemma encode_ephemeral_list status rows :
  is_flag status -> Forall is_ephemeral_row rows ->
  client_api_ephemeral_list_response_encode (ephemeral_entries status rows) =
  Some (cbor_array [cbor_build_uint8 CLIENT_API_EPHEMERAL_LIST_RESPONSE; cbor_build_uint8 status;
    cbor_array (map row_item rows)]).
Proof.
  intros Hs Hr. unfold client_api_ephemeral_list_response_encode.
  assert (eph_count (ephemeral_entries status rows) = length rows) as -> by by destruct rows.
  assert (eph_status (ephemeral_entries status rows) = status) as -> by by destruct rows.
  assert (mapM (encode_ephemeral_entry (ephemeral_entries status rows)) (seq 0 (length rows)) =
    Some (map row_item rows)) as ->.
  { apply mapM_Some_2, Forall2_same_length_lookup_2; [by rewrite length_map, length_seq|].
    intros i x y Hx Hy. apply lookup_seq in Hx as [-> Hi]. rewrite list_lookup_fmap in Hy.
    apply fmap_Some in Hy as (r & Hy & ->). apply encode_entry_at; [done|].
    eapply Forall_lookup_1 in Hy; [|exact Hr]. apply Hy. }
  cbn [mbind option_bind]. rewrite flag_encode by done. unfold definite. cbn [take]. by rewrite take_ge by by rewrite length_map.
Qed.

Context {CL : CborLaws}.

Lemma decode_entry_row r : is_ephemeral_row r -> decode_ephemeral_entry (row_item r) = DECODED r.
Proof.
  destruct r as [[h c] p]. intros ([_ Hl] & Hc & Hp). unfold decode_ephemeral_entry, row_item. cbn [fst snd] in *.
  client_get. unfold cbor_build_uint16, cbor_build_uint32, cbor_bytestring_length, get_int, is_int. client_get.
  unfold blen in Hl. replace (length h =? 32)%nat with true by (symmetry; apply Nat.eqb_eq; lia). cbn [negb orb].
  cbn [reject_if mbind decoded_bind]. client_get. unfold is_u16, is_u32 in *. rewrite !get_int_build by (cbn [width_bits]; lia).
  cbn [mbind decoded_bind]. unfold UINT16_MAX, UINT32_MAX.
  destruct (Z.ltb_spec 65535 c); [lia|]. by destruct (Z.ltb_spec 4294967295 p); [lia|].
Qed.

Lemma decode_rows rows :
  Forall is_ephemeral_row rows -> decode_ephemeral_entries (map row_item rows) = DECODED rows.
Proof.
  induction 1 as [|r rows Hr _ IH]; [done|]. cbn [map decode_ephemeral_entries]. by rewrite decode_entry_row, IH.
Qed.

Lemma decode_entry_bounds i r :
  decode_ephemeral_entry i = DECODED r -> blen r.1.1 = 32 /\ is_u16 r.1.2 /\ is_u32 r.2.
Proof.
  unfold decode_ephemeral_entry. intros H. client_inv H. injection H as <-. client_facts. cbn [fst snd].
  match goal with E : (_ =? 32)%nat = true |- _ => apply Nat.eqb_eq in E end.
  unfold blen, is_u16, is_u32, is_u64, UINT16_MAX, UINT32_MAX, cbor_bytestring_length in *.
  split; [lia|]. split; case_match; lia.
Qed.
End EphemeralProofs.

#[export] Instance client_ephemeral_list_response_laws
  {C : Cbor} {CS : CborSerial} {CL : CborLaws} {CSL : CborSerialLaws} :
  ClientMsgLaws client_api_ephemeral_list_response_t.
Proof.
  split; [client_type_bytes| | | |].
  - intros t m ->%list_elem_of_singleton (status & rows & -> & Hs & Hr & _). cbn [cm_encode client_ephemeral_list_response].
    rewrite encode_ephemeral_list by done. eauto.
  - intros t m item _ (status & rows & -> & Hs & Hr & _). cbn [cm_encode client_ephemeral_list_response].
    rewrite encode_ephemeral_list by done. intros [= <-]. pose proof (flag_u8 _ Hs). client_unfold. client_get.
    rewrite isa_array_build, array_items. cbn [negb reject_if mbind decoded_bind]. by rewrite decode_rows.
  - intros t m item _ (status & rows & -> & Hs & Hr & Hn). cbn [cm_encode client_ephemeral_list_response].
    rewrite encode_ephemeral_list by done. intros [= <-]. pose proof (flag_u8 _ Hs).
    assert (cbor_serializable (cbor_array (map row_item rows))); [|client_item].
    apply serializable_array; [|by rewrite length_map]. apply Forall_fmap. eapply Forall_impl; [exact Hr|].
    intros [[h c] p] (Hh & Hc & Hp). cbn [fst snd] in *. unfold compose, row_item.
    apply serializable_short; [|cbn [length]; lia].
    repeat constructor; [by apply serializable_buffer, hash_buffer|by apply serializable_uint16|by apply serializable_uint32].
  - intros item m H. client_unfold. client_inv H. injection H as <-. exists x1, x4. client_facts. split_and!; [done..|].
    clear -E4 CL. revert x4 E4. induction (cbor_array_items x2) as [|i items IH]; intros rows H;
      cbn [decode_ephemeral_entries] in H; [by injection H as <-|].
    client_inv H. injection H as <-. constructor; [by eapply decode_entry_bounds|by apply IH].
Qed.

Lemma decode_ephemeral_entries_typed {C : Cbor} items : well_typed (decode_ephemeral_entries items).
Proof.
  induction items as [|i items IH]; [discriminate|]. cbn [decode_ephemeral_entries].
  apply well_typed_bind; [|intros r _; apply well_typed_bind; [exact IH|discriminate]].
  unfold decode_ephemeral_entry. repeat client_typed_step.
  all: apply get_int_typed; client_facts; done.
Qed.

#[export] Instance client_ephemeral_list_response_typed {C : Cbor} {CS : CborSerial} :
  ClientMsgTyped client_api_ephemeral_list_response_t.
Proof. intros item t Ht Hin. client_unfold. repeat client_typed_step. apply decode_ephemeral_entries_typed. Qed.

(** An entry without a hash makes the encoder read 32 bytes from the one-byte
    sentinel. *)
Lemma null_hash_read_outside {C : Cbor} m i :
  eph_hashes m = None \/ (exists l, eph_hashes m = Some l /\ l !! i = Some None) ->
  encode_ephemeral_entry m i = None.
Proof. by unfold encode_ephemeral_entry; intros [-> | (l & -> & ->)]. Qed.
