(* ===== verification/ClientApi.v ===== *)
(** * ClientApi: the client protocol as a whole

    The frames of src/src/ClientAPI/client_api_wire.c that have a decoder, as
    one family: [client_kind] names the messages, [kind_body] their structures.
    Every kind has the interface [ClientMsg] with its laws, so that the
    properties of the protocol are proved once for all of them. *)

From S2P Require Import Prelude Cbor CborCodec WireBase OffUrl Framer ClientApiBase.
From stdpp Require Import strings.
From S2P Require Import ClientApiTransfer ClientApiBlock ClientApiAdmin ClientApiOps.
Local Open Scope Z_scope.

Inductive client_kind :=
  | PutRequest | PutData | PutEnd | PutResponse | GetRequest | GetResponseStart | GetData | GetEnd
  | LoadRequest | LoadProgress | LoadEnd | Error | AuthRequest | BlockPutRequest | BlockPutResponse
  | BlockGetRequest | BlockGetResponse | BlockDeleteRequest | BlockDeleteResponse | CacheResizeRequest
  | CacheResizeResponse | HealthResponse | UpdateStatusResponse | PeerInfoRequest | PeerInfoResponse
  | PeerConnect | PeerConnectResult | PeerListResponse | FriendAdd | FriendRemove | FriendListResponse
  | BootstrapAdd | BootstrapRemove | BootstrapListResponse | ConfigShowResponse | ConfigSetRequest
  | ConfigSetResponse | ConfigReloadResponse | RepRequest | RepResponse | EphemeralListResponse | GcRequest
  | GcResponse.

Section Kinds.
Context {C : Cbor} {CS : CborSerial}.

Definition kind_body (k : client_kind) : Type :=
  match k with
  | PutRequest => client_api_put_request_t
  | PutData => client_api_put_data_t
  | PutEnd => client_api_put_end_t
  | PutResponse => client_api_put_response_t
  | GetRequest => client_api_get_request_t
  | GetResponseStart => client_api_get_response_start_t
  | GetData => client_api_get_data_t
  | GetEnd => client_api_get_end_t
  | LoadRequest => client_api_load_request_t
  | LoadProgress => client_api_load_progress_t
  | LoadEnd => client_api_load_end_t
  | Error => client_api_error_t
  | AuthRequest => client_api_auth_request_t
  | BlockPutRequest => client_api_block_put_request_t
  | BlockPutResponse => client_api_block_put_response_t
  | BlockGetRequest => client_api_block_get_request_t
  | BlockGetResponse => client_api_block_get_response_t
  | BlockDeleteRequest => client_api_block_delete_request_t
  | BlockDeleteResponse => client_api_block_delete_response_t
  | CacheResizeRequest => client_api_cache_resize_request_t
  | CacheResizeResponse => client_api_cache_resize_response_t
  | HealthResponse => client_api_health_response_t
  | UpdateStatusResponse => client_api_update_status_response_t
  | PeerInfoRequest => client_api_peer_info_request_t
  | PeerInfoResponse => client_api_peer_info_response_t
  | PeerConnect => client_api_peer_connect_t
  | PeerConnectResult => client_api_peer_connect_result_t
  | PeerListResponse => client_api_peer_list_response_t
  | FriendAdd => client_api_friend_add_t
  | FriendRemove => client_api_friend_remove_t
  | FriendListResponse => client_api_friend_list_response_t
  | BootstrapAdd => client_api_bootstrap_add_t
  | BootstrapRemove => client_api_bootstrap_remove_t
  | BootstrapListResponse => client_api_bootstrap_list_response_t
  | ConfigShowResponse => client_api_config_show_response_t
  | ConfigSetRequest => client_api_config_set_request_t
  | ConfigSetResponse => client_api_config_set_response_t
  | ConfigReloadResponse => client_api_config_reload_response_t
  | RepRequest => client_api_rep_request_t
  | RepResponse => client_api_rep_response_t
  | EphemeralListResponse => client_api_ephemeral_list_response_t
  | GcRequest => client_api_gc_request_t
  | GcResponse => client_api_gc_response_t
  end.

#[export] Instance kind_msg (k : client_kind) : ClientMsg (kind_body k).
Proof. destruct k; exact _. Defined.

#[export] Instance kind_laws {CL : CborLaws} {CSL : CborSerialLaws} (k : client_kind) : ClientMsgLaws (kind_body k).
Proof. destruct k; exact _. Qed.

Definition frame_types (k : client_kind) : list Z := cm_types (M := kind_body k).
Definition frame_encode (k : client_kind) (t : Z) (m : kind_body k) : option cbor_item := cm_encode t m.
Definition frame_decode (k : client_kind) (item : cbor_item) : decoded (kind_body k) := cm_decode item.
Definition frame_ok (k : client_kind) (m : kind_body k) : Prop := cm_ok m.
Definition frame_bounds (k : client_kind) (m : kind_body k) : Prop := cm_bounds m.
End Kinds.

Definition all_kinds : list client_kind :=
  [PutRequest; PutData; PutEnd; PutResponse; GetRequest; GetResponseStart; GetData; GetEnd; LoadRequest;
   LoadProgress; LoadEnd; Error; AuthRequest; BlockPutRequest; BlockPutResponse; BlockGetRequest;
   BlockGetResponse; BlockDeleteRequest; BlockDeleteResponse; CacheResizeRequest; CacheResizeResponse;
   HealthResponse; UpdateStatusResponse; PeerInfoRequest; PeerInfoResponse; PeerConnect; PeerConnectResult;
   PeerListResponse; FriendAdd; FriendRemove; FriendListResponse; BootstrapAdd; BootstrapRemove;
   BootstrapListResponse; ConfigShowResponse; ConfigSetRequest; ConfigSetResponse; ConfigReloadResponse;
   RepRequest; RepResponse; EphemeralListResponse; GcRequest; GcResponse].

(** The messages whose decoder reads an element without looking at its kind. *)
Definition unguarded (k : client_kind) : bool :=
  match k with
  | PutRequest | GetRequest | GetResponseStart | Error | BlockPutResponse | BlockGetResponse | BlockDeleteResponse | CacheResizeResponse | GcResponse => true
  | _ => false
  end.

(** The switch on the type byte of a frame. *)
Definition kind_of_type {C : Cbor} {CS : CborSerial} (t : Z) : option client_kind :=
  find (fun k => bool_decide (t ∈ frame_types k)) all_kinds.

Section Protocol.
Context {C : Cbor} {CS : CborSerial} {CL : CborLaws} {CSL : CborSerialLaws}.

Lemma kind_of_frame k t : t ∈ frame_types k -> kind_of_type t = Some k.
Proof.
  destruct k; match goal with |- t ∈ ?l -> _ => let l' := eval vm_compute in l in change l with l' end;
    rewrite !elem_of_cons, elem_of_nil; intros Ht; by destruct_or? Ht; subst.
Qed.

Lemma frame_type_u8 k t : t ∈ frame_types k -> is_u8 t.
Proof. apply (proj1 (Forall_forall _ _) (cm_types_u8 (M := kind_body k))). Qed.

(** C20: every structure a sender may give to the encoder of its message is
    encoded as a frame that carries the type byte asked for, selects the
    message in the receiver's switch, survives serialization, and is decoded
    into the structure it was. *)
Theorem client_roundtrip k t m :
  t ∈ frame_types k -> frame_ok k m ->
  exists item, frame_encode k t m = Some item /\ cbor_load (cbor_serialize item) = Some item /\
    client_api_wire_get_type item = DECODED t /\ kind_of_type t = Some k /\ frame_decode k item = DECODED m.
Proof.
  intros Ht Hok. destruct (cm_encode_type t m Ht Hok) as [l He]. eexists. split; [exact He|].
  split; [by apply load_serialize, (cm_serializable t m)|]. split; [by apply get_type_array, (frame_type_u8 k)|].
  split; [by apply kind_of_frame|by eapply cm_roundtrip].
Qed.

(** C21: whatever a client or a daemon sends, a decoded frame respects the
    limits of its structure: lengths of names, URLs, texts and payloads, the
    number of recycler URLs, and the width of every counter. *)
Theorem client_frames_bounded k item m : frame_decode k item = DECODED m -> frame_bounds k m.
Proof. apply cm_decode_bounds. Qed.

Lemma guarded_typed_kind k item t :
  unguarded k = false -> client_api_wire_get_type item = DECODED t -> t ∈ frame_types k ->
  well_typed (frame_decode k item).
Proof. destruct k; try done; intros _; apply cm_well_typed. Qed.

(** A frame of the right type whose elements are texts, apart from the one the
    decoder validates first. *)
Definition confusing (k : client_kind) : cbor_item :=
  cbor_array (cbor_build_uint8 (default 0 (head (frame_types k))) ::
    cbor_build_string (match k with
                       | GetRequest => lit "http://localhost/offsystem/v3/"
                       | GetResponseStart => lit "text/plain"
                       | _ => []
                       end) :: replicate 10 (cbor_build_string [])).

Lemma string_not_int b : is_int (cbor_build_string b) = false.
Proof. unfold is_int, cbor_isa_uint. by rewrite typeof_string. Qed.

Lemma string_reads b : get_uint8 (cbor_build_string b) = ILL_TYPED /\ _decode_size (cbor_build_string b) = ILL_TYPED.
Proof. unfold get_uint8, _decode_size, get_int. by rewrite string_not_int. Qed.

Lemma sample_url_text : is_text (Z.of_nat OFFS_MAX_ORI_STRING_LEN) (lit "http://localhost/offsystem/v3/").
Proof. split; [repeat constructor|by vm_compute]. Qed.

Lemma sample_type_text : is_text (Z.of_nat OFFS_MAX_CONTENT_TYPE_LEN) (lit "text/plain").
Proof. split; [repeat constructor|by vm_compute]. Qed.

Lemma confusing_ill_typed k : unguarded k = true -> frame_decode k (confusing k) = ILL_TYPED.
Proof.
  destruct k; try done; intros _; unfold confusing; cbn [replicate frame_types head default].
  all: unfold frame_decode; cbn [cm_decode kind_msg client_put_request]; client_unfold.
  all: unfold client_api_put_request_decode; cbv zeta; client_get.
  all: rewrite ?(proj1 (string_reads _)), ?(proj2 (string_reads _)); try done.
  - rewrite decode_string_build by apply sample_url_text. by vm_compute (validate _ _).
  - rewrite decode_string_build by apply sample_type_text. by vm_compute (validate _ _).
Qed.

(** C22: exactly the nine messages of [unguarded] can make a receiver apply an
    accessor of libcbor to an element of another kind; for every other message,
    any frame that carries its type byte is decoded or rejected. *)
Theorem client_type_confusion k :
  (exists item t, client_api_wire_get_type item = DECODED t /\ t ∈ frame_types k /\ frame_decode k item = ILL_TYPED) <->
  unguarded k = true.
Proof.
  split.
  - intros (item & t & Hg & Ht & Hd). destruct (unguarded k) eqn:E; [done|].
    by destruct (guarded_typed_kind k item t E Hg Ht).
  - intros Hk. exists (confusing k), (default 0 (head (frame_types k))).
    assert (default 0 (head (frame_types k)) ∈ frame_types k) as Hin by (destruct k; by left).
    split; [|split; [done|by apply confusing_ill_typed]]. by apply get_type_array, (frame_type_u8 k).
Qed.

(** C40: a PUT request that names a recycle mode but no tuple size loses the
    mode on the wire: the array is created with one element less than is
    pushed, and the push of the mode fails. *)
Theorem recycle_mode_lost m :
  put_request_fields m -> put_has_tuple_size m = 0 ->
  exists m', client_api_put_request_decode (client_api_put_request_encode m) = DECODED m' /\
    put_recycle_ephemeral m' = 0 /\ put_recycler_urls m' = put_recycler_urls m /\ put_data m' = put_data m.
Proof.
  intros Hf Ht. exists (put_request_received m). split; [by apply put_request_arrives|].
  unfold put_request_received. rewrite Ht. done.
Qed.
End Protocol.

(** ** Concrete frames *)

Definition sample_get : client_api_get_request_t := {|
  get_ori_string := Some (lit "http://localhost/offsystem/v3/"); get_has_range := 1;
  get_range_start := 10; get_range_end := 300 |}.

Lemma sample_get_ok : frame_ok (C := item_cbor) (CS := item_serial) GetRequest sample_get.
Proof.
  split; [|right; unfold is_u64; cbn; lia]. eexists. split; [reflexivity|]. split; [apply sample_url_text|by vm_compute].
Qed.

Lemma client_roundtrip_witness :
  exists item, frame_encode GetRequest CLIENT_API_GET_REQUEST sample_get = Some item /\
    cbor_load (cbor_serialize item) = Some item /\
    client_api_wire_get_type item = DECODED CLIENT_API_GET_REQUEST /\
    kind_of_type CLIENT_API_GET_REQUEST = Some GetRequest /\ frame_decode GetRequest item = DECODED sample_get.
Proof.
  apply (client_roundtrip (C := item_cbor) (CS := item_serial) GetRequest); [by left|exact sample_get_ok].
Defined.

Lemma client_frames_bounded_witness :
  frame_bounds (C := item_cbor) (CS := item_serial) BlockPutRequest {| bput_data := [1; 2]; bput_encoding := 0 |}.
Proof.
  apply (client_frames_bounded (C := item_cbor) (CS := item_serial) BlockPutRequest
    (item_array [item_uint CBOR_INT_8 CLIENT_API_BLOCK_PUT_REQUEST; item_bytes [1; 2]])).
  by vm_compute.
Defined.

Lemma client_type_confusion_witness :
  unguarded PutRequest = true /\
  exists item t, client_api_wire_get_type item = DECODED t /\ t ∈ frame_types PutRequest /\
    frame_decode (C := item_cbor) (CS := item_serial) PutRequest item = ILL_TYPED.
Proof. split; [done|]. by apply (client_type_confusion (C := item_cbor) (CS := item_serial) PutRequest). Defined.

Definition sample_put (recycle : Z) : client_api_put_request_t := {|
  put_content_type := Some (lit "text/plain"); put_file_name := Some (lit "a.txt"); put_stream_length := 3;
  put_server_address := None; put_data := [1; 2; 3];
  put_recycler_urls := [Some (lit "http://localhost/offsystem/v3/")]; put_temporary := 1;
  put_has_tuple_size := 0; put_tuple_size := 0; put_recycle_ephemeral := recycle |}.

Lemma sample_put_fields recycle : is_u8 recycle -> put_request_fields (sample_put recycle).
Proof.
  intros Hr. split; try (by vm_compute).
  - split; [repeat constructor; by unfold is_u8|by vm_compute].
  - split; [|apply Nat.leb_le; by vm_compute]. constructor; [|constructor].
    eexists. split; [reflexivity|]. split; [apply sample_url_text|by vm_compute].
  - by right.
  - by left.
Qed.

Lemma recycle_mode_lost_witness :
  put_recycle_ephemeral (sample_put 2) = 2 /\
  exists m', client_api_put_request_decode (C := item_cbor) (client_api_put_request_encode (sample_put 2)) = DECODED m' /\
    put_recycle_ephemeral m' = 0 /\ put_recycler_urls m' = put_recycler_urls (sample_put 2) /\
    put_data m' = put_data (sample_put 2).
Proof.
  split; [done|]. apply (recycle_mode_lost (C := item_cbor) (sample_put 2)); [|done].
  apply sample_put_fields. by unfold is_u8.
Defined.
