(* ===== verification/ClientHandlers.v ===== *)
(** * ClientHandlers: the request handlers shared by the client transports

    Models src/src/ClientAPI/block_handlers.c, cache_handlers.c,
    config_handlers.c, peer_handlers.c and representation_api.c.  A handler is
    given its context and a frame and returns the new context with the calls it
    makes: frames sent to the client and requests to the block cache, the
    configuration, the network and the representation actors.

    A handler returns [None] where the code runs into undefined behaviour: an
    ill-typed element of a frame, or a null pointer that is not checked.

    The configuration, the peer book, the network and the QR codec are not
    modelled: what their functions return is given by a record of services. *)

From S2P Require Import BlockCache.
From S2P Require Import Prelude Buffer Block Cbor WireBase Base58 OffUrl Representation BlockGc.
From stdpp Require Import strings.
From S2P Require Import ClientApiBase ClientApiTransfer ClientApiBlock ClientApiAdmin ClientApiOps.
Local Open Scope Z_scope.

Definition CLIENT_API_STATUS_OK : Z := 0.
Definition CLIENT_API_STATUS_BAD_REQUEST : Z := 1.
Definition CLIENT_API_STATUS_NOT_FOUND : Z := 2.
Definition CLIENT_API_STATUS_INTERNAL_ERROR : Z := 3.
Definition CLIENT_API_STATUS_RANGE_NOT_SATISFIABLE : Z := 4.
Definition CLIENT_API_STATUS_UNAUTHORIZED : Z := 5.
Definition CLIENT_API_STATUS_CONFLICT : Z := 6.

(** A candidate peer; its contents are those of src/src/Network/peer_info.c. *)
Class PeerInfo := peer_info : Type.

(** What a handler does, apart from sending frames. *)
Inductive client_call {P : PeerInfo} :=
| Block_cache_put (b : block_t)
| Block_cache_get (hash : bytes)
| Block_cache_remove (hash : bytes) (force : Z)
| Block_cache_resize (capacity : Z)
| Block_cache_list_ephemeral
| Config_pending_save (json : bytes)
| Node_restart
| Representation_create (descriptor_hash : bytes) (op : representation_op_e) (response_code : Z)
| Block_gc_create (urls : bytes) (force defrag : Z)
| Network_connect (p : peer_info) (is_friend : bool)
| Network_connect_host (host : bytes) (port : Z)
| Network_peer_remove (hash : bytes)
| Network_mark_dirty
| Peer_snapshot
| Friend_add (p : peer_info)
| Friend_remove (hash : bytes)
| Friend_snapshot
| Bootstrap_add (endpoint : bytes)
| Bootstrap_remove (endpoint : bytes)
| Bootstrap_snapshot.

Inductive client_effect {C : Cbor} {P : PeerInfo} :=
| SEND (frame : cbor_item)
| CALL (c : client_call).

(** Continues with a decoded structure; a decoder that misreads is undefined. *)
Definition with_decoded {A B} (d : decoded A) (rejected : B) (f : A -> option B) : option B :=
  match d with DECODED a => f a | REJECTED => Some rejected | ILL_TYPED => None end.

Section SendError.
Context {C : Cbor} {P : PeerInfo}.

Definition send_error (status : Z) (message : string) : client_effect :=
  SEND (client_api_error_encode {| error_status_code := status; error_message := Some (lit message) |}).

Definition unauthorized : client_effect := send_error CLIENT_API_STATUS_UNAUTHORIZED "Authentication required".
End SendError.

(** ** Blocks and the cache *)

Inductive block_op_t := BLOCK_OP_NONE | BLOCK_OP_PUT | BLOCK_OP_GET | BLOCK_OP_DELETE | BLOCK_OP_RESIZE.

#[export] Instance block_op_eq_dec : EqDecision block_op_t.
Proof. solve_decision. Defined.

Record block_handler_ctx_t := mk_block_ctx {
  blk_authenticated : bool;
  blk_pending_op : block_op_t;
  blk_put_encoding : Z;
  blk_data_dir : bool          (* data_dir != NULL *)
}.

(** The results of the block cache's requests. *)
Inductive cache_result :=
| Put_result (result : Z) (hash : option bytes)
| Get_result (block : option block_t)
| Remove_result (result : Z).

Section BlockHandlers.
Context {C : Cbor} {P : PeerInfo} {BL : Blake3}.

Implicit Types ctx : block_handler_ctx_t.

Definition set_pending (op : block_op_t) ctx : block_handler_ctx_t :=
  mk_block_ctx (blk_authenticated ctx) op (blk_put_encoding ctx) (blk_data_dir ctx).

(** [random] pads the block. *)
Definition block_handle_put_request ctx (frame : cbor_item) (random : bytes)
  : option (block_handler_ctx_t * list client_effect) :=
  if negb (blk_authenticated ctx) then Some (ctx, [unauthorized]) else
  with_decoded (client_api_block_put_request_decode frame)
    (ctx, [send_error CLIENT_API_STATUS_BAD_REQUEST "Invalid block PUT request"]) (fun msg =>
  if (blen (bput_data msg) =? 0) || (block_size standard <? blen (bput_data msg)) then
    Some (ctx, [send_error CLIENT_API_STATUS_BAD_REQUEST "Block data must be 1-128000 bytes"]) else
  match block_create_by_type (buffer_create_from_existing_memory (bput_data msg)) standard random with
  | None => Some (ctx, [send_error CLIENT_API_STATUS_INTERNAL_ERROR "Failed to create block"])
  | Some block =>
      Some (mk_block_ctx (blk_authenticated ctx) BLOCK_OP_PUT (bput_encoding msg) (blk_data_dir ctx),
            [CALL (Block_cache_put block)])
  end).

Definition block_handle_get_request ctx (frame : cbor_item) : option (block_handler_ctx_t * list client_effect) :=
  if negb (blk_authenticated ctx) then Some (ctx, [unauthorized]) else
  with_decoded (client_api_block_get_request_decode frame)
    (ctx, [send_error CLIENT_API_STATUS_BAD_REQUEST "Invalid block GET request"]) (fun msg =>
  Some (set_pending BLOCK_OP_GET ctx, [CALL (Block_cache_get (bget_hash msg))])).

Definition block_handle_delete_request ctx (frame : cbor_item) : option (block_handler_ctx_t * list client_effect) :=
  if negb (blk_authenticated ctx) then Some (ctx, [unauthorized]) else
  with_decoded (client_api_block_delete_request_decode frame)
    (ctx, [send_error CLIENT_API_STATUS_BAD_REQUEST "Invalid block DELETE request"]) (fun msg =>
  Some (set_pending BLOCK_OP_DELETE ctx, [CALL (Block_cache_remove (bdel_hash msg) (bdel_force msg))])).

(** The reply to a stored block. *)
Definition put_reply (encoding result : Z) (hash : option bytes) : option (list client_effect) :=
  match hash with
  | None => Some [send_error CLIENT_API_STATUS_INTERNAL_ERROR "Failed to store block"]
  | Some hash =>
      if result <? 0 then Some [send_error CLIENT_API_STATUS_INTERNAL_ERROR "Failed to store block"] else
      if encoding =? 1 then
        match base58_encode hash (base58_encoded_length (blen hash)) with
        | None => None
        | Some (B58_OK ((_ :: _) as encoded)) =>
            Some [SEND (client_api_block_put_response_encode
              {| bputr_status := CLIENT_API_STATUS_OK; bputr_hash := encoded; bputr_hash_is_text := 1 |})]
        | Some _ => Some [send_error CLIENT_API_STATUS_INTERNAL_ERROR "Base58 encoding failed"]
        end
      else
        Some [SEND (client_api_block_put_response_encode
          {| bputr_status := CLIENT_API_STATUS_OK; bputr_hash := hash; bputr_hash_is_text := 0 |})]
  end.

(** The context and the reply; the result is dropped when the operation it
    belongs to is not pending. *)
Definition block_handle_cache_result ctx (msg : cache_result) : option (block_handler_ctx_t * list client_effect) :=
  match msg with
  | Put_result result hash =>
      if bool_decide (blk_pending_op ctx <> BLOCK_OP_PUT) then Some (ctx, []) else
      reply ← put_reply (blk_put_encoding ctx) result hash;
      Some (set_pending BLOCK_OP_NONE ctx, reply)
  | Get_result block =>
      if bool_decide (blk_pending_op ctx <> BLOCK_OP_GET) then Some (ctx, []) else
      Some (set_pending BLOCK_OP_NONE ctx, [SEND (client_api_block_get_response_encode
        match block with
        | None => {| bgetr_status := CLIENT_API_STATUS_NOT_FOUND; bgetr_data := [] |}
        | Some b => {| bgetr_status := CLIENT_API_STATUS_OK; bgetr_data := buf_data (blk_data b) |}
        end)])
  | Remove_result result =>
      if bool_decide (blk_pending_op ctx <> BLOCK_OP_DELETE) then Some (ctx, []) else
      Some (set_pending BLOCK_OP_NONE ctx,
        [if result =? CACHE_REMOVE_PINNED then send_error CLIENT_API_STATUS_CONFLICT "block is pinned"
         else if result =? CACHE_REMOVE_EPHEMERAL_CLAIMED then
           send_error CLIENT_API_STATUS_CONFLICT "block has ephemeral claims"
         else SEND (client_api_block_delete_response_encode
           {| bdelr_status := if result =? 0 then CLIENT_API_STATUS_OK else CLIENT_API_STATUS_NOT_FOUND |})])
  end.

(** [capacity_json] is what cJSON prints for the capacity and [save] the
    outcome of config_pending_save.  [bc] is whether there is a cache. *)
Definition cache_resize_stage_and_dispatch (bc : bool) (capacity_json : Z -> option bytes) (save : bytes -> bool)
    (capacity_bytes : Z) : string + list client_effect :=
  if negb bc then inl "cache not available" else
  match capacity_json capacity_bytes with
  | None => inl "failed to serialize config"
  | Some obj_str =>
      if save obj_str then inr [CALL (Config_pending_save obj_str); CALL (Block_cache_resize capacity_bytes)]
      else inl "failed to write pending config"
  end.

Definition cache_handle_resize_request ctx (bc : bool) (capacity_json : Z -> option bytes) (save : bytes -> bool)
    (frame : cbor_item) : option (block_handler_ctx_t * list client_effect) :=
  if negb (blk_authenticated ctx) then Some (ctx, [unauthorized]) else
  if negb bc || negb (blk_data_dir ctx) then
    Some (ctx, [send_error CLIENT_API_STATUS_INTERNAL_ERROR "cache not available"]) else
  with_decoded (client_api_cache_resize_request_decode frame)
    (ctx, [send_error CLIENT_API_STATUS_BAD_REQUEST "malformed cache resize request"]) (fun req =>
  if resize_capacity_bytes req =? 0 then
    Some (ctx, [send_error CLIENT_API_STATUS_BAD_REQUEST "capacity_bytes must be > 0"]) else
  match cache_resize_stage_and_dispatch bc capacity_json save (resize_capacity_bytes req) with
  | inl err_buf => Some (set_pending BLOCK_OP_NONE ctx, [send_error CLIENT_API_STATUS_INTERNAL_ERROR err_buf])
  | inr effs => Some (set_pending BLOCK_OP_RESIZE ctx, effs)
  end).

Definition cache_handle_resize_result ctx (max_capacity_bytes current_bytes : Z)
  : block_handler_ctx_t * list client_effect :=
  if bool_decide (blk_pending_op ctx <> BLOCK_OP_RESIZE) then (ctx, []) else
  (set_pending BLOCK_OP_NONE ctx, [SEND (client_api_cache_resize_response_encode
    {| resizer_status := CLIENT_API_STATUS_OK; resizer_applied_live := 1;
       resizer_max_capacity_bytes := max_capacity_bytes; resizer_current_bytes := current_bytes |})]).
End BlockHandlers.

(** ** Configuration *)

(** The functions of src/src/Configuration and of cJSON the handlers call:
    [cfg_show] is the printed configuration, [cfg_field] the printed object of
    a field with its parsed value or the text of the error. *)
Record config_services := {
  cfg_node : bool;                                  (* ctx->node and its config are set *)
  cfg_data_dir : bool;
  cfg_show : option bytes;
  config_is_known_field : bytes -> bool;
  cfg_field : bytes -> bytes -> bytes + option bytes;
  config_pending_save : bytes -> bool;
  config_pending_exists : bool
}.

Section ConfigHandlers.
Context {C : Cbor} {P : PeerInfo}.
Variable cfg : config_services.
Variable authenticated : bool.

Definition _config_ctx_ready : bool := cfg_node cfg && cfg_data_dir cfg.

Definition config_handle_show_request : list client_effect :=
  if negb authenticated then [unauthorized] else
  if negb _config_ctx_ready then [send_error CLIENT_API_STATUS_INTERNAL_ERROR "config not available"] else
  match cfg_show cfg with
  | None => [send_error CLIENT_API_STATUS_INTERNAL_ERROR "config serialization failed"]
  | Some json_str => [SEND (client_api_config_show_response_encode {| config_json_data := Some json_str |})]
  end.

(** The outcome of staging one field: the status, whether a restart is needed,
    the message and the object that was saved. *)
Definition stage_field (field value : bytes) : client_api_config_set_response_t * list client_effect :=
  let rejected message := ({| csetr_status := 1; csetr_restart_required := 0; csetr_message := Some message |}, []) in
  if negb (config_is_known_field cfg field) then rejected (lit "unknown field") else
  match cfg_field cfg field value with
  | inl err_buf => rejected (match err_buf with [] => lit "invalid value" | _ => err_buf end)
  | inr None => rejected (lit "failed to serialize config")
  | inr (Some obj_str) =>
      if config_pending_save cfg obj_str then
        ({| csetr_status := 0; csetr_restart_required := 1; csetr_message := Some (lit "staged; restart to apply") |},
         [CALL (Config_pending_save obj_str)])
      else rejected (lit "failed to write pending config")
  end.

Definition config_handle_set_request (frame : cbor_item) : option (list client_effect) :=
  if negb authenticated then Some [unauthorized] else
  if negb _config_ctx_ready then Some [send_error CLIENT_API_STATUS_INTERNAL_ERROR "config not available"] else
  with_decoded (client_api_config_set_request_decode frame)
    [send_error CLIENT_API_STATUS_BAD_REQUEST "malformed config set request"] (fun req =>
  let '(resp, effs) := stage_field (default [] (cset_field req)) (default [] (cset_value req)) in
  Some (effs ++ [SEND (client_api_config_set_response_encode resp)])).

(** [trigger_restart] and [offs_node_restart] both restart the node. *)
Definition config_handle_reload_request : list client_effect :=
  if negb authenticated then [unauthorized] else
  if negb _config_ctx_ready then [send_error CLIENT_API_STATUS_INTERNAL_ERROR "config not available"] else
  if negb (config_pending_exists cfg) then
    [SEND (client_api_config_reload_response_encode
      {| creload_status := 1; creload_message := Some (lit "no pending config to apply") |})]
  else
    [SEND (client_api_config_reload_response_encode
      {| creload_status := 0; creload_message := Some (lit "restarting") |}); CALL Node_restart].
End ConfigHandlers.

(** ** Representations and garbage collection *)

Section RepresentationApi.
Context {C : Cbor} {P : PeerInfo}.

Definition _rep_api_op_dispatch (response_code result blocks_touched : Z) : option (list client_effect) :=
  frame ← client_api_rep_response_encode response_code
    {| rep_status := if result =? 0 then 0 else 1; rep_blocks := blocks_touched |};
  Some [SEND frame].

Definition failed_row (f : gc_failure) : cbor_item :=
  definite 3 [cbor_build_uint64 (gf_line f); cbor_build_uint8 (gf_reason f); cbor_build_string (gf_text f)].

Definition _rep_api_gc_dispatch (result : option block_gc_result_t) : list client_effect :=
  match result with
  | None => [send_error CLIENT_API_STATUS_INTERNAL_ERROR "Keep-list GC failed"]
  | Some result =>
      let rows := take CLIENT_API_GC_MAX_FAILED_ROWS (gr_failed result) in
      [SEND (client_api_gc_response_encode {|
        gcr_status := if gr_status result =? 0 then CLIENT_API_STATUS_OK else CLIENT_API_STATUS_INTERNAL_ERROR;
        gcr_urls_request := Z.of_nat (gr_urls_request result);
        gcr_urls_collected := Z.of_nat (gr_urls_collected result);
        gcr_blocks_deleted := Z.of_nat (sc_deleted (gr_sweep result));
        gcr_blocks_kept := Z.of_nat (sc_kept (gr_sweep result));
        gcr_skipped_pinned := Z.of_nat (sc_pinned (gr_sweep result));
        gcr_skipped_claimed := Z.of_nat (sc_claimed (gr_sweep result));
        gcr_defrag_applied := if dc_applied (gr_defrag result) then 1 else 0;
        gcr_failed := match rows with [] => None | _ => Some (definite (length rows) (map failed_row rows)) end;
        gcr_defrag_sections := Z.of_nat (dc_sections (gr_defrag result));
        gcr_defrag_blocks_relocated := Z.of_nat (dc_relocated (gr_defrag result)) |})]
  end.

(** An entry of the cache's list: a hash of any length or none, and counts. *)
Definition list_hash (hash : option bytes) : bytes :=
  let data := take 32 (default [] hash) in data ++ replicate (32 - length data) 0.

Definition _rep_api_list_dispatch (payload : option (list (option bytes * Z * Z))) : option (list client_effect) :=
  match payload with
  | None => Some [send_error CLIENT_API_STATUS_INTERNAL_ERROR "Ephemeral list failed"]
  | Some entries =>
      frame ← client_api_ephemeral_list_response_encode
        (ephemeral_entries CLIENT_API_STATUS_OK (map (fun e => (list_hash e.1.1, e.1.2, e.2)) entries));
      Some [SEND frame]
  end.

Definition rep_op (op_code : Z) : option representation_op_e :=
  if op_code =? CLIENT_API_REP_MARK_PERMANENT_REQUEST then Some REPRESENTATION_OP_MARK_PERMANENT
  else if op_code =? CLIENT_API_REP_DELETE_EPHEMERAL_REQUEST then Some REPRESENTATION_OP_DELETE_EPHEMERAL
  else if op_code =? CLIENT_API_REP_PIN_REQUEST then Some REPRESENTATION_OP_PIN
  else if op_code =? CLIENT_API_REP_UNPIN_REQUEST then Some REPRESENTATION_OP_UNPIN
  else None.

(** The cache, the pool and the frame are set on every transport; [send_error]
    is always given. *)
Definition client_api_representation_handle (frame : cbor_item) (op_code : Z) : option (list client_effect) :=
  if op_code =? CLIENT_API_GC_REQUEST then
    with_decoded (client_api_gc_request_decode frame)
      [send_error CLIENT_API_STATUS_BAD_REQUEST "Invalid keep-list GC request"] (fun gc_request =>
    Some [CALL (Block_gc_create (default [] (gcq_urls gc_request)) (gcq_force gc_request) (gcq_defrag gc_request))])
  else if op_code =? CLIENT_API_EPHEMERAL_LIST_REQUEST then Some [CALL Block_cache_list_ephemeral]
  else
    with_decoded (client_api_rep_request_decode frame)
      [send_error CLIENT_API_STATUS_BAD_REQUEST "Invalid representation op request"] (fun request =>
    match off_url_parse (default [] (rep_url request)) with
    | None => Some [send_error CLIENT_API_STATUS_BAD_REQUEST "Invalid OFF URL"]
    | Some url =>
        match descriptor_hash url with
        | None => Some [send_error CLIENT_API_STATUS_BAD_REQUEST "Invalid OFF URL"]
        | Some h =>
            match rep_op op_code with
            | None => Some [send_error CLIENT_API_STATUS_BAD_REQUEST "Unknown representation op"]
            | Some op => Some [CALL (Representation_create h op (op_code + 1))]
            end
        end
    end).
End RepresentationApi.

(** ** Peers *)

(** An entry of the network's snapshot of its peers. *)
Record network_peer_snapshot_entry_t := {
  peer_node_hash : bytes; peer_connected : bool; peer_is_friend : bool; peer_in_ring : bool; peer_rtt_ewma : spec_float
}.

(** The functions of src/src/Network and src/src/QR the handlers call. *)
Record peer_services {C : Cbor} {P : PeerInfo} := {
  net_network : bool;                              (* ctx->network != NULL *)
  net_peer_book : bool;                            (* its peer book is set *)
  net_authority : option bool;                     (* ctx->authority; whether it has a public key *)
  peer_info_from_node : option peer_info;          (* the local node's information *)
  peer_info_encode : peer_info -> option cbor_item;
  peer_info_decode : cbor_item -> option peer_info;
  peer_info_from_base58 : bytes -> option peer_info;
  qr_encode_to_ppm : bytes -> option bytes;
  qr_decode_from_ppm : bytes -> option bytes;
  network_connect_started : peer_info -> bool -> bool;
  network_peer_snapshot : option (list network_peer_snapshot_entry_t);
  peer_book_friend_add : peer_info -> Z;
  peer_book_friends : option (list (option peer_info));
  peer_book_bootstrap_add : bytes -> Z;
  peer_book_bootstrap_remove : bytes -> Z;
  peer_book_bootstrap : option (list (option bytes) * list (option bytes));
  endpoint_parse : bytes -> option (bytes * Z);
  (** [cbor_new_definite_map] and a [cbor_map_add] of each pair. *)
  cbor_map : list (cbor_item * cbor_item) -> cbor_item
}.

Section PeerHandlers.
Context {C : Cbor} {CS : CborSerial} {P : PeerInfo}.
Variable net : peer_services.
Variable authenticated : bool.

Definition peer_info_from_payload (format : Z) (data : bytes) : option peer_info :=
  if format =? 0 then cbor_load data ≫= peer_info_decode net
  else if format =? 1 then peer_info_from_base58 net (cstr data)
  else if format =? 2 then payload ← qr_decode_from_ppm net data; cbor_load payload ≫= peer_info_decode net
  else None.

Definition connect_result (status : Z) : client_effect :=
  SEND (client_api_peer_connect_result_encode {| pconnr_status := status |}).

(** The payload of the reply in the format asked for; the outer [None] is a
    write outside an object. *)
Definition info_payload (format : Z) (serialized : bytes) : option (string + client_api_peer_info_response_t) :=
  if format =? 2 then
    Some (match qr_encode_to_ppm net serialized with
          | None => inl "QR encoding failed"
          | Some ppm => inr {| pinfo_format := 2; pinfo_data := ppm |}
          end)
  else if format =? 1 then
    b58 ← base58_encode serialized (base58_encoded_length (blen serialized) + 1);
    Some (match b58 with
          | B58_OK ((_ :: _) as text) => inr {| pinfo_format := 1; pinfo_data := text |}
          | _ => inl "Base58 encoding failed"
          end)
  else Some (inr {| pinfo_format := 0; pinfo_data := serialized |}).

Definition peer_handle_info_request (frame : cbor_item) : option (list client_effect) :=
  if negb authenticated then Some [unauthorized] else
  with_decoded (client_api_peer_info_request_decode frame)
    [send_error CLIENT_API_STATUS_BAD_REQUEST "Invalid peer info request"] (fun request =>
  has_key ← net_authority net;
  if negb has_key then Some [send_error CLIENT_API_STATUS_INTERNAL_ERROR "No local public key configured"] else
  match peer_info_from_node net with
  | None => Some [send_error CLIENT_API_STATUS_INTERNAL_ERROR "Failed to populate local addresses"]
  | Some local_info =>
      match peer_info_encode net local_info with
      | None => Some [send_error CLIENT_API_STATUS_INTERNAL_ERROR "Failed to encode peer info"]
      | Some cbor_map =>
          match cbor_serialize cbor_map with
          | [] => Some [send_error CLIENT_API_STATUS_INTERNAL_ERROR "CBOR serialization failed"]
          | serialized =>
              payload ← info_payload (pir_format request) serialized;
              Some [match payload with
                    | inl message => send_error CLIENT_API_STATUS_INTERNAL_ERROR message
                    | inr response => SEND (client_api_peer_info_response_encode response)
                    end]
          end
      end
  end).

Definition peer_handle_connect (frame : cbor_item) : option (list client_effect) :=
  if negb authenticated then Some [unauthorized] else
  with_decoded (client_api_peer_connect_decode frame)
    [send_error CLIENT_API_STATUS_BAD_REQUEST "Invalid peer connect message"] (fun msg =>
  match peer_info_from_payload (pconn_format msg) (pconn_data msg) with
  | None => Some [send_error CLIENT_API_STATUS_BAD_REQUEST "Failed to decode peer info"]
  | Some remote_info =>
      let connected := network_connect_started net remote_info false in
      Some [CALL (Network_connect remote_info false);
            connect_result (if connected then CLIENT_API_STATUS_OK else CLIENT_API_STATUS_BAD_REQUEST)]
  end).

Definition CLIENT_API_PEER_LIST_KEY_NODE_ID : Z := 1.
Definition CLIENT_API_PEER_LIST_KEY_CONNECTED : Z := 2.
Definition CLIENT_API_PEER_LIST_KEY_IS_FRIEND : Z := 3.
Definition CLIENT_API_PEER_LIST_KEY_RTT_MS : Z := 4.

Definition peer_entry (peer : network_peer_snapshot_entry_t) : cbor_item :=
  cbor_map net [
    (cbor_build_uint8 CLIENT_API_PEER_LIST_KEY_NODE_ID, cbor_build_bytestring (peer_node_hash peer));
    (cbor_build_uint8 CLIENT_API_PEER_LIST_KEY_CONNECTED, cbor_build_uint8 (if peer_connected peer then 1 else 0));
    (cbor_build_uint8 CLIENT_API_PEER_LIST_KEY_IS_FRIEND, cbor_build_uint8 (if peer_is_friend peer then 1 else 0));
    (cbor_build_uint8 CLIENT_API_PEER_LIST_KEY_RTT_MS, cbor_build_float8 (peer_rtt_ewma peer))].

Definition peer_handle_list_request : list client_effect :=
  if negb authenticated then [unauthorized] else
  match network_peer_snapshot net with
  | None => [CALL Peer_snapshot; send_error CLIENT_API_STATUS_INTERNAL_ERROR "Failed to snapshot peer list"]
  | Some snapshot =>
      let valid := List.filter (fun peer => negb (peer_in_ring peer)) snapshot in
      [CALL Peer_snapshot; SEND (client_api_peer_list_response_encode
        {| peers := Some (definite (length valid) (map peer_entry valid)) |})]
  end.

Definition peering_unavailable : client_effect :=
  send_error CLIENT_API_STATUS_INTERNAL_ERROR "Peering unavailable on this transport".

Definition peer_handle_friend_add (frame : cbor_item) : option (list client_effect) :=
  if negb authenticated then Some [unauthorized] else
  if negb (net_network net) || negb (net_peer_book net) then Some [peering_unavailable] else
  with_decoded (client_api_friend_add_decode frame)
    [send_error CLIENT_API_STATUS_BAD_REQUEST "Invalid friend add message"] (fun msg =>
  match peer_info_from_payload (fadd_format msg) (fadd_data msg) with
  | None => Some [send_error CLIENT_API_STATUS_BAD_REQUEST "Failed to decode friend peer info"]
  | Some new_friend =>
      let add_result := peer_book_friend_add net new_friend in
      if negb (add_result =? 0) && negb (add_result =? -2) then
        Some [CALL (Friend_add new_friend); connect_result CLIENT_API_STATUS_BAD_REQUEST] else
      let connected := network_connect_started net new_friend true in
      Some [CALL (Friend_add new_friend); CALL Network_mark_dirty; CALL (Network_connect new_friend true);
            connect_result (if connected then CLIENT_API_STATUS_OK else CLIENT_API_STATUS_BAD_REQUEST)]
  end).

(** The hash of a node id of any length, cut or filled with zeros. *)
Definition node_hash_of (node_id : bytes) : bytes :=
  let copied := take NODE_ID_HASH_SIZE node_id in copied ++ replicate (NODE_ID_HASH_SIZE - length copied) 0.

Definition peer_handle_friend_remove (frame : cbor_item) : option (list client_effect) :=
  if negb authenticated then Some [unauthorized] else
  if negb (net_network net) || bool_decide (net_authority net = None) then Some [peering_unavailable] else
  with_decoded (client_api_friend_remove_decode frame)
    [send_error CLIENT_API_STATUS_BAD_REQUEST "Invalid friend remove message"] (fun msg =>
  let target := node_hash_of (fremove_node_id msg) in
  Some [CALL (Friend_remove target); CALL (Network_peer_remove target); CALL Network_mark_dirty;
        connect_result CLIENT_API_STATUS_OK]).

(** A friend that cannot be encoded is skipped. *)
Definition friend_item (friend_info : option peer_info) : option cbor_item :=
  info ← friend_info;
  map ← peer_info_encode net info;
  match cbor_serialize map with [] => None | serialized => Some (cbor_build_bytestring serialized) end.

Definition peer_handle_friend_list_request : list client_effect :=
  if negb authenticated then [unauthorized] else
  if negb (net_network net) || negb (net_peer_book net) then [peering_unavailable] else
  match peer_book_friends net with
  | None => [CALL Friend_snapshot; send_error CLIENT_API_STATUS_INTERNAL_ERROR "Friend list snapshot failed"]
  | Some infos =>
      [CALL Friend_snapshot; SEND (client_api_friend_list_response_encode
        {| friends := Some (definite (length infos) (omap friend_item infos)) |})]
  end.

Definition CLIENT_API_BOOTSTRAP_SOURCE_CONFIG : Z := 0.
Definition CLIENT_API_BOOTSTRAP_SOURCE_MANAGED : Z := 1.

(** [None] is an endpoint that is skipped; the host is cut at its buffer by
    [endpoint_parse]. *)
Definition _push_bootstrap_entry (source : Z) (endpoint : option bytes) : option cbor_item :=
  endpoint ← endpoint;
  '(host, port) ← endpoint_parse net endpoint;
  Some (definite 3 [cbor_build_string host; cbor_build_uint16 port; cbor_build_uint8 source]).

Definition peer_handle_bootstrap_add (frame : cbor_item) : option (list client_effect) :=
  if negb authenticated then Some [unauthorized] else
  if negb (net_network net) || negb (net_peer_book net) then Some [peering_unavailable] else
  with_decoded (client_api_bootstrap_add_decode frame)
    [send_error CLIENT_API_STATUS_BAD_REQUEST "Invalid bootstrap add message"] (fun msg =>
  let endpoint := default [] (badd_endpoint msg) in
  let add_result := peer_book_bootstrap_add net endpoint in
  if negb (add_result =? 0) then
    Some [CALL (Bootstrap_add endpoint);
          connect_result (if add_result =? -2 then CLIENT_API_STATUS_CONFLICT else CLIENT_API_STATUS_BAD_REQUEST)]
  else
    Some ([CALL (Bootstrap_add endpoint); CALL Network_mark_dirty] ++
      (match endpoint_parse net endpoint with
       | Some (host, port) => [CALL (Network_connect_host host port)]
       | None => []
       end) ++ [connect_result CLIENT_API_STATUS_OK])).

Definition peer_handle_bootstrap_remove (frame : cbor_item) : option (list client_effect) :=
  if negb authenticated then Some [unauthorized] else
  if negb (net_network net) || bool_decide (net_authority net = None) then Some [peering_unavailable] else
  with_decoded (client_api_bootstrap_remove_decode frame)
    [send_error CLIENT_API_STATUS_BAD_REQUEST "Invalid bootstrap remove message"] (fun msg =>
  let endpoint := default [] (bremove_endpoint msg) in
  let remove_result := peer_book_bootstrap_remove net endpoint in
  Some (if remove_result =? 0 then
          [CALL (Bootstrap_remove endpoint); CALL Network_mark_dirty; connect_result CLIENT_API_STATUS_OK]
        else
          [CALL (Bootstrap_remove endpoint);
           connect_result (if remove_result =? -2 then CLIENT_API_STATUS_CONFLICT else CLIENT_API_STATUS_NOT_FOUND)])).

Definition peer_handle_bootstrap_list_request : list client_effect :=
  if negb authenticated then [unauthorized] else
  if negb (net_network net) || negb (net_peer_book net) then [peering_unavailable] else
  match peer_book_bootstrap net with
  | None => [CALL Bootstrap_snapshot; send_error CLIENT_API_STATUS_INTERNAL_ERROR "Bootstrap list snapshot failed"]
  | Some (config_endpoints, managed_endpoints) =>
      [CALL Bootstrap_snapshot; SEND (client_api_bootstrap_list_response_encode {|
        bootstrap_entries := Some (definite (length config_endpoints + length managed_endpoints)
          (omap (_push_bootstrap_entry CLIENT_API_BOOTSTRAP_SOURCE_CONFIG) config_endpoints ++
           omap (_push_bootstrap_entry CLIENT_API_BOOTSTRAP_SOURCE_MANAGED) managed_endpoints)) |})]
  end.
End PeerHandlers.
