(* ===== verification/UnixPipelines.v ===== *)
(** * UnixPipelines: the streams behind a request of a Unix client

    Models the pipeline callbacks of src/src/ClientAPI/Unix/unix_connection.c.
    A GET, LOAD or PUT request creates a pair of streams (modelled in OffRead,
    DescRead, OffWrite and DescWrite); the pipeline subscribes to their events,
    passes tuples from one stream to the other and sends frames to the client.
    A callback returns the new pipeline and what it does.  Reference counts are
    not modelled. *)

From S2P Require Import Prelude Block Tuple Cbor WireBase OffUrl OffWrite DescRead OffRead.
From stdpp Require Import strings.
From S2P Require Import ClientApiBase ClientApiTransfer ClientHandlers.
Local Open Scope Z_scope.

(** What a callback does: a frame for the client, or a call on a stream. *)
Inductive pipeline_effect {C : Cbor} {D : Type} :=
| Send (frame : cbor_item)
| Reader_write (t : tuple_t)
| Reader_request_close
| Reader_deactivate
| Reader_descriptor_deactivate
| Writer_deactivate
| Descriptor_write (data : D)
| Descriptor_close
| Descriptor_deactivate
| Registry_add (descriptor_hash : bytes).
Arguments pipeline_effect {C} D.

Section SendErrorFrame.
Context {C : Cbor} {D : Type}.

Definition send_error_frame (status : Z) (message : bytes) : pipeline_effect D :=
  Send (client_api_error_encode {| error_status_code := status; error_message := Some message |}).
End SendErrorFrame.

(** ** GET *)

Inductive get_event :=
| Get_tuple (t : tuple_t)       (* data_event of the descriptor *)
| Get_data (data : bytes)       (* data_event of the reader *)
| Get_close | Get_error         (* of the reader *)
| Get_desc_close | Get_desc_error.

Section GetPipeline.
Context {C : Cbor}.

Definition _unix_get_on_tuple (t : tuple_t) : list (pipeline_effect tuple_t) := [Reader_write t].

Definition _unix_get_on_rs_data (data : bytes) : list (pipeline_effect tuple_t) :=
  [Send (client_api_get_data_encode {| get_data_data := data |})].

Definition _unix_get_on_rs_close : list (pipeline_effect tuple_t) := [Send client_api_get_end_encode].

Definition _unix_get_on_rs_error : list (pipeline_effect tuple_t) :=
  [send_error_frame CLIENT_API_STATUS_INTERNAL_ERROR (lit "Stream error"); Reader_deactivate].

Definition _unix_get_on_desc_error : list (pipeline_effect tuple_t) :=
  [send_error_frame CLIENT_API_STATUS_NOT_FOUND (lit "Not found"); Reader_deactivate; Reader_descriptor_deactivate].

(** The subscriptions of the pipeline. *)
Definition get_on_event (e : get_event) : list (pipeline_effect tuple_t) :=
  match e with
  | Get_tuple t => _unix_get_on_tuple t
  | Get_data data => _unix_get_on_rs_data data
  | Get_close => _unix_get_on_rs_close
  | Get_error => _unix_get_on_rs_error
  | Get_desc_close => []
  | Get_desc_error => _unix_get_on_desc_error
  end.
End GetPipeline.

(** ** LOAD *)

Definition CLIENT_API_LOAD_STATUS_LOADED : Z := 0.
Definition CLIENT_API_LOAD_STATUS_PARTIAL : Z := 1.
Definition CLIENT_API_LOAD_STATUS_FAILED : Z := 2.

Record unix_load_pipeline_t := mk_load {
  lp_tuples_total : Z;
  lp_tuples_loaded : Z;
  lp_tuples_skipped : Z;
  lp_failed : bool;
  lp_terminal_sent : bool
}.

Inductive load_event :=
| Load_tuple (t : tuple_t)
| Load_progress (progress : option (Z * Z))   (* tuples loaded and skipped *)
| Load_close
| Load_error (rs_deactivated : bool)   (* the flags of the streams when it is handled *)
| Load_desc_close
| Load_desc_error (rs_deactivated desc_deactivated : bool).

Section LoadPipeline.
Context {C : Cbor}.

Implicit Types p : unix_load_pipeline_t.

Definition load_status p : Z :=
  if lp_failed p then CLIENT_API_LOAD_STATUS_FAILED
  else if (0 <? lp_tuples_total p) && (lp_tuples_loaded p =? 0) then CLIENT_API_LOAD_STATUS_FAILED
  else if 0 <? lp_tuples_skipped p then CLIENT_API_LOAD_STATUS_PARTIAL
  else CLIENT_API_LOAD_STATUS_LOADED.

Definition _unix_load_send_terminal p : unix_load_pipeline_t * list (pipeline_effect tuple_t) :=
  if lp_terminal_sent p then (p, []) else
  (mk_load (lp_tuples_total p) (lp_tuples_loaded p) (lp_tuples_skipped p) (lp_failed p) true,
   [Send (client_api_load_end_encode {| load_end_status := load_status p; load_end_loaded := lp_tuples_loaded p;
      load_end_total := lp_tuples_total p |})]).

Definition _unix_load_on_tuple_loaded (progress : option (Z * Z)) p
  : unix_load_pipeline_t * list (pipeline_effect tuple_t) :=
  let p :=
    match progress with
    | Some (loaded, skipped) => mk_load (lp_tuples_total p) loaded skipped (lp_failed p) (lp_terminal_sent p)
    | None => p
    end in
  (p, [Send (client_api_load_progress_encode
         {| progress_loaded := lp_tuples_loaded p; progress_total := lp_tuples_total p |})] ++
      (if lp_tuples_total p <=? u64 (lp_tuples_loaded p + lp_tuples_skipped p) then [Reader_request_close] else [])).

Definition set_failed p : unix_load_pipeline_t :=
  mk_load (lp_tuples_total p) (lp_tuples_loaded p) (lp_tuples_skipped p) true (lp_terminal_sent p).

Definition _unix_load_on_rs_error (rs_deactivated : bool) p
  : unix_load_pipeline_t * list (pipeline_effect tuple_t) :=
  (set_failed p, if rs_deactivated then [] else [Reader_deactivate]).

Definition _unix_load_on_desc_error (rs_deactivated desc_deactivated : bool) p
  : unix_load_pipeline_t * list (pipeline_effect tuple_t) :=
  (set_failed p, (if rs_deactivated then [] else [Reader_deactivate]) ++
                 (if desc_deactivated then [] else [Reader_descriptor_deactivate])).

Definition load_on_event (e : load_event) p : unix_load_pipeline_t * list (pipeline_effect tuple_t) :=
  match e with
  | Load_tuple t => (p, [Reader_write t])
  | Load_progress progress => _unix_load_on_tuple_loaded progress p
  | Load_close => _unix_load_send_terminal p
  | Load_error rs => _unix_load_on_rs_error rs p
  | Load_desc_close => (p, [])
  | Load_desc_error rs desc => _unix_load_on_desc_error rs desc p
  end.
End LoadPipeline.

(** ** PUT *)

(** A data event of the writer: [buffer_t] and [tuple_t] have the same layout,
    so that the size of a buffer is read where a tuple has its count. *)
Inductive writer_data := Data_hash (hash : bytes) | Data_tuple (t : tuple_t).

Definition data_size (d : writer_data) : nat :=
  match d with Data_hash h => length h | Data_tuple t => count t end.

Record unix_put_pipeline_t := mk_put {
  pp_content_type : bytes;
  pp_file_name : bytes;
  pp_stream_length : Z;
  pp_server_address : option bytes;
  pp_temporary : bool;
  pp_file_hash : option writer_data;
  pp_descriptor_hash : option bytes
}.

Inductive put_event :=
| Put_data (d : writer_data)
| Put_close
| Put_error (message : option bytes)
| Put_desc_data (hash : bytes)
| Put_desc_close
| Put_desc_error.

Section PutPipeline.
Context {C : Cbor}.
(** Whether the cache has an ephemeral registry, and what [buffer_copy] makes
    of a tuple: the first bytes of its array of pointers. *)
Variable registry : bool.
Variable pointer_bytes : tuple_t -> bytes.

Implicit Types p : unix_put_pipeline_t.

Definition _unix_put_on_stream_data (d : writer_data) p : unix_put_pipeline_t * list (pipeline_effect writer_data) :=
  if (data_size d =? 32)%nat && bool_decide (pp_file_hash p = None) then
    (mk_put (pp_content_type p) (pp_file_name p) (pp_stream_length p) (pp_server_address p) (pp_temporary p)
       (Some d) (pp_descriptor_hash p), [])
  else (p, [Descriptor_write d]).

Definition _unix_put_on_descriptor_data (hash : bytes) p : unix_put_pipeline_t :=
  mk_put (pp_content_type p) (pp_file_name p) (pp_stream_length p) (pp_server_address p) (pp_temporary p)
    (pp_file_hash p) (Some hash).

(** [None] is a null pointer that is dereferenced: a hash that was never
    reported, or a URL that cannot be printed. *)
Definition _unix_put_on_descriptor_close p : option (list (pipeline_effect writer_data)) :=
  file_hash ← pp_file_hash p;
  descriptor_hash ← pp_descriptor_hash p;
  let url := mk_off_url (default (server_address off_url_create) (pp_server_address p)) (pp_content_type p)
    (pp_stream_length p) (stream_offset off_url_create)
    (Some (match file_hash with Data_hash h => h | Data_tuple t => pointer_bytes t end))
    (Some descriptor_hash) (Some (pp_file_name p)) in
  ori_string ← (match off_url_to_string url with
                | NULL_DEREFERENCE => None
                | RETURN_NULL => Some None
                | RETURN s => Some (Some s)
                end);
  Some ((if pp_temporary p && registry then [Registry_add descriptor_hash] else []) ++
    [Send (client_api_put_response_encode {| put_response_ori_string := ori_string |})]).

Definition put_on_event (e : put_event) p : option (unix_put_pipeline_t * list (pipeline_effect writer_data)) :=
  match e with
  | Put_data d => Some (_unix_put_on_stream_data d p)
  | Put_close => Some (p, [Descriptor_close])
  | Put_error message =>
      Some (p, [send_error_frame CLIENT_API_STATUS_INTERNAL_ERROR (default (lit "PUT stream error") message); Writer_deactivate])
  | Put_desc_data hash => Some (_unix_put_on_descriptor_data hash p, [])
  | Put_desc_close => effs ← _unix_put_on_descriptor_close p; Some (p, effs)
  | Put_desc_error =>
      Some (p, [send_error_frame CLIENT_API_STATUS_INTERNAL_ERROR (lit "PUT descriptor error"); Descriptor_deactivate; Writer_deactivate])
  end.
End PutPipeline.
