(* ===== verification/UnixConnection.v ===== *)
(** * UnixConnection: a client connected over a Unix socket

    Models src/src/ClientAPI/Unix/unix_connection.c (the POSIX branches): the
    actor that takes frames out of the socket's bytes, dispatches each request,
    starts the pipelines of UnixPipelines, and writes the replies to a socket
    that does not block.

    A reply is not written where it is made: it is posted to the actor's own
    mailbox ([Post_write]) and put on the wire when that message is handled.
    The files a client puts are numbered, in place of the pointers to their
    streams.  The copies of a request's strings the connection only keeps to
    free them, and [get_phase], which is never read, are not modelled. *)

From S2P Require Import BlockCache.
From S2P Require Import Prelude Effect Block Cbor WireBase Framer OffUrl DescRead.
From stdpp Require Import strings.
From S2P Require Import ClientApiBase ClientApiTransfer ClientApiBlock ClientApiAdmin ClientApiOps ClientHandlers UnixPipelines.
Local Open Scope Z_scope.

(** ** The size of a file in the cache *)

Definition writeable_off_stream_estimate_required_bytes (stream_length tuple_size descriptor_pad : Z) : Z :=
  if (descriptor_pad =? 0) || (tuple_size =? 0) then 0 else
  let block_size := 128000 in
  let data_blocks := u64 (stream_length + block_size - 1) / block_size in
  if data_blocks =? 0 then 0 else
  let tuple_blocks := u64 (data_blocks * tuple_size) in
  let tuple_metadata := u64 (data_blocks * tuple_size * descriptor_pad) in
  let cut_point := block_size / descriptor_pad * descriptor_pad in
  let chunk_data_size := cut_point - descriptor_pad in
  let descriptor_blocks := u64 (tuple_metadata + chunk_data_size - 1) / chunk_data_size in
  u64 ((tuple_blocks + descriptor_blocks) * block_size).

(** ** State *)

Record unix_connection_t := mk_unix {
  uc_sock : bool;                          (* sock != NULL *)
  uc_watcher : bool;
  uc_framer : stream_framer_t;
  uc_write_buffer : option bytes;
  uc_write_pending : bool;
  uc_is_closing : bool;
  uc_is_authenticated : bool;
  uc_block_ctx : block_handler_ctx_t;
  uc_config_authenticated : bool;
  uc_peer_authenticated : bool;
  uc_put_ws : option nat;
  uc_put_streaming : bool;
  uc_puts : nat;                           (* streams created so far *)
  uc_resolve_url : option off_url_t;
  uc_resolve_path : option bytes
}.

#[export] Instance uc_settable : Settable unix_connection_t := fields! mk_unix
  [uc_sock; uc_watcher; uc_framer; uc_write_buffer; uc_write_pending; uc_is_closing; uc_is_authenticated;
   uc_block_ctx; uc_config_authenticated; uc_peer_authenticated; uc_put_ws; uc_put_streaming; uc_puts;
   uc_resolve_url; uc_resolve_path].

Inductive recycle_ephemeral_e := RECYCLE_EPHEMERAL_NONE | RECYCLE_EPHEMERAL_COMMIT | RECYCLE_EPHEMERAL_PROPAGATE.

#[export] Instance recycle_eq_dec : EqDecision recycle_ephemeral_e.
Proof. solve_decision. Defined.

(** What a PUT creates: the streams' parameters and the pipeline's context. *)
Record put_start := mk_put_start {
  ps_pipeline : unix_put_pipeline_t;
  ps_tuple_size : Z;
  ps_recycler : option (list ori_t * recycle_ephemeral_e)
}.

Inductive unix_effect {P : PeerInfo} :=
| Post_write (data : bytes)               (* UNIX_CONNECTION_WRITE to itself *)
| Socket_sent (data : bytes)              (* bytes the socket took *)
| Socket_shutdown
| Socket_destroy
| Update_watcher (write : bool)
| Stop_watcher
| Call (c : client_call)
| Ofd_cache_resolve (root_hash : option bytes) (path : option bytes)
| Get_start (ori : ori_t)
| Load_start (ori : ori_t) (p : unix_load_pipeline_t)
| Put_start (id : nat) (p : put_start)
| Put_write (id : nat) (data : bytes)
| Put_finalize (id : nat).

Inductive unix_message :=
| UNIX_CONNECTION_DATA (data : bytes)
| UNIX_CONNECTION_HANGUP
| UNIX_CONNECTION_ERROR
| UNIX_CONNECTION_WRITE (data : bytes)
| UNIX_CONNECTION_WRITABLE
| UNIX_CONNECTION_CLOSE
| OFD_CACHE_RESOLVE_RESULT (result : option (option ori_t))
| CACHE_RESULT (r : cache_result)
| CACHE_RESIZE_RESULT (max_capacity_bytes current_bytes : Z).

(** What [platform_socket_send] returns: the bytes taken, EAGAIN, or an error. *)
Inductive send_result := SENT (n : nat) | SEND_AGAIN | SEND_FAILED.

(** What a connection uses when it handles a message: its transport, the cache
    and the functions of parts that are not modelled. *)
Record unix_env {C : Cbor} {P : PeerInfo} := {
  env_api_key_hash : option bytes;
  env_bcrypt_check : bytes -> bytes -> Z;
  env_config : config_services;
  env_peers : peer_services;
  env_max_tuple_size : option Z;             (* of the node's configuration *)
  env_cache : block_cache_t;
  env_capacity_json : Z -> option bytes;
  env_health : option bytes;                 (* the printed health data *)
  env_update_status : option (option bytes);
  env_random : bytes;
  env_send : bytes -> send_result
}.

Section Connection.
Context {C : Cbor} {CS : CborSerial} {P : PeerInfo} {BL : Blake3}.
Variable env : unix_env.

Implicit Types c : unix_connection_t.

(** ** Sending *)

Definition unix_connection_write c (data : bytes) : list unix_effect :=
  if uc_sock c then [Post_write data] else [].

Definition _unix_connection_send_frame c (frame : cbor_item) : list unix_effect :=
  match cbor_serialize frame with
  | [] => []
  | cbor_buf =>
      match stream_frame_encode cbor_buf with
      | Some framed => unix_connection_write c framed
      | None => []
      end
  end.

Definition _unix_connection_send_error c (status : Z) (message : bytes) : list unix_effect :=
  _unix_connection_send_frame c
    (client_api_error_encode {| error_status_code := status; error_message := Some message |}).

(** The [send_frame] and [send_error] given to the shared handlers. *)
Definition run_effect c (e : client_effect) : list unix_effect :=
  match e with SEND frame => _unix_connection_send_frame c frame | CALL call => [Call call] end.

Definition run_effects c (effs : list client_effect) : list unix_effect := effs ≫= run_effect c.

Definition auth_required c : list unix_effect :=
  _unix_connection_send_error c CLIENT_API_STATUS_UNAUTHORIZED (lit "Authentication required").

Definition bad_request c (message : string) : list unix_effect :=
  _unix_connection_send_error c CLIENT_API_STATUS_BAD_REQUEST (lit message).

(** ** The watcher and the socket *)

Definition _connection_update_watcher c (write : bool) : list unix_effect :=
  if uc_watcher c then [Update_watcher write] else [].

Definition _connection_stop_watcher c : unix_connection_t * list unix_effect :=
  if uc_watcher c then (c <| uc_watcher := false |>, [Stop_watcher]) else (c, []).

Definition _connection_close_fd c : unix_connection_t * list unix_effect :=
  (c <| uc_sock := false |> <| uc_is_closing := true |>, if uc_sock c then [Socket_destroy] else []).

Definition hang_up c : unix_connection_t * list unix_effect :=
  let '(c, e1) := _connection_stop_watcher c in
  let '(c, e2) := _connection_close_fd c in
  (c, e1 ++ e2).

(** ** GET and LOAD *)

Definition is_directory (url : off_url_t) : bool :=
  if strstr (content_type url) (lit "offsystem/directory") is Some _ then true else false.

(** The file is read as one of standard blocks and tuples of three. *)
Definition url_ori (url : off_url_t) : ori_t :=
  let ori := ori_create (stream_length url) in
  mk_ori (descriptor_hash url) (ori_descriptor_offset ori) standard 3 (ori_file_offset ori) (ori_final_byte ori).

Definition start_get c (ori : ori_t) : list unix_effect :=
  _unix_connection_send_frame c (client_api_get_response_start_encode {|
    grs_content_type := Some (lit "application/octet-stream"); grs_content_length := ori_final_byte ori;
    grs_has_range := 0; grs_range_start := 0; grs_range_end := 0 |}) ++ [Get_start ori].

Definition _unix_handle_get c (frame : cbor_item) : option (unix_connection_t * list unix_effect) :=
  if negb (uc_is_authenticated c) then Some (c, auth_required c) else
  with_decoded (client_api_get_request_decode frame) (c, bad_request c "Invalid GET request") (fun msg =>
  match get_ori_string msg ≫= off_url_parse with
  | None => Some (c, bad_request c "Invalid OFF URL")
  | Some url =>
      if is_directory url then
        Some (c <| uc_resolve_url := Some url |> <| uc_resolve_path := file_name url |>,
              [Ofd_cache_resolve (file_hash url) (file_name url)])
      else Some (c, start_get c (url_ori url))
  end).

Definition load_pipeline (ori : ori_t) : unix_load_pipeline_t :=
  let size := block_size (ori_block_type ori) in
  mk_load (u64 (ori_final_byte ori / size + (if 0 <? ori_final_byte ori mod size then 1 else 0) -
                ori_file_offset ori / size)) 0 0 false false.

Definition _unix_handle_load c (frame : cbor_item) : option (unix_connection_t * list unix_effect) :=
  if negb (uc_is_authenticated c) then Some (c, auth_required c) else
  with_decoded (client_api_load_request_decode frame) (c, bad_request c "Invalid load request") (fun msg =>
  match load_ori_string msg ≫= off_url_parse with
  | None => Some (c, bad_request c "Invalid OFF URL")
  | Some url =>
      if is_directory url then Some (c, bad_request c "Load requires a file ORI, not a directory")
      else Some (c, [Load_start (url_ori url) (load_pipeline (url_ori url))])
  end).

(** ** PUT *)

Definition put_tuple_size_of (msg : client_api_put_request_t) : Z :=
  if negb (put_has_tuple_size msg =? 0) then put_tuple_size msg else 3.

Definition recycle_mode (msg : client_api_put_request_t) : recycle_ephemeral_e :=
  if put_recycle_ephemeral msg =? 1 then RECYCLE_EPHEMERAL_COMMIT
  else if put_recycle_ephemeral msg =? 2 then RECYCLE_EPHEMERAL_PROPAGATE
  else RECYCLE_EPHEMERAL_NONE.

(** URLs that do not parse are skipped. *)
Definition recycler_oris (msg : client_api_put_request_t) : list ori_t :=
  omap (fun text => parsed ← text ≫= off_url_parse;
    Some (mk_ori (descriptor_hash parsed) 0 standard (Z.to_nat (put_tuple_size_of msg)) 0 (stream_length parsed)))
    (put_recycler_urls msg).

Definition put_of_request (msg : client_api_put_request_t) (content_type file_name : bytes) : put_start :=
  mk_put_start
    (mk_put content_type file_name (put_stream_length msg) (put_server_address msg)
       (negb (put_temporary msg =? 0)) None None)
    (put_tuple_size_of msg)
    (match recycler_oris msg with [] => None | oris => Some (oris, recycle_mode msg) end).

(** The pre-flight checks, in order: the reply of the first that fails. *)
Definition put_refused (msg : client_api_put_request_t) : option (Z * bytes) :=
  let tuple_size := put_tuple_size_of msg in
  let required := writeable_off_stream_estimate_required_bytes (put_stream_length msg) tuple_size 32 in
  match env_max_tuple_size env with
  | Some max =>
      if negb (max =? 0) && (max <? tuple_size) then
        Some (CLIENT_API_STATUS_BAD_REQUEST,
          lit "tuple_size " ++ print_dec tuple_size ++ lit " exceeds max_tuple_size " ++ print_dec max)
      else None
  | None => None
  end ∪
  (if negb (block_cache_can_fit (env_cache env) required =? CACHE_FIT_OK) then
     Some (CLIENT_API_STATUS_INTERNAL_ERROR, lit "cache full: configure larger max_capacity_bytes") else None) ∪
  (if bool_decide (recycle_mode msg <> RECYCLE_EPHEMERAL_NONE) && bool_decide (put_recycler_urls msg = []) then
     Some (CLIENT_API_STATUS_BAD_REQUEST, lit "recycle-ephemeral requires a recycler") else None).

Definition _unix_handle_put c (frame : cbor_item) : option (unix_connection_t * list unix_effect) :=
  if negb (uc_is_authenticated c) then Some (c, auth_required c) else
  with_decoded (client_api_put_request_decode frame) (c, bad_request c "Invalid PUT request") (fun msg =>
  match put_content_type msg, put_file_name msg with
  | Some content_type, Some file_name =>
      match put_refused msg with
      | Some (status, message) => Some (c, _unix_connection_send_error c status message)
      | None =>
          let ws := uc_puts c in
          let start := Put_start ws (put_of_request msg content_type file_name) in
          let c := c <| uc_puts := S ws |> in
          match put_data msg with
          | [] => Some (c <| uc_put_ws := Some ws |> <| uc_put_streaming := true |>, [start])
          | data => Some (c, [start; Put_write ws data; Put_finalize ws])
          end
      end
  | _, _ => Some (c, bad_request c "Missing content_type or file_name")
  end).

(** The stream of the PUT in progress. *)
Definition streaming c : option nat := if uc_put_streaming c then uc_put_ws c else None.

Definition _unix_handle_put_data c (frame : cbor_item) : option (unix_connection_t * list unix_effect) :=
  if negb (uc_is_authenticated c) then Some (c, auth_required c) else
  match streaming c with
  | None => Some (c, bad_request c "No streaming PUT in progress")
  | Some ws =>
      with_decoded (client_api_put_data_decode frame) (c, bad_request c "Invalid PUT_DATA frame") (fun msg =>
      match put_data_data msg with [] => Some (c, []) | data => Some (c, [Put_write ws data]) end)
  end.

Definition _unix_handle_put_end c : unix_connection_t * list unix_effect :=
  if negb (uc_is_authenticated c) then (c, auth_required c) else
  match streaming c with
  | None => (c, bad_request c "No streaming PUT in progress")
  | Some ws => (c <| uc_put_streaming := false |> <| uc_put_ws := None |>, [Put_finalize ws])
  end.

(** ** Authentication *)

Definition authenticate c : unix_connection_t :=
  c <| uc_is_authenticated := true |>
    <| uc_block_ctx := mk_block_ctx true (blk_pending_op (uc_block_ctx c)) (blk_put_encoding (uc_block_ctx c))
                         (blk_data_dir (uc_block_ctx c)) |>
    <| uc_config_authenticated := true |> <| uc_peer_authenticated := true |>.

(** The key is compared as a C string. *)
Definition _unix_handle_auth c (frame : cbor_item) : option (unix_connection_t * list unix_effect) :=
  match env_api_key_hash env with
  | None => Some (authenticate c, [])
  | Some api_key_hash =>
      with_decoded (client_api_auth_request_decode frame)
        (c, _unix_connection_send_error c CLIENT_API_STATUS_UNAUTHORIZED (lit "Invalid auth request")) (fun auth =>
      if env_bcrypt_check env (cstr (auth_api_key auth)) api_key_hash =? 0 then Some (authenticate c, [])
      else Some (c, _unix_connection_send_error c CLIENT_API_STATUS_UNAUTHORIZED (lit "Authentication failed")))
  end.

(** ** Dispatch of a frame *)

Definition unix_send_health c : list unix_effect :=
  match env_health env with
  | None => _unix_connection_send_error c CLIENT_API_STATUS_INTERNAL_ERROR (lit "Health data serialization failed")
  | Some json => _unix_connection_send_frame c (client_api_health_response_encode {| health_json_data := Some json |})
  end.

Definition unix_send_update_status c : list unix_effect :=
  match env_update_status env with
  | None => _unix_connection_send_error c CLIENT_API_STATUS_INTERNAL_ERROR (lit "Update status not available")
  | Some None =>
      _unix_connection_send_error c CLIENT_API_STATUS_INTERNAL_ERROR (lit "Update status serialization failed")
  | Some (Some json) =>
      _unix_connection_send_frame c (client_api_update_status_response_encode {| update_json_data := Some json |})
  end.

Definition with_block_ctx c (r : option (block_handler_ctx_t * list client_effect))
  : option (unix_connection_t * list unix_effect) :=
  '(ctx, effs) ← r; Some (c <| uc_block_ctx := ctx |>, run_effects c effs).

Definition with_effects c (r : option (list client_effect)) : option (unix_connection_t * list unix_effect) :=
  effs ← r; Some (c, run_effects c effs).

(** A connection always has a cache. *)
Definition _unix_dispatch_frame c (type : Z) (frame : cbor_item) : option (unix_connection_t * list unix_effect) :=
  let isa t := type =? t in
  let cfg := env_config env in
  let net := env_peers env in
  let config_auth := uc_config_authenticated c in
  let peer_auth := uc_peer_authenticated c in
  if isa CLIENT_API_GET_REQUEST then _unix_handle_get c frame
  else if isa CLIENT_API_LOAD_REQUEST then _unix_handle_load c frame
  else if isa CLIENT_API_PUT_REQUEST then _unix_handle_put c frame
  else if isa CLIENT_API_PUT_DATA then _unix_handle_put_data c frame
  else if isa CLIENT_API_PUT_END then Some (_unix_handle_put_end c)
  else if isa CLIENT_API_REP_MARK_PERMANENT_REQUEST || isa CLIENT_API_REP_DELETE_EPHEMERAL_REQUEST ||
          isa CLIENT_API_REP_PIN_REQUEST || isa CLIENT_API_REP_UNPIN_REQUEST ||
          isa CLIENT_API_EPHEMERAL_LIST_REQUEST || isa CLIENT_API_GC_REQUEST then
    if negb (uc_is_authenticated c) then Some (c, auth_required c)
    else with_effects c (client_api_representation_handle frame type)
  else if isa CLIENT_API_AUTH_REQUEST then _unix_handle_auth c frame
  else if isa CLIENT_API_BLOCK_PUT_REQUEST then
    with_block_ctx c (block_handle_put_request (uc_block_ctx c) frame (env_random env))
  else if isa CLIENT_API_BLOCK_GET_REQUEST then with_block_ctx c (block_handle_get_request (uc_block_ctx c) frame)
  else if isa CLIENT_API_BLOCK_DELETE_REQUEST then
    with_block_ctx c (block_handle_delete_request (uc_block_ctx c) frame)
  else if isa CLIENT_API_CACHE_RESIZE_REQUEST then
    with_block_ctx c (cache_handle_resize_request (uc_block_ctx c) true (env_capacity_json env)
      (config_pending_save cfg) frame)
  else if isa CLIENT_API_CONFIG_SHOW_REQUEST then with_effects c (Some (config_handle_show_request cfg config_auth))
  else if isa CLIENT_API_CONFIG_SET_REQUEST then with_effects c (config_handle_set_request cfg config_auth frame)
  else if isa CLIENT_API_CONFIG_RELOAD_REQUEST then with_effects c (Some (config_handle_reload_request cfg config_auth))
  else if isa CLIENT_API_PEER_INFO_REQUEST then with_effects c (peer_handle_info_request net peer_auth frame)
  else if isa CLIENT_API_PEER_LIST_REQUEST then with_effects c (Some (peer_handle_list_request net peer_auth))
  else if isa CLIENT_API_PEER_CONNECT then with_effects c (peer_handle_connect net peer_auth frame)
  else if isa CLIENT_API_FRIEND_ADD then with_effects c (peer_handle_friend_add net peer_auth frame)
  else if isa CLIENT_API_FRIEND_REMOVE then with_effects c (peer_handle_friend_remove net peer_auth frame)
  else if isa CLIENT_API_FRIEND_LIST then with_effects c (Some (peer_handle_friend_list_request net peer_auth))
  else if isa CLIENT_API_BOOTSTRAP_ADD then with_effects c (peer_handle_bootstrap_add net peer_auth frame)
  else if isa CLIENT_API_BOOTSTRAP_REMOVE then with_effects c (peer_handle_bootstrap_remove net peer_auth frame)
  else if isa CLIENT_API_BOOTSTRAP_LIST then with_effects c (Some (peer_handle_bootstrap_list_request net peer_auth))
  else if isa CLIENT_API_HEALTH_REQUEST then Some (c, unix_send_health c)
  else if isa CLIENT_API_UPDATE_STATUS_REQUEST then Some (c, unix_send_update_status c)
  else Some (c, bad_request c "Unknown message type").

(** One turn of the loop over the frames; what is not CBOR is skipped. *)
Definition dispatch_payload c (payload : bytes) : option (unix_connection_t * list unix_effect) :=
  match cbor_load payload with
  | None => Some (c, [])
  | Some item => with_decoded (client_api_wire_get_type item) (c, []) (fun type => _unix_dispatch_frame c type item)
  end.

Fixpoint dispatch_payloads c (payloads : list bytes) : option (unix_connection_t * list unix_effect) :=
  match payloads with
  | [] => Some (c, [])
  | payload :: payloads =>
      '(c, e1) ← dispatch_payload c payload;
      '(c, e2) ← dispatch_payloads c payloads;
      Some (c, e1 ++ e2)
  end.

(** ** Messages *)

Definition clear_resolve c : unix_connection_t := c <| uc_resolve_url := None |> <| uc_resolve_path := None |>.

Definition _unix_handle_ofd_resolve_result c (result : option (option ori_t))
  : unix_connection_t * list unix_effect :=
  match result with
  | None =>
      (clear_resolve c, _unix_connection_send_error c CLIENT_API_STATUS_NOT_FOUND (lit "Directory resolution failed"))
  | Some None =>
      (clear_resolve c, _unix_connection_send_error c CLIENT_API_STATUS_NOT_FOUND (lit "Directory entry not found"))
  | Some (Some resolved_ori) => (clear_resolve c, start_get c resolved_ori)
  end.

Definition keep_for_later c (data : bytes) : unix_connection_t * list unix_effect :=
  (c <| uc_write_buffer := Some data |> <| uc_write_pending := true |>, _connection_update_watcher c true).

Definition handle_write c (buf : bytes) : unix_connection_t * list unix_effect :=
  if negb (uc_sock c) then (c, []) else
  match uc_write_buffer c with
  | Some ((_ :: _) as pending) => (c <| uc_write_buffer := Some (pending ++ buf) |>, [])
  | _ =>
      match env_send env buf with
      | SEND_AGAIN => keep_for_later c buf
      | SEND_FAILED => hang_up c
      | SENT O => hang_up c
      | SENT n =>
          if (n <? length buf)%nat then
            let '(c, effs) := keep_for_later c (drop n buf) in (c, Socket_sent (take n buf) :: effs)
          else (c, [Socket_sent buf])
      end
  end.

Definition drop_buffer c : unix_connection_t := c <| uc_write_buffer := None |> <| uc_write_pending := false |>.

Definition handle_writable c : unix_connection_t * list unix_effect :=
  if negb (uc_sock c) then (c, []) else
  match uc_write_buffer c with
  | Some ((_ :: _) as pending) =>
      match env_send env pending with
      | SENT O => hang_up (drop_buffer c)
      | SENT n =>
          if (length pending <=? n)%nat then
            let c := drop_buffer c in
            if uc_is_closing c then
              let '(c, effs) := hang_up c in (c, Socket_sent pending :: Socket_shutdown :: effs)
            else (c, Socket_sent pending :: _connection_update_watcher c false)
          else (c <| uc_write_buffer := Some (drop n pending) |>, [Socket_sent (take n pending)])
      | SEND_AGAIN => (c, [])
      | SEND_FAILED => hang_up (drop_buffer c)
      end
  | _ => (c <| uc_write_pending := false |>, _connection_update_watcher c false)
  end.

Definition handle_close c : unix_connection_t * list unix_effect :=
  if uc_write_pending c then (c <| uc_is_closing := true |>, _connection_update_watcher c true)
  else let '(c', effs) := hang_up c in (c', (if uc_sock c then [Socket_shutdown] else []) ++ effs).

Definition unix_connection_dispatch c (msg : unix_message) : option (unix_connection_t * list unix_effect) :=
  if uc_is_closing c then Some (c, []) else
  match msg with
  | CACHE_RESIZE_RESULT max current =>
      let '(ctx, effs) := cache_handle_resize_result (uc_block_ctx c) max current in
      Some (c <| uc_block_ctx := ctx |>, run_effects c effs)
  | CACHE_RESULT r => with_block_ctx c (block_handle_cache_result (uc_block_ctx c) r)
  | UNIX_CONNECTION_DATA data =>
      if negb (uc_sock c) then Some (c, []) else
      let '(payloads, framer) := framer_receive (uc_framer c) [data] in
      dispatch_payloads (c <| uc_framer := framer |>) payloads
  | UNIX_CONNECTION_HANGUP | UNIX_CONNECTION_ERROR => Some (hang_up c)
  | UNIX_CONNECTION_WRITE buf => Some (handle_write c buf)
  | UNIX_CONNECTION_WRITABLE => Some (handle_writable c)
  | UNIX_CONNECTION_CLOSE => Some (handle_close c)
  | OFD_CACHE_RESOLVE_RESULT result => Some (_unix_handle_ofd_resolve_result c result)
  end.

(** The watcher is created; [data_dir] is the transport's. *)
Definition unix_connection_create (data_dir : bool) : unix_connection_t :=
  let authenticated := bool_decide (env_api_key_hash env = None) in
  mk_unix true true stream_framer_create None false false authenticated
    (mk_block_ctx authenticated BLOCK_OP_NONE 0 data_dir) authenticated authenticated None false 0 None None.
End Connection.

(** ** The I/O thread *)

(** What a read from the socket returns: bytes, the end of the stream, EAGAIN
    or an error. *)
Inductive recv_result := RECEIVED (data : bytes) | RECV_EOF | RECV_AGAIN | RECV_FAILED.

Record pd_events := { pd_read : bool; pd_write : bool; pd_hangup : bool; pd_error : bool }.

(** The messages sent to the connection's actor, and whether the watcher is
    taken from the connection and stopped.  At most READ_BUFFER_SIZE bytes are
    read. *)
Definition _connection_read_callback (recv : recv_result) (events : pd_events) : list unix_message * bool :=
  let writable := if pd_write events then [UNIX_CONNECTION_WRITABLE] else [] in
  if pd_hangup events || pd_error events then
    (writable ++ [if pd_hangup events then UNIX_CONNECTION_HANGUP else UNIX_CONNECTION_ERROR], true)
  else if pd_read events then
    (writable ++ match recv with
     | RECEIVED data => [UNIX_CONNECTION_DATA data]
     | RECV_EOF => [UNIX_CONNECTION_HANGUP]
     | RECV_AGAIN => []
     | RECV_FAILED => [UNIX_CONNECTION_ERROR]
     end, false)
  else (writable, false).
