(* ===== verification/UnixSession.v ===== *)
(** * UnixSession: what a client of the Unix socket sees

    A session is a connection with its mailbox, the socket and what has
    happened so far.  Its steps are the messages of the I/O thread and of the
    caches, the connection's own posted writes (handled in order, at any time),
    the answers to its directory requests, and the frames its pipelines send
    once they have been started.  The transport's key and its check are fixed;
    the rest of the environment may differ at every step. *)

From S2P Require Import BlockCache BlockCacheProps.
From S2P Require Import Prelude Effect Block Cbor CborCodec WireBase Framer OffUrl DescRead.
From stdpp Require Import strings.
From S2P Require Import ClientApiBase ClientApiTransfer ClientApiBlock ClientApiAdmin ClientApiOps ClientHandlers UnixPipelines UnixConnection.
Local Open Scope Z_scope.

(** The socket takes no more than it is given. *)
Definition send_ok (send : bytes -> send_result) : Prop :=
  forall b n, send b = SENT n -> (n <= length b)%nat.

(** Messages that come from outside the connection. *)
Definition external (msg : unix_message) : bool :=
  match msg with UNIX_CONNECTION_WRITE _ | OFD_CACHE_RESOLVE_RESULT _ => false | _ => true end.

Section Effects.
Context {P : PeerInfo}.

(** An effect on the node: a request to another component or a pipeline. *)
Definition is_work (e : unix_effect) : bool :=
  match e with
  | Call _ | Ofd_cache_resolve _ _ | Get_start _ | Load_start _ _ | Put_start _ _ | Put_write _ _ | Put_finalize _ =>
      true
  | _ => false
  end.

Definition posts (effs : list unix_effect) : list bytes :=
  omap (fun e => match e with Post_write data => Some data | _ => None end) effs.

Definition sent (effs : list unix_effect) : bytes :=
  concat (omap (fun e => match e with Socket_sent data => Some data | _ => None end) effs).

Definition resolves (effs : list unix_effect) : nat :=
  length (omap (fun e => match e with Ofd_cache_resolve _ _ => Some () | _ => None end) effs).

Lemma posts_app e1 e2 : posts (e1 ++ e2) = posts e1 ++ posts e2.
Proof. apply omap_app. Qed.
Lemma sent_app e1 e2 : sent (e1 ++ e2) = sent e1 ++ sent e2.
Proof. unfold sent. by rewrite omap_app, concat_app. Qed.
End Effects.

Section Session.
Context {C : Cbor} {CS : CborSerial} {P : PeerInfo} {BL : Blake3}.
Variable key : option bytes.
Variable bcrypt : bytes -> bytes -> Z.

Record session := mk_session {
  ss_conn : unix_connection_t;
  ss_mail : list bytes;               (* posted writes not yet handled *)
  ss_resolving : nat;                 (* directory requests not yet answered *)
  ss_wire : bytes;                    (* what the socket has taken *)
  ss_posted : list bytes;             (* all posted writes *)
  ss_frames : list bytes;             (* the frames taken out of the input *)
  ss_trace : list unix_effect
}.

Definition env_ok (env : unix_env) : Prop :=
  env_api_key_hash env = key /\ env_bcrypt_check env = bcrypt /\ send_ok (env_send env).

(** The frames a message completes. *)
Definition frames_in c (msg : unix_message) : list bytes :=
  match msg with
  | UNIX_CONNECTION_DATA data =>
      if uc_is_closing c || negb (uc_sock c) then [] else (framer_receive (uc_framer c) [data]).1
  | _ => []
  end.

Definition absorb (c : unix_connection_t) (effs : list unix_effect) (frames : list bytes) (s : session) : session :=
  mk_session c (ss_mail s ++ posts effs) (ss_resolving s + resolves effs) (ss_wire s ++ sent effs)
    (ss_posted s ++ posts effs) (ss_frames s ++ frames) (ss_trace s ++ effs).

Inductive session_step : session -> session -> Prop :=
| step_message env msg s c effs :
    env_ok env -> external msg = true ->
    unix_connection_dispatch env (ss_conn s) msg = Some (c, effs) ->
    session_step s (absorb c effs (frames_in (ss_conn s) msg) s)
| step_write env buf mail s c effs :
    env_ok env -> ss_mail s = buf :: mail ->
    unix_connection_dispatch env (ss_conn s) (UNIX_CONNECTION_WRITE buf) = Some (c, effs) ->
    session_step s (absorb c effs [] (mk_session (ss_conn s) mail (ss_resolving s) (ss_wire s) (ss_posted s)
      (ss_frames s) (ss_trace s)))
| step_resolved env result n s c effs :
    env_ok env -> ss_resolving s = S n ->
    unix_connection_dispatch env (ss_conn s) (OFD_CACHE_RESOLVE_RESULT result) = Some (c, effs) ->
    session_step s (absorb c effs [] (mk_session (ss_conn s) (ss_mail s) n (ss_wire s) (ss_posted s)
      (ss_frames s) (ss_trace s)))
| step_pipeline frame s :
    Exists (fun e => is_work e = true) (ss_trace s) ->
    session_step s (absorb (ss_conn s) (_unix_connection_send_frame (ss_conn s) frame) [] s).

Inductive session_reach : session -> Prop :=
| reach_create env data_dir :
    env_ok env -> session_reach (mk_session (unix_connection_create env data_dir) [] 0 [] [] [] [])
| reach_step s s' : session_reach s -> session_step s s' -> session_reach s'.

(** ** Replies *)

(** What a reply frame is on the wire. *)
Definition reply_of (item : cbor_item) (data : bytes) : Prop :=
  stream_frame_encode (cbor_serialize item) = Some data.

(** The replies anyone may get. *)
Definition public_item (item : cbor_item) : Prop :=
  (exists m, item = client_api_error_encode m) \/ (exists m, item = client_api_health_response_encode m) \/
  (exists m, item = client_api_update_status_response_encode m).

Definition public (e : unix_effect) : Prop :=
  exists item data, public_item item /\ reply_of item data /\ e = Post_write data.

Lemma send_frame_reply c item :
  Forall (fun e => exists data, reply_of item data /\ e = Post_write data) (_unix_connection_send_frame c item).
Proof.
  unfold _unix_connection_send_frame, unix_connection_write. destruct (cbor_serialize item) eqn:E; [done|].
  destruct (stream_frame_encode _) eqn:Ef; [|done]. destruct (uc_sock c); [|done].
  apply Forall_singleton. eexists. split; [|done]. unfold reply_of. by rewrite E.
Qed.

Lemma send_public c item : public_item item -> Forall public (_unix_connection_send_frame c item).
Proof.
  intros Hp. eapply Forall_impl; [apply send_frame_reply|]. intros e (data & Hr & ->). by exists item, data.
Qed.

Lemma send_error_public c status message : Forall public (_unix_connection_send_error c status message).
Proof. apply send_public. left. by eexists. Qed.

(** ** Authentication *)

(** A connection that has not authenticated: none of its contexts has, and it
    waits for nothing. *)
Definition locked c : Prop :=
  uc_is_authenticated c = false /\ blk_authenticated (uc_block_ctx c) = false /\
  blk_pending_op (uc_block_ctx c) = BLOCK_OP_NONE /\
  uc_config_authenticated c = false /\ uc_peer_authenticated c = false.

(** A frame that carries a key the check accepts. *)
Definition accepted (hash payload : bytes) : Prop :=
  exists item auth, cbor_load payload = Some item /\ client_api_auth_request_decode item = DECODED auth /\
    bcrypt (cstr (auth_api_key auth)) hash = 0.

Definition unlocks (hash : bytes) (item : cbor_item) : Prop :=
  exists auth, client_api_auth_request_decode item = DECODED auth /\ bcrypt (cstr (auth_api_key auth)) hash = 0.

Lemma block_ctx_same c : (c <| uc_block_ctx := uc_block_ctx c |>) = c.
Proof. by destruct c. Qed.

Lemma run_unauthorized c : Forall public (run_effects c [unauthorized]).
Proof. unfold run_effects. cbn. rewrite app_nil_r. apply send_error_public. Qed.

Hint Resolve send_error_public run_unauthorized : core.

Lemma with_block_unauthorized c c' effs r :
  r = Some (uc_block_ctx c, [unauthorized]) -> with_block_ctx c r = Some (c', effs) -> c' = c /\ Forall public effs.
Proof.
  intros -> H. unfold with_block_ctx in H. cbn [mbind option_bind] in H. rewrite block_ctx_same in H. simplify_eq. auto.
Qed.

Lemma with_effects_unauthorized c c' effs r :
  r = Some [unauthorized] -> with_effects c r = Some (c', effs) -> c' = c /\ Forall public effs.
Proof. intros -> H. unfold with_effects in H. cbn [mbind option_bind] in H. simplify_eq. auto. Qed.

Lemma auth_locked env hash c item c' effs :
  env_ok env -> key = Some hash -> _unix_handle_auth env c item = Some (c', effs) ->
  c' = c /\ Forall public effs \/ unlocks hash item.
Proof.
  intros (Hk & Hb & _) Hh. unfold _unix_handle_auth, with_decoded, unlocks. rewrite Hk, Hh, Hb. intros H.
  destruct (client_api_auth_request_decode item) as [auth| |]; [|by simplify_eq; auto|done].
  destruct (Z.eqb_spec (bcrypt (cstr (auth_api_key auth)) hash) 0) as [E|]; simplify_eq; [right|left; auto].
  by exists auth.
Qed.

Lemma frame_locked env hash c type item c' effs :
  env_ok env -> key = Some hash -> locked c -> _unix_dispatch_frame env c type item = Some (c', effs) ->
  c' = c /\ Forall public effs \/ unlocks hash item.
Proof.
  intros He Hh (Ha & Hb & _ & Hc & Hp). unfold _unix_dispatch_frame. cbv zeta.
  unfold _unix_handle_get, _unix_handle_load, _unix_handle_put, _unix_handle_put_data, _unix_handle_put_end,
    auth_required. rewrite Ha, Hc, Hp. cbn [negb].
  repeat (match goal with |- context [if ?b then _ else _] => destruct b end;
    [try (intros [= <- <-]; left; by auto);
     first [by apply auth_locked
           |intros H; left; eapply with_effects_unauthorized; [|exact H]; reflexivity
           |intros H; left; eapply with_block_unauthorized; [|exact H];
            unfold block_handle_put_request, block_handle_get_request, block_handle_delete_request,
              cache_handle_resize_request; by rewrite Hb
           |idtac]|]).
  all: intros [= <- <-]; left; split; [done|].
  - unfold unix_send_health. destruct (env_health env); [|done]. apply send_public. right. left. by eexists.
  - unfold unix_send_update_status. destruct (env_update_status env) as [[json|]|]; [|done..].
    apply send_public. right. right. by eexists.
  - apply send_error_public.
Qed.

Lemma payloads_locked env hash c payloads c' effs :
  env_ok env -> key = Some hash -> locked c -> dispatch_payloads env c payloads = Some (c', effs) ->
  (locked c' /\ Forall public effs) \/ Exists (accepted hash) payloads.
Proof.
  intros He Hh. revert c effs. induction payloads as [|p ps IH]; intros c effs Hl H; cbn [dispatch_payloads] in H.
  { simplify_eq. by left. }
  apply bind_Some in H as ([c1 e1] & H1 & H). apply bind_Some in H as ([c2 e2] & H2 & H). simplify_eq.
  assert (c1 = c /\ Forall public e1 \/ accepted hash p) as [[-> Hp]|Ha]; [| |by right; left].
  { unfold dispatch_payload in H1. destruct (cbor_load p) as [item|] eqn:Ep; [|simplify_eq; by left].
    unfold with_decoded in H1. destruct (client_api_wire_get_type item); [|simplify_eq; by left|done].
    destruct (frame_locked _ _ _ _ _ _ _ He Hh Hl H1) as [?|(auth & ? & ?)]; [by left|right]. by exists item, auth. }
  destruct (IH _ _ Hl H2) as [[Hl' Hp']|]; [left|by right; right]. split; [done|]. by apply Forall_app.
Qed.

(** Effects on the socket and the watcher only. *)
Definition quiet (e : unix_effect) : Prop := is_work e = false /\ forall data, e <> Post_write data.

Definition harmless (e : unix_effect) : Prop := public e \/ quiet e.

Lemma harmless_idle e : harmless e -> is_work e = false.
Proof. by intros [(? & ? & _ & _ & ->)|[]]. Qed.

Lemma quiet_posts effs : Forall quiet effs -> posts effs = [].
Proof.
  induction 1 as [|e effs [_ He] _ IH]; [done|]. unfold posts. cbn. destruct e; try exact IH. by destruct (He data).
Qed.

Lemma locked_framer c f : locked c -> locked (c <| uc_framer := f |>).
Proof. by destruct c. Qed.

(** What is waiting to be written. *)
Definition pend c : bytes := default [] (uc_write_buffer c).

(** A message that only moves bytes, when [input] comes to be written: nothing
    is lost or reordered while the connection is open. *)
Record pump (r : unix_connection_t * list unix_effect) c (input : bytes) : Prop := {
  pump_locked : locked c -> locked r.1;
  pump_quiet : Forall quiet r.2;
  pump_open : uc_is_closing r.1 = false -> sent r.2 ++ pend r.1 = pend c ++ input;
  pump_prefix : sent r.2 `prefix_of` pend c ++ input;
  pump_sock : uc_sock r.1 = false -> uc_is_closing r.1 = true
}.

Lemma hang_up_pump c input : pump (hang_up c) c input.
Proof.
  unfold hang_up, _connection_stop_watcher, _connection_close_fd.
  destruct c as [[] []]; split; try done; try (by repeat constructor); apply prefix_nil.
Qed.

Lemma hang_up_drop_pump c : pump (hang_up (drop_buffer c)) c [].
Proof.
  destruct (hang_up_pump (drop_buffer c) []) as [H1 H2 H3 H4 H5]. split; try done.
  - intros Ho. by destruct c as [[] []].
  - eapply transitivity; [exact H4|]. apply prefix_nil.
Qed.

Lemma keep_pump c sent_bytes data input :
  uc_sock c = true -> sent_bytes ++ data = pend c ++ input ->
  pump ((keep_for_later c data).1, Socket_sent sent_bytes :: (keep_for_later c data).2) c input.
Proof.
  intros Hs Hd. unfold keep_for_later, _connection_update_watcher. destruct c as [? []]; cbn in *;
    (split; cbn; [by intros Hl|by repeat constructor|by rewrite ?app_nil_r| |by rewrite Hs]);
    rewrite ?app_nil_r, <- Hd; by apply prefix_app_r.
Qed.

Lemma fresh_write_pump env c buf :
  send_ok (env_send env) -> uc_sock c = true -> pend c = [] ->
  pump (match env_send env buf with
        | SEND_AGAIN => keep_for_later c buf
        | SEND_FAILED => hang_up c
        | SENT O => hang_up c
        | SENT n =>
            if (n <? length buf)%nat then
              let '(c, effs) := keep_for_later c (drop n buf) in (c, Socket_sent (take n buf) :: effs)
            else (c, [Socket_sent buf])
        end) c buf.
Proof.
  intros Hok Hs Hp. pose proof (Hok buf) as Hn. destruct (env_send env buf) as [[|n]| |].
  - apply hang_up_pump.
  - destruct (Nat.ltb_spec (S n) (length buf)) as [Hlt|Hge].
    + apply (keep_pump c (take (S n) buf)); [done|]. by rewrite Hp, take_drop.
    + split; cbn; rewrite ?Hs, ?Hp, ?app_nil_r; try done. by repeat constructor.
  - destruct (keep_pump c [] buf buf Hs) as [H1 H2 H3 H4 H5]; [by rewrite Hp|]. split; try done.
    by apply Forall_cons in H2 as [_ H2].
  - apply hang_up_pump.
Qed.

Lemma handle_write_pump env c buf :
  send_ok (env_send env) -> uc_sock c = true -> pump (handle_write env c buf) c buf.
Proof.
  intros Hok Hs. unfold handle_write. rewrite Hs. cbn [negb].
  destruct (uc_write_buffer c) as [[|b pending]|] eqn:Eb.
  - apply fresh_write_pump; [done..|]. unfold pend. by rewrite Eb.
  - destruct c. cbn in *. simplify_eq. split; try done. apply prefix_nil.
  - apply fresh_write_pump; [done..|]. unfold pend. by rewrite Eb.
Qed.

Lemma handle_writable_pump env c :
  send_ok (env_send env) -> uc_sock c = true -> pump (handle_writable env c) c [].
Proof.
  intros Hok Hs. unfold handle_writable. rewrite Hs. cbn [negb].
  assert (forall b, pump (c <| uc_write_pending := b |>, _connection_update_watcher c false) c []) as Hidle.
  { intros b. unfold _connection_update_watcher. destruct c as [? []]; cbn in *;
      (split; cbn; [done|by repeat constructor|by rewrite ?app_nil_r|apply prefix_nil|by rewrite Hs]). }
  destruct (uc_write_buffer c) as [[|b pending]|] eqn:Eb; [apply Hidle| |apply Hidle].
  pose proof (Hok (b :: pending)) as Hn. destruct (env_send env (b :: pending)) as [[|n]| |].
  - apply hang_up_drop_pump.
  - specialize (Hn _ eq_refl). destruct (Nat.leb_spec (length (b :: pending)) (S n)) as [Hle|Hlt].
    + destruct c as [? []]; cbn in *; simplify_eq; destruct uc_is_closing; cbn;
        split; cbn; unfold pend; cbn; rewrite ?app_nil_r; try done; by repeat constructor.
    + destruct c; cbn in *; simplify_eq. split; cbn; [done|by repeat constructor| | |done]; unfold pend; cbn;
        rewrite ?app_nil_r; [intros _; by rewrite take_drop|]. f_equal. apply prefix_cons, prefix_take.
  - destruct c; cbn in *; simplify_eq. split; cbn; try done; [by rewrite ?app_nil_r|apply prefix_nil].
  - apply hang_up_drop_pump.
Qed.

Lemma handle_close_pump c : uc_sock c = true -> pump (handle_close c) c [].
Proof.
  intros Hs. unfold handle_close. destruct (uc_write_pending c).
  - unfold _connection_update_watcher. destruct c as [? []]; cbn in *;
      (split; cbn; [done|by repeat constructor|done|apply prefix_nil|done]).
  - destruct (hang_up_pump c []) as [H1 H2 H3 H4 H5]. destruct (hang_up c) as [c' effs]. rewrite Hs.
    split; cbn in *; [done| |done|done|done]. apply Forall_cons. split; [done|]. done.
Qed.

(** ** Requests *)

(** Handling a request posts frames and starts work; the socket is left alone. *)
Definition spoken (e : unix_effect) : Prop :=
  match e with
  | Post_write data => exists payload, stream_frame_encode payload = Some data
  | _ => is_work e = true
  end.

Definition io c := (uc_sock c, uc_write_buffer c, uc_is_closing c).

Definition speaks c (r : unix_connection_t * list unix_effect) : Prop := io r.1 = io c /\ Forall spoken r.2.

Lemma send_frame_spoken c item : Forall spoken (_unix_connection_send_frame c item).
Proof. eapply Forall_impl; [apply send_frame_reply|]. intros e (data & Hr & ->). by eexists. Qed.

Lemma run_effects_spoken c effs : Forall spoken (run_effects c effs).
Proof.
  unfold run_effects. induction effs as [|[frame|call] effs IH]; cbn; [done|..].
  - apply Forall_app. split; [apply send_frame_spoken|done].
  - by constructor.
Qed.

Lemma start_get_spoken c ori : Forall spoken (start_get c ori).
Proof. apply Forall_app. split; [apply send_frame_spoken|by repeat constructor]. Qed.

Hint Resolve send_frame_spoken run_effects_spoken start_get_spoken : core.

Lemma error_spoken c status message : Forall spoken (_unix_connection_send_error c status message).
Proof. apply send_frame_spoken. Qed.

Lemma bad_request_spoken c message : Forall spoken (bad_request c message).
Proof. apply send_frame_spoken. Qed.

Lemma auth_required_spoken c : Forall spoken (auth_required c).
Proof. apply send_frame_spoken. Qed.

Hint Resolve error_spoken bad_request_spoken auth_required_spoken : core.

Ltac speak := split; cbn [fst snd]; [done|first [by auto|by repeat constructor]].

Lemma with_decoded_speaks {A} c (d : decoded A) rejected f r :
  with_decoded d rejected f = Some r -> speaks c rejected -> (forall a, f a = Some r -> speaks c r) -> speaks c r.
Proof. destruct d; cbn; intros H Hr Hf; [by eapply Hf|by simplify_eq|done]. Qed.

Lemma get_speaks c item r : _unix_handle_get c item = Some r -> speaks c r.
Proof.
  unfold _unix_handle_get. destruct (uc_is_authenticated c); cbn [negb]; [|intros [= <-]; speak].
  intros H. eapply with_decoded_speaks; [exact H|speak|]. cbn. intros msg Hm.
  destruct (get_ori_string msg ≫= off_url_parse); [|simplify_eq; speak].
  destruct (is_directory _); simplify_eq; speak.
Qed.

Lemma load_speaks c item r : _unix_handle_load c item = Some r -> speaks c r.
Proof.
  unfold _unix_handle_load. destruct (uc_is_authenticated c); cbn [negb]; [|intros [= <-]; speak].
  intros H. eapply with_decoded_speaks; [exact H|speak|]. cbn. intros msg Hm.
  destruct (load_ori_string msg ≫= off_url_parse); [|simplify_eq; speak].
  destruct (is_directory _); simplify_eq; speak.
Qed.

Lemma put_speaks env c item r : _unix_handle_put env c item = Some r -> speaks c r.
Proof.
  unfold _unix_handle_put. destruct (uc_is_authenticated c); cbn [negb]; [|intros [= <-]; speak].
  intros H. eapply with_decoded_speaks; [exact H|speak|]. cbn. intros msg Hm.
  destruct (put_content_type msg), (put_file_name msg); try (simplify_eq; speak).
  destruct (put_refused env msg) as [[]|]; [simplify_eq; speak|]. destruct (put_data msg); simplify_eq; speak.
Qed.

Lemma put_data_speaks c item r : _unix_handle_put_data c item = Some r -> speaks c r.
Proof.
  unfold _unix_handle_put_data. destruct (uc_is_authenticated c); cbn [negb]; [|intros [= <-]; speak].
  destruct (streaming c); [|intros [= <-]; speak]. intros H. eapply with_decoded_speaks; [exact H|speak|]. cbn.
  intros msg Hm. destruct (put_data_data msg); simplify_eq; speak.
Qed.

Lemma put_end_speaks c : speaks c (_unix_handle_put_end c).
Proof.
  unfold _unix_handle_put_end. destruct (uc_is_authenticated c); cbn [negb]; [|speak].
  destruct (streaming c); speak.
Qed.

Lemma auth_speaks env c item r : _unix_handle_auth env c item = Some r -> speaks c r.
Proof.
  unfold _unix_handle_auth. destruct (env_api_key_hash env); [|intros [= <-]; speak].
  intros H. eapply with_decoded_speaks; [exact H|speak|]. cbn. intros msg Hm. case_match; simplify_eq; speak.
Qed.

Lemma effects_speak c effs r : with_effects c effs = Some r -> speaks c r.
Proof. intros H. apply bind_Some in H as (? & _ & H). simplify_eq. speak. Qed.

Lemma block_speak c b r : with_block_ctx c b = Some r -> speaks c r.
Proof. intros H. apply bind_Some in H as ([] & _ & H). simplify_eq. speak. Qed.

Lemma frame_speaks env c type item r : _unix_dispatch_frame env c type item = Some r -> speaks c r.
Proof.
  unfold _unix_dispatch_frame. cbv zeta. intros H.
  repeat match type of H with (if ?b then _ else _) = _ => destruct b end;
    eauto using get_speaks, load_speaks, put_speaks, put_data_speaks, auth_speaks, effects_speak, block_speak;
    simplify_eq; try apply put_end_speaks; try speak.
  - split; [done|]. cbn. unfold unix_send_health. by destruct (env_health env).
  - split; [done|]. cbn. unfold unix_send_update_status. by destruct (env_update_status env) as [[]|].
Qed.

Lemma payloads_speak env c payloads r : dispatch_payloads env c payloads = Some r -> speaks c r.
Proof.
  revert c r. induction payloads as [|p ps IH]; intros c r H; cbn [dispatch_payloads] in H.
  { simplify_eq. speak. }
  apply bind_Some in H as ([c1 e1] & H1 & H). apply bind_Some in H as ([c2 e2] & H2 & H). simplify_eq.
  apply IH in H2 as [Hi2 Hs2]. cbn in Hi2, Hs2.
  assert (speaks c (c1, e1)) as [Hi1 Hs1].
  { unfold dispatch_payload in H1. destruct (cbor_load p); [|simplify_eq; speak].
    eapply with_decoded_speaks; [exact H1|speak|]. intros t Ht. exact (frame_speaks _ _ _ _ _ Ht). }
  cbn in Hi1, Hs1. split; cbn; [congruence|]. by apply Forall_app.
Qed.

Lemma spoken_sent effs : Forall spoken effs -> sent effs = [].
Proof. induction 1 as [|e effs He _ IH]; [done|]. unfold sent. cbn. by destruct e. Qed.

Lemma spoken_posts effs : Forall spoken effs -> exists msgs, encode_all msgs = Some (posts effs).
Proof.
  induction 1 as [|e effs He _ [msgs IH]]; [by exists []|]. unfold posts. cbn.
  destruct e as [data| | | | | | | | | | | |]; try (by exists msgs); try done.
  destruct He as [payload Hp]. exists (payload :: msgs). unfold encode_all. cbn. rewrite Hp. cbn.
  unfold encode_all, posts in IH. by rewrite IH.
Qed.

(** ** All messages *)

Definition input_of (msg : unix_message) : bytes :=
  match msg with UNIX_CONNECTION_WRITE buf => buf | _ => [] end.

Definition open c : Prop := uc_sock c = false -> uc_is_closing c = true.

Lemma dispatch_moves env c msg r :
  send_ok (env_send env) -> open c -> uc_is_closing c = false -> unix_connection_dispatch env c msg = Some r ->
  (speaks c r /\ input_of msg = []) \/ pump r c (input_of msg).
Proof.
  intros Hok Ho Hc. unfold unix_connection_dispatch. rewrite Hc.
  assert (uc_sock c = true) as Hs by (destruct (uc_sock c) eqn:E; [done|]; apply Ho in E; congruence).
  destruct msg as [data| | |buf| | |result|result|max current]; cbn [input_of].
  - rewrite Hs. cbn [negb]. destruct (framer_receive _ _) as [payloads f]. intros H. left. split; [|done].
    by apply payloads_speak in H as [Hi Hp].
  - intros [= <-]. right. apply hang_up_pump.
  - intros [= <-]. right. apply hang_up_pump.
  - intros [= <-]. right. by apply handle_write_pump.
  - intros [= <-]. right. by apply handle_writable_pump.
  - intros [= <-]. right. by apply handle_close_pump.
  - intros [= <-]. left. split; [|done]. destruct result as [[ori|]|]; cbn; speak.
  - intros H. left. split; [|done]. by eapply block_speak.
  - destruct (cache_handle_resize_result _ _ _). intros [= <-]. left. split; [speak|done].
Qed.

Lemma dispatch_closing env c msg r :
  uc_is_closing c = true -> unix_connection_dispatch env c msg = Some r -> r = (c, []).
Proof. intros Hc. unfold unix_connection_dispatch. rewrite Hc. by intros [= <-]. Qed.

(** Everything posted is, in order, on the wire, waiting in the buffer or in
    the mailbox; a connection that closes stops in the middle. *)
Record flow (s : session) : Prop := {
  flow_sock : open (ss_conn s);
  flow_msgs : exists msgs, encode_all msgs = Some (ss_posted s);
  flow_open : uc_is_closing (ss_conn s) = false ->
    ss_wire s ++ pend (ss_conn s) ++ concat (ss_mail s) = concat (ss_posted s);
  flow_prefix : ss_wire s `prefix_of` concat (ss_posted s)
}.

Lemma encode_all_app m1 m2 f1 f2 :
  encode_all m1 = Some f1 -> encode_all m2 = Some f2 -> encode_all (m1 ++ m2) = Some (f1 ++ f2).
Proof. unfold encode_all. intros H1 H2. apply mapM_Some in H1, H2. apply mapM_Some. by apply Forall2_app. Qed.

Lemma flow_speak s c effs frames :
  flow s -> speaks (ss_conn s) (c, effs) -> flow (absorb c effs frames s).
Proof.
  intros [Ho [msgs Hm] Hf Hp] [Hi Hs]. cbn in Hi, Hs. unfold io in Hi.
  destruct (spoken_posts _ Hs) as [msgs' Hm']. pose proof (spoken_sent _ Hs) as He.
  split; cbn; rewrite ?He, ?app_nil_r; unfold open, pend in *.
  - destruct c, (ss_conn s). cbn in *. by simplify_eq.
  - exists (msgs ++ msgs'). by apply encode_all_app.
  - destruct c, (ss_conn s). cbn in *. simplify_eq. intros Hc. by rewrite !concat_app, <- Hf, !app_assoc.
  - rewrite concat_app. by apply prefix_app_r.
Qed.

Lemma flow_pump s c effs frames mail resolving input :
  flow s -> uc_is_closing (ss_conn s) = false -> concat (ss_mail s) = input ++ concat mail ->
  pump (c, effs) (ss_conn s) input ->
  flow (absorb c effs frames (mk_session (ss_conn s) mail resolving (ss_wire s) (ss_posted s)
    (ss_frames s) (ss_trace s))).
Proof.
  intros [Ho Hm Hf Hp] Hc Hmail [_ Hq Hop Hpre Hso]. cbn [fst snd] in *. specialize (Hf Hc). pose proof (quiet_posts _ Hq) as He.
  rewrite Hmail in Hf. split; cbn [absorb ss_conn ss_wire ss_mail ss_posted]; rewrite ?He, ?app_nil_r; try done.
  - intros Hcl. by rewrite <- Hf, <- app_assoc, (app_assoc (sent effs)), Hop, <- app_assoc.
  - rewrite <- Hf, (app_assoc (pend _)). apply prefix_app. by apply prefix_app_r.
Qed.

Lemma flow_dispatch env msg s c effs frames mail resolving :
  send_ok (env_send env) -> flow s -> concat (ss_mail s) = input_of msg ++ concat mail ->
  unix_connection_dispatch env (ss_conn s) msg = Some (c, effs) ->
  flow (absorb c effs frames (mk_session (ss_conn s) mail resolving (ss_wire s) (ss_posted s)
    (ss_frames s) (ss_trace s))).
Proof.
  intros Hok Hf Hmail H. destruct (uc_is_closing (ss_conn s)) eqn:Hc.
  - apply (dispatch_closing _ _ _ _ Hc) in H. simplify_eq. destruct Hf as [Ho Hm _ Hp].
    split; cbn [absorb ss_conn ss_wire ss_posted]; rewrite ?app_nil_r; try done. by rewrite Hc.
  - destruct (dispatch_moves _ _ _ _ Hok (flow_sock _ Hf) Hc H) as [[Hs Hi]|Hp]; [|by eapply flow_pump].
    apply flow_speak; [|done]. rewrite Hi in Hmail. destruct Hf as [Ho Hm Hop Hp].
    split; cbn; [done|done| |done]. intros Hcl. by rewrite <- Hop, Hmail.
Qed.

Lemma reach_flow s : session_reach s -> flow s.
Proof.
  induction 1 as [env data_dir He|s s' _ IH Hs]; [by split; [|exists []| |]|].
  destruct Hs as [env msg s c effs (_ & _ & Hok) Hx Hd|env buf mail s c effs (_ & _ & Hok) Hm Hd
    |env result n s c effs (_ & _ & Hok) Hn Hd|frame s _].
  - assert (input_of msg = []) as Hi by by destruct msg.
    pose proof (flow_dispatch env msg s c effs (frames_in (ss_conn s) msg) (ss_mail s) (ss_resolving s) Hok IH) as Hf.
    rewrite Hi in Hf. specialize (Hf eq_refl Hd). by destruct s.
  - eapply flow_dispatch; [done|done| |exact Hd]. by rewrite Hm.
  - by eapply flow_dispatch; [done|done| |exact Hd].
  - apply flow_speak; [done|]. split; [done|apply send_frame_spoken].
Qed.

Lemma deframe_prefix_of a b : a `prefix_of` b -> (deframe a).1 `prefix_of` (deframe b).1.
Proof. intros [x ->]. rewrite deframe_app. by apply prefix_app_r. Qed.

(** ** Before authentication *)

Lemma quiet_harmless effs : Forall quiet effs -> Forall harmless effs.
Proof. intros H. eapply Forall_impl; [exact H|]. by right. Qed.

Lemma public_harmless effs : Forall public effs -> Forall harmless effs.
Proof. intros H. eapply Forall_impl; [exact H|]. by left. Qed.

Lemma harmless_resolves effs : Forall harmless effs -> resolves effs = 0%nat.
Proof.
  induction 1 as [|e effs He _ IH]; [done|]. apply harmless_idle in He. unfold resolves. cbn. by destruct e.
Qed.

Lemma cache_result_locked c r ctx effs :
  locked c -> block_handle_cache_result (uc_block_ctx c) r = Some (ctx, effs) -> ctx = uc_block_ctx c /\ effs = [].
Proof.
  intros (_ & _ & Hp & _) H. unfold block_handle_cache_result in H. rewrite Hp in H.
  destruct r; rewrite bool_decide_true in H by done; by simplify_eq.
Qed.

Lemma pump_harmless r c input : pump r c input -> locked c -> locked r.1 /\ Forall harmless r.2.
Proof. intros [Hlo Hq _ _ _] Hl. split; [by apply Hlo|by apply quiet_harmless]. Qed.

Lemma message_locked env hash c msg c' effs :
  env_ok env -> key = Some hash -> open c -> external msg = true \/ (exists buf, msg = UNIX_CONNECTION_WRITE buf) ->
  locked c -> unix_connection_dispatch env c msg = Some (c', effs) ->
  (locked c' /\ Forall harmless effs) \/ Exists (accepted hash) (frames_in c msg).
Proof.
  intros He Hh Ho Hx Hl H. destruct (uc_is_closing c) eqn:Hc.
  { apply (dispatch_closing _ _ _ _ Hc) in H. simplify_eq. by left. }
  assert (uc_sock c = true) as Hs by (destruct (uc_sock c) eqn:E; [done|]; apply Ho in E; congruence).
  assert (forall r input, pump r c input -> Some r = Some (c', effs) -> locked c' /\ Forall harmless effs) as Hpump.
  { intros r input Hp [= ->]. by apply (pump_harmless _ _ _ Hp). }
  pose proof He as (_ & _ & Hok). unfold unix_connection_dispatch in H. rewrite Hc in H.
  destruct msg as [data| | |buf| | |result|result|max current].
  - cbn [frames_in]. rewrite Hc, Hs in *. cbn [orb negb] in *. destruct (framer_receive _ _) as [payloads f].
    destruct (payloads_locked _ _ _ _ _ _ He Hh (locked_framer _ f Hl) H) as [[? ?]|]; [left|by right].
    split; [done|by apply public_harmless].
  - left. eapply Hpump, H. apply (hang_up_pump c []).
  - left. eapply Hpump, H. apply (hang_up_pump c []).
  - left. eapply Hpump, H. by apply handle_write_pump.
  - left. eapply Hpump, H. by apply handle_writable_pump.
  - left. eapply Hpump, H. by apply handle_close_pump.
  - by destruct Hx as [|[]].
  - left. apply bind_Some in H as ([ctx e] & Hb & H). apply (cache_result_locked _ _ _ _ Hl) in Hb as [-> ->].
    rewrite block_ctx_same in H. by simplify_eq.
  - left. pose proof Hl as (_ & _ & Hp & _). unfold cache_handle_resize_result in H. rewrite Hp in H.
    rewrite bool_decide_true, block_ctx_same in H by done. by simplify_eq.
Qed.

(** Nothing but public replies has been made, and nothing is awaited. *)
Definition untouched (s : session) : Prop :=
  locked (ss_conn s) /\ Forall harmless (ss_trace s) /\ ss_resolving s = 0%nat.

Lemma untouched_absorb s c effs frames mail :
  untouched s -> locked c -> Forall harmless effs ->
  untouched (absorb c effs frames (mk_session (ss_conn s) mail (ss_resolving s) (ss_wire s) (ss_posted s)
    (ss_frames s) (ss_trace s))).
Proof.
  intros (_ & Ht & Hr) Hl He. split_and!; cbn [absorb ss_conn ss_trace ss_resolving]; [done|by apply Forall_app|].
  by rewrite Hr, harmless_resolves.
Qed.

Lemma reach_untouched hash s :
  key = Some hash -> session_reach s -> untouched s \/ Exists (accepted hash) (ss_frames s).
Proof.
  intros Hh. induction 1 as [env data_dir (Hk & _)|s s' Hr IH Hs].
  { left. unfold unix_connection_create. rewrite Hk, Hh. by repeat split. }
  destruct IH as [Hu|Ha]; [|right; destruct Hs; cbn [absorb ss_frames]; apply Exists_app; by left].
  pose proof (flow_sock _ (reach_flow _ Hr)) as Ho. pose proof Hu as (Hl & Ht & Hn).
  destruct Hs as [env msg s c effs He Hx Hd|env buf mail s c effs He Hm Hd
    |env result n s c effs _ Hs _|frame s Hw].
  - destruct (message_locked _ _ _ _ _ _ He Hh Ho (or_introl Hx) Hl Hd) as [[Hl' Hh']|Ha].
    + left. pose proof (untouched_absorb s c effs (frames_in (ss_conn s) msg) (ss_mail s) Hu Hl' Hh'). by destruct s.
    + right. cbn [absorb ss_frames]. apply Exists_app. by right.
  - destruct (message_locked _ _ _ _ _ _ He Hh Ho (or_intror (ex_intro _ buf eq_refl)) Hl Hd) as [[Hl' Hh']|Ha];
      [left|by apply Exists_nil in Ha]. by apply untouched_absorb.
  - congruence.
  - exfalso. apply Exists_exists in Hw as (e & He & Hw). rewrite Forall_forall in Ht.
    specialize (Ht e He). apply harmless_idle in Ht. congruence.
Qed.
End Session.

(** C18: whatever the client sends and however the socket takes the bytes, the
    frames the client can take from the stream are the first of the frames the
    connection and its pipelines posted, whole, unchanged and in their order;
    and when nothing waits in the mailbox or in the write buffer of an open
    connection, they are all of them. *)
Theorem unix_replies_in_order {C : Cbor} {CS : CborSerial} {P : PeerInfo} {BL : Blake3} key bcrypt s :
  session_reach key bcrypt s ->
  exists msgs, encode_all msgs = Some (ss_posted s) /\ (deframe (ss_wire s)).1 `prefix_of` msgs /\
    (uc_is_closing (ss_conn s) = false -> ss_mail s = [] -> pend (ss_conn s) = [] -> deframe (ss_wire s) = (msgs, [])).
Proof.
  intros Hr. destruct (reach_flow _ _ _ Hr) as [_ [msgs Hm] Hf Hp]. exists msgs. pose proof (deframe_encode _ _ Hm) as Hd.
  split_and!; [done| |].
  - apply deframe_prefix_of in Hp. by rewrite Hd in Hp.
  - intros Hc Hma Hpe. rewrite <- Hd, <- Hf by done. by rewrite Hma, Hpe, !app_nil_r.
Qed.

(** C17: on a transport with a key, a client that has not presented a key the
    check accepts gets error, health and update replies and nothing else: no
    request to the cache, the configuration, the network or a representation,
    no directory is resolved, and no file is read, loaded or written. *)
Theorem unix_auth_required {C : Cbor} {CS : CborSerial} {P : PeerInfo} {BL : Blake3} hash bcrypt s :
  session_reach (Some hash) bcrypt s -> ~ Exists (accepted bcrypt hash) (ss_frames s) ->
  Forall harmless (ss_trace s).
Proof. intros Hr Hn. by destruct (reach_untouched (Some hash) bcrypt hash s eq_refl Hr) as [(_ & ? & _)|?]. Qed.

(** ** An example: an unauthenticated GET and a slow socket *)

Definition example_check (password hash : bytes) : Z := if decide (password = hash) then 0 else 1.

Definition example_env (key : option bytes) (send : bytes -> send_result) : unix_env (C := item_cbor) (P := unit) := {|
  env_api_key_hash := key;
  env_bcrypt_check := example_check;
  env_config := {| cfg_node := false; cfg_data_dir := false; cfg_show := None; config_is_known_field _ := false;
    cfg_field _ _ := inr None; config_pending_save _ := false; config_pending_exists := false |};
  env_peers := {| net_network := false; net_peer_book := false; net_authority := None; peer_info_from_node := None;
    peer_info_encode _ := None; peer_info_decode _ := None; peer_info_from_base58 _ := None; qr_encode_to_ppm _ := None;
    qr_decode_from_ppm _ := None; network_connect_started _ _ := false; network_peer_snapshot := None;
    peer_book_friend_add _ := -1; peer_book_friends := None; peer_book_bootstrap_add _ := -1;
    peer_book_bootstrap_remove _ := -1; peer_book_bootstrap := None; endpoint_parse _ := None;
    cbor_map _ := cbor_array [] |};
  env_max_tuple_size := None; env_cache := sample_cache; env_capacity_json _ := None; env_health := None;
  env_update_status := None; env_random := []; env_send := send |}.

(** A socket that takes at most [n] bytes. *)
Definition takes (n : nat) (b : bytes) : send_result := SENT (Nat.min n (length b)).

Lemma takes_ok n : send_ok (takes n).
Proof. intros b m [= <-]. lia. Qed.

Lemma example_env_ok key n : env_ok key example_check (example_env key (takes n)).
Proof. split_and!; [done|done|apply takes_ok]. Qed.

Definition example_frame : bytes :=
  default [] (stream_frame_encode (cbor_serialize (cbor_array [cbor_build_uint8 CLIENT_API_GET_REQUEST]))).

Definition example_step (n : nat) (msg : unix_message) (c : unix_connection_t) :=
  default (c, []) (unix_connection_dispatch (BL := toy_blake3) (example_env (Some [107]) (takes n)) c msg).

Definition example_start : unix_connection_t := unix_connection_create (example_env (Some [107]) (takes 5)) true.
Definition example_asked := example_step 5 (UNIX_CONNECTION_DATA example_frame) example_start.
Definition example_reply : bytes := default [] (head (posts example_asked.2)).
Definition example_written := example_step 5 (UNIX_CONNECTION_WRITE example_reply) example_asked.1.
Definition example_flushed := example_step 1000 UNIX_CONNECTION_WRITABLE example_written.1.

Definition example_session : session (P := unit) :=
  absorb example_flushed.1 example_flushed.2 [] (absorb example_written.1 example_written.2 []
    (mk_session example_asked.1 [] 0 (sent example_asked.2) (posts example_asked.2)
       (frames_in example_start (UNIX_CONNECTION_DATA example_frame)) example_asked.2)).

Lemma example_reach : session_reach (BL := toy_blake3) (Some [107]) example_check example_session.
Proof.
  eapply reach_step; [eapply reach_step; [eapply reach_step|]|].
  - apply (reach_create (Some [107]) example_check (example_env (Some [107]) (takes 5)) true), example_env_ok.
  - apply (step_message _ _ (example_env (Some [107]) (takes 5)) (UNIX_CONNECTION_DATA example_frame) _
      example_asked.1 example_asked.2); [apply example_env_ok|done|]. vm_compute. reflexivity.
  - apply (step_write _ _ (example_env (Some [107]) (takes 5)) example_reply [] _ example_written.1 example_written.2);
      [apply example_env_ok|vm_compute; reflexivity|]. vm_compute. reflexivity.
  - apply (step_message _ _ (example_env (Some [107]) (takes 1000)) UNIX_CONNECTION_WRITABLE _
      example_flushed.1 example_flushed.2); [apply example_env_ok|done|]. vm_compute. reflexivity.
Qed.

Lemma unix_replies_in_order_witness :
  exists msgs, encode_all msgs = Some (ss_posted example_session) /\ deframe (ss_wire example_session) = (msgs, []).
Proof.
  destruct (unix_replies_in_order (BL := toy_blake3) (Some [107]) example_check example_session example_reach)
    as (msgs & Hm & _ & Hall).
  exists msgs. split; [exact Hm|]. apply Hall; vm_compute; reflexivity.
Defined.

Lemma unix_auth_required_witness :
  length (ss_frames example_session) = 1%nat /\ Forall harmless (ss_trace example_session).
Proof.
  split; [vm_compute; reflexivity|].
  apply (unix_auth_required (BL := toy_blake3) [107] example_check example_session example_reach).
  intros He. assert (ss_frames example_session = [[129; 5]]) as E by (vm_compute; reflexivity). rewrite E in He.
  apply Exists_cons in He as [(item & auth & Hl & Hd & _)|He]; [|by apply Exists_nil in He].
  vm_compute in Hl. injection Hl as <-. vm_compute in Hd. discriminate Hd.
Defined.
