(* ===== verification/UnixFile.v ===== *)
(** * UnixFile: a file from one client to another

    The streams of a PUT and its descriptor (OffWrite, DescWrite) with the
    pipeline of UnixPipelines that listens to them, the URL the client is sent,
    and the GET request that is given the URL (UnixConnection), which starts the
    streams of OffRead and DescRead. *)

From S2P Require Import Prelude Effect Block Tuple Cbor CborCodec WireBase Framer Base58 OffUrl.
From S2P Require Import OffWrite DescWrite DescRead OffRead Descriptor OffFile.
From stdpp Require Import strings.
From S2P Require Import ClientApiBase ClientApiTransfer ClientHandlers UnixPipelines UnixConnection.
Local Open Scope Z_scope.

(** ** The pipeline of a PUT *)

(** The events of the writer and of its descriptor the pipeline subscribes to. *)
Definition writer_event (e : put_effect) : option put_event :=
  match e with
  | Notify_hash h => Some (Put_data (Data_hash h))
  | Notify_tuple t => Some (Put_data (Data_tuple t))
  | Notify_close => Some Put_close
  | Notify_error => Some (Put_error None)
  | _ => None
  end.

Definition descriptor_event (e : put_effect) : option put_event :=
  match e with
  | Notify_hash h => Some (Put_desc_data h)
  | Notify_close => Some Put_desc_close
  | Notify_error => Some Put_desc_error
  | _ => None
  end.

Section PutRun.
Context {C : Cbor}.
Variable registry : bool.
Variable pointer_bytes : tuple_t -> bytes.

Fixpoint put_events (p : unix_put_pipeline_t) (events : list put_event)
  : option (unix_put_pipeline_t * list (pipeline_effect writer_data)) :=
  match events with
  | [] => Some (p, [])
  | e :: events =>
      '(p, e1) ← put_on_event registry pointer_bytes e p;
      '(p, e2) ← put_events p events;
      Some (p, e1 ++ e2)
  end.

Definition descriptor_writes (effs : list (pipeline_effect writer_data)) : list writer_data :=
  omap (fun e => match e with Descriptor_write d => Some d | _ => None end) effs.

Definition with_file_hash (p : unix_put_pipeline_t) (h : option writer_data) : unix_put_pipeline_t :=
  mk_put (pp_content_type p) (pp_file_name p) (pp_stream_length p) (pp_server_address p) (pp_temporary p) h
    (pp_descriptor_hash p).

(** The writer's tuples are passed on and its hash is kept, in whatever order
    they come, as long as no tuple has 32 hashes. *)
Lemma writer_events_run effs p :
  Forall (fun t => count t <> 32%nat) (tuples_of effs) ->
  (pp_file_hash p = None -> exists h, file_hashes effs = [h] /\ length h = 32%nat) ->
  (pp_file_hash p <> None -> file_hashes effs = []) ->
  exists p' out, put_events p (omap writer_event effs) = Some (p', out) /\
    descriptor_writes out = map Data_tuple (tuples_of effs) /\
    p' = with_file_hash p (match pp_file_hash p with
                           | Some d => Some d
                           | None => Data_hash <$> head (file_hashes effs)
                           end).
Proof.
  revert p. induction effs as [|e effs IH]; intros p Ht Hn Hs.
  { exists p, []. split_and!; [done..|]. destruct p as [? ? ? ? ? [d|] ?]; [done|]. by destruct (Hn eq_refl) as (? & ? & _). }
  destruct e; try (apply (IH p Ht Hn Hs)).
  - assert (pp_file_hash p = None) as Hp by (destruct (pp_file_hash p); [by specialize (Hs ltac:(done))|done]).
    destruct (Hn Hp) as (h & Hh & Hl). cbn in Hh. injection Hh as -> Hh.
    destruct (IH (with_file_hash p (Some (Data_hash h)))) as (p' & out & He & Hw & ->); [done|done|done|].
    exists (with_file_hash p (Some (Data_hash h))), out. split; [|split; [done|]].
    + cbn [omap list_omap writer_event put_events put_on_event]. unfold _unix_put_on_stream_data. cbn [data_size].
      rewrite Hl, Hp. cbn. cbn in He. unfold with_file_hash in *. cbn in He. by rewrite He.
    + by rewrite Hp.
  - apply Forall_cons in Ht as [Hc Ht]. destruct (IH p Ht Hn Hs) as (p' & out & He & Hw & Hp).
    exists p', (Descriptor_write (Data_tuple t) :: out). split; [|split; [|done]].
    + cbn [omap list_omap writer_event put_events put_on_event]. unfold _unix_put_on_stream_data. cbn [data_size].
      destruct (Nat.eqb_spec (count t) 32); [done|]. cbn. by rewrite He.
    + cbn. by f_equal.
  - destruct (IH p Ht Hn Hs) as (p' & out & He & Hw & Hp). exists p', (Descriptor_close :: out).
    split; [|split; [done|done]]. cbn [omap list_omap writer_event put_events put_on_event]. cbn. by rewrite He.
  - destruct (IH p Ht Hn Hs) as (p' & out & He & Hw & Hp). eexists p', (_ :: _ :: out). split.
    + cbn [omap list_omap writer_event put_events put_on_event]. cbn. by rewrite He.
    + by split.
Qed.

Lemma put_events_cons e events p p1 e1 p2 e2 :
  put_on_event registry pointer_bytes e p = Some (p1, e1) -> put_events p1 events = Some (p2, e2) ->
  put_events p (e :: events) = Some (p2, e1 ++ e2).
Proof. intros H1 H2. cbn [put_events]. by rewrite H1; cbn; rewrite H2. Qed.

Lemma cache_puts_silent effs : Forall is_cache_put effs -> omap descriptor_event effs = [].
Proof. induction 1 as [|e effs He _ IH]; [done|]. by destruct e. Qed.

(** The URL of a finished PUT. *)
Definition put_url (p : unix_put_pipeline_t) (file_hash descriptor_hash : bytes) : off_url_t :=
  mk_off_url (default (server_address off_url_create) (pp_server_address p)) (pp_content_type p)
    (pp_stream_length p) 0 (Some file_hash) (Some descriptor_hash) (Some (pp_file_name p)).

Definition put_replies (effs : list (pipeline_effect writer_data)) : list cbor_item :=
  omap (fun e => match e with Send frame => Some frame | _ => None end) effs.

(** The descriptor reports its hash and closes: the client is sent the URL. *)
Lemma descriptor_events_run deffs h p fh s :
  Forall is_cache_put deffs -> pp_file_hash p = Some (Data_hash fh) ->
  off_url_to_string (put_url p fh h) = RETURN s ->
  exists p' out, put_events p (omap descriptor_event (deffs ++ [Notify_hash h; Notify_finished; Notify_complete; Notify_close]))
      = Some (p', out) /\
    put_replies out = [client_api_put_response_encode {| put_response_ori_string := Some s |}].
Proof.
  intros Hd Hf Hs. rewrite omap_app, (cache_puts_silent _ Hd). cbn [app omap list_omap descriptor_event].
  eexists _, _. split.
  - eapply put_events_cons; [reflexivity|]. eapply put_events_cons; [|reflexivity].
    cbn [put_on_event]. unfold _unix_put_on_descriptor_close, _unix_put_on_descriptor_data.
    cbn [pp_file_hash pp_descriptor_hash pp_server_address pp_content_type pp_stream_length pp_file_name pp_temporary].
    rewrite Hf. cbn [mbind option_bind]. change (stream_offset off_url_create) with 0. unfold put_url in Hs.
    rewrite Hs. reflexivity.
  - cbn. by destruct (pp_temporary p && registry).
Qed.
End PutRun.

(** ** From PUT to GET *)

(** A GET request for a URL that names a file starts reading it. *)
Lemma get_reads_url {C : Cbor} {CS : CborSerial} {CL : CborLaws} {CSL : CborSerialLaws} {P : PeerInfo} c s url :
  uc_is_authenticated c = true -> is_url (Some s) -> off_url_parse s = Some url -> is_directory url = false ->
  _unix_handle_get c (client_api_get_request_encode
    {| get_ori_string := Some s; get_has_range := 0; get_range_start := 0; get_range_end := 0 |}) =
  Some (c, start_get c (url_ori url)).
Proof.
  intros Ha Hu Hp Hd. unfold _unix_handle_get. rewrite Ha. cbn [negb].
  set (m := {| get_ori_string := Some s |}).
  assert (client_api_get_request_decode (client_api_get_request_encode m) = DECODED m) as ->.
  { refine (cm_roundtrip CLIENT_API_GET_REQUEST m (client_api_get_request_encode m) _ _ _); [by left| |done].
    split; [done|by left]. }
  cbn [with_decoded]. unfold m. cbn [get_ori_string mbind option_bind]. by rewrite Hp, Hd.
Qed.

Lemma response_carries_url {C : Cbor} {CS : CborSerial} {CL : CborLaws} {CSL : CborSerialLaws} s :
  is_url (Some s) ->
  client_api_put_response_decode (client_api_put_response_encode {| put_response_ori_string := Some s |}) =
    DECODED {| put_response_ori_string := Some s |}.
Proof.
  intros (s' & [= <-] & Ht & _). set (m := {| put_response_ori_string := Some s |}).
  by refine (cm_roundtrip CLIENT_API_PUT_RESPONSE m (client_api_put_response_encode m) _ _ _); [left| |].
Qed.

(** A fresh pipeline for a file of [len] bytes, whose texts a URL can carry. *)
Record fresh_put (p : unix_put_pipeline_t) (len : Z) : Prop := {
  fp_hash : pp_file_hash p = None;
  fp_length : pp_stream_length p = len;
  fp_server : match pp_server_address p with
              | Some a => a <> [] /\ strstr (a ++ [SLASH]) OffUrl.prefix = None
              | None => True
              end;
  fp_type : is_cstring (pp_content_type p) /\ (length (pp_content_type p) <= OFFS_MAX_CONTENT_TYPE_LEN)%nat /\
    plain_type (pp_content_type p) = true;
  fp_file : strstr (pp_content_type p) (lit "offsystem/directory") = None;
  fp_name : is_cstring (pp_file_name p) /\ (length (pp_file_name p) <= OFFS_MAX_FILE_NAME_LEN)%nat
}.

Lemma blake3_url_hash {BL : Blake3} data : (leading 0 (blake3 data) <= 3)%nat -> url_hash (blake3 data).
Proof.
  intros Hl. split_and!; [apply blake3_bytes| |done]. rewrite blake3_length. apply Nat.leb_le. by vm_compute.
Qed.

Lemma put_url_ok {BL : Blake3} p w data :
  fresh_put p (Z.of_nat (length w)) -> Z.of_nat (length w) < 2 ^ 63 ->
  (leading 0 (blake3 w) <= 3)%nat -> (leading 0 (blake3 data) <= 3)%nat ->
  url_ok (put_url p (blake3 w) (blake3 data)) (blake3 w) (blake3 data) (pp_file_name p).
Proof.
  intros [_ Hlen Hserver Htype _ Hname] Hw H1 H2. split; cbn.
  - destruct (pp_server_address p); [done|]. cbn. split; [done|]. by vm_compute.
  - done.
  - rewrite Hlen. unfold LONG_MAX. lia.
  - split_and!; [done|by apply blake3_url_hash|]. intros Hn. pose proof (blake3_length w) as Hl. by rewrite Hn in Hl.
  - split; [done|by apply blake3_url_hash].
  - done.
Qed.

Lemma encoded_counts {BL : Blake3} type ts puts tuples blocks :
  Forall2 (encodes type ts puts) tuples blocks -> Forall (fun t => count t = ts) tuples.
Proof.
  induction 1 as [|t o tuples blocks (bl & -> & Hl & _) _ IH]; constructor; [|done]. cbn. by rewrite length_map.
Qed.


(** ** An example: five bytes *)

Definition five : bytes := [104; 101; 108; 108; 111].
Definition five_pad : bytes := replicate (Z.to_nat 127995) 5.
Definition five_random (x : Z) : block_t :=
  block_create_random_block_by_type (H := quick_blake3) (replicate (Z.to_nat 128000) x).
Definition five_dispatch := writeable_off_stream_dispatch (BL := quick_blake3) true.
Definition five_start : writeable_off_stream_t :=
  writeable_off_stream_set_ephemeral false (writeable_off_stream_create standard 3 [false] 1).
Definition five_1 := five_dispatch five_start (WRITEABLE_WRITE five).
Definition five_2 := five_dispatch five_1.1 (WRITEABLE_FINALIZE five_pad).
Definition five_3 := five_dispatch five_2.1 (RECIPE_BLOCK_DATA (five_random 1)).
Definition five_4 := five_dispatch five_3.1 (RECIPE_BLOCK_DATA (five_random 2)).
Definition five_effects := ((([] ++ five_1.2) ++ five_2.2) ++ five_3.2) ++ five_4.2.

Lemma five_history :
  put_history (BL := quick_blake3) true standard 3 [false] 1 false true five_4.1 ([] ++ five)
    (Some (padding five_1.1 five_pad)) five_effects.
Proof.
  refine (ph_block (BL := quick_blake3) true standard 3 [false] 1 false true five_3.1 _ _ _ (five_random 2) _ _ _);
    [|by vm_compute|by apply random_block_ok, length_replicate].
  refine (ph_block (BL := quick_blake3) true standard 3 [false] 1 false true five_2.1 _ _ _ (five_random 1) _ _ _);
    [|by vm_compute|by apply random_block_ok, length_replicate].
  refine (ph_finalize (BL := quick_blake3) true standard 3 [false] 1 false true five_1.1 _ _ five_pad _ _).
  - refine (ph_write (BL := quick_blake3) true standard 3 [false] 1 false true five_start _ _ five _).
    apply (ph_start (BL := quick_blake3) true standard 3 [false] 1 false).
  - intros _. unfold five_pad. rewrite length_replicate. change (length (ws_accumulator five_1.1)) with 5%nat.
    cbn [block_size]. lia.
Qed.

(** The client's request, and what its descriptor and the cache hold then. *)
Definition five_put : unix_put_pipeline_t :=
  mk_put (lit "text/plain") (lit "hello.txt") 5 None false None None.

Lemma five_fresh : fresh_put five_put (Z.of_nat (length ([] ++ five))).
Proof. split; try done; [split; [|split]|split]; vm_compute; repeat constructor; lia. Qed.

Definition five_descriptor := put_descriptor (BL := quick_blake3) true standard 3 5 1 five_effects.
Lemma five_descriptor_eq : put_descriptor (BL := quick_blake3) true standard 3 5 1 five_effects = five_descriptor.
Proof. unfold five_descriptor. reflexivity. Qed.
Definition five_hash : bytes :=
  default [] (last (omap (fun e => if e is Notify_hash h then Some h else None) five_descriptor)).
Definition five_lookup := block_lookup (stored five_effects ++ stored five_descriptor).

Definition returned (r : string_result) : bytes := if r is RETURN url then url else [].
Lemma RETURN_inj a b : RETURN a = RETURN b -> a = b.
Proof. congruence. Qed.
Definition five_url : bytes :=
  returned (off_url_to_string (put_url five_put (blake3 (Blake3 := quick_blake3) ([] ++ five)) five_hash)).

Lemma five_url_printed :
  off_url_to_string (put_url five_put (blake3 (Blake3 := quick_blake3) ([] ++ five)) five_hash) = RETURN five_url.
Proof. vm_compute. reflexivity. Qed.

Lemma five_url_valid : is_url (Some five_url).
Proof.
  exists five_url. split; [done|]. assert (forallb (fun c => (0 <? c) && (c <? 256)) five_url = true) as Hc by by vm_compute.
  split; [split|by vm_compute].
  - apply List.Forall_forall. intros c Hin. apply (proj1 (forallb_forall _ _) Hc), andb_true_iff in Hin. lia.
  - vm_compute. split; [done|discriminate].
Qed.

Lemma five_agrees : agrees_check five_lookup (stored five_effects) && agrees_check five_lookup (stored five_descriptor) = true.
Proof. vm_compute. reflexivity. Qed.

(** The GET: the blocks of its tuple come in another order. *)
Definition five_ori := read_ori standard 3 five_hash 0 5.
Definition five_tuple : tuple_t := default (tuple_create 3) (head (tuples_of five_effects)).
Definition five_block (k : nat) : bytes := default [] (tuple_hashes five_tuple !! k).
Definition five_answer (k : nat) : ro_message := RO_CACHE_GET_RESULT (five_lookup (five_block k)) (five_block k).
Definition five_get_1 := get_step (readable_off_stream_create_ex five_ori false) (OFF_STREAM_WRITE five_tuple).
Definition five_get_2 := get_step five_get_1.1 (five_answer 2).
Definition five_get_3 := get_step five_get_2.1 (five_answer 0).
Definition five_get_4 := get_step five_get_3.1 (five_answer 1).
Definition five_got := ((([] ++ five_get_1.2) ++ five_get_2.2) ++ five_get_3.2) ++ five_get_4.2.

Lemma five_tuples fuel : tuples_read (read_descriptor (20 + fuel) five_lookup five_ori).2 = [five_tuple].
Proof. vm_compute. reflexivity. Qed.

Lemma five_answer_ok k :
  (k < 3)%nat -> answer (content_of five_lookup standard) five_ori (Ask_block (five_block k)) (five_answer k).
Proof.
  intros Hk. unfold five_answer.
  destruct (content_of_found five_lookup standard (five_block k)) as (b & -> & Hb); [|by constructor].
  by destruct k as [|[|[|k]]]; [vm_compute..|lia].
Qed.

Lemma five_requests :
  requests five_get_1.2 = [Ask_block (five_block 0); Ask_block (five_block 1); Ask_block (five_block 2)] /\
  requests five_get_2.2 = [] /\ requests five_get_3.2 = [] /\ requests five_get_4.2 = [].
Proof. vm_compute. done. Qed.

Lemma five_active :
  ro_is_deactivated five_get_1.1 = false /\ ro_is_deactivated five_get_2.1 = false /\ ro_is_deactivated five_get_3.1 = false.
Proof. vm_compute. done. Qed.

(** A get of one tuple of three whose blocks come last, first, second. *)
Lemma get_three content ori t q0 q1 q2 m0 m1 m2 r1 r2 r3 r4 :
  r1 = get_step (readable_off_stream_create_ex ori false) (OFF_STREAM_WRITE t) -> tuple_full t ->
  r2 = get_step r1.1 m2 -> r3 = get_step r2.1 m0 -> r4 = get_step r3.1 m1 ->
  requests r1.2 = [q0; q1; q2] /\ requests r2.2 = [] /\ requests r3.2 = [] /\ requests r4.2 = [] ->
  ro_is_deactivated r1.1 = false /\ ro_is_deactivated r2.1 = false /\ ro_is_deactivated r3.1 = false ->
  answer content ori q0 m0 -> answer content ori q1 m1 -> answer content ori q2 m2 ->
  get_reach false false content ori false r4.1 [] [t] ((([] ++ r1.2) ++ r2.2) ++ r3.2 ++ r4.2).
Proof.
  intros -> Ht -> -> -> (R1 & R2 & R3 & R4) (A1 & A2 & A3) H0 H1 H2. rewrite app_assoc. unfold get_step in *.
  eapply get_reach_eq; [refine (get_answer false false content ori false _ [] q1 [] _ _ m1 _ A3 H1)|by rewrite R4].
  eapply get_reach_eq; [refine (get_answer false false content ori false _ [] q0 [q1] _ _ m0 _ A2 H0)|by rewrite R3].
  eapply get_reach_eq; [refine (get_answer false false content ori false _ [q0; q1] q2 [] _ _ m2 _ A1 H2)|by rewrite R2].
  eapply get_reach_eq; [refine (get_write false false content ori false _ [] [] [] t (get_start _ _ _ _ _) _ Ht)|exact R1]. done.
Qed.

Lemma five_get_reach :
  get_reach false false (content_of five_lookup standard) five_ori false five_get_4.1 [] [five_tuple] five_got.
Proof.
  unfold five_got. rewrite <- (app_assoc _ five_get_3.2).
  apply (get_three _ _ five_tuple (Ask_block (five_block 0)) (Ask_block (five_block 1)) (Ask_block (five_block 2))
    (five_answer 0) (five_answer 1) (five_answer 2)).
  - unfold five_get_1. reflexivity.
  - split; [apply Nat.ltb_lt|]; by vm_compute.
  - unfold five_get_2. reflexivity.
  - unfold five_get_3. reflexivity.
  - unfold five_get_4. reflexivity.
  - exact five_requests.
  - exact five_active.
  - apply five_answer_ok. lia.
  - apply five_answer_ok. lia.
  - apply five_answer_ok. lia.
Qed.

Lemma five_room : room (Z.to_nat (block_size standard) / BLAKE3_OUT_LEN) (3 * length (tuples_of five_effects)).
Proof.
  intros H. exfalso. revert H. apply Nat.leb_nle. vm_compute. reflexivity.
Qed.

Lemma five_fills :
  fills (Z.to_nat (block_size standard)) (Z.to_nat (block_size standard) / BLAKE3_OUT_LEN) (3 * length (tuples_of five_effects)).
Proof. intros _. apply Nat.eqb_eq. vm_compute. reflexivity. Qed.

Lemma five_open : ro_is_deactivated five_get_4.1 = false.
Proof. vm_compute. reflexivity. Qed.

Lemma five_reading fuel :
  tuples_read (read_descriptor (20 + fuel) five_lookup (read_ori standard 3 five_hash 0 (Z.of_nat (length ([] ++ five))))).2 =
    [five_tuple].
Proof. exact (five_tuples fuel). Qed.

Lemma five_completed : ws_completed five_4.1 = true.
Proof. vm_compute. reflexivity. Qed.

Lemma five_hash_leading : (leading 0 five_hash <= 3)%nat.
Proof. apply Nat.leb_le. vm_compute. reflexivity. Qed.

