(* ===== verification/UnixUpload.v ===== *)
(** * UnixUpload: the frames of a client reach the file it writes

    The bytes of a client come in buffers of any division.  A run of DATA
    messages dispatches the frames of the whole stream; the frames of a
    streaming PUT make the writer of the file receive the client's chunks, in
    order, and then the end of the file. *)

From S2P Require Import BlockCache.
From S2P Require Import Prelude Effect Block Cbor CborCodec WireBase Framer OffUrl DescRead.
From stdpp Require Import strings.
From S2P Require Import ClientApiBase ClientApiTransfer ClientApiBlock ClientApiAdmin ClientApiOps ClientHandlers UnixPipelines UnixConnection UnixSession.
Local Open Scope Z_scope.

Section Upload.
Context {C : Cbor} {CS : CborSerial} {P : PeerInfo} {BL : Blake3}.
Variable env : unix_env.

Implicit Types c : unix_connection_t.

(** The messages handled one after the other. *)
Fixpoint unix_run c (msgs : list unix_message) : option (unix_connection_t * list unix_effect) :=
  match msgs with
  | [] => Some (c, [])
  | msg :: msgs =>
      '(c, e1) ← unix_connection_dispatch env c msg;
      '(c, e2) ← unix_run c msgs;
      Some (c, e1 ++ e2)
  end.

(** ** Requests do not look at the framer *)

Definition reframe (f : stream_framer_t) (r : unix_connection_t * list unix_effect) :=
  (r.1 <| uc_framer := f |>, r.2).

Definition framer_free (h : unix_connection_t -> option (unix_connection_t * list unix_effect)) : Prop :=
  forall c f, h (c <| uc_framer := f |>) = reframe f <$> h c.

Lemma with_decoded_reframe {A} (d : decoded A) f r r' (h h' : A -> option (unix_connection_t * list unix_effect)) :
  r' = reframe f r -> (forall a, h' a = reframe f <$> h a) -> with_decoded d r' h' = reframe f <$> with_decoded d r h.
Proof. intros -> Hh. by destruct d; cbn. Qed.

Lemma get_free item : framer_free (fun c => _unix_handle_get c item).
Proof.
  intros c f. unfold _unix_handle_get. destruct c. cbn. destruct uc_is_authenticated; [|done]. cbn.
  apply with_decoded_reframe; [done|]. intros msg. destruct (get_ori_string msg ≫= off_url_parse); [|done].
  by destruct (is_directory o).
Qed.

Lemma load_free item : framer_free (fun c => _unix_handle_load c item).
Proof.
  intros c f. unfold _unix_handle_load. destruct c. cbn. destruct uc_is_authenticated; [|done]. cbn.
  apply with_decoded_reframe; [done|]. intros msg. destruct (load_ori_string msg ≫= off_url_parse); [|done].
  by destruct (is_directory o).
Qed.

Lemma put_free item : framer_free (fun c => _unix_handle_put env c item).
Proof.
  intros c f. unfold _unix_handle_put. destruct c. cbn. destruct uc_is_authenticated; [|done]. cbn.
  apply with_decoded_reframe; [done|]. intros msg. destruct (put_content_type msg), (put_file_name msg); try done.
  destruct (put_refused env msg) as [[]|]; [done|]. by destruct (put_data msg).
Qed.

Lemma put_data_free item : framer_free (fun c => _unix_handle_put_data c item).
Proof.
  intros c f. unfold _unix_handle_put_data, streaming. destruct c. cbn. destruct uc_is_authenticated; [|done]. cbn.
  destruct uc_put_streaming; [|done]. destruct uc_put_ws; [|done].
  apply with_decoded_reframe; [done|]. intros msg. by destruct (put_data_data msg).
Qed.

Lemma put_end_free : framer_free (fun c => Some (_unix_handle_put_end c)).
Proof.
  intros c f. unfold _unix_handle_put_end, streaming. destruct c. cbn. destruct uc_is_authenticated; [|done]. cbn.
  destruct uc_put_streaming; [|done]. by destruct uc_put_ws.
Qed.

Lemma auth_free item : framer_free (fun c => _unix_handle_auth env c item).
Proof.
  intros c f. unfold _unix_handle_auth. destruct (env_api_key_hash env); [|by destruct c].
  apply with_decoded_reframe; [by destruct c|]. intros auth. destruct c. by case_match.
Qed.

Lemma effects_free c f effs : with_effects (c <| uc_framer := f |>) effs = reframe f <$> with_effects c effs.
Proof. by destruct effs, c. Qed.

Lemma block_free c f r : with_block_ctx (c <| uc_framer := f |>) r = reframe f <$> with_block_ctx c r.
Proof. by destruct r as [[]|], c. Qed.

Lemma rep_free r :
  framer_free (fun c => if negb (uc_is_authenticated c) then Some (c, auth_required c) else with_effects c r).
Proof. intros c f. destruct c. cbn. destruct uc_is_authenticated, r; done. Qed.

Lemma frame_free type item : framer_free (fun c => _unix_dispatch_frame env c type item).
Proof.
  intros c f. unfold _unix_dispatch_frame. cbv zeta.
  repeat (match goal with |- context [if ?b then _ else _] => destruct b eqn:? end;
    [solve [apply get_free|apply load_free|apply put_free|apply put_data_free|apply put_end_free|apply auth_free
           |apply rep_free|apply effects_free|apply block_free|by destruct c]|]).
  by destruct c.
Qed.

Lemma payload_free payload : framer_free (fun c => dispatch_payload env c payload).
Proof.
  intros c f. unfold dispatch_payload. destruct (cbor_load payload) as [item|]; [|done].
  apply with_decoded_reframe; [done|]. intros type. apply frame_free.
Qed.

Lemma payloads_free payloads : framer_free (fun c => dispatch_payloads env c payloads).
Proof.
  induction payloads as [|p ps IH]; intros c f; [done|]. cbn [dispatch_payloads].
  rewrite (payload_free p c f). destruct (dispatch_payload env c p) as [[c1 e1]|]; [|done].
  cbn [fmap option_fmap option_map mbind option_bind reframe fst snd]. rewrite (IH c1 f).
  by destruct (dispatch_payloads env c1 ps) as [[c2 e2]|].
Qed.

Lemma dispatch_payloads_app c p1 p2 :
  dispatch_payloads env c (p1 ++ p2) =
  '(c, e1) ← dispatch_payloads env c p1; '(c, e2) ← dispatch_payloads env c p2; Some (c, e1 ++ e2).
Proof.
  revert c. induction p1 as [|p ps IH]; intros c; cbn [app dispatch_payloads].
  { cbn. by destruct (dispatch_payloads env c p2) as [[]|]. }
  destruct (dispatch_payload env c p) as [[c1 e1]|]; [|done]. cbn [mbind option_bind]. rewrite IH.
  destruct (dispatch_payloads env c1 ps) as [[c2 e2]|]; [|done]. cbn [mbind option_bind].
  destruct (dispatch_payloads env c2 p2) as [[c3 e3]|]; [|done]. cbn. by rewrite app_assoc.
Qed.

(** A run of DATA messages dispatches the frames of the stream. *)
Lemma data_run c buffers :
  uc_sock c = true -> uc_is_closing c = false ->
  unix_run c (map UNIX_CONNECTION_DATA buffers) =
  (let '(payloads, f) := framer_run (uc_framer c) (map (fun b => [b]) buffers) in
   reframe f <$> dispatch_payloads env c payloads).
Proof.
  revert c. induction buffers as [|b bs IH]; intros c Hs Hc; cbn [map unix_run framer_run].
  { cbn. by destruct c. }
  unfold unix_connection_dispatch at 1. rewrite Hc, Hs. cbn [negb].
  destruct (framer_receive (uc_framer c) [b]) as [p1 f1]. rewrite (payloads_free p1 c f1).
  destruct (dispatch_payloads env c p1) as [[c1 e1]|] eqn:E1.
  - pose proof (payloads_speak _ _ _ _ E1) as [Hio _]. cbn [fst] in Hio.
    cbn [fmap option_fmap option_map mbind option_bind reframe fst snd].
    rewrite IH by (unfold io in Hio; destruct c, c1; cbn in *; congruence).
    replace (uc_framer (c1 <| uc_framer := f1 |>)) with f1 by by destruct c1.
    destruct (framer_run f1 (map (fun b => [b]) bs)) as [p2 f2].
    rewrite dispatch_payloads_app, E1. cbn [mbind option_bind]. rewrite (payloads_free p2 c1 f1).
    destruct (dispatch_payloads env c1 p2) as [[c2 e2]|]; [|done]. cbn. by destruct c2.
  - cbn. destruct (framer_run f1 (map (fun b => [b]) bs)) as [p2 f2]. by rewrite dispatch_payloads_app, E1.
Qed.
End Upload.

(** ** The frames of a streaming PUT *)

Section Stream.
Context {C : Cbor} {CS : CborSerial} {CL : CborLaws} {CSL : CborSerialLaws} {P : PeerInfo} {BL : Blake3}.
Variable env : unix_env.

Implicit Types c : unix_connection_t.

(** A frame arrives as what it was sent as. *)
Lemma frame_arrives {M} {W : ClientMsg M} {L : ClientMsgLaws M} t (m : M) item c :
  t ∈ cm_types (M := M) -> cm_ok m -> cm_encode t m = Some item ->
  dispatch_payload env c (cbor_serialize item) = _unix_dispatch_frame env c t item /\ cm_decode item = DECODED m.
Proof.
  intros Ht Hok He. split; [|by eapply cm_roundtrip]. unfold dispatch_payload.
  rewrite (load_serialize item) by (by eapply cm_serializable).
  destruct (cm_encode_type t m Ht Hok) as [l Hl]. assert (item = cbor_array (cbor_build_uint8 t :: l)) as -> by congruence.
  rewrite get_type_array; [done|]. pose proof (cm_types_u8 (M := M)) as Hu. rewrite Forall_forall in Hu. by apply Hu.
Qed.

(** The connection after the request for its next file. *)
Definition put_begun c : unix_connection_t :=
  c <| uc_puts := S (uc_puts c) |> <| uc_put_ws := Some (uc_puts c) |> <| uc_put_streaming := true |>.

Definition put_ended c : unix_connection_t := c <| uc_put_streaming := false |> <| uc_put_ws := None |>.

Lemma put_request_begins c msg type name :
  uc_is_authenticated c = true -> put_request_ok msg -> put_data msg = [] ->
  put_content_type msg = Some type -> put_file_name msg = Some name -> put_refused env msg = None ->
  dispatch_payload env c (cbor_serialize (client_api_put_request_encode msg)) =
  Some (put_begun c, [Put_start (uc_puts c) (put_of_request msg type name)]).
Proof.
  intros Ha Hok Hd Ht Hn Hr.
  assert (CLIENT_API_PUT_REQUEST ∈ cm_types (M := client_api_put_request_t)) as Hin by by left.
  destruct (frame_arrives CLIENT_API_PUT_REQUEST msg _ c Hin Hok eq_refl) as [-> Hdec].
  unfold _unix_dispatch_frame. cbn [Z.eqb]. unfold _unix_handle_put. rewrite Ha. cbn [negb].
  change (client_api_put_request_decode (client_api_put_request_encode msg) = DECODED msg) in Hdec.
  rewrite Hdec. cbn [with_decoded]. by rewrite Ht, Hn, Hr, Hd.
Qed.

Lemma put_data_written c ws data :
  uc_is_authenticated c = true -> streaming c = Some ws -> is_buffer data -> data <> [] ->
  dispatch_payload env c (cbor_serialize (client_api_put_data_encode {| put_data_data := data |})) =
  Some (c, [Put_write ws data]).
Proof.
  intros Ha Hs Hb Hne. set (m := {| put_data_data := data |}).
  assert (CLIENT_API_PUT_DATA ∈ cm_types (M := client_api_put_data_t)) as Hin by by left.
  destruct (frame_arrives CLIENT_API_PUT_DATA m _ c Hin Hb eq_refl) as [-> Hdec].
  unfold _unix_dispatch_frame. cbn [Z.eqb]. unfold _unix_handle_put_data. rewrite Ha, Hs. cbn [negb].
  change (client_api_put_data_decode (client_api_put_data_encode m) = DECODED m) in Hdec.
  rewrite Hdec. cbn [with_decoded]. unfold m. cbn. by destruct data.
Qed.

Lemma put_end_finalizes c ws :
  uc_is_authenticated c = true -> streaming c = Some ws ->
  dispatch_payload env c (cbor_serialize client_api_put_end_encode) = Some (put_ended c, [Put_finalize ws]).
Proof.
  intros Ha Hs. assert (CLIENT_API_PUT_END ∈ cm_types (M := client_api_put_end_t)) as Hin by by left.
  destruct (frame_arrives CLIENT_API_PUT_END PUT_END _ c Hin I eq_refl) as [-> _].
  unfold _unix_dispatch_frame. cbn [Z.eqb]. unfold _unix_handle_put_end. by rewrite Ha, Hs.
Qed.

Lemma chunks_written c ws chunks :
  uc_is_authenticated c = true -> streaming c = Some ws -> Forall (fun d => is_buffer d /\ d <> []) chunks ->
  dispatch_payloads env c (map (fun d => cbor_serialize (client_api_put_data_encode {| put_data_data := d |})) chunks) =
  Some (c, map (Put_write ws) chunks).
Proof.
  intros Ha Hs. induction 1 as [|d chunks [Hb Hne] _ IH]; [done|]. cbn [map dispatch_payloads].
  rewrite (put_data_written c ws d Ha Hs Hb Hne). cbn [mbind option_bind]. by rewrite IH.
Qed.

(** What a client sends to put a file in chunks. *)
Definition put_stream (msg : client_api_put_request_t) (chunks : list bytes) : list bytes :=
  cbor_serialize (client_api_put_request_encode msg) ::
  map (fun d => cbor_serialize (client_api_put_data_encode {| put_data_data := d |})) chunks ++
  [cbor_serialize client_api_put_end_encode].

Lemma put_stream_dispatched c msg chunks type name :
  uc_is_authenticated c = true -> put_request_ok msg -> put_data msg = [] ->
  put_content_type msg = Some type -> put_file_name msg = Some name -> put_refused env msg = None ->
  Forall (fun d => is_buffer d /\ d <> []) chunks ->
  dispatch_payloads env c (put_stream msg chunks) =
  Some (put_ended (put_begun c), Put_start (uc_puts c) (put_of_request msg type name) ::
    map (Put_write (uc_puts c)) chunks ++ [Put_finalize (uc_puts c)]).
Proof.
  intros Ha Hok Hd Ht Hn Hr Hch. unfold put_stream. cbn [dispatch_payloads].
  rewrite (put_request_begins c msg type name Ha Hok Hd Ht Hn Hr). cbn [mbind option_bind].
  assert (uc_is_authenticated (put_begun c) = true /\ streaming (put_begun c) = Some (uc_puts c)) as [Ha' Hs']
    by by destruct c.
  rewrite dispatch_payloads_app, (chunks_written _ _ _ Ha' Hs' Hch). cbn [mbind option_bind dispatch_payloads].
  by rewrite (put_end_finalizes _ _ Ha' Hs').
Qed.
End Stream.

(** The buffer of a read from the socket. *)
Definition READ_BUFFER_SIZE : Z := 65536.

(** C19: a file a client streams is written as it was sent.  The frames of the
    request, of the chunks and of the end, cut into reads of any sizes, start
    one writer with the parameters of the request, give it exactly the chunks in
    their order, and finalize it; the connection is then free for another file. *)
Theorem streamed_put_written {C : Cbor} {CS : CborSerial} {CL : CborLaws} {CSL : CborSerialLaws} {P : PeerInfo} {BL : Blake3}
    (env : unix_env) c msg chunks type name frames reads :
  uc_is_authenticated c = true -> uc_sock c = true -> uc_is_closing c = false ->
  framer_wf (uc_framer c) -> framer_buffer (uc_framer c) = [] ->
  put_request_ok msg -> put_data msg = [] -> put_content_type msg = Some type -> put_file_name msg = Some name ->
  put_refused env msg = None -> Forall (fun d => is_buffer d /\ d <> []) chunks ->
  encode_all (put_stream msg chunks) = Some frames ->
  Forall (fun f => Z.of_nat (length f) <= FRAMER_LIMIT - READ_BUFFER_SIZE) frames ->
  concat reads = concat frames -> Forall (fun b => Z.of_nat (length b) <= READ_BUFFER_SIZE) reads ->
  exists c', unix_run env c (map UNIX_CONNECTION_DATA reads) =
      Some (c', Put_start (uc_puts c) (put_of_request msg type name) ::
        map (Put_write (uc_puts c)) chunks ++ [Put_finalize (uc_puts c)]) /\
    streaming c' = None /\ framer_buffer (uc_framer c') = [].
Proof.
  intros Ha Hs Hc Hwf Hb Hok Hd Ht Hn Hr Hch He HF Hcat Hreads. rewrite data_run by done.
  destruct (framer_run_delivers (uc_framer c) (FRAMER_LIMIT - READ_BUFFER_SIZE) (put_stream msg chunks) frames
    (map (fun b => [b]) reads)) as [Hms Hf]; try done.
  { rewrite <- Hcat. unfold received. rewrite map_map. f_equal. clear. induction reads as [|b reads IH]; [done|].
    cbn [map]. rewrite IH. f_equal. apply app_nil_r. }
  { apply Forall_fmap. eapply Forall_impl; [exact Hreads|]. cbn. intros b Hbl. rewrite app_nil_r. lia. }
  destruct (framer_run (uc_framer c) _) as [ms f]. cbn [fst snd] in Hms, Hf. subst ms.
  rewrite (put_stream_dispatched env c msg chunks type name) by done. eexists. split; [reflexivity|].
  by destruct c.
Qed.

(** ** An example: three bytes in two chunks, read in pieces *)

Definition notes_request : client_api_put_request_t := {|
  put_content_type := Some (lit "text/plain"); put_file_name := Some (lit "notes.txt"); put_stream_length := 3;
  put_server_address := None; put_data := []; put_recycler_urls := []; put_temporary := 0;
  put_has_tuple_size := 0; put_tuple_size := 0; put_recycle_ephemeral := 0 |}.

Lemma lengths_le n (l : list bytes) :
  forallb (fun f => Z.of_nat (length f) <=? n) l = true -> Forall (fun f => Z.of_nat (length f) <= n) l.
Proof. intros H. apply Forall_forall. intros f Hf. apply Z.leb_le. rewrite forallb_forall in H. by apply H, list_elem_of_In. Qed.

Lemma notes_request_ok : put_request_ok notes_request.
Proof.
  split; [|by intros H]. split; try (by vm_compute).
  - split; [apply List.Forall_nil|apply Nat.leb_le; by vm_compute].
  - by left.
  - by left.
Qed.

Definition notes_chunks : list bytes := [[10; 20]; [30]].
Definition notes_bytes : bytes :=
  concat (default [] (encode_all (put_stream (C := item_cbor) (CS := item_serial) notes_request notes_chunks))).
Definition notes_reads : list bytes := [take 3 notes_bytes; take 40 (drop 3 notes_bytes); drop 43 notes_bytes].
Definition notes_conn : unix_connection_t := unix_connection_create (example_env None (takes 5)) true.

Lemma streamed_put_written_witness :
  exists c', unix_run (BL := toy_blake3) (example_env None (takes 5)) notes_conn (map UNIX_CONNECTION_DATA notes_reads) =
      Some (c', Put_start 0 (put_of_request notes_request (lit "text/plain") (lit "notes.txt")) ::
        map (Put_write 0) notes_chunks ++ [Put_finalize 0]) /\
    streaming c' = None /\ framer_buffer (uc_framer c') = [].
Proof.
  refine (streamed_put_written (C := item_cbor) (CS := item_serial) (BL := toy_blake3) (example_env None (takes 5))
    notes_conn notes_request notes_chunks (lit "text/plain") (lit "notes.txt")
    (default [] (encode_all (put_stream notes_request notes_chunks))) notes_reads
    eq_refl eq_refl eq_refl framer_create_wf eq_refl notes_request_ok eq_refl eq_refl eq_refl _ _ _ _ _ _).
  - vm_compute. reflexivity.
  - repeat constructor; done.
  - vm_compute. reflexivity.
  - apply lengths_le. vm_compute. reflexivity.
  - vm_compute. reflexivity.
  - apply lengths_le. vm_compute. reflexivity.
Defined.
