(* ===== verification/UnixLimits.v ===== *)
(** * UnixLimits: progress of a load, and where a connection falls short

    The one terminal frame of a LOAD; a close that never completes; replies lost
    between pipelined block requests; a file whose tuples have as many hashes as
    a hash has bytes. *)

From S2P Require Import BlockCache BlockCacheProps.
From S2P Require Import Prelude Effect Block Tuple Cbor CborCodec WireBase Framer OffUrl OffWrite DescRead.
From stdpp Require Import strings.
From S2P Require Import ClientApiBase ClientApiTransfer ClientApiBlock ClientHandlers UnixPipelines UnixConnection UnixSession UnixFile.
Local Open Scope Z_scope.

(** ** LOAD *)

Section Load.
Context {C : Cbor}.

Fixpoint load_events (p : unix_load_pipeline_t) (events : list load_event)
  : unix_load_pipeline_t * list (pipeline_effect tuple_t) :=
  match events with
  | [] => (p, [])
  | e :: events =>
      let '(p, e1) := load_on_event e p in
      let '(p, e2) := load_events p events in
      (p, e1 ++ e2)
  end.

Definition frames_sent (effs : list (pipeline_effect tuple_t)) : list cbor_item :=
  omap (fun e => match e with Send frame => Some frame | _ => None end) effs.

Definition progress_frame (item : cbor_item) : Prop := exists m, item = client_api_load_progress_encode m.
Definition end_frame (item : cbor_item) (status : Z) : Prop :=
  exists loaded total, item = client_api_load_end_encode
    {| load_end_status := status; load_end_loaded := loaded; load_end_total := total |}.

Definition is_close (e : load_event) : bool := match e with Load_close => true | _ => false end.
Definition is_error (e : load_event) : bool :=
  match e with Load_error _ | Load_desc_error _ _ => true | _ => false end.

Lemma load_events_app p e1 e2 :
  load_events p (e1 ++ e2) =
  ((load_events (load_events p e1).1 e2).1, (load_events p e1).2 ++ (load_events (load_events p e1).1 e2).2).
Proof.
  revert p. induction e1 as [|e e1 IH]; intros p; cbn [app load_events].
  { cbn [fst snd app]. apply surjective_pairing. }
  destruct (load_on_event e p) as [p1 f1]. rewrite IH. destruct (load_events p1 e1) as [p2 f2]. cbn [fst snd].
  destruct (load_events p2 e2) as [p3 f3]. cbn [fst snd]. by rewrite app_assoc.
Qed.

(** Before the reader closes only progress is reported, and a failure is
    remembered. *)
Lemma load_open p events :
  lp_terminal_sent p = false -> existsb is_close events = false ->
  lp_terminal_sent (load_events p events).1 = false /\
  lp_failed (load_events p events).1 = lp_failed p || existsb is_error events /\
  lp_tuples_total (load_events p events).1 = lp_tuples_total p /\
  Forall progress_frame (frames_sent (load_events p events).2).
Proof.
  revert p. induction events as [|e events IH]; intros p Ht Hc; cbn [existsb load_events].
  { cbn. by rewrite orb_false_r. }
  apply orb_false_iff in Hc as [He Hc].
  assert (lp_terminal_sent (load_on_event e p).1 = false /\
          lp_failed (load_on_event e p).1 = lp_failed p || is_error e /\
          lp_tuples_total (load_on_event e p).1 = lp_tuples_total p /\
          Forall progress_frame (frames_sent (load_on_event e p).2)) as (H1 & H2 & H3 & H4).
  { destruct e as [t|[[loaded skipped]|]| |rs| |rs desc]; try done; cbn;
      rewrite ?orb_false_r, ?orb_true_r; split_and!; try done; try (by destruct rs); try (by destruct rs, desc);
      unfold frames_sent; cbn; (constructor; [by eexists|by case_match]). }
  destruct (load_on_event e p) as [p1 f1]. cbn [fst snd] in *. destruct (IH p1 H1 Hc) as (I1 & I2 & I3 & I4).
  destruct (load_events p1 events) as [p2 f2]. cbn [fst snd] in *.
  rewrite I2, H2, I3, H3, orb_assoc. split_and!; try done. unfold frames_sent in *. rewrite omap_app. by apply Forall_app.
Qed.

(** Afterwards there is no second terminal frame. *)
Lemma load_closed p events :
  lp_terminal_sent p = true -> Forall progress_frame (frames_sent (load_events p events).2).
Proof.
  revert p. induction events as [|e events IH]; intros p Ht; cbn [load_events]; [done|].
  assert (lp_terminal_sent (load_on_event e p).1 = true /\
          Forall progress_frame (frames_sent (load_on_event e p).2)) as (H1 & H4).
  { destruct e as [t|[[loaded skipped]|]| |rs| |rs desc]; cbn; unfold _unix_load_send_terminal; rewrite ?Ht;
      split; try done; try (by destruct rs); try (by destruct rs, desc);
      unfold frames_sent; cbn; (constructor; [by eexists|by case_match]). }
  destruct (load_on_event e p) as [p1 f1]. cbn [fst snd] in *. specialize (IH p1 H1).
  destruct (load_events p1 events) as [p2 f2]. cbn [fst snd] in *. unfold frames_sent in *. rewrite omap_app. by apply Forall_app.
Qed.
End Load.

(** The status a load ends with. *)
Definition load_outcome (failed : bool) (p : unix_load_pipeline_t) : Z :=
  if failed then CLIENT_API_LOAD_STATUS_FAILED
  else if (0 <? lp_tuples_total p) && (lp_tuples_loaded p =? 0) then CLIENT_API_LOAD_STATUS_FAILED
  else if 0 <? lp_tuples_skipped p then CLIENT_API_LOAD_STATUS_PARTIAL
  else CLIENT_API_LOAD_STATUS_LOADED.

(** A load that closes reports its end exactly once, after its progress and
    never again, whatever its streams report before and after; the status is a
    failure if a stream has failed or nothing of a file that is not empty was
    loaded, partial if tuples were skipped, and success otherwise. *)
Theorem load_ends_once {C : Cbor} (total : Z) before after :
  existsb is_close before = false ->
  let p := (load_events (mk_load total 0 0 false false) before).1 in
  exists f1 item f2,
    frames_sent (load_events (mk_load total 0 0 false false) (before ++ Load_close :: after)).2 = f1 ++ item :: f2 /\
    Forall progress_frame f1 /\ Forall progress_frame f2 /\ end_frame item (load_outcome (existsb is_error before) p).
Proof.
  cbv zeta. intros Hb. destruct (load_open (mk_load total 0 0 false false) before eq_refl Hb) as (H1 & H2 & H3 & H4).
  rewrite load_events_app. cbn [snd]. cbn [lp_failed orb] in H2.
  set (p := (load_events (mk_load total 0 0 false false) before).1) in *.
  cbn [load_events load_on_event]. unfold _unix_load_send_terminal. rewrite H1.
  match goal with |- context [load_events ?q after] => pose proof (load_closed q after eq_refl) as Ha end.
  destruct (load_events _ after) as [q f2]. cbn [fst snd] in *.
  eexists _, _, (frames_sent f2). unfold frames_sent at 1. rewrite omap_app. split; [reflexivity|].
  split_and!; [done|done|]. eexists _, _. unfold load_outcome. rewrite <- H2. reflexivity.
Qed.

Lemma load_ends_once_witness :
  exists f1 item f2,
    frames_sent (C := item_cbor) (load_events (mk_load 2 0 0 false false)
      ([Load_progress (Some (1, 0)); Load_progress (Some (1, 1))] ++ Load_close :: [Load_error true; Load_close])).2 =
      f1 ++ item :: f2 /\
    Forall progress_frame f1 /\ Forall progress_frame f2 /\ end_frame item 1.
Proof.
  apply (load_ends_once (C := item_cbor) 2 [Load_progress (Some (1, 0)); Load_progress (Some (1, 1))]
    [Load_error true; Load_close]).
  reflexivity.
Defined.

(** ** Closing *)

(** A connection that is closed while it has bytes to write never closes its
    socket and never writes them: every later message is ignored, also the one
    that says that the socket can be written again. *)
Lemma close_with_pending_write_hangs {C : Cbor} {CS : CborSerial} {P : PeerInfo} {BL : Blake3} (env : unix_env) c :
  uc_write_pending c = true -> uc_sock c = true -> uc_is_closing c = false ->
  exists c' effs, unix_connection_dispatch env c UNIX_CONNECTION_CLOSE = Some (c', effs) /\
    uc_sock c' = true /\ uc_write_buffer c' = uc_write_buffer c /\ ~ Socket_destroy ∈ effs /\
    forall env' msg, unix_connection_dispatch env' c' msg = Some (c', []).
Proof.
  intros Hw Hs Hc. unfold unix_connection_dispatch at 1, handle_close. rewrite Hc, Hw. eexists _, _. split; [reflexivity|].
  destruct c; cbn in *. split_and!; try done. unfold _connection_update_watcher. destruct uc_watcher; set_solver.
Qed.

(** ** Pipelined block requests *)

(** Two requests for blocks, the second before the first is answered: the first
    answer is sent and the second is dropped. *)
Lemma pipelined_get_unanswered {C : Cbor} {P : PeerInfo} {BL : Blake3} ctx b1 b2 :
  blk_pending_op ctx = BLOCK_OP_GET ->
  exists ctx' reply, block_handle_cache_result ctx (Get_result b1) = Some (ctx', [reply]) /\
    block_handle_cache_result ctx' (Get_result b2) = Some (ctx', []).
Proof.
  intros Hp. cbn [block_handle_cache_result]. rewrite Hp, bool_decide_false by (by intros []). eexists _, _.
  split; [reflexivity|]. cbn. by rewrite bool_decide_true.
Qed.

(** ** Tuples of 32 *)

(** The first tuple of a file in tuples of 32 is taken for its hash and does
    not reach the descriptor. *)
Lemma wide_tuple_lost {C : Cbor} registry pointer_bytes p t :
  pp_file_hash p = None -> count t = 32%nat ->
  put_on_event registry pointer_bytes (Put_data (Data_tuple t)) p = Some (with_file_hash p (Some (Data_tuple t)), []).
Proof. intros Hp Ht. cbn. unfold _unix_put_on_stream_data. cbn. by rewrite Ht, Hp. Qed.
