(* ===== verification/WsFrame.v ===== *)
(** * WsFrame: WebSocket frames

    Models src/src/ClientAPI/WS/ws_frame.c: the parser of frames, which takes
    what has been received so far, and the builders of the server's frames and
    of the client's masked frames. *)

From S2P Require Import Prelude.
Local Open Scope Z_scope.

Definition WS_MAX_PAYLOAD_SIZE : Z := 16 * 1024 * 1024.

Record ws_frame_t := mk_ws_frame {
  ws_fin : Z;
  ws_opcode : Z;
  ws_mask : Z;
  ws_mask_key : bytes;
  ws_payload : bytes
}.

(** The results -1, 0 with the bytes needed, and the bytes consumed.  The length
    of the payload is that of [ws_payload]; the fields a frame that is not
    complete leaves behind are not modelled. *)
Inductive ws_result :=
| WS_ERROR
| WS_INCOMPLETE (needed : Z)
| WS_PARSED (frame : ws_frame_t) (consumed : Z).

Definition byte_at (data : bytes) (i : nat) : Z := default 0 (data !! i).

(** The loop over the eight bytes of a long length. *)
Definition read_length (data : bytes) : Z :=
  fold_left (fun payload_len b => Z.lor (u64 (Z.shiftl payload_len 8)) b) data 0.

(** [payload[i] ^ mask_key[i % 4]], from index [i] on. *)
Fixpoint mask_from (key : bytes) (i : nat) (payload : bytes) : bytes :=
  match payload with
  | [] => []
  | b :: payload => Z.lxor b (byte_at key (i mod 4)) :: mask_from key (S i) payload
  end.

(** The payload length and the length of the header without the mask key, or
    the bytes needed to read them. *)
Definition ws_header (data : bytes) : Z + Z * Z :=
  let len := Z.of_nat (length data) in
  let payload_len := Z.land (byte_at data 1) 127 in
  if payload_len =? 126 then
    if len <? 4 then inl 4 else inr (Z.lor (Z.shiftl (byte_at data 2) 8) (byte_at data 3), 4)
  else if payload_len =? 127 then
    if len <? 10 then inl 10 else inr (read_length (take 8 (drop 2 data)), 10)
  else inr (payload_len, 2).

Definition ws_frame_parse (data : bytes) : ws_result :=
  let len := Z.of_nat (length data) in
  if len <? 2 then WS_INCOMPLETE 2 else
  let first_byte := byte_at data 0 in
  let second_byte := byte_at data 1 in
  let fin := Z.land (Z.shiftr first_byte 7) 1 in
  let opcode := Z.land first_byte 15 in
  let mask := Z.land (Z.shiftr second_byte 7) 1 in
  match ws_header data with
  | inl needed => WS_INCOMPLETE needed
  | inr (payload_len, header_len) =>
      let header_len := if mask =? 0 then header_len else header_len + 4 in
      if len <? header_len then WS_INCOMPLETE header_len else
      if WS_MAX_PAYLOAD_SIZE <? payload_len then WS_ERROR else
      if len <? header_len + payload_len then WS_INCOMPLETE (header_len + payload_len) else
      let mask_offset := header_len - (if mask =? 0 then 0 else 4) in
      let key := if mask =? 0 then replicate 4 0 else take 4 (drop (Z.to_nat mask_offset) data) in
      let body := take (Z.to_nat payload_len) (drop (Z.to_nat header_len) data) in
      WS_PARSED (mk_ws_frame fin opcode mask key (if mask =? 0 then body else mask_from key 0 body))
        (header_len + payload_len)
  end.

(** The eight bytes of a long length, the highest first. *)
Definition long_length (n : Z) : bytes := map (fun i => Z.land (Z.shiftr n (56 - 8 * i)) 255) [0; 1; 2; 3; 4; 5; 6; 7].

(** The length of a frame, with the bit that says that it is masked. *)
Definition length_bytes (mask_bit payload_len : Z) : bytes :=
  if payload_len <=? 125 then [Z.lor mask_bit payload_len]
  else if payload_len <=? 65535 then
    [Z.lor mask_bit 126; Z.land (Z.shiftr payload_len 8) 255; Z.land payload_len 255]
  else Z.lor mask_bit 127 :: long_length payload_len.

Definition ws_frame_build (opcode : Z) (payload : bytes) : bytes :=
  Z.lor 128 (Z.land opcode 15) :: length_bytes 0 (Z.of_nat (length payload)) ++ payload.

(** [mask_key] is given by [platform_random_bytes]. *)
Definition ws_frame_build_masked (opcode : Z) (payload mask_key : bytes) : bytes :=
  Z.lor 128 (Z.land opcode 15) :: length_bytes 128 (Z.of_nat (length payload)) ++ mask_key ++ mask_from mask_key 0 payload.

(** ** Lengths *)

Lemma shift_byte_in n s s' :
  0 <= s -> s' = s + 8 -> 0 <= n < 2 ^ 64 ->
  Z.lor (u64 (Z.shiftl (Z.shiftr n s') 8)) (Z.land (Z.shiftr n s) 255) = Z.shiftr n s.
Proof.
  intros Hs -> Hn. unfold u64. rewrite Z.mod_small.
  - apply Z.bits_inj'. intros i Hi. change 255 with (Z.ones 8).
    rewrite Z.lor_spec, Z.land_spec, Z.shiftl_spec, !Z.testbit_ones_nonneg by lia.
    destruct (Z.ltb_spec i 8).
    + rewrite (Z.testbit_neg_r _ (i - 8)) by lia. by rewrite andb_true_r.
    + rewrite !Z.shiftr_spec by lia. replace (i - 8 + (s + 8)) with (i + s) by lia.
      by rewrite andb_false_r, orb_false_r.
  - rewrite Z.shiftl_mul_pow2, Z.shiftr_div_pow2, Z.pow_add_r by lia.
    assert (0 < 2 ^ s) by (apply Z.pow_pos_nonneg; lia).
    rewrite <- Z.div_div by lia. set (q := n / 2 ^ s).
    assert (0 <= q <= n). { split; [apply Z.div_pos; lia|]. apply Z.div_le_upper_bound; nia. }
    pose proof (Z.mul_div_le q (2 ^ 8)). pose proof (Z.div_pos q (2 ^ 8)). lia.
Qed.

Lemma read_length_built n : 0 <= n < 2 ^ 64 -> read_length (long_length n) = n.
Proof.
  intros Hn. unfold read_length, long_length. cbn [map fold_left].
  replace (u64 (Z.shiftl 0 8)) with (u64 (Z.shiftl (Z.shiftr n 64) 8))
    by (rewrite (Z.shiftr_div_pow2 n), Z.div_small; done).
  repeat match goal with |- context [Z.shiftr n (56 - 8 * ?i)] =>
    let k := eval compute in (56 - 8 * i) in change (56 - 8 * i) with k end.
  rewrite (shift_byte_in n 56 64), (shift_byte_in n 48 56), (shift_byte_in n 40 48), (shift_byte_in n 32 40),
    (shift_byte_in n 24 32), (shift_byte_in n 16 24), (shift_byte_in n 8 16), (shift_byte_in n 0 8) by lia.
  apply Z.shiftr_0_r.
Qed.

Definition mask_bit_ok (mask_bit : Z) (key : bytes) : Prop :=
  (mask_bit = 0 /\ key = []) \/ (mask_bit = 128 /\ length key = 4%nat).

Definition small_lengths : bool :=
  forallb (fun n => (Z.land (Z.lor 0 n) 127 =? n) && (Z.land (Z.lor 128 n) 127 =? n) &&
                    (Z.land (Z.shiftr (Z.lor 0 n) 7) 1 =? 0) && (Z.land (Z.shiftr (Z.lor 128 n) 7) 1 =? 1)) (seqZ 0 128).

Lemma small_length mask_bit n :
  mask_bit = 0 \/ mask_bit = 128 -> 0 <= n < 128 ->
  Z.land (Z.lor mask_bit n) 127 = n /\ Z.land (Z.shiftr (Z.lor mask_bit n) 7) 1 = mask_bit / 128.
Proof.
  intros Hm Hn. assert (small_lengths = true) as H by (vm_compute; reflexivity).
  unfold small_lengths in H. rewrite forallb_forall in H.
  specialize (H n). rewrite !andb_true_iff, !Z.eqb_eq in H.
  destruct H as [[[? ?] ?] ?]; [apply list_elem_of_In, elem_of_seqZ; lia|].
  by destruct Hm as [-> | ->].
Qed.

Lemma ws_header_built b0 mask_bit n rest :
  mask_bit = 0 \/ mask_bit = 128 -> 0 <= n < 2 ^ 64 ->
  ws_header (b0 :: length_bytes mask_bit n ++ rest) =
    inr (n, 1 + Z.of_nat (length (length_bytes mask_bit n))) /\
  Z.land (Z.shiftr (byte_at (b0 :: length_bytes mask_bit n ++ rest) 1) 7) 1 = mask_bit / 128.
Proof.
  intros Hm Hn. unfold ws_header, length_bytes.
  destruct (Z.leb_spec n 125); [|destruct (Z.leb_spec n 65535)]; cbn [app byte_at lookup list_lookup default];
    rewrite ?app_length; cbn [length app].
  - destruct (small_length mask_bit n) as [E1 E2]; [done|lia|]. unfold byte_at. cbn. rewrite E1, E2.
    destruct (Z.eqb_spec n 126), (Z.eqb_spec n 127); try lia. done.
  - destruct (small_length mask_bit 126) as [E1 E2]; [done|lia|]. unfold byte_at. cbn. rewrite E1, E2. cbn.
    split; [|done]. case_match eqn:Hl; [apply Z.ltb_lt in Hl; lia|]. f_equal. f_equal. change 255 with (Z.ones 8).
    pose proof (shift_byte_in n 0 8) as Hs. rewrite Z.shiftr_0_r in Hs. unfold u64 in Hs.
    rewrite Z.mod_small in Hs.
    + change 255 with (Z.ones 8) in Hs. rewrite (Z.land_ones (Z.shiftr n 8)), (Z.mod_small (Z.shiftr n 8)); [|..|lia].
      * apply Hs; lia.
      * rewrite Z.shiftr_div_pow2 by lia. change (2 ^ 8) with 256. split; [apply Z.div_pos; lia|apply Z.div_lt_upper_bound; lia].
    + rewrite Z.shiftl_mul_pow2, Z.shiftr_div_pow2 by lia. change (2 ^ 8) with 256.
      pose proof (Z.mul_div_le n 256). pose proof (Z.div_pos n 256). lia.
  - destruct (small_length mask_bit 127) as [E1 E2]; [done|lia|]. unfold byte_at. cbn -[long_length take drop].
    rewrite E1, E2. cbn -[long_length take drop].
    destruct (Z.ltb_spec (Z.of_nat (S (S (length (long_length n ++ rest))))) 10) as [Hl|_].
    { rewrite app_length in Hl. change (length (long_length n)) with 8%nat in Hl. lia. }
    split; [|done]. f_equal. f_equal. rewrite <- (read_length_built n) at 2 by done. f_equal.
Qed.

(** ** Building and parsing *)

Lemma byte_at_app p q i : (i < length p)%nat -> byte_at (p ++ q) i = byte_at p i.
Proof. intros H. unfold byte_at. by rewrite lookup_app_l. Qed.

Lemma mask_from_length key i payload : length (mask_from key i payload) = length payload.
Proof. revert i. induction payload as [|b t IH]; intros i; cbn; [done|]. by rewrite IH. Qed.

(** Masking twice with the same key gives the payload back. *)
Lemma mask_from_twice key i payload : mask_from key i (mask_from key i payload) = payload.
Proof.
  revert i. induction payload as [|b t IH]; intros i; cbn [mask_from]; [done|].
  by rewrite IH, Z.lxor_assoc, Z.lxor_nilpotent, Z.lxor_0_r.
Qed.

Lemma ws_frame_parse_built b0 mask_bit n key body rest :
  mask_bit_ok mask_bit key -> n = Z.of_nat (length body) -> n <= WS_MAX_PAYLOAD_SIZE ->
  ws_frame_parse (b0 :: length_bytes mask_bit n ++ key ++ body ++ rest) =
    WS_PARSED
      (mk_ws_frame (Z.land (Z.shiftr b0 7) 1) (Z.land b0 15) (mask_bit / 128)
        (if mask_bit =? 0 then replicate 4 0 else key) (if mask_bit =? 0 then body else mask_from key 0 body))
      (1 + Z.of_nat (length (length_bytes mask_bit n) + length key + length body)).
Proof.
  intros Hk -> Hmax. set (n := Z.of_nat (length body)) in *. unfold WS_MAX_PAYLOAD_SIZE in *.
  destruct (ws_header_built b0 mask_bit n (key ++ body ++ rest)) as [Hh Hm]; [unfold mask_bit_ok in Hk; naive_solver|lia|].
  set (hd := length_bytes mask_bit n) in *.
  assert (1 <= length hd)%nat by (unfold hd, length_bytes; repeat case_match; cbn; lia).
  unfold ws_frame_parse. rewrite Hh, Hm. change (byte_at (b0 :: _) 0) with b0. clear Hh Hm.
  assert (length (b0 :: hd ++ key ++ body ++ rest) = S (length hd + length key + length body + length rest)) as Hlen
    by (cbn; rewrite !app_length; lia).
  rewrite Hlen, (proj2 (Z.ltb_ge (Z.of_nat _) 2)) by lia. unfold WS_MAX_PAYLOAD_SIZE.
  assert (forall k l : bytes, drop (S (length hd)) (b0 :: hd ++ k ++ l) = k ++ l) as Hdrop
    by (intros; cbn; by rewrite drop_app_length).
  destruct Hk as [[-> ->] | [-> Hk]]; cbn [Z.div Z.eqb app].
  - change (0 / 128 =? 0) with true. cbn iota. rewrite !(proj2 (Z.ltb_ge _ _)) by (cbn [length] in *; lia).
    f_equal; [|cbn [length]; lia]. f_equal. replace (Z.to_nat (1 + _)) with (S (length hd)) by lia.
    rewrite Hdrop. unfold n. by rewrite Nat2Z.id, take_app_length.
  - change (128 / 128 =? 0) with false. cbn iota. rewrite !(proj2 (Z.ltb_ge _ _)) by lia.
    f_equal; [|lia]. replace (Z.to_nat (1 + Z.of_nat (length hd) + 4 - 4)) with (S (length hd)) by lia.
    rewrite Hdrop, take_app_length' by done. f_equal. f_equal.
    replace (Z.to_nat (1 + Z.of_nat (length hd) + 4)) with (S (length hd) + 4)%nat by lia.
    rewrite <- drop_drop, Hdrop. rewrite <- Hk, drop_app_length. unfold n. by rewrite Nat2Z.id, take_app_length.
Qed.

Lemma opcode_bits opcode :
  0 <= opcode < 16 ->
  Z.land (Z.shiftr (Z.lor 128 (Z.land opcode 15)) 7) 1 = 1 /\ Z.land (Z.lor 128 (Z.land opcode 15)) 15 = opcode.
Proof.
  intros H.
  assert (forallb (fun o => (Z.land (Z.shiftr (Z.lor 128 (Z.land o 15)) 7) 1 =? 1) &&
                            (Z.land (Z.lor 128 (Z.land o 15)) 15 =? o)) (seqZ 0 16) = true) as Hall by reflexivity.
  rewrite forallb_forall in Hall. specialize (Hall opcode). rewrite andb_true_iff, !Z.eqb_eq in Hall.
  apply Hall, list_elem_of_In, elem_of_seqZ. lia.
Qed.

Lemma ws_frame_build_parses opcode payload rest :
  0 <= opcode < 16 -> Z.of_nat (length payload) <= WS_MAX_PAYLOAD_SIZE ->
  ws_frame_parse (ws_frame_build opcode payload ++ rest) =
    WS_PARSED (mk_ws_frame 1 opcode 0 (replicate 4 0) payload) (Z.of_nat (length (ws_frame_build opcode payload))).
Proof.
  intros Ho Hl. unfold ws_frame_build. cbn [app]. rewrite <- app_assoc.
  change (payload ++ rest) with ([] ++ payload ++ rest).
  rewrite (ws_frame_parse_built _ 0 _ []) by (try left; done). destruct (opcode_bits opcode Ho) as [-> ->].
  f_equal. cbn [length]. rewrite app_length. cbn [length]. lia.
Qed.

(** A masked frame carries the payload xored with the key, and the parser undoes
    it. *)
Lemma ws_frame_build_masked_parses opcode payload key rest :
  0 <= opcode < 16 -> length key = 4%nat -> Z.of_nat (length payload) <= WS_MAX_PAYLOAD_SIZE ->
  ws_frame_parse (ws_frame_build_masked opcode payload key ++ rest) =
    WS_PARSED (mk_ws_frame 1 opcode 1 key payload) (Z.of_nat (length (ws_frame_build_masked opcode payload key))).
Proof.
  intros Ho Hk Hl. unfold ws_frame_build_masked. cbn [app]. rewrite <- !app_assoc.
  rewrite (ws_frame_parse_built _ 128 _ key) by (rewrite ?mask_from_length; try right; done).
  destruct (opcode_bits opcode Ho) as [-> ->]. cbn iota. change (128 =? 0) with false. cbn iota. rewrite mask_from_twice.
  f_equal. cbn [length]. rewrite !app_length. cbn [length]. rewrite mask_from_length. lia.
Qed.

(** ** Parsing what has been received so far *)

Lemma ws_header_extends p q :
  (2 <= length p)%nat ->
  match ws_header p with
  | inr h => ws_header (p ++ q) = inr h
  | inl needed => Z.of_nat (length p) < needed /\
      forall n h, ws_header (p ++ q) = inr (n, h) -> needed <= h
  end.
Proof.
  intros Hp. unfold ws_header. rewrite byte_at_app, app_length by lia.
  destruct (Z.eqb_spec (Z.land (byte_at p 1) 127) 126).
  - destruct (Z.ltb_spec (Z.of_nat (length p)) 4).
    + split; [done|]. intros len h. case_match; [done|]. intros [= _ <-]. lia.
    + rewrite !byte_at_app, (proj2 (Z.ltb_ge _ _)) by lia. done.
  - destruct (Z.eqb_spec (Z.land (byte_at p 1) 127) 127); [|done].
    destruct (Z.ltb_spec (Z.of_nat (length p)) 10).
    + split; [done|]. intros len h. case_match; [done|]. intros [= _ <-]. lia.
    + rewrite (proj2 (Z.ltb_ge _ _)) by lia. do 2 f_equal. f_equal.
      rewrite drop_app_le by lia. rewrite take_app_le by (rewrite length_drop; lia). done.
Qed.

Lemma byte_at_nonneg d i : is_bytes d -> 0 <= byte_at d i.
Proof.
  intros H. unfold byte_at. destruct (d !! i) as [b|] eqn:E; cbn; [|lia].
  apply (Forall_lookup_1 _ _ _ _ H) in E. apply E.
Qed.

Lemma read_length_nonneg d : is_bytes d -> 0 <= read_length d.
Proof.
  intros H. unfold read_length. enough (forall acc, 0 <= acc ->
    0 <= fold_left (fun payload_len b => Z.lor (u64 (Z.shiftl payload_len 8)) b) d acc) as Hf by (by apply Hf).
  induction H as [|b d Hb _ IH]; intros acc Hacc; cbn; [done|]. apply IH.
  apply Z.lor_nonneg. split; [apply Z.mod_pos_bound; lia|apply Hb].
Qed.

Lemma ws_header_bounds d n h : is_bytes d -> ws_header d = inr (n, h) -> 0 <= n /\ 2 <= h <= 10.
Proof.
  intros H. pose proof (byte_at_nonneg d) as Hb. unfold ws_header.
  repeat case_match; intros [= <- <-]; (split; [|lia]).
  - apply Z.lor_nonneg. split; [apply Z.shiftl_nonneg|]; auto.
  - apply read_length_nonneg. by apply Forall_take, Forall_drop.
  - apply Z.land_nonneg. auto.
Qed.

(** The parser's answer on a part of the input stands: a frame or an error found
    in [p] is what [p ++ q] gives, and a frame that is not complete in [p] needs
    at least the bytes the parser asks for, which are more than there are. *)
Lemma ws_frame_parse_extends p q :
  is_bytes (p ++ q) ->
  match ws_frame_parse p with
  | WS_INCOMPLETE needed => Z.of_nat (length p) < needed /\
      forall frame consumed, ws_frame_parse (p ++ q) = WS_PARSED frame consumed -> needed <= consumed
  | r => ws_frame_parse (p ++ q) = r
  end.
Proof.
  intros Hb. unfold ws_frame_parse. destruct (Z.ltb_spec (Z.of_nat (length p)) 2) as [Hp|Hp].
  { split; [done|]. intros frame consumed. case_match; [done|].
    destruct (ws_header (p ++ q)) as [?|[n h]] eqn:Eh; [done|].
    apply ws_header_bounds in Eh; [|done]. repeat case_match; intros [= _ <-]; lia. }
  rewrite app_length, (proj2 (Z.ltb_ge (Z.of_nat (length p + length q)) 2)), !byte_at_app by lia.
  pose proof (ws_header_extends p q) as He. destruct (ws_header p) as [needed|[n h]].
  { destruct He as [He Hn]; [lia|]. split; [done|]. intros frame consumed.
    destruct (ws_header (p ++ q)) as [?|[n h]] eqn:Eh; [done|]. specialize (Hn _ _ eq_refl).
    apply ws_header_bounds in Eh; [|done]. repeat case_match; intros [= _ <-]; lia. }
  rewrite He by lia. apply ws_header_bounds in He as Hn; [|done|lia].
  set (h' := if _ =? 0 then h else h + 4) in *.
  assert (2 <= h') by (unfold h'; case_match; lia).
  destruct (Z.ltb_spec (Z.of_nat (length p)) h').
  { split; [done|]. intros frame consumed. repeat case_match; intros [= _ <-]; lia. }
  rewrite (proj2 (Z.ltb_ge (Z.of_nat (length p + length q)) h')) by lia. destruct (WS_MAX_PAYLOAD_SIZE <? n); [done|].
  destruct (Z.ltb_spec (Z.of_nat (length p)) (h' + n)).
  { split; [done|]. intros frame consumed. repeat case_match; intros [= _ <-]; lia. }
  rewrite (proj2 (Z.ltb_ge (Z.of_nat (length p + length q)) (h' + n))) by lia.
  assert (take (Z.to_nat n) (drop (Z.to_nat h') (p ++ q)) = take (Z.to_nat n) (drop (Z.to_nat h') p)) as ->.
  { rewrite drop_app_le, take_app_le by (rewrite ?length_drop; lia). done. }
  unfold h' in *. case_match; [done|].
  assert (take 4 (drop (Z.to_nat (h + 4 - 4)) (p ++ q)) = take 4 (drop (Z.to_nat (h + 4 - 4)) p)) as ->.
  { rewrite drop_app_le, take_app_le by (rewrite ?length_drop; lia). done. }
  done.
Qed.
