(* ===== verification/RemoteConnection.v ===== *)
(** * RemoteConnection: what TCP and WebSocket connections share

    src/src/ClientAPI/TCP/tcp_connection.c and
    src/src/ClientAPI/WS/ws_connection.c have the same request handlers, write
    pump and read callback, word for word up to the prefix of their names; they
    differ in how bytes become frames.  This file models the shared text once,
    for any way of wrapping a payload for the wire; TcpConnection and
    WsConnection add what is received.  The POSIX branches are modelled.

    As for a Unix client, a reply is posted to the actor's own mailbox and put on
    the wire when that message is handled, the files a client puts are numbered,
    and reference counts are not modelled.  The pipelines the requests start are
    those of UnixPipelines, except the LOAD error handlers. *)

From S2P Require Import BlockCache.
From S2P Require Import Prelude Effect Block Cbor WireBase OffUrl DescRead.
From stdpp Require Import strings.
From S2P Require Import ClientApiBase ClientApiTransfer ClientApiBlock ClientApiAdmin ClientApiOps ClientHandlers.
From S2P Require Import UnixPipelines UnixConnection.
Local Open Scope Z_scope.

(** How a transport wraps the payload of a frame: [stream_frame_encode], or
    [ws_frame_build] with WS_OPCODE_BINARY. *)
Class Wire := wire_frame : bytes -> option bytes.

(** ** State *)

(** [is_ssl] is set with [ssl] and only read together with it. *)
Record remote_t := mk_remote {
  rc_sock : bool;                          (* sock != NULL *)
  rc_watcher : bool;
  rc_ssl : bool;                           (* ssl != NULL *)
  rc_write_buffer : option bytes;
  rc_write_pending : bool;
  rc_read_pending : bool;
  rc_is_closing : bool;
  rc_is_authenticated : bool;
  rc_block_ctx : block_handler_ctx_t;
  rc_peer_authenticated : bool;
  rc_put_ws : option nat;
  rc_put_streaming : bool;
  rc_puts : nat;                           (* streams created so far *)
  rc_resolve_url : option off_url_t;
  rc_resolve_path : option bytes
}.

#[export] Instance rc_settable : Settable remote_t := fields! mk_remote
  [rc_sock; rc_watcher; rc_ssl; rc_write_buffer; rc_write_pending; rc_read_pending; rc_is_closing;
   rc_is_authenticated; rc_block_ctx; rc_peer_authenticated; rc_put_ws; rc_put_streaming; rc_puts;
   rc_resolve_url; rc_resolve_path].

Inductive remote_message :=
| CONNECTION_DATA (data : bytes)
| CONNECTION_READABLE
| CONNECTION_HANGUP
| CONNECTION_ERROR
| CONNECTION_WRITE (data : bytes)
| CONNECTION_WRITABLE
| CONNECTION_CLOSE
| CONNECTION_OFD_RESULT (result : option (option ori_t))
| CONNECTION_CACHE_RESULT (r : cache_result)
| CONNECTION_RESIZE_RESULT (max_capacity_bytes current_bytes : Z).

Inductive remote_effect {P : PeerInfo} :=
| R_post (msg : remote_message)           (* [actor_send] to itself *)
| R_sent (data : bytes)                   (* bytes the socket or OpenSSL took *)
| R_ssl_shutdown
| R_shutdown
| R_destroy
| R_watch (write : bool)
| R_unwatch
| R_call (c : client_call)
| R_resolve (root_hash : option bytes) (path : option bytes)
| R_get (ori : ori_t)
| R_load (ori : ori_t) (p : unix_load_pipeline_t)
| R_put (id : nat) (p : put_start)
| R_put_write (id : nat) (data : bytes)
| R_put_finalize (id : nat).

Record remote_env {C : Cbor} {P : PeerInfo} := {
  renv_api_key_hash : option bytes;
  renv_bcrypt_check : bytes -> bytes -> Z;
  renv_peers : peer_services;
  renv_cache : block_cache_t;
  renv_capacity_json : Z -> option bytes;
  renv_save : bytes -> bool;
  renv_health : option bytes;                (* the printed health data *)
  renv_random : bytes;
  renv_send : bool -> bytes -> send_result   (* [SSL_write], or [platform_socket_send] *)
}.

(** ** The LOAD pipeline *)

(** Unlike a Unix connection's, these error handlers deactivate a stream whether
    or not it is already deactivated. *)
Definition load_on_rs_error {C : Cbor} (p : unix_load_pipeline_t)
  : unix_load_pipeline_t * list (pipeline_effect Tuple.tuple_t) :=
  (set_failed p, [Reader_deactivate]).

Definition load_on_desc_error {C : Cbor} (p : unix_load_pipeline_t)
  : unix_load_pipeline_t * list (pipeline_effect Tuple.tuple_t) :=
  (set_failed p, [Reader_deactivate; Reader_descriptor_deactivate]).

Section Connection.
Context {C : Cbor} {CS : CborSerial} {P : PeerInfo} {BL : Blake3} {W : Wire}.
Variable env : remote_env.

Implicit Types c : remote_t.

(** ** Sending *)

Definition connection_write c (data : bytes) : list remote_effect :=
  if rc_sock c then [R_post (CONNECTION_WRITE data)] else [].

Definition connection_send_frame c (frame : cbor_item) : list remote_effect :=
  match cbor_serialize frame with
  | [] => []
  | cbor_buf =>
      match wire_frame cbor_buf with
      | Some framed => connection_write c framed
      | None => []
      end
  end.

Definition connection_send_error c (status : Z) (message : bytes) : list remote_effect :=
  connection_send_frame c
    (client_api_error_encode {| error_status_code := status; error_message := Some message |}).

(** The [send_frame] and [send_error] given to the shared handlers. *)
Definition run_call c (e : client_effect) : list remote_effect :=
  match e with SEND frame => connection_send_frame c frame | CALL call => [R_call call] end.

Definition run_calls c (effs : list client_effect) : list remote_effect := effs ≫= run_call c.

Definition needs_auth c : list remote_effect :=
  connection_send_error c CLIENT_API_STATUS_UNAUTHORIZED (lit "Authentication required").

Definition refuse c (message : string) : list remote_effect :=
  connection_send_error c CLIENT_API_STATUS_BAD_REQUEST (lit message).

(** ** The watcher and the socket *)

Definition update_watcher c (write : bool) : list remote_effect :=
  if rc_watcher c then [R_watch write] else [].

Definition stop_watcher c : remote_t * list remote_effect :=
  if rc_watcher c then (c <| rc_watcher := false |>, [R_unwatch]) else (c, []).

Definition close_fd c : remote_t * list remote_effect :=
  (c <| rc_ssl := false |> <| rc_sock := false |> <| rc_is_closing := true |>,
   (if rc_ssl c then [R_ssl_shutdown] else []) ++ (if rc_sock c then [R_destroy] else [])).

Definition drop_connection c : remote_t * list remote_effect :=
  let '(c, e1) := stop_watcher c in
  let '(c, e2) := close_fd c in
  (c, e1 ++ e2).

(** ** GET and LOAD *)

Definition begin_get c (ori : ori_t) : list remote_effect :=
  connection_send_frame c (client_api_get_response_start_encode {|
    grs_content_type := Some (lit "application/octet-stream"); grs_content_length := ori_final_byte ori;
    grs_has_range := 0; grs_range_start := 0; grs_range_end := 0 |}) ++ [R_get ori].

Definition handle_get c (frame : cbor_item) : option (remote_t * list remote_effect) :=
  if negb (rc_is_authenticated c) then Some (c, needs_auth c) else
  with_decoded (client_api_get_request_decode frame) (c, refuse c "Invalid GET request") (fun msg =>
  match get_ori_string msg ≫= off_url_parse with
  | None => Some (c, refuse c "Invalid OFF URL")
  | Some url =>
      if is_directory url then
        Some (c <| rc_resolve_url := Some url |> <| rc_resolve_path := file_name url |>,
              [R_resolve (file_hash url) (file_name url)])
      else Some (c, begin_get c (url_ori url))
  end).

Definition handle_load c (frame : cbor_item) : option (remote_t * list remote_effect) :=
  if negb (rc_is_authenticated c) then Some (c, needs_auth c) else
  with_decoded (client_api_load_request_decode frame) (c, refuse c "Invalid load request") (fun msg =>
  match load_ori_string msg ≫= off_url_parse with
  | None => Some (c, refuse c "Invalid OFF URL")
  | Some url =>
      if is_directory url then Some (c, refuse c "Load requires a file ORI, not a directory")
      else Some (c, [R_load (url_ori url) (load_pipeline (url_ori url))])
  end).

(** ** PUT *)

(** No recycler and no bound on the tuple size on these transports. *)
Definition put_request_start (msg : client_api_put_request_t) (content_type file_name : bytes) : put_start :=
  mk_put_start
    (mk_put content_type file_name (put_stream_length msg) (put_server_address msg)
       (negb (put_temporary msg =? 0)) None None)
    (put_tuple_size_of msg) None.

Definition put_required (msg : client_api_put_request_t) : Z :=
  writeable_off_stream_estimate_required_bytes (put_stream_length msg) (put_tuple_size_of msg) 32.

Definition handle_put c (frame : cbor_item) : option (remote_t * list remote_effect) :=
  if negb (rc_is_authenticated c) then Some (c, needs_auth c) else
  with_decoded (client_api_put_request_decode frame) (c, refuse c "Invalid PUT request") (fun msg =>
  match put_content_type msg, put_file_name msg with
  | Some content_type, Some file_name =>
      if negb (block_cache_can_fit (renv_cache env) (put_required msg) =? CACHE_FIT_OK) then
        Some (c, connection_send_error c CLIENT_API_STATUS_INTERNAL_ERROR
                   (lit "cache full: configure larger max_capacity_bytes"))
      else
        let ws := rc_puts c in
        let start := R_put ws (put_request_start msg content_type file_name) in
        let c := c <| rc_puts := S ws |> in
        match put_data msg with
        | [] => Some (c <| rc_put_ws := Some ws |> <| rc_put_streaming := true |>, [start])
        | data => Some (c, [start; R_put_write ws data; R_put_finalize ws])
        end
  | _, _ => Some (c, refuse c "Missing content_type or file_name")
  end).

(** The stream of the PUT in progress. *)
Definition put_in_progress c : option nat := if rc_put_streaming c then rc_put_ws c else None.

Definition handle_put_data c (frame : cbor_item) : option (remote_t * list remote_effect) :=
  if negb (rc_is_authenticated c) then Some (c, needs_auth c) else
  match put_in_progress c with
  | None => Some (c, refuse c "No streaming PUT in progress")
  | Some ws =>
      with_decoded (client_api_put_data_decode frame) (c, refuse c "Invalid PUT_DATA frame") (fun msg =>
      match put_data_data msg with [] => Some (c, []) | data => Some (c, [R_put_write ws data]) end)
  end.

Definition handle_put_end c : remote_t * list remote_effect :=
  if negb (rc_is_authenticated c) then (c, needs_auth c) else
  match put_in_progress c with
  | None => (c, refuse c "No streaming PUT in progress")
  | Some ws => (c <| rc_put_streaming := false |> <| rc_put_ws := None |>, [R_put_finalize ws])
  end.

(** ** Authentication *)

Definition grant c : remote_t :=
  c <| rc_is_authenticated := true |>
    <| rc_block_ctx := mk_block_ctx true (blk_pending_op (rc_block_ctx c)) (blk_put_encoding (rc_block_ctx c))
                         (blk_data_dir (rc_block_ctx c)) |>
    <| rc_peer_authenticated := true |>.

(** The key is compared as a C string. *)
Definition handle_auth c (frame : cbor_item) : option (remote_t * list remote_effect) :=
  match renv_api_key_hash env with
  | None => Some (grant c, [])
  | Some api_key_hash =>
      with_decoded (client_api_auth_request_decode frame)
        (c, connection_send_error c CLIENT_API_STATUS_UNAUTHORIZED (lit "Invalid auth request")) (fun auth =>
      if renv_bcrypt_check env (cstr (auth_api_key auth)) api_key_hash =? 0 then Some (grant c, [])
      else Some (c, connection_send_error c CLIENT_API_STATUS_UNAUTHORIZED (lit "Authentication failed")))
  end.

(** ** Dispatch of a frame *)

Definition send_health c : list remote_effect :=
  match renv_health env with
  | None => connection_send_error c CLIENT_API_STATUS_INTERNAL_ERROR (lit "Health data serialization failed")
  | Some json => connection_send_frame c (client_api_health_response_encode {| health_json_data := Some json |})
  end.

Definition in_block_ctx c (r : option (block_handler_ctx_t * list client_effect))
  : option (remote_t * list remote_effect) :=
  '(ctx, effs) ← r; Some (c <| rc_block_ctx := ctx |>, run_calls c effs).

Definition in_connection c (r : option (list client_effect)) : option (remote_t * list remote_effect) :=
  effs ← r; Some (c, run_calls c effs).

(** A connection always has a cache.  The network given to the representation
    handlers is NULL on these transports; it is not part of their calls. *)
Definition dispatch_frame c (type : Z) (frame : cbor_item) : option (remote_t * list remote_effect) :=
  let isa t := type =? t in
  let net := renv_peers env in
  let peer_auth := rc_peer_authenticated c in
  if isa CLIENT_API_GET_REQUEST then handle_get c frame
  else if isa CLIENT_API_LOAD_REQUEST then handle_load c frame
  else if isa CLIENT_API_PUT_REQUEST then handle_put c frame
  else if isa CLIENT_API_PUT_DATA then handle_put_data c frame
  else if isa CLIENT_API_PUT_END then Some (handle_put_end c)
  else if isa CLIENT_API_REP_MARK_PERMANENT_REQUEST || isa CLIENT_API_REP_DELETE_EPHEMERAL_REQUEST ||
          isa CLIENT_API_REP_PIN_REQUEST || isa CLIENT_API_REP_UNPIN_REQUEST ||
          isa CLIENT_API_EPHEMERAL_LIST_REQUEST || isa CLIENT_API_GC_REQUEST then
    if negb (rc_is_authenticated c) then Some (c, needs_auth c)
    else in_connection c (client_api_representation_handle frame type)
  else if isa CLIENT_API_AUTH_REQUEST then handle_auth c frame
  else if isa CLIENT_API_BLOCK_PUT_REQUEST then
    in_block_ctx c (block_handle_put_request (rc_block_ctx c) frame (renv_random env))
  else if isa CLIENT_API_BLOCK_GET_REQUEST then in_block_ctx c (block_handle_get_request (rc_block_ctx c) frame)
  else if isa CLIENT_API_BLOCK_DELETE_REQUEST then
    in_block_ctx c (block_handle_delete_request (rc_block_ctx c) frame)
  else if isa CLIENT_API_CACHE_RESIZE_REQUEST then
    in_block_ctx c (cache_handle_resize_request (rc_block_ctx c) true (renv_capacity_json env) (renv_save env) frame)
  else if isa CLIENT_API_FRIEND_ADD then in_connection c (peer_handle_friend_add net peer_auth frame)
  else if isa CLIENT_API_FRIEND_REMOVE then in_connection c (peer_handle_friend_remove net peer_auth frame)
  else if isa CLIENT_API_FRIEND_LIST then in_connection c (Some (peer_handle_friend_list_request net peer_auth))
  else if isa CLIENT_API_BOOTSTRAP_ADD then in_connection c (peer_handle_bootstrap_add net peer_auth frame)
  else if isa CLIENT_API_BOOTSTRAP_REMOVE then in_connection c (peer_handle_bootstrap_remove net peer_auth frame)
  else if isa CLIENT_API_BOOTSTRAP_LIST then in_connection c (Some (peer_handle_bootstrap_list_request net peer_auth))
  else if isa CLIENT_API_HEALTH_REQUEST then Some (c, send_health c)
  else Some (c, refuse c "Unknown message type").

(** What is not CBOR is skipped. *)
Definition dispatch_item c (payload : bytes) : option (remote_t * list remote_effect) :=
  match cbor_load payload with
  | None => Some (c, [])
  | Some item => with_decoded (client_api_wire_get_type item) (c, []) (fun type => dispatch_frame c type item)
  end.

Fixpoint dispatch_items c (payloads : list bytes) : option (remote_t * list remote_effect) :=
  match payloads with
  | [] => Some (c, [])
  | payload :: payloads =>
      '(c, e1) ← dispatch_item c payload;
      '(c, e2) ← dispatch_items c payloads;
      Some (c, e1 ++ e2)
  end.

(** ** Messages *)

Definition forget_resolve c : remote_t := c <| rc_resolve_url := None |> <| rc_resolve_path := None |>.

Definition handle_ofd_resolve_result c (result : option (option ori_t)) : remote_t * list remote_effect :=
  match result with
  | None =>
      (forget_resolve c, connection_send_error c CLIENT_API_STATUS_NOT_FOUND (lit "Directory resolution failed"))
  | Some None =>
      (forget_resolve c, connection_send_error c CLIENT_API_STATUS_NOT_FOUND (lit "Directory entry not found"))
  | Some (Some resolved_ori) => (forget_resolve c, begin_get c resolved_ori)
  end.

Definition write_later c (data : bytes) : remote_t * list remote_effect :=
  (c <| rc_write_buffer := Some data |> <| rc_write_pending := true |>, update_watcher c true).

(** A message WRITE: the bytes wait behind what is already waiting. *)
Definition on_write c (buf : bytes) : remote_t * list remote_effect :=
  if negb (rc_sock c) then (c, []) else
  match rc_write_buffer c with
  | Some ((_ :: _) as pending) => (c <| rc_write_buffer := Some (pending ++ buf) |>, [])
  | _ =>
      match renv_send env (rc_ssl c) buf with
      | SEND_AGAIN => write_later c buf
      | SEND_FAILED => drop_connection c
      | SENT O => drop_connection c
      | SENT n =>
          if (n <? length buf)%nat then
            let '(c, effs) := write_later c (drop n buf) in (c, R_sent (take n buf) :: effs)
          else (c, [R_sent buf])
      end
  end.

Definition drop_pending c : remote_t := c <| rc_write_buffer := None |> <| rc_write_pending := false |>.

(** [SSL_shutdown] and [SSL_free]. *)
Definition end_ssl c : remote_t * list remote_effect :=
  (c <| rc_ssl := false |>, if rc_ssl c then [R_ssl_shutdown] else []).

(** The orderly end of a connection. *)
Definition finish c : remote_t * list remote_effect :=
  let '(c, e1) := end_ssl c in
  let e2 := if rc_sock c then [R_shutdown] else [] in
  let '(c, e3) := drop_connection c in
  (c, e1 ++ e2 ++ e3).

Definition on_writable c : remote_t * list remote_effect :=
  if negb (rc_sock c) then (c, []) else
  match rc_write_buffer c with
  | Some ((_ :: _) as pending) =>
      match renv_send env (rc_ssl c) pending with
      | SENT O => drop_connection (drop_pending c)
      | SENT n =>
          if (length pending <=? n)%nat then
            let c := drop_pending c in
            if rc_is_closing c then let '(c, effs) := finish c in (c, R_sent pending :: effs)
            else (c, R_sent pending :: update_watcher c false)
          else (c <| rc_write_buffer := Some (drop n pending) |>, [R_sent (take n pending)])
      | SEND_AGAIN => (c, [])
      | SEND_FAILED => drop_connection (drop_pending c)
      end
  | _ => (c <| rc_write_pending := false |>, update_watcher c false)
  end.

Definition on_close c : remote_t * list remote_effect :=
  if rc_write_pending c then (c <| rc_is_closing := true |>, update_watcher c true) else finish c.

(** The messages the two transports handle alike; the others are [None]. *)
Definition dispatch_common c (msg : remote_message) : option (option (remote_t * list remote_effect)) :=
  match msg with
  | CONNECTION_RESIZE_RESULT max current =>
      let '(ctx, effs) := cache_handle_resize_result (rc_block_ctx c) max current in
      Some (Some (c <| rc_block_ctx := ctx |>, run_calls c effs))
  | CONNECTION_CACHE_RESULT r => Some (in_block_ctx c (block_handle_cache_result (rc_block_ctx c) r))
  | CONNECTION_HANGUP | CONNECTION_ERROR => Some (Some (drop_connection c))
  | CONNECTION_WRITE buf => Some (Some (on_write c buf))
  | CONNECTION_WRITABLE => Some (Some (on_writable c))
  | CONNECTION_CLOSE => Some (Some (on_close c))
  | CONNECTION_OFD_RESULT result => Some (Some (handle_ofd_resolve_result c result))
  | CONNECTION_DATA _ | CONNECTION_READABLE => None
  end.

(** The watcher is created; [ssl] says that the transport has an SSL context and
    that [SSL_new] succeeds.  The data directory of the block context is not
    set. *)
Definition remote_create (ssl : bool) : remote_t :=
  let authenticated := bool_decide (renv_api_key_hash env = None) in
  mk_remote true true ssl None false false false authenticated
    (mk_block_ctx authenticated BLOCK_OP_NONE 0 false) authenticated None false 0 None None.
End Connection.

(** ** The I/O thread *)

Definition REMOTE_READ_BUFFER_SIZE : nat := Z.to_nat 65536.

(** What [pd_watcher_drain_read] leaves: the bytes of each call, up to the first
    that does not fill the buffer (nothing on POSIX).  The calls write to the
    same buffer. *)
Fixpoint drain (drained : list bytes) (buffer : bytes) (total_read : nat) : bytes * nat :=
  match drained with
  | [] => (buffer, total_read)
  | [] :: _ => (buffer, total_read)
  | read :: drained =>
      let buffer := read ++ drop (length read) buffer in
      let total_read := (total_read + length read)%nat in
      if (length read <? REMOTE_READ_BUFFER_SIZE)%nat then (buffer, total_read)
      else drain drained buffer total_read
  end.

(** The messages sent to the connection's actor and whether it stops the
    watcher; [None] is a read past the end of the buffer. *)
Definition read_callback (c : remote_t) (drained : list bytes) (recv : recv_result) (events : pd_events)
  : option (remote_t * list remote_message * bool) :=
  let writable := if pd_write events then [CONNECTION_WRITABLE] else [] in
  if pd_hangup events || pd_error events then
    Some (c, writable ++ [if pd_hangup events then CONNECTION_HANGUP else CONNECTION_ERROR], true)
  else if negb (pd_read events) then Some (c, writable, false)
  else if rc_ssl c then
    if rc_read_pending c then Some (c, writable, false)
    else Some (c <| rc_read_pending := true |>, writable ++ [CONNECTION_READABLE], false)
  else
    let '(buffer, total_read) := drain drained [] 0 in
    if (total_read =? 0)%nat then
      Some (c, writable ++ match recv with
        | RECEIVED data => [CONNECTION_DATA data]
        | RECV_EOF => [CONNECTION_HANGUP]
        | RECV_AGAIN => []
        | RECV_FAILED => [CONNECTION_ERROR]
        end, false)
    else if (REMOTE_READ_BUFFER_SIZE <? total_read)%nat then None
    else Some (c, writable ++ [CONNECTION_DATA (take total_read buffer)], false).
