(* ===== verification/TcpConnection.v ===== *)
(** * TcpConnection: a client connected over TCP

    Models src/src/ClientAPI/TCP/tcp_connection.c (the POSIX branches): the
    handlers are those of RemoteConnection, with the length-prefixed frames of
    Framer; this file adds the bytes that are received, in the clear or through
    OpenSSL. *)

From S2P Require Import BlockCache.
From S2P Require Import Prelude Effect Block Cbor WireBase Framer OffUrl DescRead.
From S2P Require Import ClientHandlers UnixPipelines UnixConnection RemoteConnection.
Local Open Scope Z_scope.

#[export] Instance tcp_wire : Wire := stream_frame_encode.

Record tcp_connection_t := mk_tcp { tcp_conn : remote_t; tcp_framer : stream_framer_t }.

(** What [SSL_read] returns: bytes, SSL_ERROR_WANT_READ, or another error. *)
Inductive ssl_read_result := SSL_DATA (data : bytes) | SSL_WANT_READ | SSL_FAILED.

Section Tcp.
Context {C : Cbor} {CS : CborSerial} {P : PeerInfo} {BL : Blake3}.
Variable env : remote_env.

Implicit Types t : tcp_connection_t.

Definition tcp_with t (r : remote_t * list remote_effect) : tcp_connection_t * list remote_effect :=
  (mk_tcp r.1 (tcp_framer t), r.2).

(** The bytes go to the framer, and each complete frame is dispatched. *)
Definition tcp_receive t (data : bytes) : option (tcp_connection_t * list remote_effect) :=
  let '(payloads, framer) := framer_receive (tcp_framer t) [data] in
  '(c, effs) ← dispatch_items env (tcp_conn t) payloads;
  Some (mk_tcp c framer, effs).

(** The loop of at most 16 reads; [reads] is what each [SSL_read] returns. *)
Fixpoint do_reads (batch : nat) (reads : list ssl_read_result) t : option (tcp_connection_t * list remote_effect) :=
  match batch, reads with
  | S batch, read :: reads =>
      if negb (rc_sock (tcp_conn t)) then Some (t, []) else
      match read with
      | SSL_WANT_READ => Some (t, [])
      | SSL_FAILED =>
          let '(t, effs) := tcp_with t (stop_watcher (tcp_conn t)) in
          Some (t, R_post CONNECTION_HANGUP :: effs)
      | SSL_DATA data =>
          '(t, e1) ← tcp_receive t data;
          '(t, e2) ← do_reads batch reads t;
          Some (t, e1 ++ e2)
      end
  | _, _ => Some (t, [])
  end.

Definition _connection_do_reads (reads : list ssl_read_result) t : option (tcp_connection_t * list remote_effect) :=
  if negb (rc_ssl (tcp_conn t)) then Some (t, []) else do_reads 16 reads t.

Definition tcp_connection_dispatch t (msg : remote_message) (reads : list ssl_read_result)
  : option (tcp_connection_t * list remote_effect) :=
  if rc_is_closing (tcp_conn t) then Some (t, []) else
  match msg with
  | CONNECTION_DATA data => if negb (rc_sock (tcp_conn t)) then Some (t, []) else tcp_receive t data
  | CONNECTION_READABLE =>
      let c := (tcp_conn t) <| rc_read_pending := false |> in
      if negb (rc_sock c) then Some (mk_tcp c (tcp_framer t), [])
      else _connection_do_reads reads (mk_tcp c (tcp_framer t))
  | _ =>
      match dispatch_common env (tcp_conn t) msg with
      | Some r => r ≫= (fun r => Some (tcp_with t r))
      | None => Some (t, [])
      end
  end.

Definition tcp_connection_create (ssl : bool) : tcp_connection_t := mk_tcp (remote_create env ssl) stream_framer_create.
End Tcp.
