(* ===== verification/WsUpgrade.v ===== *)
(** * WsUpgrade: the HTTP request that opens a WebSocket

    Models the helpers of src/src/ClientAPI/WS/ws_connection.c that read the
    upgrade request and compute the accept key.  SHA1 is OpenSSL's. *)

From S2P Require Import Prelude OffUrl.
From stdpp Require Import strings.
Local Open Scope Z_scope.

(** [SHA1]: a digest of SHA_DIGEST_LENGTH bytes. *)
Class Sha1 := sha1 : bytes -> bytes.
Class Sha1Laws (S : Sha1) := {
  sha1_length : forall data, length (sha1 data) = 20%nat;
  sha1_bytes : forall data, is_bytes (sha1 data)
}.

(** ** Base64 *)

Definition b64_table : bytes := lit "ABCDEFGHIJKLMNOPQRSTUVWXYZabcdefghijklmnopqrstuvwxyz0123456789+/".

Definition b64_char (i : Z) : Z := default 0 (b64_table !! Z.to_nat i).

Definition b64_group (octet_a octet_b octet_c : Z) : bytes :=
  let triple := Z.lor (Z.lor (Z.shiftl octet_a 16) (Z.shiftl octet_b 8)) octet_c in
  map (fun s => b64_char (Z.land (Z.shiftr triple s) 63)) [18; 12; 6; 0].

Fixpoint b64_groups (input : bytes) : bytes :=
  match input with
  | [] => []
  | [a] => b64_group a 0 0
  | [a; b] => b64_group a b 0
  | a :: b :: c :: input => b64_group a b c ++ b64_groups input
  end.

(** The last characters are overwritten by the padding. *)
Definition _base64_encode (input : bytes) : bytes :=
  let output := b64_groups input in
  match (length input mod 3)%nat with
  | 1%nat => take (length output - 2) output ++ lit "=="
  | 2%nat => take (length output - 1) output ++ lit "="
  | _ => output
  end.

(** ** Headers *)

Definition CRLF : bytes := [13; 10].

Fixpoint find_headers_end (i : nat) (data : bytes) : option nat :=
  match data with
  | [] => None
  | _ :: t =>
      if decide (take 4 data = CRLF ++ CRLF) then Some (i + 4)%nat
      else find_headers_end (S i) t
  end.

Definition _find_headers_end (data : bytes) : option nat := find_headers_end 0 data.

Definition to_lower (b : Z) : Z := if (65 <=? b) && (b <=? 90) then b + 32 else b.

(** [strncasecmp(data, s, strlen(s)) == 0], where [data] has at least as many
    bytes. *)
Definition starts_with (s data : bytes) : bool :=
  bool_decide ((length s <= length data)%nat) && bool_decide (map to_lower (take (length s) data) = map to_lower s).

Fixpoint contains (s data : bytes) : bool :=
  starts_with s data || match data with [] => false | _ :: data => contains s data end.

(** The value of a header: what is left of the line. *)
Fixpoint value_of (data : bytes) : bytes :=
  match data with
  | [] => []
  | b :: data => if (b =? 13) || (b =? 10) then [] else b :: value_of data
  end.

(** The values of the lines that start with a header's name, in order. *)
Fixpoint header_values (search data : bytes) : list bytes :=
  (if starts_with search data then [value_of (drop (length search) data)] else []) ++
  match data with [] => [] | _ :: data => header_values search data end.

Definition header_search (header_name : string) : bytes := CRLF ++ lit header_name ++ lit ": ".

Definition _header_contains (data : bytes) (header_name value : string) : bool :=
  existsb (contains (lit value)) (header_values (header_search header_name) data).

Definition is_blank (b : Z) : bool := (b =? 32) || (b =? 9).

Fixpoint trim_left (v : bytes) : bytes :=
  match v with b :: v' => if is_blank b then trim_left v' else v | [] => [] end.

Definition trim (v : bytes) : bytes := reverse (trim_left (reverse (trim_left v))).

(** The value of the first such line, as the C string it is used as. *)
Definition _header_get_value (data : bytes) (header_name : string) : option bytes :=
  v ← head (header_values (header_search header_name) data); Some (cstr (trim v)).

Definition ws_magic_guid : bytes := lit "258EAFA5-E914-47DA-95CA-C5AB0DC85B11".

Section Accept.
Context {S1 : Sha1}.

Definition _compute_ws_accept_key (client_key : bytes) : bytes := _base64_encode (sha1 (client_key ++ ws_magic_guid)).

Definition bad_response : bytes := lit "HTTP/1.1 400 Bad Request" ++ CRLF ++ CRLF.

Definition switching_protocols (accept_key : bytes) : bytes :=
  lit "HTTP/1.1 101 Switching Protocols" ++ CRLF ++ lit "Upgrade: websocket" ++ CRLF ++
  lit "Connection: Upgrade" ++ CRLF ++ lit "Sec-WebSocket-Accept: " ++ accept_key ++ CRLF ++ CRLF.

(** The response to the request, and whether the connection is upgraded. *)
Definition upgrade_response (data : bytes) : bytes * bool :=
  if negb (starts_with (lit "GET") data) then (bad_response, false) else
  if negb (_header_contains data "Upgrade" "websocket") || negb (_header_contains data "Connection" "Upgrade")
  then (bad_response, false) else
  match _header_get_value data "Sec-WebSocket-Key" with
  | None => (bad_response, false)
  | Some client_key => (switching_protocols (_compute_ws_accept_key client_key), true)
  end.
End Accept.

(** ** Lengths *)

Lemma b64_group_length a b c : length (b64_group a b c) = 4%nat.
Proof. done. Qed.

Lemma b64_groups_length input : length (b64_groups input) = (4 * ((length input + 2) / 3))%nat.
Proof.
  remember (length input) as n eqn:En. revert input En.
  induction n as [n IH] using lt_wf_ind. intros [|a [|b [|c input]]] ->; try done.
  change (b64_groups (a :: b :: c :: input)) with (b64_group a b c ++ b64_groups input).
  rewrite app_length, b64_group_length, (IH (length input)) by (cbn; lia || done).
  change (length (a :: b :: c :: input) + 2)%nat with (3 + length input + 2)%nat.
  replace (3 + length input + 2)%nat with (length input + 2 + 1 * 3)%nat by lia. rewrite Nat.div_add by lia. lia.
Qed.

(** The encoding has four characters for each group of three bytes. *)
Lemma base64_encode_length input : length (_base64_encode input) = (4 * ((length input + 2) / 3))%nat.
Proof.
  unfold _base64_encode. pose proof (b64_groups_length input) as Hl.
  pose proof (Nat.div_mod_eq (length input) 3) as Hd. pose proof (Nat.mod_upper_bound (length input) 3) as Hm.
  assert (length input mod 3 <> 0 -> 1 <= (length input + 2) / 3)%nat as Hpos.
  { intros Hz. apply Nat.div_le_lower_bound; [lia|]. destruct (length input); [done|lia]. }
  destruct (length input mod 3)%nat as [|[|[|k]]]; [done| | |lia].
  - rewrite app_length, length_take. cbn [length lit map String.list_ascii_of_string]. lia.
  - rewrite app_length, length_take. cbn [length lit map String.list_ascii_of_string]. lia.
Qed.

(** The test vectors of RFC 4648. *)
Lemma base64_vectors :
  _base64_encode (lit "f") = lit "Zg==" /\ _base64_encode (lit "fo") = lit "Zm8=" /\
  _base64_encode (lit "foobar") = lit "Zm9vYmFy".
Proof. vm_compute. done. Qed.

(** The accept key fits its 64 bytes and the response its 512. *)
Lemma upgrade_response_fits {S1 : Sha1} {SL : Sha1Laws S1} data key :
  (length (_compute_ws_accept_key key) < 64)%nat /\ (length (upgrade_response data).1 < 512)%nat.
Proof.
  assert (forall k, length (_compute_ws_accept_key k) = 28%nat) as Hk.
  { intros k. unfold _compute_ws_accept_key. by rewrite base64_encode_length, sha1_length. }
  rewrite Hk. split; [lia|]. unfold upgrade_response.
  repeat case_match; cbn [fst]; try (apply Nat.ltb_lt; vm_compute; reflexivity).
  unfold switching_protocols. rewrite !app_length, Hk. apply Nat.ltb_lt. vm_compute. reflexivity.
Qed.

(** ** Headers that arrive in parts *)

Lemma find_headers_end_app i p q n : find_headers_end i p = Some n -> find_headers_end i (p ++ q) = Some n.
Proof.
  revert i. induction p as [|b p IH]; intros i; [done|]. cbn [find_headers_end app].
  destruct (decide (take 4 (b :: p) = CRLF ++ CRLF)) as [E|E].
  - intros [= <-]. rewrite decide_True; [done|].
    change (b :: p ++ q) with ((b :: p) ++ q). rewrite take_app_le; [done|].
    apply (f_equal length) in E. rewrite length_take in E. cbn [length app CRLF] in E |- *. lia.
  - intros H. destruct (decide (take 4 (b :: p ++ q) = CRLF ++ CRLF)) as [E'|E']; [|by apply IH].
    exfalso. assert (length (b :: p) < 4)%nat as Hl.
    { destruct (Nat.lt_ge_cases (length (b :: p)) 4); [done|]. exfalso. apply E. rewrite <- E'.
      change (b :: p ++ q) with ((b :: p) ++ q). by rewrite take_app_le. }
    assert (forall j l m, find_headers_end j l = Some m -> (4 <= length l)%nat) as Hlen.
    { clear. intros j l. revert j. induction l as [|x l IH]; intros j m; [done|]. cbn [find_headers_end].
      destruct (decide (take 4 (x :: l) = CRLF ++ CRLF)) as [E|_].
      - intros _. apply (f_equal length) in E. rewrite length_take in E. cbn [length app CRLF] in E |- *. lia.
      - intros H. apply IH in H. cbn. lia. }
    apply Hlen in H. cbn [length] in Hl. lia.
Qed.

Lemma find_headers_end_bound i data n : find_headers_end i data = Some n -> (i + 4 <= n <= i + length data)%nat.
Proof.
  revert i. induction data as [|b data IH]; intros i; [done|]. cbn [find_headers_end].
  destruct (decide (take 4 (b :: data) = CRLF ++ CRLF)) as [E|_].
  - intros [= <-]. apply (f_equal length) in E. rewrite length_take in E. cbn [length app CRLF] in E |- *. lia.
  - intros H. apply IH in H. cbn [length]. lia.
Qed.
